(* ===== verification/_CoqProject ===== *)
-Q . S2P
Prelude.v
JsNumber.v
JsString.v
JsDate.v
JsBuffer.v
RationalTime.v
VideoTiming.v
StudioTiming.v
Enums.v
StudioRenderProgress.v
MimeTypes.v
MediaOperation.v
EditOperation.v
DuplicateReview.v
BulkOperation.v
BulkWorker.v
WorkflowJson.v
WorkflowDefinition.v
WorkflowRunnable.v
AlbumTree.v
SecretAttempts.v
CloudBackupManifest.v
CloudBackupRetention.v
CloudBackupMaintenance.v
CloudBackupVerify.v
StudioExportFormats.v
RenderAdmission.v
OperationStore.v
OperationLease.v
OperationRecovery.v
EditRun.v
EditClaim.v
EditDelivery.v
QueueRows.v
QueueStore.v
QueueInvariant.v
QueueMoves.v
QueueAttempts.v
QueueDependency.v
QueueClaiming.v
QueueAdmission.v
AssetUpload.v
AssetUploadManifest.v
AssetUploadSafety.v
AssetUploadRuns.v
AssetUploadPromises.v
ParallelUpload.v
EnrichmentPlan.v
EnrichmentRun.v
EnrichmentRecord.v
EnrichmentSafety.v
EnrichmentWorld.v
EnrichmentAlone.v
EnrichmentPromises.v
MlDestination.v
MlRoute.v
MlSelect.v
MlSafety.v
MlPromises.v
BackupSequence.v
BackupTurns.v
BackupPromises.v
AccessRows.v
AccessQueries.v
Access.v
AccessPolicy.v
AccessPromises.v
LockedFile.v
LockedFormat.v
LockedSegments.v
LockedPromises.v
LockedGuarantees.v
GpuWorkingBudget.v
