(* ===== verification/Prelude.v ===== *)
(** * Frameleaf: verification of the server's decision core

    Frameleaf is a self-hosted photo and video server.  Its NestJS server keeps the decisions it
    makes about data apart from the I/O around them: most modules of [src/server/src/utils] are pure
    TypeScript over plain rows, and the services and repositories call them between database and
    network calls.  This development models those decisions, and the stateful parts whose safety does
    not rest on one function: the rows of durable jobs, the job queue, uploads, the workers of bulk
    operations and enrichment plans, cloud backups and their clean-up, the backup sequence, the places
    machine learning may run, the access checks, and the format of locked files.  For each it proves what
    makes it correct.

    ** The parts and how they call each other

    - Access.  [AccessRows] has the tables the checks read and the predicates of Locked media, hidden
      content and owners' Locked rules (utils/database.ts, utils/locked.ts, utils/hidden-content.ts);
      [AccessQueries] every check of repositories/access.repository.ts as one statement over the rows;
      [Access] the requests of utils/access.ts.  [AccessPolicy] says without joins what each check of an
      item grants, and [AccessPromises] what that keeps.
    - Locked files (packages/locked-crypto/src/format.ts).  [LockedFile] has the format and its operations,
      over primitives that are an interface; [LockedFormat] the laws of that interface and the header,
      [LockedSegments] the segments, [LockedPromises] and [LockedGuarantees] the theorems.  [JsBuffer] is
      what it uses of node's buffers.
    - The job queue (src/queue).  [QueueRows] has its tables, keys and checks, [QueueStore] every
      transaction of store.ts that writes, [QueueAdmission] the slots a process admits executions to
      (admission.ts).  [QueueInvariant] has its invariant, [QueueMoves] the class that follows one row through
      every statement, and with them [QueueAttempts], [QueueDependency] and [QueueClaiming] the theorems.
    - Uploads.  [AssetUpload] is services/asset-upload-resource.service.ts with its repository and
      utilities, one operation for each transaction, file operation or read of a request;
      [AssetUploadManifest] the received parts, [AssetUploadSafety] and [AssetUploadRuns] the invariant,
      [AssetUploadPromises] what follows.  [ParallelUpload] is the browser's sender
      (web/src/lib/utils/parallel-upload.ts), which talks to [AssetUpload]'s row.
    - Durable jobs.  [MediaOperation] (utils/media-operation.ts) is the state machine every long job
      shares, with the resume point of a render; [OperationStore] the rows it is kept in, one statement of
      repositories/media-operation.repository.ts each; [OperationLease] the contract they implement and
      [OperationRecovery] what becomes of a job.  [EditOperation] (utils/edit-operation.ts) records an
      edit as such a job, and [EditRun], [EditClaim], [EditDelivery] run it under its row
      (utils/edit-operation-tracker.ts).
    - Enrichment.  [EnrichmentPlan] (utils/enrichment-plan.ts) has the rules of a plan, [EnrichmentRun]
      (services/enrichment-plan.service.ts) the worker, on the statements of [OperationStore];
      [EnrichmentRecord], [EnrichmentSafety], [EnrichmentWorld] and [EnrichmentAlone] follow the record
      through any interleaving, [EnrichmentPromises] has the theorems.
    - Bulk actions.  [BulkOperation] (utils/bulk-operation.ts) has the rows and rules of one action over
      thousands of photos, [BulkWorker] (services/bulk-operation.service.ts) the run of such an
      operation; [DuplicateReview] (utils/duplicate-review.ts, utils/duplicate.ts) the decisions over
      groups of duplicates, which are one of the bulk actions.
    - Machine learning.  [MlDestination] (utils/ml-destination.ts) says which destination may do which
      work, [MlRoute] (utils/ml-processing-order.ts) in which order they are tried, [MlSelect]
      ([selectMlDestination], and [selectRoutedMlDestination] of services/base.service.ts) admits one
      request; [MlSafety] and [MlPromises] have the theorems.
    - Cloud backups.  [CloudBackupManifest] and [CloudBackupRetention] (utils/cloud-backup-retention.ts,
      cloud-backup.ts, cloud-backup-crypto.ts) read manifests and decide what is kept;
      [CloudBackupMaintenance] and [CloudBackupVerify] (services/cloud-backup-maintenance.ts) remove and
      check.  [BackupSequence], [BackupTurns] and [BackupPromises] (utils/backup-sequence.ts,
      services/backup-sequence.service.ts) run the three kinds of backup one after the other.
    - Exact time.  [RationalTime] (utils/rational-time.ts) is the arithmetic of reduced fractions of
      safe integers.  [VideoTiming] (utils/video-timing.ts) builds a source's timestamp mapping with
      it, [StudioTiming] (utils/studio-timing.ts) maps a frame of the Studio timeline to source
      instants, ticks, audio samples and the output grid.
    - Render workers.  [RenderAdmission] (utils/render-admission.ts) decides whether a worker gets a
      session, takes an operation and keeps it; it reads the formats of [StudioExportFormats]
      (utils/studio-export-formats.ts) and the kinds of [MediaOperation].  [GpuWorkingBudget]
      (utils/gpu-working-budget.ts) decides how much measured GPU memory such a worker may use, and
      [StudioRenderProgress] (utils/studio-render-progress.ts) adds up what it reports.
    - Workflows.  [WorkflowJson] and [WorkflowDefinition] (utils/workflow-definition.ts,
      utils/workflow.ts): the limits on a stored document, the credentials in it, and whether a
      definition can run, which [WorkflowRunnable] says in its own words.
    - The rest.  [AlbumTree] (utils/album-tree.ts) is the directory of albums and its views;
      [SecretAttempts] (utils/secret-attempts.ts) the lockout of PINs and Locked secrets; [MimeTypes]
      (utils/mime-types.ts, utils/file.ts) file types; [Enums] (enum.ts) the enumerations all of these
      branch on, with their stored strings.

    ** How the code is read

    A function of the source is the Rocq function of the same name.  A helper expression or loop that
    needs a name of its own has one that says what it is ([merge_step] is the body of the loop of
    [mergeBulkOutcomes]).  A [throw] is [Throw] of the type [res] below, with one constructor per
    throwing site; a decision record is a record; a union of string literals is an inductive type.
    [JsNumber], [JsString] and [JsDate] hold the parts of the language and its standard library that
    the code uses:

    - a JavaScript number that the code keeps integral is a [Z], with rounding to binary64 written
      out ([fl_int], [fl_floor_div]) where the code may pass 2^53; a computed float is the binary64
      value nearest to the exact rational ([fl], ties to even); numbers read from stored JSON are
      [jsnum], which also has non-integers, the infinities and NaN.  The exponent range is not
      modelled, and minus zero is identified with zero;
    - a string is a sequence of 8-bit code units; a row of the database is a [json] or a record;
    - a [Date] is its time in milliseconds, [None] when invalid; [Date.parse] is modelled for the
      [toISOString] form, and any other form is the parameter [other_formats];
    - a [Map] is an association list in insertion order, with [assoc_get] and [assoc_set]; sorting is
      the stable sort by a comparator ([sort_by]), determined when the comparator is a [Comparator].

    State that the code mutates is passed explicitly, in one of three forms:

    - a statement or transaction of the database is a function from the rows to an answer and the rows
      after it ([OperationStore.handle], [QueueStore.perform], [AssetUpload.perform]); what PostgreSQL
      runs as one transaction is one step, and a run is any sequence of steps, so that every interleaving
      of processes is covered.  A check of [AccessQueries] only reads;
    - a method that does several of them is a program ([io]) over its effects.  [EditRun] and
      [EnrichmentRun] run on the statements of [OperationStore], with anything in between two effects;
      [MlSelect] and [BackupSequence] ask questions that may have any answer or throw, and their
      histories are the traces of [runs];
    - a loop with variables of its own is a step relation: [BulkWorker.step], [SecretAttempts.step],
      [ParallelUpload.arrive], with crashes, lost answers and cut-off requests as steps.

    ** What the theorems show

    - Access (C1, C2): locked media and what an owner's Locked rules hide reach nobody else; reading is
      granted on a ground and on every ground.  C1 takes live photos to be locked as a whole, which other
      code keeps: without it an album or a link would carry a still's locked motion part.
    - Locked files (C3 to C5): a tampered file shows nothing but its original, taken that nobody seals under
      its keys; what was locked is read back, from any place, by its recipients alone; other recipients get
      exactly what it holds.
    - The job queue (C6 to C9, C16): the starts of a job, less those that were given back, are bounded by
      the statements that ask for it, a claim that was lost writes nothing, what a claim takes is exact,
      nothing waits on a job that fails (a restore apart, which can leave such a job behind), and the slots
      of a process are never exceeded.
    - Uploads (C10 to C15): acknowledged bytes are kept, the offset is the received prefix, a published
      asset is the declared file, it is charged once; the browser's sender ends with the whole file on the
      server, within a bound of turns.
    - Durable jobs (C17 to C20, C29): the rows implement the lease contract (a refinement, each statement a
      step of the one who makes it), a lost claim is fenced for ever, recovery settles every lapsed claim, a
      cancel ends a job whose lease has lapsed for good, and a delivery of an edit settles its row.
    - Enrichment (C21 to C25): runs of a stage are bounded, and under what the plan pinned, a settled
      outcome stands, a plan left alone
      completes, a completed plan has an answer for every asset, and a lapsed plan is not run again by
      itself.
    - Machine learning (C26 to C28): nothing is contacted that was not cleared, routed work stays in its
      order, and the candidates are those of the order, written out without the code that plans them.
    - Bulk actions (C30, C31): a date shift moves each item once; C31 proves how a start carried over by a
      manual retry is lost.
    - Backups (C33 to C36): a clean-up stopped anywhere has not touched what the kept manifests name, a
      verification resumes where it was, the places of a run go in turn, and nothing holds the run up but a
      backup that is being made.
    - Secrets (C32), workflows (C37, C38), albums (C39), time (C40): guesses are bounded and counted; restoring
      credentials brings back the stored ones and nothing else, and a definition without issues is one that
      can run; the recursive view of any directory is a forest with every album once; a rational is
      canonical.

    The files have more theorems of the same standing than these: every operation of exact time is exact
    or throws ([RationalTime], [VideoTiming], [StudioTiming]), the resume point is the latest safe one
    ([MediaOperation]), a job of decisions never trashes what it keeps ([DuplicateReview]), a
    verification checks everything ([CloudBackupVerify.verify_checks_all]), a job runs twice at most
    ([OperationRecovery.at_most_two_runs]), a worker gets an operation exactly under its conditions
    ([RenderAdmission.claim_admission_exact]), a bulk row reads back as written
    ([BulkOperation.bulk_row_roundtrip]), a manual retry covers exactly what is left
    ([EnrichmentPromises.manual_retry_exact]).  Many statements are equivalences (accepted exactly when;
    thrown exactly when), so they cover every branch.  Each theorem with hypotheses is followed by a
    witness, a concrete instance of it.

    ** Fuel

    Loops that are not structural take fuel, and the theorems above are about the fuel given.
    [gcd_loop] has enough by halving every two steps ([gcd_loop_spec]); the repair loops of
    [floorDivide] end within their four steps on safe integers ([floorDivide_total]) and take none where
    [floorDivide_exact] applies; running out would be an error of its own.  [chunk_loop] and
    [chunks] have the length of the list ([chunk_loop_spec], [concat_chunks]); [split_from] one turn per
    byte; [dec_digits] the bit length of the number ([dec_digits_value]); [walk_up] and [album_node] one
    step per album ([walk_up_total], and C39 that no album is missing).  The closures of queries
    ([blocked_by], [recoverable], the lineage of an export) turn once for every row there is, after which
    nothing is added ([repeat_next_fixed]); [retry_pages] once for every job and once more; [visit]
    twice for every place of the backup sequence, after which the loop has ended ([turns_suffice]);
    [withImpliedItems] is as deep as the hierarchy of types; [read_loop] has one turn for every byte asked
    for and one more ([readFully_exact]).  The other recursions are structural, or on
    the depth of the JSON document itself.

    ** Parameters

    What the source calls and this repository does not define is an argument: the Intl time-zone
    database ([isTimeZone]), [Date.parse] on host-specific forms, the decimal spelling of non-integral
    numbers ([number_text]), the zod and cron validators, decompression and [JSON.parse] of a manifest
    ([decode]), digests ([Digests], [Texts]), the ciphers of locked files ([Crypto], with [CryptoLaws]), fresh
    keys and identifiers ([Uuids], distinct among themselves).
    What the modelled code asks of other services is an answer that may be anything: the answers a batch
    is sent ([BulkWorker.honest] is what is assumed of an [ok] answer to a shift), what a stage of a plan
    does, the questions of [MlSelect] and [BackupSequence], the bucket of a backup, whether an actor may
    still upload.  Each statement of an access request reads a library of its own moment ([db]).

    ** Not modelled

    Left out of the parts that are modelled:
    - access: the splitting of long lists and the auth service that fills a session's filter;
    - operation rows: direct updates by other services, [withExportArtifact], [createStudioReverseCommand]
      and [createCloudDescriptionBatches], which lock other tables, exceptions and lock timeouts of the
      database, reads that only list; [cancelRevision] of the edit tracker; the failure texts of an export;
    - the queue's counts and reads, the pruning of its history, wake notifications, supervisor and watchdog;
    - uploads: parsing of headers and metadata, [finishUploadAsset], checksum evidence, references to a
      file from tables other than assets;
    - enrichment: options, preview and submission of a plan, and the digests of provenance;
    - machine learning: the sentences of refusals, the accounting hook, [restorationRoleConflict];
    - backups: cron timers, the settings page, backup-location-selection.ts;
    - locked files: wiping keys from memory, and the key files of keys.ts and recovery.ts;
    - renders: the signed input grants, which are base64, [JSON.parse] and an HMAC;
    - of [Enums] the enumerations no modelled function reads.

    Left out entirely: the other repositories and services, whose content is what PostgreSQL, ffmpeg,
    sharp or a cloud API does with what they are handed; HTTP controllers and DTOs, which are
    declarations; the web client and the editor, which are views; generated clients; and the machine
    learning service, which is Python. *)

From Stdlib Require Export Ascii.
From stdpp Require Export base tactics decidable gmap strings list fin_maps sorting.
From Stdlib Require Export ZArith Lia.

(** ** Notations, scope and automation *)

Declare Scope js_scope.
Delimit Scope js_scope with js.
Create HintDb frameleaf.
Create Rewrite HintDb frameleaf.

#[export] Set Default Goal Selector "!".
#[export] Set Warnings "-clear-no-such-hyp".

(** ** Results: a value, or a thrown error *)

Inductive res (E A : Type) : Type :=
| Ok (a : A)
| Throw (e : E).
Arguments Ok {E A} a.
Arguments Throw {E A} e.

#[export] Instance res_ret {E} : MRet (res E) := fun A a => Ok a.
#[export] Instance res_bind {E} : MBind (res E) :=
  fun A B f m => match m with Ok a => f a | Throw e => Throw e end.
#[export] Instance res_fmap {E} : FMap (res E) :=
  fun A B f m => match m with Ok a => Ok (f a) | Throw e => Throw e end.

#[export] Instance res_eq_dec {E A} `{EqDecision E, EqDecision A} : EqDecision (res E A).
Proof. solve_decision. Defined.

Definition is_ok {E A} (m : res E A) : bool :=
  match m with Ok _ => true | Throw _ => false end.

(** [try { m } catch { return d }]. *)
Definition catch {E A} (m : res E A) (d : A) : A :=
  match m with Ok a => a | Throw _ => d end.

Definition to_option {E A} (m : res E A) : option A :=
  match m with Ok a => Some a | Throw _ => None end.

(** [if (!b) throw e]. *)
Definition ensure {E} (b : bool) (e : E) : res E unit := if b then Ok tt else Throw e.

(** Run a fallible step on every element, left to right, stopping at the first throw. *)
Fixpoint traverse {E A B} (f : A -> res E B) (l : list A) : res E (list B) :=
  match l with
  | [] => Ok []
  | x :: l' => y ← f x; ys ← traverse f l'; Ok (y :: ys)
  end.

(** ** Comparators and the stable sort of [Array.prototype.sort]

    A comparator returns a signed number, as in JavaScript.  [sort_by] is insertion sort: for a
    consistent comparator the ECMAScript sort is required to be stable, so its result is the one
    stable arrangement ([sort_by_perm], [sort_by_sorted], [sort_by_stable]). *)

Section sort.
Context {A : Type} (cmp : A -> A -> Z).

Fixpoint insert_by (x : A) (l : list A) : list A :=
  match l with
  | [] => [x]
  | y :: l' => if (cmp x y <=? 0)%Z then x :: y :: l' else y :: insert_by x l'
  end.

Fixpoint sort_by (l : list A) : list A :=
  match l with
  | [] => []
  | x :: l' => insert_by x (sort_by l')
  end.

End sort.

(** What a comparator has to satisfy for its sort to be determined. *)
Class Comparator {A} (cmp : A -> A -> Z) : Prop := {
  cmp_total : forall x y, (cmp x y <= 0 \/ cmp y x <= 0)%Z;
  cmp_trans : forall x y z, (cmp x y <= 0 -> cmp y z <= 0 -> cmp x z <= 0)%Z
}.

Definition cmp_le {A} (cmp : A -> A -> Z) (x y : A) : Prop := (cmp x y <= 0)%Z.

(** JavaScript's [<] on strings, as a comparator ([compareCodeUnits]). *)
Definition compareCodeUnits (a b : string) : Z :=
  match String.compare a b with Lt => -1 | Eq => 0 | Gt => 1 end.

(** [a || b] on comparator results: the second decides when the first says equal. *)
Definition or_cmp (a b : Z) : Z := if (a =? 0)%Z then b else a.

(** [[...new Set(l)]]: the first occurrence of every value, in order. *)
Fixpoint uniq_from {A} `{EqDecision A} (seen : list A) (l : list A) : list A :=
  match l with
  | [] => []
  | x :: l' => if bool_decide (x ∈ seen) then uniq_from seen l' else x :: uniq_from (x :: seen) l'
  end.
Definition uniq {A} `{EqDecision A} (l : list A) : list A := uniq_from [] l.

(** A JavaScript [Map] (or an object used as one) with its insertion order: setting a present key
    keeps its place. *)
Section assoc.
Context {K V : Type} `{EqDecision K}.

Fixpoint assoc_get (k : K) (l : list (K * V)) : option V :=
  match l with
  | [] => None
  | (k', v) :: l' => if decide (k = k') then Some v else assoc_get k l'
  end.
Fixpoint assoc_set (k : K) (v : V) (l : list (K * V)) : list (K * V) :=
  match l with
  | [] => [(k, v)]
  | (k', w) :: l' => if decide (k = k') then (k', v) :: l' else (k', w) :: assoc_set k v l'
  end.
Definition assoc_has (k : K) (l : list (K * V)) : bool :=
  match assoc_get k l with Some _ => true | None => false end.
End assoc.

(** [l.includes(x)]. *)
Definition includes {A} `{EqDecision A} (x : A) (l : list A) : bool := bool_decide (x ∈ l).

(** [l.slice(i, j)] for [0 <= i]. *)
Definition slice {A} (i j : nat) (l : list A) : list A := take (j - i) (drop i l).

(** [for (let at = 0; at < l.length; at += size) ... l.slice(at, at + size)]: the fuel is the length. *)
Fixpoint chunks_of {A} (fuel size : nat) (l : list A) : list (list A) :=
  match fuel with
  | O => []
  | S fuel => match l with [] => [] | _ => take size l :: chunks_of fuel size (drop size l) end
  end.
Definition chunks {A} (size : nat) (l : list A) : list (list A) := chunks_of (length l) size l.

(** ** Generic lemmas *)

Lemma bind_Ok {E A B} (m : res E A) (f : A -> res E B) (b : B) :
  (m ≫= f) = Ok b <-> exists a, m = Ok a /\ f a = Ok b.
Proof.
  destruct m as [a|e]; simpl; split.
  - eauto.
  - intros (a' & Ha & Hf). by simplify_eq.
  - discriminate.
  - intros (a' & Ha & _). discriminate.
Qed.

Lemma bind_Throw {E A B} (m : res E A) (f : A -> res E B) (e : E) :
  (m ≫= f) = Throw e <-> m = Throw e \/ exists a, m = Ok a /\ f a = Throw e.
Proof.
  destruct m as [a|e']; simpl; split.
  - eauto.
  - intros [?|(a' & Ha & Hf)]; by simplify_eq.
  - intros ?; simplify_eq; auto.
  - intros [?|(a' & Ha & _)]; by simplify_eq.
Qed.

Lemma ensure_Ok {E} (b : bool) (e : E) (u : unit) : ensure b e = Ok u <-> b = true.
Proof. destruct b, u; simpl; split; done. Qed.

Lemma traverse_Ok {E A B} (f : A -> res E B) (l : list A) (l' : list B) :
  traverse f l = Ok l' <-> Forall2 (fun x y => f x = Ok y) l l'.
Proof.
  revert l'; induction l as [|x l IH]; intros l'; simpl; split.
  - intros [= <-]. constructor.
  - inversion 1. done.
  - intros (y & Hy & (ys & Hys & [= <-])%bind_Ok)%bind_Ok.
    constructor; [done|]. by apply IH.
  - inversion 1 as [|? y ? ys Hxy Hl]; subst. apply IH in Hl.
    by rewrite Hxy; simpl; rewrite Hl.
Qed.

Lemma traverse_map_Ok {E A B} (f : A -> res E B) (g : A -> B) (l : list A) :
  (forall x, x ∈ l -> f x = Ok (g x)) -> traverse f l = Ok (map g l).
Proof.
  induction l as [|x l IH]; intros H; simpl; [done|].
  rewrite H by set_solver. simpl. rewrite IH by set_solver. done.
Qed.

(** Step over a computation that has returned, without unfolding what follows. *)
Ltac res_step := cbn [mbind res_bind mret res_ret fmap res_fmap].

(** Split every hypothesis that says a composed computation returned. *)
Ltac inv_res :=
  repeat match goal with
  | H : (_ ≫= _) = Ok _ |- _ => apply bind_Ok in H as (? & ? & ?)
  | H : Ok _ = Ok _ |- _ => injection H as H
  | H : Throw _ = Ok _ |- _ => discriminate H
  | H : Ok _ = Throw _ |- _ => discriminate H
  | H : ensure _ _ = Ok _ |- _ => apply ensure_Ok in H
  | H : (if ?b then Throw _ else _) = Ok _ |- _ => destruct b eqn:?; [discriminate H|]
  | H : (if ?b then _ else Throw _) = Ok _ |- _ => destruct b eqn:?; [|discriminate H]
  end.

(** Turn boolean tests in the context into propositions. *)
Ltac to_prop :=
  repeat match goal with
  | H : (_ && _)%bool = true |- _ => apply andb_true_iff in H as [? ?]
  | H : (_ || _)%bool = false |- _ => apply orb_false_iff in H as [? ?]
  | H : negb _ = true |- _ => apply negb_true_iff in H
  | H : negb _ = false |- _ => apply negb_false_iff in H
  | H : bool_decide _ = true |- _ => apply bool_decide_eq_true_1 in H
  | H : bool_decide _ = false |- _ => apply bool_decide_eq_false_1 in H
  | H : (_ =? _)%Z = true |- _ => apply Z.eqb_eq in H
  | H : (_ =? _)%Z = false |- _ => apply Z.eqb_neq in H
  | H : (_ <=? _)%Z = true |- _ => apply Z.leb_le in H
  | H : (_ <=? _)%Z = false |- _ => apply Z.leb_gt in H
  | H : (_ <? _)%Z = true |- _ => apply Z.ltb_lt in H
  | H : (_ <? _)%Z = false |- _ => apply Z.ltb_ge in H
  | H : String.eqb _ _ = true |- _ => apply String.eqb_eq in H
  | H : String.eqb _ _ = false |- _ => apply String.eqb_neq in H
  end.

Lemma includes_true {A} `{EqDecision A} (x : A) l : includes x l = true <-> x ∈ l.
Proof. apply bool_decide_eq_true. Qed.
Lemma includes_false {A} `{EqDecision A} (x : A) l : includes x l = false <-> x ∉ l.
Proof. apply bool_decide_eq_false. Qed.

Lemma elem_of_rev {A} (x : A) l : x ∈ rev l <-> x ∈ l.
Proof. by rewrite !list_elem_of_In, <- in_rev. Qed.
Lemma elem_of_filter_b {A} (p : A -> bool) (x : A) l : x ∈ List.filter p l <-> x ∈ l /\ p x = true.
Proof. by rewrite !list_elem_of_In, filter_In. Qed.
Lemma elem_of_flat_map {A B} (f : A -> list B) (y : B) l : y ∈ flat_map f l <-> exists x, x ∈ l /\ y ∈ f x.
Proof. rewrite list_elem_of_In, in_flat_map. by setoid_rewrite list_elem_of_In. Qed.
Lemma elem_of_concat_l {A} (x : A) ls : x ∈ concat ls <-> exists l, l ∈ ls /\ x ∈ l.
Proof. rewrite list_elem_of_In, in_concat. by setoid_rewrite list_elem_of_In. Qed.
Lemma NoDup_filter_b {A} (p : A -> bool) (l : list A) : NoDup l -> NoDup (List.filter p l).
Proof. rewrite !NoDup_ListNoDup. apply List.NoDup_filter. Qed.
(** What [List.find] finds is the first that passes. *)
Lemma find_split {A} (p : A -> bool) l a : List.find p l = Some a ->
  exists pre post, l = pre ++ a :: post /\ p a = true /\ forall x, x ∈ pre -> p x = false.
Proof.
  induction l as [|y l IH]; [done|]. cbn. destruct (p y) eqn:E.
  - intros [= ->]. exists [], l. split; [done|]. split; [done|]. by intros x ?%not_elem_of_nil.
  - intros H. destruct (IH H) as (pre & post & -> & Ha & Hp). exists (y :: pre), post. split; [done|]. split; [done|].
    intros x [->|Hx]%elem_of_cons; [done|by apply Hp].
Qed.
Lemma find_none_in {A} (p : A -> bool) l : List.find p l = None -> forall x, x ∈ l -> p x = false.
Proof. intros H x Hx. apply (List.find_none _ _ H). by apply list_elem_of_In. Qed.

Lemma filter_b_all {A} (p : A -> bool) l : (forall x, x ∈ l -> p x = true) -> List.filter p l = l.
Proof. induction l as [|x l IH]; simpl; [done|]. intros H. rewrite H, IH by set_solver. done. Qed.
Lemma filter_b_none {A} (p : A -> bool) l : (forall x, x ∈ l -> p x = false) -> List.filter p l = [].
Proof. induction l as [|x l IH]; simpl; [done|]. intros H. rewrite H, IH by set_solver. done. Qed.
Lemma filter_b_perm {A} (p : A -> bool) l k : Permutation l k -> Permutation (List.filter p l) (List.filter p k).
Proof.
  induction 1 as [|x l k _ IH|x y l|l k h _ IH1 _ IH2]; simpl; [done| | |by etransitivity].
  - destruct (p x); [by constructor|done].
  - destruct (p x), (p y); try done. apply Permutation_swap.
Qed.

Lemma omap_cons {A B} (f : A -> option B) x (l : list A) :
  omap f (x :: l) = match f x with Some y => y :: omap f l | None => omap f l end.
Proof. done. Qed.

Section sort_lemmas.
Context {A : Type} (cmp : A -> A -> Z).

Lemma insert_by_perm x l : Permutation (insert_by cmp x l) (x :: l).
Proof.
  induction l as [|y l IH]; simpl; [done|].
  case_match; [done|]. rewrite IH. apply Permutation_swap.
Qed.

Lemma sort_by_perm l : Permutation (sort_by cmp l) l.
Proof.
  induction l as [|x l IH]; simpl; [done|]. by rewrite insert_by_perm, IH.
Qed.

Lemma insert_by_sorted `{!Comparator cmp} x l :
  StronglySorted (cmp_le cmp) l -> StronglySorted (cmp_le cmp) (insert_by cmp x l).
Proof.
  unfold cmp_le. induction 1 as [|y l Hl IH Hy]; simpl.
  - by repeat constructor.
  - destruct (Z.leb_spec (cmp x y) 0) as [Hxy|Hxy].
    + constructor; [by constructor|]. constructor; [done|].
      eapply Forall_impl; [exact Hy|]. intros z Hz; simpl in *. by eapply cmp_trans.
    + constructor; [done|]. rewrite insert_by_perm. constructor; [|done].
      destruct (cmp_total (cmp := cmp) x y); lia.
Qed.

Lemma sort_by_sorted `{!Comparator cmp} l : StronglySorted (cmp_le cmp) (sort_by cmp l).
Proof. induction l; simpl; [constructor|by apply insert_by_sorted]. Qed.

(** Elements the comparator does not separate keep their order. *)
Lemma insert_by_stable (P : A -> Prop) `{!forall x, Decision (P x)} x l :
  (forall a b, P a -> P b -> (cmp a b <= 0)%Z) ->
  filter P (insert_by cmp x l) = filter P (x :: l).
Proof.
  intros HP. induction l as [|y l IH]; simpl; [done|].
  destruct (Z.leb_spec (cmp x y) 0) as [Hxy|Hxy]; [done|].
  rewrite !filter_cons, IH, filter_cons.
  destruct (decide (P x)), (decide (P y)); try done.
  exfalso. assert (cmp x y <= 0)%Z by auto. lia.
Qed.

Lemma sort_by_stable (P : A -> Prop) `{!forall x, Decision (P x)} l :
  (forall a b, P a -> P b -> (cmp a b <= 0)%Z) ->
  filter P (sort_by cmp l) = filter P l.
Proof.
  intros HP. induction l as [|x l IH]; simpl; [done|].
  rewrite insert_by_stable by done. rewrite !filter_cons, IH. done.
Qed.

Lemma sort_by_elem x l : x ∈ sort_by cmp l <-> x ∈ l.
Proof. by rewrite (sort_by_perm l). Qed.
Lemma sort_by_length l : length (sort_by cmp l) = length l.
Proof. by rewrite (sort_by_perm l). Qed.

(** Sorting what is already sorted changes nothing. *)
Lemma sort_by_id l : StronglySorted (cmp_le cmp) l -> sort_by cmp l = l.
Proof.
  induction 1 as [|x l Hl IH Hx]; simpl; [done|]. rewrite IH.
  destruct l as [|y l]; [done|]. simpl. inversion Hx as [|? ? Hxy]; subst.
  unfold cmp_le in Hxy. by rewrite (proj2 (Z.leb_le _ _) Hxy).
Qed.
End sort_lemmas.

Lemma compareCodeUnits_le a b : (compareCodeUnits a b <= 0)%Z <-> String.le a b.
Proof.
  unfold compareCodeUnits, String.le, String.leb.
  destruct (String.compare a b); simpl; split; intros H; try lia; done.
Qed.

#[export] Instance compareCodeUnits_comparator : Comparator compareCodeUnits.
Proof.
  split.
  - intros x y. rewrite !compareCodeUnits_le. apply total, _.
  - intros x y z. rewrite !compareCodeUnits_le. apply transitivity.
Qed.

Lemma compareCodeUnits_antisym a b : compareCodeUnits b a = (- compareCodeUnits a b)%Z.
Proof.
  unfold compareCodeUnits. rewrite String.compare_antisym. by destruct (String.compare a b).
Qed.

Lemma compareCodeUnits_eq a b : compareCodeUnits a b = 0%Z <-> a = b.
Proof.
  split.
  - unfold compareCodeUnits. destruct (String.compare a b) eqn:H; try lia.
    intros _. by apply String.compare_eq_iff.
  - intros ->. pose proof (compareCodeUnits_antisym b b). lia.
Qed.

Section uniq_lemmas.
Context {A : Type} `{EqDecision A}.

Lemma elem_of_uniq_from (x : A) (seen l : list A) : x ∈ uniq_from seen l <-> x ∈ l /\ x ∉ seen.
Proof.
  revert seen; induction l as [|y l IH]; intros seen; simpl; [set_solver|].
  case_bool_decide; [rewrite IH; set_solver|].
  rewrite elem_of_cons, IH, elem_of_cons. destruct (decide (x = y)); set_solver.
Qed.
Lemma elem_of_uniq (x : A) l : x ∈ uniq l <-> x ∈ l.
Proof. unfold uniq. rewrite elem_of_uniq_from. set_solver. Qed.

Lemma NoDup_uniq_from (seen l : list A) : NoDup (uniq_from seen l).
Proof.
  revert seen; induction l as [|y l IH]; intros seen; simpl; [constructor|].
  case_bool_decide; [done|]. constructor; [|done]. rewrite elem_of_uniq_from. set_solver.
Qed.
Lemma NoDup_uniq (l : list A) : NoDup (uniq l).
Proof. apply NoDup_uniq_from. Qed.

Lemma uniq_from_NoDup_id (seen l : list A) : NoDup l -> (forall x, x ∈ l -> x ∉ seen) -> uniq_from seen l = l.
Proof.
  intros Hl; revert seen; induction Hl as [|x l Hx Hl IH]; intros seen Hs; simpl; [done|].
  rewrite bool_decide_eq_false_2 by set_solver. f_equal. apply IH. set_solver.
Qed.
Lemma uniq_NoDup_id (l : list A) : NoDup l -> uniq l = l.
Proof. intros; apply uniq_from_NoDup_id; set_solver. Qed.

Lemma length_uniq_from_le (seen l : list A) : length (uniq_from seen l) <= length l.
Proof.
  revert seen; induction l as [|y l IH]; intros seen; simpl; [done|].
  case_bool_decide; simpl; [specialize (IH seen)|specialize (IH (y :: seen))]; lia.
Qed.

Lemma uniq_from_length_NoDup (seen l : list A) : length (uniq_from seen l) = length l -> NoDup l /\ (forall x, x ∈ l -> x ∉ seen).
Proof.
  revert seen; induction l as [|y l IH]; intros seen; simpl; [split; [constructor|set_solver]|].
  case_bool_decide; simpl; intros Hlen.
  - pose proof (length_uniq_from_le seen l); lia.
  - destruct (IH (y :: seen)) as [Hnd Hs]; [lia|]. split; [constructor; set_solver|set_solver].
Qed.

(** [new Set(l).size === l.length] says that [l] has no repetition. *)
Lemma uniq_length_NoDup (l : list A) : length (uniq l) = length l <-> NoDup l.
Proof.
  split.
  - intros H%uniq_from_length_NoDup. tauto.
  - intros. by rewrite uniq_NoDup_id.
Qed.

(** A list with no other values has no more of them. *)
Lemma uniq_length_mono (l k : list A) : (forall x, x ∈ l -> x ∈ k) -> length (uniq l) <= length (uniq k).
Proof.
  intros H. apply submseteq_length, NoDup_submseteq; [apply NoDup_uniq|]. intros x. rewrite !elem_of_uniq. apply H.
Qed.
End uniq_lemmas.

Section assoc_lemmas.
Context {K V : Type} `{EqDecision K}.
Implicit Types (k : K) (v : V) (l : list (K * V)).

Lemma assoc_get_set k k' v l : assoc_get k' (assoc_set k v l) = if decide (k' = k) then Some v else assoc_get k' l.
Proof.
  induction l as [|[k2 w] l IH]; simpl; [done|].
  destruct (decide (k = k2)) as [<-|Hne]; simpl.
  - by destruct (decide (k' = k)).
  - rewrite IH. destruct (decide (k' = k2)), (decide (k' = k)); congruence.
Qed.
Lemma assoc_get_set_eq k v l : assoc_get k (assoc_set k v l) = Some v.
Proof. rewrite assoc_get_set. by rewrite decide_True. Qed.
Lemma assoc_get_set_ne k k' v l : k' <> k -> assoc_get k' (assoc_set k v l) = assoc_get k' l.
Proof. intros. rewrite assoc_get_set. by rewrite decide_False. Qed.

Lemma assoc_has_true k l : assoc_has k l = true <-> k ∈ map fst l.
Proof.
  unfold assoc_has. induction l as [|[k' v] l IH]; simpl.
  - split; [done|]. by intros ?%elem_of_nil.
  - rewrite elem_of_cons. destruct (decide (k = k')); [tauto|]. rewrite IH. tauto.
Qed.
Lemma assoc_get_None k l : assoc_get k l = None <-> k ∉ map fst l.
Proof. rewrite <- assoc_has_true. unfold assoc_has. destruct (assoc_get k l); split; congruence. Qed.

Lemma assoc_get_Some_elem k v l : assoc_get k l = Some v -> (k, v) ∈ l.
Proof.
  induction l as [|[k' w] l IH]; simpl; [done|]. rewrite elem_of_cons.
  destruct (decide (k = k')) as [->|]; [intros [= ->]; by left|auto].
Qed.

Lemma assoc_set_elem k v k' v' l : (k', v') ∈ assoc_set k v l -> (k' = k /\ v' = v) \/ (k', v') ∈ l.
Proof.
  induction l as [|[k2 w] l IH]; simpl.
  - intros [= -> ->]%list_elem_of_singleton. by left.
  - destruct (decide (k = k2)) as [->|]; rewrite !elem_of_cons; [|naive_solver].
    intros [[= -> ->]|H]; [by left|by right; right].
Qed.

(** The keys after a [set]: a new key goes last. *)
Lemma assoc_set_keys k v l :
  map fst (assoc_set k v l) = if decide (k ∈ map fst l) then map fst l else map fst l ++ [k].
Proof.
  induction l as [|[k' w] l IH]; simpl; [done|].
  destruct (decide (k = k')) as [->|Hne]; simpl.
  - rewrite decide_True; [done|]. apply elem_of_cons. by left.
  - rewrite IH. destruct (decide (k ∈ map fst l)) as [Hin|Hin].
    + rewrite decide_True; [done|]. apply elem_of_cons. by right.
    + rewrite decide_False; [done|]. rewrite elem_of_cons. tauto.
Qed.
Lemma assoc_set_NoDup k v l : NoDup (map fst l) -> NoDup (map fst (assoc_set k v l)).
Proof.
  intros Hl. rewrite assoc_set_keys. case_decide; [done|]. apply NoDup_app. split; [done|].
  split; [|apply NoDup_singleton]. intros x Hx ->%list_elem_of_singleton. done.
Qed.

Lemma elem_assoc_get k v l : NoDup (map fst l) -> (k, v) ∈ l -> assoc_get k l = Some v.
Proof.
  induction l as [|[k' w] l IH]; simpl; [by intros _ ?%elem_of_nil|].
  intros Hn Hin. apply NoDup_cons in Hn as [Hk Hn]. apply elem_of_cons in Hin as [[= -> ->]|Hin].
  - by rewrite decide_True.
  - rewrite decide_False; [by apply IH|]. intros ->. apply Hk. apply list_elem_of_fmap. by exists (k', v).
Qed.
Lemma assoc_get_filter (p : K -> bool) k l :
  assoc_get k (List.filter (fun kv => p (fst kv)) l) = if p k then assoc_get k l else None.
Proof.
  induction l as [|[k' v] l IH]; simpl; [by destruct (p k)|].
  destruct (p k') eqn:Hp; simpl; destruct (decide (k = k')) as [->|]; rewrite ?IH, ?Hp; try done.
Qed.
Lemma assoc_keys_filter (p : K -> bool) l :
  map fst (List.filter (fun kv => p (fst kv)) l) = List.filter p (map fst l).
Proof. induction l as [|[k v] l IH]; simpl; [done|]. destruct (p k); simpl; by rewrite IH. Qed.
End assoc_lemmas.

(** What a step adds or keeps, seen through [map] and [filter]. *)
Lemma NoDup_map_filter_b {A B} (f : A -> B) (p : A -> bool) (l : list A) :
  NoDup (map f l) -> NoDup (map f (List.filter p l)).
Proof.
  induction l as [|x l IH]; simpl; [done|]. intros [Hx Hl]%NoDup_cons. destruct (p x); simpl; [|auto].
  apply NoDup_cons. split; [|auto]. intros (y & E & Hy)%list_elem_of_fmap. apply Hx, list_elem_of_fmap.
  exists y. split; [done|]. by apply elem_of_filter_b in Hy as [? _].
Qed.
Lemma elem_of_map_filter_b {A B} (f : A -> B) (p : A -> bool) (l : list A) y :
  y ∈ map f (List.filter p l) -> y ∈ map f l.
Proof.
  intros (x & -> & Hx)%list_elem_of_fmap. apply elem_of_filter_b in Hx as [Hx _]. apply list_elem_of_fmap. by exists x.
Qed.
Lemma NoDup_map_inj {A B} (f : A -> B) (l : list A) x y :
  NoDup (map f l) -> x ∈ l -> y ∈ l -> f x = f y -> x = y.
Proof.
  induction l as [|z l IH]; simpl; [by intros _ ?%elem_of_nil|].
  intros [Hz Hn]%NoDup_cons [->|Hx]%elem_of_cons [->|Hy]%elem_of_cons E; try done.
  - destruct Hz. apply list_elem_of_fmap. by exists y.
  - destruct Hz. apply list_elem_of_fmap. by exists x.
  - by apply IH.
Qed.
Lemma filter_take_sub {A} (p : A -> bool) n (l : list A) : exists m, List.filter p (take n l) = take m (List.filter p l).
Proof.
  revert n; induction l as [|x l IH]; intros n; [exists 0; by rewrite take_nil|].
  destruct n as [|n]; [by exists 0|]. simpl. destruct (IH n) as [m E]. destruct (p x).
  - exists (S m). simpl. by rewrite E.
  - by exists m.
Qed.
Lemma elem_of_take_sub {A} n (l : list A) x : x ∈ take n l -> x ∈ l.
Proof. intros H. rewrite <- (take_drop n l). apply elem_of_app. by left. Qed.
Lemma elem_of_drop_sub {A} n (l : list A) x : x ∈ drop n l -> x ∈ l.
Proof. intros H. rewrite <- (take_drop n l). apply elem_of_app. by right. Qed.
Lemma NoDup_take_sub {A} n (l : list A) : NoDup l -> NoDup (take n l).
Proof. rewrite <- (take_drop n l) at 1. by intros (H & _ & _)%NoDup_app. Qed.
Lemma NoDup_drop_sub {A} n (l : list A) : NoDup l -> NoDup (drop n l).
Proof. rewrite <- (take_drop n l) at 1. by intros (_ & _ & H)%NoDup_app. Qed.
Lemma take_drop_disjoint {A} n (l : list A) x : NoDup l -> x ∈ take n l -> x ∈ drop n l -> False.
Proof. rewrite <- (take_drop n l) at 1. intros (_ & H & _)%NoDup_app. by apply H. Qed.

Lemma concat_chunks {A} size (l : list A) : (0 < size)%nat -> concat (chunks size l) = l.
Proof.
  intros Hs. unfold chunks. assert (length l <= length l)%nat as H by done. revert H. generalize (length l) at 2 3 as fuel.
  intros fuel; revert l; induction fuel as [|fuel IH]; intros l Hl.
  - destruct l; [done|cbn in Hl; lia].
  - cbn [chunks_of]. destruct l as [|x l]; [done|]. set (l' := x :: l) in *. cbn [concat].
    rewrite IH by (rewrite length_drop; cbn [length] in Hl |- *; subst l'; cbn [length] in *; lia). apply take_drop.
Qed.

Lemma elem_of_chunks {A} size (l : list A) x : (0 < size)%nat -> x ∈ l <-> exists c, c ∈ chunks size l /\ x ∈ c.
Proof. intros Hs. rewrite <- (concat_chunks size l Hs) at 1. rewrite elem_of_concat_l. naive_solver. Qed.

Lemma chunks_unfold {A} size (l : list A) : l <> [] -> (0 < size)%nat -> chunks size l = take size l :: chunks size (drop size l).
Proof.
  intros Hl Hs. unfold chunks. destruct l as [|x l]; [done|]. cbn [length chunks_of]. f_equal.
  assert (forall f1 f2 (k : list A), (length k <= f1)%nat -> (length k <= f2)%nat -> chunks_of f1 size k = chunks_of f2 size k) as Hfuel.
  { intros f1. induction f1 as [|f1 IH]; intros f2 k H1 H2; [destruct k; [by destruct f2|cbn in H1; lia]|].
    destruct f2; [destruct k; [done|cbn in H2; lia]|]. cbn [chunks_of]. destruct k as [|y k]; [done|]. f_equal.
    apply IH; rewrite length_drop; cbn [length] in *; lia. }
  apply Hfuel; rewrite length_drop; cbn [length]; lia.
Qed.

(** The values reached by repeating a step that only adds: after as many turns as there are values, no
    turn adds another. *)
Section closure.
Context {A : Type} `{EqDecision A} (next : list A -> list A) (univ : list A).
Context (adds : forall l x, (forall y, y ∈ l -> y ∈ univ) -> x ∈ l -> x ∈ next l) (within : forall l x, (forall y, y ∈ l -> y ∈ univ) -> x ∈ next l -> x ∈ univ).

Fixpoint repeat_next (n : nat) (l : list A) : list A := match n with O => l | S n => repeat_next n (next l) end.

Lemma repeat_next_within n l x : (forall y, y ∈ l -> y ∈ univ) -> x ∈ repeat_next n l -> x ∈ univ.
Proof. revert l; induction n as [|n IH]; intros l Hl; cbn [repeat_next]; [apply Hl|]. apply IH. intros y. by apply within. Qed.
Lemma repeat_next_adds n l x : (forall y, y ∈ l -> y ∈ univ) -> x ∈ l -> x ∈ repeat_next n l.
Proof.
  revert l; induction n as [|n IH]; intros l Hu Hl; cbn [repeat_next]; [done|]. apply IH; [|by apply adds]. intros y. by apply within.
Qed.

Lemma uniq_length_grows (l k : list A) x : (forall y, y ∈ l -> y ∈ k) -> x ∈ k -> x ∉ l -> length (uniq l) < length (uniq k).
Proof.
  intros H Hx Hn. assert (length (uniq (x :: l)) <= length (uniq k)) as Hle
    by (apply uniq_length_mono; intros y [->|Hy]%elem_of_cons; auto).
  assert (length (uniq (x :: l)) = S (length (uniq l))) as E; [|lia].
  assert (Permutation (uniq (x :: l)) (x :: uniq l)) as P; [|by rewrite P].
  apply NoDup_Permutation; [apply NoDup_uniq|constructor; [by rewrite elem_of_uniq|apply NoDup_uniq]|].
  intros y. by rewrite elem_of_uniq, !elem_of_cons, elem_of_uniq.
Qed.

(** Enough turns: one for every value. *)
Lemma repeat_next_fixed n l (same : forall l k, (forall x, x ∈ l <-> x ∈ k) -> forall x, x ∈ next l -> x ∈ next k) :
  (forall y, y ∈ l -> y ∈ univ) -> length univ <= n -> forall x, x ∈ next (repeat_next n l) -> x ∈ repeat_next n l.
Proof.
  intros Hl Hn. assert ((forall x, x ∈ next (repeat_next n l) -> x ∈ repeat_next n l) \/ length (uniq l) + n <= length (uniq (repeat_next n l))) as [|Hlen].
  { clear Hn. revert l Hl; induction n as [|n IH]; intros l Hl; cbn [repeat_next]; [right; lia|].
    destruct (decide (Forall (fun x => x ∈ l) (next l))) as [Hf|Hf].
    - left. rewrite Forall_forall in Hf. assert (forall m k, (forall x, x ∈ k <-> x ∈ l) -> forall x, x ∈ repeat_next m k <-> x ∈ l) as Hfix.
      { induction m as [|m IHm]; intros k Hk x; cbn [repeat_next]; [apply Hk|]. apply IHm. intros y. split; intros Hy.
        - apply Hf. eapply same; [|exact Hy]. done.
        - apply adds; [|by apply Hk]. intros z Hz. by apply Hl, Hk. }
      intros x Hx. apply (Hfix (S n) l); [done|]. apply Hf. eapply same; [|exact Hx]. intros y. by apply (Hfix (S n) l).
    - apply not_Forall_Exists in Hf; [|apply _]. apply Exists_exists in Hf as (x & Hx & Hxl).
      destruct (IH (next l)) as [?|Hlen]; [intros y; by apply within|by left|].
      right. pose proof (uniq_length_grows l (next l) x (fun y => adds l y Hl) Hx Hxl). lia. }
  { done. }
  intros x Hx. destruct (decide (x ∈ repeat_next n l)) as [|Hnot]; [done|]. exfalso.
  assert (x ∈ univ) as Hu by (eapply within; [|exact Hx]; intros y; by apply repeat_next_within).
  pose proof (uniq_length_grows (repeat_next n l) univ x (fun y => repeat_next_within n l y Hl) Hu Hnot).
  pose proof (length_uniq_from_le [] univ). unfold uniq in *. lia.
Qed.
End closure.

(** Ordering by one comparator, then by another, when the first changes its sign with its arguments. *)
Lemma or_cmp_comparator {A} (c1 c2 : A -> A -> Z) : (forall x y, c1 y x = - c1 x y)%Z -> Comparator c1 -> Comparator c2 ->
  Comparator (fun x y => or_cmp (c1 x y) (c2 x y)).
Proof.
  intros Ha H1 H2. unfold or_cmp. split.
  - intros x y. rewrite (Ha x y). pose proof (cmp_total (cmp := c2) x y).
    destruct (Z.eqb_spec (c1 x y) 0), (Z.eqb_spec (- c1 x y) 0); lia.
  - intros x y z. pose proof (cmp_trans (cmp := c1) x y z). pose proof (cmp_trans (cmp := c1) y z x). pose proof (cmp_trans (cmp := c1) z x y).
    pose proof (cmp_trans (cmp := c2) x y z). pose proof (Ha x y). pose proof (Ha y z). pose proof (Ha x z).
    destruct (Z.eqb_spec (c1 x y) 0), (Z.eqb_spec (c1 y z) 0), (Z.eqb_spec (c1 x z) 0); lia.
Qed.
Lemma key_comparator {A B} (f : A -> B) (c : B -> B -> Z) : Comparator c -> Comparator (fun x y => c (f x) (f y)).
Proof. intros H. split; [intros x y; apply cmp_total|intros x y z; apply cmp_trans]. Qed.
Lemma difference_comparator {A} (f : A -> Z) : Comparator (fun x y => f x - f y)%Z.
Proof. split; [intros x y|intros x y z]; lia. Qed.

(** The first [n] of a sorted list come before the rest. *)
Lemma take_sorted {A} (cmp : A -> A -> Z) n l x y : StronglySorted (cmp_le cmp) l -> x ∈ take n l -> y ∈ l -> (y ∈ take n l) \/ (cmp x y <= 0)%Z.
Proof.
  intros Hs Hx Hy. rewrite <- (take_drop n l) in Hs, Hy. apply elem_of_app in Hy as [Hy|Hy]; [by left|right].
  apply StronglySorted_app in Hs as (H & _ & _). by apply (H x y).
Qed.

(** How many values of a map satisfy [p]. *)
Definition count_if `{Countable K} {A} (p : A -> bool) (m : gmap K A) : nat := length (List.filter (fun ka => p ka.2) (map_to_list m)).
Definition tally (b : bool) : nat := if b then 1 else 0.

Lemma count_if_fresh `{Countable K} {A} (p : A -> bool) (m : gmap K A) i x : m !! i = None ->
  count_if p (<[i := x]> m) = tally (p x) + count_if p m.
Proof.
  intros Hi. unfold count_if. rewrite (filter_b_perm _ _ _ (map_to_list_insert _ _ x Hi)). cbn. by destruct (p x).
Qed.
Lemma count_if_insert `{Countable K} {A} (p : A -> bool) (m : gmap K A) i x y : m !! i = Some y ->
  count_if p (<[i := x]> m) + tally (p y) = tally (p x) + count_if p m.
Proof.
  intros Hi. rewrite <- (insert_delete_id m i y Hi) at 2. rewrite <- insert_delete_eq.
  rewrite !count_if_fresh by apply lookup_delete_eq. lia.
Qed.

#[export] Hint Resolve NoDup_uniq : frameleaf.
#[export] Hint Rewrite @elem_of_uniq @includes_true @includes_false : frameleaf.
