(* ===== verification/JsNumber.v ===== *)
(** * JavaScript numbers

    The part of IEEE-754 binary64 arithmetic the modelled code relies on.  A number that the code
    keeps integral is a [Z]; the operations whose rounding matters are written out:

    - [fl_shift]/[fl_mant]: the binary64 value nearest to [n / d], ties to even, as
      [fl_mant n d * 2 ^ (- fl_shift n d)] (53-bit significand; the exponent range is not modelled,
      every value here is far from overflow and underflow);
    - [fl_int]: an integer result rounded to binary64;
    - [fl_floor_div]: [Math.floor(n / d)] with the rounded quotient;
    - [is_safe_integer]: [Number.isSafeInteger].

    Negative zero is identified with zero: none of the modelled functions observes its sign.
    [jsnum] is a number of unknown shape (a field of parsed JSON); [json] is a JSON value. *)

From S2P Require Import Prelude.
#[export] Set Warnings "-register-all".
From Stdlib Require Import QArith.
Local Open Scope Z_scope.

(** ** Rounding to 53 bits *)

Definition MAX_SAFE_INTEGER : Z := 2 ^ 53 - 1.

Definition is_safe_integer (z : Z) : bool := Z.abs z <=? MAX_SAFE_INTEGER.

(** The integer nearest to [n / d] ([0 < d]), ties to even. *)
Definition rne (n d : Z) : Z :=
  let q := n / d in
  let r := n mod d in
  match 2 * r ?= d with
  | Lt => q
  | Gt => q + 1
  | Eq => if Z.even q then q else q + 1
  end.

(** [n / d] scaled by [2 ^ s], as an integer fraction. *)
Definition scale_num (n s : Z) : Z := n * 2 ^ Z.max 0 s.
Definition scale_den (d s : Z) : Z := d * 2 ^ Z.max 0 (- s).

(** The scale that brings [n / d] ([0 < n], [0 < d]) into [[2^52, 2^53)]. *)
Definition fl_shift (n d : Z) : Z :=
  let s := 53 - (Z.log2 n - Z.log2 d) in
  if scale_den d s * 2 ^ 53 <=? scale_num n s then s - 1 else s.

Definition fl_mant (n d : Z) : Z :=
  let s := fl_shift n d in rne (scale_num n s) (scale_den d s).

(** The magnitude of the rounded quotient, rounded down and rounded up to an integer. *)
Definition fl_floor (n d : Z) : Z :=
  let s := fl_shift n d in (fl_mant n d * 2 ^ Z.max 0 (- s)) / 2 ^ Z.max 0 s.
Definition fl_ceil (n d : Z) : Z :=
  let s := fl_shift n d in - ((- (fl_mant n d * 2 ^ Z.max 0 (- s))) / 2 ^ Z.max 0 s).

(** An integer result of [*], [+] or [-], rounded to binary64. *)
Definition fl_int (z : Z) : Z :=
  match z with
  | 0 => 0
  | Zpos p => fl_floor (Zpos p) 1
  | Zneg p => - fl_floor (Zpos p) 1
  end.

(** [Math.floor(n / d)] for integers [n] and [0 < d]. *)
Definition fl_floor_div (n d : Z) : Z :=
  match n with
  | 0 => 0
  | Zpos p => fl_floor (Zpos p) d
  | Zneg p => - fl_ceil (Zpos p) d
  end.

(** The rounded quotient itself, as a rational: [fl x] is the binary64 number nearest to [x]. *)
Definition fl_pos (n d : positive) : Q :=
  let s := fl_shift (Zpos n) (Zpos d) in
  Qmake (fl_mant (Zpos n) (Zpos d) * 2 ^ Z.max 0 (- s)) (Z.to_pos (2 ^ Z.max 0 s)).
Definition fl (x : Q) : Q :=
  match Qnum x with
  | 0 => 0%Q
  | Zpos p => fl_pos p (Qden x)
  | Zneg p => Qopp (fl_pos p (Qden x))
  end.

(** [Math.round]: the nearest integer, halves towards positive infinity. *)
Definition math_round (x : Q) : Z := (2 * Qnum x + Zpos (Qden x)) / (2 * Zpos (Qden x)).
Definition math_floor (x : Q) : Z := Qnum x / Zpos (Qden x).
Definition math_ceil (x : Q) : Z := - (- Qnum x / Zpos (Qden x)).

(** ** Numbers and values of unknown shape *)

(** A number read from JSON or passed in as [unknown]: an integer, another finite number (a
    non-integral fraction), or one of the values [Number.isFinite] refuses. *)
Inductive jsnum : Type :=
| JInt (z : Z)
| JDec (q : Q)
| JNaN
| JInf (negative : bool).

#[export] Instance Q_eq_dec : EqDecision Q.
Proof. intros [n1 d1] [n2 d2]. destruct (decide (n1 = n2)), (decide (d1 = d2)); [left|right|right|right]; congruence. Defined.
#[export] Instance jsnum_eq_dec : EqDecision jsnum.
Proof. solve_decision. Defined.

Definition num_is_finite (n : jsnum) : bool :=
  match n with JInt _ | JDec _ => true | JNaN | JInf _ => false end.
Definition num_is_safe_integer (n : jsnum) : bool :=
  match n with JInt z => is_safe_integer z | _ => false end.
(** The rational value of a finite number. *)
Definition num_value (n : jsnum) : option Q :=
  match n with JInt z => Some (inject_Z z) | JDec q => Some q | _ => None end.

(** A computed binary64 value as a number. *)
Definition number_of (q : Q) : jsnum :=
  if Qeq_bool q (inject_Z (math_floor q)) then JInt (math_floor q) else JDec q.

(** Arithmetic and comparison of finite numbers. *)
Definition num_q (n : jsnum) : Q := default 0%Q (num_value n).
Definition num_add (a b : jsnum) : jsnum :=
  match a, b with JInt x, JInt y => JInt (fl_int (x + y)) | _, _ => number_of (fl (num_q a + num_q b)) end.
Definition num_sub (a b : jsnum) : jsnum :=
  match a, b with JInt x, JInt y => JInt (fl_int (x - y)) | _, _ => number_of (fl (num_q a - num_q b)) end.
Definition num_le (a b : jsnum) : bool := Qle_bool (num_q a) (num_q b).
Definition num_min (a b : jsnum) : jsnum := if num_le a b then a else b.
Definition num_max (a b : jsnum) : jsnum := if num_le a b then b else a.
(** A number used as a position: truncated. *)
Definition num_index (n : jsnum) : Z := Z.quot (Qnum (num_q n)) (Zpos (Qden (num_q n))).

Inductive json : Type :=
| JNull
| JBool (b : bool)
| JNum (n : jsnum)
| JStr (s : string)
| JArr (items : list json)
| JObj (fields : list (string * json)).

(** [Object.keys], property access ([undefined] is [None]) and [Object.hasOwn]. *)
Definition obj_keys (fs : list (string * json)) : list string := map fst fs.
Fixpoint obj_get (fs : list (string * json)) (k : string) : option json :=
  match fs with
  | [] => None
  | (k', v) :: fs' => if String.eqb k k' then Some v else obj_get fs' k
  end.
Definition obj_has (fs : list (string * json)) (k : string) : bool :=
  match obj_get fs k with Some _ => true | None => false end.
(** Property access on any value whose access does not throw; [undefined] off objects. *)
Definition json_get (v : json) (k : string) : option json :=
  match v with JObj fs => obj_get fs k | _ => None end.

Definition as_string (v : option json) : option string :=
  match v with Some (JStr s) => Some s | _ => None end.
Definition as_int (v : option json) : option Z :=
  match v with Some (JNum (JInt z)) => Some z | _ => None end.
Definition as_num (v : option json) : option jsnum :=
  match v with Some (JNum n) => Some n | _ => None end.
Definition as_arr (v : option json) : option (list json) :=
  match v with Some (JArr l) => Some l | _ => None end.

(** [value === true]. *)
Definition is_true_lit (v : option json) : bool :=
  match v with Some (JBool true) => true | _ => false end.

(** JavaScript truthiness of a possibly missing value. *)
Definition truthy (v : option json) : bool :=
  match v with
  | None | Some JNull => false
  | Some (JBool b) => b
  | Some (JNum (JInt z)) => negb (z =? 0)
  | Some (JNum (JDec _)) => true
  | Some (JNum JNaN) => false
  | Some (JNum (JInf _)) => true
  | Some (JStr s) => negb (String.eqb s "")
  | Some (JArr _) | Some (JObj _) => true
  end.

(** [!!value && typeof value === 'object' && !Array.isArray(value)]. *)
Definition is_record (v : option json) : option (list (string * json)) :=
  match v with Some (JObj fs) => Some fs | _ => None end.

(** Truthiness of optional strings and numbers. *)
Definition str_truthy (s : option string) : bool :=
  match s with Some s => negb (String.eqb s "") | None => false end.

(** Induction over nested values. *)
Section json_ind.
Variable P : json -> Prop.
Hypothesis Hnull : P JNull.
Hypothesis Hbool : forall b, P (JBool b).
Hypothesis Hnum : forall n, P (JNum n).
Hypothesis Hstr : forall s, P (JStr s).
Hypothesis Harr : forall l, Forall P l -> P (JArr l).
Hypothesis Hobj : forall fs, Forall (fun kv => P kv.2) fs -> P (JObj fs).

Fixpoint json_ind' (v : json) : P v.
Proof.
  destruct v as [|b|n|s|l|fs].
  - exact Hnull.
  - apply Hbool.
  - apply Hnum.
  - apply Hstr.
  - apply Harr. induction l as [|x l IH]; constructor; [apply json_ind'|exact IH].
  - apply Hobj. induction fs as [|[k x] fs IH]; constructor; [apply json_ind'|exact IH].
Defined.
End json_ind.

Lemma number_of_value q : exists q', num_value (number_of q) = Some q' /\ (q' == q)%Q.
Proof.
  unfold number_of. destruct (Qeq_bool q _) eqn:E; simpl; eexists; split; try done.
  symmetry. by apply Qeq_bool_iff.
Qed.

(** ** Rounding lemmas *)

Ltac max_simpl :=
  repeat match goal with
  | |- context [Z.max 0 ?x] => first [rewrite (Z.max_r 0 x) by lia | rewrite (Z.max_l 0 x) by lia]
  | H : context [Z.max 0 ?x] |- _ =>
      first [rewrite (Z.max_r 0 x) in H by lia | rewrite (Z.max_l 0 x) in H by lia]
  end; rewrite ?Z.pow_0_r, ?Z.mul_1_r, ?Z.div_1_r in *.
Ltac pow2_pos e := assert (0 < 2 ^ e) by (apply Z.pow_pos_nonneg; lia).

Lemma rne_bounds (n d : Z) : 0 < d -> n / d <= rne n d <= n / d + 1.
Proof. intros Hd. unfold rne. destruct (_ ?= _); [destruct (Z.even _)| |]; lia. Qed.

Lemma rne_error (n d : Z) : 0 < d -> 2 * Z.abs (rne n d * d - n) <= d.
Proof.
  intros Hd. unfold rne.
  pose proof (Z.mod_pos_bound n d Hd). pose proof (Z.div_mod n d ltac:(lia)).
  destruct (Z.compare_spec (2 * (n mod d)) d); [destruct (Z.even _)| |]; nia.
Qed.

Lemma rne_ge (n d k : Z) : 0 < d -> k * d <= n -> k <= rne n d.
Proof.
  intros Hd Hk. pose proof (rne_bounds n d Hd).
  assert (k <= n / d) by (apply Z.div_le_lower_bound; lia). lia.
Qed.

Lemma rne_le (n d k : Z) : 0 < d -> n <= k * d -> rne n d <= k.
Proof.
  intros Hd Hk. pose proof (rne_error n d Hd).
  destruct (Z.le_gt_cases (rne n d) k); [done|]. nia.
Qed.

Lemma rne_exact (k d : Z) : 0 < d -> rne (k * d) d = k.
Proof. intros. apply Z.le_antisymm; [apply rne_le|apply rne_ge]; lia. Qed.

Lemma rne_mono (n1 d1 n2 d2 : Z) : 0 < d1 -> 0 < d2 -> n1 * d2 <= n2 * d1 -> rne n1 d1 <= rne n2 d2.
Proof.
  intros H1 H2 Hle. unfold rne.
  pose proof (Z.mod_pos_bound n1 d1 H1). pose proof (Z.mod_pos_bound n2 d2 H2).
  pose proof (Z.div_mod n1 d1 ltac:(lia)) as E1. pose proof (Z.div_mod n2 d2 ltac:(lia)) as E2.
  set (q1 := n1 / d1) in *. set (q2 := n2 / d2) in *.
  set (r1 := n1 mod d1) in *. set (r2 := n2 mod d2) in *.
  assert (q1 < q2 \/ (q1 = q2 /\ r1 * d2 <= r2 * d1)) as [Hq|[Hq Hr]].
  { destruct (Z.lt_trichotomy q1 q2) as [|[Hq|Hq]]; [by left| |].
    - right. split; [done|]. rewrite E1, E2, Hq in Hle. nia.
    - exfalso. rewrite E1, E2 in Hle. assert (r2 * d1 < d2 * d1) by nia.
      assert (0 <= r1 * d2) by nia. assert ((q2 + 1) * (d1 * d2) <= q1 * (d1 * d2)) by nia. nia. }
  - destruct (2 * r1 ?= d1), (2 * r2 ?= d2); repeat case_match; lia.
  - rewrite Hq. destruct (Z.compare_spec (2 * r1) d1), (Z.compare_spec (2 * r2) d2);
      destruct (Z.even q2); try lia; exfalso; nia.
Qed.

Lemma fl_shift_spec (n d : Z) : 0 < n -> 0 < d ->
  let s := fl_shift n d in
  0 < scale_den d s /\ scale_den d s * 2 ^ 52 <= scale_num n s < scale_den d s * 2 ^ 53.
Proof.
  intros Hn Hd. cbv zeta.
  pose proof (Z.log2_spec n Hn) as [Hn1 Hn2]. pose proof (Z.log2_spec d Hd) as [Hd1 Hd2].
  pose proof (Z.log2_nonneg n). pose proof (Z.log2_nonneg d).
  set (a := Z.log2 n) in *. set (b := Z.log2 d) in *.
  rewrite Z.pow_succ_r in Hn2, Hd2 by lia.
  assert (forall x, 0 < scale_den d x) as Hpos.
  { intros x. unfold scale_den. pow2_pos (Z.max 0 (- x)). nia. }
  split; [apply Hpos|].
  assert (scale_den d (53 - (a - b)) * 2 ^ 52 <= scale_num n (53 - (a - b))
          < scale_den d (53 - (a - b)) * 2 ^ 54) as Hs0.
  { unfold scale_den, scale_num. destruct (Z.le_gt_cases 0 (53 - (a - b))).
    - max_simpl.
      assert (2 ^ a * 2 ^ (53 - (a - b)) = 2 ^ b * 2 ^ 53) as E by (rewrite <- !Z.pow_add_r by lia; f_equal; lia).
      pow2_pos (53 - (a - b)). nia.
    - max_simpl.
      assert (2 ^ b * 2 ^ (- (53 - (a - b))) * 2 ^ 53 = 2 ^ a) as E by (rewrite <- !Z.pow_add_r by lia; f_equal; lia).
      pow2_pos (- (53 - (a - b))). nia. }
  unfold fl_shift. fold a b. destruct (Z.leb_spec (scale_den d (53 - (a - b)) * 2 ^ 53) (scale_num n (53 - (a - b)))) as [Hc|Hc]; [|lia].
  set (s := 53 - (a - b)) in *. unfold scale_den, scale_num in *.
  destruct (Z.le_gt_cases 1 s).
  - max_simpl.
    assert (2 ^ s = 2 * 2 ^ (s - 1)) as E by (rewrite <- Z.pow_succ_r by lia; f_equal; lia). nia.
  - max_simpl.
    assert (2 ^ (- (s - 1)) = 2 * 2 ^ (- s)) as E by (rewrite <- Z.pow_succ_r by lia; f_equal; lia). nia.
Qed.

(** A quotient below [2^53] needs no negative scale. *)
Lemma fl_shift_nonneg (n d : Z) : 0 < n < 2 ^ 53 -> 0 < d -> 0 <= fl_shift n d.
Proof.
  intros [Hn1 Hn2] Hd. pose proof (fl_shift_spec n d Hn1 Hd) as [_ [Hlo _]].
  destruct (Z.le_gt_cases 0 (fl_shift n d)) as [|Hs]; [done|exfalso].
  unfold scale_den, scale_num in Hlo.
  max_simpl.
  assert (2 <= 2 ^ (- fl_shift n d)) by (change 2 with (2 ^ 1) at 1; apply Z.pow_le_mono_r; lia).
  nia.
Qed.

(** The rounded quotient of a safe integer lies strictly within [1 / d] of the exact one, so
    rounding it to an integer gives the exact floor and ceiling. *)
Lemma fl_mant_safe (n d : Z) : 0 < n < 2 ^ 53 -> 0 < d ->
  let s := fl_shift n d in 0 < 2 ^ s /\ Z.abs (fl_mant n d * d - n * 2 ^ s) < 2 ^ s.
Proof.
  intros Hn Hd. cbv zeta. pose proof (fl_shift_nonneg n d Hn Hd) as Hs.
  pose proof (fl_shift_spec n d ltac:(lia) Hd) as [_ [Hlo _]].
  unfold fl_mant. set (s := fl_shift n d) in *. unfold scale_num, scale_den in *.
  max_simpl.
  pose proof (rne_error (n * 2 ^ s) d Hd). pow2_pos s. nia.
Qed.

Lemma fl_floor_exact (n d : Z) : 0 < n < 2 ^ 53 -> 0 < d -> fl_floor n d = n / d.
Proof.
  intros Hn Hd. pose proof (fl_shift_nonneg n d Hn Hd) as Hs.
  pose proof (fl_mant_safe n d Hn Hd) as [Hp He].
  unfold fl_floor. max_simpl.
  set (m := fl_mant n d) in *. set (P := 2 ^ fl_shift n d) in *.
  pose proof (Z.mod_pos_bound n d Hd). pose proof (Z.div_mod n d ltac:(lia)).
  pose proof (rne_ge (n * P) d (n / d * P) Hd ltac:(nia)) as Hge.
  assert (n / d * P <= m).
  { unfold m, fl_mant, scale_num, scale_den. max_simpl. exact Hge. }
  symmetry. apply (Z.div_unique _ _ _ (m - n / d * P)); [|lia]. left. split; [lia|]. nia.
Qed.

Lemma fl_ceil_exact (n d : Z) : 0 < n < 2 ^ 53 -> 0 < d -> fl_ceil n d = - (- n / d).
Proof.
  intros Hn Hd. pose proof (fl_shift_nonneg n d Hn Hd) as Hs.
  pose proof (fl_mant_safe n d Hn Hd) as [Hp He].
  unfold fl_ceil. max_simpl.
  set (m := fl_mant n d) in *. set (P := 2 ^ fl_shift n d) in *. f_equal.
  pose proof (Z.mod_pos_bound (- n) d Hd). pose proof (Z.div_mod (- n) d ltac:(lia)).
  pose proof (rne_le (n * P) d (- (- n / d) * P) Hd ltac:(nia)) as Hle.
  assert (m <= - (- n / d) * P).
  { unfold m, fl_mant, scale_num, scale_den. max_simpl. exact Hle. }
  symmetry. apply (Z.div_unique _ _ _ (- m - (- n / d) * P)); [|lia]. left. split; [nia|]. nia.
Qed.

Lemma is_safe_integer_spec (z : Z) : is_safe_integer z = true <-> Z.abs z < 2 ^ 53.
Proof. unfold is_safe_integer, MAX_SAFE_INTEGER. rewrite Z.leb_le. lia. Qed.
Lemma is_safe_integer_false (z : Z) : is_safe_integer z = false <-> 2 ^ 53 <= Z.abs z.
Proof. unfold is_safe_integer, MAX_SAFE_INTEGER. rewrite Z.leb_gt. lia. Qed.

(** [Math.floor(n / d)] is exact on safe integers. *)
Lemma fl_floor_div_exact (n d : Z) : Z.abs n < 2 ^ 53 -> 0 < d -> fl_floor_div n d = n / d.
Proof.
  intros Hn Hd. destruct n as [|p|p]; simpl fl_floor_div; [done| |].
  - apply fl_floor_exact; lia.
  - rewrite fl_ceil_exact by lia. rewrite Z.opp_involutive. done.
Qed.

Lemma fl_int_exact (z : Z) : Z.abs z < 2 ^ 53 -> fl_int z = z.
Proof.
  intros Hz. destruct z as [|p|p]; simpl fl_int; [done| |];
    rewrite fl_floor_exact by lia; rewrite Z.div_1_r; done.
Qed.

Lemma fl_floor_big (n : Z) : 2 ^ 53 <= n -> 2 ^ 53 <= fl_floor n 1.
Proof.
  intros Hn. pose proof (fl_shift_spec n 1 ltac:(lia) ltac:(lia)) as [Hd [Hlo Hhi]].
  unfold fl_floor, fl_mant. set (s := fl_shift n 1) in *.
  assert (s <= -1).
  { destruct (Z.le_gt_cases 0 s) as [H|]; [|lia]. unfold scale_num, scale_den in Hhi.
    max_simpl. pow2_pos s. nia. }
  pose proof (rne_ge (scale_num n s) (scale_den 1 s) (2 ^ 52) Hd ltac:(lia)) as Hm.
  max_simpl.
  assert (2 <= 2 ^ (- s)) by (change 2 with (2 ^ 1) at 1; apply Z.pow_le_mono_r; lia). nia.
Qed.

(** Rounding decides representability: [Number.isSafeInteger] of a rounded result is
    [Number.isSafeInteger] of the exact one. *)
Lemma is_safe_fl_int (z : Z) : is_safe_integer (fl_int z) = is_safe_integer z.
Proof.
  destruct (is_safe_integer z) eqn:Hz.
  - apply is_safe_integer_spec in Hz. rewrite fl_int_exact by done. by apply is_safe_integer_spec.
  - apply is_safe_integer_false in Hz. apply is_safe_integer_false.
    destruct z as [|p|p]; [done| |]; simpl fl_int; pose proof (fl_floor_big (Zpos p)); lia.
Qed.

(** Up to [2^54] a rounded integer is off by at most one. *)
Lemma fl_floor_near (n : Z) : 2 ^ 53 <= n <= 2 ^ 54 -> Z.abs (fl_floor n 1 - n) <= 1.
Proof.
  intros Hn. pose proof (fl_shift_spec n 1 ltac:(lia) ltac:(lia)) as [Hd [Hlo Hhi]].
  unfold fl_floor, fl_mant. set (s := fl_shift n 1) in *.
  assert (s <= -1).
  { destruct (Z.le_gt_cases 0 s) as [H|]; [|lia]. unfold scale_num, scale_den in Hhi.
    max_simpl. pow2_pos s. nia. }
  unfold scale_num, scale_den in *. max_simpl. rewrite ?Z.mul_1_l in *.
  assert (- s <= 2) as Hs.
  { destruct (Z.le_gt_cases (- s) 2); [done|exfalso].
    assert (2 ^ 3 <= 2 ^ (- s)) by (apply Z.pow_le_mono_r; lia). lia. }
  pose proof (rne_error n (2 ^ (- s)) Hd) as He.
  assert (- s = 1 \/ - s = 2) as [E|E] by lia; rewrite E in *.
  - lia.
  - assert (n = 2 ^ 52 * 2 ^ 2) as -> by lia. rewrite rne_exact by lia. lia.
Qed.

Lemma fl_int_near (z : Z) : Z.abs z <= 2 ^ 54 -> Z.abs (fl_int z - z) <= 1.
Proof.
  intros Hz. destruct (Z.lt_ge_cases (Z.abs z) (2 ^ 53)); [rewrite fl_int_exact; lia|].
  destruct z as [|p|p]; simpl fl_int; [done| |]; pose proof (fl_floor_near (Zpos p)); lia.
Qed.

(** ** Monotonicity of rounding *)

Lemma pow_balance (s t : Z) : s <= t ->
  2 ^ Z.max 0 t * 2 ^ Z.max 0 (- s) = 2 ^ (t - s) * (2 ^ Z.max 0 s * 2 ^ Z.max 0 (- t)).
Proof. intros. rewrite <- !Z.pow_add_r by lia. f_equal. lia. Qed.

Lemma fl_mant_bounds (n d : Z) : 0 < n -> 0 < d -> 2 ^ 52 <= fl_mant n d <= 2 ^ 53.
Proof.
  intros Hn Hd. pose proof (fl_shift_spec n d Hn Hd) as [Hp [Hlo Hhi]]. unfold fl_mant.
  split; [apply rne_ge|apply rne_le]; try assumption; lia.
Qed.

(** A larger quotient has a smaller or equal scale. *)
Lemma fl_shift_mono (n d n' d' : Z) :
  0 < n -> 0 < d -> 0 < n' -> 0 < d' -> n * d' <= n' * d -> fl_shift n' d' <= fl_shift n d.
Proof.
  intros Hn Hd Hn' Hd' Hle. destruct (Z.le_gt_cases (fl_shift n' d') (fl_shift n d)) as [|Hlt]; [done|exfalso].
  pose proof (fl_shift_spec n d Hn Hd) as [_ [Hlo _]]. pose proof (fl_shift_spec n' d' Hn' Hd') as [_ [_ Hhi]].
  unfold scale_num, scale_den in *. set (s := fl_shift n d) in *. set (t := fl_shift n' d') in *.
  pose proof (pow_balance s t ltac:(lia)) as Hb.
  assert (2 <= 2 ^ (t - s)) as HK by (change 2 with (2 ^ 1) at 1; apply Z.pow_le_mono_r; lia).
  pow2_pos (Z.max 0 s). pow2_pos (Z.max 0 t). pow2_pos (Z.max 0 (- s)). pow2_pos (Z.max 0 (- t)).
  set (a := 2 ^ Z.max 0 s) in *. set (b := 2 ^ Z.max 0 (- s)) in *.
  set (a' := 2 ^ Z.max 0 t) in *. set (b' := 2 ^ Z.max 0 (- t)) in *. set (K := 2 ^ (t - s)) in *.
  assert (d' * (d * b * 2 ^ 52) <= d' * (n * a)) as HH1 by (apply Z.mul_le_mono_nonneg_l; lia).
  assert (n * d' * a <= n' * d * a) as HH2 by (apply Z.mul_le_mono_nonneg_r; lia).
  assert (d * d' * b * 2 ^ 52 <= n' * d * a) as HH3 by lia.
  assert (d' * b * 2 ^ 52 <= n' * a) as HH4.
  { apply (Z.mul_le_mono_pos_l _ _ d); [done|]. lia. }
  assert (d' * b * 2 ^ 52 * (K * b') <= n' * a * (K * b')) as HH5 by (apply Z.mul_le_mono_nonneg_r; nia).
  replace (n' * a * (K * b')) with (n' * (K * (a * b'))) in HH5 by ring. rewrite <- Hb in HH5.
  assert (n' * a' * b < d' * b' * 2 ^ 53 * b) as HH6 by (apply Z.mul_lt_mono_pos_r; lia).
  assert (d' * b * 2 ^ 52 * b' * 2 <= d' * b * 2 ^ 52 * b' * K) as HH7 by (apply Z.mul_le_mono_nonneg_l; nia).
  lia.
Qed.

Lemma fl_pos_mono (n d n' d' : positive) :
  Zpos n * Zpos d' <= Zpos n' * Zpos d -> (fl_pos n d <= fl_pos n' d')%Q.
Proof.
  intros Hle. pose proof (fl_shift_mono (Zpos n) (Zpos d) (Zpos n') (Zpos d')) as Hs.
  pose proof (fl_mant_bounds (Zpos n) (Zpos d)) as Hm. pose proof (fl_mant_bounds (Zpos n') (Zpos d')) as Hm'.
  specialize (Hs ltac:(lia) ltac:(lia) ltac:(lia) ltac:(lia) Hle).
  specialize (Hm ltac:(lia) ltac:(lia)). specialize (Hm' ltac:(lia) ltac:(lia)).
  unfold Qle, fl_pos. cbn [Qnum Qden].
  destruct (Z.eq_dec (fl_shift (Zpos n') (Zpos d')) (fl_shift (Zpos n) (Zpos d))) as [E|Hne].
  - assert (fl_mant (Zpos n) (Zpos d) <= fl_mant (Zpos n') (Zpos d')) as Hmm.
    { pose proof (fl_shift_spec (Zpos n) (Zpos d) ltac:(lia) ltac:(lia)) as [Hp _].
      pose proof (fl_shift_spec (Zpos n') (Zpos d') ltac:(lia) ltac:(lia)) as [Hp' _].
      unfold fl_mant. rewrite E in *. apply rne_mono; [done|done|].
      unfold scale_num, scale_den. set (s := fl_shift (Zpos n) (Zpos d)).
      pow2_pos (Z.max 0 s). pow2_pos (Z.max 0 (- s)).
      replace (Zpos n * 2 ^ Z.max 0 s * (Zpos d' * 2 ^ Z.max 0 (- s)))
        with (Zpos n * Zpos d' * (2 ^ Z.max 0 s * 2 ^ Z.max 0 (- s))) by ring.
      replace (Zpos n' * 2 ^ Z.max 0 s * (Zpos d * 2 ^ Z.max 0 (- s)))
        with (Zpos n' * Zpos d * (2 ^ Z.max 0 s * 2 ^ Z.max 0 (- s))) by ring.
      apply Z.mul_le_mono_nonneg_r; [nia|done]. }
    rewrite E. set (s := fl_shift (Zpos n) (Zpos d)).
    pow2_pos (Z.max 0 s). pow2_pos (Z.max 0 (- s)).
    apply Z.mul_le_mono_nonneg_r; [lia|]. apply Z.mul_le_mono_nonneg_r; lia.
  - set (s := fl_shift (Zpos n) (Zpos d)) in *. set (t := fl_shift (Zpos n') (Zpos d')) in *.
    pose proof (pow_balance t s ltac:(lia)) as Hb.
    assert (2 <= 2 ^ (s - t)) as HK by (change 2 with (2 ^ 1) at 1; apply Z.pow_le_mono_r; lia).
    pow2_pos (Z.max 0 s). pow2_pos (Z.max 0 t). pow2_pos (Z.max 0 (- s)). pow2_pos (Z.max 0 (- t)).
    rewrite !Z2Pos.id by done.
    set (a := 2 ^ Z.max 0 s) in *. set (b := 2 ^ Z.max 0 (- s)) in *.
    set (a' := 2 ^ Z.max 0 t) in *. set (b' := 2 ^ Z.max 0 (- t)) in *. set (K := 2 ^ (s - t)) in *.
    set (m := fl_mant (Zpos n) (Zpos d)) in *. set (m' := fl_mant (Zpos n') (Zpos d')) in *.
    assert (0 < b * a') by nia.
    assert (m * (b * a') <= 2 ^ 53 * (b * a')) by (apply Z.mul_le_mono_nonneg_r; lia).
    assert (2 ^ 52 * (K * (b * a')) <= m' * (K * (b * a'))) by (apply Z.mul_le_mono_nonneg_r; nia).
    assert (2 * (b * a') <= K * (b * a')) by (apply Z.mul_le_mono_nonneg_r; lia).
    replace (m' * b' * a) with (m' * (K * (b * a'))) by (rewrite (Z.mul_comm b a'), <- Hb; ring). lia.
Qed.

Lemma fl_pos_nonneg n d : (0 <= fl_pos n d)%Q.
Proof.
  pose proof (fl_mant_bounds (Zpos n) (Zpos d) ltac:(lia) ltac:(lia)).
  unfold Qle, fl_pos; cbn [Qnum Qden]. pow2_pos (Z.max 0 (- fl_shift (Zpos n) (Zpos d))). simpl. nia.
Qed.

(** Rounding preserves the order, and so the value only. *)
Lemma fl_mono x y : (x <= y)%Q -> (fl x <= fl y)%Q.
Proof.
  destruct x as [[|n|n] d], y as [[|n'|n'] d']; unfold Qle at 1; cbn [Qnum Qden]; intros Hle;
    unfold fl; cbn [Qnum Qden]; try lia.
  - apply Qle_refl.
  - apply fl_pos_nonneg.
  - by apply fl_pos_mono.
  - rewrite <- (Qopp_involutive 0). apply Qopp_le_compat, fl_pos_nonneg.
  - apply Qle_trans with 0%Q; [|apply fl_pos_nonneg].
    rewrite <- (Qopp_involutive 0). apply Qopp_le_compat, fl_pos_nonneg.
  - apply Qopp_le_compat, fl_pos_mono. lia.
Qed.

#[export] Instance fl_Proper : Proper (Qeq ==> Qeq) fl.
Proof. intros x y E. apply Qle_antisym; apply fl_mono; rewrite E; apply Qle_refl. Qed.

Lemma math_round_mono x y : (x <= y)%Q -> math_round x <= math_round y.
Proof.
  destruct x as [n d], y as [n' d']. unfold Qle, math_round; cbn [Qnum Qden]. intros H.
  apply Z.div_le_lower_bound; [lia|].
  pose proof (Z.div_mod (2 * n + Zpos d) (2 * Zpos d) ltac:(lia)).
  pose proof (Z.mod_pos_bound (2 * n + Zpos d) (2 * Zpos d) ltac:(lia)).
  set (q := (2 * n + Zpos d) / (2 * Zpos d)) in *.
  assert (q * (2 * Zpos d) <= 2 * n + Zpos d) as HH1 by lia.
  assert (q * (2 * Zpos d) * Zpos d' <= (2 * n + Zpos d) * Zpos d') as HH2 by (apply Z.mul_le_mono_nonneg_r; lia).
  apply (Z.mul_le_mono_pos_r _ _ (Zpos d)); lia.
Qed.

#[export] Hint Resolve fl_int_exact fl_floor_div_exact : frameleaf.

(** Integers compare as integers. *)
Lemma num_le_int (x y : Z) : num_le (JInt x) (JInt y) = (x <=? y).
Proof.
  unfold num_le, num_q; simpl. apply eq_true_iff_eq. rewrite Qle_bool_iff, Z.leb_le. unfold Qle; simpl. lia.
Qed.

(** ** Fields of an object *)

(** [{ ...fields, [key]: value }]. *)
Fixpoint obj_set (fs : list (string * json)) (key : string) (v : json) : list (string * json) :=
  match fs with
  | [] => [(key, v)]
  | (k, w) :: fs' => if String.eqb key k then (k, v) :: fs' else (k, w) :: obj_set fs' key v
  end.

Lemma obj_get_set_eq fs k v : obj_get (obj_set fs k v) k = Some v.
Proof.
  induction fs as [|[k' w] fs IH]; simpl; [by rewrite String.eqb_refl|].
  destruct (String.eqb k k') eqn:E; simpl; by rewrite E.
Qed.

Lemma obj_get_set_ne fs k k' v : k <> k' -> obj_get (obj_set fs k v) k' = obj_get fs k'.
Proof.
  intros Hne. induction fs as [|[k2 w] fs IH]; simpl.
  - destruct (String.eqb_spec k' k); [by subst|done].
  - destruct (String.eqb_spec k k2) as [->|]; simpl.
    + destruct (String.eqb_spec k' k2); [by subst|done].
    + by destruct (String.eqb k' k2).
Qed.

Lemma obj_set_id fs k v : obj_get fs k = Some v -> obj_set fs k v = fs.
Proof.
  induction fs as [|[k' w] fs IH]; simpl; [done|]. destruct (String.eqb_spec k k') as [->|].
  - by intros [= ->].
  - intros H. by rewrite IH.
Qed.
