(* ===== verification/JsString.v ===== *)
(** * JavaScript strings

    A string is a sequence of code units; only code units below 256 occur in the model.  This file
    has the operations the modelled code uses ([trim], [split]/[join] on a separator, prefix tests,
    slices), the decimal spelling of integers with its reader, and what [Number] reads in a value. *)

From Stdlib Require Import QArith_base.
From S2P Require Import Prelude JsNumber.
Local Open Scope Z_scope.

(** ** Characters *)

Definition char_code (c : ascii) : Z := Z.of_N (N_of_ascii c).
Definition char_of (z : Z) : ascii := ascii_of_N (Z.to_N z).

Definition is_digit (c : ascii) : bool := (48 <=? char_code c) && (char_code c <=? 57).
Definition digit_value (c : ascii) : Z := char_code c - 48.
Definition digit_char (d : Z) : ascii := char_of (48 + d).

(** The white space [String.prototype.trim] removes, among code units below 256. *)
Definition is_space (c : ascii) : bool :=
  let k := char_code c in ((9 <=? k) && (k <=? 13)) || (k =? 32) || (k =? 160).

(** [toLowerCase] of one code unit below 256. *)
Definition lower_char (c : ascii) : ascii :=
  let k := char_code c in
  if ((65 <=? k) && (k <=? 90)) || ((192 <=? k) && (k <=? 222) && negb (k =? 215)) then char_of (k + 32) else c.

(** ** Strings *)

Fixpoint string_all (p : ascii -> bool) (s : string) : bool :=
  match s with
  | EmptyString => true
  | String c s' => p c && string_all p s'
  end.

Fixpoint to_lower (s : string) : string :=
  match s with
  | EmptyString => EmptyString
  | String c s' => String (lower_char c) (to_lower s')
  end.

Fixpoint trim_start (s : string) : string :=
  match s with
  | EmptyString => EmptyString
  | String c s' => if is_space c then trim_start s' else s
  end.

(** Keep up to the last character that is not white space. *)
Fixpoint trim_end (s : string) : string :=
  match s with
  | EmptyString => EmptyString
  | String c s' =>
      match trim_end s' with
      | EmptyString => if is_space c then EmptyString else String c EmptyString
      | t => String c t
      end
  end.

Definition trim (s : string) : string := trim_end (trim_start s).

(** The longest prefix whose characters satisfy [p], and the rest. *)
Fixpoint span (p : ascii -> bool) (s : string) : string * string :=
  match s with
  | EmptyString => (EmptyString, EmptyString)
  | String c s' => if p c then let '(a, b) := span p s' in (String c a, b) else (EmptyString, s)
  end.

Fixpoint starts_with (prefix s : string) : bool :=
  match prefix, s with
  | EmptyString, _ => true
  | String a p', String b s' => Ascii.eqb a b && starts_with p' s'
  | String _ _, EmptyString => false
  end.

(** [s.slice(n)] for [0 <= n]. *)
Fixpoint string_drop (n : nat) (s : string) : string :=
  match n, s with
  | O, _ => s
  | S n', String _ s' => string_drop n' s'
  | S _, EmptyString => EmptyString
  end.
(** [s.slice(0, n)] for [0 <= n]. *)
Fixpoint string_take (n : nat) (s : string) : string :=
  match n, s with
  | S n', String c s' => String c (string_take n' s')
  | _, _ => EmptyString
  end.

(** [parts.join(sep)]. *)
Fixpoint join (sep : string) (parts : list string) : string :=
  match parts with
  | [] => ""
  | [p] => p
  | p :: rest => (p +:+ sep +:+ join sep rest)%string
  end.

(** ** Decimal spelling *)

Fixpoint dec_digits (fuel : nat) (n : Z) (acc : string) : string :=
  match fuel with
  | O => acc
  | S fuel' =>
      if n <? 10 then String (digit_char n) acc
      else dec_digits fuel' (n / 10) (String (digit_char (n mod 10)) acc)
  end.

(** [String(n)] of a non-negative integer; [log2 n + 1] steps always suffice. *)
Definition string_of_nonneg (n : Z) : string := dec_digits (S (Z.to_nat (Z.log2 n))) n "".

(** [String(n)] of an integer below [10^21] (above it JavaScript uses exponents). *)
Definition string_of_int (z : Z) : string :=
  if z <? 0 then String "-" (string_of_nonneg (- z)) else string_of_nonneg z.

(** Lower-case hexadecimal digits. *)
Definition is_hex (c : ascii) : bool := is_digit c || ((97 <=? char_code c) && (char_code c <=? 102)).

(** Anchored patterns of fixed length.  A pattern character: [x] a hexadecimal digit, [d] a decimal one, [v] one of 1-8, [n] one of [89ab];
    any other character itself. *)
Definition class_matches (p c : ascii) : bool :=
  if Ascii.eqb p "x" then is_hex c
  else if Ascii.eqb p "d" then is_digit c
  else if Ascii.eqb p "v" then (49 <=? char_code c) && (char_code c <=? 56)
  else if Ascii.eqb p "n" then includes c ["8"%char; "9"%char; "a"%char; "b"%char]
  else Ascii.eqb p c.
Fixpoint shape (pattern s : string) : bool :=
  match pattern, s with
  | EmptyString, EmptyString => true
  | String p pattern', String c s' => class_matches p c && shape pattern' s'
  | _, _ => false
  end.

(** The value of a run of decimal digits, continuing from [acc]. *)
Fixpoint digits_value (acc : Z) (s : string) : Z :=
  match s with
  | EmptyString => acc
  | String c s' => digits_value (10 * acc + digit_value c) s'
  end.

(** ** [Number(value)] of a stored value *)

(** The digits of a whole string in a base, [None] when it has another character or none. *)
Definition base_digit (base : Z) (c : ascii) : option Z :=
  let v := let k := char_code (lower_char c) in
           if (48 <=? k) && (k <=? 57) then k - 48 else if (97 <=? k) && (k <=? 102) then k - 87 else base in
  if v <? base then Some v else None.
Fixpoint base_value (base acc : Z) (s : string) : option Z :=
  match s with
  | EmptyString => Some acc
  | String c s' => match base_digit base c with Some d => base_value base (base * acc + d) s' | None => None end
  end.

(** An optional sign: whether it is a minus, and the rest. *)
Definition signed (s : string) : bool * string :=
  match s with
  | String "+" s' => (false, s')
  | String "-" s' => (true, s')
  | _ => (false, s)
  end.

(** The exponent part: nothing, or [e], a sign and digits. *)
Definition exponent (s : string) : option Z :=
  match s with
  | EmptyString => Some 0
  | String c s' =>
      if Ascii.eqb (lower_char c) "e" then
        let '(minus, digits) := signed s' in
        if negb (String.eqb digits "") && string_all is_digit digits
        then Some (if minus then - digits_value 0 digits else digits_value 0 digits) else None
      else None
  end.

(** [digits . digits e digits], with a digit before or after the point; rounded once. *)
Definition decimal (s : string) : option Q :=
  let '(whole, rest) := span is_digit s in
  let '(part, rest) := match rest with String "." rest' => span is_digit rest' | _ => (EmptyString, rest) end in
  if String.eqb whole "" && String.eqb part "" then None
  else match exponent rest with
       | Some e =>
           let v := digits_value 0 (whole +:+ part) in
           let k := e - Z.of_nat (String.length part) in
           Some (fl (if 0 <=? k then inject_Z (v * 10 ^ k) else v # Z.to_pos (10 ^ (- k))))
       | None => None
       end.

(** A string read as a number: blank is 0, a based integer has no sign, the rest is decimal. *)
Definition string_to_number (text : string) : jsnum :=
  let s := trim text in
  match s with
  | EmptyString => JInt 0
  | String "0" (String c s') =>
      match (if Ascii.eqb (lower_char c) "x" then Some 16 else if Ascii.eqb (lower_char c) "o" then Some 8
             else if Ascii.eqb (lower_char c) "b" then Some 2 else None) with
      | Some base => if String.eqb s' "" then JNaN
                     else match base_value base 0 s' with Some v => JInt (fl_int v) | None => JNaN end
      | None => match decimal s with Some q => number_of q | None => JNaN end
      end
  | _ =>
      let '(minus, rest) := signed s in
      if String.eqb rest "Infinity" then JInf minus
      else match decimal rest with Some q => number_of (if minus then Qopp q else q) | None => JNaN end
  end.

(** An array is read as its text: the empty one as the empty string, one of one element as that element's
    text (nothing, for [null]), and a longer one has a comma in it. *)
Fixpoint to_number (v : json) : jsnum :=
  match v with
  | JNull => JInt 0
  | JBool b => JInt (if b then 1 else 0)
  | JNum n => n
  | JStr s => string_to_number s
  | JArr [] => JInt 0
  | JArr [x] => match x with JBool _ | JObj _ => JNaN | _ => to_number x end
  | JArr _ | JObj _ => JNaN
  end.
(** [Number(value)], [undefined] included. *)
Definition number_from (v : option json) : jsnum := match v with Some v => to_number v | None => JNaN end.

Example string_to_number_spots :
  string_to_number " 12 " = JInt 12 /\ string_to_number "-1.5e1" = JInt (-15) /\ string_to_number "0x1F" = JInt 31 /\
  string_to_number "1e-1x" = JNaN /\ string_to_number "-Infinity" = JInf true /\ string_to_number "." = JNaN /\
  (exists q, string_to_number ".25" = JDec q /\ (q == 1 # 4)%Q).
Proof. repeat split; try (vm_compute; reflexivity). eexists. split; vm_compute; reflexivity. Qed.

(** ** Lemmas *)

Lemma string_app_nil_l (t : string) : ("" +:+ t)%string = t.
Proof. done. Qed.
Lemma string_app_cons c (s t : string) : (String c s +:+ t)%string = String c (s +:+ t).
Proof. done. Qed.

Lemma char_code_of (z : Z) : 0 <= z < 256 -> char_code (char_of z) = z.
Proof.
  intros Hz. unfold char_code, char_of. rewrite N_ascii_embedding by lia. lia.
Qed.

Lemma digit_char_value (d : Z) : 0 <= d < 10 -> digit_value (digit_char d) = d.
Proof. intros. unfold digit_value, digit_char. rewrite char_code_of; lia. Qed.

Lemma digit_char_is_digit (d : Z) : 0 <= d < 10 -> is_digit (digit_char d) = true.
Proof. intros. unfold is_digit, digit_char. rewrite char_code_of by lia. lia. Qed.

Lemma dec_digits_value fuel n acc :
  0 <= n < 2 ^ Z.of_nat fuel -> (1 <= fuel)%nat ->
  digits_value 0 (dec_digits fuel n acc) = digits_value n acc.
Proof.
  revert n acc; induction fuel as [|fuel IH]; intros n acc Hn Hf; [lia|].
  simpl. destruct (Z.ltb_spec n 10).
  - simpl. rewrite digit_char_value by lia. by replace (10 * 0 + n) with n by lia.
  - assert (n < 2 * 2 ^ Z.of_nat fuel).
    { rewrite Nat2Z.inj_succ, Z.pow_succ_r in Hn; lia. }
    destruct fuel as [|fuel']; [simpl in *; lia|].
    rewrite IH; [|split; [apply Z.div_pos; lia|apply Z.div_lt_upper_bound; lia]|lia].
    simpl. rewrite digit_char_value by (apply Z.mod_pos_bound; lia).
    f_equal. pose proof (Z.div_mod n 10). lia.
Qed.

Lemma dec_digits_all fuel n acc :
  0 <= n -> string_all is_digit acc = true -> string_all is_digit (dec_digits fuel n acc) = true.
Proof.
  revert n acc; induction fuel as [|fuel IH]; intros n acc Hn Ha; [done|]. simpl.
  destruct (Z.ltb_spec n 10).
  - simpl. by rewrite digit_char_is_digit by lia.
  - apply IH; [apply Z.div_pos; lia|]. simpl.
    by rewrite digit_char_is_digit by (apply Z.mod_pos_bound; lia).
Qed.

Lemma dec_digits_nonempty fuel n acc : dec_digits (S fuel) n acc <> "".
Proof.
  revert n acc; induction fuel as [|fuel IH]; intros n acc; simpl in *.
  - by destruct (n <? 10).
  - destruct (n <? 10); [done|]. apply IH.
Qed.

Lemma string_of_nonneg_value n : 0 <= n -> digits_value 0 (string_of_nonneg n) = n.
Proof.
  intros Hn. unfold string_of_nonneg. rewrite dec_digits_value; [done| |lia].
  split; [done|]. rewrite Nat2Z.inj_succ, Z2Nat.id by apply Z.log2_nonneg.
  destruct (Z.eq_dec n 0) as [->|]; [done|]. by apply Z.log2_spec; lia.
Qed.
Lemma string_of_nonneg_digits n : 0 <= n -> string_all is_digit (string_of_nonneg n) = true.
Proof. intros. by apply dec_digits_all. Qed.
Lemma string_of_nonneg_nonempty n : string_of_nonneg n <> "".
Proof. apply dec_digits_nonempty. Qed.

Lemma span_all p s t :
  string_all p s = true -> (match t with String c _ => p c = false | _ => True end) ->
  span p (s +:+ t) = (s, t).
Proof.
  intros Hs Ht. induction s as [|c s IH]; simpl in *.
  - destruct t as [|c t]; simpl; [done|]. by rewrite Ht.
  - apply andb_true_iff in Hs as [Hc Hs]. by rewrite Hc, IH.
Qed.

Lemma string_app_nil_r (s : string) : (s +:+ "")%string = s.
Proof. induction s as [|c s IH]; [done|]. rewrite string_app_cons. by f_equal. Qed.

Lemma string_app_assoc (s t u : string) : ((s +:+ t) +:+ u = s +:+ (t +:+ u))%string.
Proof. induction s as [|c s IH]; [done|]. rewrite !string_app_cons. by f_equal. Qed.

Lemma string_app_length (s t : string) : String.length (s +:+ t) = (String.length s + String.length t)%nat.
Proof. induction s as [|c s IH]; [done|]. rewrite string_app_cons. simpl. by rewrite IH. Qed.

Lemma starts_with_app p s : starts_with p (p +:+ s) = true.
Proof. induction p as [|c p IH]; [done|]. rewrite string_app_cons. simpl. by rewrite Ascii.eqb_refl. Qed.

Lemma starts_with_spec p s : starts_with p s = true <-> exists t, s = (p +:+ t)%string.
Proof.
  split.
  - revert s; induction p as [|a p IH]; intros [|b s]; simpl; intros H; try done; eauto.
    apply andb_true_iff in H as [->%Ascii.eqb_eq H]. destruct (IH _ H) as [t ->]. by exists t.
  - intros [t ->]. apply starts_with_app.
Qed.

Lemma string_all_app p s t : string_all p (s +:+ t) = string_all p s && string_all p t.
Proof. induction s as [|c s IH]; [done|]. rewrite string_app_cons. simpl. by rewrite IH, andb_assoc. Qed.

Lemma string_drop_app s t : string_drop (String.length s) (s +:+ t) = t.
Proof. by induction s. Qed.
Lemma string_take_app s t : string_take (String.length s) (s +:+ t) = s.
Proof. induction s as [|c s IH]; [by destruct t|]. rewrite string_app_cons. simpl. by rewrite IH. Qed.

(** A string without white space at either end is its own trim. *)
Lemma trim_end_no_space s : string_all (fun c => negb (is_space c)) s = true -> trim_end s = s.
Proof.
  induction s as [|c s IH]; simpl; intros H; [done|].
  apply andb_true_iff in H as [Hc Hs]. rewrite IH by done.
  apply negb_true_iff in Hc. destruct s; [by rewrite Hc|done].
Qed.
Lemma trim_no_space s : string_all (fun c => negb (is_space c)) s = true -> trim s = s.
Proof.
  intros H. unfold trim. rewrite <- (trim_end_no_space s H) at 2. f_equal.
  destruct s as [|c s]; [done|]. simpl in *. apply andb_true_iff in H as [Hc _].
  apply negb_true_iff in Hc. by rewrite Hc.
Qed.

Lemma string_all_impl (p q : ascii -> bool) s :
  (forall c, p c = true -> q c = true) -> string_all p s = true -> string_all q s = true.
Proof.
  intros Hpq. induction s as [|c s IH]; simpl; [done|]. intros [Hc Hs]%andb_true_iff.
  by rewrite Hpq, IH.
Qed.

Lemma digit_not_space c : is_digit c = true -> negb (is_space c) = true.
Proof. unfold is_digit, is_space. lia. Qed.
