(* ===== verification/JsDate.v ===== *)
(** * JavaScript dates

    A time value is a number of milliseconds since the epoch (UTC), a [Z]; [civil_from_days] and
    [days_from_civil] relate days to year, month and day in the proleptic Gregorian calendar, as the
    [Date] object's UTC accessors do.  [to_iso] is [Date.prototype.toISOString].  [date_parse] is
    [Date.parse]: a string of the [toISOString] form has the value it spells; every other form (local
    times, other formats, where the host decides) is the parameter [other_formats]. *)

From S2P Require Import Prelude JsNumber JsString.
Local Open Scope Z_scope.

Definition MS_PER_DAY : Z := 86400000.

(** ** Calendar *)

Definition days_from_civil (y m d : Z) : Z :=
  let y' := if m <=? 2 then y - 1 else y in
  let era := y' / 400 in
  let yoe := y' - era * 400 in
  let doy := (153 * (if 2 <? m then m - 3 else m + 9) + 2) / 5 + d - 1 in
  era * 146097 + (yoe * 365 + yoe / 4 - yoe / 100 + doy) - 719468.

Definition civil_from_days (day : Z) : Z * Z * Z :=
  let z := day + 719468 in
  let era := z / 146097 in
  let doe := z - era * 146097 in
  let yoe := (doe - doe / 1460 + doe / 36524 - doe / 146096) / 365 in
  let doy := doe - (365 * yoe + yoe / 4 - yoe / 100) in
  let mp := (5 * doy + 2) / 153 in
  let d := doy - (153 * mp + 2) / 5 + 1 in
  let m := if mp <? 10 then mp + 3 else mp - 9 in
  (yoe + era * 400 + (if m <=? 2 then 1 else 0), m, d).

(** [getUTCDay]: 0 is Sunday. *)
Definition week_day (day : Z) : Z := (day + 4) mod 7.

(** ** [toISOString] *)

(** The last [w] decimal digits of [n]. *)
Fixpoint pad (w : nat) (n : Z) : string :=
  match w with
  | O => ""
  | S w' => (pad w' (n / 10) +:+ String (digit_char (n mod 10)) "")%string
  end.

Definition year_string (y : Z) : string :=
  if (0 <=? y) && (y <=? 9999) then pad 4 y
  else if y <? 0 then String "-" (pad 6 (- y)) else String "+" (pad 6 y).

Definition to_iso (t : Z) : string :=
  let '(y, m, d) := civil_from_days (t / MS_PER_DAY) in
  let ms := t mod MS_PER_DAY in
  (year_string y +:+ String "-" (pad 2 m +:+ String "-" (pad 2 d +:+ String "T"
    (pad 2 (ms / 3600000) +:+ String ":" (pad 2 (ms / 60000 mod 60) +:+ String ":"
    (pad 2 (ms / 1000 mod 60) +:+ String "." (pad 3 (ms mod 1000) +:+ "Z")))))))%string.

(** ** [Date.parse] *)

(** The number spelled by [n] characters from position [i]. *)
Definition field (i n : nat) (s : string) : Z := digits_value 0 (string_take n (string_drop i s)).

Definition scan_rest (y : Z) (s : string) : Z :=
  days_from_civil y (field 1 2 s) (field 4 2 s) * MS_PER_DAY +
  field 7 2 s * 3600000 + field 10 2 s * 60000 + field 13 2 s * 1000 + field 16 3 s.

Definition scan_iso (s : string) : Z :=
  match s with
  | String "-" s' => scan_rest (- field 0 6 s') (string_drop 6 s')
  | String "+" s' => scan_rest (field 0 6 s') (string_drop 6 s')
  | _ => scan_rest (field 0 4 s) (string_drop 4 s)
  end.

Definition date_parse (other_formats : string -> option Z) (s : string) : option Z :=
  if String.eqb (to_iso (scan_iso s)) s then Some (scan_iso s) else other_formats s.

(** ** Lemmas *)

(** Division by constants as linear facts, for the calendar's arithmetic. *)
#[local] Ltac Zify.zify_post_hook ::= Z.div_mod_to_equations.

Lemma civil_ranges day :
  let '(_, m, d) := civil_from_days day in 1 <= m <= 12 /\ 1 <= d <= 31.
Proof.
  unfold civil_from_days. set (z := day + 719468). set (doe := z - z / 146097 * 146097).
  assert (0 <= doe < 146097) by (unfold doe; lia).
  set (yoe := (doe - doe / 1460 + doe / 36524 - doe / 146096) / 365).
  assert (0 <= yoe <= 399) by (unfold yoe; lia).
  set (doy := doe - (365 * yoe + yoe / 4 - yoe / 100)).
  assert (0 <= doy <= 365) by (unfold doy, yoe; lia).
  set (mp := (5 * doy + 2) / 153). assert (0 <= mp <= 11) by (unfold mp; lia).
  split.
  - destruct (Z.ltb_spec mp 10); lia.
  - unfold mp. lia.
Qed.

Lemma days_from_civil_from_days day :
  let '(y, m, d) := civil_from_days day in days_from_civil y m d = day.
Proof.
  unfold civil_from_days, days_from_civil. set (z := day + 719468). set (era := z / 146097).
  set (doe := z - era * 146097).
  assert (0 <= doe < 146097) by (unfold doe, era; lia).
  set (yoe := (doe - doe / 1460 + doe / 36524 - doe / 146096) / 365).
  assert (0 <= yoe <= 399) by (unfold yoe; lia).
  set (doy := doe - (365 * yoe + yoe / 4 - yoe / 100)).
  assert (0 <= doy <= 365) by (unfold doy, yoe; lia).
  set (mp := (5 * doy + 2) / 153). assert (0 <= mp <= 11) by (unfold mp; lia).
  destruct (Z.ltb_spec mp 10) as [Hm|Hm].
  - replace (mp + 3 <=? 2) with false by lia. replace (2 <? mp + 3) with true by lia.
    replace (yoe + era * 400 + 0) with (yoe + era * 400) by lia.
    rewrite Z.div_add, (Z.div_small yoe 400) by lia.
    replace (mp + 3 - 3) with mp by lia. unfold doy in *. lia.
  - replace (mp - 9 <=? 2) with true by lia. replace (2 <? mp - 9) with false by lia.
    replace (yoe + era * 400 + 1 - 1) with (yoe + era * 400) by lia.
    rewrite Z.div_add, (Z.div_small yoe 400) by lia.
    replace (mp - 9 + 9) with mp by lia. unfold doy in *. lia.
Qed.

Lemma civil_year day : Z.abs day <= 100000000 -> let '(y, _, _) := civil_from_days day in Z.abs y < 1000000.
Proof.
  intros Hd. unfold civil_from_days. set (z := day + 719468). set (era := z / 146097).
  set (doe := z - era * 146097).
  assert (0 <= doe < 146097) by (unfold doe, era; lia).
  set (yoe := (doe - doe / 1460 + doe / 36524 - doe / 146096) / 365).
  assert (0 <= yoe <= 399) by (unfold yoe; lia).
  assert (Z.abs era <= 700) by (unfold era, z; lia).
  case_match; lia.
Qed.

Lemma pad_length w n : String.length (pad w n) = w.
Proof. revert n; induction w as [|w IH]; intros n; simpl; [done|]. rewrite string_app_length, IH. simpl. lia. Qed.

Lemma digits_value_app acc s t : digits_value acc (s +:+ t) = digits_value (digits_value acc s) t.
Proof. revert acc; induction s as [|c s IH]; intros acc; [done|]. rewrite string_app_cons. simpl. apply IH. Qed.

Lemma pad_value w n : 0 <= n < 10 ^ Z.of_nat w -> digits_value 0 (pad w n) = n.
Proof.
  revert n; induction w as [|w IH]; intros n Hn.
  - simpl in *. lia.
  - cbn [pad]. rewrite Nat2Z.inj_succ, Z.pow_succ_r in Hn by lia.
    rewrite digits_value_app, IH by (split; [|apply Z.div_lt_upper_bound]; lia). cbn [digits_value].
    rewrite digit_char_value by lia. lia.
Qed.

Lemma field_pad w n rest : 0 <= n < 10 ^ Z.of_nat w -> field 0 w (pad w n +:+ rest) = n.
Proof.
  intros Hn. unfold field. cbn [string_drop]. rewrite <- (pad_length w n) at 1.
  rewrite string_take_app. by apply pad_value.
Qed.

Lemma field_skip s i n rest : field (String.length s + i) n (s +:+ rest) = field i n rest.
Proof.
  unfold field. do 2 f_equal. induction s as [|c s IH]; [done|].
  rewrite string_app_cons. simpl. apply IH.
Qed.
Lemma field_skip_pad w n i k rest : field (w + i) k (pad w n +:+ rest) = field i k rest.
Proof. rewrite <- (pad_length w n) at 1. apply field_skip. Qed.
Lemma field_skip_char c i n s : field (S i) n (String c s) = field i n s.
Proof. done. Qed.

Lemma string_drop_pad w n rest : string_drop w (pad w n +:+ rest) = rest.
Proof. rewrite <- (pad_length w n) at 1. apply string_drop_app. Qed.

Lemma scan_rest_spelling y m d h mi s ms :
  0 <= m < 100 -> 0 <= d < 100 -> 0 <= h < 100 -> 0 <= mi < 100 -> 0 <= s < 100 -> 0 <= ms < 1000 ->
  scan_rest y (String "-" (pad 2 m +:+ String "-" (pad 2 d +:+ String "T"
    (pad 2 h +:+ String ":" (pad 2 mi +:+ String ":" (pad 2 s +:+ String "." (pad 3 ms +:+ "Z")))))))%string =
  days_from_civil y m d * MS_PER_DAY + h * 3600000 + mi * 60000 + s * 1000 + ms.
Proof.
  intros. unfold scan_rest.
  rewrite !field_skip_char, (field_pad 2 m) by lia.
  rewrite (field_skip_pad 2 m 1), (field_skip_pad 2 m 4), (field_skip_pad 2 m 7),
    (field_skip_pad 2 m 10), (field_skip_pad 2 m 13).
  rewrite !field_skip_char, (field_pad 2 d) by lia.
  rewrite (field_skip_pad 2 d 1), (field_skip_pad 2 d 4), (field_skip_pad 2 d 7), (field_skip_pad 2 d 10).
  rewrite !field_skip_char, (field_pad 2 h) by lia.
  rewrite (field_skip_pad 2 h 1), (field_skip_pad 2 h 4), (field_skip_pad 2 h 7).
  rewrite !field_skip_char, (field_pad 2 mi) by lia.
  rewrite (field_skip_pad 2 mi 1), (field_skip_pad 2 mi 4).
  rewrite !field_skip_char, (field_pad 2 s) by lia.
  rewrite (field_skip_pad 2 s 1), !field_skip_char, (field_pad 3 ms) by lia. done.
Qed.

Lemma pad_head w n : exists c s, pad (S w) n = String c s /\ is_digit c = true.
Proof.
  revert n; induction w as [|w IH]; intros n; cbn [pad] in *.
  - eexists _, _. split; [done|]. apply digit_char_is_digit. lia.
  - destruct (IH (n / 10)) as (c & s & E & Hc). rewrite E, string_app_cons. by eexists _, _.
Qed.

Lemma scan_iso_year y rest : Z.abs y < 1000000 -> scan_iso (year_string y +:+ rest) = scan_rest y rest.
Proof.
  intros Hy. unfold year_string. destruct (Z.leb_spec 0 y); simpl andb.
  - destruct (Z.leb_spec y 9999).
    + assert (scan_iso (pad 4 y +:+ rest) =
              scan_rest (field 0 4 (pad 4 y +:+ rest)) (string_drop 4 (pad 4 y +:+ rest))) as ->.
      { destruct (pad_head 3 y) as (c & s & -> & Hc). rewrite string_app_cons.
        destruct c as [[] [] [] [] [] [] [] []]; try discriminate Hc; reflexivity. }
      rewrite field_pad, string_drop_pad by lia. done.
    + destruct (Z.ltb_spec y 0); [lia|]. rewrite string_app_cons. cbn [scan_iso].
      rewrite field_pad, (string_drop_pad 6) by lia. done.
  - destruct (Z.ltb_spec y 0); [|lia]. rewrite string_app_cons. cbn [scan_iso].
    rewrite field_pad, (string_drop_pad 6) by lia. f_equal. lia.
Qed.

(** The range of a time value. *)
Definition valid_time (t : Z) : Prop := Z.abs t <= 8640000000000000.

Lemma scan_to_iso t : valid_time t -> scan_iso (to_iso t) = t.
Proof.
  unfold valid_time. intros Ht. unfold to_iso, MS_PER_DAY.
  pose proof (civil_ranges (t / 86400000)) as Hr. pose proof (days_from_civil_from_days (t / 86400000)) as Hd.
  pose proof (civil_year (t / 86400000) ltac:(lia)) as Hy.
  destruct (civil_from_days (t / 86400000)) as [[y m] d]. destruct Hr as [Hm Hdd].
  rewrite scan_iso_year by done. rewrite scan_rest_spelling by lia. unfold MS_PER_DAY. rewrite Hd. lia.
Qed.

(** [Date.parse] reads back what [toISOString] wrote. *)
Lemma date_parse_to_iso other t : valid_time t -> date_parse other (to_iso t) = Some t.
Proof. intros Ht. unfold date_parse. rewrite scan_to_iso by done. by rewrite String.eqb_refl. Qed.

Example to_iso_sample : to_iso 1758844800123 = "2025-09-26T00:00:00.123Z"%string.
Proof. vm_compute. reflexivity. Qed.
