(* ===== verification/JsBuffer.v ===== *)
(** * Node buffers

    A [Buffer] is a list of bytes.  Here are the parts of it the modelled code uses: slices, which stop at
    the end of the buffer, and unsigned integers written and read big-endian. *)

From stdpp Require Import list.
From S2P Require Import Prelude.
Open Scope Z_scope.

Abbreviation Buffer := (list Byte.byte).
#[export] Instance byte_eq_dec : EqDecision Byte.byte := Byte.byte_eq_dec.

Definition byte_val (b : Byte.byte) : Z := Z.of_N (Byte.to_N b).
(** An element assignment keeps the low eight bits. *)
Definition byte_of (z : Z) : Byte.byte := default Byte.x00 (Byte.of_N (Z.to_N (z mod 256))).

(** [buffer.length]. *)
Definition size_of (b : Buffer) : Z := Z.of_nat (length b).
(** [buffer.subarray(from, to)] for [0 <= from]. *)
Definition subarray (b : Buffer) (from to : Z) : Buffer := take (Z.to_nat (to - from)) (drop (Z.to_nat from) b).

(** [writeUIntBE] on [n] bytes, and [readUIntBE]. *)
Fixpoint write_be (n : nat) (z : Z) : Buffer :=
  match n with O => [] | S n => byte_of (z / 256 ^ Z.of_nat n) :: write_be n z end.
Definition read_be (b : Buffer) : Z := foldl (fun acc x => 256 * acc + byte_val x) 0 b.

(** ** Lemmas *)

Lemma byte_val_range b : 0 <= byte_val b < 256.
Proof. unfold byte_val. pose proof (Byte.to_N_bounded b). lia. Qed.
Lemma byte_val_of z : byte_val (byte_of z) = z mod 256.
Proof.
  unfold byte_of, byte_val. pose proof (Z.mod_pos_bound z 256 ltac:(lia)).
  destruct (Byte.of_N (Z.to_N (z mod 256))) as [b|] eqn:E; cbn [from_option].
  - apply Byte.to_of_N in E. unfold id. lia.
  - apply Byte.of_N_None_iff in E. lia.
Qed.
Lemma byte_of_val b : byte_of (byte_val b) = b.
Proof.
  unfold byte_of, byte_val. pose proof (Byte.to_N_bounded b). rewrite Z.mod_small by lia. rewrite N2Z.id.
  by rewrite Byte.of_to_N.
Qed.
Lemma byte_val_inj a b : byte_val a = byte_val b -> a = b.
Proof. intros E. by rewrite <- (byte_of_val a), <- (byte_of_val b), E. Qed.

Lemma length_write_be n z : length (write_be n z) = n.
Proof. induction n as [|n IH]; cbn; [done|]. by rewrite IH. Qed.
Lemma write_be_1 z : write_be 1 z = [byte_of z].
Proof. unfold write_be. change (256 ^ Z.of_nat 0) with 1. by rewrite Z.div_1_r. Qed.
Lemma size_write_be n z : size_of (write_be n z) = Z.of_nat n.
Proof. unfold size_of. by rewrite length_write_be. Qed.

Lemma foldl_be acc b : foldl (fun acc x => 256 * acc + byte_val x) acc b = acc * 256 ^ Z.of_nat (length b) + read_be b.
Proof.
  unfold read_be. revert acc. induction b as [|x b IH]; intros acc; cbn [foldl length]; [rewrite Z.pow_0_r; lia|].
  rewrite IH, (IH (256 * 0 + byte_val x)). rewrite Nat2Z.inj_succ, Z.pow_succ_r by lia. lia.
Qed.
Lemma read_be_cons x b : read_be (x :: b) = byte_val x * 256 ^ Z.of_nat (length b) + read_be b.
Proof. unfold read_be at 1. cbn [foldl]. rewrite foldl_be. f_equal. Qed.
Lemma read_be_range b : 0 <= read_be b < 256 ^ Z.of_nat (length b).
Proof.
  induction b as [|x b IH]; [cbn; lia|]. rewrite read_be_cons. pose proof (byte_val_range x). cbn [length].
  rewrite Nat2Z.inj_succ, Z.pow_succ_r by lia. nia.
Qed.
Lemma read_write_be n z : read_be (write_be n z) = z mod 256 ^ Z.of_nat n.
Proof.
  induction n as [|n IH]; cbn [write_be]; [cbn; by rewrite Z.mod_1_r|].
  rewrite read_be_cons, byte_val_of, length_write_be, IH, Nat2Z.inj_succ, Z.pow_succ_r by lia.
  assert (0 < 256 ^ Z.of_nat n) by lia.
  rewrite (Z.mul_comm 256), Z.rem_mul_r by lia. lia.
Qed.
Lemma read_write_be_id n z : 0 <= z < 256 ^ Z.of_nat n -> read_be (write_be n z) = z.
Proof. intros. rewrite read_write_be. by apply Z.mod_small. Qed.
Lemma read_be_inj a b : length a = length b -> read_be a = read_be b -> a = b.
Proof.
  revert b. induction a as [|x a IH]; intros [|y b] Hl E; try done. cbn in Hl. injection Hl as Hl.
  rewrite !read_be_cons, <- Hl in E. pose proof (read_be_range a). pose proof (read_be_range b). rewrite <- Hl in *.
  destruct (Z.div_mod_unique (256 ^ Z.of_nat (length a)) (byte_val x) (byte_val y) (read_be a) (read_be b)) as [Ex Er]; [lia..|].
  rewrite (byte_val_inj _ _ Ex). f_equal. by apply IH.
Qed.
Lemma write_read_be b : write_be (length b) (read_be b) = b.
Proof. apply read_be_inj; [apply length_write_be|]. apply read_write_be_id, read_be_range. Qed.
Lemma write_be_inj n x y : 0 <= x < 256 ^ Z.of_nat n -> 0 <= y < 256 ^ Z.of_nat n -> write_be n x = write_be n y -> x = y.
Proof. intros Hx Hy E. rewrite <- (read_write_be_id n x Hx), <- (read_write_be_id n y Hy). by rewrite E. Qed.

Lemma Z2Nat_nonpos z : z <= 0 -> Z.to_nat z = 0%nat.
Proof. lia. Qed.
Lemma size_nonneg b : 0 <= size_of b.
Proof. unfold size_of. lia. Qed.
Lemma size_app a b : size_of (a ++ b) = size_of a + size_of b.
Proof. unfold size_of. rewrite length_app. lia. Qed.
Lemma size_nil b : size_of b = 0 -> b = [].
Proof. unfold size_of. destruct b; cbn; [done|lia]. Qed.
Lemma size_subarray b from to : 0 <= from -> from <= to -> to <= size_of b -> size_of (subarray b from to) = to - from.
Proof. unfold size_of, subarray. intros. rewrite length_take, length_drop. lia. Qed.
Lemma size_subarray_le b from to : from <= to -> size_of (subarray b from to) <= to - from.
Proof. unfold size_of, subarray. intros. rewrite length_take. lia. Qed.

Lemma subarray_all b to : size_of b <= to -> subarray b 0 to = b.
Proof. unfold subarray, size_of. intros. cbn. rewrite Z.sub_0_r. apply take_ge. lia. Qed.
Lemma subarray_app_l a b from to : 0 <= from -> to <= size_of a -> subarray (a ++ b) from to = subarray a from to.
Proof.
  unfold subarray, size_of. intros. destruct (Z.le_gt_cases from to) as [|Hlt]; [|by rewrite (Z2Nat_nonpos (to - from)) by lia].
  rewrite drop_app_le by lia. by rewrite take_app_le by (rewrite length_drop; lia).
Qed.
Lemma subarray_app_r a b from to : size_of a <= from -> subarray (a ++ b) from to = subarray b (from - size_of a) (to - size_of a).
Proof.
  unfold subarray, size_of. intros. rewrite drop_app_ge by lia.
  replace (Z.to_nat from - length a)%nat with (Z.to_nat (from - Z.of_nat (length a))) by lia. f_equal. lia.
Qed.
(** What a piece of known size at a known place reads back as. *)
Lemma subarray_piece a b c from to : from = size_of a -> to = from + size_of b -> subarray (a ++ b ++ c) from to = b.
Proof.
  intros -> ->. rewrite subarray_app_r by lia. rewrite Z.sub_diag. rewrite subarray_app_l by lia. apply subarray_all. lia.
Qed.
Lemma subarray_subarray b from to from' to' : 0 <= from -> 0 <= from' -> to' <= to - from ->
  subarray (subarray b from to) from' to' = subarray b (from + from') (from + to').
Proof.
  intros. unfold subarray. destruct (Z.le_gt_cases from' to') as [|]; [|by rewrite (Z2Nat_nonpos (to' - from')), (Z2Nat_nonpos (from + to' - (from + from'))) by lia].
  rewrite skipn_firstn_comm, drop_drop, take_take.
  replace (Z.to_nat (to' - from') `min` _)%nat with (Z.to_nat (to' - from')) by lia.
  replace (Z.to_nat (from + to' - (from + from'))) with (Z.to_nat (to' - from')) by lia. do 2 f_equal. lia.
Qed.
Lemma subarray_split b from mid to : 0 <= from -> from <= mid <= to -> subarray b from mid ++ subarray b mid to = subarray b from to.
Proof.
  intros. unfold subarray. replace (Z.to_nat (to - from)) with (Z.to_nat (mid - from) + Z.to_nat (to - mid))%nat by lia.
  rewrite <- (take_take_drop (drop (Z.to_nat from) b)), drop_drop. f_equal. f_equal. f_equal. lia.
Qed.
Lemma subarray_trim b from to : subarray b from to = subarray b from (from + size_of (subarray b from to)).
Proof.
  unfold subarray, size_of. set (l := drop _ _). set (k := Z.to_nat (to - from)). replace (Z.to_nat _) with (length (take k l)) by lia.
  rewrite length_take. destruct (Nat.le_ge_cases k (length l)); [by rewrite Nat.min_l by done|]. rewrite Nat.min_r by done. by rewrite !take_ge by lia.
Qed.
Lemma subarray_nil b from to : to <= from -> subarray b from to = [].
Proof. intros. unfold subarray. by rewrite (Z2Nat_nonpos (to - from)) by lia. Qed.
Lemma app_size_inj (a b c d : Buffer) : size_of a = size_of c -> a ++ b = c ++ d -> a = c /\ b = d.
Proof. unfold size_of. intros H E. apply app_inj_1; [lia|done]. Qed.
(** Consecutive pieces of one size. *)
Lemma concat_pieces b k n : 0 <= k ->
  concat (map (fun i => subarray b (Z.of_nat i * k) ((Z.of_nat i + 1) * k)) (seq 0 n)) = subarray b 0 (Z.of_nat n * k).
Proof.
  intros Hk. induction n as [|n IH]; [by rewrite subarray_nil by lia|]. rewrite seq_S, map_app, concat_app, IH. cbn [map concat].
  rewrite app_nil_r, Nat.add_0_l. replace (Z.of_nat (S n) * k) with ((Z.of_nat n + 1) * k) by lia. apply subarray_split; nia.
Qed.
Lemma subarray_be b from to k : 0 <= from -> to = from + Z.of_nat k -> to <= size_of b ->
  subarray b from to = write_be k (read_be (subarray b from to)).
Proof.
  intros H0 -> H. pose proof (size_subarray b from (from + Z.of_nat k) H0 ltac:(lia) H) as Hs. unfold size_of in Hs.
  rewrite <- (write_read_be (subarray b from (from + Z.of_nat k))) at 1. f_equal. lia.
Qed.
(** A buffer is what is before a place and what is after it. *)
Lemma split_at b m : 0 <= m -> b = subarray b 0 m ++ subarray b m (size_of b).
Proof.
  intros Hm. destruct (Z.le_gt_cases m (size_of b)).
  - rewrite subarray_split by (pose proof (size_nonneg b); lia). symmetry. by apply subarray_all.
  - rewrite (subarray_nil b m) by lia. rewrite app_nil_r. symmetry. apply subarray_all. lia.
Qed.
