(* ===== verification/RationalTime.v ===== *)
(** * Exact rational time ([server/src/utils/rational-time.ts])

    [Rational] is a reduced fraction of safe integers.  Every operation of the module is a function
    into [res RationalError]: [Throw] is the exception of the source, at the same guard.  Products
    and sums are the binary64 results ([fl_int]) that [checkSafe] then tests. *)

From S2P Require Import Prelude JsNumber JsString.
From Stdlib Require Import QArith Qround Znumtheory.
Local Open Scope Z_scope.

Record Rational := mkRational { num : Z; den : Z }.
Definition TimeBase := Rational.

#[export] Instance Rational_eq_dec : EqDecision Rational.
Proof. solve_decision. Defined.

(** The throw sites of [RationalError]; [LoopBound] is not one of them: it marks a correction loop
    of [floorDivide] that would need more than four rounds, which never happens
    ([floorDivide_total]). *)
Inductive RationalError :=
| NotRepresentable (what : string)
| NeedsSafeIntegers (n d : Z)
| ZeroDenominator
| CannotInvertZero
| CannotDivideByZero
| ClampInverted
| NotARational (text : string)
| TimeBaseNotPositive (text : string)
| DecimalPlacesOutOfRange (decimals : Z)
| LoopBound.

Inductive RationalRounding := nearest | floor_mode | ceil_mode | trunc.

(** ** Construction *)

(** [while (y !== 0) { next = x % y; x = y; y = next }]. *)
Fixpoint gcd_loop (fuel : nat) (x y : Z) : Z :=
  match fuel with
  | O => x
  | S fuel' => if y =? 0 then x else gcd_loop fuel' y (x mod y)
  end.
Definition gcd (a b : Z) : Z :=
  gcd_loop (2 * Z.to_nat (Z.log2 (Z.abs b)) + 4) (Z.abs a) (Z.abs b).

Definition checkSafe (value : Z) (what : string) : res RationalError Z :=
  if is_safe_integer value then Ok value else Throw (NotRepresentable what).

Definition product (a b : Z) (what : string) : res RationalError Z := checkSafe (fl_int (a * b)) what.

(** [x || 1]. *)
Definition or_one (x : Z) : Z := if x =? 0 then 1 else x.

Definition rational (n d : Z) : res RationalError Rational :=
  if negb (is_safe_integer n) || negb (is_safe_integer d) then Throw (NeedsSafeIntegers n d)
  else if d =? 0 then Throw ZeroDenominator
  else
    let sign := if d <? 0 then -1 else 1 in
    let signedNum := n * sign in
    let positiveDen := d * sign in
    let divisor := or_one (gcd signedNum positiveDen) in
    Ok (mkRational (signedNum / divisor) (positiveDen / divisor)).

Definition RATIONAL_ZERO : Rational := mkRational 0 1.
Definition RATIONAL_ONE : Rational := mkRational 1 1.
Definition FRAME_RATE_NTSC_30 : Rational := mkRational 30000 1001.
Definition FRAME_RATE_NTSC_24 : Rational := mkRational 24000 1001.

Definition isRational (value : option json) : bool :=
  match value with
  | Some (JObj fs) =>
      match obj_get fs "num", obj_get fs "den" with
      | Some (JNum (JInt n)), Some (JNum (JInt d)) =>
          is_safe_integer n && is_safe_integer d && (0 <? d) && (gcd n d =? 1)
      | _, _ => false
      end
  | _ => false
  end.

Definition fromInteger (value : Z) : res RationalError Rational := rational value 1.
Definition fromMilliseconds (milliseconds : Z) : res RationalError Rational := rational milliseconds 1000.

(** ** Arithmetic *)

Definition isZero (value : Rational) : bool := num value =? 0.
Definition isNegative (value : Rational) : bool := num value <? 0.
Definition sign (value : Rational) : Z :=
  if num value =? 0 then 0 else if num value <? 0 then -1 else 1.

Definition negate (value : Rational) : Rational := mkRational (- num value) (den value).
Definition abs (value : Rational) : Rational := if num value <? 0 then negate value else value.

Definition invert (value : Rational) : res RationalError Rational :=
  if num value =? 0 then Throw CannotInvertZero else rational (den value) (num value).

Definition add (a b : Rational) : res RationalError Rational :=
  let divisor := gcd (den a) (den b) in
  let bScale := den b / divisor in
  let aScale := den a / divisor in
  d ← product (den a) bScale "A common denominator";
  ta ← product (num a) bScale "A sum term";
  tb ← product (num b) aScale "A sum term";
  n ← checkSafe (fl_int (ta + tb)) "A sum";
  rational n d.

Definition subtract (a b : Rational) : res RationalError Rational := add a (negate b).

Definition multiply (a b : Rational) : res RationalError Rational :=
  let left := or_one (gcd (num a) (den b)) in
  let right := or_one (gcd (num b) (den a)) in
  n ← product (num a / left) (num b / right) "A product";
  d ← product (den a / right) (den b / left) "A product denominator";
  rational n d.

Definition divide (a b : Rational) : res RationalError Rational :=
  if num b =? 0 then Throw CannotDivideByZero
  else i ← invert b; multiply a i.

Definition compare (a b : Rational) : res RationalError Z := d ← subtract a b; Ok (sign d).

Definition equals (a b : Rational) : bool := (num a =? num b) && (den a =? den b).
Definition lessThan (a b : Rational) : res RationalError bool := c ← compare a b; Ok (c <? 0).
Definition greaterThan (a b : Rational) : res RationalError bool := c ← compare a b; Ok (0 <? c).
Definition min (a b : Rational) : res RationalError Rational :=
  c ← compare a b; Ok (if c <=? 0 then a else b).
Definition max (a b : Rational) : res RationalError Rational :=
  c ← compare a b; Ok (if 0 <=? c then a else b).

Definition clamp (value lower upper : Rational) : res RationalError Rational :=
  c ← compare lower upper;
  if 0 <? c then Throw ClampInverted
  else m ← max value lower; min m upper.

Definition isInteger (value : Rational) : bool := den value =? 1.

(** ** Rounding *)

(** The two correction loops of [floorDivide]. *)
Fixpoint raise_remainder (fuel : nat) (quotient remainder d : Z) : res RationalError (Z * Z) :=
  if remainder <? 0 then
    match fuel with
    | O => Throw LoopBound
    | S fuel' => raise_remainder fuel' (fl_int (quotient - 1)) (fl_int (remainder + d)) d
    end
  else Ok (quotient, remainder).
Fixpoint lower_remainder (fuel : nat) (quotient remainder d : Z) : res RationalError (Z * Z) :=
  if d <=? remainder then
    match fuel with
    | O => Throw LoopBound
    | S fuel' => lower_remainder fuel' (fl_int (quotient + 1)) (fl_int (remainder - d)) d
    end
  else Ok (quotient, remainder).

Definition floorDivide (n d : Z) : res RationalError (Z * Z) :=
  let quotient := fl_floor_div n d in
  let remainder := fl_int (n - fl_int (quotient * d)) in
  '(q, r) ← raise_remainder 4 quotient remainder d;
  lower_remainder 4 q r d.

Definition roundToInteger (value : Rational) (mode : RationalRounding) : res RationalError Z :=
  if den value =? 1 then Ok (num value)
  else
    '(quotient, remainder) ← floorDivide (num value) (den value);
    match mode with
    | floor_mode => Ok quotient
    | ceil_mode => Ok (if remainder =? 0 then quotient else fl_int (quotient + 1))
    | trunc => Ok (if num value <? 0 then fl_int (quotient + 1) else quotient)
    | nearest =>
        '(wholeMagnitude, magnitudeRemainder) ← floorDivide (Z.abs (num value)) (den value);
        twice ← product magnitudeRemainder 2 "A rounding comparison";
        let rounded := if den value <=? twice then fl_int (wholeMagnitude + 1) else wholeMagnitude in
        Ok (if num value <? 0 then - rounded else rounded)
    end.

Definition floor (value : Rational) : res RationalError Z := roundToInteger value floor_mode.
Definition ceil (value : Rational) : res RationalError Z := roundToInteger value ceil_mode.

(** ** Text *)

(** [([+-]?\d+)]: an optional sign and a non-empty run of digits, with what follows. *)
Definition scan_int (s : string) : option (Z * string) :=
  let '(negative, body) :=
    match s with
    | String "+" s' => (false, s')
    | String "-" s' => (true, s')
    | _ => (false, s)
    end in
  let '(digits, rest) := span is_digit body in
  if String.eqb digits "" then None
  else let v := digits_value 0 digits in Some (if negative : bool then - v else v, rest).

(** The match of [/^([+-]?\d+)(?:\/([+-]?\d+))?$/], with [Number] applied to both groups. *)
Definition scan_rational (text : string) : option (Z * Z) :=
  '(n, rest) ← scan_int text;
  match rest with
  | EmptyString => Some (n, 1)
  | String "/" rest' =>
      '(d, rest'') ← scan_int rest';
      if String.eqb rest'' "" then Some (n, d) else None
  | _ => None
  end.

Definition parseRational (value : string) : res RationalError Rational :=
  match scan_rational (trim value) with
  | None => Throw (NotARational value)
  | Some (n, d) =>
      if negb (is_safe_integer (fl_int n)) || negb (is_safe_integer (fl_int d)) || (fl_int d =? 0)
      then Throw (NotARational value)
      else rational (fl_int n) (fl_int d)
  end.

Definition tryParseRational (value : option string) : option Rational :=
  match value with
  | None => None
  | Some text => if String.eqb text "" then None else to_option (parseRational text)
  end.

Definition formatRational (value : Rational) : string :=
  (string_of_int (num value) +:+ "/" +:+ string_of_int (den value))%string.

(** ** Time bases, ticks and frames *)

Definition ticksToSeconds (ticks : Z) (timeBase : TimeBase) : res RationalError Rational :=
  t ← fromInteger ticks; multiply t timeBase.

Definition secondsToTicks (seconds : Rational) (timeBase : TimeBase) (mode : RationalRounding) : res RationalError Z :=
  q ← divide seconds timeBase; roundToInteger q mode.

Definition isExactInTimeBase (seconds : Rational) (timeBase : TimeBase) : res RationalError bool :=
  q ← divide seconds timeBase; Ok (isInteger q).

Definition rescaleTicks (ticks : Z) (from to : TimeBase) (mode : RationalRounding) : res RationalError (Z * bool) :=
  seconds ← ticksToSeconds ticks from;
  scaled ← divide seconds to;
  t ← roundToInteger scaled mode;
  Ok (t, isInteger scaled).

Definition toTrackTimescale (timeBase : TimeBase) : res RationalError Z :=
  if num timeBase <=? 0 then Throw (TimeBaseNotPositive (formatRational timeBase)) else Ok (den timeBase).

Definition frameDuration (frameRate : Rational) : res RationalError Rational := invert frameRate.
Definition frameStartTime (index : Z) (frameRate : Rational) : res RationalError Rational :=
  i ← fromInteger index; divide i frameRate.
Definition frameIndexAt (time frameRate : Rational) : res RationalError Z :=
  p ← multiply time frameRate; roundToInteger p floor_mode.
Definition snapToFrame (time frameRate : Rational) : res RationalError Rational :=
  i ← frameIndexAt time frameRate; frameStartTime i frameRate.

(** ** Decimal text *)

(** The long division: [decimals] digits of [rest / d], and what is left. *)
Fixpoint expand_digits (places : nat) (rest d : Z) : res RationalError (list Z * Z) :=
  match places with
  | O => Ok ([], rest)
  | S places' =>
      scaled ← product rest 10 "A decimal expansion";
      let digit := fl_floor_div scaled d in
      '(digits, last) ← expand_digits places' (fl_int (scaled - fl_int (digit * d))) d;
      Ok (digit :: digits, last)
  end.

(** The carry loop, from the last digit backwards: the list is the reversed digits. *)
Fixpoint add_carry (rev_digits : list Z) (carry : Z) : list Z * Z :=
  match rev_digits with
  | [] => ([], carry)
  | digit :: rest =>
      if 0 <? carry then
        let next := digit + carry in
        let '(rest', out) := add_carry rest (if 10 <=? next then 1 else 0) in
        (next mod 10 :: rest', out)
      else (digit :: rest, carry)
  end.

Definition toDecimalString (value : Rational) (decimals : Z) : res RationalError string :=
  if negb (is_safe_integer decimals) || (decimals <? 0) || (15 <? decimals)
  then Throw (DecimalPlacesOutOfRange decimals)
  else
    let negative := num value <? 0 in
    let magnitude := Z.abs (num value) in
    '(quotient, remainder) ← floorDivide magnitude (den value);
    '(digits, rest) ← expand_digits (Z.to_nat decimals) remainder (den value);
    twice ← product rest 2 "A rounding comparison";
    let '(digits, whole) :=
      if den value <=? twice then
        let '(rev', carry) := add_carry (rev digits) 1 in (rev rev', fl_int (quotient + carry))
      else (digits, quotient) in
    let fraction :=
      if 0 <? decimals then (String "." (join "" (map string_of_int digits))) else ""%string in
    let text := (string_of_int whole +:+ fraction)%string in
    Ok (if negative && (negb (whole =? 0) || existsb (fun digit => negb (digit =? 0)) digits)
        then String "-" text else text).

(** [text.replace(/0+$/, '')] and [text.replace(/\.$/, '')]. *)
Fixpoint strip_zeros (s : string) : string :=
  match s with
  | EmptyString => EmptyString
  | String c s' =>
      match strip_zeros s' with
      | EmptyString => if Ascii.eqb c "0" then EmptyString else String c EmptyString
      | t => String c t
      end
  end.
Fixpoint strip_dot (s : string) : string :=
  match s with
  | EmptyString => EmptyString
  | String "." EmptyString => EmptyString
  | String c s' => String c (strip_dot s')
  end.
Fixpoint has_char (c : ascii) (s : string) : bool :=
  match s with EmptyString => false | String c' s' => Ascii.eqb c c' || has_char c s' end.

Definition toDisplaySeconds (value : Rational) (decimals : Z) : res RationalError string :=
  text ← toDecimalString value decimals;
  if negb (has_char "." text) then Ok text
  else
    let trimmed := strip_dot (strip_zeros text) in
    Ok (if String.eqb trimmed "-0" then "0"%string else trimmed).

(** The quotient as a binary64 number. *)
Definition toApproximateNumber (value : Rational) : Q :=
  fl (Qmake (num value) (Z.to_pos (den value))).

(** ** Transport *)

Definition coerceRational (value : option json) : res RationalError (option Rational) :=
  match value with
  | Some (JStr s) => Ok (tryParseRational (Some s))
  | Some (JObj fs) =>
      match obj_get fs "num", obj_get fs "den" with
      | Some (JNum (JInt n)), Some (JNum (JInt d)) =>
          if is_safe_integer n && is_safe_integer d && negb (d =? 0)
          then r ← rational n d; Ok (Some r)
          else Ok None
      | _, _ => Ok None
      end
  | _ => Ok None
  end.

(** ** Well-formed rationals *)

(** The representation invariant of the module: a reduced pair of safe integers, [0 < den]. *)
Definition wf (r : Rational) : Prop :=
  Z.abs (num r) < 2 ^ 53 /\ 0 < den r < 2 ^ 53 /\ Z.gcd (num r) (den r) = 1.

(** The number a rational stands for. *)
Definition value (r : Rational) : Q := Qmake (num r) (Z.to_pos (den r)).

#[export] Instance wf_dec r : Decision (wf r).
Proof. unfold wf. apply _. Defined.

(** *** gcd *)

Lemma gcd_loop_spec (k : nat) fuel x y :
  0 <= x -> 0 <= y < 2 ^ Z.of_nat k -> (2 * k + 2 <= fuel)%nat -> gcd_loop fuel x y = Z.gcd x y.
Proof.
  revert fuel x y; induction k as [|k IH]; intros fuel x y Hx Hy Hf.
  - destruct fuel as [|fuel]; [lia|]. simpl in *. replace y with 0 by lia.
    rewrite Z.gcd_0_r, Z.eqb_refl. lia.
  - destruct fuel as [|[|fuel]]; [lia|lia|]. cbn [gcd_loop].
    destruct (Z.eqb_spec y 0) as [->|Hy0]; [rewrite Z.gcd_0_r; lia|].
    pose proof (Z.mod_pos_bound x y ltac:(lia)).
    rewrite (Z.gcd_comm x y), <- (Z.gcd_mod x y), (Z.gcd_comm (x mod y)) by lia.
    destruct (Z.eqb_spec (x mod y) 0) as [->|Hr0]; [rewrite Z.gcd_0_r; lia|].
    pose proof (Z.mod_pos_bound y (x mod y) ltac:(lia)).
    pose proof (Z.div_mod y (x mod y) ltac:(lia)).
    assert (1 <= y / (x mod y)) by (apply Z.div_le_lower_bound; lia).
    rewrite Nat2Z.inj_succ, Z.pow_succ_r in Hy by lia.
    rewrite IH by (try lia; nia).
    rewrite (Z.gcd_comm y), <- (Z.gcd_mod y (x mod y)) by lia. apply Z.gcd_comm.
Qed.

(** The Euclid loop computes the greatest common divisor. *)
Lemma gcd_correct a b : gcd a b = Z.gcd a b.
Proof.
  unfold gcd. rewrite (gcd_loop_spec (S (Z.to_nat (Z.log2 (Z.abs b))))).
  - by rewrite Z.gcd_abs_l, Z.gcd_abs_r.
  - lia.
  - split; [lia|]. rewrite Nat2Z.inj_succ, Z2Nat.id by apply Z.log2_nonneg.
    destruct (Z.eq_dec (Z.abs b) 0) as [->|]; [done|]. apply Z.log2_spec; lia.
  - lia.
Qed.

(** *** Checked arithmetic *)

Lemma checkSafe_Ok x w y : checkSafe x w = Ok y <-> y = x /\ Z.abs x < 2 ^ 53.
Proof.
  unfold checkSafe. destruct (is_safe_integer x) eqn:H.
  - apply is_safe_integer_spec in H. split; [intros [= <-]; done|by intros [-> _]].
  - apply is_safe_integer_false in H. split; [done|lia].
Qed.

Lemma checked_Ok x w y : checkSafe (fl_int x) w = Ok y <-> y = x /\ Z.abs x < 2 ^ 53.
Proof.
  rewrite checkSafe_Ok. split; intros [-> H].
  - apply is_safe_integer_spec in H. rewrite is_safe_fl_int in H. apply is_safe_integer_spec in H.
    by rewrite fl_int_exact.
  - by rewrite fl_int_exact.
Qed.

Lemma product_Ok a b w y : product a b w = Ok y <-> y = a * b /\ Z.abs (a * b) < 2 ^ 53.
Proof. apply checked_Ok. Qed.

Lemma rational_Ok n d r :
  rational n d = Ok r <->
  Z.abs n < 2 ^ 53 /\ Z.abs d < 2 ^ 53 /\ d <> 0 /\
  r = mkRational (n * Z.sgn d / Z.gcd n d) (Z.abs d / Z.gcd n d).
Proof.
  unfold rational.
  destruct (is_safe_integer n) eqn:Hn; [apply is_safe_integer_spec in Hn|apply is_safe_integer_false in Hn; simpl; split; [done|lia]].
  destruct (is_safe_integer d) eqn:Hd; [apply is_safe_integer_spec in Hd|apply is_safe_integer_false in Hd; simpl; split; [done|lia]].
  simpl. destruct (Z.eqb_spec d 0) as [->|Hd0]; [split; [done|lia]|].
  rewrite !gcd_correct.
  assert (forall s, s = Z.sgn d -> Z.gcd (n * s) (d * s) = Z.gcd n d) as Hg.
  { intros s ->. rewrite Z.gcd_mul_mono_r. destruct (Z.sgn_spec d) as [[? ->]|[[? ->]|[? ->]]]; lia. }
  assert (Z.gcd n d <> 0) as Hg0 by (intros [? ?]%Z.gcd_eq_0; lia).
  unfold or_one. rewrite !Hg by (destruct (Z.ltb_spec d 0); lia).
  destruct (Z.eqb_spec (Z.gcd n d) 0); [done|].
  assert ((if d <? 0 then -1 else 1) = Z.sgn d) as -> by (destruct (Z.ltb_spec d 0); lia).
  rewrite Z.sgn_abs.
  split; [intros [= <-]|intros (_ & _ & _ & ->)]; auto.
Qed.

Lemma reduce_facts n d : d <> 0 ->
  let g := Z.gcd n d in
  0 < g /\ n * Z.sgn d = (n * Z.sgn d / g) * g /\ Z.abs d = (Z.abs d / g) * g /\
  Z.gcd (n * Z.sgn d / g) (Z.abs d / g) = 1 /\ 0 < Z.abs d / g.
Proof.
  intros Hd g. pose proof (Z.gcd_nonneg n d). assert (g <> 0) by (intros [? ?]%Z.gcd_eq_0; lia).
  assert (0 < g) by lia. split; [done|].
  assert ((g | n * Z.sgn d)) as [x Hx] by (apply Z.divide_mul_l, Z.gcd_divide_l).
  assert ((g | Z.abs d)) as [y Hy] by (apply Z.divide_abs_r, Z.gcd_divide_r).
  rewrite Hx, Hy, !Z.div_mul by lia. split; [done|]. split; [done|]. split; [|nia].
  assert (Z.gcd (n * Z.sgn d) (Z.abs d) = g) as Hg.
  { rewrite Z.gcd_abs_r. unfold g. destruct (Z.sgn_spec d) as [[? ->]|[[? ->]|[? ->]]].
    - by rewrite Z.mul_1_r.
    - lia.
    - rewrite Z.mul_opp_r, Z.mul_1_r. apply Z.gcd_opp_l. }
  rewrite Hx, Hy, Z.gcd_mul_mono_r in Hg. nia.
Qed.

(** What [rational] returns is well formed and keeps the value. *)
Lemma rational_spec n d r :
  rational n d = Ok r -> wf r /\ num r * d = n * den r.
Proof.
  intros (Hn & Hd & Hd0 & ->)%rational_Ok. pose proof (reduce_facts n d Hd0) as (Hg & Ex & Ey & Hc & Hp).
  unfold wf; simpl. set (g := Z.gcd n d) in *. set (x := n * Z.sgn d / g) in *. set (y := Z.abs d / g) in *.
  repeat split; try nia; try lia.
Qed.

Lemma wf_unique a b : wf a -> wf b -> num a * den b = num b * den a -> a = b.
Proof.
  intros (Ha1 & Ha2 & Ha3) (Hb1 & Hb2 & Hb3) H. destruct a as [an ad], b as [bn bd]; simpl in *.
  assert ((ad | bd)) as Hk.
  { apply (Z.gauss ad an bd); [|by rewrite Z.gcd_comm]. rewrite H. apply Z.divide_mul_r, Z.divide_refl. }
  assert ((bd | ad)) as Hj.
  { apply (Z.gauss bd bn ad); [|by rewrite Z.gcd_comm]. rewrite <- H. apply Z.divide_mul_r, Z.divide_refl. }
  assert (ad = bd) as -> by (apply Z.divide_antisym_nonneg; lia || done). f_equal. nia.
Qed.

(** A reduced pair of safe integers with a positive denominator is what [rational] returns for it. *)
Lemma rational_wf_id r : wf r -> rational (num r) (den r) = Ok r.
Proof.
  intros (H1 & H2 & H3). apply rational_Ok. destruct r as [n d]; simpl in *.
  rewrite H3, !Z.div_1_r. repeat split; try lia. f_equal; lia.
Qed.

Lemma value_eq a b : 0 < den a -> 0 < den b -> (value a == value b)%Q <-> num a * den b = num b * den a.
Proof. intros. unfold value, Qeq; simpl. rewrite !Z2Pos.id by lia. done. Qed.

#[export] Hint Resolve rational_wf_id : frameleaf.

(** *** Operations on well-formed rationals *)

Lemma negate_wf a : wf a -> wf (negate a).
Proof. intros (H1 & H2 & H3). unfold wf; cbn [num den negate]. rewrite Z.gcd_opp_l. repeat split; try lia; done. Qed.

Lemma add_terms a b n d :
  wf a -> wf b -> n = num a * (den b / Z.gcd (den a) (den b)) + num b * (den a / Z.gcd (den a) (den b)) ->
  d = den a * (den b / Z.gcd (den a) (den b)) ->
  0 < d /\ n * (den a * den b) = (num a * den b + num b * den a) * d.
Proof.
  intros (_ & Ha & _) (_ & Hb & _) -> ->.
  set (g := Z.gcd (den a) (den b)).
  assert (0 < g) by (pose proof (Z.gcd_nonneg (den a) (den b)); assert (g <> 0) by (intros [? ?]%Z.gcd_eq_0; lia); lia).
  destruct (Z.gcd_divide_l (den a) (den b)) as [x Hx]. destruct (Z.gcd_divide_r (den a) (den b)) as [y Hy].
  fold g in Hx, Hy. rewrite Hx, Hy, !Z.div_mul by lia. split; [nia|ring].
Qed.

(** [add] keeps the invariant and is exact. *)
Lemma add_spec a b r :
  wf a -> wf b -> add a b = Ok r ->
  wf r /\ num r * (den a * den b) = (num a * den b + num b * den a) * den r.
Proof.
  intros Ha Hb H. unfold add in H. rewrite gcd_correct in H.
  apply bind_Ok in H as (d & [-> Hd]%product_Ok & H).
  apply bind_Ok in H as (ta & [-> _]%product_Ok & H).
  apply bind_Ok in H as (tb & [-> _]%product_Ok & H).
  apply bind_Ok in H as (n & [-> Hn]%checked_Ok & H).
  apply rational_spec in H as [Hwf Hr]. split; [done|].
  pose proof (add_terms a b _ _ Ha Hb eq_refl eq_refl) as [Hpos E].
  match type of Hr with _ * ?d' = ?n' * _ => set (d := d') in *; set (n := n') in * end.
  apply (Z.mul_reg_r _ _ d); [lia|].
  replace (num r * (den a * den b) * d) with (num r * d * (den a * den b)) by ring.
  rewrite Hr. replace (n * den r * (den a * den b)) with (n * (den a * den b) * den r) by ring.
  rewrite E. ring.
Qed.

Lemma subtract_spec a b r :
  wf a -> wf b -> subtract a b = Ok r ->
  wf r /\ num r * (den a * den b) = (num a * den b - num b * den a) * den r.
Proof.
  intros Ha Hb H. apply add_spec in H as [? H]; [|done|by apply negate_wf].
  split; [done|]. simpl in H. rewrite H. ring.
Qed.

(** [compare] answers the order of the values. *)
Lemma compare_spec a b c :
  wf a -> wf b -> compare a b = Ok c -> c = Z.sgn (num a * den b - num b * den a).
Proof.
  intros Ha Hb (d & Hd & [= <-])%bind_Ok. apply subtract_spec in Hd as [(_ & Hdp & _) E]; [|done|done].
  destruct Ha as (_ & Ha & _), Hb as (_ & Hb & _). unfold sign.
  assert (0 < den a * den b) by nia.
  destruct (Z.eqb_spec (num d) 0); [|destruct (Z.ltb_spec (num d) 0)].
  - replace (num a * den b - num b * den a) with 0 by nia. done.
  - symmetry. apply Z.sgn_neg. nia.
  - symmetry. apply Z.sgn_pos. nia.
Qed.

(** The cross-reduced product: already reduced, so it is the product in lowest terms. *)
Lemma multiply_terms a b :
  wf a -> wf b ->
  let l := Z.gcd (num a) (den b) in let r := Z.gcd (num b) (den a) in
  let n := num a / l * (num b / r) in let d := den a / r * (den b / l) in
  0 < l /\ 0 < r /\ 0 < d /\ n * (den a * den b) = num a * num b * d /\ Z.gcd n d = 1.
Proof.
  intros (_ & Ha & Hac) (_ & Hb & Hbc) l r n d.
  assert (0 < l) by (pose proof (Z.gcd_nonneg (num a) (den b)); assert (l <> 0) by (intros [? ?]%Z.gcd_eq_0; lia); lia).
  assert (0 < r) by (pose proof (Z.gcd_nonneg (num b) (den a)); assert (r <> 0) by (intros [? ?]%Z.gcd_eq_0; lia); lia).
  destruct (Z.gcd_divide_l (num a) (den b)) as [x Hx]. destruct (Z.gcd_divide_r (num a) (den b)) as [v Hv].
  destruct (Z.gcd_divide_l (num b) (den a)) as [y Hy]. destruct (Z.gcd_divide_r (num b) (den a)) as [u Hu].
  fold l in Hx, Hv. fold r in Hy, Hu.
  assert (Z.gcd x v = 1) as Hxv.
  { assert (Z.gcd (num a) (den b) = l) as E by done. rewrite Hx, Hv, Z.gcd_mul_mono_r in E. nia. }
  assert (Z.gcd y u = 1) as Hyu.
  { assert (Z.gcd (num b) (den a) = r) as E by done. rewrite Hy, Hu, Z.gcd_mul_mono_r in E. nia. }
  assert (n = x * y) as -> by (unfold n; rewrite Hx, Hy, !Z.div_mul; lia).
  assert (d = u * v) as -> by (unfold d; rewrite Hu, Hv, !Z.div_mul; lia).
  split; [done|]. split; [done|]. split; [nia|]. split; [rewrite Hx, Hv, Hy, Hu; ring|].
  assert (Z.gcd x u = 1) as Hxu.
  { apply Z.gcd_unique; [lia|apply Z.divide_1_l|apply Z.divide_1_l|]. intros q Hqx Hqu. rewrite <- Hac.
    apply Z.gcd_greatest; [rewrite Hx|rewrite Hu]; by apply Z.divide_mul_l. }
  assert (Z.gcd y v = 1) as Hyv.
  { apply Z.gcd_unique; [lia|apply Z.divide_1_l|apply Z.divide_1_l|]. intros q Hqy Hqv. rewrite <- Hbc.
    apply Z.gcd_greatest; [rewrite Hy|rewrite Hv]; by apply Z.divide_mul_l. }
  change (Z.coprime (x * y) (u * v)). apply Z.coprime_mul_l; apply Z.coprime_mul_r; done.
Qed.

Lemma multiply_unfold a b :
  wf a -> wf b ->
  multiply a b =
    (n ← product (num a / Z.gcd (num a) (den b)) (num b / Z.gcd (num b) (den a)) "A product";
     d ← product (den a / Z.gcd (num b) (den a)) (den b / Z.gcd (num a) (den b)) "A product denominator";
     rational n d).
Proof.
  intros Ha Hb. pose proof (multiply_terms a b Ha Hb) as (Hl & Hr & _).
  unfold multiply, or_one. rewrite !gcd_correct.
  destruct (Z.eqb_spec (Z.gcd (num a) (den b)) 0); [lia|].
  destruct (Z.eqb_spec (Z.gcd (num b) (den a)) 0); [lia|]. done.
Qed.

Lemma multiply_spec a b r :
  wf a -> wf b -> multiply a b = Ok r ->
  wf r /\ num r * (den a * den b) = num a * num b * den r.
Proof.
  intros Ha Hb H. rewrite multiply_unfold in H by done.
  pose proof (multiply_terms a b Ha Hb) as (Hl & Hr & Hd & E & Hc).
  apply bind_Ok in H as (n & [-> _]%product_Ok & H).
  apply bind_Ok in H as (d & [-> _]%product_Ok & H).
  apply rational_spec in H as [Hwf Hv]. split; [done|].
  match type of Hv with _ * ?d' = ?n' * _ => set (d := d') in *; set (n := n') in * end.
  apply (Z.mul_reg_r _ _ d); [lia|].
  replace (num r * (den a * den b) * d) with (num r * d * (den a * den b)) by ring.
  rewrite Hv. replace (n * den r * (den a * den b)) with (n * (den a * den b) * den r) by ring.
  rewrite E. ring.
Qed.

Lemma invert_spec a r : wf a -> invert a = Ok r -> wf r /\ num r * num a = den a * den r.
Proof.
  intros Ha H. unfold invert in H. destruct (num a =? 0); [done|]. by apply rational_spec in H.
Qed.

(** A non-zero rational always has an inverse. *)
Lemma invert_total a : wf a -> num a <> 0 ->
  invert a = Ok (mkRational (den a * Z.sgn (num a)) (Z.abs (num a))).
Proof.
  intros (H1 & H2 & H3) H0. unfold invert. destruct (Z.eqb_spec (num a) 0); [done|].
  apply rational_Ok. rewrite Z.gcd_comm, H3, !Z.div_1_r. repeat split; lia.
Qed.

Lemma divide_spec a b r :
  wf a -> wf b -> divide a b = Ok r ->
  num b <> 0 /\ wf r /\ num r * (den a * num b) = num a * den b * den r.
Proof.
  intros Ha Hb H. unfold divide in H. destruct (Z.eqb_spec (num b) 0) as [|Hb0]; [done|].
  apply bind_Ok in H as (i & Hi & Hm). apply invert_spec in Hi as [Hiwf Hi]; [|done].
  apply multiply_spec in Hm as [Hwf Hm]; [|done|done]. split; [done|]. split; [done|].
  destruct Hiwf as (_ & Hid & _). apply (Z.mul_reg_r _ _ (den i)); [lia|].
  replace (num r * (den a * num b) * den i) with (num r * (den a * den i) * num b) by ring.
  rewrite Hm. replace (num a * num i * den r * num b) with (num a * (num i * num b) * den r) by ring.
  rewrite Hi. ring.
Qed.

Lemma fromInteger_spec n r : fromInteger n = Ok r -> r = mkRational n 1 /\ wf r.
Proof.
  intros H. pose proof H as H'. apply rational_Ok in H' as (Hn & _ & _ & ->).
  apply rational_spec in H as [? _]. rewrite Z.gcd_1_r, !Z.div_1_r in *.
  replace (n * Z.sgn 1) with n in * by lia. done.
Qed.

(** *** Rounding *)

(** Division by the exact integers; [nearest] is half away from zero. *)
Definition exact_round (mode : RationalRounding) (n d : Z) : Z :=
  match mode with
  | floor_mode => n / d
  | ceil_mode => - (- n / d)
  | trunc => Z.quot n d
  | nearest => Z.sgn n * ((2 * Z.abs n + d) / (2 * d))
  end.

Lemma raise_remainder_id fuel q r d : 0 <= r -> raise_remainder fuel q r d = Ok (q, r).
Proof. intros. destruct fuel; simpl; destruct (Z.ltb_spec r 0); done || lia. Qed.
Lemma lower_remainder_id fuel q r d : r < d -> lower_remainder fuel q r d = Ok (q, r).
Proof. intros. destruct fuel; simpl; destruct (Z.leb_spec d r); done || lia. Qed.

Lemma raise_remainder_step fuel q r d : r < 0 ->
  raise_remainder (S fuel) q r d = raise_remainder fuel (fl_int (q - 1)) (fl_int (r + d)) d.
Proof. intros. simpl. destruct (Z.ltb_spec r 0); [done|lia]. Qed.
Lemma lower_remainder_step fuel q r d : d <= r ->
  lower_remainder (S fuel) q r d = lower_remainder fuel (fl_int (q + 1)) (fl_int (r - d)) d.
Proof. intros. simpl. destruct (Z.leb_spec d r); [done|lia]. Qed.

(** [floorDivide] is exact whenever [quotient * den] stays representable. *)
Lemma floorDivide_exact n d :
  Z.abs n < 2 ^ 53 -> 0 < d < 2 ^ 53 -> (0 <= n \/ Z.abs n + d <= 2 ^ 53) ->
  floorDivide n d = Ok (n / d, n mod d).
Proof.
  intros Hn Hd Hs. unfold floorDivide. rewrite fl_floor_div_exact by lia.
  pose proof (Z.mod_pos_bound n d ltac:(lia)). pose proof (Z.div_mod n d ltac:(lia)).
  assert (n / d * d = n - n mod d) as E by lia. rewrite E.
  assert (n < 0 \/ 0 <= n - n mod d) by (destruct (Z.lt_ge_cases n 0); [by left|right; pose proof (Z.div_pos n d); nia]).
  rewrite (fl_int_exact (n - n mod d)) by lia.
  replace (n - (n - n mod d)) with (n mod d) by lia. rewrite fl_int_exact by lia.
  rewrite raise_remainder_id by lia. res_step. apply lower_remainder_id. lia.
Qed.

(** The correction loops of [floorDivide] always end, with a remainder in range. *)
Lemma floorDivide_total n d :
  Z.abs n < 2 ^ 53 -> 0 < d < 2 ^ 53 ->
  exists q r, floorDivide n d = Ok (q, r) /\ 0 <= r < d /\ Z.abs (q - n / d) <= 1.
Proof.
  intros Hn Hd. destruct (Z.eq_dec d 1) as [->|Hd1].
  { exists n, 0. rewrite floorDivide_exact by lia. rewrite Z.div_1_r, Z.mod_1_r. split; [done|lia]. }
  unfold floorDivide. rewrite fl_floor_div_exact by lia.
  pose proof (Z.mod_pos_bound n d ltac:(lia)). pose proof (Z.div_mod n d ltac:(lia)).
  assert (Z.abs (n / d) < 2 ^ 53 - 1) by nia.
  assert (n / d * d = n - n mod d) as E by lia. rewrite E.
  pose proof (fl_int_near (n - n mod d) ltac:(lia)) as Hp. set (p := fl_int (n - n mod d)) in *.
  rewrite (fl_int_exact (n - p)) by lia.
  assert (-1 <= n - p <= d) as Hr by lia.
  destruct (Z.eq_dec (n - p) (-1)) as [Er|]; [|destruct (Z.eq_dec (n - p) d) as [Er|]].
  - rewrite Er, raise_remainder_step, !fl_int_exact by lia.
    rewrite raise_remainder_id by lia. res_step. rewrite lower_remainder_id by lia.
    eexists _, _. split; [done|lia].
  - rewrite raise_remainder_id by lia. res_step. rewrite lower_remainder_step, !fl_int_exact by lia.
    rewrite lower_remainder_id by lia. eexists _, _. split; [done|lia].
  - rewrite raise_remainder_id by lia. res_step. rewrite lower_remainder_id by lia.
    eexists _, _. split; [done|lia].
Qed.

Lemma round_half_away n d : 0 < d ->
  (2 * n + d) / (2 * d) = if d <=? n mod d * 2 then n / d + 1 else n / d.
Proof.
  intros Hd. pose proof (Z.mod_pos_bound n d Hd). pose proof (Z.div_mod n d ltac:(lia)).
  destruct (Z.leb_spec d (n mod d * 2)); symmetry.
  - apply (Z.div_unique _ _ _ (2 * (n mod d) - d)); [left; lia|nia].
  - apply (Z.div_unique _ _ _ (2 * (n mod d) + d)); [left; lia|nia].
Qed.

Lemma exact_round_1 mode n : exact_round mode n 1 = n.
Proof.
  destruct mode; simpl.
  - rewrite round_half_away, Z.mod_1_r, Z.div_1_r by lia. simpl. lia.
  - apply Z.div_1_r.
  - rewrite Z.div_1_r. lia.
  - apply Z.quot_1_r.
Qed.

Lemma mod_nonzero v : wf v -> den v <> 1 -> num v mod den v <> 0.
Proof.
  intros (_ & Hd & Hg) H1 Hm. apply H1.
  assert ((den v | num v)) as Hdiv by (apply Z.mod_divide; lia).
  apply Z.divide_gcd_iff in Hdiv; [|lia]. rewrite Z.gcd_comm in Hdiv. lia.
Qed.

Lemma roundToInteger_exact v mode :
  wf v -> (0 <= num v \/ Z.abs (num v) + den v <= 2 ^ 53) ->
  (mode = nearest -> den v <= 2 ^ 52) ->
  roundToInteger v mode = Ok (exact_round mode (num v) (den v)).
Proof.
  intros Hwf Hs Hn. pose proof Hwf as (H1 & H2 & H3). unfold roundToInteger.
  destruct (Z.eqb_spec (den v) 1) as [->|Hd1]; [by rewrite exact_round_1|].
  rewrite (floorDivide_exact (num v)) by lia. res_step. pose proof (mod_nonzero v Hwf Hd1) as Hm.
  pose proof (Z.mod_pos_bound (num v) (den v) ltac:(lia)) as Hmb.
  pose proof (Z.div_mod (num v) (den v) ltac:(lia)) as Hdm.
  assert (Z.abs (num v / den v) < 2 ^ 53 - 1) by nia.
  destruct mode; simpl exact_round.
  - rewrite floorDivide_exact by lia. res_step.
    pose proof (Z.mod_pos_bound (Z.abs (num v)) (den v) ltac:(lia)).
    pose proof (Z.div_mod (Z.abs (num v)) (den v) ltac:(lia)).
    assert (0 <= Z.abs (num v) / den v < 2 ^ 53 - 1) by (split; [apply Z.div_pos; lia|nia]).
    assert (product (Z.abs (num v) mod den v) 2 "A rounding comparison"%string = Ok (Z.abs (num v) mod den v * 2)) as ->.
    { apply product_Ok. split; [done|]. specialize (Hn eq_refl). lia. }
    res_step. rewrite round_half_away, fl_int_exact by lia. f_equal.
    destruct (Z.ltb_spec (num v) 0); [|destruct (Z.eq_dec (num v) 0) as [E0|]; [|rewrite Z.sgn_pos by lia; lia]].
    + rewrite Z.sgn_neg by lia. lia.
    + rewrite E0, Z.mod_0_l in Hm by lia. lia.
  - done.
  - destruct (Z.eqb_spec (num v mod den v) 0); [lia|]. rewrite fl_int_exact by lia. f_equal.
    rewrite Z_div_nz_opp_full by lia. lia.
  - f_equal. destruct (Z.ltb_spec (num v) 0).
    + rewrite fl_int_exact by lia. rewrite <- (Z.opp_involutive (num v)) at 2.
      rewrite Z.quot_opp_l by lia. rewrite Z.quot_div_nonneg by lia. rewrite Z_div_nz_opp_full by lia. lia.
    + rewrite Z.quot_div_nonneg by lia. done.
Qed.

(** *** Decimal text *)

(** The [places] decimal digits of [x], most significant first. *)
Fixpoint fixed_digits (places : nat) (x : Z) : list Z :=
  match places with
  | O => []
  | S p => x / 10 ^ Z.of_nat p :: fixed_digits p (x mod 10 ^ Z.of_nat p)
  end.
(** The same digits, least significant first. *)
Fixpoint lsd_digits (places : nat) (x : Z) : list Z :=
  match places with
  | O => []
  | S p => x mod 10 :: lsd_digits p (x / 10)
  end.

(** Reference: [n / d] rounded half away from zero to [k] decimals, spelled out. *)
Definition decimal_spec (n d : Z) (k : nat) : string :=
  let scaled := (2 * (Z.abs n * 10 ^ Z.of_nat k) + d) / (2 * d) in
  let text := (string_of_int (scaled / 10 ^ Z.of_nat k) +:+
               if (0 <? Z.of_nat k)%Z
               then String "." (join "" (map string_of_int (fixed_digits k (scaled mod 10 ^ Z.of_nat k))))
               else "")%string in
  if (n <? 0) && negb (scaled =? 0) then String "-" text else text.

Lemma lsd_digits_app p x : 0 <= x ->
  lsd_digits (S p) x = lsd_digits p (x mod 10 ^ Z.of_nat p) ++ [(x / 10 ^ Z.of_nat p) mod 10].
Proof.
  revert x; induction p as [|p IH]; intros x Hx; [by rewrite Z.div_1_r|].
  assert (10 ^ Z.of_nat (S p) = 10 * 10 ^ Z.of_nat p) as E by (rewrite Nat2Z.inj_succ, Z.pow_succ_r; lia).
  assert (0 < 10 ^ Z.of_nat p) by (apply Z.pow_pos_nonneg; lia).
  change (lsd_digits (S (S p)) x) with (x mod 10 :: lsd_digits (S p) (x / 10)).
  rewrite IH by (apply Z.div_pos; lia). rewrite E. cbn [lsd_digits app].
  rewrite Z.div_div by lia. f_equal.
  - rewrite Z.rem_mul_r by lia. rewrite Z.add_mod, (Z.mul_comm 10), Z.mod_mul by lia.
    rewrite Z.add_0_r, !Z.mod_mod by lia. done.
  - f_equal. rewrite Z.rem_mul_r by lia. rewrite Z.mul_comm, Z.div_add by lia.
    rewrite (Z.div_small (x mod 10)) by (apply Z.mod_pos_bound; lia). done.
Qed.

Lemma fixed_digits_rev p x : 0 <= x < 10 ^ Z.of_nat p -> fixed_digits p x = rev (lsd_digits p x).
Proof.
  revert x; induction p as [|p IH]; intros x Hx; [done|].
  assert (0 < 10 ^ Z.of_nat p) by (apply Z.pow_pos_nonneg; lia).
  rewrite Nat2Z.inj_succ, Z.pow_succ_r in Hx by lia.
  rewrite lsd_digits_app, rev_app_distr by lia. cbn [fixed_digits rev app].
  rewrite IH by (apply Z.mod_pos_bound; lia). f_equal. symmetry. apply Z.mod_small.
  split; [apply Z.div_pos; lia|apply Z.div_lt_upper_bound; lia].
Qed.

Lemma add_carry_0 l : add_carry l 0 = (l, 0).
Proof. by destruct l. Qed.

Lemma add_carry_lsd p x : 0 <= x < 10 ^ Z.of_nat p ->
  add_carry (lsd_digits p x) 1 = (lsd_digits p ((x + 1) mod 10 ^ Z.of_nat p), (x + 1) / 10 ^ Z.of_nat p).
Proof.
  revert x; induction p as [|p IH]; intros x Hx.
  { simpl in *. replace x with 0 by lia. done. }
  assert (0 < 10 ^ Z.of_nat p) by (apply Z.pow_pos_nonneg; lia).
  rewrite Nat2Z.inj_succ, Z.pow_succ_r in * by lia.
  pose proof (Z.mod_pos_bound x 10 ltac:(lia)). pose proof (Z.div_mod x 10 ltac:(lia)).
  assert (0 <= x / 10 < 10 ^ Z.of_nat p) by (split; [apply Z.div_pos; lia|apply Z.div_lt_upper_bound; lia]).
  cbn [lsd_digits add_carry]. change (0 <? 1) with true. cbn match.
  rewrite <- (Z.div_div (x + 1)) by lia.
  assert (((x + 1) mod (10 * 10 ^ Z.of_nat p)) mod 10 = (x + 1) mod 10 /\
          ((x + 1) mod (10 * 10 ^ Z.of_nat p)) / 10 = ((x + 1) / 10) mod 10 ^ Z.of_nat p) as [E1 E2].
  { rewrite Z.rem_mul_r by lia. split.
    - rewrite Z.add_mod, (Z.mul_comm 10), Z.mod_mul, Z.add_0_r, !Z.mod_mod by lia. done.
    - rewrite Z.mul_comm, Z.div_add by lia. rewrite (Z.div_small (_ mod 10)) by (apply Z.mod_pos_bound; lia). done. }
  rewrite E1, E2. destruct (Z.leb_spec 10 (x mod 10 + 1)).
  - assert (x mod 10 = 9) as E9 by lia.
    assert ((x + 1) / 10 = x / 10 + 1) as -> by (symmetry; apply (Z.div_unique _ _ _ 0); lia).
    rewrite IH by done. f_equal. f_equal. rewrite E9. change ((9 + 1) mod 10) with 0. apply (Z.mod_unique _ _ (x / 10 + 1)); lia.
  - rewrite add_carry_0.
    assert ((x + 1) / 10 = x / 10) as -> by (symmetry; apply (Z.div_unique _ _ _ (x mod 10 + 1)); lia).
    rewrite (Z.mod_small (x / 10)), (Z.div_small (x / 10)) by done. f_equal. f_equal.
    rewrite (Z.mod_small (x mod 10 + 1)) by lia. apply (Z.mod_unique _ _ (x / 10)); lia.
Qed.

Lemma expand_digits_spec p rest d :
  0 < d -> 10 * d <= 2 ^ 53 -> 0 <= rest < d ->
  exists x last, expand_digits p rest d = Ok (fixed_digits p x, last) /\
    0 <= x < 10 ^ Z.of_nat p /\ 0 <= last < d /\ rest * 10 ^ Z.of_nat p = x * d + last.
Proof.
  intros Hd Hs. revert rest; induction p as [|p IH]; intros rest Hr.
  { exists 0, rest. simpl. repeat split; lia. }
  cbn [expand_digits].
  assert (product rest 10 "A decimal expansion"%string = Ok (rest * 10)) as -> by (apply product_Ok; split; [done|lia]).
  res_step. rewrite fl_floor_div_exact by lia.
  pose proof (Z.mod_pos_bound (rest * 10) d Hd). pose proof (Z.div_mod (rest * 10) d ltac:(lia)).
  assert (0 <= rest * 10 / d < 10) by (split; [apply Z.div_pos; lia|apply Z.div_lt_upper_bound; lia]).
  rewrite (fl_int_exact (_ * d)) by nia. rewrite fl_int_exact by nia.
  destruct (IH (rest * 10 - rest * 10 / d * d)) as (x & last & -> & Hx & Hl & E); [nia|].
  assert (0 < 10 ^ Z.of_nat p) by (apply Z.pow_pos_nonneg; lia).
  exists (rest * 10 / d * 10 ^ Z.of_nat p + x), last. rewrite Nat2Z.inj_succ, Z.pow_succ_r by lia.
  split; [|split; [nia|split; [done|nia]]]. res_step. cbn [fixed_digits].
  rewrite Z.div_add_l, (Z.div_small x), Z.add_0_r by lia.
  rewrite (Z.add_comm _ x), Z.mod_add, (Z.mod_small x) by lia. done.
Qed.

Lemma fixed_digits_zero p x : 0 <= x < 10 ^ Z.of_nat p ->
  existsb (fun digit => negb (digit =? 0)) (fixed_digits p x) = negb (x =? 0).
Proof.
  revert x; induction p as [|p IH]; intros x Hx.
  { simpl in *. by replace x with 0 by lia. }
  assert (0 < 10 ^ Z.of_nat p) by (apply Z.pow_pos_nonneg; lia).
  pose proof (Z.mod_pos_bound x (10 ^ Z.of_nat p) ltac:(lia)). pose proof (Z.div_mod x (10 ^ Z.of_nat p) ltac:(lia)).
  cbn [fixed_digits existsb]. rewrite IH by done.
  destruct (Z.eqb_spec x 0), (Z.eqb_spec (x / 10 ^ Z.of_nat p) 0), (Z.eqb_spec (x mod 10 ^ Z.of_nat p) 0); simpl; try done; nia.
Qed.

Lemma toDecimalString_exact v k :
  wf v -> (k <= 15)%nat -> 10 * den v <= 2 ^ 53 ->
  toDecimalString v (Z.of_nat k) = Ok (decimal_spec (num v) (den v) k).
Proof.
  intros (Hn & Hd & Hg) Hk Hs. unfold toDecimalString.
  assert (is_safe_integer (Z.of_nat k) = true) as -> by (apply is_safe_integer_spec; lia).
  destruct (Z.ltb_spec (Z.of_nat k) 0); [lia|]. destruct (Z.ltb_spec 15 (Z.of_nat k)); [lia|]. cbn [negb orb].
  set (m := Z.abs (num v)). set (d := den v) in *. set (T := 10 ^ Z.of_nat k).
  assert (0 < T) by (apply Z.pow_pos_nonneg; lia).
  pose proof (Z.mod_pos_bound m d ltac:(lia)). pose proof (Z.div_mod m d ltac:(lia)).
  rewrite floorDivide_exact by lia. res_step. rewrite Nat2Z.id.
  destruct (expand_digits_spec k (m mod d) d) as (x & last & -> & Hx & Hl & E); [lia..|]. fold T in Hx, E. res_step.
  assert (product last 2 "A rounding comparison"%string = Ok (last * 2)) as -> by (apply product_Ok; split; [done|lia]).
  res_step. unfold decimal_spec. fold m T.
  assert (m * T = (m / d * T + x) * d + last) as EmT by nia.
  assert ((m * T) / d = m / d * T + x /\ (m * T) mod d = last) as [Eq Er].
  { split; [symmetry; apply (Z.div_unique _ _ _ last); lia|symmetry; apply (Z.mod_unique _ _ (m / d * T + x)); lia]. }
  rewrite round_half_away, Eq, Er by lia.
  assert (forall w y, 0 <= w -> 0 <= y < T -> (w * T + y) / T = w /\ (w * T + y) mod T = y /\
            negb (w * T + y =? 0) = negb (w =? 0) || negb (y =? 0)) as Hsplit.
  { intros w y Hw Hy. rewrite Z.div_add_l, Z.div_small by lia.
    rewrite (Z.add_comm _ y), Z.mod_add, Z.mod_small by lia.
    destruct (Z.eqb_spec (y + w * T) 0), (Z.eqb_spec w 0), (Z.eqb_spec y 0); simpl; repeat split; try lia; nia. }
  assert (0 <= m / d) by (apply Z.div_pos; lia).
  destruct (Z.leb_spec d (last * 2)) as [Hup|Hdown].
  - rewrite fixed_digits_rev, rev_involutive, add_carry_lsd by done. cbv iota zeta beta.
    fold T. rewrite <- fixed_digits_rev by (apply Z.mod_pos_bound; lia).
    assert (d <> 1) by lia. assert (m / d < 2 ^ 53 - 1) by nia.
    assert (0 <= (x + 1) / T <= 1) by (split; [apply Z.div_pos; lia|apply Z.div_le_upper_bound; lia]).
    rewrite fl_int_exact by lia.
    pose proof (Z.mod_pos_bound (x + 1) T ltac:(lia)). pose proof (Z.div_mod (x + 1) T ltac:(lia)).
    replace (m / d * T + x + 1) with ((m / d + (x + 1) / T) * T + (x + 1) mod T) by nia.
    destruct (Hsplit (m / d + (x + 1) / T) ((x + 1) mod T)) as (-> & -> & ->); [lia..|].
    rewrite fixed_digits_zero by done. done.
  - cbv iota zeta beta. destruct (Hsplit (m / d) x) as (-> & -> & ->); [lia..|].
    rewrite fixed_digits_zero by done. done.
Qed.

(** *** Parsing *)

Lemma scan_int_nonneg n t : 0 <= n ->
  (match t with String c _ => is_digit c = false | _ => True end) ->
  span is_digit (string_of_nonneg n +:+ t) = (string_of_nonneg n, t).
Proof. intros. apply span_all; [by apply string_of_nonneg_digits|done]. Qed.

Lemma string_of_nonneg_cons n : 0 <= n ->
  exists c s, string_of_nonneg n = String c s /\ is_digit c = true.
Proof.
  intros Hn. pose proof (string_of_nonneg_digits n Hn) as Hd. pose proof (string_of_nonneg_nonempty n).
  destruct (string_of_nonneg n) as [|c s]; [done|]. simpl in Hd. apply andb_true_iff in Hd as [? _]. eauto.
Qed.

Lemma digit_no_sign c s : is_digit c = true ->
  match String c s with
  | String "+" s' => (false, s')
  | String "-" s' => (true, s')
  | _ => (false, String c s)
  end = (false, String c s).
Proof.
  intros H. destruct c as [[] [] [] [] [] [] [] []]; try done; vm_compute in H; discriminate H.
Qed.

Lemma scan_int_string z t :
  (match t with String c _ => is_digit c = false | _ => True end) ->
  scan_int (string_of_int z +:+ t) = Some (z, t).
Proof.
  intros Ht. unfold string_of_int, scan_int. destruct (Z.ltb_spec z 0).
  - rewrite string_app_cons. cbv iota beta. rewrite scan_int_nonneg by (lia || done).
    destruct (String.eqb_spec (string_of_nonneg (- z)) "") as [E|_]; [by apply string_of_nonneg_nonempty in E|].
    rewrite string_of_nonneg_value by lia. f_equal. f_equal. lia.
  - destruct (string_of_nonneg_cons z) as (c & s & E & Hc); [lia|].
    pose proof (scan_int_nonneg z t ltac:(lia) Ht) as Hspan. pose proof (string_of_nonneg_value z ltac:(lia)) as Hv.
    rewrite E in *. rewrite string_app_cons in *. rewrite digit_no_sign by done. rewrite Hspan.
    destruct (String.eqb_spec (String c s) ""); [done|]. by rewrite Hv.
Qed.

Lemma string_of_int_no_space z : string_all (fun c => negb (is_space c)) (string_of_int z) = true.
Proof.
  assert (forall n, 0 <= n -> string_all (fun c => negb (is_space c)) (string_of_nonneg n) = true) as H.
  { intros n Hn. eapply string_all_impl; [apply digit_not_space|]. by apply string_of_nonneg_digits. }
  unfold string_of_int. destruct (Z.ltb_spec z 0); [|apply H; lia]. simpl. apply H. lia.
Qed.

Lemma scan_format n d :
  scan_rational (string_of_int n +:+ "/" +:+ string_of_int d)%string = Some (n, d).
Proof.
  unfold scan_rational. rewrite scan_int_string by done. cbn [mbind option_bind].
  rewrite string_app_cons, string_app_nil_l.
  rewrite <- (string_app_nil_r (string_of_int d)). rewrite scan_int_string by done. done.
Qed.

(** ** Properties *)

(** C40. Representation invariant: whatever [rational] builds is a reduced pair of safe integers
    with a positive denominator that stands for [num / den]; it fails exactly on unsafe integers
    and a zero denominator; and two well-formed rationals of equal value are the same pair, which
    is what makes the structural [equals] exact. *)
Theorem rational_canonical (n d : Z) :
  (forall r, rational n d = Ok r -> wf r /\ d <> 0 /\ num r * d = n * den r) /\
  (is_ok (rational n d) = is_safe_integer n && is_safe_integer d && negb (d =? 0)) /\
  (forall a b, wf a -> wf b -> equals a b = true <-> (value a == value b)%Q).
Proof.
  split; [|split].
  - intros r H. pose proof (rational_spec n d r H). apply rational_Ok in H. tauto.
  - unfold rational. destruct (is_safe_integer n), (is_safe_integer d); simpl; try done.
    by destruct (d =? 0).
  - intros a b Ha Hb. pose proof Ha as (_ & ? & _). pose proof Hb as (_ & ? & _).
    rewrite value_eq by lia. unfold equals. split.
    + intros E. to_prop. congruence.
    + intros E. apply wf_unique in E as ->; [|done|done]. by rewrite !Z.eqb_refl.
Qed.

Lemma rational_canonical_witness : equals (mkRational 1 2) (mkRational 1 2) = true <-> (value (mkRational 1 2) == value (mkRational 1 2))%Q.
Proof. apply (rational_canonical 1 2); vm_compute; repeat split; done. Defined.

(** Addition, subtraction and comparison are exact: whenever they do not throw, the result is
    well formed and stands for the sum (the difference) of the values, and [compare] is the sign of
    the difference. *)
Theorem add_subtract_exact (a b : Rational) (Ha : wf a) (Hb : wf b) :
  (forall r, add a b = Ok r -> wf r /\ (value r == value a + value b)%Q) /\
  (forall r, subtract a b = Ok r -> wf r /\ (value r == value a - value b)%Q) /\
  (forall c, compare a b = Ok c -> c = Z.sgn (num a * den b - num b * den a)).
Proof.
  assert (0 < den a /\ 0 < den b) as [Hda Hdb] by (destruct Ha, Hb; lia).
  split; [|split].
  - intros r H. apply add_spec in H as [Hr E]; [|done|done]. split; [done|].
    assert (0 < den r) by (destruct Hr; lia). unfold value, Qplus, Qeq; simpl.
    rewrite Pos2Z.inj_mul, !Z2Pos.id by lia. lia.
  - intros r H. apply subtract_spec in H as [Hr E]; [|done|done]. split; [done|].
    assert (0 < den r) by (destruct Hr; lia). unfold value, Qminus, Qplus, Qopp, Qeq; simpl.
    rewrite Pos2Z.inj_mul, !Z2Pos.id by lia. lia.
  - intros c H. by apply compare_spec.
Qed.

Lemma add_subtract_exact_witness :
  wf (mkRational 1 1001) /\ add (mkRational 1 1001) (mkRational 1 1001) = Ok (mkRational 2 1001) /\
  (value (mkRational 2 1001) == value (mkRational 1 1001) + value (mkRational 1 1001))%Q.
Proof.
  assert (wf (mkRational 1 1001)) as Hw by (vm_compute; repeat split; done).
  split; [exact Hw|]. split; [reflexivity|].
  apply (proj1 (add_subtract_exact _ _ Hw Hw)). reflexivity.
Defined.

(** Multiplication is exact and complete: it returns the product in lowest terms exactly when
    that reduced product is representable.  The cross-reduction never loses a representable
    product to an intermediate overflow. *)
Theorem multiply_complete (a b r : Rational) (Ha : wf a) (Hb : wf b) :
  multiply a b = Ok r <-> wf r /\ (value r == value a * value b)%Q.
Proof.
  assert (0 < den a /\ 0 < den b) as [Hda Hdb] by (destruct Ha, Hb; lia).
  assert (forall r, wf r -> (value r == value a * value b)%Q <-> num r * (den a * den b) = num a * num b * den r) as Hv.
  { intros q Hq. assert (0 < den q) by (destruct Hq; lia). unfold value, Qmult, Qeq; simpl.
    rewrite Pos2Z.inj_mul, !Z2Pos.id by lia. done. }
  split.
  - intros H. apply multiply_spec in H as [Hr E]; [|done|done]. split; [done|]. by apply Hv.
  - intros [Hr E]. apply Hv in E; [|done]. rewrite multiply_unfold by done.
    pose proof (multiply_terms a b Ha Hb) as (_ & _ & Hd & En & Hc).
    set (n := num a / _ * _) in *. set (d := den a / _ * _) in *.
    assert (num r = n /\ den r = d) as [En' Ed'].
    { assert (num r * d = n * den r) as Ecross.
      { apply (Z.mul_reg_r _ _ (den a * den b)); [nia|].
        replace (num r * d * (den a * den b)) with (num r * (den a * den b) * d) by ring.
        rewrite E. replace (n * den r * (den a * den b)) with (n * (den a * den b) * den r) by ring.
        rewrite En. ring. }
      destruct Hr as (_ & Hrd & Hrg).
      assert (den r = d) as Ed; [|split; [|done]; apply (Z.mul_reg_r _ _ d); [lia|by rewrite Ecross, Ed]].
      apply Z.divide_antisym_nonneg; [lia..| |].
      - apply (Z.gauss _ (num r)); [|by rewrite Z.gcd_comm]. rewrite Ecross. apply Z.divide_factor_r.
      - apply (Z.gauss _ n); [|by rewrite Z.gcd_comm]. rewrite <- Ecross. apply Z.divide_factor_r. }
    destruct Hr as (Hrn & Hrd & Hrg).
    assert (product (num a / Z.gcd (num a) (den b)) (num b / Z.gcd (num b) (den a)) "A product"%string = Ok (num r)) as ->
      by (apply product_Ok; split; [done|unfold n in En'; lia]).
    assert (product (den a / Z.gcd (num b) (den a)) (den b / Z.gcd (num a) (den b)) "A product denominator"%string = Ok (den r)) as ->
      by (apply product_Ok; split; [done|unfold d in Ed'; lia]).
    apply rational_wf_id. by split.
Qed.

Lemma multiply_complete_witness :
  multiply FRAME_RATE_NTSC_30 (mkRational 1001 30000) = Ok RATIONAL_ONE.
Proof.
  apply (multiply_complete FRAME_RATE_NTSC_30 (mkRational 1001 30000) RATIONAL_ONE);
    vm_compute; repeat split; done.
Defined.

(** [formatRational] and [parseRational] are inverse on well-formed rationals, also through the
    transport forms: a rational sent as text or as a [{ num, den }] object is read back unchanged. *)
Theorem format_parse_roundtrip (r : Rational) (Hr : wf r) :
  parseRational (formatRational r) = Ok r /\
  tryParseRational (Some (formatRational r)) = Some r /\
  coerceRational (Some (JStr (formatRational r))) = Ok (Some r) /\
  coerceRational (Some (JObj [("num", JNum (JInt (num r))); ("den", JNum (JInt (den r)))])) = Ok (Some r).
Proof.
  assert (parseRational (formatRational r) = Ok r) as Hp.
  { unfold parseRational, formatRational. rewrite trim_no_space.
    - rewrite scan_format. destruct Hr as (Hn & Hd & Hg).
      rewrite !is_safe_fl_int, !fl_int_exact by lia.
      rewrite (proj2 (is_safe_integer_spec _) Hn), (proj2 (is_safe_integer_spec (den r))) by lia.
      destruct (Z.eqb_spec (den r) 0); [lia|]. apply rational_wf_id. by split.
    - rewrite !string_all_app, !string_of_int_no_space. done. }
  assert (tryParseRational (Some (formatRational r)) = Some r) as Ht.
  { unfold tryParseRational. rewrite Hp. destruct (String.eqb_spec (formatRational r) "") as [E|]; [|done].
    unfold formatRational, string_of_int in E. destruct (num r <? 0); [done|].
    pose proof (string_of_nonneg_nonempty (num r)). by destruct (string_of_nonneg (num r)). }
  split; [done|]. split; [done|]. split; [unfold coerceRational; by rewrite Ht|].
  pose proof Hr as (Hn & Hd & Hg). unfold coerceRational. simpl obj_get. cbv iota. rewrite (proj2 (is_safe_integer_spec _) Hn), (proj2 (is_safe_integer_spec (den r))) by lia.
  destruct (Z.eqb_spec (den r) 0); [lia|]. cbn [negb andb]. by rewrite rational_wf_id.
Qed.

Lemma format_parse_roundtrip_witness :
  parseRational "-30000/1001" = Ok (mkRational (-30000) 1001).
Proof. apply (format_parse_roundtrip (mkRational (-30000) 1001)). vm_compute; repeat split; done. Defined.

(** Rounding to an integer follows the named rule exactly (floor, ceiling, truncation, half away
    from zero), for every non-negative rational and for every negative one with
    [|num| + den <= 2^53]; [nearest] also needs [den <= 2^52], the bound of its doubled comparison. *)
Theorem roundToInteger_correct (v : Rational) (mode : RationalRounding)
    (Hv : wf v) (Hrange : 0 <= num v \/ Z.abs (num v) + den v <= 2 ^ 53)
    (Hnearest : mode = nearest -> den v <= 2 ^ 52) :
  roundToInteger v mode = Ok (exact_round mode (num v) (den v)).
Proof. by apply roundToInteger_exact. Qed.

Lemma roundToInteger_correct_witness : roundToInteger (mkRational (-5) 2) nearest = Ok (-3).
Proof.
  apply (roundToInteger_correct (mkRational (-5) 2) nearest);
    [vm_compute; repeat split; done|right; vm_compute; discriminate|intros _; vm_compute; discriminate].
Defined.

(** The range condition of the previous theorem is needed: for negative numerators at the top of
    the safe range [quotient * den] is rounded, the correction loop then moves the quotient, and
    [floor] answers one more than the floor.  [-9007199254740991/5] is a well-formed rational whose
    floor is [-1801439850948199]. *)
Theorem floor_off_by_one :
  wf (mkRational (-9007199254740991) 5) /\
  floor (mkRational (-9007199254740991) 5) = Ok (-1801439850948198) /\
  -9007199254740991 / 5 = -1801439850948199.
Proof. split; [vm_compute; repeat split; done|]. split; vm_compute; reflexivity. Qed.

(** [toDecimalString] is the correctly rounded decimal expansion: for a denominator up to
    [2^53 / 10] it never throws and spells the value rounded half away from zero to [k] places, with
    exactly [k] digits after the point and no negative zero. *)
Theorem toDecimalString_correct (v : Rational) (k : nat)
    (Hv : wf v) (Hk : (k <= 15)%nat) (Hden : 10 * den v <= 2 ^ 53) :
  toDecimalString v (Z.of_nat k) = Ok (decimal_spec (num v) (den v) k).
Proof. by apply toDecimalString_exact. Qed.

Lemma toDecimalString_correct_witness :
  toDecimalString (mkRational (-1) 8) 2 = Ok "-0.13".
Proof.
  apply (toDecimalString_correct (mkRational (-1) 8) 2);
    [vm_compute; repeat split; done|lia|vm_compute; discriminate].
Defined.

(** Frames: at a positive frame rate, [frameIndexAt] of a non-negative time is the frame being
    shown ([index / rate <= time < (index + 1) / rate]), [frameStartTime] is that frame's exact
    start, and the timescale of a positive time base is the least one whose grid contains every
    tick. *)
Theorem frames_correct (time rate : Rational) (i : Z)
    (Ht : wf time) (Hr : wf rate) (Htime : 0 <= num time) (Hrate : 0 < num rate)
    (Hi : frameIndexAt time rate = Ok i) :
  i * (den time * den rate) <= num time * num rate < (i + 1) * (den time * den rate) /\
  (forall s, frameStartTime i rate = Ok s ->
     wf s /\ (value s * value rate == inject_Z i)%Q /\ (value s <= value time)%Q) /\
  (forall T, 0 < T -> (Z.divide (den rate) (T * num rate) <-> exists k, 0 < k /\ T = k * den rate)) /\
  toTrackTimescale rate = Ok (den rate).
Proof.
  pose proof Ht as (_ & Htd & _). pose proof Hr as (_ & Hrd & Hrg).
  apply bind_Ok in Hi as (p & Hp & Hi). apply multiply_spec in Hp as [Hpw Hp]; [|done|done].
  pose proof Hpw as (_ & Hpd & _).
  assert (0 < den time * den rate) by nia.
  assert (0 <= num p) by nia.
  rewrite roundToInteger_exact in Hi by (done || auto). injection Hi as <-. simpl exact_round.
  pose proof (Z.mod_pos_bound (num p) (den p) ltac:(lia)). pose proof (Z.div_mod (num p) (den p) ltac:(lia)).
  set (i := num p / den p) in *.
  assert (i * (den time * den rate) <= num time * num rate < (i + 1) * (den time * den rate)) as Hbounds.
  { split.
    - apply (Z.mul_le_mono_pos_r _ _ (den p)); [lia|]. rewrite <- Hp. nia.
    - apply (Z.mul_lt_mono_pos_r (den p)); [lia|]. rewrite <- Hp. nia. }
  split; [done|]. split; [|split].
  - intros s (f & Hf & Hs)%bind_Ok. apply fromInteger_spec in Hf as [-> Hf].
    apply divide_spec in Hs as (_ & Hs & E); [|done|done]. simpl in E.
    pose proof Hs as (_ & Hsd & _). split; [done|]. split.
    + unfold value, Qmult, Qeq, inject_Z; simpl. rewrite Pos2Z.inj_mul, !Z2Pos.id by lia. lia.
    + unfold value, Qle; simpl. rewrite !Z2Pos.id by lia.
      apply (Z.mul_le_mono_pos_r _ _ (num rate)); [lia|].
      replace (num s * den time * num rate) with (num s * (1 * num rate) * den time) by ring.
      rewrite E. nia.
  - intros T HT. split.
    + intros Hdiv. rewrite Z.mul_comm in Hdiv. apply Z.gauss in Hdiv as [k Hk]; [|by rewrite Z.gcd_comm].
      exists k. split; [nia|done].
    + intros (k & _ & ->). apply Z.divide_mul_l, Z.divide_factor_r.
  - unfold toTrackTimescale. destruct (Z.leb_spec (num rate) 0); [lia|done].
Qed.

Lemma frames_correct_witness :
  29 * (1 * 1001) <= 1 * 30000 < (29 + 1) * (1 * 1001).
Proof.
  apply (frames_correct (mkRational 1 1) FRAME_RATE_NTSC_30 29);
    try (vm_compute; repeat split; done); vm_compute; discriminate.
Defined.

(** Rescaling ticks between time bases: when [exact] is reported the instant is the same on
    both grids, the rule named does not matter, and [exact] is reported exactly when the instant
    exists on the target grid. *)
Theorem rescaleTicks_exact (ticks t : Z) (from to : Rational) (mode : RationalRounding) (exact : bool)
    (Hf : wf from) (Hto : wf to) (Hrun : rescaleTicks ticks from to mode = Ok (t, exact)) :
  (exact = true -> ticks * num from * den to = t * num to * den from) /\
  (exact = true <-> exists k, ticks * num from * den to = k * (num to * den from)).
Proof.
  pose proof Hf as (_ & Hfd & _). pose proof Hto as (_ & Htd & _).
  apply bind_Ok in Hrun as (s & Hs & Hrun). apply bind_Ok in Hrun as (q & Hq & Hrun).
  apply bind_Ok in Hrun as (t' & Hround & [= -> <-]).
  apply bind_Ok in Hs as (f & Hi & Hs). apply fromInteger_spec in Hi as [-> Hi].
  apply multiply_spec in Hs as [Hsw Hs]; [|done|done]. simpl in Hs. rewrite Z.mul_1_l in Hs.
  apply divide_spec in Hq as (Hn0 & Hqw & Hq); [|done|done].
  pose proof Hsw as (_ & Hsd & _). pose proof Hqw as (_ & Hqd & Hqg).
  assert (num q * (num to * den from) = ticks * num from * den to * den q) as E.
  { apply (Z.mul_reg_r _ _ (den s)); [lia|].
    replace (num q * (num to * den from) * den s) with (num q * (den s * num to) * den from) by ring.
    rewrite Hq. replace (num s * den to * den q * den from) with (num s * den from * (den to * den q)) by ring.
    rewrite Hs. ring. }
  unfold isInteger. split; [|split].
  - intros H%Z.eqb_eq. unfold roundToInteger in Hround. rewrite H, Z.eqb_refl in Hround.
    injection Hround as <-. rewrite H in E. lia.
  - intros H%Z.eqb_eq. exists (num q). rewrite H in E. lia.
  - intros [k Hk]. apply Z.eqb_eq. rewrite Hk in E.
    assert (num to * den from <> 0) by nia.
    assert (num q = k * den q) as Enq by (apply (Z.mul_reg_r _ _ (num to * den from)); [done|]; lia).
    rewrite Enq, Z.gcd_comm, Z.mul_comm, Z.gcd_mul_diag_l in Hqg by lia. done.
Qed.

Lemma rescaleTicks_exact_witness :
  1 * 1 * 90000 = 3 * 1 * 30000.
Proof.
  apply (rescaleTicks_exact 1 3 (mkRational 1 30000) (mkRational 1 90000) nearest true);
    vm_compute; repeat split; done.
Defined.
