(* ===== verification/VideoTiming.v ===== *)
(** * The frame timestamp mapping of a video source ([server/src/utils/video-timing.ts])

    A source's own time base, origin, cadence and keyframe timestamps, the conversions between
    timeline seconds and source ticks, and the output cadence decision.  Ticks are integers; the
    subtraction and addition of an origin are binary64 results ([fl_int]). *)

From Stdlib Require Import QArith.
From S2P Require Import Prelude JsNumber JsString RationalTime.
Local Open Scope Z_scope.

Inductive VideoTimingError :=
| NoSources
| UndeclaredComposition (sources : Z)
| TimingRational (e : RationalError).

Definition lift_rational {A} (m : res RationalError A) : res VideoTimingError A :=
  match m with Ok a => Ok a | Throw e => Throw (TimingRational e) end.

(** The probe fields the mapping reads ([VideoStreamInfo], [VideoPacketInfo]). *)
Record VideoStreamInfo := mkStream {
  timeBaseDenominator : option jsnum;        (* timeBase *)
  timeBaseRational : option Rational;
  frameRateRational : option Rational
}.
Record VideoPacketInfo := mkPackets {
  keyframePts : list Z;
  keyframeOwnDuration : list Z;
  totalDuration : Z;
  packetCount : Z;
  startPts : option Z;
  variableFrameRateFlag : option bool        (* variableFrameRate *)
}.

Record VideoTimingMap := mkTimingMap {
  timeBase : TimeBase;
  originTicks : Z;
  cadence : option Rational;
  variableFrameRate : bool;
  keyframeTicks : list Z;
  keyframeDurationTicks : list Z;
  totalDurationTicks : Z;
  mapPacketCount : Z
}.

(** A rational as the plain object the DTOs carry. *)
Definition rational_json (r : Rational) : json :=
  JObj [("num", JNum (JInt (num r))); ("den", JNum (JInt (den r)))].

Definition positive_or_none (r : option Rational) : option Rational :=
  match r with Some e => if 0 <? num e then Some e else None | None => None end.

Definition resolveSourceTimeBase (videoStream : VideoStreamInfo) : res RationalError (option TimeBase) :=
  exact ← coerceRational (rational_json <$> timeBaseRational videoStream);
  match positive_or_none exact with
  | Some e => Ok (Some e)
  | None =>
      match timeBaseDenominator videoStream with
      | Some (JInt denominator) =>
          if negb (denominator =? 0) && is_safe_integer denominator && (0 <? denominator)
          then r ← rational 1 denominator; Ok (Some r)
          else Ok None
      | _ => Ok None
      end
  end.

Definition resolveSourceCadence (videoStream : VideoStreamInfo) : res RationalError (option Rational) :=
  exact ← coerceRational (rational_json <$> frameRateRational videoStream);
  Ok (positive_or_none exact).

Definition isVariableFrameRate (packets : VideoPacketInfo) : bool :=
  match variableFrameRateFlag packets with
  | Some flag => flag
  | None =>
      match keyframeOwnDuration packets with
      | [] => false
      | first :: _ => existsb (fun duration => negb (duration =? first)) (keyframeOwnDuration packets)
      end
  end.

Definition resolveOriginTicks (packets : VideoPacketInfo) : Z :=
  match startPts packets with
  | Some pts => pts
  | None =>
      match keyframePts packets with
      | [] => 0
      | first :: _ => fold_left (fun origin pts => if pts <? origin then pts else origin) (keyframePts packets) first
      end
  end.

Definition buildVideoTimingMap (videoStream : VideoStreamInfo) (packets : VideoPacketInfo)
  : res RationalError (option VideoTimingMap) :=
  tb ← resolveSourceTimeBase videoStream;
  match tb with
  | None => Ok None
  | Some tb =>
      c ← resolveSourceCadence videoStream;
      Ok (Some {| timeBase := tb;
                  originTicks := resolveOriginTicks packets;
                  cadence := c;
                  variableFrameRate := isVariableFrameRate packets;
                  keyframeTicks := keyframePts packets;
                  keyframeDurationTicks := keyframeOwnDuration packets;
                  totalDurationTicks := totalDuration packets;
                  mapPacketCount := packetCount packets |})
  end.

Definition timingMapOrigin (map : VideoTimingMap) : res RationalError Rational :=
  ticksToSeconds (originTicks map) (timeBase map).
Definition timingMapDuration (map : VideoTimingMap) : res RationalError Rational :=
  ticksToSeconds (totalDurationTicks map) (timeBase map).
Definition keyframeTimes (map : VideoTimingMap) : res RationalError (list Rational) :=
  traverse (fun ticks => ticksToSeconds (fl_int (ticks - originTicks map)) (timeBase map)) (keyframeTicks map).
Definition ticksToSourceTime (map : VideoTimingMap) (ticks : Z) : res RationalError Rational :=
  ticksToSeconds (fl_int (ticks - originTicks map)) (timeBase map).
Definition sourceTimeToTicks (map : VideoTimingMap) (seconds : Rational) : res RationalError Z :=
  t ← secondsToTicks seconds (timeBase map) nearest; Ok (fl_int (t + originTicks map)).
Definition timingMapTrackTimescale (map : VideoTimingMap) : res RationalError Z :=
  toTrackTimescale (timeBase map).

(** ** Output cadence *)

Inductive OutputCadenceMode := Passthrough | Convert.
Record OutputCadenceDecision := mkDecision {
  mode : OutputCadenceMode;
  decisionCadence : option Rational;
  reason : string
}.
#[export] Instance OutputCadenceMode_eq_dec : EqDecision OutputCadenceMode.
Proof. solve_decision. Defined.

Definition resolveOutputCadence (sources : list VideoTimingMap) (declaredCadence : option Rational)
  : res VideoTimingError OutputCadenceDecision :=
  match sources with
  | [] => Throw NoSources
  | [source] =>
      match declaredCadence with
      | None =>
          Ok (mkDecision Passthrough None
                (if variableFrameRate source
                 then "Single variable-frame-rate source; its presentation timestamps are preserved."
                 else "Single source; its presentation timestamps are preserved."))
      | Some declared =>
          if negb (variableFrameRate source) &&
             match cadence source with Some c => equals c declared | None => false end
          then Ok (mkDecision Passthrough None
                 ("Declared cadence " +:+ formatRational declared +:+ " is the source's own; nothing is resampled."))
          else Ok (mkDecision Convert (Some declared)
                 (if variableFrameRate source
                  then "A variable-frame-rate source is resampled onto the declared cadence " +:+ formatRational declared +:+
                       "; the original timing is preserved only in the source file."
                  else "The source cadence is resampled onto the declared cadence " +:+ formatRational declared +:+ "."))
      end
  | _ =>
      match declaredCadence with
      | None => Throw (UndeclaredComposition (Z.of_nat (length sources)))
      | Some declared =>
          Ok (mkDecision Convert (Some declared)
                ("Composition of " +:+ string_of_int (Z.of_nat (length sources)) +:+
                 " sources onto the declared cadence " +:+ formatRational declared +:+ "."))
      end
  end.

Definition deriveCommonCadence (sources : list VideoTimingMap) : option Rational :=
  match sources with
  | [] => None
  | first :: rest =>
      match variableFrameRate first, cadence first with
      | false, Some c =>
          if forallb (fun source => negb (variableFrameRate source) &&
                        match cadence source with Some c' => equals c' c | None => false end) rest
          then Some c else None
      | _, _ => None
      end
  end.

(** ** Lemmas *)

Lemma coerce_rational_json r q :
  coerceRational (Some (rational_json r)) = Ok (Some q) -> wf q /\ num q * den r = num r * den q.
Proof.
  unfold coerceRational, rational_json. simpl obj_get. cbv iota.
  destruct (_ && _); [|done]. intros (q' & Hq & [= <-])%bind_Ok. by apply rational_spec.
Qed.

Lemma positive_or_none_Some r q : positive_or_none r = Some q <-> r = Some q /\ 0 < num q.
Proof.
  destruct r as [r|]; simpl; [|split; [done|by intros [? _]]]. destruct (Z.ltb_spec 0 (num r)); split.
  - intros [= ->]. done. - by intros [[= ->] ?]. - done. - intros [[= ->] ?]. lia.
Qed.

Lemma resolveSourceTimeBase_wf s tb :
  resolveSourceTimeBase s = Ok (Some tb) -> wf tb /\ 0 < num tb.
Proof.
  intros (e & He & H)%bind_Ok. destruct (positive_or_none e) as [r|] eqn:Hp.
  - injection H as <-. apply positive_or_none_Some in Hp as [-> Hpos]. split; [|done].
    destruct (timeBaseRational s) as [r'|]; [|done]. by apply coerce_rational_json in He as [? _].
  - destruct (timeBaseDenominator s) as [[z| | |]|]; try done.
    destruct (_ && _) eqn:Hg; [|done]. apply bind_Ok in H as (r & Hr & [= <-]).
    to_prop. apply rational_spec in Hr as [Hw E]. split; [done|]. destruct Hw as (_ & ? & _). nia.
Qed.

(** A well-formed mapping: what [buildVideoTimingMap] produces. *)
Definition map_wf (map : VideoTimingMap) : Prop := wf (timeBase map) /\ 0 < num (timeBase map).

Lemma build_map_wf s p map : buildVideoTimingMap s p = Ok (Some map) -> map_wf map.
Proof.
  intros (tb & Htb & H)%bind_Ok. destruct tb as [tb|]; [|done].
  apply bind_Ok in H as (c & _ & [= <-]). by apply resolveSourceTimeBase_wf in Htb.
Qed.

Lemma fold_min_spec l x :
  let m := fold_left (fun origin pts => if pts <? origin then pts else origin) l x in
  m <= x /\ (forall y, y ∈ l -> m <= y) /\ (m = x \/ m ∈ l).
Proof.
  revert x; induction l as [|y l IH]; intros x; simpl.
  - split; [lia|]. split; [set_solver|by left].
  - destruct (IH (if y <? x then y else x)) as (H1 & H2 & H3). destruct (Z.ltb_spec y x).
    + split; [lia|]. split; [intros z [->|?]%elem_of_cons; [lia|by apply H2]|].
      right. destruct H3 as [->|?]; set_solver.
    + split; [lia|]. split; [intros z [->|?]%elem_of_cons; [lia|by apply H2]|].
      destruct H3 as [->|?]; [by left|right; set_solver].
Qed.

(** Converting ticks to seconds and back divides by what was multiplied. *)
Lemma divide_multiply_cancel n tb s q :
  wf tb -> num tb <> 0 -> ticksToSeconds n tb = Ok s -> divide s tb = Ok q -> q = mkRational n 1 /\ Z.abs n < 2 ^ 53.
Proof.
  intros Htb H0 (f & Hf & Hs)%bind_Ok Hq. apply fromInteger_spec in Hf as [-> Hn].
  apply multiply_spec in Hs as [Hsw Hs]; [|done|done]. cbn [num den] in Hs.
  apply divide_spec in Hq as (_ & Hqw & Hq); [|done|done].
  pose proof Htb as (_ & Hd & _). pose proof Hsw as (_ & Hsd & _). pose proof Hqw as (_ & Hqd & _).
  split; [|by destruct Hn]. apply wf_unique; [done|done|]. cbn [num den].
  apply (Z.mul_reg_r _ _ (num tb * den s * den tb)); [nia|].
  replace (num q * 1 * (num tb * den s * den tb)) with (num q * (den s * num tb) * den tb) by ring.
  rewrite Hq. replace (num s * den tb * den q * den tb) with (num s * (1 * den tb) * (den q * den tb)) by ring.
  rewrite Hs. ring.
Qed.

Lemma roundToInteger_integer n m : roundToInteger (mkRational n 1) m = Ok n.
Proof. done. Qed.

(** ** Properties *)

(** The mapping of a source is built only from what the container declares: its time base is
    well formed and positive, and without a recorded start its origin is the least keyframe
    timestamp (so no keyframe is presented before it). *)
Theorem buildVideoTimingMap_sound (s : VideoStreamInfo) (p : VideoPacketInfo) (map : VideoTimingMap)
    (H : buildVideoTimingMap s p = Ok (Some map)) :
  map_wf map /\
  (forall pts, startPts p = Some pts -> originTicks map = pts) /\
  (startPts p = None -> keyframePts p <> [] ->
     originTicks map ∈ keyframePts p /\ forall k, k ∈ keyframePts p -> originTicks map <= k) /\
  (variableFrameRateFlag p = None ->
     variableFrameRate map = false <-> forall a b, a ∈ keyframeOwnDuration p -> b ∈ keyframeOwnDuration p -> a = b).
Proof.
  split; [by apply build_map_wf in H|].
  apply bind_Ok in H as (tb & _ & H). destruct tb as [tb|]; [|done].
  apply bind_Ok in H as (c & _ & [= <-]). cbn [originTicks variableFrameRate].
  unfold resolveOriginTicks, isVariableFrameRate. split; [|split].
  - by intros pts ->.
  - intros -> Hne. destruct (keyframePts p) as [|x l]; [done|].
    destruct (fold_min_spec (x :: l) x) as (_ & Hle & Hin). split; [|exact Hle].
    destruct Hin as [E|Hin]; [rewrite E; by apply elem_of_cons; left|exact Hin].
  - intros ->. destruct (keyframeOwnDuration p) as [|x l]; [split; [set_solver|done]|]. split.
    + intros Hf a b Ha Hb.
      assert (forall y, y ∈ x :: l -> y = x) as Hall.
      { intros y Hy. apply Z.eqb_eq. destruct (y =? x) eqn:E; [done|]. exfalso.
        apply not_true_iff_false in Hf. apply Hf, existsb_exists. exists y.
        split; [by apply list_elem_of_In|by rewrite E]. }
      by rewrite (Hall a), (Hall b).
    + intros Hall. apply not_true_iff_false. intros (y & Hy & E)%existsb_exists.
      apply list_elem_of_In in Hy. rewrite (Hall y x Hy) in E by set_solver. by rewrite Z.eqb_refl in E.
Qed.

Lemma buildVideoTimingMap_sound_witness :
  map_wf (mkTimingMap (mkRational 1 30000) 1001 None true [2002; 1001] [1001; 2002] 3003 3).
Proof.
  apply (buildVideoTimingMap_sound (mkStream None (Some (mkRational 2 60000)) None)
           (mkPackets [2002; 1001] [1001; 2002] 3003 3 None None)).
  vm_compute. reflexivity.
Defined.

(** Source ticks survive the trip to timeline seconds and back: for every tick the two
    conversions compose to the identity, with no drift for any time base or origin. *)
Theorem source_ticks_roundtrip (map : VideoTimingMap) (ticks t : Z) (s : Rational)
    (Hmap : map_wf map) (Hticks : Z.abs ticks < 2 ^ 53) (Horigin : Z.abs (originTicks map) < 2 ^ 53)
    (Hs : ticksToSourceTime map ticks = Ok s) (Ht : sourceTimeToTicks map s = Ok t) :
  t = ticks.
Proof.
  destruct Hmap as [Hw Hp]. unfold ticksToSourceTime in Hs.
  apply bind_Ok in Ht as (t' & Ht & [= <-]). apply bind_Ok in Ht as (q & Hq & Ht).
  destruct (divide_multiply_cancel _ _ _ _ Hw ltac:(lia) Hs Hq) as [-> Hsafe].
  rewrite roundToInteger_integer in Ht. injection Ht as <-.
  apply is_safe_integer_spec in Hsafe. rewrite is_safe_fl_int in Hsafe. apply is_safe_integer_spec in Hsafe.
  rewrite (fl_int_exact (ticks - _)) by done. rewrite fl_int_exact; lia.
Qed.

Lemma source_ticks_roundtrip_witness : 4004 = 4004.
Proof.
  apply (source_ticks_roundtrip (mkTimingMap (mkRational 1 30000) 1001 None true [] [] 0 0) 4004 4004 (mkRational 1001 10000));
    vm_compute; repeat split; done.
Defined.

(** The output cadence is never chosen silently.  Sources are resampled exactly when the
    decision is [Convert], and then onto the declared cadence itself; a single source passes
    through unless a cadence it does not already have at a constant rate is declared; composing
    several sources without a declared cadence throws. *)
Theorem resolveOutputCadence_spec (sources : list VideoTimingMap) (declared : option Rational) :
  match resolveOutputCadence sources declared with
  | Throw NoSources => sources = []
  | Throw (UndeclaredComposition n) =>
      declared = None /\ n = Z.of_nat (length sources) /\ 1 < n
  | Throw (TimingRational _) => False
  | Ok d =>
      (mode d = Convert -> declared <> None /\ decisionCadence d = declared) /\
      (mode d = Passthrough ->
         decisionCadence d = None /\
         exists s, sources = [s] /\
           (declared = None \/
            exists c, declared = Some c /\ variableFrameRate s = false /\ cadence s = Some c))
  end /\
  (forall s c, variableFrameRate s = true \/ cadence s <> Some c ->
     exists why, resolveOutputCadence [s] (Some c) = Ok (mkDecision Convert (Some c) why)).
Proof.
  split.
  - destruct sources as [|s [|s' l]]; simpl; [done| |].
    + destruct declared as [c|]; [|split; [done|]; intros _; split; [done|]; eauto].
      destruct (variableFrameRate s) eqn:Hv; simpl; [by split|].
      destruct (cadence s) as [c'|] eqn:Hc; simpl; [|by split].
      unfold equals. destruct ((num c' =? num c) && (den c' =? den c)) eqn:E; [|by split].
      split; [done|]. intros _. split; [done|]. exists s. split; [done|]. right. exists c.
      to_prop. destruct c, c'; simpl in *; subst. done.
    + destruct declared as [c|]; simpl; [by split|]. split; [done|]. split; [done|]. lia.
  - intros s c H. simpl. destruct (variableFrameRate s) eqn:Hv; simpl; [eauto|].
    destruct (cadence s) as [c'|]; simpl; [|eauto]. unfold equals.
    destruct ((num c' =? num c) && (den c' =? den c)) eqn:E; [|eauto]. exfalso.
    to_prop. destruct H as [|H]; [done|]. apply H. destruct c, c'; simpl in *; congruence.
Qed.

(** [deriveCommonCadence] finds exactly the cadence all sources share at a constant rate, and
    declaring it for any one of them resamples nothing. *)
Theorem deriveCommonCadence_spec (sources : list VideoTimingMap) (c : Rational) :
  deriveCommonCadence sources = Some c <->
  sources <> [] /\
  forall s, s ∈ sources ->
    variableFrameRate s = false /\ cadence s = Some c /\
    exists why, resolveOutputCadence [s] (Some c) = Ok (mkDecision Passthrough None why).
Proof.
  assert (forall s, negb (variableFrameRate s) && match cadence s with Some c' => equals c' c | None => false end = true <->
            variableFrameRate s = false /\ cadence s = Some c) as Heq.
  { intros s. rewrite andb_true_iff, negb_true_iff. destruct (cadence s) as [c'|]; [|by split; intros [_ ?]].
    assert (equals c' c = true <-> Some c' = Some c) as ->; [|done].
    unfold equals. rewrite andb_true_iff, !Z.eqb_eq. destruct c, c'; simpl.
    split; [by intros [-> ->]|by intros [= -> ->]]. }
  assert (forall s, variableFrameRate s = false /\ cadence s = Some c ->
            exists why, resolveOutputCadence [s] (Some c) = Ok (mkDecision Passthrough None why)) as Hpass.
  { intros s H. simpl. rewrite (proj2 (Heq s) H). eauto. }
  destruct sources as [|s rest]; simpl; [split; [done|by intros [? _]]|].
  split.
  - destruct (variableFrameRate s) eqn:Hv; [done|]. destruct (cadence s) as [c'|] eqn:Hc; [|done].
    destruct (forallb _ rest) eqn:Hall; [|done]. intros [= ->]. split; [done|].
    intros s' Hs'. assert (variableFrameRate s' = false /\ cadence s' = Some c) as [H1 H2].
    { apply elem_of_cons in Hs' as [->|Hs']; [done|]. apply Heq.
      rewrite forallb_forall in Hall. by apply Hall, list_elem_of_In. }
    split; [done|]. split; [done|]. by apply Hpass.
  - intros [_ Hall]. destruct (Hall s) as (-> & -> & _); [set_solver|].
    assert (forallb (fun source => negb (variableFrameRate source) &&
              match cadence source with Some c' => equals c' c | None => false end) rest = true) as ->; [|done].
    apply forallb_forall. intros s' Hs'%list_elem_of_In. apply Heq. destruct (Hall s') as (? & ? & _); [set_solver|done].
Qed.
