(* ===== verification/StudioTiming.v ===== *)
(** * The Studio timeline's timing mapping ([server/src/utils/studio-timing.ts])

    Which source instant a timeline frame shows: the exact project cadence, clip source times,
    presentation ticks, audio samples and the output tick grid.  Comparisons against a stored
    floating-point [fps] use the binary64 values ([fl]). *)

From Stdlib Require Import QArith Qabs Qminmax.
From S2P Require Import Prelude JsNumber JsString RationalTime.
Local Open Scope Z_scope.

Inductive StudioTimingError :=
| NoExactReading
| ReversedNeedsEnd
| UnusableTimeBase (text : string)
| ConvertedNeedsCadence
| NotSingleSource
| StudioRational (e : RationalError).

(** The rational-time calls of this module, whose exceptions pass through. *)
Definition exactly {A} (m : res RationalError A) : res StudioTimingError A :=
  match m with Ok a => Ok a | Throw e => Throw (StudioRational e) end.

Definition NTSC_NUMERATORS : list Z := [24000; 30000; 48000; 60000; 120000].

(** [1e-9] as a binary64 number. *)
Definition nano : Q := fl (1 # 1000000000).

(** [a < b] on rationals. *)
Definition Qltb (a b : Q) : bool := negb (Qle_bool b a).

(** [Math.abs(fps - exact) < 1e-9 || Math.round(exact * 1000) / 1000 === fps]. *)
Definition ntsc_matches (fps : Q) (numerator : Z) : bool :=
  let exact := fl (numerator # 1001) in
  Qltb (Qabs (fl (fps - exact))) nano ||
  Qeq_bool (fl (math_round (fl (exact * inject_Z 1000)) # 1000)) fps.

Definition cadenceFromDecimal (fps : option jsnum) : res RationalError (option Rational) :=
  match fps with
  | None => Ok None
  | Some n =>
      match num_value n with
      | None => Ok None
      | Some q =>
          if Qle_bool q 0 then Ok None
          else if num_is_safe_integer n then
            match n with JInt z => r ← rational z 1; Ok (Some r) | _ => Ok None end
          else
            match List.find (ntsc_matches q) NTSC_NUMERATORS with
            | Some numerator => r ← rational numerator 1001; Ok (Some r)
            | None => Ok None
            end
      end
  end.

Definition positiveRational (value : option json) : res RationalError (option Rational) :=
  parsed ← coerceRational value;
  Ok (match parsed with Some r => if 0 <? num r then Some r else None | None => None end).

(** [Math.abs(stored.num / stored.den - fps) < 1e-9]: false when [fps] is not finite. *)
Definition describes_fps (stored : Rational) (fps : jsnum) : bool :=
  match num_value fps with
  | None => false
  | Some q => Qltb (Qabs (fl (toApproximateNumber stored - q))) nano
  end.

Definition projectCadenceOf (metadata : option json) : res RationalError (option Rational) :=
  let record := match metadata with Some (JObj fs) => fs | _ => [] end in
  stored ← positiveRational (obj_get record "frameRate");
  let fps := as_num (obj_get record "fps") in
  match stored with
  | Some r =>
      if match fps with None => true | Some f => describes_fps r f end
      then Ok (Some r) else cadenceFromDecimal fps
  | None => cadenceFromDecimal fps
  end.

Definition withProjectCadence (metadata : list (string * json)) : res StudioTimingError (list (string * json)) :=
  c ← exactly (projectCadenceOf (Some (JObj metadata)));
  match c with
  | None => Throw NoExactReading
  | Some cadence =>
      Ok (obj_set (obj_set metadata "fps" (JNum (number_of (toApproximateNumber cadence))))
            "frameRate" (JObj [("num", JNum (JInt (num cadence))); ("den", JNum (JInt (den cadence)))]))
  end.

(** ** Timeline frames *)

Definition timelineFrameTime (frame : Z) (cadence : Rational) : res RationalError Rational :=
  frameStartTime frame cadence.
Definition nearestTimelineFrame (time cadence : Rational) : res RationalError Z :=
  p ← multiply time cadence; roundToInteger p nearest.

Definition speedOf (speed : option jsnum) : res RationalError Rational :=
  match speed with
  | None => rational 1 1
  | Some n =>
      match num_value n with
      | None => rational 1 1
      | Some q => if Qle_bool q 0 then rational 1 1
                  else rational (math_round (fl (q * inject_Z 10000))) 10000
      end
  end.

(** ** Sources and clips *)

(** The fields of [StudioSourceTiming] the mapping reads. *)
Record StudioSourceTiming := mkSource { srcTimeBase : string; srcOriginTicks : Z }.

Record StudioClipTiming := mkClip {
  from : Z;
  sourceStart : option Z;
  sourceEnd : option Z;
  sourceCadence : Rational;
  speed : option jsnum;
  reversed : bool
}.

Definition clipSourceTime (clip : StudioClipTiming) (frame : Z) (projectCadence : Rational)
  : res StudioTimingError Rational :=
  speed ← exactly (speedOf (speed clip));
  elapsed ← exactly (timelineFrameTime (fl_int (frame - from clip)) projectCadence);
  local ← exactly (multiply elapsed speed);
  start ← exactly (frameStartTime (default 0 (sourceStart clip)) (sourceCadence clip));
  if negb (reversed clip) then exactly (add start local)
  else
    match sourceEnd clip with
    | None => Throw ReversedNeedsEnd
    | Some e =>
        endTime ← exactly (frameStartTime e (sourceCadence clip));
        oneFrame ← exactly (frameDuration projectCadence);
        step ← exactly (multiply oneFrame speed);
        used ← exactly (add local step);
        back ← exactly (subtract endTime used);
        exactly (max start back)
    end.

Definition sourceTimeBase (source : StudioSourceTiming) : res StudioTimingError Rational :=
  match tryParseRational (Some (srcTimeBase source)) with
  | Some tb => if num tb <=? 0 then Throw (UnusableTimeBase (srcTimeBase source)) else Ok tb
  | None => Throw (UnusableTimeBase (srcTimeBase source))
  end.

Definition sourcePresentationTicks (source : StudioSourceTiming) (time : Rational) : res StudioTimingError Z :=
  tb ← sourceTimeBase source;
  q ← exactly (divide time tb);
  t ← exactly (floor q);
  Ok (fl_int (srcOriginTicks source + t)).

Definition audioSampleAt (time : Rational) (sampleRate : Z) : res RationalError Z :=
  r ← fromInteger sampleRate; p ← multiply time r; floor p.

(** ** Output grid *)

Inductive OutputMode := ModePassthrough | ModeConvert.
Record OutputDecision := mkOutput { outMode : OutputMode; outCadence : option string }.

Definition outputTimeBase (decision : OutputDecision) (sources : list StudioSourceTiming)
  : res StudioTimingError Rational :=
  match outMode decision with
  | ModeConvert =>
      match tryParseRational (Some (default "" (outCadence decision))) with
      | Some c => if num c <=? 0 then Throw ConvertedNeedsCadence else exactly (invert c)
      | None => Throw ConvertedNeedsCadence
      end
  | ModePassthrough =>
      match sources with
      | [s] => sourceTimeBase s
      | _ => Throw NotSingleSource
      end
  end.

Definition timelineFrameTicks (frame : Z) (cadence timeBase : Rational) : res RationalError (option Z) :=
  t ← timelineFrameTime frame cadence;
  ticks ← divide t timeBase;
  Ok (if isInteger ticks then Some (num ticks) else None).

Definition isFrameBoundary (ticks : Z) (cadence timeBase : Rational) : res RationalError bool :=
  t ← fromInteger ticks;
  s ← multiply t timeBase;
  p ← multiply s cadence;
  Ok (isInteger p).

(** ** Lemmas *)

Lemma exactly_Ok {A} (m : res RationalError A) a : exactly m = Ok a <-> m = Ok a.
Proof. destruct m; simpl; split; congruence. Qed.

Ltac inv_exact :=
  repeat match goal with
  | H : (_ ≫= _) = Ok _ |- _ => apply bind_Ok in H as (? & ? & ?)
  | H : exactly _ = Ok _ |- _ => apply exactly_Ok in H
  end.

Lemma tryParseRational_wf s r : tryParseRational s = Some r -> wf r.
Proof.
  destruct s as [s|]; [|done]. unfold tryParseRational, to_option.
  destruct (String.eqb s ""); [done|]. unfold parseRational.
  destruct (scan_rational _) as [[n d]|]; [|done].
  destruct (_ || _); [done|]. destruct (rational _ _) eqn:E; [|done]. intros [= <-].
  by apply rational_spec in E as [? _].
Qed.

Lemma coerceRational_wf v r : coerceRational v = Ok (Some r) -> wf r.
Proof.
  intros H. destruct v as [v|]; [|discriminate H].
  destruct v as [| | |s| |fs]; try discriminate H.
  - apply (tryParseRational_wf (Some s)). cbn [coerceRational] in H. congruence.
  - unfold coerceRational in H.
    destruct (obj_get fs "num") as [[| |[n| | |]| | |]|]; try discriminate H.
    destruct (obj_get fs "den") as [[| |[d| | |]| | |]|]; try discriminate H.
    destruct (_ && _); [|discriminate H].
    apply bind_Ok in H as (q & Hq & H). injection H as <-. by apply rational_spec in Hq as [? _].
Qed.

Lemma positiveRational_wf v r : positiveRational v = Ok (Some r) -> wf r /\ 0 < num r.
Proof.
  intros (p & Hp & H)%bind_Ok. destruct p as [p|]; [|done]. destruct (Z.ltb_spec 0 (num p)); [|done].
  injection H as <-. by apply coerceRational_wf in Hp.
Qed.

Lemma sourceTimeBase_wf s tb : sourceTimeBase s = Ok tb -> wf tb /\ 0 < num tb.
Proof.
  unfold sourceTimeBase. destruct (tryParseRational _) as [r|] eqn:E; [|done].
  destruct (Z.leb_spec (num r) 0); [done|]. intros [= <-]. by apply tryParseRational_wf in E.
Qed.

Lemma cadenceFromDecimal_cases n r :
  cadenceFromDecimal (Some n) = Ok (Some r) ->
  (exists z, n = JInt z /\ 0 < z /\ r = mkRational z 1) \/
  (exists q k, num_value n = Some q /\ k ∈ NTSC_NUMERATORS /\ ntsc_matches q k = true /\ rational k 1001 = Ok r).
Proof.
  unfold cadenceFromDecimal. destruct (num_value n) as [q|] eqn:Hq; [|done].
  destruct (Qle_bool q 0) eqn:Hpos; [done|]. destruct (num_is_safe_integer n) eqn:Hsafe.
  - destruct n as [z| | |]; try done. intros (r' & Hr & [= <-])%bind_Ok. left. exists z.
    apply fromInteger_spec in Hr as [-> _]. split; [done|]. split; [|done].
    simpl in Hq. injection Hq as <-. destruct (Z.lt_ge_cases 0 z); [done|exfalso].
    apply not_true_iff_false in Hpos. apply Hpos, Qle_bool_iff. unfold Qle, inject_Z; simpl. lia.
  - destruct (List.find _ _) as [k|] eqn:Hf; [|done]. apply List.find_some in Hf as [Hin Hm].
    intros (r' & Hr & [= <-])%bind_Ok. right. exists q, k.
    apply list_elem_of_In in Hin. repeat split; assumption.
Qed.

Lemma NTSC_positive k : k ∈ NTSC_NUMERATORS -> 0 < k.
Proof.
  revert k. apply Forall_forall. by repeat constructor.
Qed.

Lemma cadenceFromDecimal_wf n r : cadenceFromDecimal n = Ok (Some r) -> wf r /\ 0 < num r.
Proof.
  destruct n as [n|]; [|done]. intros H. pose proof H as H'.
  apply cadenceFromDecimal_cases in H as [(z & -> & Hz & ->)|(q & k & _ & Hk & _ & Hr)].
  - unfold cadenceFromDecimal in H'. destruct (num_value _); [|done]. destruct (Qle_bool _ _); [done|].
    destruct (num_is_safe_integer (JInt z)) eqn:Hs.
    + apply is_safe_integer_spec in Hs. unfold wf; cbn [num den]. rewrite Z.gcd_1_r. lia.
    + destruct (List.find _ _) as [k|] eqn:Hf; [|done]. apply List.find_some in Hf as [Hin _].
      apply bind_Ok in H' as (r & Hr & [= ->]). apply rational_spec in Hr as [Hw _]. done.
  - apply rational_spec in Hr as [Hw E]. split; [done|]. destruct Hw as (_ & Hd & _).
    pose proof (NTSC_positive k Hk). nia.
Qed.

Lemma projectCadenceOf_cases m r :
  projectCadenceOf m = Ok (Some r) ->
  (exists v, positiveRational v = Ok (Some r)) \/ (exists n, cadenceFromDecimal n = Ok (Some r)).
Proof.
  unfold projectCadenceOf. cbv zeta. intros (st & Hs & H)%bind_Ok. destruct st as [s|].
  - destruct (as_num _) as [f|].
    + destruct (describes_fps s f); [|right; by eexists]. injection H as <-. left. by eexists.
    + injection H as <-. left. by eexists.
  - right. by eexists.
Qed.

Lemma projectCadenceOf_wf m r : projectCadenceOf m = Ok (Some r) -> wf r /\ 0 < num r.
Proof.
  intros [[v Hv]|[n Hn]]%projectCadenceOf_cases.
  - by apply positiveRational_wf in Hv.
  - by apply cadenceFromDecimal_wf in Hn.
Qed.

Lemma fl_Qeq_0 x : (x == 0)%Q -> fl x = 0%Q.
Proof. destruct x as [n d]. unfold Qeq, fl; simpl. intros H. by replace n with 0 by lia. Qed.

(** The stored float of a rational describes that rational. *)
Lemma describes_own_fps r : describes_fps r (number_of (toApproximateNumber r)) = true.
Proof.
  unfold describes_fps. destruct (number_of_value (toApproximateNumber r)) as (q & -> & Hq).
  rewrite fl_Qeq_0; [by vm_compute|]. rewrite Hq. unfold Qminus. apply Qplus_opp_r.
Qed.

Lemma positiveRational_of_fields r : wf r -> 0 < num r ->
  positiveRational (Some (JObj [("num", JNum (JInt (num r))); ("den", JNum (JInt (den r)))])) = Ok (Some r).
Proof.
  intros Hr Hp. pose proof Hr as (Hn & Hd & _). unfold positiveRational, coerceRational. simpl obj_get. cbv iota.
  rewrite (proj2 (is_safe_integer_spec _) Hn), (proj2 (is_safe_integer_spec (den r))) by lia.
  destruct (Z.eqb_spec (den r) 0); [lia|]. cbn [negb andb]. rewrite rational_wf_id by done. res_step.
  destruct (Z.ltb_spec 0 (num r)); [done|lia].
Qed.

(** ** The rational operations as operations on values *)

Lemma value_den_pos a : wf a -> Zpos (Z.to_pos (den a)) = den a.
Proof. intros (_ & H & _). lia. Qed.

(** Compare values by their cross products. *)
Ltac cross_multiply :=
  unfold value, Qeq, Qle, Qlt, Qminus, Qplus, Qmult, Qopp, inject_Z; cbn [Qnum Qden];
  rewrite ?Pos2Z.inj_mul, ?value_den_pos by assumption.

Lemma add_value a b r : wf a -> wf b -> add a b = Ok r -> wf r /\ (value r == value a + value b)%Q.
Proof. intros Ha Hb [Hr E]%add_spec; [|done|done]. split; [done|]. cross_multiply. lia. Qed.
Lemma subtract_value a b r : wf a -> wf b -> subtract a b = Ok r -> wf r /\ (value r == value a - value b)%Q.
Proof. intros Ha Hb [Hr E]%subtract_spec; [|done|done]. split; [done|]. cross_multiply. lia. Qed.
Lemma multiply_value a b r : wf a -> wf b -> multiply a b = Ok r -> wf r /\ (value r == value a * value b)%Q.
Proof. intros Ha Hb [Hr E]%multiply_spec; [|done|done]. split; [done|]. cross_multiply. lia. Qed.

Lemma value_nonzero b : wf b -> num b <> 0 -> ~ (value b == 0)%Q.
Proof. intros Hb H0. cross_multiply. simpl. lia. Qed.

Lemma divide_value a b r : wf a -> wf b -> divide a b = Ok r ->
  num b <> 0 /\ wf r /\ (value r == value a / value b)%Q.
Proof.
  intros Ha Hb (H0 & Hr & E)%divide_spec; [|done|done]. split; [done|]. split; [done|].
  assert (value r * value b == value a)%Q as Hm by (cross_multiply; lia).
  rewrite <- Hm. field. by apply value_nonzero.
Qed.

Lemma fromInteger_value n r : fromInteger n = Ok r -> wf r /\ (value r == inject_Z n)%Q.
Proof. intros [-> H]%fromInteger_spec. split; [done|]. cross_multiply. simpl. lia. Qed.

Lemma frameStartTime_value i rate r : wf rate -> frameStartTime i rate = Ok r ->
  num rate <> 0 /\ wf r /\ (value r == inject_Z i / value rate)%Q.
Proof.
  intros Hw (f & [Hf Ef]%fromInteger_value & H)%bind_Ok.
  apply divide_value in H as (H0 & Hr & E); [|done|done]. rewrite Ef in E. done.
Qed.

Lemma invert_value a r : wf a -> invert a = Ok r -> wf r /\ num a <> 0 /\ (value r == / value a)%Q.
Proof.
  intros Ha H. assert (num a <> 0) as H0.
  { unfold invert in H. by destruct (Z.eqb_spec (num a) 0). }
  apply invert_spec in H as [Hr E]; [|done]. split; [done|]. split; [done|].
  assert (value r * value a == 1)%Q as Hm by (cross_multiply; simpl; lia).
  rewrite <- (Qmult_1_l (/ value a)), <- Hm. field. by apply value_nonzero.
Qed.

Lemma value_le a b : wf a -> wf b -> (value a <= value b)%Q <-> num a * den b <= num b * den a.
Proof. intros. by cross_multiply. Qed.

Lemma max_value a b r : wf a -> wf b -> max a b = Ok r -> wf r /\ (value r == Qmax (value a) (value b))%Q.
Proof.
  intros Ha Hb (c & Hc & [= <-])%bind_Ok. apply compare_spec in Hc as ->; [|done|done].
  destruct (Z.leb_spec 0 (Z.sgn (num a * den b - num b * den a))) as [Hs|Hs].
  - apply Z.sgn_nonneg in Hs. split; [done|]. symmetry. apply Q.max_l. apply value_le; [done|done|lia].
  - split; [done|]. symmetry. apply Q.max_r. apply value_le; [done|done|]. apply Z.sgn_neg_iff in Hs. lia.
Qed.

(** [floor] of a non-negative value. *)
Lemma floor_value v i : wf v -> 0 <= num v -> floor v = Ok i ->
  0 <= i < 2 ^ 53 /\ (inject_Z i <= value v)%Q /\ (value v < inject_Z (i + 1))%Q.
Proof.
  intros Hv Hn H. pose proof Hv as (Hnb & Hd & _). unfold floor in H.
  rewrite roundToInteger_exact in H by (done || auto). injection H as <-. simpl.
  pose proof (Z.mod_pos_bound (num v) (den v) ltac:(lia)). pose proof (Z.div_mod (num v) (den v) ltac:(lia)).
  assert (0 <= num v / den v) by (apply Z.div_pos; lia).
  split; [nia|]. split; cross_multiply; nia.
Qed.

Lemma multiply_nonneg a b r : wf a -> wf b -> multiply a b = Ok r -> 0 <= num a -> 0 <= num b -> 0 <= num r.
Proof.
  intros Ha Hb [(_ & Hd & _) E]%multiply_spec H1 H2; [|done|done].
  destruct Ha as (_ & Had & _), Hb as (_ & Hbd & _). nia.
Qed.
Lemma divide_nonneg a b r : wf a -> wf b -> divide a b = Ok r -> 0 <= num a -> 0 < num b -> 0 <= num r.
Proof.
  intros Ha Hb (_ & (_ & Hd & _) & E)%divide_spec H1 H2; [|done|done].
  destruct Ha as (_ & Had & _), Hb as (_ & Hbd & _). nia.
Qed.

Lemma isInteger_value r : wf r -> isInteger r = true -> (value r == inject_Z (num r))%Q.
Proof. intros Hr H. unfold isInteger in H. apply Z.eqb_eq in H. cross_multiply. rewrite H. lia. Qed.
Lemma isInteger_of_value r k : wf r -> (value r == inject_Z k)%Q -> isInteger r = true /\ num r = k.
Proof.
  intros Hr. pose proof Hr as (Hn & Hd & Hg). cross_multiply. intros E. rewrite Z.mul_1_r in E.
  assert (den r = 1) as H1.
  { assert (Z.divide (den r) (num r)) as Hdiv by (exists k; lia).
    apply Z.divide_gcd_iff in Hdiv; [|lia]. rewrite Z.gcd_comm in Hdiv. lia. }
  unfold isInteger. rewrite H1 in *. split; [done|lia].
Qed.

(** Metadata that carries an exact cadence with its own float is read back as that cadence. *)
Lemma projectCadenceOf_stored m r :
  wf r -> 0 < num r ->
  obj_get m "fps" = Some (JNum (number_of (toApproximateNumber r))) ->
  obj_get m "frameRate" = Some (JObj [("num", JNum (JInt (num r))); ("den", JNum (JInt (den r)))]) ->
  projectCadenceOf (Some (JObj m)) = Ok (Some r).
Proof.
  intros Hr Hp Hf Hs. unfold projectCadenceOf. cbv zeta beta iota. rewrite Hs, Hf, positiveRational_of_fields by done.
  res_step. cbn [as_num]. by rewrite describes_own_fps.
Qed.

Lemma speedOf_value s r : speedOf s = Ok r -> wf r /\ 0 <= num r.
Proof.
  assert (forall n d x, 0 <= n -> 0 < d -> rational n d = Ok x -> wf x /\ 0 <= num x) as Hrat.
  { intros n d x Hn Hd [Hw E]%rational_spec. split; [done|]. destruct Hw as (_ & ? & _). nia. }
  unfold speedOf. destruct s as [n|]; [|by apply Hrat]. destruct (num_value n) as [q|]; [|by apply Hrat].
  destruct (Qle_bool q 0) eqn:Hq; [by apply Hrat|]. apply Hrat; [|lia].
  assert (0 < q)%Q as Hpos.
  { destruct (Qlt_le_dec 0 q) as [|Hle]; [done|]. apply Qle_bool_iff in Hle. congruence. }
  assert (0 <= Qnum (fl (q * inject_Z 10000))) as Hfl.
  { destruct q as [[|p|p] e]; unfold Qlt in Hpos; simpl in Hpos; try lia.
    unfold fl. cbn [Qmult inject_Z Qnum Qden]. simpl Z.mul. unfold fl_pos. cbn [Qnum].
    pose proof (fl_shift_spec (Zpos (p * 10000)) (Zpos (e * 1)) ltac:(lia) ltac:(lia)) as [Hd [Hlo _]].
    apply Z.mul_nonneg_nonneg; [|apply Z.pow_nonneg; lia]. unfold fl_mant. apply rne_ge; [done|].
    assert (0 < 2 ^ 52) by done. nia. }
  unfold math_round. apply Z.div_pos; lia.
Qed.

(** ** Properties *)

(** Writing a project's cadence down loses nothing: [withProjectCadence] stores the exact
    canonical positive rational the metadata declared, reading its result gives that rational back
    (its float [fps] describes it), writing again changes nothing, and no other field is touched. *)
Theorem projectCadence_roundtrip (m m' : list (string * json)) (H : withProjectCadence m = Ok m') :
  exists r, projectCadenceOf (Some (JObj m)) = Ok (Some r) /\ wf r /\ 0 < num r /\
    projectCadenceOf (Some (JObj m')) = Ok (Some r) /\
    withProjectCadence m' = Ok m' /\
    (forall k, k <> "fps"%string -> k <> "frameRate"%string -> obj_get m' k = obj_get m k).
Proof.
  unfold withProjectCadence in H. apply bind_Ok in H as (c & Hc%exactly_Ok & H).
  destruct c as [r|]; [|done]. injection H as <-. exists r.
  pose proof (projectCadenceOf_wf _ _ Hc) as [Hr Hp].
  set (fps := JNum _). set (rate := JObj [("num"%string, _); _]). set (m1 := obj_set m "fps" fps). set (m2 := obj_set m1 "frameRate" rate).
  assert (obj_get m2 "fps" = Some fps) as Hf by (unfold m2, m1; rewrite obj_get_set_ne, obj_get_set_eq; done).
  assert (obj_get m2 "frameRate" = Some rate) as Hs by apply obj_get_set_eq.
  pose proof (projectCadenceOf_stored m2 r Hr Hp Hf Hs) as Hread.
  split; [done|]. split; [done|]. split; [done|]. split; [done|]. split.
  - unfold withProjectCadence. rewrite Hread. cbn [exactly]. res_step. fold fps rate.
    by rewrite (obj_set_id m2 _ _ Hf), (obj_set_id m2 _ _ Hs).
  - intros k H1 H2. unfold m2, m1. by rewrite !obj_get_set_ne.
Qed.

Lemma projectCadence_roundtrip_witness :
  exists r, projectCadenceOf (Some (JObj [("fps", JNum (JDec (fl (2997 # 100))))])) = Ok (Some r) /\ wf r /\ 0 < num r /\
    projectCadenceOf (Some (JObj [("fps", JNum (JDec (fl (30000 # 1001))));
      ("frameRate", JObj [("num", JNum (JInt 30000)); ("den", JNum (JInt 1001))])])) = Ok (Some r) /\
    withProjectCadence [("fps", JNum (JDec (fl (30000 # 1001))));
      ("frameRate", JObj [("num", JNum (JInt 30000)); ("den", JNum (JInt 1001))])] =
      Ok [("fps", JNum (JDec (fl (30000 # 1001))));
      ("frameRate", JObj [("num", JNum (JInt 30000)); ("den", JNum (JInt 1001))])] /\
    (forall k, k <> "fps"%string -> k <> "frameRate"%string ->
      obj_get [("fps", JNum (JDec (fl (30000 # 1001))));
      ("frameRate", JObj [("num", JNum (JInt 30000)); ("den", JNum (JInt 1001))])] k =
      obj_get [("fps", JNum (JDec (fl (2997 # 100))))] k).
Proof. apply projectCadence_roundtrip. vm_compute. reflexivity. Defined.

(** The source instant of a timeline frame is exact: forward,
    [sourceStart / sourceCadence + (frame - from) / projectCadence * speed]; reversed, the same
    distance and one more frame back from the source end, never before the source start, and a
    reversed clip without a source end is refused. *)
Theorem clipSourceTime_exact (clip : StudioClipTiming) (frame : Z) (pc sp t : Rational)
    (Hpc : wf pc) (Hsc : wf (sourceCadence clip)) (Hframe : is_safe_integer (frame - from clip) = true)
    (Hsp : speedOf (speed clip) = Ok sp) (Ht : clipSourceTime clip frame pc = Ok t) :
  let start := (inject_Z (default 0%Z (sourceStart clip)) / value (sourceCadence clip))%Q in
  let local := (inject_Z (frame - from clip) / value pc * value sp)%Q in
  wf t /\
  (reversed clip = false -> value t == start + local)%Q /\
  (reversed clip = true -> exists e, sourceEnd clip = Some e /\
    (value t == Qmax start (inject_Z e / value (sourceCadence clip) - (local + value sp / value pc)))%Q /\
    (start <= value t)%Q).
Proof.
  cbv zeta. apply is_safe_integer_spec in Hframe. pose proof (speedOf_value _ _ Hsp) as [Hspw _].
  unfold clipSourceTime in Ht. rewrite Hsp in Ht. cbn [exactly] in Ht. revert Ht. res_step. intros Ht.
  apply bind_Ok in Ht as (el & Hel%exactly_Ok & Ht). apply bind_Ok in Ht as (lo & Hlo%exactly_Ok & Ht).
  apply bind_Ok in Ht as (st & Hst%exactly_Ok & Ht).
  unfold timelineFrameTime in Hel. rewrite fl_int_exact in Hel by done.
  apply frameStartTime_value in Hel as (Hpc0 & Helw & Hel); [|done].
  apply multiply_value in Hlo as [Hlow Hlo]; [|done|done].
  apply frameStartTime_value in Hst as (_ & Hstw & Hst); [|done].
  destruct (reversed clip); cbn [negb] in Ht.
  - destruct (sourceEnd clip) as [e|]; [|done].
    apply bind_Ok in Ht as (en & Hen%exactly_Ok & Ht). apply bind_Ok in Ht as (fr & Hfr%exactly_Ok & Ht).
    apply bind_Ok in Ht as (sf & Hsf%exactly_Ok & Ht). apply bind_Ok in Ht as (us & Hus%exactly_Ok & Ht).
    apply bind_Ok in Ht as (ba & Hba%exactly_Ok & Ht%exactly_Ok).
    apply frameStartTime_value in Hen as (_ & Henw & Hen); [|done].
    apply invert_value in Hfr as (Hfrw & _ & Hfr); [|done].
    apply multiply_value in Hsf as [Hsfw Hsf]; [|done|done].
    apply add_value in Hus as [Husw Hus]; [|done|done].
    apply subtract_value in Hba as [Hbaw Hba]; [|done|done].
    apply max_value in Ht as [Htw Ht]; [|done|done].
    assert (value ba == inject_Z e / value (sourceCadence clip) -
      (inject_Z (frame - from clip) / value pc * value sp + value sp / value pc))%Q as Hback.
    { rewrite Hba, Hus, Hen, Hlo, Hel, Hsf, Hfr. unfold Qdiv. ring. }
    split; [done|]. split; [done|]. intros _. exists e. split; [done|]. rewrite Ht, Hback, Hst.
    split; [reflexivity|]. apply Q.le_max_l.
  - apply exactly_Ok in Ht. apply add_value in Ht as [Htw Ht]; [|done|done].
    split; [done|]. split; [|done]. intros _. by rewrite Ht, Hst, Hlo, Hel.
Qed.

Lemma clipSourceTime_exact_witness :
  clipSourceTime (mkClip 0 (Some 0) (Some 100) (mkRational 25 1) (Some (JInt 2)) true) 10 (mkRational 25 1)
    = Ok (mkRational 78 25) /\
  (inject_Z 0 / value (mkRational 25 1) <= value (mkRational 78 25))%Q.
Proof.
  split; [by vm_compute|].
  destruct (clipSourceTime_exact (mkClip 0 (Some 0) (Some 100) (mkRational 25 1) (Some (JInt 2)) true) 10
    (mkRational 25 1) (mkRational 2 1) (mkRational 78 25)) as (_ & _ & H).
  - vm_compute; repeat split; done.
  - vm_compute; repeat split; done.
  - by vm_compute.
  - by vm_compute.
  - by vm_compute.
  - destruct (H eq_refl) as (e & _ & _ & Hle). exact Hle.
Defined.

(** The picture shown at a non-negative instant is the last one not after it: a timestamp [p]
    of the source has started by then exactly when [p] is at most the answered tick.  The audio
    sample answered is the one that is playing. *)
Theorem sourcePresentationTicks_last (source : StudioSourceTiming) (time tb : Rational) (k rate s : Z)
    (Ht : wf time) (Hpos : 0 <= num time) (Htb : sourceTimeBase source = Ok tb)
    (Hk : sourcePresentationTicks source time = Ok k) (Hsafe : is_safe_integer k = true)
    (Hrate : 0 <= rate) (Hs : audioSampleAt time rate = Ok s) :
  (forall p, (inject_Z (p - srcOriginTicks source) * value tb <= value time)%Q <-> p <= k) /\
  (inject_Z s <= value time * inject_Z rate)%Q /\ (value time * inject_Z rate < inject_Z (s + 1))%Q.
Proof.
  pose proof (sourceTimeBase_wf _ _ Htb) as [Hw Hp0]. split.
  - unfold sourcePresentationTicks in Hk. rewrite Htb in Hk. revert Hk. res_step. intros Hk.
    apply bind_Ok in Hk as (q & Hq%exactly_Ok & Hk). apply bind_Ok in Hk as (i & Hi%exactly_Ok & Hk).
    injection Hk as Hk. subst k. rewrite is_safe_fl_int in Hsafe. apply is_safe_integer_spec in Hsafe.
    rewrite fl_int_exact by done.
    pose proof (divide_nonneg _ _ _ Ht Hw Hq Hpos Hp0) as Hqn.
    apply divide_value in Hq as (_ & Hqw & Hq); [|done|done].
    apply floor_value in Hi as (_ & Hlo & Hhi); [|done|done].
    assert (0 < value tb)%Q as Hv by (cross_multiply; simpl; lia).
    intros p.
    assert ((inject_Z (p - srcOriginTicks source) * value tb <= value time)%Q <->
            (inject_Z (p - srcOriginTicks source) <= value q)%Q) as ->.
    { rewrite Hq. split; [apply Qle_shift_div_l; done|]. intros H.
      apply (Qmult_le_compat_r _ _ (value tb)) in H; [|by apply Qlt_le_weak].
      assert (value time / value tb * value tb == value time)%Q as E
        by (field; intros E; by rewrite E in Hv).
      by rewrite E in H. }
    split; intros H.
    + assert (inject_Z (p - srcOriginTicks source) < inject_Z (i + 1))%Q as Hlt by (eapply Qle_lt_trans; eauto).
      rewrite <- Zlt_Qlt in Hlt. lia.
    + eapply Qle_trans; [|exact Hlo]. rewrite <- Zle_Qle. lia.
  - apply bind_Ok in Hs as (r & Hr & Hs). apply bind_Ok in Hs as (q & Hq & Hs).
    pose proof (fromInteger_spec _ _ Hr) as [-> Hrw]. apply fromInteger_value in Hr as [_ Hr].
    pose proof (multiply_nonneg _ _ _ Ht Hrw Hq Hpos Hrate) as Hqn.
    apply multiply_value in Hq as [Hqw Hq]; [|done|done].
    apply floor_value in Hs as (_ & Hlo & Hhi); [|done|done]. rewrite Hq, Hr in Hlo, Hhi. done.
Qed.

Lemma sourcePresentationTicks_last_witness :
  (inject_Z (1100 - 100) * value (mkRational 1 600) <= value (mkRational 5 3))%Q <-> 1100 <= 1100.
Proof.
  apply (sourcePresentationTicks_last (mkSource "1/600" 100) (mkRational 5 3) (mkRational 1 600) 1100 48000 80000).
  - vm_compute; repeat split; done.
  - by vm_compute.
  - by vm_compute.
  - by vm_compute.
  - by vm_compute.
  - by vm_compute.
  - by vm_compute.
Defined.

Lemma timelineFrameTicks_value frame cadence tb t :
  wf cadence -> wf tb -> timelineFrameTicks frame cadence tb = Ok (Some t) ->
  (inject_Z t * value tb * value cadence == inject_Z frame)%Q.
Proof.
  intros Hc Hw (s & Hs & H)%bind_Ok. apply bind_Ok in H as (q & Hq & H).
  apply frameStartTime_value in Hs as (Hc0 & Hsw & Hs); [|done].
  apply divide_value in Hq as (Hw0 & Hqw & Hq); [|done|done].
  destruct (isInteger q) eqn:Hi; [|done]. injection H as <-.
  rewrite <- (isInteger_value q Hqw Hi), Hq, Hs. field. split; by apply value_nonzero.
Qed.

(** The output grid: a frame reported on it starts exactly at the tick given; a tick is a frame
    boundary exactly when it is some whole number of frames from the start, so every reported frame
    tick is one; and on the grid of a converted output every frame [n] starts at tick [n]. *)
Theorem output_grid_exact (cadence tb : Rational) (Hc : wf cadence) (Htb : wf tb) :
  (forall frame t, timelineFrameTicks frame cadence tb = Ok (Some t) ->
     (inject_Z t * value tb * value cadence == inject_Z frame)%Q /\ isFrameBoundary t cadence tb <> Ok false) /\
  (forall ticks b, isFrameBoundary ticks cadence tb = Ok b ->
     b = true <-> exists frame, (inject_Z ticks * value tb * value cadence == inject_Z frame)%Q) /\
  (forall text decision sources, outMode decision = ModeConvert -> outCadence decision = Some text ->
     tryParseRational (Some text) = Some cadence -> outputTimeBase decision sources = Ok tb ->
     forall frame r, timelineFrameTicks frame cadence tb = Ok r -> r = Some frame).
Proof.
  assert (forall ticks b, isFrameBoundary ticks cadence tb = Ok b ->
     b = true <-> exists frame, (inject_Z ticks * value tb * value cadence == inject_Z frame)%Q) as Hb.
  { intros ticks b (t & [Ht Et]%fromInteger_value & H)%bind_Ok. apply bind_Ok in H as (s & Hs & H).
    apply bind_Ok in H as (p & Hp & H). injection H as <-.
    apply multiply_value in Hs as [Hsw Hs]; [|done|done]. apply multiply_value in Hp as [Hpw Hp]; [|done|done].
    rewrite Hs, Et in Hp. split.
    - intros Hi. exists (num p). by rewrite <- Hp, <- (isInteger_value p Hpw Hi).
    - intros [frame E]. rewrite <- Hp in E. by destruct (isInteger_of_value p frame Hpw E). }
  split; [|split; [exact Hb|]].
  - intros frame t H. pose proof (timelineFrameTicks_value frame cadence tb t Hc Htb H) as E.
    split; [done|]. intros Hf. apply Hb in Hf as [_ Hf]. discriminate Hf. by exists frame.
  - intros text decision sources Hm Ht Hparse Hout frame r (s & Hs & H)%bind_Ok.
    apply bind_Ok in H as (q & Hq & H). injection H as <-.
    unfold outputTimeBase in Hout. rewrite Hm, Ht in Hout. cbn [from_option id] in Hout. rewrite Hparse in Hout.
    destruct (num cadence <=? 0); [done|]. apply exactly_Ok, invert_value in Hout as (_ & Hc0 & Hinv); [|done].
    apply frameStartTime_value in Hs as (_ & Hsw & Hs); [|done].
    apply divide_value in Hq as (_ & Hqw & Hq); [|done|done].
    destruct (isInteger_of_value q frame Hqw) as [-> ->]; [|done].
    rewrite Hq, Hs, Hinv. field. by apply value_nonzero.
Qed.

Lemma output_grid_exact_witness : isFrameBoundary 1001 (mkRational 30000 1001) (mkRational 1 30000) <> Ok false.
Proof.
  apply (output_grid_exact (mkRational 30000 1001) (mkRational 1 30000)) with (frame := 1).
  - vm_compute; repeat split; done.
  - vm_compute; repeat split; done.
  - by vm_compute.
Defined.
