(* ===== verification/Enums.v ===== *)
(** * The server's enumerations ([server/src/enum.ts])

    Each enumeration is an inductive type with the source's members, the string each member stands
    for ([value]) and the reader of that string ([of_value], total on the members). *)

From S2P Require Import Prelude.

(** Equality of an enumeration through the strings of its members. *)
Definition inj_eq_dec {A} (value : A -> string) (Hinj : forall x y, value x = value y -> x = y) : EqDecision A :=
  fun x y => match decide (value x = value y) with
             | left E => left (Hinj x y E)
             | right N => right (fun H => N (f_equal value H))
             end.

Lemma read_inj {A} (value : A -> string) (read : string -> option A) :
  (forall x, read (value x) = Some x) -> forall x y, value x = value y -> x = y.
Proof. intros H x y E. apply (f_equal read) in E. rewrite !H in E. congruence. Qed.

(** The member with a given string. *)
Definition member {A} (value : A -> string) (all : list A) (s : string) : option A :=
  List.find (fun x => String.eqb (value x) s) all.

(** ** [MediaOperationStatus] *)

Module Status.
Inductive MediaOperationStatus :=
| Queued | Preparing | Rendering | Validating | Completed | Cancelling | Cancelled | Failed
| Paused.
Definition value (x : MediaOperationStatus) : string :=
  match x with
  | Queued => "queued"
  | Preparing => "preparing"
  | Rendering => "rendering"
  | Validating => "validating"
  | Completed => "completed"
  | Cancelling => "cancelling"
  | Cancelled => "cancelled"
  | Failed => "failed"
  | Paused => "paused"
  end.
Definition all : list MediaOperationStatus :=
  [Queued; Preparing; Rendering; Validating; Completed; Cancelling; Cancelled; Failed; Paused].
Definition of_value : string -> option MediaOperationStatus := member value all.
Lemma Status_of_value_value x : of_value (value x) = Some x.
Proof. by destruct x. Qed.
Lemma Status_elem_of_all x : x ∈ all.
Proof. apply list_elem_of_In. destruct x; simpl; tauto. Qed.
#[export] Instance MediaOperationStatus_eq_dec : EqDecision MediaOperationStatus := inj_eq_dec value (read_inj value of_value Status_of_value_value).
End Status.
#[export] Existing Instance Status.MediaOperationStatus_eq_dec.

(** ** [MediaOperationKind] *)

Module Kind.
Inductive MediaOperationKind :=
| StudioExport | StudioPreview | StudioReverseConform | StudioTranscription | SpeechTranscription
| StudioMovie | StudioPreviewStream | Restoration | RestorationPreview | QuickEdit | Bulk
| StudioBundleExport | StudioBundleImport | EnrichmentPlan | MediaHealth | ICloudSync
| TakeoutImport | PhysicalDeduplication | LibraryScan | PreservationExport | PreservationVerify
| PreservationReview | PreservationRestore | StudioExportPublish | CloudDescriptionBatch
| CloudLibraryBatch | CloudMlJob | CloudBackup | CloudRestore | BuddyBackup | BuddyRestore.
Definition value (x : MediaOperationKind) : string :=
  match x with
  | StudioExport => "studio_export"
  | StudioPreview => "studio_preview"
  | StudioReverseConform => "studio_reverse_conform"
  | StudioTranscription => "studio_transcription"
  | SpeechTranscription => "speech_transcription"
  | StudioMovie => "studio_movie"
  | StudioPreviewStream => "studio_preview_stream"
  | Restoration => "restoration"
  | RestorationPreview => "restoration_preview"
  | QuickEdit => "quick_edit"
  | Bulk => "bulk"
  | StudioBundleExport => "studio_bundle_export"
  | StudioBundleImport => "studio_bundle_import"
  | EnrichmentPlan => "enrichment_plan"
  | MediaHealth => "media_health"
  | ICloudSync => "icloud_sync"
  | TakeoutImport => "takeout_import"
  | PhysicalDeduplication => "physical_deduplication"
  | LibraryScan => "library_scan"
  | PreservationExport => "preservation_export"
  | PreservationVerify => "preservation_verify"
  | PreservationReview => "preservation_review"
  | PreservationRestore => "preservation_restore"
  | StudioExportPublish => "studio_export_publish"
  | CloudDescriptionBatch => "cloud_description_batch"
  | CloudLibraryBatch => "cloud_library_batch"
  | CloudMlJob => "cloud_ml_job"
  | CloudBackup => "cloud_backup"
  | CloudRestore => "cloud_restore"
  | BuddyBackup => "buddy_backup"
  | BuddyRestore => "buddy_restore"
  end.
Definition all : list MediaOperationKind :=
  [StudioExport; StudioPreview; StudioReverseConform; StudioTranscription; SpeechTranscription
   ; StudioMovie; StudioPreviewStream; Restoration; RestorationPreview; QuickEdit; Bulk
   ; StudioBundleExport; StudioBundleImport; EnrichmentPlan; MediaHealth; ICloudSync
   ; TakeoutImport; PhysicalDeduplication; LibraryScan; PreservationExport; PreservationVerify
   ; PreservationReview; PreservationRestore; StudioExportPublish; CloudDescriptionBatch
   ; CloudLibraryBatch; CloudMlJob; CloudBackup; CloudRestore; BuddyBackup; BuddyRestore].
Definition of_value : string -> option MediaOperationKind := member value all.
Lemma Kind_of_value_value x : of_value (value x) = Some x.
Proof. by destruct x. Qed.
Lemma Kind_elem_of_all x : x ∈ all.
Proof. apply list_elem_of_In. destruct x; simpl; tauto. Qed.
#[export] Instance MediaOperationKind_eq_dec : EqDecision MediaOperationKind := inj_eq_dec value (read_inj value of_value Kind_of_value_value).
End Kind.
#[export] Existing Instance Kind.MediaOperationKind_eq_dec.

(** ** [MediaOperationCheckpointState] *)

Module Checkpoint.
Inductive MediaOperationCheckpointState :=
| Pending | Complete | Invalid.
Definition value (x : MediaOperationCheckpointState) : string :=
  match x with
  | Pending => "pending"
  | Complete => "complete"
  | Invalid => "invalid"
  end.
Definition all : list MediaOperationCheckpointState :=
  [Pending; Complete; Invalid].
Definition of_value : string -> option MediaOperationCheckpointState := member value all.
Lemma Checkpoint_of_value_value x : of_value (value x) = Some x.
Proof. by destruct x. Qed.
Lemma Checkpoint_elem_of_all x : x ∈ all.
Proof. apply list_elem_of_In. destruct x; simpl; tauto. Qed.
#[export] Instance MediaOperationCheckpointState_eq_dec : EqDecision MediaOperationCheckpointState := inj_eq_dec value (read_inj value of_value Checkpoint_of_value_value).
End Checkpoint.
#[export] Existing Instance Checkpoint.MediaOperationCheckpointState_eq_dec.

(** ** [MediaOperationBulkAction] *)

Module BulkAction.
Inductive MediaOperationBulkAction :=
| Favorite | Unfavorite | Archive | Unarchive | AddToAlbum | RemoveFromAlbum | Tag | Untag
| ChangeDate | ChangeDescription | ChangeLocation | MarkSensitive | UnmarkSensitive | Delete
| DeletePermanently | Restore | Stack | Unstack | RefreshThumbnails | RefreshMetadata
| RefreshEncoded | RefreshFaces | RelinkLivePhoto | ResolveDuplicates | UndoDuplicates
| RelinkMissingMedia | RecoverDamagedMedia | TrashDamagedMedia | ApplyClassificationRule.
Definition value (x : MediaOperationBulkAction) : string :=
  match x with
  | Favorite => "favorite"
  | Unfavorite => "unfavorite"
  | Archive => "archive"
  | Unarchive => "unarchive"
  | AddToAlbum => "add-to-album"
  | RemoveFromAlbum => "remove-from-album"
  | Tag => "tag"
  | Untag => "untag"
  | ChangeDate => "change-date"
  | ChangeDescription => "change-description"
  | ChangeLocation => "change-location"
  | MarkSensitive => "mark-sensitive"
  | UnmarkSensitive => "unmark-sensitive"
  | Delete => "delete"
  | DeletePermanently => "delete-permanently"
  | Restore => "restore"
  | Stack => "stack"
  | Unstack => "unstack"
  | RefreshThumbnails => "refresh-thumbnails"
  | RefreshMetadata => "refresh-metadata"
  | RefreshEncoded => "refresh-encoded"
  | RefreshFaces => "refresh-faces"
  | RelinkLivePhoto => "relink-live-photo"
  | ResolveDuplicates => "resolve-duplicates"
  | UndoDuplicates => "undo-duplicates"
  | RelinkMissingMedia => "relink-missing-media"
  | RecoverDamagedMedia => "recover-damaged-media"
  | TrashDamagedMedia => "trash-damaged-media"
  | ApplyClassificationRule => "apply-classification-rule"
  end.
Definition all : list MediaOperationBulkAction :=
  [Favorite; Unfavorite; Archive; Unarchive; AddToAlbum; RemoveFromAlbum; Tag; Untag; ChangeDate
   ; ChangeDescription; ChangeLocation; MarkSensitive; UnmarkSensitive; Delete; DeletePermanently
   ; Restore; Stack; Unstack; RefreshThumbnails; RefreshMetadata; RefreshEncoded; RefreshFaces
   ; RelinkLivePhoto; ResolveDuplicates; UndoDuplicates; RelinkMissingMedia; RecoverDamagedMedia
   ; TrashDamagedMedia; ApplyClassificationRule].
Definition of_value : string -> option MediaOperationBulkAction := member value all.
Lemma BulkAction_of_value_value x : of_value (value x) = Some x.
Proof. by destruct x. Qed.
Lemma BulkAction_elem_of_all x : x ∈ all.
Proof. apply list_elem_of_In. destruct x; simpl; tauto. Qed.
#[export] Instance MediaOperationBulkAction_eq_dec : EqDecision MediaOperationBulkAction := inj_eq_dec value (read_inj value of_value BulkAction_of_value_value).
End BulkAction.
#[export] Existing Instance BulkAction.MediaOperationBulkAction_eq_dec.

(** ** [JobStatus] *)

Module Job.
Inductive JobStatus :=
| Success | Failed | Skipped.
Definition value (x : JobStatus) : string :=
  match x with
  | Success => "success"
  | Failed => "failed"
  | Skipped => "skipped"
  end.
Definition all : list JobStatus :=
  [Success; Failed; Skipped].
Definition of_value : string -> option JobStatus := member value all.
Lemma Job_of_value_value x : of_value (value x) = Some x.
Proof. by destruct x. Qed.
Lemma Job_elem_of_all x : x ∈ all.
Proof. apply list_elem_of_In. destruct x; simpl; tauto. Qed.
#[export] Instance JobStatus_eq_dec : EqDecision JobStatus := inj_eq_dec value (read_inj value of_value Job_of_value_value).
End Job.
#[export] Existing Instance Job.JobStatus_eq_dec.

(** ** [MediaOperationItemStatus] *)

Module ItemStatus.
Inductive MediaOperationItemStatus :=
| Ok | Skipped | Failed.
Definition value (x : MediaOperationItemStatus) : string :=
  match x with
  | Ok => "ok"
  | Skipped => "skipped"
  | Failed => "failed"
  end.
Definition all : list MediaOperationItemStatus :=
  [Ok; Skipped; Failed].
Definition of_value : string -> option MediaOperationItemStatus := member value all.
Lemma ItemStatus_of_value_value x : of_value (value x) = Some x.
Proof. by destruct x. Qed.
#[export] Instance MediaOperationItemStatus_eq_dec : EqDecision MediaOperationItemStatus := inj_eq_dec value (read_inj value of_value ItemStatus_of_value_value).
End ItemStatus.
#[export] Existing Instance ItemStatus.MediaOperationItemStatus_eq_dec.

(** ** [DuplicateDecisionKind] *)

Module Decision.
Inductive DuplicateDecisionKind :=
| Keepers | KeepAll | Stack.
Definition value (x : DuplicateDecisionKind) : string :=
  match x with
  | Keepers => "keepers"
  | KeepAll => "keep-all"
  | Stack => "stack"
  end.
Definition all : list DuplicateDecisionKind :=
  [Keepers; KeepAll; Stack].
Definition of_value : string -> option DuplicateDecisionKind := member value all.
Lemma Decision_of_value_value x : of_value (value x) = Some x.
Proof. by destruct x. Qed.
#[export] Instance DuplicateDecisionKind_eq_dec : EqDecision DuplicateDecisionKind := inj_eq_dec value (read_inj value of_value Decision_of_value_value).
End Decision.
#[export] Existing Instance Decision.DuplicateDecisionKind_eq_dec.

(** ** [DuplicateGroupKind] *)

Module GroupKind.
Inductive DuplicateGroupKind :=
| Duplicates | Burst.
Definition value (x : DuplicateGroupKind) : string :=
  match x with
  | Duplicates => "duplicates"
  | Burst => "burst"
  end.
Definition all : list DuplicateGroupKind :=
  [Duplicates; Burst].
Definition of_value : string -> option DuplicateGroupKind := member value all.
Lemma GroupKind_of_value_value x : of_value (value x) = Some x.
Proof. by destruct x. Qed.
#[export] Instance DuplicateGroupKind_eq_dec : EqDecision DuplicateGroupKind := inj_eq_dec value (read_inj value of_value GroupKind_of_value_value).
End GroupKind.
#[export] Existing Instance GroupKind.DuplicateGroupKind_eq_dec.

(** ** [DuplicateQualityReason] *)

Module Quality.
Inductive DuplicateQualityReason :=
| OriginalFormat | LargestFile | HighestResolution | MostMetadata | CompressedCopy
| LowerResolution.
Definition value (x : DuplicateQualityReason) : string :=
  match x with
  | OriginalFormat => "original-format"
  | LargestFile => "largest-file"
  | HighestResolution => "highest-resolution"
  | MostMetadata => "most-metadata"
  | CompressedCopy => "compressed-copy"
  | LowerResolution => "lower-resolution"
  end.
Definition all : list DuplicateQualityReason :=
  [OriginalFormat; LargestFile; HighestResolution; MostMetadata; CompressedCopy; LowerResolution].
Definition of_value : string -> option DuplicateQualityReason := member value all.
Lemma Quality_of_value_value x : of_value (value x) = Some x.
Proof. by destruct x. Qed.
#[export] Instance DuplicateQualityReason_eq_dec : EqDecision DuplicateQualityReason := inj_eq_dec value (read_inj value of_value Quality_of_value_value).
End Quality.
#[export] Existing Instance Quality.DuplicateQualityReason_eq_dec.

(** ** [AssetVisibility] *)

Module Visibility.
Inductive AssetVisibility :=
| Archive | Timeline | Hidden | Locked.
Definition value (x : AssetVisibility) : string :=
  match x with
  | Archive => "archive"
  | Timeline => "timeline"
  | Hidden => "hidden"
  | Locked => "locked"
  end.
Definition all : list AssetVisibility :=
  [Archive; Timeline; Hidden; Locked].
Definition of_value : string -> option AssetVisibility := member value all.
Lemma Visibility_of_value_value x : of_value (value x) = Some x.
Proof. by destruct x. Qed.
#[export] Instance AssetVisibility_eq_dec : EqDecision AssetVisibility := inj_eq_dec value (read_inj value of_value Visibility_of_value_value).
End Visibility.
#[export] Existing Instance Visibility.AssetVisibility_eq_dec.

(** ** [Permission] *)

Module Perm.
Inductive Permission :=
| All | BookmarkCreate | BookmarkRead | BookmarkUpdate | BookmarkDelete | CaptureCreate
| CaptureCatalogRead | ActivityCreate | ActivityRead | ActivityUpdate | ActivityDelete
| ActivityStatistics | ApiKeyCreate | ApiKeyRead | ApiKeyUpdate | ApiKeyDelete | ApiKeyRotate
| AssetRead | AssetSourceRead | AssetUpdate | AssetDelete | AssetStatistics | AssetShare
| AssetView | AssetDownload | AssetUpload | AssetCopy | AssetDerive | AssetFileRead
| AssetFileDelete | AssetFileDownload | AssetEditGet | AssetEditCreate | AssetEditDelete
| AlbumCreate | AlbumRead | AlbumUpdate | AlbumDelete | AlbumStatistics | AlbumShare
| AlbumDownload | AlbumAssetCreate | AlbumAssetDelete | AlbumUserCreate | AlbumUserUpdate
| AlbumUserDelete | AuthChangePassword | AuthDeviceDelete | ArchiveRead | BackupList
| BackupDownload | BackupUpload | BackupDelete | ClusterGroupRead | ClusterGroupLeave
| ClusterGroupRequestCreate | ClusterGroupRequestRead | ClusterGroupRequestDelete
| AdminConfigRead | AdminConfigUpdate | UserConfigRead | DuplicateRead | DuplicateDelete
| FaceCreate | FaceRead | FaceUpdate | FaceDelete | FolderRead | JobCreate | JobRead
| LibraryCreate | LibraryRead | LibraryUpdate | LibraryDelete | LibraryStatistics | TimelineRead
| TimelineDownload | Maintenance | MapRead | MapSearch | MemoryCreate | MemoryRead | MemoryUpdate
| MemoryDelete | MemoryStatistics | MemoryAssetCreate | MemoryAssetDelete | NotificationCreate
| NotificationRead | NotificationUpdate | NotificationDelete | PartnerCreate | PartnerRead
| PartnerUpdate | PartnerDelete | PersonCreate | PersonRead | PersonUpdate | PersonDelete
| PersonStatistics | PersonMerge | PersonReassign | PinCodeCreate | PinCodeUpdate | PinCodeDelete
| PluginCreate | PluginRead | PluginUpdate | PluginDelete | ServerAbout | ServerApkLinks
| ServerStorage | ServerStatistics | ServerVersionCheck | AdminCloudRead | AdminCloudUpdate
| AdminCloudLink | AdminRemoteAccessUpdate | FrameleafAccountRead | FrameleafAccountUpdate
| AdminCloudMlRead | AdminCloudMlUpdate | CloudMlJobCreate | CloudMlJobRead | AdminCloudBackupRead
| AdminCloudBackupUpdate | AdminCloudBackupRun | ServerLicenseRead | ServerLicenseUpdate
| ServerLicenseDelete | SessionCreate | SessionRead | SessionUpdate | SessionDelete | SessionLock
| SharedLinkCreate | SharedLinkRead | SharedLinkUpdate | SharedLinkDelete | StackCreate
| StackRead | StackUpdate | StackDelete | SyncStream | SyncCheckpointRead | SyncCheckpointUpdate
| SyncCheckpointDelete | SystemConfigRead | SystemConfigUpdate | SystemMetadataRead
| SystemMetadataUpdate | TagCreate | TagRead | TagUpdate | TagDelete | TagAsset | UserRead
| UserUpdate | UserLicenseCreate | UserLicenseRead | UserLicenseUpdate | UserLicenseDelete
| UserOnboardingRead | UserOnboardingUpdate | UserOnboardingDelete | UserPreferenceRead
| UserPreferenceUpdate | UserProfileImageCreate | UserProfileImageRead | UserProfileImageUpdate
| UserProfileImageDelete | QueueRead | QueueUpdate | QueueJobCreate | QueueJobRead
| QueueJobUpdate | QueueJobDelete | WorkflowCreate | WorkflowRead | WorkflowUpdate
| WorkflowDelete | WorkflowLogs | AdminUserCreate | AdminUserRead | AdminUserUpdate
| AdminUserDelete | AdminSessionRead | AdminSessionDelete | AdminAuthUnlinkAll.
Definition value (x : Permission) : string :=
  match x with
  | All => "all"
  | BookmarkCreate => "bookmark.create"
  | BookmarkRead => "bookmark.read"
  | BookmarkUpdate => "bookmark.update"
  | BookmarkDelete => "bookmark.delete"
  | CaptureCreate => "capture.create"
  | CaptureCatalogRead => "capture.catalog.read"
  | ActivityCreate => "activity.create"
  | ActivityRead => "activity.read"
  | ActivityUpdate => "activity.update"
  | ActivityDelete => "activity.delete"
  | ActivityStatistics => "activity.statistics"
  | ApiKeyCreate => "apiKey.create"
  | ApiKeyRead => "apiKey.read"
  | ApiKeyUpdate => "apiKey.update"
  | ApiKeyDelete => "apiKey.delete"
  | ApiKeyRotate => "apiKey.rotate"
  | AssetRead => "asset.read"
  | AssetSourceRead => "assetSource.read"
  | AssetUpdate => "asset.update"
  | AssetDelete => "asset.delete"
  | AssetStatistics => "asset.statistics"
  | AssetShare => "asset.share"
  | AssetView => "asset.view"
  | AssetDownload => "asset.download"
  | AssetUpload => "asset.upload"
  | AssetCopy => "asset.copy"
  | AssetDerive => "asset.derive"
  | AssetFileRead => "assetFile.read"
  | AssetFileDelete => "assetFile.delete"
  | AssetFileDownload => "assetFile.download"
  | AssetEditGet => "asset.edit.get"
  | AssetEditCreate => "asset.edit.create"
  | AssetEditDelete => "asset.edit.delete"
  | AlbumCreate => "album.create"
  | AlbumRead => "album.read"
  | AlbumUpdate => "album.update"
  | AlbumDelete => "album.delete"
  | AlbumStatistics => "album.statistics"
  | AlbumShare => "album.share"
  | AlbumDownload => "album.download"
  | AlbumAssetCreate => "albumAsset.create"
  | AlbumAssetDelete => "albumAsset.delete"
  | AlbumUserCreate => "albumUser.create"
  | AlbumUserUpdate => "albumUser.update"
  | AlbumUserDelete => "albumUser.delete"
  | AuthChangePassword => "auth.changePassword"
  | AuthDeviceDelete => "authDevice.delete"
  | ArchiveRead => "archive.read"
  | BackupList => "backup.list"
  | BackupDownload => "backup.download"
  | BackupUpload => "backup.upload"
  | BackupDelete => "backup.delete"
  | ClusterGroupRead => "clusterGroup.read"
  | ClusterGroupLeave => "clusterGroup.leave"
  | ClusterGroupRequestCreate => "clusterGroupRequest.create"
  | ClusterGroupRequestRead => "clusterGroupRequest.read"
  | ClusterGroupRequestDelete => "clusterGroupRequest.delete"
  | AdminConfigRead => "adminConfig.read"
  | AdminConfigUpdate => "adminConfig.update"
  | UserConfigRead => "userConfig.read"
  | DuplicateRead => "duplicate.read"
  | DuplicateDelete => "duplicate.delete"
  | FaceCreate => "face.create"
  | FaceRead => "face.read"
  | FaceUpdate => "face.update"
  | FaceDelete => "face.delete"
  | FolderRead => "folder.read"
  | JobCreate => "job.create"
  | JobRead => "job.read"
  | LibraryCreate => "library.create"
  | LibraryRead => "library.read"
  | LibraryUpdate => "library.update"
  | LibraryDelete => "library.delete"
  | LibraryStatistics => "library.statistics"
  | TimelineRead => "timeline.read"
  | TimelineDownload => "timeline.download"
  | Maintenance => "maintenance"
  | MapRead => "map.read"
  | MapSearch => "map.search"
  | MemoryCreate => "memory.create"
  | MemoryRead => "memory.read"
  | MemoryUpdate => "memory.update"
  | MemoryDelete => "memory.delete"
  | MemoryStatistics => "memory.statistics"
  | MemoryAssetCreate => "memoryAsset.create"
  | MemoryAssetDelete => "memoryAsset.delete"
  | NotificationCreate => "notification.create"
  | NotificationRead => "notification.read"
  | NotificationUpdate => "notification.update"
  | NotificationDelete => "notification.delete"
  | PartnerCreate => "partner.create"
  | PartnerRead => "partner.read"
  | PartnerUpdate => "partner.update"
  | PartnerDelete => "partner.delete"
  | PersonCreate => "person.create"
  | PersonRead => "person.read"
  | PersonUpdate => "person.update"
  | PersonDelete => "person.delete"
  | PersonStatistics => "person.statistics"
  | PersonMerge => "person.merge"
  | PersonReassign => "person.reassign"
  | PinCodeCreate => "pinCode.create"
  | PinCodeUpdate => "pinCode.update"
  | PinCodeDelete => "pinCode.delete"
  | PluginCreate => "plugin.create"
  | PluginRead => "plugin.read"
  | PluginUpdate => "plugin.update"
  | PluginDelete => "plugin.delete"
  | ServerAbout => "server.about"
  | ServerApkLinks => "server.apkLinks"
  | ServerStorage => "server.storage"
  | ServerStatistics => "server.statistics"
  | ServerVersionCheck => "server.versionCheck"
  | AdminCloudRead => "adminCloud.read"
  | AdminCloudUpdate => "adminCloud.update"
  | AdminCloudLink => "adminCloud.link"
  | AdminRemoteAccessUpdate => "adminRemoteAccess.update"
  | FrameleafAccountRead => "frameleafAccount.read"
  | FrameleafAccountUpdate => "frameleafAccount.update"
  | AdminCloudMlRead => "adminCloudMl.read"
  | AdminCloudMlUpdate => "adminCloudMl.update"
  | CloudMlJobCreate => "cloudMlJob.create"
  | CloudMlJobRead => "cloudMlJob.read"
  | AdminCloudBackupRead => "adminCloudBackup.read"
  | AdminCloudBackupUpdate => "adminCloudBackup.update"
  | AdminCloudBackupRun => "adminCloudBackup.run"
  | ServerLicenseRead => "serverLicense.read"
  | ServerLicenseUpdate => "serverLicense.update"
  | ServerLicenseDelete => "serverLicense.delete"
  | SessionCreate => "session.create"
  | SessionRead => "session.read"
  | SessionUpdate => "session.update"
  | SessionDelete => "session.delete"
  | SessionLock => "session.lock"
  | SharedLinkCreate => "sharedLink.create"
  | SharedLinkRead => "sharedLink.read"
  | SharedLinkUpdate => "sharedLink.update"
  | SharedLinkDelete => "sharedLink.delete"
  | StackCreate => "stack.create"
  | StackRead => "stack.read"
  | StackUpdate => "stack.update"
  | StackDelete => "stack.delete"
  | SyncStream => "sync.stream"
  | SyncCheckpointRead => "syncCheckpoint.read"
  | SyncCheckpointUpdate => "syncCheckpoint.update"
  | SyncCheckpointDelete => "syncCheckpoint.delete"
  | SystemConfigRead => "systemConfig.read"
  | SystemConfigUpdate => "systemConfig.update"
  | SystemMetadataRead => "systemMetadata.read"
  | SystemMetadataUpdate => "systemMetadata.update"
  | TagCreate => "tag.create"
  | TagRead => "tag.read"
  | TagUpdate => "tag.update"
  | TagDelete => "tag.delete"
  | TagAsset => "tag.asset"
  | UserRead => "user.read"
  | UserUpdate => "user.update"
  | UserLicenseCreate => "userLicense.create"
  | UserLicenseRead => "userLicense.read"
  | UserLicenseUpdate => "userLicense.update"
  | UserLicenseDelete => "userLicense.delete"
  | UserOnboardingRead => "userOnboarding.read"
  | UserOnboardingUpdate => "userOnboarding.update"
  | UserOnboardingDelete => "userOnboarding.delete"
  | UserPreferenceRead => "userPreference.read"
  | UserPreferenceUpdate => "userPreference.update"
  | UserProfileImageCreate => "userProfileImage.create"
  | UserProfileImageRead => "userProfileImage.read"
  | UserProfileImageUpdate => "userProfileImage.update"
  | UserProfileImageDelete => "userProfileImage.delete"
  | QueueRead => "queue.read"
  | QueueUpdate => "queue.update"
  | QueueJobCreate => "queueJob.create"
  | QueueJobRead => "queueJob.read"
  | QueueJobUpdate => "queueJob.update"
  | QueueJobDelete => "queueJob.delete"
  | WorkflowCreate => "workflow.create"
  | WorkflowRead => "workflow.read"
  | WorkflowUpdate => "workflow.update"
  | WorkflowDelete => "workflow.delete"
  | WorkflowLogs => "workflow.logs"
  | AdminUserCreate => "adminUser.create"
  | AdminUserRead => "adminUser.read"
  | AdminUserUpdate => "adminUser.update"
  | AdminUserDelete => "adminUser.delete"
  | AdminSessionRead => "adminSession.read"
  | AdminSessionDelete => "adminSession.delete"
  | AdminAuthUnlinkAll => "adminAuth.unlinkAll"
  end.
Definition all : list Permission :=
  [All; BookmarkCreate; BookmarkRead; BookmarkUpdate; BookmarkDelete; CaptureCreate
   ; CaptureCatalogRead; ActivityCreate; ActivityRead; ActivityUpdate; ActivityDelete
   ; ActivityStatistics; ApiKeyCreate; ApiKeyRead; ApiKeyUpdate; ApiKeyDelete; ApiKeyRotate
   ; AssetRead; AssetSourceRead; AssetUpdate; AssetDelete; AssetStatistics; AssetShare; AssetView
   ; AssetDownload; AssetUpload; AssetCopy; AssetDerive; AssetFileRead; AssetFileDelete
   ; AssetFileDownload; AssetEditGet; AssetEditCreate; AssetEditDelete; AlbumCreate; AlbumRead
   ; AlbumUpdate; AlbumDelete; AlbumStatistics; AlbumShare; AlbumDownload; AlbumAssetCreate
   ; AlbumAssetDelete; AlbumUserCreate; AlbumUserUpdate; AlbumUserDelete; AuthChangePassword
   ; AuthDeviceDelete; ArchiveRead; BackupList; BackupDownload; BackupUpload; BackupDelete
   ; ClusterGroupRead; ClusterGroupLeave; ClusterGroupRequestCreate; ClusterGroupRequestRead
   ; ClusterGroupRequestDelete; AdminConfigRead; AdminConfigUpdate; UserConfigRead; DuplicateRead
   ; DuplicateDelete; FaceCreate; FaceRead; FaceUpdate; FaceDelete; FolderRead; JobCreate; JobRead
   ; LibraryCreate; LibraryRead; LibraryUpdate; LibraryDelete; LibraryStatistics; TimelineRead
   ; TimelineDownload; Maintenance; MapRead; MapSearch; MemoryCreate; MemoryRead; MemoryUpdate
   ; MemoryDelete; MemoryStatistics; MemoryAssetCreate; MemoryAssetDelete; NotificationCreate
   ; NotificationRead; NotificationUpdate; NotificationDelete; PartnerCreate; PartnerRead
   ; PartnerUpdate; PartnerDelete; PersonCreate; PersonRead; PersonUpdate; PersonDelete
   ; PersonStatistics; PersonMerge; PersonReassign; PinCodeCreate; PinCodeUpdate; PinCodeDelete
   ; PluginCreate; PluginRead; PluginUpdate; PluginDelete; ServerAbout; ServerApkLinks
   ; ServerStorage; ServerStatistics; ServerVersionCheck; AdminCloudRead; AdminCloudUpdate
   ; AdminCloudLink; AdminRemoteAccessUpdate; FrameleafAccountRead; FrameleafAccountUpdate
   ; AdminCloudMlRead; AdminCloudMlUpdate; CloudMlJobCreate; CloudMlJobRead; AdminCloudBackupRead
   ; AdminCloudBackupUpdate; AdminCloudBackupRun; ServerLicenseRead; ServerLicenseUpdate
   ; ServerLicenseDelete; SessionCreate; SessionRead; SessionUpdate; SessionDelete; SessionLock
   ; SharedLinkCreate; SharedLinkRead; SharedLinkUpdate; SharedLinkDelete; StackCreate; StackRead
   ; StackUpdate; StackDelete; SyncStream; SyncCheckpointRead; SyncCheckpointUpdate
   ; SyncCheckpointDelete; SystemConfigRead; SystemConfigUpdate; SystemMetadataRead
   ; SystemMetadataUpdate; TagCreate; TagRead; TagUpdate; TagDelete; TagAsset; UserRead
   ; UserUpdate; UserLicenseCreate; UserLicenseRead; UserLicenseUpdate; UserLicenseDelete
   ; UserOnboardingRead; UserOnboardingUpdate; UserOnboardingDelete; UserPreferenceRead
   ; UserPreferenceUpdate; UserProfileImageCreate; UserProfileImageRead; UserProfileImageUpdate
   ; UserProfileImageDelete; QueueRead; QueueUpdate; QueueJobCreate; QueueJobRead; QueueJobUpdate
   ; QueueJobDelete; WorkflowCreate; WorkflowRead; WorkflowUpdate; WorkflowDelete; WorkflowLogs
   ; AdminUserCreate; AdminUserRead; AdminUserUpdate; AdminUserDelete; AdminSessionRead
   ; AdminSessionDelete; AdminAuthUnlinkAll].
Definition of_value : string -> option Permission := member value all.
Lemma Perm_of_value_value x : of_value (value x) = Some x.
Proof. by destruct x. Qed.
#[export] Instance Permission_eq_dec : EqDecision Permission := inj_eq_dec value (read_inj value of_value Perm_of_value_value).
End Perm.
#[export] Existing Instance Perm.Permission_eq_dec.

(** ** [AssetJobName] *)

Module JobAction.
Inductive AssetJobName :=
| REFRESH_FACES | REFRESH_METADATA | REFRESH_OCR | REGENERATE_THUMBNAIL | TRANSCODE_VIDEO.
Definition value (x : AssetJobName) : string :=
  match x with
  | REFRESH_FACES => "refresh-faces"
  | REFRESH_METADATA => "refresh-metadata"
  | REFRESH_OCR => "refresh-ocr"
  | REGENERATE_THUMBNAIL => "regenerate-thumbnail"
  | TRANSCODE_VIDEO => "transcode-video"
  end.
Definition all : list AssetJobName :=
  [REFRESH_FACES; REFRESH_METADATA; REFRESH_OCR; REGENERATE_THUMBNAIL; TRANSCODE_VIDEO].
Definition of_value : string -> option AssetJobName := member value all.
Lemma JobAction_of_value_value x : of_value (value x) = Some x.
Proof. by destruct x. Qed.
#[export] Instance AssetJobName_eq_dec : EqDecision AssetJobName := inj_eq_dec value (read_inj value of_value JobAction_of_value_value).
End JobAction.
#[export] Existing Instance JobAction.AssetJobName_eq_dec.

(** ** [EnrichmentStage], [EnrichmentItemState], [EnrichmentStaleReason] *)

Module Stage.
Inductive EnrichmentStage := Frames | LockedCheck | Description | MomentIndex | MomentCaptions.
Definition value (x : EnrichmentStage) : string :=
  match x with
  | Frames => "frames"
  | LockedCheck => "locked-check"
  | Description => "description"
  | MomentIndex => "moment-index"
  | MomentCaptions => "moment-captions"
  end.
Definition all : list EnrichmentStage := [Frames; LockedCheck; Description; MomentIndex; MomentCaptions].
Definition of_value : string -> option EnrichmentStage := member value all.
Lemma Stage_of_value_value x : of_value (value x) = Some x.
Proof. by destruct x. Qed.
#[export] Instance EnrichmentStage_eq_dec : EqDecision EnrichmentStage := inj_eq_dec value (read_inj value of_value Stage_of_value_value).
#[export] Program Instance EnrichmentStage_countable : Countable EnrichmentStage :=
  inj_countable value of_value Stage_of_value_value.
End Stage.
#[export] Existing Instance Stage.EnrichmentStage_eq_dec.
#[export] Existing Instance Stage.EnrichmentStage_countable.

Module Item.
Inductive EnrichmentItemState := Queued | Running | Skipped | Failed | Completed | Cancelled.
Definition value (x : EnrichmentItemState) : string :=
  match x with
  | Queued => "queued"
  | Running => "running"
  | Skipped => "skipped"
  | Failed => "failed"
  | Completed => "completed"
  | Cancelled => "cancelled"
  end.
Definition all : list EnrichmentItemState := [Queued; Running; Skipped; Failed; Completed; Cancelled].
Definition of_value : string -> option EnrichmentItemState := member value all.
Lemma Item_of_value_value x : of_value (value x) = Some x.
Proof. by destruct x. Qed.
#[export] Instance EnrichmentItemState_eq_dec : EqDecision EnrichmentItemState := inj_eq_dec value (read_inj value of_value Item_of_value_value).
End Item.
#[export] Existing Instance Item.EnrichmentItemState_eq_dec.

Module Stale.
Inductive EnrichmentStaleReason := SourceChanged | IdentityChanged | ConfigChanged.
Definition value (x : EnrichmentStaleReason) : string :=
  match x with
  | SourceChanged => "source-changed"
  | IdentityChanged => "identity-changed"
  | ConfigChanged => "config-changed"
  end.
End Stale.
