(* ===== verification/StudioRenderProgress.v ===== *)
(** * Measured progress of a Studio render ([server/src/utils/studio-render-progress.ts])

    The measurement a render worker's reports add up to, kept in the job's result and read back
    defensively; and the figures Activity shows from it. *)

From Stdlib Require Import QArith Qminmax.
From S2P Require Import Prelude JsNumber JsString JsDate Enums.
Local Open Scope Z_scope.

Inductive StudioRenderStage : Type := preparing | rendering | finalising.
#[export] Instance StudioRenderStage_eq_dec : EqDecision StudioRenderStage.
Proof. solve_decision. Defined.

Definition stage_value (s : StudioRenderStage) : string :=
  match s with preparing => "preparing" | rendering => "rendering" | finalising => "finalising" end.
Definition STAGES : list StudioRenderStage := [preparing; rendering; finalising].
(** [STAGES.indexOf(stage)]. *)
Definition stage_index (s : StudioRenderStage) : Z :=
  match s with preparing => 0 | rendering => 1 | finalising => 2 end.

(** [unit] is ['frames'] or absent. *)
Record StudioRenderReport := mkReport { report_stage : StudioRenderStage; report_frames : bool }.
Record Sample := mkSample { at_ : jsnum; frames : Z }.
Record StudioRenderMeasurement := mkMeasurement {
  attempt : Z;
  stage : StudioRenderStage;
  unit_frames : bool;
  processed : Z;
  total : option Z;
  lastProgressAt : jsnum;
  samples : list Sample
}.

Definition finiteCount (v : option json) : option Z :=
  match v with
  | Some (JNum (JInt z)) => if is_safe_integer z && (0 <=? z) then Some z else None
  | _ => None
  end.

(** [Number.isFinite(v) && Math.abs(v) <= 8.64e15]. *)
Definition time_number (v : option json) : option jsnum :=
  match v with
  | Some (JNum n) => if num_is_finite n && Qle_bool (- inject_Z 8640000000000000) (num_q n) &&
                        Qle_bool (num_q n) (inject_Z 8640000000000000) then Some n else None
  | _ => None
  end.

Definition num_lt (a b : jsnum) : bool := negb (num_le b a).

(** The samples from left to right, each after the one before it in time and in frames. *)
Fixpoint read_samples (before : option Sample) (l : list json) : option (list Sample) :=
  match l with
  | [] => Some []
  | v :: l' =>
      t ← time_number (json_get v "at");
      n ← finiteCount (json_get v "frames");
      if match before with Some b => num_lt (at_ b) t && (frames b <? n) | None => true end
      then rest ← read_samples (Some (mkSample t n)) l'; Some (mkSample t n :: rest)
      else None
  end.

(** [null] or a count. *)
Definition read_total (v : option json) : option (option Z) :=
  match v with Some JNull => Some None | _ => Some <$> finiteCount v end.
Definition read_unit (v : option json) : option bool :=
  match v with
  | Some (JStr s) => if String.eqb s "frames" then Some true else None
  | Some JNull => Some false
  | _ => None
  end.

Definition measurementOf (value : option json) : option StudioRenderMeasurement :=
  stored ← value;
  a ← finiteCount (json_get stored "attempt");
  st ← as_string (json_get stored "stage") ≫= member stage_value STAGES;
  p ← finiteCount (json_get stored "processed");
  tot ← read_total (json_get stored "total");
  u ← read_unit (json_get stored "unit");
  l ← time_number (json_get stored "lastProgressAt");
  items ← as_arr (json_get stored "samples");
  ss ← (if (length items <=? 8)%nat then read_samples None items else None);
  Some (mkMeasurement a st u p tot l ss).

Definition opt_count (n : option Z) : bool :=
  match n with Some z => is_safe_integer z && (0 <=? z) | None => true end.

(** [a !== null && b !== null && a !== b]. *)
Definition totals_differ (a b : option Z) : bool :=
  match a, b with Some x, Some y => negb (x =? y) | _, _ => false end.

Definition same_cursor (prior : option StudioRenderMeasurement) (report : StudioRenderReport) : bool :=
  match prior with
  | Some p => bool_decide (stage p = report_stage report) && Bool.eqb (unit_frames p) (report_frames report)
  | None => false
  end.

(** What a report that goes back on its attempt's measurement is refused for. *)
Definition goes_back (prior : StudioRenderMeasurement) (report : StudioRenderReport) (done_ : Z) (tot : option Z)
    (now : Z) : bool :=
  (stage_index (report_stage report) <? stage_index (stage prior)) ||
  num_lt (JInt now) (lastProgressAt prior) ||
  (same_cursor (Some prior) report &&
   ((done_ <? processed prior) || totals_differ tot (total prior))) ||
  (bool_decide (stage prior = report_stage report) && unit_frames prior && negb (report_frames report)).

Definition last_eight {A} (l : list A) : list A := drop (length l - 8) l.

Definition advanceStudioRenderProgress (previous : option json) (attempt_ : Z) (report : StudioRenderReport)
    (done_ : Z) (tot : option Z) (now : Z) : option StudioRenderMeasurement :=
  if negb (opt_count (Some done_)) ||
     match tot with Some n => negb (opt_count (Some n)) || (n <? done_) | None => false end then None
  else
    let stored := measurementOf previous in
    let prior := match stored with Some m => if attempt m =? attempt_ then Some m else None | None => None end in
    if match prior with Some p => goes_back p report done_ tot now | None => false end then None
    else
      let same := same_cursor prior report in
      let changed := match prior with Some p => negb same || (processed p <? done_) | None => true end in
      let kept := match prior with
                  | Some p => if same && bool_decide (total p = tot) then samples p else []
                  | None => []
                  end in
      let added := bool_decide (report_stage report = rendering) && report_frames report &&
                   match last kept with
                   | None => true
                   | Some s => (frames s <? done_) && num_lt (at_ s) (JInt now)
                   end in
      Some (mkMeasurement attempt_ (report_stage report) (report_frames report) done_ tot
              (if changed then JInt now else match prior with Some p => lastProgressAt p | None => JInt now end)
              (last_eight (kept ++ (if added then [mkSample (JInt now) done_] else [])))).

(** ** What Activity shows *)

Record Shown := mkShown {
  shown_stage : StudioRenderStage;
  shown_lastProgressAt : option string;
  framesPerSecond : option Q;
  remainingRenderSeconds : option Q
}.

Definition shown_stage_of (status : Status.MediaOperationStatus) (m : option StudioRenderMeasurement) : StudioRenderStage :=
  match status with
  | Status.Validating => finalising
  | Status.Preparing | Status.Queued => preparing
  | _ => match m with Some x => stage x | None => rendering end
  end.

(** Frames a second over the kept samples: at least three, at least two seconds apart. *)
Definition sampled_rate (l : list Sample) : option Q :=
  match head l, last l with
  | Some first, Some final =>
      let span := num_sub (at_ final) (at_ first) in
      if (3 <=? length l)%nat && num_le (JInt 2000) span && (frames first <? frames final)
      then Some (fl (inject_Z (frames final - frames first) / fl (num_q span / inject_Z 1000))) else None
  | _, _ => None
  end.

Definition studioRenderProgressOf (kind : Kind.MediaOperationKind) (status : Status.MediaOperationStatus)
    (attempt_ : Z) (result : option json) : option Shown :=
  if negb (bool_decide (kind = Kind.StudioExport)) then None
  else
    let stored := measurementOf (result ≫= fun r => json_get r "studioRenderProgress") in
    let m := match stored with Some x => if attempt x =? attempt_ then Some x else None | None => None end in
    let st := shown_stage_of status m in
    let rate := match m with
                | Some x => if bool_decide (status = Status.Rendering) && bool_decide (st = rendering)
                            then sampled_rate (samples x) else None
                | None => None
                end in
    Some (mkShown st ((fun x => to_iso (num_index (lastProgressAt x))) <$> m) rate
      (match rate, m with
       | Some v, Some x => if Qeq_bool v 0 then None else
                           (fun n => Qmax 0 (fl (inject_Z (n - processed x) / v))) <$> total x
       | _, _ => None
       end)).

(** The measurement as [JSON.stringify] stores it in the job's result. *)
Definition sample_json (s : Sample) : json := JObj [("at", JNum (at_ s)); ("frames", JNum (JInt (frames s)))]%string.
Definition measurement_json (m : StudioRenderMeasurement) : json :=
  JObj [("attempt", JNum (JInt (attempt m))); ("stage", JStr (stage_value (stage m)));
        ("unit", if unit_frames m then JStr "frames" else JNull); ("processed", JNum (JInt (processed m)));
        ("total", match total m with Some n => JNum (JInt n) | None => JNull end);
        ("lastProgressAt", JNum (lastProgressAt m)); ("samples", JArr (map sample_json (samples m)))]%string.

(** ** Lemmas *)

Definition count_ok (z : Z) : Prop := is_safe_integer z = true /\ 0 <= z.
Definition time_ok (n : jsnum) : Prop :=
  num_is_finite n = true /\ (- inject_Z 8640000000000000 <= num_q n)%Q /\ (num_q n <= inject_Z 8640000000000000)%Q.

(** Samples, each after the one before it. *)
Fixpoint increasing (before : option Sample) (l : list Sample) : Prop :=
  match l with
  | [] => True
  | s :: l' =>
      time_ok (at_ s) /\ count_ok (frames s) /\
      match before with Some b => num_lt (at_ b) (at_ s) = true /\ frames b < frames s | None => True end /\
      increasing (Some s) l'
  end.

Record valid (m : StudioRenderMeasurement) : Prop := mkValid {
  v_attempt : count_ok (attempt m);
  v_processed : count_ok (processed m);
  v_total : forall n, total m = Some n -> count_ok n;
  v_time : time_ok (lastProgressAt m);
  v_length : (length (samples m) <= 8)%nat;
  v_samples : increasing None (samples m)
}.

Lemma finiteCount_Some v z : finiteCount v = Some z <-> v = Some (JNum (JInt z)) /\ count_ok z.
Proof.
  unfold finiteCount, count_ok. split.
  - destruct v as [[| |[x| | |]| | |]|]; try done. destruct (is_safe_integer x) eqn:Hs, (Z.leb_spec 0 x); try done. by intros [= <-].
  - intros (-> & -> & H). destruct (Z.leb_spec 0 z); [done|lia].
Qed.

Lemma time_number_Some v n : time_number v = Some n <-> v = Some (JNum n) /\ time_ok n.
Proof.
  unfold time_number, time_ok. rewrite <- !Qle_bool_iff. split.
  - destruct v as [[| |x| | |]|]; try done. destruct (num_is_finite x) eqn:?, (Qle_bool (- inject_Z 8640000000000000) (num_q x)) eqn:?,
      (Qle_bool (num_q x) (inject_Z 8640000000000000)) eqn:?; try done. by intros [= <-].
  - intros (-> & -> & -> & ->). done.
Qed.

Lemma finiteCount_int z : count_ok z -> finiteCount (Some (JNum (JInt z))) = Some z.
Proof. intros. by apply finiteCount_Some. Qed.
Lemma time_number_ok n : time_ok n -> time_number (Some (JNum n)) = Some n.
Proof. intros. by apply time_number_Some. Qed.

Lemma read_samples_increasing before items l : read_samples before items = Some l ->
  increasing before l /\ length l = length items.
Proof.
  revert before l; induction items as [|v items IH]; intros before l; cbn [read_samples]; [by intros [= <-]|].
  destruct (time_number (json_get v "at")) as [t|] eqn:Et; [|done].
  destruct (finiteCount (json_get v "frames")) as [n|] eqn:En; [|done]. cbn [mbind option_bind].
  destruct (match before with Some b => _ | None => true end) eqn:Eb; [|done].
  destruct (read_samples (Some (mkSample t n)) items) as [rest|] eqn:Er; [|done]. intros [= <-].
  apply time_number_Some in Et as [_ Et]. apply finiteCount_Some in En as [_ En].
  destruct (IH _ _ Er) as [H1 H2]. split; [|by cbn [length]; rewrite H2]. cbn [increasing at_ frames].
  split; [done|]. split; [done|]. split; [|done]. destruct before as [b|]; [|done].
  apply andb_true_iff in Eb as [? ?%Z.ltb_lt]. done.
Qed.

Lemma read_samples_json before l : increasing before l -> read_samples before (map sample_json l) = Some l.
Proof.
  revert before; induction l as [|s l IH]; intros before; cbn [increasing map read_samples]; [done|].
  intros (Ht & Hn & Hb & Hl). destruct s as [t n]. cbn [at_ frames] in *.
  rewrite (proj2 (time_number_Some (json_get (sample_json (mkSample t n)) "at") t)) by done.
  rewrite (proj2 (finiteCount_Some (json_get (sample_json (mkSample t n)) "frames") n)) by done.
  cbn [mbind option_bind]. rewrite IH by done.
  destruct before as [b|]; [|done]. destruct Hb as [-> Hb]. by rewrite (proj2 (Z.ltb_lt _ _) Hb).
Qed.

Lemma stage_member s : member stage_value STAGES (stage_value s) = Some s.
Proof. by destruct s. Qed.

#[local] Arguments finiteCount : simpl never.
#[local] Arguments time_number : simpl never.
#[local] Arguments read_total : simpl never.
#[local] Arguments read_unit : simpl never.
#[local] Arguments read_samples : simpl never.
#[local] Arguments member : simpl never.

Lemma measurement_roundtrip m : valid m -> measurementOf (Some (measurement_json m)) = Some m.
Proof.
  intros [Ha Hp Ht Hl Hlen Hs]. destruct m as [a st u p tot l ss]. cbn [attempt stage unit_frames processed total lastProgressAt samples] in *.
  unfold measurementOf, measurement_json. cbn.
  rewrite (finiteCount_int a), stage_member by done. cbn.
  rewrite (finiteCount_int p) by done. cbn.
  assert (read_total (Some (match tot with Some n => JNum (JInt n) | None => JNull end)) = Some tot) as ->.
  { destruct tot as [n|]; [|done]. unfold read_total. by rewrite finiteCount_int by auto. }
  assert (read_unit (Some (if u then JStr "frames" else JNull)) = Some u) as -> by by destruct u.
  cbn. rewrite time_number_ok by done. cbn.
  rewrite length_map. destruct (Nat.leb_spec (length ss) 8); [|lia]. by rewrite read_samples_json.
Qed.

Lemma read_total_Some v n : read_total v = Some (Some n) -> finiteCount v = Some n.
Proof. unfold read_total. destruct v as [[]|]; try done; destruct (finiteCount _); by try intros [= ->]. Qed.

Lemma measurementOf_valid v m : measurementOf v = Some m -> valid m.
Proof.
  unfold measurementOf. destruct v as [v|]; [|done]. cbn [mbind option_bind].
  destruct (finiteCount (json_get v "attempt")) as [a|] eqn:Ea; [|done]. cbn [mbind option_bind].
  destruct (as_string (json_get v "stage")) as [s|]; [|done]. cbn [mbind option_bind].
  destruct (member stage_value STAGES s) as [st|]; [|done]. cbn [mbind option_bind].
  destruct (finiteCount (json_get v "processed")) as [p|] eqn:Ep; [|done]. cbn [mbind option_bind].
  destruct (read_total (json_get v "total")) as [tot|] eqn:Et; [|done]. cbn [mbind option_bind].
  destruct (read_unit (json_get v "unit")) as [u|]; [|done]. cbn [mbind option_bind].
  destruct (time_number (json_get v "lastProgressAt")) as [l|] eqn:El; [|done]. cbn [mbind option_bind].
  destruct (as_arr (json_get v "samples")) as [items|]; [|done]. cbn [mbind option_bind].
  destruct (Nat.leb_spec (length items) 8); [|done].
  destruct (read_samples None items) as [ss|] eqn:Es; [|done]. cbn [mbind option_bind]. intros [= <-].
  apply read_samples_increasing in Es as [Hs Hlen].
  split; cbn; try done.
  - by apply finiteCount_Some in Ea as [_ ?].
  - by apply finiteCount_Some in Ep as [_ ?].
  - intros n ->. apply read_total_Some in Et. by apply finiteCount_Some in Et as [_ ?].
  - by apply time_number_Some in El as [_ ?].
  - lia.
Qed.

Lemma increasing_weaken before l : increasing before l -> increasing None l.
Proof. destruct l; [done|]. cbn [increasing]. tauto. Qed.

Lemma increasing_drop n l : increasing None l -> increasing None (drop n l).
Proof.
  revert l; induction n as [|n IH]; intros [|s l] H; [done|done|done|]. cbn [drop]. apply IH.
  cbn [increasing] in H. destruct H as (_ & _ & _ & H). by eapply increasing_weaken.
Qed.

Lemma increasing_snoc before l s : increasing before l -> time_ok (at_ s) -> count_ok (frames s) ->
  match last l with
  | Some b => num_lt (at_ b) (at_ s) = true /\ frames b < frames s
  | None => match before with Some b => num_lt (at_ b) (at_ s) = true /\ frames b < frames s | None => True end
  end -> increasing before (l ++ [s]).
Proof.
  revert before; induction l as [|x l IH]; intros before; cbn [increasing app last]; [done|].
  intros (H1 & H2 & H3 & H4) Ht Hc Hl. do 3 (split; [done|]). apply IH; try done. destruct l as [|y l]; [exact Hl|].
  change (last (x :: y :: l)) with (last (y :: l)) in Hl. destruct (last (y :: l)) eqn:E; [exact Hl|].
  by apply last_None in E.
Qed.

Lemma last_eight_length {A} (l : list A) : (length (last_eight l) <= 8)%nat.
Proof. unfold last_eight. rewrite length_drop. lia. Qed.

(** The measurement a report continues: the stored one, when it is of the same attempt. *)
Definition continues (previous : option json) (attempt_ : Z) (p : StudioRenderMeasurement) : Prop :=
  measurementOf previous = Some p /\ attempt p = attempt_.

Lemma prior_spec previous attempt_ :
  let prior := match measurementOf previous with
               | Some m => if attempt m =? attempt_ then Some m else None | None => None end in
  forall p, prior = Some p <-> continues previous attempt_ p.
Proof.
  cbv zeta. intros p. unfold continues. destruct (measurementOf previous) as [m|]; [|split; [done|by intros []]].
  destruct (Z.eqb_spec (attempt m) attempt_); split; try done.
  - intros [= <-]. done.
  - by intros [[= ->] _].
  - by intros [[= ->] ?].
Qed.

Lemma advance_valid previous attempt_ report done_ tot now m :
  count_ok attempt_ -> time_ok (JInt now) ->
  advanceStudioRenderProgress previous attempt_ report done_ tot now = Some m -> valid m.
Proof.
  intros Ha Hn. unfold advanceStudioRenderProgress.
  pose proof (prior_spec previous attempt_) as Hp. cbv zeta in Hp. cbv zeta.
  set (prior := match measurementOf previous with Some m0 => _ | None => None end) in *.
  destruct (negb (opt_count (Some done_)) || _) eqn:Ec; [done|]. apply orb_false_iff in Ec as [Ec Et].
  apply negb_false_iff, andb_true_iff in Ec as [Ec1 Ec2%Z.leb_le].
  destruct (match prior with Some p => goes_back p report done_ tot now | None => false end); [done|]. intros [= <-].
  assert (forall p, prior = Some p -> valid p) as Hv by (intros p [H _]%Hp; by eapply measurementOf_valid).
  set (kept := match prior with Some p => _ | None => [] end).
  assert (increasing None kept) as Hk.
  { unfold kept. destruct prior as [p|]; [|done]. destruct (_ && _); [|done]. apply (Hv p eq_refl). }
  split; cbn [attempt processed total lastProgressAt samples]; try done.
  - intros n ->. apply orb_false_iff in Et as [Et _]. apply negb_false_iff, andb_true_iff in Et as [? ?%Z.leb_le]. done.
  - destruct prior as [p|]; [|done]. destruct (_ || _); [done|]. apply (Hv p eq_refl).
  - apply last_eight_length.
  - unfold last_eight. apply increasing_drop. destruct (_ && _) eqn:Ea; [|by rewrite app_nil_r].
    apply increasing_snoc; try done. apply andb_true_iff in Ea as [_ Ea]. destruct (last kept) as [s|]; [|done].
    apply andb_true_iff in Ea as [?%Z.ltb_lt ?]. done.
Qed.

(** The measured progress of a render never goes back.  Whatever the job's result holds, a report
    that is accepted leaves a measurement that the next report reads back exactly, with at most eight
    samples, each later and further than the one before.  Within one attempt the stage never goes
    back; while the stage and the unit stay the same the work done never shrinks; the time of the last
    progress never goes back and moves only when the report is of new work, so a repeated report does
    not keep a stalled render looking alive.  A report after a retry starts afresh. *)
Theorem render_measurement_sound (previous : option json) (attempt_ : Z) (report : StudioRenderReport)
    (done_ : Z) (tot : option Z) (now : Z) (m : StudioRenderMeasurement)
    (Ha : count_ok attempt_) (Hn : Z.abs now <= 8640000000000000)
    (Hm : advanceStudioRenderProgress previous attempt_ report done_ tot now = Some m) :
  measurementOf (Some (measurement_json m)) = Some m /\ (length (samples m) <= 8)%nat /\ increasing None (samples m) /\
  attempt m = attempt_ /\ stage m = report_stage report /\ processed m = done_ /\ total m = tot /\
  (forall p, continues previous attempt_ p ->
     stage_index (stage p) <= stage_index (stage m) /\
     num_le (lastProgressAt p) (lastProgressAt m) = true /\
     (stage m = stage p -> unit_frames m = unit_frames p ->
        processed p <= processed m /\ (processed m = processed p -> lastProgressAt m = lastProgressAt p))) /\
  ((forall p, ~ continues previous attempt_ p) -> lastProgressAt m = JInt now).
Proof.
  assert (time_ok (JInt now)) as Ht.
  { split; [done|]. unfold Qle. cbn. lia. }
  pose proof (advance_valid _ _ _ _ _ _ _ Ha Ht Hm) as Hv. split; [by apply measurement_roundtrip|].
  split; [apply Hv|]. split; [apply Hv|].
  unfold advanceStudioRenderProgress in Hm. pose proof (prior_spec previous attempt_) as Hp. cbv zeta in Hp, Hm.
  set (prior := match measurementOf previous with Some m0 => _ | None => None end) in *.
  destruct (_ || _) eqn:Ec in Hm; [done|]. clear Ec.
  destruct (match prior with Some p => _ | None => false end) eqn:Eb in Hm; [done|]. injection Hm as <-.
  cbn [attempt stage processed total unit_frames lastProgressAt]. do 4 (split; [done|]). split.
  - intros p Hc. apply Hp in Hc. rewrite Hc in *. unfold goes_back in Eb. rewrite !orb_false_iff in Eb.
    destruct Eb as (((E1%Z.ltb_ge & E2%negb_false_iff) & E3) & E4). split; [lia|]. split.
    { destruct (negb (same_cursor (Some p) report) || (processed p <? done_)); [exact E2|]. unfold num_le. apply Qle_bool_iff, Qle_refl. }
    intros Hs Hu. unfold same_cursor in *. rewrite bool_decide_true in E3 by done.
    rewrite bool_decide_true by done. rewrite Hu, Bool.eqb_reflx in *. cbn [andb] in E3.
    apply orb_false_iff in E3 as [E3%Z.ltb_ge _]. split; [done|]. intros ->.
    rewrite Z.ltb_irrefl. done.
  - intros Hno. destruct prior as [p|] eqn:E; [|done]. exfalso. by apply (Hno p), Hp.
Qed.

Definition sample_report : StudioRenderReport := mkReport rendering true.
Definition sample_measurement : StudioRenderMeasurement :=
  mkMeasurement 1 rendering true 10 (Some 100) (JInt 1000) [mkSample (JInt 1000) 10].

Lemma render_measurement_sound_witness :
  let m := mkMeasurement 1 rendering true 30 (Some 100) (JInt 3000) [mkSample (JInt 1000) 10; mkSample (JInt 3000) 30] in
  continues (Some (measurement_json sample_measurement)) 1 sample_measurement /\
  measurementOf (Some (measurement_json m)) = Some m.
Proof.
  split; [by split|].
  apply (render_measurement_sound (Some (measurement_json sample_measurement)) 1 sample_report 30 (Some 100) 3000).
  - by split.
  - done.
  - vm_compute. reflexivity.
Defined.
