(* ===== verification/MimeTypes.v ===== *)
(** * File types by extension ([server/src/utils/mime-types.ts], [server/src/utils/file.ts])

    The extension tables and the predicates every import, duplicate and render path asks.  A table is
    an association list in the order of the object literal; [extname] is Node's POSIX [path.extname]. *)

From S2P Require Import Prelude JsNumber JsString Enums.

Module mimeTypes.

Definition MimeTable := list (string * list string).

(** ** Extensions *)

Definition is_slash (c : ascii) : bool := Ascii.eqb c "/".
Definition is_dot (c : ascii) : bool := Ascii.eqb c ".".

Fixpoint string_rev_app (s acc : string) : string :=
  match s with EmptyString => acc | String c s' => string_rev_app s' (String c acc) end.
Definition string_rev (s : string) : string := string_rev_app s "".

(** The last path component, ignoring trailing slashes. *)
Definition base_of (path : string) : string :=
  let backwards := snd (span is_slash (string_rev path)) in
  string_rev (fst (span (fun c => negb (is_slash c)) backwards)).

(** From the last dot of the last component: empty without a dot, when the dot starts the name, and
    for [..]. *)
Definition extname (path : string) : string :=
  let base := base_of path in
  let '(tail, rest) := span (fun c => negb (is_dot c)) (string_rev base) in
  match rest with
  | String _ (String _ _ as before) =>
      if String.eqb base ".." then "" else String "." (string_rev tail)
  | _ => ""
  end.

Definition string_has (p : ascii -> bool) (s : string) : bool := negb (string_all (fun c => negb (p c)) s).

Definition getFilenameExtension (path : string) : string :=
  let extension := extname path in
  if String.eqb extension "" && starts_with "." path && negb (string_has is_dot (string_drop 1 path))
  then path else extension.

(** ** Tables *)

Definition raw : MimeTable :=
  [(".3fr", ["image/3fr"; "image/x-hasselblad-3fr"]);
   (".ari", ["image/ari"; "image/x-arriflex-ari"]);
   (".arw", ["image/arw"; "image/x-sony-arw"]);
   (".cap", ["image/cap"; "image/x-phaseone-cap"]);
   (".cin", ["image/cin"; "image/x-phantom-cin"]);
   (".cr2", ["image/cr2"; "image/x-canon-cr2"]);
   (".cr3", ["image/cr3"; "image/x-canon-cr3"]);
   (".crw", ["image/crw"; "image/x-canon-crw"]);
   (".dcr", ["image/dcr"; "image/x-kodak-dcr"]);
   (".dng", ["image/dng"; "image/x-adobe-dng"]);
   (".erf", ["image/erf"; "image/x-epson-erf"]);
   (".fff", ["image/fff"; "image/x-hasselblad-fff"]);
   (".iiq", ["image/iiq"; "image/x-phaseone-iiq"]);
   (".k25", ["image/k25"; "image/x-kodak-k25"]);
   (".kdc", ["image/kdc"; "image/x-kodak-kdc"]);
   (".mrw", ["image/mrw"; "image/x-minolta-mrw"]);
   (".nef", ["image/nef"; "image/x-nikon-nef"]);
   (".nrw", ["image/nrw"; "image/x-nikon-nrw"]);
   (".orf", ["image/orf"; "image/x-olympus-orf"]);
   (".ori", ["image/ori"; "image/x-olympus-ori"]);
   (".pef", ["image/pef"; "image/x-pentax-pef"]);
   (".psd", ["image/psd"; "image/vnd.adobe.photoshop"]);
   (".raf", ["image/raf"; "image/x-fuji-raf"]);
   (".raw", ["image/raw"; "image/x-panasonic-raw"]);
   (".rw2", ["image/rw2"; "image/x-panasonic-rw2"]);
   (".rwl", ["image/rwl"; "image/x-leica-rwl"]);
   (".sr2", ["image/sr2"; "image/x-sony-sr2"]);
   (".srf", ["image/srf"; "image/x-sony-srf"]);
   (".srw", ["image/srw"; "image/x-samsung-srw"]);
   (".x3f", ["image/x3f"; "image/x-sigma-x3f"])]%string.

Definition webSupportedImage : MimeTable :=
  [(".avif", ["image/avif"]);
   (".bmp", ["image/bmp"]);
   (".gif", ["image/gif"]);
   (".jpeg", ["image/jpeg"]);
   (".jpg", ["image/jpeg"]);
   (".png", ["image/png"; "image/apng"]);
   (".webp", ["image/webp"])]%string.

Definition webUnsupportedImage : MimeTable :=
  raw ++
  [(".heic", ["image/heic"]);
   (".heif", ["image/heif"]);
   (".hif", ["image/hif"]);
   (".insp", ["image/jpeg"]);
   (".jp2", ["image/jp2"]);
   (".jpe", ["image/jpeg"]);
   (".jxl", ["image/jxl"]);
   (".mpo", ["image/jpeg"]);
   (".svg", ["image/svg"]);
   (".tif", ["image/tiff"]);
   (".tiff", ["image/tiff"])]%string.

Definition image : MimeTable := webSupportedImage ++ webUnsupportedImage.

Definition possiblyAnimatedImageExtensions : list string :=
  [".avif"; ".gif"; ".heic"; ".heif"; ".jxl"; ".png"; ".webp"]%string.
Definition heifImageExtensions : list string :=
  [".avif"; ".heic"; ".heif"; ".hif"]%string.
Definition transparentCapableExtensions : list string :=
  [".avif"; ".bmp"; ".gif"; ".heic"; ".heif"; ".hif"; ".jxl"; ".png"; ".svg"; ".tif"; ".tiff";
   ".webp"]%string.
Definition heicExtensions : list string :=
  [".heic"; ".heif"; ".hif"]%string.
Definition profileExtensions : list string :=
  [".avif"; ".dng"; ".heic"; ".heif"; ".jpeg"; ".jpg"; ".png"; ".webp"; ".svg"]%string.
Definition profile : MimeTable := List.filter (fun kv => includes (fst kv) profileExtensions) image.

Definition video : MimeTable :=
  [(".3gp", ["video/3gpp"]);
   (".3gpp", ["video/3gpp"]);
   (".avi", ["video/avi"; "video/msvideo"; "video/vnd.avi"; "video/x-msvideo"]);
   (".flv", ["video/x-flv"]);
   (".insv", ["video/mp4"]);
   (".m2t", ["video/mp2t"]);
   (".m2ts", ["video/mp2t"]);
   (".m4v", ["video/x-m4v"]);
   (".mkv", ["video/x-matroska"]);
   (".mov", ["video/quicktime"]);
   (".mp4", ["video/mp4"]);
   (".mpe", ["video/mpeg"]);
   (".mpeg", ["video/mpeg"]);
   (".mpg", ["video/mpeg"]);
   (".mts", ["video/mp2t"]);
   (".mxf", ["application/mxf"]);
   (".ts", ["video/mp2t"]);
   (".vob", ["video/mpeg"]);
   (".webm", ["video/webm"]);
   (".wmv", ["video/x-ms-wmv"])]%string.

Definition sidecar : MimeTable :=
  [(".xmp", ["application/xml"; "text/xml"])]%string.

(** [{ ...image, ...video, ...sidecar }]: no key occurs twice ([types_keys_distinct]). *)
Definition types : MimeTable := image ++ video ++ sidecar.

Definition table_get (t : MimeTable) (k : string) : option (list string) :=
  option_map snd (List.find (fun kv => String.eqb (fst kv) k) t).
Definition table_has (t : MimeTable) (k : string) : bool :=
  match table_get t k with Some _ => true | None => false end.

(** ** Predicates *)

Definition extension_of (filename : string) : string := to_lower (getFilenameExtension filename).

Definition isType (filename : string) (r : MimeTable) : bool := table_has r (extension_of filename).

Definition lookup (filename : string) : string :=
  match table_get types (extension_of filename) with
  | Some (first :: _) => first
  | _ => "application/octet-stream"
  end.

Definition isAsset (filename : string) : bool :=
  let extension := extension_of filename in table_has image extension || table_has video extension.
Definition isImage (filename : string) : bool := isType filename image.
Definition isWebSupportedImage (filename : string) : bool := isType filename webSupportedImage.
Definition isHeifImage (filename : string) : bool := includes (extension_of filename) heifImageExtensions.
Definition isPossiblyAnimatedImage (filename : string) : bool :=
  includes (extension_of filename) possiblyAnimatedImageExtensions.
Definition isProfile (filename : string) : bool := isType filename profile.
Definition isSidecar (filename : string) : bool := isType filename sidecar.
Definition isVideo (filename : string) : bool := isType filename video.
Definition canBeTransparent (filename : string) : bool := includes (extension_of filename) transparentCapableExtensions.
Definition isRaw (filename : string) : bool := isType filename raw.
Definition isHeic (filename : string) : bool := includes (extension_of filename) heicExtensions.

Inductive AssetType := Image | Video | Audio | Other.
#[export] Instance AssetType_eq_dec : EqDecision AssetType.
Proof. solve_decision. Defined.

Definition assetType (filename : string) : AssetType :=
  let contentType := lookup filename in
  if starts_with "image/" contentType then Image
  else if String.eqb contentType "application/mxf" || starts_with "video/" contentType then Video
  else Other.

Definition getSupportedFileExtensions : list string := map fst image ++ map fst video.

(** ** Lemmas *)

Lemma types_keys_distinct : NoDup (map fst types).
Proof. apply (bool_decide_unpack _). vm_compute. exact I. Qed.

Lemma table_has_elem t k : table_has t k = true <-> k ∈ map fst t.
Proof.
  unfold table_has, table_get. induction t as [|[k' v] t IH]; simpl.
  - split; [done|]. by intros ?%elem_of_nil.
  - destruct (String.eqb_spec k' k) as [->|Hne]; simpl; rewrite elem_of_cons; [tauto|].
    rewrite IH. split; [tauto|]. intros [->|]; [done|done].
Qed.

(** Every accepted file is an image or a video by its reported type, and nothing else is one. *)
Definition agrees (kv : string * list string) : bool :=
  let k := fst kv in
  let t := match table_get types k with Some (first :: _) => first | _ => "application/octet-stream"%string end in
  bool_decide (table_has image k = starts_with "image/" t) &&
  bool_decide (table_has video k = (String.eqb t "application/mxf" || starts_with "video/" t)) &&
  (if table_has raw k then table_has image k && negb (includes k heicExtensions) else true) &&
  (if includes k heicExtensions then table_has image k else true).
Lemma types_agree : forallb agrees types = true.
Proof. vm_compute. reflexivity. Qed.

Lemma table_get_In t k v : table_get t k = Some v -> In (k, v) t.
Proof.
  unfold table_get. destruct (List.find _ t) as [[k' w]|] eqn:H; simpl; [|done]. intros [= <-].
  apply List.find_some in H as [Hin E]. apply String.eqb_eq in E. simpl in E. by subst.
Qed.

Lemma table_get_None t k : table_get t k = None -> table_has t k = false.
Proof. unfold table_has. by intros ->. Qed.

Lemma table_has_app t u k : table_has (t ++ u) k = table_has t k || table_has u k.
Proof.
  unfold table_has, table_get. induction t as [|[k' v] t IH]; simpl; [done|].
  by destruct (String.eqb k' k).
Qed.

Lemma assetType_agrees filename :
  (assetType filename = Image <-> isImage filename = true) /\
  (assetType filename = Video <-> isVideo filename = true) /\
  isAsset filename = isImage filename || isVideo filename.
Proof.
  unfold assetType, lookup, isImage, isVideo, isType, isAsset. set (k := extension_of filename).
  destruct (table_get types k) as [v|] eqn:Hk.
  - pose proof (proj1 (forallb_forall _ _) types_agree _ (table_get_In _ _ _ Hk)) as Ha.
    unfold agrees in Ha. cbn [fst] in Ha. rewrite Hk in Ha.
    set (t := match v with first :: _ => first | [] => "application/octet-stream"%string end).
    replace (match Some v with Some (first :: _) => first | _ => "application/octet-stream"%string end) with t
      in Ha by (by destruct v).
    replace (match v with [] => "application/octet-stream"%string | first :: _ => first end) with t by (by destruct v).
    to_prop. replace (table_has image k) with (starts_with "image/" t) by congruence.
    replace (table_has video k) with (String.eqb t "application/mxf" || starts_with "video/" t) by congruence.
    destruct (starts_with "image/" t) eqn:Hi.
    + split; [done|]. split; [|done]. split; [done|]. intros [E|E]%orb_true_iff.
      * apply String.eqb_eq in E. rewrite E in Hi. discriminate Hi.
      * apply starts_with_spec in E as [u E]. rewrite E in Hi. discriminate Hi.
    + destruct (_ || _); repeat split; done.
  - apply table_get_None in Hk. unfold types in Hk. rewrite !table_has_app in Hk. to_prop.
    rewrite H, H0. repeat split; done.
Qed.

End mimeTypes.
#[export] Existing Instance mimeTypes.AssetType_eq_dec.
