(* ===== verification/MediaOperation.v ===== *)
(** * Durable media operations ([server/src/utils/media-operation.ts])

    The state machine of a durable job, the controls a person has over it, chunk reuse and the
    resume point of a render, and progress. *)

From Stdlib Require Import QArith Qminmax.
From stdpp Require Import relations.
From S2P Require Import Prelude JsNumber JsString Enums.
Import Status Kind Checkpoint.
Local Open Scope Z_scope.

(** ** The state machine *)

Definition ACTIVE_MEDIA_OPERATION_STATUSES : list MediaOperationStatus :=
  [Queued; Preparing; Rendering; Validating; Cancelling; Paused].
Definition CLAIMED_MEDIA_OPERATION_STATUSES : list MediaOperationStatus :=
  [Preparing; Rendering; Validating; Cancelling].
Definition TERMINAL_MEDIA_OPERATION_STATUSES : list MediaOperationStatus := [Completed; Cancelled; Failed].

Definition MEDIA_OPERATION_TRANSITIONS (from : MediaOperationStatus) : list MediaOperationStatus :=
  match from with
  | Queued => [Preparing; Cancelling; Cancelled; Failed; Paused]
  | Preparing => [Rendering; Queued; Cancelling; Failed; Paused]
  | Rendering => [Validating; Queued; Cancelling; Failed; Paused]
  | Validating => [Completed; Queued; Cancelling; Failed; Paused]
  | Cancelling => [Cancelled; Failed]
  | Paused => [Queued; Cancelled]
  | Completed => []
  | Cancelled => []
  | Failed => []
  end.

Definition isActiveMediaOperation (status : MediaOperationStatus) : bool :=
  includes status ACTIVE_MEDIA_OPERATION_STATUSES.
Definition isTerminalMediaOperation (status : MediaOperationStatus) : bool :=
  includes status TERMINAL_MEDIA_OPERATION_STATUSES.
Definition canTransitionMediaOperation (from to : MediaOperationStatus) : bool :=
  includes to (MEDIA_OPERATION_TRANSITIONS from).

Definition MEDIA_OPERATION_AUTO_RETRIES : Z := 1.
Definition MEDIA_OPERATION_AUTO_RETRY_DELAY_MS : Z := 30000.

(** ** Kinds *)

Definition PAUSABLE_MEDIA_OPERATION_KINDS : list MediaOperationKind :=
  [Bulk; StudioExport; Restoration; EnrichmentPlan; MediaHealth; ICloudSync; TakeoutImport; LibraryScan;
   PreservationExport; PreservationVerify; PreservationReview; PreservationRestore; CloudBackup;
   CloudRestore; BuddyBackup; BuddyRestore; CloudMlJob].
Definition isPausableMediaOperationKind (kind : MediaOperationKind) : bool :=
  includes kind PAUSABLE_MEDIA_OPERATION_KINDS.

Definition SAFE_MEDIA_OPERATION_REPLAY_KINDS : list MediaOperationKind :=
  [SpeechTranscription; StudioExportPublish; QuickEdit; StudioPreview; StudioExport; StudioReverseConform;
   StudioBundleExport; MediaHealth; PreservationExport; PreservationVerify].

Definition RENDER_WORKER_MEDIA_OPERATION_KINDS : list MediaOperationKind :=
  [StudioExport; StudioPreview; StudioPreviewStream; Restoration; RestorationPreview; QuickEdit].
Definition isRenderWorkerMediaOperationKind (kind : MediaOperationKind) : bool :=
  includes kind RENDER_WORKER_MEDIA_OPERATION_KINDS.

(** ** Controls *)

(** The fields of an operation row the controls read; the request stamps are [unknown] values. *)
Record Operation := mkOperation {
  kind : MediaOperationKind;
  status : MediaOperationStatus;
  cancelRequestedAt : option json;
  pauseRequestedAt : option json
}.

Definition PAUSABLE_MEDIA_OPERATION_STATUSES : list MediaOperationStatus := [Queued; Preparing; Rendering].

Definition canPauseMediaOperation (operation : Operation) : bool :=
  isPausableMediaOperationKind (kind operation) &&
  includes (status operation) PAUSABLE_MEDIA_OPERATION_STATUSES &&
  negb (truthy (cancelRequestedAt operation)).

Definition PAUSE_PENDING_STATUSES : list MediaOperationStatus := [Queued; Preparing; Rendering; Validating].

Definition canResumeMediaOperation (operation : Operation) : bool :=
  bool_decide (status operation = Paused) ||
  (truthy (pauseRequestedAt operation) && includes (status operation) PAUSE_PENDING_STATUSES).

Definition canRetryMediaOperation (status : MediaOperationStatus) : bool :=
  bool_decide (status = Failed) || bool_decide (status = Cancelled).

Definition canDismissMediaOperation (status : MediaOperationStatus) : bool := isTerminalMediaOperation status.

(** ** Chunk reuse *)

Record ChunkIdentity := mkIdentity {
  inputDigest : string;
  historyDigest : string;
  configDigest : string;
  seed : option string;
  timebase : string;
  startTicks : Z;
  endTicks : Z
}.

Record StoredChunk := mkStored {
  storedIdentity : ChunkIdentity;
  storedSequence : Z;
  state : MediaOperationCheckpointState;
  storedChunkKey : string;
  storedSequential : bool;
  outputPath : option string
}.

Record ChunkPlan := mkPlan {
  planIdentity : ChunkIdentity;
  sequence : Z;
  chunkKey : string;
  requiresSequentialContext : bool
}.

Inductive ChunkReuseRejection :=
| not_found | not_complete | no_output | chunk_key_mismatch | input_mismatch | history_mismatch
| config_mismatch | seed_mismatch | timebase_mismatch | range_mismatch.

Inductive ChunkReuseDecision :=
| Reusable
| NotReusable (reason : ChunkReuseRejection).

Definition canReuseChunk (stored : option StoredChunk) (planned : ChunkPlan) : ChunkReuseDecision :=
  match stored with
  | None => NotReusable not_found
  | Some stored =>
      let s := storedIdentity stored in
      let p := planIdentity planned in
      if negb (bool_decide (state stored = Complete)) then NotReusable not_complete
      else if negb (str_truthy (outputPath stored)) then NotReusable no_output
      else if negb (bool_decide (storedChunkKey stored = chunkKey planned)) then NotReusable chunk_key_mismatch
      else if negb (bool_decide (inputDigest s = inputDigest p)) then NotReusable input_mismatch
      else if negb (bool_decide (historyDigest s = historyDigest p)) then NotReusable history_mismatch
      else if negb (bool_decide (configDigest s = configDigest p)) then NotReusable config_mismatch
      else if negb (bool_decide (seed s = seed p)) then NotReusable seed_mismatch
      else if negb (bool_decide (timebase s = timebase p)) then NotReusable timebase_mismatch
      else if negb (startTicks s =? startTicks p) || negb (endTicks s =? endTicks p) then NotReusable range_mismatch
      else Reusable
  end.

Definition reusable_decision (d : ChunkReuseDecision) : bool :=
  match d with Reusable => true | NotReusable _ => false end.

Record ResumePlan := mkResume {
  reusable : list ChunkPlan;
  resumeFrom : Z;
  rerendered : list ChunkPlan
}.

(** [new Map(stored.map((chunk) => [chunk.sequence, chunk]))]: a later chunk replaces an earlier one
    with its number. *)
Definition by_sequence (stored : list StoredChunk) : gmap Z StoredChunk :=
  foldl (fun m chunk => <[storedSequence chunk := chunk]> m) ∅ stored.

Definition by_plan_sequence (a b : ChunkPlan) : Z := sequence a - sequence b.

(** The first [while]: the length of the run of reusable chunks. *)
Fixpoint reuse_boundary (byFrame : gmap Z StoredChunk) (ordered : list ChunkPlan) : nat :=
  match ordered with
  | [] => 0
  | chunk :: rest =>
      if reusable_decision (canReuseChunk (byFrame !! sequence chunk) chunk)
      then S (reuse_boundary byFrame rest) else 0
  end%nat.

(** The second [while]: back over the chunks a render may not start in the middle of. *)
Fixpoint walk_back (ordered : list ChunkPlan) (safe : nat) : nat :=
  match safe with
  | O => O
  | S before =>
      match ordered !! before with
      | Some chunk => if requiresSequentialContext chunk then walk_back ordered before else safe
      | None => safe
      end
  end.

Definition planChunkResume (stored : list StoredChunk) (planned : list ChunkPlan) : ResumePlan :=
  let byFrame := by_sequence stored in
  let ordered := sort_by by_plan_sequence planned in
  let boundary := reuse_boundary byFrame ordered in
  let safe := walk_back ordered boundary in
  {| reusable := slice 0 safe ordered;
     resumeFrom := match ordered !! safe with Some chunk => sequence chunk | None => Z.of_nat (length ordered) end;
     rerendered := slice safe boundary ordered |}.

(** ** Progress *)

(** Both counts are finite numbers; [!totalUnits] is [null] or [0]. *)
Definition mediaOperationProgress (processedUnits : Q) (totalUnits : option Q) : option Q :=
  match totalUnits with
  | None => None
  | Some total =>
      if Qle_bool total 0 then None
      else
        let percent := fl (fl (processedUnits / total) * inject_Z 100) in
        Some (Qmin (inject_Z 100) (Qmax 0 (fl (math_round (fl (percent * inject_Z 100)) # 100))))
  end.

(** ** Lemmas *)

Definition can_step (from to : MediaOperationStatus) : Prop := canTransitionMediaOperation from to = true.

#[export] Instance can_step_dec from to : Decision (can_step from to).
Proof. unfold can_step. apply _. Defined.

(** A history: every status is followed by one the state machine allows after it. *)
Fixpoint linked (history : list MediaOperationStatus) : Prop :=
  match history with
  | a :: ((b :: _) as rest) => can_step a b /\ linked rest
  | _ => True
  end.

Lemma linked_app_l h k : linked (h ++ k) -> linked h.
Proof.
  induction h as [|a [|b h] IH]; simpl in *; [done|done|]. intros [? ?]. split; [done|]. by apply IH.
Qed.

Lemma linked_last h a b : linked (h ++ [a; b]) -> can_step a b.
Proof.
  induction h as [|x [|y h] IH]; simpl in *; [tauto|tauto|]. intros [_ ?]. by apply IH.
Qed.

(** The status before the last one, in a history that starts elsewhere. *)
Lemma linked_before h s :
  linked (h ++ [s]) -> head (h ++ [s]) = Some Queued -> s <> Queued ->
  exists h' p, h = h' ++ [p] /\ can_step p s /\ linked (h' ++ [p]) /\ head (h' ++ [p]) = Some Queued.
Proof.
  intros Hl Hh Hs. destruct h as [|p h' _] using rev_ind; [simpl in Hh; congruence|].
  exists h', p. split; [done|]. rewrite <- app_assoc in Hl; simpl in Hl. split; [by eapply linked_last|].
  split.
  - apply linked_app_l with (k := [s]). by rewrite <- app_assoc.
  - destruct h'; done.
Qed.

Lemma only_from_stage from :
  (can_step from Completed -> from = Validating) /\ (can_step from Validating -> from = Rendering) /\
  (can_step from Rendering -> from = Preparing) /\ (can_step from Preparing -> from = Queued).
Proof. destruct from; vm_compute; repeat split; discriminate || reflexivity. Qed.

Lemma rtc_cancelling s t : s = Cancelling \/ s = Cancelled \/ s = Failed -> rtc can_step s t ->
  t = Cancelling \/ t = Cancelled \/ t = Failed.
Proof.
  intros Hs H. induction H as [|x y z Hxy _ IH]; [done|]. apply IH.
  destruct Hs as [ -> | [ -> | -> ]]; destruct y; vm_compute in Hxy; try discriminate; tauto.
Qed.

(** The controls agree with the state machine: what a person is offered, the job can do. *)
Lemma controls_legal op :
  (canPauseMediaOperation op = true ->
     isActiveMediaOperation (status op) = true /\ can_step (status op) Paused /\
     canRetryMediaOperation (status op) = false /\ canDismissMediaOperation (status op) = false) /\
  (canResumeMediaOperation op = true -> isActiveMediaOperation (status op) = true /\
     (status op = Paused -> can_step (status op) Queued)) /\
  (canRetryMediaOperation (status op) = true -> canDismissMediaOperation (status op) = true) /\
  (canDismissMediaOperation (status op) = true -> canResumeMediaOperation op = false).
Proof.
  destruct op as [k s c p]. unfold canPauseMediaOperation, canResumeMediaOperation; simpl.
  destruct (truthy p), (truthy c), (isPausableMediaOperationKind k), s;
    vm_compute; repeat split; intros; congruence.
Qed.

#[export] Instance by_plan_sequence_comparator : Comparator by_plan_sequence.
Proof. split; intros; unfold by_plan_sequence in *; lia. Qed.

(** The identity two chunks share when one may stand for the other. *)
Definition same_work (stored : StoredChunk) (planned : ChunkPlan) : Prop :=
  state stored = Complete /\ (exists path, outputPath stored = Some path /\ path <> "") /\
  storedChunkKey stored = chunkKey planned /\ storedIdentity stored = planIdentity planned.

Lemma canReuseChunk_Reusable stored planned :
  canReuseChunk stored planned = Reusable <-> exists s, stored = Some s /\ same_work s planned.
Proof.
  unfold same_work. split.
  - destruct stored as [s|]; simpl; [|done]. intros H. exists s. split; [done|].
    repeat match type of H with (if ?b then _ else _) = _ => destruct b eqn:?; [discriminate|] end.
    to_prop. split; [done|]. split.
    + destruct (outputPath s) as [p|]; simpl in *; [|done]. exists p. split; [done|]. by to_prop.
    + split; [done|]. destruct (storedIdentity s), (planIdentity planned); simpl in *; by subst.
  - intros (s & -> & Hc & (p & Hp & Hne) & Hk & Hi). simpl. rewrite Hc, Hp, Hk, Hi. simpl.
    rewrite !bool_decide_eq_true_2 by done. rewrite !Z.eqb_refl.
    rewrite (proj2 (String.eqb_neq _ _) Hne). done.
Qed.

Lemma reusable_decision_true d : reusable_decision d = true <-> d = Reusable.
Proof. by destruct d. Qed.

Lemma reuse_boundary_le m l : (reuse_boundary m l <= length l)%nat.
Proof. induction l as [|c l IH]; simpl; [done|]. case_match; simpl; lia. Qed.

Lemma reuse_boundary_prefix m l :
  Forall (fun c => canReuseChunk (m !! sequence c) c = Reusable) (take (reuse_boundary m l) l).
Proof.
  induction l as [|c l IH]; simpl; [constructor|]. destruct (reusable_decision _) eqn:H; simpl; [|constructor].
  constructor; [by apply reusable_decision_true|done].
Qed.

Lemma reuse_boundary_stops m l c :
  l !! reuse_boundary m l = Some c -> canReuseChunk (m !! sequence c) c <> Reusable.
Proof.
  induction l as [|d l IH]; simpl; [done|]. destruct (reusable_decision _) eqn:H; simpl; [done|].
  intros [= <-] E. apply reusable_decision_true in E. congruence.
Qed.

Lemma walk_back_le l n : (walk_back l n <= n)%nat.
Proof. induction n as [|n IH]; simpl; [done|]. repeat case_match; lia. Qed.

(** What is walked over needs its predecessor; the stopping point does not. *)
Lemma walk_back_run l n i c :
  (walk_back l n <= i < n)%nat -> l !! i = Some c -> requiresSequentialContext c = true.
Proof.
  induction n as [|n IH]; simpl; [lia|]. intros Hi Hc.
  destruct (decide (i = n)) as [->|Hne].
  - rewrite Hc in Hi. destruct (requiresSequentialContext c); [done|lia].
  - apply IH; [|done]. destruct (l !! n) as [d|]; [|lia].
    destruct (requiresSequentialContext d); lia.
Qed.

Lemma walk_back_start l n k c :
  walk_back l n = S k -> l !! k = Some c -> requiresSequentialContext c = false.
Proof.
  induction n as [|n IH]; simpl; [done|]. destruct (l !! n) as [d|] eqn:Hd.
  - destruct (requiresSequentialContext d) eqn:Hr; [done|]. intros [= ->] Hc. congruence.
  - intros [= ->] Hc. congruence.
Qed.

(** ** Properties *)

(** The life of a job.  Every status is active or terminal, never both; terminal statuses have no
    way out and every active job can be brought to [cancelled]; a claimed job is active; once
    cancelling a job ends [cancelled] or [failed]; every history of a queued job that completes ends
    by running every stage in order; and [cancelling] is entered in one step from the queued and the
    working statuses only (a paused job is cancelled outright). *)
Theorem media_operation_lifecycle :
  (forall s, isActiveMediaOperation s = negb (isTerminalMediaOperation s)) /\
  (forall s, isTerminalMediaOperation s = true <-> forall t, ~ can_step s t) /\
  (forall s, isActiveMediaOperation s = true -> rtc can_step s Cancelled) /\
  (forall s, s ∈ CLAIMED_MEDIA_OPERATION_STATUSES -> isActiveMediaOperation s = true) /\
  (forall t, rtc can_step Cancelling t -> t = Cancelling \/ t = Cancelled \/ t = Failed) /\
  (forall history, linked (history ++ [Completed]) -> head (history ++ [Completed]) = Some Queued ->
     exists earlier, history = earlier ++ [Queued; Preparing; Rendering; Validating]) /\
  (forall s, can_step s Cancelling <-> s ∈ [Queued; Preparing; Rendering; Validating]).
Proof.
  split; [by intros []|]. split.
  { intros s. split.
    - destruct s; vm_compute; intros H t; try discriminate H; destruct t; discriminate.
    - intros H. destruct s; try reflexivity; exfalso.
      all: try (apply (H Failed); reflexivity).
      apply (H Cancelled). reflexivity. }
  split.
  { assert (can_step Cancelling Cancelled) as Hc by done.
    intros s Hs. destruct s; try discriminate Hs.
    all: try (apply rtc_once; reflexivity).
    all: apply rtc_l with Cancelling; [reflexivity|by apply rtc_once]. }
  split; [intros s Hs; destruct s; try reflexivity; vm_compute in Hs; set_solver|].
  split; [intros t; apply rtc_cancelling; by left|]. split.
  - intros history Hl Hh.
    destruct (linked_before _ _ Hl Hh) as (h1 & p1 & -> & H1 & Hl1 & Hh1); [done|].
    apply only_from_stage in H1 as ->.
    destruct (linked_before _ _ Hl1 Hh1) as (h2 & p2 & -> & H2 & Hl2 & Hh2); [done|].
    apply only_from_stage in H2 as ->.
    destruct (linked_before _ _ Hl2 Hh2) as (h3 & p3 & -> & H3 & Hl3 & Hh3); [done|].
    apply only_from_stage in H3 as ->.
    destruct (linked_before _ _ Hl3 Hh3) as (h4 & p4 & -> & H4 & _ & _); [done|].
    apply only_from_stage in H4 as ->. exists h4. by rewrite <- !app_assoc.
  - intros s. rewrite !elem_of_cons, elem_of_nil.
    destruct s; vm_compute; split; intros H; try done; try tauto; try discriminate.
    all: repeat destruct H as [H|H]; try discriminate H; done.
Qed.

(** Resuming a render.  The kept and the given-up chunks are, in sequence order, exactly the
    longest run from the start whose every chunk is the same work as the stored one with its number
    (state, output, key, digests, seed, time base and range); rendering restarts at the latest chunk
    of that run, or just after it, whose predecessor carries no state across its boundary; and
    [resumeFrom] is the number of the first chunk rendered. *)
Theorem planChunkResume_correct (stored : list StoredChunk) (planned : list ChunkPlan) :
  let plan := planChunkResume stored planned in
  exists rest,
    Permutation (reusable plan ++ rerendered plan ++ rest) planned /\
    StronglySorted (cmp_le by_plan_sequence) (reusable plan ++ rerendered plan ++ rest) /\
    (forall c, c ∈ reusable plan ++ rerendered plan ->
       exists s, by_sequence stored !! sequence c = Some s /\ same_work s c) /\
    (forall c, head rest = Some c ->
       ~ exists s, by_sequence stored !! sequence c = Some s /\ same_work s c) /\
    Forall (fun c => requiresSequentialContext c = true) (rerendered plan) /\
    (forall c, last (reusable plan) = Some c -> requiresSequentialContext c = false) /\
    resumeFrom plan = match rerendered plan ++ rest with
                      | c :: _ => sequence c
                      | [] => Z.of_nat (length planned)
                      end.
Proof.
  cbv zeta. unfold planChunkResume. set (m := by_sequence stored).
  set (l := sort_by by_plan_sequence planned). set (b := reuse_boundary m l). set (safe := walk_back l b).
  cbn [reusable rerendered resumeFrom]. unfold slice. rewrite drop_0, Nat.sub_0_r.
  pose proof (walk_back_le l b) as Hsb. fold safe in Hsb. pose proof (reuse_boundary_le m l) as Hbl. fold b in Hbl.
  assert (take safe l ++ take (b - safe) (drop safe l) = take b l) as Hpre.
  { rewrite <- (take_drop safe (take b l)) at 1. rewrite take_take, Nat.min_l by lia. f_equal.
    by rewrite skipn_firstn_comm. }
  exists (drop b l).
  assert (take safe l ++ take (b - safe) (drop safe l) ++ drop b l = l) as Hall.
  { rewrite app_assoc, Hpre. apply take_drop. }
  rewrite Hall.
  split; [apply sort_by_perm|]. split; [apply sort_by_sorted, _|]. split; [|split; [|split; [|split]]].
  - intros c. rewrite Hpre. intros Hc. pose proof (reuse_boundary_prefix m l) as Hf.
    rewrite Forall_forall in Hf. by apply canReuseChunk_Reusable, Hf.
  - intros c Hc Hw%canReuseChunk_Reusable. rewrite head_lookup, lookup_drop, Nat.add_0_r in Hc.
    by eapply reuse_boundary_stops.
  - apply Forall_forall. intros c (i & Hi)%list_elem_of_lookup.
    apply lookup_take_Some in Hi as [Hi Hib]. rewrite lookup_drop in Hi.
    eapply (walk_back_run l b); [|exact Hi]. fold safe. lia.
  - intros c Hc. rewrite last_lookup, length_take, Nat.min_l in Hc by lia.
    apply lookup_take_Some in Hc as [Hc Hlt]. destruct safe as [|k] eqn:Hk; [lia|].
    eapply walk_back_start; [exact Hk|exact Hc].
  - assert (take (b - safe) (drop safe l) ++ drop b l = drop safe l) as ->.
    { replace (drop b l) with (drop (b - safe) (drop safe l)) by (rewrite drop_drop; f_equal; lia).
      apply take_drop. }
    rewrite <- (Nat.add_0_r safe) at 1. rewrite <- lookup_drop.
    destruct (drop safe l) as [|c r]; simpl; [|done]. unfold l. by rewrite sort_by_length.
Qed.

(** The rounding steps after the division. *)
Definition rounded_percent (q : Q) : Q :=
  fl (math_round (fl (fl (fl q * inject_Z 100) * inject_Z 100)) # 100).

Lemma rounded_percent_mono x y : (x <= y)%Q -> (rounded_percent x <= rounded_percent y)%Q.
Proof.
  intros H. unfold rounded_percent. apply fl_mono.
  assert (forall a b, (a <= b)%Q -> (fl (a * inject_Z 100) <= fl (b * inject_Z 100))%Q) as Hs.
  { intros a b Hab. by apply fl_mono, Qmult_le_compat_r. }
  pose proof (math_round_mono _ _ (Hs _ _ (Hs _ _ (fl_mono _ _ H)))) as Hm.
  unfold Qle; cbn [Qnum Qden]. lia.
Qed.

Lemma mediaOperationProgress_Some p total r : mediaOperationProgress p (Some total) = Some r ->
  (0 < total)%Q /\ r = Qmin (inject_Z 100) (Qmax 0 (rounded_percent (p / total))).
Proof.
  unfold mediaOperationProgress. destruct (Qle_bool total 0) eqn:Ht; [done|]. intros [= <-].
  split; [|done]. destruct (Qlt_le_dec 0 total) as [|Hle]; [done|]. apply Qle_bool_iff in Hle. congruence.
Qed.

(** Progress is unknown exactly when the total is, and otherwise a percentage that never leaves
    0 to 100, never goes back as work is done (with the rounding of every floating-point step), is 0
    before any work and 100 as soon as all of it is processed. *)
Theorem mediaOperationProgress_sound (p p' total : Q) (r r' : Q)
    (Hr : mediaOperationProgress p (Some total) = Some r)
    (Hr' : mediaOperationProgress p' (Some total) = Some r') :
  (0 < total)%Q /\ (0 <= r <= 100)%Q /\
  ((p <= p')%Q -> (r <= r')%Q) /\
  ((p <= 0)%Q -> (r == 0)%Q) /\
  ((total <= p)%Q -> (r == 100)%Q).
Proof.
  apply mediaOperationProgress_Some in Hr as [Ht ->]. apply mediaOperationProgress_Some in Hr' as [_ ->].
  split; [done|]. split; [|split; [|split]].
  - split; [|apply Q.le_min_l]. apply Q.min_glb; [done|]. apply Q.le_max_l.
  - intros Hp. apply Q.min_le_compat_l, Q.max_le_compat_l, rounded_percent_mono.
    apply Qmult_le_compat_r; [done|]. by apply Qlt_le_weak, Qinv_lt_0_compat.
  - intros Hp. assert (rounded_percent (p / total) <= 0)%Q as H0.
    { apply (rounded_percent_mono _ 0). apply Qle_shift_div_r; [done|]. by rewrite Qmult_0_l. }
    by rewrite (Q.max_l 0) by done.
  - intros Hp. assert (100 <= rounded_percent (p / total))%Q as H1.
    { apply Qle_trans with (rounded_percent 1); [by vm_compute|]. apply rounded_percent_mono.
      apply Qle_shift_div_l; [done|]. by rewrite Qmult_1_l. }
    rewrite Q.min_l; [done|]. apply Qle_trans with (rounded_percent (p / total)); [exact H1|]. apply Q.le_max_r.
Qed.

Lemma mediaOperationProgress_sound_witness :
  (0 < 3)%Q /\ (0 <= 3333 # 100 <= 100)%Q /\ ((1 <= 3)%Q -> (fl (3333 # 100) <= 100)%Q).
Proof.
  destruct (mediaOperationProgress_sound 1 3 3 (fl (3333 # 100)) 100) as (H1 & H2 & H3 & _).
  - by vm_compute.
  - by vm_compute.
  - split; [exact H1|]. split; [split; by vm_compute|exact H3].
Defined.
