(* ===== verification/EditOperation.v ===== *)
(** * Edits as durable operations ([server/src/utils/edit-operation.ts])

    The row an edit is recorded as, the job its stored snapshot names (read defensively), and which
    edits can be cancelled or retried. *)

From S2P Require Import Prelude JsNumber JsString Enums MediaOperation.

Definition JOB_QUEUE_EXECUTOR : string := "job_queue".
Definition JOB_QUEUE_CLAIMANT : string := "job-queue".
Definition EDIT_OPERATION_LEASE_MS : Z := 5 * 60 * 1000.
Definition EDIT_OPERATION_REDISPATCH_MS : Z := 15 * 60 * 1000.

Inductive EditOperationEdit := PhotoEdit | PhotoVersion | VideoEdit | VideoExport.

Definition edit_value (edit : EditOperationEdit) : string :=
  match edit with
  | PhotoEdit => "photo_edit"
  | PhotoVersion => "photo_version"
  | VideoEdit => "video_edit"
  | VideoExport => "video_export"
  end.
Definition EDITS : list EditOperationEdit := [PhotoEdit; PhotoVersion; VideoEdit; VideoExport].

#[export] Instance EditOperationEdit_eq_dec : EqDecision EditOperationEdit.
Proof. solve_decision. Defined.

Definition asEditOperationEdit (value : option json) : option EditOperationEdit :=
  match value with
  | Some (JStr s) => member edit_value EDITS s
  | _ => None
  end.

(** [settings?.edit]. *)
Definition editOperationEdit (kind : string) (settings : json) : option EditOperationEdit :=
  if negb (bool_decide (kind = Kind.value Kind.QuickEdit)) then None
  else asEditOperationEdit (json_get settings "edit").

Definition CANCELLABLE_EDITS : list EditOperationEdit := [PhotoVersion].
Definition RETRYABLE_EDITS : list EditOperationEdit := EDITS.

Definition canCancelEdit (edit : EditOperationEdit) : bool := includes edit CANCELLABLE_EDITS.

Definition canRetryEdit (edit : EditOperationEdit) (status : Status.MediaOperationStatus) : bool :=
  includes edit RETRYABLE_EDITS &&
  (bool_decide (status = Status.Failed) ||
   (bool_decide (status = Status.Cancelled) && includes edit CANCELLABLE_EDITS)).

(** ** The job of an edit row *)

Inductive EditOperationJob :=
| AssetEditThumbnailGeneration (id : string)
| AssetVideoEditGeneration (id : string) (versionId : option string)
| AssetDevelopRender (id : string).

Definition EDIT_JOB_NAMES : list string :=
  ["AssetEditThumbnailGeneration"; "AssetVideoEditGeneration"; "AssetDevelopRender"]%string.

(** A queued job: its name and its data object. *)
Record JobItem := mkJobItem { name : string; data : list (string * json) }.

Definition editOperationJobItem (operationId : string) (snapshot : option json) : option JobItem :=
  let value := default JNull snapshot in
  match json_get value "executor" with
  | Some (JStr executor) =>
      if negb (String.eqb executor JOB_QUEUE_EXECUTOR) then None
      else
        let job := default JNull (json_get value "job") in
        let jobData := default JNull (json_get job "data") in
        match as_string (json_get job "name"), as_string (json_get jobData "id") with
        | Some jobName, Some id =>
            if negb (includes jobName EDIT_JOB_NAMES) then None
            else
              let base := [("id", JStr id); ("operationId", JStr operationId)]%string in
              Some {| name := jobName;
                      data := if String.eqb jobName "AssetVideoEditGeneration"
                              then match json_get jobData "versionId" with
                                   | Some (JStr v) => base ++ [("versionId"%string, JStr v)]
                                   | _ => base
                                   end
                              else base |}
        | _, _ => None
        end
  | _ => None
  end.

(** ** The row of a queued edit *)

Record EditOperationInput := mkInput {
  ownerId : string;
  edit : EditOperationEdit;
  assetId : string;
  label : string;
  revisionId : option string;
  job : EditOperationJob
}.

(** The job as the JSON column stores it; an absent [versionId] has no key. *)
Definition job_json (j : EditOperationJob) : json :=
  let make (n : string) (fields : list (string * json)) := JObj [("name", JStr n); ("data", JObj fields)]%string in
  match j with
  | AssetEditThumbnailGeneration id => make "AssetEditThumbnailGeneration"%string [("id"%string, JStr id)]
  | AssetVideoEditGeneration id None => make "AssetVideoEditGeneration"%string [("id"%string, JStr id)]
  | AssetVideoEditGeneration id (Some v) =>
      make "AssetVideoEditGeneration"%string [("id", JStr id); ("versionId", JStr v)]%string
  | AssetDevelopRender id => make "AssetDevelopRender"%string [("id"%string, JStr id)]
  end.

Definition nullable (s : option string) : json := match s with Some s => JStr s | None => JNull end.

Definition editOperationCreate (input : EditOperationInput) : list (string * json) :=
  [("ownerId", JStr (ownerId input));
   ("kind", JStr (Kind.value Kind.QuickEdit));
   ("destination", JStr "local");
   ("destinationDetail", JNull);
   ("label", JStr (label input));
   ("assetId", JStr (assetId input));
   ("resultAssetId", JNull);
   ("retryOfId", JNull);
   ("projectId", JNull);
   ("revisionId", nullable (revisionId input));
   ("snapshot", JObj
     [("executor", JStr JOB_QUEUE_EXECUTOR);
      ("edit", JStr (edit_value (edit input)));
      ("assetId", JStr (assetId input));
      ("revisionId", nullable (revisionId input));
      ("job", job_json (job input))]);
   ("settings", JObj [("edit", JStr (edit_value (edit input)))]);
   ("estimate", JNull);
   ("claimedBy", JStr JOB_QUEUE_CLAIMANT)]%string.

Inductive EditOutcome := published | nothing | failed.

Definition editOperationOutcome (status : Job.JobStatus) : EditOutcome :=
  match status with
  | Job.Success => published
  | Job.Failed => failed
  | _ => nothing
  end.

(** ** Properties *)

(** The job an edit queues, with its row attached. *)
Definition queued_item (operationId : string) (j : EditOperationJob) : JobItem :=
  match j with
  | AssetEditThumbnailGeneration id =>
      mkJobItem "AssetEditThumbnailGeneration" [("id", JStr id); ("operationId", JStr operationId)]%string
  | AssetVideoEditGeneration id None =>
      mkJobItem "AssetVideoEditGeneration" [("id", JStr id); ("operationId", JStr operationId)]%string
  | AssetVideoEditGeneration id (Some v) =>
      mkJobItem "AssetVideoEditGeneration"
        [("id", JStr id); ("operationId", JStr operationId); ("versionId", JStr v)]%string
  | AssetDevelopRender id =>
      mkJobItem "AssetDevelopRender" [("id", JStr id); ("operationId", JStr operationId)]%string
  end.

Lemma editOperationJobItem_sound operationId snapshot item :
  editOperationJobItem operationId snapshot = Some item -> exists j, item = queued_item operationId j.
Proof.
  unfold editOperationJobItem.
  set (v := default JNull snapshot). destruct (json_get v "executor") as [[| | |ex| |]|]; try done.
  destruct (negb _); [done|].
  set (jb := default JNull (json_get v "job")). set (jd := default JNull (json_get jb "data")).
  destruct (as_string (json_get jb "name")) as [n|]; [|done].
  destruct (as_string (json_get jd "id")) as [id|]; [|done].
  destruct (includes n EDIT_JOB_NAMES) eqn:Hn; [|done]. intros [= <-].
  apply includes_true in Hn. unfold EDIT_JOB_NAMES in Hn.
  apply elem_of_cons in Hn as [->|Hn]; [by exists (AssetEditThumbnailGeneration id)|].
  apply elem_of_cons in Hn as [->|Hn].
  { simpl. destruct (json_get jd "versionId") as [[| | |w| |]|];
      try (by exists (AssetVideoEditGeneration id None)). by exists (AssetVideoEditGeneration id (Some w)). }
  apply list_elem_of_singleton in Hn as ->. by exists (AssetDevelopRender id).
Qed.

(** An edit's row reads back as what was queued: its settings name the edit and its snapshot
    yields the job with the row attached; whatever a snapshot holds, only one of the three edit jobs
    with only its id fields is ever queued from it; and an edit is retried only from a status any
    job may be retried from, after a cancel only when the edit can be cancelled. *)
Theorem edit_operation_roundtrip (input : EditOperationInput) (operationId : string) :
  editOperationEdit (Kind.value Kind.QuickEdit) (default JNull (obj_get (editOperationCreate input) "settings"))
    = Some (edit input) /\
  editOperationJobItem operationId (obj_get (editOperationCreate input) "snapshot")
    = Some (queued_item operationId (job input)) /\
  (forall snapshot item, editOperationJobItem operationId snapshot = Some item ->
     exists j, item = queued_item operationId j) /\
  (forall e s, canRetryEdit e s = true -> canRetryMediaOperation s = true) /\
  (forall e, canRetryEdit e Status.Cancelled = canCancelEdit e).
Proof.
  split; [by destruct input as [? [] ? ? ? ?]|]. split.
  { destruct input as [? ? ? ? ? [id|id [v|]|id]]; reflexivity. }
  split; [intros; by eapply editOperationJobItem_sound|]. split.
  - by intros [] [].
  - by intros [].
Qed.
