(* ===== verification/DuplicateReview.v ===== *)
(** * Duplicate review ([server/src/utils/duplicate-review.ts], [server/src/utils/duplicate.ts])

    What a decision over one duplicate group is, when a job of decisions is accepted, how its batches
    end on group boundaries, and how a group reads (copies, burst, look-alikes; the suggested keeper
    and the evidence for it). *)

From S2P Require Import Prelude JsNumber JsString JsDate Enums MimeTypes.
Import Decision.
Local Open Scope Z_scope.

Definition DUPLICATE_BURST_SECONDS : Z := 20.
Definition DUPLICATE_DECISION_MAX_GROUPS : Z := 5000.

(** ** Decisions *)

Record DuplicateGroupDecision := mkGroup {
  duplicateId : string;
  decision : DuplicateDecisionKind;
  memberIds : list string;
  keepAssetIds : list string;
  decisionId : option string
}.

Definition strings (value : option json) : list string :=
  match value with
  | Some (JArr items) =>
      omap (fun item => match item with JStr s => if String.eqb s "" then None else Some s | _ => None end) items
  | _ => []
  end.

Definition parseGroup (group : list (string * json)) : list DuplicateGroupDecision :=
  match obj_get group "duplicateId", obj_get group "decision" with
  | Some (JStr id), Some (JStr kind) =>
      match of_value kind with
      | None => []
      | Some d =>
          [{| duplicateId := id; decision := d;
              memberIds := uniq (strings (obj_get group "memberIds"));
              keepAssetIds := uniq (strings (obj_get group "keepAssetIds"));
              decisionId := match obj_get group "decisionId" with
                            | Some (JStr s) => if String.eqb s "" then None else Some s
                            | _ => None
                            end |}]
      end
  | _, _ => []
  end.

Definition parseDuplicateGroups (value : option json) : list DuplicateGroupDecision :=
  match value with
  | Some (JArr items) => flat_map parseGroup (omap (fun item => is_record (Some item)) items)
  | _ => []
  end.

Definition duplicateTrashIds (group : DuplicateGroupDecision) : list string :=
  if negb (bool_decide (decision group = Keepers)) then []
  else List.filter (fun id => negb (includes id (keepAssetIds group))) (memberIds group).

Definition duplicateStackPrimary (group : DuplicateGroupDecision) : option string :=
  match List.find (fun id => includes id (memberIds group)) (keepAssetIds group) with
  | Some id => Some id
  | None => head (memberIds group)
  end.

Definition duplicateGroupProblem (group : DuplicateGroupDecision) : option string :=
  if (length (memberIds group) <? 2)%nat then Some "A duplicate group needs at least two photos"%string
  else if existsb (fun id => negb (includes id (memberIds group))) (keepAssetIds group)
  then Some "Keepers must be photos of the same group"%string
  else if bool_decide (decision group = Keepers) && (length (keepAssetIds group) =? 0)%nat
  then Some "Choose at least one photo to keep"%string
  else None.

Definition duplicateGroupAssetIds (groups : list DuplicateGroupDecision) : list string :=
  flat_map memberIds groups.

(** [for (const id of group.memberIds)]: the ids seen so far, or nothing when one repeats. *)
Fixpoint see_members (ids seenAssets : list string) : option (list string) :=
  match ids with
  | [] => Some seenAssets
  | id :: rest => if includes id seenAssets then None else see_members rest (id :: seenAssets)
  end.

(** [for (const group of groups)] with its early returns. *)
Fixpoint groups_problem (undo : bool) (groups : list DuplicateGroupDecision)
    (seenGroups seenAssets : list string) : option string :=
  match groups with
  | [] => None
  | group :: rest =>
      if includes (duplicateId group) seenGroups
      then Some "Each duplicate group can only be decided once in a job"%string
      else
        match duplicateGroupProblem group with
        | Some problem => Some problem
        | None =>
            if undo && negb (str_truthy (decisionId group))
            then Some "Undo needs the decision it reverses"%string
            else
              match see_members (memberIds group) seenAssets with
              | None => Some "A photo can only belong to one duplicate group"%string
              | Some seen => groups_problem undo rest (duplicateId group :: seenGroups) seen
              end
        end
  end.

(** [ordered.some((id, index) => id !== assetIds[index])]. *)
Fixpoint some_differs (ordered assetIds : list string) : bool :=
  match ordered, assetIds with
  | [], _ => false
  | id :: _, [] => true
  | id :: rest, other :: others => negb (String.eqb id other) || some_differs rest others
  end.

Definition duplicateDecisionProblem (groups : list DuplicateGroupDecision) (assetIds : list string) (undo : bool)
  : option string :=
  if (length groups =? 0)%nat then Some "At least one duplicate group is required for this action"%string
  else if Z.of_nat (length groups) >? DUPLICATE_DECISION_MAX_GROUPS
  then Some ("At most " +:+ string_of_int DUPLICATE_DECISION_MAX_GROUPS +:+
             " duplicate groups can be decided at once")%string
  else
    match groups_problem undo groups [] [] with
    | Some problem => Some problem
    | None =>
        let ordered := duplicateGroupAssetIds groups in
        if negb (length ordered =? length assetIds)%nat || some_differs ordered assetIds
        then Some "The photos of the job must be the photos of its groups, group by group"%string
        else None
    end.

(** ** Walking decisions in batches *)

Definition duplicateGroupIndex (groups : list DuplicateGroupDecision) : gmap string string :=
  foldl (fun index group => foldl (fun index id => <[id := duplicateId group]> index) index (memberIds group))
    ∅ groups.

(** [while (last !== undefined && end < ids.length && groupOf.get(ids[end]) === last) end += 1]. *)
Fixpoint extend_group (groupOf : gmap string string) (last : option string) (rest : list string) : nat :=
  match rest with
  | [] => 0
  | id :: rest' =>
      match last with
      | Some g => if bool_decide (groupOf !! id = Some g) then S (extend_group groupOf last rest') else 0
      | None => 0
      end
  end%nat.

Definition groupAlignedBatchSize (ids : list string) (start size : nat) (groupOf : gmap string string) : nat :=
  if (length ids <=? start)%nat then 0%nat
  else
    let end_ := Nat.min (length ids) (start + Nat.max 1 size) in
    let last := match ids !! (end_ - 1)%nat with Some id => groupOf !! id | None => None end in
    (end_ + extend_group groupOf last (drop end_ ids) - start)%nat.

(** ** How a group reads *)

(** The fields of [AssetResponseDto] the review reads; [exifInfo] is the object's own entries. *)
Record ReviewAsset := mkAsset {
  id : string;
  type : mimeTypes.AssetType;
  localDateTime : option string;
  originalFileName : option string;
  exifInfo : option (list (string * json));
  checksum : option string;
  isEdited : bool;
  livePhotoVideoId : option string
}.

(** [a ?? b] on a possibly missing value. *)
Definition nullish (v : option json) : option json :=
  match v with Some JNull => None | v => v end.
Definition exif (asset : ReviewAsset) (k : string) : option json :=
  nullish (match exifInfo asset with Some fs => obj_get fs k | None => None end).

Definition duplicateDisposalReasons (assets : list ReviewAsset) (keepIds historyIds : list string) : list string :=
  let keepers := List.filter (fun a => includes (id a) keepIds) assets in
  uniq (flat_map (fun asset =>
    if includes (id asset) keepIds then []
    else
      (if isEdited asset then ["edited-copy"%string] else []) ++
      (if includes (id asset) historyIds then ["develop-history"%string] else []) ++
      (if str_truthy (livePhotoVideoId asset) &&
          forallb (fun keeper => negb (bool_decide (livePhotoVideoId keeper = livePhotoVideoId asset))) keepers
       then ["distinct-motion"%string] else [])) assets).

Section times.
(** How the host reads date strings that are not of the [toISOString] form. *)
Variable other_formats : string -> option Z.

Definition captureTime (asset : ReviewAsset) : option Z :=
  match match exif asset "dateTimeOriginal" with
        | Some v => as_string (Some v)
        | None => localDateTime asset
        end with
  | Some value => if String.eqb value "" then None else date_parse other_formats value
  | None => None
  end.

Inductive DuplicateReviewKind := copies | burst | look_alike.

Definition all_some {A} (l : list (option A)) : option (list A) := mapM (fun x => x) l.

Definition list_max (l : list Z) : Z := match l with [] => 0 | x :: l' => foldl Z.max x l' end.
Definition list_min (l : list Z) : Z := match l with [] => 0 | x :: l' => foldl Z.min x l' end.

Definition reviewKindOf (assets : list ReviewAsset) : DuplicateReviewKind :=
  if (length assets <? 2)%nat || existsb (fun a => negb (bool_decide (type a = mimeTypes.Image))) assets then copies
  else
    let first := match assets with a :: _ => checksum a | [] => None end in
    if str_truthy first && forallb (fun a => bool_decide (checksum a = first)) assets then copies
    else
      match all_some (map captureTime assets) with
      | None => copies
      | Some values =>
          if negb (length (uniq values) =? length values)%nat then copies
          else if list_max values - list_min values <=? DUPLICATE_BURST_SECONDS * 1000 then burst else look_alike
      end.

Definition classifyDuplicateGroup (assets : list ReviewAsset) : GroupKind.DuplicateGroupKind :=
  match reviewKindOf assets with burst => GroupKind.Burst | _ => GroupKind.Duplicates end.
End times.

(** ** The suggested keeper ([duplicate.ts]) *)

Definition getExifCount (asset : ReviewAsset) : Z :=
  Z.of_nat (length (List.filter (fun kv => truthy (Some (snd kv))) (default [] (exifInfo asset)))).

Definition getFormatRank (asset : ReviewAsset) : Z :=
  let fileName := default ""%string (originalFileName asset) in
  if mimeTypes.isRaw fileName then 2 else if mimeTypes.isHeic fileName then 1 else 0.

Definition exif_int (asset : ReviewAsset) (k : string) : Z := default 0 (as_int (exif asset k)).
Definition bytes (asset : ReviewAsset) : Z := exif_int asset "fileSizeInByte".
Definition pixels (asset : ReviewAsset) : Z :=
  fl_int (exif_int asset "exifImageWidth" * exif_int asset "exifImageHeight").

(** The comparison of [suggestDuplicate]: negative when [asset] is better than [best]. *)
Definition suggest_comparison (best asset : ReviewAsset) : Z :=
  or_cmp (or_cmp (or_cmp (getFormatRank best - getFormatRank asset) (bytes best - bytes asset))
            (getExifCount best - getExifCount asset))
    (compareCodeUnits (id asset) (id best)).

Definition suggest_step (best : option ReviewAsset) (asset : ReviewAsset) : option ReviewAsset :=
  match best with
  | None => Some asset
  | Some b => if suggest_comparison b asset <? 0 then Some asset else best
  end.

Definition suggestDuplicate (assets : list ReviewAsset) : option ReviewAsset := foldl suggest_step None assets.

Definition suggestDuplicateKeepAssetIds (assets : list ReviewAsset) : list string :=
  match suggestDuplicate assets with Some a => [id a] | None => [] end.

(** ** The evidence *)

Definition push {K V} `{EqDecision K} (k : K) (v : V) (m : list (K * list V)) : list (K * list V) :=
  assoc_set k (default [] (assoc_get k m) ++ [v]) m.

Definition duplicateQualityReasons (assets : list ReviewAsset) : list (string * list Quality.DuplicateQualityReason) :=
  let reasons := foldl (fun m a => assoc_set (id a) [] m) [] assets in
  if (length assets <? 2)%nat then reasons
  else
    let ranks := map getFormatRank assets in
    let sizes := map bytes assets in
    let areas := map pixels assets in
    let counts := map getExifCount assets in
    let topRank := list_max ranks in
    let lowRank := list_min ranks in
    foldl (fun m asset =>
      let m := if negb (topRank =? lowRank)
               then push (id asset) (if getFormatRank asset =? topRank then Quality.OriginalFormat
                                     else Quality.CompressedCopy) m
               else m in
      let m := if (0 <? pixels asset) && negb (list_min areas =? list_max areas)
               then push (id asset) (if pixels asset =? list_max areas then Quality.HighestResolution
                                     else Quality.LowerResolution) m
               else m in
      let m := if (0 <? bytes asset) && (bytes asset =? list_max sizes) && negb (list_min sizes =? list_max sizes)
               then push (id asset) Quality.LargestFile m else m in
      if (getExifCount asset =? list_max counts) && negb (list_min counts =? list_max counts)
      then push (id asset) Quality.MostMetadata m else m) reasons assets.

(** ** Lemmas *)

(** What one accepted group satisfies. *)
Definition group_ok (undo : bool) (g : DuplicateGroupDecision) : Prop :=
  (2 <= length (memberIds g))%nat /\
  (forall x, x ∈ keepAssetIds g -> x ∈ memberIds g) /\
  (decision g = Keepers -> keepAssetIds g <> []) /\
  (undo = true -> exists d, decisionId g = Some d /\ d <> "").

Lemma str_truthy_true s : str_truthy s = true <-> exists d, s = Some d /\ d <> "".
Proof.
  destruct s as [s|]; simpl; [|by split; [|intros (? & ? & ?)]].
  rewrite negb_true_iff, String.eqb_neq. split; [eauto|]. by intros (d & [= <-] & H).
Qed.

Lemma forallb_includes (l m : list string) :
  existsb (fun x => negb (includes x m)) l = false <-> forall x, x ∈ l -> x ∈ m.
Proof.
  induction l as [|y l IH]; simpl.
  - split; [|done]. by intros _ x ?%elem_of_nil.
  - rewrite orb_false_iff, negb_false_iff, includes_true, IH. split.
    + intros [Hy Hl] x [->|Hx]%elem_of_cons; auto.
    + intros H. split; [apply H, elem_of_cons; by left|]. intros x Hx. apply H, elem_of_cons. by right.
Qed.

Lemma duplicateGroupProblem_None undo g :
  duplicateGroupProblem g = None /\ (undo && negb (str_truthy (decisionId g))) = false <-> group_ok undo g.
Proof.
  unfold duplicateGroupProblem, group_ok. split.
  - intros [H Hu]. destruct (Nat.ltb_spec (length (memberIds g)) 2); [done|].
    destruct (existsb _ _) eqn:Hk; [done|]. rewrite forallb_includes in Hk.
    destruct (bool_decide _ && _) eqn:Hd; [done|]. split; [done|]. split; [done|]. split.
    + intros E Hn. rewrite E, Hn in Hd. discriminate Hd.
    + intros ->. apply str_truthy_true. destruct (str_truthy _); done.
  - intros (Hl & Hk & Hd & Hu). destruct (Nat.ltb_spec (length (memberIds g)) 2); [lia|].
    rewrite (proj2 (forallb_includes _ _) Hk). split.
    + destruct (bool_decide _ && _) eqn:E; [|done]. apply andb_true_iff in E as [E1 E2]. to_prop.
      apply Nat.eqb_eq, length_zero_iff_nil in E2. by destruct (Hd E1).
    + destruct undo; simpl; [|done]. by rewrite (proj2 (str_truthy_true _) (Hu eq_refl)).
Qed.

Lemma see_members_spec ids seen out :
  see_members ids seen = Some out <->
  NoDup ids /\ (forall x, x ∈ ids -> x ∉ seen) /\ out = rev ids ++ seen.
Proof.
  revert seen; induction ids as [|y ids IH]; intros seen; simpl.
  - split; [intros [= <-]; split; [constructor|split; [|done]]; by intros x ?%elem_of_nil|].
    by intros (_ & _ & ->).
  - destruct (includes y seen) eqn:Hy.
    + apply includes_true in Hy. split; [done|]. intros (_ & H & _). destruct (H y); [|done].
      apply elem_of_cons. by left.
    + apply includes_false in Hy. rewrite IH, NoDup_cons, <- app_assoc. simpl. split.
      * intros (Hn & Hs & ->). split; [split; [|done]|split; [|done]].
        -- intros Hin. apply (Hs y Hin). apply elem_of_cons. by left.
        -- intros x [->|Hx]%elem_of_cons; [done|]. intros Hin. apply (Hs x Hx), elem_of_cons. by right.
      * intros ([Hn1 Hn2] & Hs & ->). split; [done|]. split; [|done].
        intros x Hx [->|Hin]%elem_of_cons; [done|]. apply (Hs x); [apply elem_of_cons; by right|done].
Qed.

Lemma groups_problem_None undo groups seenGroups seenAssets :
  groups_problem undo groups seenGroups seenAssets = None <->
  Forall (group_ok undo) groups /\ NoDup (map duplicateId groups) /\
  (forall g, g ∈ groups -> duplicateId g ∉ seenGroups) /\
  NoDup (flat_map memberIds groups) /\ (forall x, x ∈ flat_map memberIds groups -> x ∉ seenAssets).
Proof.
  revert seenGroups seenAssets; induction groups as [|g groups IH]; intros sg sa; simpl.
  - split; [|done]. intros _. repeat split; try constructor; by intros x ?%elem_of_nil.
  - rewrite Forall_cons, !NoDup_cons, NoDup_app.
    destruct (includes (duplicateId g) sg) eqn:Hg.
    { apply includes_true in Hg. split; [done|]. intros (_ & _ & H & _). destruct (H g); [|done].
      apply elem_of_cons. by left. }
    apply includes_false in Hg. rewrite <- duplicateGroupProblem_None.
    destruct (duplicateGroupProblem g); [split; [done|]; by intros [[[? _] _] _]|].
    destruct (undo && _); [split; [done|]; by intros [[[_ ?] _] _]|].
    destruct (see_members (memberIds g) sa) as [seen|] eqn:Hs.
    + apply see_members_spec in Hs as (Hn & Hd & ->). rewrite IH. split.
      * intros (Hf & Hi & Hsg & Hm & Hsa). repeat split; try done.
        -- intros Hin. apply list_elem_of_fmap in Hin as (g' & E & Hg'). apply (Hsg g' Hg'). rewrite <- E.
           apply elem_of_cons. by left.
        -- intros x [->|Hx]%elem_of_cons; [done|]. intros Hin. apply (Hsg x Hx), elem_of_cons. by right.
        -- intros x Hx Hin. apply (Hsa x Hin), elem_of_app. left. by apply elem_of_rev.
        -- intros x [Hx|Hx]%elem_of_app; [by apply Hd|]. intros Hin. apply (Hsa x Hx), elem_of_app. by right.
      * intros ((_ & Hf) & [Hi1 Hi2] & Hsg & (_ & Hdis & Hm) & Hsa). repeat split; try done.
        -- intros g' Hg' [E|Hin]%elem_of_cons.
           ++ apply Hi1. apply list_elem_of_fmap. by exists g'.
           ++ apply (Hsg g'); [apply elem_of_cons; by right|done].
        -- intros x Hx [Hin|Hin]%elem_of_app.
           ++ apply (Hdis x); [|done]. by apply elem_of_rev.
           ++ apply (Hsa x); [apply elem_of_app; by right|done].
    + split; [done|]. intros ([_ _] & _ & _ & (Hn & _ & _) & Hsa). exfalso.
      assert (see_members (memberIds g) sa = Some (rev (memberIds g) ++ sa)) as E; [|congruence].
      apply see_members_spec. split; [done|]. split; [|done]. intros x Hx. apply Hsa, elem_of_app. by left.
Qed.

Lemma some_differs_false l m : length l = length m -> some_differs l m = false <-> l = m.
Proof.
  revert m; induction l as [|x l IH]; intros [|y m] Hlen; simpl in *; try done.
  rewrite orb_false_iff, negb_false_iff, String.eqb_eq, IH by lia.
  split; [by intros [-> ->]|by intros [= -> ->]].
Qed.

Lemma elem_of_trash x g :
  x ∈ duplicateTrashIds g <-> decision g = Keepers /\ x ∈ memberIds g /\ x ∉ keepAssetIds g.
Proof.
  unfold duplicateTrashIds. case_bool_decide as Hd; simpl.
  - rewrite elem_of_filter_b, negb_true_iff, includes_false. tauto.
  - split; [by intros ?%elem_of_nil|tauto].
Qed.

(** The preference order behind the suggestion: format, size, metadata, then the lowest id. *)
Definition at_least_as_good (a b : ReviewAsset) : Prop :=
  getFormatRank b < getFormatRank a \/ (getFormatRank b = getFormatRank a /\
    (bytes b < bytes a \/ (bytes b = bytes a /\
      (getExifCount b < getExifCount a \/ (getExifCount b = getExifCount a /\ String.le (id a) (id b)))))).

Lemma suggest_comparison_spec a b : 0 <= suggest_comparison a b <-> at_least_as_good a b.
Proof.
  unfold suggest_comparison, at_least_as_good, or_cmp. rewrite <- compareCodeUnits_le.
  rewrite (compareCodeUnits_antisym (id a) (id b)).
  repeat match goal with
  | |- context [if ?x =? 0 then _ else _] =>
      lazymatch x with context [if _ then _ else _] => fail | _ => destruct (Z.eqb_spec x 0) end
  end; lia.
Qed.

Lemma at_least_as_good_trans a b c : at_least_as_good a b -> at_least_as_good b c -> at_least_as_good a c.
Proof.
  unfold at_least_as_good. rewrite <- !compareCodeUnits_le.
  pose proof (cmp_trans (cmp := compareCodeUnits) (id a) (id b) (id c)). lia.
Qed.
Lemma at_least_as_good_total a b : at_least_as_good a b \/ at_least_as_good b a.
Proof.
  unfold at_least_as_good. rewrite <- !compareCodeUnits_le.
  pose proof (cmp_total (cmp := compareCodeUnits) (id a) (id b)). lia.
Qed.
Lemma at_least_as_good_antisym a b : at_least_as_good a b -> at_least_as_good b a -> id a = id b.
Proof.
  unfold at_least_as_good. rewrite <- !compareCodeUnits_le.
  rewrite (compareCodeUnits_antisym (id a) (id b)). intros H1 H2.
  apply compareCodeUnits_eq. lia.
Qed.
#[export] Instance at_least_as_good_refl : Reflexive at_least_as_good.
Proof. intros a. destruct (at_least_as_good_total a a); done. Qed.

Lemma suggest_fold_spec assets best :
  exists a, foldl suggest_step (Some best) assets = Some a /\ a ∈ best :: assets /\
    forall b, b ∈ best :: assets -> at_least_as_good a b.
Proof.
  revert best; induction assets as [|x assets IH]; intros best; simpl.
  - exists best. split; [done|]. split; [apply elem_of_cons; by left|]. by intros b ->%list_elem_of_singleton.
  - destruct (Z.ltb_spec (suggest_comparison best x) 0) as [Hlt|Hge].
    + destruct (IH x) as (a & Ha & Hin & Hall). exists a. split; [done|]. split; [apply elem_of_cons; by right|].
      intros b [->|Hb]%elem_of_cons; [|by apply Hall].
      apply at_least_as_good_trans with x; [apply Hall, elem_of_cons; by left|].
      destruct (at_least_as_good_total x best) as [|H]; [done|]. apply suggest_comparison_spec in H. lia.
    + apply suggest_comparison_spec in Hge. destruct (IH best) as (a & Ha & Hin & Hall). exists a. split; [done|].
      rewrite !elem_of_cons in *. split; [tauto|]. intros b. rewrite !elem_of_cons.
      intros [->|[->|Hb]].
      * apply Hall, elem_of_cons. by left.
      * apply at_least_as_good_trans with best; [|done]. apply Hall, elem_of_cons. by left.
      * apply Hall, elem_of_cons. by right.
Qed.

Lemma suggestDuplicate_spec assets a : suggestDuplicate assets = Some a ->
  a ∈ assets /\ forall b, b ∈ assets -> at_least_as_good a b.
Proof.
  destruct assets as [|x assets]; [done|]. unfold suggestDuplicate; simpl. intros H.
  destruct (suggest_fold_spec assets x) as (a' & Ha & Hin & Hall). split.
  - congruence.
  - intros b Hb. replace a with a' by congruence. by apply Hall.
Qed.

Lemma suggestDuplicate_total assets : assets <> [] -> exists a, suggestDuplicate assets = Some a.
Proof.
  destruct assets as [|x assets]; [done|]. intros _. unfold suggestDuplicate; simpl.
  destruct (suggest_fold_spec assets x) as (a & Ha & _). by exists a.
Qed.

(** ** Group boundaries *)

Lemma index_members d ids (m : gmap string string) x :
  foldl (fun index id => <[id := d]> index) m ids !! x = if decide (x ∈ ids) then Some d else m !! x.
Proof.
  revert m; induction ids as [|y ids IH]; intros m; cbn [foldl].
  - rewrite decide_False; [done|]. apply not_elem_of_nil.
  - rewrite IH. destruct (decide (x ∈ ids)) as [Hx|Hx].
    + rewrite decide_True; [done|]. apply elem_of_cons. by right.
    + destruct (decide (x = y)) as [->|Hne].
      * rewrite lookup_insert_eq, decide_True; [done|]. apply elem_of_cons. by left.
      * rewrite lookup_insert_ne, decide_False; [done| |done]. rewrite elem_of_cons. tauto.
Qed.

Definition index_from (m : gmap string string) (groups : list DuplicateGroupDecision) : gmap string string :=
  foldl (fun index group => foldl (fun index id => <[id := duplicateId group]> index) index (memberIds group)) m groups.

Lemma index_other m groups x : x ∉ flat_map memberIds groups -> index_from m groups !! x = m !! x.
Proof.
  unfold index_from. revert m; induction groups as [|g groups IH]; intros m Hx; [done|].
  cbn [foldl flat_map] in *. rewrite elem_of_app in Hx. rewrite IH by tauto. rewrite index_members.
  rewrite decide_False; tauto.
Qed.

Lemma index_group m groups g x :
  NoDup (flat_map memberIds groups) -> g ∈ groups -> x ∈ memberIds g -> index_from m groups !! x = Some (duplicateId g).
Proof.
  revert m; induction groups as [|h groups IH]; intros m Hn Hg Hx; [by apply elem_of_nil in Hg|].
  cbn [flat_map] in Hn. apply NoDup_app in Hn as (_ & Hd & Hn). apply elem_of_cons in Hg as [->|Hg].
  - change (index_from m (h :: groups)) with (index_from (index_from m [h]) groups).
    rewrite index_other by auto. unfold index_from; cbn [foldl]. by rewrite index_members, decide_True.
  - change (index_from m (h :: groups)) with (index_from (index_from m [h]) groups). by apply IH.
Qed.

Lemma extend_group_run idx g pre rest :
  Forall (fun x => idx !! x = Some g) pre -> (forall x, head rest = Some x -> idx !! x <> Some g) ->
  extend_group idx (Some g) (pre ++ rest) = length pre.
Proof.
  intros Hpre Hrest. induction Hpre as [|x pre Hx _ IH]; simpl.
  - destruct rest as [|y rest]; simpl; [done|]. rewrite bool_decide_eq_false_2; [done|]. by apply Hrest.
  - rewrite bool_decide_eq_true_2 by done. by rewrite IH.
Qed.

(** Where the [k]th group starts in the frozen set. *)
Definition boundary (groups : list DuplicateGroupDecision) (k : nat) : nat :=
  length (duplicateGroupAssetIds (take k groups)).

Lemma locate groups e : (e < length (duplicateGroupAssetIds groups))%nat ->
  exists j g i x, groups !! j = Some g /\ memberIds g !! i = Some x /\ e = (boundary groups j + i)%nat.
Proof.
  unfold duplicateGroupAssetIds, boundary. revert e; induction groups as [|g groups IH]; intros e He; simpl in He; [lia|].
  rewrite length_app in He. destruct (Nat.lt_ge_cases e (length (memberIds g))) as [Hlt|Hge].
  - destruct (lookup_lt_is_Some_2 _ _ Hlt) as [x Hx]. by exists 0%nat, g, e, x.
  - destruct (IH (e - length (memberIds g))%nat ltac:(lia)) as (j & h & i & x & Hj & Hx & E).
    exists (S j), h, i, x. split; [done|]. split; [done|]. unfold duplicateGroupAssetIds in *. cbn [take flat_map].
    rewrite length_app. lia.
Qed.

Lemma boundary_S groups j g : groups !! j = Some g -> boundary groups (S j) = (boundary groups j + length (memberIds g))%nat.
Proof.
  intros Hj. unfold boundary, duplicateGroupAssetIds. rewrite (take_S_r _ _ _ Hj), flat_map_app, length_app.
  simpl. by rewrite app_nil_r.
Qed.
Lemma boundary_mono groups i j : (i <= j)%nat -> (boundary groups i <= boundary groups j)%nat.
Proof.
  intros Hij. unfold boundary, duplicateGroupAssetIds. rewrite <- (take_drop i (take j groups)).
  rewrite take_take, Nat.min_l by done. rewrite flat_map_app, length_app. lia.
Qed.

Lemma split_at_group groups j g : groups !! j = Some g ->
  duplicateGroupAssetIds groups =
    duplicateGroupAssetIds (take j groups) ++ memberIds g ++ duplicateGroupAssetIds (drop (S j) groups).
Proof.
  intros Hj. unfold duplicateGroupAssetIds. rewrite <- (take_drop_middle _ _ _ Hj) at 1.
  rewrite flat_map_app. done.
Qed.

(** From any place in a group, the batch runs on to the end of that group. *)
Lemma extend_to_boundary groups undo j g i :
  Forall (group_ok undo) groups -> NoDup (map duplicateId groups) -> NoDup (duplicateGroupAssetIds groups) ->
  groups !! j = Some g -> (i < length (memberIds g))%nat ->
  extend_group (duplicateGroupIndex groups) (Some (duplicateId g))
    (drop (boundary groups j + S i) (duplicateGroupAssetIds groups)) = (length (memberIds g) - S i)%nat.
Proof.
  intros Hok Hids Hn Hj Hi. rewrite (split_at_group _ _ _ Hj). unfold boundary.
  rewrite drop_app_add', drop_app_le by lia.
  rewrite <- (length_drop (memberIds g)). apply extend_group_run.
  - apply Forall_forall. intros x Hx. apply (index_group ∅); [done| |].
    + by eapply list_elem_of_lookup_2.
    + apply list_elem_of_lookup in Hx as [p Hp]. rewrite lookup_drop in Hp. by eapply list_elem_of_lookup_2.
  - intros x Hx. destruct (drop (S j) groups) as [|h rest] eqn:Hd; [done|].
    assert (groups !! S j = Some h) as Hh.
    { rewrite <- (Nat.add_0_r (S j)), <- lookup_drop, Hd. done. }
    rewrite Forall_forall in Hok. destruct (Hok h (list_elem_of_lookup_2 _ _ _ Hh)) as (Hl & _).
    simpl in Hx. destruct (memberIds h) as [|y ys] eqn:Hm; simpl in *; [lia|]. injection Hx as <-.
    assert (duplicateGroupIndex groups !! y = Some (duplicateId h)) as ->.
    { apply (index_group ∅); [done|by eapply list_elem_of_lookup_2|]. rewrite Hm. apply elem_of_cons. by left. }
    intros [= E]. assert (S j = j) as Hjj; [|lia].
    eapply NoDup_lookup; [exact Hids| |]; rewrite list_lookup_fmap.
    + by rewrite Hh.
    + rewrite Hj. simpl. by rewrite E.
Qed.

Lemma duplicateDecisionProblem_None groups assetIds undo :
  duplicateDecisionProblem groups assetIds undo = None <->
     (0 < length groups <= 5000)%nat /\ Forall (group_ok undo) groups /\ NoDup (map duplicateId groups) /\
     NoDup assetIds /\ assetIds = duplicateGroupAssetIds groups.
Proof.
  unfold duplicateDecisionProblem, DUPLICATE_DECISION_MAX_GROUPS.
    destruct (Nat.eqb_spec (length groups) 0); [split; [done|lia]|].
    destruct (Z.gtb_spec (Z.of_nat (length groups)) 5000); [split; [done|lia]|].
    pose proof (groups_problem_None undo groups [] []) as Hg.
    destruct (groups_problem undo groups [] []) as [p|].
    - split; [done|]. intros (_ & Hf & Hi & Hn & ->). apply Hg. repeat split; try done; by intros x _ ?%elem_of_nil.
    - destruct (proj1 Hg eq_refl) as (Hf & Hi & _ & Hn & _).
      destruct (Nat.eqb_spec (length (duplicateGroupAssetIds groups)) (length assetIds)) as [E|E]; simpl.
      + pose proof (some_differs_false _ _ E) as Hd. destruct (some_differs _ _) eqn:Hs.
        * split; [done|]. intros (_ & _ & _ & _ & Heq). symmetry in Heq. by apply Hd in Heq.
        * split; [|done]. intros _. rewrite <- (proj1 Hd eq_refl). split; [lia|]. by repeat split.
      + split; [done|]. intros (_ & _ & _ & _ & ->). done.
Qed.

Lemma accepted_job groups assetIds undo : duplicateDecisionProblem groups assetIds undo = None ->
  Forall (group_ok undo) groups /\ NoDup (map duplicateId groups) /\ NoDup (duplicateGroupAssetIds groups) /\
  assetIds = duplicateGroupAssetIds groups.
Proof. intros (_ & Hf & Hi & Hn & E)%duplicateDecisionProblem_None. by subst. Qed.

(** ** Properties *)

(** A decision job is accepted exactly when it has between one and 5000 groups, each group
    decided once with at least two photos, its keepers among them (at least one for [keepers], and the
    reversed decision named for an undo), no photo in two places, and the frozen set is the groups'
    photos in order.  Then no decision trashes a kept photo or every photo of a group, only [keepers]
    trashes anything, and a stack's cover is one of its photos. *)
Theorem duplicateDecisionProblem_sound (groups : list DuplicateGroupDecision) (assetIds : list string) (undo : bool) :
  (duplicateDecisionProblem groups assetIds undo = None <->
     (0 < length groups <= 5000)%nat /\ Forall (group_ok undo) groups /\ NoDup (map duplicateId groups) /\
     NoDup assetIds /\ assetIds = duplicateGroupAssetIds groups) /\
  (duplicateDecisionProblem groups assetIds undo = None -> forall g, g ∈ groups ->
     (forall x, x ∈ duplicateTrashIds g -> x ∈ assetIds /\ x ∉ keepAssetIds g) /\
     (exists kept, kept ∈ memberIds g /\ kept ∉ duplicateTrashIds g) /\
     (decision g <> Keepers -> duplicateTrashIds g = []) /\
     (exists cover, duplicateStackPrimary g = Some cover /\ cover ∈ memberIds g)).
Proof.
  pose proof (duplicateDecisionProblem_None groups assetIds undo) as Hiff.
  split; [done|]. intros H g Hg. apply Hiff in H as (_ & Hf & _ & _ & ->).
  rewrite Forall_forall in Hf. destruct (Hf g Hg) as (Hl & Hk & Hd & _). split; [|split; [|split]].
  - intros x (_ & Hx & Hn)%elem_of_trash. split; [|done]. apply elem_of_flat_map. by exists g.
  - destruct (decide (decision g = Keepers)) as [E|E].
    + destruct (keepAssetIds g) as [|k ks] eqn:Hks; [by destruct (Hd E)|].
      exists k. split; [apply Hk, elem_of_cons; by left|]. intros (_ & _ & Hn)%elem_of_trash.
      apply Hn. rewrite Hks. apply elem_of_cons. by left.
    + destruct (memberIds g) as [|m ms] eqn:Hms; [simpl in Hl; lia|].
      exists m. split; [apply elem_of_cons; by left|]. by intros (? & _)%elem_of_trash.
  - intros E. unfold duplicateTrashIds. by rewrite bool_decide_eq_false_2.
  - unfold duplicateStackPrimary. destruct (List.find _ _) as [k|] eqn:Hfind.
    + apply List.find_some in Hfind as [_ Hin%includes_true]. by exists k.
    + destruct (memberIds g) as [|m ms]; [simpl in Hl; lia|]. exists m. split; [done|]. apply elem_of_cons. by left.
Qed.

(** A decision job's batches never split a group: from the start of any group the next batch
    ends exactly where some later group ends, takes at least one group, at least the batch size while
    photos remain, and no group beyond the one the batch size falls in. *)
Theorem groupAlignedBatchSize_aligned (groups : list DuplicateGroupDecision) (assetIds : list string)
    (undo : bool) (size k : nat)
    (H : duplicateDecisionProblem groups assetIds undo = None) (Hk : (k < length groups)%nat) :
  exists k', (k < k' <= length groups)%nat /\
    (boundary groups k + groupAlignedBatchSize assetIds (boundary groups k) size (duplicateGroupIndex groups)
       = boundary groups k')%nat /\
    (Nat.min (length assetIds) (boundary groups k + Nat.max 1 size) <= boundary groups k')%nat /\
    (boundary groups (k' - 1) < boundary groups k + Nat.max 1 size)%nat.
Proof.
  apply accepted_job in H as (Hok & Hids & Hn & ->).
  destruct (lookup_lt_is_Some_2 _ _ Hk) as [gk Hgk].
  assert (boundary groups k < length (duplicateGroupAssetIds groups))%nat as Hstart.
  { rewrite (split_at_group _ _ _ Hgk), !length_app. rewrite Forall_forall in Hok.
    destruct (Hok gk (list_elem_of_lookup_2 _ _ _ Hgk)) as (Hl & _). unfold boundary. lia. }
  unfold groupAlignedBatchSize. destruct (Nat.leb_spec (length (duplicateGroupAssetIds groups)) (boundary groups k)); [lia|].
  remember (Nat.min (length (duplicateGroupAssetIds groups)) _) as e eqn:Hmin. assert (boundary groups k < e <= length (duplicateGroupAssetIds groups))%nat by lia.
  destruct (locate groups (e - 1)) as (j & g & i & x & Hj & Hx & E); [lia|].
  assert ((duplicateGroupAssetIds groups) !! (e - 1)%nat = Some x) as ->.
  { rewrite (split_at_group _ _ _ Hj), E. rewrite lookup_app_r by (unfold boundary; lia).
    unfold boundary. replace (length _ + i - length _)%nat with i by lia. by apply lookup_app_l_Some. }
  assert (duplicateGroupIndex groups !! x = Some (duplicateId g)) as ->.
  { apply (index_group ∅); [done|by eapply list_elem_of_lookup_2|by eapply list_elem_of_lookup_2]. }
  pose proof (lookup_lt_Some _ _ _ Hx) as Hi. pose proof (lookup_lt_Some _ _ _ Hj) as Hjl.
  assert (e = boundary groups j + S i)%nat as He by lia. rewrite He.
  rewrite (extend_to_boundary groups undo j g i) by done. pose proof (boundary_S _ _ _ Hj) as HS.
  assert (k <= j)%nat as Hkj.
  { destruct (Nat.le_gt_cases k j) as [|Hlt]; [done|]. pose proof (boundary_mono groups (S j) k Hlt). lia. }
  exists (S j). replace (S j - 1)%nat with j by lia. lia.
Qed.

Lemma groupAlignedBatchSize_aligned_witness :
  let groups := [mkGroup "g" KeepAll ["a"; "b"; "c"] [] None; mkGroup "h" Keepers ["d"; "e"] ["d"] None] in
  exists k', (0 < k' <= 2)%nat /\
    (boundary groups 0 + groupAlignedBatchSize ["a"; "b"; "c"; "d"; "e"] (boundary groups 0) 1 (duplicateGroupIndex groups)
       = boundary groups k')%nat /\
    (Nat.min 5 (boundary groups 0 + Nat.max 1 1) <= boundary groups k')%nat /\
    (boundary groups (k' - 1) < boundary groups 0 + Nat.max 1 1)%nat.
Proof.
  intros groups. apply (groupAlignedBatchSize_aligned groups ["a"; "b"; "c"; "d"; "e"]%string false 1 0).
  - vm_compute. reflexivity.
  - simpl. lia.
Defined.

(** The suggested keeper is a photo of the group that no other beats: RAW before HEIC before the
    rest whatever the sizes, then the larger file, the fuller metadata, the lowest id.  A group with
    photos always has one, and the order the photos arrive in never changes it. *)
Theorem suggestDuplicate_best (assets : list ReviewAsset) :
  (suggestDuplicate assets = None <-> assets = []) /\
  (forall a, suggestDuplicate assets = Some a -> a ∈ assets /\ forall b, b ∈ assets -> at_least_as_good a b) /\
  (NoDup (map id assets) -> forall assets', Permutation assets assets' ->
     suggestDuplicate assets' = suggestDuplicate assets).
Proof.
  split; [|split].
  - split; [|by intros ->]. intros H. destruct assets as [|x assets]; [done|].
    destruct (suggestDuplicate_total (x :: assets)) as [a Ha]; [done|congruence].
  - intros a. apply suggestDuplicate_spec.
  - intros Hn assets' Hp. destruct assets as [|x assets]; [by apply Permutation_nil_l in Hp as ->|].
    destruct (suggestDuplicate_total (x :: assets)) as [a Ha]; [done|].
    destruct (suggestDuplicate_total assets') as [b Hb].
    { intros ->. by apply Permutation_nil_r in Hp. }
    rewrite Ha, Hb. f_equal. apply suggestDuplicate_spec in Ha as [Hain Ha]. apply suggestDuplicate_spec in Hb as [Hbin Hb].
    rewrite <- Hp in Hbin. apply (NoDup_map_inj id (x :: assets)); [done|done|done|].
    apply at_least_as_good_antisym; [apply Hb; by rewrite <- Hp|by apply Ha].
Qed.
