(* ===== verification/BulkOperation.v ===== *)
(** * Durable bulk operations ([server/src/utils/bulk-operation.ts])

    The immutable request, the accumulated result, what a retry covers, the automatic retry pass, the
    starting dates of a relative shift, batching, error classification, permissions and the payload
    checks made at submit. *)

From Stdlib Require Import QArith Qminmax.
From S2P Require Import Prelude JsNumber JsString JsDate Enums DuplicateReview.
Import BulkAction.
Local Open Scope Z_scope.

Definition BULK_BATCH_SIZE : Z := 500.
Definition BULK_RECORDED_ITEM_LIMIT : nat := 1000.
Definition BULK_MAX_ITEMS : Z := 50000.

(** A payload is the stored object itself: the code casts it and reads its fields. *)
Definition BulkOperationPayload := list (string * json).

Definition MEDIA_HEALTH_BULK_ACTIONS : list MediaOperationBulkAction :=
  [RelinkMissingMedia; RecoverDamagedMedia; TrashDamagedMedia].
Definition isMediaHealthBulkAction (action : MediaOperationBulkAction) : bool :=
  includes action MEDIA_HEALTH_BULK_ACTIONS.

Record BulkOperationSnapshot := mkSnapshot {
  action : MediaOperationBulkAction;
  assetIds : list string;
  payload : BulkOperationPayload;
  submittedTotal : option jsnum;
  truncated : bool;
  scope : option (list (string * json));
  requestId : option string;
  apiKeyId : option string;
  elevated : bool
}.

Record BulkOperationItem := mkItem {
  itemId : string;
  itemStatus : ItemStatus.MediaOperationItemStatus;
  reasonKey : option string;
  message : option string
}.

Record InFlight := mkInFlight { start : Z; size : Z }.

Record BulkRetryPass := mkRetry {
  ids : list string;
  retryTotal : jsnum;
  retryProcessed : jsnum;
  retryInFlight : option InFlight
}.

(** Starting dates by item, in the order recorded; the value is an ISO string or [null]. *)
Definition ShiftFrom := list (string * option string).

Record BulkOperationResult := mkResult {
  requested : jsnum;
  succeeded : jsnum;
  failed : jsnum;
  skipped : jsnum;
  items : list BulkOperationItem;
  itemsTruncated : bool;
  inFlight : option InFlight;
  retry : option BulkRetryPass;
  shiftFrom : ShiftFrom
}.

(** ** Reading stored values *)

Definition asStringArray : option json -> list string := DuplicateReview.strings.

Definition asNumber (value : option json) : jsnum :=
  match value with
  | Some (JNum n) => if num_is_finite n then n else JInt 0
  | _ => JInt 0
  end.

Definition parseInFlight (value : option json) : option InFlight :=
  match is_record value with
  | None => None
  | Some fs =>
      match asNumber (obj_get fs "start"), asNumber (obj_get fs "size") with
      | JInt start, JInt size =>
          if is_safe_integer start && is_safe_integer size && (0 <=? start) && (0 <? size)
          then Some (mkInFlight start size) else None
      | _, _ => None
      end
  end.

Definition parseRetryPass (value : option json) : option BulkRetryPass :=
  match is_record value with
  | None => None
  | Some fs =>
      let ids := uniq (asStringArray (obj_get fs "ids")) in
      let total := if (0 <? length ids)%nat then JInt (Z.of_nat (length ids)) else asNumber (obj_get fs "total") in
      let processed := asNumber (obj_get fs "processed") in
      Some {| ids := ids; retryTotal := total;
              retryProcessed := if num_is_safe_integer processed
                                then num_min (num_max (JInt 0) processed) total else JInt 0;
              retryInFlight := parseInFlight (obj_get fs "inFlight") |}
  end.

Section dates.
(** How the host reads date strings that are not of the [toISOString] form. *)
Variable other_formats : string -> option Z.

Definition parseShiftFrom (value : option json) : ShiftFrom :=
  match is_record value with
  | None => []
  | Some fs =>
      foldl (fun origins '(id, from) =>
        match from with
        | JNull => assoc_set id None origins
        | JStr s => match date_parse other_formats s with
                    | Some _ => assoc_set id (Some s) origins
                    | None => origins
                    end
        | _ => origins
        end) [] fs
  end.
End dates.

Definition isBulkAction (value : option json) : option MediaOperationBulkAction :=
  match value with Some (JStr s) => of_value s | _ => None end.

Inductive BulkError :=
| SnapshotMissing
| UnsupportedBulkAction (value : option json)
| SnapshotHasNoAssets.

Definition parseBulkSnapshot (snapshot : option json) : res BulkError BulkOperationSnapshot :=
  match is_record snapshot with
  | None => Throw SnapshotMissing
  | Some fs =>
      match isBulkAction (obj_get fs "action") with
      | None => Throw (UnsupportedBulkAction (obj_get fs "action"))
      | Some action =>
          let assetIds := uniq (asStringArray (obj_get fs "assetIds")) in
          if (length assetIds =? 0)%nat then Throw SnapshotHasNoAssets
          else Ok {| action := action;
                     assetIds := assetIds;
                     payload := default [] (is_record (obj_get fs "payload"));
                     submittedTotal := as_num (obj_get fs "submittedTotal");
                     truncated := is_true_lit (obj_get fs "truncated");
                     scope := is_record (obj_get fs "scope");
                     requestId := as_string (obj_get fs "requestId");
                     apiKeyId := as_string (obj_get fs "apiKeyId");
                     elevated := is_true_lit (obj_get fs "elevated") |}
      end
  end.

Definition emptyBulkResult (requested : jsnum) : BulkOperationResult :=
  {| requested := requested; succeeded := JInt 0; failed := JInt 0; skipped := JInt 0; items := [];
     itemsTruncated := false; inFlight := None; retry := None; shiftFrom := [] |}.

Definition parseItem (item : json) : option BulkOperationItem :=
  match is_record (Some item) with
  | None => None
  | Some fs =>
      match obj_get fs "id" with
      | Some (JStr id) =>
          Some {| itemId := id;
                  itemStatus := match as_string (obj_get fs "status") with
                                | Some s => if String.eqb s (ItemStatus.value ItemStatus.Skipped) then ItemStatus.Skipped
                                            else if String.eqb s (ItemStatus.value ItemStatus.Ok) then ItemStatus.Ok
                                            else ItemStatus.Failed
                                | None => ItemStatus.Failed
                                end;
                  reasonKey := as_string (obj_get fs "reasonKey");
                  message := as_string (obj_get fs "message") |}
      | _ => None
      end
  end.

(** [asNumber(result.requested) || requested]. *)
Definition num_or (n fallback : jsnum) : jsnum := if truthy (Some (JNum n)) then n else fallback.

Definition parseBulkResult (other_formats : string -> option Z) (result : option json) (requested : jsnum)
  : BulkOperationResult :=
  match is_record result with
  | None => emptyBulkResult requested
  | Some fs =>
      {| requested := num_or (asNumber (obj_get fs "requested")) requested;
         succeeded := asNumber (obj_get fs "succeeded");
         failed := asNumber (obj_get fs "failed");
         skipped := asNumber (obj_get fs "skipped");
         items := match obj_get fs "items" with Some (JArr l) => omap parseItem l | _ => [] end;
         itemsTruncated := is_true_lit (obj_get fs "itemsTruncated");
         inFlight := parseInFlight (obj_get fs "inFlight");
         retry := parseRetryPass (obj_get fs "retry");
         shiftFrom := parseShiftFrom other_formats (obj_get fs "shiftFrom") |}
  end.

(** ** Accumulating outcomes *)

Definition JOne : jsnum := JInt 1.

Definition set_items (r : BulkOperationResult) (l : list BulkOperationItem) (t : bool) : BulkOperationResult :=
  {| requested := requested r; succeeded := succeeded r; failed := failed r; skipped := skipped r; items := l;
     itemsTruncated := t; inFlight := inFlight r; retry := retry r; shiftFrom := shiftFrom r |}.
Definition set_counts (r : BulkOperationResult) (s f k : jsnum) : BulkOperationResult :=
  {| requested := requested r; succeeded := s; failed := f; skipped := k; items := items r;
     itemsTruncated := itemsTruncated r; inFlight := inFlight r; retry := retry r; shiftFrom := shiftFrom r |}.
Definition set_inFlight (r : BulkOperationResult) (x : option InFlight) : BulkOperationResult :=
  {| requested := requested r; succeeded := succeeded r; failed := failed r; skipped := skipped r; items := items r;
     itemsTruncated := itemsTruncated r; inFlight := x; retry := retry r; shiftFrom := shiftFrom r |}.
Definition set_retry (r : BulkOperationResult) (x : option BulkRetryPass) : BulkOperationResult :=
  {| requested := requested r; succeeded := succeeded r; failed := failed r; skipped := skipped r; items := items r;
     itemsTruncated := itemsTruncated r; inFlight := inFlight r; retry := x; shiftFrom := shiftFrom r |}.
Definition set_shiftFrom (r : BulkOperationResult) (x : ShiftFrom) : BulkOperationResult :=
  {| requested := requested r; succeeded := succeeded r; failed := failed r; skipped := skipped r; items := items r;
     itemsTruncated := itemsTruncated r; inFlight := inFlight r; retry := retry r; shiftFrom := x |}.

(** The tail of the loop body: record a refusal, or say the list is short. *)
Definition record_item (merged : BulkOperationResult) (outcome : BulkOperationItem) : BulkOperationResult :=
  if (length (items merged) <? BULK_RECORDED_ITEM_LIMIT)%nat
  then set_items merged (items merged ++ [outcome]) (itemsTruncated merged)
  else set_items merged (items merged) true.

Definition merge_step (merged : BulkOperationResult) (outcome : BulkOperationItem) : BulkOperationResult :=
  match itemStatus outcome with
  | ItemStatus.Ok =>
      set_counts merged (num_add (succeeded merged) JOne) (failed merged) (skipped merged)
  | ItemStatus.Skipped =>
      record_item (set_counts merged (succeeded merged) (failed merged) (num_add (skipped merged) JOne)) outcome
  | ItemStatus.Failed =>
      record_item (set_counts merged (succeeded merged) (num_add (failed merged) JOne) (skipped merged)) outcome
  end.

Definition mergeBulkOutcomes (previous : BulkOperationResult) (outcomes : list BulkOperationItem)
  : BulkOperationResult := foldl merge_step previous outcomes.

Definition bulkProcessedCount (result : BulkOperationResult) : jsnum :=
  num_add (num_add (succeeded result) (failed result)) (skipped result).

(** ** Retry and resume *)

Definition is_failed (item : BulkOperationItem) : bool := bool_decide (itemStatus item = ItemStatus.Failed).
Definition failedIds (result : BulkOperationResult) : list string :=
  map itemId (List.filter is_failed (items result)).

(** [ids.slice(position)] from a non-negative position. *)
Definition slice_from {A} (position : jsnum) (l : list A) : list A := drop (Z.to_nat (num_index position)) l.

Definition bulkRetryPending (result : BulkOperationResult) : list string :=
  match retry result with Some pass => slice_from (retryProcessed pass) (ids pass) | None => [] end.

Definition bulkResumeIds (snapshot : BulkOperationSnapshot) (result : BulkOperationResult) (processed : Z)
  : list string :=
  let retryable := failedIds result in
  let cursor := Z.max 0 (Z.min processed (Z.of_nat (length (assetIds snapshot)))) in
  let unreached := drop (Z.to_nat cursor) (assetIds snapshot) ++ bulkRetryPending result in
  List.filter (fun id => includes id retryable || includes id unreached) (assetIds snapshot).

Definition planBulkRetryPass (snapshot : BulkOperationSnapshot) (result : BulkOperationResult)
  : option BulkOperationResult :=
  match retry result with
  | Some _ => None
  | None =>
      let failedSet := failedIds result in
      if (length (uniq failedSet) =? 0)%nat then None
      else
        let ids := List.filter (fun id => includes id failedSet) (assetIds snapshot) in
        let count := JInt (Z.of_nat (length ids)) in
        let kept := List.filter (fun item => negb (is_failed item && includes (itemId item) failedSet)) (items result) in
        Some (set_retry
                (set_counts (set_items result kept (itemsTruncated result))
                   (succeeded result) (num_max (JInt 0) (num_sub (failed result) count)) (skipped result))
                (Some {| ids := ids; retryTotal := count; retryProcessed := JInt 0; retryInFlight := None |}))
  end.

(** ** Starting dates of a relative shift *)

Definition isRelativeDateShift (snapshot : BulkOperationSnapshot) : bool :=
  bool_decide (action snapshot = ChangeDate) &&
  bool_decide (as_string (obj_get (payload snapshot) "dateMode") = Some "shift"%string).

(** [current] is the reader's answer: a capture date, or [null]. *)
Definition recordShiftOrigins (result : BulkOperationResult) (ids : list string)
    (current : gmap string (option Z)) : BulkOperationResult :=
  set_shiftFrom result
    (foldl (fun shiftFrom id =>
       if assoc_has id shiftFrom then shiftFrom
       else match current !! id with
            | None => shiftFrom
            | Some value => assoc_set id (option_map to_iso value) shiftFrom
            end) (shiftFrom result) ids).

Definition slice_z (from size : Z) (l : list string) : list string := take (Z.to_nat size) (drop (Z.to_nat from) l).

Definition pruneShiftOrigins (snapshot : BulkOperationSnapshot) (result : BulkOperationResult) : BulkOperationResult :=
  if (length (shiftFrom result) =? 0)%nat then result
  else
    let keep := failedIds result ++ bulkRetryPending result in
    let keep := keep ++ match inFlight result with
                        | Some f => slice_z (start f) (size f) (assetIds snapshot)
                        | None => []
                        end in
    let keep := keep ++ match retry result with
                        | Some pass => match retryInFlight pass with
                                       | Some f => slice_z (start f) (size f) (ids pass)
                                       | None => []
                                       end
                        | None => []
                        end in
    set_shiftFrom result (List.filter (fun kv => includes (fst kv) keep) (shiftFrom result)).

Definition carriedShiftOrigins (result : BulkOperationResult) (ids : list string) : ShiftFrom :=
  foldl (fun origins id => match assoc_get id (shiftFrom result) with
                           | Some from => assoc_set id from origins
                           | None => origins
                           end) [] ids.

(** ** Batches *)

Fixpoint chunk_loop (fuel : nat) (width : nat) (rest : list string) : list (list string) :=
  match fuel, rest with
  | O, _ | _, [] => []
  | S fuel', _ => take width rest :: chunk_loop fuel' width (drop width rest)
  end.

(** [width > 0], so one step per id is enough. *)
Definition chunkIds (ids : list string) (size : jsnum) : list (list string) :=
  let width := match size with
               | JInt z => if is_safe_integer z && (0 <? z) then z else BULK_BATCH_SIZE
               | _ => BULK_BATCH_SIZE
               end in
  chunk_loop (length ids) (Z.to_nat width) ids.

(** ** Errors *)

Definition ACCESS_DENIED_PREFIX : string := "Not found or no ".

(** A thrown value: an [Error] with its fields, or anything else. *)
Inductive thrown :=
| ErrorObject (fields : list (string * json))
| ThrownValue (value : json).

(** [error?.field]. *)
Definition thrown_get (error : thrown) (k : string) : option json :=
  match error with ErrorObject fields => obj_get fields k | ThrownValue v => json_get v k end.

Definition classifyBulkError (error : thrown) : ItemStatus.MediaOperationItemStatus * string :=
  let message := default ""%string (as_string (thrown_get error "message")) in
  let status := default (JInt 0) (as_num (thrown_get error "status")) in
  if bool_decide (status = JInt 403) || starts_with ACCESS_DENIED_PREFIX message
  then (ItemStatus.Skipped, "frameleaf_bulk_reason_no_permission"%string)
  else (ItemStatus.Failed, "frameleaf_bulk_reason_failed"%string).

Definition bulkErrorMessage (error : thrown) : string :=
  match error with
  | ErrorObject fields => default ""%string (as_string (obj_get fields "message"))
  | ThrownValue (JStr s) => s
  | ThrownValue _ => "Unknown error"
  end.

(** ** Permissions *)

Definition BULK_ACTION_PERMISSIONS (action : MediaOperationBulkAction) : list Perm.Permission :=
  match action with
  | Favorite => [Perm.AssetUpdate]
  | Unfavorite => [Perm.AssetUpdate]
  | Archive => [Perm.AssetUpdate]
  | Unarchive => [Perm.AssetUpdate]
  | AddToAlbum => [Perm.AlbumAssetCreate; Perm.AssetShare]
  | RemoveFromAlbum => [Perm.AlbumAssetDelete]
  | Tag => [Perm.TagAsset; Perm.AssetUpdate]
  | Untag => [Perm.TagAsset]
  | ChangeDate => [Perm.AssetUpdate]
  | ChangeDescription => [Perm.AssetUpdate]
  | ChangeLocation => [Perm.AssetUpdate]
  | MarkSensitive => [Perm.AssetUpdate]
  | UnmarkSensitive => [Perm.AssetUpdate]
  | Delete => [Perm.AssetDelete]
  | DeletePermanently => [Perm.AssetDelete]
  | Restore => [Perm.AssetDelete]
  | Stack => [Perm.AssetUpdate; Perm.StackCreate]
  | Unstack => [Perm.StackDelete]
  | RefreshThumbnails => [Perm.AssetUpdate]
  | RefreshMetadata => [Perm.AssetUpdate]
  | RefreshEncoded => [Perm.AssetUpdate]
  | RefreshFaces => [Perm.AssetUpdate]
  | RelinkLivePhoto => [Perm.AssetUpdate]
  | ResolveDuplicates => [Perm.DuplicateDelete; Perm.AssetDelete; Perm.AssetUpdate; Perm.StackCreate]
  | UndoDuplicates => [Perm.DuplicateDelete; Perm.AssetDelete; Perm.AssetUpdate; Perm.StackDelete]
  | RelinkMissingMedia => [Perm.AssetUpdate]
  | RecoverDamagedMedia => [Perm.AssetUpdate]
  | TrashDamagedMedia => [Perm.AssetDelete]
  | ApplyClassificationRule => [Perm.AlbumUpdate; Perm.AssetUpdate]
  end.

Definition BULK_ITEM_PERMISSION (action : MediaOperationBulkAction) : option Perm.Permission :=
  match action with
  | Favorite => Some Perm.AssetUpdate
  | Unfavorite => Some Perm.AssetUpdate
  | Archive => Some Perm.AssetUpdate
  | Unarchive => Some Perm.AssetUpdate
  | AddToAlbum => None
  | RemoveFromAlbum => None
  | Tag => Some Perm.AssetUpdate
  | Untag => None
  | ChangeDate => Some Perm.AssetUpdate
  | ChangeDescription => Some Perm.AssetUpdate
  | ChangeLocation => Some Perm.AssetUpdate
  | MarkSensitive => Some Perm.AssetUpdate
  | UnmarkSensitive => Some Perm.AssetUpdate
  | Delete => Some Perm.AssetDelete
  | DeletePermanently => Some Perm.AssetDelete
  | Restore => Some Perm.AssetDelete
  | Stack => Some Perm.AssetUpdate
  | Unstack => None
  | RefreshThumbnails => Some Perm.AssetUpdate
  | RefreshMetadata => Some Perm.AssetUpdate
  | RefreshEncoded => Some Perm.AssetUpdate
  | RefreshFaces => Some Perm.AssetUpdate
  | RelinkLivePhoto => None
  | ResolveDuplicates => None
  | UndoDuplicates => None
  | RelinkMissingMedia => None
  | RecoverDamagedMedia => None
  | TrashDamagedMedia => None
  | ApplyClassificationRule => None
  end.

(** ** Batches of duplicate decisions *)

Definition isDuplicateDecisionAction (action : MediaOperationBulkAction) : bool :=
  bool_decide (action = ResolveDuplicates) || bool_decide (action = UndoDuplicates).

Definition bulkGroupIndex (snapshot : BulkOperationSnapshot) : option (gmap string string) :=
  if isDuplicateDecisionAction (action snapshot)
  then Some (duplicateGroupIndex (parseDuplicateGroups (obj_get (payload snapshot) "duplicateGroups")))
  else None.

Definition bulkBatchLength (ids : list string) (start size : nat) (groupIndex : option (gmap string string)) : nat :=
  match groupIndex with
  | Some index => groupAlignedBatchSize ids start size index
  | None => Nat.min size (length ids - start)
  end.

Definition BULK_ASSET_JOBS (action : MediaOperationBulkAction) : option JobAction.AssetJobName :=
  match action with
  | RefreshThumbnails => Some JobAction.REGENERATE_THUMBNAIL
  | RefreshMetadata => Some JobAction.REFRESH_METADATA
  | RefreshEncoded => Some JobAction.TRANSCODE_VIDEO
  | RefreshFaces => Some JobAction.REFRESH_FACES
  | _ => None
  end.

(** The written fields; a field may be present and [undefined]. *)
Definition bulkAssetUpdate (action : MediaOperationBulkAction) (payload : BulkOperationPayload)
  : option (list (string * option json)) :=
  match action with
  | Favorite => Some [("isFavorite"%string, Some (JBool true))]
  | Unfavorite => Some [("isFavorite"%string, Some (JBool false))]
  | Archive => Some [("visibility"%string, Some (JStr (Visibility.value Visibility.Archive)))]
  | Unarchive => Some [("visibility"%string, Some (JStr (Visibility.value Visibility.Timeline)))]
  | ChangeDate =>
      if bool_decide (as_string (obj_get payload "dateMode") = Some "shift"%string) then None
      else Some (("dateTimeOriginal"%string, obj_get payload "dateTimeOriginal") ::
                 (if truthy (obj_get payload "timeZone") then [("timeZone"%string, obj_get payload "timeZone")] else []))
  | ChangeDescription =>
      Some [("description"%string, Some (default (JStr "") (nullish (obj_get payload "description"))))]
  | ChangeLocation =>
      Some [("latitude", obj_get payload "latitude"); ("longitude", obj_get payload "longitude")]%string
  | _ => None
  end.

(** ** Payload checks *)

Definition arr_or_empty (v : option json) : list json := default [] (as_arr v).

(** [new Set(list.map((entry) => entry.key))] of string fields, and its comparison with a list. *)
Definition field_values (key : string) (l : list json) : list (option string) :=
  map (fun entry => as_string (json_get entry key)) l.
Definition set_size {A} `{EqDecision A} (l : list A) : nat := length (uniq l).
Definition names_exactly (values : list (option string)) (assetIds : list string) : bool :=
  (set_size values =? set_size assetIds)%nat &&
  forallb (fun v => match v with Some id => includes id assetIds | None => false end) values.

Section payload.
Variable other_formats : string -> option Z.
(** Whether the host's time zone data has a zone of this name. *)
Variable isTimeZone : string -> bool.

Definition dateProblem (payload : BulkOperationPayload) : option string :=
  if bool_decide (as_string (obj_get payload "dateMode") = Some "shift"%string) then
    match as_num (obj_get payload "minutes") with
    | Some n => if num_is_safe_integer n && negb (bool_decide (n = JInt 0)) then None
                else Some "A whole, non-zero number of minutes is required to shift dates"%string
    | None => Some "A whole, non-zero number of minutes is required to shift dates"%string
    end
  else
    match as_string (obj_get payload "dateTimeOriginal") with
    | Some d =>
        if String.eqb d "" || negb (bool_decide (is_Some (date_parse other_formats d)))
        then Some "A valid date is required for this action"%string
        else
          match as_string (obj_get payload "timeZone") with
          | Some tz => if String.eqb tz "" || isTimeZone tz then None else Some "The time zone is not recognised"%string
          | None => None
          end
    | None => Some "A valid date is required for this action"%string
    end.

Definition relinkProblem (payload : BulkOperationPayload) (assetIds : list string) : option string :=
  let pairs := arr_or_empty (obj_get payload "pairs") in
  if (length pairs =? 0)%nat then Some "At least one still + video pair is required for this action"%string
  else
    let photoIds := field_values "photoId" pairs in
    let videoIds := field_values "videoId" pairs in
    if negb (set_size photoIds =? length pairs)%nat || negb (set_size videoIds =? length pairs)%nat
    then Some "Each still and each video may appear in only one pair"%string
    else if existsb (fun pair => bool_decide (as_string (json_get pair "photoId") = as_string (json_get pair "videoId"))) pairs
    then Some "A still cannot be paired with itself"%string
    else if names_exactly photoIds assetIds then None
    else Some "Every pair must name one of the selected still images"%string.

Definition healthProblem (action : MediaOperationBulkAction) (payload : BulkOperationPayload) (assetIds : list string)
  : option string :=
  let entries := arr_or_empty (obj_get payload "mediaHealth") in
  if (length entries =? 0)%nat then Some "At least one finding is required for this action"%string
  else
    let needsCandidate := negb (bool_decide (action = TrashDamagedMedia)) in
    if needsCandidate && existsb (fun entry => negb (truthy (json_get entry "candidateId"))) entries
    then Some "Every finding needs a reviewed candidate for this action"%string
    else
      let entryAssetIds := field_values "assetId" entries in
      let findingIds := field_values "findingId" entries in
      if negb (set_size entryAssetIds =? length entries)%nat || negb (set_size findingIds =? length entries)%nat
      then Some "Each item and each finding may appear only once"%string
      else if names_exactly entryAssetIds assetIds then None
      else Some "Every finding must name one of the selected items"%string.

Definition bulkPayloadProblem (action : MediaOperationBulkAction) (payload : BulkOperationPayload)
    (assetIds : list string) : option string :=
  match action with
  | AddToAlbum | RemoveFromAlbum =>
      if truthy (obj_get payload "albumId") then None else Some "An album is required for this action"%string
  | Tag | Untag =>
      if (0 <? length (arr_or_empty (obj_get payload "tagIds")))%nat then None
      else Some "At least one tag is required for this action"%string
  | ApplyClassificationRule =>
      if truthy (obj_get payload "classificationRuleId") then None
      else Some "A classification rule is required for this action"%string
  | ChangeDate => dateProblem payload
  | ChangeDescription =>
      match obj_get payload "description" with
      | Some (JStr _) => None
      | _ => Some "A description is required for this action"%string
      end
  | ChangeLocation =>
      match as_num (obj_get payload "latitude"), as_num (obj_get payload "longitude") with
      | Some _, Some _ => None
      | _, _ => Some "Latitude and longitude are required for this action"%string
      end
  | Stack =>
      if (length assetIds <? 2)%nat then Some "A stack needs at least two items"%string
      else
        match as_string (obj_get payload "primaryId") with
        | Some p => if String.eqb p "" || includes p assetIds then None
                    else Some "The primary item must be one of the selected items"%string
        | None => None
        end
  | Unstack =>
      if (0 <? length (arr_or_empty (obj_get payload "stackIds")))%nat then None
      else Some "At least one stack is required for this action"%string
  | RelinkLivePhoto => relinkProblem payload assetIds
  | ResolveDuplicates | UndoDuplicates =>
      let groups := parseDuplicateGroups (obj_get payload "duplicateGroups") in
      match obj_get payload "duplicateGroups" with
      | Some (JArr raw) =>
          if negb (length groups =? length raw)%nat
          then Some "Every duplicate group needs a group, a decision and its photos"%string
          else duplicateDecisionProblem groups assetIds (bool_decide (action = UndoDuplicates))
      | _ => Some "Every duplicate group needs a group, a decision and its photos"%string
      end
  | RelinkMissingMedia | RecoverDamagedMedia | TrashDamagedMedia => healthProblem action payload assetIds
  | _ => None
  end.
End payload.

(** ** Labels, answers, progress *)

Fixpoint replace_dashes (s : string) : string :=
  match s with
  | EmptyString => EmptyString
  | String c s' => String (if Ascii.eqb c "-" then " "%char else c) (replace_dashes s')
  end.

Definition bulkOperationLabel (action : MediaOperationBulkAction) (count : Z) : string :=
  (replace_dashes (BulkAction.value action) +:+ " (" +:+ string_of_int count +:+ " " +:+
   (if (count =? 1)%Z then "item" else "items") +:+ ")")%string.

Record BulkIdResponse := mkResponse {
  respId : string;
  success : bool;
  error : option string;
  errorMessage : option string
}.

Definition fromBulkIdResponse (response : BulkIdResponse) : BulkOperationItem :=
  if success response then mkItem (respId response) ItemStatus.Ok None None
  else
    let refused st := mkItem (respId response) st
      (Some ("frameleaf_bulk_reason_" +:+ default "failed"%string (error response))%string) (errorMessage response) in
    match error response with
    | Some e => if includes e ["duplicate"; "not_found"; "no_permission"]%string
                then refused ItemStatus.Skipped else refused ItemStatus.Failed
    | None => refused ItemStatus.Failed
    end.

Definition bulkProgress (processed requested : Z) : Q :=
  if 0 <? requested
  then Qmin (inject_Z 100) (Qmax 0 (fl (math_round (fl (fl (inject_Z processed / inject_Z requested) * inject_Z 10000)) # 100)))
  else 0.

(** ** Lemmas *)

Lemma num_add_int (x y : Z) : Z.abs (x + y) < 2 ^ 53 -> num_add (JInt x) (JInt y) = JInt (x + y).
Proof. intros H. unfold num_add. by rewrite fl_int_exact. Qed.
Lemma num_sub_int (x y : Z) : Z.abs (x - y) < 2 ^ 53 -> num_sub (JInt x) (JInt y) = JInt (x - y).
Proof. intros H. unfold num_sub. by rewrite fl_int_exact. Qed.
Lemma num_max_int (x y : Z) : num_max (JInt x) (JInt y) = JInt (Z.max x y).
Proof. unfold num_max. rewrite num_le_int. destruct (Z.leb_spec x y); f_equal; lia. Qed.
Lemma num_min_int (x y : Z) : num_min (JInt x) (JInt y) = JInt (Z.min x y).
Proof. unfold num_min. rewrite num_le_int. destruct (Z.leb_spec x y); f_equal; lia. Qed.
Lemma num_index_int (x : Z) : num_index (JInt x) = x.
Proof. unfold num_index, num_q; simpl. apply Z.quot_1_r. Qed.

(** *** Counting outcomes *)

Definition count_status (st : ItemStatus.MediaOperationItemStatus) (l : list BulkOperationItem) : Z :=
  Z.of_nat (length (List.filter (fun item => bool_decide (itemStatus item = st)) l)).
Definition is_refusal (item : BulkOperationItem) : bool := negb (bool_decide (itemStatus item = ItemStatus.Ok)).

Lemma count_status_cons st item l :
  count_status st (item :: l) = (if decide (itemStatus item = st) then 1 else 0) + count_status st l.
Proof. unfold count_status; simpl. case_bool_decide; case_decide; simpl; try done; lia. Qed.
Lemma count_status_nonneg st l : 0 <= count_status st l.
Proof. unfold count_status. lia. Qed.
Lemma count_status_total l :
  count_status ItemStatus.Ok l + count_status ItemStatus.Failed l + count_status ItemStatus.Skipped l = Z.of_nat (length l).
Proof.
  induction l as [|item l IH]; [done|]. rewrite !count_status_cons. cbn [length]. rewrite Nat2Z.inj_succ.
  destruct (itemStatus item); repeat case_decide; try done; lia.
Qed.

(** A result with integer counts. *)
Record counted (r : BulkOperationResult) (s f k : Z) : Prop := mkCounted {
  counted_succeeded : succeeded r = JInt s;
  counted_failed : failed r = JInt f;
  counted_skipped : skipped r = JInt k;
  counted_nonneg : 0 <= s /\ 0 <= f /\ 0 <= k
}.

Lemma counted_processed r s f k : counted r s f k -> s + f + k < 2 ^ 53 -> bulkProcessedCount r = JInt (s + f + k).
Proof.
  intros [Hs Hf Hk (? & ? & ?)] Hb. unfold bulkProcessedCount. rewrite Hs, Hf, Hk, !num_add_int; [done|lia|lia].
Qed.

Lemma take_snoc_full {A} (n : nat) (l : list A) x rest : (n <= length l)%nat -> take n (l ++ x :: rest) = take n l.
Proof. intros. by rewrite take_app_le. Qed.

Lemma record_item_spec r o :
  (length (items r) <= BULK_RECORDED_ITEM_LIMIT)%nat ->
  items (record_item r o) = take BULK_RECORDED_ITEM_LIMIT (items r ++ [o]) /\
  itemsTruncated (record_item r o) = itemsTruncated r || (BULK_RECORDED_ITEM_LIMIT <? length (items r) + 1)%nat.
Proof.
  intros Hlen. unfold record_item.
  destruct (Nat.ltb_spec (length (items r)) BULK_RECORDED_ITEM_LIMIT) as [Hl|Hl]; cbn [items itemsTruncated set_items].
  - rewrite take_ge by (rewrite length_app; simpl; lia).
    destruct (Nat.ltb_spec BULK_RECORDED_ITEM_LIMIT (length (items r) + 1)); [lia|]. by rewrite orb_false_r.
  - rewrite take_snoc_full, take_ge by lia.
    destruct (Nat.ltb_spec BULK_RECORDED_ITEM_LIMIT (length (items r) + 1)); [|lia]. by rewrite orb_true_r.
Qed.

Lemma record_item_other r o :
  succeeded (record_item r o) = succeeded r /\ failed (record_item r o) = failed r /\
  skipped (record_item r o) = skipped r /\ requested (record_item r o) = requested r /\
  inFlight (record_item r o) = inFlight r /\ retry (record_item r o) = retry r /\
  shiftFrom (record_item r o) = shiftFrom r.
Proof. unfold record_item. by destruct (_ <? _)%nat. Qed.

Lemma merge_step_other r o :
  requested (merge_step r o) = requested r /\ inFlight (merge_step r o) = inFlight r /\
  retry (merge_step r o) = retry r /\ shiftFrom (merge_step r o) = shiftFrom r.
Proof.
  unfold merge_step. destruct (itemStatus o); [done| |];
    match goal with |- context [record_item ?x ?y] => pose proof (record_item_other x y) end; cbn in *; tauto.
Qed.

Lemma merge_step_counts r o s f k :
  counted r s f k -> s + f + k + 1 < 2 ^ 53 ->
  counted (merge_step r o)
    (s + (if decide (itemStatus o = ItemStatus.Ok) then 1 else 0))
    (f + (if decide (itemStatus o = ItemStatus.Failed) then 1 else 0))
    (k + (if decide (itemStatus o = ItemStatus.Skipped) then 1 else 0)).
Proof.
  intros [Hs Hf Hk (? & ? & ?)] Hb. unfold merge_step, JOne.
  destruct (itemStatus o); repeat (case_decide; try congruence); rewrite ?Z.add_0_r.
  - rewrite Hs, num_add_int by lia. split; cbn; first [done|lia].
  - rewrite Hk, num_add_int by lia.
    match goal with |- counted (record_item ?x ?y) _ _ _ => destruct (record_item_other x y) as (E1 & E2 & E3 & _) end.
    cbn [succeeded failed skipped set_counts] in E1, E2, E3. split; rewrite ?E1, ?E2, ?E3; first [done|lia].
  - rewrite Hf, num_add_int by lia.
    match goal with |- counted (record_item ?x ?y) _ _ _ => destruct (record_item_other x y) as (E1 & E2 & E3 & _) end.
    cbn [succeeded failed skipped set_counts] in E1, E2, E3. split; rewrite ?E1, ?E2, ?E3; first [done|lia].
Qed.

Lemma merge_step_items r o :
  (length (items r) <= BULK_RECORDED_ITEM_LIMIT)%nat ->
  items (merge_step r o) = take BULK_RECORDED_ITEM_LIMIT (items r ++ List.filter is_refusal [o]) /\
  itemsTruncated (merge_step r o) =
    itemsTruncated r || (BULK_RECORDED_ITEM_LIMIT <? length (items r) + length (List.filter is_refusal [o]))%nat.
Proof.
  intros Hlen. unfold merge_step, is_refusal; cbn [List.filter].
  destruct (itemStatus o); case_bool_decide; try congruence; cbn [negb length].
  - cbn [items set_counts itemsTruncated]. rewrite app_nil_r, Nat.add_0_r, take_ge by done.
    destruct (Nat.ltb_spec BULK_RECORDED_ITEM_LIMIT (length (items r))); [lia|]. by rewrite orb_false_r.
  - match goal with |- context [record_item ?x ?y] => exact (record_item_spec x y Hlen) end.
  - match goal with |- context [record_item ?x ?y] => exact (record_item_spec x y Hlen) end.
Qed.

Lemma merge_fold_items outcomes r :
  (length (items r) <= BULK_RECORDED_ITEM_LIMIT)%nat ->
  items (mergeBulkOutcomes r outcomes) = take BULK_RECORDED_ITEM_LIMIT (items r ++ List.filter is_refusal outcomes) /\
  itemsTruncated (mergeBulkOutcomes r outcomes) =
    itemsTruncated r || (BULK_RECORDED_ITEM_LIMIT <? length (items r) + length (List.filter is_refusal outcomes))%nat.
Proof.
  unfold mergeBulkOutcomes. revert r; induction outcomes as [|o outcomes IH]; intros r Hlen; cbn [foldl].
  - cbn [List.filter length]. rewrite app_nil_r, Nat.add_0_r, take_ge by done.
    destruct (Nat.ltb_spec BULK_RECORDED_ITEM_LIMIT (length (items r))); [lia|]. by rewrite orb_false_r.
  - destruct (merge_step_items r o Hlen) as [E1 E2].
    destruct (IH (merge_step r o)) as [I1 I2]; [rewrite E1, length_take; lia|]. rewrite I1, I2, E1, E2.
    change (o :: outcomes) with ([o] ++ outcomes). rewrite List.filter_app, length_app, app_assoc.
    set (a := items r ++ List.filter is_refusal [o]). set (b := List.filter is_refusal outcomes).
    assert (length a = (length (items r) + length (List.filter is_refusal [o]))%nat) as Ha by apply length_app.
    rewrite <- Ha, Nat.add_assoc, <- Ha, length_take. split.
    + destruct (Nat.le_gt_cases (length a) BULK_RECORDED_ITEM_LIMIT); [by rewrite (take_ge a)|].
      rewrite !take_app_le by (rewrite ?length_take; lia). by rewrite take_take, Nat.min_id.
    + rewrite <- orb_assoc. f_equal.
      destruct (Nat.ltb_spec BULK_RECORDED_ITEM_LIMIT (length a)),
        (Nat.ltb_spec BULK_RECORDED_ITEM_LIMIT (Nat.min BULK_RECORDED_ITEM_LIMIT (length a) + length b)),
        (Nat.ltb_spec BULK_RECORDED_ITEM_LIMIT (length a + length b)); simpl; first [done|lia].
Qed.

Lemma merge_fold_counts outcomes r s f k :
  counted r s f k -> s + f + k + Z.of_nat (length outcomes) < 2 ^ 53 ->
  counted (mergeBulkOutcomes r outcomes) (s + count_status ItemStatus.Ok outcomes)
    (f + count_status ItemStatus.Failed outcomes) (k + count_status ItemStatus.Skipped outcomes).
Proof.
  unfold mergeBulkOutcomes. revert r s f k; induction outcomes as [|o outcomes IH]; intros r s f k Hr Hb; cbn [foldl].
  - unfold count_status; cbn. by rewrite !Z.add_0_r.
  - cbn [length] in Hb. rewrite !count_status_cons, !Z.add_assoc.
    apply IH; [apply merge_step_counts; [done|lia]|].
    destruct (itemStatus o); repeat (case_decide; try congruence); lia.
Qed.

Lemma merge_fold_other outcomes r :
  requested (mergeBulkOutcomes r outcomes) = requested r /\ inFlight (mergeBulkOutcomes r outcomes) = inFlight r /\
  retry (mergeBulkOutcomes r outcomes) = retry r /\ shiftFrom (mergeBulkOutcomes r outcomes) = shiftFrom r.
Proof.
  unfold mergeBulkOutcomes. revert r; induction outcomes as [|o outcomes IH]; intros r; [done|]. cbn [foldl].
  destruct (merge_step_other r o) as (E1 & E2 & E3 & E4). destruct (IH (merge_step r o)) as (I1 & I2 & I3 & I4).
  by rewrite I1, I2, I3, I4, E1, E2, E3, E4.
Qed.

(** *** The retry pass *)

Lemma failedIds_elem r x : x ∈ failedIds r <-> exists item, item ∈ items r /\ itemId item = x /\ itemStatus item = ItemStatus.Failed.
Proof.
  unfold failedIds. rewrite list_elem_of_fmap. split.
  - intros (item & -> & Hin). apply elem_of_filter_b in Hin as [Hin Hf]. exists item.
    unfold is_failed in Hf. to_prop. done.
  - intros (item & Hin & <- & Hf). exists item. split; [done|]. apply elem_of_filter_b. split; [done|].
    unfold is_failed. by rewrite bool_decide_eq_true_2.
Qed.

Lemma planBulkRetryPass_Some snapshot r planned :
  planBulkRetryPass snapshot r = Some planned ->
  retry r = None /\ failedIds r <> [] /\
  let retried := List.filter (fun id => includes id (failedIds r)) (assetIds snapshot) in
  retry planned = Some (mkRetry retried (JInt (Z.of_nat (length retried))) (JInt 0) None) /\
  failed planned = num_max (JInt 0) (num_sub (failed r) (JInt (Z.of_nat (length retried)))) /\
  items planned = List.filter (fun item => negb (is_failed item)) (items r) /\
  succeeded planned = succeeded r /\ skipped planned = skipped r /\ requested planned = requested r /\
  itemsTruncated planned = itemsTruncated r /\ inFlight planned = inFlight r /\ shiftFrom planned = shiftFrom r.
Proof.
  unfold planBulkRetryPass. destruct (retry r); [done|].
  destruct (Nat.eqb_spec (length (uniq (failedIds r))) 0) as [|Hne]; [done|]. intros [= <-].
  split; [done|]. split; [intros E; by rewrite E in Hne|]. cbn. split; [done|]. split; [done|]. split; [|done].
  assert (forall l, (forall item, item ∈ l -> item ∈ items r) ->
    List.filter (fun item => negb (is_failed item && includes (itemId item) (failedIds r))) l =
    List.filter (fun item => negb (is_failed item)) l) as Hall; [|by apply Hall].
  induction l as [|item l IH]; intros Hsub; [done|]. cbn [List.filter].
  rewrite IH by (intros; apply Hsub, elem_of_cons; by right).
  destruct (is_failed item) eqn:Hf; [|done]. simpl. unfold is_failed in Hf. to_prop.
  replace (includes (itemId item) (failedIds r)) with true; [done|]. symmetry. apply includes_true, failedIds_elem.
  exists item. split; [apply Hsub, elem_of_cons; by left|done].
Qed.

(** Recorded failures after planning: none. *)
Lemma planned_failedIds snapshot r planned : planBulkRetryPass snapshot r = Some planned -> failedIds planned = [].
Proof.
  intros (_ & _ & H)%planBulkRetryPass_Some. destruct H as (_ & _ & Hi & _). unfold failedIds. rewrite Hi. clear Hi.
  induction (items r) as [|item l IH]; [done|]. simpl. destruct (is_failed item) eqn:Hf; simpl; [exact IH|].
  rewrite Hf. exact IH.
Qed.

Lemma bulkRetryPending_start r ids total : retry r = Some (mkRetry ids total (JInt 0) None) -> bulkRetryPending r = ids.
Proof. intros E. unfold bulkRetryPending, slice_from. rewrite E. cbn [retryProcessed BulkOperation.ids]. by rewrite num_index_int. Qed.

Lemma filter_ext_b {A} (p q : A -> bool) (l : list A) : (forall x, x ∈ l -> p x = q x) -> List.filter p l = List.filter q l.
Proof. intros H. apply filter_ext_in. intros x Hx. by apply H, list_elem_of_In. Qed.

Lemma includes_app {A} `{EqDecision A} (x : A) l m : includes x (l ++ m) = includes x l || includes x m.
Proof.
  apply eq_true_iff_eq. by rewrite orb_true_iff, !includes_true, elem_of_app.
Qed.

(** *** Batches *)

Lemma chunk_loop_spec fuel width l : (0 < width)%nat -> (length l <= fuel)%nat ->
  concat (chunk_loop fuel width l) = l /\
  Forall (fun b => (0 < length b <= width)%nat) (chunk_loop fuel width l).
Proof.
  intros Hw. revert l; induction fuel as [|fuel IH]; intros l Hl.
  - destruct l; [by split|simpl in Hl; lia].
  - destruct l as [|x l]; [by split|]. cbn [chunk_loop concat]. destruct (IH (drop width (x :: l))) as [Hc Hf].
    + rewrite length_drop. simpl in *. lia.
    + rewrite Hc, take_drop. split; [done|]. constructor; [|done]. rewrite length_take. simpl. lia.
Qed.

(** Batches are non-empty, at most the width, and together exactly the ids in order. *)
Lemma chunkIds_spec l size :
  concat (chunkIds l size) = l /\ Forall (fun b => (0 < length b)%nat) (chunkIds l size).
Proof.
  unfold chunkIds. set (width := match size with JInt z => _ | _ => _ end).
  assert (0 < width) as Hw.
  { unfold width. destruct size as [z| | |]; try done. destruct (is_safe_integer z && (0 <? z)) eqn:E; [|done].
    to_prop. done. }
  destruct (chunk_loop_spec (length l) (Z.to_nat width) l) as [Hc Hf]; [lia|done|].
  split; [done|]. eapply Forall_impl; [exact Hf|]. simpl. lia.
Qed.

(** *** Payloads *)

Lemma names_exactly_spec values l : set_size values = length values -> NoDup l -> names_exactly values l = true ->
  exists names, values = map Some names /\ Permutation names l.
Proof.
  unfold set_size. intros Hv%uniq_length_NoDup Hl Hn. unfold names_exactly in Hn.
  apply andb_true_iff in Hn as [Hsz%Nat.eqb_eq Hall].
  unfold set_size in Hsz. rewrite !uniq_NoDup_id in Hsz by done.
  assert (exists names, values = map Some names /\ forall x, x ∈ names -> x ∈ l) as (names & E & Hsub).
  { clear Hsz Hv. induction values as [|v values IH]; [exists []; split; [done|]; by intros x ?%elem_of_nil|].
    simpl in Hall. apply andb_true_iff in Hall as [Hv Hall]. destruct (IH Hall) as (names & -> & Hsub).
    destruct v as [x|]; [|done]. apply includes_true in Hv. exists (x :: names). split; [done|].
    by intros y [->|Hy]%elem_of_cons; [|apply Hsub]. }
  exists names. split; [done|]. subst values. apply NoDup_fmap_1 in Hv.
  apply NoDup_Permutation_bis; [by apply NoDup_ListNoDup| |].
  - rewrite length_map in Hsz. lia.
  - intros x Hx. by apply list_elem_of_In, Hsub, list_elem_of_In.
Qed.

Lemma set_size_check (a b : list (option string)) n :
  negb (set_size a =? n)%nat || negb (set_size b =? n)%nat = false -> set_size a = n /\ set_size b = n.
Proof. rewrite orb_false_iff, !negb_false_iff, !Nat.eqb_eq. done. Qed.

Lemma healthProblem_None act p selected : healthProblem act p selected = None -> NoDup selected ->
  let entries := arr_or_empty (obj_get p "mediaHealth") in
  exists named, field_values "assetId" entries = map Some named /\ Permutation named selected /\
    NoDup (field_values "findingId" entries) /\
    (act <> TrashDamagedMedia -> Forall (fun entry => truthy (json_get entry "candidateId") = true) entries).
Proof.
  unfold healthProblem. cbv zeta. set (entries := arr_or_empty (obj_get p "mediaHealth")). intros H Hn.
  destruct (length entries =? 0)%nat; [discriminate H|].
  destruct (negb (bool_decide _) && _) eqn:E0; [discriminate H|].
  destruct (negb _ || _) eqn:E1; [discriminate H|]. apply set_size_check in E1 as [Ea Ef].
  destruct (names_exactly _ _) eqn:E3; [|discriminate H].
  assert (length (field_values "assetId" entries) = length entries) as L1 by apply length_map.
  assert (length (field_values "findingId" entries) = length entries) as L2 by apply length_map.
  destruct (names_exactly_spec (field_values "assetId" entries) selected ltac:(congruence) Hn E3) as (named & Hs & Hp). exists named.
  split; [done|]. split; [done|]. split; [apply uniq_length_NoDup; unfold set_size in Ef; congruence|].
  intros Hact. rewrite bool_decide_eq_false_2 in E0 by done. simpl in E0.
  apply Forall_forall. intros entry Hin. apply not_true_iff_false in E0.
  destruct (truthy (json_get entry "candidateId")) eqn:Ht; [done|]. destruct E0. apply existsb_exists.
  exists entry. split; [by apply list_elem_of_In|]. by rewrite Ht.
Qed.

Lemma strings_nonempty v x : x ∈ asStringArray v -> x <> ""%string.
Proof.
  unfold asStringArray, DuplicateReview.strings. destruct v as [[| | | |l|]|]; try (by intros ?%elem_of_nil).
  intros (item & _ & Hi)%list_elem_of_omap. destruct item as [| | |s| |]; try done.
  destruct (String.eqb_spec s ""); [done|]. by injection Hi as <-.
Qed.

(** *** Storing the result *)

Definition optional (k : string) (v : option string) : list (string * json) :=
  match v with Some s => [(k, JStr s)] | None => [] end.
Definition item_json (item : BulkOperationItem) : json :=
  JObj ([("id", JStr (itemId item)); ("status", JStr (ItemStatus.value (itemStatus item)))]%string ++
        optional "reasonKey" (reasonKey item) ++ optional "message" (message item)).
Definition inFlight_json (f : option InFlight) : json :=
  match f with
  | Some f => JObj [("start", JNum (JInt (start f))); ("size", JNum (JInt (size f)))]%string
  | None => JNull
  end.
Definition retry_json (r : option BulkRetryPass) : json :=
  match r with
  | Some r => JObj [("ids", JArr (map JStr (ids r))); ("total", JNum (retryTotal r));
                    ("processed", JNum (retryProcessed r)); ("inFlight", inFlight_json (retryInFlight r))]%string
  | None => JNull
  end.
Definition shift_json (l : ShiftFrom) : json :=
  JObj (map (fun '(k, v) => (k, match v with Some s => JStr s | None => JNull end)) l).

(** The value written to [media_operation.result]: missing fields have no key. *)
Definition result_json (r : BulkOperationResult) : json :=
  JObj [("requested", JNum (requested r)); ("succeeded", JNum (succeeded r)); ("failed", JNum (failed r));
        ("skipped", JNum (skipped r)); ("items", JArr (map item_json (items r)));
        ("itemsTruncated", JBool (itemsTruncated r)); ("inFlight", inFlight_json (inFlight r));
        ("retry", retry_json (retry r)); ("shiftFrom", shift_json (shiftFrom r))]%string.

Definition finite_num (n : jsnum) : Prop := num_is_finite n = true.
Definition inFlight_ok (f : option InFlight) : Prop :=
  match f with Some f => 0 <= start f < 2 ^ 53 /\ 0 < size f < 2 ^ 53 | None => True end.
Definition retry_ok (r : option BulkRetryPass) : Prop :=
  match r with
  | Some r => NoDup (ids r) /\ (forall x, x ∈ ids r -> x <> ""%string) /\ retryTotal r = JInt (Z.of_nat (length (ids r))) /\
              (exists p, retryProcessed r = JInt p /\ 0 <= p <= Z.of_nat (length (ids r)) /\ p < 2 ^ 53) /\
              inFlight_ok (retryInFlight r)
  | None => True
  end.

Section stored.
Variable other_formats : string -> option Z.

Definition shift_ok (l : ShiftFrom) : Prop :=
  NoDup (map fst l) /\ forall k s, (k, Some s) ∈ l -> is_Some (date_parse other_formats s).

(** Results the worker writes. *)
Definition storable (r : BulkOperationResult) : Prop :=
  truthy (Some (JNum (requested r))) = true /\ finite_num (requested r) /\ finite_num (succeeded r) /\ finite_num (failed r) /\
  finite_num (skipped r) /\ inFlight_ok (inFlight r) /\ retry_ok (retry r) /\ shift_ok (shiftFrom r).

Lemma asNumber_finite n : finite_num n -> asNumber (Some (JNum n)) = n.
Proof. unfold finite_num, asNumber. by intros ->. Qed.

Lemma parse_inFlight_json f : inFlight_ok f -> parseInFlight (Some (inFlight_json f)) = f.
Proof.
  destruct f as [[a b]|]; simpl; [|done]. intros [Ha Hb]. unfold parseInFlight; simpl.
  rewrite (proj2 (is_safe_integer_spec a)), (proj2 (is_safe_integer_spec b)) by lia.
  destruct (Z.leb_spec 0 a), (Z.ltb_spec 0 b); try lia. done.
Qed.

Lemma asStringArray_map l : (forall x, x ∈ l -> x <> ""%string) -> asStringArray (Some (JArr (map JStr l))) = l.
Proof.
  intros Hl. unfold asStringArray, DuplicateReview.strings. induction l as [|x l IH]; [done|].
  cbn [map]. rewrite omap_cons.
  destruct (String.eqb_spec x "") as [->|]; [destruct (Hl ""%string); [apply elem_of_cons; by left|done]|].
  rewrite IH; [done|]. intros y Hy. apply Hl, elem_of_cons. by right.
Qed.

Lemma parse_retry_json r : retry_ok r -> parseRetryPass (Some (retry_json r)) = r.
Proof.
  destruct r as [[l t p f]|]; [|done]. intros (Hn & He & Ht & (q & Hq & Hb & Hs) & Hf). cbn [ids retryTotal retryProcessed retryInFlight] in *.
  subst t p. unfold parseRetryPass. cbn [is_record retry_json ids retryTotal retryProcessed retryInFlight].
  cbn [obj_get String.eqb Ascii.eqb Bool.eqb]. rewrite asStringArray_map, uniq_NoDup_id, parse_inFlight_json by done.
  cbn [asNumber num_is_finite]. assert ((if (0 <? length l)%nat then JInt (Z.of_nat (length l)) else JInt (Z.of_nat (length l))) =
    JInt (Z.of_nat (length l))) as -> by (by destruct (0 <? length l)%nat).
  cbn [num_is_safe_integer]. rewrite (proj2 (is_safe_integer_spec q)) by lia.
  rewrite num_max_int, num_min_int. do 2 f_equal. f_equal. lia.
Qed.

Lemma parse_item_json item : parseItem (item_json item) = Some item.
Proof.
  destruct item as [id st rk msg]. unfold parseItem, item_json. cbn [is_record itemId itemStatus reasonKey message].
  destruct st, rk, msg; reflexivity.
Qed.

Lemma parse_shift_json l : shift_ok l -> parseShiftFrom other_formats (Some (shift_json l)) = l.
Proof.
  intros [Hn Hp]. unfold parseShiftFrom, shift_json; cbn [is_record].
  assert (forall done_, NoDup (map fst (done_ ++ l)) ->
    foldl (fun origins '(id, from) =>
        match from with
        | JNull => assoc_set id None origins
        | JStr s => match date_parse other_formats s with Some _ => assoc_set id (Some s) origins | None => origins end
        | _ => origins
        end) done_ (map (fun '(k, v) => (k, match v with Some s => JStr s | None => JNull end)) l) = done_ ++ l) as Hall.
  { clear Hn. induction l as [|[k v] l IH]; intros d Hd; cbn [map foldl]; [by rewrite app_nil_r|].
    assert (assoc_set k v d = d ++ [(k, v)]) as Hset.
    { rewrite map_app in Hd. apply NoDup_app in Hd as (_ & Hd & _).
      assert (k ∉ map fst d) as Hk by (intros Hin; apply (Hd k Hin); simpl; apply elem_of_cons; by left).
      clear Hd. induction d as [|[k2 v2] d IHd]; simpl in *; [done|]. rewrite elem_of_cons in Hk.
      rewrite decide_False by tauto. by rewrite IHd by tauto. }
    change ((k, v) :: l) with ([(k, v)] ++ l). rewrite app_assoc, <- Hset. destruct v as [s|].
    - destruct (Hp k s) as [t ->]; [apply elem_of_cons; by left|].
      rewrite IH; [done| |by rewrite Hset, <- app_assoc]. intros k' s' Hin. apply (Hp k' s'), elem_of_cons. by right.
    - rewrite IH; [done| |by rewrite Hset, <- app_assoc]. intros k' s' Hin. apply (Hp k' s'), elem_of_cons. by right. }
  apply (Hall []). done.
Qed.

(** Reading back what was written. *)
Lemma parse_result_json r n : storable r -> parseBulkResult other_formats (Some (result_json r)) n = r.
Proof.
  intros (Hr & H1 & H2 & H3 & H4 & Hf & Hp & Hs). unfold parseBulkResult, result_json. cbn [is_record].
  cbn [obj_get String.eqb Ascii.eqb Bool.eqb].
  rewrite !asNumber_finite, parse_inFlight_json, parse_retry_json, parse_shift_json by done.
  unfold num_or. rewrite Hr. destruct r as [rq s f k it tr fl rt sh]. cbn in *. f_equal.
  - induction it as [|i it IH]; [done|]. cbn [map]. by rewrite omap_cons, parse_item_json, IH.
  - by destruct tr.
Qed.
End stored.

(** ** Properties *)

(** Folding a batch into the result: the counts are exact, the recorded list is the first 1000
    refusals in order (successes are never listed), it is marked short exactly when a refusal was left
    out, and nothing else of the result changes. *)
Theorem mergeBulkOutcomes_exact (previous : BulkOperationResult) (outcomes : list BulkOperationItem) (s f k : Z)
    (Hc : counted previous s f k) (Hb : s + f + k + Z.of_nat (length outcomes) < 2 ^ 53)
    (Hlen : (length (items previous) <= 1000)%nat) :
  let r := mergeBulkOutcomes previous outcomes in
  let refusals := List.filter is_refusal outcomes in
  counted r (s + count_status ItemStatus.Ok outcomes) (f + count_status ItemStatus.Failed outcomes)
    (k + count_status ItemStatus.Skipped outcomes) /\
  bulkProcessedCount r = JInt (s + f + k + Z.of_nat (length outcomes)) /\
  items r = take 1000 (items previous ++ refusals) /\
  (itemsTruncated r = true <-> itemsTruncated previous = true \/ items r <> items previous ++ refusals) /\
  requested r = requested previous /\ inFlight r = inFlight previous /\ retry r = retry previous /\
  shiftFrom r = shiftFrom previous.
Proof.
  cbv zeta. pose proof (merge_fold_counts outcomes previous s f k Hc Hb) as Hr.
  split; [done|]. pose proof (count_status_total outcomes) as Ht. split.
  { rewrite (counted_processed _ _ _ _ Hr) by lia. f_equal. lia. }
  destruct (merge_fold_items outcomes previous Hlen) as [Hi Hu]. unfold BULK_RECORDED_ITEM_LIMIT in *.
  split; [done|]. split; [|by apply merge_fold_other].
  rewrite Hu, Hi, orb_true_iff, Nat.ltb_lt, <- length_app. split.
  - intros [|Hlt]; [by left|]. right. intros E. apply (f_equal length) in E. rewrite length_take in E. lia.
  - intros [|Hne]; [by left|]. right.
    destruct (Nat.lt_ge_cases 1000 (length (items previous ++ List.filter is_refusal outcomes))) as [|Hge]; [done|].
    destruct Hne. by apply take_ge.
Qed.

Lemma mergeBulkOutcomes_exact_witness :
  let outcomes := [mkItem "a" ItemStatus.Ok None None; mkItem "b" ItemStatus.Failed None None] in
  bulkProcessedCount (mergeBulkOutcomes (emptyBulkResult (JInt 3)) outcomes) = JInt 2.
Proof.
  intros outcomes. apply (mergeBulkOutcomes_exact (emptyBulkResult (JInt 3)) outcomes 0 0 0).
  - by split.
  - by vm_compute.
  - simpl. lia.
Defined.

(** The automatic retry pass: it is planned only from a result that has recorded failures and no
    pass yet, and then moves them all, in snapshot order and once each, out of the list and the failed
    count and into the pass, so that answered plus waiting items stay the same; it is never planned
    again; and a manual retry asked for afterwards covers exactly what it would have covered before. *)
Theorem planBulkRetryPass_exact (snapshot : BulkOperationSnapshot) (r planned : BulkOperationResult) (s f k : Z)
    (H : planBulkRetryPass snapshot r = Some planned) (Hn : NoDup (assetIds snapshot))
    (Hc : counted r s f k) (Hf : Z.of_nat (length (failedIds r)) <= f) (Hd : NoDup (failedIds r))
    (Hsub : forall x, x ∈ failedIds r -> x ∈ assetIds snapshot) (Hb : s + f + k < 2 ^ 53) :
  exists pass, retry planned = Some pass /\ Permutation (ids pass) (failedIds r) /\ ids pass <> [] /\
    bulkRetryPending planned = ids pass /\ failedIds planned = [] /\
    bulkProcessedCount planned = JInt (s + f + k - Z.of_nat (length (ids pass))) /\
    planBulkRetryPass snapshot planned = None /\
    (forall processed, bulkResumeIds snapshot planned processed = bulkResumeIds snapshot r processed).
Proof.
  pose proof (planned_failedIds _ _ _ H) as Hnone.
  apply planBulkRetryPass_Some in H as (Hretry & Hne & Hp). cbv zeta in Hp.
  destruct Hp as (Hpass & Hfail & Hitems & Hs & Hk & _).
  set (retried := List.filter (fun id => includes id (failedIds r)) (assetIds snapshot)) in *.
  assert (Permutation retried (failedIds r)) as Hperm.
  { apply NoDup_Permutation; [by apply NoDup_filter_b|done|]. intros x. unfold retried.
    rewrite elem_of_filter_b, includes_true. split; [tauto|]. intros Hx. split; [by apply Hsub|done]. }
  pose proof (Permutation_length Hperm) as Hlen.
  eexists. split; [exact Hpass|]. cbn [ids]. split; [done|]. split.
  { intros E. rewrite E in Hperm. by apply Permutation_nil_l in Hperm. }
  split; [by eapply bulkRetryPending_start|]. split; [done|]. destruct Hc as [Hs' Hf' Hk' (? & ? & ?)]. split.
  { rewrite Hf', num_sub_int, num_max_int, Z.max_r in Hfail by lia.
    rewrite (counted_processed planned s (f - Z.of_nat (length retried)) k); [f_equal; lia| |lia].
    split; [congruence|done|congruence|lia]. }
  split.
  { unfold planBulkRetryPass. by rewrite Hpass. }
  intros processed. unfold bulkResumeIds. rewrite Hnone, (bulkRetryPending_start _ _ _ Hpass).
  unfold bulkRetryPending. rewrite Hretry, app_nil_r.
  apply filter_ext_b. intros x Hx. rewrite includes_app. cbn [includes].
  replace (includes x []) with false by done. simpl.
  replace (includes x retried) with (includes x (failedIds r)); [apply orb_comm|].
  apply eq_true_iff_eq. by rewrite !includes_true, Hperm.
Qed.

Lemma planBulkRetryPass_exact_witness :
  let snapshot := mkSnapshot Favorite ["a"; "b"; "c"]%string [] None false None None None false in
  let r := mkResult (JInt 3) (JInt 1) (JInt 2) (JInt 0)
    [mkItem "b" ItemStatus.Failed None None; mkItem "a" ItemStatus.Failed None None] false None None [] in
  exists pass, option_map retry (planBulkRetryPass snapshot r) = Some (Some pass) /\ Permutation (ids pass) ["b"; "a"]%string.
Proof.
  intros snapshot r. destruct (planBulkRetryPass snapshot r) as [planned|] eqn:E; [|discriminate E].
  destruct (planBulkRetryPass_exact snapshot r planned 1 2 0 E) as (pass & H1 & H2 & _).
  - apply (bool_decide_unpack _). vm_compute. exact I.
  - by split.
  - vm_compute. discriminate.
  - apply (bool_decide_unpack _). vm_compute. exact I.
  - intros x Hx. unfold failedIds, r in Hx. cbn in Hx.
    apply elem_of_cons in Hx as [->|Hx]; [|apply list_elem_of_singleton in Hx as ->].
    + apply elem_of_cons. right. apply elem_of_cons. by left.
    + apply elem_of_cons. by left.
  - by vm_compute.
  - exists pass. simpl. split; [by rewrite H1|exact H2].
Defined.

(** A submission that passes the payload check can be worked item by item: the pairs of a relink
    and the findings of a Library Care fix name each selected item exactly once (distinct videos,
    no still paired with itself, distinct findings, a candidate wherever one is needed); duplicate
    decisions pass the group rules with nothing dropped by the parser; a stack has two items and its
    cover among them; a date change has a readable date or a whole non-zero shift. *)
Theorem bulkPayloadProblem_sound (other_formats : string -> option Z) (isTimeZone : string -> bool)
    (act : MediaOperationBulkAction) (p : BulkOperationPayload) (selected : list string)
    (H : bulkPayloadProblem other_formats isTimeZone act p selected = None) (Hn : NoDup selected) :
  match act with
  | RelinkLivePhoto =>
      let pairs := arr_or_empty (obj_get p "pairs") in
      exists stills, field_values "photoId" pairs = map Some stills /\ Permutation stills selected /\
        NoDup (field_values "videoId" pairs) /\
        Forall (fun pair => as_string (json_get pair "photoId") <> as_string (json_get pair "videoId")) pairs
  | RelinkMissingMedia | RecoverDamagedMedia | TrashDamagedMedia =>
      let entries := arr_or_empty (obj_get p "mediaHealth") in
      exists named, field_values "assetId" entries = map Some named /\ Permutation named selected /\
        NoDup (field_values "findingId" entries) /\
        (act <> TrashDamagedMedia -> Forall (fun entry => truthy (json_get entry "candidateId") = true) entries)
  | ResolveDuplicates | UndoDuplicates =>
      exists raw, obj_get p "duplicateGroups" = Some (JArr raw) /\
        length (parseDuplicateGroups (Some (JArr raw))) = length raw /\
        duplicateDecisionProblem (parseDuplicateGroups (Some (JArr raw))) selected
          (bool_decide (act = UndoDuplicates)) = None
  | Stack => (2 <= length selected)%nat /\
      forall primary, as_string (obj_get p "primaryId") = Some primary -> primary <> ""%string -> primary ∈ selected
  | ChangeDate =>
      (exists m, obj_get p "minutes" = Some (JNum (JInt m)) /\ m <> 0) \/
      (exists d t, obj_get p "dateTimeOriginal" = Some (JStr d) /\ date_parse other_formats d = Some t)
  | _ => True
  end.
Proof.
  destruct act; try exact I; unfold bulkPayloadProblem in H; cbv zeta in H.
  - unfold dateProblem in H. case_bool_decide.
    + left. destruct (obj_get p "minutes") as [[| |[m| | |]| | |]|]; try discriminate H. simpl in H. exists m. split; [done|].
      intros ->. by rewrite andb_false_r in H.
    + right. destruct (obj_get p "dateTimeOriginal") as [[| | |d| |]|]; try discriminate H. cbn [as_string] in H.
      destruct (_ || _) eqn:E; [discriminate H|]. apply orb_false_iff in E as [_ E].
      apply negb_false_iff, bool_decide_eq_true_1 in E. destruct E as [t Ht]. by exists d, t.
  - destruct (Nat.ltb_spec (length selected) 2) as [|Hl]; [discriminate H|]. split; [done|].
    intros primary Hp Hne. rewrite Hp in H. destruct (String.eqb_spec primary "") as [|_]; [done|]. simpl in H.
    destruct (includes primary selected) eqn:E; [by apply includes_true|discriminate H].
  - unfold relinkProblem in H. set (pairs := arr_or_empty (obj_get p "pairs")) in *.
    destruct (length pairs =? 0)%nat; [discriminate H|]. cbv zeta in H.
    destruct (negb _ || _) eqn:E1; [discriminate H|]. apply set_size_check in E1 as [Ep Ev].
    destruct (existsb _ pairs) eqn:E2; [discriminate H|]. destruct (names_exactly _ _) eqn:E3; [|discriminate H].
    assert (length (field_values "photoId" pairs) = length pairs) as L1 by apply length_map.
    assert (length (field_values "videoId" pairs) = length pairs) as L2 by apply length_map.
    destruct (names_exactly_spec (field_values "photoId" pairs) selected ltac:(congruence) Hn E3) as (stills & Hs & Hp). exists stills.
    split; [done|]. split; [done|]. split; [apply uniq_length_NoDup; unfold set_size in Ev; congruence|].
    apply Forall_forall. intros pair Hin Heq. apply not_true_iff_false in E2. apply E2, existsb_exists.
    exists pair. split; [by apply list_elem_of_In|]. by apply bool_decide_eq_true_2.
  - destruct (obj_get p "duplicateGroups") as [[| | | |raw|]|]; try discriminate H. exists raw. split; [done|].
    destruct (Nat.eqb_spec (length (parseDuplicateGroups (Some (JArr raw)))) (length raw)); [done|discriminate H].
  - destruct (obj_get p "duplicateGroups") as [[| | | |raw|]|]; try discriminate H. exists raw. split; [done|].
    destruct (Nat.eqb_spec (length (parseDuplicateGroups (Some (JArr raw)))) (length raw)); [done|discriminate H].
  - by apply healthProblem_None in H.
  - by apply healthProblem_None in H.
  - by apply healthProblem_None in H.
Qed.

Lemma bulkPayloadProblem_sound_witness :
  (2 <= length ["a"; "b"]%string)%nat /\ forall primary, as_string (Some (JStr "b")) = Some primary ->
    primary <> ""%string -> primary ∈ ["a"; "b"]%string.
Proof.
  apply (bulkPayloadProblem_sound (fun _ => None) (fun _ => false) Stack [("primaryId"%string, JStr "b")] ["a"; "b"]%string).
  - by vm_compute.
  - apply (bool_decide_unpack _). vm_compute. exact I.
Defined.

(** The request and the result survive the row they are stored in: a snapshot is read only when
    it names a known action and has an asset, and then its ids are distinct, non-empty and in stored
    order; every result the worker writes is read back exactly. *)
Theorem bulk_row_roundtrip (other_formats : string -> option Z) :
  (forall r n, storable other_formats r -> parseBulkResult other_formats (Some (result_json r)) n = r) /\
  (forall stored snapshot, parseBulkSnapshot stored = Prelude.Ok snapshot ->
     NoDup (assetIds snapshot) /\ assetIds snapshot <> [] /\ (forall x, x ∈ assetIds snapshot -> x <> ""%string) /\
     exists fs, stored = Some (JObj fs) /\ obj_get fs "action" = Some (JStr (BulkAction.value (action snapshot))) /\
       (forall x, x ∈ assetIds snapshot <-> x ∈ asStringArray (obj_get fs "assetIds"))) /\
  (forall fs act l, obj_get fs "action" = Some (JStr (BulkAction.value act)) ->
     obj_get fs "assetIds" = Some (JArr (map JStr l)) -> NoDup l -> l <> [] -> (forall x, x ∈ l -> x <> ""%string) ->
     exists snapshot, parseBulkSnapshot (Some (JObj fs)) = Prelude.Ok snapshot /\
       action snapshot = act /\ assetIds snapshot = l).
Proof.
  split; [intros; by apply parse_result_json|]. split.
  - intros stored snapshot. unfold parseBulkSnapshot. destruct stored as [[| | | | |fs]|]; try done. cbn [is_record].
    destruct (isBulkAction _) as [act|] eqn:Ha; [|done].
    destruct (Nat.eqb_spec (length (uniq (asStringArray (obj_get fs "assetIds")))) 0) as [|Hne]; [done|].
    intros [= <-]. cbn [assetIds action]. split; [apply NoDup_uniq|]. split; [intros E; apply Hne; by rewrite E|]. split.
    + intros x Hx. rewrite elem_of_uniq in Hx. by apply (strings_nonempty _ x Hx).
    + exists fs. split; [done|]. split; [|intros x; apply elem_of_uniq].
      unfold isBulkAction in Ha. destruct (obj_get fs "action") as [[| | |s| |]|]; try done. do 2 f_equal.
      unfold of_value, member in Ha. apply List.find_some in Ha as [_ E]. apply String.eqb_eq in E. done.
  - intros fs act l Ha Hl Hn Hne He. unfold parseBulkSnapshot. cbn [is_record]. rewrite Ha, Hl.
    cbn [isBulkAction]. rewrite BulkAction_of_value_value, asStringArray_map, uniq_NoDup_id by done.
    destruct (Nat.eqb_spec (length l) 0) as [E|]; [apply length_zero_iff_nil in E; done|].
    eexists. split; [done|]. done.
Qed.
