(* ===== verification/BulkWorker.v ===== *)
(** * The bulk worker ([server/src/services/bulk-operation.service.ts])

    The run of one durable bulk operation as a step relation over what survives a crash (the row:
    stored result and cursor; the library: capture dates) and what does not (the worker's own
    variables).  A claim reads the row; every batch is marked in the row before anything is sent;
    writes to the library, the answer and a crash may come in any order in between; the answer is
    folded in, the cursor advanced and the row written; the retry pass is planned once and walked with
    its own cursor.  The library is seen through the one action whose repeat would compound, the
    relative date shift. *)

From Stdlib Require Import QArith.
From stdpp Require Import relations.
From S2P Require Import Prelude JsNumber JsString JsDate Enums DuplicateReview BulkOperation.
Import BulkAction.
Local Open Scope Z_scope.

(** ** Pieces of the worker *)

Definition withoutInFlight (result : BulkOperationResult) : BulkOperationResult :=
  set_retry (set_inFlight result None)
    (option_map (fun pass => mkRetry (ids pass) (retryTotal pass) (retryProcessed pass) None) (retry result)).

Definition ok (id : string) : BulkOperationItem := mkItem id ItemStatus.Ok None None.
Definition refused (id : string) (error : thrown) : BulkOperationItem :=
  let '(status, reason) := classifyBulkError error in mkItem id status (Some reason) (Some (bulkErrorMessage error)).

(** One outcome per id, in batch order; what was not answered is a failure. *)
Definition inBatchOrder (batch : list string) (outcomes : list BulkOperationItem) : list BulkOperationItem :=
  let byId := foldl (fun m o => <[itemId o := o]> m) (∅ : gmap string BulkOperationItem) outcomes in
  map (fun id => default (mkItem id ItemStatus.Failed (Some "frameleaf_bulk_reason_unknown"%string)
                            (Some "The server did not answer for this item"%string)) (byId !! id)) batch.

Definition MEDIA_HEALTH_BULK_BATCH_SIZE : nat := 5.
Definition batchSizeOf (snapshot : BulkOperationSnapshot) : nat :=
  if isMediaHealthBulkAction (action snapshot) then MEDIA_HEALTH_BULK_BATCH_SIZE else Z.to_nat BULK_BATCH_SIZE.

(** A stack is one call over every member, and unstacking works on stack ids. *)
Definition whole (snapshot : BulkOperationSnapshot) : bool :=
  bool_decide (action snapshot = Stack) || bool_decide (action snapshot = Unstack).

Definition batch_from (snapshot : BulkOperationSnapshot) (l : list string) (position : nat) : list string :=
  let size := if whole snapshot then length l
              else bulkBatchLength l position (batchSizeOf snapshot) (bulkGroupIndex snapshot) in
  take size (drop position l).

(** [withShiftOrigins]: the reader answers from the library as it is now. *)
Definition withShiftOrigins (snapshot : BulkOperationSnapshot) (result : BulkOperationResult)
    (batch : list string) (dates : gmap string (option Z)) : BulkOperationResult :=
  if negb (isRelativeDateShift snapshot) then result
  else
    let missing := List.filter (fun id => negb (assoc_has id (shiftFrom result))) batch in
    if (length missing =? 0)%nat then result else recordShiftOrigins result missing dates.

(** [shiftDates] for one id: refused without a recorded start, nothing to do for [null], otherwise
    the date to set. *)
Inductive ShiftAnswer := NotRecorded | NothingToShift | SetDate (t : Z).

Definition shift_answer (other_formats : string -> option Z) (minutes : Z) (shiftFrom : ShiftFrom) (id : string)
  : ShiftAnswer :=
  match assoc_get id shiftFrom with
  | None => NotRecorded
  | Some None => NothingToShift
  | Some (Some from) =>
      match date_parse other_formats from with
      | Some t => SetDate (t + minutes * 60000)
      | None => NotRecorded
      end
  end.

Definition set_processed (pass : BulkRetryPass) (q : Z) (f : option InFlight) : BulkRetryPass :=
  mkRetry (ids pass) (retryTotal pass) (JInt q) f.

(** ** The run *)

Section worker.
Variable other_formats : string -> option Z.
Variable snapshot : BulkOperationSnapshot.
(** [payload.minutes]. *)
Variable minutes : Z.

Definition total : nat := length (assetIds snapshot).

Inductive Local :=
| Idle
| Running (result : BulkOperationResult) (processed : nat)
| Sending (result : BulkOperationResult) (processed : nat) (batch : list string)
| Retrying (result : BulkOperationResult) (processed : nat) (pass : BulkRetryPass) (q : nat) (batch : list string)
| Finished (result : BulkOperationResult).

Record State := mkState {
  row : option json;
  rowProcessed : Z;
  dates : gmap string (option Z);
  local : Local;
  (** The items answered [ok] so far; not read by the worker. *)
  okIds : list string
}.

Definition claimed_result (st : State) : BulkOperationResult :=
  withoutInFlight (parseBulkResult other_formats (row st) (JInt (Z.of_nat total))).
Definition claimed_processed (st : State) : nat :=
  Z.to_nat (Z.min (Z.max 0 (rowProcessed st)) (Z.of_nat total)).

(** Write the row and go on as [l]. *)
Definition write (st : State) (result : BulkOperationResult) (processed : nat) (l : Local) (done_ : list string) : State :=
  mkState (Some (result_json result)) (Z.of_nat processed) (dates st) l (okIds st ++ done_).

Definition ok_ids (outcomes : list BulkOperationItem) : list string :=
  map itemId (List.filter (fun o => bool_decide (itemStatus o = ItemStatus.Ok)) outcomes).

(** What the services promise of an [ok]: the item's date is the one to set, or there was none.  An item whose
    row of dates is deleted between the recording of its start and its batch is not meant: the service
    passes it over and still answers [ok]. *)
Definition honest (shiftFrom : ShiftFrom) (dates : gmap string (option Z)) (outcomes : list BulkOperationItem) : Prop :=
  isRelativeDateShift snapshot = true -> forall id, id ∈ ok_ids outcomes ->
    match shift_answer other_formats minutes shiftFrom id with
    | NotRecorded => False
    | NothingToShift => True
    | SetDate t => dates !! id = Some (Some t)
    end.

Definition retry_left (r : BulkOperationResult) : option (BulkRetryPass * nat) :=
  match retry r with
  | Some pass => let q := Z.to_nat (num_index (retryProcessed pass)) in
                 if (q <? length (ids pass))%nat then Some (pass, q) else None
  | None => None
  end.

Inductive step : State -> State -> Prop :=
| step_claim st :
    local st = Idle ->
    step st (write st (claimed_result st) (claimed_processed st) (Running (claimed_result st) (claimed_processed st)) [])
| step_send st r p :
    local st = Running r p -> (p < total)%nat ->
    let batch := batch_from snapshot (assetIds snapshot) p in
    let r1 := withShiftOrigins snapshot r batch (dates st) in
    step st (write st (set_inFlight r1 (Some (mkInFlight (Z.of_nat p) (Z.of_nat (length batch))))) p (Sending r1 p batch) [])
| step_write_date st id t batch r :
    ((exists p, local st = Sending r p batch) \/ (exists p pass q, local st = Retrying r p pass q batch)) ->
    isRelativeDateShift snapshot = true -> id ∈ batch -> is_Some (dates st !! id) ->
    shift_answer other_formats minutes (shiftFrom r) id = SetDate t ->
    step st (mkState (row st) (rowProcessed st) (<[id := Some t]> (dates st)) (local st) (okIds st))
| step_record st r p batch outcomes :
    local st = Sending r p batch -> map itemId outcomes = batch -> honest (shiftFrom r) (dates st) outcomes ->
    let r2 := pruneShiftOrigins snapshot (mergeBulkOutcomes (set_inFlight r None) outcomes) in
    let p2 := (p + length batch)%nat in
    step st (write st r2 p2 (Running r2 p2) (ok_ids outcomes))
| step_plan st r p planned :
    local st = Running r p -> (total <= p)%nat -> planBulkRetryPass snapshot r = Some planned ->
    step st (write st planned p Idle [])
| step_retry_send st r p pass q :
    local st = Running r p -> (total <= p)%nat -> planBulkRetryPass snapshot r = None ->
    retry_left r = Some (pass, q) ->
    let batch := batch_from snapshot (ids pass) q in
    let r1 := withShiftOrigins snapshot r batch (dates st) in
    step st (write st (set_retry r1 (Some (set_processed pass (Z.of_nat q)
                                       (Some (mkInFlight (Z.of_nat q) (Z.of_nat (length batch)))))))
               p (Retrying r1 p pass q batch) [])
| step_retry_record st r p pass q batch outcomes :
    local st = Retrying r p pass q batch -> map itemId outcomes = batch -> honest (shiftFrom r) (dates st) outcomes ->
    let advanced := set_processed pass (Z.of_nat (q + length batch)) None in
    let r2 := pruneShiftOrigins snapshot (mergeBulkOutcomes (set_retry r (Some advanced)) outcomes) in
    step st (write st r2 p (Running r2 p) (ok_ids outcomes))
| step_finish st r p :
    local st = Running r p -> (total <= p)%nat -> planBulkRetryPass snapshot r = None -> retry_left r = None ->
    step st (mkState (row st) (rowProcessed st) (dates st) (Finished r) (okIds st))
| step_crash st :
    (forall r, local st <> Finished r) ->
    step st (mkState (row st) (rowProcessed st) (dates st) Idle (okIds st)).

(** ** The invariant *)

(** The dates before the job touched anything. *)
Variable D0 : gmap string (option Z).

Definition shifted (t : Z) : Z := t + minutes * 60000.

Record clean (r : BulkOperationResult) : Prop := mkClean {
  clean_inFlight : inFlight r = None;
  clean_retry : forall pass, retry r = Some pass -> retryInFlight pass = None
}.

(** An item the job may still apply: not reached, waiting for its retry, or recorded as failed. *)
Definition todo (r : BulkOperationResult) (p : nat) (id : string) : Prop :=
  id ∈ drop p (assetIds snapshot) \/ id ∈ bulkRetryPending r \/ id ∈ failedIds r.

(** What every stored result satisfies: sound numbers, and starting dates that are true. *)
Record Good (r : BulkOperationResult) (p : nat) (w : gmap string (option Z)) (okd : list string) : Prop := mkGood {
  g_processed : (p <= total)%nat;
  g_requested : requested r = JInt (Z.of_nat total);
  g_clean : clean r;
  g_counts : exists f k, counted r (Z.of_nat (length okd)) f k /\ Z.of_nat (length (failedIds r)) <= f /\
               Z.of_nat (length okd) + f + k + Z.of_nat (length (bulkRetryPending r)) = Z.of_nat p;
  g_items : (length (items r) <= 1000)%nat;
  g_retry : forall pass, retry r = Some pass -> p = total /\ NoDup (ids pass) /\
              (forall x, x ∈ ids pass -> x ∈ assetIds snapshot) /\
              retryTotal pass = JInt (Z.of_nat (length (ids pass))) /\
              exists q, retryProcessed pass = JInt (Z.of_nat q) /\ (q <= length (ids pass))%nat;
  g_failed : NoDup (failedIds r) /\ forall x, x ∈ failedIds r -> x ∈ take p (assetIds snapshot) /\ x ∉ bulkRetryPending r;
  g_ok : NoDup okd /\ forall x, x ∈ okd ->
           x ∈ take p (assetIds snapshot) /\ (x ∉ bulkRetryPending r) /\ (x ∉ failedIds r);
  g_keys : NoDup (map fst (shiftFrom r)) /\ forall x, x ∈ map fst (shiftFrom r) ->
             x ∈ drop p (assetIds snapshot) -> x ∈ batch_from snapshot (assetIds snapshot) p;
  g_origin : forall x v, assoc_get x (shiftFrom r) = Some v ->
               match v with
               | Some iso => exists t, date_parse other_formats iso = Some t /\ D0 !! x = Some (Some t)
               | None => D0 !! x = Some None
               end;
  g_fresh : forall x, todo r p x -> assoc_get x (shiftFrom r) = None -> w !! x = D0 !! x;
  g_world : forall x, w !! x = D0 !! x \/ exists t, D0 !! x = Some (Some t) /\ w !! x = Some (Some (shifted t));
  g_done : isRelativeDateShift snapshot = true -> forall x, x ∈ okd ->
             D0 !! x = Some None \/ exists t, D0 !! x = Some (Some t) /\ w !! x = Some (Some (shifted t))
}.

Definition local_ok (r : BulkOperationResult) (p : nat) (l : Local) : Prop :=
  match l with
  | Idle => True
  | Running r' p' => r' = r /\ p' = p
  | Sending r' p' batch => r' = r /\ p' = p /\ (p < total)%nat /\ batch = batch_from snapshot (assetIds snapshot) p
  | Retrying r' p' pass q batch =>
      r' = r /\ p' = p /\ retry r = Some pass /\ retryProcessed pass = JInt (Z.of_nat q) /\
      (q < length (ids pass))%nat /\ batch = batch_from snapshot (ids pass) q
  | Finished r' => r' = r /\ p = total /\ bulkRetryPending r = [] /\
      (retry r = None -> failedIds r = [])
  end.

Definition Inv (st : State) : Prop :=
  exists r p, Good r p (dates st) (okIds st) /\ claimed_result st = r /\ claimed_processed st = p /\
    local_ok r p (local st).

(** A job as it is submitted. *)
Hypothesis Hids : NoDup (assetIds snapshot).
Hypothesis Hnames : forall x, x ∈ assetIds snapshot -> x <> ""%string.
Hypothesis Hsome : (0 < total)%nat.
Hypothesis Hmax : Z.of_nat total <= BULK_MAX_ITEMS.
Hypothesis Hdates : forall x t, D0 !! x = Some (Some t) -> valid_time t.

Lemma total_bound : Z.of_nat total < 2 ^ 53.
Proof. unfold BULK_MAX_ITEMS in Hmax. lia. Qed.

Lemma pending_spec r pass q : retry r = Some pass -> retryProcessed pass = JInt (Z.of_nat q) ->
  bulkRetryPending r = drop q (ids pass).
Proof. intros Hr Hq. unfold bulkRetryPending, slice_from. by rewrite Hr, Hq, num_index_int, Nat2Z.id. Qed.

(** Clearing the marks of a marked clean result gives it back. *)
Lemma withoutInFlight_clean r : clean r -> withoutInFlight r = r.
Proof.
  intros [Hf Hr]. destruct r as [a b c d e g h [[x y z v]|] j]; cbn in *; subst; unfold withoutInFlight; simpl; [|done].
  pose proof (Hr _ eq_refl) as E. simpl in E. by subst.
Qed.

Lemma Good_storable r p w okd : Good r p w okd -> storable other_formats r.
Proof.
  intros H. destruct H as [Hp Hq Hc Hcnt _ Hretry _ _ Hk Ho _ _ _]. destruct Hcnt as (f & k & [Hs Hf Hsk _] & _).
  pose proof total_bound. unfold storable, finite_num. rewrite Hq, Hs, Hf, Hsk. cbn [truthy num_is_finite].
  split; [apply negb_true_iff, Z.eqb_neq; lia|]. do 4 (split; [done|]).
  split; [by rewrite (clean_inFlight _ Hc)|]. split.
  - destruct (retry r) as [pass|] eqn:Er; [|done]. destruct (Hretry pass eq_refl) as (_ & Hn & Hsub & Ht & q & Eq & Hql).
    split; [done|]. split; [intros x Hx; by apply Hnames, Hsub|]. split; [done|]. split.
    + exists (Z.of_nat q). split; [done|]. assert (length (ids pass) <= total)%nat.
      { apply NoDup_incl_length; [by apply NoDup_ListNoDup|]. intros x Hx.
        by apply list_elem_of_In, Hsub, list_elem_of_In. }
      lia.
    + by rewrite (clean_retry _ Hc pass Er).
  - destruct Hk as [Hk _]. split; [done|]. intros x s Hin. apply elem_assoc_get in Hin; [|done].
    destruct (Ho x (Some s) Hin) as (t & -> & _). by eexists.
Qed.

Ltac mark_fields :=
  cbn [set_inFlight set_retry requested succeeded failed skipped inFlight retry shiftFrom retry_ok ids
       retryTotal retryProcessed retryInFlight].

(** The row written with a mark of a batch is claimed as the unmarked result. *)
Lemma claimed_marked r p w okd (st : State) f :
  Good r p w okd -> inFlight_ok (Some f) -> row st = Some (result_json (set_inFlight r (Some f))) ->
  rowProcessed st = Z.of_nat p -> claimed_result st = r /\ claimed_processed st = p.
Proof.
  intros HG Hf Hrow Hp. unfold claimed_result, claimed_processed. rewrite Hrow, Hp.
  pose proof (Good_storable _ _ _ _ HG) as (A1 & A2 & A3 & A4 & A5 & A6 & A7 & A8).
  rewrite parse_result_json by (unfold storable; mark_fields; tauto).
  split; [|destruct HG as [? _]; lia].
  rewrite <- (withoutInFlight_clean r (g_clean _ _ _ _ HG)) at 2. done.
Qed.

Lemma claimed_plain r p w okd (st : State) :
  Good r p w okd -> row st = Some (result_json r) -> rowProcessed st = Z.of_nat p ->
  claimed_result st = r /\ claimed_processed st = p.
Proof.
  intros HG Hrow Hp. unfold claimed_result, claimed_processed. rewrite Hrow, Hp.
  rewrite parse_result_json by (by eapply Good_storable).
  split; [apply withoutInFlight_clean, (g_clean _ _ _ _ HG)|destruct HG as [? _]; lia].
Qed.

Lemma claimed_marked_retry r p w okd (st : State) pass q f :
  Good r p w okd -> inFlight_ok (Some f) -> retry r = Some pass -> retryProcessed pass = JInt (Z.of_nat q) ->
  row st = Some (result_json (set_retry r (Some (set_processed pass (Z.of_nat q) (Some f))))) ->
  rowProcessed st = Z.of_nat p -> claimed_result st = r /\ claimed_processed st = p.
Proof.
  intros HG Hf Hr Hq Hrow Hp. unfold claimed_result, claimed_processed. rewrite Hrow, Hp.
  pose proof (Good_storable _ _ _ _ HG) as (A1 & A2 & A3 & A4 & A5 & A6 & A7 & A8).
  rewrite Hr in A7. destruct A7 as (B1 & B2 & B3 & B4 & B5). rewrite Hq in B4.
  rewrite parse_result_json by (unfold storable, set_processed; mark_fields; tauto).
  split; [|destruct HG as [? _]; lia].
  rewrite <- (withoutInFlight_clean r (g_clean _ _ _ _ HG)) at 2. unfold withoutInFlight. rewrite Hr.
  unfold set_processed; cbn. by rewrite Hq.
Qed.

(** *** Recording starting dates *)

Lemma record_get sf l (w : gmap string (option Z)) x :
  assoc_get x (foldl (fun shiftFrom id =>
       if assoc_has id shiftFrom then shiftFrom
       else match w !! id with
            | None => shiftFrom
            | Some value => assoc_set id (option_map to_iso value) shiftFrom
            end) sf l) =
  match assoc_get x sf with
  | Some v => Some v
  | None => if decide (x ∈ l) then option_map (option_map to_iso) (w !! x) else None
  end.
Proof.
  revert sf; induction l as [|y l IH]; intros sf; cbn [foldl].
  - rewrite decide_False by apply not_elem_of_nil. by destruct (assoc_get x sf).
  - rewrite IH. unfold assoc_has. destruct (decide (x = y)) as [->|Hne].
    + rewrite (decide_True (P := y ∈ y :: l)) by (apply elem_of_cons; by left).
      destruct (assoc_get y sf) as [v|] eqn:E; [by rewrite E|]. destruct (w !! y) as [v|] eqn:Ew.
      * by rewrite assoc_get_set_eq.
      * rewrite E. by case_decide.
    + pose proof (elem_of_cons l x y) as Hc.
      destruct (assoc_get y sf) as [v|]; [|destruct (w !! y) as [v|]]; rewrite ?assoc_get_set_ne by done;
        destruct (assoc_get x sf); try done;
        destruct (decide (x ∈ l)), (decide (x ∈ y :: l)); tauto.
Qed.

Lemma record_keys sf l (w : gmap string (option Z)) :
  NoDup (map fst sf) ->
  NoDup (map fst (foldl (fun shiftFrom id =>
       if assoc_has id shiftFrom then shiftFrom
       else match w !! id with
            | None => shiftFrom
            | Some value => assoc_set id (option_map to_iso value) shiftFrom
            end) sf l)).
Proof.
  revert sf; induction l as [|y l IH]; intros sf Hn; cbn [foldl]; [done|]. apply IH.
  destruct (assoc_has y sf); [done|]. destruct (w !! y); [by apply assoc_set_NoDup|done].
Qed.

(** [withShiftOrigins] changes the starting dates only, and only by adding the batch's. *)
Lemma withShiftOrigins_spec r batch w : NoDup (map fst (shiftFrom r)) ->
  exists sf, withShiftOrigins snapshot r batch w = set_shiftFrom r sf /\ NoDup (map fst sf) /\
    forall x, assoc_get x sf = match assoc_get x (shiftFrom r) with
                               | Some v => Some v
                               | None => if isRelativeDateShift snapshot && bool_decide (x ∈ batch)
                                         then option_map (option_map to_iso) (w !! x) else None
                               end.
Proof.
  intros Hn. unfold withShiftOrigins. destruct (isRelativeDateShift snapshot); simpl.
  - set (missing := List.filter _ batch).
    assert (forall x, assoc_get x (shiftFrom r) = None -> x ∈ missing <-> x ∈ batch) as Hm.
    { intros x Hx. unfold missing. rewrite elem_of_filter_b. unfold assoc_has. rewrite Hx. tauto. }
    destruct (Nat.eqb_spec (length missing) 0) as [E|E].
    + exists (shiftFrom r). split; [by destruct r|]. split; [done|]. intros x.
      destruct (assoc_get x (shiftFrom r)) eqn:Hx; [done|]. apply length_zero_iff_nil in E.
      case_bool_decide as Hb; [|done]. apply Hm in Hb; [|done]. rewrite E in Hb. by apply elem_of_nil in Hb.
    + eexists. split; [done|]. split; [by apply record_keys|]. intros x. rewrite record_get.
      destruct (assoc_get x (shiftFrom r)) eqn:Hx; [done|]. specialize (Hm x Hx).
      case_decide; case_bool_decide; tauto.
  - exists (shiftFrom r). split; [by destruct r|]. split; [done|]. intros x. by destruct (assoc_get x (shiftFrom r)).
Qed.

Lemma Good_send r p w okd batch :
  Good r p w okd -> (forall x, x ∈ batch -> todo r p x) ->
  (forall x, x ∈ batch -> x ∈ drop p (assetIds snapshot) -> x ∈ batch_from snapshot (assetIds snapshot) p) ->
  exists sf, withShiftOrigins snapshot r batch w = set_shiftFrom r sf /\ Good (set_shiftFrom r sf) p w okd.
Proof.
  intros HG Htodo Hbatch. destruct (withShiftOrigins_spec r batch w) as (sf & E & Hn & Hget); [apply HG|].
  exists sf. split; [done|]. pose proof (g_fresh _ _ _ _ HG) as Hfresh. destruct HG.
  split; try assumption.
  - by destruct g_clean0.
  - destruct g_counts0 as (f & k & [? ? ? ?] & Hc). exists f, k. split; [by split|done].
  - destruct g_keys0 as [Hk1 Hk2]. split; [done|]. intros x Hx Hd. apply assoc_has_true in Hx. unfold assoc_has in Hx.
    cbn [shiftFrom set_shiftFrom] in Hx. rewrite Hget in Hx. destruct (assoc_get x (shiftFrom r)) as [v|] eqn:Ex.
    + apply Hk2; [|done]. apply assoc_has_true. unfold assoc_has. by rewrite Ex.
    + destruct (isRelativeDateShift snapshot); [|done]. simpl in Hx. case_bool_decide as Hb; [|done]. by apply Hbatch.
  - intros x v. cbn [shiftFrom set_shiftFrom]. rewrite Hget. destruct (assoc_get x (shiftFrom r)) as [v'|] eqn:Ex.
    + intros [= <-]. by apply g_origin0.
    + destruct (isRelativeDateShift snapshot); [|done]. simpl. case_bool_decide as Hb; [|done].
      rewrite (Hfresh x (Htodo x Hb) Ex). destruct (D0 !! x) as [[t|]|] eqn:ED; [| |done].
      * intros [= <-]. exists t. split; [|done]. apply date_parse_to_iso. by apply (Hdates x).
      * by intros [= <-].
  - intros x Hx. cbn [shiftFrom set_shiftFrom]. rewrite Hget. destruct (assoc_get x (shiftFrom r)) eqn:Ex; [done|].
    intros _. by apply Hfresh.
Qed.

Lemma shift_answer_SetDate r p w okd x t :
  Good r p w okd -> shift_answer other_formats minutes (shiftFrom r) x = SetDate t ->
  exists t0, D0 !! x = Some (Some t0) /\ t = shifted t0.
Proof.
  intros HG. unfold shift_answer. destruct (assoc_get x (shiftFrom r)) as [[iso|]|] eqn:E; try done.
  destruct (g_origin _ _ _ _ HG x _ E) as (t0 & -> & H0). intros [= <-]. by exists t0.
Qed.

Lemma Good_write r p w okd x t :
  Good r p w okd -> shift_answer other_formats minutes (shiftFrom r) x = SetDate t ->
  Good r p (<[x := Some t]> w) okd.
Proof.
  intros HG Ha. destruct (shift_answer_SetDate _ _ _ _ _ _ HG Ha) as (t0 & H0 & ->). destruct HG.
  split; try assumption.
  - intros y Hy Hn. rewrite lookup_insert_ne; [by apply g_fresh0|]. intros <-.
    unfold shift_answer in Ha. by rewrite Hn in Ha.
  - intros y. destruct (decide (x = y)) as [<-|Hne].
    + right. exists t0. by rewrite lookup_insert_eq.
    + rewrite lookup_insert_ne by done. apply g_world0.
  - intros Hs y Hy. destruct (decide (x = y)) as [<-|Hne].
    + right. exists t0. by rewrite lookup_insert_eq.
    + rewrite lookup_insert_ne by done. by apply g_done0.
Qed.

(** *** Folding an answer in *)

Definition failed_outcomes (outcomes : list BulkOperationItem) : list string :=
  map itemId (List.filter is_failed outcomes).

Lemma filter_failed_refusal l : List.filter is_failed (List.filter is_refusal l) = List.filter is_failed l.
Proof.
  induction l as [|o l IH]; [done|]. simpl. unfold is_refusal at 1. case_bool_decide as Ho; simpl.
  - unfold is_failed at 2. rewrite bool_decide_eq_false_2 by congruence. done.
  - destruct (is_failed o); by rewrite IH.
Qed.

(** The recorded failures after a merge: the earlier ones and the first of the new ones. *)
Lemma merged_failedIds R outcomes : (length (items R) <= 1000)%nat ->
  exists n, failedIds (mergeBulkOutcomes R outcomes) = take n (failedIds R ++ failed_outcomes outcomes).
Proof.
  intros Hlen. destruct (merge_fold_items outcomes R Hlen) as [E _]. unfold failedIds. rewrite E.
  destruct (filter_take_sub is_failed BULK_RECORDED_ITEM_LIMIT (items R ++ List.filter is_refusal outcomes)) as [n ->].
  exists n. rewrite List.filter_app, filter_failed_refusal, <- firstn_map. by rewrite map_app.
Qed.

Lemma failed_outcomes_length outcomes : Z.of_nat (length (failed_outcomes outcomes)) = count_status ItemStatus.Failed outcomes.
Proof. unfold failed_outcomes. by rewrite length_map. Qed.
Lemma ok_ids_length outcomes : Z.of_nat (length (ok_ids outcomes)) = count_status ItemStatus.Ok outcomes.
Proof. unfold ok_ids. by rewrite length_map. Qed.

Lemma ok_not_failed outcomes x : NoDup (map itemId outcomes) -> x ∈ ok_ids outcomes -> x ∈ failed_outcomes outcomes -> False.
Proof.
  intros Hn (o & -> & Ho)%list_elem_of_fmap (o' & E & Ho')%list_elem_of_fmap.
  apply elem_of_filter_b in Ho as [Ho Hok], Ho' as [Ho' Hf]. unfold is_failed in Hf. to_prop.
  assert (o = o') by (by apply (NoDup_map_inj itemId outcomes)). congruence.
Qed.

(** What pruning keeps: exactly the dates of recorded failures and of the items still waiting. *)
Lemma prune_spec r : clean r ->
  exists sf, pruneShiftOrigins snapshot r = set_shiftFrom r sf /\
    (NoDup (map fst (shiftFrom r)) -> NoDup (map fst sf)) /\
    forall x, assoc_get x sf = if includes x (failedIds r ++ bulkRetryPending r) then assoc_get x (shiftFrom r) else None.
Proof.
  intros [Hf Hr]. unfold pruneShiftOrigins. destruct (Nat.eqb_spec (length (shiftFrom r)) 0) as [E|_].
  - apply length_zero_iff_nil in E. exists (shiftFrom r). split; [by destruct r|]. split; [done|].
    intros x. rewrite E. by destruct (includes _ _).
  - cbv zeta. rewrite Hf, app_nil_r.
    assert (match retry r with Some pass => match retryInFlight pass with
              | Some f => slice_z (start f) (size f) (ids pass) | None => [] end | None => [] end = []) as ->.
    { destruct (retry r) as [pass|]; [|done]. by rewrite (Hr pass eq_refl). }
    rewrite app_nil_r. eexists. split; [done|]. set (keep := failedIds r ++ bulkRetryPending r). split.
    + intros Hn. rewrite (assoc_keys_filter (fun x => includes x keep)). by apply NoDup_filter_b.
    + intros x. apply (assoc_get_filter (fun x => includes x keep)).
Qed.

Section record.
Variables (r R : BulkOperationResult) (p p2 : nat) (w : gmap string (option Z)) (okd batch : list string).
Variable outcomes : list BulkOperationItem.
Hypothesis HG : Good r p w okd.
(** [R] is [r] with its retry cursor possibly moved. *)
Hypothesis HR : items R = items r /\ succeeded R = succeeded r /\ failed R = failed r /\ skipped R = skipped r /\
  requested R = requested r /\ shiftFrom R = shiftFrom r.
Hypothesis Hclean : clean R.
Hypothesis Hretry : forall pass, retry R = Some pass -> p2 = total /\ NoDup (ids pass) /\
  (forall x, x ∈ ids pass -> x ∈ assetIds snapshot) /\
  retryTotal pass = JInt (Z.of_nat (length (ids pass))) /\
  exists q, retryProcessed pass = JInt (Z.of_nat q) /\ (q <= length (ids pass))%nat.
Hypothesis Hout : map itemId outcomes = batch.
Hypothesis Hnodup : NoDup batch.
Hypothesis Hhonest : honest (shiftFrom r) w outcomes.
Hypothesis Hbatch : forall x, x ∈ batch -> todo r p x /\ (x ∉ okd) /\ (x ∉ failedIds r).
Hypothesis Hdone : forall x, x ∈ batch -> x ∈ take p2 (assetIds snapshot) /\ (x ∉ bulkRetryPending R).
Hypothesis Hpend : forall x, x ∈ bulkRetryPending R -> x ∈ bulkRetryPending r.
Hypothesis Hp : (p <= p2 <= total)%nat.
Hypothesis Hlen : (length (bulkRetryPending R) + length batch + p = p2 + length (bulkRetryPending r))%nat.
Hypothesis Hkeys : forall x, x ∈ drop p2 (assetIds snapshot) -> x ∉ map fst (shiftFrom r).

Let merged := mergeBulkOutcomes R outcomes.

Lemma pending_total x : x ∈ bulkRetryPending R -> p2 = total.
Proof.
  unfold bulkRetryPending. destruct (retry R) as [pass|] eqn:E; [|by intros ?%elem_of_nil]. intros _. by apply (Hretry pass).
Qed.

Lemma take_p_p2 x : x ∈ take p (assetIds snapshot) -> x ∈ take p2 (assetIds snapshot).
Proof.
  intros Hx. replace (take p (assetIds snapshot)) with (take p (take p2 (assetIds snapshot))) in Hx
    by (rewrite take_take; f_equal; lia).
  by apply elem_of_take_sub in Hx.
Qed.
Lemma drop_p2_p x : x ∈ drop p2 (assetIds snapshot) -> x ∈ drop p (assetIds snapshot).
Proof.
  intros Hx. replace (drop p2 (assetIds snapshot)) with (drop (p2 - p) (drop p (assetIds snapshot))) in Hx
    by (rewrite drop_drop; f_equal; lia).
  rewrite <- (take_drop (p2 - p) (drop p (assetIds snapshot))). apply elem_of_app. by right.
Qed.

Lemma ok_in_batch x : x ∈ ok_ids outcomes -> x ∈ batch.
Proof. intros Hx. rewrite <- Hout. by eapply elem_of_map_filter_b. Qed.
Lemma failed_in_batch x : x ∈ failed_outcomes outcomes -> x ∈ batch.
Proof. intros Hx. rewrite <- Hout. by eapply elem_of_map_filter_b. Qed.

Lemma merged_failed x : x ∈ failedIds merged -> x ∈ failedIds r \/ x ∈ failed_outcomes outcomes.
Proof.
  intros Hx. destruct HR as (Hi & _). destruct (merged_failedIds R outcomes) as [n E]; [rewrite Hi; apply HG|].
  unfold merged in Hx. rewrite E in Hx. apply elem_of_take_sub, elem_of_app in Hx.
  unfold failedIds in *. by rewrite Hi in Hx.
Qed.

Lemma merged_failed_NoDup : NoDup (failedIds merged).
Proof.
  destruct HR as (Hi & _). destruct (merged_failedIds R outcomes) as [n E]; [rewrite Hi; apply HG|].
  unfold merged. rewrite E. apply NoDup_take_sub, NoDup_app.
  unfold failedIds at 1 2. rewrite Hi. split; [apply HG|]. split.
  - intros x Hx Hf. apply failed_in_batch, Hbatch in Hf as (_ & _ & Hf). by apply Hf.
  - apply NoDup_map_filter_b. by rewrite Hout.
Qed.

Lemma merged_counts : exists f k, counted merged (Z.of_nat (length (okd ++ ok_ids outcomes))) f k /\
  Z.of_nat (length (failedIds merged)) <= f /\
  Z.of_nat (length (okd ++ ok_ids outcomes)) + f + k + Z.of_nat (length (bulkRetryPending R)) = Z.of_nat p2.
Proof.
  destruct HR as (Hi & Hs & Hf & Hk & _). destruct (g_counts _ _ _ _ HG) as (f & k & [Cs Cf Ck Cn] & Hle & Hsum).
  pose proof (count_status_total outcomes) as Ht. pose proof total_bound.
  assert (length batch = length outcomes) as Hb by (rewrite <- Hout; apply length_map).
  assert (counted R (Z.of_nat (length okd)) f k) as HC by (split; congruence || done).
  pose proof (merge_fold_counts outcomes R _ f k HC) as Hm. rewrite length_app, Nat2Z.inj_add, ok_ids_length.
  eexists _, _. split; [apply Hm; lia|]. split; [|lia].
  destruct (merged_failedIds R outcomes) as [n E]; [rewrite Hi; apply HG|]. unfold merged. rewrite E.
  rewrite length_take, length_app. rewrite <- failed_outcomes_length. unfold failedIds in *. rewrite Hi. lia.
Qed.

(** An item answered [ok] is behind the cursor, with no retry or failure on record. *)
Lemma merged_ok : NoDup (okd ++ ok_ids outcomes) /\ forall x, x ∈ okd ++ ok_ids outcomes ->
  x ∈ take p2 (assetIds snapshot) /\ (x ∉ bulkRetryPending R) /\ (x ∉ failedIds merged).
Proof.
  destruct (g_ok _ _ _ _ HG) as [Hn Hok]. split.
  - apply NoDup_app. split; [done|]. split.
    + intros x Hx Hx'. by apply ok_in_batch, Hbatch in Hx' as (_ & Hx' & _).
    + apply NoDup_map_filter_b. by rewrite Hout.
  - intros x [Hx|Hx]%elem_of_app.
    + destruct (Hok x Hx) as (H1 & H2 & H3). split; [by apply take_p_p2|]. split; [intros H4; by apply H2, Hpend|].
      intros [H4|H4]%merged_failed; [done|]. by apply failed_in_batch, Hbatch in H4 as (_ & H4 & _).
    + pose proof (ok_in_batch x Hx) as Hb. destruct (Hdone x Hb) as [H1 H2]. split; [done|]. split; [done|].
      intros [H4|H4]%merged_failed; [by apply Hbatch in Hb as (_ & _ & Hb)|].
      apply (ok_not_failed outcomes x); [by rewrite Hout|done|done].
Qed.

(** And its date is the starting date moved once, unless it had none. *)
Lemma merged_done : isRelativeDateShift snapshot = true -> forall x, x ∈ okd ++ ok_ids outcomes ->
  D0 !! x = Some None \/ exists t, D0 !! x = Some (Some t) /\ w !! x = Some (Some (shifted t)).
Proof.
  intros Hshift x [Hx|Hx]%elem_of_app; [by apply (g_done _ _ _ _ HG)|].
  pose proof (Hhonest Hshift x Hx) as Hh. destruct (shift_answer _ _ _ x) as [| |t] eqn:Ha; [done| |].
  - left. unfold shift_answer in Ha. destruct (assoc_get x (shiftFrom r)) as [[iso|]|] eqn:Eg; try done.
    + by destruct (date_parse other_formats iso).
    + by apply (g_origin _ _ _ _ HG x None).
  - destruct (shift_answer_SetDate _ _ _ _ _ _ HG Ha) as (t0 & H0 & ->). right. by exists t0.
Qed.

Lemma Good_record : Good (pruneShiftOrigins snapshot merged) p2 w (okd ++ ok_ids outcomes).
Proof.
  pose proof HR as (Hi & Hs & Hf & Hk & Hq & Hsf).
  destruct (merge_fold_other outcomes R) as (Mq & Mf & Mr & Msf). fold merged in Mq, Mf, Mr, Msf.
  assert (clean merged) as HC by (destruct Hclean as [C1 C2]; split; rewrite ?Mf, ?Mr; done).
  assert (bulkRetryPending merged = bulkRetryPending R) as Hpm by (unfold bulkRetryPending; by rewrite Mr).
  destruct (prune_spec merged HC) as (sf & E & Hnd & Hget). rewrite E. rewrite Hpm in Hget. rewrite Msf, Hsf in Hget, Hnd.
  pose proof merged_failed_NoDup as Hfn. pose proof merged_counts as Hcnt.
  assert (forall x, x ∈ failedIds merged -> x ∈ take p2 (assetIds snapshot) /\ x ∉ bulkRetryPending R) as Hfm.
  { intros x [Hx|Hx]%merged_failed.
    - destruct (proj2 (g_failed _ _ _ _ HG) x Hx) as [H1 H2]. split; [by apply take_p_p2|]. intros H3. by apply H2, Hpend.
    - by apply Hdone, failed_in_batch. }
  split.
  - lia.
  - cbn [requested set_shiftFrom]. rewrite Mq, Hq. apply HG.
  - destruct HC as [C1 C2]. by split.
  - destruct Hcnt as (f & k & [D1 D2 D3 D4] & H1 & H2). exists f, k. split; [by split|]. split; [exact H1|].
    change (bulkRetryPending (set_shiftFrom merged sf)) with (bulkRetryPending merged). by rewrite Hpm.
  - cbn [items set_shiftFrom]. destruct (merge_fold_items outcomes R) as [Ei _]; [rewrite Hi; apply HG|].
    unfold merged. rewrite Ei, length_take. unfold BULK_RECORDED_ITEM_LIMIT. lia.
  - cbn [retry set_shiftFrom]. intros pass. rewrite Mr. apply Hretry.
  - change (failedIds (set_shiftFrom merged sf)) with (failedIds merged).
    change (bulkRetryPending (set_shiftFrom merged sf)) with (bulkRetryPending merged). rewrite Hpm. by split.
  - change (failedIds (set_shiftFrom merged sf)) with (failedIds merged).
    change (bulkRetryPending (set_shiftFrom merged sf)) with (bulkRetryPending merged). rewrite Hpm.
    apply merged_ok.
  - cbn [shiftFrom set_shiftFrom]. split; [apply Hnd, HG|]. intros x Hx Hd. exfalso.
    apply assoc_has_true in Hx. unfold assoc_has in Hx. rewrite Hget in Hx.
    destruct (includes x _) eqn:Hin; [|done]. apply includes_true, elem_of_app in Hin as [Hin|Hin].
    + eapply take_drop_disjoint; [exact Hids|by apply Hfm|exact Hd].
    + rewrite (pending_total x Hin) in Hd. unfold total in Hd. rewrite drop_all in Hd. by apply elem_of_nil in Hd.
  - cbn [shiftFrom set_shiftFrom]. intros x v. rewrite Hget. destruct (includes x _); [|done]. apply HG.
  - cbn [shiftFrom set_shiftFrom]. intros x Hx. rewrite Hget. intros Hnone. apply (g_fresh _ _ _ _ HG).
    + destruct Hx as [Hx|[Hx|Hx]].
      * left. by apply drop_p2_p.
      * right; left. apply Hpend. rewrite <- Hpm. exact Hx.
      * apply merged_failed in Hx as [Hx|Hx]; [by right; right|]. by apply Hbatch, failed_in_batch.
    + destruct Hx as [Hx|Hx].
      * apply assoc_get_None. by apply Hkeys.
      * replace (includes x (failedIds merged ++ bulkRetryPending R)) with true in Hnone; [done|].
        symmetry. apply includes_true, elem_of_app.
        destruct Hx as [Hx|Hx]; [right; rewrite <- Hpm; exact Hx|left; exact Hx].
  - apply HG.
  - apply merged_done.
Qed.
End record.

(** *** Batches *)

Lemma batch_drop l position x : x ∈ batch_from snapshot l position -> x ∈ drop position l.
Proof. unfold batch_from. apply elem_of_take_sub. Qed.
Lemma batch_NoDup l position : NoDup l -> NoDup (batch_from snapshot l position).
Proof. intros H. unfold batch_from. by apply NoDup_take_sub, NoDup_drop_sub. Qed.
Lemma batch_length l position : (position <= length l)%nat ->
  (position + length (batch_from snapshot l position) <= length l)%nat.
Proof. intros H. unfold batch_from. rewrite length_take, length_drop. lia. Qed.
Lemma batch_take l position x : x ∈ batch_from snapshot l position ->
  x ∈ take (position + length (batch_from snapshot l position)) l.
Proof.
  intros Hx. set (b := batch_from snapshot l position) in *.
  assert (b = take (length b) (drop position l)) as Hb.
  { unfold b, batch_from. rewrite length_take. set (n := if whole snapshot then _ else _).
    destruct (Nat.le_gt_cases n (length (drop position l))); [by rewrite Nat.min_l|].
    rewrite Nat.min_r by lia. rewrite !take_ge by lia. done. }
  rewrite Hb in Hx. clearbody b. rewrite <- (take_drop position l).
  destruct (Nat.le_gt_cases position (length l)) as [Hp|Hp].
  - rewrite take_app_ge by (rewrite length_take; lia). apply elem_of_app. right.
    rewrite length_take. by replace (position + length b - Nat.min position (length l))%nat with (length b) by lia.
  - rewrite drop_ge in Hx by lia. rewrite take_nil in Hx. by apply elem_of_nil in Hx.
Qed.

(** *** Every step keeps the invariant *)

Lemma drop_total x : x ∈ drop total (assetIds snapshot) -> False.
Proof. unfold total. rewrite drop_all. apply not_elem_of_nil. Qed.

Lemma Good_plan r p w okd planned :
  Good r p w okd -> (total <= p)%nat -> planBulkRetryPass snapshot r = Some planned -> Good planned p w okd.
Proof.
  intros HG Hp H. pose proof (planned_failedIds _ _ _ H) as Hnone.
  apply planBulkRetryPass_Some in H as (Hretry & Hne & Hpl). cbv zeta in Hpl.
  destruct Hpl as (Hpass & Hfail & Hitems & Hs & Hk & Hq & Ht & Hi & Hsf).
  set (retried := List.filter (fun id => includes id (failedIds r)) (assetIds snapshot)) in *.
  assert (Permutation retried (failedIds r)) as Hperm.
  { apply NoDup_Permutation; [by apply NoDup_filter_b|apply HG|]. intros x. unfold retried.
    rewrite elem_of_filter_b, includes_true. split; [tauto|]. intros Hx. split; [|done].
    eapply elem_of_take_sub. by apply (g_failed _ _ _ _ HG). }
  assert (bulkRetryPending planned = retried) as Hpend by (by eapply bulkRetryPending_start).
  assert (p = total) as Hpt by (pose proof (g_processed _ _ _ _ HG); lia).
  assert (forall x, x ∈ retried -> x ∈ failedIds r) as Hsub by (intros x; by rewrite Hperm).
  destruct (g_counts _ _ _ _ HG) as (f & k & [Cs Cf Ck (? & ? & ?)] & Hle & Hsum).
  pose proof (Permutation_length Hperm) as Hlen. pose proof total_bound.
  assert (length (bulkRetryPending r) = 0%nat) as Hzero by (unfold bulkRetryPending; by rewrite Hretry).
  split.
  - apply HG.
  - rewrite Hq. apply HG.
  - split; [rewrite Hi; apply HG|]. intros pass. rewrite Hpass. by intros [= <-].
  - exists (f - Z.of_nat (length retried)), k. rewrite Hnone, Hpend. simpl length. split; [|lia].
    split; [by rewrite Hs| |by rewrite Hk|lia].
    rewrite Hfail, Cf, num_sub_int, num_max_int by lia. f_equal. lia.
  - rewrite Hitems. pose proof (g_items _ _ _ _ HG). pose proof (filter_length_le (fun item => negb (is_failed item)) (items r)). lia.
  - intros pass. rewrite Hpass. intros [= <-]. cbn [ids retryTotal retryProcessed]. split; [done|].
    split; [by apply NoDup_filter_b|]. split; [intros x Hx; by apply elem_of_filter_b in Hx as [? _]|].
    split; [done|]. exists 0%nat. split; [done|lia].
  - rewrite Hnone. split; [constructor|]. by intros x ?%elem_of_nil.
  - rewrite Hnone, Hpend. destruct (g_ok _ _ _ _ HG) as [Hn Hok]. split; [done|]. intros x Hx.
    destruct (Hok x Hx) as (H1' & _ & H3). split; [done|]. split; [intros Hr; by apply H3, Hsub|]. apply not_elem_of_nil.
  - rewrite Hsf. apply HG.
  - rewrite Hsf. apply HG.
  - rewrite Hsf. intros x Hx. apply (g_fresh _ _ _ _ HG). destruct Hx as [Hx|[Hx|Hx]].
    + by left.
    + right; right. rewrite Hpend in Hx. by apply Hsub.
    + rewrite Hnone in Hx. by apply elem_of_nil in Hx.
  - apply HG.
  - apply HG.
Qed.

Lemma Good_first r p w okd outcomes :
  Good r p w okd -> (p < total)%nat -> map itemId outcomes = batch_from snapshot (assetIds snapshot) p ->
  honest (shiftFrom r) w outcomes ->
  Good (pruneShiftOrigins snapshot (mergeBulkOutcomes (set_inFlight r None) outcomes))
    (p + length (batch_from snapshot (assetIds snapshot) p)) w (okd ++ ok_ids outcomes).
Proof.
  intros HG Hp Hout Hh. set (batch := batch_from snapshot (assetIds snapshot) p) in *.
  assert (retry r = None) as Hretry.
  { destruct (retry r) as [pass|] eqn:E; [|done]. destruct (g_retry _ _ _ _ HG pass E) as [-> _]. lia. }
  assert (bulkRetryPending r = []) as Hpend by (unfold bulkRetryPending; by rewrite Hretry).
  assert (bulkRetryPending (set_inFlight r None) = []) as HpendR by exact Hpend.
  apply (Good_record r (set_inFlight r None) p _ w okd batch outcomes); try done.
  - split; [done|]. cbn [retry set_inFlight]. intros pass. by rewrite Hretry.
  - cbn [retry set_inFlight]. intros pass. by rewrite Hretry.
  - by apply batch_NoDup.
  - intros x Hx%batch_drop. split; [by left|]. split.
    + intros Ho. destruct (proj2 (g_ok _ _ _ _ HG) x Ho) as [Ht _]. by eapply take_drop_disjoint.
    + intros Hf. destruct (proj2 (g_failed _ _ _ _ HG) x Hf) as [Ht _]. by eapply take_drop_disjoint.
  - intros x Hx. split; [by apply batch_take|]. rewrite HpendR. apply not_elem_of_nil.
  - pose proof (batch_length (assetIds snapshot) p) as Hb. unfold total in *. fold batch in Hb. lia.
  - rewrite HpendR, Hpend. simpl. lia.
  - intros x Hx Hk. eapply (take_drop_disjoint (p + length batch) (assetIds snapshot) x); [exact Hids| |exact Hx].
    apply batch_take. apply (g_keys _ _ _ _ HG); [done|]. rewrite <- drop_drop in Hx. by eapply elem_of_drop_sub.
Qed.

Lemma Good_second r p w okd pass q outcomes :
  Good r p w okd -> retry r = Some pass -> retryProcessed pass = JInt (Z.of_nat q) -> (q < length (ids pass))%nat ->
  map itemId outcomes = batch_from snapshot (ids pass) q -> honest (shiftFrom r) w outcomes ->
  Good (pruneShiftOrigins snapshot (mergeBulkOutcomes
          (set_retry r (Some (set_processed pass (Z.of_nat (q + length (batch_from snapshot (ids pass) q))) None))) outcomes))
    p w (okd ++ ok_ids outcomes).
Proof.
  intros HG Hr Hq Hql Hout Hh. set (batch := batch_from snapshot (ids pass) q) in *.
  destruct (g_retry _ _ _ _ HG pass Hr) as (Hpt & Hn & Hsub & Ht & _). subst p.
  set (advanced := set_processed pass (Z.of_nat (q + length batch)) None).
  pose proof (pending_spec r pass q Hr Hq) as Hpend.
  assert (bulkRetryPending (set_retry r (Some advanced)) = drop (q + length batch) (ids pass)) as HpendR
    by (by apply (pending_spec _ advanced)).
  pose proof (batch_length (ids pass) q ltac:(lia)) as Hb. fold batch in Hb.
  apply (Good_record r (set_retry r (Some advanced)) total _ w okd batch outcomes); try done.
  - split; [apply HG|]. cbn [retry set_retry]. by intros ? [= <-].
  - cbn [retry set_retry]. intros ? [= <-]. cbn [ids retryTotal retryProcessed advanced set_processed].
    repeat (split; [done|]). eexists. split; [done|lia].
  - by apply batch_NoDup.
  - intros x Hx. assert (x ∈ bulkRetryPending r) as Hin by (rewrite Hpend; by apply batch_drop).
    split; [by right; left|]. split; intros Ho.
    + by apply (proj2 (g_ok _ _ _ _ HG) x Ho) in Hin.
    + by apply (proj2 (g_failed _ _ _ _ HG) x Ho) in Hin.
  - intros x Hx. split.
    + unfold total. rewrite firstn_all. apply Hsub. eapply elem_of_drop_sub. by apply batch_drop.
    + rewrite HpendR. intros Hd. eapply take_drop_disjoint; [exact Hn| |exact Hd]. by apply batch_take.
  - intros x. rewrite HpendR, Hpend, <- drop_drop. apply elem_of_drop_sub.
  - rewrite HpendR, Hpend, !length_drop. lia.
  - intros x Hx. by apply drop_total in Hx.
Qed.

Lemma retry_left_Some r p w okd pass q : Good r p w okd -> retry_left r = Some (pass, q) ->
  retry r = Some pass /\ retryProcessed pass = JInt (Z.of_nat q) /\ (q < length (ids pass))%nat /\ p = total.
Proof.
  intros HG. unfold retry_left. destruct (retry r) as [pass'|] eqn:E; [|done].
  destruct (g_retry _ _ _ _ HG pass' E) as (Hp & _ & _ & _ & q' & Eq & _). rewrite Eq, num_index_int, Nat2Z.id.
  destruct (Nat.ltb_spec q' (length (ids pass'))); [|done]. by intros [= <- <-].
Qed.

Lemma retry_left_None r p w okd : Good r p w okd -> retry_left r = None -> bulkRetryPending r = [].
Proof.
  intros HG. unfold retry_left. destruct (retry r) as [pass|] eqn:E; [|by unfold bulkRetryPending; rewrite E].
  destruct (g_retry _ _ _ _ HG pass E) as (_ & _ & _ & _ & q & Eq & _). rewrite (pending_spec r pass q E Eq).
  rewrite Eq, num_index_int, Nat2Z.id. destruct (Nat.ltb_spec q (length (ids pass))); [done|].
  intros _. by apply drop_ge.
Qed.

Lemma mark_ok (position : nat) (batch : list string) :
  (0 < length batch)%nat -> (position + length batch <= total)%nat ->
  inFlight_ok (Some (mkInFlight (Z.of_nat position) (Z.of_nat (length batch)))).
Proof. intros. pose proof total_bound. cbn. lia. Qed.

Lemma batch_nonempty l position : (position < length l)%nat -> (0 < length (batch_from snapshot l position))%nat.
Proof.
  intros Hp. unfold batch_from. rewrite length_take, length_drop. destruct (whole snapshot); [lia|].
  assert (0 < batchSizeOf snapshot)%nat as Hb.
  { unfold batchSizeOf, MEDIA_HEALTH_BULK_BATCH_SIZE, BULK_BATCH_SIZE. destruct (isMediaHealthBulkAction _); lia. }
  unfold bulkBatchLength. destruct (bulkGroupIndex snapshot) as [index|]; [|lia].
  unfold groupAlignedBatchSize. destruct (Nat.leb_spec (length l) position); lia.
Qed.

(** A row that was not touched is claimed as before. *)
Lemma claimed_same st st' : row st' = row st -> rowProcessed st' = rowProcessed st ->
  claimed_result st' = claimed_result st /\ claimed_processed st' = claimed_processed st.
Proof. unfold claimed_result, claimed_processed. by intros -> ->. Qed.

Lemma Inv_plain st r p w okd l :
  Good r p w okd -> local_ok r p l -> dates st = w -> okIds st = okd ->
  row st = Some (result_json r) -> rowProcessed st = Z.of_nat p -> local st = l -> Inv st.
Proof.
  intros HG Hl <- <- Hrow Hp <-. exists r, p. destruct (claimed_plain r p _ _ st HG Hrow Hp) as [E1 E2]. done.
Qed.

(** Marking and sending a batch of the walk. *)
Lemma Inv_send st r p batch : Good r p (dates st) (okIds st) -> (p < total)%nat ->
  batch = batch_from snapshot (assetIds snapshot) p ->
  let r1 := withShiftOrigins snapshot r batch (dates st) in
  Inv (write st (set_inFlight r1 (Some (mkInFlight (Z.of_nat p) (Z.of_nat (length batch))))) p (Sending r1 p batch) []).
Proof.
  intros HG Hlt -> r1. set (batch := batch_from snapshot (assetIds snapshot) p) in *.
  destruct (Good_send r p (dates st) (okIds st) batch HG) as (sf & E & HG1).
  { intros x Hx. left. by apply batch_drop in Hx. }
  { done. }
  unfold r1. rewrite E. exists (set_shiftFrom r sf), p. cbn [dates okIds write local]. rewrite app_nil_r.
  split; [done|].
  destruct (claimed_marked _ _ _ _ (write st (set_inFlight (set_shiftFrom r sf)
    (Some (mkInFlight (Z.of_nat p) (Z.of_nat (length batch))))) p (Sending (set_shiftFrom r sf) p batch) [])
    (mkInFlight (Z.of_nat p) (Z.of_nat (length batch))) HG1) as [E1 E2]; try done.
  apply mark_ok; [by apply batch_nonempty|]. pose proof (batch_length (assetIds snapshot) p) as Hb.
  unfold total in *. fold batch in Hb. lia.
Qed.

(** Marking and sending a batch of the retry pass. *)
Lemma Inv_retry_send st r p pass q batch : Good r p (dates st) (okIds st) -> retry_left r = Some (pass, q) ->
  batch = batch_from snapshot (ids pass) q ->
  let r1 := withShiftOrigins snapshot r batch (dates st) in
  Inv (write st (set_retry r1 (Some (set_processed pass (Z.of_nat q)
                                       (Some (mkInFlight (Z.of_nat q) (Z.of_nat (length batch)))))))
         p (Retrying r1 p pass q batch) []).
Proof.
  intros HG Hleft -> r1. set (batch := batch_from snapshot (ids pass) q) in *.
  destruct (retry_left_Some _ _ _ _ _ _ HG Hleft) as (Hpass & Hq & Hql & Hpt).
  pose proof (pending_spec r pass q Hpass Hq) as Hpend.
  destruct (Good_send r p (dates st) (okIds st) batch HG) as (sf & E & HG1).
  { intros x Hx. right; left. rewrite Hpend. by apply batch_drop in Hx. }
  { intros x _ Hx. rewrite Hpt in Hx. by apply drop_total in Hx. }
  unfold r1. rewrite E. exists (set_shiftFrom r sf), p. cbn [dates okIds write local]. rewrite app_nil_r.
  split; [done|]. set (f := mkInFlight (Z.of_nat q) (Z.of_nat (length batch))).
  destruct (claimed_marked_retry _ _ _ _ (write st (set_retry (set_shiftFrom r sf) (Some (set_processed pass (Z.of_nat q) (Some f))))
    p (Retrying (set_shiftFrom r sf) p pass q batch) []) pass q f HG1) as [E1 E2]; try done.
  pose proof (batch_length (ids pass) q ltac:(lia)) as Hb. apply mark_ok; [by apply batch_nonempty|].
  destruct (g_retry _ _ _ _ HG pass Hpass) as (_ & Hn & Hsub & _).
  assert (length (ids pass) <= total)%nat; [|unfold batch; lia].
  apply NoDup_incl_length; [by apply NoDup_ListNoDup|]. intros x Hx. by apply list_elem_of_In, Hsub, list_elem_of_In.
Qed.

Lemma Inv_step st st' : Inv st -> step st st' -> Inv st'.
Proof.
  intros (r & p & HG & Hr & Hp & Hl) Hstep.
  destruct Hstep as [st Hloc|st r' p' Hloc Hlt batch r1|st x t batch r' Hloc Hshift Hx Hex Ha
    |st r' p' batch outcomes Hloc Hout Hh r2 p2|st r' p' planned Hloc Hge Hplan
    |st r' p' pass q Hloc Hge Hplan Hleft batch r1|st r' p' pass q batch outcomes Hloc Hout Hh advanced r2
    |st r' p' Hloc Hge Hplan Hleft|st Hloc].
  - rewrite Hr, Hp. eapply (Inv_plain _ r p _ _ (Running r p)); try done. cbn [dates okIds write]. by rewrite app_nil_r.
  - rewrite Hloc in Hl. destruct Hl as [-> ->]. by apply Inv_send.
  - exists r, p. destruct (claimed_same st (mkState (row st) (rowProcessed st) (<[x := Some t]> (dates st)) (local st) (okIds st))
      eq_refl eq_refl) as [-> ->]. cbn [dates okIds local]. split; [|done].
    assert (r' = r) as ->.
    { destruct Hloc as [[p0 E]|(p0 & pass & q & E)]; rewrite E in Hl; by destruct Hl as [-> _]. }
    by apply Good_write.
  - rewrite Hloc in Hl. destruct Hl as (-> & -> & Hlt & ->).
    pose proof (Good_first r p _ _ outcomes HG Hlt Hout Hh) as HG2.
    by eapply (Inv_plain _ r2 p2 _ _ (Running r2 p2)).
  - rewrite Hloc in Hl. destruct Hl as [-> ->]. pose proof (Good_plan r p _ _ planned HG Hge Hplan) as HG2.
    eapply (Inv_plain _ planned p _ _ Idle); try done. cbn [okIds write]. by rewrite app_nil_r.
  - rewrite Hloc in Hl. destruct Hl as [-> ->]. by apply Inv_retry_send.
  - rewrite Hloc in Hl. destruct Hl as (-> & -> & Hpass & Hq & Hql & ->).
    pose proof (Good_second r p _ _ pass q outcomes HG Hpass Hq Hql Hout Hh) as HG2.
    by eapply (Inv_plain _ r2 p _ _ (Running r2 p)).
  - rewrite Hloc in Hl. destruct Hl as [-> ->]. exists r, p.
    destruct (claimed_same st (mkState (row st) (rowProcessed st) (dates st) (Finished r) (okIds st)) eq_refl eq_refl) as [-> ->].
    do 3 (split; [done|]). cbn [local local_ok]. split; [done|]. split; [pose proof (g_processed _ _ _ _ HG); lia|].
    split; [by eapply retry_left_None|]. intros Hretry. unfold planBulkRetryPass in Hplan. rewrite Hretry in Hplan.
    destruct (Nat.eqb_spec (length (uniq (failedIds r))) 0) as [E|]; [|done].
    apply length_zero_iff_nil in E. destruct (failedIds r) as [|x l]; done.
  - exists r, p. destruct (claimed_same st (mkState (row st) (rowProcessed st) (dates st) Idle (okIds st)) eq_refl eq_refl) as [-> ->].
    done.
Qed.

(** A job just submitted: the empty result its creation stores (or an unwritten row, which reads the same),
    over the starting dates.  A manual retry, which stores carried starts, is not one. *)
Definition submitted (st : State) : Prop :=
  (row st = Some (result_json (emptyBulkResult (JInt (Z.of_nat total)))) \/ row st = None) /\ rowProcessed st = 0 /\ dates st = D0 /\ local st = Idle /\ okIds st = [].

Lemma Inv_submitted st : submitted st -> Inv st.
Proof.
  intros (Hrow & Hp & Hd & Hl & Ho). exists (emptyBulkResult (JInt (Z.of_nat total))), 0%nat.
  assert (claimed_result st = emptyBulkResult (JInt (Z.of_nat total))) as ->.
  { unfold claimed_result. destruct Hrow as [-> | ->]; [|done]. cbv -[total Z.of_nat]. by destruct (Z.of_nat total). }
  unfold claimed_processed. rewrite Hp, Hd, Hl, Ho.
  split; [|split; [done|split; [simpl; lia|done]]]. split; try done.
  - lia.
  - exists 0, 0. split; [by split|simpl; lia].
  - simpl. lia.
  - split; [constructor|]. by intros x ?%elem_of_nil.
  - split; [constructor|]. by intros x ?%elem_of_nil.
  - split; [constructor|]. by intros x ?%elem_of_nil.
  - intros x. by left.
  - by intros _ x ?%elem_of_nil.
Qed.

Lemma Inv_reachable st st' : submitted st -> rtc step st st' -> Inv st'.
Proof.
  intros H0 H. apply Inv_submitted in H0. induction H as [|x y z Hxy _ IH]; [done|]. apply IH. by eapply Inv_step.
Qed.

End worker.

(** ** Properties *)

(** A request the server accepts, over known starting dates. *)
Record well_submitted (snapshot : BulkOperationSnapshot) (D0 : gmap string (option Z)) : Prop := mkSubmitted {
  ws_ids : NoDup (assetIds snapshot);
  ws_names : forall x, x ∈ assetIds snapshot -> x <> ""%string;
  ws_some : (0 < total snapshot)%nat;
  ws_max : Z.of_nat (total snapshot) <= BULK_MAX_ITEMS;
  ws_dates : forall x t, D0 !! x = Some (Some t) -> valid_time t
}.

Lemma resume_todo snapshot r p x : (p <= length (assetIds snapshot))%nat ->
  x ∈ bulkResumeIds snapshot r (Z.of_nat p) <-> x ∈ assetIds snapshot /\ todo snapshot r p x.
Proof.
  intros Hp. unfold bulkResumeIds, todo. rewrite elem_of_filter_b, orb_true_iff, !includes_true, elem_of_app.
  rewrite Z.min_l, Z.max_r, Nat2Z.id by lia. tauto.
Qed.

(** C30. A relative date shift moves every item exactly once, however often the worker dies, is paused
    or repeats a batch, and whatever it is told about writes that took effect: in every reachable
    state each item has its starting date or that date plus the minutes, an item answered [ok] has
    been moved (unless it never had a date), and an item the job may still apply without a recorded
    start is untouched. *)
Theorem bulk_shift_exactly_once (other_formats : string -> option Z) (snapshot : BulkOperationSnapshot)
    (minutes : Z) (D0 : gmap string (option Z)) (st st' : State)
    (Hs : well_submitted snapshot D0) (H0 : submitted snapshot D0 st)
    (H : rtc (step other_formats snapshot minutes) st st') :
  (forall x, dates st' !! x = D0 !! x \/
     exists t, D0 !! x = Some (Some t) /\ dates st' !! x = Some (Some (t + minutes * 60000))) /\
  (isRelativeDateShift snapshot = true -> forall x, x ∈ okIds st' ->
     D0 !! x = Some None \/ exists t, D0 !! x = Some (Some t) /\ dates st' !! x = Some (Some (t + minutes * 60000))) /\
  (forall x, x ∈ bulkResumeIds snapshot (claimed_result other_formats snapshot st') (Z.of_nat (claimed_processed snapshot st')) ->
     assoc_get x (shiftFrom (claimed_result other_formats snapshot st')) = None -> dates st' !! x = D0 !! x).
Proof.
  destruct Hs. destruct (Inv_reachable other_formats snapshot minutes D0 ws_ids0 ws_names0 ws_some0 ws_max0 ws_dates0 st st' H0 H)
    as (r & p & HG & Hr & Hp & _).
  split; [apply HG|]. split; [apply HG|]. rewrite Hr, Hp. intros x Hx Hn.
  apply resume_todo in Hx as [_ Hx]; [|apply HG]. by apply (g_fresh _ _ _ _ _ _ _ _ HG).
Qed.

Definition shift_sample : BulkOperationSnapshot :=
  mkSnapshot ChangeDate ["a"%string] [("dateMode"%string, JStr "shift")] None false None None None false.
Definition sample_dates : gmap string (option Z) := {[ "a"%string := Some 0 ]}.

Lemma sample_submitted : well_submitted shift_sample sample_dates.
Proof.
  split.
  - apply NoDup_singleton.
  - by intros x ->%list_elem_of_singleton.
  - vm_compute. lia.
  - by vm_compute.
  - intros x t. unfold sample_dates. intros [_ [= <-]]%lookup_singleton_Some. unfold valid_time. lia.
Qed.

(** A worker applies the batch, dies before it can say so, and the next one applies it again. *)
Lemma sample_run :
  exists st', rtc (step (fun _ => None) shift_sample 60) (mkState None 0 sample_dates Idle []) st' /\
    okIds st' = ["a"%string] /\ dates st' !! "a"%string = Some (Some 3600000).
Proof.
  eexists. split.
  { eapply rtc_l; [by apply step_claim|].
    eapply rtc_l; [eapply step_send; [reflexivity|vm_compute; lia]|].
    eapply rtc_l; [eapply (step_write_date _ _ _ _ "a"%string 3600000);
      [left; eexists; reflexivity|by vm_compute|by vm_compute; left|by eexists|by vm_compute]|].
    eapply rtc_l; [by apply step_crash|].
    eapply rtc_l; [by apply step_claim|].
    eapply rtc_l; [eapply step_send; [reflexivity|vm_compute; lia]|].
    eapply rtc_l; [eapply (step_write_date _ _ _ _ "a"%string 3600000);
      [left; eexists; reflexivity|by vm_compute|by vm_compute; left|by eexists|by vm_compute]|].
    eapply rtc_l; [eapply (step_record _ _ _ _ _ _ _ [ok "a"]); [reflexivity|by vm_compute|]|apply rtc_refl].
    intros _ x Hx. apply list_elem_of_singleton in Hx as ->. by vm_compute. }
  split; by vm_compute.
Qed.

Lemma bulk_shift_exactly_once_witness :
  exists st', okIds st' = ["a"%string] /\
    (sample_dates !! "a"%string = Some None \/
     exists t, sample_dates !! "a"%string = Some (Some t) /\ dates st' !! "a"%string = Some (Some (t + 60 * 60000))).
Proof.
  destruct sample_run as (st' & Hrun & Hok & Hd). exists st'. split; [exact Hok|].
  destruct (bulk_shift_exactly_once (fun _ => None) shift_sample 60 sample_dates (mkState None 0 sample_dates Idle []) st'
    sample_submitted ltac:(split; [by right|by repeat split]) Hrun) as (_ & H & _).
  apply H; [by vm_compute|]. rewrite Hok. by apply list_elem_of_singleton.
Defined.

(** The books balance in every reachable state of every bulk action: the row claims a result
    whose successes are the distinct items answered [ok], whose answered counts plus the items waiting
    for their retry are exactly the cursor; a manual retry never covers an item already done and
    covers everything not reached, waiting or recorded as failed; and a finished job has answered for
    every item, each recorded failure after its automatic second attempt. *)
Theorem bulk_accounting (other_formats : string -> option Z) (snapshot : BulkOperationSnapshot)
    (minutes : Z) (D0 : gmap string (option Z)) (st st' : State)
    (Hs : well_submitted snapshot D0) (H0 : submitted snapshot D0 st)
    (H : rtc (step other_formats snapshot minutes) st st') :
  exists r p f k,
    claimed_result other_formats snapshot st' = r /\ claimed_processed snapshot st' = p /\ (p <= total snapshot)%nat /\
    counted r (Z.of_nat (length (okIds st'))) f k /\
    Z.of_nat (length (okIds st')) + f + k + Z.of_nat (length (bulkRetryPending r)) = Z.of_nat p /\
    NoDup (okIds st') /\
    (forall x, x ∈ okIds st' -> x ∈ assetIds snapshot /\ x ∉ bulkResumeIds snapshot r (Z.of_nat p)) /\
    (forall x, x ∈ assetIds snapshot -> todo snapshot r p x -> x ∈ bulkResumeIds snapshot r (Z.of_nat p)) /\
    (forall r', local st' = Finished r' -> r' = r /\ bulkProcessedCount r = JInt (Z.of_nat (total snapshot)) /\
       (failedIds r <> [] -> retry r <> None)).
Proof.
  pose proof Hs as Hs'. destruct Hs'.
  destruct (Inv_reachable other_formats snapshot minutes D0 ws_ids0 ws_names0 ws_some0 ws_max0 ws_dates0 st st' H0 H)
    as (r & p & HG & Hr & Hp & Hl).
  destruct (g_counts _ _ _ _ _ _ _ _ HG) as (f & k & Hc & Hle & Hsum). pose proof (g_processed _ _ _ _ _ _ _ _ HG) as Hpt.
  exists r, p, f, k. do 5 (split; [done|]). split; [apply HG|]. split; [|split].
  - intros x Hx. destruct (proj2 (g_ok _ _ _ _ _ _ _ _ HG) x Hx) as (Ht & Hpe & Hfa).
    split; [by eapply elem_of_take_sub|]. intros [_ [Hd|[Hd|Hd]]]%resume_todo; [|done|done|done].
    by eapply take_drop_disjoint.
  - intros x Hx Ht. by apply resume_todo.
  - intros r' Hloc. rewrite Hloc in Hl. destruct Hl as (-> & -> & Hpend & Hret). split; [done|]. split.
    + rewrite Hpend in Hsum. simpl in Hsum. rewrite Z.add_0_r in Hsum.
      rewrite (counted_processed _ _ _ _ Hc); [by rewrite Hsum|]. unfold BULK_MAX_ITEMS in ws_max0. lia.
    + intros Hf Hn. by apply Hf, Hret.
Qed.

Lemma bulk_accounting_witness :
  exists st' r p f k, okIds st' = ["a"%string] /\ claimed_result (fun _ => None) shift_sample st' = r /\
    counted r 1 f k /\ 1 + f + k + Z.of_nat (length (bulkRetryPending r)) = Z.of_nat p.
Proof.
  destruct sample_run as (st' & Hrun & Hok & Hd). exists st'.
  destruct (bulk_accounting (fun _ => None) shift_sample 60 sample_dates (mkState None 0 sample_dates Idle []) st'
    sample_submitted ltac:(split; [by right|by repeat split]) Hrun) as (r & p & f & k & E1 & _ & _ & E2 & E3 & _).
  exists r, p, f, k. rewrite Hok in E2, E3. repeat split; try done; apply E2.
Defined.

(** C31. A starting date that a manual retry carries over is lost when its item is not in the first
    batch: once that batch is recorded the pruned result has no date for the item, and the next send
    records the date the item has by then, so an item already moved is moved a second time. *)
Theorem carried_start_is_forgotten (other_formats : string -> option Z) (snapshot : BulkOperationSnapshot)
    (minutes : Z) (r : BulkOperationResult) (outcomes : list BulkOperationItem) (later : list string)
    (w : gmap string (option Z)) (x : string) (now : Z)
    (Hshift : isRelativeDateShift snapshot = true) (Hretry : retry r = None) (Hitems : items r = [])
    (Hn : NoDup (map fst (shiftFrom r))) (Hx : x ∉ map itemId outcomes)
    (Hlater : x ∈ later) (Hnow : w !! x = Some (Some now)) (Hvalid : valid_time now) :
  let r2 := pruneShiftOrigins snapshot (mergeBulkOutcomes (set_inFlight r None) outcomes) in
  assoc_get x (shiftFrom r2) = None /\
  shift_answer other_formats minutes (shiftFrom (withShiftOrigins snapshot r2 later w)) x
    = SetDate (now + minutes * 60000).
Proof.
  set (R := set_inFlight r None). set (m := mergeBulkOutcomes R outcomes).
  destruct (merge_fold_other outcomes R) as (_ & Mf & Mr & Msf). fold m in Mf, Mr, Msf.
  assert (clean m) as Hc by (split; [by rewrite Mf|intros pass; rewrite Mr; unfold R; cbn [retry set_inFlight]; by rewrite Hretry]).
  destruct (prune_spec snapshot m Hc) as (sf & E & Hnd & Hget). cbv zeta. fold R m. rewrite E.
  assert (bulkRetryPending m = []) as Hpend by (unfold bulkRetryPending; rewrite Mr; unfold R; cbn [retry set_inFlight]; by rewrite Hretry).
  assert (x ∉ failedIds m) as Hfail.
  { destruct (merged_failedIds R outcomes) as [n En]; [unfold R; cbn [items set_inFlight]; rewrite Hitems; simpl; lia|].
    fold m in En. rewrite En. intros Hin%elem_of_take_sub. unfold failedIds, R in Hin. cbn [items set_inFlight] in Hin.
    rewrite Hitems in Hin. simpl in Hin. by apply elem_of_map_filter_b in Hin. }
  assert (assoc_get x sf = None) as Hnone.
  { rewrite Hget, Hpend, app_nil_r. by rewrite (proj2 (includes_false _ _) Hfail). }
  split; [exact Hnone|].
  destruct (withShiftOrigins_spec other_formats snapshot (set_shiftFrom m sf) later w) as (sf2 & E2 & _ & Hget2).
  { apply Hnd. by rewrite Msf. }
  rewrite E2. cbn [shiftFrom set_shiftFrom]. unfold shift_answer. rewrite Hget2. cbn [shiftFrom set_shiftFrom].
  rewrite Hnone, Hshift, bool_decide_eq_true_2 by done. cbn [andb]. rewrite Hnow. cbn [option_map].
  by rewrite date_parse_to_iso.
Qed.

(** The item started at 0 and was moved by an hour before the manual retry; its retry moves it again. *)
Lemma carried_start_is_forgotten_witness :
  let snapshot := mkSnapshot ChangeDate ["a"; "b"]%string [("dateMode"%string, JStr "shift")] None false None None None false in
  let r := set_shiftFrom (emptyBulkResult (JInt 2)) [("b"%string, Some (to_iso 0))] in
  let r2 := pruneShiftOrigins snapshot (mergeBulkOutcomes (set_inFlight r None) [ok "a"]) in
  shift_answer (fun _ => None) 60 (shiftFrom (withShiftOrigins snapshot r2 ["b"%string] {[ "b"%string := Some 3600000 ]})) "b"
    = SetDate 7200000.
Proof.
  intros snapshot r r2.
  apply (carried_start_is_forgotten (fun _ => None) snapshot 60 r [ok "a"] ["b"%string] {[ "b"%string := Some 3600000 ]} "b" 3600000);
    try (by vm_compute).
  - apply NoDup_singleton.
  - simpl. intros E%list_elem_of_singleton. discriminate E.
  - by apply list_elem_of_singleton.
Defined.
