(* ===== verification/WorkflowJson.v ===== *)
(** * Workflow definitions: stored JSON and the credentials in it

    [src/server/src/utils/workflow-definition.ts], first and third part: the size and shape limits a
    stored definition has to respect ([assertWorkflowJson]), and the credentials inside a step's
    parameters: where they are ([credentialPaths]), how they are taken out of what is shown
    ([redactCredentials]) and put back into what an editor sends ([restoreCredentials]).

    A parameter object is a [json] value: its fields in [Object.entries] order.  [structuredClone]
    makes a fresh value and every value written is a string, so a write to the clone is a pure update
    of its tree; [WLeavesJson] marks the writes whose JavaScript result would not be JSON any more (a
    hole in an array, a named property of an array) or that would throw a [RangeError] or [TypeError];
    [restoreCredentials_correct] shows they do not happen.  The text of a number that is not an integer below
    [10^21] is the parameter [number_text] (only its length is used). *)

From Stdlib Require Import QArith.
From S2P Require Import Prelude JsNumber JsString.
Local Open Scope Z_scope.

Inductive WorkflowError : Type :=
| WTooLarge        (** This workflow is too large or deeply nested. *)
| WPrototypeKeys   (** Workflow definitions cannot contain prototype keys. *)
| WNotJson         (** Workflow definitions must contain ordinary JSON values. *)
| WTooBig          (** Choose a workflow smaller than 256 KB. *)
| WReenter         (** Re-enter stored credentials when changing the fields around them. *)
| WTooManySteps    (** Choose a workflow with up to 100 ordered steps. *)
| WLeavesJson.

#[export] Instance WorkflowError_eq_dec : EqDecision WorkflowError.
Proof. solve_decision. Defined.

Module WORKFLOW_LIMITS.
Definition bytes : Z := 256000.
Definition steps : Z := 100.
Definition depth : Z := 24.
Definition nodes : Z := 12000.
End WORKFLOW_LIMITS.

Definition UNSAFE_KEYS : list string := ["__proto__"; "prototype"; "constructor"]%string.

Definition isPlainObject (v : json) : bool := match v with JObj _ => true | _ => false end.
Definition isContainer (v : json) : bool := match v with JObj _ | JArr _ => true | _ => false end.

(** ** [JSON.stringify] and its UTF-8 length *)

Section stringify.
Context (number_text : Q -> string).

Definition hex_char (d : Z) : ascii := char_of (if d <? 10 then 48 + d else 87 + d).

(** One code unit of a quoted string. *)
Definition escape_char (c : ascii) : string :=
  let k := char_code c in
  if k =? 34 then String (char_of 92) (String c "") else if k =? 92 then "\\" else if k =? 8 then "\b" else if k =? 9 then "\t"
  else if k =? 10 then "\n" else if k =? 12 then "\f" else if k =? 13 then "\r"
  else if k <? 32 then ("\u00" +:+ String (hex_char (k / 16)) (String (hex_char (k mod 16)) ""))%string
  else String c "".

Fixpoint escape (s : string) : string :=
  match s with EmptyString => EmptyString | String c s' => (escape_char c +:+ escape s')%string end.

Definition quote (s : string) : string := String (char_of 34) (escape s +:+ String (char_of 34) "")%string.

Definition stringify_number (n : jsnum) : string :=
  match n with
  | JInt z => if Z.abs z <? 10 ^ 21 then string_of_int z else number_text (inject_Z z)
  | JDec q => number_text q
  | JNaN | JInf _ => "null"
  end.

Fixpoint stringify (v : json) : string :=
  match v with
  | JNull => "null"
  | JBool b => if b then "true" else "false"
  | JNum n => stringify_number n
  | JStr s => quote s
  | JArr items => ("[" +:+ join "," (map stringify items) +:+ "]")%string
  | JObj fs => ("{" +:+ join "," (map (fun '(k, c) => quote k +:+ ":" +:+ stringify c) fs) +:+ "}")%string
  end.

(** [Buffer.byteLength(s, 'utf8')] of code units below 256. *)
Fixpoint byteLength (s : string) : Z :=
  match s with
  | EmptyString => 0
  | String c s' => (if char_code c <? 128 then 1 else 2) + byteLength s'
  end.

(** ** The limits *)

Fixpoint check (item : json) (depth nodes : Z) {struct item} : res WorkflowError Z :=
  let nodes := nodes + 1 in
  if (WORKFLOW_LIMITS.nodes <? nodes) || (WORKFLOW_LIMITS.depth <? depth) then Throw WTooLarge else
  match item with
  | JNull | JStr _ | JBool _ => Ok nodes
  | JNum n => if num_is_finite n then Ok nodes else Throw WNotJson
  | JArr items =>
      (fix each (l : list json) (nodes : Z) : res WorkflowError Z :=
         match l with
         | [] => Ok nodes
         | child :: l' => nodes ← check child (depth + 1) nodes; each l' nodes
         end) items nodes
  | JObj fs =>
      (fix each (l : list (string * json)) (nodes : Z) : res WorkflowError Z :=
         match l with
         | [] => Ok nodes
         | (key, child) :: l' =>
             if includes key UNSAFE_KEYS then Throw WPrototypeKeys
             else nodes ← check child (depth + 1) nodes; each l' nodes
         end) fs nodes
  end.

Definition assertWorkflowJson (value : json) : res WorkflowError unit :=
  _ ← check value 0 0;
  if WORKFLOW_LIMITS.bytes <? byteLength (stringify value) then Throw WTooBig else Ok tt.
End stringify.

(** ** Credentials *)

Definition CREDENTIAL_NAMES : list string :=
  ["headervalue"; "password"; "passphrase"; "token"; "accesstoken"; "refreshtoken"; "bearertoken"; "secret";
   "authorization"; "apikey"; "api_key"; "api-key"; "privatekey"; "clientsecret"]%string.
(** [CREDENTIAL_KEY.test(key)]: one of the names, in any case. *)
Definition CREDENTIAL_KEY (key : string) : bool := includes (to_lower key) CREDENTIAL_NAMES.

(** A credential: a text that is not blank under such a name. *)
Definition is_credential (key : string) (child : json) : bool :=
  CREDENTIAL_KEY key && match child with JStr s => negb (String.eqb (trim s) "") | _ => false end.

(** The entries of an array, from index [i]. *)
Section map_entries.
Context {A B : Type} (f : string -> A -> B).
Fixpoint map_entries (i : Z) (l : list A) : list B :=
  match l with
  | [] => []
  | x :: l' => f (string_of_int i) x :: map_entries (i + 1) l'
  end.
End map_entries.

(** [Object.entries] of a container. *)
Definition entries (v : json) : list (string * json) :=
  match v with
  | JObj fs => fs
  | JArr items => map_entries pair 0 items
  | _ => []
  end.

Fixpoint credentialPaths (value : json) (path : list string) : list (list string) :=
  match value with
  | JObj fs =>
      flat_map (fun '(key, child) =>
        let current := path ++ [key] in
        if is_credential key child then [current] else credentialPaths child current) fs
  | JArr items =>
      List.concat (map_entries (fun key child =>
        let current := path ++ [key] in
        if is_credential key child then [current] else credentialPaths child current) 0 items)
  | _ => []
  end.

(** [cursor[key]] where [Object.hasOwn(cursor, key)], on a container. *)
Definition own (v : json) (key : string) : option json :=
  match v with
  | JObj fs => assoc_get key fs
  | JArr items => if String.eqb key "length" then Some (JNum (JInt (Z.of_nat (length items)))) else assoc_get key (entries v)
  | _ => None
  end.

Fixpoint readPath (value : json) (path : list string) : option json :=
  match path with
  | [] => Some value
  | key :: rest =>
      match own value key with
      | Some child => if includes key UNSAFE_KEYS then None else readPath child rest
      | None => None
      end
  end.

Fixpoint hasPath (value : json) (path : list string) : bool :=
  match path with
  | [] => true
  | key :: rest => match own value key with Some child => hasPath child rest | None => false end
  end.

(** [cursor[key] = child] and [delete cursor[key]]. *)
Definition set_own (v : json) (key : string) (child : json) : option json :=
  match v with
  | JObj fs => Some (JObj (assoc_set key child fs))
  | JArr _ => if assoc_has key (entries v) then Some (JArr (map snd (assoc_set key child (entries v)))) else None
  | _ => None
  end.
Definition del_own (v : json) (key : string) : option json :=
  match v with
  | JObj fs => Some (JObj (List.filter (fun kv => negb (String.eqb (fst kv) key)) fs))
  | JArr _ => if assoc_has key (entries v) || String.eqb key "length" then None else Some v
  | _ => None
  end.

(** The walk of [writePath]; a credential's path is never empty. *)
Fixpoint write_at (cursor : json) (path : list string) (next : option json) : option json :=
  match path with
  | [] => None
  | [last] => match next with None => del_own cursor last | Some x => set_own cursor last x end
  | key :: rest =>
      let child := match own cursor key with Some c => if isContainer c then c else JObj [] | None => JObj [] end in
      match write_at child rest next with Some child' => set_own cursor key child' | None => None end
  end.

Definition writePath (value : json) (path : list string) (next : option json) : res WorkflowError json :=
  if existsb (fun key => includes key UNSAFE_KEYS) path then Throw WPrototypeKeys else
  match write_at value path next with Some v => Ok v | None => Throw WLeavesJson end.

Fixpoint delete_all (paths : list (list string)) (redacted : json) : res WorkflowError json :=
  match paths with
  | [] => Ok redacted
  | path :: rest => redacted ← writePath redacted path None; delete_all rest redacted
  end.

(** [config] is an object or [null]. *)
Definition redactCredentials (config : json) : res WorkflowError (json * list string) :=
  match config with
  | JNull => Ok (config, [])
  | _ =>
      let paths := credentialPaths config [] in
      match paths with
      | [] => Ok (config, [])
      | _ => redacted ← delete_all paths config; Ok (redacted, map (join ".") paths)
      end
  end.

(** [isDeepStrictEqual]: objects compare by their fields in any order. *)
Definition same_number (a b : jsnum) : bool :=
  match a, b with
  | JInt x, JInt y => x =? y
  | JDec x, JDec y => Qeq_bool x y
  | JNaN, JNaN => true
  | JInf x, JInf y => Bool.eqb x y
  | _, _ => false
  end.
Fixpoint isDeepStrictEqual (a b : json) {struct a} : bool :=
  match a, b with
  | JNull, JNull => true
  | JBool x, JBool y => Bool.eqb x y
  | JNum x, JNum y => same_number x y
  | JStr x, JStr y => String.eqb x y
  | JArr xs, JArr ys =>
      (fix each (l m : list json) : bool :=
         match l, m with
         | [], [] => true
         | x :: l', y :: m' => isDeepStrictEqual x y && each l' m'
         | _, _ => false
         end) xs ys
  | JObj fs, JObj gs =>
      (Z.of_nat (length fs) =? Z.of_nat (length gs)) &&
      forallb (fun '(k, x) => match assoc_get k gs with Some y => isDeepStrictEqual x y | None => false end) fs
  | _, _ => false
  end.

Fixpoint restore_each (stored : json) (paths : list (list string)) (next : json) : res WorkflowError json :=
  match paths with
  | [] => Ok next
  | path :: rest =>
      next ← (if hasPath next path then Ok next else writePath next path (readPath stored path));
      restore_each stored rest next
  end.

Definition restoreCredentials (number_text : Q -> string) (config stored : json) : res WorkflowError json :=
  _ ← assertWorkflowJson number_text config;
  _ ← assertWorkflowJson number_text stored;
  let paths := credentialPaths stored [] in
  match paths with
  | [] => Ok config
  | _ =>
      ok ← (if existsb (fun path => negb (hasPath config path)) paths then
              '(a, _) ← redactCredentials config; '(b, _) ← redactCredentials stored;
              Ok (isDeepStrictEqual a b)
            else Ok true);
      if negb ok then Throw WReenter else
      let next := match config with JNull => JObj [] | _ => config end in
      restore_each stored paths next
  end.

(** ** Run errors *)

(** [s.split(sep).join(by)] for a non-empty [sep]. *)
Fixpoint replace_all (fuel : nat) (sep by_ s : string) : string :=
  match fuel, s with
  | O, _ => s
  | _, EmptyString => EmptyString
  | S fuel', String c s' =>
      if starts_with sep s then (by_ +:+ replace_all fuel' sep by_ (string_drop (String.length sep) s))%string
      else String c (replace_all fuel' sep by_ s')
  end.

Fixpoint scrub (secrets : json) (paths : list (list string)) (result : string) : string :=
  match paths with
  | [] => result
  | path :: rest =>
      scrub secrets rest
        match readPath secrets path with
        | Some (JStr secret) =>
            if 4 <=? Z.of_nat (String.length secret)
            then replace_all (S (String.length result)) secret "[credential]" result else result
        | _ => result
        end
  end.

(** The text shown, and whether the character [U+2026] follows it. *)
Record RunError := mkRunError { run_text : string; run_cut : bool }.

Definition redactRunError (message : string) (secrets : json) (maxLength : Z) : RunError :=
  let result := scrub secrets (credentialPaths secrets []) message in
  if maxLength <? Z.of_nat (String.length result)
  then mkRunError (string_take (Z.to_nat (maxLength - 1)) result) true
  else mkRunError result false.

(** ** Size and shape *)

(** What the limits bound: the values nested in a value, how deep, and whether all are plain JSON. *)
Fixpoint node_count (v : json) : Z :=
  match v with
  | JArr items => 1 + fold_right (fun c acc => node_count c + acc) 0 items
  | JObj fs => 1 + fold_right (fun kc acc => node_count kc.2 + acc) 0 fs
  | _ => 1
  end.
Fixpoint json_depth (v : json) : Z :=
  match v with
  | JArr items => fold_right (fun c acc => Z.max (1 + json_depth c) acc) 0 items
  | JObj fs => fold_right (fun kc acc => Z.max (1 + json_depth kc.2) acc) 0 fs
  | _ => 0
  end.
Fixpoint ordinary (v : json) : bool :=
  match v with
  | JNum n => num_is_finite n
  | JArr items => forallb ordinary items
  | JObj fs => forallb (fun kc => negb (includes kc.1 UNSAFE_KEYS) && ordinary kc.2) fs
  | _ => true
  end.

Lemma node_count_pos v : 1 <= node_count v.
Proof.
  induction v as [| | | |items IH|fs IH] using json_ind'; cbn [node_count]; try lia.
  - enough (0 <= fold_right (fun c acc => node_count c + acc) 0 items) by lia.
    induction IH; simpl; lia.
  - enough (0 <= fold_right (fun kc acc => node_count kc.2 + acc) 0 fs) by lia.
    induction IH; simpl; lia.
Qed.
Lemma json_depth_nonneg v : 0 <= json_depth v.
Proof.
  destruct v as [| | | |items|fs]; cbn [json_depth]; try lia.
  - induction items; simpl; lia.
  - induction fs; simpl; lia.
Qed.

Definition within (v : json) (depth nodes : Z) : Prop :=
  ordinary v = true /\ nodes + node_count v <= WORKFLOW_LIMITS.nodes /\ depth + json_depth v <= WORKFLOW_LIMITS.depth.

Lemma within_limits v depth nodes :
  within v depth nodes -> (WORKFLOW_LIMITS.nodes <? nodes + 1) || (WORKFLOW_LIMITS.depth <? depth) = false.
Proof.
  intros (_ & Hn & Hd). pose proof (node_count_pos v). pose proof (json_depth_nonneg v).
  apply orb_false_iff; split; apply Z.ltb_ge; lia.
Qed.

Lemma nodes_nonneg {A} (f : A -> json) l : 0 <= fold_right (fun c acc => node_count (f c) + acc) 0 l.
Proof. induction l as [|c l IH]; simpl; [lia|]. pose proof (node_count_pos (f c)). lia. Qed.

Lemma check_exact v depth nodes n :
  check v depth nodes = Ok n <-> within v depth nodes /\ n = nodes + node_count v.
Proof.
  revert depth nodes n.
  induction v as [|b|x|s|items IH|fs IH] using json_ind'; intros depth nodes n.
  all: match goal with |- _ <-> within ?v _ _ /\ _ => pose proof (within_limits v depth nodes) as HL end;
    cbn [check]; destruct ((WORKFLOW_LIMITS.nodes <? nodes + 1) || _) eqn:E;
    [split; [discriminate|intros [H _]; by apply HL in H]|]; clear HL; apply orb_false_iff in E as [E E'];
    apply Z.ltb_ge in E, E';
    unfold within; cbn [ordinary node_count json_depth].
  1, 2, 4: split; [intros [= <-]; repeat split; lia|]; intros [_ ->]; done.
  - destruct (num_is_finite x); (split; [|intros ((? & _) & ->); done]); [|discriminate].
    intros [= <-]; repeat split; lia.
  - rewrite Z.add_assoc. revert E. generalize (nodes + 1). clear nodes. intros m E.
    revert m E; induction IH as [|c l Hc _ IHl]; intros m E; simpl.
    + split; [intros [= <-]; repeat split; lia|]. intros [_ ->]. f_equal. lia.
    + rewrite bind_Ok, andb_true_iff. pose proof (nodes_nonneg (fun c => c) l). pose proof (node_count_pos c). split.
      * intros (a & ((? & ? & ?) & ->)%Hc & Hr). apply IHl in Hr; [|lia].
        destruct Hr as ((? & ? & ?) & ->). repeat split; try done; lia.
      * intros (((? & ?) & ? & ?) & ->). exists (m + node_count c). rewrite Hc, IHl by lia.
        unfold within. repeat split; try done; lia.
  - rewrite Z.add_assoc. revert E. generalize (nodes + 1). clear nodes. intros m E.
    revert m E; induction IH as [|[k c] l Hc _ IHl]; intros m E; simpl in *.
    + split; [intros [= <-]; repeat split; lia|]. intros [_ ->]. f_equal. lia.
    + destruct (includes k UNSAFE_KEYS); simpl; [split; [discriminate|intros ((? & _) & _); done]|].
      rewrite bind_Ok, andb_true_iff. pose proof (nodes_nonneg snd l). pose proof (node_count_pos c). split.
      * intros (a & ((? & ? & ?) & ->)%Hc & Hr). apply IHl in Hr; [|lia].
        destruct Hr as ((? & ? & ?) & ->). repeat split; try done; lia.
      * intros (((? & ?) & ? & ?) & ->). exists (m + node_count c). rewrite Hc, IHl by lia.
        unfold within. repeat split; try done; lia.
Qed.

Lemma assertWorkflowJson_Ok number_text v :
  assertWorkflowJson number_text v = Ok tt <->
  within v 0 0 /\ byteLength (stringify number_text v) <= WORKFLOW_LIMITS.bytes.
Proof.
  unfold assertWorkflowJson. rewrite bind_Ok. setoid_rewrite check_exact. split.
  - intros (n & [H _] & Hb). split; [done|]. destruct (Z.ltb_spec WORKFLOW_LIMITS.bytes (byteLength (stringify number_text v))); [done|lia].
  - intros [H Hb]. eexists. split; [split; done|]. by rewrite (proj2 (Z.ltb_ge _ _) Hb).
Qed.

(** ** Entries of containers *)

(** Objects as JavaScript has them: no key twice. *)
Fixpoint distinct_keys (v : json) : bool :=
  match v with
  | JArr items => forallb distinct_keys items
  | JObj fs => bool_decide (NoDup (map fst fs)) && forallb (fun kc => distinct_keys kc.2) fs
  | _ => true
  end.

Lemma map_entries_map {A B} (f : string -> A -> B) i l :
  map_entries f i l = map (fun kc => f kc.1 kc.2) (map_entries pair i l).
Proof. revert i; induction l as [|x l IH]; intros i; simpl; [done|]. by rewrite IH. Qed.
Lemma map_entries_snd {A} i (l : list A) : map snd (map_entries pair i l) = l.
Proof. revert i; induction l as [|x l IH]; intros i; simpl; [done|]. by rewrite IH. Qed.
Lemma map_entries_length {A} i (l : list A) : length (map_entries pair i l) = length l.
Proof. by rewrite <- (length_map snd), map_entries_snd. Qed.

(** Entries with the same keys and new values. *)
Lemma map_entries_rekey {A} i (l : list A) (es : list (string * A)) :
  map fst es = map fst (map_entries pair i l) -> map_entries pair i (map snd es) = es.
Proof.
  revert i es; induction l as [|x l IH]; intros i [|[k y] es]; simpl; try done.
  intros [= -> H]. f_equal. by apply IH.
Qed.

Lemma elem_of_map_entries_key {A} k i (l : list A) :
  k ∈ map fst (map_entries pair i l) -> exists n, i <= n /\ k = string_of_int n.
Proof.
  revert i; induction l as [|x l IH]; intros i; simpl; [by intros ?%elem_of_nil|].
  intros [->|H]%elem_of_cons; [by exists i|]. destruct (IH _ H) as (n & Hn & ->). exists n. split; [lia|done].
Qed.

Lemma string_of_int_nonneg n : 0 <= n -> string_of_int n = string_of_nonneg n.
Proof. intros. unfold string_of_int. by rewrite (proj2 (Z.ltb_ge n 0)). Qed.
Lemma string_of_int_inj m n : 0 <= m -> 0 <= n -> string_of_int m = string_of_int n -> m = n.
Proof.
  intros Hm Hn E. rewrite !string_of_int_nonneg in E by done.
  rewrite <- (string_of_nonneg_value m), <- (string_of_nonneg_value n) by done. by rewrite E.
Qed.

Lemma map_entries_NoDup {A} i (l : list A) : 0 <= i -> NoDup (map fst (map_entries pair i l)).
Proof.
  revert i; induction l as [|x l IH]; intros i Hi; simpl; [constructor|]. constructor; [|apply IH; lia].
  intros (n & Hn & E)%elem_of_map_entries_key. apply string_of_int_inj in E; lia.
Qed.

(** A name made of digits is not the name of a credential, nor [length]. *)
Lemma digits_not_named s : string_all is_digit s = true -> s <> ""%string -> CREDENTIAL_KEY s = false /\ s <> "length"%string.
Proof.
  destruct s as [|c s]; [done|]. intros H _. cbn [string_all] in H. to_prop.
  assert (lower_char c = c) as El.
  { unfold lower_char, is_digit in *. to_prop. rewrite (proj2 (Z.leb_gt 65 (char_code c))) by lia.
    rewrite (proj2 (Z.leb_gt 192 (char_code c))) by lia. done. }
  split; [|intros [= -> ->]; discriminate].
  apply includes_false. cbn [to_lower]. rewrite El. unfold CREDENTIAL_NAMES.
  rewrite !elem_of_cons. intros Hin. repeat (destruct Hin as [Hin|Hin]; [injection Hin as -> _; discriminate|]).
  by apply elem_of_nil in Hin.
Qed.
Lemma index_not_named n : 0 <= n -> CREDENTIAL_KEY (string_of_int n) = false /\ string_of_int n <> "length"%string.
Proof.
  intros Hn. rewrite string_of_int_nonneg by done.
  apply digits_not_named; [by apply string_of_nonneg_digits|apply string_of_nonneg_nonempty].
Qed.

Lemma entries_NoDup v : distinct_keys v = true -> NoDup (map fst (entries v)).
Proof.
  destruct v as [| | | |items|fs]; simpl; try (intros; constructor).
  - intros _. by apply map_entries_NoDup.
  - intros [H _]%andb_true_iff. by apply bool_decide_eq_true in H.
Qed.
Lemma entries_distinct v k c : distinct_keys v = true -> (k, c) ∈ entries v -> distinct_keys c = true.
Proof.
  destruct v as [| | | |items|fs]; simpl; try (by intros _ ?%elem_of_nil).
  - intros H Hin. rewrite forallb_forall in H. apply H, list_elem_of_In.
    rewrite <- (map_entries_snd 0 items). apply list_elem_of_fmap. by exists (k, c).
  - intros [_ H]%andb_true_iff Hin. rewrite forallb_forall in H. apply (H (k, c)). by apply list_elem_of_In.
Qed.

(** What [Object.hasOwn] and the property access see are the entries, and an array's [length]. *)
Lemma own_spec v key :
  own v key = assoc_get key (entries v) \/
  (exists items n, v = JArr items /\ key = "length"%string /\ own v key = Some (JNum n)).
Proof.
  destruct v as [| | | |items|fs]; simpl; auto.
  destruct (String.eqb_spec key "length"); [right; eauto 6|by left].
Qed.
Lemma own_entries v k c : distinct_keys v = true -> (k, c) ∈ entries v -> own v k = Some c.
Proof.
  intros Hd Hin. pose proof (elem_assoc_get k c _ (entries_NoDup v Hd) Hin) as E.
  destruct (own_spec v k) as [H|(items & n & -> & -> & _)]; [by rewrite H|].
  apply (list_elem_of_fmap_2 fst) in Hin. apply elem_of_map_entries_key in Hin as (n' & Hn & E').
  by apply (index_not_named n') in Hn as [_ ?].
Qed.
Lemma own_container v k c : own v k = Some c -> isContainer c = true -> (k, c) ∈ entries v.
Proof.
  intros H Hc. destruct (own_spec v k) as [E|(items & n & _ & _ & E)].
  - apply assoc_get_Some_elem. by rewrite <- E.
  - rewrite E in H. by injection H as <-.
Qed.

Lemma set_own_entries v k c v' : set_own v k c = Some v' ->
  entries v' = assoc_set k c (entries v) /\ isContainer v' = true.
Proof.
  destruct v as [| | | |items|fs]; simpl; try done.
  - destruct (assoc_has k (map_entries pair 0 items)) eqn:Hk; [|done]. intros [= <-]. split; [|done].
    simpl. apply (map_entries_rekey 0 items). rewrite assoc_set_keys.
    apply assoc_has_true in Hk. by rewrite decide_True.
  - by intros [= <-].
Qed.
Lemma own_set_own v k c v' key : set_own v k c = Some v' ->
  own v' key = if decide (key = k) then Some c else own v key.
Proof.
  intros H. pose proof (set_own_entries _ _ _ _ H) as [E _].
  destruct v as [| | | |items|fs]; simpl in H; try done.
  - destruct (assoc_has k (map_entries pair 0 items)) eqn:Hk; [|done]. injection H as <-.
    apply assoc_has_true in Hk. pose proof Hk as (n & Hn & ->)%elem_of_map_entries_key.
    cbn [own]. rewrite length_map, <- (length_map fst (assoc_set _ _ _)), assoc_set_keys, decide_True by done.
    rewrite length_map. cbn [entries]. rewrite map_entries_length. cbn [entries] in E. rewrite E, assoc_get_set.
    destruct (String.eqb_spec key "length") as [->|]; [|done].
    rewrite decide_False; [done|]. intros ?. by apply (index_not_named n).
  - injection H as <-. simpl. apply assoc_get_set.
Qed.

(** ** Where the credentials are *)

Definition entry_paths (path : list string) (kc : string * json) : list (list string) :=
  if is_credential kc.1 kc.2 then [path ++ [kc.1]] else credentialPaths kc.2 (path ++ [kc.1]).

Lemma credentialPaths_entries v path : credentialPaths v path = flat_map (entry_paths path) (entries v).
Proof.
  destruct v as [| | | |items|fs]; simpl; try done.
  - rewrite flat_map_concat_map, map_entries_map. done.
  - apply flat_map_ext. by intros [k c].
Qed.

Lemma credentialPaths_prefix v path : credentialPaths v path = map (app path) (credentialPaths v []).
Proof.
  revert path; induction v as [| | | |items IH|fs IH] using json_ind'; intros path; simpl; try done.
  - generalize 0. induction IH as [|c l Hc _ IHl]; intros i; simpl; [done|].
    rewrite map_app, IHl. f_equal. case_match; simpl; [done|].
    rewrite (Hc (path ++ _)), (Hc [_]), map_map. apply map_ext. intros p. by rewrite <- app_assoc.
  - induction IH as [|[k c] l Hc _ IHl]; simpl; [done|]. rewrite map_app, IHl. f_equal.
    case_match; simpl; [done|]. simpl in Hc.
    rewrite (Hc (path ++ _)), (Hc [_]), map_map. apply map_ext. intros p. by rewrite <- app_assoc.
Qed.

(** The paths inside an entry's value: the whole entry, or below it. *)
Definition below (kc : string * json) : list (list string) :=
  if is_credential kc.1 kc.2 then [[]] else credentialPaths kc.2 [].
Lemma entry_paths_below kc : entry_paths [] kc = map (cons kc.1) (below kc).
Proof.
  unfold entry_paths, below. simpl. case_match; [done|].
  rewrite credentialPaths_prefix. done.
Qed.
Lemma credentialPaths_below v : credentialPaths v [] = flat_map (fun kc => map (cons kc.1) (below kc)) (entries v).
Proof. rewrite credentialPaths_entries. apply flat_map_ext. apply entry_paths_below. Qed.

Lemma is_credential_leaf k c : is_credential k c = true -> entries c = [] /\ isContainer c = false.
Proof. unfold is_credential. destruct c; try (by rewrite andb_false_r). done. Qed.
Lemma credentialPaths_container c : credentialPaths c [] <> [] -> isContainer c = true.
Proof. by destruct c. Qed.

Lemma credentialPaths_nonempty v p : p ∈ credentialPaths v [] -> p <> [].
Proof.
  rewrite credentialPaths_below. intros (kc & _ & H)%elem_of_flat_map.
  apply list_elem_of_fmap in H as (q & -> & _). done.
Qed.

(** Two paths that part at some key: neither leads through the other. *)
Inductive diverge : list string -> list string -> Prop :=
| diverge_here k l p q : k <> l -> diverge (k :: p) (l :: q)
| diverge_later k p q : diverge p q -> diverge (k :: p) (k :: q).

Lemma diverge_sym p q : diverge p q -> diverge q p.
Proof. induction 1; [by apply diverge_here|by apply diverge_later]. Qed.

Lemma NoDup_fst_elem {A} (l : list (string * A)) k c c' :
  NoDup (map fst l) -> (k, c) ∈ l -> (k, c') ∈ l -> c = c'.
Proof. intros Hn H H'. pose proof (NoDup_map_inj fst l _ _ Hn H H' eq_refl) as E. by injection E. Qed.

(** The paths of a value's credentials are apart, and each leads to a text. *)
Lemma credentialPaths_apart v p q :
  distinct_keys v = true -> p ∈ credentialPaths v [] -> q ∈ credentialPaths v [] -> p = q \/ diverge p q.
Proof.
  revert q v; induction p as [|k p IH]; intros q v Hd Hp Hq; [by apply credentialPaths_nonempty in Hp|].
  rewrite credentialPaths_below in Hp, Hq.
  apply elem_of_flat_map in Hp as ([k1 c1] & Hin & Hp), Hq as ([k2 c2] & Hin' & Hq).
  apply list_elem_of_fmap in Hp as (p' & [= -> ->] & Hp), Hq as (q' & -> & Hq). simpl.
  destruct (decide (k1 = k2)) as [->|]; [|right; by constructor].
  pose proof (NoDup_fst_elem _ _ _ _ (entries_NoDup v Hd) Hin Hin') as ->.
  unfold below in Hp, Hq. simpl in *. destruct (is_credential k2 c2).
  - apply list_elem_of_singleton in Hp as ->, Hq as ->. by left.
  - destruct (IH q' c2) as [->|]; [by eapply entries_distinct|done|done|by left|right; by constructor].
Qed.

Fixpoint walk (v : json) (path : list string) : option json :=
  match path with
  | [] => Some v
  | key :: rest => match own v key with Some c => walk c rest | None => None end
  end.
Lemma hasPath_walk v p : hasPath v p = true <-> exists c, walk v p = Some c.
Proof.
  revert v; induction p as [|k p IH]; intros v; simpl; [split; [eauto|done]|].
  destruct (own v k); [apply IH|]. split; [done|]. by intros [].
Qed.
Definition safe_path (path : list string) : bool := negb (existsb (fun key => includes key UNSAFE_KEYS) path).
Lemma readPath_walk v p : safe_path p = true -> readPath v p = walk v p.
Proof.
  unfold safe_path. revert v; induction p as [|k p IH]; intros v; [done|]. cbn [existsb readPath walk].
  rewrite negb_orb. intros [H1 H2]%andb_true_iff. apply negb_true_iff in H1. rewrite H1.
  destruct (own v k); [by apply IH|done].
Qed.

Lemma credentialPaths_walk v p : distinct_keys v = true -> p ∈ credentialPaths v [] ->
  exists s, walk v p = Some (JStr s).
Proof.
  revert v; induction p as [|k p IH]; intros v Hd Hp; [by apply credentialPaths_nonempty in Hp|].
  rewrite credentialPaths_below in Hp. apply elem_of_flat_map in Hp as ([k1 c1] & Hin & Hp).
  apply list_elem_of_fmap in Hp as (p' & [= -> ->] & Hp). simpl in *. rewrite (own_entries v k1 c1) by done.
  unfold below in Hp; simpl in Hp. destruct (is_credential k1 c1) eqn:E.
  - apply list_elem_of_singleton in Hp as ->. unfold is_credential in E.
    destruct c1; try (by rewrite andb_false_r in E). by eexists.
  - apply IH; [|done]. by eapply entries_distinct.
Qed.

Lemma index_safe n : 0 <= n -> includes (string_of_int n) UNSAFE_KEYS = false.
Proof.
  intros Hn. rewrite string_of_int_nonneg by done. pose proof (string_of_nonneg_digits n Hn) as Hd.
  apply includes_false. unfold UNSAFE_KEYS. rewrite !elem_of_cons.
  intros Hin. repeat (destruct Hin as [E|Hin]; [rewrite E in Hd; discriminate|]). by apply elem_of_nil in Hin.
Qed.

Lemma ordinary_entries v k c : ordinary v = true -> (k, c) ∈ entries v ->
  ordinary c = true /\ includes k UNSAFE_KEYS = false.
Proof.
  destruct v as [| | | |items|fs]; simpl; try (by intros _ ?%elem_of_nil).
  - intros H Hin. rewrite forallb_forall in H. split.
    + apply H, list_elem_of_In. rewrite <- (map_entries_snd 0 items). apply list_elem_of_fmap. by exists (k, c).
    + apply (list_elem_of_fmap_2 fst) in Hin. apply elem_of_map_entries_key in Hin as (n & Hn & E). simpl in E.
      subst k. by apply index_safe.
  - intros H Hin. rewrite forallb_forall in H. apply list_elem_of_In in Hin. specialize (H _ Hin). simpl in H.
    to_prop. done.
Qed.
Lemma credentialPaths_safe v p : ordinary v = true -> p ∈ credentialPaths v [] -> safe_path p = true.
Proof.
  revert v; induction p as [|k p IH]; intros v Hd Hp; [done|].
  rewrite credentialPaths_below in Hp. apply elem_of_flat_map in Hp as ([k1 c1] & Hin & Hp).
  apply list_elem_of_fmap in Hp as (p' & [= -> ->] & Hp). simpl in *.
  apply (ordinary_entries v) in Hin as [Ho Hk]; [|done]. unfold safe_path. cbn [existsb]. rewrite Hk. simpl.
  unfold below in Hp; simpl in Hp. destruct (is_credential k1 c1) eqn:E.
  - by apply list_elem_of_singleton in Hp as ->.
  - by apply (IH c1).
Qed.

(** ** Redaction *)

(** A value without its credentials, everything else in place. *)
Fixpoint strip (v : json) : json :=
  match v with
  | JArr items => JArr (map strip items)
  | JObj fs => JObj (flat_map (fun kc => if is_credential kc.1 kc.2 then [] else [(kc.1, strip kc.2)]) fs)
  | _ => v
  end.
Definition strip_field (kc : string * json) : list (string * json) :=
  if is_credential kc.1 kc.2 then [] else [(kc.1, strip kc.2)].

Lemma assoc_set_middle {V} k (x c : V) (l r : list (string * V)) :
  k ∉ map fst l -> assoc_set k x (l ++ (k, c) :: r) = l ++ (k, x) :: r.
Proof.
  induction l as [|[k' y] l IH]; simpl; intros H; [by rewrite decide_True|].
  rewrite decide_False by set_solver. rewrite IH; set_solver.
Qed.
Lemma assoc_set_same {V} k (c : V) (l : list (string * V)) : assoc_get k l = Some c -> assoc_set k c l = l.
Proof. induction l as [|[k' y] l IH]; simpl; [done|]. case_decide; [by intros [= ->]|]. intros H'. by rewrite (IH H'). Qed.
Lemma assoc_set_set {V} k (a b : V) (l : list (string * V)) : assoc_set k b (assoc_set k a l) = assoc_set k b l.
Proof.
  induction l as [|[k' y] l IH]; simpl; [by rewrite decide_True|].
  destruct (decide (k = k')) as [->|]; simpl; [by rewrite decide_True|]. by rewrite decide_False, IH.
Qed.

Lemma set_own_same v k c : own v k = Some c -> isContainer c = true -> set_own v k c = Some v.
Proof.
  intros Ho Hc. pose proof (own_container v k c Ho Hc) as Hin.
  destruct (own_spec v k) as [E|(? & ? & _ & _ & E)]; [|rewrite E in Ho; by injection Ho as <-].
  rewrite Ho in E. symmetry in E. destruct v as [| | | |items|fs]; try done; cbn [set_own entries] in *.
  - unfold assoc_has. rewrite E, (assoc_set_same _ _ _ E). by rewrite map_entries_snd.
  - by rewrite (assoc_set_same _ _ _ E).
Qed.
Lemma set_own_total v k c x : own v k = Some c -> isContainer c = true -> exists v', set_own v k x = Some v'.
Proof.
  intros Ho Hc. pose proof (own_container v k c Ho Hc) as Hin. apply (list_elem_of_fmap_2 fst) in Hin.
  destruct v as [| | | |items|fs]; try done; cbn [set_own]; [|eauto].
  rewrite (proj2 (assoc_has_true _ _) Hin). eauto.
Qed.
Lemma set_own_set_own v k a b v' : set_own v k a = Some v' -> set_own v' k b = set_own v k b.
Proof.
  intros H. pose proof (set_own_entries _ _ _ _ H) as [E _].
  destruct v as [| | | |items|fs]; cbn [set_own] in *; try done.
  - destruct (assoc_has k (entries (JArr items))) eqn:Hk; [|done]. injection H as <-. cbn [set_own].
    rewrite E, assoc_set_set. unfold assoc_has. by rewrite assoc_get_set_eq.
  - injection H as <-. cbn [set_own]. by rewrite assoc_set_set.
Qed.

Lemma write_at_container v p x v' : write_at v p x = Some v' -> isContainer v' = true.
Proof.
  assert (forall k c, set_own v k c = Some v' -> isContainer v' = true) as Hs
    by (intros k c H; by apply set_own_entries in H as [_ ?]).
  destruct p as [|k [|k' p]]; [done| |].
  - destruct x as [c|]; cbn [write_at]; [apply Hs|].
    destruct v; cbn [del_own]; try done; [|by intros [= <-]]. case_match; [done|]. by intros [= <-].
  - set (r := k' :: p). change (match write_at (match own v k with Some c => if isContainer c then c else JObj [] | None => JObj [] end) r x with Some c => set_own v k c | None => None end = Some v' -> isContainer v' = true).
    destruct (write_at _ r x); [apply Hs|done].
Qed.

Lemma writePath_safe v p x : safe_path p = true ->
  writePath v p x = match write_at v p x with Some v' => Ok v' | None => Throw WLeavesJson end.
Proof. unfold safe_path, writePath. intros H%negb_true_iff. by rewrite H. Qed.
Lemma safe_path_cons k p : safe_path (k :: p) = negb (includes k UNSAFE_KEYS) && safe_path p.
Proof. unfold safe_path. cbn [existsb]. apply negb_orb. Qed.

Lemma delete_all_app ps qs v : delete_all (ps ++ qs) v = (v' ← delete_all ps v; delete_all qs v').
Proof.
  revert v; induction ps as [|p ps IH]; intros v; simpl; [done|].
  destruct (writePath v p None); simpl; [apply IH|done].
Qed.

(** Deleting below one key is deleting in its value. *)
Lemma delete_all_under v k c c' ps :
  own v k = Some c -> isContainer c = true -> includes k UNSAFE_KEYS = false ->
  (forall p, p ∈ ps -> p <> [] /\ safe_path p = true) ->
  delete_all ps c = Ok c' ->
  exists v', delete_all (map (cons k) ps) v = Ok v' /\ set_own v k c' = Some v'.
Proof.
  revert v c; induction ps as [|p ps IH]; intros v c Ho Hc Hk Hps; simpl.
  - intros [= <-]. exists v. split; [done|]. by apply set_own_same.
  - destruct (Hps p) as [Hp Hsafe]; [by left|]. intros (c1 & H1 & H2)%bind_Ok.
    rewrite (writePath_safe c p) in H1 by done. destruct (write_at c p None) as [c1'|] eqn:Hw; [|done].
    injection H1 as ->. destruct (set_own_total v k c c1 Ho Hc) as [v1 Hv1].
    assert (writePath v (k :: p) None = Ok v1) as ->.
    { rewrite writePath_safe by (by rewrite safe_path_cons, Hk). destruct p as [|k' p]; [done|].
      set (r := k' :: p) in *. cbn -[r]. by rewrite Ho, Hc, Hw, Hv1. }
    simpl. destruct (IH v1 c1) as (v' & Hd & Hs).
    + rewrite (own_set_own _ _ _ _ k Hv1). by rewrite decide_True.
    + by eapply write_at_container.
    + done.
    + intros q Hq. apply Hps. by right.
    + done.
    + exists v'. split; [done|]. by rewrite <- (set_own_set_own _ _ _ _ _ Hv1).
Qed.

Lemma filter_key_middle {V} k (c : V) (l r : list (string * V)) :
  NoDup (map fst (l ++ (k, c) :: r)) ->
  List.filter (fun kv => negb (String.eqb (fst kv) k)) (l ++ (k, c) :: r) = l ++ r.
Proof.
  intros Hn. assert (forall m : list (string * V), k ∉ map fst m ->
    List.filter (fun kv => negb (String.eqb (fst kv) k)) m = m) as Hid.
  { induction m as [|[k' x] m IH]; simpl; [done|]. intros H.
    destruct (String.eqb_spec k' k) as [->|]; [set_solver|]. simpl. rewrite IH; set_solver. }
  rewrite map_app in Hn. apply NoDup_app in Hn as (_ & Hl & Hr). cbn [map fst] in *.
  apply NoDup_cons in Hr as [Hr _].
  assert (k ∉ map fst l) as Hkl by (intros H; apply (Hl k H); by left).
  rewrite List.filter_app. simpl. by rewrite String.eqb_refl, (Hid l Hkl), (Hid r Hr).
Qed.

(** The credentials of one entry of an object. *)
Lemma delete_field l k c r :
  NoDup (map fst (l ++ (k, c) :: r)) -> ordinary c = true -> includes k UNSAFE_KEYS = false ->
  delete_all (credentialPaths c []) c = Ok (strip c) ->
  delete_all (map (cons k) (below (k, c))) (JObj (l ++ (k, c) :: r)) = Ok (JObj (l ++ strip_field (k, c) ++ r)).
Proof.
  intros Hn Ho Hk IH. unfold below, strip_field. cbn [fst snd]. destruct (is_credential k c) eqn:Ec.
  - cbn [map delete_all]. rewrite writePath_safe by (by rewrite safe_path_cons, Hk).
    cbn [write_at del_own]. by rewrite filter_key_middle.
  - rewrite map_app in Hn. apply NoDup_app in Hn as (_ & Hl & _).
    assert (k ∉ map fst l) as Hkl by (intros H; apply (Hl k H); by left).
    destruct (isContainer c) eqn:Hc; [|by destruct c].
    destruct (delete_all_under (JObj (l ++ (k, c) :: r)) k c (strip c) (credentialPaths c [])) as (v' & Hd & Hs).
    + cbn [own]. clear -Hkl. induction l as [|[k' x] l IH]; simpl in *; [by rewrite decide_True|].
      rewrite decide_False by set_solver. apply IH. set_solver.
    + done.
    + done.
    + intros p Hp. split; [by eapply credentialPaths_nonempty|by eapply credentialPaths_safe].
    + done.
    + rewrite Hd. f_equal. cbn [set_own] in Hs. rewrite assoc_set_middle in Hs by done. by injection Hs as <-.
Qed.

Lemma credentialPaths_item i c : 0 <= i -> below (string_of_int i, c) = credentialPaths c [].
Proof.
  intros Hi. unfold below, is_credential. simpl. by rewrite (proj1 (index_not_named i Hi)).
Qed.
Lemma map_entries_app {A} i (l r : list A) :
  map_entries pair i (l ++ r) = map_entries pair i l ++ map_entries pair (i + Z.of_nat (length l)) r.
Proof.
  revert i; induction l as [|x l IH]; intros i; simpl; [f_equal; lia|].
  rewrite IH. do 3 f_equal. lia.
Qed.

(** The credentials of one item of an array. *)
Lemma delete_item l c r :
  ordinary c = true -> delete_all (credentialPaths c []) c = Ok (strip c) ->
  let k := string_of_int (Z.of_nat (length l)) in
  delete_all (map (cons k) (below (k, c))) (JArr (l ++ c :: r)) = Ok (JArr (l ++ strip c :: r)).
Proof.
  intros Ho IH k. set (i := Z.of_nat (length l)) in *. assert (0 <= i) as Hi by lia.
  unfold k. rewrite credentialPaths_item by done. fold k.
  destruct (isContainer c) eqn:Hc; [|by destruct c].
  pose proof (index_not_named i Hi) as [_ Hlen]. fold k in Hlen.
  pose proof (map_entries_NoDup 0 (l ++ c :: r) ltac:(lia)) as Hn.
  rewrite map_entries_app, Z.add_0_l in Hn. cbn [map_entries] in Hn. fold i k in Hn.
  assert (k ∉ map fst (map_entries pair 0 l)) as Hkl.
  { rewrite map_app in Hn. apply NoDup_app in Hn as (_ & H & _). intros Hin. apply (H k Hin). by left. }
  destruct (delete_all_under (JArr (l ++ c :: r)) k c (strip c) (credentialPaths c [])) as (v' & Hd & Hs).
  - cbn [own]. rewrite (proj2 (String.eqb_neq _ _) Hlen). apply elem_assoc_get; cbn [entries].
    + by apply map_entries_NoDup.
    + rewrite map_entries_app, Z.add_0_l. apply elem_of_app. right. by left.
  - done.
  - by apply index_safe.
  - intros p Hp. split; [by eapply credentialPaths_nonempty|by eapply credentialPaths_safe].
  - done.
  - rewrite Hd. f_equal. cbn [set_own entries] in Hs. rewrite map_entries_app, Z.add_0_l in Hs.
    cbn [map_entries] in Hs. fold i k in Hs. rewrite assoc_set_middle in Hs by done.
    destruct (assoc_has _ _); [|done]. injection Hs as <-.
    by rewrite map_app, map_entries_snd; cbn [map]; rewrite map_entries_snd.
Qed.

Lemma delete_all_strip v : distinct_keys v = true -> ordinary v = true ->
  delete_all (credentialPaths v []) v = Ok (strip v).
Proof.
  induction v as [| | | |items IH|fs IH] using json_ind'; intros Hd Ho; try done; rewrite credentialPaths_below.
  - cbn [entries strip]. cbn [distinct_keys ordinary] in Hd, Ho.
    change items with ([] ++ items) at 2. change (map strip items) with ([] ++ map strip items).
    change 0 with (Z.of_nat (length (@nil json))). generalize (@nil json) as l.
    induction IH as [|c r Hc _ IHr]; intros l; [done|].
    cbn [forallb] in Hd, Ho. apply andb_true_iff in Hd as [Hd1 Hd2], Ho as [Ho1 Ho2].
    cbn [map_entries flat_map]. rewrite delete_all_app. cbn [fst].
    rewrite delete_item by auto. cbn [mbind res_bind map].
    specialize (IHr Hd2 Ho2 (l ++ [strip c])). rewrite length_app, Nat2Z.inj_add, <- !app_assoc in IHr. exact IHr.
  - cbn [entries strip distinct_keys ordinary] in *.
    apply andb_true_iff in Hd as [Hn Hd]. apply bool_decide_eq_true in Hn.
    change (JObj (flat_map _ fs)) with (JObj (flat_map strip_field fs)).
    change fs with ([] ++ fs) in Hn |- * at 2. change (flat_map strip_field fs) with ([] ++ flat_map strip_field fs).
    revert Hn. generalize (@nil (string * json)) as l.
    induction IH as [|[k c] r Hc _ IHr]; intros l Hn; [done|].
    cbn [forallb fst snd] in Hd, Ho. apply andb_true_iff in Hd as [Hd1 Hd2], Ho as [Ho1 Ho2].
    apply andb_true_iff in Ho1 as [Hk Ho1]. apply negb_true_iff in Hk. cbn [snd] in Hc.
    cbn [flat_map]. rewrite delete_all_app. cbn [fst]. rewrite delete_field by auto. cbn [mbind res_bind].
    rewrite !app_assoc. apply IHr; [done|done|].
    clear -Hn. unfold strip_field. cbn [fst snd]. rewrite !map_app in Hn |- *. cbn [map fst] in Hn.
    destruct (is_credential k c); cbn [map fst]; rewrite ?map_app, ?app_nil_r, <- ?app_assoc; [|exact Hn].
    apply NoDup_app in Hn as (H1 & H2 & H3). apply NoDup_cons in H3 as [H3 H4].
    apply NoDup_app. repeat split; try done. intros x Hx Hx'. apply (H2 x Hx). by right.
Qed.

Lemma strip_clean v : credentialPaths (strip v) [] = [].
Proof.
  induction v as [| | | |items IH|fs IH] using json_ind'; try done; rewrite credentialPaths_below; cbn [strip entries].
  - assert (forall i, 0 <= i -> flat_map (fun kc => map (cons kc.1) (below kc)) (map_entries pair i (map strip items)) = []) as H.
    { induction IH as [|c r Hc _ IHr]; intros i Hi; cbn [map map_entries flat_map fst]; [done|].
      rewrite credentialPaths_item, Hc by done. cbn [map app]. apply IHr. lia. }
    by apply H.
  - induction IH as [|[k c] r Hc _ IHr]; [done|]. cbn [flat_map fst snd] in *.
    destruct (is_credential k c) eqn:E; [exact IHr|]. cbn [app flat_map].
    rewrite IHr, app_nil_r. unfold below. cbn [fst snd].
    assert (is_credential k (strip c) = is_credential k c) as -> by (unfold is_credential; by destruct c).
    by rewrite E, Hc.
Qed.

Lemma Ok_inj {E A} (a b : A) : @Ok E A a = Ok b -> a = b.
Proof. congruence. Qed.

Lemma redactCredentials_strip v : distinct_keys v = true -> ordinary v = true ->
  redactCredentials v = Ok (strip v, map (join ".") (credentialPaths v [])).
Proof.
  intros Hd Ho. pose proof (delete_all_strip v Hd Ho) as H. unfold redactCredentials.
  destruct v as [| | | |items|fs]; try done.
  all: destruct (credentialPaths _ []) as [|p ps]; [apply Ok_inj in H; by rewrite <- H|by rewrite H].
Qed.

(** The entries of a redacted value. *)
Lemma entries_strip v k c : (k, c) ∈ entries (strip v) <->
  exists c0, (k, c0) ∈ entries v /\ is_credential k c0 = false /\ c = strip c0.
Proof.
  destruct v as [| | | |items|fs]; cbn [strip entries]; try (split; [by intros ?%elem_of_nil|by intros (? & ?%elem_of_nil & _)]).
  - assert (forall i, 0 <= i -> (k, c) ∈ map_entries pair i (map strip items) <->
      exists c0, (k, c0) ∈ map_entries pair i items /\ is_credential k c0 = false /\ c = strip c0) as H.
    { induction items as [|x l IH]; intros i Hi; cbn [map map_entries].
      { split; [by intros ?%elem_of_nil|by intros (? & ?%elem_of_nil & _)]. }
      setoid_rewrite elem_of_cons. rewrite IH by lia. split.
      - intros [[= -> ->]|(c0 & ? & ? & ?)]; [|exists c0; tauto]. exists x. split; [by left|].
        split; [|done]. unfold is_credential. by rewrite (proj1 (index_not_named i Hi)).
      - intros (c0 & [[= -> ->]|Hin] & Hc & ->); [by left|right; eauto]. }
    by apply H.
  - rewrite elem_of_flat_map. split.
    + intros ([k0 c0] & Hin & H). cbn [fst snd] in H. destruct (is_credential k0 c0) eqn:E; [by apply elem_of_nil in H|].
      apply list_elem_of_singleton in H as [= -> ->]. eauto.
    + intros (c0 & Hin & E & ->). exists (k, c0). split; [done|]. cbn [fst snd]. rewrite E. by left.
Qed.

Lemma strip_distinct v : distinct_keys v = true -> distinct_keys (strip v) = true.
Proof.
  induction v as [| | | |items IH|fs IH] using json_ind'; try done; cbn [strip distinct_keys]; intros Hd.
  - induction IH as [|c l Hc _ IHl]; [done|]. cbn [map forallb] in *. to_prop. rewrite Hc, IHl; done.
  - apply andb_true_iff in Hd as [Hn Hd]. apply bool_decide_eq_true in Hn. apply andb_true_iff. split.
    + apply bool_decide_eq_true. assert (forall k, k ∈ map fst (flat_map strip_field fs) -> k ∈ map fst fs) as Hsub.
      { intros k Hk. apply list_elem_of_fmap in Hk as ([k' c] & -> & H). apply elem_of_flat_map in H as ([k0 c0] & Hin & H).
        unfold strip_field in H. cbn [fst snd] in *. destruct (is_credential k0 c0); [by apply elem_of_nil in H|].
        apply list_elem_of_singleton in H as [= -> _]. apply list_elem_of_fmap. by exists (k0, c0). }
      change (NoDup (map fst (flat_map strip_field fs))). clear -Hn.
      induction fs as [|[k c] fs IH]; [done|]. cbn [map fst flat_map] in *. apply NoDup_cons in Hn as [Hk Hn].
      unfold strip_field at 1. cbn [fst snd]. destruct (is_credential k c); [by apply IH|].
      cbn [app map fst]. apply NoDup_cons. split; [|by apply IH]. intros H. apply Hk.
      apply list_elem_of_fmap in H as ([k' c'] & -> & H). apply elem_of_flat_map in H as ([k0 c0] & Hin & H).
      unfold strip_field in H. cbn [fst snd] in *. destruct (is_credential k0 c0); [by apply elem_of_nil in H|].
      apply list_elem_of_singleton in H as [= -> _]. apply list_elem_of_fmap. by exists (k0, c0).
    + clear Hn. induction IH as [|[k c] l Hc _ IHl]; [done|]. cbn [flat_map forallb fst snd] in *. to_prop.
      destruct (is_credential k c); cbn [app forallb snd]; rewrite ?Hc, ?IHl; done.
Qed.

Lemma own_strip v k c : distinct_keys v = true -> (k, c) ∈ entries v -> is_credential k c = false ->
  own (strip v) k = Some (strip c).
Proof. intros Hd Hin Hc. apply own_entries; [by apply strip_distinct|]. apply entries_strip. eauto. Qed.

Definition is_obj (v : option json) : bool := match v with Some (JObj _) => true | _ => false end.

Lemma walk_obj_container c q : is_obj (walk c q) = true -> isContainer c = true.
Proof. destruct q as [|k q]; [by destruct c|]. by destruct c. Qed.

(** The object a credential sits in is still there after redaction. *)
Lemma credential_parent v p : distinct_keys v = true -> p ∈ credentialPaths v [] ->
  exists q k, p = q ++ [k] /\ is_obj (walk (strip v) q) = true.
Proof.
  revert v; induction p as [|k p IH]; intros v Hd Hp; [by apply credentialPaths_nonempty in Hp|].
  rewrite credentialPaths_below in Hp. apply elem_of_flat_map in Hp as ([k1 c1] & Hin & Hp).
  apply list_elem_of_fmap in Hp as (p' & [= -> ->] & Hp). unfold below in Hp; cbn [fst snd] in *.
  destruct (is_credential k1 c1) eqn:E.
  - apply list_elem_of_singleton in Hp as ->. exists [], k1. split; [done|].
    destruct v as [| | | |items|fs]; try by apply elem_of_nil in Hin.
    + apply (list_elem_of_fmap_2 fst) in Hin. apply elem_of_map_entries_key in Hin as (n & Hn & Ek). cbn [fst] in Ek. subst k1.
      unfold is_credential in E. by rewrite (proj1 (index_not_named n Hn)) in E.
    + done.
  - destruct (IH c1) as (q & k & -> & Hq); [by eapply entries_distinct|done|]. exists (k1 :: q), k.
    split; [done|]. cbn [walk]. by rewrite (own_strip v k1 c1).
Qed.

Lemma walk_strip_obj v q : is_obj (walk (strip v) q) = true -> distinct_keys v = true -> is_obj (walk v q) = true.
Proof.
  revert v; induction q as [|k q IH]; intros v; [by destruct v|]. cbn [walk].
  destruct (own (strip v) k) as [c|] eqn:Ho; [|done]. intros H Hd.
  apply own_container in Ho; [|by eapply walk_obj_container]. apply entries_strip in Ho as (c0 & Hin & _ & ->).
  rewrite (own_entries v k c0) by done. apply IH; [done|]. by eapply entries_distinct.
Qed.

(** Away from its credentials a redacted value reads the same. *)
Lemma walk_strip v q : distinct_keys v = true -> ordinary v = true ->
  (forall p, p ∈ credentialPaths v [] -> diverge p q) -> walk (strip v) q = walk v q.
Proof.
  revert v; induction q as [|k q IH]; intros v Hd Ho Hq.
  - pose proof (delete_all_strip v Hd Ho) as H. destruct (credentialPaths v []) as [|p ps].
    + apply Ok_inj in H. by rewrite <- H.
    + specialize (Hq p ltac:(by left)). inversion Hq.
  - cbn [walk]. destruct (own_spec v k) as [E|(items & n & -> & -> & E)].
    + rewrite E. destruct (assoc_get k (entries v)) as [c|] eqn:Hg.
      * apply assoc_get_Some_elem in Hg. destruct (is_credential k c) eqn:Ec.
        { specialize (Hq [k]). exfalso. assert (diverge [k] (k :: q)) as H; [apply Hq|inversion H as [|? ? ? H']; subst; [done|inversion H']].
          rewrite credentialPaths_below. apply elem_of_flat_map. exists (k, c). split; [done|].
          unfold below. cbn [fst snd]. rewrite Ec. by left. }
        rewrite (own_strip v k c) by done. apply IH; [by eapply entries_distinct|by eapply ordinary_entries|].
        intros p Hp. assert (diverge (k :: p) (k :: q)) as H; [|by inversion H; subst].
        apply Hq. rewrite credentialPaths_below. apply elem_of_flat_map. exists (k, c). split; [done|].
        cbn [fst]. apply list_elem_of_fmap. exists p. split; [done|]. unfold below. cbn [fst snd]. by rewrite Ec.
      * destruct (own (strip v) k) as [c|] eqn:Ho'; [|done]. exfalso.
        destruct (own_spec (strip v) k) as [E'|(items & n & Ev & -> & _)].
        -- rewrite Ho' in E'. symmetry in E'. apply assoc_get_Some_elem, entries_strip in E' as (c0 & Hin & _ & _).
           apply assoc_get_None in Hg. apply Hg. apply list_elem_of_fmap. by exists (k, c0).
        -- by destruct v.
    + unfold own in E. rewrite String.eqb_refl in E. cbn [own strip]. rewrite String.eqb_refl, length_map. done.
Qed.
Lemma strip_hasPath v p : distinct_keys v = true -> p ∈ credentialPaths v [] -> hasPath (strip v) p = false.
Proof.
  revert v; induction p as [|k p IH]; intros v Hd Hp; [by apply credentialPaths_nonempty in Hp|].
  rewrite credentialPaths_below in Hp. apply elem_of_flat_map in Hp as ([k1 c1] & Hin & Hp).
  apply list_elem_of_fmap in Hp as (p' & [= -> ->] & Hp). unfold below in Hp; cbn [fst snd hasPath] in *.
  destruct (is_credential k1 c1) eqn:E.
  - destruct (own (strip v) k1) as [c|] eqn:Ho; [|done]. exfalso.
    destruct (own_spec (strip v) k1) as [E'|(items & n & _ & -> & _)]; [|done].
    rewrite Ho in E'. symmetry in E'. apply assoc_get_Some_elem, entries_strip in E' as (c0 & Hin' & E' & _).
    pose proof (NoDup_fst_elem _ _ _ _ (entries_NoDup v Hd) Hin Hin') as ->. congruence.
  - rewrite (own_strip v k1 c1) by done. apply IH; [by eapply entries_distinct|done].
Qed.

(** ** Restoring *)

Definition child_at (v : json) (k : string) : json :=
  match own v k with Some c => if isContainer c then c else JObj [] | None => JObj [] end.
Lemma write_at_cons v k p x : p <> [] ->
  write_at v (k :: p) x = match write_at (child_at v k) p x with Some c => set_own v k c | None => None end.
Proof. by destruct p. Qed.

Lemma walk_child v k p : p <> [] -> walk (child_at v k) p = match own v k with Some c => walk c p | None => None end.
Proof.
  intros Hp. unfold child_at. destruct (own v k) as [c|]; [destruct (isContainer c) eqn:E; [done|]|];
    destruct p as [|l p]; try done. by destruct c.
Qed.

Lemma write_at_walk v p x v' : write_at v p (Some x) = Some v' -> walk v' p = Some x.
Proof.
  revert v v'; induction p as [|k p IH]; intros v v' H; [done|].
  destruct (decide (p = [])) as [->|Hp].
  - cbn [write_at walk] in *. rewrite (own_set_own _ _ _ _ k H). by rewrite decide_True.
  - rewrite write_at_cons in H by done. destruct (write_at (child_at v k) p (Some x)) as [c|] eqn:Hw; [|done].
    cbn [walk]. rewrite (own_set_own _ _ _ _ k H), decide_True by done. by eapply IH.
Qed.

Lemma write_at_apart v p q x v' : diverge p q -> write_at v p (Some x) = Some v' -> walk v' q = walk v q.
Proof.
  intros Hpq; revert v v'; induction Hpq as [k l p q Hkl|k p q Hpq IH]; intros v v' H.
  - assert (exists c, set_own v k c = Some v') as [c Hc].
    { destruct (decide (p = [])) as [->|Hp]; [eauto|]. rewrite write_at_cons in H by done.
      destruct (write_at (child_at v k) p (Some x)); [eauto|done]. }
    cbn [walk]. rewrite (own_set_own _ _ _ _ l Hc). by rewrite decide_False.
  - rewrite write_at_cons in H by (by destruct Hpq).
    destruct (write_at (child_at v k) p (Some x)) as [c|] eqn:Hw; [|done].
    cbn [walk]. rewrite (own_set_own _ _ _ _ k H), decide_True by done.
    rewrite (IH _ _ Hw). apply walk_child. by destruct Hpq.
Qed.

Lemma write_at_total v q k x : is_obj (walk v q) = true -> exists v', write_at v (q ++ [k]) (Some x) = Some v'.
Proof.
  revert v; induction q as [|l q IH]; intros v; [destruct v; cbn; try done; eauto|].
  cbn [walk app]. destruct (own v l) as [c|] eqn:Ho; [|done]. intros H.
  pose proof (walk_obj_container _ _ H) as Hc. destruct (IH c H) as [c' Hw].
  rewrite write_at_cons by (by destruct q). unfold child_at. rewrite Ho, Hc, Hw.
  by eapply set_own_total.
Qed.

(** A write at a place nothing led to leaves every object an object. *)
Lemma write_at_obj v p q x v' : hasPath v p = false -> write_at v p (Some x) = Some v' ->
  is_obj (walk v q) = true -> is_obj (walk v' q) = true.
Proof.
  assert (forall v k c w, set_own v k c = Some w -> is_obj (Some v) = true -> is_obj (Some w) = true) as Hset.
  { intros w k c w' H. destruct w; try done. by injection H as <-. }
  revert v q v'; induction p as [|k p IH]; intros v q v' Hh Hw; [done|].
  destruct (decide (p = [])) as [->|Hp].
  - cbn [write_at] in Hw. destruct q as [|l q]; [by eapply Hset|]. cbn [walk hasPath] in *.
    rewrite (own_set_own _ _ _ _ l Hw). destruct (decide (l = k)) as [->|]; [by destruct (own v k)|done].
  - rewrite write_at_cons in Hw by done.
    destruct (write_at (child_at v k) p (Some x)) as [c1|] eqn:Hw1; [|done].
    destruct q as [|l q]; [by eapply Hset|]. cbn [walk hasPath] in *.
    rewrite (own_set_own _ _ _ _ l Hw). destruct (decide (l = k)) as [->|]; [|done].
    destruct (own v k) as [c|] eqn:Ho; [|done]. intros H. pose proof (walk_obj_container _ _ H) as Hc.
    unfold child_at in Hw1. rewrite Ho, Hc in Hw1. by eapply IH.
Qed.

(** Equal up to the order of fields: what one holds at a key, the other does. *)
Lemma isDeepStrictEqual_entries a b k c :
  distinct_keys a = true -> distinct_keys b = true -> isDeepStrictEqual a b = true -> (k, c) ∈ entries b ->
  exists c', (k, c') ∈ entries a /\ isDeepStrictEqual c' c = true.
Proof.
  destruct a as [| | | |xs|fs], b as [| | | |ys|gs]; try done; cbn [entries isDeepStrictEqual]; try by intros _ _ _ ?%elem_of_nil.
  - intros _ _. generalize 0. revert ys. induction xs as [|x xs IH]; intros [|y ys] i; try done; cbn [map_entries].
    + by intros _ ?%elem_of_nil.
    + intros [H1 H2]%andb_true_iff [[= -> ->]|Hin]%elem_of_cons; [exists x; split; [by left|done]|].
      destruct (IH _ _ H2 Hin) as (c' & ? & ?). exists c'. split; [by right|done].
  - intros Ha Hb [Hlen H]%andb_true_iff Hin. apply Z.eqb_eq in Hlen. rewrite forallb_forall in H.
    pose proof (entries_NoDup _ Ha) as Na. pose proof (entries_NoDup _ Hb) as Nb. cbn [entries] in Na, Nb.
    assert (k ∈ map fst fs) as Hk.
    { assert (map fst fs ⊆+ map fst gs) as Hs.
      { apply NoDup_submseteq; [done|]. intros l Hl. apply list_elem_of_fmap in Hl as ([l' x] & -> & Hl).
        apply list_elem_of_In in Hl. specialize (H _ Hl). cbn in H. destruct (assoc_get l' gs) eqn:E; [|done].
        apply assoc_get_Some_elem in E. by apply (list_elem_of_fmap_2 fst) in E. }
      apply submseteq_length_Permutation in Hs; [|rewrite !length_map; lia]. rewrite Hs.
      by apply (list_elem_of_fmap_2 fst) in Hin. }
    apply list_elem_of_fmap in Hk as ([k' c'] & -> & Hk). cbn [fst] in Hin. exists c'. split; [done|].
    apply list_elem_of_In in Hk. specialize (H _ Hk). cbn in H.
    by rewrite (elem_assoc_get k' c gs) in H by done.
Qed.

Lemma isDeepStrictEqual_obj a b q :
  distinct_keys a = true -> distinct_keys b = true -> isDeepStrictEqual a b = true ->
  is_obj (walk b q) = true -> is_obj (walk a q) = true.
Proof.
  revert a b; induction q as [|k q IH]; intros a b Ha Hb E H; [by destruct a, b|]. cbn [walk] in *.
  destruct (own b k) as [c|] eqn:Ho; [|done]. apply own_container in Ho; [|by eapply walk_obj_container].
  destruct (isDeepStrictEqual_entries a b k c) as (c' & Hin & E'); try done.
  rewrite (own_entries a k c') by done. by apply (IH c' c); [apply (entries_distinct a k)|apply (entries_distinct b k)|..].
Qed.

Section restore.
Context (stored : json) (Hd : distinct_keys stored = true) (Ho : ordinary stored = true).

(** A credential is there already, or the object it goes into is. *)
Definition ready (next : json) (p : list string) : Prop :=
  hasPath next p = true \/ exists q k, p = q ++ [k] /\ is_obj (walk next q) = true.

Definition restored (before after : json) (paths : list (list string)) : Prop :=
  (forall p, p ∈ paths -> walk after p = if hasPath before p then walk before p else walk stored p) /\
  (forall q, (forall p, p ∈ paths -> diverge p q) -> walk after q = walk before q).

Lemma hasPath_false v p : hasPath v p = false <-> walk v p = None.
Proof.
  destruct (hasPath v p) eqn:E.
  - apply hasPath_walk in E as [c ->]. done.
  - destruct (walk v p) eqn:W; [|done]. by rewrite (proj2 (hasPath_walk v p)) in E by eauto.
Qed.

Lemma hasPath_ext v w p q : walk v p = walk w q -> hasPath v p = hasPath w q.
Proof.
  intros E. destruct (hasPath w q) eqn:H.
  - apply hasPath_walk in H as [c H]. apply hasPath_walk. exists c. congruence.
  - apply hasPath_false in H. apply hasPath_false. congruence.
Qed.

Lemma restore_step next p : p ∈ credentialPaths stored [] -> ready next p -> exists next1,
  (if hasPath next p then Ok next else writePath next p (readPath stored p)) = Ok next1 /\
  walk next1 p = (if hasPath next p then walk next p else walk stored p) /\
  (forall q, diverge p q -> walk next1 q = walk next q) /\
  (forall q, is_obj (walk next q) = true -> is_obj (walk next1 q) = true).
Proof.
  intros Hp Hr. destruct (hasPath next p) eqn:Hh; [by exists next|].
  destruct Hr as [Hr|(q & k & -> & Hq)]; [congruence|].
  pose proof (credentialPaths_safe _ _ Ho Hp) as Hs.
  destruct (credentialPaths_walk _ _ Hd Hp) as [s Hw].
  rewrite writePath_safe, (readPath_walk stored), Hw by done.
  destruct (write_at_total next q k (JStr s) Hq) as [next1 H1]. rewrite H1. exists next1.
  split; [done|]. split; [by eapply write_at_walk|]. split.
  - intros q' Hq'. by eapply write_at_apart.
  - intros q'. by eapply write_at_obj.
Qed.

Lemma restore_each_restored paths next :
  (forall p, p ∈ paths -> p ∈ credentialPaths stored [] /\ ready next p) ->
  exists after, restore_each stored paths next = Ok after /\ restored next after paths.
Proof.
  revert next; induction paths as [|p paths IH]; intros next Hps.
  - exists next. split; [done|]. split; [by intros ? ?%elem_of_nil|done].
  - destruct (Hps p ltac:(by left)) as [Hp Hr]. destruct (restore_step next p Hp Hr) as (next1 & E & Hw & Haway & Hobj).
    cbn [restore_each]. rewrite E. cbn [mbind res_bind].
    assert (forall q, q ∈ credentialPaths stored [] -> q <> p -> walk next1 q = walk next q) as Hother.
    { intros q Hq Hne. apply Haway. destruct (credentialPaths_apart _ _ _ Hd Hp Hq) as [->|]; done. }
    destruct (IH next1) as (after & Hafter & Hin & Hout).
    { intros q Hq. destruct (Hps q ltac:(by right)) as [Hq' [Hr'|(q0 & k & -> & Hq0)]]; (split; [done|]).
      - destruct (decide (q = p)) as [->|Hne]; [left|left].
        + rewrite Hr' in Hw. apply hasPath_walk in Hr' as [c Hc]. apply hasPath_walk. exists c. congruence.
        + rewrite <- Hr'. apply hasPath_ext. by apply Hother.
      - right. exists q0, k. split; [done|]. by apply Hobj. }
    exists after. split; [done|]. split.
    + intros q [->|Hq]%elem_of_cons.
      * destruct (decide (p ∈ paths)) as [Hpp|Hpp].
        -- rewrite (Hin p Hpp), <- Hw. destruct (hasPath next1 p) eqn:Eh; [done|].
           apply hasPath_false in Eh. destruct (credentialPaths_walk _ _ Hd Hp) as [s Hs].
           rewrite Eh in Hw. destruct (hasPath next p) eqn:Eh'; [|congruence].
           apply hasPath_walk in Eh' as [c Hc]. congruence.
        -- rewrite <- Hw. apply Hout. intros q Hq. destruct (credentialPaths_apart stored q p Hd) as [->|]; try done.
           by apply Hps; right.
      * rewrite (Hin q Hq). destruct (decide (q = p)) as [->|Hne].
        -- destruct (hasPath next p) eqn:Eh.
           ++ rewrite (hasPath_ext next1 next p p Hw), Eh. done.
           ++ rewrite (hasPath_ext next1 stored p p Hw), Hw. by destruct (hasPath stored p).
        -- destruct (Hps q ltac:(by right)) as [Hq' _]. rewrite (hasPath_ext next1 next q q) by (by apply Hother).
           by rewrite Hother.
    + intros q Hq. rewrite Hout by (intros p' Hp'; apply Hq; by right). apply Haway, Hq. by left.
Qed.
End restore.

Lemma readPath_safe v p : readPath v p = if safe_path p then walk v p else None.
Proof.
  revert v; induction p as [|k p IH]; intros v; [done|]. rewrite safe_path_cons. cbn [readPath walk].
  destruct (own v k); [|by destruct (negb _ && _)]. destruct (includes k UNSAFE_KEYS); [done|]. apply IH.
Qed.

Lemma check_throws v depth nodes e : check v depth nodes = Throw e -> e ∈ [WTooLarge; WPrototypeKeys; WNotJson].
Proof.
  revert depth nodes; induction v as [|b|x|s|items IH|fs IH] using json_ind'; intros depth nodes; cbn [check];
    (destruct (_ || _); [intros [= <-]; by left|]); try done.
  - destruct (num_is_finite x); [done|]. intros [= <-]. set_solver.
  - generalize (nodes + 1). clear nodes. induction IH as [|c l Hc _ IHl]; intros m; [done|].
    intros [H|(a & _ & H)]%bind_Throw; eauto.
  - generalize (nodes + 1). clear nodes. induction IH as [|[k c] l Hc _ IHl]; intros m; [done|].
    destruct (includes k UNSAFE_KEYS); [intros [= <-]; set_solver|].
    intros [H|(a & _ & H)]%bind_Throw; eauto.
Qed.
Lemma assertWorkflowJson_not_reenter number_text v : assertWorkflowJson number_text v <> Throw WReenter.
Proof.
  unfold assertWorkflowJson. intros [H%check_throws|(n & _ & H)]%bind_Throw; [set_solver|]. by destruct (_ <? _).
Qed.
Lemma existsb_false_elem {A} (p : A -> bool) l x : existsb p l = false -> x ∈ l -> p x = false.
Proof.
  intros H Hx. destruct (p x) eqn:E; [|done]. rewrite <- H. symmetry. apply existsb_exists.
  exists x. by rewrite <- list_elem_of_In.
Qed.

(** Redaction never fails on a stored parameter object and takes out exactly the credentials: the
    paths it reports are those of the credentials, nothing is left at any of them, the result holds
    no credential at all, and every value reached by a path that parts from all of them reads as
    before; redacting again changes nothing. *)
Theorem redactCredentials_correct (config : json) (Hd : distinct_keys config = true) (Ho : ordinary config = true) :
  exists redacted,
    redactCredentials config = Ok (redacted, map (join ".") (credentialPaths config [])) /\
    credentialPaths redacted [] = [] /\
    (forall p, p ∈ credentialPaths config [] -> hasPath redacted p = false) /\
    (forall q, (forall p, p ∈ credentialPaths config [] -> diverge p q) -> readPath redacted q = readPath config q) /\
    redactCredentials redacted = Ok (redacted, []).
Proof.
  exists (strip config). split; [by apply redactCredentials_strip|]. split; [apply strip_clean|].
  split; [intros p; by apply strip_hasPath|]. split.
  - intros q Hq. rewrite !readPath_safe. by rewrite walk_strip.
  - unfold redactCredentials. rewrite strip_clean. by destruct (strip config).
Qed.

(** C37. Putting stored credentials back into edited parameters.  When it succeeds, every stored
    credential the edit left out has its stored value, every one the edit sent (even empty) has the
    sent value, and everything else is as sent.  It refuses with "re-enter" only when a credential is
    missing and the parameters around the credentials differ; any other refusal is a limit one of the
    two sides breaks.  In particular no write ever lands outside the parameter object (a hole in a
    list, a property of a list). *)
Theorem restoreCredentials_correct (number_text : Q -> string) (config stored : json)
  (Hc : distinct_keys config = true) (Hs : distinct_keys stored = true) :
  let missing := existsb (fun path => negb (hasPath config path)) (credentialPaths stored []) in
  match restoreCredentials number_text config stored with
  | Ok next =>
      (forall p, p ∈ credentialPaths stored [] ->
         readPath next p = if hasPath config p then readPath config p else readPath stored p) /\
      (forall q, (forall p, p ∈ credentialPaths stored [] -> diverge p q) -> readPath next q = readPath config q)
  | Throw WReenter => missing = true /\ isDeepStrictEqual (strip config) (strip stored) = false
  | Throw e => assertWorkflowJson number_text config = Throw e \/ assertWorkflowJson number_text stored = Throw e
  end.
Proof.
  unfold restoreCredentials.
  destruct (assertWorkflowJson number_text config) as [[]|e] eqn:A1; cbn [mbind res_bind];
    [|destruct e; auto; by apply assertWorkflowJson_not_reenter in A1].
  destruct (assertWorkflowJson number_text stored) as [[]|e] eqn:A2; cbn [mbind res_bind];
    [|destruct e; auto; by apply assertWorkflowJson_not_reenter in A2].
  apply assertWorkflowJson_Ok in A1 as [[O1 _] _], A2 as [[O2 _] _].
  destruct (credentialPaths stored []) as [|p0 ps] eqn:Eps; [split; [by intros ? ?%elem_of_nil|done]|].
  rewrite <- Eps. set (missing := existsb _ _).
  assert ((if missing then _ else Ok true) = Ok (negb missing || isDeepStrictEqual (strip config) (strip stored))) as ->.
  { destruct missing; [|done]. by rewrite !redactCredentials_strip. }
  cbn [mbind res_bind]. destruct (negb missing || _) eqn:Eok; cbn [negb];
    [|by apply orb_false_iff in Eok as [?%negb_false_iff ?]].
  set (next := match config with JNull => JObj [] | _ => config end).
  destruct (restore_each_restored stored Hs O2 (credentialPaths stored []) next) as (after & -> & Hin & Hout).
  - intros p Hp. split; [done|]. apply orb_true_iff in Eok as [Em|Eq].
    + left. apply negb_true_iff in Em. apply (existsb_false_elem _ _ p) in Em; [|done].
      apply negb_false_iff in Em. unfold next. destruct config; try done. by destruct p; [apply credentialPaths_nonempty in Hp|].
    + right. destruct (credential_parent stored p Hs Hp) as (q & k & -> & Hq). exists q, k. split; [done|].
      apply isDeepStrictEqual_obj with (a := strip config) in Hq; try by apply strip_distinct.
      2: done. apply walk_strip_obj in Hq; [|done]. unfold next. destruct config; try done. by destruct q.
  - assert (forall p, p <> [] -> walk next p = walk config p) as Hnext.
    { intros p Hp. unfold next. destruct config; try done. by destruct p. }
    split.
    + intros p Hp. pose proof (credentialPaths_nonempty _ _ Hp) as Hne.
      rewrite !readPath_safe, (credentialPaths_safe _ _ O2 Hp), (Hin p Hp).
      rewrite (hasPath_ext next config p p) by auto. by rewrite Hnext.
    + intros q Hq. rewrite !readPath_safe, (Hout q Hq), Hnext; [done|]. intros ->.
      specialize (Hq p0). rewrite Eps in Hq. specialize (Hq ltac:(by left)). inversion Hq.
Qed.

Definition sample_stored : json :=
  JObj [("url", JStr "https://a"); ("Token", JStr "s3cret"); ("hooks", JArr [JObj [("password", JStr "hunter2"); ("n", JNum (JInt 3))]])]%string.
Definition sample_edit : json :=
  JObj [("hooks", JArr [JObj [("n", JNum (JInt 3)); ("password", JStr "")]]); ("url", JStr "https://a")]%string.
Definition sample_same : json :=
  JObj [("hooks", JArr [JObj [("n", JNum (JInt 3)); ("password", JStr "new")]]); ("url", JStr "https://a")]%string.

Lemma redactCredentials_correct_witness :
  credentialPaths sample_stored [] = [["Token"]; ["hooks"; "0"; "password"]]%string /\
  exists redacted, redactCredentials sample_stored = Ok (redacted, ["Token"; "hooks.0.password"]%string) /\
    credentialPaths redacted [] = [].
Proof.
  split; [vm_compute; reflexivity|].
  destruct (redactCredentials_correct sample_stored) as (r & H1 & H2 & _).
  - vm_compute; reflexivity.
  - vm_compute; reflexivity.
  - exists r. split; [exact H1|exact H2].
Defined.

Lemma restoreCredentials_correct_witness :
  exists next, restoreCredentials (fun _ => ""%string) sample_same sample_stored = Ok next /\
    readPath next ["Token"]%string = Some (JStr "s3cret") /\
    readPath next ["hooks"; "0"; "password"]%string = Some (JStr "new").
Proof.
  assert (exists next, restoreCredentials (fun _ => ""%string) sample_same sample_stored = Ok next) as [next E].
  { eexists. vm_compute. reflexivity. }
  pose proof (restoreCredentials_correct (fun _ => ""%string) sample_same sample_stored eq_refl eq_refl) as H.
  cbv zeta in H. rewrite E in H. destruct H as [H _]. exists next. split; [exact E|].
  assert (credentialPaths sample_stored [] = [["Token"]; ["hooks"; "0"; "password"]]%string) as Ep by (vm_compute; reflexivity).
  rewrite Ep in H. split.
  - rewrite (H ["Token"]%string) by (by left). vm_compute. reflexivity.
  - rewrite (H ["hooks"; "0"; "password"]%string) by (right; by left). vm_compute. reflexivity.
Defined.

(** An empty password sent is not a credential, but it is sent: the two sides then differ around it. *)
Example restore_empty_refused : restoreCredentials (fun _ => ""%string) sample_edit sample_stored = Throw WReenter.
Proof. vm_compute. reflexivity. Qed.
Example scrub_example :
  redactRunError "bad token s3cret for hunter2" sample_stored 500 = mkRunError "bad token [credential] for [credential]" false.
Proof. vm_compute. reflexivity. Qed.
