(* ===== verification/WorkflowDefinition.v ===== *)
(** * Workflow definitions: what can run

    [src/server/src/utils/workflow-definition.ts], second and fourth part, with
    [src/server/src/utils/workflow.ts]: how a step's method is named and found, whether it can run for
    a trigger, whether a step's parameters fit the schema its method declares ([validateStepConfig]),
    everything that stops a definition from running ([workflowIssues]), and the stored document made
    from a request ([toDefinition]).

    The source and schedule validators are built with [zod] and [cron]: [source_valid] and
    [schedule_valid] stand for [WorkflowSourceSchema.safeParse(_).success] and its schedule
    counterpart.  [randomUUID] is a list of identifiers drawn from the front. *)

From Stdlib Require Import QArith.
From S2P Require Import Prelude JsNumber JsString WorkflowJson.
Local Open Scope Z_scope.

(** ** Triggers and methods *)

Inductive WorkflowType : Type := AssetV1.
#[export] Instance WorkflowType_eq_dec : EqDecision WorkflowType.
Proof. solve_decision. Defined.

Inductive WorkflowTrigger : Type := AssetCreate | AssetChanged | Schedule | AssetMetadataExtraction | AssetTagged.
#[export] Instance WorkflowTrigger_eq_dec : EqDecision WorkflowTrigger.
Proof. solve_decision. Defined.
Definition trigger_value (t : WorkflowTrigger) : string :=
  match t with
  | AssetCreate => "AssetCreate" | AssetChanged => "AssetChanged" | Schedule => "Schedule"
  | AssetMetadataExtraction => "AssetMetadataExtraction" | AssetTagged => "AssetTagged"
  end.

(** [triggerMap], keyed by the trigger's name. *)
Definition triggerMap : list (string * list WorkflowType) :=
  [("AssetCreate", [AssetV1]); ("AssetChanged", [AssetV1]); ("Schedule", [AssetV1]);
   ("AssetMetadataExtraction", [AssetV1]); ("AssetTagged", [AssetV1])]%string.
Definition isKnownTrigger (trigger : string) : bool := assoc_has trigger triggerMap.
Definition getWorkflowTriggers : list (string * list WorkflowType) := triggerMap.

Definition inferredMap (type : WorkflowType) : list WorkflowType := match type with AssetV1 => [] end.
(** The recursion follows [inferredMap], whose only chain has length one; [fuel] bounds it. *)
Fixpoint withImpliedItems (fuel : nat) (type : WorkflowType) : list WorkflowType :=
  match fuel with
  | O => []
  | S fuel' => type :: flat_map (withImpliedItems fuel') (inferredMap type)
  end.

Definition isMethodCompatible (types : list WorkflowType) (trigger : string) : bool :=
  let validTypes := default [] (assoc_get trigger triggerMap) in
  let pluginCompatibility := map (withImpliedItems 2) types in
  existsb (fun requested => existsb (fun group => includes requested group) pluginCompatibility) validTypes.

(** [METHOD_REGEX]: [name], an optional [@version], [#method]. *)
Record MethodName := mkMethodName { pluginName : string; version : option string; methodName : string }.
Definition not_in (chars : list ascii) (c : ascii) : bool := negb (includes c chars) && negb (is_space c).
Definition at_hash : list ascii := ["@"%char; "#"%char].
Definition method_part (name : string) (version : option string) (rest : string) : option MethodName :=
  match rest with
  | String "#" m =>
      if negb (String.eqb m "") && string_all (not_in at_hash) m then Some (mkMethodName name version m) else None
  | _ => None
  end.
Definition parseMethodString (method : string) : option MethodName :=
  let '(name, rest) := span (not_in at_hash) method in
  if String.eqb name "" then None else
  match rest with
  | String "@" rest' => let '(version, rest'') := span (not_in ["#"%char]) rest' in method_part name (Some version) rest''
  | _ => method_part name None rest
  end.

Definition asPluginKey (pluginName name : string) : string := (pluginName +:+ "#" +:+ name)%string.

(** ** Parameter schemas *)

Inductive Schema : Type := mkSchema
  (type title : option string) (enum : option (list json)) (minimum maximum : option jsnum)
  (array : option bool) (items : option Schema) (required : option (list string))
  (properties : option (list (string * Schema))).

Definition s_type (s : Schema) := let 'mkSchema t _ _ _ _ _ _ _ _ := s in t.
Definition s_title (s : Schema) := let 'mkSchema _ t _ _ _ _ _ _ _ := s in t.
Definition s_enum (s : Schema) := let 'mkSchema _ _ e _ _ _ _ _ _ := s in e.
Definition s_minimum (s : Schema) := let 'mkSchema _ _ _ m _ _ _ _ _ := s in m.
Definition s_maximum (s : Schema) := let 'mkSchema _ _ _ _ m _ _ _ _ := s in m.
Definition s_array (s : Schema) := let 'mkSchema _ _ _ _ _ a _ _ _ := s in default false a.
Definition s_items (s : Schema) := let 'mkSchema _ _ _ _ _ _ i _ _ := s in i.
Definition s_required (s : Schema) := let 'mkSchema _ _ _ _ _ _ _ r _ := s in default [] r.
Definition s_properties (s : Schema) := let 'mkSchema _ _ _ _ _ _ _ _ p := s in p.

(** [{}] and [{ ...schema, array: false }]. *)
Definition empty_schema : Schema := mkSchema None None None None None None None None None.
Definition without_array (s : Schema) : Schema :=
  let 'mkSchema t ti e mi ma _ i r p := s in mkSchema t ti e mi ma (Some false) i r p.

Definition has_type (s : Schema) (type : string) : bool := bool_decide (s_type s = Some type).
Definition property (s : Schema) (key : string) : option Schema := s_properties s ≫= assoc_get key.

Record MethodDefinition := mkMethod {
  m_id : string; m_name : string; m_pluginName : string; m_types : list WorkflowType; m_schema : option Schema }.

Definition resolveDefinitionMethod (methods : list MethodDefinition) (method : string) : option MethodDefinition :=
  match parseMethodString method with
  | None => None
  | Some parsed =>
      List.find (fun item => String.eqb (m_pluginName item) (pluginName parsed) && String.eqb (m_name item) (methodName parsed)) methods
  end.

(** [list.includes(value)] on JSON values: by value for primitives, by identity, so never, for the
    objects and arrays of another document. *)
Definition includes_value (value : json) (l : list json) : bool :=
  existsb (fun x => match x, value with
    | JNull, JNull => true
    | JBool a, JBool b => Bool.eqb a b
    | JNum a, JNum b => same_number a b
    | JStr a, JStr b => String.eqb a b
    | _, _ => false
    end) l.

(** ** Parameters against their schema *)

Definition is_list_schema (s : Schema) : bool := s_array s || has_type s "array".
Definition item_schema (s : Schema) : Schema := if s_array s then without_array s else default empty_schema (s_items s).
Definition is_object_schema (s : Schema) : bool := (match s_properties s with Some _ => true | None => false end) || has_type s "object".
(** A schema that says nothing of the value itself. *)
Definition is_open_schema (s : Schema) : bool :=
  negb (str_truthy (s_type s)) && negb (s_array s) &&
  match s_properties s, s_enum s with None, None => true | _, _ => false end.

(** [config < minimum] and [config > maximum] for a finite number; a bound that is [NaN] never holds. *)
Definition num_below (n m : jsnum) : bool :=
  match m with JNaN => false | JInf negative => negb negative | _ => negb (num_le m n) end.
Definition num_above (n m : jsnum) : bool :=
  match m with JNaN => false | JInf negative => negative | _ => negb (num_le n m) end.

Definition number_errors (s : Schema) (config : json) (path : string) : list string :=
  let invalid := [(path +:+ " must be a valid " +:+ default "" (s_type s) +:+ ".")%string] in
  match config with
  | JNum n =>
      if negb (num_is_finite n) || (has_type s "integer" && negb (num_is_safe_integer n)) then invalid
      else if (match s_minimum s with Some m => num_below n m | None => false end)
           || (match s_maximum s with Some m => num_above n m | None => false end)
      then [(path +:+ " is outside the allowed range.")%string] else []
  | _ => invalid
  end.

Definition leaf_errors (s : Schema) (config : json) (path : string) : list string :=
  (match s_enum s with
   | Some choices => if includes_value config choices then [] else [(path +:+ " is not an available choice.")%string]
   | None => [] end) ++
  (if has_type s "string" && negb (match config with JStr _ => true | _ => false end) then [(path +:+ " must be text.")%string] else []) ++
  (if has_type s "boolean" && negb (match config with JBool _ => true | _ => false end) then [(path +:+ " must be on or off.")%string] else []) ++
  (if has_type s "number" || has_type s "integer" then number_errors s config path else []).

Definition missing_errors (s : Schema) (fs : list (string * json)) (path : string) : list string :=
  omap (fun key => if assoc_has key fs then None
                   else Some (path +:+ ": " +:+ default key (property s key ≫= s_title) +:+ " is required.")%string)
       (s_required s).

(** [validateStepConfig] of a value that is there. *)
Fixpoint validate (s : Schema) (config : json) (path : string) {struct config} : list string :=
  let others :=
    if is_list_schema s then [(path +:+ " must be a list.")%string]
    else if is_object_schema s then [(path +:+ " must be an object.")%string]
    else leaf_errors s config path in
  match config with
  | JNull =>
      if is_open_schema s then
        match s_required s with [] => [] | _ => [(path +:+ " require configured values.")%string] end
      else others
  | JArr values =>
      if is_list_schema s then
        (fix each (index : Z) (l : list json) : list string :=
           match l with
           | [] => []
           | value :: l' =>
               validate (item_schema s) value (path +:+ " " +:+ string_of_int (index + 1))%string ++ each (index + 1) l'
           end) 0 values
      else others
  | JObj fs =>
      if is_list_schema s then others
      else if is_object_schema s then
        missing_errors s fs path ++
        (fix each (l : list (string * json)) : list string :=
           match l with
           | [] => []
           | (key, value) :: l' =>
               match property s key with
               | Some p => validate p value (path +:+ " / " +:+ default key (s_title p))%string
               | None => []
               end ++ each l'
           end) fs
      else others
  | _ => others
  end.

Definition validateStepConfig (s : Schema) (config : option json) (path : string) : list string :=
  match config with None => [(path +:+ " are missing.")%string] | Some c => validate s c path end.

(** ** The stored document *)

Record Step := mkStep { step_id : string; step_method : string; step_config : json; step_enabled : bool;
                        step_extra : list (string * json) }.
Record Document := mkDocument {
  d_source : option json; d_schedule : option json; d_trigger : string;
  d_extra : list (string * json); d_steps : list Step }.

Inductive WorkflowIssueCode : Type := TriggerUnavailable | MethodUnavailable | MethodIncompatible | ConfigInvalid.
Record WorkflowIssue := mkIssue { issue_step : option Z; issue_code : WorkflowIssueCode; issue_message : string }.

Section issues.
Context (source_valid schedule_valid : json -> bool) (methods : list MethodDefinition).

Definition step_issues (definition : Document) (index : Z) (step : Step) : list WorkflowIssue :=
  let label := ("Step " +:+ string_of_int (index + 1))%string in
  match resolveDefinitionMethod methods (step_method step) with
  | None => [mkIssue (Some index) MethodUnavailable
               (label +:+ ": this plugin method is unavailable. Its definition is retained.")%string]
  | Some method =>
      (if isKnownTrigger (d_trigger definition) && negb (isMethodCompatible (m_types method) (d_trigger definition))
       then [mkIssue (Some index) MethodIncompatible (label +:+ ": this method cannot run for this trigger.")%string]
       else []) ++
      match validateStepConfig (default empty_schema (m_schema method))
              (Some (match step_config step with JNull => JObj [] | c => c end)) label with
      | [] => []
      | first :: _ => [mkIssue (Some index) ConfigInvalid first]
      end
  end.

Fixpoint steps_issues (definition : Document) (index : Z) (steps : list Step) : list WorkflowIssue :=
  match steps with
  | [] => []
  | step :: rest => step_issues definition index step ++ steps_issues definition (index + 1) rest
  end.

(** [source] and [schedule] are objects when they are not [null]. *)
Definition present (v : option json) : bool := match v with Some JNull | None => false | Some _ => true end.
Definition invalid (valid : json -> bool) (v : option json) : bool :=
  present v && match v with Some c => negb (valid c) | None => false end.

Definition workflowIssues (definition : Document) : list WorkflowIssue :=
  let trigger := d_trigger definition in
  (if isKnownTrigger trigger then [] else [mkIssue None TriggerUnavailable "This trigger is unavailable."]) ++
  (if (String.eqb trigger "Schedule" || String.eqb trigger "AssetChanged") && negb (present (d_source definition))
   then [mkIssue None ConfigInvalid "Choose a source before enabling this workflow."] else []) ++
  (if String.eqb trigger "Schedule" && negb (present (d_schedule definition))
   then [mkIssue None ConfigInvalid "Configure a schedule before enabling this workflow."] else []) ++
  (if invalid source_valid (d_source definition) || invalid schedule_valid (d_schedule definition)
   then [mkIssue None ConfigInvalid "The workflow source or schedule is invalid."] else []) ++
  steps_issues definition 0 (d_steps definition).
End issues.

Definition KNOWN_STEP_KEYS : list string := ["id"; "method"; "config"; "enabled"; "extra"]%string.
Definition KNOWN_WORKFLOW_KEYS : list string :=
  ["id"; "trigger"; "name"; "description"; "enabled"; "logging"; "steps"; "extra"]%string.
Definition withoutKnown (extra : option (list (string * json))) (known : list string) : list (string * json) :=
  List.filter (fun kv => negb (includes (fst kv) known)) (default [] extra).

Record StepInput := mkStepInput { in_id : option string; in_method : string; in_config : json;
                                  in_enabled : option bool; in_extra : option (list (string * json)) }.
Record DefinitionInput := mkInput { i_source : option json; i_schedule : option json; i_trigger : string;
                                    i_extra : option (list (string * json)); i_steps : list StepInput }.

(** The identifiers [randomUUID] will return. *)
Fixpoint toSteps (seen uuids : list string) (steps : list StepInput) : list Step :=
  match steps with
  | [] => []
  | step :: rest =>
      let kept := match in_id step with
                  | Some id => if negb (String.eqb id "") && negb (includes id seen) then Some id else None
                  | None => None end in
      let '(id, uuids') := match kept with Some id => (id, uuids) | None => (hd "" uuids, tl uuids) end in
      mkStep id (in_method step) (in_config step) (default true (in_enabled step)) (withoutKnown (in_extra step) KNOWN_STEP_KEYS)
        :: toSteps (id :: seen) uuids' rest
  end.

(** [JSON.parse(JSON.stringify(value))]: a number JSON cannot write becomes [null]. *)
Fixpoint json_copy (v : json) : json :=
  match v with
  | JNum n => if num_is_finite n then v else JNull
  | JArr items => JArr (map json_copy items)
  | JObj fs => JObj (map (fun '(k, c) => (k, json_copy c)) fs)
  | _ => v
  end.

Definition step_json (s : Step) : json :=
  JObj [("id", JStr (step_id s)); ("method", JStr (step_method s)); ("config", step_config s);
        ("enabled", JBool (step_enabled s)); ("extra", JObj (step_extra s))]%string.
Definition document_json (d : Document) : json :=
  let field (k : string) (v : option json) : list (string * json) := match v with Some c => [(k, c)] | None => [] end in
  JObj ([("version"%string, JNum (JInt 1))] ++ field "source" (d_source d) ++ field "schedule" (d_schedule d) ++
        [("trigger"%string, JStr (d_trigger d)); ("extra"%string, JObj (d_extra d));
         ("steps"%string, JArr (map step_json (d_steps d)))]).

Definition toDefinition (number_text : Q -> string) (uuids : list string) (input : DefinitionInput) : res WorkflowError Document :=
  if WORKFLOW_LIMITS.steps <? Z.of_nat (length (i_steps input)) then Throw WTooManySteps else
  let definition := mkDocument (json_copy <$> i_source input) (i_schedule input) (i_trigger input)
    (withoutKnown (i_extra input) KNOWN_WORKFLOW_KEYS) (toSteps [] uuids (i_steps input)) in
  _ ← assertWorkflowJson number_text (document_json definition);
  Ok definition.

Record StoredStep := mkStored { st_id : string; st_pluginName : string; st_methodName : string; st_config : json; st_enabled : bool }.
Definition definitionFromSteps (trigger : string) (steps : list StoredStep) : Document :=
  mkDocument None None trigger []
    (map (fun s => mkStep (st_id s) (st_pluginName s +:+ "#" +:+ st_methodName s)%string (st_config s) (st_enabled s) []) steps).

(** The step identifiers of a stored document: none twice, each kept where the request had a unique one. *)
Lemma toSteps_ids seen uuids steps :
  NoDup uuids -> (forall u, u ∈ uuids -> (u ∉ seen) /\ forall s, s ∈ steps -> in_id s <> Some u) ->
  (length steps <= length uuids)%nat ->
  NoDup (map step_id (toSteps seen uuids steps)) /\ (forall i, i ∈ map step_id (toSteps seen uuids steps) -> i ∉ seen).
Proof.
  revert seen uuids; induction steps as [|s l IH]; intros seen uuids Hn Hu Hlen; [split; [constructor|by intros ? ?%elem_of_nil]|].
  cbn [toSteps]. set (kept := match in_id s with Some _ => _ | None => _ end).
  assert (exists id uuids', match kept with Some id => (id, uuids) | None => (hd ""%string uuids, tl uuids) end = (id, uuids') /\
    (id ∉ seen) /\ NoDup uuids' /\ (forall u, u ∈ uuids' -> (u ∉ id :: seen) /\ forall t, t ∈ l -> in_id t <> Some u) /\
    (length l <= length uuids')%nat) as (id & uuids' & -> & Hid & Hn' & Hu' & Hlen').
  { destruct kept as [id|] eqn:Ek; subst kept.
    - exists id, uuids. destruct (in_id s) as [i|] eqn:Ei; [|done].
      destruct (negb (String.eqb i "") && negb (includes i seen)) eqn:E; [|done]. injection Ek as ->. to_prop.
      apply includes_false in H0. repeat split; try done; [| |cbn [length] in *; lia].
      + intros [->|Hs]%elem_of_cons; [|by apply Hu in H1 as [? _]]. apply Hu in H1 as [_ H1]. by apply (H1 s); [left|].
      + intros t Ht. apply Hu in H1 as [_ H1]. apply H1. by right.
    - destruct uuids as [|u us]; cbn [length] in *; [lia|]. exists u, us. apply NoDup_cons in Hn as [Hnu Hn].
      repeat split; try done; [by apply (Hu u); left| | |lia].
      + intros [->|Hs]%elem_of_cons; [done|]. by apply (Hu u0); [right|].
      + intros t Ht. apply (Hu u0); by right. }
  destruct (IH (id :: seen) uuids' Hn' Hu' Hlen') as [Hnd Hseen]. cbn [map step_id]. split.
  - apply NoDup_cons. split; [|done]. intros H%Hseen. apply H. by left.
  - intros i [->|H%Hseen]%elem_of_cons; [done|]. intros Hi. apply H. by right.
Qed.

Definition sample_method : MethodDefinition :=
  mkMethod "m1" "notify" "core" [AssetV1]
    (Some (mkSchema (Some "object") None None None None None None (Some ["count"])
      (Some [("count", mkSchema (Some "integer") (Some "Count") None (Some (JInt 1)) (Some (JInt 9)) None None None None)])))%string.
Definition sample_document (count : Z) : Document :=
  mkDocument None None "AssetCreate" [] [mkStep "s1" "core@2#notify" (JObj [("count", JNum (JInt count))]) false []]%string.

Example issues_none : workflowIssues (fun _ => true) (fun _ => true) [sample_method] (sample_document 4) = [].
Proof. vm_compute. reflexivity. Qed.
Example issues_range : workflowIssues (fun _ => true) (fun _ => true) [sample_method] (sample_document 12) =
  [mkIssue (Some 0) ConfigInvalid "Step 1 / Count is outside the allowed range."].
Proof. vm_compute. reflexivity. Qed.
