(* ===== verification/WorkflowRunnable.v ===== *)
(** * Workflow definitions: what it takes to run

    [Runnable] says when a definition can run in words of its own: how a step names a method, for which
    triggers a method can run, and which values a schema accepts ([Fits]).  [workflowIssues] reports
    nothing for exactly these definitions, and a step for exactly the steps that could not run. *)

From Stdlib Require Import QArith.
From S2P Require Import Prelude JsNumber JsString WorkflowJson WorkflowDefinition.
Local Open Scope Z_scope.

(** ** How a step names its method *)

Abbreviation chars := String.list_ascii_of_string.
(** A word of a method's name: not empty, without [@], [#] or white space. *)
Definition word (s : string) : Prop :=
  s <> ""%string /\ forall c, c ∈ chars s -> c <> "@"%char /\ c <> "#"%char /\ is_space c = false.
(** [plugin#method], or [plugin@version#method], whose version is passed over. *)
Inductive names (plugin method : string) : string -> Prop :=
| NamesPlain : word plugin -> word method -> names plugin method (plugin +:+ "#" +:+ method)%string
| NamesVersion v : word plugin -> word method -> (forall c, c ∈ chars v -> c <> "#"%char /\ is_space c = false) ->
    names plugin method (plugin +:+ "@" +:+ v +:+ "#" +:+ method)%string.

Lemma string_all_chars p s : string_all p s = true <-> forall c, c ∈ chars s -> p c = true.
Proof.
  induction s as [|c s IH]; cbn; [split; [by intros _ ? ?%elem_of_nil|done]|]. rewrite andb_true_iff, IH. split.
  - intros [Hc Hs] x [->|?]%elem_of_cons; auto.
  - intros H. split; [apply H; by left|intros x ?; apply H; by right].
Qed.
Lemma not_in_spec l c : not_in l c = true <-> (c ∉ l) /\ is_space c = false.
Proof. unfold not_in. by rewrite andb_true_iff, !negb_true_iff, includes_false. Qed.
Lemma at_hash_spec c : not_in at_hash c = true <-> c <> "@"%char /\ c <> "#"%char /\ is_space c = false.
Proof. rewrite not_in_spec. unfold at_hash. set_solver. Qed.
Lemma hash_spec c : not_in ["#"%char] c = true <-> c <> "#"%char /\ is_space c = false.
Proof. rewrite not_in_spec. set_solver. Qed.
Lemma word_spec s : word s <-> s <> ""%string /\ string_all (not_in at_hash) s = true.
Proof. unfold word. rewrite string_all_chars. by setoid_rewrite at_hash_spec. Qed.

Lemma span_parts p s a b : span p s = (a, b) ->
  s = (a +:+ b)%string /\ string_all p a = true /\ match b with String c _ => p c = false | EmptyString => True end.
Proof.
  revert a b. induction s as [|c s IH]; intros a b; cbn; [by intros [= <- <-]|].
  destruct (p c) eqn:E; [|by intros [= <- <-]]. destruct (span p s) as [x y]. intros [= <- <-].
  destruct (IH x y eq_refl) as (-> & Hx & Hy). cbn. by rewrite E.
Qed.

Lemma method_part_names n v rest r : method_part n v rest = Some r <->
  exists m, rest = String "#" m /\ word m /\ r = mkMethodName n v m.
Proof.
  setoid_rewrite word_spec. unfold method_part. split.
  - destruct rest as [|c m]; [done|]. intros H. destruct (decide (c = "#"%char)) as [->|Hc].
    + destruct (negb (String.eqb m "") && string_all (not_in at_hash) m) eqn:E; [|done]. injection H as <-. to_prop. eauto.
    + exfalso. revert H. destruct c as [[] [] [] [] [] [] [] []]; done.
  - intros (m & -> & [H1 H2] & ->). rewrite H2. by rewrite (proj2 (String.eqb_neq m "") H1).
Qed.

Lemma parse_names s plugin method : names plugin method s <->
  exists r, parseMethodString s = Some r /\ pluginName r = plugin /\ methodName r = method.
Proof.
  split.
  - intros [Hp Hm|v Hp Hm Hv]; apply word_spec in Hp as [Hne Hp]; unfold parseMethodString.
    + rewrite span_all by done. rewrite (proj2 (String.eqb_neq plugin "") Hne). eexists.
      split; [by apply (method_part_names plugin None); eexists|done].
    + rewrite span_all by done. rewrite (proj2 (String.eqb_neq plugin "") Hne). cbn [String.append].
      change ("@" +:+ v +:+ "#" +:+ method)%string with (String "@" (v +:+ "#" +:+ method)). cbv iota beta.
      rewrite span_all; [|by apply string_all_chars; intros c Hc; apply hash_spec, Hv|done].
      eexists. split; [by apply method_part_names; eexists|done].
  - intros (r & H & <- & <-). unfold parseMethodString in H. destruct (span (not_in at_hash) s) as [n rest] eqn:E.
    apply span_parts in E as (-> & Hn & _). destruct (String.eqb n "") eqn:En; [done|]. apply String.eqb_neq in En.
    assert (word n) as Hw by (by apply word_spec).
    assert (forall v, method_part n v rest = Some r -> names (pluginName r) (methodName r) (n +:+ rest)%string) as Hplain.
    { intros v (m & -> & Hm & ->)%method_part_names. by apply NamesPlain. }
    destruct rest as [|c rest]; [by apply (Hplain None)|]. destruct (decide (c = "@"%char)) as [->|Hc].
    + destruct (span (not_in ["#"%char]) rest) as [v rest'] eqn:Ev. apply span_parts in Ev as (-> & Hv & _).
      apply method_part_names in H as (m & -> & Hm & ->). cbn [pluginName methodName].
      apply (NamesVersion n m v); [done|done|]. intros x Hx. by apply hash_spec, (proj1 (string_all_chars _ _) Hv).
    + apply (Hplain None). revert H. by destruct c as [[] [] [] [] [] [] [] []].
Qed.

(** ** For which triggers a method can run *)

(** What each trigger hands to its workflows: all of them an asset. *)
Definition hands (t : WorkflowTrigger) : WorkflowType :=
  match t with AssetCreate | AssetChanged | Schedule | AssetMetadataExtraction | AssetTagged => AssetV1 end.
Definition can_run_for (types : list WorkflowType) (trigger : string) : Prop :=
  exists t, trigger = trigger_value t /\ hands t ∈ types.

Lemma isKnownTrigger_spec s : isKnownTrigger s = true <-> exists t, s = trigger_value t.
Proof.
  unfold isKnownTrigger. rewrite assoc_has_true. cbn [map fst triggerMap]. rewrite !elem_of_cons. split.
  - intros [->|[->|[->|[->|[->|H]]]]];
      [by exists AssetCreate|by exists AssetChanged|by exists Schedule|by exists AssetMetadataExtraction|by exists AssetTagged|].
    by apply elem_of_nil in H.
  - intros [[] ->]; cbn; tauto.
Qed.
Lemma compatible_can_run types trigger : isMethodCompatible types trigger = true <-> can_run_for types trigger.
Proof.
  assert (forall t, isMethodCompatible types (trigger_value t) = true <-> hands t ∈ types) as Hall.
  { intros t. unfold isMethodCompatible. assert (default [] (assoc_get (trigger_value t) triggerMap) = [AssetV1]) as -> by by destruct t.
    cbn [existsb]. rewrite orb_false_r, existsb_exists. split.
    - intros (g & (y & <- & Hy)%in_map_iff & Hg). destruct t, y; cbn; by apply list_elem_of_In.
    - intros Hin. exists [AssetV1]. split; [|by vm_compute]. apply in_map_iff. exists AssetV1. split; [done|].
      apply list_elem_of_In. by destruct t. }
  split.
  - intros H. destruct (isKnownTrigger trigger) eqn:Ek.
    + apply isKnownTrigger_spec in Ek as [t ->]. exists t. split; [done|]. by apply Hall.
    + unfold isKnownTrigger, assoc_has in Ek. unfold isMethodCompatible in H. by destruct (assoc_get trigger triggerMap).
  - intros (t & -> & Ht). by apply Hall.
Qed.

(** ** Which values a schema accepts *)

(** One of the choices is the value itself; an object or an array is never the choice of another document. *)
Inductive same_value : json -> json -> Prop :=
| SameNull : same_value JNull JNull
| SameBool b : same_value (JBool b) (JBool b)
| SameNum a b : same_number a b = true -> same_value (JNum a) (JNum b)
| SameText t : same_value (JStr t) (JStr t).

(** A bound leaves the value out when both are numbers and the value is past it; [NaN] bounds nothing. *)
Definition in_bounds (s : Schema) (q : Q) : Prop :=
  (forall m, s_minimum s = Some m -> m <> JInf false /\ forall x, num_value m = Some x -> (x <= q)%Q) /\
  (forall m, s_maximum s = Some m -> m <> JInf true /\ forall x, num_value m = Some x -> (q <= x)%Q).

Record leaf_fits (s : Schema) (v : json) : Prop := mkLeafFits {
  lf_choice : forall choices, s_enum s = Some choices -> exists c, c ∈ choices /\ same_value c v;
  lf_string : s_type s = Some "string"%string -> exists t, v = JStr t;
  lf_boolean : s_type s = Some "boolean"%string -> exists b, v = JBool b;
  lf_number : s_type s = Some "number"%string -> exists n q, v = JNum n /\ num_value n = Some q /\ in_bounds s q;
  lf_integer : s_type s = Some "integer"%string ->
    exists z, v = JNum (JInt z) /\ -9007199254740991 <= z <= 9007199254740991 /\ in_bounds s (inject_Z z)
}.

Definition asks_list (s : Schema) : Prop := s_array s = true \/ s_type s = Some "array"%string.
Definition asks_object (s : Schema) : Prop := s_properties s <> None \/ s_type s = Some "object"%string.
(** It says nothing of the value itself. *)
Definition says_nothing (s : Schema) : Prop :=
  (s_type s = None \/ s_type s = Some ""%string) /\ s_array s = false /\ s_properties s = None /\ s_enum s = None.
(** What a list's items must be: the schema itself without its [array], or the items it declares, if any. *)
Inductive item_of : Schema -> Schema -> Prop :=
| ItemSame t ti e mi ma i r p : item_of (mkSchema t ti e mi ma (Some true) i r p) (mkSchema t ti e mi ma (Some false) i r p)
| ItemDeclared s it : s_array s = false -> s_items s = Some it -> item_of s it.

(** A value that fits a schema: item by item in a list, the required fields present and every
    declared field fitting in an object, and the choice, type and range of anything else. *)
Inductive Fits : Schema -> json -> Prop :=
| fits_null s : says_nothing s -> s_required s = [] -> Fits s JNull
| fits_list s values : asks_list s -> (forall v child, v ∈ values -> item_of s child -> Fits child v) -> Fits s (JArr values)
| fits_object s fs : ~ asks_list s -> asks_object s ->
    (forall key, key ∈ s_required s -> key ∈ map fst fs) ->
    (forall key v ps p, (key, v) ∈ fs -> s_properties s = Some ps -> assoc_get key ps = Some p -> Fits p v) -> Fits s (JObj fs)
| fits_leaf s v : ~ asks_list s -> ~ asks_object s -> ~ (v = JNull /\ says_nothing s) -> leaf_fits s v -> Fits s v.

Lemma app_nil_iff {A} (l m : list A) : l ++ m = [] <-> l = [] /\ m = [].
Proof. destruct l, m; simpl; split; intros H; try done; by destruct H. Qed.
Lemma if_nil_iff {A} (b : bool) (x : A) : (if b then [x] else []) = [] <-> b = false.
Proof. by destruct b. Qed.

Lemma has_type_spec s t : has_type s t = true <-> s_type s = Some t.
Proof. apply bool_decide_eq_true. Qed.
Lemma list_schema_spec s : is_list_schema s = true <-> asks_list s.
Proof. unfold is_list_schema, asks_list. by rewrite orb_true_iff, has_type_spec. Qed.
Lemma object_schema_spec s : is_object_schema s = true <-> asks_object s.
Proof. unfold is_object_schema, asks_object. rewrite orb_true_iff, has_type_spec. destruct (s_properties s); naive_solver. Qed.
Lemma open_schema_spec s : is_open_schema s = true <-> says_nothing s.
Proof.
  unfold is_open_schema, says_nothing. rewrite !andb_true_iff, !negb_true_iff.
  destruct (s_type s) as [[|]|], (s_properties s), (s_enum s); cbn; naive_solver.
Qed.
Lemma not_true_spec (b : bool) P : (b = true <-> P) -> b = false <-> ~ P.
Proof. intros H. rewrite <- H. by destruct b. Qed.

Lemma includes_same v l : includes_value v l = true <-> exists c, c ∈ l /\ same_value c v.
Proof.
  unfold includes_value. rewrite existsb_exists. split.
  - intros (c & Hc & H). exists c. split; [by apply list_elem_of_In|].
    destruct c, v; try done; [constructor|apply eqb_prop in H as ->; constructor|by constructor|apply String.eqb_eq in H as ->; constructor].
  - intros (c & Hc & H). exists c. split; [by apply list_elem_of_In|].
    destruct H; [done|by apply eqb_true_iff|done|apply String.eqb_refl].
Qed.

Lemma bounds_spec s n q : num_value n = Some q ->
  (match s_minimum s with Some m => num_below n m | None => false end)
  || (match s_maximum s with Some m => num_above n m | None => false end) = false <-> in_bounds s q.
Proof.
  intros Hq. assert (num_q n = q) as Hn by (unfold num_q; by rewrite Hq). unfold in_bounds. rewrite orb_false_iff.
  assert (forall m, num_below n m = false <-> m <> JInf false /\ forall x, num_value m = Some x -> (x <= q)%Q) as Hb.
  { intros m. unfold num_below, num_le. rewrite Hn. destruct m as [z|d| |[]]; rewrite ?negb_false_iff, ?Qle_bool_iff; cbn; naive_solver. }
  assert (forall m, num_above n m = false <-> m <> JInf true /\ forall x, num_value m = Some x -> (q <= x)%Q) as Ha.
  { intros m. unfold num_above, num_le. rewrite Hn. destruct m as [z|d| |[]]; rewrite ?negb_false_iff, ?Qle_bool_iff; cbn; naive_solver. }
  destruct (s_minimum s) as [mi|], (s_maximum s) as [ma|]; rewrite ?Hb, ?Ha; naive_solver.
Qed.

Lemma number_errors_fits s v path :
  number_errors s v path = [] <->
  exists n q, v = JNum n /\ num_value n = Some q /\ (has_type s "integer" = true -> num_is_safe_integer n = true) /\ in_bounds s q.
Proof.
  unfold number_errors. destruct v as [| |n| | |]; try (split; [done|by intros (? & ? & ? & _)]).
  destruct (num_value n) as [q|] eqn:Eq.
  - assert (num_is_finite n = true) as -> by by destruct n. cbn [negb orb].
    destruct (has_type s "integer" && negb (num_is_safe_integer n)) eqn:Ei.
    + split; [done|]. to_prop. intros (m & q' & [= <-] & _ & Hm & _). rewrite Hm in *; done.
    + rewrite if_nil_iff, (bounds_spec _ _ _ Eq). apply andb_false_iff in Ei. split.
      * intros H. exists n, q. split; [done|]. split; [done|]. split; [|done]. intros E. destruct Ei as [|Ei]; [congruence|by apply negb_false_iff in Ei].
      * intros (m & q' & [= <-] & E' & _ & H). rewrite Eq in E'. by injection E' as <-.
  - assert (num_is_finite n = false) as -> by by destruct n. split; [done|]. intros (m & q & [= <-] & E & _). congruence.
Qed.

Lemma safe_range n : num_is_safe_integer n = true <-> exists z, n = JInt z /\ -9007199254740991 <= z <= 9007199254740991.
Proof.
  destruct n as [z| | |]; cbn; [rewrite is_safe_integer_spec|split; [done|by intros (? & ? & _)]..].
  split; [intros H; exists z; split; [done|]; lia|intros (y & [= ->] & H); lia].
Qed.

Lemma leaf_errors_fits s v path : leaf_errors s v path = [] <-> leaf_fits s v.
Proof.
  unfold leaf_errors. rewrite !app_nil_iff, !if_nil_iff, !andb_false_iff, !negb_false_iff.
  split.
  - intros (H1 & H2 & H3 & H4). split.
    + intros cs E. rewrite E in H1. apply includes_same. by destruct (includes_value v cs).
    + intros E%has_type_spec. destruct H2 as [|H2]; [congruence|]. destruct v; eauto; done.
    + intros E%has_type_spec. destruct H3 as [|H3]; [congruence|]. destruct v; eauto; done.
    + intros E%has_type_spec. rewrite E in H4. cbn [orb] in H4. apply number_errors_fits in H4 as (n & q & -> & ? & _ & ?). eauto.
    + intros E. pose proof E as E'%has_type_spec. rewrite E', orb_true_r in H4. apply number_errors_fits in H4 as (n & q & -> & Hq & H4 & ?).
      apply safe_range in H4 as (z & -> & Hz); [|done]. injection Hq as <-. eauto.
  - intros [H1 H2 H3 H4 H5]. split; [|split; [|split]].
    + destruct (s_enum s); [|done]. by rewrite (proj2 (includes_same _ _) (H1 _ eq_refl)).
    + destruct (has_type s "string") eqn:E; [right|by left]. apply has_type_spec in E. by destruct (H2 E) as [t ->].
    + destruct (has_type s "boolean") eqn:E; [right|by left]. apply has_type_spec in E. by destruct (H3 E) as [t ->].
    + destruct (has_type s "integer") eqn:Ei.
      * rewrite orb_true_r. apply number_errors_fits. apply has_type_spec in Ei as Ei'. destruct (H5 Ei') as (z & -> & Hz & Hb).
        exists (JInt z), (inject_Z z). split; [done|]. split; [done|]. split; [|done]. intros _. apply safe_range. eauto.
      * rewrite orb_false_r. destruct (has_type s "number") eqn:En; [|done]. apply number_errors_fits.
        apply has_type_spec in En. destruct (H4 En) as (n & q & -> & Hq & Hb). exists n, q. split; [done|]. split; [done|]. split; [congruence|done].
Qed.

(** Where the value is not the container its schema asks for. *)
Definition other_errors (s : Schema) (v : json) (path : string) : list string :=
  if is_list_schema s then [(path +:+ " must be a list.")%string]
  else if is_object_schema s then [(path +:+ " must be an object.")%string]
  else leaf_errors s v path.
Lemma open_asks s : says_nothing s -> ~ asks_list s /\ ~ asks_object s.
Proof. intros (H1 & H2 & H3 & H4). unfold asks_list, asks_object. rewrite H2, H3. split; intros [?|?]; try done; destruct H1; congruence. Qed.
Lemma other_errors_fits s v path :
  (asks_list s -> match v with JArr _ => False | _ => True end) ->
  (asks_object s -> ~ asks_list s -> match v with JObj _ => False | _ => True end) ->
  ~ (v = JNull /\ says_nothing s) ->
  other_errors s v path = [] <-> Fits s v.
Proof.
  intros Hl Ho Hn. unfold other_errors. destruct (is_list_schema s) eqn:El; [apply list_schema_spec in El|apply (not_true_spec _ _ (list_schema_spec s)) in El].
  - split; [done|]. specialize (Hl El). inversion 1; subst; [by destruct Hn|done..].
  - destruct (is_object_schema s) eqn:Eo; [apply object_schema_spec in Eo|apply (not_true_spec _ _ (object_schema_spec s)) in Eo].
    + split; [done|]. specialize (Ho Eo El). inversion 1; subst; [by destruct Hn|done..].
    + rewrite leaf_errors_fits. split; [by apply fits_leaf|]. inversion 1; subst; [by destruct Hn|done..].
Qed.

Lemma item_schema_of s v : asks_list s -> (forall t, Fits empty_schema t) ->
  Fits (item_schema s) v <-> forall child, item_of s child -> Fits child v.
Proof.
  intros _ Hany. unfold item_schema. destruct (s_array s) eqn:Ea.
  - destruct s as [t ti e mi ma a i r p]. cbn in Ea. destruct a as [[]|]; try done. cbn. split.
    + intros H child Hc. inversion Hc; subst; [done|discriminate].
    + intros H. apply H. constructor.
  - split.
    + intros H child Hc. inversion Hc as [|? ? _ Ei]; subst; [discriminate|]. by rewrite Ei in H.
    + intros H. destruct (s_items s) as [it|] eqn:Ei; [apply H; by constructor|apply Hany].
Qed.

(** A schema that is not given accepts everything. *)
Lemma empty_fits v : Fits empty_schema v.
Proof.
  assert (says_nothing empty_schema) as Hs by (split; [by left|done]). destruct (open_asks _ Hs).
  destruct v; [by apply fits_null|..]; (apply fits_leaf; [done|done|by intros [? _]|by split]).
Qed.

Lemma missing_errors_nil s fs path : missing_errors s fs path = [] <-> forall key, key ∈ s_required s -> key ∈ map fst fs.
Proof.
  unfold missing_errors. induction (s_required s) as [|k l IH]; [split; [by intros _ ? ?%elem_of_nil|done]|].
  rewrite omap_cons. destruct (assoc_has k fs) eqn:E.
  - rewrite IH. apply assoc_has_true in E. split.
    + intros H key [->|?]%elem_of_cons; auto.
    + intros H key ?. apply H. by right.
  - split; [done|]. intros H. specialize (H k ltac:(by left)). apply assoc_has_true in H. congruence.
Qed.

Lemma validate_fits s v path : validate s v path = [] <-> Fits s v.
Proof.
  revert s path; induction v as [|b|n|t|values IH|fs IH] using json_ind'; intros s path; cbn [validate];
    fold (other_errors s JNull path).
  2-4: apply other_errors_fits; [done|done|by intros [? _]].
  - destruct (is_open_schema s) eqn:E.
    2: { apply (not_true_spec _ _ (open_schema_spec s)) in E. apply other_errors_fits; [done|done|by intros [_ ?]]. }
    apply open_schema_spec in E. destruct (s_required s) eqn:Er; split; try done; [by constructor|].
    inversion 1; subst; [congruence|]. match goal with H : ~ (JNull = JNull /\ _) |- _ => by destruct H end.
  - fold (other_errors s (JArr values) path).
    destruct (is_list_schema s) eqn:El; [apply list_schema_spec in El|apply (not_true_spec _ _ (list_schema_spec s)) in El].
    2: { apply other_errors_fits; [done|done|by intros [? _]]. }
    transitivity (forall v, v ∈ values -> Fits (item_schema s) v).
    + generalize 0. induction IH as [|v l Hv _ IHl]; intros i; [split; [by intros _ ? ?%elem_of_nil|done]|].
      rewrite app_nil_iff, Hv, IHl. split.
      * intros [H1 H2] w [->|?]%elem_of_cons; auto.
      * intros H. split; [apply H; by left|intros w ?; apply H; by right].
    + split.
      * intros H. apply fits_list; [done|]. intros v child Hv. by apply item_schema_of, H; [|apply empty_fits|].
      * inversion 1; subst; [|done]. intros v Hv. apply item_schema_of; [done|apply empty_fits|]. eauto.
  - fold (other_errors s (JObj fs) path).
    destruct (is_list_schema s) eqn:El; [apply list_schema_spec in El|apply (not_true_spec _ _ (list_schema_spec s)) in El].
    { apply other_errors_fits; [done|done|by intros [? _]]. }
    destruct (is_object_schema s) eqn:Eo; [apply object_schema_spec in Eo|apply (not_true_spec _ _ (object_schema_spec s)) in Eo].
    2: { apply other_errors_fits; [done|done|by intros [? _]]. }
    rewrite app_nil_iff, missing_errors_nil.
    transitivity ((forall key, key ∈ s_required s -> key ∈ map fst fs) /\
                  (forall key v p, (key, v) ∈ fs -> property s key = Some p -> Fits p v)).
    + apply and_iff_compat_l. clear El Eo. induction IH as [|[k v] l Hv _ IHl]; [split; [by intros _ ? ? ? ?%elem_of_nil|done]|].
      rewrite app_nil_iff, IHl. cbn [snd] in Hv. split.
      * intros [H1 H2] key w p [[= -> ->]|?]%elem_of_cons Hp; [rewrite Hp in H1; by apply Hv in H1|by eapply H2].
      * intros H. split; [|intros key w p ?; apply H; by right].
        destruct (property s k) as [p|] eqn:Hp; [|done]. apply Hv. eapply H; [by left|done].
    + unfold property. split.
      * intros [H1 H2]. constructor; [done|done|done|]. intros key v ps p Hin Hps Hp. apply (H2 key v p Hin). by rewrite Hps.
      * inversion 1; subst; [|done]. split; [done|]. intros key v p Hin Hp. destruct (s_properties s) as [ps|] eqn:Eps; [|done]. eauto.
Qed.

(** ** When a definition runs *)

Section runnable.
Context (source_valid schedule_valid : json -> bool) (methods : list MethodDefinition).

(** A step that can run names an installed method, the first of its plugin and name, which can run for the
    trigger and whose schema, if it has one, accepts the step's parameters ([null] stands for none). *)
Definition step_runs (trigger : string) (step : Step) : Prop :=
  exists before method after, methods = before ++ method :: after /\
    names (m_pluginName method) (m_name method) (step_method step) /\
    (forall x, x ∈ before -> ~ (m_pluginName x = m_pluginName method /\ m_name x = m_name method)) /\
    can_run_for (m_types method) trigger /\
    forall s, m_schema method = Some s -> Fits s (match step_config step with JNull => JObj [] | c => c end).

(** A source (or schedule) that is given is valid. *)
Definition given_valid (valid : json -> bool) (v : option json) : Prop :=
  forall c, v = Some c -> c <> JNull -> valid c = true.
Definition given (v : option json) : Prop := exists c, v = Some c /\ c <> JNull.

Record Runnable (d : Document) : Prop := {
  runs_trigger : exists t, d_trigger d = trigger_value t;
  runs_source : d_trigger d = "Schedule"%string \/ d_trigger d = "AssetChanged"%string -> given (d_source d);
  runs_schedule : d_trigger d = "Schedule"%string -> given (d_schedule d);
  runs_source_valid : given_valid source_valid (d_source d);
  runs_schedule_valid : given_valid schedule_valid (d_schedule d);
  runs_steps : forall step, step ∈ d_steps d -> step_runs (d_trigger d) step
}.

Lemma present_given v : present v = true <-> given v.
Proof.
  unfold given. split.
  - intros H. destruct v as [c|]; [|done]. exists c. split; [done|]. by destruct c.
  - intros (c & -> & Hc). by destruct c.
Qed.
Lemma invalid_given valid v : invalid valid v = false <-> given_valid valid v.
Proof.
  unfold invalid, given_valid. split.
  - intros H c -> Hc. apply andb_false_iff in H as [H|H]; [by destruct c|by apply negb_false_iff in H].
  - intros H. destruct v as [c|]; [|done]. assert (c = JNull \/ c <> JNull) as [->|Hc] by (destruct c; [by left|right; discriminate..]); [done|].
    rewrite (H c eq_refl Hc). apply andb_false_r.
Qed.

Lemma resolves_first method found : resolveDefinitionMethod methods method = Some found <->
  exists before after, methods = before ++ found :: after /\ names (m_pluginName found) (m_name found) method /\
    forall x, x ∈ before -> ~ (m_pluginName x = m_pluginName found /\ m_name x = m_name found).
Proof using Type.
  unfold resolveDefinitionMethod. split.
  - destruct (parseMethodString method) as [r|] eqn:Er; [|done].
    intros (before & after & -> & Hp & Hb)%find_split. to_prop. exists before, after. split; [done|].
    split; [apply parse_names; by exists r|]. intros x Hx [E1 E2]. specialize (Hb x Hx). rewrite E1, E2 in Hb.
    match goal with H : m_pluginName _ = _ |- _ => rewrite H in Hb end. match goal with H : m_name found = _ |- _ => rewrite H in Hb end.
    by rewrite !String.eqb_refl in Hb.
  - intros (before & after & -> & (r & -> & Ep & Em)%parse_names & Hb). rewrite Ep, Em. clear Ep Em.
    induction before as [|x before IH]; cbn; [by rewrite !String.eqb_refl|].
    destruct (String.eqb (m_pluginName x) _ && String.eqb (m_name x) _) eqn:E.
    + to_prop. destruct (Hb x); [by left|done].
    + apply IH. intros y Hy. apply Hb. by right.
Qed.

Lemma step_issues_nil d i step : isKnownTrigger (d_trigger d) = true ->
  step_issues methods d i step = [] <-> step_runs (d_trigger d) step.
Proof using Type.
  clear source_valid schedule_valid.
  intros Hk. set (c := match step_config step with JNull => JObj [] | c => c end).
  transitivity (exists m, resolveDefinitionMethod methods (step_method step) = Some m /\ can_run_for (m_types m) (d_trigger d) /\
    forall s, m_schema m = Some s -> Fits s c).
  - unfold step_issues. destruct (resolveDefinitionMethod _ _) as [m|]; [|split; [done|by intros (m & ? & _)]].
    rewrite Hk. cbn [andb]. rewrite app_nil_iff, if_nil_iff, negb_false_iff, compatible_can_run. cbn [validateStepConfig]. fold c.
    assert ((forall s, m_schema m = Some s -> Fits s c) <-> Fits (default empty_schema (m_schema m)) c) as Hsch.
    { destruct (m_schema m) as [s|]; cbn; [naive_solver|split; [intros _; apply empty_fits|done]]. }
    match goal with |- context [validate ?s c ?p] => pose proof (validate_fits s c p) as Hv; destruct (validate s c p) eqn:E end.
    + split; [intros [? _]; exists m; rewrite Hsch, <- Hv; done|intros (m' & [= <-] & ? & ?); done].
    + split; [by intros [_ ?]|]. intros (m' & [= <-] & _ & H). by apply Hsch, Hv in H.
  - setoid_rewrite resolves_first. unfold step_runs. naive_solver.
Qed.

Lemma steps_issues_nil d i steps : isKnownTrigger (d_trigger d) = true ->
  steps_issues methods d i steps = [] <-> forall step, step ∈ steps -> step_runs (d_trigger d) step.
Proof using Type.
  intros Hk. revert i; induction steps as [|s l IH]; intros i; [split; [by intros _ ? ?%elem_of_nil|done]|].
  cbn [steps_issues]. rewrite app_nil_iff, step_issues_nil, IH by done. split.
  - intros [H1 H2] t [->|?]%elem_of_cons; auto.
  - intros H. split; [apply H; by left|intros t ?; apply H; by right].
Qed.
End runnable.

Lemma steps_issues_at methods d i steps x n :
  x ∈ steps_issues methods d i steps -> issue_step x = Some n ->
  exists k step, steps !! k = Some step /\ n = i + Z.of_nat k /\ step_issues methods d n step <> [].
Proof.
  revert i; induction steps as [|s l IH]; intros i; [by intros ?%elem_of_nil|].
  cbn [steps_issues]. intros [Hx|Hx]%elem_of_app Hn.
  - exists 0%nat, s. split; [done|]. assert (n = i) as ->.
    { unfold step_issues in Hx. destruct (resolveDefinitionMethod _ _).
      - apply elem_of_app in Hx as [Hx|Hx]; [destruct (_ && _)|destruct (validateStepConfig _ _ _)];
          try (by apply elem_of_nil in Hx); apply list_elem_of_singleton in Hx as ->; by injection Hn.
      - apply list_elem_of_singleton in Hx as ->. by injection Hn. }
    split; [lia|]. intros E. rewrite E in Hx. by apply elem_of_nil in Hx.
  - destruct (IH _ Hx Hn) as (k & step & Hk & -> & He). exists (S k), step. split; [done|]. split; [lia|].
    by replace (i + 1 + Z.of_nat k) with (i + Z.of_nat (S k)) in * by lia.
Qed.
Lemma steps_issues_of methods d i steps k step :
  steps !! k = Some step -> step_issues methods d (i + Z.of_nat k) step <> [] ->
  exists x, x ∈ steps_issues methods d i steps /\ issue_step x = Some (i + Z.of_nat k).
Proof.
  revert i k; induction steps as [|s l IH]; intros i [|k]; try done; cbn [lookup list_lookup steps_issues].
  - intros [= ->] H. rewrite Z.add_0_r in *.
    destruct (step_issues methods d i step) as [|x xs] eqn:E; [done|]. exists x. split; [by left|].
    unfold step_issues in E. destruct (resolveDefinitionMethod _ _); [|by injection E as <- _].
    destruct (_ && _); [by injection E as <- _|]. destruct (validateStepConfig _ _ _); [done|]. by injection E as <- _.
  - intros Hk. replace (i + Z.of_nat (S k)) with ((i + 1) + Z.of_nat k) by lia. intros H.
    destruct (IH (i + 1) k Hk H) as (x & Hx & Ex). exists x. split; [apply elem_of_app; by right|done].
Qed.

Lemma trigger_issues_no_step sv scv d x n : issue_step x = Some n ->
  x ∈ workflowIssues sv scv [] (mkDocument (d_source d) (d_schedule d) (d_trigger d) (d_extra d) []) -> False.
Proof.
  intros Hn. unfold workflowIssues. cbn [d_trigger d_source d_schedule d_steps steps_issues].
  rewrite app_nil_r. rewrite !elem_of_app. intros [H|[H|[H|H]]]; revert H; case_match;
    rewrite ?elem_of_nil, ?list_elem_of_singleton; try done; by intros ->.
Qed.

(** C38. A definition has no issue exactly when it can run: its trigger is one this server offers, it
    has the source and the schedule its trigger needs and those it has are valid, and every one of its
    steps, the disabled ones too, names the plugin and the method of an installed one (with or without a
    version, which is passed over) that runs on what the trigger hands over and, if it declares a schema,
    has parameters that fit it: in a list each item, in an object the required fields and each declared
    one, else the choice, the type and the range.  For an offered trigger a step is reported exactly
    when that step could not run. *)
Theorem workflowIssues_runnable (source_valid schedule_valid : json -> bool) (methods : list MethodDefinition) (d : Document) :
  (workflowIssues source_valid schedule_valid methods d = [] <-> Runnable source_valid schedule_valid methods d) /\
  ((exists t, d_trigger d = trigger_value t) -> forall n,
     (exists issue, issue ∈ workflowIssues source_valid schedule_valid methods d /\ issue_step issue = Some n) <->
     (exists k step, d_steps d !! k = Some step /\ n = Z.of_nat k /\ ~ step_runs methods (d_trigger d) step)).
Proof.
  split.
  - unfold workflowIssues. rewrite !app_nil_iff, !if_nil_iff, !andb_false_iff, !orb_false_iff, !invalid_given, !negb_false_iff, !present_given.
    assert (((if isKnownTrigger (d_trigger d) then [] else [mkIssue None TriggerUnavailable "This trigger is unavailable."]) = [])
      <-> isKnownTrigger (d_trigger d) = true) as -> by (by destruct (isKnownTrigger _)).
    split.
    + intros (Hk & Hs & Hsc & (Hsv & Hscv) & Hst). rewrite steps_issues_nil in Hst by done. split; try done.
      * by apply isKnownTrigger_spec.
      * intros [E|E]; rewrite E in Hs; by destruct Hs as [[? ?]|?].
      * intros E. rewrite E in Hsc. by destruct Hsc.
    + intros [Ht Hs Hsc Hsv Hscv Hst]. apply isKnownTrigger_spec in Ht. rewrite steps_issues_nil by done.
      repeat split; try done.
      * destruct (String.eqb_spec (d_trigger d) "Schedule"); [right; auto|].
        destruct (String.eqb_spec (d_trigger d) "AssetChanged"); [right; auto|by left].
      * destruct (String.eqb_spec (d_trigger d) "Schedule"); [right; auto|by left].
  - intros Hk%isKnownTrigger_spec n. assert (forall issue, issue_step issue = Some n ->
      issue ∈ workflowIssues source_valid schedule_valid methods d <-> issue ∈ steps_issues methods d 0 (d_steps d)) as Hin.
    { intros x Hx. pose proof (trigger_issues_no_step source_valid schedule_valid d x n Hx) as Hno.
      unfold workflowIssues in *. cbn [d_trigger d_source d_schedule d_steps steps_issues] in Hno.
      rewrite app_nil_r in Hno. rewrite !elem_of_app in *. tauto. }
    split.
    + intros (x & Hx & Hn). apply Hin in Hx; [|done]. destruct (steps_issues_at _ _ _ _ _ _ Hx Hn) as (k & step & ? & -> & He).
      exists k, step. rewrite step_issues_nil in He by done. done.
    + intros (k & step & Hst & -> & Hno). rewrite <- (step_issues_nil methods d (0 + Z.of_nat k)) in Hno by done.
      destruct (steps_issues_of _ _ _ _ _ _ Hst Hno) as (x & Hx & Ex). exists x. split; [|done]. by apply Hin.
Qed.


(** A count within its range runs; one past it is reported at its step. *)
Lemma past_range_reported : exists issue,
  issue ∈ workflowIssues (fun _ => true) (fun _ => true) [sample_method] (sample_document 12) /\ issue_step issue = Some 0.
Proof. rewrite issues_range. eexists. split; [by left|done]. Qed.
Lemma workflowIssues_runnable_witness :
  Runnable (fun _ => true) (fun _ => true) [sample_method] (sample_document 4) /\
  exists k step, d_steps (sample_document 12) !! k = Some step /\ 0 = Z.of_nat k /\ ~ step_runs [sample_method] "AssetCreate" step.
Proof.
  exact (conj (proj1 (proj1 (workflowIssues_runnable (fun _ => true) (fun _ => true) [sample_method] (sample_document 4))) issues_none)
    (proj1 (proj2 (workflowIssues_runnable (fun _ => true) (fun _ => true) [sample_method] (sample_document 12))
              (ex_intro _ AssetCreate eq_refl) 0) past_range_reported)).
Defined.
