(* ===== verification/AlbumTree.v ===== *)
(** * Album directory

    [src/server/src/utils/album-tree.ts]: the one-level directory ([buildAlbumTree]), a person's order
    of it ([orderAlbumTree], [albumOrderGroup]) and the recursive view that trusts no stored parent
    ([buildAlbumHierarchy]).

    Of an album only what these functions read is kept: its id, kind, parent and item count.  A
    [Map] or [Set] is an association list or a list in insertion order.  The nodes of the recursive
    view are shared objects that the code links by mutation; here they are the entries of a map from
    ids, the links are the lists of children, and [album_node] reads the linked nodes as a tree. *)

From S2P Require Import Prelude JsNumber.
Local Open Scope Z_scope.

Inductive AlbumKind : Type := KAlbum | KCollection | KSpace.
#[export] Instance AlbumKind_eq_dec : EqDecision AlbumKind.
Proof. solve_decision. Defined.

Record Album := mkAlbum { id : string; kind : AlbumKind; parentId : option string; assetCount : Z }.
#[export] Instance Album_eq_dec : EqDecision Album.
Proof. solve_decision. Defined.

Definition is_kind (k : AlbumKind) (a : Album) : bool := bool_decide (kind a = k).

(** ** The one-level directory *)

Record Shelf := mkShelf { collection : Album; shelf_albums : list Album; albumCount : Z; shelf_assetCount : Z }.
Record AlbumTree := mkTree { collections : list Shelf; albums : list Album; spaces : list Album }.

(** [membersByParent.get(parentId)?.push(album)], or a new group. *)
Definition push_member (parent : string) (album : Album) (members : list (string * list Album)) : list (string * list Album) :=
  match assoc_get parent members with
  | Some l => assoc_set parent (l ++ [album]) members
  | None => assoc_set parent [album] members
  end.

Definition tree_step (collectionIds : list string) (acc : list Album * list (string * list Album)) (album : Album)
  : list Album * list (string * list Album) :=
  let '(standalone, members) := acc in
  let hasCollection := match parentId album with Some p => includes p collectionIds | None => false end in
  let members' := match parentId album with
                  | Some p => if hasCollection then push_member p album members else members
                  | None => members end in
  let no_parent := match parentId album with Some p => String.eqb p "" | None => true end in
  (if no_parent || negb hasCollection then standalone ++ [album] else standalone, members').

Definition shelf_of (members : list (string * list Album)) (c : Album) : Shelf :=
  let l := default [] (assoc_get (id c) members) in
  mkShelf c l (Z.of_nat (length l)) (fold_left (fun total album => total + assetCount album) l (assetCount c)).

Definition buildAlbumTree (all : list Album) : AlbumTree :=
  let cs := List.filter (is_kind KCollection) all in
  let collectionIds := map id cs in
  let '(standalone, members) := fold_left (tree_step collectionIds) (List.filter (is_kind KAlbum) all) ([], []) in
  mkTree (map (shelf_of members) cs) standalone (List.filter (is_kind KSpace) all).

(** ** A person's order *)

Definition position_or_last (positions : list (string * Z)) (key : string) : Z :=
  default MAX_SAFE_INTEGER (assoc_get key positions).

Section order.
Context {A : Type} (positions : list (string * Z)) (idOf : A -> string).
Definition order_cmp (l r : A * Z) : Z :=
  or_cmp (position_or_last positions (idOf l.1) - position_or_last positions (idOf r.1)) (l.2 - r.2).
Fixpoint with_index (i : Z) (items : list A) : list (A * Z) :=
  match items with [] => [] | x :: rest => (x, i) :: with_index (i + 1) rest end.
Definition order (items : list A) : list A := map fst (sort_by order_cmp (with_index 0 items)).
End order.

Definition orderAlbumTree (tree : AlbumTree) (positions : list (string * Z)) : AlbumTree :=
  match positions with
  | [] => tree
  | _ =>
      mkTree
        (map (fun node => mkShelf (collection node) (order positions id (shelf_albums node)) (albumCount node) (shelf_assetCount node))
             (order positions (fun node => id (collection node)) (collections tree)))
        (order positions id (albums tree)) (order positions id (spaces tree))
  end.

(** [new Map(items.map((item) => [key, item]))]. *)
Definition by_id (items : list Album) : list (string * Album) :=
  fold_left (fun m item => assoc_set (id item) item m) items [].

(** [album.parentId ? map.get(album.parentId) : undefined]. *)
Definition parent_in (nodes : list (string * Album)) (item : Album) : option Album :=
  match parentId item with Some p => if String.eqb p "" then None else assoc_get p nodes | None => None end.

Definition albumOrderGroup (items : list Album) (parent : option string) (firstId : string) (hierarchy : bool) : option (list string) :=
  if hierarchy then
    let visible := by_id items in
    let bad := match parent with
               | Some p => match assoc_get p visible with Some a => is_kind KSpace a | None => true end
               | None => false end in
    if bad then None else
    match assoc_get firstId visible with
    | None => None
    | Some first =>
        Some (map id (List.filter (fun item =>
          let effectiveParent := match parent_in visible item with
            | Some p => if negb (is_kind KSpace item) && negb (is_kind KSpace p) then Some (id p) else None
            | None => None end in
          bool_decide (effectiveParent = parent) &&
          (match parent with Some _ => true | None => Bool.eqb (is_kind KSpace item) (is_kind KSpace first) end)) items))
    end
  else
    match parent with
    | Some p =>
        if forallb (fun item => negb (is_kind KCollection item && String.eqb (id item) p)) items then None
        else Some (map id (List.filter (fun item => is_kind KAlbum item && bool_decide (parentId item = Some p)) items))
    | None =>
        match List.find (fun item => String.eqb (id item) firstId) items with
        | None => None
        | Some first =>
            match kind first with
            | KCollection => Some (map id (List.filter (is_kind KCollection) items))
            | KSpace => Some (map id (List.filter (is_kind KSpace) items))
            | KAlbum =>
                let collectionIds := map id (List.filter (is_kind KCollection) items) in
                Some (map id (List.filter (fun item => is_kind KAlbum item &&
                  negb (match parentId item with Some p => negb (String.eqb p "") && includes p collectionIds | None => false end)) items))
            end
        end
    end.

(** ** The recursive view *)

Definition set_parent (p : option string) (a : Album) : Album := mkAlbum (id a) (kind a) p (assetCount a).

(** Drop the parents that cannot be shown: of a space, of an absent album, and a space as parent.
    Kinds are never written, so the order of the entries does not matter. *)
Definition drop_parents (nodes : list (string * Album)) : list (string * Album) :=
  map (fun '(k, album) =>
    let drop := is_kind KSpace album || match parent_in nodes album with Some p => is_kind KSpace p | None => true end in
    (k, if drop then set_parent None album else album)) nodes.

(** The walk up from [current]: the nodes it passed, and the nodes after it cut a cycle.  A missing
    node would be a [TypeError]: [None].  A step adds a node to [path], so [fuel] one above the
    number of nodes is enough ([walk_up_total]). *)
Fixpoint walk_up (fuel : nat) (nodes : list (string * Album)) (checked path : list string) (current : option string)
  : option (list (string * Album) * list string) :=
  match current with
  | None => Some (nodes, path)
  | Some c =>
      if includes c checked then Some (nodes, path) else
      match fuel, assoc_get c nodes with
      | S fuel', Some node =>
          if includes c path then Some (assoc_set c (set_parent None node) nodes, path)
          else walk_up fuel' nodes checked (path ++ [c]) (parentId node)
      | _, _ => None
      end
  end.

Fixpoint cut_cycles (keys : list string) (nodes : list (string * Album)) (checked : list string) : option (list (string * Album)) :=
  match keys with
  | [] => Some nodes
  | key :: rest =>
      match walk_up (S (length nodes)) nodes checked [] (Some key) with
      | Some (nodes', path) => cut_cycles rest nodes' (checked ++ path)
      | None => None
      end
  end.

Definition hierarchy_cmp (positions : list (string * Z)) (a b : Album) : Z :=
  position_or_last positions (id a) - position_or_last positions (id b).

(** [(parent ? parent.children : roots).push(node)]. *)
Definition place (nodes : list (string * Album)) (acc : list Album * list (string * list Album)) (node : Album)
  : list Album * list (string * list Album) :=
  let '(roots, children) := acc in
  match parent_in nodes node with
  | Some parent => (roots, push_member (id parent) node children)
  | None => (roots ++ [node], children)
  end.

Inductive HierarchyNode : Type := Node (album : Album) (children : list HierarchyNode).

(** The linked nodes below an album, as a tree; a link leads to a node further down, so the number
    of nodes bounds the depth. *)
Fixpoint album_node (fuel : nat) (children : list (string * list Album)) (album : Album) : HierarchyNode :=
  match fuel with
  | O => Node album []
  | S fuel' => Node album (map (album_node fuel' children) (default [] (assoc_get (id album) children)))
  end.

Definition buildAlbumHierarchy (all : list Album) (positions : list (string * Z)) : option (list HierarchyNode) :=
  let nodes := drop_parents (by_id all) in
  match cut_cycles (map fst nodes) nodes [] with
  | None => None
  | Some nodes' =>
      let ordered := sort_by (hierarchy_cmp positions) (map snd nodes') in
      let '(roots, children) := fold_left (place nodes') ordered ([], []) in
      Some (map (album_node (length nodes') children) roots)
  end.

Definition demo : list Album :=
  [mkAlbum "a" KAlbum (Some "b") 1; mkAlbum "b" KCollection (Some "a") 2; mkAlbum "c" KAlbum (Some "a") 3;
   mkAlbum "d" KAlbum (Some "x") 4; mkAlbum "e" KSpace (Some "b") 5]%string.
Example demo_hierarchy : buildAlbumHierarchy demo [("e", 0)]%string =
  Some [Node (mkAlbum "e" KSpace None 5) [];
        Node (mkAlbum "a" KAlbum None 1)
          [Node (mkAlbum "b" KCollection (Some "a") 2) []; Node (mkAlbum "c" KAlbum (Some "a") 3) []];
        Node (mkAlbum "d" KAlbum None 4) []]%string.
Proof. vm_compute. reflexivity. Qed.

(** The recursive view cuts the cycle through [a] at [a], which is then shown at the top; the order
    group at the top still follows the stored parents and leaves it out. *)
Example order_group_ignores_cut : albumOrderGroup demo None "d" true = Some ["d"]%string /\
  exists e rest, buildAlbumHierarchy demo [] = Some (Node (mkAlbum "a" KAlbum None 1) e :: rest).
Proof. split; [vm_compute; reflexivity|]. do 2 eexists. vm_compute. reflexivity. Qed.

(** ** Nodes and the parents they name *)

Definition up (nodes : list (string * Album)) (x : string) : option string := assoc_get x nodes ≫= parentId.

(** Nodes as the view keeps them: one per id, and every parent is a node. *)
Record good_nodes (nodes : list (string * Album)) : Prop := {
  good_keys : NoDup (map fst nodes);
  good_id : forall k a, (k, a) ∈ nodes -> id a = k;
  good_parent : forall k a p, (k, a) ∈ nodes -> parentId a = Some p -> p <> ""%string /\ p ∈ map fst nodes
}.

Lemma by_id_from items m : NoDup (map fst m) -> (forall k a, (k, a) ∈ m -> id a = k) ->
  let m' := fold_left (fun m item => assoc_set (id item) item m) items m in
  NoDup (map fst m') /\ (forall k a, (k, a) ∈ m' -> id a = k) /\
  (forall k, k ∈ map fst m' <-> k ∈ map fst m \/ k ∈ map id items).
Proof.
  revert m; induction items as [|x l IH]; intros m Hn Hid; cbn [fold_left map].
  - repeat split; try done; [tauto|]. intros [?|H]; [done|by apply elem_of_nil in H].
  - destruct (IH (assoc_set (id x) x m)) as (H1 & H2 & H3).
    + by apply assoc_set_NoDup.
    + intros k a Hin. apply (elem_assoc_get k a) in Hin; [|by apply assoc_set_NoDup].
      rewrite assoc_get_set in Hin. destruct (decide (k = id x)) as [->|]; [by injection Hin as <-|].
      by apply Hid, assoc_get_Some_elem.
    + split; [done|]. split; [done|]. intros k. rewrite H3, assoc_set_keys, elem_of_cons.
      destruct (decide (id x ∈ map fst m)) as [Hx|Hx].
      * split; [tauto|]. intros [?|[->|?]]; tauto.
      * rewrite elem_of_app, list_elem_of_singleton. tauto.
Qed.
Lemma by_id_spec items : NoDup (map fst (by_id items)) /\ (forall k a, (k, a) ∈ by_id items -> id a = k) /\
  (forall k, k ∈ map fst (by_id items) <-> k ∈ map id items).
Proof.
  destruct (by_id_from items []) as (H1 & H2 & H3); [constructor|by intros ? ? ?%elem_of_nil|].
  split; [done|]. split; [done|]. intros k. rewrite (H3 k). split; [intros [H|]; [by apply elem_of_nil in H|done]|by right].
Qed.

Lemma drop_parents_keys nodes : map fst (drop_parents nodes) = map fst nodes.
Proof. unfold drop_parents. rewrite map_map. apply map_ext. by intros [k a]. Qed.

(** What is left of an album's parent: a node that is not a space, and not above a space. *)
Definition effective (nodes : list (string * Album)) (a : Album) : Album :=
  if is_kind KSpace a || match parent_in nodes a with Some p => is_kind KSpace p | None => true end
  then set_parent None a else a.
Lemma drop_parents_elem nodes k a : (k, a) ∈ drop_parents nodes <-> exists b, (k, b) ∈ nodes /\ a = effective nodes b.
Proof.
  unfold drop_parents, effective. rewrite list_elem_of_fmap. split.
  - intros ([k' b] & [= -> ->] & H). eauto.
  - intros (b & H & ->). by exists (k, b).
Qed.

Lemma drop_parents_good nodes : NoDup (map fst nodes) -> (forall k a, (k, a) ∈ nodes -> id a = k) -> good_nodes (drop_parents nodes).
Proof.
  intros Hn Hid. split.
  - by rewrite drop_parents_keys.
  - intros k a (b & Hb & ->)%drop_parents_elem. apply Hid in Hb. unfold effective. by case_match.
  - intros k a p (b & Hb & ->)%drop_parents_elem. rewrite drop_parents_keys. unfold effective.
    destruct (is_kind KSpace b || _) eqn:E; [done|]. intros Hp. apply orb_false_iff in E as [_ E].
    unfold parent_in in E. rewrite Hp in E. destruct (String.eqb_spec p ""); [done|]. split; [done|].
    apply assoc_has_true. unfold assoc_has. by destruct (assoc_get p nodes).
Qed.

(** Cutting a parent keeps the nodes good, and every other parent. *)
Lemma cut_spec nodes c node : good_nodes nodes -> assoc_get c nodes = Some node ->
  let nodes' := assoc_set c (set_parent None node) nodes in
  good_nodes nodes' /\ map fst nodes' = map fst nodes /\
  (forall x, up nodes' x = if decide (x = c) then None else up nodes x).
Proof.
  intros [Hn Hid Hp] Hc nodes'. pose proof (assoc_get_Some_elem _ _ _ Hc) as Hin.
  assert (map fst nodes' = map fst nodes) as Hk.
  { unfold nodes'. rewrite assoc_set_keys, decide_True; [done|]. apply list_elem_of_fmap. by exists (c, node). }
  assert (forall k a, (k, a) ∈ nodes' -> (k = c /\ a = set_parent None node) \/ (k, a) ∈ nodes) as Helem.
  { intros k a H. apply (elem_assoc_get k a) in H; [|by rewrite Hk]. unfold nodes' in H. rewrite assoc_get_set in H.
    destruct (decide (k = c)) as [->|]; [left; by injection H as <-|right; by apply assoc_get_Some_elem]. }
  split; [split|split; [done|]].
  - by rewrite Hk.
  - intros k a [[-> ->]|H]%Helem; [exact (Hid c node Hin)|by apply Hid].
  - intros k a p [[-> ->]|H]%Helem E; [done|]. rewrite Hk. by eapply Hp.
  - intros x. unfold up, nodes'. rewrite assoc_get_set. by destruct (decide (x = c)).
Qed.

(** ** Chains of parents *)

(** [l] leads from its head up to a node without a parent. *)
Inductive chain (nodes : list (string * Album)) : list string -> Prop :=
| chain_root x : x ∈ map fst nodes -> up nodes x = None -> chain nodes [x]
| chain_up x y l : x ∈ map fst nodes -> up nodes x = Some y -> chain nodes (y :: l) -> chain nodes (x :: y :: l).

Lemma chain_det nodes x y l m : chain nodes (x :: l) -> chain nodes (y :: m) -> up nodes x = up nodes y -> l = m.
Proof.
  intros Hl; remember (x :: l) as xl eqn:E. revert x l y m E.
  induction Hl as [x0 Hx0 Hu|x0 y0 l0 Hx0 Hu Hl IH]; intros x l y m [= -> <-] Hm Heq;
    inversion Hm as [? ? Hu'|? y' l' ? Hu' Hm']; subst; try congruence.
  assert (y0 = y') as -> by congruence. f_equal. by eapply IH.
Qed.
Lemma chain_suffix nodes a x l : chain nodes (a ++ x :: l) -> chain nodes (x :: l).
Proof. induction a as [|y a IH]; [done|]. cbn [app]. inversion 1; subst; [by destruct a|]. apply IH. congruence. Qed.
Lemma chain_keys nodes l x : chain nodes l -> x ∈ l -> x ∈ map fst nodes.
Proof. induction 1; intros Hx; apply elem_of_cons in Hx as [->|Hx]; auto. by apply elem_of_nil in Hx. Qed.
(** Nothing is above itself. *)
Lemma chain_not_above nodes x l : chain nodes (x :: l) -> x ∉ l.
Proof.
  intros H Hx. apply list_elem_of_split in Hx as (a & b & ->).
  pose proof (chain_suffix nodes (x :: a) x b H) as Hb. pose proof (chain_det _ _ _ _ _ H Hb eq_refl) as E.
  apply (f_equal length) in E. rewrite length_app in E. cbn in E. lia.
Qed.
Lemma chain_NoDup nodes l : chain nodes l -> NoDup l.
Proof.
  induction 1 as [x Hx Hu|x y l Hx Hu Hl IH]; [apply NoDup_singleton|]. apply NoDup_cons. split; [|done].
  apply (chain_not_above nodes). by constructor.
Qed.
Lemma chain_length nodes l : chain nodes l -> (length l <= length nodes)%nat.
Proof.
  intros H. rewrite <- (length_map fst nodes). apply submseteq_length, NoDup_submseteq; [by eapply chain_NoDup|].
  intros x Hx. by eapply chain_keys.
Qed.

(** A node from which the parents end. *)
Definition rooted (nodes : list (string * Album)) (x : string) : Prop := exists l, chain nodes (x :: l).
Lemma rooted_step nodes x y : x ∈ map fst nodes -> up nodes x = Some y -> rooted nodes y -> rooted nodes x.
Proof. intros Hx Hu [l Hl]. exists (y :: l). by constructor. Qed.

Lemma rooted_cut nodes nodes' c x : map fst nodes' = map fst nodes ->
  (forall z, up nodes' z = if decide (z = c) then None else up nodes z) -> rooted nodes x -> rooted nodes' x.
Proof.
  intros Hk Hu [l Hl]. remember (x :: l) as xl eqn:E. revert x l E.
  induction Hl as [x0 Hx0 Hx|x0 y l0 Hx0 Hx Hl IH]; intros x l [= -> <-].
  - exists []. constructor; [by rewrite Hk|]. rewrite Hu. by case_decide.
  - destruct (decide (x = c)) as [->|Hne].
    + exists []. constructor; [by rewrite Hk|]. rewrite Hu. by rewrite decide_True.
    + apply rooted_step with y; [by rewrite Hk| |by eapply IH]. rewrite Hu. by rewrite decide_False.
Qed.

(** ** The walk up *)

(** [path] follows the parents and its last node has the parent [current]. *)
Fixpoint links (nodes : list (string * Album)) (path : list string) (current : option string) : Prop :=
  match path with
  | [] => True
  | x :: rest =>
      x ∈ map fst nodes /\ up nodes x = match rest with [] => current | y :: _ => Some y end /\ links nodes rest current
  end.

Lemma links_snoc nodes path c : c ∈ map fst nodes -> links nodes path (Some c) -> links nodes (path ++ [c]) (up nodes c).
Proof.
  intros Hc. induction path as [|x [|y path] IH]; cbn [links app] in *; [done| |].
  - intros (? & ? & _). auto.
  - intros (? & ? & H). split; [done|]. split; [done|]. by apply IH.
Qed.
Lemma links_app nodes a b c : links nodes (a ++ b) c -> links nodes b c /\ links nodes a (match b with [] => c | y :: _ => Some y end).
Proof.
  induction a as [|x a IH]; [done|]. cbn [app links]. intros (Hx & Hu & H). destruct (IH H) as [Hb Ha].
  split; [done|]. split; [done|]. split; [|done]. destruct a; [|done]. cbn [app] in Hu. by destruct b.
Qed.
Lemma links_cut nodes nodes' c path t : map fst nodes' = map fst nodes ->
  (forall z, up nodes' z = if decide (z = c) then None else up nodes z) -> c ∉ path -> links nodes path t -> links nodes' path t.
Proof.
  intros Hk Hu. induction path as [|x path IH]; [done|]. cbn [links]. intros Hc (Hx & E & H). rewrite elem_of_cons in Hc.
  split; [by rewrite Hk|]. split; [|apply IH; tauto]. rewrite Hu, decide_False; [done|]. intros ->. tauto.
Qed.
Lemma links_rooted nodes path current x : links nodes path current -> (forall c, current = Some c -> rooted nodes c) ->
  x ∈ path -> rooted nodes x.
Proof.
  intros Hl Hc. revert x; induction path as [|y path IH]; intros x Hx; [by apply elem_of_nil in Hx|].
  cbn [links] in Hl. destruct Hl as (Hy & Hu & Hl). apply elem_of_cons in Hx as [->|Hx]; [|by apply IH].
  destruct path as [|z path].
  - destruct current as [c|]; [apply (rooted_step nodes y c); auto|]. exists []. by constructor.
  - apply (rooted_step nodes y z); [done|done|]. apply IH; [done|by left].
Qed.
Lemma links_chain nodes x path t l : links nodes (x :: path) (Some t) -> chain nodes (x :: l) -> t ∈ l.
Proof.
  revert x l; induction path as [|y path IH]; intros x l Hl Hch; destruct Hl as (_ & Hu & Hl);
    inversion Hch as [? ? Hu'|? z l' ? Hu' Hch']; subst; try congruence.
  - rewrite Hu in Hu'. injection Hu' as ->. by left.
  - rewrite Hu in Hu'. injection Hu' as ->. right. by eapply IH.
Qed.

Record cut_result (nodes nodes' : list (string * Album)) : Prop := {
  cut_good : good_nodes nodes';
  cut_keys : map fst nodes' = map fst nodes;
  cut_rooted : forall x, rooted nodes x -> rooted nodes' x;
  cut_kept : forall x, rooted nodes x -> assoc_get x nodes' = assoc_get x nodes;
  cut_album : forall k a', (k, a') ∈ nodes' -> exists a, (k, a) ∈ nodes /\ (a' = a \/ a' = set_parent None a)
}.
Lemma cut_result_refl nodes : good_nodes nodes -> cut_result nodes nodes.
Proof. intros H. split; eauto. Qed.
Lemma cut_result_trans n1 n2 n3 : cut_result n1 n2 -> cut_result n2 n3 -> cut_result n1 n3.
Proof.
  intros [A1 A2 A3 A4 A5] [B1 B2 B3 B4 B5]. split; auto; [congruence| |].
  - intros x Hx. rewrite B4, A4; auto.
  - intros k a3 H3. destruct (B5 _ _ H3) as (a2 & H2 & E2). destruct (A5 _ _ H2) as (a1 & H1 & E1). exists a1. split; [done|].
    destruct E1 as [->| ->], E2 as [->| ->]; auto.
Qed.

Lemma assoc_get_key {V} k (l : list (string * V)) : k ∈ map fst l -> exists v, assoc_get k l = Some v.
Proof. intros H%assoc_has_true. unfold assoc_has in H. destruct (assoc_get k l); [eauto|done]. Qed.

(** The walk ends, and every node it passed then has an end above it. *)
(** Cutting the cycle a path has run into: every album of the path then has a root above it. *)
Lemma walk_up_cut nodes path c node :
  good_nodes nodes -> links nodes path (Some c) -> NoDup path -> assoc_get c nodes = Some node -> c ∈ path ->
  let nodes' := assoc_set c (set_parent None node) nodes in
  cut_result nodes nodes' /\ (forall x, x ∈ path -> rooted nodes' x).
Proof.
  intros Hg Hl Hn Hnode Ep nodes'.
  destruct (cut_spec nodes c node Hg Hnode) as (Hg' & Hk' & Hu'). fold nodes' in Hg', Hk', Hu'.
  assert (c ∈ map fst nodes) as Hc by (apply assoc_get_Some_elem in Hnode; apply list_elem_of_fmap; by exists (c, node)).
  assert (rooted nodes' c) as Hrc.
  { exists []. constructor; [rewrite Hk'; auto|]. rewrite Hu'. by rewrite decide_True. }
  pose proof Ep as Ep'. apply list_elem_of_split in Ep' as (a & b & Eab). rewrite Eab in Hl, Hn.
  apply NoDup_app in Hn as (_ & Hna & Hnb). apply NoDup_cons in Hnb as [Hnb _].
  destruct (links_app _ _ _ _ Hl) as [Hcb Hca].
  assert (~ rooted nodes c) as Hnr.
  { intros [l Hl']. eapply chain_not_above; [exact Hl'|]. by eapply links_chain. }
  split.
  + split; auto.
    * intros x. by apply rooted_cut with c.
    * intros x Hx. unfold nodes'. rewrite assoc_get_set_ne; [done|]. intros ->. done.
    * intros k a' H. destruct (decide (k = c)) as [->|Hne].
      -- exists node. split; [by apply assoc_get_Some_elem|]. right.
         apply (elem_assoc_get c a') in H; [|apply Hg']. unfold nodes' in H. rewrite assoc_get_set_eq in H. by injection H.
      -- exists a'. split; [|by left]. apply assoc_get_Some_elem. apply (elem_assoc_get k a') in H; [|apply Hg'].
         unfold nodes' in H. by rewrite assoc_get_set_ne in H.
  + intros x Hx. rewrite Eab in Hx. rewrite elem_of_app, elem_of_cons in Hx.
    assert (c ∉ a) as Hna' by (intros H; apply (Hna c H); by left).
    destruct Hx as [Hx|[->|Hx]]; [|done|].
    * apply (links_rooted nodes' a (Some c)); [by apply (links_cut nodes nodes' c)|by intros ? [= <-]|done].
    * apply (links_rooted nodes' b (Some c)); [apply (links_cut nodes nodes' c); try done; apply Hcb|by intros ? [= <-]|done].
Qed.

Lemma walk_up_total fuel nodes checked path current :
  good_nodes nodes -> links nodes path current -> NoDup path -> (forall x, x ∈ path -> x ∈ map fst nodes) ->
  (forall c, current = Some c -> c ∈ map fst nodes) -> (forall x, x ∈ checked -> rooted nodes x) ->
  (fuel + length path = S (length nodes))%nat ->
  exists nodes' path', walk_up fuel nodes checked path current = Some (nodes', path') /\ cut_result nodes nodes' /\
    (forall x, x ∈ path' -> rooted nodes' x) /\ (forall c, current = Some c -> c ∈ path' \/ c ∈ checked) /\
    (forall x, x ∈ path -> x ∈ path').
Proof.
  intros Hg. revert path current; induction fuel as [|fuel IH]; intros path current Hl Hn Hk Hc Hch Hf.
  { assert (length path <= length nodes)%nat; [|cbn in *; lia]. rewrite <- (length_map fst nodes).
    apply submseteq_length, NoDup_submseteq; auto. }
  destruct current as [c|]; cbn [walk_up].
  2: { exists nodes, path. split; [done|]. split; [by apply cut_result_refl|]. repeat split; try done.
       intros x. by eapply links_rooted. }
  destruct (includes c checked) eqn:Eck.
  { apply includes_true in Eck. exists nodes, path. split; [done|]. split; [by apply cut_result_refl|]. repeat split; try done.
    - intros x. eapply links_rooted; [done|]. intros ? [= <-]. auto.
    - intros ? [= <-]. auto. }
  destruct (assoc_get_key c nodes) as [node Hnode]; [auto|]. rewrite Hnode.
  destruct (includes c path) eqn:Ep.
  - apply includes_true in Ep. destruct (walk_up_cut nodes path c node) as [Hcut Hroot]; try done.
    eexists _, path. split; [done|]. split; [exact Hcut|]. split; [exact Hroot|]. split; [|done].
    intros ? [= <-]. by left.
  - apply includes_false in Ep.
    assert (up nodes c = parentId node) as Eu by (unfold up; by rewrite Hnode).
    destruct (IH (path ++ [c]) (parentId node)) as (nodes' & path' & E & Hres & Hp' & _ & Hsub).
    + rewrite <- Eu. apply links_snoc; auto.
    + apply NoDup_app. split; [done|]. split; [|apply NoDup_singleton]. by intros x Hx ->%list_elem_of_singleton.
    + intros x [Hx|Hx]%elem_of_app; [auto|]. apply list_elem_of_singleton in Hx as ->. auto.
    + intros p Hp. apply assoc_get_Some_elem in Hnode. by apply (good_parent nodes Hg c node).
    + done.
    + rewrite length_app. cbn [length]. lia.
    + exists nodes', path'. split; [done|]. split; [done|]. split; [done|]. split.
      * intros ? [= <-]. left. apply Hsub, elem_of_app. right. by left.
      * intros x Hx. apply Hsub, elem_of_app. by left.
Qed.

Lemma cut_cycles_total keys nodes checked :
  good_nodes nodes -> (forall x, x ∈ keys -> x ∈ map fst nodes) -> (forall x, x ∈ checked -> rooted nodes x) ->
  exists nodes', cut_cycles keys nodes checked = Some nodes' /\ cut_result nodes nodes' /\ (forall x, x ∈ keys \/ x ∈ checked -> rooted nodes' x).
Proof.
  revert nodes checked; induction keys as [|k keys IH]; intros nodes checked Hg Hk Hch.
  - exists nodes. split; [done|]. split; [by apply cut_result_refl|]. intros x [H|H]; [by apply elem_of_nil in H|auto].
  - cbn [cut_cycles].
    destruct (walk_up_total (S (length nodes)) nodes checked [] (Some k)) as (n1 & path & -> & H1 & Hp & Hc & _);
      [done|done|constructor|by intros ? ?%elem_of_nil|intros ? [= <-]; apply Hk; by left|done|cbn [length]; lia|].
    destruct (IH n1 (checked ++ path)) as (n2 & E2 & H2 & Hr).
    + by apply H1.
    + intros x Hx. rewrite (cut_keys _ _ H1). apply Hk. by right.
    + intros x [Hx|Hx]%elem_of_app; [apply (cut_rooted _ _ H1)|]; auto.
    + exists n2. split; [done|]. split; [by eapply cut_result_trans|]. intros x [[->|Hx]%elem_of_cons|Hx].
      * apply Hr. right. apply elem_of_app. destruct (Hc k eq_refl); auto.
      * auto.
      * apply Hr. right. apply elem_of_app. by left.
Qed.

(** ** The linked nodes *)

Lemma push_member_get k p a m :
  default [] (assoc_get k (push_member p a m)) = default [] (assoc_get k m) ++ (if decide (k = p) then [a] else []).
Proof.
  unfold push_member. destruct (assoc_get p m) as [l|] eqn:E; rewrite assoc_get_set; destruct (decide (k = p)) as [->|].
  - by rewrite E.
  - by rewrite app_nil_r.
  - by rewrite E.
  - by rewrite app_nil_r.
Qed.

Definition no_parent (nodes : list (string * Album)) (a : Album) : bool := match parent_in nodes a with Some _ => false | None => true end.
Definition child_of (nodes : list (string * Album)) (k : string) (a : Album) : bool := bool_decide (id <$> parent_in nodes a = Some k).

Lemma place_all nodes ordered roots ch :
  let '(roots', ch') := fold_left (place nodes) ordered (roots, ch) in
  roots' = roots ++ List.filter (no_parent nodes) ordered /\
  forall k, default [] (assoc_get k ch') = default [] (assoc_get k ch) ++ List.filter (child_of nodes k) ordered.
Proof.
  revert roots ch; induction ordered as [|a l IH]; intros roots ch; cbn [fold_left List.filter].
  - split; [by rewrite app_nil_r|]. intros k. by rewrite app_nil_r.
  - unfold place at 2, no_parent at 1. destruct (parent_in nodes a) as [p|] eqn:E.
    + specialize (IH roots (push_member (id p) a ch)). destruct (fold_left _ l _) as [r' c']. destruct IH as [Hr Hc].
      split; [done|]. intros k. rewrite Hc, push_member_get, <- app_assoc. f_equal. unfold child_of at 2. rewrite E. cbn [fmap option_fmap option_map].
      destruct (decide (k = id p)) as [->|Hne]; [by rewrite bool_decide_eq_true_2|]. rewrite bool_decide_eq_false_2 by congruence. done.
    + specialize (IH (roots ++ [a]) ch). destruct (fold_left _ l _) as [r' c']. destruct IH as [Hr Hc].
      split; [by rewrite Hr, <- app_assoc|]. intros k. rewrite Hc. unfold child_of at 2. by rewrite E.
Qed.

(** The albums shown in a tree, and that every one hangs under the parent it names. *)
Fixpoint listed (n : HierarchyNode) : list Album :=
  match n with Node a children => a :: flat_map listed children end.
Inductive hangs_under : option string -> HierarchyNode -> Prop :=
| hangs parent a children : parentId a = parent -> (forall c, c ∈ children -> hangs_under (Some (id a)) c) ->
    hangs_under parent (Node a children).

Lemma NoDup_flat_map_ids {A} (g : A -> list Album) l :
  NoDup l -> (forall c, c ∈ l -> NoDup (map id (g c))) ->
  (forall c1 c2 y1 y2, c1 ∈ l -> c2 ∈ l -> y1 ∈ g c1 -> y2 ∈ g c2 -> id y1 = id y2 -> c1 = c2) ->
  NoDup (map id (flat_map g l)).
Proof.
  induction 1 as [|c l Hc Hn IH]; intros Hg Hdis; cbn [flat_map map]; [constructor|]. rewrite map_app.
  apply NoDup_app. split; [apply Hg; by left|]. split.
  - intros i (y1 & -> & H1)%list_elem_of_fmap (y2 & E & H2)%list_elem_of_fmap.
    apply elem_of_flat_map in H2 as (c2 & Hc2 & H2). apply Hc.
    by rewrite (Hdis c c2 y1 y2); [|left|right|..].
  - apply IH; [intros c' ?; apply Hg; by right|]. intros c1 c2 y1 y2 H1 H2. apply Hdis; by right.
Qed.

(** Reading the linked nodes as trees. *)
Section forest.
Context (nodes : list (string * Album)) (Hg : good_nodes nodes) (Hr : forall x, x ∈ map fst nodes -> rooted nodes x).
Context (ordered : list Album) (Hord : Permutation ordered (map snd nodes)).
Context (children : list (string * list Album))
  (Hch : forall k, default [] (assoc_get k children) = List.filter (child_of nodes k) ordered).

Lemma ordered_node a : a ∈ ordered <-> (id a, a) ∈ nodes.
Proof.
  rewrite Hord, list_elem_of_fmap. split.
  - intros ([k b] & -> & H). cbn [snd]. by rewrite (good_id nodes Hg k b H).
  - intros H. by exists (id a, a).
Qed.
Lemma ordered_up a : a ∈ ordered -> up nodes (id a) = parentId a.
Proof.
  intros H%ordered_node. unfold up. by rewrite (elem_assoc_get (id a) a nodes (good_keys nodes Hg) H).
Qed.
Lemma ordered_parent a : a ∈ ordered -> id <$> parent_in nodes a = parentId a.
Proof.
  intros H%ordered_node. unfold parent_in. destruct (parentId a) as [p|] eqn:E; [|done].
  destruct (good_parent nodes Hg _ _ _ H E) as [Hp Hk]. destruct (String.eqb_spec p ""); [done|].
  destruct (assoc_get_key p nodes Hk) as [b Hb]. rewrite Hb. cbn. f_equal. apply (good_id nodes Hg). by apply assoc_get_Some_elem.
Qed.
Lemma ordered_ids : NoDup (map id ordered).
Proof.
  rewrite Hord, map_map. rewrite (map_ext_in _ fst); [apply Hg|]. intros [k a] H. cbn. apply (good_id nodes Hg).
  by apply list_elem_of_In.
Qed.
Lemma ordered_inj a b : a ∈ ordered -> b ∈ ordered -> id a = id b -> a = b.
Proof. apply NoDup_map_inj, ordered_ids. Qed.
Lemma ordered_of_key x : x ∈ map fst nodes -> exists a, a ∈ ordered /\ id a = x.
Proof.
  intros H. destruct (assoc_get_key x nodes H) as [a Ha]. apply assoc_get_Some_elem in Ha.
  pose proof (good_id nodes Hg x a Ha) as <-. exists a. split; [by apply ordered_node|done].
Qed.
Lemma ordered_key a : a ∈ ordered -> id a ∈ map fst nodes.
Proof. intros H%ordered_node. by apply (list_elem_of_fmap_2 fst) in H. Qed.

Lemma children_spec k a : a ∈ default [] (assoc_get k children) <-> a ∈ ordered /\ up nodes (id a) = Some k.
Proof.
  rewrite Hch, elem_of_filter_b. unfold child_of. rewrite bool_decide_eq_true. split; intros [H E]; (split; [done|]).
  - by rewrite ordered_up, <- ordered_parent.
  - by rewrite ordered_parent, <- ordered_up.
Qed.

(** [x] is [y] or above it. *)
Definition above (y x : string) : Prop := exists l, chain nodes (y :: l) /\ x ∈ y :: l.

Lemma above_up y c x : above y c -> up nodes c = Some x -> above y x.
Proof.
  intros (l & Hl & Hc) Hu. exists l. split; [done|]. apply list_elem_of_split in Hc as (a & b & E). rewrite E in *.
  apply chain_suffix in Hl. inversion Hl as [|? z m ? Hu']; subst; [congruence|].
  rewrite Hu in Hu'. injection Hu' as ->. apply elem_of_app. right. right. by left.
Qed.
(** Two nodes above the same one that hang at the same place are the same. *)
Lemma above_siblings y x1 x2 : above y x1 -> above y x2 -> up nodes x1 = up nodes x2 -> x1 = x2.
Proof.
  intros (l & Hl & H1) (l' & Hl' & H2) Hu. assert (l' = l) as -> by (by eapply chain_det).
  apply list_elem_of_split in H1 as (a1 & b1 & E1), H2 as (a2 & b2 & E2).
  pose proof Hl as Hs1. rewrite E1 in Hs1. apply chain_suffix in Hs1.
  rewrite E2 in Hl. apply chain_suffix in Hl. assert (b1 = b2) as -> by (by eapply chain_det).
  rewrite E1 in E2. change (x1 :: b2) with ([x1] ++ b2) in E2. change (x2 :: b2) with ([x2] ++ b2) in E2.
  rewrite !app_assoc in E2. apply app_inv_tail, app_inj_tail in E2. by destruct E2.
Qed.
Lemma above_not_below x c : up nodes c = Some x -> above x c -> False.
Proof.
  intros Hu (l & Hl & Hc). apply list_elem_of_split in Hc as (a & b & E). pose proof Hl as Hs. rewrite E in Hs.
  apply chain_suffix in Hs. inversion Hs as [|? z m ? Hu' Hm]; subst; [congruence|].
  rewrite Hu in Hu'. injection Hu' as ->. pose proof (chain_det _ _ _ _ _ Hl Hm eq_refl) as ->.
  apply (f_equal length) in E. rewrite length_app in E. cbn in E. lia.
Qed.

Lemma listed_above fuel a y : a ∈ ordered -> y ∈ listed (album_node fuel children a) -> y ∈ ordered /\ above (id y) (id a).
Proof.
  assert (forall a, a ∈ ordered -> above (id a) (id a)) as Hself.
  { intros b Hb. destruct (Hr (id b) (ordered_key b Hb)) as [l Hl]. exists l. split; [done|by left]. }
  revert a; induction fuel as [|fuel IH]; intros a Ha; cbn [album_node listed flat_map].
  - intros ->%list_elem_of_singleton. auto.
  - intros [->|Hy]%elem_of_cons; [auto|]. rewrite flat_map_concat_map, map_map, <- flat_map_concat_map in Hy.
    apply elem_of_flat_map in Hy as (c & [Hc Hu]%children_spec & Hy). destruct (IH c Hc Hy) as [Hy' Hab].
    split; [done|]. by eapply above_up.
Qed.

Lemma listed_ids fuel a : a ∈ ordered -> NoDup (map id (listed (album_node fuel children a))).
Proof.
  revert a; induction fuel as [|fuel IH]; intros a Ha; cbn [album_node listed flat_map map]; [apply NoDup_singleton|].
  rewrite flat_map_concat_map, map_map, <- flat_map_concat_map. apply NoDup_cons. split.
  - intros (y & E & Hy)%list_elem_of_fmap. apply elem_of_flat_map in Hy as (c & [Hc Hu]%children_spec & Hy).
    apply listed_above in Hy as [_ Hab]; [|done]. rewrite <- E in Hab. by eapply above_not_below.
  - apply NoDup_flat_map_ids.
    + rewrite Hch. apply NoDup_filter_b. eapply NoDup_fmap_1, ordered_ids.
    + intros c [Hc _]%children_spec. by apply IH.
    + intros c1 c2 y1 y2 [Hc1 Hu1]%children_spec [Hc2 Hu2]%children_spec Hy1 Hy2 E.
      apply listed_above in Hy1 as [_ H1], Hy2 as [_ H2]; try done. rewrite E in H1.
      apply ordered_inj; [done|done|]. apply (above_siblings (id y2)); [done|done|congruence].
Qed.

Lemma listed_complete fuel l1 l2 a y : a ∈ ordered -> y ∈ ordered -> chain nodes (l1 ++ id a :: l2) ->
  head (l1 ++ [id a]) = Some (id y) -> (length l1 <= fuel)%nat -> y ∈ listed (album_node fuel children a).
Proof.
  revert fuel a l2; induction l1 as [|z l1 IH] using rev_ind; intros fuel a l2 Ha Hy Hc Hh Hf.
  - injection Hh as Hh. apply ordered_inj in Hh as ->; [|done|done]. destruct fuel; by left.
  - rewrite length_app in Hf. cbn [length] in Hf. destruct fuel as [|fuel]; [lia|].
    rewrite <- app_assoc in Hc. cbn [app] in Hc. pose proof (chain_suffix _ _ _ _ Hc) as Hz.
    inversion Hz as [|? ? ? Hzk Hu Hz']; subst. destruct (ordered_of_key z Hzk) as (c & Hco & <-).
    cbn [album_node listed]. right. rewrite flat_map_concat_map, map_map, <- flat_map_concat_map.
    apply elem_of_flat_map. exists c. split; [by apply children_spec|].
    apply (IH fuel c (id a :: l2)); try done; [|lia].
    rewrite <- app_assoc in Hh. destruct l1; exact Hh.
Qed.

Lemma hangs_album_node fuel a parent : a ∈ ordered -> parentId a = parent -> hangs_under parent (album_node fuel children a).
Proof.
  revert a parent; induction fuel as [|fuel IH]; intros a parent Ha Hp; cbn [album_node]; constructor; try done.
  - by intros ? ?%elem_of_nil.
  - intros n (c & -> & [Hc Hu]%children_spec)%list_elem_of_fmap. apply IH; [done|]. by rewrite <- ordered_up.
Qed.

Definition forest : list HierarchyNode := map (album_node (length nodes) children) (List.filter (no_parent nodes) ordered).

Lemma root_spec a : a ∈ List.filter (no_parent nodes) ordered <-> a ∈ ordered /\ parentId a = None.
Proof.
  rewrite elem_of_filter_b. unfold no_parent. split; intros [H E]; (split; [done|]).
  - pose proof (ordered_parent a H) as Hp. by destruct (parent_in nodes a).
  - pose proof (ordered_parent a H) as Hp. rewrite E in Hp. by destruct (parent_in nodes a).
Qed.

(** Every node shown once, under the parent it names. *)
Lemma forest_spec :
  NoDup (map id (flat_map listed forest)) /\ (forall a, a ∈ flat_map listed forest <-> a ∈ ordered) /\
  (forall n, n ∈ forest -> hangs_under None n).
Proof.
  unfold forest. rewrite flat_map_concat_map, map_map, <- flat_map_concat_map. split; [|split].
  - apply NoDup_flat_map_ids.
    + apply NoDup_filter_b. eapply NoDup_fmap_1, ordered_ids.
    + intros c [Hc _]%root_spec. by apply listed_ids.
    + intros c1 c2 y1 y2 [Hc1 Hu1]%root_spec [Hc2 Hu2]%root_spec Hy1 Hy2 E.
      apply listed_above in Hy1 as [_ H1], Hy2 as [_ H2]; try done. rewrite E in H1.
      apply ordered_inj; [done|done|]. apply (above_siblings (id y2)); [done|done|]. rewrite !ordered_up; congruence.
  - intros a. rewrite elem_of_flat_map. split.
    + intros (r & [Hr' _]%root_spec & H). by apply listed_above in H as [? _].
    + intros Ha. destruct (Hr (id a) (ordered_key a Ha)) as [l Hl].
      destruct (exists_last (l := id a :: l)) as (l1 & r & E); [done|]. rewrite E in Hl.
      pose proof (chain_suffix _ _ _ _ Hl) as Hs. inversion Hs as [? Hk Hu|]; subst.
      destruct (ordered_of_key r Hk) as (b & Hb & <-). exists b. split; [apply root_spec; split; [done|by rewrite <- ordered_up]|].
      apply (listed_complete (length nodes) l1 []); try done.
      * by rewrite <- E.
      * pose proof (chain_length _ _ Hl) as Hlen. rewrite length_app in Hlen. lia.
  - intros n (r & -> & [Ho Hp]%root_spec)%list_elem_of_fmap. by apply hangs_album_node.
Qed.
End forest.

(** C39. The recursive view of any stored directory, parent cycles and missing parents included, is a
    forest: building it always ends with a result, it shows every album exactly once, every album
    hangs under the parent it names (the roots name none), and an album is as stored save that its
    parent is dropped when it cannot be shown, or when the parents above it run in a cycle; an album
    whose parents end keeps the parent it can be shown under. *)
Theorem buildAlbumHierarchy_forest (all : list Album) (positions : list (string * Z)) :
  exists roots, buildAlbumHierarchy all positions = Some roots /\
  NoDup (map id (flat_map listed roots)) /\
    (forall k, k ∈ map id (flat_map listed roots) <-> k ∈ map id all) /\
    (forall n, n ∈ roots -> hangs_under None n) /\
    (forall a, a ∈ flat_map listed roots -> exists b, assoc_get (id a) (by_id all) = Some b /\
    (a = effective (by_id all) b \/ (a = set_parent None b /\ ~ rooted (drop_parents (by_id all)) (id a)))).
Proof.
  destruct (by_id_spec all) as (Hn & Hid & Hk).
  pose proof (drop_parents_good (by_id all) Hn Hid) as Hg.
  set (nodes := drop_parents (by_id all)) in *.
  destruct (cut_cycles_total (map fst nodes) nodes []) as (nodes' & Ec & Hres & Hrooted); [done|done|by intros ? ?%elem_of_nil|].
  set (ordered := sort_by (hierarchy_cmp positions) (map snd nodes')).
  assert (Permutation ordered (map snd nodes')) as Hperm by apply sort_by_perm.
  assert (exists roots, buildAlbumHierarchy all positions = Some roots /\ NoDup (map id (flat_map listed roots)) /\
  (forall a, a ∈ flat_map listed roots <-> a ∈ ordered) /\ (forall n, n ∈ roots -> hangs_under None n)) as (roots & E & H1 & H2 & H3).
  { unfold buildAlbumHierarchy. fold nodes. rewrite Ec. fold ordered.
    pose proof (place_all nodes' ordered [] []) as Hp. destruct (fold_left _ ordered _) as [roots ch].
    destruct Hp as [-> Hc]. eexists. split; [done|].
    apply (forest_spec nodes' (cut_good _ _ Hres)); try done. intros x Hx. apply Hrooted. left. by rewrite <- (cut_keys _ _ Hres). }
  assert (forall a, a ∈ ordered <-> (id a, a) ∈ nodes') as Hord by (intros a; by apply (ordered_node nodes' (cut_good _ _ Hres))).
  exists roots. split; [done|]. split; [done|]. split; [|split; [done|]].
  - intros k. rewrite <- Hk, <- (drop_parents_keys (by_id all)). fold nodes. rewrite <- (cut_keys _ _ Hres). split.
    + intros (a & -> & Ha%H2%Hord)%list_elem_of_fmap. by apply (list_elem_of_fmap_2 fst) in Ha.
    + intros Hx. destruct (ordered_of_key nodes' (cut_good _ _ Hres) ordered Hperm k Hx) as (a & Ha & <-).
      apply list_elem_of_fmap. exists a. split; [done|]. by apply H2.
  - intros a Ha%H2%Hord. destruct (cut_album _ _ Hres _ _ Ha) as (a1 & Hin & Ea).
    pose proof Hin as (b & Hb & Eb)%drop_parents_elem. exists b. split; [by apply elem_assoc_get|]. subst a1.
    destruct Ea as [Ea|Ea]; [by left|]. destruct (decide (parentId (effective (by_id all) b) = None)) as [En|En].
    + left. rewrite Ea. unfold set_parent. rewrite <- En. by destruct (effective (by_id all) b).
    + right. split; [rewrite Ea; unfold effective; by destruct (_ || _)|]. intros Hro.
      pose proof (cut_kept _ _ Hres _ Hro) as Hkept.
      rewrite (elem_assoc_get _ _ _ (good_keys _ Hg) Hin), (elem_assoc_get _ _ _ (good_keys _ (cut_good _ _ Hres)) Ha) in Hkept.
      injection Hkept as Hkept. apply En. rewrite <- Hkept, Ea. done.
Qed.

(** ** The one-level directory and its order groups *)

(** An album inside a visible collection, and one that stands on its own. *)
Definition inside (cids : list string) (p : string) (a : Album) : bool := bool_decide (parentId a = Some p) && includes p cids.
Definition stands (cids : list string) (a : Album) : bool :=
  negb (match parentId a with Some p => negb (String.eqb p "") && includes p cids | None => false end).

Lemma tree_fold cids l st m :
  let '(st', m') := fold_left (tree_step cids) l (st, m) in
  st' = st ++ List.filter (stands cids) l /\
  forall p, default [] (assoc_get p m') = default [] (assoc_get p m) ++ List.filter (inside cids p) l.
Proof.
  revert st m; induction l as [|a l IH]; intros st m; cbn [fold_left List.filter].
  - split; [by rewrite app_nil_r|]. intros p. by rewrite app_nil_r.
  - set (acc := tree_step cids (st, m) a).
    assert (fst acc = st ++ (if stands cids a then [a] else []) /\
      forall p, default [] (assoc_get p (snd acc)) = default [] (assoc_get p m) ++ (if inside cids p a then [a] else [])) as [Hs Hm].
    { unfold acc, tree_step, stands, inside. destruct (parentId a) as [q|]; cbn [fst snd].
      - split; [destruct (String.eqb q ""), (includes q cids); cbn; by rewrite ?app_nil_r|]. intros p.
        destruct (includes q cids) eqn:E.
        + rewrite push_member_get. f_equal. destruct (decide (p = q)) as [->|]; [by rewrite bool_decide_eq_true_2, E|].
          by rewrite bool_decide_eq_false_2 by congruence.
        + destruct (decide (p = q)) as [->|]; [by rewrite E, andb_false_r, app_nil_r|].
          rewrite bool_decide_eq_false_2 by congruence. by rewrite app_nil_r.
      - split; [done|]. intros p. by rewrite app_nil_r. }
    destruct acc as [st1 m1]. cbn [fst snd] in *. specialize (IH st1 m1).
    destruct (fold_left _ l _) as [st' m']. destruct IH as [-> Hc]. split.
    + rewrite Hs, <- app_assoc. by destruct (stands cids a).
    + intros p. rewrite Hc, Hm, <- app_assoc. by destruct (inside cids p a).
Qed.

Definition collection_ids (items : list Album) : list string := map id (List.filter (is_kind KCollection) items).
Lemma buildAlbumTree_spec items :
  let cids := collection_ids items in
  let plain := List.filter (is_kind KAlbum) items in
  map collection (collections (buildAlbumTree items)) = List.filter (is_kind KCollection) items /\
  (forall s, s ∈ collections (buildAlbumTree items) ->
     shelf_albums s = List.filter (inside cids (id (collection s))) plain /\ albumCount s = Z.of_nat (length (shelf_albums s))) /\
  albums (buildAlbumTree items) = List.filter (stands cids) plain /\
  spaces (buildAlbumTree items) = List.filter (is_kind KSpace) items.
Proof.
  cbv zeta. unfold buildAlbumTree. fold (collection_ids items).
  pose proof (tree_fold (collection_ids items) (List.filter (is_kind KAlbum) items) [] []) as H.
  destruct (fold_left _ _ _) as [st m]. destruct H as [-> Hm]. cbn [collections albums spaces].
  split; [|split; [|done]].
  - rewrite map_map. apply map_id.
  - intros s (c & -> & Hc)%list_elem_of_fmap. cbn [shelf_of collection shelf_albums albumCount]. by rewrite Hm.
Qed.

Lemma filter_filter_b {A} (p q : A -> bool) l : List.filter p (List.filter q l) = List.filter (fun x => q x && p x) l.
Proof. induction l as [|x l IH]; [done|]. cbn [List.filter]. destruct (q x); cbn [List.filter andb]; by rewrite IH. Qed.
Lemma filter_ext_elem {A} (p q : A -> bool) l : (forall x, x ∈ l -> p x = q x) -> List.filter p l = List.filter q l.
Proof.
  induction l as [|x l IH]; intros H; [done|]. cbn [List.filter]. rewrite (H x) by (by left). rewrite IH; [done|].
  intros y Hy. apply H. by right.
Qed.
Lemma filter_disjoint_perm {A} (p q : A -> bool) l : (forall x, p x = true -> q x = false) ->
  Permutation (List.filter p l ++ List.filter q l) (List.filter (fun x => p x || q x) l).
Proof.
  intros H. induction l as [|x l IH]; [done|]. cbn [List.filter]. destruct (p x) eqn:Ep; cbn [orb].
  - rewrite (H x Ep). cbn [app]. by rewrite IH.
  - destruct (q x); [|done]. by rewrite <- Permutation_middle, IH.
Qed.
Lemma filter_groups_perm (ks : list string) (l : list Album) : NoDup ks ->
  Permutation (flat_map (fun k => List.filter (fun a => bool_decide (parentId a = Some k)) l) ks)
              (List.filter (fun a => match parentId a with Some p => includes p ks | None => false end) l).
Proof.
  induction 1 as [|k ks Hk Hn IH]; cbn [flat_map].
  - rewrite (filter_ext_elem _ (fun _ => false)); [clear; by induction l|]. intros a _. by destruct (parentId a).
  - rewrite IH, filter_disjoint_perm.
    + rewrite (filter_ext_elem _ (fun a => match parentId a with Some p => includes p (k :: ks) | None => false end)); [done|].
      intros a _. destruct (parentId a) as [p|]; [|by rewrite bool_decide_eq_false_2].
      unfold includes. destruct (decide (p = k)) as [->|Hne].
      * rewrite (bool_decide_eq_true_2 (Some k = Some k)) by done. symmetry. apply bool_decide_eq_true. by left.
      * rewrite (bool_decide_eq_false_2 (Some p = Some k)) by congruence. cbn [orb]. apply bool_decide_ext.
        rewrite elem_of_cons. tauto.
    + intros a Ea. apply bool_decide_eq_true in Ea. rewrite Ea. by apply includes_false.
Qed.

Section order_lemmas.
Context {A : Type} (positions : list (string * Z)) (idOf : A -> string).
#[local] Instance order_cmp_comparator : Comparator (order_cmp (A := A) positions idOf).
Proof.
  split; intros; unfold order_cmp, or_cmp in *; repeat case_match; to_prop; lia.
Qed.
Lemma order_perm items : Permutation (order positions idOf items) items.
Proof.
  unfold order. rewrite sort_by_perm. generalize 0. induction items as [|x l IH]; intros i; [done|]. cbn. by rewrite IH.
Qed.
(** What the person placed comes by position, before what was never placed. *)
Lemma order_sorted items :
  StronglySorted (fun x y => position_or_last positions (idOf x) <= position_or_last positions (idOf y)) (order positions idOf items).
Proof.
  unfold order. pose proof (sort_by_sorted (order_cmp (A := A) positions idOf) (with_index 0 items)) as H.
  induction H as [|x l _ IH Hx]; cbn [map]; constructor; [done|].
  apply Forall_map. eapply Forall_impl; [exact Hx|]. intros y. unfold cmp_le, order_cmp, or_cmp. case_match; to_prop; lia.
Qed.
End order_lemmas.

Lemma map_id_find p (ss : list Shelf) :
  match List.find (fun c => String.eqb (id c) p) (map collection ss) with Some _ => false | None => true end =
  match List.find (fun s => String.eqb (id (collection s)) p) ss with Some _ => false | None => true end.
Proof. induction ss as [|s l IH]; [done|]. cbn [map List.find]. by destruct (String.eqb _ _). Qed.
Lemma flat_map_ext_elem {A B} (f g : A -> list B) l : (forall x, x ∈ l -> f x = g x) -> flat_map f l = flat_map g l.
Proof.
  induction l as [|x l IH]; intros H; [done|]. cbn [flat_map]. rewrite (H x) by (by left). rewrite IH; [done|].
  intros y Hy. apply H. by right.
Qed.
Lemma filter_all_true {A} (l : list A) : List.filter (fun _ => true) l = l.
Proof. induction l as [|x l IH]; [done|]. cbn. by rewrite IH. Qed.

(** The order groups a person can arrange are the groups the directory shows: the albums of one
    visible collection, the collections, the shared spaces, or the albums that stand on their own,
    with no group for a collection or a first album the person cannot see.  With unique ids the
    groups cover the directory, every album in exactly one of them, a collection's album in its
    shelf; and arranging a group only reorders it, by position. *)
Theorem albumOrderGroup_of_tree (items : list Album) (firstId : string) :
  let tree := buildAlbumTree items in
  (forall p, albumOrderGroup items (Some p) firstId false =
     (fun s => map id (shelf_albums s)) <$> List.find (fun s => String.eqb (id (collection s)) p) (collections tree)) /\
  albumOrderGroup items None firstId false =
    (fun first => match kind first with
       | KCollection => map (fun s => id (collection s)) (collections tree)
       | KSpace => map id (spaces tree)
       | KAlbum => map id (albums tree) end) <$> List.find (fun item => String.eqb (id item) firstId) items /\
  (NoDup (map id items) -> "" ∉ map id items ->
     Permutation items (map collection (collections tree) ++ flat_map shelf_albums (collections tree) ++ albums tree ++ spaces tree)) /\
  (forall positions group, Permutation (order positions id group) group /\
     StronglySorted (fun x y => position_or_last positions (id x) <= position_or_last positions (id y)) (order positions id group)).
Proof.
  intros tree. destruct (buildAlbumTree_spec items) as (Hc & Hs & Ha & Hsp). fold tree in Hc, Hs, Ha, Hsp.
  set (cids := collection_ids items) in *. split; [|split; [|split]].
  - intros p. unfold albumOrderGroup.
    assert (forallb (fun item => negb (is_kind KCollection item && String.eqb (id item) p)) items =
            match List.find (fun s => String.eqb (id (collection s)) p) (collections tree) with Some _ => false | None => true end) as ->.
    { rewrite <- (map_id_find p (collections tree)), Hc. clear. induction items as [|a l IH]; [done|]. cbn [forallb List.filter].
      destruct (is_kind KCollection a); cbn [andb negb List.find]; [|done]. by destruct (String.eqb (id a) p). }
    destruct (List.find _ _) as [s|] eqn:Ef; [|done]. apply List.find_some in Ef as [Hin Ep].
    apply String.eqb_eq in Ep. apply list_elem_of_In in Hin. destruct (Hs s Hin) as [Es _]. cbn [fmap option_fmap option_map].
    rewrite Es, filter_filter_b. do 2 f_equal. apply filter_ext_elem. intros a _. unfold inside. rewrite Ep.
    assert (includes p cids = true) as ->; [|by rewrite andb_true_r].
    apply includes_true. unfold cids, collection_ids. rewrite <- Hc, map_map. apply list_elem_of_fmap. by exists s.
  - unfold albumOrderGroup. destruct (List.find _ items) as [first|]; [|done]. cbn. f_equal. destruct (kind first).
    + rewrite Ha, filter_filter_b. done.
    + by rewrite <- Hc, map_map.
    + by rewrite Hsp.
  - intros Hn Hne. rewrite Hc, Ha, Hsp.
    assert (NoDup cids) as Hcn by (apply NoDup_map_filter_b; exact Hn).
    assert (Permutation (flat_map shelf_albums (collections tree))
      (List.filter (fun a => match parentId a with Some p => includes p cids | None => false end) (List.filter (is_kind KAlbum) items))) as ->.
    { rewrite <- (filter_groups_perm cids) by done. unfold cids, collection_ids. rewrite <- Hc, map_map.
      rewrite (flat_map_concat_map _ (map _ _)), map_map, <- flat_map_concat_map.
      match goal with |- Permutation ?a ?b => enough (a = b) as -> by done end. apply flat_map_ext_elem. intros s Hin. destruct (Hs s Hin) as [-> _].
      apply filter_ext_elem. intros a _. unfold inside.
      rewrite (proj2 (includes_true (id (collection s)) cids)); [by rewrite andb_true_r|].
      unfold cids, collection_ids. rewrite <- Hc, map_map. apply list_elem_of_fmap. by exists s. }
    rewrite (app_assoc (List.filter _ (List.filter _ _))), filter_disjoint_perm.
    + rewrite (filter_ext_elem _ (fun _ => true) (List.filter (is_kind KAlbum) items)).
      * rewrite (filter_all_true (List.filter (is_kind KAlbum) items)). clear. induction items as [|a l IH]; [done|].
        cbn [List.filter]. unfold is_kind in *. destruct (kind a) eqn:E;
          repeat first [rewrite bool_decide_eq_true_2 by done|rewrite bool_decide_eq_false_2 by done]; cbn [app].
        -- by rewrite <- Permutation_middle, <- IH.
        -- by rewrite <- IH.
        -- rewrite app_assoc, <- Permutation_middle, <- app_assoc, <- IH. done.
      * intros a _. unfold stands. destruct (parentId a) as [p|]; [|done]. destruct (includes p cids) eqn:E; [done|].
        by rewrite andb_false_r.
    + intros a. unfold stands. destruct (parentId a) as [p|]; [|done]. intros E. rewrite E.
      destruct (String.eqb_spec p "") as [->|]; [|done]. exfalso. apply Hne. apply includes_true in E.
      by apply elem_of_map_filter_b in E.
  - intros positions group. split; [apply order_perm|apply order_sorted].
Qed.
