(* ===== verification/SecretAttempts.v ===== *)
(** * Secret checks ([server/src/utils/secret-attempts.ts])

    The lockout that PIN unlock and the Locked secrets share: failed checks per account, the tiers of
    lockouts, and the queue that lets one check of an account run at a time.  Requests interleave in any
    order ([step]); a request calls [verify] once or more, one call after the other, and the clock does
    not run backwards. *)

From stdpp Require Import relations.
From S2P Require Import Prelude.
Local Open Scope Z_scope.

(** ** Attempts *)

Record Tier := mkTier { attempts : Z; lockoutMs : Z }.
Definition FAILURE_THRESHOLDS : list Tier :=
  [mkTier 5 (60 * 1000); mkTier 10 (60 * 60 * 1000); mkTier 15 (24 * 60 * 60 * 1000)].
Definition FAILURE_RESET_MS : Z := 30 * 60 * 1000.

Record AttemptState := mkAttempts { failureCount : Z; lastFailureAt : Z; lockedUntil : Z }.

Definition lookupLockoutMs (count : Z) : Z :=
  foldl (fun lockout tier => if attempts tier <=? count then lockoutMs tier else lockout) 0 FAILURE_THRESHOLDS.

(** Locked out, with the seconds the message names. *)
Definition assertNotLockedOut (state : option AttemptState) (now : Z) : option Z :=
  match state with
  | Some s => if now <? lockedUntil s then Some (- (- (lockedUntil s - now) / 1000)) else None
  | None => None
  end.

(** The state a failed check leaves, from the state and the time it started with. *)
Definition failed_check (state : option AttemptState) (now : Z) : AttemptState :=
  let prev := match state with
              | Some s => if now - lastFailureAt s <? FAILURE_RESET_MS then s else mkAttempts 0 0 0
              | None => mkAttempts 0 0 0
              end in
  let count := failureCount prev + 1 in
  let lockout := lookupLockoutMs count in
  mkAttempts count now (if 0 <? lockout then now + lockout else 0).

(** ** Requests *)

Inductive Phase :=
| Waiting (previous : option nat)
| Running
| Checking (state : option AttemptState) (now : Z)
| Finished.

Record Request := mkRequest { user : string; phase : Phase }.

Record State := mkState {
  attemptsByUser : gmap string AttemptState;
  checksByUser : gmap string nat;
  requests : gmap nat Request;
  clock : Z;
  (** The times of an account's failed checks since the last one that passed, newest first. *)
  failures : gmap string (list Z)
}.

Definition set_phase (i : nat) (r : Request) (p : Phase) (s : State) : State :=
  mkState (attemptsByUser s) (checksByUser s) (<[i := mkRequest (user r) p]> (requests s)) (clock s) (failures s).
(** [finally]: the next request may go on, and the last one leaves the map. *)
Definition finished (i : nat) (r : Request) (s : State) : State :=
  mkState (attemptsByUser s) (if bool_decide (checksByUser s !! user r = Some i) then delete (user r) (checksByUser s) else checksByUser s)
    (<[i := mkRequest (user r) Finished]> (requests s)) (clock s) (failures s).
Definition log (s : State) (u : string) : list Z := default [] (failures s !! u).

Definition previous_done (s : State) (previous : option nat) : Prop :=
  match previous with
  | None => True
  | Some j => exists r, requests s !! j = Some r /\ phase r = Finished
  end.

Inductive step : State -> State -> Prop :=
| time_passes s t : clock s <= t -> step s (mkState (attemptsByUser s) (checksByUser s) (requests s) t (failures s))
| arrives s i u : requests s !! i = None ->
    step s (mkState (attemptsByUser s) (<[u := i]> (checksByUser s))
              (<[i := mkRequest u (Waiting (checksByUser s !! u))]> (requests s)) (clock s) (failures s))
| admitted s i r previous : requests s !! i = Some r -> phase r = Waiting previous -> previous_done s previous ->
    assertNotLockedOut (attemptsByUser s !! user r) (clock s) = None -> step s (set_phase i r Running s)
| refused s i r previous n : requests s !! i = Some r -> phase r = Waiting previous -> previous_done s previous ->
    assertNotLockedOut (attemptsByUser s !! user r) (clock s) = Some n -> step s (finished i r s)
| check_starts s i r : requests s !! i = Some r -> phase r = Running ->
    assertNotLockedOut (attemptsByUser s !! user r) (clock s) = None ->
    forall now, clock s <= now ->
    let s' := set_phase i r (Checking (attemptsByUser s !! user r) now) s in
    step s (mkState (attemptsByUser s) (checksByUser s) (requests s') now (failures s))
| check_fails s i r st now : requests s !! i = Some r -> phase r = Checking st now ->
    let s' := set_phase i r Running s in
    step s (mkState (<[user r := failed_check st now]> (attemptsByUser s)) (checksByUser s) (requests s') (clock s)
              (<[user r := now :: log s (user r)]> (failures s)))
| check_passes s i r st now : requests s !! i = Some r -> phase r = Checking st now ->
    let s' := set_phase i r Running s in
    step s (mkState (delete (user r) (attemptsByUser s)) (checksByUser s) (requests s') (clock s)
              (<[user r := []]> (failures s)))
| ends s i r : requests s !! i = Some r -> phase r = Running -> step s (finished i r s).

Definition start (t : Z) : State := mkState ∅ ∅ ∅ t ∅.

Definition in_turn (p : Phase) : bool := match p with Running | Checking _ _ => true | _ => false end.
Definition open (p : Phase) : bool := match p with Finished => false | _ => true end.

(** The state a sequence of failed checks leaves, newest first. *)
Definition replay (l : list Z) : option AttemptState :=
  foldr (fun t st => Some (failed_check st t)) None l.

(** Every failed check was let in, by the state those before it left. *)
Fixpoint let_in (l : list Z) : Prop :=
  match l with
  | [] => True
  | t :: l' => assertNotLockedOut (replay l') t = None /\ default t (head l') <= t /\ let_in l'
  end.

(** ** What a sequence of failures costs *)

Lemma replay_last l s : replay l = Some s -> head l = Some (lastFailureAt s).
Proof. destruct l as [|t l]; simpl; [done|]. by intros [= <-]. Qed.

Lemma lockedUntil_failed st now :
  let s := failed_check st now in
  lockedUntil s = if failureCount s <? 5 then 0 else now + lookupLockoutMs (failureCount s).
Proof.
  unfold failed_check, lookupLockoutMs, FAILURE_THRESHOLDS. simpl.
  repeat case_match; to_prop; simpl in *; to_prop; lia.
Qed.

(** A lockout of an hour outlasts the half hour after which failures expire, so the count never
    passes the tier that has it. *)
Definition counted (l : list Z) (s : AttemptState) : Prop :=
  1 <= failureCount s <= 10 /\
  (failureCount s < 5 \/ lockedUntil s = lastFailureAt s + lookupLockoutMs (failureCount s)) /\
  exists c a, failureCount s = Z.of_nat (S c) /\ l !! c = Some a /\
    (forall b, l !! S c = Some b -> FAILURE_RESET_MS <= a - b) /\
    (forall k x y, (k < c)%nat -> l !! k = Some x -> l !! S k = Some y -> x - y < FAILURE_RESET_MS).

Lemma replay_counted l s : let_in l -> replay l = Some s -> counted l s.
Proof.
  revert s; induction l as [|t l IH]; simpl; [done|]. intros s (Hin & Hle & Hl) [= <-].
  destruct (replay l) as [p|] eqn:Hp; cycle 1.
  { assert (l = []) as -> by (destruct l; [done|discriminate]). unfold counted.
    change (failed_check None t) with (mkAttempts 1 t 0). simpl.
    split; [lia|]. split; [lia|]. exists 0%nat, t. split; [done|]. split; [done|]. split; [done|lia]. }
  specialize (IH p Hl eq_refl) as (Hc & Hlock & c & a & Hca & Ha & Hb & Hk).
  pose proof (replay_last _ _ Hp) as Hh. rewrite Hh in Hle. simpl in Hle.
  simpl in Hin. destruct (Z.ltb_spec t (lockedUntil p)) as [|Hfree]; [discriminate|].
  unfold counted. pose proof (lockedUntil_failed (Some p) t) as Hlk. cbv zeta in Hlk.
  assert (lastFailureAt (failed_check (Some p) t) = t) as Hlast by done.
  assert (failureCount (failed_check (Some p) t) =
    if t - lastFailureAt p <? FAILURE_RESET_MS then failureCount p + 1 else 1) as Hcount.
  { unfold failed_check. cbn [failureCount]. by destruct (t - lastFailureAt p <? FAILURE_RESET_MS). }
  rewrite Hlast, Hlk. clear Hlk. set (n := failureCount (failed_check (Some p) t)) in *. clearbody n.
  destruct (Z.ltb_spec (t - lastFailureAt p) FAILURE_RESET_MS) as [Hr|Hr].
  - assert (failureCount p <> 10) as Hne.
    { intros He. rewrite He in Hlock. change (lookupLockoutMs 10) with 3600000 in Hlock.
      unfold FAILURE_RESET_MS in Hr. lia. }
    split; [lia|]. split; [destruct (Z.ltb_spec n 5); lia|].
    exists (S c), a. split; [lia|]. split; [done|]. split; [done|]. intros [|k] x y Hkc Hx Hy.
    + injection Hx as <-. change (l !! 0%nat = Some y) in Hy. rewrite <- head_lookup, Hh in Hy. injection Hy as <-. lia.
    + apply (Hk k); [lia|done|done].
  - split; [lia|]. split; [lia|]. exists 0%nat, t. split; [lia|]. split; [done|]. split; [|lia].
    intros b Hb'. simpl in Hb'. rewrite <- head_lookup, Hh in Hb'. injection Hb' as <-. lia.
Qed.

Lemma let_in_sorted l i j a b :
  let_in l -> (i <= j)%nat -> l !! i = Some a -> l !! j = Some b -> b <= a.
Proof.
  revert i j a b; induction l as [|t l IH]; simpl; [done|]. intros i j a b (_ & Hle & Hl) Hij Ha Hb.
  destruct i as [|i], j as [|j]; simplify_eq/=; try lia.
  - destruct l as [|t' l]; [done|]. simpl in Hle.
    pose proof (IH 0%nat j t' b Hl ltac:(lia) eq_refl Hb). lia.
  - apply (IH i j a b); [done|lia|done|done].
Qed.

Lemma eleven_apart l a b : let_in l -> l !! 0%nat = Some a -> l !! 10%nat = Some b -> FAILURE_RESET_MS <= a - b.
Proof.
  intros Hl Ha Hb. destruct (replay l) as [s|] eqn:Hs; [|by destruct l].
  destruct (replay_counted l s Hl Hs) as (Hc & _ & c & x & Hcx & Hx & Hgap & _).
  destruct (l !! S c) as [y|] eqn:Hy.
  - pose proof (Hgap y eq_refl). pose proof (let_in_sorted l 0 c a x Hl ltac:(lia) Ha Hx).
    pose proof (let_in_sorted l (S c) 10 y b Hl ltac:(lia) Hy Hb). lia.
  - apply lookup_ge_None in Hy. apply lookup_lt_Some in Hb. lia.
Qed.

Definition half_hour : Z := 30 * 60 * 1000.
(** Failures from [a] on, for half an hour. *)
Definition within (a t : Z) : bool := (a <=? t) && (t <? a + half_hour).

Lemma window_bound a l : let_in l -> (length (List.filter (within a) l) <= 10)%nat.
Proof.
  induction l as [|t l IH]; [simpl; lia|]. intros Hl.
  destruct (within a t) eqn:Hw.
  - rewrite <- (take_drop 10 (t :: l)), List.filter_app, length_app.
    pose proof (List.filter_length_le (within a) (take 10 (t :: l))) as Ht.
    rewrite length_take in Ht. rewrite (filter_b_none (within a) (drop 10 (t :: l))); [change (length (@nil Z)) with 0%nat; lia|].
    intros b (k & Hk)%list_elem_of_lookup_1. rewrite lookup_drop in Hk.
    destruct ((t :: l) !! 10%nat) as [c|] eqn:Hc.
    + pose proof (eleven_apart (t :: l) t c Hl eq_refl Hc).
      pose proof (let_in_sorted (t :: l) 10 (10 + k) c b Hl ltac:(lia) Hc Hk).
      unfold within, half_hour, FAILURE_RESET_MS in *. to_prop. apply andb_false_iff. left. apply Z.leb_gt. lia.
    + apply lookup_ge_None in Hc. apply lookup_lt_Some in Hk. lia.
  - simpl. rewrite Hw. apply IH, Hl.
Qed.

(** ** One check of an account at a time *)

(** The open requests of an account, newest first: each waits for the one after it, the last for
    nothing that is still open. *)
Fixpoint chain (s : State) (q : list nat) : Prop :=
  match q with
  | [] => True
  | i :: q' =>
      match q' with
      | [] => exists r, requests s !! i = Some r /\ forall p, phase r = Waiting p -> previous_done s p
      | j :: _ => (exists r, requests s !! i = Some r /\ phase r = Waiting (Some j)) /\ chain s q'
      end
  end.

Record queue (s : State) (u : string) (q : list nat) : Prop := {
  q_head : checksByUser s !! u = head q;
  q_open : forall i, i ∈ q <-> exists r, requests s !! i = Some r /\ user r = u /\ open (phase r) = true;
  q_nodup : NoDup q;
  q_chain : chain s q
}.

Lemma chain_cons s i j q :
  chain s (i :: j :: q) <-> (exists r, requests s !! i = Some r /\ phase r = Waiting (Some j)) /\ chain s (j :: q).
Proof. done. Qed.

Lemma chain_front s q i : chain s q -> i ∈ q ->
  (exists q', q = q' ++ [i]) \/ exists r j, requests s !! i = Some r /\ phase r = Waiting (Some j) /\ j ∈ q.
Proof.
  induction q as [|a q IH]; [intros _ []%not_elem_of_nil|]. intros Hc Hi.
  destruct q as [|b q].
  - left. exists []. apply list_elem_of_singleton in Hi. by subst.
  - apply chain_cons in Hc as [(r & Hr & Hp) Hc]. apply elem_of_cons in Hi as [->|Hi].
    + right. exists r, b. split; [done|]. split; [done|]. set_solver.
    + destruct (IH Hc Hi) as [(q' & Hq)|(r' & j & ? & ? & ?)].
      * left. exists (a :: q'). by rewrite Hq.
      * right. exists r', j. split; [done|]. split; [done|]. set_solver.
Qed.

Lemma queue_turn s u q i r : queue s u q -> requests s !! i = Some r -> user r = u -> open (phase r) = true ->
  (forall p, phase r = Waiting p -> previous_done s p) -> exists q', q = q' ++ [i].
Proof.
  intros Q Hr Hu Ho Hp. assert (i ∈ q) as Hi by (apply (q_open _ _ _ Q); eauto).
  destruct (chain_front s q i (q_chain _ _ _ Q) Hi) as [?|(r' & j & Hr' & Hw & Hj)]; [done|].
  rewrite Hr in Hr'. injection Hr' as <-. destruct (Hp _ Hw) as (x & Hx & Hf).
  apply (q_open _ _ _ Q) in Hj as (y & Hy & _ & Hopen). rewrite Hx in Hy. injection Hy as <-.
  by rewrite Hf in Hopen.
Qed.

Section update.
Context (s s' : State) (i : nat) (x : Request).
Hypothesis update : requests s' = <[i := x]> (requests s).
Hypothesis was_open : forall r, requests s !! i = Some r -> open (phase r) = true.

Lemma previous_done_update p : previous_done s p -> previous_done s' p.
Proof using update was_open.
  destruct p as [j|]; [|done]. intros (r & Hr & Hf). exists r. split; [|done].
  rewrite update, lookup_insert_ne; [done|]. intros <-. apply was_open in Hr. by rewrite Hf in Hr.
Qed.

Lemma chain_update q : (i ∉ q) -> chain s q -> chain s' q.
Proof using update was_open.
  induction q as [|a q IH]; [done|]. intros Hi Hc.
  assert (forall r, requests s !! a = Some r -> requests s' !! a = Some r) as Ha.
  { intros r Hr. rewrite update, lookup_insert_ne; [done|]. intros ->. set_solver. }
  destruct q as [|b q].
  - destruct Hc as (r & Hr & Hp). exists r. split; [by apply Ha|]. intros p Hw. by apply previous_done_update, Hp.
  - destruct Hc as [(r & Hr & Hp) Hc]. split; [exists r; eauto|]. apply IH; [set_solver|done].
Qed.

Lemma chain_turn q : (i ∉ q) -> in_turn (phase x) = true -> chain s (q ++ [i]) -> chain s' (q ++ [i]).
Proof using update was_open.
  induction q as [|a q IH]; intros Hi Hx Hc.
  - exists x. split; [by rewrite update, lookup_insert_eq|]. intros p Hp. by rewrite Hp in Hx.
  - assert (forall r, requests s !! a = Some r -> requests s' !! a = Some r) as Ha.
    { intros r Hr. rewrite update, lookup_insert_ne; [done|]. intros ->. set_solver. }
    destruct q as [|b q]; simpl in *;
      (destruct Hc as [(r & Hr & Hp) Hc]; split; [exists r; eauto|]; apply IH; [set_solver|done|done]).
Qed.

Lemma chain_finish q : (i ∉ q) -> phase x = Finished -> chain s (q ++ [i]) -> chain s' q.
Proof using update was_open.
  induction q as [|a q IH]; [done|]. intros Hi Hx Hc.
  assert (forall r, requests s !! a = Some r -> requests s' !! a = Some r) as Ha.
  { intros r Hr. rewrite update, lookup_insert_ne; [done|]. intros ->. set_solver. }
  destruct q as [|b q]; simpl in *.
  - destruct Hc as [(r & Hr & Hp) _]. exists r. split; [by apply Ha|]. intros p Hw.
    rewrite Hp in Hw. injection Hw as <-. exists x. by rewrite update, lookup_insert_eq.
  - destruct Hc as [(r & Hr & Hp) Hc]. split; [exists r; eauto|]. apply IH; [set_solver|done|done].
Qed.
End update.

Definition queued (s : State) : Prop := forall u, exists q, queue s u q.
(** A request whose turn it is: in its turn, or waiting for nothing that is open. *)
Definition ready (s : State) (r : Request) : Prop :=
  open (phase r) = true /\ forall p, phase r = Waiting p -> previous_done s p.

Lemma in_turn_ready s r : in_turn (phase r) = true -> ready s r.
Proof. intros H. split; [by destruct (phase r)|]. intros p Hp. by rewrite Hp in H. Qed.

Lemma queued_turn s s' i r p : queued s -> requests s !! i = Some r -> ready s r -> in_turn p = true ->
  checksByUser s' = checksByUser s -> requests s' = <[i := mkRequest (user r) p]> (requests s) -> queued s'.
Proof.
  intros Q Hr [Ho Hp] Ht Hck Hrq u. destruct (Q u) as [q Hq]. exists q.
  assert (forall r', requests s !! i = Some r' -> open (phase r') = true) as Hopen
    by (intros r' Hr'; rewrite Hr in Hr'; by injection Hr' as <-).
  pose proof (q_nodup _ _ _ Hq) as Hnd. split; [by rewrite Hck; apply q_head| |done|].
  - intros j. rewrite (q_open _ _ _ Hq j), Hrq. destruct (decide (j = i)) as [->|Hne].
    + rewrite lookup_insert_eq, Hr. split.
      * intros (r' & [= <-] & Hu & _). exists (mkRequest (user r) p). split; [done|]. split; [done|]. by destruct p.
      * intros (r' & [= <-] & Hu & _). exists r. done.
    + by rewrite lookup_insert_ne.
  - destruct (decide (user r = u)) as [Hu|Hu].
    + destruct (queue_turn s u q i r Hq Hr Hu Ho Hp) as [q' ->]. apply NoDup_app in Hnd as (_ & Hni & _).
      eapply chain_turn; [done|done|set_solver|done|apply Hq].
    + eapply chain_update; [done|done| |apply Hq].
      intros (r' & Hr' & Hu' & _)%(q_open _ _ _ Hq). rewrite Hr in Hr'. by injection Hr' as <-.
Qed.

Lemma queued_finished s i r : queued s -> requests s !! i = Some r -> ready s r -> queued (finished i r s).
Proof.
  intros Q Hr [Ho Hp] u. destruct (Q u) as [q Hq].
  assert (forall r', requests s !! i = Some r' -> open (phase r') = true) as Hopen
    by (intros r' Hr'; rewrite Hr in Hr'; by injection Hr' as <-).
  pose proof (q_nodup _ _ _ Hq) as Hnd. destruct (decide (user r = u)) as [Hu|Hu].
  - destruct (queue_turn s u q i r Hq Hr Hu Ho Hp) as [q' ->]. exists q'.
    apply NoDup_app in Hnd as (Hnd & Hni & _). pose proof (q_head _ _ _ Hq) as Hh.
    split; [|intros j; split|done|].
    + simpl. rewrite Hu. destruct q' as [|a q']; simpl in Hh.
      * rewrite bool_decide_true by done. by rewrite lookup_delete_eq.
      * rewrite bool_decide_false; [done|]. rewrite Hh. intros [= ->]. set_solver.
    + intros Hj. destruct (proj1 (q_open _ _ _ Hq j)) as (x & Hx & ?); [set_solver|]. exists x.
      split; [|done]. simpl. rewrite lookup_insert_ne; [done|]. set_solver.
    + intros (x & Hx & Hux & Hox). simpl in Hx. destruct (decide (j = i)) as [->|Hne].
      * rewrite lookup_insert_eq in Hx. by injection Hx as <-.
      * rewrite lookup_insert_ne in Hx by done.
        assert (j ∈ q' ++ [i]) as Hj by (apply (q_open _ _ _ Hq); eauto). set_solver.
    + eapply chain_finish; [simpl; reflexivity|done|set_solver|done|apply Hq].
  - assert (i ∉ q) as Hi.
    { intros (r' & Hr' & Hu' & _)%(q_open _ _ _ Hq). rewrite Hr in Hr'. by injection Hr' as <-. }
    exists q. split; [|intros j|done|].
    + simpl. rewrite <- (q_head _ _ _ Hq). case_bool_decide; [|done]. by rewrite lookup_delete_ne.
    + rewrite (q_open _ _ _ Hq j). simpl. destruct (decide (j = i)) as [->|Hne].
      * rewrite lookup_insert_eq, Hr. split; intros (x & [= <-] & Hux & Hox); done.
      * by rewrite lookup_insert_ne.
    + eapply chain_update; [simpl; reflexivity|done|done|apply Hq].
Qed.

Lemma queued_arrives s i u : queued s -> requests s !! i = None ->
  queued (mkState (attemptsByUser s) (<[u := i]> (checksByUser s))
            (<[i := mkRequest u (Waiting (checksByUser s !! u))]> (requests s)) (clock s) (failures s)).
Proof.
  intros Q Hn u'. set (s' := mkState _ _ _ _ _). destruct (Q u') as [q Hq].
  assert (i ∉ q) as Hi by (intros (r & Hr & _)%(q_open _ _ _ Hq); by rewrite Hn in Hr).
  assert (chain s' q) as Hc.
  { eapply chain_update; [simpl; reflexivity| |done|apply Hq]. intros r Hr. by rewrite Hn in Hr. }
  destruct (decide (u = u')) as [<-|Hu].
  - exists (i :: q). split; [by simpl; rewrite lookup_insert_eq| | |].
    + intros j. rewrite elem_of_cons, (q_open _ _ _ Hq j). simpl. destruct (decide (j = i)) as [->|Hne].
      * rewrite lookup_insert_eq. split; [|by left]. intros _. by eexists.
      * rewrite lookup_insert_ne by done. naive_solver.
    + constructor; [done|apply Hq].
    + destruct q as [|b q].
      * eexists. split; [by simpl; rewrite lookup_insert_eq|]. simpl. intros p [= <-].
        rewrite (q_head _ _ _ Hq). done.
      * apply chain_cons. split; [|done]. eexists. split; [by simpl; rewrite lookup_insert_eq|].
        simpl. by rewrite (q_head _ _ _ Hq).
  - exists q. split; [|intros j|apply Hq|done].
    + simpl. rewrite lookup_insert_ne by done. apply Hq.
    + rewrite (q_open _ _ _ Hq j). simpl. destruct (decide (j = i)) as [->|Hne].
      * rewrite lookup_insert_eq, Hn. split; [by intros (r & ? & _)|]. intros (r & [= <-] & Hu' & _). done.
      * by rewrite lookup_insert_ne.
Qed.

Lemma queued_step s s' : step s s' -> queued s -> queued s'.
Proof.
  intros Hs Q. destruct Hs.
  - intros u. destruct (Q u) as [q [? ? ? Hc]]. exists q. split; [done|done|done|].
    clear -Hc. induction q as [|a q IH]; [done|]. destruct q; [done|]. destruct Hc. split; [done|by apply IH].
  - by apply queued_arrives.
  - eapply queued_turn; [done|done| | |done|done]; [|done].
    split; [by rewrite H0|]. intros p Hp. rewrite H0 in Hp. by injection Hp as <-.
  - apply queued_finished; [done|done|]. split; [by rewrite H0|]. intros p Hp. rewrite H0 in Hp. by injection Hp as <-.
  - eapply queued_turn; [done|done| | |done|done]; [|done]. apply in_turn_ready. by rewrite H0.
  - eapply queued_turn; [done|done| | |done|done]; [|done]. apply in_turn_ready. by rewrite H0.
  - eapply queued_turn; [done|done| | |done|done]; [|done]. apply in_turn_ready. by rewrite H0.
  - apply queued_finished; [done|done|]. apply in_turn_ready. by rewrite H0.
Qed.

Lemma queued_alone s i j r x : queued s -> requests s !! i = Some r -> requests s !! j = Some x ->
  in_turn (phase r) = true -> in_turn (phase x) = true -> user r = user x -> i = j.
Proof.
  intros Q Hr Hx Hi Hj Hu. destruct (Q (user x)) as [q Hq].
  destruct (in_turn_ready s r Hi) as [Ho Hp], (in_turn_ready s x Hj) as [Hox Hpx].
  destruct (queue_turn s (user x) q i r Hq Hr Hu Ho Hp) as [q1 ->].
  destruct (queue_turn s (user x) _ j x Hq Hx eq_refl Hox Hpx) as [q2 He].
  by apply app_inj_tail in He as [_ ->].
Qed.

(** ** The count is the log's *)

Definition newest (s : State) (u : string) (t : Z) : Prop := default t (head (log s u)) <= t.

Record sound (s : State) : Prop := {
  s_queued : queued s;
  s_checking : forall i r st now, requests s !! i = Some r -> phase r = Checking st now ->
    st = attemptsByUser s !! user r /\ assertNotLockedOut st now = None /\ now <= clock s /\ newest s (user r) now;
  s_log : forall u, attemptsByUser s !! u = replay (log s u) /\ let_in (log s u) /\ newest s u (clock s)
}.

Lemma newest_le s u t t' : newest s u t -> t <= t' -> newest s u t'.
Proof. unfold newest. destruct (log s u); simpl; lia. Qed.

(** [assertNotLockedOut] with a later clock lets in what it let in before. *)
Lemma let_in_later st t t' : assertNotLockedOut st t = None -> t <= t' -> assertNotLockedOut st t' = None.
Proof.
  unfold assertNotLockedOut. destruct st as [s|]; [|done].
  destruct (Z.ltb_spec t (lockedUntil s)); [done|]. intros _ Ht. by destruct (Z.ltb_spec t' (lockedUntil s)); [lia|].
Qed.

Lemma sound_start t : sound (start t).
Proof.
  split.
  - intros u. exists []. split; [done| |constructor|done]. intros i. split; [by intros ?%not_elem_of_nil|].
    by intros (r & Hr & _).
  - intros i r st now Hr. done.
  - intros u. split; [done|]. split; [done|]. unfold newest. change (log (start t) u) with (@nil Z). simpl. lia.
Qed.

(** A step that changes only requests keeps every check's state, when it starts none. *)
Lemma checking_kept s s' i x : sound s -> requests s' = <[i := x]> (requests s) ->
  attemptsByUser s' = attemptsByUser s -> failures s' = failures s -> clock s <= clock s' ->
  (forall st now, phase x = Checking st now ->
    st = attemptsByUser s !! user x /\ assertNotLockedOut st now = None /\ now <= clock s' /\ newest s (user x) now) ->
  forall j r st now, requests s' !! j = Some r -> phase r = Checking st now ->
    st = attemptsByUser s' !! user r /\ assertNotLockedOut st now = None /\ now <= clock s' /\ newest s' (user r) now.
Proof.
  intros S Hrq Ha Hf Ht Hx j r st now Hr Hp. unfold newest, log in *. rewrite Ha, Hf. rewrite Hrq in Hr.
  destruct (decide (j = i)) as [->|Hne].
  - rewrite lookup_insert_eq in Hr. injection Hr as <-. by apply Hx.
  - rewrite lookup_insert_ne in Hr by done. destruct (s_checking _ S j r st now Hr Hp) as (? & ? & ? & ?).
    split; [done|]. split; [done|]. split; [lia|done].
Qed.

(** An outcome of a check leaves the checks of other accounts as they are. *)
Lemma checking_others s s' i r p : sound s -> requests s !! i = Some r -> in_turn (phase r) = true ->
  requests s' = <[i := mkRequest (user r) p]> (requests s) -> (forall st now, p <> Checking st now) ->
  (forall u, u <> user r -> attemptsByUser s' !! u = attemptsByUser s !! u /\ log s' u = log s u) -> clock s' = clock s ->
  forall j x st now, requests s' !! j = Some x -> phase x = Checking st now ->
    st = attemptsByUser s' !! user x /\ assertNotLockedOut st now = None /\ now <= clock s' /\ newest s' (user x) now.
Proof.
  intros S Hr Hi Hrq Hp Ho Hc j x st now Hx Hw. rewrite Hrq in Hx. destruct (decide (j = i)) as [->|Hne].
  - rewrite lookup_insert_eq in Hx. injection Hx as <-. by apply Hp in Hw.
  - rewrite lookup_insert_ne in Hx by done. destruct (decide (user x = user r)) as [Hu|Hu].
    + destruct Hne. apply (queued_alone s j i x r (s_queued _ S) Hx Hr); [by rewrite Hw|done|done].
    + unfold newest. destruct (Ho _ Hu) as [-> ->]. rewrite Hc. apply (s_checking _ S j x st now Hx Hw).
Qed.

Lemma log_insert s a c r t f u u' :
  log (mkState a c r t (<[u := f]> (failures s))) u' = if decide (u = u') then f else log s u'.
Proof.
  unfold log. simpl. destruct (decide (u = u')) as [<-|Hu]; [by rewrite lookup_insert_eq|by rewrite lookup_insert_ne].
Qed.

Lemma sound_step s s' : step s s' -> sound s -> sound s'.
Proof.
  intros Hs S. pose proof (queued_step _ _ Hs (s_queued _ S)) as Q. split; [done| |]; clear Q.
  - destruct Hs.
    + intros i r st now Hr Hp. destruct (s_checking _ S i r st now Hr Hp) as (? & ? & ? & ?). simpl.
      split; [done|]. split; [done|]. split; [lia|done].
    + eapply checking_kept; [done|simpl; reflexivity|done|done|simpl; lia|done].
    + eapply checking_kept; [done|simpl; reflexivity|done|done|simpl; lia|done].
    + eapply checking_kept; [done|simpl; reflexivity|done|done|simpl; lia|done].
    + eapply checking_kept; [done|simpl; reflexivity|done|done|simpl; lia|].
      simpl. intros st t [= <- <-]. destruct (s_log _ S (user r)) as (_ & _ & Hn).
      split; [done|]. split; [by eapply let_in_later|]. split; [lia|]. by eapply newest_le.
    + eapply (checking_others s _ i r Running); [done|done|by rewrite H0|simpl; reflexivity|done| |done].
      intros u Hu. simpl. rewrite lookup_insert_ne, log_insert, decide_False by done. done.
    + eapply (checking_others s _ i r Running); [done|done|by rewrite H0|simpl; reflexivity|done| |done].
      intros u Hu. simpl. rewrite lookup_delete_ne, log_insert, decide_False by done. done.
    + eapply checking_kept; [done|simpl; reflexivity|done|done|simpl; lia|done].
  - intros u. destruct (s_log _ S u) as (Ha & Hl & Hn). destruct Hs; try done.
    + split; [done|]. split; [done|]. by eapply newest_le.
    + split; [done|]. split; [done|]. by eapply newest_le.
    + destruct (s_checking _ S i r st now H H0) as (Hst & Hin & Hle & Hnow).
      unfold newest. rewrite log_insert. simpl. destruct (decide (user r = u)) as [<-|Hu].
      * rewrite lookup_insert_eq. simpl. rewrite <- Ha, Hst.
        split; [done|]. split; [|lia]. split; [by rewrite <- Hst|]. done.
      * by rewrite lookup_insert_ne.
    + unfold newest. rewrite log_insert. simpl. destruct (decide (user r = u)) as [<-|Hu].
      * rewrite lookup_delete_eq. simpl. split; [done|]. split; [done|]. lia.
      * by rewrite lookup_delete_ne.
Qed.

Lemma reachable_sound t s : rtc step (start t) s -> sound s.
Proof.
  intros H. assert (sound (start t)) as S by apply sound_start. revert S.
  induction H as [|x y z Hxy _ IH]; [done|]. intros S. by eapply IH, sound_step.
Qed.

(** What an account's state says of its failed checks since the last one that passed, newest first: it counts
    the newest ones, back to a quiet half hour, and holds the lockout of their number. *)
Record tells (l : list Z) (st : AttemptState) (n : nat) : Prop := mkTells {
  tl_count : failureCount st = Z.of_nat n /\ (1 <= n <= length l)%nat;
  tl_last : head l = Some (lastFailureAt st);
  tl_joined : forall k x y, (S k < n)%nat -> l !! k = Some x -> l !! S k = Some y -> x - y < half_hour;
  tl_apart : forall x y, l !! (n - 1)%nat = Some x -> l !! n = Some y -> half_hour <= x - y;
  tl_locked : lockedUntil st = if (n <? 5)%nat then 0
                               else lastFailureAt st + (if (n <? 10)%nat then 60 * 1000 else 60 * 60 * 1000)
}.

Lemma replay_tells l st : let_in l -> replay l = Some st -> exists n, (n <= 10)%nat /\ tells l st n.
Proof.
  intros Hl Hst. pose proof (replay_last _ _ Hst) as Hh.
  destruct (replay_counted _ _ Hl Hst) as (Hc & _ & c & b & Hcb & Hb & Hgap & Hjoin).
  exists (S c). split; [lia|]. pose proof (lookup_lt_Some _ _ _ Hb). split; [lia|done| | |].
  - intros k x y Hk. apply Hjoin. lia.
  - intros x y Hx Hy. replace (S c - 1)%nat with c in Hx by lia. rewrite Hb in Hx. injection Hx as <-. by apply Hgap.
  - destruct l as [|z l]; [done|]. injection Hst as <-. rewrite (lockedUntil_failed (replay l) z).
    change (lastFailureAt (failed_check (replay l) z)) with z. clear -Hc Hcb.
    set (m := failureCount (failed_check (replay l) z)) in *. clearbody m. unfold lookupLockoutMs, FAILURE_THRESHOLDS. simpl.
    destruct (Nat.ltb_spec (S c) 5), (Nat.ltb_spec (S c) 10), (Z.ltb_spec m 5), (Z.leb_spec 5 m), (Z.leb_spec 10 m), (Z.leb_spec 15 m); lia.
Qed.

(** C32. However the requests of an account interleave, they run one at a time; a check that is running sees
    the account's state of this very moment, and was not begun during a lockout; and so, from one success
    to the next, no half hour has more than ten failed checks.  An account has a state exactly when a check
    failed since the last that passed, and its count is the number of the newest failures each less than
    half an hour after the one before, reaching back to a pause of at least that long; it never passes
    ten.  The lockout is a minute from the last failure at five to nine, an hour at ten, and none below:
    the tier of fifteen is never reached. *)
Theorem guesses_bounded (t : Z) (s : State) (u : string) (reach : rtc step (start t) s) :
  (forall i j r x, requests s !! i = Some r -> requests s !! j = Some x -> in_turn (phase r) = true ->
     in_turn (phase x) = true -> user r = u -> user x = u -> i = j) /\
  (forall i r st now, requests s !! i = Some r -> phase r = Checking st now -> st = attemptsByUser s !! user r /\
     forall a, st = Some a -> lockedUntil a <= now) /\
  (forall a, (length (List.filter (within a) (log s u)) <= 10)%nat) /\
  (attemptsByUser s !! u = None -> log s u = []) /\
  (forall st, attemptsByUser s !! u = Some st -> exists n, (n <= 10)%nat /\ tells (log s u) st n).
Proof.
  pose proof (reachable_sound t s reach) as S. destruct (s_log _ S u) as (Ha & Hl & Hn).
  split; [|split; [|split; [|split]]].
  - intros i j r x Hr Hx Hi Hj Hu Hu'. apply (queued_alone s i j r x (s_queued _ S)); congruence.
  - intros i r st now Hr Hp. destruct (s_checking _ S i r st now Hr Hp) as (E & Hin & _). split; [done|].
    intros a ->. cbn in Hin. by destruct (Z.ltb_spec now (lockedUntil a)).
  - intros a. by apply window_bound.
  - rewrite Ha. by destruct (log s u).
  - rewrite Ha. intros st. by apply replay_tells.
Qed.

(** Five guesses in a row, the fifth of which locks the account: a sixth request is refused. *)
Definition guess (i : nat) (u : string) (t : Z) : list (State -> State) :=
  [fun s => mkState (attemptsByUser s) (<[u := i]> (checksByUser s))
     (<[i := mkRequest u (Waiting (checksByUser s !! u))]> (requests s)) (clock s) (failures s);
   set_phase i (mkRequest u (Waiting None)) Running;
   fun s => let s' := set_phase i (mkRequest u Running) (Checking (attemptsByUser s !! u) t) s in
     mkState (attemptsByUser s) (checksByUser s) (requests s') t (failures s);
   fun s => let s' := set_phase i (mkRequest u Running) Running s in
     mkState (<[u := failed_check (attemptsByUser s !! u) t]> (attemptsByUser s)) (checksByUser s) (requests s') (clock s)
       (<[u := t :: log s u]> (failures s));
   finished i (mkRequest u Running)].
Definition after (fs : list (State -> State)) (s : State) : State := foldl (fun s f => f s) s fs.

Lemma guess_steps i u t s : requests s !! i = None -> checksByUser s !! u = None -> clock s <= t ->
  assertNotLockedOut (attemptsByUser s !! u) (clock s) = None ->
  rtc step s (after (guess i u t) s) /\ checksByUser (after (guess i u t) s) !! u = None.
Proof.
  intros Hi Hc Ht Hn. split; cycle 1.
  { simpl. rewrite bool_decide_true by (by rewrite lookup_insert_eq). by rewrite lookup_delete_eq. }
  unfold after, guess. cbn [foldl].
  eapply rtc_l; [by apply arrives|]. rewrite Hc.
  eapply rtc_l; [eapply (admitted _ i (mkRequest u (Waiting None)) None); [by simpl; rewrite lookup_insert_eq|done|done|done]|].
  eapply rtc_l; [eapply (check_starts _ i (mkRequest u Running)); [by simpl; rewrite lookup_insert_eq|done|done|done]|].
  eapply rtc_l.
  { eapply (check_fails _ i (mkRequest u (Checking (attemptsByUser s !! u) t)));
      [simpl; by rewrite lookup_insert_eq|done]. }
  eapply rtc_l; [eapply (ends _ i (mkRequest u Running)); [by simpl; rewrite lookup_insert_eq|done]|]. constructor.
Qed.

Definition five : State := after (concat (map (fun n => guess n "u" 0) (seq 0 5))) (start 0).
Lemma five_reached : rtc step (start 0) five.
Proof.
  unfold five. cbn [seq map concat]. unfold after. rewrite !foldl_app. fold after.
  do 5 (etransitivity; [|apply guess_steps; by vm_compute]). constructor.
Qed.

Lemma guesses_bounded_witness :
  rtc step (start 0) five /\ attemptsByUser five !! "u" = Some (mkAttempts 5 0 60000) /\
  assertNotLockedOut (attemptsByUser five !! "u") 1000 = Some 59 /\
  (length (List.filter (within 0) (log five "u")) <= 10)%nat.
Proof.
  split; [apply five_reached|]. split; [by vm_compute|]. split; [by vm_compute|].
  exact (proj1 (proj2 (proj2 (guesses_bounded 0 five "u" five_reached))) 0).
Defined.
