(* ===== verification/CloudBackupManifest.v ===== *)
(** * Cloud backup manifests ([server/src/utils/cloud-backup-retention.ts], [cloud-backup.ts],
      [cloud-backup-crypto.ts])

    The names of a backup's objects, a manifest read from the bucket, and what it names.  A manifest is
    JSON a run wrote; decompression and [JSON.parse] are the parameter [decode], the zod schemas of an
    item's record and details and of albums and people are parameters too, and [number_text] is the
    spelling of a number where a pattern is tested against a value that is no string. *)

From S2P Require Import Prelude JsNumber JsString JsDate.
Local Open Scope Z_scope.

(** ** Names of objects *)

Definition CLOUD_BACKUP_DB_PREFIX : string := "db/".
Definition CLOUD_BACKUP_OBJECT_PREFIX : string := "o/".
Definition CLOUD_BACKUP_MANIFEST_PREFIX : string := "m/".
Definition CLOUD_BACKUP_DB_DUMPS_KEPT : nat := 7.
Definition CLOUD_BACKUP_MANIFEST_FORMAT : string := "frameleaf-backup-manifest".

Definition isSha256Hex (value : string) : bool := Nat.eqb (String.length value) 64 && string_all is_hex value.

Inductive BackupError :=
| UnsupportedFormat
| VaultMismatch
| InvalidObjectKey
| NotASha256
| Unreadable
| NotAManifest
| FileWithoutChecksum
| DumpWithoutChecksum
| InvalidReference
| InvalidDatabaseReference
| ClientReferencesInLegacy.

Definition objectKey (sha256 : string) : res BackupError string :=
  if isSha256Hex sha256 then Ok (CLOUD_BACKUP_OBJECT_PREFIX +:+ sha256)%string else Throw NotASha256.

(** [s] without a prefix. *)
Definition after (prefix s : string) : option string :=
  if starts_with prefix s then Some (string_drop (String.length prefix) s) else None.
(** The first [n] characters, when [p] holds of them, and the rest after a slash. *)
Definition part (n : nat) (p : string -> bool) (s : string) : option (string * string) :=
  let a := string_take n s in
  if Nat.eqb (String.length a) n && p a then
    match string_drop n s with String "/" rest => Some (a, rest) | _ => None end
  else None.
(** [[1-9]\d{0,8}] and a slash. *)
Definition key_version (s : string) : option (string * string) :=
  let '(v, rest) := span is_digit s in
  if negb (String.eqb v "") && Nat.leb (String.length v) 9 && negb (starts_with "0" v) then
    match rest with String "/" rest' => Some (v, rest') | _ => None end
  else None.

Definition UUID (s : string) : bool := shape "xxxxxxxx-xxxx-xxxx-xxxx-xxxxxxxxxxxx" s.
Definition isLockedKeyUserId (userId : string) : bool := UUID (to_lower userId).

Definition STAMP (s : string) : bool :=
  shape "ddddddddTddddddZ" (string_take 16 s) && String.eqb (string_drop 16 s) ".json.gz".
(** The vault id and key version of a client-format name, and what follows them. *)
Definition in_vault (vault : string -> bool) (s : string) : option (string * string * string) :=
  '(id, rest) ← part 36 vault s;
  '(v, rest) ← key_version rest;
  Some (id, v, rest).

(** [FILE] after its [o] or [db]: vault, version, id and a dump's name. *)
Definition file_parts (rest : string) : option (string * string * string * option string) :=
  '(vault, v, rest) ← in_vault UUID rest;
  let id := string_take 64 rest in
  if negb (isSha256Hex id) then None else
  match string_drop 64 rest with
  | EmptyString => Some (vault, v, id, None)
  | String "/" name =>
      if negb (String.eqb name "") && string_all (fun c => negb (Ascii.eqb c "/")) name then Some (vault, v, id, Some name) else None
  | _ => None
  end.
Definition FILE (key : string) : option (bool * (string * string * string * option string)) :=
  match after "o/v1/" key with
  | Some rest => pair true <$> file_parts rest
  | None => match after "db/v1/" key with Some rest => pair false <$> file_parts rest | None => None end
  end.
Definition MANIFEST (key : string) : option (string * string) :=
  rest ← after "m/v1/" key;
  '(vault, v, rest) ← in_vault UUID rest;
  if STAMP rest then Some (vault, v) else None.

(** [/^(?:o|db|m)\/v\d+\//]. *)
Definition client_namespace (key : string) : bool :=
  existsb (fun prefix =>
    match after prefix key with
    | Some rest => let '(v, rest) := span is_digit rest in negb (String.eqb v "") && starts_with "/" rest
    | None => false
    end) ["o/v"; "db/v"; "m/v"]%string.

Inductive ClientKind := KObject | KDatabase | KManifest.
#[export] Instance ClientKind_eq_dec : EqDecision ClientKind.
Proof. solve_decision. Defined.

Record ClientBackupContext := mkContext {
  c_bucket : string; c_key : string; c_vaultId : string; c_keyVersion : Z; c_kind : ClientKind; c_id : string }.

Definition clientBackupContext (bucket key : string) (expectedVaultId : option string) :
  res BackupError (option ClientBackupContext) :=
  let mismatch vaultId :=
    String.eqb bucket "" || (str_truthy expectedVaultId && negb (bool_decide (expectedVaultId = Some vaultId))) in
  match FILE key with
  | Some (is_object, (vaultId, v, id, name)) =>
      if mismatch vaultId then Throw VaultMismatch
      else if (is_object && bool_decide (name <> None)) || (negb is_object && bool_decide (name = None)) then Throw InvalidObjectKey
      else Ok (Some (mkContext bucket key vaultId (digits_value 0 v) (if is_object then KObject else KDatabase) id))
  | None =>
      match MANIFEST key with
      | Some (vaultId, v) =>
          if mismatch vaultId then Throw VaultMismatch
          else Ok (Some (mkContext bucket key vaultId (digits_value 0 v) KManifest key))
      | None => if client_namespace key then Throw UnsupportedFormat else Ok None
      end
  end.

(** When a run made its manifest, from its name. *)
Definition manifestTime (key : string) : option Z :=
  rest ← after "m/" key;
  stamp ← match after "v1/" rest with
          | Some rest => (fun p => p.2) <$> in_vault (string_all (fun c => is_hex c || Ascii.eqb c "-")) rest
          | None => Some rest
          end;
  if negb (STAMP stamp) then None else
  let at_ i n := string_take n (string_drop i stamp) in
  let iso := (at_ 0%nat 4%nat +:+ "-" +:+ at_ 4%nat 2%nat +:+ "-" +:+ at_ 6%nat 2%nat +:+ "T" +:+ at_ 9%nat 2%nat
              +:+ ":" +:+ at_ 11%nat 2%nat +:+ ":" +:+ at_ 13%nat 2%nat +:+ ".000Z")%string in
  if String.eqb (to_iso (scan_iso iso)) iso then Some (scan_iso iso) else None.

(** ** A manifest as a run wrote it *)

Record File := mkFile { f_sha256 : string; f_size : jsnum; f_objectKey : option json; f_role : string; f_path : string }.

(** [isFile], with the value read as what it is. *)
Definition isFile (value : json) : option File :=
  role ← as_string (json_get value "role");
  path ← as_string (json_get value "path");
  sha256 ← as_string (json_get value "sha256");
  size ← as_num (json_get value "size");
  if isSha256Hex sha256 && num_is_finite size && num_le (JInt 0) size
  then Some (mkFile sha256 size (json_get value "objectKey") role path) else None.

Record Asset := mkAsset { a_owner : option json; a_files : list File; a_record : list (string * json); a_details : option json }.

Record Manifest := mkManifest {
  m_version : Z;
  m_instanceId : string;
  m_createdAt : string;
  m_database : option json;
  m_assets : list (string * Asset);
  m_profiles : list (string * File);
  m_lockedKeys : list (string * File);
  m_albums : list (string * json);
  m_people : list (string * json)
}.

(** [manifest.x ?? {}], when it is an object. *)
Definition section (manifest : json) (key : string) : option (list (string * json)) :=
  match json_get manifest key with
  | None | Some JNull => Some []
  | Some (JObj fs) => Some fs
  | Some _ => None
  end.

(** All of a keyed group of files, or none when one is not a file. *)
Definition read_keyed (fs : list (string * json)) : option (list (string * File)) :=
  mapM (fun '(id, v) => pair id <$> isFile v) fs.

Definition all_files (assets : list (string * Asset)) (profiles lockedKeys : list (string * File)) : list File :=
  flat_map (fun '(_, a) => a_files a) assets ++ map snd profiles ++ map snd lockedKeys.

Section manifests.
Context {Body : Type} (decode : Body -> option json) (number_text : jsnum -> string).
(** What the zod schemas keep of an item's record and details, of an album and of a person. *)
Context (assetRecord : list (string * json) -> list (string * json)) (assetDetails albumSchema personSchema : json -> option json).

(** [String(value)]. *)
Fixpoint to_text (v : json) : string :=
  match v with
  | JNull => "null"
  | JBool b => if b then "true" else "false"
  | JNum n => number_text n
  | JStr s => s
  | JArr l => join "," (map (fun x => match x with JNull => "" | _ => to_text x end) l)
  | JObj _ => "[object Object]"
  end.
Definition text_of (v : option json) : string := match v with None => "undefined" | Some v => to_text v end.

Definition without (keys : list string) (fs : list (string * json)) : list (string * json) :=
  List.filter (fun '(k, _) => negb (includes k keys)) fs.

Definition readManifestAsset (asset : json) (files : list File) : Asset :=
  let fs := default [] (is_record (Some asset)) in
  mkAsset (json_get asset "owner") files (assetRecord (without ["owner"; "files"; "details"]%string fs))
    (json_get asset "details" ≫= assetDetails).

Definition readManifestSection (schema : json -> option json) (v : option json) : list (string * json) :=
  omap (fun '(id, v) => pair id <$> schema v) (default [] (is_record v)).

(** The files of an asset, when it is one and every file is. *)
Definition asset_files (asset : json) : option (list File) :=
  files ← as_arr (json_get asset "files");
  mapM isFile files.

(** [clientBackupContext(..., x)?.kind !== kind] throws or holds. *)
Definition named_in_vault (kind : ClientKind) (key : string) (instanceId : string) (e : BackupError) : res BackupError unit :=
  context ← clientBackupContext "validation" key (Some instanceId);
  ensure (match context with Some c => bool_decide (c_kind c = kind) | None => false end) e.

Definition check_reference (instanceId : string) (file : File) : res BackupError unit :=
  if truthy (f_objectKey file) then named_in_vault KObject (text_of (f_objectKey file)) instanceId InvalidReference
  else Throw InvalidReference.

Definition readManifest (body : Body) : res BackupError Manifest :=
  match decode body with
  | None => Throw Unreadable
  | Some manifest =>
      match json_get manifest "format", as_int (json_get manifest "version"), as_string (json_get manifest "instanceId"),
            json_get manifest "assets" with
      | Some (JStr format), Some version, Some instanceId, Some (JObj assets) =>
          if negb (String.eqb format CLOUD_BACKUP_MANIFEST_FORMAT && includes version [1; 2; 3]) then Throw NotAManifest else
          match mapM (fun '(id, v) => (fun files => (id, v, files)) <$> asset_files v) assets with
          | None => Throw FileWithoutChecksum
          | Some assets =>
          match section manifest "profiles" ≫= read_keyed with
          | None => Throw FileWithoutChecksum
          | Some profiles =>
          match section manifest "lockedKeys" ≫= fun fs => if forallb (fun '(k, _) => isLockedKeyUserId k) fs then read_keyed fs else None with
          | None => Throw FileWithoutChecksum
          | Some lockedKeys =>
          let database := match json_get manifest "database" with Some JNull => None | d => d end in
          let database_key := match database with Some d => json_get d "key" | None => None end in
          let database_sha := match database with Some d => json_get d "sha256" | None => None end in
          _ ← (if truthy database then
                 ensure (bool_decide (is_Some (as_string database_key)) && isSha256Hex (text_of database_sha)) DumpWithoutChecksum
               else Ok tt);
          let files := flat_map (fun '(_, _, fs) => fs) assets ++ map snd profiles ++ map snd lockedKeys in
          _ ← (if version =? 3 then
                 _ ← traverse (check_reference instanceId) files;
                 (if truthy database then named_in_vault KDatabase (text_of database_key) instanceId InvalidDatabaseReference else Ok tt)
               else ensure (forallb (fun f => bool_decide (f_objectKey f = None)) files) ClientReferencesInLegacy);
          let v2 := negb (version =? 1) in
          Ok (mkManifest version instanceId (default "" (as_string (json_get manifest "createdAt"))) database
            (map (fun '(id, v, fs) => (id, if v2 then readManifestAsset v fs else mkAsset (json_get v "owner") fs [] None)) assets)
            profiles lockedKeys
            (if v2 then readManifestSection albumSchema (json_get manifest "albums") else [])
            (if v2 then readManifestSection personSchema (json_get manifest "people") else []))
          end end end
      | _, _, _, _ => Throw NotAManifest
      end
  end.

(** ** What a manifest names *)

Definition manifestFileObjectKey (file : File) : res BackupError json :=
  match f_objectKey file with
  | None | Some JNull => JStr <$> objectKey (f_sha256 file)
  | Some key => Ok key
  end.

Record References := mkReferences {
  r_objects : list (string * jsnum);
  r_storageKeys : list (string * list json);
  r_database : option json
}.

(** [new Set([...keys, key])]: equal strings are one member, any other value is one of its own. *)
Definition add_key (keys : list json) (key : json) : list json :=
  if existsb (fun k => match k, key with JStr a, JStr b => String.eqb a b | _, _ => false end) keys then keys else keys ++ [key].

Definition reference (refs : list (string * jsnum) * list (string * list json)) (file : File) :
  res BackupError (list (string * jsnum) * list (string * list json)) :=
  key ← manifestFileObjectKey file;
  Ok (assoc_set (f_sha256 file) (f_size file) refs.1,
      assoc_set (f_sha256 file) (add_key (default [] (assoc_get (f_sha256 file) refs.2)) key) refs.2).

Fixpoint reference_all (files : list File) refs :=
  match files with
  | [] => Ok refs
  | f :: fs => refs' ← reference refs f; reference_all fs refs'
  end.

Definition manifestReferences (m : Manifest) : res BackupError References :=
  refs ← reference_all (all_files (m_assets m) (m_profiles m) (m_lockedKeys m)) ([], []);
  Ok (mkReferences refs.1 refs.2 (match m_database m ≫= fun d => json_get d "key" with Some JNull => None | k => k end)).
End manifests.

(** ** Lemmas *)

Lemma after_spec prefix s t : after prefix s = Some t <-> s = (prefix +:+ t)%string.
Proof.
  unfold after. split.
  - destruct (starts_with prefix s) eqn:Hs; [|done]. intros [= <-].
    apply starts_with_spec in Hs as [t ->]. by rewrite string_drop_app.
  - intros ->. by rewrite starts_with_app, string_drop_app.
Qed.

Lemma isFile_sha256 v f : isFile v = Some f -> isSha256Hex (f_sha256 f) = true.
Proof.
  unfold isFile. destruct (as_string (json_get v "role")) as [r|]; [|done]. destruct (as_string (json_get v "path")) as [p|]; [|done].
  destruct (as_string (json_get v "sha256")) as [s|]; [|done]. destruct (as_num (json_get v "size")) as [n|]; [|done].
  cbn [mbind option_bind]. destruct (isSha256Hex s) eqn:Hs; [|done]. cbn [andb].
  destruct (num_is_finite n && num_le (JInt 0) n); [|done]. by intros [= <-].
Qed.

Lemma mapM_elem {A B} (f : A -> option B) l k y : mapM f l = Some k -> y ∈ k -> exists x, x ∈ l /\ f x = Some y.
Proof.
  intros H%mapM_Some. induction H as [|x z l k Hf _ IH]; [by intros ?%not_elem_of_nil|].
  intros [->|Hy]%elem_of_cons; [exists x; set_solver|]. destruct (IH Hy) as (w & ? & ?). exists w. set_solver.
Qed.
Lemma mapM_elem_fwd {A B} (f : A -> option B) l k x : mapM f l = Some k -> x ∈ l -> exists y, y ∈ k /\ f x = Some y.
Proof.
  intros H%mapM_Some. induction H as [|w z l k Hf _ IH]; [by intros ?%not_elem_of_nil|].
  intros [->|Hx]%elem_of_cons; [exists z; set_solver|]. destruct (IH Hx) as (y & ? & ?). exists y. set_solver.
Qed.

Lemma read_keyed_sha256 fs l f : read_keyed fs = Some l -> f ∈ map snd l -> isSha256Hex (f_sha256 f) = true.
Proof.
  intros Hl ([id f'] & -> & Hin)%list_elem_of_fmap. destruct (mapM_elem _ _ _ _ Hl Hin) as ([k v] & _ & Hf).
  destruct (isFile v) as [g|] eqn:Hg; [|done]. simpl in Hf. injection Hf as _ <-. by eapply isFile_sha256.
Qed.
Lemma read_keyed_elem fs l k v : read_keyed fs = Some l -> (k, v) ∈ fs -> exists f, isFile v = Some f /\ f ∈ map snd l.
Proof.
  intros Hl Hin. destruct (mapM_elem_fwd _ _ _ _ Hl Hin) as ([id f] & Hf & Heq).
  destruct (isFile v) as [g|] eqn:Hg; [|done]. simpl in Heq. injection Heq as <- <-. exists g. split; [done|].
  apply list_elem_of_fmap. by exists (k, g).
Qed.

(** The parts of a manifest that has been read. *)
Section read.
Context {Body : Type} (decode : Body -> option json) (number_text : jsnum -> string).
Context (assetRecord : list (string * json) -> list (string * json)) (assetDetails albumSchema personSchema : json -> option json).
Abbreviation readManifest := (readManifest decode number_text assetRecord assetDetails albumSchema personSchema).

Record read_parts (j : json) (m : Manifest) : Prop := {
  rp_assets : exists fs l, json_get j "assets" = Some (JObj fs) /\
    mapM (fun '(id, v) => (fun files => (id, v, files)) <$> asset_files v) fs = Some l /\
    flat_map (fun '(_, a) => a_files a) (m_assets m) = flat_map (fun '(_, _, fs) => fs) l;
  rp_profiles : (section j "profiles" ≫= read_keyed) = Some (m_profiles m);
  rp_locked : (section j "lockedKeys" ≫= fun fs => if forallb (fun '(k, _) => isLockedKeyUserId k) fs then read_keyed fs else None)
    = Some (m_lockedKeys m);
  rp_database : m_database m = match json_get j "database" with Some JNull => None | d => d end;
  rp_instance : json_get j "instanceId" = Some (JStr (m_instanceId m));
  rp_dump : truthy (m_database m) = true -> exists d key, m_database m = Some d /\ json_get d "key" = Some (JStr key);
  rp_version : m_version m = 1 \/ m_version m = 2 \/ m_version m = 3;
  rp_references : if m_version m =? 3
    then forall f, f ∈ all_files (m_assets m) (m_profiles m) (m_lockedKeys m) ->
      check_reference number_text (m_instanceId m) f = Ok tt
    else forall f, f ∈ all_files (m_assets m) (m_profiles m) (m_lockedKeys m) -> f_objectKey f = None
}.

Lemma readManifest_parts body m : readManifest body = Ok m -> exists j, decode body = Some j /\ read_parts j m.
Proof.
  unfold CloudBackupManifest.readManifest. destruct (decode body) as [j|] eqn:Hd; [|done]. intros H. exists j. split; [done|].
  destruct (json_get j "format") as [[| | |format| |]|] eqn:Hfmt; try done.
  destruct (as_int (json_get j "version")) as [version|] eqn:Hv; [|done].
  destruct (as_string (json_get j "instanceId")) as [instanceId|] eqn:Hi; [|done].
  destruct (json_get j "assets") as [[| | | | |fs]|] eqn:Ha; try done.
  destruct (String.eqb format CLOUD_BACKUP_MANIFEST_FORMAT && includes version [1; 2; 3]) eqn:Hok; [|done]. cbn [negb] in H.
  destruct (mapM _ fs) as [assets|] eqn:Hassets; [|done].
  destruct (section j "profiles" ≫= read_keyed) as [profiles|] eqn:Hp; [|done].
  destruct (section j "lockedKeys" ≫= _) as [locked|] eqn:Hl; [|done].
  set (database := match json_get j "database" with Some JNull => None | d => d end) in *.
  cbv zeta in H. apply bind_Ok in H as ([] & Hdump & H). apply bind_Ok in H as ([] & Href & H). injection H as <-.
  assert (flat_map (fun '(_, a) => a_files a)
    (map (fun '(id, v, fs0) => (id, if negb (version =? 1) then readManifestAsset assetRecord assetDetails v fs0
       else mkAsset (json_get v "owner") fs0 [] None)) assets)
    = flat_map (fun '(_, _, fs0) => fs0) assets) as Hfiles.
  { clear. induction assets as [|[[id v] fs0] l IH]; [done|]. cbn [map flat_map]. rewrite IH.
    by destruct (negb (version =? 1)). }
  split; cbn [m_assets m_profiles m_lockedKeys m_database m_instanceId m_version]; try done.
  - exists fs, assets. done.
  - destruct (json_get j "instanceId") as [[| | |s| |]|]; try done. by injection Hi as ->.
  - intros Ht. rewrite Ht in Hdump. apply ensure_Ok, andb_true_iff in Hdump as [Hdump _]. apply bool_decide_eq_true_1 in Hdump.
    destruct database as [d|]; [|done]. destruct Hdump as [key Hkey]. exists d, key. split; [done|].
    destruct (json_get d "key") as [[| | |s| |]|]; try done. by injection Hkey as ->.
  - apply andb_true_iff in Hok as [_ Hin%includes_true]. set_solver.
  - unfold all_files. rewrite Hfiles. destruct (version =? 3).
    + apply bind_Ok in Href as (us & Hus & _). apply traverse_Ok in Hus. intros f Hf.
      apply list_elem_of_lookup_1 in Hf as [i Hf]. destruct (Forall2_lookup_l _ _ _ _ _ Hus Hf) as ([] & _ & Hc). done.
    + apply ensure_Ok in Href. rewrite forallb_forall in Href. intros f Hf%list_elem_of_In. apply Href in Hf. by to_prop.
Qed.

Lemma read_file_sha256 j m f : read_parts j m -> f ∈ all_files (m_assets m) (m_profiles m) (m_lockedKeys m) ->
  isSha256Hex (f_sha256 f) = true.
Proof.
  intros [(fs & l & _ & Hl & Hfl) Hp Hk _ _ _ _ _]. unfold all_files. rewrite Hfl, !elem_of_app. intros [Hf|[Hf|Hf]].
  - apply elem_of_flat_map in Hf as ([[id v] files] & Hin & Hf).
    destruct (mapM_elem _ _ _ _ Hl Hin) as ([k w] & _ & Heq). destruct (asset_files w) as [gs|] eqn:Hgs; [|done].
    simpl in Heq. injection Heq as <- <- <-. unfold asset_files in Hgs.
    destruct (as_arr (json_get w "files")) as [items|]; [|done]. cbn [mbind option_bind] in Hgs.
    destruct (mapM_elem _ _ _ _ Hgs Hf) as (x & _ & Hx). by eapply isFile_sha256.
  - destruct (section j "profiles"); [|done]. by eapply read_keyed_sha256.
  - destruct (section j "lockedKeys") as [ks|]; [|done]. cbn [mbind option_bind] in Hk.
    destruct (forallb _ ks); [|done]. by eapply read_keyed_sha256.
Qed.
End read.

(** ** References *)

Lemma add_key_in keys key : key ∈ add_key keys key.
Proof.
  unfold add_key. destruct (existsb _ keys) eqn:He; [|set_solver].
  apply existsb_exists in He as (k & Hk & Heq). destruct k, key; try done. apply String.eqb_eq in Heq as ->.
  by apply list_elem_of_In.
Qed.
Lemma add_key_elem keys key k : k ∈ add_key keys key <-> k ∈ keys \/ k = key.
Proof.
  split.
  - unfold add_key. destruct (existsb _ keys); set_solver.
  - intros [Hk| ->]; [|apply add_key_in]. unfold add_key. destruct (existsb _ keys); set_solver.
Qed.

Definition stored_under (refs : list (string * jsnum) * list (string * list json)) (sha : string) (key : json) : Prop :=
  sha ∈ map fst refs.1 /\ exists keys, assoc_get sha refs.2 = Some keys /\ key ∈ keys.

Lemma reference_stored refs f refs' key : reference refs f = Ok refs' -> manifestFileObjectKey f = Ok key ->
  forall sha k, stored_under refs' sha k <-> stored_under refs sha k \/
    (sha = f_sha256 f /\ (k = key \/ exists keys, assoc_get sha refs.2 = Some keys /\ k ∈ keys)) \/
    (sha = f_sha256 f /\ sha ∈ map fst refs.1 /\ k = key).
Proof.
  intros Hr Hk sha k. unfold reference in Hr. rewrite Hk in Hr. injection Hr as <-.
  unfold stored_under. cbn [fst snd]. rewrite assoc_set_keys, assoc_get_set.
  destruct (decide (sha = f_sha256 f)) as [->|Hne].
  - assert (forall l : list string, f_sha256 f ∈ (if decide (f_sha256 f ∈ l) then l else l ++ [f_sha256 f])) as Hin.
    { intros l. case_decide; set_solver. }
    split.
    + intros (_ & keys & [= <-] & [Hin'|Heq]%add_key_elem); [|naive_solver].
      right; left. split; [done|]. right. destruct (assoc_get _ refs.2) eqn:E; [|by apply not_elem_of_nil in Hin']. naive_solver.
    + intros H. split; [apply Hin|]. eexists. split; [done|]. apply add_key_elem.
      destruct H as [(_ & keys & -> & ?)|[(_ & [->|(keys & -> & ?)])|(_ & _ & ->)]]; naive_solver.
  - split.
    + intros (Hin & ?). left. split; [|done]. case_decide; set_solver.
    + intros [(Hin & ?)|[[]|[]]]; [|done|done]. split; [|done]. case_decide; set_solver.
Qed.

(** The two maps of the references have the same keys. *)
Lemma reference_keys refs f refs' : reference refs f = Ok refs' -> map fst refs.1 = map fst refs.2 ->
  map fst refs'.1 = map fst refs'.2.
Proof.
  intros (key & _ & [= <-])%bind_Ok He. cbn [fst snd]. by rewrite !assoc_set_keys, He.
Qed.

Lemma reference_all_keys files refs refs' : reference_all files refs = Ok refs' -> map fst refs.1 = map fst refs.2 ->
  map fst refs'.1 = map fst refs'.2.
Proof.
  revert refs; induction files as [|f files IH]; intros refs; [by intros [= <-]|]. cbn [reference_all].
  intros (r & Hr & H)%bind_Ok He. apply (IH r H). by eapply reference_keys.
Qed.

Lemma reference_all_spec files refs : map fst refs.1 = map fst refs.2 ->
  (forall f, f ∈ files -> exists key, manifestFileObjectKey f = Ok key) ->
  exists refs', reference_all files refs = Ok refs' /\ forall sha k, stored_under refs' sha k <->
    stored_under refs sha k \/ exists f, f ∈ files /\ f_sha256 f = sha /\ manifestFileObjectKey f = Ok k.
Proof.
  revert refs; induction files as [|f files IH]; intros refs He Hall.
  { exists refs. split; [done|]. intros sha k. split; [by left|]. by intros [?|(f & Hf%not_elem_of_nil & _)]. }
  destruct (Hall f) as [key Hkey]; [set_solver|]. cbn [reference_all].
  destruct (reference refs f) as [r|e] eqn:Hr; [|unfold reference in Hr; by rewrite Hkey in Hr]. res_step.
  pose proof (reference_keys _ _ _ Hr He) as He'.
  destruct (IH r He') as (refs' & Hrefs & Hspec); [set_solver|]. exists refs'. split; [done|].
  intros sha k. rewrite Hspec, (reference_stored _ _ _ _ Hr Hkey). split.
  - intros [[H|[(-> & [->|(keys & Hg & Hin)])|(-> & _ & ->)]]|(g & Hg & Hsha & Hk)].
    + by left.
    + right. exists f. set_solver.
    + left. split; [|by exists keys]. rewrite He. apply list_elem_of_fmap.
      apply assoc_get_Some_elem in Hg. by exists (f_sha256 f, keys).
    + right. exists f. set_solver.
    + right. exists g. set_solver.
  - intros [H|(g & [->|Hg]%elem_of_cons & Hsha & Hk)].
    + by left; left.
    + left; right; left. rewrite Hkey in Hk. naive_solver.
    + right. by exists g.
Qed.

Lemma reference_all_objects files refs refs' : reference_all files refs = Ok refs' ->
  forall sha, sha ∈ map fst refs'.1 -> sha ∈ map fst refs.1 \/ sha ∈ map f_sha256 files.
Proof.
  revert refs; induction files as [|f files IH]; intros refs; cbn [reference_all]; [intros [= <-]; auto|].
  intros (r & (key & _ & [= <-])%bind_Ok & H)%bind_Ok sha Hsha. cbn [map]. rewrite elem_of_cons.
  destruct (IH _ H sha Hsha) as [Hin|Hin]; [|auto]. cbn [fst] in Hin. rewrite assoc_set_keys in Hin.
  revert Hin. case_decide; [auto|]. rewrite elem_of_app, list_elem_of_singleton. tauto.
Qed.

Lemma file_key_total f : isSha256Hex (f_sha256 f) = true -> exists key, manifestFileObjectKey f = Ok key.
Proof.
  intros H. unfold manifestFileObjectKey, objectKey. rewrite H.
  destruct (f_objectKey f) as [[]|]; eexists; reflexivity.
Qed.

(** A value where a manifest lists its files. *)
Definition json_file (j v : json) : Prop :=
  (exists fs id a items, json_get j "assets" = Some (JObj fs) /\ (id, a) ∈ fs /\ json_get a "files" = Some (JArr items) /\ v ∈ items) \/
  (exists fs id, json_get j "profiles" = Some (JObj fs) /\ (id, v) ∈ fs) \/
  (exists fs id, json_get j "lockedKeys" = Some (JObj fs) /\ (id, v) ∈ fs).

Section named.
Context {Body : Type} (decode : Body -> option json) (number_text : jsnum -> string).
Context (assetRecord : list (string * json) -> list (string * json)) (assetDetails albumSchema personSchema : json -> option json).
Abbreviation readManifest := (readManifest decode number_text assetRecord assetDetails albumSchema personSchema).

Lemma read_every_file j m v : read_parts number_text j m -> json_file j v ->
  exists f, isFile v = Some f /\ f ∈ all_files (m_assets m) (m_profiles m) (m_lockedKeys m).
Proof.
  intros [(fs & l & Hfs & Hl & Hfl) Hp Hk _ _ _ _ _] Hv. unfold all_files. rewrite Hfl.
  destruct Hv as [(fs' & id & a & items & Hfs' & Hin & Hitems & Hv)|[(fs' & id & Hfs' & Hin)|(fs' & id & Hfs' & Hin)]].
  - rewrite Hfs in Hfs'. injection Hfs' as <-. destruct (mapM_elem_fwd _ _ _ _ Hl Hin) as ([[id' a'] files] & Hin' & Heq).
    destruct (asset_files a) as [gs|] eqn:Hgs; [|done]. simpl in Heq. injection Heq as <- <- <-.
    unfold asset_files in Hgs. rewrite Hitems in Hgs. cbn [as_arr mbind option_bind] in Hgs.
    destruct (mapM_elem_fwd _ _ _ _ Hgs Hv) as (f & Hf & Hfile). exists f. split; [done|].
    apply elem_of_app. left. apply elem_of_flat_map. exists (id, a, gs). done.
  - unfold section in Hp. rewrite Hfs' in Hp. destruct (read_keyed_elem _ _ _ _ Hp Hin) as (f & ? & ?).
    exists f. rewrite !elem_of_app. auto.
  - unfold section in Hk. rewrite Hfs' in Hk. cbn [mbind option_bind] in Hk. destruct (forallb _ fs'); [|done].
    destruct (read_keyed_elem _ _ _ _ Hk Hin) as (f & ? & ?). exists f. rewrite !elem_of_app. auto.
Qed.

Lemma object_context bucket k vault c : clientBackupContext bucket k vault = Ok (Some c) -> c_kind c = KObject ->
  starts_with "o/v1/" k = true.
Proof using Type.
  unfold clientBackupContext. destruct (FILE k) as [[o [[[v ver] id] name]]|] eqn:HF.
  - destruct (_ || _); [done|]. destruct (_ || _); [done|]. intros [= <-]. cbn [c_kind]. destruct o; [|done]. intros _.
    unfold FILE in HF. destruct (after "o/v1/" k) as [rest|] eqn:Ha.
    + apply after_spec in Ha as ->. apply starts_with_app.
    + destruct (after "db/v1/" k) as [rest|]; [|done]. by destruct (file_parts rest).
  - destruct (MANIFEST k) as [[v ver]|]; [|by destruct (client_namespace k)]. destruct (_ || _); [done|]. by intros [= <-].
Qed.

(** What a manifest that was read names. *)
Lemma references_of j m : read_parts number_text j m ->
  exists refs, manifestReferences m = Ok refs /\ map fst (r_objects refs) = map fst (r_storageKeys refs) /\
    (forall sha k, stored_under (r_objects refs, r_storageKeys refs) sha k <->
      exists f, f ∈ all_files (m_assets m) (m_profiles m) (m_lockedKeys m) /\ f_sha256 f = sha /\ manifestFileObjectKey f = Ok k).
Proof.
  intros P.
  destruct (reference_all_spec (all_files (m_assets m) (m_profiles m) (m_lockedKeys m)) ([], []) eq_refl) as (refs & Hrefs & Hspec).
  { intros f Hf. by eapply file_key_total, read_file_sha256. }
  exists (mkReferences refs.1 refs.2 (match m_database m ≫= fun d => json_get d "key" with Some JNull => None | k => k end)).
  split; [unfold manifestReferences; by rewrite Hrefs|]. split; [by eapply reference_all_keys|].
  intros sha k. cbn [r_objects r_storageKeys]. rewrite <- surjective_pairing, Hspec. split; [|by right].
  intros [(H & _)|H]; [by apply not_elem_of_nil in H|done].
Qed.

Lemma objects_sha256 body m refs sha : readManifest body = Ok m -> manifestReferences m = Ok refs ->
  sha ∈ map fst (r_objects refs) -> isSha256Hex sha = true.
Proof.
  intros Hm (r & Hr & [= <-])%bind_Ok Hin. cbn [r_objects] in Hin.
  destruct (readManifest_parts _ _ _ _ _ _ _ _ Hm) as (j & _ & P).
  destruct (reference_all_objects _ _ _ Hr sha Hin) as [H|(f & -> & Hf)%list_elem_of_fmap]; [by apply not_elem_of_nil in H|].
  by eapply read_file_sha256.
Qed.

(** The keys a manifest names are names of objects, in its own vault when it has one. *)
Lemma named_keys j m f key : read_parts number_text j m -> f ∈ all_files (m_assets m) (m_profiles m) (m_lockedKeys m) ->
  manifestFileObjectKey f = Ok key ->
  (m_version m <> 3 -> key = JStr (CLOUD_BACKUP_OBJECT_PREFIX +:+ f_sha256 f)%string) /\
  (m_version m = 3 -> forall k, key = JStr k -> exists c,
     clientBackupContext "validation" k (Some (m_instanceId m)) = Ok (Some c) /\ c_kind c = KObject).
Proof.
  intros P Hin Hkey. pose proof (rp_references _ _ _ P) as Hr. split.
  - intros Hv. destruct (Z.eqb_spec (m_version m) 3); [done|]. unfold manifestFileObjectKey in Hkey.
    rewrite (Hr f Hin) in Hkey. unfold objectKey in Hkey. destruct (isSha256Hex (f_sha256 f)); [|done]. by injection Hkey as <-.
  - intros Hv k ->. rewrite Hv in Hr. specialize (Hr f Hin). unfold manifestFileObjectKey in Hkey.
    unfold check_reference in Hr. destruct (f_objectKey f) as [o|]; [|done].
    destruct (truthy (Some o)) eqn:Ht; [|done].
    destruct o; [done|discriminate|discriminate| |discriminate|discriminate]. injection Hkey as ->.
    apply bind_Ok in Hr as ([c|] & Hc & Hr); apply ensure_Ok in Hr; [|done]. exists c. split; [done|]. by apply bool_decide_eq_true_1 in Hr.
Qed.

(** A manifest that can be read at all is read in full: every value it lists as a file is a file with
    a checksum, each is among what the manifest names, under its checksum and the key a restore would
    fetch, nothing else is, and the dump it has is named.  A client-format manifest names only objects of
    its own vault, a legacy one only objects by their checksum. *)
Theorem readManifest_in_full (body : Body) (m : Manifest) (read : readManifest body = Ok m) :
  exists j refs, decode body = Some j /\ manifestReferences m = Ok refs /\
    (forall v, json_file j v -> exists f key, isFile v = Some f /\ manifestFileObjectKey f = Ok key /\
       stored_under (r_objects refs, r_storageKeys refs) (f_sha256 f) key) /\
    (forall sha key, stored_under (r_objects refs, r_storageKeys refs) sha key -> isSha256Hex sha = true /\
       (m_version m <> 3 -> key = JStr (CLOUD_BACKUP_OBJECT_PREFIX +:+ sha)%string) /\
       (m_version m = 3 -> forall k, key = JStr k -> exists c,
          clientBackupContext "validation" k (Some (m_instanceId m)) = Ok (Some c) /\ c_kind c = KObject)) /\
    (truthy (json_get j "database") = true -> exists key, r_database refs = Some (JStr key)).
Proof.
  destruct (readManifest_parts _ _ _ _ _ _ _ _ read) as (j & Hj & P).
  destruct (references_of j m P) as (refs & Hrefs & _ & Hspec). exists j, refs.
  split; [done|]. split; [done|]. split; [|split].
  - intros v Hv. destruct (read_every_file j m v P Hv) as (f & Hf & Hin).
    destruct (file_key_total f (isFile_sha256 _ _ Hf)) as [key Hkey]. exists f, key. rewrite Hspec. naive_solver.
  - intros sha key (f & Hin & <- & Hkey)%Hspec. split; [by eapply read_file_sha256|]. by eapply named_keys.
  - intros Ht. assert (truthy (m_database m) = true) as Ht'.
    { rewrite (rp_database _ _ _ P). destruct (json_get j "database") as [[]|]; done. }
    destruct (rp_dump _ _ _ P Ht') as (d & key & Hd & Hkey). exists key.
    unfold manifestReferences in Hrefs. destruct (reference_all _ _) as [r|]; [|done]. injection Hrefs as <-.
    cbn [r_database]. rewrite Hd. cbn [mbind option_bind]. by rewrite Hkey.
Qed.
End named.

(** ** A manifest *)

Definition sample_sha : string := "00000000000000000000000000000000000000000000000000000000000000aa".
Definition sample_file : json :=
  JObj [("role", JStr "original"); ("path", JStr "/a.jpg"); ("sha256", JStr sample_sha); ("size", JNum (JInt 7))]%string.
Definition sample_manifest : json :=
  JObj [("format", JStr CLOUD_BACKUP_MANIFEST_FORMAT); ("version", JNum (JInt 2)); ("instanceId", JStr "i");
        ("database", JObj [("key", JStr "db/dump.sql.gz"); ("sha256", JStr sample_sha)]);
        ("assets", JObj [("a1", JObj [("owner", JNull); ("files", JArr [sample_file])])])]%string.
Definition sample_read : res BackupError Manifest :=
  readManifest Some (fun _ => "") (fun fs => fs) Some Some Some sample_manifest.

Lemma readManifest_in_full_witness :
  exists m refs, sample_read = Ok m /\ manifestReferences m = Ok refs /\
    stored_under (r_objects refs, r_storageKeys refs) sample_sha (JStr (CLOUD_BACKUP_OBJECT_PREFIX +:+ sample_sha)).
Proof.
  destruct sample_read as [m|e] eqn:Hread; [|by vm_compute in Hread].
  destruct (readManifest_in_full Some (fun _ => ""%string) (fun fs => fs) Some Some Some sample_manifest m Hread)
    as (j & refs & Hj & Hrefs & Hall & _).
  injection Hj as <-. exists m, refs. split; [done|]. split; [done|].
  destruct (Hall sample_file) as (f & key & Hf & Hkey & Hst).
  { left. do 4 eexists. split; [reflexivity|]. split; [left|]. split; [reflexivity|]. left. }
  vm_compute in Hf. injection Hf as <-. vm_compute in Hkey. injection Hkey as <-. exact Hst.
Defined.

(** A client-format manifest may name an object by a list of one name: the pattern is tested against the
    list's text, but a set of names does not have it. *)
Definition listed_key : json := JArr [JStr ("o/v1/01234567-89ab-cdef-0123-456789abcdef/1/" +:+ sample_sha)].
Example listed_key_passes :
  check_reference (fun _ => ""%string) "01234567-89ab-cdef-0123-456789abcdef" (mkFile sample_sha (JInt 7) (Some listed_key) "original" "/a.jpg") = Ok tt.
Proof. vm_compute. reflexivity. Qed.
