(* ===== verification/CloudBackupRetention.v ===== *)
(** * Cloud backup retention ([server/src/utils/cloud-backup-retention.ts])

    Which manifests a bucket keeps, what in it no kept manifest names, and which objects a weekly
    verification checks. *)

From S2P Require Import Prelude JsNumber JsString JsDate CloudBackupManifest.
Local Open Scope Z_scope.

Record CloudBackupRetention := mkRetention { keepDaily : Z; keepWeekly : Z; keepMonthly : Z }.
Record CloudBackupRetentionCandidate := mkCandidate { key : string; createdAt : Z }.

Definition CLOUD_BACKUP_VERIFY_SLICES : Z := 52.
Definition CLOUD_BACKUP_FULL_VERIFY_INTERVAL_MS : Z := 30 * 24 * 60 * 60 * 1000.
Definition CLOUD_BACKUP_SAMPLE_VERIFY_INTERVAL_MS : Z := 7 * 24 * 60 * 60 * 1000.
Definition DAY_MS : Z := 24 * 60 * 60 * 1000.
Definition WEEK_MS : Z := 7 * DAY_MS.

(** ** Periods *)

Definition dayOf (date : Z) : string := string_take 10 (to_iso date).
Definition monthOf (date : Z) : string := string_take 7 (to_iso date).

(** The day [Date.UTC(year, month, date)] is on: years 0 to 99 are taken as 1900 to 1999. *)
Definition utc_day (year month date : Z) : Z :=
  days_from_civil (if (0 <=? year) && (year <=? 99) then 1900 + year else year) month date.

Definition isoWeekOf (date : Z) : string :=
  let '(y, m, d) := civil_from_days (date / MS_PER_DAY) in
  let day := utc_day y m d in
  let day := day + 4 - (if week_day day =? 0 then 7 else week_day day) in
  let '(year, _, _) := civil_from_days day in
  let week := - (- (day - utc_day year 1 1 + 1) / 7) in
  (string_of_int year +:+ "-W" +:+ pad 2 week)%string.

(** ** What is kept *)

Definition newest_first (a b : CloudBackupRetentionCandidate) : Z :=
  or_cmp (createdAt b - createdAt a) (compareCodeUnits (key b) (key a)).

Definition rules (retention : CloudBackupRetention) : list (Z * (Z -> string)) :=
  [(keepDaily retention, dayOf); (keepWeekly retention, isoWeekOf); (keepMonthly retention, monthOf)].

(** The keys one rule keeps, having met the given periods. *)
Fixpoint kept_by (count : Z) (periodOf : Z -> string) (periods : list string) (manifests : list CloudBackupRetentionCandidate) : list string :=
  match manifests with
  | [] => []
  | manifest :: manifests =>
      if count <=? Z.of_nat (length periods) then [] else
      let period := periodOf (createdAt manifest) in
      if includes period periods then kept_by count periodOf periods manifests
      else key manifest :: kept_by count periodOf (period :: periods) manifests
  end.

Definition kept_keys (retention : CloudBackupRetention) (newestFirst : list CloudBackupRetentionCandidate) : list string :=
  option_list (key <$> head newestFirst) ++
  flat_map (fun '(count, periodOf) => kept_by count periodOf [] newestFirst) (rules retention).

Record RetentionPlan := mkPlan { keep : list CloudBackupRetentionCandidate; remove : list CloudBackupRetentionCandidate }.

Definition retentionPlan (manifests : list CloudBackupRetentionCandidate) (retention : CloudBackupRetention) : RetentionPlan :=
  let newestFirst := sort_by newest_first manifests in
  let kept := kept_keys retention newestFirst in
  mkPlan (List.filter (fun m => includes (key m) kept) newestFirst)
         (List.filter (fun m => negb (includes (key m) kept)) newestFirst).

(** ** What nothing names *)

(** [referenced.has(key)] of a set of keys read from manifests. *)
Definition has (referenced : list json) (k : string) : bool :=
  existsb (fun j => match j with JStr s => String.eqb s k | _ => false end) referenced.

Section unreferenced.
Context {T : Type} (keyOf : T -> string).

(** An object is offered when it is one of the backup's and nothing kept names it; a client-format name
    that is not well formed stops the whole clean-up. *)
Definition object_unreferenced (referenced : list json) (k : string) : res BackupError bool :=
  match after CLOUD_BACKUP_OBJECT_PREFIX k with
  | None => Ok false
  | Some sha256 =>
      if starts_with "o/v1/" k then
        context ← clientBackupContext "validation" k None;
        Ok (bool_decide (is_Some context) && negb (has referenced k))
      else Ok (isSha256Hex sha256 && negb (has referenced sha256))
  end.

Fixpoint unreferencedObjects (objects : list T) (referenced : list json) : res BackupError (list T) :=
  match objects with
  | [] => Ok []
  | object :: objects =>
      b ← object_unreferenced referenced (keyOf object);
      rest ← unreferencedObjects objects referenced;
      Ok (if (b : bool) then object :: rest else rest)
  end.

Definition unreferencedDumps (objects : list T) (referenced : list json) : list T :=
  List.filter (fun object => starts_with CLOUD_BACKUP_DB_PREFIX (keyOf object) && negb (has referenced (keyOf object))) objects.
End unreferenced.

(** ** Verification *)

(** JavaScript's [%]: the sign of the dividend. *)
Definition verifySliceOf (date : Z) : Z := Z.rem (date / WEEK_MS) CLOUD_BACKUP_VERIFY_SLICES.

Definition hex_digit (c : ascii) : Z := if is_digit c then digit_value c else char_code c - 87.
Fixpoint hex_value (acc : Z) (s : string) : Z :=
  match s with EmptyString => acc | String c s' => hex_value (16 * acc + hex_digit c) s' end.
(** [Number.parseInt(s, 16)] of a digest's digits: as far as they go, NaN when there are none. *)
Definition parse_hex (s : string) : option Z :=
  let digits := (span is_hex s).1 in if String.eqb digits "" then None else Some (hex_value 0 digits).

Definition inVerifySlice (sha256 : string) (slice : Z) : bool :=
  match parse_hex (string_take 8 sha256) with
  | Some n => n mod CLOUD_BACKUP_VERIFY_SLICES =? slice
  | None => false
  end.

Inductive VerifyDepth := Full | Sample.
#[export] Instance VerifyDepth_eq_dec : EqDecision VerifyDepth.
Proof. solve_decision. Defined.

Record VerifyOptions := mkVerifyOptions { verifyWeekly : bool; lastFullAt : option string; lastSampleAt : option string }.

Section due.
Context (other_formats : string -> option Z).

(** At least [interval] since [value]; a missing or unreadable time is forever ago. *)
Definition since_at_least (now interval : Z) (value : option string) : bool :=
  match value with
  | Some v => if String.eqb v "" then true else
              match date_parse other_formats v with Some t => interval <=? now - t | None => true end
  | None => true
  end.

Definition verificationDue (options : VerifyOptions) (now : Z) : option VerifyDepth :=
  if negb (verifyWeekly options) then None
  else if since_at_least now CLOUD_BACKUP_FULL_VERIFY_INTERVAL_MS (lastFullAt options) then Some Full
  else if since_at_least now CLOUD_BACKUP_SAMPLE_VERIFY_INTERVAL_MS (lastSampleAt options) then Some Sample
  else None.
End due.

(** ** Lemmas: the order *)

Lemma newest_first_antisym a b : newest_first b a = - newest_first a b.
Proof.
  unfold newest_first, or_cmp. rewrite (compareCodeUnits_antisym (key b) (key a)).
  destruct (Z.eqb_spec (createdAt a - createdAt b) 0), (Z.eqb_spec (createdAt b - createdAt a) 0); lia.
Qed.
Lemma newest_first_zero a b : newest_first a b = 0 -> key a = key b.
Proof.
  unfold newest_first, or_cmp. destruct (Z.eqb_spec (createdAt b - createdAt a) 0); [|lia].
  by intros ->%compareCodeUnits_eq.
Qed.

#[export] Instance newest_first_comparator : Comparator newest_first.
Proof.
  split.
  - intros x y. rewrite (newest_first_antisym x y). lia.
  - intros x y z. unfold newest_first, or_cmp.
    destruct (Z.eqb_spec (createdAt y - createdAt x) 0), (Z.eqb_spec (createdAt z - createdAt y) 0),
      (Z.eqb_spec (createdAt z - createdAt x) 0); try lia.
    intros H1 H2. by apply (cmp_trans (cmp := compareCodeUnits) _ (key y)).
Qed.

(** [x] was made after [m], or at the same time under a later key. *)
Definition newer (m x : CloudBackupRetentionCandidate) : bool := newest_first x m <? 0.

Lemma sorted_newer l before m after : NoDup (map key l) -> sort_by newest_first l = before ++ m :: after ->
  List.filter (newer m) (sort_by newest_first l) = before.
Proof.
  intros Hnd Hs. pose proof (sort_by_sorted newest_first l) as Hsort.
  assert (NoDup (map key (sort_by newest_first l))) as Hnd' by (by rewrite (sort_by_perm newest_first l)).
  rewrite Hs in *. rewrite map_app in Hnd'. apply NoDup_app in Hnd' as (_ & Hdis & _).
  apply StronglySorted_app in Hsort as (Hba & _ & Hsort). apply StronglySorted_cons in Hsort as [Hm _].
  rewrite List.filter_app. cbn [List.filter]. unfold newer at 2.
  replace (newest_first m m) with 0 by (pose proof (newest_first_antisym m m); lia). cbn [Z.ltb Z.compare].
  rewrite (filter_b_none (newer m) after), app_nil_r, filter_b_all; [done| |].
  - intros x Hx. apply Z.ltb_lt. pose proof (Hba x m Hx ltac:(set_solver)) as Hle. unfold cmp_le in Hle.
    destruct (Z.eq_dec (newest_first x m) 0) as [He%newest_first_zero|]; [|lia]. exfalso.
    apply (Hdis (key x)); [apply list_elem_of_fmap; eauto|]. rewrite He. cbn. set_solver.
  - intros x Hx. apply Z.ltb_ge. rewrite Forall_forall in Hm. specialize (Hm x Hx). unfold cmp_le in Hm.
    rewrite newest_first_antisym. lia.
Qed.

(** ** Lemmas: what a rule keeps *)

(** A rule keeps [m] when it is the newest of its period and fewer periods than the rule's are newer. *)
Definition rule_keeps (manifests : list CloudBackupRetentionCandidate) (m : CloudBackupRetentionCandidate) (rule : Z * (Z -> string)) : bool :=
  let above := map (fun x => rule.2 (createdAt x)) (List.filter (newer m) manifests) in
  negb (includes (rule.2 (createdAt m)) above) && (Z.of_nat (length (uniq above)) <? rule.1).
Definition is_kept (retention : CloudBackupRetention) (manifests : list CloudBackupRetentionCandidate) (m : CloudBackupRetentionCandidate) : bool :=
  forallb (fun x => negb (newer m x)) manifests || existsb (rule_keeps manifests m) (rules retention).

Lemma kept_by_spec count periodOf seen ms k :
  k ∈ kept_by count periodOf seen ms <-> exists before m after, ms = before ++ m :: after /\ key m = k /\
    (periodOf (createdAt m) ∉ seen) /\ (periodOf (createdAt m) ∉ map (fun x => periodOf (createdAt x)) before) /\
    Z.of_nat (length seen + length (uniq_from seen (map (fun x => periodOf (createdAt x)) before))) < count.
Proof.
  revert seen; induction ms as [|x ms IH]; intros seen; cbn [kept_by].
  { split; [by intros ?%not_elem_of_nil|]. by intros ([|] & m & after & ? & _). }
  destruct (Z.leb_spec count (Z.of_nat (length seen))) as [Hfull|Hfull].
  { split; [by intros ?%not_elem_of_nil|]. intros (b & m & a & _ & _ & _ & _ & ?). lia. }
  destruct (includes (periodOf (createdAt x)) seen) eqn:Hseen.
  - apply includes_true in Hseen. rewrite IH. split.
    + intros (b & m & a & -> & Hk & Hns & Hnb & Hlen). exists (x :: b), m, a. split; [done|]. split; [done|]. split; [done|].
      split; [cbn [map]; apply not_elem_of_cons; split; [congruence|done]|].
      cbn [map uniq_from]. by rewrite bool_decide_true by done.
    + intros ([|y b] & m & a & Heq & Hk & Hns & Hnb & Hlen).
      * injection Heq as -> ->. done.
      * injection Heq as -> ->. cbn [map uniq_from] in Hlen. rewrite bool_decide_true in Hlen by done.
        exists b, m, a. cbn [map] in Hnb. apply not_elem_of_cons in Hnb as [_ Hnb]. done.
  - apply includes_false in Hseen. rewrite elem_of_cons, IH. split.
    + intros [->|(b & m & a & -> & Hk & Hns & Hnb & Hlen)].
      * exists [], x, ms. cbn. split; [done|]. split; [done|]. split; [done|]. split; [by apply not_elem_of_nil|lia].
      * apply not_elem_of_cons in Hns as [Hxm Hns].
        exists (x :: b), m, a. split; [done|]. split; [done|]. split; [done|]. split; [cbn [map]; by apply not_elem_of_cons|].
        cbn [map uniq_from]. rewrite bool_decide_false by done. cbn [length] in *. lia.
    + intros ([|y b] & m & a & Heq & Hk & Hns & Hnb & Hlen).
      * injection Heq as -> ->. by left.
      * injection Heq as -> ->. right. cbn [map uniq_from] in Hlen, Hnb. rewrite bool_decide_false in Hlen by done.
        apply not_elem_of_cons in Hnb as [Hxm Hnb]. exists b, m, a. split; [done|]. split; [done|].
        split; [by apply not_elem_of_cons|]. split; [done|]. cbn [length] in *. lia.
Qed.

Lemma uniq_length_perm {A} `{EqDecision A} (l k : list A) : Permutation l k -> length (uniq l) = length (uniq k).
Proof. intros H. apply Nat.le_antisymm; apply uniq_length_mono; intros x; by rewrite H. Qed.

Lemma rule_keeps_perm l k m rule : Permutation l k -> rule_keeps l m rule = rule_keeps k m rule.
Proof.
  intros H. unfold rule_keeps. cbv zeta.
  assert (Permutation (map (fun x => rule.2 (createdAt x)) (List.filter (newer m) l))
    (map (fun x => rule.2 (createdAt x)) (List.filter (newer m) k))) as Hp by (by apply Permutation_map, filter_b_perm).
  rewrite (uniq_length_perm _ _ Hp). f_equal. f_equal. apply eq_true_iff_eq. rewrite !includes_true. by rewrite Hp.
Qed.

Lemma key_injective (l : list CloudBackupRetentionCandidate) x y : NoDup (map key l) -> x ∈ l -> y ∈ l -> key x = key y -> x = y.
Proof.
  intros Hnd Hx Hy Hk. induction l as [|z l IH]; [by apply not_elem_of_nil in Hx|].
  cbn in Hnd. apply NoDup_cons in Hnd as [Hz Hnd]. rewrite list_elem_of_fmap in Hz.
  apply elem_of_cons in Hx as [->|Hx], Hy as [->|Hy]; [done| | |by apply IH]; destruct Hz; [|symmetry in Hk]; eauto.
Qed.

Lemma in_kept_keys retention l m : NoDup (map key l) -> m ∈ l ->
  includes (key m) (kept_keys retention (sort_by newest_first l)) = is_kept retention l m.
Proof.
  intros Hnd Hm. set (s := sort_by newest_first l).
  assert (forall x y, x ∈ s -> y ∈ s -> key x = key y -> x = y) as Hinj
    by (intros x y Hx%sort_by_elem Hy%sort_by_elem; by apply (key_injective l)).
  assert (m ∈ s) as Hs by (by apply sort_by_elem).
  apply list_elem_of_split in Hs as (before & after & Hsplit).
  pose proof (sorted_newer l before m after Hnd Hsplit) as Hf. fold s in Hf, Hsplit.
  assert (forall x, x ∈ s <-> x ∈ l) as Hel by (intros; apply sort_by_elem).
  apply eq_true_iff_eq. rewrite includes_true. unfold kept_keys, is_kept. rewrite elem_of_app, orb_true_iff. f_equiv.
  - rewrite forallb_forall. split.
    + intros Hh x Hx%list_elem_of_In. destruct before as [|h b].
      * destruct (newer m x) eqn:Hn; [|done]. assert (x ∈ List.filter (newer m) s) as Hin
          by (apply elem_of_filter_b; by rewrite Hel). rewrite Hf in Hin. by apply not_elem_of_nil in Hin.
      * rewrite Hsplit in Hh. cbn in Hh. apply list_elem_of_singleton in Hh.
        assert (m = h) as -> by (apply Hinj; [rewrite Hsplit; set_solver|rewrite Hsplit; set_solver|done]).
        exfalso. assert (h ∈ List.filter (newer h) s) as Hin by (rewrite Hf; set_solver).
        apply elem_of_filter_b in Hin as [_ Hin]. unfold newer in Hin. pose proof (newest_first_antisym h h). lia.
    + intros Hno. destruct before as [|h b].
      * rewrite Hsplit. cbn. set_solver.
      * assert (h ∈ List.filter (newer m) s) as Hin by (rewrite Hf; set_solver). apply elem_of_filter_b in Hin as [Hin Hn].
        rewrite Hel in Hin. apply list_elem_of_In, Hno in Hin. by rewrite Hn in Hin.
  - rewrite elem_of_flat_map, existsb_exists. setoid_rewrite <- list_elem_of_In. f_equiv. intros [count p]. f_equiv.
    rewrite (kept_by_spec count p [] s (key m)). unfold rule_keeps. cbv zeta. cbn [fst snd].
    rewrite <- (uniq_length_perm _ _ (Permutation_map _ (filter_b_perm (newer m) _ _ (sort_by_perm newest_first l)))).
    fold s. rewrite andb_true_iff, negb_true_iff, includes_false, Z.ltb_lt.
    rewrite <- (Permutation_map _ (filter_b_perm (newer m) _ _ (sort_by_perm newest_first l))). fold s. rewrite Hf. split.
    + intros (b & x & a & Heq & Hk & _ & Hnb & Hlen).
      assert (x = m) as -> by (apply Hinj; [rewrite Heq; set_solver|rewrite Hsplit; set_solver|done]).
      assert (b = before) as ->; [|done]. pose proof (sorted_newer l b m a Hnd Heq) as Hf'. fold s in Hf'. congruence.
    + intros [Hnb Hlen]. exists before, m, after. split; [done|]. split; [done|]. split; [by apply not_elem_of_nil|]. done.
Qed.

(** ** Retention *)

(** A manifest kept among more is kept among fewer. *)
Lemma is_kept_fewer retention l l' m : (forall x, x ∈ l -> x ∈ l') -> is_kept retention l' m = true -> is_kept retention l m = true.
Proof.
  intros Hsub. unfold is_kept. rewrite !orb_true_iff, !forallb_forall, !existsb_exists. setoid_rewrite <- list_elem_of_In.
  intros [H|([count p] & Hr & H)]; [left; auto|]. right. exists (count, p). split; [done|].
  unfold rule_keeps in *. cbv zeta in *. cbn [fst snd] in *. apply andb_true_iff in H as [Hp Hlen].
  assert (forall y, y ∈ map (fun x => p (createdAt x)) (List.filter (newer m) l) ->
    y ∈ map (fun x => p (createdAt x)) (List.filter (newer m) l')) as Hincl.
  { intros y (x & -> & [Hx Hn]%elem_of_filter_b)%list_elem_of_fmap. apply list_elem_of_fmap. exists x. split; [done|].
    apply elem_of_filter_b. auto. }
  apply andb_true_iff. split.
  - apply negb_true_iff, includes_false. apply negb_true_iff, includes_false in Hp. auto.
  - apply Z.ltb_lt. apply Z.ltb_lt in Hlen. pose proof (uniq_length_mono _ _ Hincl). lia.
Qed.

Lemma is_kept_same retention l l' m : (forall x, x ∈ l <-> x ∈ l') -> is_kept retention l m = is_kept retention l' m.
Proof. intros H. apply eq_true_iff_eq. split; apply is_kept_fewer; intros x; by apply H. Qed.

Lemma keep_elem retention l m : NoDup (map key l) ->
  m ∈ keep (retentionPlan l retention) <-> m ∈ l /\ is_kept retention l m = true.
Proof.
  intros Hnd. cbn [keep retentionPlan]. rewrite elem_of_filter_b, sort_by_elem. split.
  - intros [Hm H]. rewrite (in_kept_keys retention l m Hnd Hm) in H. done.
  - intros [Hm H]. by rewrite (in_kept_keys retention l m Hnd Hm).
Qed.
Lemma remove_elem retention l m : NoDup (map key l) ->
  m ∈ remove (retentionPlan l retention) <-> m ∈ l /\ is_kept retention l m = false.
Proof.
  intros Hnd. cbn [remove retentionPlan]. rewrite elem_of_filter_b, sort_by_elem, negb_true_iff. split.
  - intros [Hm H]. rewrite (in_kept_keys retention l m Hnd Hm) in H. done.
  - intros [Hm H]. by rewrite (in_kept_keys retention l m Hnd Hm).
Qed.

Lemma filter_b_partition {A} (p : A -> bool) l : Permutation (List.filter p l ++ List.filter (fun x => negb (p x)) l) l.
Proof.
  induction l as [|x l IH]; simpl; [done|]. destruct (p x); simpl; [by rewrite IH|].
  by rewrite <- Permutation_middle, IH.
Qed.

Lemma plan_partition retention l :
  Permutation (keep (retentionPlan l retention) ++ remove (retentionPlan l retention)) l.
Proof. cbn [keep remove retentionPlan]. by rewrite filter_b_partition, sort_by_perm. Qed.

Lemma keep_NoDup retention l : NoDup (map key l) -> NoDup (map key (keep (retentionPlan l retention))).
Proof.
  intros H. rewrite <- (Permutation_map key (plan_partition retention l)), map_app in H. by apply NoDup_app in H as [H _].
Qed.

Lemma sort_perm_eq l l' : NoDup (map key l) -> Permutation l l' -> sort_by newest_first l = sort_by newest_first l'.
Proof.
  intros Hnd Hp. assert (Permutation (sort_by newest_first l) (sort_by newest_first l')) as Hs by (by rewrite !sort_by_perm).
  assert (NoDup (map key (sort_by newest_first l))) as Hn by (by rewrite (sort_by_perm newest_first l)).
  pose proof (sort_by_sorted newest_first l) as H1. pose proof (sort_by_sorted newest_first l') as H2. revert Hs Hn H1 H2.
  generalize (sort_by newest_first l) (sort_by newest_first l'). clear. intros s; induction s as [|x s IH]; intros s' Hs Hn H1 H2.
  { by apply Permutation_nil_l in Hs. }
  destruct s' as [|y s']; [symmetry in Hs; by apply Permutation_nil_cons in Hs|].
  apply StronglySorted_cons in H1 as [Hx H1], H2 as [Hy H2]. rewrite Forall_forall in Hx, Hy.
  assert (x = y) as ->.
  { assert (y ∈ x :: s) as Hyin by (rewrite Hs; set_solver). assert (x ∈ y :: s') as Hxin by (rewrite <- Hs; set_solver).
    apply elem_of_cons in Hyin as [->|Hyin]; [done|]. apply elem_of_cons in Hxin as [->|Hxin]; [done|].
    specialize (Hx y Hyin). specialize (Hy x Hxin). unfold cmp_le in *. rewrite newest_first_antisym in Hy.
    assert (key x = key y) as Hk by (apply newest_first_zero; lia). cbn in Hn. apply NoDup_cons in Hn as [Hn _].
    destruct Hn. rewrite Hk. apply list_elem_of_fmap. eauto. }
  f_equal. apply IH; [by apply Permutation_cons_inv in Hs| |done|done]. cbn in Hn. by apply NoDup_cons in Hn as [_ Hn].
Qed.

Lemma retentionPlan_perm retention l l' : NoDup (map key l) -> Permutation l l' ->
  retentionPlan l retention = retentionPlan l' retention.
Proof. intros Hnd Hp. unfold retentionPlan. by rewrite (sort_perm_eq l l' Hnd Hp). Qed.

(** Something kept is newer than everything removed. *)
Lemma plan_newest retention l x : NoDup (map key l) -> x ∈ remove (retentionPlan l retention) ->
  exists m, m ∈ keep (retentionPlan l retention) /\ newer x m = true.
Proof.
  intros Hnd [Hx Hk]%remove_elem; [|done]. destruct (sort_by newest_first l) as [|h rest] eqn:Hs.
  { apply (sort_by_elem newest_first) in Hx. rewrite Hs in Hx. by apply not_elem_of_nil in Hx. }
  assert (h ∈ l) as Hh by (apply (sort_by_elem newest_first); rewrite Hs; left).
  pose proof (sorted_newer l [] h rest Hnd Hs) as Hf.
  assert (forall y, y ∈ l -> newer h y = false) as Hnew.
  { intros y Hy. destruct (newer h y) eqn:Hn; [|done]. assert (y ∈ List.filter (newer h) (sort_by newest_first l)) as Hin
      by (apply elem_of_filter_b; by rewrite sort_by_elem). rewrite Hf in Hin. by apply not_elem_of_nil in Hin. }
  exists h. split.
  - apply keep_elem; [done|]. split; [done|]. unfold is_kept. apply orb_true_iff. left. apply forallb_forall.
    intros y Hy%list_elem_of_In. by rewrite Hnew.
  - unfold newer. apply Z.ltb_lt. specialize (Hnew x Hx). unfold newer in Hnew. apply Z.ltb_ge in Hnew.
    rewrite newest_first_antisym. destruct (Z.eq_dec (newest_first x h) 0) as [He%newest_first_zero|]; [|lia].
    rewrite (key_injective l x h Hnd Hx Hh He) in Hk. unfold is_kept in Hk. apply orb_false_iff in Hk as [Hk _].
    rewrite <- not_true_iff_false, forallb_forall in Hk. destruct Hk. intros y Hy%list_elem_of_In.
    destruct (newer h y) eqn:Hn; [|done]. assert (y ∈ List.filter (newer h) (sort_by newest_first l)) as Hin
      by (apply elem_of_filter_b; by rewrite sort_by_elem). rewrite Hf in Hin. by apply not_elem_of_nil in Hin.
Qed.

(** A plan splits the manifests into those kept and those removed, whatever order they are listed in.
    Kept are the newest of all and, for each rule, the newest of every period with fewer of the rule's
    periods after it.  What is removed stays removed however many manifests are added later, so planning
    again over what was kept removes nothing. *)
Theorem retentionPlan_exact (manifests : list CloudBackupRetentionCandidate) (retention : CloudBackupRetention)
  (distinct : NoDup (map key manifests)) :
  let plan := retentionPlan manifests retention in
  Permutation (keep plan ++ remove plan) manifests /\
  (forall listed, Permutation manifests listed -> retentionPlan listed retention = plan) /\
  (forall m, m ∈ keep plan <-> m ∈ manifests /\
     ((forall x, x ∈ manifests -> newer m x = false) \/
      exists count periodOf, (count, periodOf) ∈ rules retention /\
        let above := map (fun x => periodOf (createdAt x)) (List.filter (newer m) manifests) in
        (periodOf (createdAt m) ∉ above) /\ Z.of_nat (length (uniq above)) < count)) /\
  (forall m more, m ∈ remove plan -> NoDup (map key (more ++ manifests)) ->
     m ∈ remove (retentionPlan (more ++ manifests) retention)) /\
  retentionPlan (keep plan) retention = mkPlan (keep plan) [].
Proof.
  cbv zeta. split; [apply plan_partition|]. split; [|split; [|split]].
  - intros listed Hp. symmetry. by apply retentionPlan_perm.
  - intros m. rewrite (keep_elem retention manifests m distinct). f_equiv. unfold is_kept.
    rewrite orb_true_iff, forallb_forall, existsb_exists. f_equiv.
    + setoid_rewrite <- list_elem_of_In. by setoid_rewrite negb_true_iff.
    + setoid_rewrite <- list_elem_of_In. split.
      * intros ([count p] & Hr & H). exists count, p. split; [done|]. unfold rule_keeps in H. cbv zeta in *. cbn [fst snd] in *.
        apply andb_true_iff in H as [Hp Hlen]. apply negb_true_iff, includes_false in Hp. apply Z.ltb_lt in Hlen. done.
      * intros (count & p & Hr & Hp & Hlen). exists (count, p). split; [done|]. unfold rule_keeps. cbv zeta in *. cbn [fst snd].
        apply andb_true_iff. split; [by apply negb_true_iff, includes_false|by apply Z.ltb_lt].
  - intros m more [Hm Hk]%remove_elem Hnd; [|done]. apply remove_elem; [done|]. split; [set_solver|].
    destruct (is_kept retention (more ++ manifests) m) eqn:H; [|done]. rewrite <- Hk. symmetry.
    apply (is_kept_fewer retention manifests (more ++ manifests)); [set_solver|done].
  - set (plan := retentionPlan manifests retention). pose proof (keep_NoDup retention manifests distinct) as Hnd. fold plan in Hnd.
    assert (StronglySorted (cmp_le newest_first) (keep plan)) as Hsort.
    { cbn [keep plan retentionPlan]. generalize (sort_by_sorted newest_first manifests). generalize (sort_by newest_first manifests).
      intros s. generalize (kept_keys retention s). intros ks Hs. induction Hs as [|x s Hs IH Hx]; [constructor|]. cbn [List.filter].
      destruct (includes (key x) ks); [|done]. constructor; [done|]. rewrite Forall_forall in *. intros y [Hy _]%elem_of_filter_b. auto. }
    assert (forall m, m ∈ keep plan -> includes (key m) (kept_keys retention (sort_by newest_first (keep plan))) = true) as Hall.
    { intros m Hm. rewrite (in_kept_keys retention (keep plan) m Hnd Hm).
      apply (is_kept_fewer retention (keep plan) manifests); [|by apply keep_elem].
      intros x Hx. by apply keep_elem in Hx as [? _]. }
    change (retentionPlan (keep plan) retention) with
      (mkPlan (List.filter (fun m => includes (key m) (kept_keys retention (sort_by newest_first (keep plan)))) (sort_by newest_first (keep plan)))
        (List.filter (fun m => negb (includes (key m) (kept_keys retention (sort_by newest_first (keep plan))))) (sort_by newest_first (keep plan)))).
    rewrite (sort_by_id _ _ Hsort) in Hall |- *. f_equal; [by apply filter_b_all|apply filter_b_none].
    intros x Hx. by rewrite Hall.
Qed.

Definition three : list CloudBackupRetentionCandidate :=
  [mkCandidate "m/a" 0; mkCandidate "m/c" 100000000; mkCandidate "m/b" 90000000].
Lemma retentionPlan_exact_witness :
  map key (keep (retentionPlan three (mkRetention 2 0 0))) = ["m/c"; "m/a"]%string /\
  map key (remove (retentionPlan three (mkRetention 2 0 0))) = ["m/b"]%string /\
  mkCandidate "m/b" 90000000 ∈ remove (retentionPlan (mkCandidate "m/d" 500000000 :: three) (mkRetention 2 0 0)).
Proof.
  split; [by vm_compute|]. split; [by vm_compute|].
  assert (forall l : list CloudBackupRetentionCandidate, bool_decide (NoDup (map key l)) = true -> NoDup (map key l)) as Hd
    by (intros l; apply bool_decide_eq_true_1).
  apply (retentionPlan_exact three (mkRetention 2 0 0) (Hd three eq_refl)) with (more := [mkCandidate "m/d" 500000000]).
  - assert (remove (retentionPlan three (mkRetention 2 0 0)) = [mkCandidate "m/b" 90000000]) as -> by (by vm_compute). left.
  - apply Hd. reflexivity.
Defined.

(** ** References *)

Lemma has_true referenced k : has referenced k = true <-> JStr k ∈ referenced.
Proof.
  unfold has. rewrite existsb_exists. setoid_rewrite <- list_elem_of_In. split.
  - intros ([| | |s| |] & Hin & He); try done. by apply String.eqb_eq in He as ->.
  - intros H. exists (JStr k). split; [done|]. apply String.eqb_refl.
Qed.

Lemma object_unreferenced_same r r' k : (forall j, j ∈ r <-> j ∈ r') -> object_unreferenced r k = object_unreferenced r' k.
Proof.
  intros H. assert (forall k, has r k = has r' k) as Hh by (intros x; apply eq_true_iff_eq; by rewrite !has_true).
  unfold object_unreferenced. destruct (after CLOUD_BACKUP_OBJECT_PREFIX k) as [h|]; [|done]. by rewrite !Hh.
Qed.

Section offered.
Context {T : Type} (keyOf : T -> string).

(** What is offered for deletion, when anything is. *)
Lemma unreferencedObjects_elem objects referenced l : unreferencedObjects keyOf objects referenced = Ok l ->
  forall o, o ∈ l <-> o ∈ objects /\ object_unreferenced referenced (keyOf o) = Ok true.
Proof.
  revert l; induction objects as [|x objects IH]; intros l; cbn [unreferencedObjects].
  - intros [= <-] o. split; [by intros ?%not_elem_of_nil|]. by intros [?%not_elem_of_nil _].
  - intros (b & Hb & (rest & Hrest & [= <-])%bind_Ok)%bind_Ok o. destruct b; rewrite ?elem_of_cons, (IH rest Hrest).
    + split; [intros [->|?]; naive_solver|]. intros [[->|?] ?]; naive_solver.
    + split; [naive_solver|]. intros [[->|?] ?]; [congruence|naive_solver].
Qed.

Lemma object_unreferenced_legacy referenced sha : isSha256Hex sha = true ->
  object_unreferenced referenced (CLOUD_BACKUP_OBJECT_PREFIX +:+ sha) = Ok (negb (has referenced sha)).
Proof.
  intros Hs. unfold object_unreferenced. rewrite (proj2 (after_spec _ _ sha) eq_refl).
  destruct (starts_with "o/v1/" (CLOUD_BACKUP_OBJECT_PREFIX +:+ sha)) eqn:Hv; [|by rewrite Hs].
  apply starts_with_spec in Hv as [t Ht]. assert (sha = "v1/" +:+ t)%string as -> by (injection Ht as Ht; exact Ht).
  unfold isSha256Hex in Hs. apply andb_true_iff in Hs as [_ Hs]. discriminate.
Qed.
End offered.

(** ** The year of a verification *)

Lemma hex_value_nonneg s acc : 0 <= acc -> string_all is_hex s = true -> 0 <= hex_value acc s.
Proof.
  revert acc; induction s as [|c s IH]; intros acc Ha; cbn [hex_value string_all]; [done|].
  intros [Hc Hs]%andb_true_iff. apply IH; [|done]. unfold hex_digit, is_hex, digit_value in *.
  destruct (is_digit c) eqn:Hd; [unfold is_digit in Hd; lia|]. cbn [orb] in Hc. lia.
Qed.

Lemma string_all_take p n s : string_all p s = true -> string_all p (string_take n s) = true.
Proof.
  revert n; induction s as [|c s IH]; intros [|n]; cbn; try done. intros [Hc Hs]%andb_true_iff. by rewrite Hc, IH.
Qed.

Lemma slice_of_digest sha : isSha256Hex sha = true -> exists n, 0 <= n /\ forall slice, inVerifySlice sha slice = (n mod 52 =? slice).
Proof.
  unfold isSha256Hex. intros [Hlen Hs]%andb_true_iff. exists (hex_value 0 (string_take 8 sha)).
  split; [by apply hex_value_nonneg, string_all_take|]. intros slice. unfold inVerifySlice, parse_hex.
  pose proof (span_all is_hex (string_take 8 sha) "") as Hspan. rewrite string_app_nil_r in Hspan.
  rewrite Hspan; [|by apply string_all_take|done]. cbn [fst].
  destruct (String.eqb (string_take 8 sha) "") eqn:He; [|done]. apply String.eqb_eq in He.
  destruct sha; [done|]. discriminate.
Qed.

(** In 52 weeks in a row every object is in the week's slice exactly once. *)
Theorem every_object_once_a_year (sha : string) (date : Z) (hsha : isSha256Hex sha = true) (after_epoch : 0 <= date) :
  exists k, 0 <= k < 52 /\ inVerifySlice sha (verifySliceOf (date + k * WEEK_MS)) = true /\
    forall k', 0 <= k' < 52 -> inVerifySlice sha (verifySliceOf (date + k' * WEEK_MS)) = true -> k' = k.
Proof.
  destruct (slice_of_digest sha hsha) as (n & Hn & Hslice).
  assert (forall k, 0 <= k -> verifySliceOf (date + k * WEEK_MS) = (date / WEEK_MS + k) mod 52) as Hv.
  { intros k Hk. unfold verifySliceOf. rewrite Z.div_add by (unfold WEEK_MS, DAY_MS; lia).
    apply Z.rem_mod_nonneg; [|done]. assert (0 <= date / WEEK_MS) by (apply Z.div_pos; unfold WEEK_MS, DAY_MS; lia). lia. }
  assert (0 <= date / WEEK_MS) as Hw by (apply Z.div_pos; unfold WEEK_MS, DAY_MS; lia).
  set (w := date / WEEK_MS) in *. exists ((n - w) mod 52). pose proof (Z.mod_pos_bound (n - w) 52 ltac:(lia)) as Hb.
  split; [done|]. rewrite Hslice, Hv by lia. split.
  - apply Z.eqb_eq. rewrite Z.add_mod_idemp_r by lia. f_equal. lia.
  - intros k' Hk'. rewrite Hslice, Hv by lia. intros He%Z.eqb_eq. rewrite Zminus_mod, He, <- Zminus_mod.
    replace (w + k' - w) with k' by lia. symmetry. by apply Z.mod_small.
Qed.
