(* ===== verification/CloudBackupMaintenance.v ===== *)
(** * Cloud backup clean-up ([server/src/services/cloud-backup-maintenance.ts], [prune])

    A clean-up reads everything first (the listings, the index, every kept manifest in full) and then
    writes: [prune] is the decision, a list of writes, and [perform] runs them as far as the claim or the
    process lasts.  What a manifest's key answers is the parameter [get]; the bucket holds sizes by key,
    and a listing is in any order. *)

From stdpp Require Import gmap.
From S2P Require Import Prelude JsNumber JsString JsDate CloudBackupManifest CloudBackupRetention.
Local Open Scope Z_scope.

Definition MAINTENANCE_BATCH : nat := 200.
Definition FORGET_BATCH : nat := 1000.

Inductive ManifestStatus := MRunning | MComplete | MDegraded | MPruned | MCancelled | MFailed.
#[export] Instance ManifestStatus_eq_dec : EqDecision ManifestStatus.
Proof. solve_decision. Defined.
(** [KEPT_MANIFEST_STATUSES]. *)
Definition is_kept_status (s : ManifestStatus) : bool := match s with MComplete | MDegraded => true | _ => false end.

(** What outlives a clean-up: the bucket, the index of objects known to be in it (by the place they are
    recorded under) and the rows of its manifests. *)
Record State := mkState {
  bucket : gmap string Z;
  index : gset (string * string);
  manifests : gmap string ManifestStatus
}.

Record Trusted := mkTrusted { versionId : string; ciphertextSha256 : string }.
Record Connection := mkConnection {
  bucketName : string;
  vaultId : option string;
  trustedManifestHead : option string;
  trustedManifests : list (string * Trusted)
}.

Record ObjectInfo := mkObject { o_key : string; o_size : Z }.
Definition listAll (s : State) (prefix : string) : list ObjectInfo :=
  map (fun '(k, size) => mkObject k size) (List.filter (fun '(k, _) => starts_with prefix k) (map_to_list (bucket s))).

Definition listKeptManifests (s : State) : list string :=
  map fst (List.filter (fun '(_, status) => is_kept_status status) (map_to_list (manifests s))).
Definition prunedKeys (s : State) (keys : list string) : list string :=
  List.filter (fun k => bool_decide (manifests s !! k = Some MPruned)) keys.

(** ** Writes *)

Record PruneResult := mkResult {
  dryRun : bool; done_ : bool; manifestsKept : nat; manifestsRemoved : nat; objectsRemoved : nat;
  bytesRemoved : Z; dumpsRemoved : nat; deleted : nat }.

Inductive Write :=
| AdoptPruned (keys : list string)
| MarkPruned (keys : list string)
| Delete (key : string)
| Forget (hashes : list string)
| Checkpoint (progress : PruneResult).

#[export] Instance PruneResult_eq_dec : EqDecision PruneResult.
Proof. solve_decision. Defined.
#[export] Instance Write_eq_dec : EqDecision Write.
Proof. solve_decision. Defined.

(** Where the bucket's objects and its upload receipts are recorded. *)
Definition place_of (bucketRef place : string) : bool := String.eqb place bucketRef || starts_with (bucketRef +:+ "#")%string place.

Definition adopt (rows : gmap string ManifestStatus) (key : string) : gmap string ManifestStatus :=
  match rows !! key with Some _ => rows | None => <[key := MPruned]> rows end.
Definition mark (rows : gmap string ManifestStatus) (key : string) : gmap string ManifestStatus :=
  match rows !! key with Some _ => <[key := MPruned]> rows | None => rows end.

Definition write (bucketRef : string) (s : State) (w : Write) : State :=
  match w with
  | AdoptPruned keys => mkState (bucket s) (index s) (foldl adopt (manifests s) keys)
  | MarkPruned keys => mkState (bucket s) (index s) (foldl mark (manifests s) keys)
  | Delete key => mkState (delete key (bucket s)) (index s) (manifests s)
  | Forget hashes =>
      mkState (bucket s) (filter (fun p => ~ (Is_true (place_of bucketRef p.1) /\ p.2 ∈ hashes)) (index s)) (manifests s)
  | Checkpoint _ => s
  end.

(** The writes in order, until a checkpoint says to stop: the state, and whether they all ran. *)
Fixpoint perform (bucketRef : string) (carry_on : PruneResult -> bool) (ws : list Write) (s : State) : State * bool :=
  match ws with
  | [] => (s, true)
  | w :: ws =>
      let s' := write bucketRef s w in
      match w with
      | Checkpoint progress => if carry_on progress then perform bucketRef carry_on ws s' else (s', false)
      | _ => perform bucketRef carry_on ws s'
      end
  end.

(** ** The clean-up *)

Inductive PruneError :=
| HeadMissing
| HistoryKeyInvalid
| NoTrustedVersion
| StoreFailed
| Refused (e : BackupError).

Definition lift {A} (m : res BackupError A) : res PruneError A :=
  match m with Ok a => Ok a | Throw e => Throw (Refused e) end.

Section prune.
Context {Body : Type} (get : string -> option Body) (decode : Body -> option json) (number_text : jsnum -> string).
Context (assetRecord : list (string * json) -> list (string * json)) (assetDetails albumSchema personSchema : json -> option json).
Context (connection : Connection) (bucketRef : string).

Definition readReferences (k : string) : res PruneError References :=
  match get k with
  | None => Throw StoreFailed
  | Some body =>
      m ← lift (readManifest decode number_text assetRecord assetDetails albumSchema personSchema body);
      lift (manifestReferences m)
  end.

Definition candidate (k : string) : option CloudBackupRetentionCandidate := mkCandidate k <$> manifestTime k.

(** Known history joins the listing, whether it is listed or not. *)
Fixpoint add_history (keys : list string) (inventory : list (string * CloudBackupRetentionCandidate)) :
  res PruneError (list (string * CloudBackupRetentionCandidate)) :=
  match keys with
  | [] => Ok inventory
  | k :: keys =>
      match candidate k with
      | Some c => add_history keys (assoc_set k c inventory)
      | None => Throw HistoryKeyInvalid
      end
  end.

(** The plan, with the anchored head kept whatever the rules say. *)
Definition anchor (plan : RetentionPlan) : RetentionPlan :=
  match List.find (fun m => bool_decide (trustedManifestHead connection = Some (key m))) (remove plan) with
  | Some m => mkPlan (keep plan ++ [m])
      (List.filter (fun m => negb (bool_decide (trustedManifestHead connection = Some (key m)))) (remove plan))
  | None => plan
  end.

(** A kept manifest that is not in the listing is read by the exact version the signed history names. *)
Definition check_version (listed : list string) (k : string) : res PruneError unit :=
  if includes k listed then Ok tt else
  context ← lift (clientBackupContext (bucketName connection) k (vaultId connection));
  match context, assoc_get k (trustedManifests connection) with
  | Some _, Some t => ensure (negb (String.eqb (versionId t) "") && negb (String.eqb (versionId t) "null") && isSha256Hex (ciphertextSha256 t)) NoTrustedVersion
  | _, _ => Throw NoTrustedVersion
  end.

Definition names (refs : References) : list json :=
  flat_map (fun sha => JStr sha :: default [] (assoc_get sha (r_storageKeys refs))) (map fst (r_objects refs)).

Fixpoint collect (listed : list string) (kept : list CloudBackupRetentionCandidate) (found : list json * list json) :
  res PruneError (list json * list json) :=
  match kept with
  | [] => Ok found
  | manifest :: kept =>
      _ ← check_version listed (key manifest);
      references ← readReferences (key manifest);
      collect listed kept
        (found.1 ++ names references,
         if truthy (r_database references) then found.2 ++ option_list (r_database references) else found.2)
  end.

Definition newestDumps (dumps : list ObjectInfo) : list string :=
  take CLOUD_BACKUP_DB_DUMPS_KEPT (sort_by (fun a b => compareCodeUnits b a) (map o_key dumps)).

(** The deletion of the objects, a batch at a time. *)
Fixpoint batches (progress : PruneResult) (bs : list (list ObjectInfo)) : list Write :=
  match bs with
  | [] => []
  | batch :: bs =>
      let hashes := map (fun o => string_drop 2 (o_key o)) batch in
      let progress := mkResult (dryRun progress) (done_ progress) (manifestsKept progress) (manifestsRemoved progress)
        (objectsRemoved progress) (bytesRemoved progress) (dumpsRemoved progress) (deleted progress + length batch) in
      map Forget (chunks FORGET_BATCH hashes) ++ map (fun o => Delete (o_key o)) batch ++ Checkpoint progress :: batches progress bs
  end.

Record Decision_ := mkDecision {
  d_plan : RetentionPlan;
  d_objects : list ObjectInfo;
  d_dumps : list ObjectInfo;
  d_result : PruneResult
}.

(** Everything up to the first write. *)
Definition decide_prune (retention : CloudBackupRetention) (dry : bool) (s : State) : res PruneError Decision_ :=
  let listed := map o_key (listAll s CLOUD_BACKUP_MANIFEST_PREFIX) in
  if str_truthy (trustedManifestHead connection) && negb (bool_decide (default "" (trustedManifestHead connection) ∈ listed))
  then Throw HeadMissing else
  let signed := map fst (trustedManifests connection) in
  let history := listKeptManifests s ++ List.filter (fun k => negb (includes k (prunedKeys s signed))) signed in
  inventory ← add_history history (map (fun c => (key c, c)) (omap candidate listed));
  let plan := anchor (retentionPlan (map snd inventory) retention) in
  referenced ← collect listed (keep plan) ([], []);
  objects ← lift (unreferencedObjects o_key (listAll s CLOUD_BACKUP_OBJECT_PREFIX) referenced.1);
  let dumps := listAll s CLOUD_BACKUP_DB_PREFIX in
  let staleDumps := List.filter (fun o => negb (includes (o_key o) (newestDumps dumps))) (unreferencedDumps o_key dumps referenced.2) in
  Ok (mkDecision plan objects staleDumps
    (mkResult dry false (length (keep plan)) (length (remove plan)) (length objects)
       (foldr (fun o total => o_size o + total) 0 objects) (length staleDumps) 0)).

Definition writes (d : Decision_) : list Write :=
  if dryRun (d_result d) then [] else
  let removed := map key (remove (d_plan d)) in
  [AdoptPruned removed; MarkPruned removed] ++ map Delete removed ++
  batches (d_result d) (chunks MAINTENANCE_BATCH (d_objects d)) ++ map (fun o => Delete (o_key o)) (d_dumps d).

(** [prune]: null when a checkpoint stopped it. *)
Definition prune (retention : CloudBackupRetention) (dry : bool) (carry_on : PruneResult -> bool) (s : State) :
  res PruneError (State * option PruneResult) :=
  d ← decide_prune retention dry s;
  let '(s', all) := perform bucketRef carry_on (writes d) s in
  let r := d_result d in
  Ok (s', if all then Some (mkResult dry true (manifestsKept r) (manifestsRemoved r) (objectsRemoved r) (bytesRemoved r)
    (dumpsRemoved r) (if dry then 0 else objectsRemoved r)) else None).
End prune.

(** ** Lemmas: writes *)

Definition run_writes (bucketRef : string) (ws : list Write) (s : State) : State := foldl (write bucketRef) s ws.

Lemma perform_prefix ref carry_on ws s : exists done left, ws = done ++ left /\ (perform ref carry_on ws s).1 = run_writes ref done s /\
  ((perform ref carry_on ws s).2 = true -> left = []).
Proof.
  revert s; induction ws as [|w ws IH]; intros s; [by exists [], []|].
  destruct (IH (write ref s w)) as (done & left & -> & Hs & Hl). cbn [perform]. destruct w.
  1-4: by eexists (_ :: done), left; split; [reflexivity|].
  destruct (carry_on progress); [by exists (Checkpoint progress :: done), left|].
  by exists [Checkpoint progress], (done ++ left).
Qed.

Lemma bucket_after ref ws s k :
  bucket (run_writes ref ws s) !! k = if decide (Delete k ∈ ws) then None else bucket s !! k.
Proof.
  unfold run_writes. revert s; induction ws as [|w ws IH]; intros s; cbn [foldl].
  { rewrite decide_False; [done|]. apply not_elem_of_nil. }
  rewrite IH. destruct (decide (w = Delete k)) as [->|Hw].
  - rewrite (decide_True (P := Delete k ∈ Delete k :: ws)) by set_solver. case_decide; [done|]. cbn. by rewrite lookup_delete_eq.
  - assert (bucket (write ref s w) !! k = bucket s !! k) as ->.
    { destruct w; try done. cbn. rewrite lookup_delete_ne; [done|congruence]. }
    destruct (decide (Delete k ∈ ws)) as [H|H]; [rewrite decide_True by set_solver|rewrite decide_False by set_solver]; done.
Qed.

Lemma not_deleted ref ws s k : (Delete k ∉ ws) -> bucket (run_writes ref ws s) !! k = bucket s !! k.
Proof. intros H. by rewrite bucket_after, decide_False. Qed.

Lemma batches_delete p bs k : Delete k ∈ batches p bs <-> k ∈ map o_key (concat bs).
Proof.
  revert p; induction bs as [|b bs IH]; intros p; cbn [batches concat map].
  - split; intros H; by apply not_elem_of_nil in H.
  - rewrite !elem_of_app, elem_of_cons, IH, map_app, elem_of_app, !list_elem_of_fmap. split.
    + intros [(h & ? & _)|[(o & [= ->] & Ho)|[?|?]]]; try done; [left; eauto|by right].
    + intros [(o & -> & Ho)|?]; [right; left; eauto|auto].
Qed.

(** Every object is forgotten before it is deleted: reading the writes in order, the hash of a deleted
    object is among those forgotten so far. *)
Fixpoint forgotten_first (forgotten : list string) (ws : list Write) : Prop :=
  match ws with
  | [] => True
  | w :: ws =>
      (forall k h, w = Delete k -> after CLOUD_BACKUP_OBJECT_PREFIX k = Some h -> h ∈ forgotten) /\
      forgotten_first (match w with Forget hashes => hashes ++ forgotten | _ => forgotten end) ws
  end.

Lemma forgotten_more f f' ws : (forall h, h ∈ f -> h ∈ f') -> forgotten_first f ws -> forgotten_first f' ws.
Proof.
  revert f f'; induction ws as [|w ws IH]; intros f f' Hf; cbn [forgotten_first]; [done|]. intros [Hw H]. split; [eauto|].
  eapply IH; [|done]. destruct w; try done. set_solver.
Qed.

Lemma forgotten_prefix f ws left : forgotten_first f (ws ++ left) -> forgotten_first f ws.
Proof. revert f; induction ws as [|w ws IH]; intros f; cbn; [done|]. intros [? ?]. split; [done|]. by apply IH. Qed.

Lemma forgotten_forgets f hss ws : forgotten_first (concat (rev hss) ++ f) ws -> forgotten_first f (map Forget hss ++ ws).
Proof.
  revert f; induction hss as [|hs hss IH]; intros f; [done|]. cbn [map app forgotten_first rev]. intros H. split; [done|].
  apply IH. eapply forgotten_more; [|exact H]. intros h. rewrite concat_app. cbn [concat]. rewrite !elem_of_app. set_solver.
Qed.

Lemma forgotten_others f ks ws : (forall k, k ∈ ks -> after CLOUD_BACKUP_OBJECT_PREFIX k = None) ->
  forgotten_first f ws -> forgotten_first f (map Delete ks ++ ws).
Proof.
  intros Hk H. induction ks as [|k ks IH]; [done|]. cbn. split; [|apply IH; set_solver].
  intros k' h [= <-] Ha. rewrite Hk in Ha by set_solver. done.
Qed.

Lemma forgotten_batches f p bs ws : (forall o, o ∈ concat bs -> exists h, o_key o = (CLOUD_BACKUP_OBJECT_PREFIX +:+ h)%string) ->
  (forall f, forgotten_first f ws) -> forgotten_first f (batches p bs ++ ws).
Proof.
  intros Ho Hws. revert f p Ho; induction bs as [|b bs IH]; intros f p Ho; cbn [batches]; [apply Hws|].
  rewrite <- !app_assoc. apply forgotten_forgets. cbn [concat] in Ho.
  assert (forall o, o ∈ b -> string_drop 2 (o_key o) ∈ concat (rev (chunks FORGET_BATCH (map (fun o => string_drop 2 (o_key o)) b))) ++ f) as Hin.
  { intros o Hb. apply elem_of_app. left.
    assert (string_drop 2 (o_key o) ∈ map (fun o => string_drop 2 (o_key o)) b) as Hd by (apply list_elem_of_fmap; eauto).
    apply (elem_of_chunks FORGET_BATCH) in Hd as (c & Hc & Hd); [|unfold FORGET_BATCH; lia].
    apply elem_of_concat_l. exists c. split; [by apply elem_of_rev|done]. }
  revert Hin. generalize (concat (rev (chunks FORGET_BATCH (map (fun o => string_drop 2 (o_key o)) b))) ++ f) as g. intros g Hin.
  assert (forall o, o ∈ b -> exists h, o_key o = (CLOUD_BACKUP_OBJECT_PREFIX +:+ h)%string) as Hb by (intros o Hb; apply Ho; set_solver).
  assert (forall o, o ∈ concat bs -> exists h, o_key o = (CLOUD_BACKUP_OBJECT_PREFIX +:+ h)%string) as Hbs by (intros o Hc; apply Ho; set_solver).
  clear Ho. match goal with |- context [Checkpoint ?q] => generalize q end. intros progress.
  induction b as [|o b IHb]; cbn [map app forgotten_first].
  - split; [done|]. by apply IH.
  - split; [|apply IHb; intros; [apply Hin|apply Hb]; set_solver]. intros k h [= <-] Ha%after_spec. pose proof (Hin o ltac:(set_solver)) as H.
    rewrite Ha in H. exact H.
Qed.

(** ** Lemmas: the decision *)

Lemma manifestTime_prefix k t : manifestTime k = Some t -> starts_with CLOUD_BACKUP_MANIFEST_PREFIX k = true.
Proof.
  unfold manifestTime. destruct (after "m/" k) as [rest|] eqn:Ha; [|done]. intros _. apply after_spec in Ha as ->. apply starts_with_app.
Qed.

(** The three prefixes are of different keys. *)
Lemma prefixes_apart k p q : starts_with p k = true -> starts_with q k = true ->
  p ∈ ["m/"; "o/"; "db/"]%string -> q ∈ ["m/"; "o/"; "db/"]%string -> p = q.
Proof.
  intros Hp Hq Ip Iq. destruct k as [|c k]; [set_solver|].
  repeat (apply elem_of_cons in Ip as [->|Ip]); repeat (apply elem_of_cons in Iq as [->|Iq]);
    try (by apply not_elem_of_nil in Ip); try (by apply not_elem_of_nil in Iq); try done;
    cbn [starts_with] in Hp, Hq; apply andb_true_iff in Hp as [Hp _], Hq as [Hq _];
    apply Ascii.eqb_eq in Hp as <-; discriminate.
Qed.

Lemma listAll_elem s prefix o : o ∈ listAll s prefix <-> bucket s !! o_key o = Some (o_size o) /\ starts_with prefix (o_key o) = true.
Proof.
  unfold listAll. rewrite list_elem_of_fmap. split.
  - intros ([k size] & -> & [Hin Hp]%elem_of_filter_b). apply elem_of_map_to_list in Hin. done.
  - intros [Hb Hp]. exists (o_key o, o_size o). split; [by destruct o|]. apply elem_of_filter_b. by rewrite elem_of_map_to_list.
Qed.

Lemma listAll_NoDup s prefix : NoDup (map o_key (listAll s prefix)).
Proof.
  unfold listAll. rewrite map_map.
  assert (map (fun x => o_key (let '(k, size) := x in mkObject k size)) (List.filter (fun '(k, _) => starts_with prefix k) (map_to_list (bucket s)))
    = map fst (List.filter (fun '(k, _) => starts_with prefix k) (map_to_list (bucket s)))) as -> by (apply map_ext; by intros []).
  pose proof (NoDup_fst_map_to_list (bucket s)) as H. revert H. generalize (map_to_list (bucket s)). intros l.
  change (list_fmap _ _ fst l) with (map fst l). induction l as [|[k v] l IH]; cbn [map List.filter]; [done|].
  intros [Hk Hl]%NoDup_cons. destruct (starts_with prefix k); [|by apply IH]. cbn [map]. apply NoDup_cons. split; [|by apply IH].
  intros (x & Hx & [Hin _]%elem_of_filter_b)%list_elem_of_fmap. apply Hk. apply list_elem_of_fmap. eauto.
Qed.

Definition inventory_ok (inventory : list (string * CloudBackupRetentionCandidate)) : Prop :=
  NoDup (map fst inventory) /\ forall k c, (k, c) ∈ inventory -> candidate k = Some c.

Lemma candidate_key k c : candidate k = Some c -> key c = k /\ starts_with CLOUD_BACKUP_MANIFEST_PREFIX k = true.
Proof.
  unfold candidate. destruct (manifestTime k) as [t|] eqn:Ht; [|done]. intros [= <-]. split; [done|]. by eapply manifestTime_prefix.
Qed.

Lemma omap_candidate_NoDup keys : NoDup keys -> NoDup (map fst (map (fun c => (key c, c)) (omap candidate keys))).
Proof.
  rewrite map_map. cbn [fst]. induction keys as [|k keys IH]; [constructor|]. intros [Hk Hl]%NoDup_cons. rewrite omap_cons.
  destruct (candidate k) as [c|] eqn:Hc; [|by apply IH]. cbn [map]. apply NoDup_cons. split; [|by apply IH].
  intros (x & Hx & (k' & Hk' & Hc')%list_elem_of_omap)%list_elem_of_fmap.
  apply candidate_key in Hc as [Hc _], Hc' as [Hc' _]. congruence.
Qed.

Lemma listing_ok s : inventory_ok (map (fun c => (key c, c)) (omap candidate (map o_key (listAll s CLOUD_BACKUP_MANIFEST_PREFIX)))).
Proof.
  split; [apply omap_candidate_NoDup, listAll_NoDup|]. intros k c (x & [= -> ->] & (k' & _ & Hc)%list_elem_of_omap)%list_elem_of_fmap.
  pose proof (candidate_key _ _ Hc) as [-> _]. done.
Qed.

(** The inventory: what was listed and all known history, each once. *)
Lemma add_history_ok keys inventory inventory' : add_history keys inventory = Ok inventory' -> inventory_ok inventory ->
  inventory_ok inventory' /\ forall k, k ∈ map fst inventory' <-> k ∈ map fst inventory \/ k ∈ keys.
Proof.
  revert inventory; induction keys as [|k keys IH]; intros inventory; cbn [add_history].
  - intros [= <-] H. split; [done|]. intros k. set_solver.
  - destruct (candidate k) as [c|] eqn:Hc; [|done]. intros H [Hnd Hok].
    destruct (IH _ H) as [Hok' Hin].
    + split; [by apply assoc_set_NoDup|]. intros k' c' [[-> ->]|Hin]%assoc_set_elem; [done|]. by apply Hok.
    + split; [done|]. intros k'. rewrite Hin, assoc_set_keys. case_decide; set_solver.
Qed.

Lemma inventory_keys inventory : inventory_ok inventory -> map key (map snd inventory) = map fst inventory.
Proof.
  intros [_ Hok]. induction inventory as [|[k c] l IH]; [done|]. cbn. rewrite IH by set_solver.
  destruct (candidate_key k c) as [-> _]; [|done]. apply Hok. left.
Qed.

Lemma anchor_plan connection plan : (forall x y, x ∈ remove plan -> y ∈ remove plan -> key x = key y -> x = y) ->
  (forall m, m ∈ keep (anchor connection plan) <-> m ∈ keep plan \/ (m ∈ remove plan /\ trustedManifestHead connection = Some (key m))) /\
  (forall m, m ∈ remove (anchor connection plan) <-> m ∈ remove plan /\ trustedManifestHead connection <> Some (key m)).
Proof.
  intros Hinj. unfold anchor. destruct (List.find _ (remove plan)) as [h|] eqn:Hf; cbn [keep remove].
  - apply find_some in Hf as [Hh Hk]. apply bool_decide_eq_true_1 in Hk. apply list_elem_of_In in Hh. split.
    + intros m. rewrite elem_of_app, list_elem_of_singleton. f_equiv. split; [by intros ->|].
      intros [Hm Hkm]. apply Hinj; [done|done|congruence].
    + intros m. by rewrite elem_of_filter_b, negb_true_iff, bool_decide_eq_false.
  - assert (forall m, m ∈ remove plan -> trustedManifestHead connection <> Some (key m)) as Hno.
    { intros m Hm. apply list_elem_of_In in Hm. pose proof (find_none _ _ Hf m Hm) as H. by apply bool_decide_eq_false_1 in H. }
    split; intros m; specialize (Hno m); tauto.
Qed.

Lemma not_an_object k p : starts_with p k = true -> p ∈ ["m/"; "db/"]%string -> after CLOUD_BACKUP_OBJECT_PREFIX k = None.
Proof.
  intros Hp Ip. destruct (after CLOUD_BACKUP_OBJECT_PREFIX k) as [h|] eqn:Ha; [|done]. apply after_spec in Ha as ->.
  pose proof (prefixes_apart _ p "o/"%string Hp (starts_with_app _ _)) as H. rewrite H in Ip by set_solver. set_solver.
Qed.

Lemma remove_key_injective retention l x y : NoDup (map key l) -> x ∈ remove (retentionPlan l retention) ->
  y ∈ remove (retentionPlan l retention) -> key x = key y -> x = y.
Proof.
  intros Hnd Hx Hy. apply (remove_elem retention l) in Hx as [Hx _]; [|done]. apply (remove_elem retention l) in Hy as [Hy _]; [|done].
  by apply (key_injective l).
Qed.

Lemma perform_all ref ws s : perform ref (fun _ => true) ws s = (run_writes ref ws s, true).
Proof. revert s; induction ws as [|w ws IH]; intros s; [done|]. cbn [perform]. rewrite IH. by destruct w. Qed.

(** The rows of the manifests a clean-up removes. *)
Lemma adopt_keeps rows keys k : is_Some (rows !! k) -> is_Some (foldl adopt rows keys !! k).
Proof.
  revert rows; induction keys as [|x keys IH]; intros rows H; [done|]. cbn [foldl]. apply IH. unfold adopt.
  destruct (rows !! x); [done|]. destruct (decide (x = k)) as [->|]; [by rewrite lookup_insert_eq|by rewrite lookup_insert_ne].
Qed.
Lemma adopt_all rows keys k : k ∈ keys -> is_Some (foldl adopt rows keys !! k).
Proof.
  revert rows; induction keys as [|x keys IH]; intros rows; [by intros ?%not_elem_of_nil|]. cbn [foldl].
  intros [->|Hk]%elem_of_cons; [|by apply IH]. apply adopt_keeps. unfold adopt. destruct (rows !! x) eqn:E; [by rewrite E|].
  by rewrite lookup_insert_eq.
Qed.
Lemma mark_lookup rows keys k : foldl mark rows keys !! k =
  if decide (k ∈ keys) then (fun _ => MPruned) <$> rows !! k else rows !! k.
Proof.
  revert rows; induction keys as [|x keys IH]; intros rows; cbn [foldl]; [by rewrite decide_False by apply not_elem_of_nil|].
  rewrite IH. assert (mark rows x !! k = if decide (k = x) then (fun _ => MPruned) <$> rows !! k else rows !! k) as ->.
  { unfold mark. destruct (decide (k = x)) as [->|Hne].
    - destruct (rows !! x) eqn:E; [by rewrite lookup_insert_eq|by rewrite E].
    - destruct (rows !! x); [by rewrite lookup_insert_ne|done]. }
  destruct (decide (k = x)) as [->|Hne]; [rewrite (decide_True (P := x ∈ x :: keys)) by left|].
  - destruct (decide (x ∈ keys)), (rows !! x); done.
  - destruct (decide (k ∈ keys)); [rewrite decide_True by set_solver|rewrite decide_False by set_solver]; done.
Qed.

Definition writes_rows (w : Write) : bool := match w with AdoptPruned _ | MarkPruned _ => true | _ => false end.
Lemma rows_after ref ws s : (forall w, w ∈ ws -> writes_rows w = false) -> manifests (run_writes ref ws s) = manifests s.
Proof.
  unfold run_writes. revert s; induction ws as [|w ws IH]; intros s H; [done|]. cbn [foldl]. rewrite IH by set_solver.
  assert (writes_rows w = false) as Hw by (apply H; left). by destruct w.
Qed.
Lemma batches_rows p bs w : w ∈ batches p bs -> writes_rows w = false.
Proof.
  revert p; induction bs as [|b bs IH]; intros p; cbn [batches]; [by intros ?%not_elem_of_nil|].
  rewrite !elem_of_app, elem_of_cons. intros [(h & -> & _)%list_elem_of_fmap|[(o & -> & _)%list_elem_of_fmap|[->|H]]]; try done.
  by eapply IH.
Qed.

Section safe.
Context {Body : Type} (get : string -> option Body) (decode : Body -> option json) (number_text : jsnum -> string).
Context (assetRecord : list (string * json) -> list (string * json)) (assetDetails albumSchema personSchema : json -> option json).
Context (connection : Connection) (bucketRef : string).
Abbreviation readReferences := (readReferences get decode number_text assetRecord assetDetails albumSchema personSchema).
Abbreviation collect := (collect get decode number_text assetRecord assetDetails albumSchema personSchema connection).
Abbreviation decide_prune := (decide_prune get decode number_text assetRecord assetDetails albumSchema personSchema connection).
Abbreviation prune := (prune get decode number_text assetRecord assetDetails albumSchema personSchema connection bucketRef).

Lemma collect_spec listed kept found found' : collect listed kept found = Ok found' ->
  (forall j, j ∈ found'.1 <-> j ∈ found.1 \/ exists m refs, m ∈ kept /\ readReferences (key m) = Ok refs /\ j ∈ names refs) /\
  (forall j, j ∈ found'.2 <-> j ∈ found.2 \/ exists m refs, m ∈ kept /\ readReferences (key m) = Ok refs /\
     r_database refs = Some j /\ truthy (Some j) = true) /\
  (forall m, m ∈ kept -> exists refs, readReferences (key m) = Ok refs).
Proof.
  revert found; induction kept as [|m kept IH]; intros found; cbn [CloudBackupMaintenance.collect].
  { intros [= <-]. split; [|split]; [intros j|intros j|set_solver]; (split; [by left|]); intros [?|(m & refs & H & _)]; try done;
      by apply not_elem_of_nil in H. }
  intros (u & _ & (refs & Hrefs & H)%bind_Ok)%bind_Ok. apply IH in H as (H1 & H2 & H3). cbn [fst snd] in *.
  split; [|split].
  - intros j. rewrite H1, elem_of_app. split.
    + intros [[?|?]|(m' & r & ? & ?)]; [by left|right; exists m, refs; set_solver|right; exists m', r; set_solver].
    + intros [?|(m' & r & [->|Hm]%elem_of_cons & Hr & Hj)]; [by left; left| |right; by exists m', r].
      rewrite Hrefs in Hr. injection Hr as <-. by left; right.
  - intros j. rewrite H2. split.
    + intros [Hj|(m' & r & ? & ?)]; [|right; exists m', r; set_solver]. destruct (truthy (r_database refs)) eqn:Ht; [|by left].
      apply elem_of_app in Hj as [?|Hj]; [by left|]. right. exists m, refs.
      destruct (r_database refs) as [d|] eqn:Hd; [|by apply not_elem_of_nil in Hj]. apply list_elem_of_singleton in Hj as ->. set_solver.
    + intros [?|(m' & r & [->|Hm]%elem_of_cons & Hr & Hd & Ht)]; [left| |right; by exists m', r].
      * destruct (truthy _); set_solver.
      * rewrite Hrefs in Hr. injection Hr as <-. left. rewrite Hd, Ht. set_solver.
  - intros m' [->|Hm]%elem_of_cons; [by exists refs|by apply H3].
Qed.

(** What the decision rests on. *)
Record decided (retention : CloudBackupRetention) (s : State) (d : Decision_) : Prop := {
  dd_inventory : exists inventory, inventory_ok inventory /\
    (forall k, k ∈ map fst inventory <->
       (exists c, c ∈ omap candidate (map o_key (listAll s CLOUD_BACKUP_MANIFEST_PREFIX)) /\ key c = k) \/
       k ∈ listKeptManifests s ++ List.filter (fun k => negb (includes k (prunedKeys s (map fst (trustedManifests connection))))) (map fst (trustedManifests connection))) /\
    d_plan d = anchor connection (retentionPlan (map snd inventory) retention);
  dd_referenced : exists referenced, collect (map o_key (listAll s CLOUD_BACKUP_MANIFEST_PREFIX)) (keep (d_plan d)) ([], []) = Ok referenced /\
    unreferencedObjects o_key (listAll s CLOUD_BACKUP_OBJECT_PREFIX) referenced.1 = Ok (d_objects d) /\
    d_dumps d = List.filter (fun o => negb (includes (o_key o) (newestDumps (listAll s CLOUD_BACKUP_DB_PREFIX))))
      (unreferencedDumps o_key (listAll s CLOUD_BACKUP_DB_PREFIX) referenced.2);
  dd_head : str_truthy (trustedManifestHead connection) = true ->
    default ""%string (trustedManifestHead connection) ∈ map o_key (listAll s CLOUD_BACKUP_MANIFEST_PREFIX)
}.

Lemma decide_prune_decided retention dry s d : decide_prune retention dry s = Ok d -> decided retention s d /\ dryRun (d_result d) = dry.
Proof.
  unfold CloudBackupMaintenance.decide_prune. cbv zeta.
  destruct (str_truthy (trustedManifestHead connection) && _) eqn:Hhead; [done|].
  intros (inventory & Hinv & (referenced & Href & (objects & Hobj & [= <-])%bind_Ok)%bind_Ok)%bind_Ok.
  split; [|done]. split; cbn [d_plan d_objects d_dumps].
  - destruct (add_history_ok _ _ _ Hinv (listing_ok s)) as [Hok Hkeys]. exists inventory. split; [done|]. split; [|done].
    intros k. rewrite Hkeys, map_map. cbn [fst]. rewrite list_elem_of_fmap. f_equiv. split; intros (c & H1 & H2); exists c; done.
  - exists referenced. split; [done|]. split; [|done]. by destruct (unreferencedObjects _ _ _); [injection Hobj as <-|].
  - intros Ht. rewrite Ht in Hhead. cbn [andb] in Hhead. apply negb_false_iff in Hhead. by apply bool_decide_eq_true_1 in Hhead.
Qed.

Lemma named_object k refs sha key : readReferences k = Ok refs -> stored_under (r_objects refs, r_storageKeys refs) sha (JStr key) ->
  (starts_with "o/v1/" key = true /\ JStr key ∈ names refs) \/
  (isSha256Hex sha = true /\ key = (CLOUD_BACKUP_OBJECT_PREFIX +:+ sha)%string /\ JStr sha ∈ names refs).
Proof.
  unfold CloudBackupMaintenance.readReferences. destruct (get k) as [body|]; [|done].
  destruct (readManifest _ _ _ _ _ _ body) as [m|] eqn:Hm; [|done]. cbn [lift]. res_step.
  destruct (manifestReferences m) as [r|] eqn:Hr; [|done]. intros [= ->] Hst.
  destruct (readManifest_parts _ _ _ _ _ _ _ _ Hm) as (j & _ & P).
  destruct (references_of _ j m P) as (r & Hr' & _ & Hspec). rewrite Hr in Hr'. injection Hr' as <-.
  assert (forall x, x ∈ JStr sha :: default [] (assoc_get sha (r_storageKeys refs)) -> x ∈ names refs) as Hn.
  { intros x Hx. unfold names. apply elem_of_flat_map. exists sha. split; [apply Hst|done]. }
  apply Hspec in Hst as Hf. destruct Hf as (f & Hin & <- & Hkey).
  destruct (named_keys _ j m f _ P Hin Hkey) as [H12 H3]. destruct (decide (m_version m = 3)) as [Hv|Hv].
  - left. destruct (H3 Hv key eq_refl) as (c & Hc & Hkind). split; [by eapply object_context|].
    destruct Hst as (_ & keys & Hg & Hk). cbn [snd] in Hg. apply Hn. rewrite Hg. cbn. set_solver.
  - right. specialize (H12 Hv). injection H12 as ->. split; [by eapply read_file_sha256|]. split; [done|]. apply Hn. set_solver.
Qed.

Lemma writes_delete d k : Delete k ∈ writes d <->
  dryRun (d_result d) = false /\ (k ∈ map key (remove (d_plan d)) \/ k ∈ map o_key (d_objects d) \/ k ∈ map o_key (d_dumps d)).
Proof using Type.
  unfold writes. destruct (dryRun (d_result d)); [split; [by intros ?%not_elem_of_nil|by intros []]|]. cbn [app].
  rewrite !elem_of_cons, !elem_of_app, batches_delete, concat_chunks by (unfold MAINTENANCE_BATCH; lia).
  rewrite (list_elem_of_fmap Delete), (list_elem_of_fmap (fun o => Delete (o_key o))). split.
  - intros [?|[?|[(x & [= ->] & Hx)|[?|(o & [= ->] & Ho)]]]]; try done; (split; [done|]); [auto|auto|].
    right; right. apply list_elem_of_fmap. eauto.
  - intros [_ [?|[?|(o & -> & Ho)%list_elem_of_fmap]]]; right; right; [left|right; left|right; right]; eauto.
Qed.

Lemma removed_prefix retention s d k : decided retention s d -> k ∈ map key (remove (d_plan d)) ->
  starts_with CLOUD_BACKUP_MANIFEST_PREFIX k = true.
Proof.
  intros [(inventory & Hok & _ & Hplan) _ _] (m & -> & Hm)%list_elem_of_fmap.
  assert (m ∈ remove (retentionPlan (map snd inventory) retention)) as Hr.
  { rewrite Hplan in Hm. revert Hm. unfold anchor. destruct (List.find _ _); [|done]. cbn [remove]. by intros [? _]%elem_of_filter_b. }
  cbn [remove retentionPlan] in Hr. apply elem_of_filter_b in Hr as [Hr _]. apply sort_by_elem in Hr.
  apply list_elem_of_fmap in Hr as ([k c] & -> & Hin). apply Hok in Hin. cbn [snd].
  by destruct (candidate_key _ _ Hin) as [-> ?].
Qed.
Lemma objects_prefix retention s d k : decided retention s d -> k ∈ map o_key (d_objects d) ->
  starts_with CLOUD_BACKUP_OBJECT_PREFIX k = true.
Proof.
  intros [_ (referenced & _ & Hobj & _) _] (o & -> & Ho)%list_elem_of_fmap.
  apply (unreferencedObjects_elem _ _ _ _ Hobj) in Ho as [Ho _]. by apply listAll_elem in Ho as [_ ?].
Qed.
Lemma dumps_prefix retention s d k : decided retention s d -> k ∈ map o_key (d_dumps d) ->
  starts_with CLOUD_BACKUP_DB_PREFIX k = true.
Proof.
  intros [_ (referenced & _ & _ & Hdumps) _] (o & -> & Ho)%list_elem_of_fmap.
  rewrite Hdumps in Ho. apply elem_of_filter_b in Ho as [Ho _]. unfold unreferencedDumps in Ho.
  apply elem_of_filter_b in Ho as [Ho _]. by apply listAll_elem in Ho as [_ ?].
Qed.

(** What a kept manifest names is never offered. *)
Lemma named_not_offered retention s d m refs sha k : decided retention s d -> m ∈ keep (d_plan d) ->
  readReferences (key m) = Ok refs -> stored_under (r_objects refs, r_storageKeys refs) sha (JStr k) ->
  k ∉ map o_key (d_objects d).
Proof.
  intros [_ (referenced & Hcol & Hobj & _) _] Hm Hrefs Hst Hin.
  destruct (collect_spec _ _ _ _ Hcol) as (H1 & _ & _).
  assert (forall j, j ∈ names refs -> j ∈ referenced.1) as Hall by (intros j Hj; apply H1; right; eauto).
  apply list_elem_of_fmap in Hin as (o & -> & Ho). apply (unreferencedObjects_elem _ _ _ _ Hobj) in Ho as [_ Ho].
  destruct (named_object _ _ _ _ Hrefs Hst) as [[Hv1 Hn]|(Hs & He & Hn)].
  - unfold object_unreferenced in Ho. rewrite Hv1 in Ho.
    destruct (after CLOUD_BACKUP_OBJECT_PREFIX (o_key o)); [|done]. apply bind_Ok in Ho as (c & _ & [= Ho]).
    apply andb_true_iff in Ho as [_ Ho]. apply negb_true_iff in Ho. rewrite (proj2 (has_true _ _)) in Ho by auto. done.
  - rewrite He, object_unreferenced_legacy in Ho by done. injection Ho as Ho. apply negb_true_iff in Ho.
    rewrite (proj2 (has_true _ _)) in Ho by auto. done.
Qed.

(** The index after some writes: nothing new, and nothing that was forgotten. *)
Lemma index_after ws s p : p ∈ index (run_writes bucketRef ws s) -> p ∈ index s.
Proof using Type.
  unfold run_writes. revert s; induction ws as [|w ws IH]; intros s; [done|]. intros H. apply IH in H.
  destruct w; cbn [write index] in H; try done. set_solver.
Qed.
Lemma forgotten_index f ws s k h place : forgotten_first f ws -> Delete k ∈ ws -> after CLOUD_BACKUP_OBJECT_PREFIX k = Some h ->
  place_of bucketRef place = true -> (place, h) ∈ index (run_writes bucketRef ws s) -> h ∈ f.
Proof using Type.
  intros Hf Hd Ha Hp. unfold run_writes. revert f s Hf Hd; induction ws as [|w ws IH]; intros f s Hf Hd Hin.
  { by apply not_elem_of_nil in Hd. }
  destruct Hf as [Hw Hf]. apply elem_of_cons in Hd as [<-|Hd]; [by eapply Hw|].
  pose proof (IH _ _ Hf Hd Hin) as Hh. destruct w; try done. apply elem_of_app in Hh as [Hh|Hh]; [|done].
  apply (index_after ws (write bucketRef s (Forget hashes))) in Hin. cbn [write index] in Hin. apply elem_of_filter in Hin as [Hin _]. cbn [fst snd] in Hin.
  destruct Hin. rewrite Hp. done.
Qed.

Lemma writes_forgotten retention s d : decided retention s d -> forgotten_first [] (writes d).
Proof.
  intros D. unfold writes. destruct (dryRun (d_result d)); [done|]. cbn [app forgotten_first].
  split; [done|]. split; [done|].
  apply forgotten_others.
  { intros k Hk. apply (not_an_object k "m/"); [by eapply removed_prefix|set_solver]. }
  apply forgotten_batches.
  - intros o Ho. rewrite concat_chunks in Ho by (unfold MAINTENANCE_BATCH; lia).
    assert (starts_with CLOUD_BACKUP_OBJECT_PREFIX (o_key o) = true) as Hp
      by (eapply objects_prefix; [done|apply list_elem_of_fmap; eauto]).
    by apply starts_with_spec in Hp.
  - intros f. rewrite <- (app_nil_r (map _ (d_dumps d))), <- (map_map o_key Delete).
    apply forgotten_others; [|done]. intros k Hk. apply (not_an_object k "db/"); [by eapply dumps_prefix|set_solver].
Qed.

(** The plan of a decision, over an inventory with every key once. *)
Lemma decided_plan retention s d : decided retention s d -> exists l, NoDup (map key l) /\
  (forall m, m ∈ l -> candidate (key m) = Some m) /\ d_plan d = anchor connection (retentionPlan l retention) /\
  (forall k, k ∈ map key l <-> (exists c, c ∈ omap candidate (map o_key (listAll s CLOUD_BACKUP_MANIFEST_PREFIX)) /\ key c = k) \/
     k ∈ listKeptManifests s ++ List.filter (fun k => negb (includes k (prunedKeys s (map fst (trustedManifests connection))))) (map fst (trustedManifests connection))).
Proof.
  intros [(inventory & Hok & Hkeys & Hplan) _ _]. exists (map snd inventory). rewrite (inventory_keys _ Hok).
  split; [apply Hok|]. split; [|done]. intros m ([k c] & -> & Hin)%list_elem_of_fmap. apply Hok in Hin. cbn [snd].
  destruct (candidate_key _ _ Hin) as [-> _]. done.
Qed.

Lemma kept_not_deleted retention s d m : decided retention s d -> m ∈ keep (d_plan d) -> Delete (key m) ∉ writes d.
Proof.
  intros D Hm [_ Hdel]%writes_delete. destruct (decided_plan _ _ _ D) as (l & Hnd & Hcand & Hplan & _).
  destruct (anchor_plan connection (retentionPlan l retention)) as [Hkeep Hremove].
  { intros x y. by apply remove_key_injective. }
  rewrite <- Hplan in Hkeep, Hremove. apply Hkeep in Hm as Hm'.
  assert (m ∈ l) as Hml.
  { destruct Hm' as [H|[H _]]; [apply (keep_elem retention l) in H|apply (remove_elem retention l) in H]; by try destruct H. }
  assert (starts_with CLOUD_BACKUP_MANIFEST_PREFIX (key m) = true) as Hp by (by eapply candidate_key, Hcand).
  destruct Hdel as [(x & Hk & Hx)%list_elem_of_fmap|[H|H]].
  - destruct (proj1 (Hremove x) Hx) as [Hr Hhead]. apply (remove_elem retention l) in Hr as [Hxl Hxk]; [|done].
    pose proof (key_injective l m x Hnd Hml Hxl Hk) as He. rewrite <- He in Hxk, Hhead. destruct Hm' as [H|[_ Hh]]; [|done].
    apply (keep_elem retention l) in H as [_ Hmk]; [|done]. congruence.
  - pose proof (objects_prefix _ _ _ _ D H) as Hp'. by pose proof (prefixes_apart _ _ _ Hp Hp' ltac:(set_solver) ltac:(set_solver)).
  - pose proof (dumps_prefix _ _ _ _ D H) as Hp'. by pose proof (prefixes_apart _ _ _ Hp Hp' ltac:(set_solver) ltac:(set_solver)).
Qed.

(** A dry run decides the same. *)
Lemma dry_decision retention s d : decide_prune retention false s = Ok d ->
  decide_prune retention true s = Ok (mkDecision (d_plan d) (d_objects d) (d_dumps d) (mkResult true false
    (manifestsKept (d_result d)) (manifestsRemoved (d_result d)) (objectsRemoved (d_result d)) (bytesRemoved (d_result d))
    (dumpsRemoved (d_result d)) 0)).
Proof using Type.
  unfold CloudBackupMaintenance.decide_prune. cbv zeta. destruct (_ && _); [done|].
  destruct (add_history _ _) as [inventory|]; [|done]. res_step. destruct (collect _ _ _) as [referenced|]; [|done]. res_step.
  destruct (lift _) as [objects|]; [|done]. res_step. by intros [= <-].
Qed.

(** The writes of an interrupted clean-up, as far as it got. *)
Definition interrupted (d : Decision_) (ws : list Write) : Prop := exists left, writes d = ws ++ left.

Lemma interrupted_delete d ws k : interrupted d ws -> Delete k ∈ ws -> Delete k ∈ writes d.
Proof using Type. intros [left ->] H. apply elem_of_app. by left. Qed.

Lemma kept_named retention s d m ws : decided retention s d -> m ∈ keep (d_plan d) -> interrupted d ws ->
  bucket (run_writes bucketRef ws s) !! key m = bucket s !! key m /\
  exists refs, readReferences (key m) = Ok refs /\
    (forall sha k, stored_under (r_objects refs, r_storageKeys refs) sha (JStr k) ->
       bucket (run_writes bucketRef ws s) !! k = bucket s !! k) /\
    (forall k, r_database refs = Some (JStr k) -> starts_with CLOUD_BACKUP_DB_PREFIX k = true ->
       bucket (run_writes bucketRef ws s) !! k = bucket s !! k).
Proof.
  intros D Hm Hws. split.
  { apply not_deleted. intros H%(interrupted_delete d); [|done]. by eapply kept_not_deleted in H. }
  pose proof D as [_ (referenced & Hcol & _ & Hdumps) _].
  destruct (collect_spec _ _ _ _ Hcol) as (_ & H2 & H3). destruct (H3 m Hm) as [refs Hrefs]. exists refs.
  split; [done|]. split.
  - intros sha k Hst. apply not_deleted. intros [_ Hdel]%(interrupted_delete d)%writes_delete; [|done].
    assert (starts_with CLOUD_BACKUP_OBJECT_PREFIX k = true) as Hp.
    { destruct (named_object _ _ _ _ Hrefs Hst) as [[Hv _]|(_ & -> & _)]; [|apply starts_with_app].
      apply starts_with_spec in Hv as [t ->]. apply starts_with_spec. by exists ("v1/" +:+ t)%string. }
    destruct Hdel as [H|[H|H]].
    + pose proof (removed_prefix _ _ _ _ D H) as Hq. by pose proof (prefixes_apart _ _ _ Hp Hq ltac:(set_solver) ltac:(set_solver)).
    + by eapply named_not_offered in H.
    + pose proof (dumps_prefix _ _ _ _ D H) as Hq. by pose proof (prefixes_apart _ _ _ Hp Hq ltac:(set_solver) ltac:(set_solver)).
  - intros k Hdb Hp. apply not_deleted. intros [_ Hdel]%(interrupted_delete d)%writes_delete; [|done].
    destruct Hdel as [H|[H|H]].
    + pose proof (removed_prefix _ _ _ _ D H) as Hq. by pose proof (prefixes_apart _ _ _ Hp Hq ltac:(set_solver) ltac:(set_solver)).
    + pose proof (objects_prefix _ _ _ _ D H) as Hq. by pose proof (prefixes_apart _ _ _ Hp Hq ltac:(set_solver) ltac:(set_solver)).
    + apply list_elem_of_fmap in H as (o & -> & Ho). rewrite Hdumps in Ho. apply elem_of_filter_b in Ho as [Ho _].
      unfold unreferencedDumps in Ho. apply elem_of_filter_b in Ho as [_ Ho]. apply andb_true_iff in Ho as [_ Ho].
      apply negb_true_iff in Ho. rewrite (proj2 (has_true _ _)) in Ho; [done|]. apply H2. right. exists m, refs.
      split; [done|]. split; [done|]. split; [done|]. cbn. apply starts_with_spec in Hp as [t ->]. done.
Qed.

(** C33. Wherever a clean-up stops, by a crash, a pause or a cancel, every manifest it keeps was read in full
    and is unchanged in the bucket, as is everything it names: each object under the key a restore fetches
    and its dump.  Whatever it plans to remove is older than something it keeps, and never the anchored
    head; no key outside the three prefixes changes.  And for an object kept under its own content hash,
    [o/<hash>], whenever the index still lists that hash for this bucket the object is unchanged, so no run
    skips its upload because of an entry the clean-up outdated.  Objects of the client format, kept under
    [o/v1/<vault>/...] and listed under the SHA-256 of their file, are not meant by this last part: their
    entries stay when they are deleted. *)
Theorem prune_safe (retention : CloudBackupRetention) (dry : bool) (s : State) (d : Decision_) (ws : list Write)
  (planned : decide_prune retention dry s = Ok d) (stopped : interrupted d ws) :
  let s' := run_writes bucketRef ws s in
  (forall m, m ∈ keep (d_plan d) -> bucket s' !! key m = bucket s !! key m /\
     exists refs, readReferences (key m) = Ok refs /\
       (forall sha k, stored_under (r_objects refs, r_storageKeys refs) sha (JStr k) -> bucket s' !! k = bucket s !! k) /\
       (forall k, r_database refs = Some (JStr k) -> starts_with CLOUD_BACKUP_DB_PREFIX k = true -> bucket s' !! k = bucket s !! k)) /\
  (forall m, m ∈ remove (d_plan d) -> trustedManifestHead connection <> Some (key m) /\
     exists m', m' ∈ keep (d_plan d) /\ newer m m' = true) /\
  (forall k, bucket s' !! k <> bucket s !! k -> exists p, p ∈ ["m/"; "o/"; "db/"]%string /\ starts_with p k = true) /\
  (forall place h, place_of bucketRef place = true -> (place, h) ∈ index s' ->
     bucket s' !! (CLOUD_BACKUP_OBJECT_PREFIX +:+ h)%string = bucket s !! (CLOUD_BACKUP_OBJECT_PREFIX +:+ h)%string).
Proof.
  destruct (decide_prune_decided _ _ _ _ planned) as [D _]. cbv zeta. split; [|split; [|split]].
  - intros m Hm. by eapply kept_named.
  - intros m Hm. destruct (decided_plan _ _ _ D) as (l & Hnd & _ & Hplan & _).
    destruct (anchor_plan connection (retentionPlan l retention)) as [Hkeep Hremove].
    { intros x y. by apply remove_key_injective. }
    rewrite <- Hplan in Hkeep, Hremove. destruct (proj1 (Hremove m) Hm) as [Hr Hh]. split; [done|].
    destruct (plan_newest retention l m Hnd Hr) as (m' & Hm' & Hn). exists m'. split; [|done]. apply Hkeep. by left.
  - intros k Hne. destruct (decide (Delete k ∈ ws)) as [H|H]; [|by rewrite not_deleted in Hne].
    apply (interrupted_delete d) in H; [|done]. apply writes_delete in H as [_ [H|[H|H]]].
    + exists "m/"%string. split; [set_solver|]. by eapply removed_prefix.
    + exists "o/"%string. split; [set_solver|]. by eapply objects_prefix.
    + exists "db/"%string. split; [set_solver|]. by eapply dumps_prefix.
  - intros place h Hp Hin. apply not_deleted. intros Hdel. pose proof (writes_forgotten _ _ _ D) as Hf.
    destruct stopped as [left Hw]. rewrite Hw in Hf. apply forgotten_prefix in Hf.
    pose proof (forgotten_index _ _ _ _ h place Hf Hdel (proj2 (after_spec CLOUD_BACKUP_OBJECT_PREFIX _ h) eq_refl) Hp Hin) as H.
    by apply not_elem_of_nil in H.
Qed.

(** A clean-up that runs to its end leaves in the bucket exactly what it was to leave: the manifests it
    keeps, the objects they name (and whatever is not an object's name), the dumps they name and the
    newest seven.  Those it removed can no longer be offered for a restore, and a dry run counts the same
    and writes nothing. *)
Theorem prune_exact (retention : CloudBackupRetention) (s : State) (d : Decision_)
  (planned : decide_prune retention false s = Ok d) :
  exists s' result, prune retention false (fun _ => true) s = Ok (s', Some result) /\
    (forall k, bucket s' !! k = if bool_decide (k ∈ map key (remove (d_plan d))) || bool_decide (k ∈ map o_key (d_objects d))
       || bool_decide (k ∈ map o_key (d_dumps d)) then None else bucket s !! k) /\
    (forall o, o ∈ d_objects d <-> bucket s !! o_key o = Some (o_size o) /\ exists referenced,
       object_unreferenced referenced (o_key o) = Ok true /\
       forall j, j ∈ referenced <-> exists m refs, m ∈ keep (d_plan d) /\ readReferences (key m) = Ok refs /\ j ∈ names refs) /\
    (forall m, m ∈ remove (d_plan d) -> manifests s' !! key m = Some MPruned) /\
    decide_prune retention true s = Ok (mkDecision (d_plan d) (d_objects d) (d_dumps d) (mkResult true false
      (manifestsKept result) (manifestsRemoved result) (objectsRemoved result) (bytesRemoved result) (dumpsRemoved result) 0)) /\
    prune retention true (fun _ => true) s = Ok (s, Some (mkResult true true
      (manifestsKept result) (manifestsRemoved result) (objectsRemoved result) (bytesRemoved result) (dumpsRemoved result) 0)).
Proof.
  destruct (decide_prune_decided _ _ _ _ planned) as [D Hdry].
  assert (prune retention false (fun _ => true) s = Ok (run_writes bucketRef (writes d) s, Some (mkResult false true
    (manifestsKept (d_result d)) (manifestsRemoved (d_result d)) (objectsRemoved (d_result d)) (bytesRemoved (d_result d))
    (dumpsRemoved (d_result d)) (objectsRemoved (d_result d))))) as Hprune.
  { unfold CloudBackupMaintenance.prune. rewrite planned. res_step. by rewrite perform_all. }
  do 2 eexists. split; [exact Hprune|]. clear Hprune. cbn [manifestsKept manifestsRemoved objectsRemoved bytesRemoved dumpsRemoved].
  assert (decide_prune retention true s = Ok (mkDecision (d_plan d) (d_objects d) (d_dumps d) (mkResult true false
    (manifestsKept (d_result d)) (manifestsRemoved (d_result d)) (objectsRemoved (d_result d)) (bytesRemoved (d_result d))
    (dumpsRemoved (d_result d)) 0))) as Hd by (by eapply dry_decision).
  split; [|split; [|split; [|split]]].
  - intros k. rewrite bucket_after. destruct (decide (Delete k ∈ writes d)) as [H|H]; rewrite writes_delete, Hdry in H.
    + destruct H as [_ [H|[H|H]]]; rewrite (bool_decide_true _ H), ?orb_true_r; done.
    + rewrite !bool_decide_false by tauto. done.
  - intros o. destruct D as [_ (referenced & Hcol & Hobj & _) _]. rewrite (unreferencedObjects_elem _ _ _ _ Hobj), listAll_elem.
    destruct (collect_spec _ _ _ _ Hcol) as (H1 & _ & _). split.
    + intros [[Hb _] Ho]. split; [done|]. exists referenced.1. split; [done|]. intros j. rewrite H1. split; [|by right].
      intros [H|H]; [by apply not_elem_of_nil in H|done].
    + intros [Hb (r & Ho & Hr)]. assert (object_unreferenced referenced.1 (o_key o) = Ok true) as Ho'.
      { rewrite <- Ho. apply object_unreferenced_same. intros j. rewrite H1, Hr. split; [|by right].
        intros [H|H]; [by apply not_elem_of_nil in H|done]. }
      split; [|done]. split; [done|]. unfold object_unreferenced in Ho. unfold after in Ho.
      by destruct (starts_with CLOUD_BACKUP_OBJECT_PREFIX (o_key o)).
  - intros m Hm. unfold writes. rewrite Hdry. unfold run_writes. cbn [app foldl].
    match goal with |- manifests (foldl _ _ ?ws) !! _ = _ =>
      change (manifests (run_writes bucketRef ws (mkState (bucket s) (index s)
        (foldl mark (foldl adopt (manifests s) (map key (remove (d_plan d)))) (map key (remove (d_plan d)))))) !! key m = Some MPruned) end.
    rewrite rows_after.
    + cbn [manifests]. assert (key m ∈ map key (remove (d_plan d))) as Hk by (apply list_elem_of_fmap; eauto).
      rewrite mark_lookup, decide_True by done. by destruct (adopt_all (manifests s) _ _ Hk) as [x ->].
    + intros w. rewrite !elem_of_app. intros [(k & -> & _)%list_elem_of_fmap|[H|(o & -> & _)%list_elem_of_fmap]]; try done.
      by eapply batches_rows.
  - done.
  - unfold CloudBackupMaintenance.prune. rewrite Hd. res_step. by rewrite perform_all.
Qed.
End safe.

(** ** A clean-up *)

Definition sha_of (c : ascii) : string := string_take 63 sample_sha +:+ String c "".
Definition manifest_of (sha dump : string) : json :=
  JObj [("format", JStr CLOUD_BACKUP_MANIFEST_FORMAT); ("version", JNum (JInt 2)); ("instanceId", JStr "i");
        ("database", JObj [("key", JStr dump); ("sha256", JStr sample_sha)]);
        ("assets", JObj [("a1", JObj [("owner", JNull); ("files", JArr [JObj [("role", JStr "original"); ("path", JStr "/a.jpg");
          ("sha256", JStr sha); ("size", JNum (JInt 7))]])])])]%string.
Definition old_key : string := "m/20260925T030000Z.json.gz".
Definition new_key : string := "m/20260926T030000Z.json.gz".
Definition sample_get (k : string) : option json :=
  if String.eqb k old_key then Some (manifest_of (sha_of "a") "db/a.gz")
  else if String.eqb k new_key then Some (manifest_of (sha_of "b") "db/b.gz") else None.
Definition sample_state : State :=
  mkState (list_to_map [(old_key, 1); (new_key, 1); ("o/" +:+ sha_of "a", 7); ("o/" +:+ sha_of "b", 7); ("db/b.gz", 9); ("readme", 1)]%string)
    {[ ("ref", sha_of "a"); ("ref", sha_of "b") ]}%string (list_to_map [(new_key, MComplete)]).
Definition sample_connection : Connection := mkConnection "bucket" None None [].
Definition sample_decision : res PruneError Decision_ :=
  decide_prune sample_get Some (fun _ => "") (fun fs => fs) Some Some Some sample_connection (mkRetention 1 0 0) false sample_state.

Example sample_prune :
  (fun d => (map key (keep (d_plan d)), map key (remove (d_plan d)), map o_key (d_objects d), map o_key (d_dumps d))) <$> to_option sample_decision
  = Some ([new_key], [old_key], ["o/" +:+ sha_of "a"], [])%string.
Proof. vm_compute. reflexivity. Qed.

Lemma prune_safe_witness : exists d, sample_decision = Ok d /\
  forall ws, interrupted d ws ->
    bucket (run_writes "ref" ws sample_state) !! new_key = Some 1 /\
    (("ref", sha_of "a") ∈ index (run_writes "ref" ws sample_state) ->
     bucket (run_writes "ref" ws sample_state) !! ("o/" +:+ sha_of "a")%string = Some 7).
Proof.
  destruct sample_decision as [d|e] eqn:Hd; [|by vm_compute in Hd]. exists d. split; [done|]. intros ws Hws.
  destruct (prune_safe sample_get Some (fun _ => ""%string) (fun fs => fs) Some Some Some sample_connection "ref" (mkRetention 1 0 0)
    false sample_state d ws Hd Hws) as (H1 & _ & _ & H4).
  split.
  - assert (exists m, m ∈ keep (d_plan d) /\ key m = new_key) as (m & Hm & Hk).
    { vm_compute in Hd. injection Hd as <-. eexists. split; [left|reflexivity]. }
    destruct (H1 m Hm) as [Hb _]. rewrite Hk in Hb. rewrite Hb. by vm_compute.
  - intros Hin. specialize (H4 "ref"%string (sha_of "a") eq_refl Hin).
    change (CLOUD_BACKUP_OBJECT_PREFIX +:+ sha_of "a")%string with ("o/" +:+ sha_of "a")%string in H4. rewrite H4. by vm_compute.
Defined.

Lemma prune_exact_witness : exists d s' result, sample_decision = Ok d /\
  prune sample_get Some (fun _ => "") (fun fs => fs) Some Some Some sample_connection "ref" (mkRetention 1 0 0) false
    (fun _ => true) sample_state = Ok (s', Some result) /\ manifests s' !! old_key = Some MPruned.
Proof.
  destruct sample_decision as [d|e] eqn:Hd; [|by vm_compute in Hd].
  destruct (prune_exact sample_get Some (fun _ => ""%string) (fun fs => fs) Some Some Some sample_connection "ref" (mkRetention 1 0 0)
    sample_state d Hd) as (s' & result & Hrun & _ & _ & Hrows & _).
  exists d, s', result. split; [done|]. split; [exact Hrun|].
  assert (exists m, m ∈ remove (d_plan d) /\ key m = old_key) as (m & Hm & Hk).
  { vm_compute in Hd. injection Hd as <-. eexists. split; [left|reflexivity]. }
  rewrite <- Hk. by apply Hrows.
Defined.
