(* ===== verification/CloudBackupVerify.v ===== *)
(** * Cloud backup verification ([server/src/services/cloud-backup-maintenance.ts], [verify])

    A verification reads every manifest in the bucket, then checks objects in the order of their hashes (a
    week's slice of them, or all, and then the dumps) and records what it finds, a batch at a time; a
    pause or a lost claim stops it at a checkpoint, whose result the next claim starts from.  It writes
    only to the index, so the bucket's answers are parameters of one verification: [listing] its manifest
    keys, [get] a manifest, [head] and [hashObject] an object. *)

From S2P Require Import Prelude JsNumber JsString JsDate CloudBackupManifest CloudBackupRetention CloudBackupMaintenance.
Local Open Scope Z_scope.

Definition VERIFY_BAD_KEPT : nat := 1000.

Inductive Problem := Missing | Mismatched.
#[export] Instance Problem_eq_dec : EqDecision Problem.
Proof. solve_decision. Defined.

Record VerifyResult := mkVerify {
  depth : VerifyDepth;
  v_done : bool;
  slice : Z;
  total : nat;
  checked : nat;
  missing : nat;
  mismatched : nat;
  degradedManifests : nat;
  degradedKeys : list string;
  cursor : option string;
  dumpCursor : option string;
  bad : list string
}.

Definition emptyVerifyResult (d : VerifyDepth) (now : Z) : VerifyResult :=
  mkVerify d false (verifySliceOf now) 0 0 0 0 0 [] None None [].

(** An answer of the store: what it holds, nothing, something damaged, or an error that stops the
    verification. *)
Inductive Answer (A : Type) := Found (a : A) | Gone | Damaged | Broken.
Arguments Found {A} a.
Arguments Gone {A}.
Arguments Damaged {A}.
Arguments Broken {A}.

(** What the manifests name: an object's size, the manifests naming it and the keys it is stored under,
    and the manifests naming each dump. *)
Record Entry := mkEntry { e_size : jsnum; e_manifests : list string; e_storageKeys : list json }.
Record Named := mkNamed { n_objects : list (string * Entry); n_dumps : list (string * list string); n_unreadable : list string }.

Inductive Event :=
| Recorded (sha256 : string) (result : option Problem)
| Forgotten (hashes : list string)
| MarkDegraded (keys : list string)
| Saved (result : VerifyResult).

(** What a run carries from one object to the next. *)
Record Work := mkWork { w_result : VerifyResult; w_bad : list string; w_degraded : list string }.
(** Part of a run: what it did, and what it carries on with, or none when an error ended it. *)
Definition Part : Type := list Event * option Work.
Definition and_then (p : Part) (next : Work -> Part) : Part :=
  match p.2 with
  | Some w => (p.1 ++ (next w).1, (next w).2)
  | None => p
  end.

Definition num_same (a b : jsnum) : bool := num_le a b && num_le b a.
Definition add_string (l : list string) (x : string) : list string := if includes x l then l else l ++ [x].

Section verify.
Context {Body : Type} (listing : list string) (get : string -> Answer Body) (head : json -> Answer jsnum)
  (hashObject : json -> Answer (string * jsnum)).
Context (decode : Body -> option json) (number_text : jsnum -> string).
Context (assetRecord : list (string * json) -> list (string * json)) (assetDetails albumSchema personSchema : json -> option json).
Context (trustedHead : option string).

(** ** Reading the manifests *)

Definition read_body (body : Body) : option References :=
  match readManifest decode number_text assetRecord assetDetails albumSchema personSchema body with
  | Ok m => to_option (manifestReferences m)
  | Throw _ => None
  end.

Definition add_object (manifest : string) (refs : References) (named : list (string * Entry)) (object : string * jsnum) : list (string * Entry) :=
  let keys := default [] (assoc_get object.1 (r_storageKeys refs)) in
  match assoc_get object.1 named with
  | Some entry => assoc_set object.1 (mkEntry (e_size entry) (e_manifests entry ++ [manifest]) (foldl add_key (e_storageKeys entry) keys)) named
  | None => assoc_set object.1 (mkEntry object.2 [manifest] (foldl add_key [] keys)) named
  end.
Definition add_dump (manifest : string) (refs : References) (dumps : list (string * list string)) : list (string * list string) :=
  match r_database refs with
  | Some (JStr dump) => if String.eqb dump "" then dumps else assoc_set dump (default [] (assoc_get dump dumps) ++ [manifest]) dumps
  | _ => dumps
  end.

(** None when the store fails: only a missing, damaged or malformed manifest is passed over. *)
Fixpoint read_manifests (keys : list string) (n : Named) : option Named :=
  match keys with
  | [] => Some n
  | k :: keys =>
      match manifestTime k with
      | None => read_manifests keys n
      | Some _ =>
          match get k with
          | Broken => None
          | Found body =>
              match read_body body with
              | Some refs => read_manifests keys (mkNamed (foldl (add_object k refs) (n_objects n) (r_objects refs)) (add_dump k refs (n_dumps n)) (n_unreadable n))
              | None => read_manifests keys (mkNamed (n_objects n) (n_dumps n) (n_unreadable n ++ [k]))
              end
          | _ => read_manifests keys (mkNamed (n_objects n) (n_dumps n) (n_unreadable n ++ [k]))
          end
      end
  end.
Definition named_all : option Named :=
  read_manifests listing (mkNamed [] [] (match trustedHead with
    | Some h => if negb (String.eqb h "") && negb (includes h listing) then [h] else []
    | None => []
    end)).

(** ** Checking *)

(** [checkObject]: none when the store fails. *)
Definition checkObject (d : VerifyDepth) (sha256 : string) (size : jsnum) (k : json) : option (option Problem) :=
  match d with
  | Full =>
      match head k with
      | Found found => Some (if num_same found size then None else Some Mismatched)
      | Gone => Some (Some Missing)
      | Damaged => Some (Some Mismatched)
      | Broken => None
      end
  | Sample =>
      match hashObject k with
      | Found (sha, found) => Some (if String.eqb sha sha256 && num_same found size then None else Some Mismatched)
      | Gone => Some (Some Missing)
      | Damaged => Some (Some Mismatched)
      | Broken => None
      end
  end.

(** Every key an object is stored under is checked, and the last problem counts. *)
Fixpoint check_keys (d : VerifyDepth) (sha256 : string) (size : jsnum) (keys : list json) (problem : option Problem) : option (option Problem) :=
  match keys with
  | [] => Some problem
  | k :: keys =>
      match checkObject d sha256 size k with
      | Some (Some found) => check_keys d sha256 size keys (Some found)
      | Some None => check_keys d sha256 size keys problem
      | None => None
      end
  end.

Definition counted (r : VerifyResult) (sha256 : string) (problem : option Problem) : VerifyResult :=
  let n p := if bool_decide (problem = Some p) then 1%nat else 0%nat in
  mkVerify (depth r) (v_done r) (slice r) (total r) (checked r + 1) (missing r + n Missing) (mismatched r + n Mismatched)
    (degradedManifests r) (degradedKeys r) (Some sha256) (dumpCursor r)
    (if bool_decide (problem <> None) && Nat.ltb (length (bad r)) VERIFY_BAD_KEPT then bad r ++ [sha256] else bad r).

Definition outcome (n : Named) (d : VerifyDepth) (sha256 : string) : option (option Problem) :=
  match assoc_get sha256 (n_objects n) with
  | Some entry => check_keys d sha256 (e_size entry) (e_storageKeys entry) None
  | None => None
  end.
Definition naming (n : Named) (sha256 : string) : list string := default [] (e_manifests <$> assoc_get sha256 (n_objects n)).

Definition check_one (n : Named) (sha256 : string) (w : Work) : Part :=
  match outcome n (depth (w_result w)) sha256 with
  | None => ([], None)
  | Some problem =>
      ([Recorded sha256 problem],
       Some (mkWork (counted (w_result w) sha256 problem)
         (if bool_decide (problem <> None) then w_bad w ++ [sha256] else w_bad w)
         (if bool_decide (problem <> None) then foldl add_string (w_degraded w) (naming n sha256) else w_degraded w)))
  end.
Fixpoint check_batch (n : Named) (hashes : list string) (w : Work) : Part :=
  match hashes with
  | [] => ([], Some w)
  | sha256 :: hashes => and_then (check_one n sha256 w) (check_batch n hashes)
  end.

(** [settleBad]. *)
Definition settleBad (hashes degraded : list string) : list Event := map Forgotten (chunks FORGET_BATCH hashes) ++ [MarkDegraded degraded].

Definition with_degraded (floor : nat) (degraded : list string) (r : VerifyResult) : VerifyResult :=
  mkVerify (depth r) (v_done r) (slice r) (total r) (checked r) (missing r) (mismatched r)
    (Nat.max floor (length degraded)) (take VERIFY_BAD_KEPT degraded) (cursor r) (dumpCursor r) (bad r).

Definition settle_batch (floor : nat) (w : Work) : Part :=
  let w' := mkWork (with_degraded floor (w_degraded w) (w_result w)) [] (w_degraded w) in
  (settleBad (w_bad w) (w_degraded w) ++ [Saved (w_result w')], Some w').

Fixpoint check_batches (n : Named) (floor : nat) (bs : list (list string)) (w : Work) : Part :=
  match bs with
  | [] => ([], Some w)
  | b :: bs => and_then (check_batch n b w) (fun w => and_then (settle_batch floor w) (check_batches n floor bs))
  end.

Definition check_dump (floor : nat) (dump : string * list string) (w : Work) : Part :=
  let go (found : bool) : Part :=
    let r := w_result w in
    let degraded := if found then w_degraded w else foldl add_string (w_degraded w) dump.2 in
    let r' := mkVerify (depth r) (v_done r) (slice r) (total r) (checked r + 1) (missing r + if found then 0 else 1) (mismatched r)
      (Nat.max floor (length degraded)) (take VERIFY_BAD_KEPT degraded) (cursor r) (Some dump.1) (bad r) in
    ((if found then [] else settleBad [] degraded) ++ [Saved r'], Some (mkWork r' (w_bad w) degraded)) in
  match head (JStr dump.1) with
  | Broken => ([], None)
  | Found _ => go true
  | Gone | Damaged => go false
  end.
Fixpoint check_dumps (floor : nat) (dumps : list (string * list string)) (w : Work) : Part :=
  match dumps with
  | [] => ([], Some w)
  | d :: dumps => and_then (check_dump floor d w) (check_dumps floor dumps)
  end.

(** What comes after a cursor. *)
Definition after_cursor {A} (keyOf : A -> string) (c : option string) (l : list A) : list A :=
  if str_truthy c then List.filter (fun x => 0 <? compareCodeUnits (keyOf x) (default "" c)) l else l.

Definition hashes_of (n : Named) (r : VerifyResult) : list string :=
  sort_by compareCodeUnits (List.filter (fun sha => bool_decide (depth r = Full) || inVerifySlice sha (slice r)) (map fst (n_objects n))).
Definition dumps_of (n : Named) : list (string * list string) := sort_by (fun a b => compareCodeUnits a.1 b.1) (n_dumps n).

Definition begin_work (n : Named) (start : VerifyResult) : Work :=
  mkWork (mkVerify (depth start) (v_done start) (slice start)
      (length (hashes_of n start) + if bool_decide (depth start = Full) then length (n_dumps n) else 0)
      (checked start) (missing start) (mismatched start) (degradedManifests start) (degradedKeys start) (cursor start) (dumpCursor start) (bad start))
    [] (uniq (degradedKeys start ++ n_unreadable n)).

(** [verify]: everything it does, with the result a checkpoint saves wherever it may stop, and the result
    when it ends. *)
Definition verify (start : VerifyResult) : list Event * option VerifyResult :=
  match named_all with
  | None => ([], None)
  | Some n =>
      let floor := degradedManifests start in
      let run :=
        and_then (check_batches n floor (chunks MAINTENANCE_BATCH (after_cursor id (cursor start) (hashes_of n start))) (begin_work n start))
          (fun w => if bool_decide (depth start = Full) then check_dumps floor (after_cursor fst (dumpCursor start) (dumps_of n)) w else ([], Some w)) in
      match run.2 with
      | None => (run.1, None)
      | Some w =>
          let r := w_result w in
          (run.1 ++ settleBad [] (w_degraded w),
           Some (mkVerify (depth r) true (slice r) (total r) (checked r) (missing r) (mismatched r)
             (Nat.max floor (length (w_degraded w))) (degradedKeys r) (cursor r) (dumpCursor r) (bad r)))
      end
  end.
End verify.

(** ** Lemmas: lists after a cursor *)

Section cursor.
Context {A : Type} (keyOf : A -> string).
Definition before (x y : A) : Prop := compareCodeUnits (keyOf x) (keyOf y) < 0.

Lemma sorted_strict (cmp : A -> A -> Z) `{!Comparator cmp} l : (forall x y, cmp x y = compareCodeUnits (keyOf x) (keyOf y)) ->
  NoDup (map keyOf l) -> StronglySorted before (sort_by cmp l).
Proof.
  intros Hcmp Hnd. assert (NoDup (map keyOf (sort_by cmp l))) as Hn by (by rewrite (sort_by_perm cmp l)).
  pose proof (sort_by_sorted cmp l) as Hs. revert Hn. induction Hs as [|x s Hs IH Hx]; [constructor|].
  cbn [map]. intros [Hk Hn]%NoDup_cons. constructor; [by apply IH|]. rewrite Forall_forall in *. intros y Hy.
  specialize (Hx y Hy). unfold cmp_le in Hx. rewrite Hcmp in Hx. unfold before.
  destruct (Z.eq_dec (compareCodeUnits (keyOf x) (keyOf y)) 0) as [He%compareCodeUnits_eq|]; [|lia].
  destruct Hk. rewrite He. apply list_elem_of_fmap. eauto.
Qed.

(** What is left after a cursor is the end of the list. *)
Lemma after_cursor_suffix c l : StronglySorted before l -> exists l0, l = l0 ++ after_cursor keyOf c l.
Proof.
  unfold after_cursor. destruct (str_truthy c); [|by exists []]. intros Hs. induction Hs as [|x l Hs [l0 IH] Hx]; [by exists []|].
  cbn [List.filter]. destruct (Z.ltb_spec 0 (compareCodeUnits (keyOf x) (default ""%string c))) as [Hlt|Hge].
  - exists []. cbn [app]. f_equal. symmetry. apply filter_b_all. intros y Hy. rewrite Forall_forall in Hx. specialize (Hx y Hy).
    apply Z.ltb_lt. unfold before in Hx.
    destruct (Z.ltb_spec 0 (compareCodeUnits (keyOf y) (default ""%string c))) as [|Hle]; [done|].
    pose proof (cmp_trans (cmp := compareCodeUnits) (keyOf x) (keyOf y) (default ""%string c) ltac:(lia) ltac:(lia)). lia.
  - exists (x :: l0). cbn [app]. by f_equal.
Qed.

Lemma after_cursor_at l1 x l2 : StronglySorted before (l1 ++ x :: l2) -> keyOf x <> ""%string ->
  after_cursor keyOf (Some (keyOf x)) (l1 ++ x :: l2) = l2.
Proof.
  intros (H1 & _ & H2)%StronglySorted_app Hne. unfold after_cursor. cbn [str_truthy default].
  destruct (String.eqb (keyOf x) "") eqn:He; [by apply String.eqb_eq in He|]. cbn [negb].
  rewrite List.filter_app. cbn [List.filter]. apply StronglySorted_cons in H2 as [Hx _].
  change (id (keyOf x)) with (keyOf x).
  replace (compareCodeUnits (keyOf x) (keyOf x)) with 0 by (pose proof (compareCodeUnits_antisym (keyOf x) (keyOf x)); lia).
  cbn [Z.ltb Z.compare].
  rewrite filter_b_none, filter_b_all; [done| |].
  - intros y Hy. rewrite Forall_forall in Hx. specialize (Hx y Hy). unfold before in Hx. apply Z.ltb_lt.
    rewrite compareCodeUnits_antisym. lia.
  - intros y Hy. pose proof (H1 y x Hy ltac:(left)) as Hb. unfold before in Hb. apply Z.ltb_ge. lia.
Qed.
End cursor.

(** The batches left are the batches of what is left. *)
Lemma chunks_split {A} size (l : list A) bs1 b bs2 : (0 < size)%nat -> chunks size l = bs1 ++ b :: bs2 ->
  b <> [] /\ chunks size (concat bs2) = bs2.
Proof.
  intros Hs. revert l; induction bs1 as [|b1 bs1 IH]; intros l Hc; (destruct l as [|x l]; [by try destruct bs1|]);
    rewrite chunks_unfold in Hc by done.
  - injection Hc as <- <-. split; [by destruct size; [lia|]|]. by rewrite concat_chunks.
  - injection Hc as _ Hc. by eapply IH.
Qed.

(** ** Lemmas: what a run carries *)

Record carries (w w' : Work) : Prop := {
  c_depth : depth (w_result w') = depth (w_result w);
  c_done : v_done (w_result w') = v_done (w_result w);
  c_slice : slice (w_result w') = slice (w_result w);
  c_total : total (w_result w') = total (w_result w);
  c_degraded : exists k, w_degraded w' = w_degraded w ++ k;
  c_NoDup : NoDup (w_degraded w) -> NoDup (w_degraded w')
}.

Lemma carries_refl w : carries w w.
Proof. split; try done. exists []. by rewrite app_nil_r. Qed.
Lemma carries_trans w1 w2 w3 : carries w1 w2 -> carries w2 w3 -> carries w1 w3.
Proof.
  intros [? ? ? ? [k Hk] ?] [? ? ? ? [k' Hk'] ?]. split; try congruence; [|auto]. exists (k ++ k'). by rewrite Hk', Hk, app_assoc.
Qed.

Lemma add_strings l xs : exists k, foldl add_string l xs = l ++ k /\ (NoDup l -> NoDup (foldl add_string l xs)) /\
  forall x, x ∈ foldl add_string l xs <-> x ∈ l \/ x ∈ xs.
Proof.
  revert l; induction xs as [|x xs IH]; intros l; cbn [foldl].
  { exists []. rewrite app_nil_r. split; [done|]. split; [done|]. intros y. split; [by left|]. intros [?|?%not_elem_of_nil]; done. }
  destruct (IH (add_string l x)) as (k & Hk & Hn & Hin). rewrite Hk in *. unfold add_string in *.
  destruct (includes x l) eqn:Hx.
  - apply includes_true in Hx. exists k. split; [done|]. split; [done|]. intros y. rewrite Hin, elem_of_cons. naive_solver.
  - apply includes_false in Hx. exists (x :: k). split; [by rewrite <- app_assoc|]. split.
    + intros Hl. apply Hn. apply NoDup_app. split; [done|]. split; [|apply NoDup_singleton]. intros y Hy ->%list_elem_of_singleton. done.
    + intros y. rewrite Hin, elem_of_app, list_elem_of_singleton, elem_of_cons. tauto.
Qed.

Lemma Saved_split ev1 ev2 pre r post : ev1 ++ ev2 = pre ++ Saved r :: post ->
  (exists q, ev1 = pre ++ Saved r :: q /\ post = q ++ ev2) \/ (exists q, pre = ev1 ++ q /\ ev2 = q ++ Saved r :: post).
Proof.
  revert pre; induction ev1 as [|e ev1 IH]; intros pre H; [right; by exists pre|].
  destruct pre as [|e' pre]; injection H as -> H.
  - left. exists ev1. done.
  - destruct (IH pre H) as [(q & -> & ->)|(q & -> & ->)]; [left; by exists q|right; by exists q].
Qed.

Lemma settle_saved degraded hashes r' pre r q :
  settleBad hashes degraded ++ [Saved r'] = pre ++ Saved r :: q -> pre = settleBad hashes degraded /\ r = r' /\ q = [].
Proof.
  intros [(q' & H & _)|(q' & -> & H)]%Saved_split.
  - exfalso. assert (Saved r ∈ settleBad hashes degraded) as Hin by (rewrite H; set_solver). unfold settleBad in Hin.
    apply elem_of_app in Hin as [(h & ? & _)%list_elem_of_fmap|Hin%list_elem_of_singleton]; done.
  - destruct q' as [|e q']; [injection H as -> <-; by rewrite app_nil_r|]. injection H as _ H. by destruct q'.
Qed.

(** Where a checkpoint is: in a part, or in what follows it. *)
Lemma and_then_split p next pre r post : (and_then p next).1 = pre ++ Saved r :: post ->
  (exists q, p.1 = pre ++ Saved r :: q /\ post = q ++ match p.2 with Some w => (next w).1 | None => [] end) \/
  (exists w q, p.2 = Some w /\ pre = p.1 ++ q /\ (next w).1 = q ++ Saved r :: post).
Proof.
  unfold and_then. destruct p as [ev [w|]]; cbn [fst snd].
  - intros [H|(q & Hp & Hn)]%Saved_split; [by left|right; by exists w, q].
  - intros ->. left. exists post. by rewrite app_nil_r.
Qed.

Lemma and_then_some p next w : p.2 = Some w -> (and_then p next).2 = (next w).2.
Proof. unfold and_then. by intros ->. Qed.

Section lemmas.
Context {Body : Type} (listing : list string) (get : string -> Answer Body) (head : json -> Answer jsnum)
  (hashObject : json -> Answer (string * jsnum)).
Context (decode : Body -> option json) (number_text : jsnum -> string).
Context (assetRecord : list (string * json) -> list (string * json)) (assetDetails albumSchema personSchema : json -> option json).
Context (trustedHead : option string).
Abbreviation verify := (verify listing get head hashObject decode number_text assetRecord assetDetails albumSchema personSchema trustedHead).
Abbreviation named_all := (named_all listing get decode number_text assetRecord assetDetails albumSchema personSchema trustedHead).
Abbreviation read_manifests := (read_manifests get decode number_text assetRecord assetDetails albumSchema personSchema).
Abbreviation outcome := (outcome head hashObject).
Abbreviation check_one := (check_one head hashObject).
Abbreviation check_batch := (check_batch head hashObject).
Abbreviation check_batches := (check_batches head hashObject).
Abbreviation check_dump := (check_dump head).
Abbreviation check_dumps := (check_dumps head).

Lemma check_one_spec n sha w w' : (check_one n sha w).2 = Some w' ->
  exists problem, outcome n (depth (w_result w)) sha = Some problem /\ (check_one n sha w).1 = [Recorded sha problem] /\
    w_result w' = counted (w_result w) sha problem /\
    w_bad w' = (if bool_decide (problem <> None) then w_bad w ++ [sha] else w_bad w) /\
    (forall m, m ∈ w_degraded w' <-> m ∈ w_degraded w \/ (problem <> None /\ m ∈ naming n sha)) /\ carries w w'.
Proof.
  unfold CloudBackupVerify.check_one. destruct (outcome n _ sha) as [problem|]; [|done]. intros [= <-]. exists problem.
  cbn [w_result w_bad w_degraded fst]. split; [done|]. split; [done|]. split; [done|]. split; [done|].
  destruct (add_strings (w_degraded w) (naming n sha)) as (k & Hk & Hn & Hin). split.
  - intros m. case_bool_decide; [rewrite Hin|]; tauto.
  - split; try done; cbn [w_degraded]; case_bool_decide; try done; [by exists k|exists []; by rewrite app_nil_r].
Qed.

Lemma check_batch_spec n hashes w w' : (check_batch n hashes w).2 = Some w' ->
  carries w w' /\ dumpCursor (w_result w') = dumpCursor (w_result w) /\
  (forall sha, last hashes = Some sha -> cursor (w_result w') = Some sha).
Proof.
  revert w; induction hashes as [|sha hashes IH]; intros w; cbn [CloudBackupVerify.check_batch].
  { intros [= <-]. split; [apply carries_refl|]. done. }
  unfold and_then. destruct (CloudBackupVerify.check_one _ _ n sha w) as [ev [w1|]] eqn:H1; [|done]. cbn [fst snd]. intros H2.
  destruct (check_one_spec n sha w w1) as (problem & _ & _ & Hr & _ & _ & Hc1); [by rewrite H1|].
  destruct (IH w1 H2) as (Hc2 & Hd & Hl). split; [by eapply carries_trans|]. split; [by rewrite Hd, Hr|].
  intros x Hx. destruct hashes as [|y hashes]; [|apply Hl; by rewrite last_cons_cons in Hx].
  injection H2 as <-. injection Hx as <-. by rewrite Hr.
Qed.

Lemma check_batch_events n hashes w e : e ∈ (check_batch n hashes w).1 -> exists sha problem, e = Recorded sha problem.
Proof.
  revert w; induction hashes as [|sha hashes IH]; intros w; cbn [CloudBackupVerify.check_batch]; [by intros ?%not_elem_of_nil|].
  unfold and_then, CloudBackupVerify.check_one. destruct (outcome n _ sha) as [problem|]; [|by intros ?%not_elem_of_nil].
  cbn [fst snd app]. intros [->|H]%elem_of_cons; [eauto|]. by eapply IH.
Qed.

Lemma settle_carries floor w w' : (settle_batch floor w).2 = Some w' -> carries w w' /\ w_bad w' = [] /\
  w_result w' = with_degraded floor (w_degraded w) (w_result w) /\ w_degraded w' = w_degraded w.
Proof.
  intros [= <-]. split; [|done]. split; try done. exists []. by rewrite app_nil_r.
Qed.

(** What a checkpoint between batches has saved. *)
Record batch_saved (floor : nat) (w w' : Work) (r : VerifyResult) : Prop := {
  bs_result : w_result w' = r;
  bs_bad : w_bad w' = [];
  bs_carries : carries w w';
  bs_keys : degradedKeys r = take VERIFY_BAD_KEPT (w_degraded w');
  bs_count : degradedManifests r = Nat.max floor (length (w_degraded w'))
}.

Lemma batches_split n floor bs w pre r post : (check_batches n floor bs w).1 = pre ++ Saved r :: post ->
  exists bs1 b bs2 w', bs = bs1 ++ b :: bs2 /\ batch_saved floor w w' r /\ dumpCursor r = dumpCursor (w_result w) /\
    (forall sha, last b = Some sha -> cursor r = Some sha) /\
    post = (check_batches n floor bs2 w').1 /\ (check_batches n floor bs w).2 = (check_batches n floor bs2 w').2.
Proof.
  revert w pre; induction bs as [|b bs IH]; intros w pre; cbn [CloudBackupVerify.check_batches]; [by intros H%app_cons_not_nil|].
  intros [(q & H & _)|(w1 & q & Hb & -> & H)]%and_then_split.
  { destruct (check_batch_events n b w (Saved r)) as (? & ? & ?); [rewrite H; set_solver|done]. }
  destruct (check_batch_spec n b w w1 Hb) as (Hc1 & Hd1 & Hl1). rewrite (and_then_some _ _ _ Hb).
  set (w2 := mkWork (with_degraded floor (w_degraded w1) (w_result w1)) [] (w_degraded w1)) in *.
  rewrite (and_then_some (settle_batch floor w1) _ w2 eq_refl). destruct (settle_carries floor w1 w2 eq_refl) as (Hc2 & Hbad & Hr2 & Hdeg).
  apply and_then_split in H as [(q' & H & ->)|(w2' & q' & [= <-] & -> & H)].
  - apply settle_saved in H as (-> & -> & ->). exists [], b, bs, w2. split; [done|]. split; [|done].
    split; [done|done|by eapply carries_trans|done|done].
  - apply IH in H as (bs1 & b' & bs2 & w' & -> & [Hr Hbd Hc Hk Hn] & Hd & Hl & Hpost & Hend).
    exists (b :: bs1), b', bs2, w'. split; [done|]. split; [|split; [by etransitivity; [exact Hd|exact Hd1]|done]].
    split; [done|done|by eapply carries_trans, carries_trans|done|done].
Qed.

Lemma batches_spec n floor bs w w' : (check_batches n floor bs w).2 = Some w' ->
  carries w w' /\ dumpCursor (w_result w') = dumpCursor (w_result w) /\ (w_bad w = [] -> w_bad w' = []) /\
  (bs = [] -> w' = w) /\ (forall bs1 b sha, bs = bs1 ++ [b] -> last b = Some sha -> cursor (w_result w') = Some sha).
Proof.
  revert w; induction bs as [|b bs IH]; intros w; cbn [CloudBackupVerify.check_batches].
  { intros [= <-]. split; [apply carries_refl|]. split; [done|]. split; [done|]. split; [done|]. by intros [|] ? ? ?. }
  unfold and_then. destruct (check_batch n b w) as [ev [w1|]] eqn:Hb; [|done]. cbn [fst snd settle_batch].
  destruct (check_batch_spec n b w w1) as (Hc1 & Hd1 & Hl1); [by rewrite Hb|].
  set (w2 := mkWork (with_degraded floor (w_degraded w1) (w_result w1)) [] (w_degraded w1)) in *.
  destruct (settle_carries floor w1 w2 eq_refl) as (Hc2 & Hbad & Hr2 & Hdeg). intros H.
  destruct (IH w2 H) as (Hc & Hd & Hbb & Hnil & Hlast). split; [by eapply carries_trans, carries_trans|].
  split; [by rewrite Hd, Hr2|]. split; [auto|]. split; [done|]. intros bs1 b' sha Heq Hsha. destruct bs1 as [|b1 bs1].
  - injection Heq as <- ->. rewrite (Hnil eq_refl), Hr2. by apply Hl1.
  - injection Heq as _ ->. by eapply Hlast.
Qed.

(** A larger floor that the degraded manifests reach already changes nothing. *)
Definition floor_ok (floor floor' : nat) (w : Work) : Prop := (floor <= floor' <= Nat.max floor (length (w_degraded w)))%nat.
Lemma floor_carries floor floor' w w' : floor_ok floor floor' w -> carries w w' ->
  floor_ok floor floor' w' /\ Nat.max floor' (length (w_degraded w')) = Nat.max floor (length (w_degraded w')).
Proof. unfold floor_ok. intros H [_ _ _ _ [k ->] _]. rewrite length_app. lia. Qed.

Lemma and_then_ext p next next' : (forall w, p.2 = Some w -> next w = next' w) -> and_then p next = and_then p next'.
Proof. unfold and_then. destruct p as [ev [w|]]; intros H; [|done]. cbn [fst snd] in *. by rewrite (H w eq_refl). Qed.

Lemma floor_batches n floor floor' bs w : floor_ok floor floor' w -> check_batches n floor' bs w = check_batches n floor bs w.
Proof.
  revert w; induction bs as [|b bs IH]; intros w Hf; [done|]. cbn [CloudBackupVerify.check_batches]. apply and_then_ext. intros w1 Hw1.
  destruct (check_batch_spec n b w w1 Hw1) as (Hc & _ & _). destruct (floor_carries _ _ _ _ Hf Hc) as [Hf1 Hmax].
  assert (settle_batch floor' w1 = settle_batch floor w1) as -> by (unfold settle_batch, with_degraded; by rewrite Hmax).
  apply and_then_ext. intros w2 Hw2. destruct (settle_carries _ _ _ Hw2) as (Hc2 & _). apply IH. by eapply floor_carries.
Qed.

Lemma check_dump_spec floor d w w' : (check_dump floor d w).2 = Some w' ->
  (exists ev, (check_dump floor d w).1 = ev ++ [Saved (w_result w')] /\ forall r, Saved r ∉ ev) /\ carries w w' /\
  w_bad w' = w_bad w /\ cursor (w_result w') = cursor (w_result w) /\ dumpCursor (w_result w') = Some d.1 /\
  degradedKeys (w_result w') = take VERIFY_BAD_KEPT (w_degraded w') /\
  degradedManifests (w_result w') = Nat.max floor (length (w_degraded w')).
Proof.
  unfold CloudBackupVerify.check_dump. cbv zeta.
  assert (forall r k, Saved r ∉ settleBad [] k) as Hno by (intros r k; by intros H%list_elem_of_singleton).
  destruct (add_strings (w_degraded w) d.2) as (k & Hk & Hn & _).
  destruct (head (JStr d.1)); intros H; try done; injection H as <-; (split; [eexists; split; [reflexivity|]; auto using not_elem_of_nil|]);
    (split; [|done]); (split; [done|done|done|done| |]); cbn [w_degraded]; try done; [exists []; by rewrite app_nil_r|by exists k|by exists k].
Qed.

Lemma floor_dumps floor floor' ds w : floor_ok floor floor' w -> check_dumps floor' ds w = check_dumps floor ds w.
Proof.
  revert w; induction ds as [|d ds IH]; intros w Hf; [done|]. cbn [CloudBackupVerify.check_dumps].
  assert (check_dump floor' d w = check_dump floor d w) as ->.
  { unfold CloudBackupVerify.check_dump. cbv zeta. destruct (add_strings (w_degraded w) d.2) as (k & Hk & _ & _).
    assert (Nat.max floor' (length (foldl add_string (w_degraded w) d.2)) = Nat.max floor (length (foldl add_string (w_degraded w) d.2))) as H1
      by (rewrite Hk, length_app; unfold floor_ok in Hf; lia).
    assert (Nat.max floor' (length (w_degraded w)) = Nat.max floor (length (w_degraded w))) as H2 by (unfold floor_ok in Hf; lia).
    destruct (head (JStr d.1)); rewrite ?H1, ?H2; done. }
  apply and_then_ext. intros w' Hw'. destruct (check_dump_spec _ _ _ _ Hw') as (_ & Hc & _). apply IH. by eapply floor_carries.
Qed.

Lemma dumps_carries floor ds w w' : (check_dumps floor ds w).2 = Some w' -> carries w w'.
Proof.
  revert w; induction ds as [|d ds IH]; intros w; cbn [CloudBackupVerify.check_dumps]; [intros [= <-]; apply carries_refl|].
  destruct (check_dump floor d w).2 as [w1|] eqn:Hd; [|unfold and_then; rewrite Hd; by rewrite Hd].
  rewrite (and_then_some _ _ _ Hd). intros H. destruct (check_dump_spec _ _ _ _ Hd) as (_ & Hc & _). by eapply carries_trans, IH.
Qed.

Lemma dumps_split floor ds w pre r post : (check_dumps floor ds w).1 = pre ++ Saved r :: post ->
  exists ds1 d ds2 w', ds = ds1 ++ d :: ds2 /\ w_result w' = r /\ carries w w' /\ w_bad w' = w_bad w /\ cursor r = cursor (w_result w) /\
    dumpCursor r = Some d.1 /\ degradedKeys r = take VERIFY_BAD_KEPT (w_degraded w') /\
    degradedManifests r = Nat.max floor (length (w_degraded w')) /\
    post = (check_dumps floor ds2 w').1 /\ (check_dumps floor ds w).2 = (check_dumps floor ds2 w').2.
Proof.
  revert w pre; induction ds as [|d ds IH]; intros w pre; cbn [CloudBackupVerify.check_dumps]; [by intros H%app_cons_not_nil|].
  destruct (check_dump floor d w).2 as [w1|] eqn:Hd; cycle 1.
  { intros H. exfalso. unfold and_then in H. rewrite Hd in H. unfold CloudBackupVerify.check_dump in H, Hd.
    destruct (head (JStr d.1)); try done. by apply app_cons_not_nil in H. }
  destruct (check_dump_spec _ _ _ _ Hd) as ((ev & Hev & Hno) & Hc & Hb & Hcur & Hdc & Hk & Hm). rewrite (and_then_some _ _ _ Hd).
  intros [(q & H & Hpost)|(w2 & q & Hw2 & -> & H)]%and_then_split.
  - rewrite Hev in H. rewrite Hd in Hpost. apply Saved_split in H as [(q' & H & _)|(q' & -> & H)].
    { destruct (Hno r). rewrite H. set_solver. }
    destruct q' as [|e q']; [|injection H as _ H; by destruct q']. injection H as <- <-.
    exists [], d, ds, w1. done.
  - rewrite Hd in Hw2. injection Hw2 as <-.
    apply IH in H as (ds1 & d' & ds2 & w' & -> & Hr & Hc' & Hb' & Hcur' & Hdc' & Hk' & Hm' & Hpost & Hend).
    exists (d :: ds1), d', ds2, w'. split; [done|]. split; [done|]. split; [by eapply carries_trans|].
    split; [congruence|]. split; [congruence|]. done.
Qed.

(** ** Lemmas: what the manifests name *)

Definition named_ok (n : Named) : Prop :=
  NoDup (map fst (n_objects n)) /\ NoDup (map fst (n_dumps n)) /\
  (forall sha, sha ∈ map fst (n_objects n) -> isSha256Hex sha = true) /\ (forall k, k ∈ map fst (n_dumps n) -> k <> ""%string).

Lemma add_object_ok k refs named o : NoDup (map fst named) -> NoDup (map fst (add_object k refs named o)) /\
  forall sha, sha ∈ map fst (add_object k refs named o) <-> sha ∈ map fst named \/ sha = o.1.
Proof.
  intros Hn. unfold add_object. cbv zeta. destruct (assoc_get o.1 named); (split; [by apply assoc_set_NoDup|]);
    intros sha; rewrite assoc_set_keys; case_decide; rewrite ?elem_of_app, ?list_elem_of_singleton; split; try tauto;
    intros [?|H']; try done; rewrite H'; done.
Qed.

Lemma add_objects_ok k refs os named : NoDup (map fst named) -> NoDup (map fst (foldl (add_object k refs) named os)) /\
  forall sha, sha ∈ map fst (foldl (add_object k refs) named os) <-> sha ∈ map fst named \/ sha ∈ map fst os.
Proof.
  revert named; induction os as [|o os IH]; intros named Hn; cbn [foldl map].
  { split; [done|]. intros sha. split; [by left|]. intros [?|H]; [done|by apply not_elem_of_nil in H]. }
  destruct (add_object_ok k refs named o Hn) as [Hn1 H1]. destruct (IH _ Hn1) as [Hn2 H2]. split; [done|].
  intros sha. rewrite H2, H1, elem_of_cons. tauto.
Qed.

Lemma add_dump_ok k refs dumps : NoDup (map fst dumps) -> (forall d, d ∈ map fst dumps -> d <> ""%string) ->
  NoDup (map fst (add_dump k refs dumps)) /\ forall d, d ∈ map fst (add_dump k refs dumps) -> d <> ""%string.
Proof.
  intros Hn He. unfold add_dump. destruct (r_database refs) as [[| | |d| |]|]; try done. destruct (String.eqb d "") eqn:Hd; [done|].
  split; [by apply assoc_set_NoDup|]. intros x. rewrite assoc_set_keys. case_decide; [apply He|].
  rewrite elem_of_app, list_elem_of_singleton. intros [?| ->]; [by apply He|]. by apply String.eqb_neq.
Qed.

Lemma read_manifests_ok keys n n' : read_manifests keys n = Some n' -> named_ok n -> named_ok n'.
Proof.
  revert n; induction keys as [|k keys IH]; intros n; cbn [CloudBackupVerify.read_manifests]; [by intros [= <-]|].
  destruct (manifestTime k) as [t|]; [|apply IH]. intros H Hok.
  destruct (get k) as [body| | |]; [|by eapply IH|by eapply IH|done].
  destruct (read_body _ _ _ _ _ _ body) as [refs|] eqn:Hb; [|by eapply IH]. eapply IH; [exact H|].
  destruct Hok as (H1 & H2 & H3 & H4). unfold named_ok. cbn [n_objects n_dumps].
  destruct (add_objects_ok k refs (r_objects refs) _ H1) as [Hn Hin]. destruct (add_dump_ok k refs _ H2 H4) as [Hd He].
  split; [done|]. split; [done|]. split; [|done]. intros sha [?|Hs]%Hin; [by apply H3|].
  unfold read_body in Hb. destruct (readManifest _ _ _ _ _ _ body) as [m|] eqn:Hm; [|done].
  destruct (manifestReferences m) as [r|] eqn:Hr; [|done]. injection Hb as ->. by eapply objects_sha256.
Qed.

Lemma named_all_ok n : named_all = Some n -> named_ok n.
Proof.
  intros H. eapply read_manifests_ok; [exact H|]. split; [constructor|]. split; [constructor|].
  split; intros x Hx; by apply not_elem_of_nil in Hx.
Qed.

Lemma hashes_sorted n r : named_ok n -> StronglySorted (before id) (hashes_of n r).
Proof.
  intros (H & _). apply sorted_strict; [apply _|done|]. rewrite map_id. by apply NoDup_filter_b.
Qed.
Lemma hashes_named n r sha : named_ok n -> sha ∈ hashes_of n r -> sha <> ""%string.
Proof.
  intros (_ & _ & H & _) Hs. unfold hashes_of in Hs. apply sort_by_elem, elem_of_filter_b in Hs as [Hs _].
  apply H in Hs. by intros ->.
Qed.
#[local] Instance dump_order_comparator : Comparator (fun a b : string * list string => compareCodeUnits a.1 b.1).
Proof.
  split; [intros x y; apply (cmp_total (cmp := compareCodeUnits))|intros x y z; apply (cmp_trans (cmp := compareCodeUnits))].
Qed.
Lemma dumps_sorted n : named_ok n -> StronglySorted (before fst) (dumps_of n).
Proof. intros (_ & H & _). by apply sorted_strict; [apply _| |]. Qed.
Lemma dumps_named n d : named_ok n -> d ∈ dumps_of n -> d.1 <> ""%string.
Proof.
  intros (_ & _ & _ & H) Hd. apply H. unfold dumps_of in Hd. apply sort_by_elem in Hd. apply list_elem_of_fmap. eauto.
Qed.

(** ** Resuming *)

Definition object_phase (n : Named) (floor : nat) (start : VerifyResult) (w : Work) : Part :=
  check_batches n floor (chunks MAINTENANCE_BATCH (after_cursor id (cursor start) (hashes_of n start))) w.
Definition dump_phase (n : Named) (floor : nat) (start : VerifyResult) (w : Work) : Part :=
  if bool_decide (depth start = Full) then check_dumps floor (after_cursor fst (dumpCursor start) (dumps_of n)) w else ([], Some w).
Definition whole_run (n : Named) (start : VerifyResult) : Part :=
  and_then (object_phase n (degradedManifests start) start (begin_work n start)) (dump_phase n (degradedManifests start) start).

Lemma uniq_app_known {A} `{EqDecision A} (l k seen : list A) : NoDup l -> (forall x, x ∈ l -> x ∉ seen) ->
  (forall x, x ∈ k -> x ∈ l \/ x ∈ seen) -> uniq_from seen (l ++ k) = l.
Proof.
  revert seen; induction l as [|x l IH]; intros seen Hn Hs Hk; cbn [app uniq_from].
  - induction k as [|y k IHk]; [done|]. cbn [uniq_from]. rewrite bool_decide_true.
    + apply IHk. intros x Hx. apply Hk. by right.
    + destruct (Hk y) as [H|H]; [left|by apply not_elem_of_nil in H|done].
  - apply NoDup_cons in Hn as [Hx Hn]. rewrite bool_decide_false by (apply Hs; left). f_equal. apply IH; [done| |].
    + intros y Hy. rewrite elem_of_cons. intros [->|H]; [done|]. apply (Hs y); [by right|done].
    + intros y Hy. rewrite elem_of_cons. destruct (Hk y Hy) as [[->|H]%elem_of_cons|H]; auto.
Qed.

(** What a checkpoint saved is where the next claim begins. *)
Lemma begin_saved n start w r : carries (begin_work n start) w -> w_result w = r -> w_bad w = [] ->
  degradedKeys r = take VERIFY_BAD_KEPT (w_degraded w) -> (length (degradedKeys r) < VERIFY_BAD_KEPT)%nat ->
  begin_work n r = w /\ hashes_of n r = hashes_of n start /\ depth r = depth start.
Proof.
  intros [Hd Hv Hs Ht [k Hk] Hn] Hr Hb Hkeys Hlen. rewrite Hr in *. cbn [begin_work w_result depth v_done slice total] in Hd, Hv, Hs, Ht.
  assert (degradedKeys r = w_degraded w) as Hall.
  { rewrite Hkeys. rewrite Hkeys, length_take in Hlen. apply take_ge. lia. }
  assert (hashes_of n r = hashes_of n start) as Hh by (unfold hashes_of; by rewrite Hd, Hs).
  split; [|done]. unfold begin_work. rewrite Hh, Hd, <- Ht.
  assert (uniq (degradedKeys r ++ n_unreadable n) = w_degraded w) as ->.
  { rewrite Hall. apply uniq_app_known.
    - apply Hn. apply NoDup_uniq.
    - intros x _. apply not_elem_of_nil.
    - intros x Hx. left. rewrite Hk. apply elem_of_app. left. cbn [begin_work w_degraded]. apply elem_of_uniq, elem_of_app. by right. }
  destruct w as [wr wb wd]. cbn in Hr, Hb. subst wr wb. f_equal. rewrite <- Hd. by destruct r.
Qed.

Lemma last_of {A} (b : list A) : b <> [] -> exists b' x, b = b' ++ [x] /\ last b = Some x.
Proof.
  intros Hb. destruct (exists_last Hb) as (b' & x & ->). exists b', x. by rewrite last_snoc.
Qed.

(** The hashes left after the batch a checkpoint follows. *)
Lemma hashes_left n start bs1 b bs2 r : named_ok n ->
  chunks MAINTENANCE_BATCH (after_cursor id (cursor start) (hashes_of n start)) = bs1 ++ b :: bs2 ->
  (forall sha, last b = Some sha -> cursor r = Some sha) -> hashes_of n r = hashes_of n start ->
  chunks MAINTENANCE_BATCH (after_cursor id (cursor r) (hashes_of n r)) = bs2.
Proof.
  intros Hok Hc Hl ->. assert (0 < MAINTENANCE_BATCH)%nat as Hpos by (unfold MAINTENANCE_BATCH; lia).
  destruct (chunks_split _ _ _ _ _ Hpos Hc) as [Hb Hrest]. destruct (last_of b Hb) as (b' & x & -> & Hx). rewrite (Hl x Hx).
  destruct (after_cursor_suffix id (cursor start) _ (hashes_sorted n start Hok)) as [l0 Hl0].
  assert (hashes_of n start = (l0 ++ concat bs1 ++ b') ++ x :: concat bs2) as Hsplit.
  { rewrite Hl0 at 1. rewrite <- (concat_chunks MAINTENANCE_BATCH (after_cursor id (cursor start) (hashes_of n start)) Hpos), Hc.
    rewrite concat_app. cbn [concat]. by rewrite <- !app_assoc. }
  rewrite Hsplit. change (Some x) with (Some (id x)). rewrite after_cursor_at; [done| |].
  - rewrite <- Hsplit. by apply hashes_sorted.
  - cbn. apply (hashes_named n start); [done|]. rewrite Hsplit. set_solver.
Qed.

Lemma run_resumes n start pre r post : named_ok n -> (whole_run n start).1 = pre ++ Saved r :: post ->
  (length (degradedKeys r) < VERIFY_BAD_KEPT)%nat ->
  whole_run n r = (post, (whole_run n start).2) /\
  exists w, carries (begin_work n start) w /\ floor_ok (degradedManifests start) (degradedManifests r) w /\
    forall w', (whole_run n start).2 = Some w' -> carries w w'.
Proof.
  intros Hok H Hlen. unfold whole_run in *. set (floor := degradedManifests start) in *.
  apply and_then_split in H as [(q & H & ->)|(w1 & q & Hw1 & -> & H)].
  - unfold object_phase in H.
    destruct (batches_split _ _ _ _ _ _ _ H) as (bs1 & b & bs2 & w' & Hbs & [Hr Hbad Hc Hk Hm] & Hdc & Hl & -> & Hend).
    destruct (begin_saved n start w' r Hc Hr Hbad Hk Hlen) as (Hbegin & Hh & Hdepth).
    assert (floor_ok floor (degradedManifests r) w') as Hf by (unfold floor_ok; lia).
    rewrite Hbegin. unfold object_phase at 1. rewrite (hashes_left n start bs1 b bs2 r Hok Hbs Hl Hh), (floor_batches _ _ _ _ _ Hf).
    change (check_batches n floor (chunks MAINTENANCE_BATCH (after_cursor id (cursor start) (hashes_of n start))) (begin_work n start))
      with (object_phase n floor start (begin_work n start)) in Hend.
    assert (forall w2, (check_batches n floor bs2 w').2 = Some w2 -> carries w' w2 /\
      dump_phase n (degradedManifests r) r w2 = dump_phase n floor start w2) as Hnext.
    { intros w2 H2. destruct (batches_spec _ _ _ _ _ H2) as (Hc2 & _). split; [done|]. unfold dump_phase. rewrite Hdepth, Hdc.
      cbn [begin_work w_result dumpCursor]. case_bool_decide; [|done]. apply floor_dumps. by eapply floor_carries. }
    unfold and_then. rewrite Hend. destruct (check_batches n floor bs2 w') as [ev [w2|]] eqn:H2; cbn [fst snd] in *.
    + destruct (Hnext w2 eq_refl) as [Hc2 ->]. split; [done|]. exists w'. split; [done|]. split; [done|].
      intros w3 H3. eapply carries_trans; [exact Hc2|]. revert H3. unfold dump_phase. case_bool_decide; [|intros [= <-]; apply carries_refl].
      apply dumps_carries.
    + split; [by rewrite app_nil_r, Hend|]. exists w'. split; [done|]. split; [done|]. intros w3. by rewrite Hend.
  - unfold object_phase in Hw1. destruct (batches_spec _ _ _ _ _ Hw1) as (Hc1 & Hdc1 & Hbad1 & Hnil & Hlast).
    rewrite (and_then_some (object_phase n floor start (begin_work n start)) _ w1 Hw1).
    unfold dump_phase in H |- * at 2. destruct (bool_decide_reflect (depth start = Full)) as [Hfull|]; [|by apply app_cons_not_nil in H].
    destruct (dumps_split _ _ _ _ _ _ H) as (ds1 & d & ds2 & w' & Hds & Hr & Hc & Hb & Hcur & Hdc & Hk & Hm & -> & Hend).
    assert (w_bad w' = []) as Hbad by (rewrite Hb; by apply Hbad1).
    destruct (begin_saved n start w' r (carries_trans _ _ _ Hc1 Hc) Hr Hbad Hk Hlen) as (Hbegin & Hh & Hdepth).
    assert (floor_ok floor (degradedManifests r) w') as Hf by (unfold floor_ok; lia). rewrite Hbegin.
    assert (object_phase n (degradedManifests r) r w' = ([], Some w')) as ->.
    { unfold object_phase. destruct (chunks MAINTENANCE_BATCH (after_cursor id (cursor start) (hashes_of n start))) as [|b0 bs0] eqn:Hch.
      - assert (after_cursor id (cursor start) (hashes_of n start) = []) as Hemp
          by (rewrite <- (concat_chunks MAINTENANCE_BATCH (after_cursor id (cursor start) (hashes_of n start))), Hch; [done|unfold MAINTENANCE_BATCH; lia]).
        rewrite Hcur, (Hnil eq_refl), Hh. cbn [begin_work w_result cursor]. by rewrite Hemp.
      - destruct (exists_last (l := b0 :: bs0) ltac:(done)) as (bs1 & b & Hb0). rewrite Hb0 in Hch, Hlast.
        rewrite (hashes_left n start bs1 b [] r Hok Hch); [done| |done].
        intros sha Hs. rewrite Hcur. by eapply Hlast. }
    cbn [and_then fst snd]. unfold and_then, dump_phase. cbn [fst snd]. rewrite Hdepth, bool_decide_true by done.
    assert (after_cursor fst (dumpCursor r) (dumps_of n) = ds2) as ->.
    { rewrite Hdc. destruct (after_cursor_suffix fst (dumpCursor start) _ (dumps_sorted n Hok)) as [l0 Hl0].
      rewrite Hds, app_assoc in Hl0. rewrite Hl0. apply after_cursor_at; [rewrite <- Hl0; by apply dumps_sorted|].
      apply (dumps_named n); [done|]. rewrite Hl0. set_solver. }
    rewrite (floor_dumps _ _ _ _ Hf). rewrite Hend. split; [by destruct (check_dumps floor ds2 w')|].
    exists w'. split; [by eapply carries_trans|]. split; [done|]. intros w3. apply dumps_carries.
Qed.

Definition finish (floor : nat) (run : Part) : list Event * option VerifyResult :=
  match run.2 with
  | None => (run.1, None)
  | Some w =>
      let r := w_result w in
      (run.1 ++ settleBad [] (w_degraded w),
       Some (mkVerify (depth r) true (slice r) (total r) (checked r) (missing r) (mismatched r)
         (Nat.max floor (length (w_degraded w))) (degradedKeys r) (cursor r) (dumpCursor r) (bad r)))
  end.
Lemma verify_finish n start : named_all = Some n -> verify start = finish (degradedManifests start) (whole_run n start).
Proof. intros H. unfold CloudBackupVerify.verify. by rewrite H. Qed.

(** C34. A verification that was stopped goes on exactly where it was: whatever checkpoint its saved result
    is from, in the objects or in the dumps, the next claim does precisely what the first would still have
    done (the same checks in the same batches, the same objects forgotten and manifests marked) and ends
    with the same result, as long as the saved list of degraded manifests is not cut at its thousand. *)
Theorem verify_resumes (start r : VerifyResult) (pre post : list Event)
  (saved : (verify start).1 = pre ++ Saved r :: post) (listed : (length (degradedKeys r) < VERIFY_BAD_KEPT)%nat) :
  verify r = (post, (verify start).2).
Proof.
  destruct named_all as [n|] eqn:Hn; cycle 1.
  { unfold CloudBackupVerify.verify in saved. rewrite Hn in saved. by apply app_cons_not_nil in saved. }
  rewrite (verify_finish n start Hn) in *. rewrite (verify_finish n r Hn). pose proof (named_all_ok n Hn) as Hok.
  assert (exists q, (whole_run n start).1 = pre ++ Saved r :: q /\
    post = q ++ match (whole_run n start).2 with Some w => settleBad [] (w_degraded w) | None => [] end) as (q & Hq & ->).
  { unfold finish in saved. destruct (whole_run n start).2 as [w|] eqn:E; cbn [fst] in saved.
    - apply Saved_split in saved as [?|(q & _ & H)]; [done|].
      assert (Saved r ∈ settleBad [] (w_degraded w)) as Hin by (rewrite H; set_solver). by apply list_elem_of_singleton in Hin.
    - exists post. by rewrite app_nil_r. }
  destruct (run_resumes n start pre r q Hok Hq listed) as (Hrun & w & _ & Hf & Hlater).
  unfold finish. rewrite Hrun. cbn [fst snd]. destruct (whole_run n start).2 as [w'|]; cbn [fst snd]; [|by rewrite app_nil_r].
  destruct (floor_carries _ _ _ _ Hf (Hlater w' eq_refl)) as [_ Hmax]. by rewrite Hmax.
Qed.

(** ** What a verification has done when it ends *)

Definition recorded (events : list Event) : list (string * option Problem) :=
  omap (fun e => match e with Recorded sha p => Some (sha, p) | _ => None end) events.
Definition forgotten (events : list Event) : list string :=
  flat_map (fun e => match e with Forgotten hashes => hashes | _ => [] end) events.

Lemma recorded_app a b : recorded (a ++ b) = recorded a ++ recorded b.
Proof. apply omap_app. Qed.
Lemma recorded_settle hashes degraded : recorded (settleBad hashes degraded) = [].
Proof. unfold settleBad. rewrite recorded_app. cbn. rewrite app_nil_r. induction (chunks FORGET_BATCH hashes); done. Qed.
Lemma forgotten_settle hashes degraded : forgotten (settleBad hashes degraded) = hashes.
Proof.
  unfold settleBad, forgotten. rewrite flat_map_app. cbn. rewrite app_nil_r.
  rewrite <- (concat_chunks FORGET_BATCH hashes) at 2 by (unfold FORGET_BATCH; lia).
  generalize (chunks FORGET_BATCH hashes). intros cs. induction cs as [|c cs IH]; [done|]. cbn. by rewrite IH.
Qed.

(** The findings so far: every check of [hashes] is on record with its outcome, and every bad object is
    kept aside or forgotten, with the manifests naming it marked. *)
Record covers (n : Named) (d : VerifyDepth) (hashes : list string) (ev : list Event) (w w' : Work) : Prop := {
  cv_recorded : Forall2 (fun p sha => p.1 = sha /\ outcome n d sha = Some p.2) (recorded ev) hashes;
  cv_bad : forall sha p, (sha, Some p) ∈ recorded ev -> (sha ∈ w_bad w' \/ sha ∈ forgotten ev) /\
    forall m, m ∈ naming n sha -> m ∈ w_degraded w';
  cv_kept : forall sha, sha ∈ w_bad w -> sha ∈ w_bad w' \/ sha ∈ forgotten ev;
  cv_checked : checked (w_result w') = (checked (w_result w) + length hashes)%nat;
  cv_carries : carries w w'
}.

Lemma covers_nil n d w : covers n d [] [] w w.
Proof. split; [apply Forall2_nil_2|by intros ? ? ?%not_elem_of_nil|by left|cbn; lia|apply carries_refl]. Qed.

Lemma covers_app n d h1 h2 e1 e2 w1 w2 w3 : covers n d h1 e1 w1 w2 -> covers n d h2 e2 w2 w3 -> covers n d (h1 ++ h2) (e1 ++ e2) w1 w3.
Proof.
  intros [R1 B1 K1 C1 Y1] [R2 B2 K2 C2 Y2]. assert (forall sha, sha ∈ forgotten (e1 ++ e2) <-> sha ∈ forgotten e1 \/ sha ∈ forgotten e2) as Hf
    by (intros; unfold forgotten; by rewrite flat_map_app, elem_of_app).
  destruct Y2 as [? ? ? ? [k Hk] ?] eqn:Heq. split.
  - rewrite recorded_app. by apply Forall2_app.
  - intros sha p. rewrite recorded_app, elem_of_app, Hf. intros [H|H].
    + destruct (B1 _ _ H) as [Hb Hm]. split.
      * destruct Hb as [Hb|Hb]; [destruct (K2 _ Hb); auto|auto].
      * intros m Hm'. rewrite Hk. apply elem_of_app. left. auto.
    + destruct (B2 _ _ H) as [Hb Hm]. split; [tauto|done].
  - intros sha H. rewrite Hf. destruct (K1 _ H) as [Hb|]; [destruct (K2 _ Hb); auto|auto].
  - rewrite length_app. lia.
  - by eapply carries_trans.
Qed.

Lemma covers_batch n d hashes w w' : depth (w_result w) = d -> (check_batch n hashes w).2 = Some w' ->
  covers n d hashes (check_batch n hashes w).1 w w'.
Proof.
  revert w; induction hashes as [|sha hashes IH]; intros w Hd; cbn [CloudBackupVerify.check_batch].
  { intros [= <-]. apply covers_nil. }
  destruct (check_one n sha w).2 as [w1|] eqn:H1; [|unfold and_then; rewrite H1; by rewrite H1].
  rewrite (and_then_some _ _ _ H1). intros H2. unfold and_then. rewrite H1. cbn [fst].
  destruct (check_one_spec n sha w w1 H1) as (problem & Ho & Hev & Hr & Hb & Hm & Hc).
  change (sha :: hashes) with ([sha] ++ hashes). apply covers_app with (w2 := w1).
  - rewrite Hev. split; [| | | |done].
    + constructor; [|constructor]. rewrite Hd in Ho. done.
    + cbn. intros x p [= -> <-]%list_elem_of_singleton. rewrite Hb, bool_decide_true by done. split; [left; set_solver|].
      intros m ?. apply Hm. right. done.
    + intros x Hx. left. rewrite Hb. case_bool_decide; set_solver.
    + rewrite Hr. cbn. lia.
  - apply IH; [|done]. by rewrite (c_depth _ _ Hc).
Qed.

Lemma covers_batches n d floor bs w w' : depth (w_result w) = d -> (check_batches n floor bs w).2 = Some w' ->
  covers n d (concat bs) (check_batches n floor bs w).1 w w'.
Proof.
  revert w; induction bs as [|b bs IH]; intros w Hd; cbn [CloudBackupVerify.check_batches concat].
  { intros [= <-]. apply covers_nil. }
  destruct (check_batch n b w).2 as [w1|] eqn:H1; [|unfold and_then at 1; rewrite H1; by rewrite H1].
  rewrite (and_then_some _ _ _ H1). set (w2 := mkWork (with_degraded floor (w_degraded w1) (w_result w1)) [] (w_degraded w1)).
  rewrite (and_then_some (settle_batch floor w1) _ w2 eq_refl). intros H2.
  pose proof (covers_batch n d b w w1 Hd H1) as Hb. destruct (settle_carries floor w1 w2 eq_refl) as (Hc2 & _).
  assert (covers n d [] (settle_batch floor w1).1 w1 w2) as Hs.
  { cbn [settle_batch fst]. assert (recorded (settleBad (w_bad w1) (w_degraded w1) ++ [Saved (w_result w2)]) = []) as Hrec
      by (by rewrite recorded_app, recorded_settle). split.
    - fold w2. rewrite Hrec. constructor.
    - fold w2. rewrite Hrec. by intros ? ? ?%not_elem_of_nil.
    - intros sha Hsha. right. unfold forgotten. rewrite flat_map_app. apply elem_of_app. left. fold (forgotten (settleBad (w_bad w1) (w_degraded w1))).
      by rewrite forgotten_settle.
    - cbn. lia.
    - done. }
  unfold and_then at 1. rewrite H1. cbn [fst]. unfold and_then. cbn [settle_batch fst snd]. fold w2.
  apply covers_app with (w2 := w1); [done|]. rewrite <- (app_nil_l (concat bs)). apply covers_app with (w2 := w2); [done|].
  apply IH; [|done]. rewrite (c_depth _ _ Hc2), (c_depth _ _ (cv_carries _ _ _ _ _ _ Hb)). done.
Qed.

Lemma dumps_covers floor ds w w' : (check_dumps floor ds w).2 = Some w' ->
  recorded (check_dumps floor ds w).1 = [] /\ checked (w_result w') = (checked (w_result w) + length ds)%nat /\
  (forall x, x ∈ ds -> (forall a, head (JStr x.1) <> Found a) -> forall m, m ∈ x.2 -> m ∈ w_degraded w').
Proof.
  revert w; induction ds as [|x ds IH]; intros w; cbn [CloudBackupVerify.check_dumps].
  { intros [= <-]. split; [done|]. split; [cbn; lia|]. by intros x ?%not_elem_of_nil. }
  destruct (check_dump floor x w).2 as [w1|] eqn:H1; [|unfold and_then; rewrite H1; by rewrite H1].
  rewrite (and_then_some _ _ _ H1). intros H2. unfold and_then. rewrite H1. cbn [fst].
  destruct (IH w1 H2) as (Hr & Hc & Hm). pose proof (dumps_carries _ _ _ _ H2) as [_ _ _ _ [k Hk] _].
  destruct (add_strings (w_degraded w) x.2) as (k' & Hk' & _ & Hin).
  unfold CloudBackupVerify.check_dump in H1 |- *. cbv zeta in H1 |- *.
  destruct (head (JStr x.1)) as [a| | |] eqn:Hh; try done; injection H1 as <-; cbn [w_result w_degraded checked fst] in *;
    (split; [rewrite recorded_app, Hr; done|]); (split; [cbn [length]; lia|]);
    intros y [->|Hy]%elem_of_cons Hno m Hmy; try (by eapply Hm); try (by destruct (Hno a));
    rewrite Hk; apply elem_of_app; left; apply Hin; by right.
Qed.

(** Naming a manifest, once there, stays. *)
Lemma add_object_naming k refs named o m sha :
  m ∈ default [] (e_manifests <$> assoc_get sha named) \/ (sha = o.1 /\ m = k) ->
  m ∈ default [] (e_manifests <$> assoc_get sha (add_object k refs named o)).
Proof.
  intros H. unfold add_object. cbv zeta. destruct (assoc_get o.1 named) as [e|] eqn:He; rewrite assoc_get_set;
    (destruct (decide (sha = o.1)) as [->|Hne]; [|destruct H as [H|[H _]]; [done|by destruct Hne]]); cbn; rewrite He in H.
  - cbn in H. set_solver.
  - cbn in H. destruct H as [H|[_ ->]]; [by apply not_elem_of_nil in H|left].
Qed.
Lemma add_objects_naming k refs os named m sha :
  m ∈ default [] (e_manifests <$> assoc_get sha named) \/ (sha ∈ map fst os /\ m = k) ->
  m ∈ default [] (e_manifests <$> assoc_get sha (foldl (add_object k refs) named os)).
Proof.
  revert named; induction os as [|o os IH]; intros named H; cbn [foldl].
  - destruct H as [H|[H _]]; [done|by apply not_elem_of_nil in H].
  - apply IH. destruct H as [H|[[H|H]%elem_of_cons ->]]; [left|left|right]; [apply add_object_naming; by left|apply add_object_naming; by right|done].
Qed.

Definition names_more (n n' : Named) : Prop :=
  (forall sha m, m ∈ naming n sha -> m ∈ naming n' sha) /\ (forall m, m ∈ n_unreadable n -> m ∈ n_unreadable n').

Lemma read_manifests_more keys n n' : read_manifests keys n = Some n' -> names_more n n'.
Proof.
  revert n; induction keys as [|k keys IH]; intros n; cbn [CloudBackupVerify.read_manifests]; [by intros [= <-]|].
  destruct (manifestTime k); [|apply IH].
  assert (forall n1, names_more n n1 -> read_manifests keys n1 = Some n' -> names_more n n') as Hn.
  { intros n1 [H1 H2] H. destruct (IH n1 H) as [H3 H4]. split; intros; auto. }
  assert (names_more n (mkNamed (n_objects n) (n_dumps n) (n_unreadable n ++ [k]))) as Hu.
  { split; cbn; [done|]. set_solver. }
  destruct (get k) as [body| | |]; [|by apply Hn|by apply Hn|done].
  destruct (read_body _ _ _ _ _ _ body) as [refs|]; [|by apply Hn]. apply Hn. split; [|done].
  intros sha m Hm. apply add_objects_naming. by left.
Qed.

(** Every manifest of the listing is read, or known to be unreadable. *)
Lemma read_manifests_each keys n n' k t : read_manifests keys n = Some n' -> k ∈ keys -> manifestTime k = Some t ->
  k ∈ n_unreadable n' \/ exists body refs, get k = Found body /\
    read_body decode number_text assetRecord assetDetails albumSchema personSchema body = Some refs /\
    forall sha, sha ∈ map fst (r_objects refs) -> k ∈ naming n' sha.
Proof.
  revert n; induction keys as [|x keys IH]; intros n; cbn [CloudBackupVerify.read_manifests]; [by intros _ ?%not_elem_of_nil|].
  intros H Hk Ht. apply elem_of_cons in Hk as [<-|Hk]; cycle 1.
  { destruct (manifestTime x); [|by eapply IH]. destruct (get x) as [body| | |]; [|by eapply IH|by eapply IH|done].
    destruct (read_body _ _ _ _ _ _ body); by eapply IH. }
  rewrite Ht in H. destruct (get k) as [body| | |] eqn:Hg; [| | |done].
  - destruct (read_body _ _ _ _ _ _ body) as [refs|] eqn:Hb.
    + right. exists body, refs. split; [done|]. split; [done|]. intros sha Hs. destruct (read_manifests_more _ _ _ H) as [Hm _].
      apply Hm. apply add_objects_naming. by right.
    + left. apply (read_manifests_more _ _ _ H). cbn. set_solver.
  - left. apply (read_manifests_more _ _ _ H). cbn. set_solver.
  - left. apply (read_manifests_more _ _ _ H). cbn. set_solver.
Qed.

Lemma naming_object n sha m : m ∈ naming n sha -> sha ∈ map fst (n_objects n).
Proof.
  unfold naming. destruct (assoc_get sha (n_objects n)) as [e|] eqn:He; [|by intros ?%not_elem_of_nil].
  intros _. apply assoc_get_Some_elem in He. apply list_elem_of_fmap. by exists (sha, e).
Qed.

(** A verification that ends, from the beginning, has checked every object that a manifest in the
    bucket names and its depth asks for, once each and in order.  Every bad object has been forgotten, so
    that the next run uploads it again, and every manifest that names it, with every manifest that could
    not be read, is in the last list marked degraded; the counts are those of its checks. *)
Theorem verify_checks_all (start r : VerifyResult) (events : list Event)
  (ended : verify start = (events, Some r)) (objects_first : cursor start = None) (dumps_first : dumpCursor start = None) :
  exists n marked, named_all = Some n /\ last events = Some (MarkDegraded marked) /\
    (forall k t, k ∈ listing -> manifestTime k = Some t -> k ∈ marked \/ exists body refs, get k = Found body /\
       read_body decode number_text assetRecord assetDetails albumSchema personSchema body = Some refs /\
       forall sha, sha ∈ map fst (r_objects refs) -> depth start = Full \/ inVerifySlice sha (slice start) = true ->
         sha ∈ map fst (recorded events) /\ forall p, (sha, Some p) ∈ recorded events -> sha ∈ forgotten events /\ k ∈ marked) /\
    Forall2 (fun p sha => p.1 = sha /\ outcome n (depth start) sha = Some p.2) (recorded events) (hashes_of n start) /\
    checked r = (checked start + total r)%nat /\ v_done r = true /\ degradedManifests r = Nat.max (degradedManifests start) (length marked).
Proof.
  destruct named_all as [n|] eqn:Hn; [|unfold CloudBackupVerify.verify in ended; by rewrite Hn in ended].
  rewrite (verify_finish n start Hn) in ended. unfold finish in ended.
  destruct (whole_run n start).2 as [w|] eqn:Hw; [|done]. injection ended as <- <-. exists n, (w_degraded w).
  assert (exists w1, (object_phase n (degradedManifests start) start (begin_work n start)).2 = Some w1 /\
    (dump_phase n (degradedManifests start) start w1).2 = Some w) as (w1 & H1 & H2).
  { unfold whole_run in Hw. destruct (object_phase n _ start _).2 as [w1|] eqn:E; [|unfold and_then in Hw; rewrite E in Hw; by rewrite E in Hw].
    exists w1. by rewrite (and_then_some _ _ _ E) in Hw. }
  assert ((whole_run n start).1 = (object_phase n (degradedManifests start) start (begin_work n start)).1 ++
    (dump_phase n (degradedManifests start) start w1).1) as Hev by (unfold whole_run, and_then; by rewrite H1).
  pose proof (covers_batches n (depth start) (degradedManifests start) _ (begin_work n start) w1 eq_refl H1) as C.
  rewrite concat_chunks in C by (unfold MAINTENANCE_BATCH; lia).
  assert (after_cursor id (cursor start) (hashes_of n start) = hashes_of n start) as Hall by (by rewrite objects_first).
  change (check_batches n (degradedManifests start) (chunks MAINTENANCE_BATCH (after_cursor id (cursor start) (hashes_of n start))) (begin_work n start))
    with (object_phase n (degradedManifests start) start (begin_work n start)) in C.
  rewrite Hall in C. destruct C as [Cr Cb _ Cc Cy].
  assert (recorded (dump_phase n (degradedManifests start) start w1).1 = [] /\
    checked (w_result w) = (checked (w_result w1) + if bool_decide (depth start = Full) then length (n_dumps n) else 0)%nat /\
    carries w1 w) as (Dr & Dc & Dy).
  { unfold dump_phase in *. case_bool_decide.
    - destruct (dumps_covers _ _ _ _ H2) as (Hr & Hc & _). split; [done|]. split; [|by eapply dumps_carries].
      rewrite Hc, dumps_first. cbn [after_cursor str_truthy]. unfold dumps_of. by rewrite sort_by_length.
    - injection H2 as <-. split; [done|]. split; [lia|apply carries_refl]. }
  assert (recorded ((whole_run n start).1 ++ settleBad [] (w_degraded w)) =
    recorded (object_phase n (degradedManifests start) start (begin_work n start)).1) as Hrec
    by (by rewrite recorded_app, recorded_settle, app_nil_r, Hev, recorded_app, Dr, app_nil_r).
  rewrite Hrec. destruct (c_degraded _ _ Dy) as [k2 Hk2]. destruct (c_degraded _ _ Cy) as [k1 Hk1].
  split; [done|]. split; [exact (last_snoc (MarkDegraded (w_degraded w)) _)|].
  split; [|split; [exact Cr|split; [|done]]].
  - intros k t Hk Ht. destruct (read_manifests_each _ _ _ _ _ Hn Hk Ht) as [Hu|(body & refs & Hg & Hb & Hs)].
    + left. rewrite Hk2, Hk1. apply elem_of_app. left. apply elem_of_app. left. cbn [begin_work w_degraded].
      apply elem_of_uniq, elem_of_app. by right.
    + right. exists body, refs. split; [done|]. split; [done|]. intros sha Hsha Hdepth.
      assert (sha ∈ hashes_of n start) as Hin.
      { unfold hashes_of. apply sort_by_elem, elem_of_filter_b. split; [by eapply naming_object, Hs|].
        apply orb_true_iff. destruct Hdepth as [->|]; [left|right]; done. }
      split.
      * apply list_elem_of_lookup_1 in Hin as [i Hi]. destruct (Forall2_lookup_r _ _ _ _ _ Cr Hi) as ([x p] & Hp & Hx & _).
        cbn in Hx. subst x. apply list_elem_of_fmap. exists (sha, p). split; [done|]. by eapply list_elem_of_lookup_2.
      * intros p Hp. destruct (Cb sha p Hp) as [Hf Hm]. split.
        -- destruct (batches_spec _ _ _ _ _ H1) as (_ & _ & Hbad & _). rewrite (Hbad eq_refl) in Hf.
           destruct Hf as [Hf|Hf]; [by apply not_elem_of_nil in Hf|]. rewrite Hev. unfold forgotten in *.
           rewrite !flat_map_app, !elem_of_app. by left; left.
        -- rewrite Hk2. apply elem_of_app. left. by apply Hm, Hs.
  - cbn [checked total]. rewrite (c_total _ _ Dy), (c_total _ _ Cy), Dc, Cc. cbn [begin_work w_result checked total]. lia.
Qed.
End lemmas.

(** ** A verification *)

Definition sample_fetch (k : string) : Answer json := match sample_get k with Some b => Found b | None => Gone end.
Definition sample_head (k : json) : Answer jsnum :=
  match k with
  | JStr k => if String.eqb k ("o/" +:+ sha_of "a") then Gone else Found (JInt 7)
  | _ => Gone
  end.
Abbreviation sample_verify := (verify [new_key; old_key] sample_fetch sample_head (fun _ => Gone) Some (fun _ => ""%string)
  (fun fs => fs) Some Some Some None).
Definition sample_start : VerifyResult := emptyVerifyResult Full 0.

Example sample_verified : forall r, (sample_verify sample_start).2 = Some r ->
  (total r, checked r, missing r, degradedKeys r, bad r) = (4, 4, 1, [old_key], [sha_of "a"])%nat.
Proof. intros r H. vm_compute in H. injection H as <-. vm_compute. reflexivity. Qed.

(** The first checkpoint: the objects are checked, the dumps are not. *)
Definition is_saved (e : option Event) (checked_ marked : nat) : Prop :=
  match e with Some (Saved r) => checked r = checked_ /\ length (degradedKeys r) = marked | _ => False end.

Lemma saved_at l i a b : is_saved (l !! i) a b ->
  exists r, l = take i l ++ Saved r :: drop (S i) l /\ checked r = a /\ length (degradedKeys r) = b.
Proof.
  destruct (l !! i) as [[| | |r]|] eqn:H; try done. intros E. exists r. split; [|exact E].
  symmetry. by apply take_drop_middle.
Qed.

Lemma sample_saved : is_saved ((sample_verify sample_start).1 !! 4%nat) 2 1.
Proof. vm_compute. split; reflexivity. Qed.

Lemma verify_resumes_witness : exists r pre post, (sample_verify sample_start).1 = pre ++ Saved r :: post /\
  checked r = 2%nat /\ sample_verify r = (post, (sample_verify sample_start).2).
Proof.
  destruct (saved_at _ _ _ _ sample_saved) as (r & Hev & Hc & Hl).
  exists r, (take 4 (sample_verify sample_start).1), (drop 5 (sample_verify sample_start).1).
  split; [exact Hev|]. split; [exact Hc|].
  apply (verify_resumes _ _ _ _ _ _ _ _ _ _ _ sample_start r _ _ Hev). rewrite Hl. unfold VERIFY_BAD_KEPT. lia.
Defined.

Lemma ended_at (run : list Event * option VerifyResult) k : is_Some run.2 /\ length (recorded run.1) = k ->
  exists events r, run = (events, Some r) /\ length (recorded events) = k.
Proof. destruct run as [events [r|]]; intros [[x Hx] Hl]; [by exists events, r|done]. Qed.

Lemma sample_ended : is_Some (sample_verify sample_start).2 /\ length (recorded (sample_verify sample_start).1) = 2%nat.
Proof. split; [vm_compute; eexists; reflexivity|vm_compute; reflexivity]. Qed.

Lemma verify_checks_all_witness : exists r events, sample_verify sample_start = (events, Some r) /\
  length (recorded events) = 2%nat /\ checked r = total r /\ v_done r = true.
Proof.
  destruct (ended_at _ _ sample_ended) as (events & r & H & L).
  destruct (verify_checks_all _ _ _ _ _ _ _ _ _ _ _ sample_start r events H eq_refl eq_refl)
    as (n & marked & _ & _ & _ & _ & Hc & Hd & _).
  exists r, events. split; [done|]. split; [exact L|]. split; [exact Hc|exact Hd].
Defined.
