(* ===== verification/StudioExportFormats.v ===== *)
(** * Studio export formats ([server/src/utils/studio-export-formats.ts])

    The table of export formats: the stream each must contain, who can write it, the picture
    precision it promises and the caption track it can carry; and why a format cannot carry the
    project's sound. *)

From S2P Require Import Prelude JsNumber JsString.
Local Open Scope Z_scope.

Inductive StudioExportFormatKind : Type := Video | Audio | Still.
#[export] Instance StudioExportFormatKind_eq_dec : EqDecision StudioExportFormatKind.
Proof. solve_decision. Defined.

Record StudioExportFormatSpec := mkSpec {
  spec_kind : StudioExportFormatKind;
  spec_container : string;
  spec_codec : string;
  spec_contentType : string;
  spec_extension : string;
  spec_bitDepth : Z;
  spec_writers : list string;
  spec_combination : bool;
  spec_textTrack : option string
}.

Definition H264 : list string :=
  ["webcodecs-avc"; "libx264"; "h264_nvenc"; "h264_qsv"; "h264_vaapi"; "h264_videotoolbox"; "h264_amf"; "h264_rkmpp"; "h264_v4l2m2m"]%string.
Definition HEVC : list string :=
  ["libx265"; "hevc_nvenc"; "hevc_qsv"; "hevc_vaapi"; "hevc_videotoolbox"; "hevc_amf"; "hevc_rkmpp"; "hevc_v4l2m2m"]%string.
Definition AV1 : list string := ["libsvtav1"; "libaom-av1"; "librav1e"; "av1_nvenc"; "av1_qsv"; "av1_vaapi"; "av1_amf"]%string.
Definition VP8 : list string := ["libvpx"; "vp8_vaapi"; "vp8_qsv"]%string.
Definition VP9 : list string := ["libvpx-vp9"; "vp9_vaapi"; "vp9_qsv"]%string.
Definition PRORES : list string := ["prores_ks"; "prores"; "prores_aw"; "prores_videotoolbox"]%string.

Record Box := mkBox { box_container : string; box_contentType : string; box_extension : string; box_textTrack : string }.
Definition MP4 : Box := mkBox "mp4" "video/mp4" ".mp4" "mov_text".
Definition MOV : Box := mkBox "mov" "video/quicktime" ".mov" "mov_text".
Definition MKV : Box := mkBox "mkv" "video/x-matroska" ".mkv" "subrip".
Definition WEBM : Box := mkBox "webm" "video/webm" ".webm" "webvtt".

Definition video (box : Box) (codec : string) (writers : list string) (bitDepth : Z) (combination : bool) : StudioExportFormatSpec :=
  mkSpec Video (box_container box) codec (box_contentType box) (box_extension box) bitDepth writers combination (Some (box_textTrack box)).
Definition audio (container codec contentType extension : string) (writers : list string) : StudioExportFormatSpec :=
  mkSpec Audio container codec contentType extension 8 writers true None.
Definition still (container writer contentType extension : string) (bitDepth : Z) : StudioExportFormatSpec :=
  mkSpec Still container container contentType extension bitDepth [writer] false None.

Definition STUDIO_EXPORT_FORMAT_SPECS : list (string * StudioExportFormatSpec) :=
  [("mp4-hevc-main10", video MP4 "hevc" HEVC 10 false);
   ("mp4-h264", video MP4 "h264" H264 8 false);
   ("webm-av1", video WEBM "av1" AV1 10 false);
   ("prores-422-hq", video MOV "prores" PRORES 10 false);
   ("sdr-jpeg", still "jpeg" "frameleaf-sdr-jpeg" "image/jpeg" ".jpg" 8);
   ("hdr-jpeg", still "jpeg" "frameleaf-ultrahdr-jpeg" "image/jpeg" ".jpg" 10);
   ("hdr-heic", still "heic" "frameleaf-heic-pq" "image/heic" ".heic" 10);
   ("mp4-hevc", video MP4 "hevc" HEVC 8 true);
   ("mp4-av1", video MP4 "av1" AV1 8 true);
   ("mov-h264", video MOV "h264" H264 8 true);
   ("mov-hevc", video MOV "hevc" HEVC 8 true);
   ("mov-prores-422", video MOV "prores" PRORES 8 true);
   ("mkv-h264", video MKV "h264" H264 8 true);
   ("mkv-hevc", video MKV "hevc" HEVC 8 true);
   ("mkv-vp8", video MKV "vp8" VP8 8 true);
   ("mkv-vp9", video MKV "vp9" VP9 8 true);
   ("mkv-av1", video MKV "av1" AV1 8 true);
   ("webm-vp8", video WEBM "vp8" VP8 8 true);
   ("webm-vp9", video WEBM "vp9" VP9 8 true);
   ("webm-av1-sdr", video WEBM "av1" AV1 8 true);
   ("audio-mp3", audio "mp3" "mp3" "audio/mpeg" ".mp3" ["libmp3lame"]);
   ("audio-aac", audio "m4a" "aac" "audio/mp4" ".m4a" ["aac"; "libfdk_aac"; "aac_at"]);
   ("audio-wav", audio "wav" "pcm_s16le" "audio/wav" ".wav" ["pcm_s16le"])]%string.

Definition studioExportFormatSpec (format : option json) : option StudioExportFormatSpec :=
  match format with Some (JStr f) => assoc_get f STUDIO_EXPORT_FORMAT_SPECS | _ => None end.
Definition is_spec_kind (k : StudioExportFormatKind) (spec : option StudioExportFormatSpec) : bool :=
  match spec with Some s => bool_decide (spec_kind s = k) | None => false end.
Definition isStudioVideoFormat (format : option json) : bool := is_spec_kind Video (studioExportFormatSpec format).
Definition isStudioAudioFormat (format : option json) : bool := is_spec_kind Audio (studioExportFormatSpec format).

Definition AUDIO_RATES : list (string * list Z) :=
  [("mp3"%string, [8000; 11025; 12000; 16000; 22050; 24000; 32000; 44100; 48000]);
   ("aac"%string, [8000; 11025; 12000; 16000; 22050; 24000; 32000; 44100; 48000; 64000; 88200; 96000])].

Record ProjectAudio := mkProjectAudio { policy : string; channels : option Z; sampleRate : option Z }.

Definition studioExportAudioProblem (format : string) (sound : option ProjectAudio) : option string :=
  match studioExportFormatSpec (Some (JStr format)) with
  | None => None
  | Some spec =>
      if negb (bool_decide (spec_kind spec = Audio)) then None else
      match sound with
      | None => Some "This project has no sound to export. Add audio, or export a video."
      | Some a =>
          let ch := if String.eqb (policy a) "stereo" then Some 2 else channels a in
          if String.eqb (spec_codec spec) "mp3" && (match ch with Some c => 2 <? c | None => false end)
          then Some ("MP3 holds at most two channels and this project's sound has " +:+ string_of_int (default 0 ch) +:+
                     ". Choose Stereo, or export AAC or WAV.")%string
          else
            match assoc_get (spec_codec spec) AUDIO_RATES, sampleRate a with
            | Some rates, Some rate =>
                if negb (includes rate rates)
                then Some ((if String.eqb (spec_codec spec) "mp3" then "MP3" else "AAC") +:+ " cannot hold sound sampled at " +:+
                           string_of_int rate +:+ " Hz without resampling it. Export WAV instead.")%string
                else None
            | _, _ => None
            end
      end
  end.

(** ** The table is consistent *)

(** What every row satisfies: something can write it, its precision is 8 or 10 bits, only video
    carries a caption track, and every video format carries one. *)
Definition spec_ok (s : StudioExportFormatSpec) : bool :=
  negb (match spec_writers s with [] => true | _ => false end) &&
  (Z.eqb (spec_bitDepth s) 8 || Z.eqb (spec_bitDepth s) 10) &&
  Bool.eqb (bool_decide (spec_kind s = Video)) (match spec_textTrack s with Some _ => true | None => false end).

Lemma specs_ok format spec : studioExportFormatSpec format = Some spec -> spec_ok spec = true.
Proof.
  intros H. assert (forallb (fun kv => spec_ok kv.2) STUDIO_EXPORT_FORMAT_SPECS = true) as Hall by (vm_compute; reflexivity).
  rewrite forallb_forall in Hall. destruct format as [[]|]; try discriminate H. apply assoc_get_Some_elem in H.
  apply list_elem_of_In in H. by apply (Hall (s, spec)).
Qed.

(** A project's sound is refused only for an audio format; with sound in stereo at 48 kHz none is. *)
Lemma studioExportAudioProblem_stereo format ch :
  studioExportAudioProblem format (Some (mkProjectAudio "stereo" ch (Some 48000))) = None.
Proof.
  unfold studioExportAudioProblem. cbn [studioExportFormatSpec].
  destruct (assoc_get format STUDIO_EXPORT_FORMAT_SPECS) as [spec|] eqn:E; [|done].
  destruct (negb (bool_decide (spec_kind spec = Audio))) eqn:Ek; [done|]. cbn [policy channels sampleRate String.eqb].
  apply negb_false_iff, bool_decide_eq_true in Ek. apply assoc_get_Some_elem in E.
  assert (forallb (fun kv => implb (bool_decide (spec_kind kv.2 = Audio))
     (match assoc_get (spec_codec kv.2) AUDIO_RATES with Some rates => includes 48000 rates | None => true end))
     STUDIO_EXPORT_FORMAT_SPECS = true) as Hall by (vm_compute; reflexivity).
  rewrite forallb_forall in Hall. apply list_elem_of_In in E. specialize (Hall _ E). cbn [snd] in Hall.
  rewrite bool_decide_eq_true_2 in Hall by done. cbn [implb] in Hall.
  change (String.eqb "stereo" "stereo") with true. cbv iota. change (2 <? 2) with false. rewrite andb_false_r.
  destruct (assoc_get (spec_codec spec) AUDIO_RATES); [|done]. by rewrite Hall.
Qed.
