(* ===== verification/RenderAdmission.v ===== *)
(** * Render worker admission ([server/src/utils/render-admission.ts])

    Whether a worker may be given a session, whether it may take an operation, whether a running
    operation is within its limits, and whether a qualified session can write an export.

    A [Date] is its time in milliseconds, [None] when it is invalid ([getTime()] is [NaN], with which
    every comparison is false).  A ceiling of [None] is no ceiling.  Settings, snapshots and output
    requests are JSON fields.  Counts and sizes are integers.  The signed input grants of the same file are not
    modelled (they are built from [createHmac] and [JSON.parse]). *)

From Stdlib Require Import QArith.
From S2P Require Import Prelude JsNumber JsString Enums MediaOperation StudioExportFormats.
Import Kind.
Local Open Scope Z_scope.

(** ** Times *)

Definition Date := option Z.
Definition t_le (a b : Date) : bool := match a, b with Some x, Some y => x <=? y | _, _ => false end.
Definition t_lt (a b : Date) : bool := match a, b with Some x, Some y => x <? y | _, _ => false end.
Definition t_add (a : Date) (ms : Z) : Date := (fun x => x + ms) <$> a.

(** [age(now, at) > limit] *)
Definition older_than (now reported : Date) (limit : Z) : bool :=
  match now, reported with Some n, Some r => limit <? n - r | _, _ => false end.

(** ** Destinations and their health *)

Inductive MediaOperationDestination : Type := DestLocal | DestLan | DestFrameleafCloud.
#[export] Instance MediaOperationDestination_eq_dec : EqDecision MediaOperationDestination.
Proof. solve_decision. Defined.

Inductive HealthState : Type := Available | Unavailable | Unknown.
#[export] Instance HealthState_eq_dec : EqDecision HealthState.
Proof. solve_decision. Defined.
Record DestinationHealth := mkHealth { health_destination : MediaOperationDestination; health_state : HealthState; checkedAt : Date }.

(** The two providers' [check]. *)
Definition UnknownDestinationHealthProvider (destination : MediaOperationDestination) : DestinationHealth :=
  mkHealth destination Unknown None.
Definition LocalDestinationHealthProvider (now : Date) (destination : MediaOperationDestination) : DestinationHealth :=
  match destination with
  | DestLocal => mkHealth destination Available now
  | _ => mkHealth destination Unknown None
  end.

(** ** Limits *)

(** [maxConcurrentOperations] is [None] for [Infinity]. *)
Record RenderLimits := mkLimits { maxConcurrentOperations : option Z; maxWallClockMs : option Z; maxOutputBytes : option Z }.

Definition tighter (current candidate : option Z) : option Z :=
  match candidate with
  | None => current
  | Some c => Some (match current with None => c | Some x => Z.min x c end)
  end.
Definition tightest_step (result : RenderLimits) (source : option RenderLimits) : RenderLimits :=
  match source with
  | None => result
  | Some s =>
      mkLimits (tighter (maxConcurrentOperations result) (maxConcurrentOperations s))
               (tighter (maxWallClockMs result) (maxWallClockMs s))
               (tighter (maxOutputBytes result) (maxOutputBytes s))
  end.
Definition tightestLimits (sources : list (option RenderLimits)) : RenderLimits :=
  fold_left tightest_step sources (mkLimits None None None).

(** [count >= limit]. *)
Definition at_limit (count : Z) (limit : option Z) : bool := match limit with Some l => l <=? count | None => false end.

(** ** Decisions *)

Inductive RenderWorkerRefusalReason : Type :=
| InvalidCredential | WorkerRevoked | SessionExpired | ConformanceStale | ConformanceReplayed | EngineDigestMismatch
| SoftwareRenderer | DestinationMismatch | WorkerMismatch | ScopeExceeded | WorkerConcurrency | UserConcurrency
| GpuMemoryInsufficient | WallClockExceeded | OutputBytesExceeded | DestinationUnavailable | ManifestIncomplete | CodecUnsupported.
#[export] Instance RenderWorkerRefusalReason_eq_dec : EqDecision RenderWorkerRefusalReason.
Proof. solve_decision. Defined.

Inductive AdmissionDecision : Type := ADMIT | refuse (reason : RenderWorkerRefusalReason).
#[export] Instance AdmissionDecision_eq_dec : EqDecision AdmissionDecision.
Proof. solve_decision. Defined.

Definition WORKER_REFUSALS : list RenderWorkerRefusalReason :=
  [InvalidCredential; WorkerRevoked; SessionExpired; ConformanceStale; ConformanceReplayed; SoftwareRenderer; WorkerConcurrency].
Definition isWorkerRefusal (reason : RenderWorkerRefusalReason) : bool := includes reason WORKER_REFUSALS.

Definition CLOCK_SKEW_MS : Z := 5 * 60 * 1000.

(** [worker.engineDigest && worker.engineDigest !== digest]: pinned to another engine. *)
Definition pinned_elsewhere (pinned digest : option string) : bool := str_truthy pinned && negb (bool_decide (pinned = digest)).

Record SessionWorker := mkSessionWorker { sw_revoked : bool; sw_engineDigest : option string; sw_conformanceMaxAgeMs : Z;
                                          lastConformanceReportedAt : option Date }.
Record ConformanceReport := mkReport { rep_engineDigest : string; rep_conformanceReportedAt : Date; softwareRenderer : bool }.

(** A report from the future, or older than the worker's limit, is not evidence. *)
Definition report_stale (reportedAt now : Date) (maxAge : Z) : bool :=
  match reportedAt with None => true | Some _ => t_lt (t_add now CLOCK_SKEW_MS) reportedAt || older_than now reportedAt maxAge end.

Definition evaluateSessionAdmission (worker : SessionWorker) (report : ConformanceReport) (now : Date) : AdmissionDecision :=
  let reportedAt := rep_conformanceReportedAt report in
  if sw_revoked worker then refuse WorkerRevoked
  else if report_stale reportedAt now (sw_conformanceMaxAgeMs worker) then refuse ConformanceStale
  else if match lastConformanceReportedAt worker with Some last => t_le reportedAt last | None => false end
  then refuse ConformanceReplayed
  else if pinned_elsewhere (sw_engineDigest worker) (Some (rep_engineDigest report)) then refuse EngineDigestMismatch
  else if softwareRenderer report then refuse SoftwareRenderer
  else ADMIT.

Record Capabilities := mkCapabilities { cap_codecs : list string; cap_formats : list string }.
Record Session := mkSession {
  s_expiresAt : Date; s_revoked : bool; s_scopes : list MediaOperationKind; s_gpuMemoryBytes : option jsnum;
  s_engineDigest : option string; s_conformanceReportedAt : Date; s_capabilities : option Capabilities }.
Record Worker := mkWorker {
  w_id : string; w_name : string; w_destination : MediaOperationDestination; w_revoked : bool;
  w_kinds : list MediaOperationKind; w_activeOperations : Z; w_limits : RenderLimits;
  w_engineDigest : option string; w_conformanceMaxAgeMs : Z }.

Definition isQualifiedRenderSession (worker : Worker) (session : Session) (now : Date) : bool :=
  if w_revoked worker || s_revoked session || t_le (s_expiresAt session) now then false
  else if report_stale (s_conformanceReportedAt session) now (w_conformanceMaxAgeMs worker) then false
  else if pinned_elsewhere (w_engineDigest worker) (s_engineDigest session) then false
  else existsb isRenderWorkerMediaOperationKind (s_scopes session).

(** ** What an output needs *)

Definition LEGACY_SIDECAR_PROFILE : string := "mp4-h264+srt-sidecar-v1".
Definition LEGACY_EMBEDDED_PROFILE : string := "mp4-h264+mov-text-v1".
Definition SIDECAR_PROFILE : string := "srt-sidecar-v2".
Definition EMBEDDED_PROFILE : string := "embedded-text-v2".
Definition SDR_TEN_BIT_PROFILE : string := "sdr-10bit-v1".
Definition REFRAME_PROFILE : string := "reframe-v1".
Definition LANDSCAPE_REFRAME_PROFILE : string := "reframe-landscape-v1".

Record RequiredOutput := mkRequired {
  out_format : string; out_codec : list string; out_container : string; out_profiles : option (list string);
  out_subtitleCodec : option string; out_combination : bool; out_reframe : bool; out_landscapeReframe : bool }.

Definition impossible (format : option json) : RequiredOutput :=
  mkRequired (default "" (as_string format)) [] "" None None false false false.

Definition field (settings : option (list (string * json))) (key : string) : option json := settings ≫= (fun fs => obj_get fs key).
(** [value === text], and [(value ?? text) === text]. *)
Definition is_text (text : string) (v : option json) : bool := match v with Some (JStr s) => String.eqb s text | _ => false end.
Definition is_text_or_unset (text : string) (v : option json) : bool :=
  match v with None | Some JNull => true | _ => is_text text v end.
Definition is_set (v : option json) : bool := match v with None => false | Some _ => true end.

Definition isReframeShape (shape : option json) : bool := is_text "landscape" shape || is_text "vertical" shape || is_text "square" shape.

Definition requiredFormatOutput (settings : option (list (string * json))) : option RequiredOutput :=
  let format := field settings "format" in
  let mode := field settings "subtitleMode" in
  let sidecar := is_text "sidecar" mode in
  let embedded := is_text "embedded" mode in
  if is_set mode && negb (is_text "burn" mode) && negb (is_text "off" mode) && negb sidecar && negb embedded
  then Some (impossible format) else
  match as_string format with
  | None | Some EmptyString => if sidecar || embedded then Some (impossible format) else None
  | Some f =>
      match studioExportFormatSpec format with
      | None => Some (mkRequired f [] f None None false false false)
      | Some spec =>
          if bool_decide (spec_kind spec = Audio) && is_set mode && negb (is_text "off" mode) then Some (impossible format) else
          let base profiles subtitle :=
            mkRequired f (spec_writers spec) (spec_container spec) profiles subtitle (spec_combination spec) false false in
          if negb sidecar && negb embedded then Some (base None None) else
          if negb (bool_decide (spec_kind spec = Video)) || negb (Z.eqb (spec_bitDepth spec) 8) ||
             negb (is_text "preserve" (field settings "color")) || (embedded && negb (str_truthy (spec_textTrack spec)))
          then Some (impossible format) else
          let legacy := String.eqb f "mp4-h264" && is_text "720p" (field settings "resolution") &&
            is_text_or_unset "high" (field settings "quality") && is_text_or_unset "preserve" (field settings "audio") in
          Some (if sidecar
                then base (Some (if legacy then [LEGACY_SIDECAR_PROFILE; SIDECAR_PROFILE] else [SIDECAR_PROFILE])) None
                else base (Some (if legacy then [LEGACY_EMBEDDED_PROFILE; EMBEDDED_PROFILE] else [EMBEDDED_PROFILE])) (spec_textTrack spec))
      end
  end.

Definition requiredOutput (settings : option (list (string * json))) : option RequiredOutput :=
  let shape := field settings "shape" in
  match requiredFormatOutput settings with
  | None => None
  | Some output =>
      if negb (is_set shape) || is_text "original" shape then Some output else
      let spec := studioExportFormatSpec (Some (JStr (out_format output))) in
      if negb (isReframeShape shape) || negb (is_spec_kind Video spec) ||
         negb (match spec with Some s => Z.eqb (spec_bitDepth s) 8 | None => false end) ||
         negb (is_text "preserve" (field settings "color"))
      then Some (impossible (Some (JStr (out_format output)))) else
      Some (mkRequired (out_format output) (out_codec output) (out_container output) (out_profiles output)
              (out_subtitleCodec output) (out_combination output) true (is_text "landscape" shape))
  end.

Definition provesOutput (capabilities : option Capabilities) (output : RequiredOutput) : bool :=
  match capabilities, out_codec output with
  | None, _ | _, [] => false
  | Some c, _ =>
      let codecs := map to_lower (cap_codecs c) in
      let formats := map to_lower (cap_formats c) in
      existsb (fun encoder => includes encoder codecs) (out_codec output) &&
      (match out_subtitleCodec output with Some s => String.eqb s "" || includes s codecs | None => true end) &&
      includes (out_container output) formats &&
      (negb (out_combination output) || includes (out_format output) (cap_formats c)) &&
      (match out_profiles output with Some ps => existsb (fun p => includes p (cap_formats c)) ps | None => true end) &&
      (negb (out_reframe output) || includes REFRAME_PROFILE (cap_formats c)) &&
      (negb (out_landscapeReframe output) || includes LANDSCAPE_REFRAME_PROFILE (cap_formats c))
  end.

Definition snapshotString (snapshot : list (string * json)) (key : string) : option string :=
  match obj_get snapshot key with Some (JStr s) => if String.eqb s "" then None else Some s | _ => None end.
(** [Number(digits)]: an integer too large for a double is larger than any memory either way. *)
Definition snapshotNumber (snapshot : list (string * json)) (key : string) : option jsnum :=
  match obj_get snapshot key with
  | Some (JNum n) => if num_is_finite n then Some n else None
  | Some (JStr s) => if negb (String.eqb s "") && string_all is_digit s then Some (JInt (fl_int (digits_value 0 s))) else None
  | _ => None
  end.

Definition RENDER_MEMORY_BY_RESOLUTION : list (string * Z) :=
  [("720p", 2 * 1024 ^ 3); ("1080p", 4 * 1024 ^ 3); ("1440p", 6 * 1024 ^ 3); ("2160p", 8 * 1024 ^ 3); ("original", 8 * 1024 ^ 3)]%string.
Definition renderMemoryOf (settings : option (list (string * json))) : option Z :=
  let resolution :=
    if is_spec_kind Audio (studioExportFormatSpec (field settings "format")) then Some (JStr "720p") else field settings "resolution" in
  as_string resolution ≫= (fun r => assoc_get r RENDER_MEMORY_BY_RESOLUTION).

(** ** May this worker take this operation? *)

Record ClaimOperation := mkClaimOperation {
  op_kind : MediaOperationKind; op_destination : MediaOperationDestination; op_destinationDetail : option string;
  op_snapshot : list (string * json); op_settings : option (list (string * json)) }.
Record ClaimOwner := mkOwner { o_activeOperations : Z; o_limits : RenderLimits }.
Record ClaimAdmissionInput := mkClaim {
  c_worker : Worker; c_session : Session; c_operation : ClaimOperation; c_owner : ClaimOwner;
  c_health : DestinationHealth; c_now : Date }.

(** [bytes] is verified memory of at least [needed] and the hint. *)
Definition memory_short (bytes : option jsnum) (needed : option Z) (hint : option jsnum) : bool :=
  match needed, bytes with
  | Some n, Some (JInt b) => negb (is_safe_integer b) || negb (num_le (num_max (JInt n) (default (JInt 0) hint)) (JInt b))
  | _, _ => true
  end.

Definition evaluateClaimAdmission (input : ClaimAdmissionInput) : AdmissionDecision :=
  let 'mkClaim worker session operation owner health now := input in
  if w_revoked worker || s_revoked session then refuse WorkerRevoked
  else if t_le (s_expiresAt session) now then refuse SessionExpired
  else if negb (bool_decide (op_destination operation = w_destination worker)) then refuse DestinationMismatch
  else if str_truthy (op_destinationDetail operation) &&
          negb (bool_decide (op_destinationDetail operation = Some (w_id worker))) &&
          negb (bool_decide (op_destinationDetail operation = Some (w_name worker)))
  then refuse WorkerMismatch
  else if negb (isRenderWorkerMediaOperationKind (op_kind operation)) ||
          negb (includes (op_kind operation) (s_scopes session)) || negb (includes (op_kind operation) (w_kinds worker))
  then refuse ScopeExceeded
  else if bool_decide (health_state health = Unavailable) then refuse DestinationUnavailable
  else
    let requiredEngine := snapshotString (op_snapshot operation) "engineDigest" in
    if str_truthy requiredEngine && str_truthy (s_engineDigest session) && negb (bool_decide (requiredEngine = s_engineDigest session))
    then refuse EngineDigestMismatch
    else
      let output := requiredOutput (op_settings operation) in
      let paired := match output with Some o => match out_profiles o with Some _ => true | None => false end | None => false end in
      if paired && (negb (str_truthy requiredEngine) || negb (str_truthy (w_engineDigest worker)) ||
                    negb (bool_decide (w_engineDigest worker = s_engineDigest session)) ||
                    negb (bool_decide (s_engineDigest session = requiredEngine)))
      then refuse EngineDigestMismatch
      else if paired && negb (isQualifiedRenderSession worker session now) then refuse ConformanceStale
      else if match output with Some o => negb (provesOutput (s_capabilities session) o) | None => false end then refuse CodecUnsupported
      else if memory_short (s_gpuMemoryBytes session) (renderMemoryOf (op_settings operation))
                (snapshotNumber (op_snapshot operation) "gpuMemoryHintBytes")
      then refuse GpuMemoryInsufficient
      else if at_limit (w_activeOperations worker) (maxConcurrentOperations (w_limits worker)) then refuse WorkerConcurrency
      else if at_limit (o_activeOperations owner) (maxConcurrentOperations (o_limits owner)) then refuse UserConcurrency
      else ADMIT.

(** ** Is a running operation within its limits? *)

Definition evaluateRunningLimits (startedAt : option Date) (outputBytes : Z) (limits : RenderLimits) (now : Date) : AdmissionDecision :=
  if match maxWallClockMs limits, startedAt with Some limit, Some started => older_than now started limit | _, _ => false end
  then refuse WallClockExceeded
  else if match maxOutputBytes limits with Some limit => limit <? outputBytes | None => false end then refuse OutputBytesExceeded
  else ADMIT.

(** ** Can any qualified session write this export? *)

Record RenderColorPrecision := mkPrecision { maxBitDepth : Z; hdr10 : bool; dolbyVision : bool }.
Definition SDR_ONLY : RenderColorPrecision := mkPrecision 8 false false.

Inductive RenderOutputRefusal : Type := NoQualifiedWorker | InsufficientMemory | IncompatibleColor | CodecUnavailable.
Inductive OutputSupport : Type := Supported | Unsupported (refusal : RenderOutputRefusal).

Record RenderOutputCandidate := mkCandidate {
  cand_gpuMemoryBytes : option jsnum; cand_codecs : list string; cand_formats : option (list string);
  cand_colorPrecision : option RenderColorPrecision; cand_engineDigest : option string }.

Definition formatBitDepth (format : option json) : Z :=
  match studioExportFormatSpec format with Some s => spec_bitDepth s | None => 8 end.

Definition hdrMasterEvidence (format : string) (pq : bool) : string := (format +:+ "+" +:+ (if pq then "pq" else "hlg"))%string.

Definition colorSupported (request : list (string * json)) (candidate : RenderOutputCandidate) : bool :=
  let format := obj_get request "format" in
  let color := obj_get request "color" in
  let transfer := obj_get request "transfer" in
  let minBitDepth := match obj_get request "minBitDepth" with Some (JNum n) => n | _ => JInt 8 end in
  let precision := default SDR_ONLY (cand_colorPrecision candidate) in
  let formats := default [] (cand_formats candidate) in
  if is_text "hdr-jpeg" format || is_text "hdr-heic" format then (10 <=? maxBitDepth precision) && hdr10 precision else
  let depth := num_max (num_max (JInt (formatBitDepth format)) (JInt (if is_text "preserve" color then 8 else 10)))
                       (num_max minBitDepth (JInt (if truthy transfer then 10 else 8))) in
  if negb (num_le depth (JInt (maxBitDepth precision))) then false
  else if (match transfer with Some JNull => true | _ => false end) && (8 <? formatBitDepth format) &&
          is_spec_kind Video (studioExportFormatSpec format) && negb (includes SDR_TEN_BIT_PROFILE formats)
  then false
  else if is_text "arib-std-b67" transfer && negb (includes (hdrMasterEvidence (default "" (as_string format)) false) formats) then false
  else if is_text "hdr10" color || is_text "smpte2084" transfer then hdr10 precision
  else if is_text "dolby-vision" color then dolbyVision precision
  else true.

(** The output request of a queued operation: its settings and what its sealed contract promises. *)
Definition operationOutputRequest (settings : list (string * json)) (snapshot : option json) : list (string * json) :=
  let video := (snapshot ≫= fun s => json_get s "contract") ≫= fun c => json_get c "video" in
  let at_video key := video ≫= fun v => json_get v key in
  let transfer := at_video "transfer" in
  let r1 := match at_video "minBitDepth" with Some (JNum n) => assoc_set "minBitDepth"%string (JNum n) settings | _ => settings end in
  match transfer with
  | Some (JStr t) => if String.eqb t "smpte2084" || String.eqb t "arib-std-b67" then assoc_set "transfer"%string (JStr t) r1 else r1
  | Some JNull => assoc_set "transfer"%string JNull r1
  | _ => r1
  end.

Definition has_memory (needed : Z) (candidate : RenderOutputCandidate) : bool :=
  match cand_gpuMemoryBytes candidate with Some (JInt b) => is_safe_integer b && (needed <=? b) | _ => false end.
Definition has_codec (output : option RequiredOutput) (candidate : RenderOutputCandidate) : bool :=
  match output with
  | None => false
  | Some o =>
      (match out_profiles o with Some _ => str_truthy (cand_engineDigest candidate) | None => true end) &&
      provesOutput (Some (mkCapabilities (cand_codecs candidate) (default [] (cand_formats candidate)))) o
  end.

Definition evaluateRenderOutput (candidates : list RenderOutputCandidate) (request : list (string * json)) : OutputSupport :=
  match candidates with
  | [] => Unsupported NoQualifiedWorker
  | _ =>
      match renderMemoryOf (Some request) with
      | None => Unsupported InsufficientMemory
      | Some needed =>
          match List.filter (has_memory needed) candidates with
          | [] => Unsupported InsufficientMemory
          | withMemory =>
              match List.filter (has_codec (requiredOutput (Some request))) withMemory with
              | [] => Unsupported CodecUnavailable
              | withCodec =>
                  match List.filter (colorSupported request) withCodec with
                  | [] => Unsupported IncompatibleColor
                  | _ => Supported
                  end
              end
          end
      end
  end.

(** ** Limits *)

Definition within (count : Z) (limit : option Z) : Prop := forall l, limit = Some l -> count <= l.
Definition below_limit (count : Z) (limit : option Z) : Prop := forall l, limit = Some l -> count < l.

Lemma at_limit_false count limit : at_limit count limit = false <-> below_limit count limit.
Proof.
  unfold below_limit. destruct limit as [l|]; cbn [at_limit]; [rewrite Z.leb_gt|]; split.
  - by intros H ? [= <-].
  - auto.
  - done.
  - done.
Qed.
Lemma tighter_within count a b : within count (tighter a b) <-> within count a /\ within count b.
Proof.
  unfold within. destruct a as [x|], b as [y|]; cbn [tighter]; split.
  - intros H. specialize (H _ eq_refl). split; intros ? [= <-]; lia.
  - intros [H1 H2] ? [= <-]. specialize (H1 _ eq_refl). specialize (H2 _ eq_refl). lia.
  - intros H. split; [done|]. by intros.
  - by intros [H _].
  - intros H. split; [by intros|]. done.
  - by intros [_ H].
  - done.
  - by intros [H _].
Qed.
Lemma tighter_below count a b : below_limit count (tighter a b) <-> below_limit count a /\ below_limit count b.
Proof.
  pose proof (tighter_within (count + 1) a b) as H. unfold within, below_limit in *.
  split; [intros Ht|intros [Ha Hb]].
  - destruct H as [H _]. destruct H as [H1 H2]; [intros l E; specialize (Ht l E); lia|].
    split; intros l E; [specialize (H1 l E)|specialize (H2 l E)]; lia.
  - destruct H as [_ H]. assert (forall l, tighter a b = Some l -> count + 1 <= l) as Ht.
    { apply H. split; intros l E; [specialize (Ha l E)|specialize (Hb l E)]; lia. }
    intros l E. specialize (Ht l E). lia.
Qed.

Lemma evaluateRunningLimits_spec startedAt outputBytes limits now :
  evaluateRunningLimits startedAt outputBytes limits now = ADMIT <->
  (forall s n, startedAt = Some (Some s) -> now = Some n -> within (n - s) (maxWallClockMs limits)) /\
  within outputBytes (maxOutputBytes limits).
Proof.
  unfold evaluateRunningLimits, within. destruct (match maxWallClockMs limits with Some _ => _ | None => _ end) eqn:E1.
  - split; [done|]. intros [H _]. destruct (maxWallClockMs limits) as [l|]; [|done]. destruct startedAt as [[s|]|]; try done;
      destruct now as [n|]; try done. cbn in E1. specialize (H s n eq_refl eq_refl l eq_refl). apply Z.ltb_lt in E1. lia.
  - destruct (match maxOutputBytes limits with Some _ => _ | None => _ end) eqn:E2.
    + split; [done|]. intros [_ H]. destruct (maxOutputBytes limits) as [l|]; [|done]. specialize (H l eq_refl).
      apply Z.ltb_lt in E2. lia.
    + split; [|done]. intros _. split.
      * intros s n -> -> l El. rewrite El in E1. cbn in E1. apply Z.ltb_ge in E1. done.
      * intros l El. rewrite El in E2. apply Z.ltb_ge in E2. done.
Qed.

Definition given_limits (sources : list (option RenderLimits)) : list RenderLimits := omap (fun s => s) sources.

Lemma tightest_from result sources :
  forall (P : RenderLimits -> Prop),
    (forall a b, P (tightest_step a (Some b)) <-> P a /\ P b) ->
    P (fold_left tightest_step sources result) <-> P result /\ forall s, s ∈ given_limits sources -> P s.
Proof.
  intros P HP. revert result; induction sources as [|[s|] l IH]; intros result; cbn [fold_left].
  - split; [intros H; split; [done|by intros ? ?%elem_of_nil]|by intros []].
  - rewrite IH, HP. unfold given_limits. rewrite omap_cons. split.
    + intros [[H1 H2] H3]. split; [done|]. intros t [->|Ht]%elem_of_cons; auto.
    + intros [H1 H2]. split; [split; [done|apply H2; by left]|intros t Ht; apply H2; by right].
  - apply IH.
Qed.

(** Taking the tightest of several sources of ceilings loosens none of them: a running operation
    is within the combined ceilings exactly when it is within those of every source, and a count of
    operations is below the combined limit exactly when it is below every source's.  A running
    operation is stopped exactly when its wall clock or its output passes a ceiling. *)
Theorem tightestLimits_exact (sources : list (option RenderLimits)) (startedAt : option Date) (outputBytes count : Z) (now : Date) :
  (evaluateRunningLimits startedAt outputBytes (tightestLimits sources) now = ADMIT <->
   forall s, s ∈ given_limits sources -> evaluateRunningLimits startedAt outputBytes s now = ADMIT) /\
  (at_limit count (maxConcurrentOperations (tightestLimits sources)) = false <->
   forall s, s ∈ given_limits sources -> at_limit count (maxConcurrentOperations s) = false) /\
  (forall limits, evaluateRunningLimits startedAt outputBytes limits now = ADMIT <->
     (forall s n, startedAt = Some (Some s) -> now = Some n -> within (n - s) (maxWallClockMs limits)) /\
     within outputBytes (maxOutputBytes limits)).
Proof.
  split; [|split; [|intros; apply evaluateRunningLimits_spec]].
  - pose proof (tightest_from (mkLimits None None None) sources
      (fun l => evaluateRunningLimits startedAt outputBytes l now = ADMIT)) as H. cbv beta in H.
    unfold tightestLimits. rewrite H; clear H.
    + rewrite evaluateRunningLimits_spec. unfold within. cbn. split; [by intros [_ ?]|]. intros ?. repeat split; done.
    + intros a b. rewrite !evaluateRunningLimits_spec. cbn [tightest_step maxWallClockMs maxOutputBytes].
      setoid_rewrite tighter_within. split; [intros [H1 ?]|intros [[H1 ?] [H2 ?]]]; repeat split; try tauto; intros; try by eapply H1; eauto.
      by apply H2.
  - pose proof (tightest_from (mkLimits None None None) sources (fun l => at_limit count (maxConcurrentOperations l) = false)) as H.
    cbv beta in H. unfold tightestLimits. rewrite H; clear H.
    + cbn. split; [by intros [_ ?]|by intros].
    + intros a b. rewrite !at_limit_false. apply tighter_below.
Qed.

(** ** Sessions *)

Lemma report_stale_false reportedAt now maxAge : report_stale reportedAt now maxAge = false <->
  exists r, reportedAt = Some r /\ forall n, now = Some n -> r <= n + CLOCK_SKEW_MS /\ n - r <= maxAge.
Proof.
  unfold report_stale. destruct reportedAt as [r|].
  2: { split; [done|]. by intros (? & ? & _). }
  destruct now as [n|]; cbn [t_add fmap option_fmap option_map t_lt older_than].
  - rewrite orb_false_iff, !Z.ltb_ge. split.
    + intros [? ?]. exists r. split; [done|]. intros ? [= <-]. lia.
    + intros (? & [= <-] & H). specialize (H n eq_refl). lia.
  - split; [|done]. intros _. exists r. split; [done|]. by intros.
Qed.
Lemma pinned_elsewhere_false pinned digest : pinned_elsewhere pinned digest = false <->
  (forall p, pinned = Some p -> p <> ""%string -> digest = Some p).
Proof.
  unfold pinned_elsewhere, str_truthy. destruct pinned as [p|]; [|split; [by intros|done]].
  destruct (String.eqb_spec p "") as [->|Hp]; cbn [negb andb].
  - split; [by intros _ ? [= <-]|done].
  - rewrite negb_false_iff, bool_decide_eq_true. split; [by intros <- ? [= <-]|]. intros H. by rewrite (H p).
Qed.

(** A report that is evidence now: not from the future, not too old, on the pinned engine. *)
Definition fresh_report (reportedAt : Date) (now maxAge : Z) : Prop :=
  exists r, reportedAt = Some r /\ r <= now + CLOCK_SKEW_MS /\ now - r <= maxAge.
Definition on_engine (pinned digest : option string) : Prop := forall p, pinned = Some p -> p <> ""%string -> digest = Some p.

Lemma report_fresh reportedAt now maxAge : report_stale reportedAt (Some now) maxAge = false <-> fresh_report reportedAt now maxAge.
Proof.
  rewrite report_stale_false. unfold fresh_report. split.
  - intros (r & -> & H). exists r. split; [done|]. by apply H.
  - intros (r & -> & H). exists r. split; [done|]. by intros ? [= <-].
Qed.

(** A worker is given a session exactly when it is not revoked, its conformance report is fresh,
    newer than the last one accepted and from the engine the worker is pinned to, and its renderer is
    not a software one.  The report is then spent: presenting it, or an older one, again gives no
    session.  The session stays qualified, at any later time, exactly as long as it is unrevoked and
    unexpired, its worker active, the report within the age limit, on the pinned engine, and its
    scopes name a render kind. *)
Theorem session_admission_exact (worker : SessionWorker) (report : ConformanceReport) (now : Z) :
  (evaluateSessionAdmission worker report (Some now) = ADMIT <->
   sw_revoked worker = false /\
   fresh_report (rep_conformanceReportedAt report) now (sw_conformanceMaxAgeMs worker) /\
   (forall last r, lastConformanceReportedAt worker = Some (Some last) -> rep_conformanceReportedAt report = Some r -> last < r) /\
   on_engine (sw_engineDigest worker) (Some (rep_engineDigest report)) /\
   softwareRenderer report = false) /\
  (forall worker' report' later last r,
     lastConformanceReportedAt worker' = Some (Some last) -> rep_conformanceReportedAt report' = Some r -> r <= last ->
     evaluateSessionAdmission worker' report' later <> ADMIT) /\
  (forall w s later, isQualifiedRenderSession w s (Some later) = true <->
     w_revoked w = false /\ s_revoked s = false /\ (forall e, s_expiresAt s = Some e -> later < e) /\
     fresh_report (s_conformanceReportedAt s) later (w_conformanceMaxAgeMs w) /\
     on_engine (w_engineDigest w) (s_engineDigest s) /\
     exists kind, kind ∈ s_scopes s /\ isRenderWorkerMediaOperationKind kind = true).
Proof.
  split; [|split].
  - unfold evaluateSessionAdmission. destruct (sw_revoked worker); [split; [done|by intros (? & _)]|].
    destruct (report_stale _ _ _) eqn:Es.
    { split; [done|]. intros (_ & H & _). apply report_fresh in H. congruence. }
    apply report_fresh in Es. pose proof Es as (r & Er & _ & _). rewrite Er in *.
    destruct (match lastConformanceReportedAt worker with Some _ => _ | None => _ end) eqn:El.
    { split; [done|]. intros (_ & _ & H & _). destruct (lastConformanceReportedAt worker) as [[l|]|]; try done.
      cbn in El. apply Z.leb_le in El. specialize (H l r eq_refl eq_refl). lia. }
    destruct (pinned_elsewhere _ _) eqn:Ep.
    { split; [done|]. intros (_ & _ & _ & H & _). apply pinned_elsewhere_false in H. congruence. }
    rewrite pinned_elsewhere_false in Ep. destruct (softwareRenderer report); (split; [|by intros (_ & _ & _ & _ & ?)]); [done|].
    intros _. repeat split; try done. intros l r' E [= <-]. rewrite E in El. cbn in El. by apply Z.leb_gt in El.
  - intros worker' report' later last r El Er Hle. unfold evaluateSessionAdmission. rewrite El, Er.
    destruct (sw_revoked worker'); [done|]. destruct (report_stale _ _ _); [done|]. cbn [t_le].
    by rewrite (proj2 (Z.leb_le r last)).
  - intros w s later. unfold isQualifiedRenderSession.
    destruct (w_revoked w); [split; [done|by intros (? & _)]|]. destruct (s_revoked s); [split; [done|by intros (_ & ? & _)]|].
    cbn [orb]. destruct (t_le (s_expiresAt s) (Some later)) eqn:Ee.
    { split; [done|]. intros (_ & _ & H & _). destruct (s_expiresAt s) as [e|]; [|done]. cbn in Ee.
      apply Z.leb_le in Ee. specialize (H e eq_refl). lia. }
    destruct (report_stale _ _ _) eqn:Es.
    { split; [done|]. intros (_ & _ & _ & H & _). apply report_fresh in H. congruence. }
    destruct (pinned_elsewhere _ _) eqn:Ep.
    { split; [done|]. intros (_ & _ & _ & _ & H & _). apply pinned_elsewhere_false in H. congruence. }
    apply report_fresh in Es. rewrite pinned_elsewhere_false in Ep. rewrite existsb_exists. setoid_rewrite <- list_elem_of_In.
    split; [|by intros (_ & _ & _ & _ & _ & ?)]. intros H. repeat split; try done.
    intros e E. rewrite E in Ee. cbn in Ee. by apply Z.leb_gt in Ee.
Qed.

(** ** Claims *)

(** Everything a claim needs. *)
Record Claimable (input : ClaimAdmissionInput) : Prop := {
  cl_live : w_revoked (c_worker input) = false /\ s_revoked (c_session input) = false;
  cl_unexpired : t_le (s_expiresAt (c_session input)) (c_now input) = false;
  cl_destination : op_destination (c_operation input) = w_destination (c_worker input);
  cl_named : forall d, op_destinationDetail (c_operation input) = Some d -> d <> ""%string ->
    d = w_id (c_worker input) \/ d = w_name (c_worker input);
  cl_scope : isRenderWorkerMediaOperationKind (op_kind (c_operation input)) = true /\
    op_kind (c_operation input) ∈ s_scopes (c_session input) /\ op_kind (c_operation input) ∈ w_kinds (c_worker input);
  cl_health : health_state (c_health input) <> Unavailable;
  cl_engine : forall e d, snapshotString (op_snapshot (c_operation input)) "engineDigest" = Some e ->
    s_engineDigest (c_session input) = Some d -> d <> ""%string -> e = d;
  cl_output : forall o, requiredOutput (op_settings (c_operation input)) = Some o ->
    provesOutput (s_capabilities (c_session input)) o = true /\
    (forall ps, out_profiles o = Some ps ->
       (exists e, snapshotString (op_snapshot (c_operation input)) "engineDigest" = Some e /\
          w_engineDigest (c_worker input) = Some e /\ s_engineDigest (c_session input) = Some e) /\
       isQualifiedRenderSession (c_worker input) (c_session input) (c_now input) = true);
  cl_memory : exists needed bytes, renderMemoryOf (op_settings (c_operation input)) = Some needed /\
    s_gpuMemoryBytes (c_session input) = Some (JInt bytes) /\ is_safe_integer bytes = true /\ needed <= bytes /\
    (forall hint, snapshotNumber (op_snapshot (c_operation input)) "gpuMemoryHintBytes" = Some hint -> (num_q hint <= inject_Z bytes)%Q);
  cl_worker_room : below_limit (w_activeOperations (c_worker input)) (maxConcurrentOperations (w_limits (c_worker input)));
  cl_owner_room : below_limit (o_activeOperations (c_owner input)) (maxConcurrentOperations (o_limits (c_owner input)))
}.

Lemma snapshotString_nonempty snapshot key s : snapshotString snapshot key = Some s -> s <> ""%string.
Proof.
  unfold snapshotString. destruct (obj_get snapshot key) as [[| | |t| |]|]; try done.
  destruct (String.eqb_spec t ""); [done|]. by intros [= <-].
Qed.

(** The most demanding of two numbers is met when both are. *)
Lemma num_max_le a b c : num_le (num_max a b) c = true <-> num_le a c = true /\ num_le b c = true.
Proof.
  unfold num_max. destruct (num_le a b) eqn:E; unfold num_le in *.
  - rewrite !Qle_bool_iff. apply Qle_bool_iff in E. split; [|by intros []]. intros H. split; [|done]. by eapply Qle_trans.
  - rewrite !Qle_bool_iff. assert (num_q b <= num_q a)%Q as H'.
    { destruct (Qlt_le_dec (num_q a) (num_q b)) as [Hlt|]; [|done]. apply Qlt_le_weak, Qle_bool_iff in Hlt. congruence. }
    split; [|by intros []]. intros H. split; [done|]. by eapply Qle_trans.
Qed.
Lemma memory_short_false bytes needed hint : (forall n, needed = Some n -> 0 <= n) ->
  memory_short bytes needed hint = false <->
  exists n b, needed = Some n /\ bytes = Some (JInt b) /\ is_safe_integer b = true /\ n <= b /\
    (forall h, hint = Some h -> (num_q h <= inject_Z b)%Q).
Proof.
  intros Hpos. unfold memory_short. destruct needed as [n|]; [|split; [done|by intros (? & ? & ? & _)]].
  destruct bytes as [[b| | |]|]; try (split; [done|by intros (? & ? & _ & ? & _)]).
  rewrite orb_false_iff, !negb_false_iff, num_max_le, num_le_int, Z.leb_le. split.
  - intros (Hs & Hn & Hh). exists n, b. repeat split; try done. intros h ->. cbn [default] in Hh. by apply Qle_bool_iff in Hh.
  - intros (? & ? & [= <-] & [= <-] & Hs & Hn & Hh). repeat split; try done. specialize (Hpos n eq_refl).
    destruct hint as [h|]; cbn; [apply Qle_bool_iff; by apply Hh|]. by rewrite num_le_int, Z.leb_le; lia.
Qed.

Lemma renderMemoryOf_nonneg settings n : renderMemoryOf settings = Some n -> 0 <= n.
Proof.
  unfold renderMemoryOf. generalize (if is_spec_kind Audio (studioExportFormatSpec (field settings "format")) then Some (JStr "720p") else field settings "resolution").
  intros r H. destruct (as_string r) as [s|]; [|done]. cbn in H. repeat (case_decide; [injection H as <-; lia|]). done.
Qed.

Lemma named_false detail i n :
  str_truthy detail && negb (bool_decide (detail = Some i)) && negb (bool_decide (detail = Some n)) = false <->
  (forall d, detail = Some d -> d <> ""%string -> d = i \/ d = n).
Proof.
  rewrite !andb_false_iff, !negb_false_iff, !bool_decide_eq_true. unfold str_truthy. destruct detail as [d|]; [|split; [by intros|auto]].
  destruct (String.eqb_spec d "") as [->|Hd]; cbn [negb].
  - split; [by intros _ ? [= <-]|auto].
  - split.
    + intros [[?|[= ->]]|[= ->]] d' [= <-] _; [done|by left|by right].
    + intros H. destruct (H d eq_refl Hd) as [->| ->]; auto.
Qed.
Lemma engine_false required digest : (forall e, required = Some e -> e <> ""%string) ->
  str_truthy required && str_truthy digest && negb (bool_decide (required = digest)) = false <->
  (forall e d, required = Some e -> digest = Some d -> d <> ""%string -> e = d).
Proof.
  intros Hr. rewrite !andb_false_iff, negb_false_iff, bool_decide_eq_true. unfold str_truthy.
  destruct required as [e|]; [|split; [by intros|auto]]. specialize (Hr e eq_refl).
  rewrite (proj2 (String.eqb_neq _ _) Hr). destruct digest as [d|]; [|split; [by intros|auto]].
  destruct (String.eqb_spec d "") as [->|Hd]; cbn [negb].
  - split; [by intros _ ? ? _ [= <-]|auto].
  - split; [intros [[?|?]|[= ->]]; congruence|]. intros H. right. f_equal. by apply H.
Qed.
Lemma paired_engines_false required pinned digest : (forall e, required = Some e -> e <> ""%string) ->
  negb (str_truthy required) || negb (str_truthy pinned) || negb (bool_decide (pinned = digest)) || negb (bool_decide (digest = required)) = false <->
  exists e, required = Some e /\ pinned = Some e /\ digest = Some e.
Proof.
  intros Hr. rewrite !orb_false_iff, !negb_false_iff, !bool_decide_eq_true. split.
  - intros [[[H1 _] ->] ->]. destruct required as [e|]; [|done]. by exists e.
  - intros (e & -> & -> & ->). specialize (Hr e eq_refl). unfold str_truthy. by rewrite (proj2 (String.eqb_neq _ _) Hr).
Qed.

#[local] Ltac reject H :=
  split; [discriminate|intros H; exfalso; destruct H; cbn [c_worker c_session c_operation c_owner c_health c_now] in *].

Lemma claim_exact input : evaluateClaimAdmission input = ADMIT <-> Claimable input.
Proof.
  destruct input as [w s op ow h now]. unfold evaluateClaimAdmission.
  pose proof (snapshotString_nonempty (op_snapshot op) "engineDigest") as Hne.
  set (required := snapshotString (op_snapshot op) "engineDigest") in *.
  set (output := requiredOutput (op_settings op)).
  set (paired := match output with Some o => _ | None => false end).
  assert (paired = true <-> exists o ps, output = Some o /\ out_profiles o = Some ps) as Hpaired.
  { unfold paired. destruct output as [o|]; [destruct (out_profiles o) eqn:E|]; split; try done; eauto.
    - by intros (? & ? & [= <-] & ?); congruence.
    - by intros (? & ? & ? & _). }
  destruct (w_revoked w || s_revoked s) eqn:E1.
  { reject H. destruct cl_live0. apply orb_true_iff in E1 as [?|?]; congruence. }
  destruct (t_le (s_expiresAt s) now) eqn:E2; [reject H; congruence|].
  destruct (negb (bool_decide (op_destination op = w_destination w))) eqn:E3; [reject H; by to_prop|].
  destruct (str_truthy (op_destinationDetail op) && _ && _) eqn:E4; [reject H; by rewrite (proj2 (named_false _ _ _) cl_named0) in E4|].
  destruct (negb (isRenderWorkerMediaOperationKind (op_kind op)) || _ || _) eqn:E5.
  { reject H. destruct cl_scope0 as (A & B & C). rewrite A, (proj2 (includes_true _ _) B), (proj2 (includes_true _ _) C) in E5. done. }
  destruct (bool_decide (health_state h = Unavailable)) eqn:E6; [reject H; by to_prop|].
  destruct (str_truthy required && _ && _) eqn:E7; [reject H; by rewrite (proj2 (engine_false _ _ Hne) cl_engine0) in E7|].
  destruct (paired && (_ || _ || _ || _)) eqn:E8.
  { reject H. apply andb_true_iff in E8 as [Ep E8]. apply Hpaired in Ep as (o & ps & Eo & Eps).
    destruct (cl_output0 o Eo) as [_ Hps]. destruct (Hps ps Eps) as [He _]. by rewrite (proj2 (paired_engines_false _ _ _ Hne) He) in E8. }
  destruct (paired && negb (isQualifiedRenderSession w s now)) eqn:E9.
  { reject H. apply andb_true_iff in E9 as [Ep E9]. apply Hpaired in Ep as (o & ps & Eo & Eps).
    destruct (cl_output0 o Eo) as [_ Hps]. destruct (Hps ps Eps) as [_ Hq]. by rewrite Hq in E9. }
  destruct (match output with Some o => negb (provesOutput (s_capabilities s) o) | None => false end) eqn:E10.
  { reject H. destruct output as [o|] eqn:Eo; [|done]. destruct (cl_output0 o Eo) as [Hp _]. by rewrite Hp in E10. }
  destruct (memory_short _ _ _) eqn:E11.
  { reject H. by rewrite (proj2 (memory_short_false _ _ _ (renderMemoryOf_nonneg _)) cl_memory0) in E11. }
  destruct (at_limit (w_activeOperations w) _) eqn:E12; [reject H; apply at_limit_false in cl_worker_room0; congruence|].
  destruct (at_limit (o_activeOperations ow) _) eqn:E13; [reject H; apply at_limit_false in cl_owner_room0; congruence|].
  split; [intros _|done]. to_prop.
  rewrite named_false in E4. rewrite (engine_false _ _ Hne) in E7.
  split; cbn [c_worker c_session c_operation c_owner c_health c_now]; try done.
  - split; [done|split; by apply includes_true].
  - fold output. intros o Eo. rewrite Eo in E10. apply negb_false_iff in E10. split; [done|]. intros ps Eps.
    assert (paired = true) as Ep by (apply Hpaired; eauto). rewrite Ep in E8, E9. cbn [andb] in E8, E9. split.
    + by apply paired_engines_false in E8.
    + by apply negb_false_iff in E9.
  - apply memory_short_false; [apply renderMemoryOf_nonneg|done].
  - by apply at_limit_false.
  - by apply at_limit_false.
Qed.

(** A session as a candidate for an export. *)
Definition candidate_of (session : Session) (precision : option RenderColorPrecision) : RenderOutputCandidate :=
  let caps := default (mkCapabilities [] []) (s_capabilities session) in
  mkCandidate (s_gpuMemoryBytes session) (cap_codecs caps) (Some (cap_formats caps)) precision (s_engineDigest session).

Lemma claimable_candidate input fs o precision :
  Claimable input -> op_settings (c_operation input) = Some fs -> requiredOutput (Some fs) = Some o ->
  let candidate := candidate_of (c_session input) precision in
  evaluateRenderOutput [candidate] fs =
    if colorSupported fs candidate then Supported else Unsupported IncompatibleColor.
Proof.
  intros H Hfs Ho candidate. destruct (cl_memory _ H) as (n & b & Hn & Hb & Hs & Hle & _). rewrite Hfs in Hn.
  destruct (cl_output _ H o) as [Hp Hps]; [by rewrite Hfs|].
  unfold evaluateRenderOutput. rewrite Hn. cbn [List.filter].
  assert (has_memory n candidate = true) as ->.
  { unfold has_memory, candidate, candidate_of. cbn [cand_gpuMemoryBytes]. rewrite Hb, Hs. by apply Z.leb_le. }
  cbn [List.filter]. assert (has_codec (requiredOutput (Some fs)) candidate = true) as ->.
  { rewrite Ho. unfold has_codec, candidate, candidate_of. cbn [cand_engineDigest cand_codecs cand_formats default].
    destruct (s_capabilities (c_session input)) as [[codecs formats]|]; [|by unfold provesOutput in Hp].
    match goal with |- context [provesOutput ?c o] => change c with (Some (mkCapabilities codecs formats)) end.
    rewrite Hp, andb_true_r. destruct (out_profiles o) as [ps|]; [|done].
    destruct (Hps ps eq_refl) as [(e & He & _ & ->) _]. apply snapshotString_nonempty in He.
    unfold str_truthy. by rewrite (proj2 (String.eqb_neq _ _) He). }
  cbn [List.filter]. by destruct (colorSupported fs candidate).
Qed.

(** A claim is admitted exactly when every condition holds: worker and session are unrevoked and
    the session unexpired; the operation's destination is the worker's, and a worker it names is this
    one; its kind is one a renderer may run and within both scopes; the destination is not
    unavailable; the job's engine is the session's; an output it names is proven by the session's
    evidence, and a paired output also by a session still qualified now on the one engine the job,
    the session and the enrolment all name; the verified memory covers the resolution and the job's
    hint; and neither the worker nor the account is at its limit.  An admitted session is also one
    the export sheet would have offered: for the same settings it is refused for its colour only. *)
Theorem claim_admission_exact (input : ClaimAdmissionInput) :
  (evaluateClaimAdmission input = ADMIT <-> Claimable input) /\
  (evaluateClaimAdmission input = ADMIT -> forall fs precision,
     op_settings (c_operation input) = Some fs -> requiredOutput (Some fs) <> None ->
     let candidate := candidate_of (c_session input) precision in
     evaluateRenderOutput [candidate] fs =
       if colorSupported fs candidate then Supported else Unsupported IncompatibleColor).
Proof.
  split; [apply claim_exact|]. intros H%claim_exact fs precision Hfs Ho.
  destruct (requiredOutput (Some fs)) as [o|] eqn:E; [|done]. by apply claimable_candidate with o.
Qed.

Definition demo_claim (memory : Z) : ClaimAdmissionInput :=
  mkClaim (mkWorker "w1" "rig" DestLocal false [StudioExport] 0 (mkLimits (Some 2) None None) (Some "d1") 1000)
    (mkSession (Some 5000) false [StudioExport] (Some (JInt memory)) (Some "d1") (Some 900)
       (Some (mkCapabilities ["libx264"; "mov_text"] ["mp4"; "embedded-text-v2"])))
    (mkClaimOperation StudioExport DestLocal None [("engineDigest", JStr "d1")]
       (Some [("format", JStr "mp4-h264"); ("resolution", JStr "1080p"); ("color", JStr "preserve"); ("subtitleMode", JStr "embedded")]))
    (mkOwner 0 (mkLimits (Some 1) None None)) (mkHealth DestLocal Available (Some 1000)) (Some 1000).
Example demo_claim_admitted : evaluateClaimAdmission (demo_claim (4 * 1024 ^ 3)) = ADMIT.
Proof. vm_compute. reflexivity. Qed.
Example demo_claim_memory : evaluateClaimAdmission (demo_claim (4 * 1024 ^ 3 - 1)) = refuse GpuMemoryInsufficient.
Proof. vm_compute. reflexivity. Qed.
