(* ===== verification/OperationStore.v ===== *)
(** * The rows of durable operations ([server/src/repositories/media-operation.repository.ts])

    Every write of the repository to a [media_operation] row is one guarded [UPDATE]: the guard and the new values are
    in one statement, so PostgreSQL runs it as one step.  Here each is a function from a row to the
    row after it, [None] when the [WHERE] clause does not match; [OpE] collects the statements and
    transactions of the repository with the type of their answer, [handle] runs one on the store, and
    [prog] sequences those that the source runs as separate transactions.

    A row keeps the columns these statements read or write, grouped as the table's own comment groups
    them; a column that is [NULL] is [None], and a comparison with [NULL] is false.  A field of the
    [snapshot] document is compared as text only when it is a string: the values it is compared with
    are names and identifiers, which no number, boolean or document reads as. *)

From stdpp Require Import relations.
From S2P Require Import Prelude JsNumber JsString Enums.
From S2P Require MediaOperation EditOperation RenderAdmission StudioRenderProgress.
Import Status.
Local Open Scope Z_scope.

Abbreviation MediaOperationKind := Kind.MediaOperationKind.
Abbreviation MediaOperationDestination := RenderAdmission.MediaOperationDestination.
Abbreviation CLAIMED_MEDIA_OPERATION_STATUSES := MediaOperation.CLAIMED_MEDIA_OPERATION_STATUSES.
Abbreviation TERMINAL_MEDIA_OPERATION_STATUSES := MediaOperation.TERMINAL_MEDIA_OPERATION_STATUSES.
#[local] Existing Instance RenderAdmission.MediaOperationDestination_eq_dec.
#[local] Existing Instance StudioRenderProgress.StudioRenderStage_eq_dec.

(** ** The row *)

(** Written once, when the job is submitted. *)
Record Request := mkRequest {
  ownerId : string;
  kind : MediaOperationKind;
  destination : MediaOperationDestination;
  assetId : option string;
  retryOfId : option string;
  revisionId : option string;
  snapshot : json;
  createdAt : Z
}.

(** The lease. *)
Record Claim := mkClaim {
  claimToken : option string;
  claimedBy : option string;
  claimExpiresAt : option Z;
  heartbeatAt : option Z
}.

Record Stop := mkStop {
  cancelRequestedAt : option Z;
  cancelAcknowledgedAt : option Z;
  pauseRequestedAt : option Z
}.

Record Tries := mkTries { attempt : Z; autoRetries : Z; retryAt : option Z }.

Record Work := mkWork {
  result : option json;
  progress : jsnum;
  processedUnits : Z;
  totalUnits : option Z
}.

Record Outcome := mkOutcome {
  resultAssetId : option string;
  error : option string;
  errorCode : option string;
  startedAt : option Z;
  finishedAt : option Z;
  dismissedAt : option Z
}.

Record Remote := mkRemote { remoteJobId : option string; remoteReleasedAt : option Z }.

Record Row := mkRow {
  request : Request;
  status : MediaOperationStatus;
  claim : Claim;
  stop : Stop;
  tries : Tries;
  work : Work;
  outcome : Outcome;
  remote : Remote;
  updatedAt : Z
}.

(** [now()], when the transaction began, and [clock_timestamp()], when the statement runs. *)
Record Times := mkTimes { now : Z; clock : Z }.

Definition set_status (x : MediaOperationStatus) (r : Row) : Row :=
  mkRow (request r) x (claim r) (stop r) (tries r) (work r) (outcome r) (remote r) (updatedAt r).
Definition set_claim (x : Claim) (r : Row) : Row :=
  mkRow (request r) (status r) x (stop r) (tries r) (work r) (outcome r) (remote r) (updatedAt r).
Definition set_stop (x : Stop) (r : Row) : Row :=
  mkRow (request r) (status r) (claim r) x (tries r) (work r) (outcome r) (remote r) (updatedAt r).
Definition set_tries (x : Tries) (r : Row) : Row :=
  mkRow (request r) (status r) (claim r) (stop r) x (work r) (outcome r) (remote r) (updatedAt r).
Definition set_work (x : Work) (r : Row) : Row :=
  mkRow (request r) (status r) (claim r) (stop r) (tries r) x (outcome r) (remote r) (updatedAt r).
Definition set_outcome (x : Outcome) (r : Row) : Row :=
  mkRow (request r) (status r) (claim r) (stop r) (tries r) (work r) x (remote r) (updatedAt r).
Definition set_remote (x : Remote) (r : Row) : Row :=
  mkRow (request r) (status r) (claim r) (stop r) (tries r) (work r) (outcome r) x (updatedAt r).
(** The [updated_at] trigger. *)
Definition touch (t : Times) (r : Row) : Row :=
  mkRow (request r) (status r) (claim r) (stop r) (tries r) (work r) (outcome r) (remote r) (clock t).

(** ** Guards *)

(** [UPDATE ... SET r' WHERE b]. *)
Definition when (b : bool) (r' : Row) : option Row := if b then Some r' else None.

Definition is_null {A} (x : option A) : bool := match x with None => true | Some _ => false end.
(** [x > c] and [x < c] on a nullable column. *)
Definition later (x : option Z) (c : Z) : bool := match x with Some v => c <? v | None => false end.
Definition earlier (x : option Z) (c : Z) : bool := match x with Some v => v <? c | None => false end.

Definition holds (token : string) (r : Row) : bool := bool_decide (claimToken (claim r) = Some token).
Definition status_in (l : list MediaOperationStatus) (r : Row) : bool := includes (status r) l.
Definition unfinished (r : Row) : bool := negb (status_in TERMINAL_MEDIA_OPERATION_STATUSES r).

Definition WORKING_STATUSES : list MediaOperationStatus := [Preparing; Rendering; Validating].
Definition PROGRESS_FROM (reported : MediaOperationStatus) : option (list MediaOperationStatus) :=
  match reported with
  | Preparing => Some [Preparing]
  | Rendering => Some [Preparing; Rendering]
  | Validating => Some [Preparing; Rendering; Validating]
  | _ => None
  end.
Definition UNCLAIMED_STATUSES : list MediaOperationStatus := [Queued; Paused].

Definition nowPlus (t : Times) (ms : Z) : Z := now t + ms.

Definition pausedIfRequested (r : Row) : MediaOperationStatus :=
  if is_null (pauseRequestedAt (stop r)) then Queued else Paused.

Definition safeAutomaticReplay (r : Row) : bool :=
  includes (kind (request r)) MediaOperation.SAFE_MEDIA_OPERATION_REPLAY_KINDS &&
  bool_decide (destination (request r) = RenderAdmission.DestLocal) && is_null (remoteJobId (remote r)).

(** [snapshot->>'key']. *)
Definition snapshot_text (key : string) (r : Row) : option string := as_string (json_get (snapshot (request r)) key).

Definition notJobQueueExecuted (r : Row) : bool :=
  negb (bool_decide (default "" (snapshot_text "executor" r) = EditOperation.JOB_QUEUE_EXECUTOR))%string.
Definition executor_is_job_queue (r : Row) : bool :=
  bool_decide (snapshot_text "executor" r = Some EditOperation.JOB_QUEUE_EXECUTOR).

(** The lease predicate some callers ask for: unexpired, and neither a cancel nor a pause asked for. *)
Definition active_claim (t : Times) (r : Row) : bool :=
  later (claimExpiresAt (claim r)) (clock t) && is_null (cancelRequestedAt (stop r)) &&
  is_null (pauseRequestedAt (stop r)).

(** ** The claim lifecycle *)

Record ClaimOptions := mkClaimOptions {
  kinds : list MediaOperationKind;
  workerId : string;
  leaseMs : Z;
  holdBack : option (list MediaOperationKind * list string);
  snapshotKinds : option (list string);
  snapshotWorkloads : option (list string)
}.

(** The two optional parts of [holdBack], as [claimNext] keeps them. *)
Definition held_back (o : ClaimOptions) (r : Row) : bool :=
  match holdBack o with
  | Some (ks, ids) =>
      (0 <? length ks)%nat && (0 <? length ids)%nat &&
      includes (kind (request r)) ks && includes (default "" (snapshot_text "destinationId" r))%string ids
  | None => false
  end.

Definition named_in (names : option (list string)) (key : string) (r : Row) : bool :=
  match names with
  | Some ((_ :: _) as l) => match snapshot_text key r with Some v => includes v l | None => false end
  | _ => true
  end.

Definition due (t : Times) (r : Row) : bool :=
  match retryAt (tries r) with Some at_ => at_ <=? now t | None => true end.

(** The rows [claimNext] chooses from. *)
Definition claimable (o : ClaimOptions) (t : Times) (r : Row) : bool :=
  bool_decide (status r = Queued) && includes (kind (request r)) (kinds o) &&
  is_null (cancelRequestedAt (stop r)) && notJobQueueExecuted r && due t r && negb (held_back o r) &&
  named_in (snapshotKinds o) "kind" r && named_in (snapshotWorkloads o) "workload" r.

Definition taken (worker token : string) (lease : Z) (t : Times) (r : Row) : Row :=
  let x := outcome r in
  set_status Preparing
    (set_claim (mkClaim (Some token) (Some worker) (Some (nowPlus t lease)) (Some (now t)))
      (set_tries (mkTries (attempt (tries r) + 1) (autoRetries (tries r)) None)
        (set_outcome (mkOutcome (resultAssetId x) (error x) (errorCode x)
                        (Some (default (now t) (startedAt x))) (finishedAt x) (dismissedAt x)) r))).

Definition beginJobQueueRun (token : string) (lease : Z) (t : Times) (r : Row) : option Row :=
  when (bool_decide (status r = Queued) &&
        bool_decide (claimedBy (claim r) = Some EditOperation.JOB_QUEUE_CLAIMANT) &&
        is_null (cancelRequestedAt (stop r)) && executor_is_job_queue r)
    (taken EditOperation.JOB_QUEUE_CLAIMANT token lease t r).

Definition same_or_null (x : option string) (v : string) : bool :=
  match x with Some y => bool_decide (y = v) | None => true end.

Definition setRemoteJobId (token job : string) (r : Row) : option Row :=
  when (holds token r && status_in CLAIMED_MEDIA_OPERATION_STATUSES r && same_or_null (remoteJobId (remote r)) job)
    (set_remote (mkRemote (Some job) (remoteReleasedAt (remote r))) r).

(** The lease extended, and the worker seen alive. *)
Definition extended (t : Times) (lease : Z) (r : Row) : Row :=
  set_claim (mkClaim (claimToken (claim r)) (claimedBy (claim r)) (Some (nowPlus t lease)) (Some (now t))) r.
Definition seen (t : Times) (r : Row) : Row :=
  set_claim (mkClaim (claimToken (claim r)) (claimedBy (claim r)) (claimExpiresAt (claim r)) (Some (now t))) r.

Definition heartbeat (token : string) (lease : Z) (requireActiveClaim : bool) (t : Times) (r : Row) : option Row :=
  when (holds token r && later (claimExpiresAt (claim r)) (clock t) &&
        (negb requireActiveClaim ||
         (is_null (cancelRequestedAt (stop r)) && is_null (pauseRequestedAt (stop r)))) &&
        status_in CLAIMED_MEDIA_OPERATION_STATUSES r)
    (extended t lease r).

Record ProgressPatch := mkPatch {
  patch_status : MediaOperationStatus;
  patch_processedUnits : Z;
  patch_totalUnits : option Z;
  patch_progress : jsnum;
  (** A Studio render's report, with the server's [Date.now()]. *)
  studioRender : option (StudioRenderProgress.StudioRenderReport * Z)
}.

(** The result with the advanced measurement in it; [None] when the report is refused. *)
Definition render_result (patch : ProgressPatch) (r : Row) : option (option json) :=
  match studioRender patch with
  | None => Some (result (work r))
  | Some (report, date_now) =>
      if negb (bool_decide (kind (request r) = Kind.StudioExport)) ||
         negb (Bool.eqb (bool_decide (patch_status patch = Preparing))
                 (bool_decide (StudioRenderProgress.report_stage report = StudioRenderProgress.preparing))) then None
      else
        match StudioRenderProgress.advanceStudioRenderProgress
                (result (work r) ≫= fun v => json_get v "studioRenderProgress") (attempt (tries r)) report
                (patch_processedUnits patch) (patch_totalUnits patch) date_now with
        | Some m => Some (Some (JObj (obj_set (match result (work r) with Some (JObj fs) => fs | _ => [] end)
                                        "studioRenderProgress" (StudioRenderProgress.measurement_json m))))
        | None => None
        end
  end.

Definition reportProgress (token : string) (patch : ProgressPatch) (t : Times) (r : Row) : option Row :=
  match PROGRESS_FROM (patch_status patch) with
  | None => None
  | Some from =>
      match render_result patch r with
      | None => None
      | Some res =>
          when (holds token r && status_in from r && (is_null (studioRender patch) || active_claim t r))
            (set_status (patch_status patch)
              (set_work (mkWork res (patch_progress patch) (patch_processedUnits patch) (patch_totalUnits patch))
                (seen t r)))
      end
  end.

(** [jsonb_set(coalesce(result, '{}'), '{backupTransfer}', transfer)]: on a document that is not an object the
    statement raises, and changes nothing. *)
Definition setBackupTransfer (token : string) (transfer : json) (t : Times) (r : Row) : option Row :=
  let w := work r in
  match match result w with None => Some [] | Some (JObj fs) => Some fs | Some _ => None end with
  | Some fs =>
      when (holds token r && active_claim t r && bool_decide (status r = Rendering))
        (set_work (mkWork (Some (JObj (obj_set fs "backupTransfer" transfer))) (progress w) (processedUnits w) (totalUnits w)) r)
  | None => None
  end.

(** [coalesce(result, '{}') || patch], the patch an object: fields replace fields, an array takes it as its
    last element, any other value becomes an array with it. *)
Definition merged_result (fields : list (string * json)) (v : option json) : json :=
  match v with
  | None => JObj fields
  | Some (JObj fs) => JObj (foldl (fun fs kv => obj_set fs kv.1 kv.2) fs fields)
  | Some (JArr l) => JArr (l ++ [JObj fields])
  | Some v => JArr [v; JObj fields]
  end.
(** [coalesce((result->>'negotiation')::int, 0)]; what the cast does not take raises, and so changes nothing. *)
Definition negotiation_round (r : Row) : option Z :=
  match result (work r) ≫= fun v => json_get v "negotiation" with
  | None | Some JNull => Some 0
  | Some (JNum (JInt n)) => Some n
  | Some _ => None
  end.
Definition mergeStreamSignal (fields : list (string * json)) (negotiation : option Z) (r : Row) : option Row :=
  let w := work r in
  when (bool_decide (kind (request r) = Kind.StudioPreviewStream) && unfinished r &&
        match negotiation with Some n => bool_decide (negotiation_round r = Some n) | None => true end)
    (set_work (mkWork (Some (merged_result fields (result w))) (progress w) (processedUnits w) (totalUnits w)) r).

Record BulkPatch := mkBulkPatch {
  bulk_result : json;
  bulk_processedUnits : Z;
  bulk_totalUnits : Z;
  bulk_progress : jsnum;
  bulk_leaseMs : Z
}.

Definition setBulkResult (token : string) (patch : BulkPatch) (requireActiveClaim : bool) (t : Times) (r : Row)
  : option Row :=
  when (holds token r && later (claimExpiresAt (claim r)) (clock t) &&
        status_in CLAIMED_MEDIA_OPERATION_STATUSES r &&
        (negb requireActiveClaim ||
         (bool_decide (status r = Rendering) && is_null (cancelRequestedAt (stop r)) &&
          is_null (pauseRequestedAt (stop r)))))
    (set_work (mkWork (Some (bulk_result patch)) (bulk_progress patch) (bulk_processedUnits patch)
                 (Some (bulk_totalUnits patch)))
      (extended t (bulk_leaseMs patch) r)).

Record CompleteResult := mkComplete {
  complete_resultAssetId : option string;
  complete_progress : option jsnum;
  complete_result : option json
}.

(** [publishable owner asset]: the asset exists, is the owner's and is not deleted. *)
Definition complete (publishable : string -> string -> bool) (token : string) (c : CompleteResult)
    (requireActiveClaim : bool) (t : Times) (r : Row) : option Row :=
  let x := outcome r in
  let w := work r in
  when (holds token r && bool_decide (status r = Validating) && (negb requireActiveClaim || active_claim t r) &&
        match complete_resultAssetId c with Some a => publishable (ownerId (request r)) a | None => true end)
    (set_status Completed
      (set_work (mkWork (match complete_result c with Some v => Some v | None => result w end)
                   (default (JInt 100) (complete_progress c)) (processedUnits w) (totalUnits w))
        (set_outcome (mkOutcome (complete_resultAssetId c) None None (startedAt x) (Some (now t)) (dismissedAt x))
          (set_claim (mkClaim None (claimedBy (claim r)) None (heartbeatAt (claim r)))
            (set_stop (mkStop (cancelRequestedAt (stop r)) (cancelAcknowledgedAt (stop r)) None) r))))).

(** What [publishValidated] locks the row under. *)
Definition held_validating (token : string) (r : Row) : bool :=
  holds token r && bool_decide (status r = Validating).

Definition beginValidation (token : string) (requireActiveClaim : bool) (t : Times) (r : Row) : option Row :=
  when (holds token r && status_in [Preparing; Rendering] r && (negb requireActiveClaim || active_claim t r))
    (set_status Validating (seen t r)).

Record Failure := mkFailure { failure_error : string; failure_code : string }.

(** The claim let go. *)
Definition released (r : Row) : Claim := mkClaim None None None (heartbeatAt (claim r)).

(** Back to the queue (or held, when a pause was asked for) for the automatic retry. *)
Definition retried (failure : Failure) (t : Times) (r : Row) : Row :=
  let x := outcome r in
  set_status (pausedIfRequested r)
    (set_outcome (mkOutcome (resultAssetId x) (Some (failure_error failure)) (Some (failure_code failure))
                    (startedAt x) (finishedAt x) (dismissedAt x))
      (set_tries (mkTries (attempt (tries r)) (autoRetries (tries r) + 1)
                    (Some (nowPlus t MediaOperation.MEDIA_OPERATION_AUTO_RETRY_DELAY_MS)))
        (set_claim (released r) r))).

(** The first and the second statement of [fail]. *)
Definition fail_retry (token : string) (failure : Failure) (resumable requireActiveClaim : bool) (t : Times) (r : Row)
  : option Row :=
  when (holds token r && (negb requireActiveClaim ||
          (later (claimExpiresAt (claim r)) (clock t) && is_null (cancelRequestedAt (stop r)))) &&
        status_in WORKING_STATUSES r && is_null (cancelRequestedAt (stop r)) &&
        (resumable || safeAutomaticReplay r) && (autoRetries (tries r) <? MediaOperation.MEDIA_OPERATION_AUTO_RETRIES))
    (retried failure t r).

Definition fail_final (token : string) (failure : Failure) (requireActiveClaim : bool) (t : Times) (r : Row)
  : option Row :=
  let x := outcome r in
  when (holds token r && (negb requireActiveClaim ||
          (later (claimExpiresAt (claim r)) (clock t) && is_null (cancelRequestedAt (stop r)))) && unfinished r)
    (set_status Failed
      (set_outcome (mkOutcome (resultAssetId x) (Some (failure_error failure)) (Some (failure_code failure))
                      (startedAt x) (Some (now t)) (dismissedAt x))
        (set_tries (mkTries (attempt (tries r)) (autoRetries (tries r)) None)
          (set_claim (mkClaim None (claimedBy (claim r)) None (heartbeatAt (claim r)))
            (set_stop (mkStop (cancelRequestedAt (stop r)) (cancelAcknowledgedAt (stop r)) None) r))))).

Definition requeue (token : string) (delayMs : Z) (returnAttempt requireActiveClaim : bool) (t : Times) (r : Row)
  : option Row :=
  when (holds token r && (negb requireActiveClaim ||
          (later (claimExpiresAt (claim r)) (clock t) && is_null (cancelRequestedAt (stop r)))) &&
        status_in WORKING_STATUSES r && is_null (cancelRequestedAt (stop r)))
    (set_status (pausedIfRequested r)
      (set_tries (mkTries (if returnAttempt then Z.max (attempt (tries r) - 1) 0 else attempt (tries r))
                    (autoRetries (tries r)) (Some (nowPlus t delayMs)))
        (set_claim (released r) r))).

(** ** Cancellation *)

Definition requestCancel (owner : string) (token : option string) (queuedOnly : bool) (t : Times) (r : Row)
  : option Row :=
  let x := outcome r in
  let idle := status_in UNCLAIMED_STATUSES r in
  when (bool_decide (ownerId (request r) = owner) &&
        match token with Some v => holds v r | None => true end &&
        (negb queuedOnly || (bool_decide (status r = Queued) && is_null (claimToken (claim r)))) && unfinished r)
    (set_status (if idle then Cancelled else Cancelling)
      (set_stop (mkStop (Some (default (now t) (cancelRequestedAt (stop r))))
                   (if idle then Some (now t) else cancelAcknowledgedAt (stop r)) None)
        (set_outcome (mkOutcome (resultAssetId x) (error x) (errorCode x) (startedAt x)
                        (if idle then Some (now t) else finishedAt x) (dismissedAt x))
          (set_claim (mkClaim (if idle then None else claimToken (claim r)) (claimedBy (claim r))
                        (if idle then None else claimExpiresAt (claim r)) (heartbeatAt (claim r))) r)))).

(** [preview_fence]: the rows of [studio_preview_frame] let this scoped preview's cancel be
    acknowledged; every other kind needs no such row. *)
Definition acknowledgeCancel (preview_fence : Row -> Z -> bool) (token : string) (released_ requireActiveClaim : bool)
    (t : Times) (r : Row) : option Row :=
  let x := outcome r in
  when (holds token r && (negb requireActiveClaim || later (claimExpiresAt (claim r)) (clock t)) &&
        bool_decide (status r = Cancelling) &&
        (negb (bool_decide (kind (request r) = Kind.StudioPreview)) || preview_fence r (clock t)))
    (set_status Cancelled
      (set_stop (mkStop (cancelRequestedAt (stop r)) (Some (now t)) (pauseRequestedAt (stop r)))
        (set_outcome (mkOutcome (resultAssetId x) (error x) (errorCode x) (startedAt x)
                        (Some (default (now t) (finishedAt x))) (dismissedAt x))
          (set_remote (mkRemote (remoteJobId (remote r))
                         (if released_ then Some (now t) else remoteReleasedAt (remote r)))
            (set_claim (released r) r))))).

Definition recordRemoteJobId (job : string) (r : Row) : option Row :=
  when (same_or_null (remoteJobId (remote r)) job) (set_remote (mkRemote (Some job) (remoteReleasedAt (remote r))) r).

Definition markRemoteReleased (t : Times) (r : Row) : option Row :=
  Some (set_remote (mkRemote (remoteJobId (remote r)) (Some (now t))) r).

(** Cancelled or failed remote jobs, and completed cloud batches, whose remote work is not confirmed gone. *)
Definition unreleasedRemote (wanted : option (list MediaOperationKind)) (r : Row) : bool :=
  negb (is_null (remoteJobId (remote r))) && is_null (remoteReleasedAt (remote r)) &&
  match wanted with Some l => includes (kind (request r)) l | None => true end &&
  (status_in [Cancelling; Cancelled] r || bool_decide (status r = Failed) ||
   (bool_decide (status r = Completed) &&
    includes (kind (request r)) [Kind.CloudDescriptionBatch; Kind.CloudLibraryBatch])).

(** ** Pause and resume *)

Definition requestPause (owner : string) (ks : list MediaOperationKind) (t : Times) (r : Row) : option Row :=
  when (bool_decide (ownerId (request r) = owner) && includes (kind (request r)) ks &&
        status_in MediaOperation.PAUSABLE_MEDIA_OPERATION_STATUSES r && is_null (cancelRequestedAt (stop r)))
    (set_status (if bool_decide (status r = Queued) then Paused else status r)
      (set_stop (mkStop (cancelRequestedAt (stop r)) (cancelAcknowledgedAt (stop r))
                   (Some (default (now t) (pauseRequestedAt (stop r))))) r)).

Definition resume (owner : string) (t : Times) (r : Row) : option Row :=
  when (bool_decide (ownerId (request r) = owner) && is_null (cancelRequestedAt (stop r)) &&
        (bool_decide (status r = Paused) ||
         (negb (is_null (pauseRequestedAt (stop r))) && status_in WORKING_STATUSES r)))
    (set_status (if bool_decide (status r = Paused) then Queued else status r)
      (set_stop (mkStop (cancelRequestedAt (stop r)) (cancelAcknowledgedAt (stop r)) None) r)).

Definition settlePause (token : string) (t : Times) (r : Row) : option Row :=
  when (holds token r && status_in [Preparing; Rendering] r && negb (is_null (pauseRequestedAt (stop r))) &&
        is_null (cancelRequestedAt (stop r)))
    (set_status Paused
      (set_tries (mkTries (Z.max (attempt (tries r) - 1) 0) (autoRetries (tries r)) (retryAt (tries r)))
        (set_claim (released r) r))).

Definition dismiss (owner : string) (t : Times) (r : Row) : option Row :=
  let x := outcome r in
  when (bool_decide (ownerId (request r) = owner) && status_in TERMINAL_MEDIA_OPERATION_STATUSES r &&
        is_null (dismissedAt x))
    (set_outcome (mkOutcome (resultAssetId x) (error x) (errorCode x) (startedAt x) (finishedAt x) (Some (now t))) r).

Definition setFinishedResult (v : json) (r : Row) : option Row :=
  when (status_in TERMINAL_MEDIA_OPERATION_STATUSES r)
    (set_work (mkWork (Some v) (progress (work r)) (processedUnits (work r)) (totalUnits (work r))) r).

(** ** Recovery *)

(** A claim whose lease has lapsed and whose execution the job queue no longer owns; [active_job] says
    that an active job of the queue names the row. *)
Definition executionOwnerSettled (active_job : string -> bool) (id : string) (r : Row) : bool :=
  negb (bool_decide (claimedBy (claim r) = Some EditOperation.JOB_QUEUE_CLAIMANT)) || negb (active_job id).
Definition lapsed (active_job : string -> bool) (t : Times) (id : string) (r : Row) : bool :=
  earlier (claimExpiresAt (claim r)) (now t) && executionOwnerSettled active_job id r.

(** The four statements of [recoverExpiredClaims]. *)
Definition recover_paused (active_job : string -> bool) (t : Times) (id : string) (r : Row) : option Row :=
  when (status_in WORKING_STATUSES r && lapsed active_job t id r && negb (is_null (pauseRequestedAt (stop r))) &&
        is_null (cancelRequestedAt (stop r)))
    (set_status Paused (set_claim (released r) r)).

Definition recover_retried (failure : Failure) (active_job : string -> bool) (t : Times) (id : string) (r : Row)
  : option Row :=
  when (status_in CLAIMED_MEDIA_OPERATION_STATUSES r && lapsed active_job t id r && safeAutomaticReplay r &&
        (autoRetries (tries r) <? MediaOperation.MEDIA_OPERATION_AUTO_RETRIES) && is_null (cancelRequestedAt (stop r)))
    (retried failure t r).

Definition recover_failed (failure : Failure) (active_job : string -> bool) (t : Times) (id : string) (r : Row)
  : option Row :=
  let x := outcome r in
  when (status_in CLAIMED_MEDIA_OPERATION_STATUSES r && lapsed active_job t id r &&
        ((MediaOperation.MEDIA_OPERATION_AUTO_RETRIES <=? autoRetries (tries r)) || negb (safeAutomaticReplay r)) &&
        is_null (cancelRequestedAt (stop r)))
    (set_status Failed
      (set_outcome (mkOutcome (resultAssetId x) (Some (failure_error failure)) (Some (failure_code failure))
                      (startedAt x) (Some (now t)) (dismissedAt x))
        (set_claim (released r) r))).

Definition recover_cancelled (active_job : string -> bool) (t : Times) (id : string) (r : Row) : option Row :=
  let x := outcome r in
  when (status_in CLAIMED_MEDIA_OPERATION_STATUSES r && lapsed active_job t id r &&
        negb (is_null (cancelRequestedAt (stop r))))
    (set_status Cancelled
      (set_outcome (mkOutcome (resultAssetId x) (error x) (errorCode x) (startedAt x)
                      (Some (default (now t) (finishedAt x))) (dismissedAt x))
        (set_claim (released r) r))).

(** ** Job-queue edits *)

(** What the job queue's own [fail] ([server/src/queue/store.ts]) writes to the operation of a job it
    fences: failed when nobody saw its executor stop, else left for recovery with its lease over. *)
Definition claimed_by_queue (r : Row) : bool :=
  bool_decide (claimedBy (claim r) = Some EditOperation.JOB_QUEUE_CLAIMANT) && negb (is_null (claimToken (claim r))).

Definition stopUnconfirmed (reason : string) (t : Times) (r : Row) : option Row :=
  let x := outcome r in
  let w := work r in
  when (claimed_by_queue r)
    (set_status Failed
      (set_outcome (mkOutcome (resultAssetId x) (Some reason) (Some "executor_stop_unconfirmed"%string) (startedAt x)
                      (Some (now t)) (dismissedAt x))
        (set_work (mkWork (Some (JObj (obj_set match result w with Some (JObj fs) => fs | _ => [] end
                                         "status" (JStr "needs_attention"))))
                     (progress w) (processedUnits w) (totalUnits w))
          (set_claim (released r) r)))).

Definition expireClaim (t : Times) (r : Row) : option Row :=
  when (claimed_by_queue r)
    (set_claim (mkClaim (claimToken (claim r)) (claimedBy (claim r)) (Some (now t)) (heartbeatAt (claim r))) r).

(** The rows [claimJobQueueDispatch] puts back on the job queue. *)
Definition dispatchable (staleMs : Z) (t : Times) (r : Row) : bool :=
  bool_decide (status r = Queued) && is_null (cancelRequestedAt (stop r)) && executor_is_job_queue r &&
  ((is_null (claimedBy (claim r)) && due t r) ||
   (bool_decide (claimedBy (claim r) = Some EditOperation.JOB_QUEUE_CLAIMANT) &&
    (updatedAt r <? nowPlus t (- staleMs)))).

Definition set_claimedBy (who : option string) (r : Row) : Row :=
  set_claim (mkClaim (claimToken (claim r)) who (claimExpiresAt (claim r)) (heartbeatAt (claim r))) r.

Definition releaseJobQueueDispatch (r : Row) : option Row :=
  when (bool_decide (status r = Queued) && bool_decide (claimedBy (claim r) = Some EditOperation.JOB_QUEUE_CLAIMANT))
    (set_claimedBy None r).

(** ** Checkpoints *)

(** A chunk as it is planned. *)
Record Chunk := mkChunk {
  sequence : Z;
  chunkKey : string;
  inputDigest : string;
  historyDigest : string;
  configDigest : string;
  seed : option string;
  timebase : string;
  startTicks : Z;
  endTicks : Z;
  prerollTicks : Z;
  requiresSequentialContext : bool
}.

Record Checkpoint := mkCheckpoint {
  chunk : Chunk;
  state : Checkpoint.MediaOperationCheckpointState;
  checkpoint_token : string;
  checkpoint_attempt : Z;
  outputPath : option string;
  outputChecksum : option string;
  sizeInBytes : option Z;
  subtitlePath : option string;
  completedAt : option Z
}.

(** ** The store *)

Record Store := mkStore {
  rows : gmap string Row;
  (** By operation and sequence, which are unique together. *)
  checkpoints : gmap (string * Z) Checkpoint
}.

Definition set_rows (m : gmap string Row) (s : Store) : Store := mkStore m (checkpoints s).
Definition set_checkpoints (m : gmap (string * Z) Checkpoint) (s : Store) : Store := mkStore (rows s) m.

(** [UPDATE media_operation ... WHERE id = id AND ... RETURNING *]. *)
Definition update_row (t : Times) (id : string) (f : Row -> option Row) (s : Store) : option Row * Store :=
  match rows s !! id ≫= f with
  | Some r => (Some (touch t r), set_rows (<[id := touch t r]> (rows s)) s)
  | None => (None, s)
  end.

(** The same over every row; the answer is the rows changed. *)
Definition update_rows (t : Times) (f : string -> Row -> option Row) (s : Store) : list string * Store :=
  (omap (fun kr => match f kr.1 kr.2 with Some _ => Some kr.1 | None => None end) (map_to_list (rows s)),
   set_rows (map_imap (fun id r => Some (match f id r with Some r' => touch t r' | None => r end)) (rows s)) s).

(** The row an [INSERT] makes: the columns given, and the defaults of the table for the rest. *)
Record MediaOperationCreate := mkCreate {
  create_request : Request;
  create_claimedBy : option string;
  create_result : option json;
  create_totalUnits : option Z
}.

Definition inserted (c : MediaOperationCreate) (t : Times) : Row :=
  mkRow (create_request c) Queued (mkClaim None (create_claimedBy c) None None) (mkStop None None None)
    (mkTries 0 0 None) (mkWork (create_result c) (JInt 0) 0 (create_totalUnits c))
    (mkOutcome None None None None None None) (mkRemote None None) (now t).

(** A primary key that exists, or a second unfinished retry of one job, fails the [INSERT]. *)
Definition insert_row (id : string) (c : MediaOperationCreate) (t : Times) (s : Store) : option (Store) :=
  if bool_decide (is_Some (rows s !! id)) then None
  else
    match retryOfId (create_request c) with
    | Some of_ =>
        if existsb (fun kr => unfinished kr.2 && bool_decide (retryOfId (request kr.2) = Some of_)) (map_to_list (rows s))
        then None else Some (set_rows (<[id := inserted c t]> (rows s)) s)
    | None => Some (set_rows (<[id := inserted c t]> (rows s)) s)
    end.

(** An unfinished job the new one may not run beside: any of the kinds, or one of the same kind whose
    snapshot names the same subject. *)
Definition active_of_kinds (ks : list MediaOperationKind) (r : Row) : bool :=
  includes (kind (request r)) ks && unfinished r.
Definition active_of_subject (k : MediaOperationKind) (key v : string) (r : Row) : bool :=
  bool_decide (kind (request r) = k) && bool_decide (snapshot_text key r = Some v) && unfinished r.

(** The oldest row that satisfies [p] ([ORDER BY "createdAt" LIMIT 1]); [id] names it. *)
Definition oldest (p : string -> Row -> bool) (m : gmap string Row) (id : string) : bool :=
  match m !! id with
  | Some r => p id r && forallb (fun kr => negb (p kr.1 kr.2) || (createdAt (request r) <=? createdAt (request kr.2)))
                          (map_to_list m)
  | None => false
  end.

(** [createExclusive] and [createUnlessActive]: the look and the insert are under one advisory lock. *)
Definition create_unless (p : Row -> bool) (id : string) (c : MediaOperationCreate) (t : Times) (s : Store)
  : bool * Store :=
  if existsb (fun kr => p kr.2) (map_to_list (rows s)) then (false, s)
  else match insert_row id c t s with Some s' => (true, s') | None => (false, s) end.

Definition lockClaim (token : string) (requireActive : bool) (t : Times) (r : Row) : bool :=
  holds token r && (negb requireActive || active_claim t r) && status_in CLAIMED_MEDIA_OPERATION_STATUSES r.
Definition claim_locked (id token : string) (requireActive : bool) (t : Times) (s : Store) : bool :=
  match rows s !! id with Some r => lockClaim token requireActive t r | None => false end.

(** Re-planning a sequence replaces its identity and clears it. A paired (subtitled) chunk is replaced
    only when the caller retires its files. *)
Definition upsertCheckpoint (id token : string) (c : Chunk) (retires : bool) (t : Times) (s : Store)
  : option bool * Store :=
  if negb (claim_locked id token false t s) then (Some false, s)
  else
    let previous := checkpoints s !! (id, sequence c) in
    if match previous with Some x => negb (is_null (subtitlePath x)) && negb retires | None => false end
    then (None, s)
    else
      let tried := match previous with Some x => checkpoint_attempt x + 1 | None => 0 end in
      (Some true, set_checkpoints (<[(id, sequence c) :=
         mkCheckpoint c Checkpoint.Pending token tried None None None None None]> (checkpoints s)) s).

Record Rendered := mkRendered {
  rendered_sequence : Z;
  rendered_chunkKey : string;
  rendered_outputPath : string;
  rendered_outputChecksum : string;
  rendered_sizeInBytes : Z
}.

Definition completed_checkpoint (token : string) (c : Rendered) (verified : bool) (t : Times) (x : Checkpoint)
  : option Checkpoint :=
  if bool_decide (chunkKey (chunk x) = rendered_chunkKey c) && bool_decide (checkpoint_token x = token) &&
     negb (bool_decide (state x = Checkpoint.Invalid)) &&
     (negb verified || bool_decide (state x = Checkpoint.Pending))
  then Some (mkCheckpoint (chunk x) Checkpoint.Complete (checkpoint_token x) (checkpoint_attempt x)
               (Some (rendered_outputPath c)) (Some (rendered_outputChecksum c)) (Some (rendered_sizeInBytes c))
               (subtitlePath x) (Some (now t)))
  else None.

Definition completeCheckpoint (id token : string) (c : Rendered) (verified : bool) (t : Times) (s : Store)
  : bool * Store :=
  if negb (claim_locked id token verified t s) then (false, s)
  else
    match checkpoints s !! (id, rendered_sequence c) ≫= completed_checkpoint token c verified t with
    | Some x => (true, set_checkpoints (<[(id, rendered_sequence c) := x]> (checkpoints s)) s)
    | None => (false, s)
    end.

Definition invalidate (x : Checkpoint) : Checkpoint :=
  mkCheckpoint (chunk x) Checkpoint.Invalid (checkpoint_token x) (checkpoint_attempt x) (outputPath x)
    (outputChecksum x) (sizeInBytes x) (subtitlePath x) (completedAt x).

Definition invalidateCheckpointsFrom (id token : string) (from : Z) (t : Times) (s : Store) : bool * Store :=
  if negb (claim_locked id token false t s) then (false, s)
  else (true, set_checkpoints (map_imap (fun k x => Some (if bool_decide (k.1 = id) && (from <=? k.2)
                                                          then invalidate x else x)) (checkpoints s)) s).

(** ** The statements and transactions of the repository *)

Section operations.
(** The other tables: assets a result may name, and the frames of scoped previews.  The active jobs of
    the job queue and the rows another transaction holds locked are arguments of the steps that read them. *)
Context (publishable : string -> string -> bool) (preview_fence : Row -> Z -> bool) (preview_frames : Row -> bool).

Inductive MediaOperationFailOutcome := Retrying | FailedNow | NotOurs.
Inductive Published := PublishCompleted | PublishRejected | PublishLost.
Inductive RetryCreated := RetryNew | RetryExisting (id : string) | RetryConflict.

(** One step of the database, with its answer; [Create] is also the insert of [createWithin], whose other
    writes are to other tables. *)
Inductive OpE : Type -> Type :=
| Create (id : string) (c : MediaOperationCreate) : OpE bool
| CreateExclusive (id : string) (c : MediaOperationCreate) (alsoKinds : list MediaOperationKind) : OpE bool
| CreateUnlessActive (id : string) (c : MediaOperationCreate) (key v : string) : OpE bool
| CreateRetry (id : string) (c : MediaOperationCreate) : OpE RetryCreated
| GetForWorker (id : string) : OpE (option Row)
| ClaimNext (id : string) (o : ClaimOptions) (token : string) (locked : string -> bool) : OpE (option Row)
| BeginJobQueueRun (id token : string) (lease : Z) : OpE (option Row)
| SetRemoteJobId (id token job : string) : OpE bool
| Heartbeat (id token : string) (lease : Z) (requireActiveClaim : bool) : OpE bool
| ReportProgress (id token : string) (patch : ProgressPatch) : OpE bool
| SetBackupTransfer (id token : string) (transfer : json) : OpE bool
| SetBulkResult (id token : string) (patch : BulkPatch) (requireActiveClaim : bool)
    : OpE (option (MediaOperationStatus * option Z * option Z))
| BeginValidation (id token : string) (requireActiveClaim : bool) : OpE bool
| CompleteRow (id token : string) (c : CompleteResult) (requireActiveClaim : bool) : OpE bool
| PublishValidated (id token : string) (accepts : bool) : OpE Published
| FailRetry (id token : string) (failure : Failure) (resumable requireActiveClaim : bool) : OpE bool
| FailFinal (id token : string) (failure : Failure) (requireActiveClaim : bool) : OpE bool
| Requeue (id token : string) (delayMs : Z) (returnAttempt requireActiveClaim : bool) : OpE bool
| RequestCancel (id owner : string) (token : option string) (queuedOnly : bool) : OpE (option Row)
| AcknowledgeCancel (id token : string) (released_ requireActiveClaim : bool) : OpE bool
| RecordRemoteJobId (id job : string) : OpE bool
| MarkRemoteReleased (id : string) : OpE unit
| RequestPause (id owner : string) (ks : list MediaOperationKind) : OpE (option Row)
| Resume (id owner : string) : OpE (option Row)
| SettlePause (id token : string) : OpE bool
| Dismiss (id owner : string) : OpE bool
| SetFinishedResult (id : string) (v : json) : OpE bool
| MergeStreamSignal (id : string) (fields : list (string * json)) (negotiation : option Z) : OpE (option Row)
| RecoverPaused (active_job : string -> bool) : OpE (list string)
| RecoverRetried (failure : Failure) (active_job : string -> bool) : OpE (list string)
| RecoverFailed (failure : Failure) (active_job : string -> bool) : OpE (list string)
| RecoverCancelled (active_job : string -> bool) : OpE (list string)
| ClaimJobQueueDispatch (ids : list string) (limit : nat) (staleMs : Z) (locked : string -> bool) : OpE (list Row)
| ReleaseJobQueueDispatch (ids : list string) : OpE unit
| StopUnconfirmed (id reason : string) : OpE unit
| ExpireClaim (id : string) : OpE unit
| UpsertCheckpoint (id token : string) (c : Chunk) (retires : bool) : OpE (option bool)
| CompleteCheckpoint (id token : string) (c : Rendered) (verified : bool) : OpE bool
| InvalidateCheckpointsFrom (id token : string) (from : Z) : OpE bool.

Definition updated (x : option Row * Store) : bool * Store := (negb (is_null x.1), x.2).

(** A preview frame a consumer asked for is asked for again, never retried. *)
Definition consumer_preview (owner : string) (r : Row) : bool :=
  bool_decide (ownerId (request r) = owner) && bool_decide (kind (request r) = Kind.StudioPreview) &&
  (negb (is_null (json_get (snapshot (request r)) "consumerRequestId")) || preview_frames r).

Definition retry_of (r : Row) (of_ owner : string) : bool :=
  bool_decide (retryOfId (request r) = Some of_) && bool_decide (ownerId (request r) = owner) && unfinished r.

(** The rows of [ids] that [claimJobQueueDispatch] may take: the oldest [limit] of those eligible and
    not locked. *)
Definition dispatch_choice (ids : list string) (limit : nat) (p : string -> Row -> bool) (m : gmap string Row) : bool :=
  bool_decide (NoDup ids) && (length ids <=? limit)%nat &&
  forallb (fun id => match m !! id with Some r => p id r | None => false end) ids &&
  forallb (fun kr => negb (p kr.1 kr.2) || includes kr.1 ids ||
                     ((length ids =? limit)%nat &&
                      forallb (fun id => match m !! id with
                                         | Some r => createdAt (request r) <=? createdAt (request kr.2)
                                         | None => false end) ids)) (map_to_list m).

Definition handle {A} (t : Times) (o : OpE A) (s : Store) : A * Store :=
  match o in OpE A return A * Store with
  | Create id c => match insert_row id c t s with Some s' => (true, s') | None => (false, s) end
  | CreateExclusive id c also => create_unless (active_of_kinds (kind (create_request c) :: also)) id c t s
  | CreateUnlessActive id c key v => create_unless (active_of_subject (kind (create_request c)) key v) id c t s
  | CreateRetry id c =>
      if existsb (fun kr => bool_decide (Some kr.1 = retryOfId (create_request c)) &&
                            consumer_preview (ownerId (create_request c)) kr.2) (map_to_list (rows s))
      then (RetryConflict, s)
      else match insert_row id c t s with
      | Some s' => (RetryNew, s')
      | None =>
          match retryOfId (create_request c) with
          | Some of_ =>
              match List.find (fun kr => retry_of kr.2 of_ (ownerId (create_request c))) (map_to_list (rows s)) with
              | Some kr => (RetryExisting kr.1, s)
              | None => (RetryConflict, s)
              end
          | None => (RetryConflict, s)
          end
      end
  | GetForWorker id => (rows s !! id, s)
  | ClaimNext id o token locked =>
      if oldest (fun k r => claimable o t r && negb (locked k)) (rows s) id
      then update_row t id (fun r => Some (taken (workerId o) token (leaseMs o) t r)) s
      else (None, s)
  | BeginJobQueueRun id token lease => update_row t id (beginJobQueueRun token lease t) s
  | SetRemoteJobId id token job => updated (update_row t id (setRemoteJobId token job) s)
  | Heartbeat id token lease a => updated (update_row t id (heartbeat token lease a t) s)
  | ReportProgress id token patch => updated (update_row t id (reportProgress token patch t) s)
  | SetBackupTransfer id token v => updated (update_row t id (setBackupTransfer token v t) s)
  | SetBulkResult id token patch a =>
      let x := update_row t id (setBulkResult token patch a t) s in
      ((fun r => (status r, cancelRequestedAt (stop r), pauseRequestedAt (stop r))) <$> x.1, x.2)
  | BeginValidation id token a => updated (update_row t id (beginValidation token a t) s)
  | CompleteRow id token c a => updated (update_row t id (complete publishable token c a t) s)
  | PublishValidated id token accepts =>
      match rows s !! id with
      | Some r =>
          if held_validating token r then
            if accepts
            then (PublishCompleted,
                  (update_row t id (complete publishable token (mkComplete None None None) false t) s).2)
            else (PublishRejected, s)
          else (PublishLost, s)
      | None => (PublishLost, s)
      end
  | FailRetry id token f resumable a => updated (update_row t id (fail_retry token f resumable a t) s)
  | FailFinal id token f a => updated (update_row t id (fail_final token f a t) s)
  | Requeue id token ms back a => updated (update_row t id (requeue token ms back a t) s)
  | RequestCancel id owner token q => update_row t id (requestCancel owner token q t) s
  | AcknowledgeCancel id token rel a => updated (update_row t id (acknowledgeCancel preview_fence token rel a t) s)
  | RecordRemoteJobId id job => updated (update_row t id (recordRemoteJobId job) s)
  | MarkRemoteReleased id => (tt, (update_row t id (markRemoteReleased t) s).2)
  | RequestPause id owner ks => update_row t id (requestPause owner ks t) s
  | Resume id owner => update_row t id (resume owner t) s
  | SettlePause id token => updated (update_row t id (settlePause token t) s)
  | Dismiss id owner => updated (update_row t id (dismiss owner t) s)
  | SetFinishedResult id v => updated (update_row t id (setFinishedResult v) s)
  | MergeStreamSignal id fields n => update_row t id (mergeStreamSignal fields n) s
  | RecoverPaused j => update_rows t (recover_paused j t) s
  | RecoverRetried f j => update_rows t (recover_retried f j t) s
  | RecoverFailed f j => update_rows t (recover_failed f j t) s
  | RecoverCancelled j => update_rows t (recover_cancelled j t) s
  | ClaimJobQueueDispatch ids limit stale locked =>
      if dispatch_choice ids limit (fun k r => dispatchable stale t r && negb (locked k)) (rows s)
      then let take_ id r := when (includes id ids) (set_claimedBy (Some EditOperation.JOB_QUEUE_CLAIMANT) r) in
           (omap (fun id => rows s !! id) ids, (update_rows t take_ s).2)
      else ([], s)
  | ReleaseJobQueueDispatch ids =>
      (tt, (update_rows t (fun id r => if includes id ids then releaseJobQueueDispatch r else None) s).2)
  | StopUnconfirmed id reason => (tt, (update_row t id (stopUnconfirmed reason t) s).2)
  | ExpireClaim id => (tt, (update_row t id (expireClaim t) s).2)
  | UpsertCheckpoint id token c retires => upsertCheckpoint id token c retires t s
  | CompleteCheckpoint id token c v => completeCheckpoint id token c v t s
  | InvalidateCheckpointsFrom id token from => invalidateCheckpointsFrom id token from t s
  end.

(** Several transactions in a row, each continuing on the answer of the one before. *)
Inductive prog (A : Type) : Type :=
| Ret (a : A)
| Call {B : Type} (o : OpE B) (k : B -> prog A).
Arguments Ret {A} a.
Arguments Call {A B} o k.

Fixpoint prog_bind {A B} (m : prog A) (f : A -> prog B) : prog B :=
  match m with Ret a => f a | Call o k => Call o (fun x => prog_bind (k x) f) end.

(** A failure tries the automatic retry first, unless retrying cannot help. *)
Definition fail (id token : string) (failure : Failure) (retry resumable requireActiveClaim : bool)
  : prog MediaOperationFailOutcome :=
  let report := Call (FailFinal id token failure requireActiveClaim)
                  (fun b : bool => Ret (if b then FailedNow else NotOurs)) in
  if retry then Call (FailRetry id token failure resumable requireActiveClaim)
                  (fun b : bool => if b then Ret Retrying else report)
  else report.

Record MediaOperationRecovery := mkRecovery {
  requeued_count : nat; retried_count : nat; failed_count : nat; abandonedCancels : nat; paused_count : nat
}.

Definition recoverExpiredClaims (failure : Failure) (active_job : string -> bool) : prog MediaOperationRecovery :=
  Call (RecoverPaused active_job) (fun paused =>
  Call (RecoverRetried failure active_job) (fun retried =>
  Call (RecoverFailed failure active_job) (fun failed =>
  Call (RecoverCancelled active_job) (fun cancelled =>
  Ret (mkRecovery 0 (length retried) (length failed) (length cancelled) (length paused)))))).

(** A program with nothing in between its transactions, all at one time. *)
Fixpoint run {A} (t : Times) (m : prog A) (s : Store) : A * Store :=
  match m with Ret a => (a, s) | Call o k => let x := handle t o s in run t (k x.1) x.2 end.
End operations.
Arguments Ret {A} a.
Arguments Call {A B} o k.
