(* ===== verification/OperationLease.v ===== *)
(** * The lease contract of durable operations

    The contract [MediaOperationRepository] keeps, stated without rows: a job waits, is held by one
    claim, is on hold, or has ended ([Job], [lease_step]); and that every statement of
    [OperationStore] implements it ([row_step]), keeps the rows well formed ([row_ok]) and fences a
    claim that was lost. *)

From stdpp Require Import relations.
From S2P Require Import Prelude JsNumber JsString Enums OperationStore.
From S2P Require MediaOperation EditOperation RenderAdmission StudioRenderProgress.
Import Status.
Local Open Scope Z_scope.

(** ** The contract *)

Inductive Actor :=
| ByClaim (token : string)
| ByWorker (token : string)
| ByOwner
| ByRecovery
| ByServer.

Inductive Job :=
| Waiting
| Held (token : string) (cancelling : bool)
| OnHold
| Ended (how : MediaOperationStatus).

Inductive lease_step : Actor -> Job -> Job -> Prop :=
| lease_take t : lease_step (ByClaim t) Waiting (Held t false)
| lease_release t : lease_step (ByWorker t) (Held t false) Waiting
| lease_hold t : lease_step (ByWorker t) (Held t false) OnHold
| lease_complete t : lease_step (ByWorker t) (Held t false) (Ended Completed)
| lease_fail t c : lease_step (ByWorker t) (Held t c) (Ended Failed)
| lease_stop t : lease_step (ByWorker t) (Held t true) (Ended Cancelled)
| lease_cancel t : lease_step ByOwner (Held t false) (Held t true)
| lease_cancel_waiting : lease_step ByOwner Waiting (Ended Cancelled)
| lease_cancel_hold : lease_step ByOwner OnHold (Ended Cancelled)
| lease_pause : lease_step ByOwner Waiting OnHold
| lease_resume : lease_step ByOwner OnHold Waiting
| lease_lost_retry t : lease_step ByRecovery (Held t false) Waiting
| lease_lost_hold t : lease_step ByRecovery (Held t false) OnHold
| lease_lost_fail t c : lease_step ByRecovery (Held t c) (Ended Failed)
| lease_lost_cancel t : lease_step ByRecovery (Held t true) (Ended Cancelled).

(** A row as a job. *)
Definition job_of (r : Row) : Job :=
  let token := default "" (claimToken (claim r))%string in
  match status r with
  | Queued => Waiting
  | Preparing | Rendering | Validating => Held token false
  | Cancelling => Held token true
  | Paused => OnHold
  | Completed | Cancelled | Failed => Ended (status r)
  end.

(** Who runs a step. *)
Definition actor_of {A} (o : OpE A) : Actor :=
  match o with
  | ClaimNext _ _ token _ | BeginJobQueueRun _ token _ => ByClaim token
  | SetRemoteJobId _ token _ | Heartbeat _ token _ _ | ReportProgress _ token _ | SetBackupTransfer _ token _
  | SetBulkResult _ token _ _ | BeginValidation _ token _ | CompleteRow _ token _ _ | PublishValidated _ token _
  | FailRetry _ token _ _ _ | FailFinal _ token _ _ | Requeue _ token _ _ _ | AcknowledgeCancel _ token _ _
  | SettlePause _ token | UpsertCheckpoint _ token _ _ | CompleteCheckpoint _ token _ _
  | InvalidateCheckpointsFrom _ token _ => ByWorker token
  | RequestCancel _ _ _ _ | RequestPause _ _ _ | Resume _ _ | Dismiss _ _ => ByOwner
  | RecoverPaused _ | RecoverRetried _ _ | RecoverFailed _ _ | RecoverCancelled _
  | StopUnconfirmed _ _ | ExpireClaim _ => ByRecovery
  | _ => ByServer
  end.

(** ** Well-formed rows *)

Definition is_claimed (st : MediaOperationStatus) : bool := includes st CLAIMED_MEDIA_OPERATION_STATUSES.
Definition is_terminal (st : MediaOperationStatus) : bool := includes st TERMINAL_MEDIA_OPERATION_STATUSES.

Record row_ok (r : Row) : Prop := mkRowOk {
  (** A job is claimed exactly when a claim holds it, under a lease. *)
  ok_token : is_null (claimToken (claim r)) = negb (is_claimed (status r));
  ok_lease : is_null (claimExpiresAt (claim r)) = negb (is_claimed (status r));
  (** A cancel was asked for exactly on jobs that are stopping or stopped by it, or failed instead. *)
  ok_cancel : is_null (cancelRequestedAt (stop r)) || includes (status r) [Cancelling; Cancelled; Failed] = true;
  ok_cancelling : negb (includes (status r) [Cancelling; Cancelled]) || negb (is_null (cancelRequestedAt (stop r))) = true;
  (** A pause is pending only where something will settle it. *)
  ok_pause : is_null (pauseRequestedAt (stop r)) ||
             includes (status r) [Paused; Preparing; Rendering; Validating; Failed] = true;
  ok_paused : negb (bool_decide (status r = Paused)) || negb (is_null (pauseRequestedAt (stop r))) = true;
  ok_finished : is_null (finishedAt (outcome r)) = negb (is_terminal (status r));
  ok_retries : 0 <= autoRetries (tries r) <= 1;
  ok_attempt : 0 <= attempt (tries r);
  ok_completed : negb (bool_decide (status r = Completed)) || is_null (error (outcome r)) = true
}.

(** What a step of [a] may do to a row: what was asked for never changes, the job moves as the
    contract says, its status as the table of transitions says (or from [preparing] past [rendering]
    to [validating]), and a worker's step needs the row's own claim. *)
Record row_step (a : Actor) (r r' : Row) : Prop := mkRowStep {
  step_request : request r' = request r;
  step_job : job_of r' = job_of r \/ lease_step a (job_of r) (job_of r');
  step_legal : status r' = status r \/ MediaOperation.can_step (status r) (status r') \/
               (status r = Preparing /\ status r' = Validating);
  step_fenced : forall t, a = ByWorker t -> holds t r = true
}.

Definition keeps (a : Actor) (f : Row -> option Row) : Prop :=
  forall r r', row_ok r -> f r = Some r' -> row_ok r' /\ row_step a r r'.

Lemma when_Some b r r' : when b r = Some r' <-> b = true /\ r' = r.
Proof. unfold when. destruct b; split; [by intros [= ->]|by intros [_ ->]|done|by intros [? _]]. Qed.

(** Take a guard apart, and the row with it; then the status decides. *)
Ltac split_guard H :=
  repeat match type of H with
  | (_ && _) = true => let H1 := fresh "G" in apply andb_true_iff in H as [H H1]; split_guard H1
  end.
Ltac row_cases :=
  let r := fresh "r" in let r' := fresh "r'" in let Hok := fresh "Hok" in let H := fresh "H" in
  intros r r' Hok H; apply when_Some in H as [H ->]; split_guard H;
  destruct r as [rq st [tok by_ ex hb] [can ack pau] [att aut ret] w [ra er ec sa fi di] [rj rr] up];
  destruct Hok as [O1 O2 O3 O4 O5 O6 O7 O8 O9 O10];
  unfold holds, status_in, unfinished, pausedIfRequested in *;
  cbn [request status claim stop tries work outcome remote claimToken claimedBy claimExpiresAt heartbeatAt
       cancelRequestedAt cancelAcknowledgedAt pauseRequestedAt attempt autoRetries retryAt resultAssetId error errorCode
       startedAt finishedAt dismissedAt remoteJobId remoteReleasedAt] in *;
  repeat match goal with G : bool_decide (_ = Some _) = true |- _ => apply bool_decide_eq_true in G; subst end.

(** With the status known, evaluate what is said of it. *)
Ltac eval_status :=
  repeat match goal with
  | H : context [includes ?x ?l] |- _ =>
      let v := eval vm_compute in (includes x l) in first [constr_eq v true | constr_eq v false];
      change (includes x l) with v in H
  | H : context [bool_decide (@eq MediaOperationStatus ?x ?y)] |- _ =>
      let v := eval vm_compute in (bool_decide (x = y)) in first [constr_eq v true | constr_eq v false];
      change (bool_decide (x = y)) with v in H
  | H : context [is_claimed ?x] |- _ =>
      let v := eval vm_compute in (is_claimed x) in change (is_claimed x) with v in H
  | H : context [is_terminal ?x] |- _ =>
      let v := eval vm_compute in (is_terminal x) in change (is_terminal x) with v in H
  end; cbn [negb andb orb] in *; try discriminate.

Ltac null_cases :=
  repeat match goal with
  | H : context [is_null ?x] |- _ => is_var x; destruct x; cbn [is_null negb andb orb] in *; try discriminate
  end.

Ltac row_done :=
  split;
  [ split; cbn; solve [reflexivity | lia | assumption]
  | split; cbn;
    [ reflexivity
    | solve [left; reflexivity | right; constructor]
    | solve [left; reflexivity | right; left; reflexivity | right; right; split; reflexivity]
    | solve [intros ? [= ->]; by apply bool_decide_true | discriminate] ] ].

Ltac status_cases := match goal with H : _ = negb (is_terminal ?s) |- _ => destruct s end.

Ltac keeps_op := row_cases; status_cases; eval_status; null_cases; row_done.

Lemma keeps_begin token lease t : keeps (ByClaim token) (beginJobQueueRun token lease t).
Proof. unfold keeps, beginJobQueueRun, taken. keeps_op. Qed.
Lemma keeps_setRemoteJobId token job : keeps (ByWorker token) (setRemoteJobId token job).
Proof. unfold keeps, setRemoteJobId. keeps_op. Qed.
Lemma keeps_heartbeat token lease a t : keeps (ByWorker token) (heartbeat token lease a t).
Proof. unfold keeps, heartbeat, extended. keeps_op. Qed.
Lemma keeps_reportProgress token patch t : keeps (ByWorker token) (reportProgress token patch t).
Proof.
  unfold keeps, reportProgress, seen. intros r0 r1. destruct patch as [p n tot pr sr]; cbn [patch_status].
  destruct p; cbn [PROGRESS_FROM]; try done; destruct (render_result _ r0) as [res|]; try done; revert r0 r1; keeps_op.
Qed.
Lemma keeps_setBackupTransfer token v t : keeps (ByWorker token) (setBackupTransfer token v t).
Proof.
  unfold keeps, setBackupTransfer. intros r0 r1. destruct (match result (work r0) with None => _ | Some _ => _ end) as [fs|]; [|done].
  revert r0 r1. keeps_op.
Qed.
Lemma keeps_setBulkResult token patch a t : keeps (ByWorker token) (setBulkResult token patch a t).
Proof. unfold keeps, setBulkResult, extended. keeps_op. Qed.
Lemma keeps_beginValidation token a t : keeps (ByWorker token) (beginValidation token a t).
Proof. unfold keeps, beginValidation, seen. keeps_op. Qed.
Lemma keeps_complete pub token c a t : keeps (ByWorker token) (complete pub token c a t).
Proof. unfold keeps, complete. keeps_op. Qed.
Lemma keeps_fail_retry token f res a t : keeps (ByWorker token) (fail_retry token f res a t).
Proof. unfold keeps, fail_retry, retried, MediaOperation.MEDIA_OPERATION_AUTO_RETRIES. keeps_op. Qed.
Lemma keeps_fail_final token f a t : keeps (ByWorker token) (fail_final token f a t).
Proof. unfold keeps, fail_final. keeps_op. Qed.
Lemma keeps_requeue token ms back a t : keeps (ByWorker token) (requeue token ms back a t).
Proof. unfold keeps, requeue. destruct back; keeps_op. Qed.
Lemma keeps_requestCancel owner token q t : keeps ByOwner (requestCancel owner token q t).
Proof. unfold keeps, requestCancel. keeps_op. Qed.
Lemma keeps_acknowledgeCancel fence token rel a t : keeps (ByWorker token) (acknowledgeCancel fence token rel a t).
Proof. unfold keeps, acknowledgeCancel. keeps_op. Qed.
Lemma keeps_requestPause owner ks t : keeps ByOwner (requestPause owner ks t).
Proof. unfold keeps, requestPause. keeps_op. Qed.
Lemma keeps_resume owner t : keeps ByOwner (resume owner t).
Proof. unfold keeps, resume. keeps_op. Qed.
Lemma keeps_settlePause token t : keeps (ByWorker token) (settlePause token t).
Proof. unfold keeps, settlePause. keeps_op. Qed.
Lemma keeps_dismiss owner t : keeps ByOwner (dismiss owner t).
Proof. unfold keeps, dismiss. keeps_op. Qed.
Lemma keeps_setFinishedResult v : keeps ByServer (setFinishedResult v).
Proof. unfold keeps, setFinishedResult. keeps_op. Qed.
Lemma keeps_mergeStreamSignal fields n : keeps ByServer (mergeStreamSignal fields n).
Proof. unfold keeps, mergeStreamSignal. keeps_op. Qed.
Lemma keeps_recordRemoteJobId job : keeps ByServer (recordRemoteJobId job).
Proof. unfold keeps, recordRemoteJobId. keeps_op. Qed.
Lemma keeps_recover_paused j t id : keeps ByRecovery (recover_paused j t id).
Proof. unfold keeps, recover_paused. keeps_op. Qed.
Lemma keeps_recover_retried f j t id : keeps ByRecovery (recover_retried f j t id).
Proof. unfold keeps, recover_retried, retried, MediaOperation.MEDIA_OPERATION_AUTO_RETRIES. keeps_op. Qed.
Lemma keeps_recover_failed f j t id : keeps ByRecovery (recover_failed f j t id).
Proof. unfold keeps, recover_failed. keeps_op. Qed.
Lemma keeps_recover_cancelled j t id : keeps ByRecovery (recover_cancelled j t id).
Proof. unfold keeps, recover_cancelled. keeps_op. Qed.
Lemma keeps_releaseDispatch : keeps ByServer releaseJobQueueDispatch.
Proof. unfold keeps, releaseJobQueueDispatch, set_claimedBy. keeps_op. Qed.
Lemma keeps_taken o token b t : keeps (ByClaim token)
  (fun r => when (claimable o t r && b) (taken (workerId o) token (leaseMs o) t r)).
Proof. unfold keeps, claimable, taken. keeps_op. Qed.
Lemma keeps_stopUnconfirmed reason t : keeps ByRecovery (stopUnconfirmed reason t).
Proof. unfold keeps, stopUnconfirmed, claimed_by_queue. keeps_op. Qed.
Lemma keeps_expireClaim t : keeps ByRecovery (expireClaim t).
Proof. unfold keeps, expireClaim, claimed_by_queue. keeps_op. Qed.
Lemma keeps_markRemoteReleased t : keeps ByServer (markRemoteReleased t).
Proof.
  intros r r' Hok [= <-]. destruct Hok. split; [by split|]. split; cbn; auto. discriminate.
Qed.
Lemma keeps_dispatch (ids : list string) (id : string) : keeps ByServer
  (fun r => when (includes id ids) (set_claimedBy (Some EditOperation.JOB_QUEUE_CLAIMANT) r)).
Proof.
  intros r r' Hok H. apply when_Some in H as [_ ->]. destruct Hok. split; [by split|]. split; cbn; auto. discriminate.
Qed.

Create HintDb lease.
#[export] Hint Resolve keeps_begin keeps_setRemoteJobId keeps_heartbeat keeps_reportProgress
  keeps_setBackupTransfer keeps_setBulkResult keeps_beginValidation keeps_complete keeps_fail_retry
  keeps_fail_final keeps_requeue keeps_requestCancel keeps_acknowledgeCancel keeps_requestPause keeps_resume
  keeps_settlePause keeps_dismiss keeps_setFinishedResult keeps_mergeStreamSignal keeps_recordRemoteJobId keeps_recover_paused
  keeps_recover_retried keeps_recover_failed keeps_recover_cancelled keeps_releaseDispatch keeps_taken
  keeps_markRemoteReleased keeps_dispatch keeps_stopUnconfirmed keeps_expireClaim : lease.

(** ** Stores *)

Definition store_ok (s : Store) : Prop := map_Forall (fun _ r => row_ok r) (rows s).

(** From one store to the next: no row goes away, a new one waits, and the others are as they were or
    made a step of [a]. *)
Definition moves (a : Actor) (s s' : Store) : Prop :=
  forall id, match rows s !! id, rows s' !! id with
             | Some r, Some r' => r' = r \/ row_step a r r'
             | None, Some r' => a = ByServer /\ row_ok r' /\ job_of r' = Waiting
             | None, None => True
             | Some _, None => False
             end.

Lemma row_ok_touch t r : row_ok r -> row_ok (touch t r).
Proof. by intros []; split. Qed.
Lemma row_step_touch a t r r' : row_step a r r' -> row_step a r (touch t r').
Proof. by intros []; split. Qed.

Lemma moves_refl a s : moves a s s.
Proof. intros id. destruct (rows s !! id); [by left|done]. Qed.

Lemma keeps_update_row a t id f s : store_ok s -> keeps a f ->
  store_ok (update_row t id f s).2 /\ moves a s (update_row t id f s).2.
Proof.
  intros Hs Hf. unfold update_row. destruct (rows s !! id) as [r|] eqn:E; cbn; [|split; [done|apply moves_refl]].
  destruct (f r) as [r'|] eqn:Ef; cbn; [|split; [done|apply moves_refl]].
  destruct (Hf r r') as [Hok Hstep]; [by apply (Hs id)|done|]. split.
  - apply map_Forall_insert_2; [by apply row_ok_touch|done].
  - intros k. cbn. destruct (decide (id = k)) as [<-|Hne].
    + rewrite E, lookup_insert_eq. right. by apply row_step_touch.
    + rewrite lookup_insert_ne by done. destruct (rows s !! k); [by left|done].
Qed.

Lemma lookup_update_rows t f s id :
  rows (update_rows t f s).2 !! id =
    (fun r => match f id r with Some r' => touch t r' | None => r end) <$> rows s !! id.
Proof. cbn. rewrite map_lookup_imap. by destruct (rows s !! id). Qed.

Lemma keeps_update_rows a t f s : store_ok s -> (forall id, keeps a (f id)) ->
  store_ok (update_rows t f s).2 /\ moves a s (update_rows t f s).2.
Proof.
  intros Hs Hf. split.
  - intros id r. rewrite lookup_update_rows. destruct (rows s !! id) as [r0|] eqn:E; cbn; [|done]. intros [= <-].
    pose proof (Hs id r0 E). destruct (f id r0) as [r1|] eqn:Ef; [|done]. apply row_ok_touch. by eapply Hf.
  - intros id. rewrite lookup_update_rows. destruct (rows s !! id) as [r0|] eqn:E; cbn; [|done].
    destruct (f id r0) as [r1|] eqn:Ef; [|by left]. right. apply row_step_touch. eapply Hf; [by apply (Hs id)|done].
Qed.

Lemma inserted_ok c t : row_ok (inserted c t) /\ job_of (inserted c t) = Waiting.
Proof. split; [|done]. by split; cbn. Qed.

Lemma insert_row_spec id c t s s' : insert_row id c t s = Some s' ->
  rows s !! id = None /\ s' = set_rows (<[id := inserted c t]> (rows s)) s.
Proof.
  unfold insert_row. destruct (rows s !! id) as [r|] eqn:E.
  { rewrite bool_decide_true by (by eexists). done. }
  rewrite bool_decide_false by (by intros [? ?]).
  destruct (retryOfId _); [destruct (existsb _ _)|]; try done; by intros [= <-].
Qed.

Lemma insert_row_moves id c t s s' : store_ok s -> insert_row id c t s = Some s' ->
  store_ok s' /\ moves ByServer s s'.
Proof.
  intros Hs [E ->]%insert_row_spec. split.
  - apply map_Forall_insert_2; [apply inserted_ok|done].
  - intros k. cbn. destruct (decide (id = k)) as [<-|Hne].
    + rewrite E, lookup_insert_eq. split; [done|]. split; apply inserted_ok.
    + rewrite lookup_insert_ne by done. destruct (rows s !! k); [by left|done].
Qed.

Section store.
Context (publishable : string -> string -> bool) (preview_fence : Row -> Z -> bool) (preview_frames : Row -> bool).
Abbreviation handle := (handle publishable preview_fence preview_frames).

Lemma moves_rows a s s' : rows s' = rows s -> moves a s s'.
Proof. intros E id. rewrite E. destruct (rows s !! id); [by left|done]. Qed.

Lemma claimNext_update t id o token locked s :
  (handle t (ClaimNext id o token locked) s) =
  if oldest (fun k r => claimable o t r && negb (locked k)) (rows s) id
  then update_row t id (fun r => when (claimable o t r && negb (locked id)) (taken (workerId o) token (leaseMs o) t r)) s
  else (None, s).
Proof.
  cbn. destruct (oldest _ _ _) eqn:E; [|done]. unfold oldest in E. unfold update_row.
  destruct (rows s !! id) as [r|]; [|done]. cbn. apply andb_true_iff in E as [-> _]. done.
Qed.

Lemma checkpoint_step_rows id token c retires t s :
  rows (upsertCheckpoint id token c retires t s).2 = rows s.
Proof.
  unfold upsertCheckpoint. destruct (negb _); [done|].
  by destruct (match checkpoints s !! (id, sequence c) with Some x => _ | None => false end).
Qed.
Lemma completeCheckpoint_rows id token c v t s : rows (completeCheckpoint id token c v t s).2 = rows s.
Proof. unfold completeCheckpoint. destruct (negb _); [done|]. by destruct (_ ≫= _). Qed.
Lemma invalidate_rows id token from t s : rows (invalidateCheckpointsFrom id token from t s).2 = rows s.
Proof. unfold invalidateCheckpointsFrom. by destruct (negb _). Qed.

Lemma create_unless_moves p id c t s : store_ok s ->
  store_ok (create_unless p id c t s).2 /\ moves ByServer s (create_unless p id c t s).2.
Proof.
  intros Hs. unfold create_unless. destruct (existsb _ _); [split; [done|apply moves_refl]|].
  destruct (insert_row id c t s) eqn:E; [by eapply insert_row_moves|split; [done|apply moves_refl]].
Qed.

Lemma publish_row t id token accepts s :
  (handle t (PublishValidated id token accepts) s).2 =
  if accepts then (update_row t id (complete publishable token (mkComplete None None None) false t) s).2 else s.
Proof.
  cbn. unfold update_row. destruct (rows s !! id) as [r|]; cbn; [|by destruct accepts].
  destruct (held_validating token r) eqn:E; [by destruct accepts|].
  unfold complete. cbn. unfold held_validating in E. rewrite E. by destruct accepts.
Qed.

Lemma handle_moves {A} t (o : OpE A) s : store_ok s ->
  store_ok (handle t o s).2 /\ moves (actor_of o) s (handle t o s).2.
Proof.
  intros Hs. destruct o; cbn [actor_of]; try (rewrite ?claimNext_update, ?publish_row); cbn [OperationStore.handle].
  all: try (apply keeps_update_row; [done|]).
  all: try (apply create_unless_moves; done).
  all: try apply keeps_update_rows; try done; auto with lease.
  - destruct (insert_row id c t s) eqn:E; [by eapply insert_row_moves|split; [done|apply moves_refl]].
  - destruct (existsb _ _); [split; [done|apply moves_refl]|].
    destruct (insert_row id c t s) eqn:E; [by eapply insert_row_moves|].
    split; [by repeat case_match|apply moves_rows; by repeat case_match].
  - split; [done|apply moves_refl].
  - destruct (oldest _ _ _); [apply keeps_update_row; auto with lease|split; [done|apply moves_refl]].
  - destruct accepts; [apply keeps_update_row; auto with lease|split; [done|apply moves_refl]].
  - destruct (dispatch_choice _ _ _ _); [apply keeps_update_rows; auto with lease|split; [done|apply moves_refl]].
  - intros k. destruct (includes k ids); [apply keeps_releaseDispatch|done].
  - unfold store_ok. rewrite checkpoint_step_rows. split; [done|]. by apply moves_rows, checkpoint_step_rows.
  - unfold store_ok. rewrite completeCheckpoint_rows. split; [done|]. by apply moves_rows, completeCheckpoint_rows.
  - unfold store_ok. rewrite invalidate_rows. split; [done|]. by apply moves_rows, invalidate_rows.
Qed.

(** ** Histories *)

(** The store with every token ever issued ([randomUUID] never repeats one). *)
Record Sys := mkSys { store : Store; issued : gset string }.

Definition new_token {A} (o : OpE A) : option string :=
  match o with ClaimNext _ _ token _ | BeginJobQueueRun _ token _ => Some token | _ => None end.
Definition issue (token : option string) (u : gset string) : gset string :=
  match token with Some v => {[v]} ∪ u | None => u end.

Inductive sys_step : Sys -> Sys -> Prop :=
| sys_op {A} (o : OpE A) t s :
    (forall v, new_token o = Some v -> v ∉ issued s) ->
    sys_step s (mkSys (handle t o (store s)).2 (issue (new_token o) (issued s))).

Definition token_at (s : Store) (id v : string) : Prop :=
  exists r, rows s !! id = Some r /\ claimToken (claim r) = Some v.

Record sys_ok (s : Sys) : Prop := mkSysOk {
  ok_rows : store_ok (store s);
  ok_issued : forall id v, token_at (store s) id v -> v ∈ issued s;
  ok_unique : forall id id' v, token_at (store s) id v -> token_at (store s) id' v -> id = id'
}.

Definition empty_sys : Sys := mkSys (mkStore ∅ ∅) ∅.
Lemma empty_sys_ok : sys_ok empty_sys.
Proof.
  assert (forall id v, ~ token_at (store empty_sys) id v) as Hn by (intros id v (r & H & _); cbn in H; by rewrite lookup_empty in H).
  split; [intros i r H; cbn in H; by rewrite lookup_empty in H|intros ? ? H; by apply Hn in H|intros ? ? ? H; by apply Hn in H].
Qed.

Lemma held_token r v : row_ok r -> claimToken (claim r) = Some v <-> exists c, job_of r = Held v c.
Proof.
  intros [Ht _ _ _ _ _ _ _ _ _]. unfold job_of. destruct (claimToken (claim r)) as [u|]; cbn in *.
  - destruct (status r); try discriminate Ht; split; try (intros [= ->]; by eexists); intros [c [=]]; by subst.
  - split; [done|]. intros [c Hc]. destruct (status r); try discriminate Ht; discriminate Hc.
Qed.

(** A step hands a job to a token only by the claim that brings the token. *)
Lemma lease_step_held a j v c : lease_step a j (Held v c) -> a = ByClaim v \/ exists c', j = Held v c'.
Proof. inversion 1; subst; [by left|right; by eexists]. Qed.

Lemma moves_token a s s' id v : store_ok s -> store_ok s' -> moves a s s' -> token_at s' id v ->
  a = ByClaim v \/ token_at s id v.
Proof.
  intros Hs Hs' Hm (r' & E' & Ht). specialize (Hm id). rewrite E' in Hm.
  pose proof (proj1 (held_token r' v (Hs' id r' E')) Ht) as [c Hc].
  destruct (rows s !! id) as [r|] eqn:E; [|destruct Hm as (_ & _ & Hw); congruence].
  assert (forall c', job_of r = Held v c' -> token_at s id v) as Hheld.
  { intros c' H. exists r. split; [done|]. apply held_token; [by apply (Hs id)|]. by exists c'. }
  destruct Hm as [->|[_ [Hj|Hj] _ _]].
  - right. by apply (Hheld c).
  - right. rewrite Hc in Hj. by apply (Hheld c).
  - rewrite Hc in Hj. apply lease_step_held in Hj as [->|[c' Hj]]; [by left|right; by apply (Hheld c')].
Qed.

(** A claim changes one row. *)
Lemma claim_one {A} (o : OpE A) t s v : new_token o = Some v ->
  actor_of o = ByClaim v /\ exists id, forall k, k <> id -> rows (handle t o s).2 !! k = rows s !! k.
Proof.
  destruct o; try done; intros [= <-]; (split; [done|]); exists id; intros k Hk; cbn [OperationStore.handle].
  - destruct (oldest _ _ _); [|done]. unfold update_row. destruct (rows s !! id ≫= _); [|done]. cbn. by rewrite lookup_insert_ne.
  - unfold update_row. destruct (rows s !! id ≫= _); [|done]. cbn. by rewrite lookup_insert_ne.
Qed.

Lemma actor_claim {A} (o : OpE A) v : actor_of o = ByClaim v -> new_token o = Some v.
Proof. by destruct o; try done; intros [= <-]. Qed.

Lemma token_at_ext s s' id v : rows s' !! id = rows s !! id -> token_at s' id v -> token_at s id v.
Proof. unfold token_at. by intros ->. Qed.

Lemma sys_step_ok s s' : sys_ok s -> sys_step s s' -> sys_ok s'.
Proof.
  intros [Hs Hi Hu] Hstep. destruct Hstep as [A o t s Hnew].
  destruct (handle_moves t o (store s) Hs) as [Hs' Hm]. split; cbn [store issued]; [done| |].
  - intros id v Hv. destruct (moves_token _ _ _ _ _ Hs Hs' Hm Hv) as [->%actor_claim|Ho]; [set_solver|].
    apply Hi in Ho. unfold issue. destruct (new_token o); set_solver.
  - intros id id' v H1 H2.
    destruct (moves_token _ _ _ _ _ Hs Hs' Hm H1) as [E%actor_claim|O1].
    + destruct (claim_one o t (store s) v E) as [_ [k Hk]]. pose proof (Hnew v E) as Hfresh.
      assert (forall x, token_at (handle t o (store s)).2 x v -> x = k) as Hx.
      { intros x Hx. destruct (decide (x = k)); [done|]. exfalso. apply Hfresh, (Hi x).
        eapply token_at_ext; [|exact Hx]. by apply Hk. }
      by rewrite (Hx id H1), (Hx id' H2).
    + destruct (moves_token _ _ _ _ _ Hs Hs' Hm H2) as [E%actor_claim|O2]; [|by apply (Hu id id' v)].
      exfalso. by apply (Hnew v E), (Hi id).
Qed.

Lemma sys_steps_ok s s' : sys_ok s -> rtc sys_step s s' -> sys_ok s'.
Proof. intros Hs H. induction H; [done|]. eauto using sys_step_ok. Qed.

(** ** The contract as a machine of its own *)

Record Spec := mkSpec { jobs : gmap string Job; tokens : gset string }.

Record spec_step (a : Actor) (x y : Spec) : Prop := mkSpecStep {
  spec_jobs : forall id,
    match jobs x !! id, jobs y !! id with
    | Some j, Some j' => j' = j \/ lease_step a j j'
    | None, Some j' => a = ByServer /\ j' = Waiting
    | None, None => True
    | Some _, None => False
    end;
  (** A claim brings a token never used before, and takes at most one job with it. *)
  spec_tokens : match a with
                | ByClaim v => (v ∉ tokens x) /\ tokens y = {[v]} ∪ tokens x /\
                               exists id, forall k, k <> id -> jobs y !! k = jobs x !! k
                | _ => tokens y = tokens x
                end
}.

Definition spec_of (s : Sys) : Spec := mkSpec (job_of <$> rows (store s)) (issued s).

Lemma statement_spec {A} (o : OpE A) t s : sys_ok s -> (forall v, new_token o = Some v -> v ∉ issued s) ->
  spec_step (actor_of o) (spec_of s) (spec_of (mkSys (handle t o (store s)).2 (issue (new_token o) (issued s)))).
Proof.
  intros [Hs _ _] Hnew. destruct (handle_moves t o (store s) Hs) as [_ Hm]. split; cbn [spec_of jobs tokens store issued].
  - intros id. rewrite !lookup_fmap. specialize (Hm id).
    destruct (rows (store s) !! id) as [r|], (rows (handle t o (store s)).2 !! id) as [r'|]; cbn; try done.
    + destruct Hm as [->|Hm]; [by left|apply Hm].
    + by destruct Hm as (? & _ & ?).
  - destruct (actor_of o) as [v| | | |] eqn:Ea.
    { pose proof (actor_claim o v Ea) as Hv. split; [by apply Hnew|]. rewrite Hv. split; [done|].
      destruct (claim_one o t (store s) v Hv) as [_ [k Hk]]. exists k. intros x Hx. rewrite !lookup_fmap. by rewrite Hk. }
    all: by destruct o.
Qed.

(** ** Fencing *)

(** A worker's step under claim [v] of job [id]. *)
Definition carries {A} (o : OpE A) (id v : string) : Prop :=
  match o with
  | SetRemoteJobId k w _ | Heartbeat k w _ _ | ReportProgress k w _ | SetBackupTransfer k w _
  | SetBulkResult k w _ _ | BeginValidation k w _ | CompleteRow k w _ _ | PublishValidated k w _
  | FailRetry k w _ _ _ | FailFinal k w _ _ | Requeue k w _ _ _ | AcknowledgeCancel k w _ _
  | SettlePause k w | UpsertCheckpoint k w _ _ | CompleteCheckpoint k w _ _
  | InvalidateCheckpointsFrom k w _ => k = id /\ w = v
  | _ => False
  end.

(** What such a step answers when the claim is gone. *)
Definition refuses {A} (o : OpE A) : A -> Prop :=
  match o in OpE A return A -> Prop with
  | SetRemoteJobId _ _ _ | Heartbeat _ _ _ _ | ReportProgress _ _ _ | SetBackupTransfer _ _ _
  | BeginValidation _ _ _ | CompleteRow _ _ _ _ | FailRetry _ _ _ _ _ | FailFinal _ _ _ _ | Requeue _ _ _ _ _
  | AcknowledgeCancel _ _ _ _ | SettlePause _ _ | CompleteCheckpoint _ _ _ _
  | InvalidateCheckpointsFrom _ _ _ => fun b => b = false
  | SetBulkResult _ _ _ _ => fun x => x = None
  | PublishValidated _ _ _ => fun x => x = PublishLost
  | UpsertCheckpoint _ _ _ _ => fun x => x = Some false
  | _ => fun _ => True
  end.

Lemma fenced_update t id v f s : store_ok s -> keeps (ByWorker v) f -> ~ token_at s id v ->
  update_row t id f s = (None, s).
Proof.
  intros Hs Hf Hn. unfold update_row. destruct (rows s !! id) as [r|] eqn:E; [|done]. cbn.
  destruct (f r) as [r'|] eqn:Ef; [|done]. exfalso. destruct (Hf r r' (Hs id r E) Ef) as [_ [_ _ _ Hh]].
  apply Hn. exists r. split; [done|]. specialize (Hh v eq_refl). by apply bool_decide_eq_true in Hh.
Qed.

Lemma fenced_lock id v a t s : ~ token_at s id v -> claim_locked id v a t s = false.
Proof.
  intros Hn. unfold claim_locked. destruct (rows s !! id) as [r|] eqn:E; [|done]. unfold lockClaim, holds.
  rewrite bool_decide_false; [done|]. intros H. apply Hn. by exists r.
Qed.

Lemma fenced {A} (o : OpE A) t id v s : store_ok s -> carries o id v -> ~ token_at s id v ->
  (handle t o s).2 = s /\ refuses o (handle t o s).1.
Proof.
  intros Hs Hc Hn.
  destruct o; try done; destruct Hc as [-> ->]; cbn [OperationStore.handle refuses].
  all: try (rewrite (fenced_update t id v _ s Hs) by auto with lease; done).
  - destruct (rows s !! id) as [r|] eqn:E; [|done]. unfold held_validating, holds.
    rewrite bool_decide_false; [done|]. intros H. apply Hn. by exists r.
  - unfold upsertCheckpoint. by rewrite fenced_lock.
  - unfold completeCheckpoint. by rewrite fenced_lock.
  - unfold invalidateCheckpointsFrom. by rewrite fenced_lock.
Qed.

Lemma lost_for_good s s' id v : sys_ok s -> rtc sys_step s s' -> v ∈ issued s -> ~ token_at (store s) id v ->
  (v ∈ issued s') /\ ~ token_at (store s') id v.
Proof.
  intros Hok H. revert Hok. induction H as [s|s s1 s' Hstep Hrest IH]; intros Hok Hv Hn; [done|].
  apply IH; [by eapply sys_step_ok| |]; destruct Hstep as [A o t s Hnew]; cbn [store issued].
  - unfold issue. destruct (new_token o); set_solver.
  - intros Ht. destruct Hok as [Hs _ _]. destruct (handle_moves t o (store s) Hs) as [Hs' Hm].
    destruct (moves_token _ _ _ _ _ Hs Hs' Hm Ht) as [E%actor_claim|Ho]; [|done]. by apply (Hnew v E).
Qed.

(** A run of the repository's statements with whose step each is, read off the statement itself. *)
Inductive sys_run : list Actor -> Sys -> Sys -> Prop :=
| run_end s : sys_run [] s s
| run_step {A} (o : OpE A) t s s' acts :
    (forall v, new_token o = Some v -> v ∉ issued s) ->
    sys_run acts (mkSys (handle t o (store s)).2 (issue (new_token o) (issued s))) s' -> sys_run (actor_of o :: acts) s s'.
Inductive spec_run : list Actor -> Spec -> Spec -> Prop :=
| spec_end x : spec_run [] x x
| spec_next a acts x y z : spec_step a x y -> spec_run acts y z -> spec_run (a :: acts) x z.

Lemma run_refines acts s s' : sys_run acts s s' -> sys_ok s -> sys_ok s' /\ spec_run acts (spec_of s) (spec_of s').
Proof.
  induction 1 as [s|A o t s s' acts Hnew Hrun IH]; intros Hok; [split; [done|constructor]|].
  pose proof (sys_step_ok _ _ Hok (sys_op o t s Hnew)) as Hok'. destruct (IH Hok') as [Hs' Hrest]. split; [done|].
  eapply spec_next; [|exact Hrest]. by apply statement_spec.
Qed.

(** What a statement does to a row of the table: nothing, or it is the row's own claim that writes when it is
    a worker's statement (and the row is the one it names), what was asked for stays, and the status moves by
    the table of transitions. *)
Record row_moves {A} (o : OpE A) (id : string) (r r' : Row) : Prop := {
  moves_request : request r' = request r;
  moves_status : status r' = status r \/ MediaOperation.can_step (status r) (status r') \/ (status r = Preparing /\ status r' = Validating);
  moves_own : forall v, actor_of o = ByWorker v -> carries o id v /\ claimToken (claim r) = Some v
}.

Lemma worker_row {A} (o : OpE A) t s v : actor_of o = ByWorker v ->
  exists id, carries o id v /\ forall k, k <> id -> rows (handle t o s).2 !! k = rows s !! k.
Proof.
  assert (forall id f k, k <> id -> rows (update_row t id f s).2 !! k = rows s !! k) as Hup.
  { intros id f k Hk. unfold update_row. destruct (rows s !! id ≫= f); [|done]. cbn. by rewrite lookup_insert_ne. }
  destruct o; try done; intros [= <-]; exists id; (split; [done|]); intros k Hk; cbn [OperationStore.handle];
    rewrite ?publish_row, ?checkpoint_step_rows, ?completeCheckpoint_rows, ?invalidate_rows; try done; try (by apply Hup).
  destruct (rows s !! id) as [r|]; [|done]. destruct (held_validating _ _); [|done]. destruct accepts; [by apply Hup|done].
Qed.

(** C17. The repository implements the lease contract, step by step.  Whatever sequence of its statements runs on an empty table, at
    whatever times, each statement is one step of the contract by the actor that the statement itself names (the worker of the token it
    passes, the claim that brings its token, the owner, recovery or the server): its jobs move only as the contract lets that actor move
    them, and a claim takes at most one waiting job with a token never used before.  Every row stays well formed (a claim and a lease exactly
    while it is claimed, a finish time exactly when it has ended, at most one automatic retry used).  A row that a statement changes keeps
    what was asked for, its status moves by the table of transitions (or from [preparing] past [rendering] to [validating]), and if the
    statement is a worker's, the row is the one it names and the token it passes is the row's claim. *)
Theorem store_refines_lease (acts : list Actor) (s : Sys) (run : sys_run acts empty_sys s) :
  sys_ok s /\ spec_run acts (spec_of empty_sys) (spec_of s) /\
  forall A (o : OpE A) t id r, rows (store s) !! id = Some r ->
    exists r', rows (handle t o (store s)).2 !! id = Some r' /\ (r' = r \/ row_moves o id r r').
Proof.
  destruct (run_refines acts empty_sys s run empty_sys_ok) as [Hok Hspec]. split; [done|]. split; [done|].
  intros A o t id r E. destruct Hok as [Hs _ _]. destruct (handle_moves t o (store s) Hs) as [_ Hm]. specialize (Hm id). rewrite E in Hm.
  destruct (rows (handle t o (store s)).2 !! id) as [r'|] eqn:E'; [|done]. exists r'. split; [done|].
  destruct Hm as [->|[M1 _ M2 M3]]; [by left|]. destruct (actor_of o) as [|v| | |] eqn:Ha; try (right; split; [done|done|congruence]).
  destruct (worker_row o t (store s) v Ha) as (k & Hk & Hother). destruct (decide (id = k)) as [->|Hn].
  - right. split; [done|done|]. rewrite Ha. intros w [= <-]. split; [done|]. specialize (M3 v eq_refl). by apply bool_decide_eq_true in M3.
  - left. rewrite (Hother id Hn) in E'. congruence.
Qed.

(** C18. A claim that was lost stays lost.  In every store the repository can reach, at most one job
    carries a claim's token; and once a token that was issued is not the token of a job, it never is
    again, whatever runs in between: every later write of the worker that was handed it (progress,
    results, checkpoints, validation, publication, failure, requeue, the answer to a cancel or a pause)
    changes nothing, and is told so. *)
Theorem stale_claim_is_fenced (s s' : Sys) (id v : string) (Hs : sys_ok s) (Hissued : v ∈ issued s)
    (Hlost : ~ token_at (store s) id v) (Hrun : rtc sys_step s s') :
  (forall k k', token_at (store s') k v -> token_at (store s') k' v -> k = k') /\ ~ token_at (store s') id v /\
  forall A (o : OpE A) t, carries o id v ->
    (handle t o (store s')).2 = store s' /\ refuses o (handle t o (store s')).1.
Proof.
  pose proof (sys_steps_ok _ _ Hs Hrun) as Hok. destruct (lost_for_good _ _ id v Hs Hrun Hissued Hlost) as [_ Hn].
  split; [by intros k k'; apply Hok|]. split; [done|]. intros A o t Hc. apply (fenced o t id v); [apply Hok|done|done].
Qed.
End store.

(** ** A sample job: submitted, claimed, lost, retried *)

Definition sample_request : Request :=
  mkRequest "ana" Kind.StudioExport RenderAdmission.DestLocal None None None (JObj []) 0.
Definition sample_options : ClaimOptions := mkClaimOptions [Kind.StudioExport] "worker" 1000 None None None.
Definition at_time (t : Z) : Times := mkTimes t t.

Definition Step : Type := Z * {A : Type & OpE A}.
Definition sample_steps : list Step :=
  [(0, existT _ (Create "j" (mkCreate sample_request None None None)));
   (0, existT _ (ClaimNext "j" sample_options "t1" (fun _ => false)));
   (5000, existT _ (RecoverRetried (mkFailure "lost" "lease_expired") (fun _ => false)));
   (40000, existT _ (ClaimNext "j" sample_options "t2" (fun _ => false)))]%string.

(** The other tables of the sample: every asset can be published, and nothing is a preview frame. *)
Definition sample_pub (_ _ : string) : bool := true.
Definition sample_fence (_ : Row) (_ : Z) : bool := true.
Definition sample_frames (_ : Row) : bool := false.
Abbreviation sample_handle := (handle sample_pub sample_fence sample_frames).
Abbreviation sample_sys_step := (sys_step sample_pub sample_fence sample_frames).

(** Run steps in order. *)
Definition play_step (x : Sys) (ts : Step) : Sys :=
  mkSys (sample_handle (at_time ts.1) (projT2 ts.2) (store x)).2 (issue (new_token (projT2 ts.2)) (issued x)).
Definition play (steps : list Step) (s : Sys) : Sys := foldl play_step s steps.

(** Every token is new when it is brought. *)
Fixpoint fresh_tokens (steps : list Step) (s : Sys) : bool :=
  match steps with
  | [] => true
  | ts :: rest =>
      match new_token (projT2 ts.2) with Some v => bool_decide (v ∉ issued s) | None => true end &&
      fresh_tokens rest (play_step s ts)
  end.

Lemma play_steps steps s : fresh_tokens steps s = true -> rtc sample_sys_step s (play steps s).
Proof.
  revert s. induction steps as [|[t [A o]] rest IH]; intros s H; [apply rtc_refl|].
  cbn [fresh_tokens projT2 fst snd] in H. apply andb_true_iff in H as [Hf Hr].
  eapply rtc_l; [|by apply IH]. apply sys_op. intros v Hv. cbn in Hf, Hv. rewrite Hv in Hf.
  by apply bool_decide_eq_true in Hf.
Qed.

Definition play_actors (steps : list Step) : list Actor := map (fun ts => actor_of (projT2 ts.2)) steps.
Lemma play_run steps s : fresh_tokens steps s = true ->
  sys_run sample_pub sample_fence sample_frames (play_actors steps) s (play steps s).
Proof.
  revert s. induction steps as [|[t [A o]] rest IH]; intros s H; [constructor|].
  cbn [fresh_tokens projT2 fst snd] in H. apply andb_true_iff in H as [Hf Hr]. apply run_step with (t := at_time t); [|by apply IH].
  intros v Hv. cbn in Hf, Hv. rewrite Hv in Hf. by apply bool_decide_eq_true in Hf.
Qed.
Lemma sample_fresh : fresh_tokens sample_steps empty_sys = true.
Proof. vm_compute. reflexivity. Qed.

Lemma store_refines_lease_witness :
  play_actors sample_steps = [ByServer; ByClaim "t1"; ByRecovery; ByClaim "t2"]%string /\
  spec_run (play_actors sample_steps) (spec_of empty_sys) (spec_of (play sample_steps empty_sys)).
Proof.
  split; [reflexivity|].
  exact (proj1 (proj2 (store_refines_lease sample_pub sample_fence sample_frames (play_actors sample_steps)
    (play sample_steps empty_sys) (play_run sample_steps empty_sys sample_fresh)))).
Defined.

Lemma stale_claim_is_fenced_witness :
  let s := play (take 3 sample_steps) empty_sys in
  let s' := play (drop 3 sample_steps) s in
  token_at (store s') "j" "t2" /\
  (sample_handle (at_time 50000) (BeginValidation "j" "t1" false) (store s')).1 = false.
Proof.
  cbv zeta. set (s := play (take 3 sample_steps) empty_sys). split; [vm_compute; eexists; split; reflexivity|].
  refine (proj2 (proj2 (proj2 (stale_claim_is_fenced sample_pub sample_fence sample_frames s
    (play (drop 3 sample_steps) s) "j" "t1" _ _ _ _)) bool (BeginValidation "j" "t1" false) (at_time 50000) _)).
  - apply (sys_steps_ok sample_pub sample_fence sample_frames empty_sys); [apply empty_sys_ok|].
    apply play_steps. vm_compute. reflexivity.
  - apply (bool_decide_eq_true_1 _). vm_compute. reflexivity.
  - intros (r & E & Ht). vm_compute in E. injection E as <-. discriminate Ht.
  - apply play_steps. vm_compute. reflexivity.
  - split; reflexivity.
Defined.
