(* ===== verification/OperationRecovery.v ===== *)
(** * What becomes of a durable operation

    How the repository's statements work together over time: what one recovery sweep makes of every
    lapsed claim, the order in which a queue is drained, how often one job can run, that a cancel ends
    a job whatever its worker does, and that an exclusive kind has one unfinished job at most. *)

From stdpp Require Import relations sorting.
From S2P Require Import Prelude JsNumber JsString Enums OperationStore OperationLease.
From S2P Require MediaOperation EditOperation RenderAdmission StudioRenderProgress.
Import Status.
Local Open Scope Z_scope.

(** ** One sweep *)

(** A claim that has lapsed, with no execution left that owns it. *)
Definition lost_claim (j : string -> bool) (t : Times) (id : string) (r : Row) : bool :=
  is_claimed (status r) && lapsed j t id r.

(** What the sweep makes of it. *)
Definition recovery_outcome (r : Row) : MediaOperationStatus :=
  if negb (is_null (cancelRequestedAt (stop r))) then Cancelled
  else if negb (is_null (pauseRequestedAt (stop r))) then Paused
  else if safeAutomaticReplay r && (autoRetries (tries r) <? MediaOperation.MEDIA_OPERATION_AUTO_RETRIES) then Queued
  else Failed.

(** The row a lost claim leaves. *)
Definition recovered (f : Failure) (t : Times) (r : Row) : Row :=
  let x := outcome r in
  let failed_ := mkOutcome (resultAssetId x) (Some (failure_error f)) (Some (failure_code f)) (startedAt x) in
  touch t (set_claim (released r)
    match recovery_outcome r with
    | Cancelled => set_status Cancelled (set_outcome (mkOutcome (resultAssetId x) (error x) (errorCode x) (startedAt x)
                     (Some (default (now t) (finishedAt x))) (dismissedAt x)) r)
    | Paused => set_status Paused r
    | Queued => set_status Queued (set_outcome (failed_ (finishedAt x) (dismissedAt x))
                  (set_tries (mkTries (attempt (tries r)) (autoRetries (tries r) + 1)
                    (Some (now t + MediaOperation.MEDIA_OPERATION_AUTO_RETRY_DELAY_MS))) r))
    | _ => set_status Failed (set_outcome (failed_ (Some (now t)) (dismissedAt x)) r)
    end).

Definition sweep_row (f : Failure) (j : string -> bool) (t : Times) (id : string) (r : Row) : Row :=
  if lost_claim j t id r then recovered f t r else r.

(** One statement of the sweep, on one row. *)
Definition swept_by (t : Times) (g : string -> Row -> option Row) (id : string) (r : Row) : Row :=
  match g id r with Some r' => touch t r' | None => r end.
Definition fires (g : string -> Row -> option Row) (id : string) (r : Row) : bool := negb (is_null (g id r)).

Definition ends_as (st : MediaOperationStatus) (j : string -> bool) (t : Times) (id : string) (r : Row) : bool :=
  lost_claim j t id r && bool_decide (recovery_outcome r = st).

Section sweep.
Context (f : Failure) (j : string -> bool) (t : Times).

Definition g1 := recover_paused j t.
Definition g2 := recover_retried f j t.
Definition g3 := recover_failed f j t.
Definition g4 := recover_cancelled j t.

Lemma fires_lost g id r : g ∈ [g1; g2; g3; g4] -> fires g id r = true -> lost_claim j t id r = true.
Proof.
  intros Hg. unfold fires. destruct (g id r) as [x|] eqn:E; [intros _|done].
  assert (includes (status r) [Preparing; Rendering; Validating; Cancelling] = true /\ lapsed j t id r = true) as [H1 H2].
  { rewrite !elem_of_cons in Hg. destruct Hg as [->|[->|[->|[->|Hg]]]]; [..|set_solver].
    all: apply when_Some in E as [E _]; split_guard E; unfold status_in in *; split; [|done].
    all: revert E; by destruct (status r). }
  unfold lost_claim. rewrite H2, andb_true_r. revert H1. by destruct (status r).
Qed.

Lemma swept_quiet g id r : g ∈ [g1; g2; g3; g4] -> lost_claim j t id r = false -> swept_by t g id r = r.
Proof.
  intros Hg Hl. unfold swept_by. destruct (g id r) eqn:E; [|done].
  assert (fires g id r = true) as H by (unfold fires; by rewrite E). apply fires_lost in H; [congruence|done].
Qed.

(** A lost claim on a well-formed row, statement by statement. *)
Definition after1 := swept_by t g1.
Definition after2 id r := swept_by t g2 id (after1 id r).
Definition after3 id r := swept_by t g3 id (after2 id r).
Definition after4 id r := swept_by t g4 id (after3 id r).

Lemma recovered_unclaimed id r : lost_claim j t id (recovered f t r) = false.
Proof. unfold lost_claim, recovered, lapsed. cbn. by rewrite andb_false_r. Qed.

Lemma statements_lost id r : lapsed j t id r = true -> status_in CLAIMED_MEDIA_OPERATION_STATUSES r = true ->
  is_null (cancelRequestedAt (stop r)) = status_in WORKING_STATUSES r ->
  (MediaOperation.MEDIA_OPERATION_AUTO_RETRIES <=? autoRetries (tries r)) =
    negb (autoRetries (tries r) <? MediaOperation.MEDIA_OPERATION_AUTO_RETRIES) ->
  let c := is_null (cancelRequestedAt (stop r)) in
  let p := is_null (pauseRequestedAt (stop r)) in
  let again := safeAutomaticReplay r && (autoRetries (tries r) <? MediaOperation.MEDIA_OPERATION_AUTO_RETRIES) in
  g1 id r = when (c && negb p) (set_claim (released r) (set_status Paused r)) /\
  g2 id r = when (again && c) (set_claim (released r) (retried f t r)) /\
  g3 id r = when (negb again && c) (set_claim (released r)
    (set_status Failed (set_outcome (mkOutcome (resultAssetId (outcome r)) (Some (failure_error f))
       (Some (failure_code f)) (startedAt (outcome r)) (Some (now t)) (dismissedAt (outcome r))) r))) /\
  g4 id r = when (negb c) (set_claim (released r)
    (set_status Cancelled (set_outcome (mkOutcome (resultAssetId (outcome r)) (error (outcome r)) (errorCode (outcome r))
       (startedAt (outcome r)) (Some (default (now t) (finishedAt (outcome r)))) (dismissedAt (outcome r))) r))).
Proof.
  intros Hlap Hc Hcan Hre. cbv zeta.
  unfold g1, g2, g3, g4, recover_paused, recover_retried, recover_failed, recover_cancelled.
  rewrite Hlap, Hc, Hre, <- Hcan.
  destruct (is_null (cancelRequestedAt (stop r))), (is_null (pauseRequestedAt (stop r))), (safeAutomaticReplay r),
    (autoRetries (tries r) <? MediaOperation.MEDIA_OPERATION_AUTO_RETRIES); repeat split.
Qed.

Lemma sweep_statements id r : row_ok r ->
  fires g1 id r = ends_as Paused j t id r /\
  fires g2 id (after1 id r) = ends_as Queued j t id r /\
  fires g3 id (after2 id r) = ends_as Failed j t id r /\
  fires g4 id (after3 id r) = ends_as Cancelled j t id r /\
  after4 id r = sweep_row f j t id r.
Proof.
  intros Hok. unfold ends_as, sweep_row. destruct (lost_claim j t id r) eqn:Hl.
  2:{ assert (forall g, g ∈ [g1; g2; g3; g4] -> fires g id r = false) as Hq.
      { intros g Hg. destruct (fires g id r) eqn:E; [apply fires_lost in E; [congruence|done]|done]. }
      unfold after4, after3, after2, after1.
      rewrite !(swept_quiet _ id r) by (done || set_solver). rewrite !Hq by set_solver. done. }
  assert (status_in CLAIMED_MEDIA_OPERATION_STATUSES r = true /\ lapsed j t id r = true) as [Hc Hlap]
    by (by apply andb_true_iff in Hl).
  assert (is_null (cancelRequestedAt (stop r)) = status_in WORKING_STATUSES r) as Hcan.
  { destruct Hok as [_ _ O3 O4 _ _ _ _ _ _]. unfold status_in in *. revert O3 O4 Hc.
    destruct (status r), (cancelRequestedAt (stop r)); vm_compute; intuition congruence. }
  assert ((MediaOperation.MEDIA_OPERATION_AUTO_RETRIES <=? autoRetries (tries r)) =
          negb (autoRetries (tries r) <? MediaOperation.MEDIA_OPERATION_AUTO_RETRIES)) as Hre.
  { unfold MediaOperation.MEDIA_OPERATION_AUTO_RETRIES. lia. }
  assert (forall g x, g ∈ [g1; g2; g3; g4] -> g id (touch t (set_claim (released r) x)) = None) as Hdone.
  { intros g x Hg. destruct (g id _) eqn:E; [|done].
    assert (fires g id (touch t (set_claim (released r) x)) = true) as Hf by (unfold fires; by rewrite E).
    apply fires_lost in Hf; [|done]. unfold lost_claim, lapsed in Hf. cbn in Hf. by rewrite andb_false_r in Hf. }
  pose proof (statements_lost id r Hlap Hc Hcan Hre) as (E1 & E2 & E3 & E4).
  assert (pausedIfRequested r = if is_null (pauseRequestedAt (stop r)) then Queued else Paused) as Hp by done.
  unfold after4, after3, after2, after1, swept_by, fires, recovered, recovery_outcome.
  destruct (is_null (cancelRequestedAt (stop r))), (is_null (pauseRequestedAt (stop r))), (safeAutomaticReplay r),
    (autoRetries (tries r) <? MediaOperation.MEDIA_OPERATION_AUTO_RETRIES); cbn [negb andb orb when] in *.
  all: repeat first [rewrite E1 | rewrite E2 | rewrite E3 | rewrite E4 | rewrite Hdone by set_solver].
  all: unfold retried; rewrite ?Hp; repeat split.
Qed.

Lemma fmap_step {A} (g h k : A -> A) (o : option A) :
  (forall x, o = Some x -> g (h x) = k x) -> g <$> (h <$> o) = k <$> o.
Proof. destruct o; cbn; [|done]. intros H. by rewrite H. Qed.

Lemma lookup_swept s g id : rows (update_rows t g s).2 !! id = swept_by t g id <$> rows s !! id.
Proof. apply lookup_update_rows. Qed.

(** The rows a statement answers are those on which it fires. *)
Lemma answers g s : NoDup (update_rows t g s).1 /\
  forall id, id ∈ (update_rows t g s).1 <-> exists r, rows s !! id = Some r /\ fires g id r = true.
Proof.
  cbn. split.
  - pose proof (NoDup_fst_map_to_list (rows s)) as H. induction (map_to_list (rows s)) as [|[k r] l IH]; [constructor|].
    cbn in *. apply NoDup_cons in H as [Hk H]. destruct (g k r); [|by apply IH]. constructor; [|by apply IH].
    intros Hin. apply Hk. apply list_elem_of_omap in Hin as ([k' r'] & Hin & E). cbn in E.
    destruct (g k' r'); [|done]. injection E as ->. apply list_elem_of_fmap. by exists (k, r').
  - intros id. rewrite list_elem_of_omap. split.
    + intros ([k r] & Hin%elem_of_map_to_list & E). cbn in E. destruct (g k r) eqn:Eg; [|done]. injection E as ->.
      exists r. unfold fires. by rewrite Eg.
    + intros (r & Hin & Hf). exists (id, r). rewrite elem_of_map_to_list. split; [done|]. cbn. unfold fires in Hf.
      by destruct (g id r).
Qed.

Lemma answer_count g s (P : string -> Row -> bool) (h : gmap string Row) :
  (forall id r, h !! id = Some r -> exists r', rows s !! id = Some r' /\ fires g id r' = P id r) ->
  (forall id, rows s !! id = None <-> h !! id = None) ->
  length (update_rows t g s).1 = size (filter (fun kr => P kr.1 kr.2 = true) h).
Proof.
  intros Hh Hn. destruct (answers g s) as [Hnd Hin].
  assert (dom (filter (fun kr => P kr.1 kr.2 = true) h) = (list_to_set (update_rows t g s).1 : gset string)) as Hd.
  { apply set_eq. intros id. rewrite elem_of_dom, elem_of_list_to_set, Hin. split.
    - intros [r [E HP]%map_lookup_filter_Some]. cbn in HP. destruct (Hh id r E) as (r' & E' & Hf). exists r'. by rewrite Hf.
    - intros (r' & E' & Hf). destruct (h !! id) as [r|] eqn:E; [|apply Hn in E; congruence].
      destruct (Hh id r E) as (r'' & E'' & Hf'). exists r. apply map_lookup_filter_Some. split; [done|]. cbn.
      rewrite <- Hf'. congruence. }
  rewrite <- (size_dom (D := gset string)), Hd. by rewrite size_list_to_set.
Qed.
End sweep.

Section properties.
Context (publishable : string -> string -> bool) (preview_fence : Row -> Z -> bool) (preview_frames : Row -> bool).
Abbreviation handle := (handle publishable preview_fence preview_frames).
Abbreviation run := (run publishable preview_fence preview_frames).
Abbreviation sys_step := (sys_step publishable preview_fence preview_frames).

(** The rows of a store that the sweep leaves in a status. *)
Definition lost_as (st : MediaOperationStatus) (j : string -> bool) (t : Times) (s : Store) : nat :=
  size (filter (fun kr => ends_as st j t kr.1 kr.2 = true) (rows s)).

(** The sweep, statement by statement, on every row. *)
Lemma sweep_rows (s : Store) f j t (Hs : store_ok s) :
  let s1 := (update_rows t (g1 j t) s).2 in
  let s2 := (update_rows t (g2 f j t) s1).2 in
  let s3 := (update_rows t (g3 f j t) s2).2 in
  (forall id, rows s1 !! id = after1 j t id <$> rows s !! id) /\
  (forall id, rows s2 !! id = after2 f j t id <$> rows s !! id) /\
  (forall id, rows s3 !! id = after3 f j t id <$> rows s !! id) /\
  (forall id, rows (run t (recoverExpiredClaims f j) s).2 !! id = sweep_row f j t id <$> rows s !! id).
Proof.
  intros s1 s2 s3. set (s4 := (update_rows t (g4 j t) s3).2).
  assert (forall id, rows s1 !! id = after1 j t id <$> rows s !! id) as L1 by (intros id; apply lookup_swept).
  assert (forall id, rows s2 !! id = after2 f j t id <$> rows s !! id) as L2.
  { intros id. unfold s2. rewrite lookup_swept, L1. by destruct (rows s !! id). }
  assert (forall id, rows s3 !! id = after3 f j t id <$> rows s !! id) as L3.
  { intros id. unfold s3. rewrite lookup_swept, L2. by destruct (rows s !! id). }
  split; [done|]. split; [done|]. split; [done|]. intros id. change (rows s4 !! id = sweep_row f j t id <$> rows s !! id).
  unfold s4. rewrite lookup_swept, L3. apply fmap_step. intros r E.
  transitivity (after4 f j t id r); [unfold after4; reflexivity|].
  by destruct (sweep_statements f j t id r (Hs id r E)) as (_ & _ & _ & _ & ->).
Qed.

(** C19. A recovery sweep settles every lost claim, once.  Run on any well-formed store, it leaves each row
    whose lease lapsed (and which no active job of the queue still owns) cancelled when its cancel was
    asked for, else held when its pause was, else queued for its one automatic retry when a replay is
    safe and none was used, else failed; every other row is exactly as it was; no lost claim is left;
    and the counts it reports are those of the rows it left in each of the four ways. *)
Theorem recovery_settles (s : Store) (f : Failure) (j : string -> bool) (t : Times) (Hs : store_ok s) :
  let x := run t (recoverExpiredClaims f j) s in
  rows x.2 = map_imap (fun id r => Some (if lost_claim j t id r then recovered f t r else r)) (rows s) /\
  checkpoints x.2 = checkpoints s /\
  (forall id r, rows x.2 !! id = Some r -> lost_claim j t id r = false) /\
  x.1 = mkRecovery 0 (lost_as Queued j t s) (lost_as Failed j t s) (lost_as Cancelled j t s) (lost_as Paused j t s).
Proof.
  set (s1 := (update_rows t (g1 j t) s).2). set (s2 := (update_rows t (g2 f j t) s1).2).
  set (s3 := (update_rows t (g3 f j t) s2).2). set (s4 := (update_rows t (g4 j t) s3).2).
  pose proof (sweep_rows s f j t Hs) as (L1 & L2 & L3 & L4). fold s1 in L1, L2, L3. fold s2 in L2, L3. fold s3 in L3.
  assert (run t (recoverExpiredClaims f j) s =
          (mkRecovery 0 (length (update_rows t (g2 f j t) s1).1) (length (update_rows t (g3 f j t) s2).1)
             (length (update_rows t (g4 j t) s3).1) (length (update_rows t (g1 j t) s).1), s4)) as -> by reflexivity.
  cbv zeta. cbn [fst snd]. split; [|split; [reflexivity|split]].
  - apply map_eq. intros id. rewrite map_lookup_imap, L4. by destruct (rows s !! id).
  - intros id r E4. rewrite L4 in E4.
    destruct (rows s !! id) as [r0|]; [|done]. injection E4 as <-. unfold sweep_row.
    destruct (lost_claim j t id r0) eqn:El; [apply recovered_unclaimed|done].
  - unfold lost_as.
    rewrite <- (answer_count t (g2 f j t) s1 (ends_as Queued j t) (rows s)),
      <- (answer_count t (g3 f j t) s2 (ends_as Failed j t) (rows s)),
      <- (answer_count t (g4 j t) s3 (ends_as Cancelled j t) (rows s)),
      <- (answer_count t (g1 j t) s (ends_as Paused j t) (rows s)); [done|..].
    all: try (intros id; rewrite ?L1, ?L2, ?L3; by destruct (rows s !! id)).
    all: intros id r E; rewrite ?L1, ?L2, ?L3, E; eexists; split; [reflexivity|].
    all: destruct (sweep_statements f j t id r (Hs id r E)) as (F1 & F2 & F3 & F4 & _).
    all: match goal with F : ?x = _ |- ?x = _ => exact F end.
Qed.

(** ** Draining a queue *)

Definition no_lock (_ : string) : bool := false.

(** Claims in a row, under the same options, with nothing in between; each answers the job it took. *)
Inductive drain (o : ClaimOptions) (t : Times) : Store -> list string -> Store -> Prop :=
| drain_nil s : drain o t s [] s
| drain_cons s id ids token row s' :
    (handle t (ClaimNext id o token no_lock) s).1 = Some row ->
    drain o t (handle t (ClaimNext id o token no_lock) s).2 ids s' -> drain o t s (id :: ids) s'.

Definition waits (o : ClaimOptions) (t : Times) (s : Store) (id : string) : Prop :=
  exists r, rows s !! id = Some r /\ claimable o t r = true.
Definition age (s : Store) (id : string) : Z :=
  match rows s !! id with Some r => createdAt (request r) | None => 0 end.

Lemma oldest_spec p m id : oldest p m id = true <->
  exists r, m !! id = Some r /\ p id r = true /\
    forall k r', m !! k = Some r' -> p k r' = true -> createdAt (request r) <= createdAt (request r').
Proof.
  unfold oldest. destruct (m !! id) as [r|]; [|by split; [|intros (? & ? & _)]]. rewrite andb_true_iff, forallb_forall. split.
  - intros [Hp Hall]. exists r. split; [done|]. split; [done|]. intros k r' E Hk.
    specialize (Hall (k, r')). cbn in Hall. rewrite Hk in Hall. cbn in Hall. apply Z.leb_le, Hall.
    by apply list_elem_of_In, elem_of_map_to_list.
  - intros (r0 & [= <-] & Hp & Hall). split; [done|]. intros [k r'] Hin%list_elem_of_In%elem_of_map_to_list. cbn.
    destruct (p k r') eqn:Ek; [|done]. cbn. apply Z.leb_le. by apply (Hall k).
Qed.

(** Among finitely many waiting jobs one is the oldest. *)
Lemma oldest_exists (p : string -> Row -> bool) (m : gmap string Row) k r : m !! k = Some r -> p k r = true ->
  exists id, oldest p m id = true.
Proof.
  intros E Hp. set (X := dom (filter (fun kr => p kr.1 kr.2 = true) m)).
  set (R := fun x y => match m !! x, m !! y with
                       | Some a, Some b => createdAt (request a) <= createdAt (request b) | _, _ => False end).
  assert (forall x, x ∈ X <-> exists a, m !! x = Some a /\ p x a = true) as HX.
  { intros x. unfold X. rewrite elem_of_dom. split.
    - intros [a [Ea Ha]%map_lookup_filter_Some]. by exists a.
    - intros (a & Ea & Ha). exists a. by apply map_lookup_filter_Some. }
  assert (forall x y, Decision (R x y)) by (intros x y; unfold R; destruct (m !! x), (m !! y); apply _).
  assert (Transitive R) by (intros x y z; unfold R; destruct (m !! x), (m !! y), (m !! z); by intros; try lia).
  destruct (minimal_exists_elem_of R X) as (id & Hid & Hmin).
  { intros He. assert (k ∈ X) as Hk by (apply HX; by exists r). by apply (He k) in Hk. }
  apply HX in Hid as (a & Ea & Ha). exists id. apply oldest_spec. exists a. split; [done|]. split; [done|].
  intros x b Eb Hb. destruct (decide (createdAt (request b) < createdAt (request a))); [|lia].
  assert (R id x); [|unfold R in *; by rewrite Ea, Eb in *].
  apply Hmin; [apply HX; by exists b|]. unfold R. rewrite Ea, Eb. lia.
Qed.

Lemma claim_answer o t s id token row : (handle t (ClaimNext id o token no_lock) s).1 = Some row ->
  exists r, rows s !! id = Some r /\ claimable o t r = true /\
    (forall k, waits o t s k -> createdAt (request r) <= age s k) /\
    rows (handle t (ClaimNext id o token no_lock) s).2 = <[id := touch t (taken (workerId o) token (leaseMs o) t r)]> (rows s).
Proof.
  cbn [OperationStore.handle]. destruct (oldest _ _ _) eqn:Eo; [|done]. apply oldest_spec in Eo as (r & E & Hp & Hmin).
  unfold update_row. rewrite E. cbn. intros _. exists r. split; [done|]. cbn in Hp. rewrite andb_true_r in Hp. split; [done|].
  split; [|done]. intros k (r' & E' & Hc). unfold age. rewrite E'. apply (Hmin k r' E'). cbn. by rewrite Hc.
Qed.

Lemma waits_after o t s s' id token r : rows s !! id = Some r ->
  rows s' = <[id := touch t (taken (workerId o) token (leaseMs o) t r)]> (rows s) ->
  (forall k, waits o t s' k <-> waits o t s k /\ k <> id) /\ forall k, age s' k = age s k.
Proof.
  intros E Es. unfold waits, age. rewrite Es. split; intros k; (destruct (decide (id = k)) as [<-|Hne];
    [rewrite lookup_insert_eq|rewrite lookup_insert_ne by done]).
  - split; [by intros (? & [= <-] & H)|by intros [_ ?]].
  - split; [|by intros [? _]]. intros H. split; [done|congruence].
  - by rewrite E.
  - done.
Qed.

(** The jobs waiting no longer than [id] does. *)
Definition ahead (o : ClaimOptions) (t : Times) (s : Store) (id : string) : gset string :=
  dom (filter (fun kr => claimable o t kr.2 && (createdAt (request kr.2) <=? age s id) = true) (rows s)).

Lemma elem_of_ahead o t s id k : k ∈ ahead o t s id <-> waits o t s k /\ age s k <= age s id.
Proof.
  unfold ahead, waits. rewrite elem_of_dom. split.
  - intros [r [E [Hc Ha]%andb_true_iff]%map_lookup_filter_Some]. unfold age at 1. rewrite E.
    split; [by exists r|]. by apply Z.leb_le in Ha.
  - intros [(r & E & Hc) Ha]. unfold age at 1 in Ha. rewrite E in Ha. exists r. apply map_lookup_filter_Some. split; [done|].
    cbn in *. rewrite Hc. cbn. by apply Z.leb_le.
Qed.

Lemma drain_facts o t s ids s' : drain o t s ids s' ->
  NoDup ids /\ (forall k, k ∈ ids -> waits o t s k) /\ StronglySorted (fun a b => age s a <= age s b) ids /\
  (forall k, waits o t s' k <-> waits o t s k /\ k ∉ ids) /\
  (forall k i, waits o t s' k -> i ∈ ids -> age s i <= age s k).
Proof.
  induction 1 as [s|s id ids token row s' Hc _ (Hnd & Hin & Hsort & Hw & Hle)].
  { repeat split; try constructor; set_solver. }
  apply claim_answer in Hc as (r & E & Hcl & Hmin & Erows). set (s1 := (handle _ _ s).2) in *.
  destruct (waits_after o t s s1 id token r E Erows) as [Hw1 Ha1].
  assert (forall k, waits o t s1 k -> age s id <= age s k) as Hfirst.
  { intros k Hk. unfold age at 1. rewrite E. apply Hmin. by apply Hw1. }
  assert (forall k, k ∈ ids -> waits o t s k /\ k <> id) as Hids by (intros k Hk; by apply Hw1, Hin).
  split; [|split; [|split; [|split]]].
  - constructor; [|done]. intros Hk. by apply Hids in Hk as [_ ?].
  - intros k [->|Hk]%elem_of_cons; [by exists r|by apply Hids].
  - constructor.
    + clear -Hsort Ha1. induction Hsort as [|a l Hs IH Hall]; constructor; [done|].
      eapply Forall_impl; [exact Hall|]. cbn. intros b. by rewrite !Ha1.
    + apply Forall_forall. intros k Hk. by apply Hfirst, Hin.
  - intros k. rewrite Hw, Hw1. set_solver.
  - intros k i Hk [->|Hi]%elem_of_cons; [|rewrite <- !Ha1; by apply Hle].
    apply Hfirst. by apply Hw in Hk as [? _].
Qed.

(** A queue drains, oldest first.  While a job waits that a worker may claim, a claim answers one; a
    run of claims answers different jobs, each of which waited, in the order they were submitted; what is
    left waiting is what was not answered, and is no older than any job that was; and a job is answered
    once as many claims have run as jobs wait that are no younger than it. *)
Theorem claims_drain_oldest_first (o : ClaimOptions) (t : Times) (s : Store) :
  (forall token, (exists k, waits o t s k) <-> exists id row, (handle t (ClaimNext id o token no_lock) s).1 = Some row) /\
  forall ids s', drain o t s ids s' ->
    NoDup ids /\ StronglySorted (fun a b => age s a <= age s b) ids /\
    (forall k, waits o t s' k <-> waits o t s k /\ k ∉ ids) /\
    (forall k i, waits o t s' k -> i ∈ ids -> waits o t s i /\ age s i <= age s k) /\
    (forall k, waits o t s k -> (size (ahead o t s k) <= length ids)%nat -> k ∈ ids).
Proof.
  split.
  - intros token. split.
    + intros (k & r & E & Hc). destruct (oldest_exists (fun k r => claimable o t r && negb (no_lock k)) (rows s) k r E) as [id Hid].
      { cbn. by rewrite Hc. }
      pose proof Hid as (ro & Eo & _)%oldest_spec.
      exists id. cbn [OperationStore.handle]. rewrite Hid. unfold update_row. rewrite Eo. by eexists.
    + intros (id & row & Hc). apply claim_answer in Hc as (r & E & Hcl & _). exists id. by exists r.
  - intros ids s' Hd. destruct (drain_facts _ _ _ _ _ Hd) as (Hnd & Hin & Hsort & Hw & Hle).
    split; [done|]. split; [done|]. split; [done|]. split; [auto|]. intros k Hk Hlen.
    destruct (decide (k ∈ ids)) as [|Hno]; [done|exfalso].
    assert (list_to_set (k :: ids) ⊆ ahead o t s k) as Hsub.
    { intros i Hi%elem_of_list_to_set. apply elem_of_ahead. apply elem_of_cons in Hi as [->|Hi]; [by split|].
      split; [by apply Hin|]. apply Hle; [by apply Hw|done]. }
    apply subseteq_size in Hsub. rewrite size_list_to_set in Hsub by by constructor. cbn in Hsub. lia.
Qed.

(** ** How often a job runs *)

(** The answer of [o] hands job [id] to a worker. *)
Definition hands {A} (id : string) (o : OpE A) : A -> bool :=
  match o in OpE A return A -> bool with
  | ClaimNext k _ _ _ | BeginJobQueueRun k _ _ => fun x => bool_decide (k = id) && negb (is_null x)
  | _ => fun _ => false
  end.

(** Steps that put a job on hold at its owner's wish, or back in the queue at its worker's. *)
Definition gives_back {A} (id : string) (o : OpE A) : bool :=
  match o with RequestPause k _ _ | Requeue k _ _ _ _ => bool_decide (k = id) | _ => false end.

(** [n] of the steps from [s] to [s'] handed [id] to a worker, and none gave it back. *)
Inductive runs_of (id : string) : Sys -> nat -> Sys -> Prop :=
| runs_nil s : runs_of id s 0 s
| runs_step {A} (o : OpE A) t s n s' :
    gives_back id o = false -> (forall v, new_token o = Some v -> v ∉ issued s) ->
    let x := handle t o (store s) in
    runs_of id (mkSys x.2 (issue (new_token o) (issued s))) n s' ->
    runs_of id s ((if hands id o x.1 then 1 else 0) + n) s'.

(** The runs a row has left. *)
Definition runs_left (r : Row) : Z :=
  match status r with
  | Queued => 2 - autoRetries (tries r)
  | Preparing | Rendering | Validating => 1 - autoRetries (tries r)
  | _ => 0
  end.
Definition never_paused (r : Row) : Prop :=
  pauseRequestedAt (stop r) = None /\ status r <> Paused.

(** A write that is none of those leaves a row unpaused, and takes a run exactly when it hands the job out. *)
Definition spends (n : Z) (f : Row -> option Row) : Prop :=
  forall r r', row_ok r -> never_paused r -> f r = Some r' -> never_paused r' /\ runs_left r' + n <= runs_left r.

Ltac spends_op :=
  let r := fresh "r" in let r' := fresh "r'" in let Hok := fresh "Hok" in let Hn := fresh "Hn" in let Hs := fresh "Hs" in
  let H := fresh "H" in
  intros r r' Hok [Hn Hs] H; apply when_Some in H as [H ->]; split_guard H;
  destruct r as [rq st [tok by_ ex hb] [can ack pau] [att aut ret] w [ra er ec sa fi di] [rj rr] up];
  destruct Hok as [O1 O2 O3 O4 O5 O6 O7 O8 O9 O10];
  unfold holds, status_in, unfinished, pausedIfRequested, never_paused, runs_left in *;
  cbn [request status claim stop tries work outcome remote claimToken claimedBy claimExpiresAt heartbeatAt
       cancelRequestedAt cancelAcknowledgedAt pauseRequestedAt attempt autoRetries retryAt resultAssetId error errorCode
       startedAt finishedAt dismissedAt remoteJobId remoteReleasedAt] in *;
  subst; status_cases; eval_status; null_cases; cbn; try congruence; split; try (split; congruence); try lia; try (cbv -[Z.le Z.add Z.sub]; first [lia | intuition congruence]).

Lemma spends_begin token lease t : spends 1 (beginJobQueueRun token lease t).
Proof. unfold spends, beginJobQueueRun, taken. spends_op. Qed.
Lemma spends_taken o token b t : spends 1 (fun r => when (claimable o t r && b) (taken (workerId o) token (leaseMs o) t r)).
Proof. unfold spends, claimable, taken. spends_op. Qed.
Lemma spends_setRemoteJobId token job : spends 0 (setRemoteJobId token job).
Proof. unfold spends, setRemoteJobId. spends_op. Qed.
Lemma spends_heartbeat token lease a t : spends 0 (heartbeat token lease a t).
Proof. unfold spends, heartbeat, extended. spends_op. Qed.
Lemma spends_reportProgress token patch t : spends 0 (reportProgress token patch t).
Proof.
  unfold spends, reportProgress, seen. intros r0 r1. destruct patch as [p n tot pr sr]; cbn [patch_status].
  destruct p; cbn [PROGRESS_FROM]; try done; destruct (render_result _ r0) as [res|]; try done; revert r0 r1; spends_op.
Qed.
Lemma spends_setBackupTransfer token v t : spends 0 (setBackupTransfer token v t).
Proof.
  unfold spends, setBackupTransfer. intros r0 r1. destruct (match result (work r0) with None => _ | Some _ => _ end) as [fs|]; [|done].
  revert r0 r1. spends_op.
Qed.
Lemma spends_mergeStreamSignal fields n : spends 0 (mergeStreamSignal fields n).
Proof. unfold spends, mergeStreamSignal. spends_op. Qed.
Lemma spends_setBulkResult token patch a t : spends 0 (setBulkResult token patch a t).
Proof. unfold spends, setBulkResult, extended. spends_op. Qed.
Lemma spends_beginValidation token a t : spends 0 (beginValidation token a t).
Proof. unfold spends, beginValidation, seen. spends_op. Qed.
Lemma spends_complete pub token c a t : spends 0 (complete pub token c a t).
Proof. unfold spends, complete. spends_op. Qed.
Lemma spends_fail_retry token f res a t : spends 0 (fail_retry token f res a t).
Proof. unfold spends, fail_retry, retried, MediaOperation.MEDIA_OPERATION_AUTO_RETRIES. spends_op. Qed.
Lemma spends_fail_final token f a t : spends 0 (fail_final token f a t).
Proof. unfold spends, fail_final. spends_op. Qed.
Lemma spends_requestCancel owner token q t : spends 0 (requestCancel owner token q t).
Proof. unfold spends, requestCancel. spends_op. Qed.
Lemma spends_acknowledgeCancel fence token rel a t : spends 0 (acknowledgeCancel fence token rel a t).
Proof. unfold spends, acknowledgeCancel. spends_op. Qed.
Lemma spends_resume owner t : spends 0 (resume owner t).
Proof. unfold spends, resume. spends_op. Qed.
Lemma spends_settlePause token t : spends 0 (settlePause token t).
Proof. unfold spends, settlePause. spends_op. Qed.
Lemma spends_dismiss owner t : spends 0 (dismiss owner t).
Proof. unfold spends, dismiss. spends_op. Qed.
Lemma spends_setFinishedResult v : spends 0 (setFinishedResult v).
Proof. unfold spends, setFinishedResult. spends_op. Qed.
Lemma spends_recordRemoteJobId job : spends 0 (recordRemoteJobId job).
Proof. unfold spends, recordRemoteJobId. spends_op. Qed.
Lemma spends_recover_paused j t id : spends 0 (recover_paused j t id).
Proof. unfold spends, recover_paused. spends_op. Qed.
Lemma spends_recover_retried f j t id : spends 0 (recover_retried f j t id).
Proof. unfold spends, recover_retried, retried, MediaOperation.MEDIA_OPERATION_AUTO_RETRIES. spends_op. Qed.
Lemma spends_recover_failed f j t id : spends 0 (recover_failed f j t id).
Proof. unfold spends, recover_failed. spends_op. Qed.
Lemma spends_recover_cancelled j t id : spends 0 (recover_cancelled j t id).
Proof. unfold spends, recover_cancelled. spends_op. Qed.
Lemma spends_releaseDispatch : spends 0 releaseJobQueueDispatch.
Proof. unfold spends, releaseJobQueueDispatch, set_claimedBy. spends_op. Qed.
Lemma spends_stopUnconfirmed reason t : spends 0 (stopUnconfirmed reason t).
Proof. unfold spends, stopUnconfirmed, claimed_by_queue. spends_op. Qed.
Lemma spends_expireClaim t : spends 0 (expireClaim t).
Proof. unfold spends, expireClaim, claimed_by_queue. spends_op. Qed.
Lemma spends_markRemoteReleased t : spends 0 (markRemoteReleased t).
Proof. unfold spends, markRemoteReleased. intros r r' _ Hn [= <-]. split; [done|]. unfold runs_left; cbn; lia. Qed.
Lemma spends_dispatch (ids : list string) (id : string) : spends 0
  (fun r => when (includes id ids) (set_claimedBy (Some EditOperation.JOB_QUEUE_CLAIMANT) r)).
Proof. intros r r' _ Hn H. apply when_Some in H as [_ ->]. split; [done|]. unfold runs_left; cbn; lia. Qed.

Create HintDb spends.
#[local] Hint Resolve spends_begin spends_taken spends_setRemoteJobId spends_heartbeat spends_reportProgress
  spends_setBackupTransfer spends_setBulkResult spends_beginValidation spends_complete spends_fail_retry
  spends_fail_final spends_requestCancel spends_acknowledgeCancel spends_resume spends_settlePause spends_dismiss
  spends_setFinishedResult spends_mergeStreamSignal spends_recordRemoteJobId spends_recover_paused spends_recover_retried
  spends_recover_failed spends_recover_cancelled spends_releaseDispatch spends_markRemoteReleased
  spends_dispatch spends_stopUnconfirmed spends_expireClaim : spends.

Definition spent (n : Z) (id : string) (s s' : Store) : Prop :=
  forall r, rows s !! id = Some r -> never_paused r ->
    exists r', rows s' !! id = Some r' /\ never_paused r' /\ runs_left r' + n <= runs_left r.

Lemma spent_same id s s' : rows s' !! id = rows s !! id -> spent 0 id s s'.
Proof. intros E r Er Hn. exists r. rewrite E. split; [done|]. split; [done|lia]. Qed.

Lemma spent_insert id k c t s s' : insert_row k c t s = Some s' -> spent 0 id s s'.
Proof.
  intros [E ->]%insert_row_spec r Er Hn. apply (spent_same id s); [|done..]. cbn. apply lookup_insert_ne. congruence.
Qed.

(** What a guarded write spends of job [id]: [n], when it writes that job. *)
Lemma spent_update n k t id f s : store_ok s -> 0 <= n -> (k = id -> spends n f) ->
  spent (if bool_decide (k = id) && negb (is_null (update_row t k f s).1) then n else 0) id s (update_row t k f s).2.
Proof.
  intros Hs Hpos Hf r E Hn. unfold update_row. destruct (decide (k = id)) as [->|Hne].
  - rewrite E, bool_decide_true by done. cbn. destruct (f r) as [r'|] eqn:Ef; cbn.
    + destruct (Hf eq_refl r r' (Hs id r E) Hn Ef) as [Hn' Hle]. exists (touch t r'). by rewrite lookup_insert_eq.
    + exists r. split; [done|]. split; [done|lia].
  - rewrite bool_decide_false by done. cbn. destruct (rows s !! k ≫= f); cbn; exists r;
      (split; [by rewrite ?lookup_insert_ne|]; split; [done|lia]).
Qed.

Lemma spent_update_0 k t id f s : store_ok s -> (k = id -> spends 0 f) -> spent 0 id s (update_row t k f s).2.
Proof. intros Hs Hf. pose proof (spent_update 0 k t id f s Hs ltac:(lia) Hf) as H. by destruct (_ && _). Qed.

Lemma spent_update_rows t f id s : store_ok s -> (forall k, spends 0 (f k)) -> spent 0 id s (update_rows t f s).2.
Proof.
  intros Hs Hf r E Hn. rewrite lookup_update_rows, E. cbn. eexists. split; [done|].
  destruct (f id r) as [r'|] eqn:Ef; [|split; [done|lia]]. exact (Hf id r r' (Hs id r E) Hn Ef).
Qed.

Lemma handle_spent {A} id (o : OpE A) t s : store_ok s -> gives_back id o = false ->
  spent (if hands id o (handle t o s).1 then 1 else 0) id s (handle t o s).2.
Proof.
  intros Hs Hg. destruct o; cbn [hands]; try (rewrite ?claimNext_update, ?publish_row); cbn [OperationStore.handle gives_back] in *.
  all: try (apply spent_update_0; [done|]; intros ->; try (by rewrite bool_decide_true in Hg); auto with spends).
  all: try (apply spent_update_rows; [done|]; auto with spends).
  - destruct (insert_row id0 c t s) eqn:E; [by eapply spent_insert|by apply spent_same].
  - unfold create_unless. destruct (existsb _ _); [by apply spent_same|].
    destruct (insert_row id0 c t s) eqn:E; [by eapply spent_insert|by apply spent_same].
  - unfold create_unless. destruct (existsb _ _); [by apply spent_same|].
    destruct (insert_row id0 c t s) eqn:E; [by eapply spent_insert|by apply spent_same].
  - destruct (existsb _ _); [by apply spent_same|].
    destruct (insert_row id0 c t s) eqn:E; [by eapply spent_insert|]. apply spent_same. by repeat case_match.
  - by apply spent_same.
  - destruct (oldest _ _ _); [apply spent_update; auto with spends; lia|]. rewrite andb_false_r. by apply spent_same.
  - apply spent_update; auto with spends; lia.
  - destruct accepts; [apply spent_update_0; auto with spends|by apply spent_same].
  - destruct (dispatch_choice _ _ _ _); [apply spent_update_rows; auto with spends|by apply spent_same].
  - intros k. destruct (includes k ids); [apply spends_releaseDispatch|done].
  - apply spent_same. by rewrite checkpoint_step_rows.
  - apply spent_same. by rewrite completeCheckpoint_rows.
  - apply spent_same. by rewrite invalidate_rows.
Qed.

(** A job runs twice at most.  Unless its owner pauses it or its own worker puts it back in the queue,
    a job that is not paused is handed to a worker no more often than it has runs left: twice while it
    waits and no retry was used, once when the retry was used or while its first run lasts, and never
    again once it ended, is cancelled or runs for the second time; whatever fails, lapses and recovers in
    between. *)
Theorem at_most_two_runs (id : string) (s s' : Sys) (n : nat) (r : Row) (Hs : sys_ok s)
    (Hr : rows (store s) !! id = Some r) (Hp : never_paused r) (Hruns : runs_of id s n s') :
  Z.of_nat n <= runs_left r <= 2.
Proof.
  split.
  2:{ destruct Hs as [Hs _ _]. destruct (Hs id r Hr) as [_ _ _ _ _ _ _ O8 _ _]. unfold runs_left. destruct (status r); lia. }
  revert r Hr Hp. induction Hruns as [s|A o t s n s' Hg Hnew x Hrest IH]; intros r Hr Hp.
  - destruct Hs as [Hs _ _]. destruct (Hs id r Hr) as [_ _ _ _ _ _ _ O8 _ _]. unfold runs_left. destruct (status r); cbn; lia.
  - destruct (handle_spent id o t (store s) (ok_rows _ Hs) Hg r Hr Hp) as (r1 & Hr1 & Hp1 & Hle).
    assert (sys_ok (mkSys x.2 (issue (new_token o) (issued s)))) as Hs1.
    { eapply sys_step_ok; [exact Hs|]. by apply (sys_op publishable preview_fence preview_frames o t s). }
    specialize (IH Hs1 r1 Hr1 Hp1). change (handle t o (store s)) with x in Hle. destruct (hands id o x.1); lia.
Qed.

(** ** A cancel, to its end *)

Definition stopping (j : Job) : Prop := (exists v, j = Held v true) \/ j = Ended Cancelled \/ j = Ended Failed.

Lemma stopping_step a j j' : lease_step a j j' -> stopping j -> stopping j'.
Proof.
  unfold stopping. intros Hs [[v ->]|[->| ->]]; inversion Hs; subst; eauto.
Qed.
Lemma ended_step a x j' : ~ lease_step a (Ended x) j'.
Proof. inversion 1. Qed.

(** What every step of its contract keeps of a job, the repository keeps. *)
Lemma job_along (P : Job -> Prop) id s s' r :
  (forall a j j', lease_step a j j' -> P j -> P j') -> sys_ok s -> rtc sys_step s s' ->
  rows (store s) !! id = Some r -> P (job_of r) ->
  exists r', rows (store s') !! id = Some r' /\ P (job_of r').
Proof.
  intros HP Hs H. revert r Hs. induction H as [s|s s1 s' Hstep _ IH]; intros r Hs Er Hr; [by exists r|].
  pose proof (sys_step_ok _ _ _ _ _ Hs Hstep) as Hs1. destruct Hstep as [A o t s Hnew].
  destruct (handle_moves publishable preview_fence preview_frames t o (store s) (ok_rows _ Hs)) as [_ Hm].
  specialize (Hm id). rewrite Er in Hm. destruct (rows (handle t o (store s)).2 !! id) as [r1|] eqn:E1; [|done].
  apply (IH r1 Hs1 E1). destruct Hm as [->|[_ [->|Hj] _ _]]; [done..|by eapply HP].
Qed.

Lemma status_of_stopping r : stopping (job_of r) <-> status r ∈ [Cancelling; Cancelled; Failed].
Proof.
  unfold stopping, job_of. rewrite !elem_of_cons, elem_of_nil.
  destruct (status r); naive_solver.
Qed.

Lemma requestCancel_fires owner t r : ownerId (request r) = owner -> unfinished r = true ->
  exists r', requestCancel owner None false t r = Some r' /\
    status r' = if status_in UNCLAIMED_STATUSES r then Cancelled else Cancelling.
Proof.
  intros Ho Hu. unfold requestCancel. rewrite Hu. rewrite bool_decide_true by done. cbn. by eexists.
Qed.

(** A sweep is four statements of the repository. *)
Lemma sweep_steps f j t s : rtc sys_step s (mkSys (run t (recoverExpiredClaims f j) (store s)).2 (issued s)).
Proof.
  destruct s as [s u]. cbn [store issued]. unfold recoverExpiredClaims. cbn [OperationStore.run].
  eapply rtc_l; [apply (sys_op publishable preview_fence preview_frames (RecoverPaused j) t (mkSys s u)); done|].
  eapply rtc_l; [apply (sys_op publishable preview_fence preview_frames (RecoverRetried f j) t); done|].
  eapply rtc_l; [apply (sys_op publishable preview_fence preview_frames (RecoverFailed f j) t); done|].
  eapply rtc_l; [apply (sys_op publishable preview_fence preview_frames (RecoverCancelled j) t); done|]. apply rtc_refl.
Qed.

(** C20. A cancel ends a job.  Once its owner has asked, an unfinished job is cancelled at once if no worker had it; else it is only ever
    stopping, cancelled or failed, whatever its worker, the owner, other workers and recovery do from then on, in particular it never
    completes, waits or runs again.  At any later time at which its lease has lapsed, and unless it is the job queue that claimed it and one
    of the queue's active jobs still names it, one recovery sweep leaves it cancelled, and cancelled it stays whatever runs after that. *)
Theorem cancel_always_ends (s s' : Sys) (id : string) (r : Row) (t : Times) (Hs : sys_ok s)
    (Hr : rows (store s) !! id = Some r) (Hu : unfinished r = true)
    (Hrun : rtc sys_step (mkSys (handle t (RequestCancel id (ownerId (request r)) None false) (store s)).2 (issued s)) s') :
  exists r', rows (store s') !! id = Some r' /\ status r' ∈ [Cancelling; Cancelled; Failed] /\
    (status_in UNCLAIMED_STATUSES r = true -> status r' = Cancelled) /\
    forall f j t', earlier (claimExpiresAt (claim r')) (now t') = true ->
      (claimedBy (claim r') <> Some EditOperation.JOB_QUEUE_CLAIMANT \/ j id = false) ->
      forall s'', rtc sys_step (mkSys (run t' (recoverExpiredClaims f j) (store s')).2 (issued s')) s'' ->
        (status <$> rows (store s'') !! id) = Some Cancelled.
Proof.
  destruct (requestCancel_fires (ownerId (request r)) t r eq_refl Hu) as (r1 & H1 & St1).
  set (s1 := mkSys _ _) in Hrun.
  assert (rows (store s1) !! id = Some (touch t r1)) as E1.
  { unfold s1. cbn. unfold update_row. rewrite Hr. cbn. rewrite H1. cbn. by rewrite lookup_insert_eq. }
  assert (sys_ok s1) as Hs1.
  { eapply sys_step_ok; [exact Hs|]. by apply (sys_op publishable preview_fence preview_frames (RequestCancel id _ None false) t s). }
  destruct (job_along stopping id s1 s' (touch t r1) stopping_step Hs1 Hrun E1) as (r' & E' & Hst).
  { apply status_of_stopping. change (status (touch t r1)) with (status r1). rewrite St1.
    destruct (status_in _ r); set_solver. }
  pose proof (sys_steps_ok _ _ _ _ _ Hs1 Hrun) as [Hs' _ _].
  exists r'. split; [done|]. split; [by apply status_of_stopping|]. split.
  - intros Hidle. rewrite Hidle in St1.
    destruct (job_along (fun j => j = Ended Cancelled) id s1 s' (touch t r1)) as (r2 & E2 & Hj2); try done.
    + intros a j j' Hl ->. by apply ended_step in Hl.
    + unfold job_of. change (status (touch t r1)) with (status r1). by rewrite St1.
    + rewrite E' in E2. injection E2 as <-. revert Hj2. unfold job_of. destruct (status r'); congruence.
  - intros f j t' Hexp Hown.
    assert (is_claimed (status r') = true) as Hcl.
    { pose proof (Hs' id r' E') as [_ O2 _ _ _ _ _ _ _ _]. unfold earlier in Hexp. destruct (claimExpiresAt (claim r')); [|done].
      cbn in O2. by destruct (is_claimed (status r')). }
    assert (lost_claim j t' id r' = true) as Hl.
    { unfold lost_claim, lapsed, executionOwnerSettled. rewrite Hcl, Hexp. destruct Hown as [Hn| ->]; [by rewrite bool_decide_false|by rewrite orb_true_r]. }
    set (sw := (run t' (recoverExpiredClaims f j) (store s')).2).
    assert ((status <$> rows sw !! id) = Some Cancelled) as Hsw.
    { unfold sw. destruct (recovery_settles (store s') f j t' Hs') as [-> _]. rewrite map_lookup_imap, E'. cbn. rewrite Hl.
      f_equal. pose proof (Hs' id r' E') as [_ _ _ O4 _ _ _ _ _ _]. apply status_of_stopping in Hst.
      assert (status r' = Cancelling) as Hc.
      { revert Hcl Hst. rewrite !elem_of_cons, elem_of_nil. destruct (status r'); try done; naive_solver. }
      unfold recovered, recovery_outcome. rewrite Hc in O4.
      change (negb (is_null (cancelRequestedAt (stop r'))) = true) in O4. by rewrite O4. }
    intros s'' Hlater. pose proof (sweep_steps f j t' s') as Hsweep. fold sw in Hsweep.
    apply fmap_Some in Hsw as (r2 & E2 & St2). symmetry in St2.
    destruct (job_along (fun j => j = Ended Cancelled) id (mkSys sw (issued s')) s'' r2) as (r3 & E3 & Hj3); try done.
    + intros a x x' Hx ->. by apply ended_step in Hx.
    + eapply sys_steps_ok; [by eapply sys_steps_ok|exact Hsweep].
    + unfold job_of. by rewrite St2.
    + rewrite E3. cbn. f_equal. revert Hj3. unfold job_of. destruct (status r3); congruence.
Qed.

(** ** One at a time *)

(** Submissions of the kinds [ks] go by [createExclusive], each naming all of them. *)
Definition submits_alone {A} (ks : list MediaOperationKind) (o : OpE A) : Prop :=
  match o with
  | Create _ c | CreateUnlessActive _ c _ _ | CreateRetry _ c => kind (create_request c) ∉ ks
  | CreateExclusive _ c also => kind (create_request c) ∈ ks -> forall k, k ∈ ks -> k ∈ kind (create_request c) :: also
  | _ => True
  end.

Inductive alone_step (ks : list MediaOperationKind) : Sys -> Sys -> Prop :=
| alone_op {A} (o : OpE A) t s :
    submits_alone ks o -> (forall v, new_token o = Some v -> v ∉ issued s) ->
    alone_step ks s (mkSys (handle t o (store s)).2 (issue (new_token o) (issued s))).

Definition running (ks : list MediaOperationKind) (s : Store) (id : string) : Prop :=
  exists r, rows s !! id = Some r /\ active_of_kinds ks r = true.

Lemma unfinished_job r : unfinished r = true <-> forall x, job_of r <> Ended x.
Proof.
  unfold unfinished, status_in, job_of. split.
  - intros H x. destruct (status r); try done; discriminate H.
  - intros H. destruct (status r); try done; exfalso; by eapply H.
Qed.

Lemma running_before ks a s s' id : moves a s s' -> running ks s' id -> rows s !! id <> None -> running ks s id.
Proof.
  intros Hm (r' & E' & Ha) Hold. specialize (Hm id). rewrite E' in Hm. destruct (rows s !! id) as [r|] eqn:E; [|done].
  exists r. split; [done|]. unfold active_of_kinds in *. apply andb_true_iff in Ha as [Hk Hu].
  destruct Hm as [->|[Hreq Hj _ _]]; [by rewrite Hk, Hu|]. rewrite <- Hreq, Hk. cbn. apply unfinished_job. intros x Ex.
  destruct Hj as [Hj|Hj]; [apply unfinished_job with (x := x) in Hu; congruence|].
  rewrite Ex in Hj. by apply ended_step in Hj.
Qed.

(** A job that appears was submitted by the step, and an exclusive submission looked first. *)
Lemma insert_row_new id c t s s' k : insert_row id c t s = Some s' -> rows s !! k = None -> rows s' !! k <> None ->
  k = id /\ rows s' !! id = Some (inserted c t).
Proof.
  intros [E ->]%insert_row_spec Hn Hs. cbn in *. destruct (decide (id = k)) as [<-|Hne]; [by rewrite lookup_insert_eq|].
  by rewrite lookup_insert_ne in Hs.
Qed.

Lemma no_new_row t id f s k : rows s !! k = None -> rows (update_row t id f s).2 !! k = None.
Proof.
  intros E. unfold update_row. destruct (rows s !! id) as [r|] eqn:Er; cbn; [|done]. destruct (f r); [|done]. cbn.
  rewrite lookup_insert_ne; [done|congruence].
Qed.
Lemma no_new_rows t f s k : rows s !! k = None -> rows (update_rows t f s).2 !! k = None.
Proof. intros E. by rewrite lookup_update_rows, E. Qed.

(** A submission of another kind adds nothing to what runs. *)
Lemma insert_other ks id c t s s' k : kind (create_request c) ∉ ks -> rows s !! k = None ->
  insert_row id c t s = Some s' -> ~ running ks s' k.
Proof.
  intros Hk Hn Hi (r & E & Ha). destruct (insert_row_new id c t s s' k Hi Hn) as [-> E']; [congruence|].
  rewrite E' in E. injection E as <-. apply Hk. by apply andb_true_iff in Ha as [?%includes_true _].
Qed.
Lemma nothing_new ks s k : rows s !! k = None -> ~ running ks s k.
Proof. intros Hn (r & E & _). congruence. Qed.

Lemma handle_new {A} ks (o : OpE A) t s k : submits_alone ks o -> rows s !! k = None ->
  running ks (handle t o s).2 k ->
  (forall i, ~ running ks s i) /\ forall i, running ks (handle t o s).2 i -> i = k.
Proof.
  intros Hal Hn Hrun. assert (rows (handle t o s).2 !! k <> None) as Hnew by (destruct Hrun as (r & E & _); congruence).
  destruct o; cbn [submits_alone] in Hal; try (exfalso; rewrite ?claimNext_update, ?publish_row in Hnew;
    cbn [OperationStore.handle updated snd] in Hnew; revert Hnew; by rewrite ?checkpoint_step_rows, ?completeCheckpoint_rows, ?invalidate_rows,
      ?no_new_row, ?no_new_rows, ?Hn by done).
  - exfalso. revert Hrun. cbn. destruct (insert_row id c t s) eqn:E; [by eapply insert_other|by apply nothing_new].
  - cbn [OperationStore.handle] in *. unfold create_unless in *. destruct (existsb _ _) eqn:Eex; [done|].
    destruct (insert_row id c t s) as [s'|] eqn:Ei; [|done]. cbn in *. destruct (insert_row_new _ _ _ _ _ _ Ei Hn Hnew) as [-> E].
    destruct Hrun as (r & E' & Ha). rewrite E in E'. injection E' as <-.
    unfold active_of_kinds in Ha. apply andb_true_iff in Ha as [Hk%includes_true _]. cbn in Hk.
    assert (forall i, ~ running ks s i) as Hnone.
    { intros i (r & Er & Har). apply andb_true_iff in Har as [Hkr%includes_true Hur].
      assert (existsb (fun kr => active_of_kinds (kind (create_request c) :: alsoKinds) kr.2) (map_to_list (rows s)) = true);
        [|congruence].
      apply existsb_exists. exists (i, r). split; [by apply list_elem_of_In, elem_of_map_to_list|].
      unfold active_of_kinds. cbn [snd]. rewrite Hur, andb_true_r. apply includes_true. by apply (Hal Hk). }
    split; [done|]. intros i (r & Er & Har). destruct (decide (i = id)) as [|Hne]; [done|exfalso].
    apply insert_row_spec in Ei as [_ ->]. cbn in Er. rewrite lookup_insert_ne in Er by done. apply (Hnone i). by exists r.
  - exfalso. revert Hrun. cbn. unfold create_unless. destruct (existsb _ _); [by apply nothing_new|].
    destruct (insert_row id c t s) eqn:E; [by eapply insert_other|by apply nothing_new].
  - exfalso. revert Hrun. cbn. destruct (existsb _ _); [by apply nothing_new|].
    destruct (insert_row id c t s) eqn:E; [by eapply insert_other|].
    intros H. apply (nothing_new ks s k Hn). revert H. by repeat case_match.
  - exfalso. revert Hnew. rewrite claimNext_update. destruct (oldest _ _ _); [by rewrite no_new_row|by cbn; rewrite Hn].
  - exfalso. revert Hnew. rewrite publish_row. destruct accepts; [by rewrite no_new_row|by rewrite Hn].
  - exfalso. revert Hnew. cbn [OperationStore.handle]. destruct (dispatch_choice _ _ _ _); cbn [snd];
      [by rewrite no_new_rows|by rewrite Hn].
Qed.

(** A kind that runs alone runs alone.  When every submission of the kinds [ks] goes by
    [createExclusive] and names them all, then in every store reached from one with at most one
    unfinished job of these kinds, whatever else runs, there is at most one. *)
Theorem exclusive_runs_alone (ks : list MediaOperationKind) (s s' : Sys) (Hs : sys_ok s)
    (Hone : forall i k, running ks (store s) i -> running ks (store s) k -> i = k)
    (Hrun : rtc (alone_step ks) s s') :
  forall i k, running ks (store s') i -> running ks (store s') k -> i = k.
Proof.
  induction Hrun as [s|s s1 s' Hstep _ IH]; [done|]. destruct Hstep as [A o t s Hal Hnew].
  assert (sys_ok (mkSys (handle t o (store s)).2 (issue (new_token o) (issued s)))) as Hs1.
  { eapply sys_step_ok; [exact Hs|]. by apply (sys_op publishable preview_fence preview_frames o t s). }
  apply (IH Hs1). cbn [store]. clear IH. intros i k Hi Hk.
  destruct (handle_moves publishable preview_fence preview_frames t o (store s) (ok_rows _ Hs)) as [_ Hm].
  destruct (rows (store s) !! i) as [ri|] eqn:Ei.
  - destruct (rows (store s) !! k) as [rk|] eqn:Ek.
    + apply Hone; (eapply running_before; [exact Hm|done|congruence]).
    + symmetry. destruct (handle_new ks o t (store s) k Hal Ek Hk) as [_ Hu]. symmetry. by apply Hu.
  - destruct (handle_new ks o t (store s) i Hal Ei Hi) as [_ Hu]. symmetry. by apply Hu.
Qed.
End properties.

(** ** Sample runs *)

Abbreviation sample_run := (run sample_pub sample_fence sample_frames).
Definition sample_lost : Failure := mkFailure "lost" "lease_expired".

(** The sample job, held under a lease that ends at 1000. *)
Definition sample_held : Sys := play (take 2 sample_steps) empty_sys.

Lemma sample_held_ok : sys_ok sample_held.
Proof.
  apply (sys_steps_ok sample_pub sample_fence sample_frames empty_sys); [apply empty_sys_ok|].
  apply play_steps. vm_compute. reflexivity.
Qed.

Lemma recovery_settles_witness :
  (sample_run (at_time 5000) (recoverExpiredClaims sample_lost (fun _ => false)) (store sample_held)).1 =
    mkRecovery 0 1 0 0 0 /\
  checkpoints (sample_run (at_time 5000) (recoverExpiredClaims sample_lost (fun _ => false)) (store sample_held)).2 =
    checkpoints (store sample_held).
Proof.
  split; [vm_compute; reflexivity|].
  apply (recovery_settles sample_pub sample_fence sample_frames (store sample_held) sample_lost (fun _ => false)
           (at_time 5000) (ok_rows _ sample_held_ok)).
Defined.

(** Two jobs waiting, the later one named first. *)
Definition sample_queue : Store := store (play
  [(9, existT _ (Create "a" (mkCreate (mkRequest "ana" Kind.StudioExport RenderAdmission.DestLocal None None None (JObj []) 9) None None None)));
   (4, existT _ (Create "b" (mkCreate (mkRequest "bo" Kind.StudioExport RenderAdmission.DestLocal None None None (JObj []) 4) None None None)))]%string
  empty_sys).

Lemma claims_drain_oldest_first_witness :
  exists s', drain sample_pub sample_fence sample_frames sample_options (at_time 20) sample_queue ["b"; "a"]%string s' /\
    forall k, waits sample_options (at_time 20) s' k <-> waits sample_options (at_time 20) sample_queue k /\ k ∉ ["b"; "a"]%string.
Proof.
  eexists. match goal with |- ?D /\ _ => assert D as Hd end.
  - eapply (drain_cons _ _ _ _ _ _ "b" _ "t1"); [vm_compute; reflexivity|].
    eapply (drain_cons _ _ _ _ _ _ "a" _ "t2"); [vm_compute; reflexivity|]. apply drain_nil.
  - split; [exact Hd|].
    exact (proj1 (proj2 (proj2 (proj2 (claims_drain_oldest_first sample_pub sample_fence sample_frames sample_options
      (at_time 20) sample_queue) _ _ Hd)))).
Defined.

Lemma at_most_two_runs_witness :
  Z.of_nat 1 <= 1 /\ 1 <= runs_left (default (inserted (mkCreate sample_request None None None) (at_time 0))
    (rows (store sample_held) !! "j"%string)).
Proof.
  split; [lia|].
  destruct (at_most_two_runs sample_pub sample_fence sample_frames "j" sample_held (play (drop 2 sample_steps) sample_held) 1
    (default (inserted (mkCreate sample_request None None None) (at_time 0)) (rows (store sample_held) !! "j"%string)))
    as [H _].
  - exact sample_held_ok.
  - vm_compute. reflexivity.
  - split; vm_compute; [reflexivity|discriminate].
  - eapply (runs_step _ _ _ "j" (RecoverRetried sample_lost (fun _ => false)) (at_time 5000) sample_held 1);
      [reflexivity|discriminate|].
    match goal with |- runs_of _ _ _ _ ?x _ ?y =>
      refine (eq_ind _ (fun n => runs_of sample_pub sample_fence sample_frames "j" x n y)
        (runs_step sample_pub sample_fence sample_frames "j" (ClaimNext "j" sample_options "t2" (fun _ => false))
           (at_time 40000) x 0 _ eq_refl _ (runs_nil _ _ _ _ _)) 1%nat _) end.
    + intros v [= <-]. apply (bool_decide_eq_true_1 _). vm_compute. reflexivity.
    + vm_compute. reflexivity.
  - exact H.
Defined.

Lemma cancel_always_ends_witness :
  exists r', rows (store (play [(300, existT _ (RequestCancel "j" "ana" None false));
                                (400, existT _ (ReportProgress "j" "t1" (mkPatch Rendering 3 (Some 9) (JInt 33) None)))]%string
                           sample_held)) !! "j"%string = Some r' /\ status r' ∈ [Cancelling; Cancelled; Failed].
Proof.
  assert (exists r, rows (store sample_held) !! "j"%string = Some r /\ unfinished r = true /\ ownerId (request r) = "ana"%string)
    as (r & E & Hu & Ho) by (vm_compute; eexists; repeat split).
  destruct (cancel_always_ends sample_pub sample_fence sample_frames sample_held
    (play [(300, existT _ (RequestCancel "j" "ana" None false));
           (400, existT _ (ReportProgress "j" "t1" (mkPatch Rendering 3 (Some 9) (JInt 33) None)))]%string sample_held)
    "j" r (at_time 300) sample_held_ok E Hu) as (r' & E' & H & _).
  - rewrite Ho. exact (play_steps [(400, existT _ (ReportProgress "j" "t1" (mkPatch Rendering 3 (Some 9) (JInt 33) None)))]%string
      (play_step sample_held (300, existT _ (RequestCancel "j" "ana" None false))%string) eq_refl).
  - exists r'. split; assumption.
Defined.

(** Two administrators start a backup at once. *)
Definition sample_backup (owner : string) : MediaOperationCreate :=
  mkCreate (mkRequest owner Kind.CloudBackup RenderAdmission.DestLocal None None None (JObj []) 0) None None None.
Definition sample_alone : list MediaOperationKind := [Kind.CloudBackup; Kind.CloudRestore].

Lemma exclusive_runs_alone_witness :
  let s1 := play_step empty_sys (0, existT _ (CreateExclusive "b1" (sample_backup "ana") [Kind.CloudRestore]))%string in
  let s2 := play_step s1 (0, existT _ (CreateExclusive "b2" (sample_backup "bo") [Kind.CloudRestore]))%string in
  running sample_alone (store s2) "b1" /\
  forall k, running sample_alone (store s2) k -> k = "b1"%string.
Proof.
  cbv zeta. match goal with |- ?R /\ _ => assert R as H1 by (vm_compute; eexists; split; reflexivity) end.
  split; [exact H1|]. intros k Hk.
  refine (exclusive_runs_alone sample_pub sample_fence sample_frames sample_alone empty_sys _ empty_sys_ok _ _ k "b1" Hk H1).
  - intros i x (r & E & _). cbn in E. by rewrite lookup_empty in E.
  - assert (forall o k, (o = "ana" \/ o = "bo")%string ->
              submits_alone sample_alone (CreateExclusive k (sample_backup o) [Kind.CloudRestore])) as Hal.
    { intros o x _ _ kd Hkd. exact Hkd. }
    eapply rtc_l; [|eapply rtc_l; [|apply rtc_refl]]; (eapply (alone_op _ _ _ _ (CreateExclusive _ _ _)); [|discriminate]).
    + apply (Hal "ana"%string). by left.
    + apply (Hal "bo"%string). by right.
Defined.

(** A pause asked for while a sweep is between its first and its third statement: the sweep fails the
    job, and the pause request stays on the finished row. *)
Definition sample_racing : list Step :=
  [(0, existT _ (Create "j" (mkCreate (mkRequest "ana" Kind.CloudBackup RenderAdmission.DestLocal None None None (JObj []) 0) None None None)));
   (0, existT _ (ClaimNext "j" (mkClaimOptions [Kind.CloudBackup] "worker" 1000 None None None) "t1" (fun _ => false)));
   (5000, existT _ (RecoverPaused (fun _ => false)));
   (5000, existT _ (RecoverRetried sample_lost (fun _ => false)));
   (5000, existT _ (RequestPause "j" "ana" [Kind.CloudBackup]));
   (5000, existT _ (RecoverFailed sample_lost (fun _ => false)))]%string.

Example failed_with_pause_pending :
  (fun r => (status r, pauseRequestedAt (stop r))) <$> rows (store (play sample_racing empty_sys)) !! "j"%string
    = Some (Failed, Some 5000).
Proof. vm_compute. reflexivity. Qed.
