(* ===== verification/EditRun.v ===== *)
(** * Edits run under their rows ([server/src/utils/edit-operation-tracker.ts])

    A run of a job-queue edit: an object shared by the executor, the tracker and a heartbeat timer,
    whose methods write to the row under its claim, and the tracker that makes and dispatches runs.  The
    methods are programs ([io]) over the repository's statements and the run; [EditDelivery] runs them.
    Logging and the listeners are left out, and a statement that throws is not modelled. *)

From Stdlib Require Import QArith_base.
From stdpp Require Import relations.
From S2P Require Import Prelude JsNumber JsString Enums OperationStore OperationLease.
From S2P Require MediaOperation EditOperation RenderAdmission StudioRenderProgress.
Import Status.
Local Open Scope Z_scope.

(** ** The run *)

Inductive RunState := working | validating | settled | lost.
#[export] Instance RunState_eq_dec : EqDecision RunState.
Proof. solve_decision. Defined.

(** An exception: its message, and whether it is the refusal of a Locked key. *)
Record Err := mkErr { message : string; locked_key : bool }.

Definition EDIT_RENDER_FAILED : Failure := mkFailure "The edit could not be rendered" "edit_render_failed".
Definition EDIT_NOTHING_PUBLISHED : json := JObj [("outcome", JStr "nothing_published")]%string.

(** [slice(0, 500)], on the bytes of the text. *)
Definition messageOf (e : Err) : string := string_take 500 (message e).

Record EditOperationRun := mkRun {
  operation_id : string;
  operation : Row;
  run_token : string;
  run_state : RunState;
  timer : bool;
  errorNote : option Failure;
  progressUnits : Z;
  publicationQueued : bool
}.

Definition new_run (id : string) (r : Row) (token : string) : EditOperationRun :=
  mkRun id r token working true None 0 false.

Definition set_state (x : RunState) (u : EditOperationRun) : EditOperationRun :=
  mkRun (operation_id u) (operation u) (run_token u) x (timer u) (errorNote u) (progressUnits u) (publicationQueued u).
Definition set_timer (x : bool) (u : EditOperationRun) : EditOperationRun :=
  mkRun (operation_id u) (operation u) (run_token u) (run_state u) x (errorNote u) (progressUnits u) (publicationQueued u).
Definition set_note (x : option Failure) (u : EditOperationRun) : EditOperationRun :=
  mkRun (operation_id u) (operation u) (run_token u) (run_state u) (timer u) x (progressUnits u) (publicationQueued u).
Definition set_units (x : Z) (u : EditOperationRun) : EditOperationRun :=
  mkRun (operation_id u) (operation u) (run_token u) (run_state u) (timer u) (errorNote u) x (publicationQueued u).
Definition set_queued (x : bool) (u : EditOperationRun) : EditOperationRun :=
  mkRun (operation_id u) (operation u) (run_token u) (run_state u) (timer u) (errorNote u) (progressUnits u) x.

(** Settled or lost: nothing this run writes changes the row any more. *)
Definition done_ (u : EditOperationRun) : bool :=
  match run_state u with settled | lost => true | _ => false end.
Definition stop_timer (u : EditOperationRun) : EditOperationRun := set_timer false u.
Definition settle (u : EditOperationRun) : EditOperationRun := stop_timer (set_state settled u).

(** ** Programs *)

(** A method's effects: a statement, a look at the run, a change of it, units told to the job (with
    the change of the run made in the same breath), the job's signal (aborted or not), and the clock. *)
Inductive io (A : Type) : Type :=
| Done (a : A)
| Raise (e : Err)
| Db {B : Type} (o : OpE B) (k : B -> io A)
| Get (k : EditOperationRun -> io A)
| Put (f : EditOperationRun -> EditOperationRun) (k : io A)
| Advance (units : Z) (f : EditOperationRun -> EditOperationRun) (k : io A)
| Aborted (k : option Err -> io A)
| Now (k : Z -> io A).
Arguments Done {A} a.
Arguments Raise {A} e.
Arguments Db {A B} o k.
Arguments Get {A} k.
Arguments Put {A} f k.
Arguments Advance {A} units f k.
Arguments Aborted {A} k.
Arguments Now {A} k.

(** [await m], where [f] continues on a value or an exception. *)
Fixpoint attempt_ {A B} (m : io A) (f : A + Err -> io B) : io B :=
  match m with
  | Done a => f (inl a)
  | Raise e => f (inr e)
  | Db o k => Db o (fun x => attempt_ (k x) f)
  | Get k => Get (fun u => attempt_ (k u) f)
  | Put g k => Put g (attempt_ k f)
  | Advance n g k => Advance n g (attempt_ k f)
  | Aborted k => Aborted (fun e => attempt_ (k e) f)
  | Now k => Now (fun t => attempt_ (k t) f)
  end.
Definition bind {A B} (m : io A) (f : A -> io B) : io B :=
  attempt_ m (fun x => match x with inl a => f a | inr e => Raise e end).

Fixpoint db {A} (m : prog A) : io A :=
  match m with Ret a => Done a | Call o k => Db o (fun x => db (k x)) end.

#[export] Instance io_ret : MRet io := @Done.
#[export] Instance io_bind : MBind io := fun A B f m => bind m f.

Definition get : io EditOperationRun := Get Done.
Definition put (f : EditOperationRun -> EditOperationRun) : io unit := Put f (Done tt).
Definition throwIfAborted : io unit := Aborted (fun e => match e with Some x => Raise x | None => Done tt end).

(** ** The methods of a run *)

(** [Math.round], clamped to a percentage. *)
Definition percent_of (percent : Q) : Z := Z.min 100 (Z.max 0 (math_round percent)).

Definition cancelRequested : io bool :=
  u ← get;
  row ← db (Call (GetForWorker (operation_id u)) Ret);
  Done match row with
       | Some r => negb (is_null (cancelRequestedAt (stop r))) &&
                   bool_decide (OperationStore.claimToken (claim r) = Some (run_token u))
       | None => false
       end.

Definition progress (percent : Q) : io bool :=
  _ ← throwIfAborted;
  u ← get;
  if negb (bool_decide (run_state u = working)) then Done false
  else
    let value := percent_of percent in
    ok ← db (Call (ReportProgress (operation_id u) (run_token u) (mkPatch Rendering value (Some 100) (JInt value) None)) Ret);
    _ ← (if (ok : bool) then Done tt
         else cancelled ← cancelRequested; if (cancelled : bool) then Done tt else put (set_state lost));
    u ← get;
    _ ← (if ok && (progressUnits u <? value)
         then Advance (value - progressUnits u) (set_units value) (Done tt) else Done tt);
    Done ok.

Definition rendering : io bool := progress 0.

Definition noteError (e : Err) (code : string) : io unit := put (set_note (Some (mkFailure (messageOf e) code))).

(** Report a failure: the automatic retry unless [retry] is false. *)
Definition fail_run (e : Err) (code : string) (retry : bool) : io (option MediaOperationFailOutcome) :=
  u ← get;
  if done_ u then Done None
  else
    outcome ← db (OperationStore.fail (operation_id u) (run_token u) (mkFailure (messageOf e) code) retry false false);
    _ ← put settle;
    Done (Some outcome).

Definition cancelled : io bool :=
  u ← get;
  if done_ u then Done false
  else
    _ ← db (Call (RequestCancel (operation_id u) (ownerId (request (operation u))) (Some (run_token u)) false) Ret);
    acknowledged ← db (Call (AcknowledgeCancel (operation_id u) (run_token u) true false) Ret);
    _ ← put settle;
    Done acknowledged.

Definition release (delayMs : Z) : io bool :=
  u ← get;
  if done_ u then Done false
  else
    back ← db (Call (Requeue (operation_id u) (run_token u) delayMs true false) Ret);
    _ ← put settle;
    Done back.

Definition validate : io bool :=
  _ ← throwIfAborted;
  u ← get;
  match run_state u with
  | validating => Done true
  | working =>
      ok ← db (Call (BeginValidation (operation_id u) (run_token u) false) Ret);
      if (ok : bool) then _ ← put (set_state validating); Done true
      else
        requested ← cancelRequested;
        if (requested : bool) then _ ← cancelled; Done false
        else _ ← put (set_state lost); Done false
  | _ => Done false
  end.

Definition published (resultAssetId : option string) : CompleteResult :=
  mkComplete resultAssetId None (if is_null resultAssetId then Some EDIT_NOTHING_PUBLISHED else None).

(** [in_queue]: the run is inside a queue claim's execution and not in its publication, so that a
    publication is deferred to the transaction that accepts the claim. *)
Definition complete_run (in_queue : bool) (resultAssetId : option string) : io bool :=
  u ← get;
  if publicationQueued u then Done true
  else
    valid ← validate;
    if negb valid then Done false
    else if in_queue then _ ← throwIfAborted; _ ← put (set_queued true); _ ← throwIfAborted; Done true
    else
      completed ← db (Call (CompleteRow (operation_id u) (run_token u) (published resultAssetId) false) Ret);
      if (completed : bool) then _ ← put settle; Done true
      else
        _ ← match resultAssetId with
            | None => put (set_state lost)
            | Some _ =>
                _ ← fail_run (mkErr "The edited item is no longer in this library" false) "result_not_owned" false; Done tt
            end;
        Done false.

(** Settle the row from what the executor returned. *)
Definition finish (in_queue : bool) (status : Job.JobStatus) : io unit :=
  u ← get;
  if done_ u then Done tt
  else
    match EditOperation.editOperationOutcome status with
    | EditOperation.published => _ ← complete_run in_queue (assetId (request (operation u))); Done tt
    | EditOperation.nothing => _ ← complete_run in_queue None; Done tt
    | EditOperation.failed =>
        let note := default EDIT_RENDER_FAILED (errorNote u) in
        _ ← fail_run (mkErr (failure_error note) false) (failure_code note) true; Done tt
    end.

(** ** The executor *)

(** What an executor does with its run; it sees every answer and every exception. *)
Inductive Work : Type :=
| Return (status : Job.JobStatus)
| Throws (e : Err)
| Progress (percent : Q) (k : bool + Err -> Work)
| CancelRequested (k : bool + Err -> Work)
| Validate (k : bool + Err -> Work)
| Complete (resultAssetId : option string) (k : bool + Err -> Work)
| FailRun (e : Err) (code : string) (retry : bool) (k : option MediaOperationFailOutcome + Err -> Work)
| CancelledRun (k : bool + Err -> Work)
| Release (delayMs : Z) (k : bool + Err -> Work)
| NoteError (e : Err) (code : string) (k : Work).

Fixpoint work_io (in_queue : bool) (w : Work) : io Job.JobStatus :=
  match w with
  | Return status => Done status
  | Throws e => Raise e
  | Progress p k => attempt_ (progress p) (fun x => work_io in_queue (k x))
  | CancelRequested k => attempt_ cancelRequested (fun x => work_io in_queue (k x))
  | Validate k => attempt_ validate (fun x => work_io in_queue (k x))
  | Complete a k => attempt_ (complete_run in_queue a) (fun x => work_io in_queue (k x))
  | FailRun e code retry k => attempt_ (fail_run e code retry) (fun x => work_io in_queue (k x))
  | CancelledRun k => attempt_ cancelled (fun x => work_io in_queue (k x))
  | Release d k => attempt_ (release d) (fun x => work_io in_queue (k x))
  | NoteError e code k => _ ← noteError e code; work_io in_queue k
  end.

(** ** The tracker *)

(** The row an edit is recorded as: the columns of [editOperationCreate]. *)
Definition edit_create (input : EditOperation.EditOperationInput) (createdAt : Z) : MediaOperationCreate :=
  mkCreate (mkRequest (EditOperation.ownerId input) Kind.QuickEdit RenderAdmission.DestLocal
              (Some (EditOperation.assetId input)) None (EditOperation.revisionId input)
              (default JNull (obj_get (EditOperation.editOperationCreate input) "snapshot")) createdAt)
    (Some EditOperation.JOB_QUEUE_CLAIMANT) None None.

Inductive Begun := Running | AlreadyCancelled | Unavailable.

(** [token]: the claim token [randomUUID] draws. *)
Definition begin (id token : string) (leaseMs : Z) : io Begun :=
  claimed ← db (Call (BeginJobQueueRun id token leaseMs) Ret);
  match (claimed : option Row) with
  | Some r => _ ← put (fun _ => new_run id r token); Done Running
  | None =>
      row ← db (Call (GetForWorker id) Ret);
      Done match (row : option Row) with
           | Some r => if is_null (cancelRequestedAt (stop r)) then Unavailable else AlreadyCancelled
           | None => Unavailable
           end
  end.

Definition LOCKED_DEFERRAL_DELAY_MS : Z := 60 * 60 * 1000.
Definition LOCKED_DEFERRAL_MAX_ATTEMPTS : Z := 72.
Definition lockedOperationMayWait (created date_now : Z) : bool :=
  date_now - created <? LOCKED_DEFERRAL_DELAY_MS * LOCKED_DEFERRAL_MAX_ATTEMPTS.

(** [options.onCancelled]: nothing, or what it throws. *)
Definition on_cancelled (throws : option Err) : io unit :=
  match throws with Some e => Raise e | None => Done tt end.

Definition execute_run (in_queue : bool) (work : Work) (onCancelled : option Err) : io Job.JobStatus :=
  started ← rendering;
  if negb started then
    u ← get;
    _ ← (if done_ u then Done tt
         else acknowledged ← cancelled; if (acknowledged : bool) then on_cancelled onCancelled else Done tt);
    Done Job.Skipped
  else
    status ← work_io in_queue work;
    _ ← finish in_queue status;
    Done status.

(** [catch] and [finally]. *)
Definition execute_catch (x : Job.JobStatus + Err) : io Job.JobStatus :=
  match x with
  | inl status => _ ← put stop_timer; Done status
  | inr e =>
      Now (fun date_now =>
      u ← get;
      waits ← (if locked_key e && lockedOperationMayWait (createdAt (request (operation u))) date_now
               then release LOCKED_DEFERRAL_DELAY_MS else Done false);
      if (waits : bool) then _ ← put stop_timer; Done Job.Skipped
      else _ ← fail_run e (failure_code EDIT_RENDER_FAILED) true; _ ← put stop_timer; Raise e)
  end.

Definition execute (in_queue : bool) (id token : string) (leaseMs : Z) (work : Work) (onCancelled : option Err)
  : io Job.JobStatus :=
  begun ← begin id token leaseMs;
  match begun with
  | Running => attempt_ (execute_run in_queue work onCancelled) execute_catch
  | AlreadyCancelled => _ ← on_cancelled onCancelled; Done Job.Skipped
  | Unavailable => Done Job.Skipped
  end.

(** What a deferred publication does in the transaction that accepts the claim; [false] throws, and
    rolls the transaction back. *)
Definition adopt (u : EditOperationRun) (resultAssetId : option string) : prog bool :=
  Call (CompleteRow (operation_id u) (run_token u) (published resultAssetId) true) Ret.

(** And what it does in the transaction that fails the claim instead. *)
Definition settle_failure (u : EditOperationRun) (reason : string) (was_cancelled : bool) : prog unit :=
  if done_ u then Ret tt
  else
    Call (GetForWorker (operation_id u)) (fun row =>
    match row with
    | Some r =>
        if negb (holds (run_token u) r) then Ret tt
        else if was_cancelled || negb (is_null (cancelRequestedAt (stop r))) then
          Call (RequestCancel (operation_id u) (ownerId (request (operation u))) (Some (run_token u)) false) (fun _ =>
          Call (AcknowledgeCancel (operation_id u) (run_token u) true false) (fun _ => Ret tt))
        else
          prog_bind (OperationStore.fail (operation_id u) (run_token u)
                       (mkFailure reason (failure_code EDIT_RENDER_FAILED)) true false false)
            (fun _ => Ret tt)
    | None => Ret tt
    end).

(** ** Dispatch *)

Fixpoint request_cancels (rs : list (string * Row)) : prog unit :=
  match rs with
  | [] => Ret tt
  | (id, r) :: rest => Call (RequestCancel id (ownerId (request r)) None false) (fun _ => request_cancels rest)
  end.

(** The items of the rows claimed, and the rows that name no job this server can run. *)
Definition dispatch_items (rs : list (string * Row)) : list EditOperation.JobItem :=
  omap (fun kr => EditOperation.editOperationJobItem kr.1 (Some (snapshot (request kr.2)))) rs.
Definition undispatchable (rs : list (string * Row)) : list (string * Row) :=
  filter (fun kr => EditOperation.editOperationJobItem kr.1 (Some (snapshot (request kr.2))) = None) rs.

(** [ids]: the rows the claim takes.  [queueAll]: what queueing them throws. *)
Definition dispatch (limit : nat) (ids : list string) (locked : string -> bool)
    (queueAll : list EditOperation.JobItem -> option Err) : prog (Z + Err) :=
  Call (ClaimJobQueueDispatch ids limit EditOperation.EDIT_OPERATION_REDISPATCH_MS locked) (fun taken_ =>
  let rs := zip ids taken_ in
  match rs with
  | [] => Ret (inl 0)
  | _ =>
      prog_bind (request_cancels (undispatchable rs)) (fun _ =>
      match queueAll (dispatch_items rs) with
      | None => Ret (inl (Z.of_nat (length (dispatch_items rs))))
      | Some e => Call (ReleaseJobQueueDispatch (map fst rs)) (fun _ => Ret (inr e))
      end)
  end).
