(* ===== verification/EditClaim.v ===== *)
(** * What a claim sees of its row

    The interface between a run and the repository: its claim's view of the row ([View]), what the
    statements a run makes promise it, and what anybody else's statement can do to it
    ([EditOperations]); and that the repository keeps these promises ([store_operations]). *)

From Stdlib Require Import QArith_base.
From stdpp Require Import relations.
From S2P Require Import Prelude JsNumber JsString Enums OperationStore OperationLease EditRun.
From S2P Require MediaOperation EditOperation RenderAdmission StudioRenderProgress.
Import Status.
Local Open Scope Z_scope.

(** ** What a claim sees of its row *)

Inductive Stage := Early | Checking | Stopping.
Inductive View := Free | Mine (at_stage : Stage) (expires : Z).

Definition stage_of (st : MediaOperationStatus) : Stage :=
  match st with Validating => Checking | Cancelling => Stopping | _ => Early end.

Definition view (id token : string) (s : Store) : View :=
  match rows s !! id with
  | Some r => if holds token r then Mine (stage_of (status r)) (default 0 (claimExpiresAt (claim r))) else Free
  | None => Free
  end.

Definition expired (t : Z) (v : View) : Prop := match v with Mine _ e => e <= t | Free => True end.

(** What a statement of a run promises it, whatever else the store holds: [v] before, [x] answered,
    [v'] after. *)
Definition promises (token : string) (t : Times) {A} (o : OpE A) (v : View) (x : A) (v' : View) : Prop :=
  match o in OpE A return A -> Prop with
  | Heartbeat _ _ lease _ => fun ok =>
      if ok : bool then exists st e, v = Mine st e /\ clock t < e /\ v' = Mine st (now t + lease)
      else v' = v /\ expired (clock t) v
  | ReportProgress _ _ _ => fun ok =>
      v' = v /\ if ok : bool then exists e, v = Mine Early e else forall e, v <> Mine Early e
  | BeginValidation _ _ _ => fun ok =>
      if ok : bool then exists e, v = Mine Early e /\ v' = Mine Checking e else v' = v /\ forall e, v <> Mine Early e
  | CompleteRow _ _ c a => fun ok =>
      if ok : bool then v' = Free
      else v' = v /\ (a = false -> complete_resultAssetId c = None -> forall e, v <> Mine Checking e)
  | FailRetry _ _ _ _ _ => fun ok => if ok : bool then v' = Free else v' = v
  | FailFinal _ _ _ _ => fun _ => v' = Free
  | Requeue _ _ _ _ _ => fun ok =>
      if ok : bool then v' = Free else v' = v /\ forall e, v <> Mine Early e /\ v <> Mine Checking e
  | RequestCancel _ _ _ _ => fun _ =>
      match v with Mine _ e => v' = Mine Stopping e | Free => v' = Free end
  | AcknowledgeCancel _ _ _ _ => fun _ =>
      match v with Mine Stopping e => v' = Free | _ => v' = v end
  | GetForWorker _ => fun x =>
      v' = v /\ (match x with Some r => negb (is_null (cancelRequestedAt (stop r))) && holds token r | None => false end = true <->
                 exists e, v = Mine Stopping e) /\
      (match x with Some r => holds token r | None => false end = false -> v = Free)
  | _ => fun _ => True
  end x.

(** The statements a run makes. *)
Inductive own (id token owner : string) : forall A, OpE A -> Prop :=
| own_heartbeat lease : own id token owner bool (Heartbeat id token lease false)
| own_report n : own id token owner bool (ReportProgress id token (mkPatch Rendering n (Some 100) (JInt n) None))
| own_validation : own id token owner bool (BeginValidation id token false)
| own_complete c a : own id token owner bool (CompleteRow id token c a)
| own_retry f res : own id token owner bool (FailRetry id token f res false)
| own_fail f : own id token owner bool (FailFinal id token f false)
| own_requeue d back : own id token owner bool (Requeue id token d back false)
| own_cancel : own id token owner (option Row) (RequestCancel id owner (Some token) false)
| own_acknowledge : own id token owner bool (AcknowledgeCancel id token true false)
| own_read : own id token owner (option Row) (GetForWorker id).

(** What the statement of anybody else does to a claim: nothing, or it takes it away, marks it to stop,
    or ends its lease. *)
Definition view_moves (t : Times) (v v' : View) : Prop :=
  v' = v \/ v' = Free \/ exists st e, v = Mine st e /\ (v' = Mine Stopping e \/ exists e', v' = Mine st e' /\ e' <= clock t).

(** What the run relies on: a store it can see its claim in, its own statements keep their promises, and
    any other statement leaves the claim as it is, takes it away, or marks it to stop. *)
Class EditOperations (id token owner : string) (act : forall A, Times -> OpE A -> Store -> A * Store) := {
  good : Store -> Prop;
  see : Store -> View;
  good_act A t (o : OpE A) s : good s -> good (act A t o s).2;
  own_promise A t (o : OpE A) s : good s -> own id token owner A o ->
    promises token t o (see s) (act A t o s).1 (see (act A t o s).2);
  other_promise A t (o : OpE A) s : now t <= clock t -> good s -> ~ carries o id token -> new_token o <> Some token ->
    view_moves t (see s) (see (act A t o s).2);
  begin_promise t lease s : good s -> see s = Free ->
    match (act _ t (BeginJobQueueRun id token lease) s).1 with
    | Some r => ownerId (request r) = owner /\ exists e, see (act _ t (BeginJobQueueRun id token lease) s).2 = Mine Early e
    | None => see (act _ t (BeginJobQueueRun id token lease) s).2 = Free
    end
}.

(** ** The repository keeps the promises *)

Section instance.
Context (publishable : string -> string -> bool) (preview_fence : Row -> Z -> bool) (preview_frames : Row -> bool).
Context (id token owner : string).
Abbreviation handle := (handle publishable preview_fence preview_frames).

Definition store_good (s : Store) : Prop :=
  store_ok s /\ exists r, rows s !! id = Some r /\ ownerId (request r) = owner /\ kind (request r) <> Kind.StudioPreview.

Definition row_view (r : Row) : View :=
  if holds token r then Mine (stage_of (status r)) (default 0 (claimExpiresAt (claim r))) else Free.

Lemma view_row s r : rows s !! id = Some r -> view id token s = row_view r.
Proof. unfold view. by intros ->. Qed.

Lemma view_update t f s r : rows s !! id = Some r ->
  view id token (update_row t id f s).2 = match f r with Some r' => row_view r' | None => row_view r end /\
  (update_row t id f s).1 = touch t <$> f r.
Proof.
  intros E. unfold update_row, view. rewrite E. cbn. destruct (f r) as [r'|]; cbn; [by rewrite lookup_insert_eq|by rewrite E].
Qed.

(** Held under a lease, with its status known to match. *)
Lemma mine_row r : row_ok r -> holds token r = true ->
  is_claimed (status r) = true /\ exists e, claimExpiresAt (claim r) = Some e.
Proof.
  intros [O1 O2 _ _ _ _ _ _ _ _] Hh. unfold holds in Hh. apply bool_decide_eq_true in Hh. rewrite Hh in O1. cbn in O1.
  apply negb_true_iff in O1 || (symmetry in O1; apply negb_false_iff in O1). rewrite O1 in O2. split; [done|].
  destruct (claimExpiresAt (claim r)); [by eexists|done].
Qed.

Ltac own_case E :=
  match goal with
  | |- context [handle ?t ?o ?s] => cbn [OperationStore.handle updated fst snd]
  end;
  match goal with
  | |- context [update_row ?t _ ?f ?s] => destruct (view_update t f s _ E) as [-> ->]
  end.

(** Decide the status tests of a goal. *)
Ltac goal_status :=
  repeat match goal with
  | |- context [includes ?x ?l] =>
      let v := eval vm_compute in (includes x l) in first [constr_eq v true | constr_eq v false];
      change (includes x l) with v
  | |- context [bool_decide (@eq MediaOperationStatus ?x ?y)] =>
      let v := eval vm_compute in (bool_decide (x = y)) in first [constr_eq v true | constr_eq v false];
      change (bool_decide (x = y)) with v
  end.

Lemma cancel_asked r : row_ok r -> is_claimed (status r) = true ->
  negb (is_null (cancelRequestedAt (stop r))) = bool_decide (status r = Cancelling).
Proof.
  intros [_ _ O3 O4 _ _ _ _ _ _] Hc. revert O3 O4 Hc. destruct (status r), (cancelRequestedAt (stop r)); try done.
Qed.

Ltac show_row :=
  unfold row_view, holds; cbn;
  repeat match goal with
  | H : OperationStore.claimToken (claim ?r) = _ |- context [OperationStore.claimToken (claim ?r)] => rewrite H
  | H : claimExpiresAt (claim ?r) = _ |- context [claimExpiresAt (claim ?r)] => rewrite H
  | H : status ?r = _ |- context [status ?r] => rewrite H
  end;
  rewrite ?bool_decide_true by done; cbn.

Lemma store_own A t (o : OpE A) s : store_good s -> own id token owner A o ->
  promises token t o (view id token s) (handle t o s).1 (view id token (handle t o s).2).
Proof.
  intros (Hs & r & E & Ho & Hk) Hown. pose proof (Hs id r E) as Hok. rewrite (view_row s r E).
  unfold row_view at 1. destruct (holds token r) eqn:Hh.
  2:{ assert (row_view r = Free) as Hv by (unfold row_view; by rewrite Hh).
      assert (forall f, keeps (ByWorker token) f -> f r = None) as Hnone.
      { intros f Hf. destruct (f r) as [r'|] eqn:Ef; [|done]. destruct (Hf r r' Hok Ef) as [_ [_ _ _ Hst]].
        specialize (Hst token eq_refl). congruence. }
      destruct Hown; try own_case E; try (rewrite Hnone by auto with lease); cbn; rewrite ?Hv; try by (cbn; naive_solver).
      - unfold requestCancel. rewrite Hh, andb_false_r. done.
      - rewrite E, (view_row s r E), Hv. rewrite Hh, andb_false_r. naive_solver. }
  destruct (mine_row r Hok Hh) as [Hc [e He]]. rewrite He. change (default 0 (Some e)) with e.
  pose proof (cancel_asked r Hok Hc) as Hcan.
  assert (OperationStore.claimToken (claim r) = Some token) as Ht by (by apply bool_decide_eq_true in Hh).
  destruct Hown; try own_case E.
  - unfold heartbeat. rewrite Hh, He. replace (status_in _ r) with true by (symmetry; exact Hc). rewrite andb_true_r. cbn [negb orb].
    rewrite andb_true_r. cbn. destruct (clock t <? e) eqn:Et; cbn.
    + show_row. exists (stage_of (status r)), e. split; [done|]. split; [lia|done].
    + show_row. split; [done|]. cbn. lia.
  - unfold reportProgress. cbn [patch_status PROGRESS_FROM studioRender render_result is_null orb negb].
    rewrite Hh. rewrite andb_true_r. cbn [andb].
    unfold status_in. destruct (status r) eqn:St; try discriminate Hc; goal_status; cbn; show_row; naive_solver.
  - unfold beginValidation. rewrite Hh. cbn [negb orb]. rewrite andb_true_r. cbn [andb].
    unfold status_in. destruct (status r) eqn:St; try discriminate Hc; goal_status; cbn; show_row; naive_solver.
  - unfold complete. destruct (when _ _) as [r'|] eqn:Ew; cbn.
    + apply when_Some in Ew as [_ ->]. done.
    + show_row. split; [done|]. intros -> Hn e' [= St ->]. unfold when in Ew. rewrite Hh, Hn in Ew.
      by destruct (status r).
  - unfold fail_retry. destruct (when _ _) as [r'|] eqn:Ew; cbn.
    + apply when_Some in Ew as [_ ->]. done.
    + show_row. done.
  - unfold fail_final. rewrite Hh. cbn [negb orb andb].
    unfold unfinished, status_in. destruct (status r) eqn:St; try discriminate Hc; goal_status; cbn; done.
  - unfold requeue. rewrite Hh. cbn [negb orb andb].
    unfold status_in. rewrite <- (negb_involutive (is_null (cancelRequestedAt _))), Hcan.
    destruct (status r) eqn:St; try discriminate Hc; goal_status; cbn; show_row; naive_solver.
  - unfold requestCancel. rewrite bool_decide_true by done. rewrite Hh. cbn [negb orb andb].
    unfold unfinished, status_in. destruct (status r) eqn:St; try discriminate Hc; goal_status; cbn; show_row; naive_solver.
  - unfold acknowledgeCancel. rewrite Hh, (bool_decide_false (kind (request r) = _)) by done. cbn [negb orb andb]. rewrite andb_true_r.
    destruct (status r) eqn:St; try discriminate Hc; goal_status; cbn; show_row; naive_solver.
  - cbn [OperationStore.handle fst snd]. rewrite E, (view_row s r E). show_row. split; [done|]. rewrite Hh. split; [|done].
    rewrite Hcan, andb_true_r. destruct (status r) eqn:St; try discriminate Hc; goal_status; cbn; naive_solver.
Qed.

(** ** Other statements *)

(** What a write by anybody else may do to a row held under [token]. *)
Definition spares (t : Times) (f : Row -> option Row) : Prop :=
  forall r r', row_ok r -> holds token r = true -> f r = Some r' ->
    row_view r' = row_view r \/ row_view r' = Free \/
    exists st e, row_view r = Mine st e /\ (row_view r' = Mine Stopping e \/ exists e', row_view r' = Mine st e' /\ e' <= clock t).

Lemma spares_worker w f t : keeps (ByWorker w) f -> w <> token -> spares t f.
Proof.
  intros Hf Hw r r' Hok Hh Hr. destruct (Hf r r' Hok Hr) as [_ [_ _ _ Hst]]. specialize (Hst w eq_refl).
  unfold holds in *. apply bool_decide_eq_true in Hh, Hst. congruence.
Qed.

(** A write that leaves the claim, the lease and the stage alone. *)
Lemma spares_same t f : (forall r r', f r = Some r' -> claim r' = claim r /\ stage_of (status r') = stage_of (status r)) -> spares t f.
Proof. intros Hf r r' _ _ Hr. destruct (Hf r r' Hr) as [Hc Hs]. left. unfold row_view, holds. by rewrite Hc, Hs. Qed.
(** A write that lets the claim go. *)
Lemma spares_free t f : (forall r r', f r = Some r' -> OperationStore.claimToken (claim r') = None) -> spares t f.
Proof. intros Hf r r' _ _ Hr. right. left. unfold row_view, holds. rewrite (Hf r r' Hr). done. Qed.
(** A write to rows no claim holds. *)
Lemma spares_queued t f : (forall r r', f r = Some r' -> status r = Queued) -> spares t f.
Proof.
  intros Hf r r' Hok Hh Hr. destruct (mine_row r Hok Hh) as [Hc _]. by rewrite (Hf r r' Hr) in Hc.
Qed.

Ltac spares_by l := apply l; intros r r' H; apply when_Some in H as [H ->]; split_guard H.
Lemma spares_requestCancel o tk q t : spares t (requestCancel o tk q t).
Proof.
  intros r r' Hok Hh H. apply when_Some in H as [_ ->]. destruct (mine_row r Hok Hh) as [Hc [e He]].
  assert (OperationStore.claimToken (claim r) = Some token) as Ht by (by apply bool_decide_eq_true in Hh).
  right. right. exists (stage_of (status r)), e. unfold status_in. destruct (status r) eqn:St; try discriminate Hc; goal_status; show_row; auto.
Qed.
Lemma spares_requestPause o ks t : spares t (requestPause o ks t).
Proof. spares_by spares_same. split; [done|]. cbn. destruct (status r); try done. Qed.
Lemma spares_resume o t : spares t (resume o t).
Proof. spares_by spares_same. split; [done|]. cbn. destruct (status r); try done. Qed.
Lemma spares_dismiss o t : spares t (dismiss o t).
Proof. by spares_by spares_same. Qed.
Lemma spares_setFinishedResult v t : spares t (setFinishedResult v).
Proof. by spares_by spares_same. Qed.
Lemma spares_mergeStreamSignal fields n t : spares t (mergeStreamSignal fields n).
Proof. by spares_by spares_same. Qed.
Lemma spares_recordRemoteJobId j t : spares t (recordRemoteJobId j).
Proof. by spares_by spares_same. Qed.
Lemma spares_markRemoteReleased t : spares t (markRemoteReleased t).
Proof. apply spares_same. by intros r r' [= <-]. Qed.
Lemma spares_recover_paused j t k : spares t (recover_paused j t k).
Proof. by spares_by spares_free. Qed.
Lemma spares_recover_retried f j t k : spares t (recover_retried f j t k).
Proof. by spares_by spares_free. Qed.
Lemma spares_recover_failed f j t k : spares t (recover_failed f j t k).
Proof. by spares_by spares_free. Qed.
Lemma spares_recover_cancelled j t k : spares t (recover_cancelled j t k).
Proof. by spares_by spares_free. Qed.
Lemma spares_stopUnconfirmed reason t : spares t (stopUnconfirmed reason t).
Proof. by spares_by spares_free. Qed.
Lemma spares_begin w lease t : spares t (beginJobQueueRun w lease t).
Proof. spares_by spares_queued. by apply bool_decide_eq_true in H. Qed.
Lemma spares_taken o w b t : spares t (fun r => when (claimable o t r && b) (taken (workerId o) w (leaseMs o) t r)).
Proof. spares_by spares_queued. unfold claimable in H. split_guard H. by apply bool_decide_eq_true in H. Qed.
Lemma spares_releaseDispatch t : spares t releaseJobQueueDispatch.
Proof. spares_by spares_queued. by apply bool_decide_eq_true in H. Qed.
Lemma spares_dispatch (ids : list string) (k : string) t : spares t
  (fun r => when (includes k ids) (set_claimedBy (Some EditOperation.JOB_QUEUE_CLAIMANT) r)).
Proof.
  intros r r' _ _ H. apply when_Some in H as [_ ->]. left. done.
Qed.
Lemma spares_expireClaim t : now t <= clock t -> spares t (expireClaim t).
Proof.
  intros Hn r r' Hok Hh H. apply when_Some in H as [_ ->]. destruct (mine_row r Hok Hh) as [Hc [e He]].
  assert (OperationStore.claimToken (claim r) = Some token) as Ht by (by apply bool_decide_eq_true in Hh).
  right. right. exists (stage_of (status r)), e. show_row. split; [done|]. right. by exists (now t).
Qed.

Lemma view_rows s s' : rows s' !! id = rows s !! id -> view id token s' = view id token s.
Proof. unfold view. by intros ->. Qed.

Lemma view_free s : view id token s = Free <-> ~ token_at s id token.
Proof using Type.
  unfold view, token_at, holds. destruct (rows s !! id) as [r|]; [case_bool_decide as Hb|]; split; try done.
  - intros Hn. destruct Hn. by exists r.
  - intros _ (r0 & E & Ht). injection E as <-. by apply Hb.
  - by intros _ (r0 & E & _).
Qed.

Lemma moves_update_row t k f s : store_good s -> token_at s id token -> (k = id -> spares t f) ->
  view_moves t (view id token s) (view id token (update_row t k f s).2).
Proof.
  intros (Hs & r & E & _) (r0 & E0 & Ht) Hf. rewrite E in E0. injection E0 as <-. destruct (decide (k = id)) as [->|Hne].
  - destruct (view_update t f s r E) as [-> _]. rewrite (view_row s r E). destruct (f r) as [r'|] eqn:Ef; [|by left].
    apply (Hf eq_refl r r' (Hs id r E)); [by apply bool_decide_eq_true|done].
  - left. apply view_rows. unfold update_row. destruct (rows s !! k ≫= f); [|done]. cbn. by rewrite lookup_insert_ne.
Qed.

Lemma moves_update_rows t f s : store_good s -> token_at s id token -> spares t (f id) ->
  view_moves t (view id token s) (view id token (update_rows t f s).2).
Proof.
  intros (Hs & r & E & _) (r0 & E0 & Ht) Hf. rewrite E in E0. injection E0 as <-.
  unfold view at 2. rewrite lookup_update_rows, E. cbn. rewrite (view_row s r E).
  destruct (f id r) as [r'|] eqn:Ef; [|by left].
  apply (Hf r r' (Hs id r E)); [by apply bool_decide_eq_true|done].
Qed.

Lemma view_insert k c t s s' : store_good s -> insert_row k c t s = Some s' -> view id token s' = view id token s.
Proof.
  intros (_ & r & E & _) [En ->]%insert_row_spec. apply view_rows. cbn. apply lookup_insert_ne. congruence.
Qed.

Create HintDb spares.
Hint Resolve spares_requestCancel spares_requestPause spares_resume spares_dismiss spares_setFinishedResult spares_mergeStreamSignal
  spares_recordRemoteJobId spares_markRemoteReleased spares_recover_paused spares_recover_retried
  spares_recover_failed spares_recover_cancelled spares_stopUnconfirmed spares_begin spares_taken
  spares_releaseDispatch spares_dispatch spares_expireClaim : spares.

Lemma store_other A t (o : OpE A) s : now t <= clock t -> store_good s -> ~ carries o id token -> new_token o <> Some token ->
  view_moves t (view id token s) (view id token (handle t o s).2).
Proof.
  intros Hnow Hg Hc Hn. destruct (view id token s) as [|st e] eqn:Hv.
  { right. left. apply view_free. apply view_free in Hv. intros Ht. destruct Hg as [Hs _].
    destruct (handle_moves publishable preview_fence preview_frames t o s Hs) as [Hs' Hm].
    destruct (moves_token _ _ _ _ _ Hs Hs' Hm Ht) as [E%actor_claim|?]; done. }
  rewrite <- Hv. assert (token_at s id token) as Ht.
  { unfold view in Hv. unfold token_at. destruct (rows s !! id) as [r|]; [|done]. exists r. split; [done|].
    destruct (holds token r) eqn:Hh; [by apply bool_decide_eq_true in Hh|done]. }
  clear Hv. pose proof Hg as (_ & r & Er & _).
  destruct o; cbn [carries] in Hc; try (rewrite ?claimNext_update, ?publish_row); cbn [OperationStore.handle updated snd].
  all: try (apply moves_update_row; [done|done|]; intros ->).
  all: try (eapply spares_worker; [auto with lease|]; intros ->; by apply Hc).
  all: try (solve [auto with spares]).
  all: try (apply moves_update_rows; [done|done|]; solve [auto with spares]).
  1: destruct (insert_row id0 c t s) eqn:E; left; [by eapply view_insert|done].
  1-2: unfold create_unless; destruct (existsb _ _); [by left|];
    destruct (insert_row id0 c t s) eqn:E; left; [by eapply view_insert|done].
  1: destruct (existsb _ _); [by left|]; destruct (insert_row id0 c t s) eqn:E; left; [by eapply view_insert|];
    apply view_rows; by repeat case_match.
  1: by left.
  1: destruct (oldest _ _ _); [|by left]; apply moves_update_row; [done|done|]; intros ->; auto with spares.
  1: destruct accepts; [|by left]; apply moves_update_row; [done|done|]; intros ->;
    (eapply spares_worker; [auto with lease|]; intros ->; by apply Hc).
  1: destruct (dispatch_choice _ _ _ _); [|by left]; cbn [snd]; apply moves_update_rows; [done|done|]; auto with spares.
  1: apply moves_update_rows; [done|done|]; destruct (includes id ids); [auto with spares|done].
  all: left; apply view_rows; by rewrite ?checkpoint_step_rows, ?completeCheckpoint_rows, ?invalidate_rows.
Qed.

Lemma store_good_act A t (o : OpE A) s : store_good s -> store_good (handle t o s).2.
Proof.
  intros (Hs & r & E & Ho & Hk). destruct (handle_moves publishable preview_fence preview_frames t o s Hs) as [Hs' Hm].
  split; [done|]. specialize (Hm id). rewrite E in Hm. destruct (rows (handle t o s).2 !! id) as [r'|]; [|done].
  exists r'. split; [done|]. destruct Hm as [->|[Hreq _ _ _]]; [done|]. by rewrite Hreq.
Qed.

Lemma store_begin t lease s : store_good s -> view id token s = Free ->
  match (handle t (BeginJobQueueRun id token lease) s).1 with
  | Some r => ownerId (request r) = owner /\
      exists e, view id token (handle t (BeginJobQueueRun id token lease) s).2 = Mine Early e
  | None => view id token (handle t (BeginJobQueueRun id token lease) s).2 = Free
  end.
Proof.
  intros (Hs & r & E & Ho & Hk) Hv. cbn [OperationStore.handle].
  destruct (view_update t (beginJobQueueRun token lease t) s r E) as [-> ->]. rewrite (view_row s r E) in Hv.
  destruct (beginJobQueueRun token lease t r) as [r'|] eqn:Eb; cbn; [|done].
  apply when_Some in Eb as [_ ->]. split; [done|]. eexists. unfold row_view, holds. cbn. by rewrite bool_decide_true.
Qed.

#[export] Instance store_operations : EditOperations id token owner (fun A t o s => handle t o s) := {
  good := store_good;
  see := view id token;
  good_act := store_good_act;
  own_promise := store_own;
  other_promise := store_other;
  begin_promise := store_begin
}.
End instance.
