(* ===== verification/EditDelivery.v ===== *)
(** * Deliveries of edits

    [exec] runs a program of [EditRun] one effect at a time; between any two effects the rest of the
    system may act: other statements on the store, the timer firing, a heartbeat reaching the database,
    its refusal coming back.  Proved against the promises of [EditClaim], method by method: however it is
    used and whatever comes in between, a delivery settles its row. *)

From Stdlib Require Import QArith_base.
From stdpp Require Import relations.
From S2P Require Import Prelude JsNumber JsString Enums OperationStore OperationLease EditRun EditClaim.
From S2P Require MediaOperation EditOperation RenderAdmission StudioRenderProgress.
Import Status.
Local Open Scope Z_scope.

(** ** Runs, with everything else in between *)

Create HintDb kept.

Section exec.
Context {id token owner : string} {act : forall A, Times -> OpE A -> Store -> A * Store}.
Context `{Ops : !EditOperations id token owner act} (lease : Z) (in_queue : bool).

(** The store, the run, heartbeats that have not reached the database, refusals that have not come back,
    the units the job was told of, and the database's clock. *)
Record Conf := mkConf {
  rows_of : Store;
  the_run : EditOperationRun;
  flying : nat;
  refused : nat;
  told : Z;
  at_clock : Z
}.
Definition with_store (s : Store) (t : Z) (c : Conf) : Conf := mkConf s (the_run c) (flying c) (refused c) (told c) t.
Definition with_run (f : EditOperationRun -> EditOperationRun) (c : Conf) : Conf :=
  mkConf (rows_of c) (f (the_run c)) (flying c) (refused c) (told c) (at_clock c).

Definition time_ok (c : Conf) (t : Times) : Prop := at_clock c <= clock t /\ now t <= clock t.

(** What may happen between two effects of the run. *)
Inductive other : Conf -> Conf -> Prop :=
| other_statement {A} (o : OpE A) t c :
    time_ok c t -> ~ carries o id token -> new_token o <> Some token ->
    other c (with_store (act A t o (rows_of c)).2 (clock t) c)
| timer_fires c : timer (the_run c) = true -> done_ (the_run c) = false ->
    other c (mkConf (rows_of c) (the_run c) (S (flying c)) (refused c) (told c) (at_clock c))
| timer_stops c : timer (the_run c) = true -> done_ (the_run c) = true -> other c (with_run stop_timer c)
| heartbeat_runs t c n : flying c = S n -> time_ok c t ->
    let x := act bool t (Heartbeat id token lease false) (rows_of c) in
    other c (mkConf x.2 (the_run c) n (if x.1 then refused c else S (refused c)) (told c) (clock t))
| refusal_lands c n : refused c = S n ->
    other c (mkConf (rows_of c) (stop_timer (set_state lost (the_run c))) (flying c) n (told c) (at_clock c)).
Definition others : Conf -> Conf -> Prop := rtc other.

(** A program run from [c] may end in [c'] with the value or exception [r]. *)
Fixpoint exec {A} (m : io A) (c : Conf) (r : A + Err) (c' : Conf) : Prop :=
  match m with
  | Done a => r = inl a /\ others c c'
  | Raise e => r = inr e /\ others c c'
  | Db o k => exists c1 t, others c c1 /\ time_ok c1 t /\
      let x := act _ t o (rows_of c1) in exec (k x.1) (with_store x.2 (clock t) c1) r c'
  | Get k => exists c1, others c c1 /\ exec (k (the_run c1)) c1 r c'
  | Put f k => exists c1, others c c1 /\ exec k (with_run f c1) r c'
  | Advance n f k => exists c1, others c c1 /\
      exec k (mkConf (rows_of c1) (f (the_run c1)) (flying c1) (refused c1) (told c1 + n) (at_clock c1)) r c'
  | Aborted k => exists c1 e, others c c1 /\ exec (k e) c1 r c'
  | Now k => exists c1 date_now, others c c1 /\ exec (k date_now) c1 r c'
  end.

Definition triple {A} (P : Conf -> Prop) (m : io A) (Q : A + Err -> Conf -> Prop) : Prop :=
  forall c r c', P c -> exec m c r c' -> Q r c'.
Definition stable (P : Conf -> Prop) : Prop := forall c c', P c -> other c c' -> P c'.

Lemma stable_others P c c' : stable P -> P c -> others c c' -> P c'.
Proof. intros HP Hc H. induction H; eauto. Qed.

Lemma exec_attempt {A B} (m : io A) (f : A + Err -> io B) c r c' :
  exec (attempt_ m f) c r c' -> exists x c1, exec m c x c1 /\ exec (f x) c1 r c'.
Proof.
  revert c. induction m as [a|e|X o k IH|k IH|g k IH|n g k IH|k IH|k IH]; intros c H; cbn in H.
  - exists (inl a), c. split; [split; [done|apply rtc_refl]|done].
  - exists (inr e), c. split; [split; [done|apply rtc_refl]|done].
  - destruct H as (c1 & t & H1 & H2 & H3). apply IH in H3 as (x & c2 & H3 & H4). exists x, c2. split; [|done].
    cbn. by exists c1, t.
  - destruct H as (c1 & H1 & H3). apply IH in H3 as (x & c2 & H3 & H4). exists x, c2. split; [|done]. cbn. by exists c1.
  - destruct H as (c1 & H1 & H3). apply IH in H3 as (x & c2 & H3 & H4). exists x, c2. split; [|done]. cbn. by exists c1.
  - destruct H as (c1 & H1 & H3). apply IH in H3 as (x & c2 & H3 & H4). exists x, c2. split; [|done]. cbn. by exists c1.
  - destruct H as (c1 & e & H1 & H3). apply IH in H3 as (x & c2 & H3 & H4). exists x, c2. split; [|done]. cbn. by exists c1, e.
  - destruct H as (c1 & e & H1 & H3). apply IH in H3 as (x & c2 & H3 & H4). exists x, c2. split; [|done]. cbn. by exists c1, e.
Qed.

Lemma t_attempt {A B} P (m : io A) (f : A + Err -> io B) Q R :
  triple P m R -> (forall x, triple (R x) (f x) Q) -> triple P (attempt_ m f) Q.
Proof. intros Hm Hf c r c' Hc H. apply exec_attempt in H as (x & c1 & H1 & H2). eapply Hf; [|exact H2]. by eapply Hm. Qed.

Lemma t_done {A} P (a : A) Q : stable P -> (forall c, P c -> Q (inl a) c) -> triple P (Done a) Q.
Proof. intros HP HQ c r c' Hc [-> H]. apply HQ. by eapply stable_others. Qed.
Lemma t_raise {A} P e (Q : A + Err -> Conf -> Prop) : stable P -> (forall c, P c -> Q (inr e) c) -> triple P (Raise e) Q.
Proof. intros HP HQ c r c' Hc [-> H]. apply HQ. by eapply stable_others. Qed.
Lemma t_put P {A} f (k : io A) Q R :
  stable P -> (forall c, P c -> R (with_run f c)) -> triple R k Q -> triple P (Put f k) Q.
Proof. intros HP HR Hk c r c' Hc (c1 & H1 & H2). eapply Hk; [|exact H2]. apply HR. by eapply stable_others. Qed.
Lemma t_db P {A B} (o : OpE B) (k : B -> io A) Q (R : B -> Conf -> Prop) :
  stable P ->
  (forall c t, P c -> time_ok c t -> R (act _ t o (rows_of c)).1 (with_store (act _ t o (rows_of c)).2 (clock t) c)) ->
  (forall x, triple (R x) (k x) Q) -> triple P (Db o k) Q.
Proof. intros HP HR Hk c r c' Hc (c1 & t & H1 & H2 & H3). eapply Hk; [|exact H3]. apply HR; [|done]. by eapply stable_others. Qed.
Lemma t_weaken {A} P P' (m : io A) Q Q' :
  triple P m Q -> (forall c, P' c -> P c) -> (forall r c, Q r c -> Q' r c) -> triple P' m Q'.
Proof. intros H HP HQ c r c' Hc He. eapply HQ, H; [by apply HP|done]. Qed.

(** ** What holds of a run between its effects *)

Definition Gone (c : Conf) : Prop :=
  match see (rows_of c) with Free => True | Mine st e => e <= at_clock c \/ st = Stopping end.
(** While the claim holds the row, its stage is among [p]. *)
Definition stages (p : Stage -> bool) (c : Conf) : Prop := forall st e, see (rows_of c) = Mine st e -> p st = true.
Definition not_early (st : Stage) : bool := match st with Early => false | _ => true end.
Definition not_checking (st : Stage) : bool := match st with Checking => false | _ => true end.
Definition stopping_only (st : Stage) : bool := match st with Stopping => true | _ => false end.

Record Inv (c : Conf) : Prop := mkInv {
  inv_good : good (rows_of c);
  inv_id : operation_id (the_run c) = id;
  inv_token : run_token (the_run c) = token;
  inv_owner : ownerId (request (operation (the_run c))) = owner;
  inv_refused : refused c <> 0%nat -> Gone c;
  inv_done : done_ (the_run c) = true -> Gone c;
  inv_told : told c = progressUnits (the_run c) /\ 0 <= told c <= 100;
  inv_queued : publicationQueued (the_run c) = true -> in_queue = true
}.

(** How another's step, and the heartbeat's, moves what the claim sees. *)
Lemma other_sees c c' : good (rows_of c) -> other c c' ->
  good (rows_of c') /\ at_clock c <= at_clock c' /\
  (see (rows_of c') = see (rows_of c) \/ see (rows_of c') = Free \/
   exists st e, see (rows_of c) = Mine st e /\
     (see (rows_of c') = Mine Stopping e \/
      exists e', see (rows_of c') = Mine st e' /\ (e' <= at_clock c' \/ at_clock c < e))).
Proof.
  intros Hg H. destruct H as [A o t c [Ht Hn] Hc Hnew|c _ _|c _ _|t c n _ [Ht Hn] x|c n _]; cbn [rows_of at_clock].
  - split; [by apply good_act|]. split; [done|].
    destruct (other_promise A t o (rows_of c) Hn Hg Hc Hnew) as [?|[?|(st & e & ? & [?|(e' & ? & ?)])]]; [by left|by right; left|..].
    + right. right. exists st, e. split; [done|]. by left.
    + right. right. exists st, e. split; [done|]. right. exists e'. split; [done|]. by left.
  - split; [done|]. split; [lia|]. by left.
  - split; [done|]. split; [cbn; lia|]. by left.
  - split; [by apply good_act|]. split; [done|].
    pose proof (own_promise bool t (Heartbeat id token lease false) (rows_of c) Hg (own_heartbeat _ _ _ lease)) as Hp.
    cbn [promises] in Hp. fold x in Hp. destruct x.1.
    + destruct Hp as (st & e & Hv & He & Hv'). right. right. exists st, e. split; [done|]. right. eexists. split; [done|]. right. lia.
    + left. apply Hp.
  - split; [done|]. split; [lia|]. by left.
Qed.

Lemma gone_other c c' : good (rows_of c) -> Gone c -> other c c' -> Gone c'.
Proof.
  intros Hg Hc Ho. destruct (other_sees c c' Hg Ho) as (_ & Ht & Hv). unfold Gone in *.
  destruct Hv as [->|[->|(st & e & Hs & [->|(e' & -> & He')])]]; [|done|by right|].
  - destruct (see (rows_of c)); [done|]. destruct Hc; [left; lia|by right].
  - rewrite Hs in Hc. destruct Hc; [|by right]. left. destruct He'; lia.
Qed.

Lemma stages_other p c c' : p Stopping = true -> good (rows_of c) -> stages p c -> other c c' -> stages p c'.
Proof.
  intros Hp Hg Hc Ho. destruct (other_sees c c' Hg Ho) as (_ & _ & Hv). unfold stages in *.
  destruct Hv as [->|[->|(st & e & Hs & [->|(e' & -> & _)])]]; intros st1 e1 H1; [by eapply Hc|done|congruence|].
  injection H1 as <- <-. by eapply Hc.
Qed.

(** What another's step leaves alone of the run; only a refused heartbeat changes its state. *)
Lemma other_run c c' : other c c' ->
  operation_id (the_run c') = operation_id (the_run c) /\ run_token (the_run c') = run_token (the_run c) /\
  operation (the_run c') = operation (the_run c) /\ errorNote (the_run c') = errorNote (the_run c) /\
  progressUnits (the_run c') = progressUnits (the_run c) /\
  publicationQueued (the_run c') = publicationQueued (the_run c) /\ told c' = told c /\
  (timer (the_run c) = false -> timer (the_run c') = false) /\
  (run_state (the_run c') = run_state (the_run c) \/ (run_state (the_run c') = lost /\ refused c <> 0%nat)).
Proof.
  intros H. destruct H; cbn; repeat split; try done; try by left. right. split; [done|]. congruence.
Qed.

Lemma refused_other c c' : Inv c -> other c c' -> refused c' <> 0%nat -> Gone c'.
Proof.
  intros Hi Ho Hr. destruct (decide (refused c = 0%nat)) as [H0|Hne].
  2:{ eapply gone_other; [apply Hi| |exact Ho]. by apply Hi. }
  destruct Ho as [A o t c Ht Hc Hnew|c _ _|c _ _|t c n _ Ht x|c n Hn]; cbn [refused with_store with_run] in *;
    try (congruence || lia).
  pose proof (own_promise bool t (Heartbeat id token lease false) (rows_of c) (inv_good _ Hi) (own_heartbeat _ _ _ lease)) as Hp.
  cbn [promises] in Hp. fold x in Hp. destruct x.1; [done|]. destruct Hp as [Hv He].
  unfold Gone. cbn [rows_of at_clock]. rewrite Hv. destruct (see (rows_of c)); [done|]. by left.
Qed.

Lemma inv_other c c' : Inv c -> other c c' -> Inv c'.
Proof.
  intros Hi Ho. destruct (other_run c c' Ho) as (E1 & E2 & E3 & _ & E4 & E7 & E5 & _ & E6).
  split; rewrite ?E1, ?E2, ?E3, ?E4, ?E5, ?E7; try apply Hi.
  - by apply (other_sees c c' (inv_good _ Hi) Ho).
  - by apply (refused_other c c').
  - intros Hd. eapply gone_other; [apply Hi| |exact Ho]. destruct E6 as [E6|[_ Hr]]; [|by apply Hi].
    apply (inv_done _ Hi). unfold done_ in *. by rewrite <- E6.
Qed.

(** Assertions about a run that its invariant carries past other steps. *)
Definition kept (P : Conf -> Prop) : Prop := forall c c', Inv c -> P c -> other c c' -> P c'.
Definition with_inv (P : Conf -> Prop) (c : Conf) : Prop := Inv c /\ P c.
Definition means {A} (P : Conf -> Prop) (m : io A) (Q : A + Err -> Conf -> Prop) : Prop :=
  triple (with_inv P) m (fun r => with_inv (Q r)).

Lemma kept_stable P : kept P -> stable (with_inv P).
Proof. intros HP c c' [Hi Hc] Ho. split; [by eapply inv_other|by eapply HP]. Qed.
Lemma kept_true : kept (fun _ => True).
Proof. done. Qed.
Lemma kept_and P Q : kept P -> kept Q -> kept (fun c => P c /\ Q c).
Proof. intros HP HQ c c' Hi [H1 H2] Ho. split; [by eapply HP|by eapply HQ]. Qed.
Lemma kept_or P Q : kept P -> kept Q -> kept (fun c => P c \/ Q c).
Proof. intros HP HQ c c' Hi [H1|H2] Ho; [left; by eapply HP|right; by eapply HQ]. Qed.
Lemma kept_gone : kept Gone.
Proof. intros c c' Hi. apply gone_other, Hi. Qed.
Lemma kept_stages p : p Stopping = true -> kept (stages p).
Proof. intros Hp c c' Hi. by apply stages_other, Hi. Qed.
Lemma kept_queued b : kept (fun c => publicationQueued (the_run c) = b).
Proof. intros c c' _ H Ho. destruct (other_run c c' Ho) as (_ & _ & _ & _ & _ & E & _). by rewrite E. Qed.
Lemma kept_units n : kept (fun c => progressUnits (the_run c) = n).
Proof. intros c c' _ H Ho. destruct (other_run c c' Ho) as (_ & _ & _ & _ & E & _). by rewrite E. Qed.
Lemma kept_timer : kept (fun c => timer (the_run c) = false).
Proof. intros c c' _ H Ho. destruct (other_run c c' Ho) as (_ & _ & _ & _ & _ & _ & _ & E & _). by apply E. Qed.
Lemma kept_state x P : x <> lost -> kept P -> kept (fun c => run_state (the_run c) = x -> P c).
Proof.
  intros Hx HP c c' Hi H Ho Hs. eapply HP; [exact Hi| |exact Ho]. apply H.
  destruct (other_run c c' Ho) as (_ & _ & _ & _ & _ & _ & _ & _ & [E|[E _]]); congruence.
Qed.
Lemma kept_const (F : Prop) : kept (fun _ => F).
Proof. by intros c c' _ H _. Qed.

(** At the border of a method: a working run has not begun its validation, and a validating one has. *)
Definition Border (c : Conf) : Prop :=
  (run_state (the_run c) = working -> stages not_checking c) /\
  (run_state (the_run c) = validating -> stages not_early c).
Lemma kept_border : kept Border.
Proof. apply kept_and; apply kept_state; try done; by apply kept_stages. Qed.

(** ** Rules *)

Lemma m_done {A} P (a : A) Q : kept P -> (forall c, Inv c -> P c -> Q (inl a) c) -> means P (Done a) Q.
Proof. intros HP HQ. apply t_done; [by apply kept_stable|]. intros c [Hi Hc]. split; auto. Qed.
Lemma m_raise {A} P e (Q : A + Err -> Conf -> Prop) : kept P -> (forall c, Inv c -> P c -> Q (inr e) c) -> means P (Raise e) Q.
Proof. intros HP HQ. apply t_raise; [by apply kept_stable|]. intros c [Hi Hc]. split; auto. Qed.
Lemma m_attempt {A B} P (m : io A) (f : A + Err -> io B) Q R :
  means P m R -> (forall x, means (R x) (f x) Q) -> means P (attempt_ m f) Q.
Proof. intros Hm Hf. eapply t_attempt; [exact Hm|exact Hf]. Qed.
Lemma m_bind {A B} P (m : io A) (f : A -> io B) Q R :
  means P m R -> (forall a, means (R (inl a)) (f a) Q) -> (forall e c, R (inr e) c -> Q (inr e) c) ->
  (forall e, kept (R (inr e))) -> means P (m ≫= f) Q.
Proof. intros Hm Hf He Hk. eapply m_attempt; [exact Hm|]. intros [a|e]; [apply Hf|]. apply m_raise; [apply Hk|intros c _; apply He]. Qed.
Lemma m_get P {A} (k : EditOperationRun -> io A) Q (F : EditOperationRun -> Conf -> Prop) :
  kept P -> (forall c, Inv c -> P c -> F (the_run c) c) ->
  (forall u, operation_id u = id -> run_token u = token -> ownerId (request (operation u)) = owner -> means (F u) (k u) Q) ->
  means P (Get k) Q.
Proof.
  intros HP HF Hk c r c' Hc (c1 & H1 & H2). destruct (stable_others _ _ _ (kept_stable P HP) Hc H1) as [Hi Hp].
  eapply (Hk (the_run c1)); [apply Hi..| |exact H2]. split; [done|]. by apply HF.
Qed.
Lemma m_put P {A} f (k : io A) Q R :
  kept P -> (forall c, Inv c -> P c -> Inv (with_run f c) /\ R (with_run f c)) -> means R k Q -> means P (Put f k) Q.
Proof. intros HP HR. eapply t_put; [by apply kept_stable|]. intros c [Hi Hc]. by apply HR. Qed.
Lemma m_signal P {A} (k : option Err -> io A) Q : kept P -> (forall e, means P (k e) Q) -> means P (Aborted k) Q.
Proof. intros HP Hk c r c' Hc (c1 & e & H1 & H2). eapply Hk; [|exact H2]. eapply stable_others; [by apply kept_stable|done|done]. Qed.
Lemma m_now P {A} (k : Z -> io A) Q : kept P -> (forall e, means P (k e) Q) -> means P (Now k) Q.
Proof. intros HP Hk c r c' Hc (c1 & e & H1 & H2). eapply Hk; [|exact H2]. eapply stable_others; [by apply kept_stable|done|done]. Qed.
Lemma m_weaken {A} P P' (m : io A) Q Q' :
  means P m Q -> (forall c, Inv c -> P' c -> P c) -> (forall r c, Inv c -> Q r c -> Q' r c) -> means P' m Q'.
Proof. intros H HP HQ. eapply t_weaken; [exact H|..]; intros; destruct H0 || destruct H; split; auto. Qed.

(** A statement of the run keeps the invariant: what is given up stays given up. *)
Definition is_heartbeat {A} (o : OpE A) : bool := match o with Heartbeat _ _ _ _ => true | _ => false end.
Lemma gone_own {A} (o : OpE A) t c : Inv c -> own id token owner A o -> is_heartbeat o = false -> time_ok c t -> Gone c ->
  Gone (with_store (act _ t o (rows_of c)).2 (clock t) c).
Proof.
  intros Hi Ho Hh [Ht _] Hg. pose proof (own_promise A t o (rows_of c) (inv_good _ Hi) Ho) as Hp.
  unfold Gone in *. cbn [rows_of at_clock with_store]. set (x := act A t o (rows_of c)) in *.
  destruct Ho; try discriminate Hh; cbn [promises] in Hp.
  - destruct Hp as [-> _]. destruct (see (rows_of c)); [done|]. destruct Hg; [left; lia|by right].
  - destruct x.1; [destruct Hp as (e & He & ->)|destruct Hp as [-> _]].
    + rewrite He in Hg. destruct Hg as [|Hg]; [left; lia|done].
    + destruct (see (rows_of c)); [done|]. destruct Hg; [left; lia|by right].
  - destruct x.1; [by rewrite Hp|]. destruct Hp as [-> _]. destruct (see (rows_of c)); [done|]. destruct Hg; [left; lia|by right].
  - destruct x.1; [by rewrite Hp|]. rewrite Hp. destruct (see (rows_of c)); [done|]. destruct Hg; [left; lia|by right].
  - by rewrite Hp.
  - destruct x.1; [by rewrite Hp|]. destruct Hp as [-> _]. destruct (see (rows_of c)); [done|]. destruct Hg; [left; lia|by right].
  - destruct (see (rows_of c)); rewrite Hp; [done|by right].
  - destruct (see (rows_of c)) as [|[] e]; rewrite Hp; try done; (destruct Hg; [left; lia|by right]).
  - destruct Hp as [-> _]. destruct (see (rows_of c)); [done|]. destruct Hg; [left; lia|by right].
Qed.

Lemma m_own P {A B} (o : OpE B) (k : B -> io A) Q (R : B -> Conf -> Prop) :
  kept P -> own id token owner B o -> is_heartbeat o = false ->
  (forall c t, Inv c -> P c -> time_ok c t ->
     let x := act _ t o (rows_of c) in
     promises token t o (see (rows_of c)) x.1 (see x.2) -> R x.1 (with_store x.2 (clock t) c)) ->
  (forall x, means (R x) (k x) Q) -> means P (Db o k) Q.
Proof.
  intros HP Ho Hh HR Hk. eapply t_db; [by apply kept_stable| |exact Hk]. intros c t [Hi Hc] Ht.
  split; [|apply HR; [done..|by apply own_promise; [apply Hi|]]].
  split; try apply Hi; cbn.
  - by apply good_act, Hi.
  - intros Hr. apply gone_own; [done..|by apply (inv_refused _ Hi)].
  - intros Hd. apply gone_own; [done..|by apply (inv_done _ Hi)].
Qed.

(** A change of the run's state, and of nothing else of it. *)
Lemma inv_run f c : Inv c ->
  (forall u, operation_id (f u) = operation_id u /\ run_token (f u) = run_token u /\ operation (f u) = operation u /\
             progressUnits (f u) = progressUnits u /\ publicationQueued (f u) = publicationQueued u) ->
  (done_ (f (the_run c)) = true -> Gone c) -> Inv (with_run f c).
Proof.
  intros [I1 I2 I3 I4 I5 I6 I7 I8] Hf Hd. destruct (Hf (the_run c)) as (E1 & E2 & E3 & E4 & E5).
  split; cbn; rewrite ?E1, ?E2, ?E3, ?E4, ?E5; done.
Qed.

Definition Unclaimed (c : Conf) : Prop := see (rows_of c) = Free.
Lemma kept_unclaimed : kept Unclaimed.
Proof.
  intros c c' Hi H Ho. destruct (other_sees c c' (inv_good _ Hi) Ho) as (_ & _ & [E|[E|(st & e & E & _)]]); unfold Unclaimed in *; congruence.
Qed.
Lemma unclaimed_gone c : Unclaimed c -> Gone c.
Proof. unfold Unclaimed, Gone. by intros ->. Qed.
Lemma stopping_gone c : stages stopping_only c -> Gone c.
Proof. unfold stages, Gone. destruct (see (rows_of c)) as [|st e]; [done|]. intros H. right. specialize (H st e eq_refl). by destruct st. Qed.

(** The statement left the claim's view as it was. *)
Lemma border_same s t c : see s = see (rows_of c) -> Border c -> Border (with_store s t c).
Proof. unfold Border, stages. cbn. by intros ->. Qed.
Lemma stages_same p s t c : see s = see (rows_of c) -> stages p c -> stages p (with_store s t c).
Proof. unfold stages. cbn. by intros ->. Qed.
Lemma border_stages c : (forall st e, see (rows_of c) <> Mine st e) \/ stages stopping_only c -> Border c.
Proof.
  intros H. split; intros _ st e E; (destruct H as [H|H]; [by apply H in E|apply H in E; by destruct st]).
Qed.

Ltac flat := cbn [mbind io_bind bind mret io_ret attempt_ db get put throwIfAborted done_].
Ltac kept := auto 10 with kept.
Hint Resolve kept_true kept_and kept_or kept_gone kept_stages kept_queued kept_units kept_timer kept_state
  kept_border kept_const kept_unclaimed : kept.

(** ** The methods *)

Lemma m_cancelRequested : means Border cancelRequested (fun r c => Border c /\ exists b, r = inl b).
Proof.
  unfold cancelRequested. flat. eapply (m_get _ _ _ (fun _ => Border)); [kept|done|]. intros u -> Ht Ho.
  eapply (m_own _ _ _ _ (fun _ => Border)); [kept|constructor|done| |].
  - intros c t Hi Hb _ x Hp. cbn [promises] in Hp. apply border_same; [apply Hp|done].
  - intros x. apply m_done; [kept|]. intros c _ Hb. split; [done|by eexists].
Qed.

Lemma m_cancelRequested_stopping : means (stages stopping_only) cancelRequested
  (fun r c => exists b, r = inl b /\ stages stopping_only c /\ (b = false -> Unclaimed c)).
Proof.
  unfold cancelRequested. flat. eapply (m_get _ _ _ (fun _ => stages stopping_only)); [kept|done|]. intros u -> Ht Ho. rewrite Ht.
  eapply (m_own _ _ _ _ (fun x c => stages stopping_only c /\ ((match x with
     | Some r => negb (is_null (cancelRequestedAt (stop r))) && holds token r | None => false end) = false -> Unclaimed c)));
    [kept|constructor|done| |].
  - intros c t Hi Hb _ x Hp. cbn [promises] in Hp. destruct Hp as (Hv & Hx & _). split; [by apply stages_same|].
    intros Hf. unfold Unclaimed. cbn. rewrite Hv. destruct (see (rows_of c)) as [|st e] eqn:Es; [done|].
    specialize (Hb st e Es). destruct st; try discriminate Hb. rewrite (proj2 Hx) in Hf; [done|by eexists].
  - intros x. apply m_done.
    + apply kept_and; [kept|]. intros c c' Hi H Ho' Hf. eapply kept_unclaimed; [exact Hi|by apply H|done].
    + intros c _ [Hs Hf]. eexists. split; [done|]. split; [done|exact Hf].
Qed.

Lemma kept_imp (F : Prop) P : kept P -> kept (fun c => F -> P c).
Proof. intros HP c c' Hi H Ho HF. eapply HP; [exact Hi|by apply H|done]. Qed.
Hint Resolve kept_imp : kept.

Definition Ended (c : Conf) : Prop := Border c /\ Gone c.
Lemma kept_ended : kept Ended.
Proof. apply kept_and; kept. Qed.
Hint Resolve kept_ended : kept.

Lemma done_ended c : Inv c -> done_ (the_run c) = true -> Ended c.
Proof.
  intros Hi Hd. split; [|by apply (inv_done _ Hi)]. unfold done_ in Hd. split; intros E; by rewrite E in Hd.
Qed.
(** [settle], when the claim is given up. *)
Lemma settle_ended c : Inv c -> Gone c -> Inv (with_run settle c) /\ Ended (with_run settle c).
Proof. intros Hi Hg. split; [by apply inv_run|]. split; [by split|exact Hg]. Qed.
Lemma lost_ended c : Inv c -> Gone c -> Inv (with_run (set_state lost) c) /\ Ended (with_run (set_state lost) c).
Proof. intros Hi Hg. split; [by apply inv_run|]. split; [by split|exact Hg]. Qed.

Definition value {A} (Q : Conf -> Prop) (r : A + Err) (c : Conf) : Prop := Q c /\ exists a, r = inl a.

(** A method that returns at once when the run is over, and works on [m] when it is not. *)
Lemma m_unless_done {A} (a : A) (m : EditOperationRun -> io A) :
  (forall u, operation_id u = id -> run_token u = token -> ownerId (request (operation u)) = owner ->
     means (fun _ => True) (m u) (value Ended)) ->
  means (fun _ => True) (Get (fun u => if done_ u then Done a else m u)) (value Ended).
Proof.
  intros Hm. apply (m_get _ _ _ (fun u c => done_ u = true -> Ended c)); [kept|intros c Hi _; by apply done_ended|].
  intros u H1 H2 H3. destruct (done_ u).
  - apply m_done; [kept|]. intros c _ H. split; [by apply H|by eexists].
  - eapply m_weaken; [by apply Hm|done|done].
Qed.

Lemma m_settle {A} (a : A) : means Gone (Put settle (Done a)) (value Ended).
Proof.
  eapply (m_put _ _ _ _ Ended); [kept|intros c Hi Hg; by apply settle_ended|].
  apply m_done; [kept|]. intros c _ H. split; [done|by eexists].
Qed.

Lemma m_fail_final u f {A} (a : bool -> A) : operation_id u = id -> run_token u = token ->
  means (fun _ => True) (Db (FailFinal (operation_id u) (run_token u) f false) (fun b => Put settle (Done (a b)))) (value Ended).
Proof.
  intros -> ->. eapply (m_own _ _ _ _ (fun _ => Gone)); [kept|constructor|done| |intros b; apply m_settle].
  intros c t _ _ _ x Hp. cbn [promises] in Hp. unfold Gone. cbn. fold x. by rewrite Hp.
Qed.

Lemma m_fail e code retry : means (fun _ => True) (fail_run e code retry) (value Ended).
Proof.
  unfold fail_run. flat. apply m_unless_done. intros u Hid Ht Ho. unfold OperationStore.fail. flat. destruct retry; flat.
  - rewrite Hid, Ht. eapply (m_own _ _ _ _ (fun b c => b = true -> Gone c)); [kept|constructor|done| |].
    + intros c t _ _ _ x Hp Hx. cbn [promises] in Hp. rewrite Hx in Hp. unfold Gone. cbn. fold x. by rewrite Hp.
    + intros [|]; flat.
      * eapply m_weaken; [apply m_settle| |done]. intros c _ H. by apply H.
      * rewrite <- Hid, <- Ht. eapply m_weaken; [by apply m_fail_final|done|done].
  - by apply m_fail_final.
Qed.

Lemma m_cancelled : means (fun _ => True) cancelled (value Ended).
Proof.
  unfold cancelled. flat. apply m_unless_done. intros u Hid Ht Ho. rewrite Hid, Ht, Ho. flat.
  eapply (m_own _ _ _ _ (fun _ => stages stopping_only)); [kept|constructor|done| |].
  - intros c t _ _ _ x Hp st e Hs. cbn [promises] in Hp. cbn in Hs. fold x in Hs. destruct (see (rows_of c)); [congruence|].
    rewrite Hp in Hs. by injection Hs as <- _.
  - intros _. eapply (m_own _ _ _ _ (fun _ => Gone)); [kept|constructor|done| |intros b; apply m_settle].
    intros c t _ Hs _ x Hp. cbn [promises] in Hp. unfold Gone. cbn. fold x.
    destruct (see (rows_of c)) as [|st e] eqn:E; [by rewrite Hp|]. specialize (Hs st e E). destruct st; try discriminate Hs. by rewrite Hp.
Qed.

Lemma m_release delay : means Border (release delay) (value Ended).
Proof.
  unfold release. flat. eapply m_weaken; [apply m_unless_done|done|done]. intros u Hid Ht Ho. rewrite Hid, Ht. flat.
  eapply (m_own _ _ _ _ (fun _ => Gone)); [kept|constructor|done| |intros b; apply m_settle].
  intros c t _ _ _ x Hp. cbn [promises] in Hp. unfold Gone. cbn. fold x. destruct x.1; [by rewrite Hp|].
  destruct Hp as [-> Hs]. destruct (see (rows_of c)) as [|[] e]; [done|..]; [|right|right]; try done.
  all: exfalso; destruct (Hs e) as [? ?]; done.
Qed.

(** [validate] answers [true] only once the row is being checked under the claim, or the claim is gone. *)
Definition Gated (r : bool + Err) (c : Conf) : Prop :=
  match r with inl true => Border c /\ stages not_early c | inl false => Ended c | inr _ => Border c end.
Lemma kept_gated r : kept (Gated r).
Proof. destruct r as [[]|e]; [apply (kept_and Border (stages not_early)); kept|apply kept_ended|apply kept_border]. Qed.
Hint Resolve kept_gated : kept.

Lemma m_validate : means Border validate Gated.
Proof.
  unfold validate. flat. apply m_signal; [kept|]. intros [e|]; flat; [by apply m_raise; [kept|]|].
  eapply (m_get _ _ _ (fun u c => Border c /\ (run_state u = validating -> stages not_early c) /\
                                   (run_state u = working -> stages not_checking c) /\ (done_ u = true -> Ended c))).
  - kept.
  - intros c Hi Hb. split; [done|]. split; [apply Hb|]. split; [apply Hb|]. by apply done_ended.
  - intros u Hid Ht Ho. destruct (run_state u) eqn:Hs; flat.
    2:{ apply m_done; [kept|]. intros c _ (Hb & Hv & _). split; [done|by apply Hv]. }
    2-3: apply m_done; [kept|]; intros c _ (_ & _ & _ & Hd); apply Hd; unfold done_; by rewrite Hs.
    rewrite Hid, Ht.
    eapply (m_own _ _ _ _ (fun b c => if b : bool then stages not_early c else stages stopping_only c)); [kept|constructor|done| |].
    + intros c t _ (_ & _ & Hw & _) _ x Hp. specialize (Hw eq_refl). cbn [promises] in Hp. fold x. destruct x.1.
      * destruct Hp as (e & _ & Hv). intros st e1 Hst. cbn in Hst. fold x in Hst. rewrite Hv in Hst. by injection Hst as <- _.
      * destruct Hp as [Hv He]. intros st e1 Hst. cbn in Hst. fold x in Hst. rewrite Hv in Hst.
        pose proof (Hw st e1 Hst) as Hc. destruct st; [by apply He in Hst|done|done].
    + intros [|]; flat.
      * eapply (m_put _ _ _ _ (fun c => Border c /\ stages not_early c)); [kept| |by apply m_done; [kept|]].
        intros c Hi Hc. split; [by apply inv_run|]. split; [|exact Hc]. split; [done|by intros _].
      * eapply m_attempt; [apply m_cancelRequested_stopping|]. intros [[|]|e]; flat.
        -- eapply m_attempt; [eapply m_weaken; [apply m_cancelled|done|done]|]. intros [a|e]; flat.
           ++ apply m_done; [unfold value; kept|]. by intros c _ [H _].
           ++ intros c r c' [_ [_ [a Ha]]]. done.
        -- eapply (m_put _ _ _ _ Ended); [|intros c Hi (b & [= <-] & _ & Hu)|by apply m_done; [kept|]].
           ++ intros c c' Hi (b & Eb & H1 & H2) Ho'. exists b. split; [done|].
              split; [by eapply (kept_stages stopping_only)|]. intros Hb. eapply kept_unclaimed; [exact Hi|by apply H2|done].
           ++ apply lost_ended; [done|by apply unclaimed_gone, Hu].
        -- intros c r c' [_ (b & Hb & _)]. done.
Qed.

Lemma percent_bounds p : 0 <= percent_of p <= 100.
Proof. unfold percent_of. lia. Qed.

Lemma m_progress p : means Border (progress p) (fun _ => Border).
Proof.
  unfold progress. flat. apply m_signal; [kept|]. intros [e|]; flat; [by apply m_raise; [kept|]|].
  eapply (m_get _ _ _ (fun u c => Border c /\ (run_state u = working -> stages not_checking c))); [kept|intros c _ Hb; split; [done|apply Hb]|].
  intros u Hid Ht Ho. case_bool_decide as Hs; cbn [negb]; [|by apply m_done; [kept|intros c _ [Hb _]]].
  rewrite Hid, Ht. set (value_ := percent_of p).
  eapply (m_own _ _ _ _ (fun b c => Border c /\ (b = false -> stages stopping_only c))); [kept|constructor|done| |].
  - intros c t _ [Hb Hw] _ x Hp. cbn [promises] in Hp. destruct Hp as [Hv Hx]. fold x in Hv, Hx. split; [by apply border_same|].
    intros Hf. fold x in Hf. rewrite Hf in Hx. apply stages_same; [done|]. intros st e Hst.
    pose proof (Hw Hs st e Hst) as Hc. destruct st; [by apply Hx in Hst|done|done].
  - intros ok.
    assert (means (fun c => Border c /\ (ok = false -> stages stopping_only c))
              (if ok then Done tt else cancelRequested ≫= (fun asked : bool => if asked then Done tt else put (set_state lost)))
              (fun _ => Border)) as Hmid.
    { destruct ok; [apply m_done; [kept|by intros c _ [Hb _]]|].
      eapply m_weaken with (P := stages stopping_only) (Q := fun _ => Border);
        [|by intros c _ [_ H]; apply H|done].
      flat. eapply m_attempt; [apply m_cancelRequested_stopping|]. intros [[|]|e]; flat.
      - apply m_done.
        + intros c c' Hi (b & Eb & H1 & H2) Ho'. exists b. split; [done|].
          split; [by eapply (kept_stages stopping_only)|]. intros Hb. eapply kept_unclaimed; [exact Hi|by apply H2|done].
        + intros c _ (b & _ & H & _). apply border_stages. by right.
      - eapply (m_put _ _ _ _ Ended); [|intros c Hi (b & [= <-] & _ & Hu)|by apply m_done; [kept|intros c _ [? _]]].
        + intros c c' Hi (b & Eb & H1 & H2) Ho'. exists b. split; [done|].
          split; [by eapply (kept_stages stopping_only)|]. intros Hb. eapply kept_unclaimed; [exact Hi|by apply H2|done].
        + apply lost_ended; [done|by apply unclaimed_gone, Hu].
      - intros c r c' [_ (b & Hb & _)]. done. }
    eapply m_bind; [exact Hmid| |done|kept]. intros []. clear Hmid.
    eapply (m_get _ _ _ (fun u c => Border c /\ progressUnits (the_run c) = progressUnits u)); [kept|done|]. clear u Hid Ht Ho Hs.
    intros u _ _ _. pose proof (percent_bounds p) as Hv. fold value_ in Hv. destruct (ok && _); flat.
    + intros c r c' Hc (c1 & H1 & H2).
      destruct (stable_others _ _ _ (kept_stable _ (kept_and _ _ kept_border (kept_units (progressUnits u)))) Hc H1) as [[I1 I2 I3 I4 I5 I6 I7 I8] [Hb Hu]].
      refine (m_done Border ok (fun _ => Border) _ _ _ _ _ _ H2); [kept|done|]. split; [|exact Hb].
      split; cbn; try done. lia.
    + by apply m_done; [kept|intros c _ [Hb _]].
Qed.

(** The run gave its row up, or left it to the transaction of its queue. *)
Definition Over (c : Conf) : Prop := Gone c \/ publicationQueued (the_run c) = true.
Definition Answered {A} (r : A + Err) (c : Conf) : Prop := Border c /\ (forall a, r = inl a -> Over c).
Lemma kept_over : kept Over.
Proof. apply kept_or; kept. Qed.
Hint Resolve kept_over : kept.
Lemma kept_answered {A} (r : A + Err) : kept (Answered r).
Proof. intros c c' Hi [Hb Ho] H. split; [by eapply kept_border|]. intros a Ha. eapply kept_over; [exact Hi|by eapply Ho|done]. Qed.
Lemma ended_answered {A} (r : A + Err) c : Ended c -> Answered r c.
Proof. intros [Hb Hg]. split; [done|]. intros _ _. by left. Qed.
Hint Resolve kept_answered : kept.

Lemma m_ended {A} (a : A) : means Ended (Done a) Answered.
Proof. apply m_done; [kept|]. intros c _ H. by apply ended_answered. Qed.

Lemma m_lost {A} (a : A) : means (stages stopping_only) (Put (set_state lost) (Done a)) Answered.
Proof.
  eapply (m_put _ _ _ _ Ended); [kept|intros c Hi Hs|apply m_ended]. apply lost_ended; [done|by apply stopping_gone].
Qed.

Lemma m_complete a : means Border (complete_run in_queue a) Answered.
Proof.
  unfold complete_run. flat.
  eapply (m_get _ _ _ (fun u c => Border c /\ (publicationQueued u = true -> publicationQueued (the_run c) = true))).
  { kept. } { done. }
  intros u Hid Ht Ho. destruct (publicationQueued u).
  { apply m_done; [kept|]. intros c _ [Hb Hq]. split; [done|]. intros _ _. right. by apply Hq. }
  eapply m_bind; [eapply m_weaken; [apply m_validate|by intros c _ [? _]|done]| |by intros e c Hb; split|kept].
  intros [|]; cbn [negb]; [|apply m_ended]. cbn [Gated]. destruct in_queue eqn:Hq; flat.
  - apply m_signal; [kept|]. intros [e|]; flat; [apply m_raise; [kept|by intros c _ [Hb _]; split]|].
    eapply (m_put _ _ _ _ (fun c => Border c /\ publicationQueued (the_run c) = true)); [kept| |].
    { intros c [I1 I2 I3 I4 I5 I6 I7 I8] [Hb _]. split; [by split|by split]. }
    apply m_signal; [kept|]. intros [e|]; flat; [apply m_raise; [kept|by intros c _ [Hb _]; split]|].
    apply m_done; [kept|]. intros c _ [Hb Hp]. split; [done|]. intros _ _. by right.
  - rewrite Hid, Ht.
    eapply (m_own _ _ _ _ (fun b c => if b : bool then Gone c else Border c /\ (a = None -> stages stopping_only c)));
      [kept|constructor|done| |].
    + intros c t _ [Hb He] _ x Hp. cbn [promises] in Hp. fold x. destruct x.1; [unfold Gone; cbn; fold x; by rewrite Hp|].
      destruct Hp as [Hv Hc]. split; [by apply border_same|]. intros ->. apply stages_same; [done|]. intros st e Hst.
      pose proof (He st e Hst) as Hne. destruct st; [done| |done]. by apply Hc in Hst.
    + intros [|]; flat.
      * eapply (m_put _ _ _ _ Ended); [kept|intros c Hi Hg; by apply settle_ended|apply m_ended].
      * destruct a as [a|]; flat.
        -- eapply (m_attempt _ _ _ _ (value Ended)).
           ++ eapply m_attempt; [eapply m_weaken; [apply m_fail|done|done]|]. intros [x|e]; flat.
              ** apply m_done; [unfold value; kept|]. intros c _ [H _]. split; [done|by eexists].
              ** intros c r c' [_ [_ [y Hy]]]. done.
           ++ intros [x|e]; flat; [|intros c r c' [_ [_ [y Hy]]]; done].
              apply m_done; [unfold value; kept|]. intros c _ [H _]. by apply ended_answered.
        -- eapply m_weaken; [apply m_lost| |done]. intros c _ [_ H]. by apply H.
Qed.

(** A method whose answer does not matter. *)
Lemma m_then {A B} P (m : io A) (b : B) (R : A + Err -> Conf -> Prop) : means P m R ->
  (forall r c, R r c -> Border c /\ (forall a, r = inl a -> Over c)) -> (forall r, kept (R r)) ->
  means P (m ≫= fun _ => Done b) Answered.
Proof.
  intros Hm HR Hk. eapply m_bind; [exact Hm| | |by intros].
  - intros a. apply m_done; [apply Hk|]. intros c _ H. destruct (HR _ _ H) as [Hb Ho]. split; [done|]. intros _ _. by eapply Ho.
  - intros e c H. destruct (HR _ _ H) as [Hb _]. by split.
Qed.

Lemma m_finish status : means Border (finish in_queue status) Answered.
Proof.
  unfold finish. flat. eapply (m_get _ _ _ (fun u c => Border c /\ (done_ u = true -> Ended c))).
  { kept. } { intros c Hi Hb. split; [done|by apply done_ended]. }
  intros u _ _ _. destruct (done_ u).
  { eapply m_weaken; [apply m_ended|by intros c _ [_ H]; apply H|done]. }
  eapply (m_weaken Border); [|by intros c _ [H _]|done]. destruct (EditOperation.editOperationOutcome status).
  - eapply m_then; [apply m_complete|done|kept].
  - eapply m_then; [apply m_complete|done|kept].
  - eapply m_then; [eapply m_weaken; [apply m_fail|done|done]| |unfold value; kept].
    intros r c [He _]. split; [apply He|]. intros _ _. left. apply He.
Qed.

Lemma m_work w : means Border (work_io in_queue w) (fun _ => Border).
Proof.
  assert (forall A (m : io A) (k : A + Err -> Work) R, means Border m R -> (forall r c, Inv c -> R r c -> Border c) ->
    (forall x, means Border (work_io in_queue (k x)) (fun _ => Border)) ->
    means Border (attempt_ m (fun x => work_io in_queue (k x))) (fun _ => Border)) as Hstep.
  { intros A m k R Hm HR Hk. eapply m_attempt; [exact Hm|]. intros x. eapply m_weaken; [apply Hk|by apply HR|done]. }
  induction w as [st|e|p k IH|k IH|k IH|a k IH|e code retry k IH|k IH|d k IH|e code w IH]; cbn [work_io].
  - by apply m_done; [kept|].
  - by apply m_raise; [kept|].
  - eapply Hstep; [apply m_progress|done|exact IH].
  - eapply Hstep; [apply m_cancelRequested|by intros r c _ [H _]|exact IH].
  - eapply Hstep; [apply m_validate| |exact IH]. intros [[]|e] c _; [by intros [? _]|by intros [? _]|done].
  - eapply Hstep; [apply m_complete|by intros r c _ [H _]|exact IH].
  - eapply Hstep; [eapply m_weaken; [apply m_fail|done|done]|by intros r c _ [[H _] _]|exact IH].
  - eapply Hstep; [eapply m_weaken; [apply m_cancelled|done|done]|by intros r c _ [[H _] _]|exact IH].
  - eapply Hstep; [apply m_release|by intros r c _ [[H _] _]|exact IH].
  - unfold noteError. flat. eapply (m_put _ _ _ _ Border); [kept| |exact IH].
    intros c Hi Hb. split; [|exact Hb]. apply inv_run; [done|done|apply (inv_done _ Hi)].
Qed.

Lemma m_execute_run w onCancelled : means Border (execute_run in_queue w onCancelled) Answered.
Proof.
  unfold execute_run. eapply m_bind; [apply m_progress| |by intros e c Hb; split|kept].
  intros [|]; cbn [negb]; flat.
  - eapply m_bind; [apply m_work| |by intros e c Hb; split|kept]. intros status.
    eapply m_then; [apply m_finish|done|kept].
  - eapply (m_get _ _ _ (fun u c => done_ u = true -> Ended c)); [kept|intros c Hi _; by apply done_ended|].
    intros u _ _ _. destruct (done_ u); flat.
    { eapply m_weaken; [apply m_ended|by intros c _ H; apply H|done]. }
    eapply (m_weaken (fun _ => True)); [|done|done].
    assert (means (fun _ => True) (cancelled ≫= (fun acknowledged : bool => if acknowledged then on_cancelled onCancelled else Done tt))
              (fun _ => Ended)) as Hmid.
    { eapply m_bind; [apply m_cancelled| |by intros e c [H _]|unfold value; kept].
      intros a. eapply (m_weaken Ended _ _ (fun _ => Ended)); [|by intros c _ [H _]|done].
      destruct a; [|by apply m_done; [apply kept_ended|]].
      unfold on_cancelled. destruct onCancelled; [by apply m_raise; [apply kept_ended|]|by apply m_done; [apply kept_ended|]]. }
    eapply m_then; [exact Hmid| |kept]. intros r c [Hb Hg]. split; [done|]. intros _ _. by left.
Qed.

(** Stopped, and over; an exception leaves nothing to the queue. *)
Definition Finished {A} (r : A + Err) (c : Conf) : Prop :=
  timer (the_run c) = false /\ match r with inl _ => Over c | inr _ => Gone c end.

Lemma m_stop {A} (m : io A) P : kept P -> (forall c, P c -> P (with_run stop_timer c)) ->
  means (fun c => P c /\ timer (the_run c) = false) m Finished -> means P (Put stop_timer m) Finished.
Proof.
  intros HP Hs Hm. eapply (m_put _ _ _ _ (fun c => P c /\ timer (the_run c) = false)); [done| |exact Hm].
  intros c Hi Hc. split; [|split; [by apply Hs|done]]. apply inv_run; [done|done|apply (inv_done _ Hi)].
Qed.

Lemma m_stop_done {A} (a : A) : means Over (Put stop_timer (Done a)) Finished.
Proof.
  apply m_stop; [kept|done|]. apply m_done; [kept|]. intros c _ [Ho Ht]. by split.
Qed.

Lemma m_catch x : means (Answered x) (execute_catch x) Finished.
Proof.
  destruct x as [status|e]; unfold execute_catch; flat.
  { eapply m_weaken; [apply m_stop_done|intros c _ [_ Ho]; by eapply Ho|done]. }
  eapply (m_weaken Border); [|by intros c _ [Hb _]|done].
  apply m_now; [kept|]. intros date_now. eapply (m_get _ _ _ (fun _ => Border)); [kept|done|]. intros u _ _ _.
  eapply m_bind with (R := fun (r : bool + Err) c => match r with inl true => Ended c | inl false => True | inr _ => False end).
  - destruct (locked_key e && _).
    + eapply m_weaken; [apply m_release|done|]. intros [[]|er] c _ [H [y Hy]]; done.
    + apply m_done; [kept|done].
  - intros [|]; flat.
    + eapply m_weaken; [apply m_stop_done| |done]. intros c _ [_ Hg]. by left.
    + eapply m_attempt; [apply m_fail|]. intros [y|er]; flat; [|intros c r c' [_ [_ [z Hz]]]; done].
      eapply (m_weaken Gone _ _ Finished); [|by intros c _ [[_ Hg] _]|done].
      apply m_stop; [kept|done|]. apply m_raise; [kept|]. intros c _ [Hg Ht]. by split.
  - by intros er c [].
  - by intros er c c' _ [].
Qed.

(** Before a delivery: the token is nobody's, and no earlier run of it exists. *)
Record Start (c : Conf) : Prop := mkStart {
  start_good : good (rows_of c);
  start_unclaimed : Unclaimed c;
  start_still : flying c = 0%nat /\ refused c = 0%nat /\ timer (the_run c) = false /\ told c = 0;
  start_queued : publicationQueued (the_run c) = false
}.
Lemma still_other c c' : flying c = 0%nat /\ refused c = 0%nat /\ timer (the_run c) = false /\ told c = 0 -> other c c' ->
  (flying c' = 0%nat /\ refused c' = 0%nat /\ timer (the_run c') = false /\ told c' = 0) /\ the_run c' = the_run c.
Proof. intros (H1 & H2 & H3 & H4) Ho. destruct Ho; cbn in *; try congruence; done. Qed.

Lemma start_stable : stable Start.
Proof.
  intros c c' [Hg Hu Hs Hq] Ho. destruct (still_other c c' Hs Ho) as [Hs' Hr]. destruct (other_sees c c' Hg Ho) as (Hg' & _ & Hv).
  split; [done| |done|by rewrite Hr]. unfold Unclaimed in *. destruct Hv as [?|[?|(st & e & Es & _)]]; congruence.
Qed.

(** The row was claimed, and the run is about to be made. *)
Definition Claimed (r : Row) (c : Conf) : Prop :=
  good (rows_of c) /\ ownerId (request r) = owner /\ stages not_checking c /\
  (flying c = 0%nat /\ refused c = 0%nat /\ timer (the_run c) = false /\ told c = 0).
Lemma claimed_stable r : stable (Claimed r).
Proof.
  intros c c' (Hg & Ho & Hs & Hst) H. destruct (still_other c c' Hst H) as [Hst' _].
  destruct (other_sees c c' Hg H) as (Hg' & _). split; [done|]. split; [done|]. split; [eapply stages_other; [|exact Hg|exact Hs|exact H]; done|done].
Qed.

(** How a delivery leaves its row. *)
Definition Delivered {A} (r : A + Err) (c : Conf) : Prop :=
  good (rows_of c) /\ timer (the_run c) = false /\ 0 <= told c <= 100 /\
  (Gone c \/ (in_queue = true /\ publicationQueued (the_run c) = true /\ (exists a, r = inl a) /\ Inv c)).

Lemma start_delivered {A} (r : A + Err) c : Start c -> Delivered r c.
Proof. intros [Hg Hu (_ & _ & Ht & Hn) _]. split; [done|]. split; [done|]. split; [lia|]. left. by apply unclaimed_gone. Qed.

Lemma execute_delivers leaseMs work onCancelled :
  triple Start (execute in_queue id token leaseMs work onCancelled) Delivered.
Proof.
  unfold execute, begin. flat.
  eapply (t_db _ _ _ _ (fun x => match x with Some r => Claimed r | None => Start end)); [apply start_stable| |].
  - intros c t [Hg Hu Hs Hq] Ht. pose proof (begin_promise t leaseMs (rows_of c) Hg Hu) as Hb.
    destruct ((act _ t (BeginJobQueueRun id token leaseMs) (rows_of c)).1) as [r|].
    + destruct Hb as [Ho [e He]]. split; [by apply good_act|]. split; [done|]. split; [|done].
      intros st e1 Hst. cbn in Hst. rewrite He in Hst. by injection Hst as <- _.
    + split; [by apply good_act|exact Hb|done|done].
  - intros [r|]; flat.
    + eapply (t_put _ _ _ _ (with_inv Border)); [apply claimed_stable| |].
      { intros c (Hg & Ho & Hs & H1 & H2 & H3 & H4). split; [split; cbn; try done; lia|]. split; [by intros _|done]. }
      eapply t_weaken; [eapply (m_attempt Border); [apply m_execute_run|intros x; apply m_catch]|done|].
      intros x c [Hi [Ht Hx]]. split; [apply Hi|]. split; [done|]. split; [apply (inv_told _ Hi)|].
      destruct x; [|by left]. destruct Hx as [|Hq]; [by left|]. right. split; [by apply (inv_queued _ Hi)|]. split; [done|]. split; [by eexists|done].
    + eapply (t_db _ _ _ _ (fun _ => Start)); [apply start_stable| |].
      { intros c t [Hg Hu Hs Hq] Ht. split; [by apply good_act| |done|done].
        pose proof (own_promise _ t (GetForWorker id) (rows_of c) Hg (own_read _ _ _)) as [Hv _]. unfold Unclaimed in *. cbn. congruence. }
      assert (triple Start (Done Job.Skipped) Delivered) as Hskip by (apply t_done; [apply start_stable|intros c; apply start_delivered]).
      intros [r|]; [destruct (is_null _)|]; flat; try exact Hskip.
      destruct onCancelled as [e|]; cbn; [|exact Hskip].
      apply t_raise; [apply start_stable|intros c; apply start_delivered].
Qed.

(** A transaction: its statements at one time, with nothing in between. *)
Fixpoint transact {A} (t : Times) (m : prog A) (s : Store) : A * Store :=
  match m with Ret a => (a, s) | Call o k => let x := act _ t o s in transact t (k x.1) x.2 end.

Lemma failing_settles t f s : good s -> see (transact t (OperationStore.fail id token f true false false) s).2 = Free.
Proof.
  intros Hg. cbn. pose proof (own_promise _ t (FailRetry id token f false false) s Hg (own_retry _ _ _ _ _)) as Hp. cbn [promises] in Hp.
  set (x := act _ t (FailRetry id token f false false) s) in *. destruct x.1; cbn; [done|].
  pose proof (own_promise _ t (FailFinal id token f false) x.2 (good_act _ _ _ _ Hg) (own_fail _ _ _ _)) as Hf. cbn [promises] in Hf.
  by destruct (act _ t (FailFinal id token f false) x.2).1.
Qed.

Lemma transact_bind {A B} t (m : prog A) (f : A -> prog B) s :
  transact t (prog_bind m f) s = let x := transact t m s in transact t (f x.1) x.2.
Proof. revert s. induction m as [a|X o k IH]; intros s; [done|]. cbn. apply IH. Qed.

Lemma settle_failure_settles c t reason was_cancelled : Inv c -> done_ (the_run c) = false ->
  see (transact t (settle_failure (the_run c) reason was_cancelled) (rows_of c)).2 = Free.
Proof.
  intros Hi Hd. pose proof (inv_good _ Hi) as Hg. unfold settle_failure. rewrite Hd, (inv_id _ Hi), (inv_token _ Hi), (inv_owner _ Hi). cbn.
  pose proof (own_promise _ t (GetForWorker id) (rows_of c) Hg (own_read _ _ _)) as (Hsame & _ & Hfree).
  set (x := act _ t (GetForWorker id) (rows_of c)) in *. pose proof (good_act _ t (GetForWorker id) _ Hg) as Hg1. fold x in Hg1.
  destruct x.1 as [r|] eqn:Er; [destruct (holds token r) eqn:Hh; cbn [negb]|].
  - destruct (was_cancelled || _); cbn.
    + pose proof (own_promise _ t (RequestCancel id owner (Some token) false) x.2 Hg1 (own_cancel _ _ _)) as H1. cbn [promises] in H1.
      set (y := act _ t (RequestCancel id owner (Some token) false) x.2) in *.
      pose proof (own_promise _ t (AcknowledgeCancel id token true false) y.2 (good_act _ _ _ _ Hg1) (own_acknowledge _ _ _)) as H2.
      cbn [promises] in H2. destruct (see x.2); rewrite H1 in H2; exact H2.
    + rewrite transact_bind. cbn. by apply failing_settles.
  - cbn. rewrite Hsame. by apply Hfree.
  - cbn. rewrite Hsame. by apply Hfree.
Qed.

(** One of the runs: nothing in between, every effect at once, the signal silent. *)
Fixpoint calm {A} (date_now : Z) (m : io A) (c : Conf) : (A + Err) * Conf :=
  match m with
  | Done a => (inl a, c)
  | Raise e => (inr e, c)
  | Db o k => let x := act _ (mkTimes (at_clock c) (at_clock c)) o (rows_of c) in
              calm date_now (k x.1) (with_store x.2 (at_clock c) c)
  | Get k => calm date_now (k (the_run c)) c
  | Put f k => calm date_now k (with_run f c)
  | Advance n f k => calm date_now k (mkConf (rows_of c) (f (the_run c)) (flying c) (refused c) (told c + n) (at_clock c))
  | Aborted k => calm date_now (k None) c
  | Now k => calm date_now (k date_now) c
  end.
Lemma calm_exec {A} date_now (m : io A) c : exec m c (calm date_now m c).1 (calm date_now m c).2.
Proof.
  revert c. induction m as [a|e|X o k IH|k IH|g k IH|n g k IH|k IH|k IH]; intros c; cbn.
  - split; [done|apply rtc_refl].
  - split; [done|apply rtc_refl].
  - exists c, (mkTimes (at_clock c) (at_clock c)). split; [apply rtc_refl|]. split; [by split; cbn|apply IH].
  - exists c. split; [apply rtc_refl|apply IH].
  - exists c. split; [apply rtc_refl|apply IH].
  - exists c. split; [apply rtc_refl|apply IH].
  - exists c, None. split; [apply rtc_refl|apply IH].
  - exists c, date_now. split; [apply rtc_refl|apply IH].
Qed.
End exec.
#[export] Hint Resolve kept_true kept_and kept_or kept_gone kept_stages kept_queued kept_units kept_timer kept_state
  kept_border kept_const : kept.

(** ** The run over the repository *)

Section properties.
Context (publishable : string -> string -> bool) (preview_fence : Row -> Z -> bool) (preview_frames : Row -> bool).
Abbreviation handle := (handle publishable preview_fence preview_frames).
Abbreviation run := (run publishable preview_fence preview_frames).
Abbreviation act := (fun A (t : Times) (o : OpE A) (s : Store) => handle t o s).

Lemma transact_run {A} t (m : prog A) s : transact (act := act) t m s = run t m s.
Proof. revert s. induction m as [a|X o k IH]; intros s; [done|]. cbn. apply IH. Qed.

(** No worker of [token] is left with the row: it is not the row's, or its lease is over, or the owner's
    cancel waits for it, which ends it with the lease. *)
Definition given_up (id token : string) (now_ : Z) (s : Store) : Prop :=
  forall r, rows s !! id = Some r -> claimToken (claim r) = Some token ->
    status r = Cancelling \/ exists e, claimExpiresAt (claim r) = Some e /\ e <= now_.

Lemma gone_given_up id token owner c : good (EditOperations := store_operations publishable preview_fence preview_frames id token owner) (rows_of c) ->
  Gone (Ops := store_operations publishable preview_fence preview_frames id token owner) c -> given_up id token (at_clock c) (rows_of c).
Proof.
  intros [Hs _] Hg r E Ht. unfold Gone in Hg. cbn [see store_operations] in Hg. rewrite (view_row id token _ r E) in Hg.
  unfold row_view, holds in Hg. rewrite bool_decide_true in Hg by done.
  destruct (mine_row token r (Hs id r E)) as [Hc [e He]]; [by apply bool_decide_eq_true|]. rewrite He in Hg. cbn in Hg.
  destruct Hg as [|Hg]; [right; by exists e|left]. revert Hg. by destruct (status r).
Qed.

(** What a delivery starts from: the row is there, no job holds the token, and nothing of the run exists. *)
Definition fresh_delivery (id token : string) (c : Conf) : Prop :=
  store_ok (rows_of c) /\ ~ token_at (rows_of c) id token /\
  (exists r, rows (rows_of c) !! id = Some r /\ kind (request r) <> Kind.StudioPreview) /\
  flying c = 0%nat /\ refused c = 0%nat /\ timer (the_run c) = false /\ told c = 0 /\ publicationQueued (the_run c) = false.

(** What an adoption asks of the row, and how it leaves the row it completes. *)
Record adoptable (token : string) (a : option string) (t : Times) (r : Row) : Prop := mkAdoptable {
  ad_held : claimToken (claim r) = Some token /\ status r = Validating;
  ad_lease : exists e, claimExpiresAt (claim r) = Some e /\ clock t < e;
  ad_wanted : cancelRequestedAt (stop r) = None /\ pauseRequestedAt (stop r) = None;
  ad_output : forall p, a = Some p -> publishable (ownerId (request r)) p = true
}.
Record adopted (a : option string) (t : Times) (r r' : Row) : Prop := mkAdopted {
  ad_completed : status r' = Completed /\ claimToken (claim r') = None /\ claimExpiresAt (claim r') = None;
  ad_result : resultAssetId (outcome r') = a /\ error (outcome r') = None /\ OperationStore.progress (work r') = JInt 100;
  ad_finished : finishedAt (outcome r') = Some (now t);
  ad_request : request r' = request r
}.

Lemma adopt_exact u a t s : let y := run t (adopt u a) s in
  (y.1 = true /\ exists r r', rows s !! operation_id u = Some r /\ adoptable (run_token u) a t r /\
     rows y.2 = <[operation_id u := r']> (rows s) /\ adopted a t r r') \/
  (y.1 = false /\ y.2 = s /\ forall r, rows s !! operation_id u = Some r -> ~ adoptable (run_token u) a t r).
Proof.
  cbn. unfold update_row. destruct (rows s !! operation_id u) as [r|] eqn:E; cbn; [|by right].
  unfold complete, when, holds, active_claim. cbn [negb orb complete_resultAssetId published].
  destruct (_ && _) eqn:G; cbn.
  - left. split; [done|]. eexists r, _. split; [done|]. split; [|split; [done|split; try done]].
    apply andb_true_iff in G as [[[G1%bool_decide_eq_true G2%bool_decide_eq_true]%andb_true_iff G3]%andb_true_iff G4].
    apply andb_true_iff in G3 as [[G3 G5]%andb_true_iff G6]. split; [done| | |by intros p ->].
    + destruct (claimExpiresAt (claim r)) as [e|]; [|done]. exists e. split; [done|]. by apply Z.ltb_lt.
    + by destruct (cancelRequestedAt (stop r)), (pauseRequestedAt (stop r)).
  - right. split; [done|]. split; [done|]. intros r0 [= <-] [[H1 H2] (e & H3 & H4) [H5 H6] H7].
    apply not_true_iff_false in G. apply G. rewrite !bool_decide_true, H3, H5, H6 by done. cbn.
    rewrite (proj2 (Z.ltb_lt _ _) H4). cbn. destruct a as [p|]; [by apply H7|done].
Qed.

(** C29. A delivery of an edit's job settles its row.  However the executor uses its run, whatever the rest of
    the system, the owner, recovery and the heartbeat do between any two of its effects, and whether it
    returns or throws: when [execute] ends, its timer is off, the job was told of at most a hundred units,
    and its claim does not hold the row any more, or only until a lease that is already over or a cancel
    that already waits; except when the publication was left to the transaction that accepts the job.
    Then, whenever that transaction comes, its adoption completes the row with its output, if it
    has one, at full progress, takes the claim off it and changes no other row, exactly when the row is still
    being validated under this claim, its lease runs, no cancel or pause waits for it and an output it
    has is the owner's; otherwise it answers no and changes nothing at all.  And if the job fails instead, its
    settlement takes the claim off a row that was not given up before. *)
Theorem edit_delivery_settles (id token : string) (leaseMs : Z) (in_queue : bool) (work : Work) (onCancelled : option Err)
    (c c' : Conf) (x : Job.JobStatus + Err) (Hfresh : fresh_delivery id token c)
    (Hexec : exec (id := id) (token := token) (act := act) leaseMs (execute in_queue id token leaseMs work onCancelled) c x c') :
  timer (the_run c') = false /\ 0 <= told c' <= 100 /\
  (given_up id token (at_clock c') (rows_of c') \/
   (in_queue = true /\ publicationQueued (the_run c') = true /\ (exists status, x = inl status) /\
    forall c2, others (id := id) (token := token) (act := act) leaseMs c' c2 -> forall t,
      (forall a, let y := run t (adopt (the_run c2) a) (rows_of c2) in
         (y.1 = true /\ exists r r', rows (rows_of c2) !! id = Some r /\ adoptable token a t r /\
            rows y.2 = <[id := r']> (rows (rows_of c2)) /\ adopted a t r r') \/
         (y.1 = false /\ y.2 = rows_of c2 /\ forall r, rows (rows_of c2) !! id = Some r -> ~ adoptable token a t r)) /\
      (forall reason was_cancelled,
         given_up id token (at_clock c2) (rows_of c2) \/
         ~ token_at (run t (settle_failure (the_run c2) reason was_cancelled) (rows_of c2)).2 id token))).
Proof.
  destruct Hfresh as (Hs & Hn & (r & Er & Hk) & H1 & H2 & H3 & H4 & H5).
  pose (Ops := store_operations publishable preview_fence preview_frames id token (ownerId (request r))).
  assert (Start (Ops := Ops) c) as Hstart.
  { split; [split; [done|by exists r]|by apply view_free|done|done]. }
  destruct (execute_delivers (Ops := Ops) leaseMs in_queue leaseMs work onCancelled c x c' Hstart Hexec) as (Hg & Ht & Htold & Hd).
  split; [done|]. split; [done|]. destruct Hd as [Hd|(Hq & Hp & Hx & Hi)]; [left; by eapply gone_given_up|right].
  split; [done|]. split; [done|]. split; [done|]. intros c2 Hothers t.
  assert (Inv (Ops := Ops) in_queue c2) as Hi2.
  { refine (stable_others leaseMs _ _ _ _ Hi Hothers). intros a b. apply inv_other. }
  split.
  - intros a. rewrite <- (inv_id _ _ Hi2), <- (inv_token _ _ Hi2). apply adopt_exact.
  - intros reason was_cancelled. destruct (done_ (the_run c2)) eqn:Hdone.
    + left. eapply gone_given_up; [apply (inv_good _ _ Hi2)|by apply (inv_done _ _ Hi2)].
    + right. apply view_free. rewrite <- transact_run. by apply (settle_failure_settles (Ops := Ops) in_queue).
Qed.
End properties.

(** ** A sample delivery *)

Definition sample_edit_row : MediaOperationCreate :=
  edit_create (EditOperation.mkInput "ana" EditOperation.PhotoEdit "p1" "Edit" None
                 (EditOperation.AssetEditThumbnailGeneration "p1")) 0.
Definition no_run : EditOperationRun := mkRun "" (inserted sample_edit_row (at_time 0)) "" settled false None 0 false.
Definition sample_delivery : Conf :=
  mkConf (store (play [(0, existT _ (Create "e" sample_edit_row))]%string empty_sys)) no_run 0 0 0 10.

(** An executor that reports half of its work, then its success. *)
Definition sample_work : Work := Progress (50 # 1) (fun _ => Return Job.Success).
Abbreviation sample_act := (fun A (t : Times) (o : OpE A) (s : Store) => sample_handle t o s).
Definition sample_end : (Job.JobStatus + Err) * Conf :=
  calm (act := sample_act) 10 (execute false "e" "t1" 1000 sample_work None) sample_delivery.

Lemma edit_delivery_settles_witness :
  (fun r => (status r, resultAssetId (outcome r))) <$> rows (rows_of sample_end.2) !! "e"%string = Some (Completed, Some "p1"%string) /\
  0 <= told sample_end.2 <= 100.
Proof.
  split; [vm_compute; reflexivity|].
  refine (proj1 (proj2 (edit_delivery_settles sample_pub sample_fence sample_frames "e" "t1" 1000 false sample_work None
    sample_delivery sample_end.2 sample_end.1 _ _))).
  - split; [|split; [|split]].
    + apply (sys_steps_ok sample_pub sample_fence sample_frames empty_sys (play [(0, existT _ (Create "e" sample_edit_row))]%string empty_sys));
        [apply empty_sys_ok|]. apply play_steps. vm_compute. reflexivity.
    + intros (r & E & Ht). vm_compute in E. injection E as <-. discriminate Ht.
    + eexists. split; [vm_compute; reflexivity|discriminate].
    + repeat split.
  - apply calm_exec.
Defined.
