(* ===== verification/QueueRows.v ===== *)
(** * The rows of the job queue ([server/src/queue/schema.ts], [types.ts], [table-types.ts])

    The tables of the durable job queue, as the store of [QueueStore] reads and writes them: a job is a
    row, an attempt the audit of one claim of it, a queue its switches, a run the work asked for together.
    A transaction is a function from the database to an answer and the database after it, or to nothing
    when a statement fails: the transaction is then rolled back.  The database refuses a write that
    breaks a key, a unique index or a check ([constraints]); [put_jobs] is where it says so.

    Times are milliseconds; [infinity], where a held job waits, is a value of its own.  Fresh
    identifiers ([randomUUID], [gen_random_uuid]) come from a supply that never repeats. *)

From S2P Require Import Prelude JsNumber JsString.
From S2P Require OperationStore.
Local Open Scope Z_scope.

Definition QUEUE_BATCH : nat := 250.
Definition LEASE_MS : Z := 60000.

Inductive QueueState := pending | waiting | active | completed | failed | needs_attention | cancelled | blocked.
#[export] Instance QueueState_eq_dec : EqDecision QueueState.
Proof. solve_decision. Defined.

Inductive RunHoldReason := setup | paused_ | parked.
#[export] Instance RunHoldReason_eq_dec : EqDecision RunHoldReason.
Proof. solve_decision. Defined.
Definition RunHolds : Type := gmap string RunHoldReason.

Inductive JobDependencyReason :=
| workload_disabled | destination_unavailable | destination_capacity | destination_configuration | destination_consent
| destination_budget | source_unavailable | local_capacity | locked_key_unavailable.
#[export] Instance JobDependencyReason_eq_dec : EqDecision JobDependencyReason.
Proof. solve_decision. Defined.
Definition reason_text (r : JobDependencyReason) : string :=
  match r with
  | workload_disabled => "workload-disabled"
  | destination_unavailable => "destination-unavailable"
  | destination_capacity => "destination-capacity"
  | destination_configuration => "destination-configuration"
  | destination_consent => "destination-consent"
  | destination_budget => "destination-budget"
  | source_unavailable => "source-unavailable"
  | local_capacity => "local-capacity"
  | locked_key_unavailable => "locked-key-unavailable"
  end.

(** [availableAt]: a time, or [infinity], where held jobs wait. *)
Inductive Available := At (t : Z) | HELD.
#[export] Instance Available_eq_dec : EqDecision Available.
Proof. solve_decision. Defined.
(** The epoch: started by hand. *)
Definition STARTED_BY_HAND : Available := At 0.
Definition available_by (t : Z) (a : Available) : bool := match a with At x => x <=? t | HELD => false end.
Definition available_after (t : Z) (a : Available) : bool := match a with At x => t <? x | HELD => true end.

Inductive CancelReason := deadline | request_.
#[export] Instance CancelReason_eq_dec : EqDecision CancelReason.
Proof. solve_decision. Defined.

(** ** Rows *)

Record QueueOptions := mkOptions { jobId : option string; delay : Z; deduplication : option (string * bool) }.
Record QueueIntent := mkIntent {
  i_queue : string;
  i_name : string;
  i_data : json;
  i_options : option QueueOptions;
  i_safeToRetry : bool;
  i_sensitive : bool;
  i_deadlineMs : Z;
  i_runId : option string;
  i_itemKey : option string;
  i_rootItemKey : option string;
  i_parentId : option string
}.

(** What is asked for; where it belongs; the claim on it; the stop asked of it; how it ended. *)
Record Request := mkRequest {
  name : string;
  data : json;
  externalId : option string;
  safeToRetry : bool;
  sensitive : bool;
  deadlineMs : Z
}.
Record Place := mkPlace {
  queue : string;
  dedupKey : option string;
  runId : option string;
  itemKey : option string;
  rootItemKey : option string;
  parentId : option string;
  createdAt : Z
}.
Record Lease := mkLease {
  token : option string;
  workerId : option string;
  startedAt : option Z;
  leaseExpiresAt : option Z;
  progressAt : option Z;
  progressUnits : Z
}.
Record Stop := mkStop { cancelRequestedAt : option Z; cancelReason : option CancelReason }.
Record Outcome := mkOutcome { finishedAt : option Z; dependencyReason : option JobDependencyReason; error : option string }.

Record Job := mkJob {
  request : Request;
  place : Place;
  state : QueueState;
  attempt : Z;
  retryBaseAttempt : Z;
  lease : Lease;
  stop : Stop;
  availableAt : Available;
  latestPending : option QueueIntent;
  outcome : Outcome
}.

Definition set_request (x : Request) (j : Job) : Job :=
  mkJob x (place j) (state j) (attempt j) (retryBaseAttempt j) (lease j) (stop j) (availableAt j) (latestPending j) (outcome j).
Definition set_place (x : Place) (j : Job) : Job :=
  mkJob (request j) x (state j) (attempt j) (retryBaseAttempt j) (lease j) (stop j) (availableAt j) (latestPending j) (outcome j).
Definition set_state (x : QueueState) (j : Job) : Job :=
  mkJob (request j) (place j) x (attempt j) (retryBaseAttempt j) (lease j) (stop j) (availableAt j) (latestPending j) (outcome j).
Definition set_attempt (x : Z) (j : Job) : Job :=
  mkJob (request j) (place j) (state j) x (retryBaseAttempt j) (lease j) (stop j) (availableAt j) (latestPending j) (outcome j).
Definition set_base (x : Z) (j : Job) : Job :=
  mkJob (request j) (place j) (state j) (attempt j) x (lease j) (stop j) (availableAt j) (latestPending j) (outcome j).
Definition set_lease (x : Lease) (j : Job) : Job :=
  mkJob (request j) (place j) (state j) (attempt j) (retryBaseAttempt j) x (stop j) (availableAt j) (latestPending j) (outcome j).
Definition set_stop (x : Stop) (j : Job) : Job :=
  mkJob (request j) (place j) (state j) (attempt j) (retryBaseAttempt j) (lease j) x (availableAt j) (latestPending j) (outcome j).
Definition set_available (x : Available) (j : Job) : Job :=
  mkJob (request j) (place j) (state j) (attempt j) (retryBaseAttempt j) (lease j) (stop j) x (latestPending j) (outcome j).
Definition set_latest (x : option QueueIntent) (j : Job) : Job :=
  mkJob (request j) (place j) (state j) (attempt j) (retryBaseAttempt j) (lease j) (stop j) (availableAt j) x (outcome j).
Definition set_outcome (x : Outcome) (j : Job) : Job :=
  mkJob (request j) (place j) (state j) (attempt j) (retryBaseAttempt j) (lease j) (stop j) (availableAt j) (latestPending j) x.

Inductive AttemptOutcome :=
| ended (s : QueueState) | deferred
| restored_discarded_backup | restored_cancelled | restored_needs_attention | restored_retry.
#[export] Instance AttemptOutcome_eq_dec : EqDecision AttemptOutcome.
Proof. solve_decision. Defined.
Record Attempt := mkAttempt {
  a_token : string;
  a_workerId : string;
  a_finishedAt : option Z;
  a_outcome : option AttemptOutcome;
  a_error : option string
}.

Record Queue := mkQueue { q_paused : bool; concurrency : Z; closedUntil : option Z }.

Record Run := mkRun {
  kind : string;
  enumerationDone : bool;
  r_createdAt : Z;
  r_finishedAt : option Z;
  holds : option RunHolds;
  holdsDirty : bool;
  (** The last item and stage of the page of jobs the holds were applied to. *)
  holdsCursor : option (option string * string)
}.

Inductive WorkerState := running | lost.
Record Worker := mkWorker { w_heartbeatAt : Z; w_state : WorkerState }.

Record Db := mkDb {
  jobs : gmap string Job;
  (** By job and attempt. *)
  attempts : gmap (string * Z) Attempt;
  queues : gmap string Queue;
  runs : gmap string Run;
  workers : gmap string Worker;
  (** [frameleaf-attempt-evidence:token], with the job it names, and [frameleaf-worker-stopped:worker]. *)
  attempt_evidence : gmap string string;
  worker_evidence : gset string;
  operations : OperationStore.Store;
  (** How many identifiers have been given out. *)
  given : nat
}.
Definition set_jobs (x : gmap string Job) (d : Db) : Db :=
  mkDb x (attempts d) (queues d) (runs d) (workers d) (attempt_evidence d) (worker_evidence d) (operations d) (given d).
Definition set_attempts (x : gmap (string * Z) Attempt) (d : Db) : Db :=
  mkDb (jobs d) x (queues d) (runs d) (workers d) (attempt_evidence d) (worker_evidence d) (operations d) (given d).
Definition set_queues (x : gmap string Queue) (d : Db) : Db :=
  mkDb (jobs d) (attempts d) x (runs d) (workers d) (attempt_evidence d) (worker_evidence d) (operations d) (given d).
Definition set_runs (x : gmap string Run) (d : Db) : Db :=
  mkDb (jobs d) (attempts d) (queues d) x (workers d) (attempt_evidence d) (worker_evidence d) (operations d) (given d).
Definition set_workers (x : gmap string Worker) (d : Db) : Db :=
  mkDb (jobs d) (attempts d) (queues d) (runs d) x (attempt_evidence d) (worker_evidence d) (operations d) (given d).
Definition set_attempt_evidence (x : gmap string string) (d : Db) : Db :=
  mkDb (jobs d) (attempts d) (queues d) (runs d) (workers d) x (worker_evidence d) (operations d) (given d).
Definition set_worker_evidence (x : gset string) (d : Db) : Db :=
  mkDb (jobs d) (attempts d) (queues d) (runs d) (workers d) (attempt_evidence d) x (operations d) (given d).
Definition set_operations (x : OperationStore.Store) (d : Db) : Db :=
  mkDb (jobs d) (attempts d) (queues d) (runs d) (workers d) (attempt_evidence d) (worker_evidence d) x (given d).
Definition set_given (x : nat) (d : Db) : Db :=
  mkDb (jobs d) (attempts d) (queues d) (runs d) (workers d) (attempt_evidence d) (worker_evidence d) (operations d) x.

(** ** Constraints *)

Definition LIVE : list QueueState := [pending; waiting; active].
Definition is_live (j : Job) : bool := includes (state j) LIVE.
Definition unclaimed (j : Job) : bool := includes (state j) [pending; waiting].
Definition is_null {A} (x : option A) : bool := match x with None => true | Some _ => false end.
(** [a = b] on nullable columns. *)
Definition sql_eq {A} `{EqDecision A} (a b : option A) : bool :=
  match a, b with Some x, Some y => bool_decide (x = y) | _, _ => false end.

(** [job_dedup_live] and [job_run_stage]. *)
Definition same_live (a b : Job) : bool :=
  is_live a && is_live b && bool_decide (queue (place a) = queue (place b)) && sql_eq (dedupKey (place a)) (dedupKey (place b)).
Definition same_stage (a b : Job) : bool :=
  sql_eq (runId (place a)) (runId (place b)) && sql_eq (itemKey (place a)) (itemKey (place b)) &&
  bool_decide (name (request a) = name (request b)).
Definition clash (a b : Job) : bool := same_live a b || same_stage a b.

(** A reference names a row, or is null. *)
Definition refers {A} (x : option string) (m : gmap string A) : bool :=
  match x with Some k => bool_decide (is_Some (m !! k)) | None => true end.

Definition row_ok (d : Db) (m : gmap string Job) (j : Job) : bool :=
  Bool.eqb (bool_decide (state j = active)) (negb (is_null (token (lease j)))) &&
  bool_decide (is_Some (queues d !! queue (place j))) && refers (runId (place j)) (runs d) &&
  refers (parentId (place j)) m && refers (workerId (lease j)) (workers d).

Definition constraints (d : Db) (m : gmap string Job) : Prop :=
  map_Forall (fun i a => row_ok d m a = true /\ map_Forall (fun k b => i = k \/ clash a b = false) m) m.
#[export] Instance constraints_dec d m : Decision (constraints d m).
Proof. unfold constraints. apply _. Defined.

(** ** Transactions *)

(** [now()], and [clock_timestamp()] at each statement. *)
Record Times := mkTimes { now : Z; clock : nat -> Z }.
Definition op_times (t : Times) : OperationStore.Times := OperationStore.mkTimes (now t) (clock t 0).

Definition Tx (A : Type) : Type := Db -> option (A * Db).
#[export] Instance Tx_ret : MRet Tx := fun A a d => Some (a, d).
#[export] Instance Tx_bind : MBind Tx := fun A B f m d => match m d with Some (a, d') => f a d' | None => None end.
Definition rollback {A} : Tx A := fun _ => None.
Definition read : Tx Db := fun d => Some (d, d).
Definition write (f : Db -> Db) : Tx unit := fun d => Some (tt, f d).

(** What a caller sees: the answer and the database, or the database as it was. *)
Definition commit {A} (m : Tx A) (d : Db) : option A * Db :=
  match m d with Some (a, d') => (Some a, d') | None => (None, d) end.

Definition put_jobs (m : gmap string Job) : Tx unit :=
  fun d => if decide (constraints d m) then Some (tt, set_jobs m d) else None.

(** [UPDATE job SET ... WHERE ... RETURNING *]: the rows [f] changes, as they are afterwards. *)
Definition updated (f : string -> Job -> option Job) (m : gmap string Job) : list (string * Job) :=
  omap (fun ij => match f ij.1 ij.2 with Some j' => Some (ij.1, j') | None => None end) (map_to_list m).
Definition update_jobs (f : string -> Job -> option Job) : Tx (list (string * Job)) :=
  d ← read;
  _ ← put_jobs (map_imap (fun i j => Some (default j (f i j))) (jobs d));
  mret (updated f (jobs d)).
Definition update_job (i : string) (f : Job -> option Job) : Tx (option Job) :=
  d ← read;
  match jobs d !! i ≫= f with
  | Some j => _ ← put_jobs (<[i := j]> (jobs d)); mret (Some j)
  | None => mret None
  end.
Definition when (b : bool) (j : Job) : option Job := if b then Some j else None.

Class Uuids := { uuid : nat -> string; uuid_inj : Inj (=) (=) uuid }.
#[export] Existing Instance uuid_inj.

Definition randomUUID `{Uuids} : Tx string :=
  d ← read; _ ← write (set_given (S (given d))); mret (uuid (given d)).

(** Every element in turn, and the sum of the answers. *)
Fixpoint sum_of {A} (f : A -> Tx nat) (l : list A) : Tx nat :=
  match l with
  | [] => mret 0%nat
  | x :: l => n ← f x; m ← sum_of f l; mret (n + m)%nat
  end.
Fixpoint each {A} (f : A -> Tx unit) (l : list A) : Tx unit :=
  match l with [] => mret tt | x :: l => _ ← f x; each f l end.
