(* ===== verification/QueueStore.v ===== *)
(** * The store of the job queue ([server/src/queue/store.ts])

    Every method of [SqlQueueStore] that writes is a transaction over the rows of [QueueRows], statement
    by statement; [Op] names them all and [perform] runs one.  A method that is several transactions
    ([claim], [recoverExpired], [reconcileHolds], [enqueue] outside a transaction) is several of them in
    a row, between which any other may come.  What other sessions hold locked is an argument of the
    statements that skip locked rows.  The callbacks a caller passes work on other tables than the
    queue's, or add requests to it; [Adoption] is their two forms. *)

From S2P Require Import Prelude JsNumber JsString QueueRows.
From S2P Require OperationStore.
Local Open Scope Z_scope.

(** What the store calls and does not define: the digest of a request's data that names an item without
    an identifier, the text of a value that is not a string, and the digests of a selection's data and of a
    row's own data. *)
Class Texts := { data_digest : json -> string; json_text : json -> string; selection_digest : json -> string; row_digest : json -> string }.

Section store.
Context `{Uuids, Texts}.

(** ** Conditions *)

(** [deferralDelay]; the power is of a claimed job's attempt, which is at least 1. *)
Definition deferralDelay (reason : JobDependencyReason) (attempt_ : Z) : Z :=
  match reason with
  | local_capacity | destination_capacity => 30000
  | locked_key_unavailable => 3600000
  | _ => Z.min (30000 * 2 ^ Z.min (attempt_ - 1) 5) 600000
  end.

Definition stageHeld (d : Db) (run : option string) (stage : string) : bool :=
  match run ≫= fun r => runs d !! r with
  | Some r => match holds r with Some h => bool_decide (is_Some (h !! stage)) | None => false end
  | None => false
  end.
Definition availability (t : Times) (d : Db) (run : option string) (stage : string) (delayMs : Z) : Available :=
  if stageHeld d run stage then HELD else At (now t + delayMs).
Definition intentAvailability (t : Times) (d : Db) (intent : QueueIntent) : Available :=
  availability t d (i_runId intent) (i_name intent) (match i_options intent with Some o => delay o | None => 0 end).

(** [intent.options?.deduplication?.id ?? intent.options?.jobId ?? null]. *)
Definition intent_key (intent : QueueIntent) : option string :=
  match i_options intent with
  | Some o => match deduplication o with Some (id, _) => Some id | None => jobId o end
  | None => None
  end.
Definition keepLastIfActive (intent : QueueIntent) : bool :=
  match i_options intent with Some o => match deduplication o with Some (_, k) => k | None => false end | None => false end.
Definition intent_jobId (intent : QueueIntent) : option string := i_options intent ≫= jobId.

Definition has_key (v : json) (k : string) : bool := negb (is_null (json_get v k)).
(** [data->>'operationId']; an identifier is a string. *)
Definition operationId (j : Job) : option string := as_string (json_get (data (request j)) "operationId").

(** [now()] on a lease: unexpired, and no stop asked for. *)
Definition owns (tok : option string) (j : Job) : bool := sql_eq (token (lease j)) tok.
Definition unexpired (c : Z) (j : Job) : bool :=
  match leaseExpiresAt (lease j) with Some e => c <? e | None => false end.
Definition not_stopped (j : Job) : bool := is_null (cancelRequestedAt (stop j)).
Definition is_active (j : Job) : bool := bool_decide (state j = active).
(** A stop asked for by a person (or for an unknown cause), not by a deadline. *)
Definition cancelled_ (j : Job) : bool :=
  negb (not_stopped j) && negb (bool_decide (cancelReason (stop j) = Some deadline)).
Definition publishes (tok : option string) (c : Z) (j : Job) : bool :=
  owns tok j && is_active j && unexpired c j && not_stopped j.

(** ** Enqueueing *)

Definition wiped (r : Request) : json := if sensitive r then JObj [] else data r.

(** The row of a new job, and what a request puts in a row that exists. *)
Definition new_job (t : Times) (d : Db) (intent : QueueIntent) : Job :=
  mkJob (mkRequest (i_name intent) (i_data intent) (intent_jobId intent) (i_safeToRetry intent) (i_sensitive intent) (i_deadlineMs intent))
    (mkPlace (i_queue intent) (intent_key intent) (i_runId intent) (i_itemKey intent) (i_rootItemKey intent) (i_parentId intent) (now t))
    pending 0 0 (mkLease None None None None None 0) (mkStop None None) (intentAvailability t d intent) None (mkOutcome None None None).

Definition existing_job (d : Db) (queue_ key : string) : option (string * Job) :=
  List.find (fun ij => bool_decide (queue (place ij.2) = queue_) && sql_eq (dedupKey (place ij.2)) (Some key) && is_live ij.2)
    (map_to_list (jobs d)).

Definition ownsProducerState (j : Job) : bool :=
  has_key (data (request j)) "_producerCheckpoints" || has_key (data (request j)) "_selectionCursor".

Definition LockedSeal : string := "LockedSeal".
Definition sharedSealing (intent : QueueIntent) (j : Job) : bool :=
  bool_decide (i_name intent = LockedSeal) && bool_decide (name (request j) = i_name intent) &&
  sql_eq (as_string (json_get (i_data intent) "id")) (as_string (json_get (data (request j)) "id")) && negb (ownsProducerState j).

(** A waiting job takes over the latest request. *)
Definition replaced (t : Times) (d : Db) (intent : QueueIntent) (j : Job) : Job :=
  let r := request j in
  let p := place j in
  set_request (mkRequest (name r) (i_data intent) (externalId r) (i_safeToRetry intent) (i_sensitive intent) (i_deadlineMs intent))
    (set_place (mkPlace (queue p) (dedupKey p) (i_runId intent) (i_itemKey intent) (i_rootItemKey intent) (parentId p) (createdAt p))
      (set_available (intentAvailability t d intent) j)).

Definition coalesce (t : Times) (intent : QueueIntent) (i : string) (j : Job) : Tx nat :=
  if keepLastIfActive intent then
    if is_active j || ownsProducerState j then
      _ ← update_job i (fun j => Some (set_latest (Some intent) j)); mret 1%nat
    else if negb (sharedSealing intent j) then
      d ← read; _ ← update_job i (fun j => Some (replaced t d intent j)); mret 1%nat
    else mret 0%nat
  else mret 0%nat.

(** [insert into job ... on conflict do nothing]: no row when an identifier or a unique index has one. *)
Definition insert_row (j : Job) : Tx bool :=
  i ← randomUUID;
  d ← read;
  if bool_decide (is_Some (jobs d !! i)) || existsb (fun kb => clash j kb.2) (map_to_list (jobs d)) then mret false
  else _ ← put_jobs (<[i := j]> (jobs d)); mret true.
Definition insert_job (t : Times) (intent : QueueIntent) : Tx bool := d ← read; insert_row (new_job t d intent).

Definition SETTLED_STATES : list QueueState := [completed; failed; needs_attention; cancelled; blocked].

Definition rearmed (t : Times) (d : Db) (intent : QueueIntent) (j : Job) : Job :=
  let p := place j in
  let l := lease j in
  mkJob (mkRequest (name (request j)) (i_data intent) (intent_jobId intent) (i_safeToRetry intent) (i_sensitive intent) (i_deadlineMs intent))
    (mkPlace (queue p) (intent_key intent) (runId p) (itemKey p) (i_rootItemKey intent) (i_parentId intent) (createdAt p))
    pending (attempt j) (attempt j)
    (mkLease (token l) None (startedAt l) (leaseExpiresAt l) (progressAt l) (progressUnits l)) (mkStop None None)
    (intentAvailability t d intent) None (mkOutcome None None None).
Definition rearmable (intent : QueueIntent) (j : Job) : bool :=
  sql_eq (runId (place j)) (i_runId intent) && sql_eq (itemKey (place j)) (i_itemKey intent) &&
  bool_decide (name (request j) = i_name intent) && includes (state j) SETTLED_STATES &&
  (bool_decide (state j = cancelled) || sql_eq (parentId (place j)) (i_parentId intent)).
Definition rearmRunStage (t : Times) (intent : QueueIntent) : Tx bool :=
  d ← read;
  rows ← update_jobs (fun _ j => when (rearmable intent j) (rearmed t d intent j));
  mret (negb (bool_decide (rows = []))).

(** [if (intent.runId && intent.itemKey && ...)]. *)
Definition truthy (x : option string) : bool := match x with Some s => negb (String.eqb s "") | None => false end.

(** One request of a batch: how many jobs it took on. *)
Definition insert_intent (t : Times) (intent : QueueIntent) : Tx nat :=
  d ← read;
  let existing := if truthy (intent_key intent) then existing_job d (i_queue intent) (default "" (intent_key intent)) else None in
  match existing with
  | Some (i, j) => coalesce t intent i j
  | None =>
      inserted ← insert_job t intent;
      if (inserted : bool) then mret 1%nat
      else if truthy (i_runId intent) && truthy (i_itemKey intent) then
        again ← rearmRunStage t intent; mret (if (again : bool) then 1%nat else 0%nat)
      else mret 0%nat
  end.

Definition add_queue (q : string) (d : Db) : Db :=
  match queues d !! q with Some _ => d | None => set_queues (<[q := mkQueue false 1 None]> (queues d)) d end.
Definition set_finished (x : option Z) (r : Run) : Run :=
  mkRun (kind r) (enumerationDone r) (r_createdAt r) x (holds r) (holdsDirty r) (holdsCursor r).
Definition reopen (run : string) (d : Db) : Db := set_runs (alter (set_finished None) run (runs d)) d.

Definition insertBatch (t : Times) (intents : list QueueIntent) (liveRunId : option string) : Tx nat :=
  _ ← each (fun i => write (add_queue (i_queue i))) intents;
  _ ← each (fun i => match i_runId i with
                     | Some r => if String.eqb r "" || bool_decide (liveRunId = Some r) then mret tt else write (reopen r)
                     | None => mret tt
                     end) intents;
  sum_of (insert_intent t) intents.

(** [enqueue] in a caller's transaction; outside of one each batch is a transaction of its own. *)
Definition enqueue (t : Times) (intents : list QueueIntent) (liveRunId : option string) : Tx nat :=
  sum_of (fun batch => insertBatch t batch liveRunId) (chunks QUEUE_BATCH intents).

Definition new_run (t : Times) (kind_ : string) (h : option RunHolds) (dirty enumerated : bool) : Run :=
  mkRun kind_ enumerated (now t) None h dirty None.
(** A second run of an identifier breaks the primary key. *)
Definition insert_run (i : string) (r : Run) : Tx unit :=
  d ← read;
  if bool_decide (is_Some (runs d !! i)) then rollback else write (set_runs (<[i := r]> (runs d))).

Definition createRun (t : Times) (kind_ : string) (h : option RunHolds) (dirty : bool) : Tx string :=
  i ← randomUUID; _ ← insert_run i (new_run t kind_ h dirty false); mret i.

Definition admitRun (t : Times) (id kind_ : string) (h : option RunHolds) (dirty : bool) (intents : list QueueIntent) : Tx (string * nat) :=
  _ ← insert_run id (new_run t kind_ h dirty true);
  inserted ← enqueue t intents (Some id);
  match intents with
  | [] => mret (id, inserted)
  | first :: _ =>
      if (0 <? inserted)%nat then mret (id, inserted)
      else
        d ← read;
        match intent_key first ≫= existing_job d (i_queue first) with
        | Some (_, live) =>
            match runId (place live) with
            | Some run =>
                if String.eqb run "" then mret (id, inserted)
                else
                  _ ← (if existsb (fun ij => bool_decide (runId (place ij.2) = Some id)) (map_to_list (jobs d))
                       then mret tt else write (set_runs (delete id (runs d))));
                  mret (run, inserted)
            | None => mret (id, inserted)
            end
        | None => mret (id, inserted)
        end
  end.

(** ** Claiming *)

(** Claim order: when available, when asked for, identifier. *)
Definition cmp_available (a b : Available) : Z :=
  match a, b with
  | At x, At y => x - y
  | At _, HELD => -1
  | HELD, At _ => 1
  | HELD, HELD => 0
  end.
Definition claim_order (a b : string * Job) : Z :=
  or_cmp (cmp_available (availableAt a.2) (availableAt b.2))
    (or_cmp (createdAt (place a.2) - createdAt (place b.2)) (compareCodeUnits a.1 b.1)).

Definition parent_done (d : Db) (j : Job) : bool :=
  match parentId (place j) with
  | None => true
  | Some p => match jobs d !! p with Some p => bool_decide (state p = completed) | None => false end
  end.
Definition claimable (t : Times) (d : Db) (queue_ : string) (byHand : bool) (j : Job) : bool :=
  bool_decide (queue (place j) = queue_) && unclaimed j &&
  (if byHand then bool_decide (availableAt j = STARTED_BY_HAND) else available_by (now t) (availableAt j)) &&
  negb (cancelled_ j) && parent_done d j.

(** The jobs one statement claims: the first of those claimable that no other session has locked. *)
Definition claim_page (t : Times) (d : Db) (queue_ : string) (limit : nat) (byHand : bool) (locked : string -> bool) : list (string * Job) :=
  take limit (sort_by claim_order
    (List.filter (fun ij => claimable t d queue_ byHand ij.2 && negb (locked ij.1)) (map_to_list (jobs d)))).

Definition claimed (t : Times) (worker tok : string) (j : Job) : Job :=
  let o := outcome j in
  mkJob (request j) (place j) active (attempt j + 1) (retryBaseAttempt j)
    (mkLease (Some tok) (Some worker) (Some (now t)) (Some (now t + LEASE_MS)) (Some (now t)) 0)
    (mkStop None None) (availableAt j) (latestPending j) (mkOutcome (finishedAt o) None (error o)).

(** The audit of a claim: one row per attempt and per token. *)
Definition insert_attempt (i : string) (n : Z) (tok worker : string) : Tx unit :=
  d ← read;
  if bool_decide (is_Some (attempts d !! (i, n))) || existsb (fun ka => bool_decide (a_token ka.2 = tok)) (map_to_list (attempts d))
  then rollback
  else write (set_attempts (<[(i, n) := mkAttempt tok worker None None None]> (attempts d))).

Definition claim_one (t : Times) (worker i : string) : Tx unit :=
  tok ← randomUUID;
  row ← update_job i (fun j => when (unclaimed j) (claimed t worker tok j));
  match row with Some j => insert_attempt i (attempt j) tok worker | None => mret tt end.

Definition claimPending (t : Times) (queue_ worker : string) (limit : nat) (byHand : bool) (locked : string -> bool) : Tx (list string) :=
  d ← read;
  let page := map fst (claim_page t d queue_ limit byHand locked) in
  _ ← each (claim_one t worker) page;
  mret page.

Definition closed (t : Times) (q : Queue) : bool := match closedUntil q with Some x => now t <? x | None => false end.
Definition active_count (d : Db) (queue_ : string) : nat :=
  length (List.filter (fun ij => bool_decide (queue (place ij.2) = queue_) && is_active ij.2) (map_to_list (jobs d))).

(** The transaction of [claim]; [busy] says that another session holds the queue's row. *)
Definition claim (t : Times) (queue_ worker : string) (maxClaims : nat) (busy : bool) (locked : string -> bool) : Tx (list string) :=
  d ← read;
  match queues d !! queue_ with
  | None => mret []
  | Some config =>
      if busy then mret []
      else
        byHand ← claimPending t queue_ worker (Nat.min QUEUE_BATCH maxClaims) true locked;
        if q_paused config || closed t config || (maxClaims <=? length byHand)%nat then mret byHand
        else
          d ← read;
          let capacity := Z.min (Z.min (Z.of_nat QUEUE_BATCH - Z.of_nat (length byHand)) (Z.of_nat maxClaims - Z.of_nat (length byHand)))
                            (concurrency config - Z.of_nat (active_count d queue_)) in
          if capacity <=? 0 then mret byHand
          else rest ← claimPending t queue_ worker (Z.to_nat capacity) false locked; mret (byHand ++ rest)
  end.

(** The jobs [claim] settles first: waiting, and asked to stop by a person. *)
Definition cancelled_waiting (d : Db) (queue_ : string) : list string :=
  map fst (take QUEUE_BATCH (sort_by (fun a b => or_cmp (createdAt (place a.2) - createdAt (place b.2)) (compareCodeUnits a.1 b.1))
    (List.filter (fun ij => bool_decide (queue (place ij.2) = queue_) && unclaimed ij.2 && cancelled_ ij.2) (map_to_list (jobs d))))).

Definition startNow (queue_ i : string) : Tx bool :=
  d ← read;
  row ← update_job i (fun j => when (bool_decide (queue (place j) = queue_) && unclaimed j &&
      negb (bool_decide (availableAt j = HELD)) && negb (cancelled_ j) && parent_done d j) (set_available STARTED_BY_HAND j));
  mret (negb (is_null row)).

(** ** The life of a claim *)

Definition renew (t : Times) (j : Job) : Job :=
  let l := lease j in
  set_lease (mkLease (token l) (workerId l) (startedAt l) (Some (now t + LEASE_MS)) (progressAt l) (progressUnits l)) j.
Definition heartbeat (t : Times) (worker : string) (claims : list (string * string)) (locked : string -> bool) : Tx unit :=
  _ ← write (fun d => set_workers (alter (fun w => mkWorker (now t) (w_state w)) worker (workers d)) d);
  _ ← update_jobs (fun i j => when (existsb (fun c => String.eqb c.1 i && owns (Some c.2) j) claims && is_active j &&
      sql_eq (workerId (lease j)) (Some worker) && unexpired (clock t 0) j && negb (locked i)) (renew t j));
  mret tt.

Definition MAX_SAFE : Z := 9007199254740991.
Definition progressed (t : Times) (units : Z) (j : Job) : Job :=
  let l := lease j in
  set_lease (mkLease (token l) (workerId l) (startedAt l) (leaseExpiresAt l) (Some (now t)) units) j.
Definition progress (t : Times) (i tok : string) (units : Z) : Tx unit :=
  if (units <? 0) || (MAX_SAFE <? units) then mret tt
  else
    _ ← update_job i (fun j => when (owns (Some tok) j && is_active j && unexpired (clock t 0) j && (progressUnits (lease j) <? units))
                                  (progressed t units j));
    mret tt.

Definition finish_attempts (f : string -> Attempt -> option Attempt) : Tx unit :=
  write (fun d => set_attempts (map_imap (fun k a => Some (default a (f k.1 a))) (attempts d)) d).
Definition finished (out : AttemptOutcome) (at_ : Z) (err : option string) (a : Attempt) : Attempt :=
  mkAttempt (a_token a) (a_workerId a) (Some at_) (Some out) err.
(** [update job_attempt ... where token = tok]. *)
Definition finish_attempt (tok : string) (out : AttemptOutcome) (at_ : Z) (err : option string) : Tx unit :=
  finish_attempts (fun _ a => if String.eqb (a_token a) tok then Some (finished out at_ err a) else None).

(** ** Settling *)

(** A claim let go of. *)
Definition unclaimed_lease (j : Job) : Lease :=
  let l := lease j in mkLease None (workerId l) (startedAt l) None (progressAt l) (progressUnits l).
Definition done_job (t : Times) (j : Job) : Job :=
  let r := request j in
  set_request (mkRequest (name r) (wiped r) (externalId r) (safeToRetry r) (sensitive r) (deadlineMs r))
    (set_state completed (set_lease (unclaimed_lease j) (set_latest None
      (set_outcome (mkOutcome (Some (clock t 1)) None (error (outcome j))) j)))).

(** [{ ...intent, runId, rootItemKey, itemKey }] for a request without a run of its own. *)
Definition subject_text (v : json) : string := match v with JStr s => s | _ => json_text v end.
Definition non_null (v : option json) : option json := match v with Some JNull => None | _ => v end.
Definition inherit (run root : option string) (intent : QueueIntent) : QueueIntent :=
  if truthy (i_runId intent) || negb (truthy run) then intent
  else
    let subject := match non_null (json_get (i_data intent) "id") with
                   | Some v => subject_text v
                   | None => match non_null (json_get (i_data intent) "assetId") with
                             | Some v => subject_text v
                             | None => data_digest (i_data intent)
                             end
                   end in
    mkIntent (i_queue intent) (i_name intent) (i_data intent) (i_options intent) (i_safeToRetry intent) (i_sensitive intent)
      (i_deadlineMs intent) run (Some (default subject (i_itemKey intent)))
      (match i_rootItemKey intent with Some r => Some r | None => root end) (i_parentId intent).
Definition enqueueFollowups (t : Times) (run root : option string) (followups : list QueueIntent) : Tx nat :=
  enqueue t (map (inherit run root) followups) run.

Definition set_intent_parent (p : option string) (i : QueueIntent) : QueueIntent :=
  mkIntent (i_queue i) (i_name i) (i_data i) (i_options i) (i_safeToRetry i) (i_sensitive i) (i_deadlineMs i) (i_runId i)
    (i_itemKey i) (i_rootItemKey i) p.

(** The latest request put back on the row it was recorded on. *)
Definition rescheduled (t : Times) (d : Db) (latest : QueueIntent) (j : Job) : Job :=
  let p := place j in
  let l := lease j in
  mkJob (mkRequest (name (request j)) (i_data latest) (externalId (request j)) (i_safeToRetry latest) (i_sensitive latest) (i_deadlineMs latest))
    (mkPlace (queue p) (dedupKey p) (runId p) (itemKey p) (i_rootItemKey latest) (parentId p) (createdAt p))
    pending (attempt j) (attempt j)
    (mkLease (token l) None (startedAt l) (leaseExpiresAt l) (progressAt l) (progressUnits l)) (mkStop None None)
    (intentAvailability t d latest) None (mkOutcome None (dependencyReason (outcome j)) None).
Definition latest_stage (latest : QueueIntent) (j : Job) : bool :=
  sql_eq (runId (place j)) (i_runId latest) && sql_eq (itemKey (place j)) (i_itemKey latest) &&
  bool_decide (name (request j) = i_name latest).

Definition PREVIOUS_UNSETTLED : string := "Previous execution did not settle safely; review this request before rerunning".
Definition to_attention (t : Times) (j : Job) : Job :=
  let r := request j in
  set_request (mkRequest (name r) (wiped r) (externalId r) (safeToRetry r) (sensitive r) (deadlineMs r))
    (set_state needs_attention
      (set_outcome (mkOutcome (Some (now t)) (dependencyReason (outcome j)) (Some PREVIOUS_UNSETTLED)) j)).

Definition schedule_row (t : Times) (previous : string) (latest : QueueIntent) : Tx unit :=
  d ← read;
  row ← update_job previous (fun j => when (latest_stage latest j) (rescheduled t d latest j));
  match row with
  | Some _ => match i_runId latest with Some r => write (reopen r) | None => mret tt end
  | None =>
      _ ← enqueue t [set_intent_parent (if sql_eq (i_parentId latest) (Some previous) then None else i_parentId latest) latest] None;
      mret tt
  end.
Definition scheduleLatest (t : Times) (previous : string) (latest : option QueueIntent) (predecessorSucceeded : bool) : Tx (list string) :=
  match latest with
  | None => mret []
  | Some latest =>
      _ ← schedule_row t previous latest;
      if predecessorSucceeded || i_safeToRetry latest then mret []
      else
        rows ← update_jobs (fun _ j => when (bool_decide (queue (place j) = i_queue latest) &&
            sql_eq (dedupKey (place j)) (intent_key latest) && unclaimed j) (to_attention t j));
        mret (map fst rows)
  end.

(** ** Callbacks

    What a handler leaves to be done in the transaction that accepts its claim: writes to other tables
    (which may fail the transaction) with requests pushed on the follow-ups, and runs it admits. *)
Definition Domain : Type := OperationStore.Store -> option OperationStore.Store.
Inductive Adoption :=
| Publish (effect : Domain) (pushed : list QueueIntent)
| AdmitRun (id kind_ : string) (h : option RunHolds) (dirty : bool) (intents : list QueueIntent).
Definition domain (f : Domain) : Tx unit :=
  fun d => match f (operations d) with Some o => Some (tt, set_operations o d) | None => None end.
Definition adopt_one (t : Times) (a : Adoption) : Tx (list QueueIntent) :=
  match a with
  | Publish effect pushed => _ ← domain effect; mret pushed
  | AdmitRun id k h dirty intents => _ ← admitRun t id k h dirty intents; mret []
  end.
Fixpoint adopt (t : Times) (l : list Adoption) : Tx (list QueueIntent) :=
  match l with
  | [] => mret []
  | a :: l => pushed ← adopt_one t a; more ← adopt t l; mret (pushed ++ more)
  end.

(** What identifies a claim. *)
Record QueueClaim := mkQueueClaim { c_id : string; c_queue : string; c_token : option string; c_runId : option string; c_rootItemKey : option string }.

Definition complete (t : Times) (c : QueueClaim) (followups : list QueueIntent) (adoptions : list Adoption) : Tx bool :=
  d ← read;
  match jobs d !! c_id c with
  | Some job =>
      if negb (publishes (c_token c) (clock t 0) job) then mret false
      else
        pushed ← adopt t adoptions;
        accepted ← update_job (c_id c) (fun j =>
            when (owns (c_token c) j && unexpired (clock t 1) j && not_stopped j) (done_job t j));
        match accepted with
        | None => rollback
        | Some _ =>
            _ ← finish_attempt (default "" (c_token c)) (ended completed) (now t) None;
            _ ← enqueueFollowups t (c_runId c) (c_rootItemKey c) (followups ++ pushed);
            _ ← scheduleLatest t (c_id c) (latestPending job) true;
            mret true
        end
  | None => mret false
  end.

Definition wakeDeferred (t : Times) (ids : list string) (reason : JobDependencyReason) : Tx nat :=
  rows ← update_jobs (fun i j => when (includes i ids && bool_decide (state j = pending) &&
      bool_decide (dependencyReason (outcome j) = Some reason) && available_after (now t) (availableAt j) &&
      negb (bool_decide (availableAt j = HELD))) (set_available (At (now t)) j));
  mret (length rows).

Definition deferred_job (t : Times) (reason : JobDependencyReason) (j : Job) : Job :=
  let l := lease j in
  mkJob (request j) (place j) pending (attempt j) (retryBaseAttempt j + 1)
    (mkLease None None (startedAt l) None (progressAt l) (progressUnits l)) (mkStop None None)
    (At (clock t 0 + deferralDelay reason (attempt j))) (latestPending j) (mkOutcome None (Some reason) None).
Definition defer (t : Times) (c : QueueClaim) (reason : JobDependencyReason) : Tx bool :=
  row ← update_job (c_id c) (fun j => when (publishes (c_token c) (clock t 0) j) (deferred_job t reason j));
  match row with
  | None => mret false
  | Some _ => _ ← finish_attempt (default "" (c_token c)) deferred (clock t 1) (Some (reason_text reason)); mret true
  end.

(** ** Dependencies *)

Definition FAILED_STATES : list QueueState := [failed; needs_attention; cancelled; blocked].
Definition in_failed (j : Job) : bool := includes (state j) FAILED_STATES.

(** The waiting jobs under [parents] whose parent has failed, then those under them. *)
Definition under (p : string -> bool) (j : Job) : bool :=
  unclaimed j && match parentId (place j) with Some k => p k | None => false end.
Definition blocked_first (m : gmap string Job) (parents : list string) : list string :=
  map fst (List.filter (fun ij => under (fun k => includes k parents &&
      match m !! k with Some p => in_failed p | None => false end) ij.2) (map_to_list m)).
Definition blocked_next (m : gmap string Job) (found : list string) : list string :=
  map fst (List.filter (fun ij => includes ij.1 found || under (fun k => includes k found) ij.2) (map_to_list m)).
(** The recursive query; a chain of parents has at most every job. *)
Definition blocked_by (m : gmap string Job) (parents : list string) : list string :=
  repeat_next (blocked_next m) (size m) (blocked_first m parents).

Definition DEPENDENCY_FAILED : string := "Dependency did not succeed".
Definition block (t : Times) (j : Job) : Job :=
  set_state blocked (set_outcome (mkOutcome (Some (now t)) (dependencyReason (outcome j)) (Some DEPENDENCY_FAILED)) j).
Definition settleDependencies (t : Times) (parents : list string) : Tx unit :=
  match parents with
  | [] => mret tt
  | _ =>
      d ← read;
      let found := blocked_by (jobs d) parents in
      _ ← update_jobs (fun i j => when (includes i found) (block t j));
      mret tt
  end.

(** ** Failing *)

Record FailOptions := mkFailOptions {
  expiredRecovery : bool;
  stopRequestedOnly : bool;
  queuedCancellation : bool;
  settlements : list (string -> bool -> Domain)
}.

(** An attempt that is proved to have stopped, by its own evidence or its worker's. *)
Definition attempt_stopped (d : Db) (i : string) (a : Attempt) : bool :=
  bool_decide (attempt_evidence d !! a_token a = Some i) || bool_decide (a_workerId a ∈ worker_evidence d).
Definition stoppedJobAttempts (d : Db) (i : string) (j : Job) : bool :=
  (bool_decide (attempt j = 0) || bool_decide (is_Some (attempts d !! (i, attempt j)))) &&
  forallb (fun ka => negb (bool_decide (ka.1.1 = i)) ||
      (bool_decide (a_outcome ka.2 = Some (ended completed)) && negb (is_null (a_finishedAt ka.2))) || attempt_stopped d i ka.2)
    (map_to_list (attempts d)).
Definition claim_stopped (d : Db) (i : string) (j : Job) : bool :=
  match token (lease j) with Some k => bool_decide (attempt_evidence d !! k = Some i) | None => false end ||
  match workerId (lease j) with Some w => bool_decide (w ∈ worker_evidence d) | None => false end.

Definition expired (c : Z) (j : Job) : bool :=
  match leaseExpiresAt (lease j) with Some e => e <=? c | None => false end.
Definition owned (c : QueueClaim) (o : FailOptions) (clk : Z) (j : Job) : bool :=
  if queuedCancellation o then
    bool_decide (queue (place j) = c_queue c) && unclaimed j && is_null (token (lease j)) && cancelled_ j
  else owns (c_token c) j && is_active j && (negb (expiredRecovery o) || expired clk j).

Definition retryAvailable (j : Job) : bool := attempt j <? retryBaseAttempt j + 2.

Definition CANCEL_REASON : string := "Job cancellation requested".
Definition STOP_UNCONFIRMED : string := "Executor stop could not be confirmed; review the worker before retrying".
Definition WAITING_FOR_STOP : string := "Waiting for confirmation that the executor has stopped".
Definition INTERRUPTED_RETRIED : string :=
  "Interrupted before it finished (for example by a restart); it is retried automatically".
Definition INTERRUPTED_FAILED : string :=
  "Interrupted before it finished (for example by a restart) and out of automatic retries; retry failed jobs to run it again".
Definition SENSITIVE_FAILED : string := "Job failed; sensitive details omitted".

Definition stop_asked (at_ : Z) (j : Job) : Stop :=
  mkStop (Some (default at_ (cancelRequestedAt (stop j)))) (if not_stopped j then Some deadline else cancelReason (stop j)).
Definition waiting_for_stop (t : Times) (j : Job) : Job :=
  let o := outcome j in
  set_stop (stop_asked (clock t 1) j) (set_outcome (mkOutcome (finishedAt o) (dependencyReason o) (Some WAITING_FOR_STOP)) j).

(** What a failing claim comes to. *)
Definition failed_state (attention wasCancelled : bool) (j : Job) : QueueState :=
  if attention then needs_attention else if wasCancelled then cancelled
  else if negb (safeToRetry (request j)) then needs_attention else if retryAvailable j then pending else failed.
Definition failed_job (t : Times) (attention wasCancelled : bool) (reason : string) (j : Job) : Job :=
  let r := request j in
  let s := failed_state attention wasCancelled j in
  mkJob (mkRequest (name r) (wiped r) (externalId r) (safeToRetry r) (sensitive r) (deadlineMs r)) (place j) s
    (attempt j) (retryBaseAttempt j) (unclaimed_lease j) (stop j) (At (now t + 30000)) (latestPending j)
    (mkOutcome (if bool_decide (s = pending) then None else Some (now t)) None
      (Some (if sensitive r then SENSITIVE_FAILED else string_take 500 reason))).

(** The operation of a job that is fenced: failed when nobody saw its executor stop, else left to its own recovery. *)
Definition settle_operation (t : Times) (unconfirmed : bool) (reason op : string) : Tx unit :=
  let f := if unconfirmed then OperationStore.stopUnconfirmed reason (op_times t) else OperationStore.expireClaim (op_times t) in
  write (fun d => set_operations (OperationStore.update_row (op_times t) op f (operations d)).2 d).

Definition diagnose (t : Times) (c : QueueClaim) (diagnostics : list Domain) : Tx bool :=
  d ← read;
  match jobs d !! c_id c with
  | Some j =>
      if negb (publishes (c_token c) (clock t 1) j) then mret false
      else
        _ ← each domain diagnostics;
        if publishes (c_token c) (clock t 2) j then mret true else rollback
  | None => mret false
  end.

Definition fail_reason (reason : string) (unconfirmed attention wasCancelled retry : bool) : string :=
  if attention then STOP_UNCONFIRMED
  else if unconfirmed then if retry then INTERRUPTED_RETRIED else INTERRUPTED_FAILED
  else if wasCancelled then CANCEL_REASON else reason.

(** The rest of [fail] once the row is settled: its attempts, the callers' settlements, the operation it
    runs for, the request that came meanwhile, and what waits on it. *)
Definition after_failing (t : Times) (c : QueueClaim) (o : FailOptions) (reason : string) (unconfirmed attention wasCancelled : bool)
    (operation : option string) (row : Job) : Tx unit :=
  _ ← finish_attempts (fun k a =>
        if String.eqb k (c_id c) && (if queuedCancellation o then is_null (a_finishedAt a) else sql_eq (Some (a_token a)) (c_token c))
        then Some (finished (ended (state row)) (now t) (error (outcome row)) a) else None);
  _ ← each (fun f => domain (f reason wasCancelled)) (settlements o);
  _ ← match operation with
      | Some op => if String.eqb op "" then mret tt else settle_operation t unconfirmed reason op
      | None => mret tt
      end;
  if bool_decide (state row = pending) then mret tt
  else
    _ ← update_job (c_id c) (fun j => Some (set_latest None j));
    more ← (if attention then mret [] else scheduleLatest t (c_id c) (latestPending row) false);
    settleDependencies t (c_id c :: more).

(** [diagnostics] is what the handler publishes with a failure, none when it publishes nothing. *)
Definition fail (t : Times) (c : QueueClaim) (reason : string) (diagnostics : option (list Domain)) (o : FailOptions) : Tx bool :=
  d ← read;
  match jobs d !! c_id c with
  | None => mret false
  | Some j =>
      let stopped := if queuedCancellation o then stoppedJobAttempts d (c_id c) j else claim_stopped d (c_id c) j in
      let stopRequested := negb (not_stopped j) in
      if negb (owned c o (clock t 0) j) || (stopRequestedOnly o && negb stopRequested) then mret false
      else if negb (length (settlements o) =? 0)%nat && negb stopped then mret false
      else
        let asked := expiredRecovery o || stopRequested in
        if asked && negb stopped && negb (expired (clock t 0 - 30000) j) && negb (queuedCancellation o) then
          _ ← update_job (c_id c) (fun j => Some (waiting_for_stop t j)); mret false
        else
          let unconfirmed := asked && negb stopped in
          let wasCancelled := cancelled_ j in
          let attention := unconfirmed && (wasCancelled || negb (safeToRetry (request j)) || truthy (operationId j)) in
          let reason := fail_reason reason unconfirmed attention wasCancelled (retryAvailable j) in
          let operation := if expiredRecovery o || (queuedCancellation o && unconfirmed) then operationId j else None in
          go ← match diagnostics with
               | Some l => if stopRequested then mret true else diagnose t c l
               | None => mret true
               end;
          if negb go then mret false
          else
            row ← update_job (c_id c) (fun j => when (owned c o (clock t 3) j) (failed_job t attention wasCancelled reason j));
            match row with
            | None => mret false
            | Some row => _ ← after_failing t c o reason unconfirmed attention wasCancelled operation row; mret true
            end
  end.

(** ** Deadlines and recovery *)

Definition overdue (t : Times) (noProgressDeadline : Z) (j : Job) : bool :=
  let l := lease j in
  negb (not_stopped j) || expired (now t) j ||
  (bool_decide (progressUnits l = 0) && match startedAt l with Some s => s + deadlineMs (request j) <=? now t | None => false end) ||
  ((0 <? progressUnits l) && match progressAt l with Some p => p + noProgressDeadline <=? now t | None => false end).
Definition deadlines (t : Times) (noProgressDeadline : Z) (worker : string) : Tx (list (string * Job)) :=
  update_jobs (fun _ j => when (is_active j && sql_eq (workerId (lease j)) (Some worker) && overdue t noProgressDeadline j)
    (set_stop (stop_asked (now t) j) j)).

(** The claims [recoverExpired] fails, oldest lease first; each failure is its own transaction. *)
Definition expired_claims (t : Times) (d : Db) : list QueueClaim :=
  map (fun ij => mkQueueClaim ij.1 (queue (place ij.2)) (token (lease ij.2)) None None)
    (take QUEUE_BATCH (sort_by (fun a b => default 0 (leaseExpiresAt (lease a.2)) - default 0 (leaseExpiresAt (lease b.2)))
      (List.filter (fun ij => is_active ij.2 && match leaseExpiresAt (lease ij.2) with Some e => e <? now t | None => false end)
        (map_to_list (jobs d))))).
Definition EXPIRED_OPTIONS : FailOptions := mkFailOptions true false false [].
Definition LEASE_EXPIRED : string := "Worker lease expired after confirmed executor stop".
Definition recover_claim (t : Times) (c : QueueClaim) : Tx bool := fail t c LEASE_EXPIRED None EXPIRED_OPTIONS.
Definition lose_workers (t : Times) : Tx unit :=
  write (fun d => set_workers ((fun w => if w_heartbeatAt w <? now t - 60000 then mkWorker (w_heartbeatAt w) lost else w) <$> workers d) d).

(** A waiting job that was asked to stop, settled by [claim]. *)
Definition QUEUED_OPTIONS : FailOptions := mkFailOptions false false true [].
Definition cancel_waiting (t : Times) (queue_ i : string) : Tx bool :=
  fail t (mkQueueClaim i queue_ None None None) CANCEL_REASON None QUEUED_OPTIONS.

(** ** Switches, workers and evidence *)

Definition with_queue (name_ : string) (f : Queue -> Queue) : Tx unit :=
  write (fun d => set_queues (<[name_ := f (default (mkQueue false 1 None) (queues d !! name_))]> (queues d)) d).
Definition setConcurrency (name_ : string) (n : Z) : Tx unit :=
  if n <? 1 then rollback else with_queue name_ (fun q => mkQueue (q_paused q) n (closedUntil q)).
Definition pause (name_ : string) (on : bool) : Tx unit := with_queue name_ (fun q => mkQueue on (concurrency q) (closedUntil q)).
Definition setSchedule (name_ : string) (until : option Z) : Tx unit := with_queue name_ (fun q => mkQueue (q_paused q) (concurrency q) until).

Definition initialize (t : Times) (names : list string) (worker : option string) : Tx unit :=
  _ ← each (fun n => write (add_queue n)) names;
  match worker with
  | None => mret tt
  | Some w =>
      d ← read;
      if bool_decide (is_Some (workers d !! w)) then rollback
      else write (set_workers (<[w := mkWorker (now t) running]> (workers d)))
  end.

(** [recordStoppedAttempt], and the proof a supervisor writes for a worker. *)
Definition recordStoppedAttempt (i tok : string) : Tx unit :=
  write (fun d => match attempt_evidence d !! tok with
                  | Some _ => d
                  | None => set_attempt_evidence (<[tok := i]> (attempt_evidence d)) d
                  end).
Definition recordStoppedWorker (w : string) : Tx unit := write (fun d => set_worker_evidence ({[w]} ∪ worker_evidence d) d).

(** ** Runs and their holds *)

Definition alter_run (i : string) (f : Run -> Run) : Tx unit := write (fun d => set_runs (alter f i (runs d)) d).
Definition enumerated (r : Run) : Run := mkRun (kind r) true (r_createdAt r) (r_finishedAt r) (holds r) (holdsDirty r) (holdsCursor r).
Definition finishEnumeration (i : string) : Tx unit := alter_run i enumerated.

Definition with_holds (h : RunHolds) (reopened : bool) (r : Run) : Run :=
  mkRun (kind r) (enumerationDone r) (r_createdAt r) (if reopened then None else r_finishedAt r) (Some h) true None.
(** A parked stage that is no longer parked reopens the run. *)
Definition unparks (before after : RunHolds) : bool :=
  existsb (fun sr => bool_decide (sr.2 = parked) && negb (bool_decide (after !! sr.1 = Some parked))) (map_to_list before).
Definition setRunHolds (i : string) (h : RunHolds) : Tx unit :=
  d ← read;
  match runs d !! i with
  | None => mret tt
  | Some run =>
      if bool_decide (holds run = Some h) then mret tt
      else alter_run i (with_holds h (unparks (default ∅ (holds run)) h))
  end.

Inductive Released := released_ | not_held | import_not_activated | not_found.
Definition import_activated (immich library : bool) (kind_ : string) : bool :=
  if String.eqb kind_ "immich-import-derived" then immich
  else if String.eqb kind_ "library-import-derived" then library else true.
(** [immich], [library]: whether the import's own journal is activated. *)
Definition releaseRun (immich library : bool) (i : string) : Tx Released :=
  d ← read;
  match runs d !! i with
  | None => mret not_found
  | Some run =>
      let held := existsb (fun ij => sql_eq (runId (place ij.2)) (Some i) && unclaimed ij.2 && bool_decide (availableAt ij.2 = HELD))
                    (map_to_list (jobs d)) in
      if bool_decide (default ∅ (holds run) = ∅) && negb held then mret not_held
      else if negb (import_activated immich library (kind run)) then mret import_not_activated
      else _ ← alter_run i (with_holds ∅ true); mret released_
  end.

(** One turn of [reconcileHolds]: the oldest run whose holds changed, a page of its jobs in the order of
    item and stage, and the cursor.  Each is a statement of its own. *)
Definition HOLD_PAGE : nat := 2000.
Record HoldPass := mkHoldPass { p_run : string; p_holds : RunHolds; p_cursor : option (option string * string) }.
Definition next_hold (d : Db) : option HoldPass :=
  match sort_by (fun a b => or_cmp (r_createdAt a.2 - r_createdAt b.2) (compareCodeUnits a.1 b.1))
          (List.filter (fun ir => holdsDirty ir.2) (map_to_list (runs d))) with
  | (i, r) :: _ => Some (mkHoldPass i (default ∅ (holds r)) (holdsCursor r))
  | [] => None
  end.
(** Item keys in order (the collation of the database is taken to be that of code units), the missing ones last; a missing one compares as unknown. *)
Definition cmp_item (a b : option string) : Z :=
  match a, b with Some x, Some y => compareCodeUnits x y | Some _, None => -1 | None, Some _ => 1 | None, None => 0 end.
Definition stage_order (a b : string * Job) : Z :=
  or_cmp (cmp_item (itemKey (place a.2)) (itemKey (place b.2))) (compareCodeUnits (name (request a.2)) (name (request b.2))).
Definition past_cursor (c : option (option string * string)) (j : Job) : bool :=
  match c with
  | Some (Some item, stage) =>
      match itemKey (place j) with
      | Some k => 0 <? or_cmp (compareCodeUnits k item) (compareCodeUnits (name (request j)) stage)
      | None => false
      end
  | _ => true
  end.
Definition hold_page (d : Db) (p : HoldPass) : list (string * Job) :=
  take HOLD_PAGE (sort_by stage_order
    (List.filter (fun ij => sql_eq (runId (place ij.2)) (Some (p_run p)) && past_cursor (p_cursor p) ij.2) (map_to_list (jobs d)))).
Definition held_by (h : RunHolds) (stage : string) : bool := bool_decide (is_Some (h !! stage)).
(** A waiting job moves to [infinity] when its stage is held, and back when it is not. *)
Definition rehold (t : Times) (h : RunHolds) (j : Job) : option Job :=
  if negb (unclaimed j) then None
  else if held_by h (name (request j)) then when (negb (bool_decide (availableAt j = HELD))) (set_available HELD j)
  else when (bool_decide (availableAt j = HELD)) (set_available (At (now t)) j).
(** The page applied, with where it ended: none when the pass is over. *)
Definition apply_holds (t : Times) (p : HoldPass) : Tx (option (option string * string)) :=
  d ← read;
  let page := hold_page d p in
  _ ← update_jobs (fun i j => if includes i (map fst page) then rehold t (p_holds p) j else None);
  mret (match last page with
        | Some (_, j) => if (length page <? HOLD_PAGE)%nat || is_null (itemKey (place j)) then None
                         else Some (itemKey (place j), name (request j))
        | None => None
        end).
(** Only while the holds are still the ones this page applied. *)
Definition move_cursor (p : HoldPass) (next : option (option string * string)) : Tx unit :=
  alter_run (p_run p) (fun r =>
    if bool_decide (default ∅ (holds r) = p_holds p)
    then mkRun (kind r) (enumerationDone r) (r_createdAt r) (r_finishedAt r) (holds r)
           (match next with None => false | Some _ => holdsDirty r end) next
    else r).

(** ** Clearing and retrying *)

Definition cancelled_job (t : Times) (j : Job) : Job :=
  let r := request j in
  let o := outcome j in
  set_request (mkRequest (name r) (JObj []) (externalId r) (safeToRetry r) (sensitive r) (deadlineMs r))
    (set_state cancelled (set_latest None (set_outcome (mkOutcome (Some (now t)) (dependencyReason o) (error o)) j))).
Definition cancel (t : Times) (queue_ : string) (states : list QueueState) (about : Job -> bool) : Tx unit :=
  rows ← update_jobs (fun _ j => when (bool_decide (queue (place j) = queue_) && includes (state j) states &&
      negb (is_active j) && about j) (cancelled_job t j));
  settleDependencies t (map fst rows).
Definition about_entities (ids : list string) (j : Job) : bool :=
  match as_string (json_get (data (request j)) "id") with Some id => includes id ids | None => false end.
Definition clear (t : Times) (queue_ : string) (states : list QueueState) (entityIds : option (list string)) : Tx unit :=
  match entityIds with
  | Some [] => mret tt
  | Some ids => cancel t queue_ states (about_entities ids)
  | None => cancel t queue_ states (fun j => negb (bool_decide (availableAt j = HELD)))
  end.
Definition cancelQueued (t : Times) (queue_ externalId_ : string) : Tx unit :=
  cancel t queue_ [pending; waiting] (fun j => sql_eq (externalId (request j)) (Some externalId_)).

(** Put back with its saved data. *)
Definition retried_job (t : Times) (d : Db) (j : Job) : Job :=
  set_state pending (set_available (availability t d (runId (place j)) (name (request j)) 0)
    (set_base (attempt j) (set_outcome (mkOutcome None (dependencyReason (outcome j)) None) j))).
Definition earlier_ (a b : string * Job) : bool :=
  or_cmp (createdAt (place a.2) - createdAt (place b.2)) (compareCodeUnits a.1 b.1) <? 0.
Definition same_key (a b : Job) : bool :=
  bool_decide (queue (place a) = queue (place b)) && sql_eq (dedupKey (place a)) (dedupKey (place b)).
Definition no_live (m : gmap string Job) (j : Job) : bool :=
  forallb (fun kb => negb (same_key kb.2 j && is_live kb.2)) (map_to_list m).

Definition eligible (m : gmap string Job) (run i : string) (j : Job) : bool :=
  sql_eq (runId (place j)) (Some run) && safeToRetry (request j) && is_null (operationId j) &&
  includes (state j) [failed; blocked] &&
  forallb (fun kb => negb (same_key kb.2 j && negb (String.eqb kb.1 i) &&
      (is_live kb.2 || (includes (state kb.2) [failed; blocked] && earlier_ kb (i, j))))) (map_to_list m).
Definition recoverable_first (m : gmap string Job) (run : string) : list string :=
  map fst (List.filter (fun ij => eligible m run ij.1 ij.2 &&
    ((bool_decide (state ij.2 = failed) && is_null (parentId (place ij.2))) ||
     match parentId (place ij.2) ≫= fun k => m !! k with
     | Some p => includes (state p) [pending; waiting; active; completed]
     | None => false
     end)) (map_to_list m)).
Definition recoverable_next (m : gmap string Job) (run : string) (found : list string) : list string :=
  map fst (List.filter (fun ij => includes ij.1 found ||
    (eligible m run ij.1 ij.2 && match parentId (place ij.2) with Some k => includes k found | None => false end)) (map_to_list m)).
Definition recoverable (m : gmap string Job) (run : string) : list string :=
  repeat_next (recoverable_next m run) (size m) (recoverable_first m run).

Definition RETRY_PAGE : nat := 1000.
Definition retry_page (t : Times) (run : string) : Tx nat :=
  d ← read;
  let ids := take RETRY_PAGE (recoverable (jobs d) run) in
  rows ← update_jobs (fun i j => when (includes i ids)
    (set_stop (mkStop None None) (retried_job t d j)));
  mret (length rows).
(** Pages until one is not full; every page but the last puts back a thousand failed or blocked jobs. *)
Fixpoint retry_pages (fuel : nat) (t : Times) (run : string) : Tx nat :=
  match fuel with
  | O => mret 0%nat
  | S fuel =>
      n ← retry_page t run;
      if (n <? RETRY_PAGE)%nat then mret n else m ← retry_pages fuel t run; mret (n + m)%nat
  end.
Definition retryRun (t : Times) (run : string) : Tx nat :=
  d ← read;
  total ← retry_pages (S (size (jobs d))) t run;
  _ ← (if (0 <? total)%nat then write (reopen run) else mret tt);
  mret total.

Definition retry_candidate (m : gmap string Job) (queue_ : string) (only : option string) (i : string) (j : Job) : bool :=
  bool_decide (queue (place j) = queue_) && bool_decide (state j = failed) && safeToRetry (request j) &&
  match only with Some k => String.eqb i k | None => true end.
(** The first of its key, where no live job has the key. *)
Definition retryable (m : gmap string Job) (queue_ : string) (only : option string) (i : string) (j : Job) : bool :=
  retry_candidate m queue_ only i j &&
  forallb (fun kb => negb (retry_candidate m queue_ only kb.1 kb.2 && same_key kb.2 j && earlier_ kb (i, j))) (map_to_list m) &&
  no_live m j.
(** One page; [retryFailed] runs pages until one is not full. *)
Definition retryFailed (t : Times) (queue_ : string) (only : option string) : Tx nat :=
  d ← read;
  let ids := take RETRY_PAGE (map fst (List.filter (fun ij => retryable (jobs d) queue_ only ij.1 ij.2) (map_to_list (jobs d)))) in
  rows ← update_jobs (fun i j => when (includes i ids) (retried_job t d j));
  _ ← each (fun ij => match runId (place ij.2) with Some r => write (reopen r) | None => mret tt end) rows;
  mret (length rows).

(** ** After a restore *)

Definition DatabaseBackup : string := "DatabaseBackup".
Definition BackupDatabase : string := "backupDatabase".
Definition is_backup (j : Job) : bool :=
  String.eqb (name (request j)) DatabaseBackup && String.eqb (queue (place j)) BackupDatabase.
Definition has_operation (j : Job) : bool := has_key (data (request j)) "operationId".
Definition repeatable (j : Job) : bool := (safeToRetry (request j) || is_backup j) && negb (has_operation j).
Definition discardBackup (j : Job) : bool := is_active j && is_backup j && negb (has_operation j).

Definition restored_outcome (d : Db) (i : string) (j : Job) : AttemptOutcome :=
  if discardBackup j then restored_discarded_backup
  else if cancelled_ j then if stoppedJobAttempts d i j then restored_cancelled else restored_needs_attention
  else if repeatable j && retryAvailable j then restored_retry else restored_needs_attention.
Definition RESTORE_DISCARDED : string := "Restore discarded the snapshot backup invocation".
Definition RESTORE_REVOKED : string := "Restore revoked the previous execution claim".
Definition restored_state (d : Db) (i : string) (j : Job) : QueueState :=
  if discardBackup j then cancelled
  else if cancelled_ j then if stoppedJobAttempts d i j then cancelled else needs_attention
  else if repeatable j && retryAvailable j then pending else needs_attention.
Definition restored_job (t : Times) (d : Db) (i : string) (j : Job) : Job :=
  let r := request j in
  let l := lease j in
  let s := restored_state d i j in
  mkJob (mkRequest (name r) (wiped r) (externalId r) (safeToRetry r || (is_backup j && negb (has_operation j))) (sensitive r) (deadlineMs r))
    (place j) s (attempt j) (retryBaseAttempt j)
    (mkLease None None (startedAt l) None (progressAt l) (progressUnits l)) (mkStop None None)
    (if negb (is_active j) && bool_decide (availableAt j = HELD) then HELD else At (now t + 30000)) None
    (mkOutcome (if bool_decide (s = pending) then None else Some (now t)) (dependencyReason (outcome j))
      (Some (if discardBackup j then RESTORE_DISCARDED
             else if cancelled_ j && negb (stoppedJobAttempts d i j) then STOP_UNCONFIRMED else RESTORE_REVOKED))).
Definition restore_concerns (j : Job) : bool :=
  is_active j || ((negb (safeToRetry (request j)) || has_operation j || cancelled_ j) && unclaimed j).
(** With every worker stopped. *)
Definition resetQueueAfterRestore (t : Times) : Tx unit :=
  d ← read;
  _ ← finish_attempts (fun i a => match jobs d !! i with
        | Some j => if is_null (a_finishedAt a) then Some (finished (restored_outcome d i j) (now t) (a_error a) a) else None
        | None => None
        end);
  d ← read;
  _ ← update_jobs (fun i j => when (restore_concerns j) (restored_job t d i j));
  write (fun d => set_workers ((fun w => mkWorker (w_heartbeatAt w) lost) <$> workers d) d).

(** ** Selections *)

Record Selected := mkSelected { s_id : string; s_data : option json; s_root : option string }.
Definition SmartAlbumReevaluate : string := "SmartAlbumReevaluate".
Definition FacialRecognition : string := "FacialRecognition".

(** [a || b] on objects: the second's fields win. *)
Definition json_concat (a b : json) : json :=
  match a, b with JObj fs, JObj gs => JObj (foldl (fun fs kv => obj_set fs kv.1 kv.2) fs gs) | _, _ => a end.
Definition truthy_json (v : option json) : bool :=
  match v with
  | None | Some JNull | Some (JBool false) => false
  | Some (JStr x) => negb (String.eqb x "")
  | Some (JNum x) => negb (num_le x (JInt 0) && num_le (JInt 0) x)
  | _ => true
  end.
Definition selected_item (intent : QueueIntent) (row : Selected) : string :=
  if String.eqb (i_name intent) SmartAlbumReevaluate then
    let kind_ := default "all" (as_string (json_get (i_data intent) "kind")) in
    s_id row +:+ "/" +:+ i_name intent +:+ ":" +:+ s_id row +:+ ":" +:+ kind_
  else if String.eqb (i_name intent) FacialRecognition && truthy_json (json_get (i_data intent) "deferred") then s_id row +:+ "/deferred"
  else s_id row.
Definition selected_key (intent : QueueIntent) (row : Selected) : string :=
  if String.eqb (i_name intent) SmartAlbumReevaluate then
    let kind_ := default "all" (as_string (json_get (i_data intent) "kind")) in
    i_name intent +:+ ":" +:+ s_id row +:+ ":" +:+ kind_
  else "sel:" +:+ i_name intent +:+ ":" +:+ selected_item intent row +:+ ":" +:+ selection_digest (i_data intent) +:+
       match s_data row with Some v => ":" +:+ row_digest v | None => "" end.
Definition selected_job (t : Times) (d : Db) (intent : QueueIntent) (row : Selected) : Job :=
  mkJob (mkRequest (i_name intent)
           (json_concat (json_concat (i_data intent) (default (JObj []) (s_data row))) (JObj [("id"%string, JStr (s_id row))]))
           None (i_safeToRetry intent) (i_sensitive intent) (i_deadlineMs intent))
    (mkPlace (i_queue intent) (Some (selected_key intent row)) (i_runId intent) (Some (selected_item intent row))
       (Some (default (s_id row) (s_root row))) None (now t))
    pending 0 0 (mkLease None None None None None 0) (mkStop None None)
    (availability t d (i_runId intent) (i_name intent) 0) None (mkOutcome None None None).
Definition insert_selected (t : Times) (intent : QueueIntent) (row : Selected) : Tx nat :=
  d ← read;
  inserted ← insert_row (selected_job t d intent row);
  mret (if (inserted : bool) then 1%nat else 0%nat).

(** [selection] is what the caller's query selects. *)
Definition selection_page (selection : list Selected) (after : option string) (limit : nat) : list Selected :=
  take limit (sort_by (fun a b => compareCodeUnits (s_id a) (s_id b))
    (List.filter (fun r => match after with Some a => 0 <? compareCodeUnits (s_id r) a | None => true end) selection)).
Definition insertSelectionPage (t : Times) (intent : QueueIntent) (selection : list Selected) (after : option string) (limit : nat)
  : Tx (nat * option string) :=
  match i_runId intent with
  | None => rollback
  | Some run =>
      _ ← write (add_queue (i_queue intent));
      let page := selection_page selection after limit in
      inserted ← sum_of (insert_selected t intent) page;
      _ ← (if (0 <? inserted)%nat then write (reopen run) else mret tt);
      mret (inserted, if (length page <? limit)%nat then None else s_id <$> last page)
  end.

(** ** Finishing a run *)

Definition parked_stage (r : Run) (stage : string) : bool :=
  match holds r with Some h => bool_decide (h !! stage = Some parked) | None => false end.
(** The work that keeps a run open: tasks waiting in a parked stage do not. *)
Definition liveWork (d : Db) (i : string) (r : Run) : bool :=
  existsb (fun ij => sql_eq (runId (place ij.2)) (Some i) && is_live ij.2 &&
      negb (unclaimed ij.2 && parked_stage r (name (request ij.2)))) (map_to_list (jobs d)).
(** One run of [finishRuns], whose summary is not kept here. *)
Definition finishRun (t : Times) (i : string) : Tx bool :=
  d ← read;
  match runs d !! i with
  | Some r =>
      if enumerationDone r && negb (liveWork d i r) then
        _ ← alter_run i (fun r => set_finished (Some (default (now t) (r_finishedAt r))) r); mret true
      else mret false
  | None => mret false
  end.

(** ** The transactions *)

Inductive Op :=
| Initialize (names : list string) (worker : option string)
| Enqueue (intents : list QueueIntent) (liveRunId : option string)
| CreateRun (kind_ : string) (h : option RunHolds) (dirty : bool)
| AdmitNewRun (id kind_ : string) (h : option RunHolds) (dirty : bool) (intents : list QueueIntent)
| SelectionPage (intent : QueueIntent) (selection : list Selected) (after : option string) (limit : nat)
| FinishEnumeration (run : string)
| CancelWaiting (queue_ i : string)
| Claim (queue_ worker : string) (maxClaims : nat) (busy : bool) (locked : string -> bool)
| StartNow (queue_ i : string)
| Heartbeat (worker : string) (claims : list (string * string)) (locked : string -> bool)
| Progress (i tok : string) (units : Z)
| Complete (c : QueueClaim) (followups : list QueueIntent) (adoptions : list Adoption)
| Followups (run root : option string) (followups : list QueueIntent)
| WakeDeferred (ids : list string) (reason : JobDependencyReason)
| Defer (c : QueueClaim) (reason : JobDependencyReason)
| Fail (c : QueueClaim) (reason : string) (diagnostics : option (list Domain)) (o : FailOptions)
| Deadlines (noProgressDeadline : Z) (worker : string)
| LoseWorkers
| SetConcurrency (name_ : string) (n : Z)
| Pause (name_ : string) (on : bool)
| SetSchedule (name_ : string) (until : option Z)
| StoppedAttempt (i tok : string)
| StoppedWorker (worker : string)
| SetRunHolds (run : string) (h : RunHolds)
| ReleaseRun (immich library : bool) (run : string)
| ApplyHolds (p : HoldPass)
| MoveCursor (p : HoldPass) (next : option (option string * string))
| Clear (queue_ : string) (states : list QueueState) (entityIds : option (list string))
| CancelQueued (queue_ externalId_ : string)
| RetryRun (run : string)
| RetryFailed (queue_ : string) (only : option string)
| RestoreReset
| FinishRun (run : string).

Definition run_op (t : Times) (o : Op) : Tx unit :=
  match o with
  | Initialize names w => initialize t names w
  | Enqueue intents live => _ ← enqueue t intents live; mret tt
  | CreateRun k h dirty => _ ← createRun t k h dirty; mret tt
  | AdmitNewRun id k h dirty intents => _ ← admitRun t id k h dirty intents; mret tt
  | SelectionPage i s a n => _ ← insertSelectionPage t i s a n; mret tt
  | FinishEnumeration r => finishEnumeration r
  | CancelWaiting q i => _ ← cancel_waiting t q i; mret tt
  | Claim q w n busy locked => _ ← claim t q w n busy locked; mret tt
  | StartNow q i => _ ← startNow q i; mret tt
  | Heartbeat w cs locked => heartbeat t w cs locked
  | Progress i tok u => progress t i tok u
  | Complete c fs ads => _ ← complete t c fs ads; mret tt
  | Followups run root fs => _ ← enqueueFollowups t run root fs; mret tt
  | WakeDeferred ids r => _ ← wakeDeferred t ids r; mret tt
  | Defer c r => _ ← defer t c r; mret tt
  | Fail c r diag opts => _ ← fail t c r diag opts; mret tt
  | Deadlines ms w => _ ← deadlines t ms w; mret tt
  | LoseWorkers => lose_workers t
  | SetConcurrency n c => setConcurrency n c
  | Pause n on => pause n on
  | SetSchedule n u => setSchedule n u
  | StoppedAttempt i tok => recordStoppedAttempt i tok
  | StoppedWorker w => recordStoppedWorker w
  | SetRunHolds r h => setRunHolds r h
  | ReleaseRun im lib r => _ ← releaseRun im lib r; mret tt
  | ApplyHolds p => _ ← apply_holds t p; mret tt
  | MoveCursor p n => move_cursor p n
  | Clear q s e => clear t q s e
  | CancelQueued q x => cancelQueued t q x
  | RetryRun r => _ ← retryRun t r; mret tt
  | RetryFailed q o => _ ← retryFailed t q o; mret tt
  | RestoreReset => resetQueueAfterRestore t
  | FinishRun r => _ ← finishRun t r; mret tt
  end.
Definition perform (t : Times) (o : Op) (d : Db) : Db := (commit (run_op t o) d).2.
End store.
