(* ===== verification/QueueInvariant.v ===== *)
(** * What the statements of the job queue do to a row

    Every transaction of [QueueStore] is made of a few kinds of statement ([Shape]); what holds of those
    holds of all of them.  [row_step] is what one statement does to the row of a job, [budget] the retries a
    row has left, which every operation keeps ([QueueAttempts] counts them along a run), and
    [lost_claim_is_fenced] that a claim that was let go or taken away writes nothing, whatever happens after. *)

From stdpp Require Import relations pretty.
From S2P Require Import Prelude JsNumber JsString QueueRows QueueStore.
From S2P Require OperationStore.
Local Open Scope Z_scope.

(** ** What one statement does to a row *)

Definition settled (j : Job) : bool := negb (is_live j).
Definition token_ok (j : Job) : Prop := state j = active <-> is_Some (token (lease j)).

Inductive Does := Keeps | Claims | GivesBack | Retries | Again.
Inductive row_does (j j' : Job) : Does -> Prop :=
| rs_keep (same_attempt : attempt j' = attempt j) (same_base : retryBaseAttempt j' = retryBaseAttempt j)
    (same_token : token (lease j') = token (lease j) \/ token (lease j') = None)
    (place_ : state j' = state j \/ (unclaimed j = true /\ unclaimed j' = true) \/ settled j' = true) : row_does j j' Keeps
| rs_claim (was : unclaimed j = true) (is_ : state j' = active) (next : attempt j' = attempt j + 1)
    (same_base : retryBaseAttempt j' = retryBaseAttempt j) : row_does j j' Claims
| rs_defer (was : state j = active) (is_ : state j' = pending) (same_attempt : attempt j' = attempt j)
    (credit : retryBaseAttempt j' = retryBaseAttempt j + 1) (let_go : token (lease j') = None)
    (why : is_Some (dependencyReason (outcome j'))) : row_does j j' GivesBack
| rs_retry (was : state j = active) (is_ : state j' = pending) (same_attempt : attempt j' = attempt j)
    (same_base : retryBaseAttempt j' = retryBaseAttempt j) (let_go : token (lease j') = None)
    (left_ : attempt j < retryBaseAttempt j + 2) (safe : safeToRetry (request j) || is_backup j = true) : row_does j j' Retries
| rs_again (was : state j <> active) (is_ : state j' = pending) (same_attempt : attempt j' = attempt j)
    (base : retryBaseAttempt j' = attempt j) (same_token : token (lease j') = token (lease j)) : row_does j j' Again.
(** Only [claim_one] claims. *)
Definition row_step (j j' : Job) : Prop := exists l, l <> Claims /\ row_does j j' l.

Definition newborn (j : Job) : Prop := state j = pending /\ attempt j = 0 /\ retryBaseAttempt j = 0 /\ token (lease j) = None.

(** ** Statements *)

Section shape.
Context `{Uuids, Texts}.

Definition quiet {A} (m : Tx A) : Prop :=
  forall d a d', m d = Some (a, d') -> jobs d' = jobs d /\ given d' = given d.

Inductive Shape : forall A : Type, Tx A -> Prop :=
| Sh_quiet A (m : Tx A) : quiet m -> Shape A m
| Sh_uuid : Shape string randomUUID
| Sh_bind A B (m : Tx A) (f : A -> Tx B) : Shape A m -> (forall a, Shape B (f a)) -> Shape B (m ≫= f)
| Sh_update f : (forall i j j', token_ok j -> token_ok j' -> f i j = Some j' -> row_step j j') -> Shape _ (update_jobs f)
| Sh_update1 i f : (forall j j', token_ok j -> token_ok j' -> f j = Some j' -> row_step j j') -> Shape _ (update_job i f)
| Sh_insert j : newborn j -> Shape _ (insert_row j)
| Sh_claim t w i : Shape _ (claim_one t w i).
Arguments Shape {A} m.

Lemma quiet_ret {A} (a : A) : quiet (mret a : Tx A).
Proof. intros d a' d' [= <- <-]. done. Qed.
Lemma quiet_read : quiet read.
Proof. intros d a d' [= <- <-]. done. Qed.
Lemma quiet_rollback {A} : quiet (rollback : Tx A).
Proof. intros d a d' [=]. Qed.
Lemma quiet_write f : (forall d, jobs (f d) = jobs d /\ given (f d) = given d) -> quiet (write f).
Proof. intros Hf d a d' [= <- <-]. apply Hf. Qed.
Lemma quiet_domain f : quiet (domain f).
Proof. intros d a d'. unfold domain. destruct (f _) as [o|]; [|done]. intros [= <- <-]. done. Qed.

Lemma Sh_ret {A} (a : A) : Shape (mret a : Tx A).
Proof. apply Sh_quiet, quiet_ret. Qed.
Lemma Sh_write f : (forall d, jobs (f d) = jobs d /\ given (f d) = given d) -> Shape (write f).
Proof. intros. by apply Sh_quiet, quiet_write. Qed.
Lemma Sh_each {A} (f : A -> Tx unit) l : (forall a, a ∈ l -> Shape (f a)) -> Shape (each f l).
Proof.
  induction l as [|a l IH]; intros Hf; [apply Sh_ret|]. apply Sh_bind; [apply Hf; left|]. intros _. apply IH. intros b Hb. apply Hf. by right.
Qed.
Lemma Sh_sum_of {A} (f : A -> Tx nat) l : (forall a, Shape (f a)) -> Shape (sum_of f l).
Proof.
  intros Hf. induction l as [|a l IH]; [apply Sh_ret|]. apply Sh_bind; [done|]. intros n. apply Sh_bind; [done|]. intros k. apply Sh_ret.
Qed.

Lemma adds_queue q d : jobs (add_queue q d) = jobs d /\ given (add_queue q d) = given d.
Proof. unfold add_queue. by destruct (queues d !! q). Qed.

(** Go through a transaction statement by statement; what is left are the updates. *)
Ltac shape :=
  repeat match goal with
  | |- forall _, _ => intro
  | |- Shape (mret _) => apply Sh_ret
  | |- Shape read => apply Sh_quiet, quiet_read
  | |- Shape rollback => apply Sh_quiet, quiet_rollback
  | |- Shape (domain _) => apply Sh_quiet, quiet_domain
  | |- Shape (write _) => apply Sh_write; intros ?; (done || apply adds_queue || (by repeat case_match))
  | |- Shape (_ ≫= _) => apply Sh_bind
  | |- Shape (claim_one _ _ _) => apply Sh_claim
  | |- Shape randomUUID => apply Sh_uuid
  | |- Shape (each _ _) => apply Sh_each
  | |- Shape (sum_of _ _) => apply Sh_sum_of
  | |- Shape (finish_attempts _) => unfold finish_attempts
  | |- Shape (finish_attempt _ _ _ _) => unfold finish_attempt
  | |- Shape (alter_run _ _) => unfold alter_run
  | |- Shape (with_queue _ _) => unfold with_queue
  | |- Shape (match ?x with _ => _ end) => destruct x eqn:?
  end.

(** A row that keeps its claim and its counts. *)
Lemma keeps_row j j' : attempt j' = attempt j -> retryBaseAttempt j' = retryBaseAttempt j ->
  token (lease j') = token (lease j) -> state j' = state j -> row_step j j'.
Proof. intros. exists Keeps. split; [done|]. apply rs_keep; auto. Qed.

Lemma when_some b j j' : when b j = Some j' -> b = true /\ j' = j.
Proof. destruct b; [|done]. by intros [= ->]. Qed.

(** A row put back: it was not claimed, since a claimed row has a token. *)
Lemma again_row j j' : token_ok j -> token_ok j' -> state j' = pending -> attempt j' = attempt j ->
  retryBaseAttempt j' = attempt j -> token (lease j') = token (lease j) -> row_step j j'.
Proof.
  intros Hj Hj' Hs Ha Hb Ht. exists Again. split; [done|]. apply rs_again; try done. intros [k Hk]%Hj. rewrite <- Ht in Hk.
  assert (state j' = active) as E by (apply Hj'; by exists k). by rewrite Hs in E.
Qed.

Lemma is_active_state j : is_active j = true -> state j = active.
Proof. apply bool_decide_eq_true_1. Qed.
Lemma publishes_active tok c j : publishes tok c j = true -> state j = active.
Proof. unfold publishes. intros. to_prop. by apply is_active_state. Qed.

Lemma shape_coalesce t intent i j : Shape (coalesce t intent i j).
Proof. unfold coalesce. shape; apply Sh_update1; intros ? ? _ _ [= <-]; by apply keeps_row. Qed.

Lemma shape_insert_job t intent : Shape (insert_job t intent).
Proof. unfold insert_job. shape. by apply Sh_insert. Qed.

Lemma shape_rearm t intent : Shape (rearmRunStage t intent).
Proof.
  unfold rearmRunStage. shape. apply Sh_update. intros i j j' Hj Hj' [_ ->]%when_some.
  by apply again_row.
Qed.

Lemma shape_insert_intent t intent : Shape (insert_intent t intent).
Proof. unfold insert_intent. shape; [apply shape_coalesce|apply shape_insert_job|apply shape_rearm]. Qed.

Lemma shape_insertBatch t intents live : Shape (insertBatch t intents live).
Proof. unfold insertBatch. shape. apply shape_insert_intent. Qed.

Lemma shape_enqueue t intents live : Shape (enqueue t intents live).
Proof. unfold enqueue. shape. apply shape_insertBatch. Qed.

Lemma shape_admitRun t id k h dirty intents : Shape (admitRun t id k h dirty intents).
Proof. unfold admitRun, insert_run. shape; apply shape_enqueue. Qed.

Lemma shape_adopt t l : Shape (adopt t l).
Proof. induction l as [|[] l IH]; cbn [adopt adopt_one]; shape; try done. apply shape_admitRun. Qed.

Lemma shape_schedule_row t i latest : Shape (schedule_row t i latest).
Proof.
  unfold schedule_row. shape; try apply shape_enqueue. apply Sh_update1. intros ? ? Hj Hj' [_ ->]%when_some.
  by apply again_row.
Qed.

Lemma settles j j' : attempt j' = attempt j -> retryBaseAttempt j' = retryBaseAttempt j -> settled j' = true ->
  token (lease j') = token (lease j) \/ token (lease j') = None -> row_step j j'.
Proof. intros. exists Keeps. split; [done|]. apply rs_keep; auto. Qed.

Lemma shape_scheduleLatest t i latest b : Shape (scheduleLatest t i latest b).
Proof.
  unfold scheduleLatest. shape; [apply shape_schedule_row|]. apply Sh_update. intros ? ? ? _ _ [_ ->]%when_some. apply settles; auto.
Qed.

Lemma shape_settleDependencies t parents : Shape (settleDependencies t parents).
Proof. unfold settleDependencies. shape. apply Sh_update. intros ? ? ? _ _ [_ ->]%when_some. apply settles; auto. Qed.

Lemma shape_followups t run root fs : Shape (enqueueFollowups t run root fs).
Proof. apply shape_enqueue. Qed.

Lemma shape_complete t c fs ads : Shape (complete t c fs ads).
Proof.
  unfold complete. shape; [apply shape_adopt| |apply shape_followups|apply shape_scheduleLatest].
  apply Sh_update1. intros ? ? _ _ [_ ->]%when_some. apply settles; auto.
Qed.

Lemma shape_defer t c r : Shape (defer t c r).
Proof.
  unfold defer. shape. apply Sh_update1. intros ? ? _ _ [Hp ->]%when_some. apply publishes_active in Hp.
  exists GivesBack. split; [done|]. apply rs_defer; done.
Qed.

Lemma shape_diagnose t c l : Shape (diagnose t c l).
Proof. unfold diagnose. shape. Qed.

Lemma shape_after_failing t c o r u a wc op row : Shape (after_failing t c o r u a wc op row).
Proof.
  unfold after_failing, settle_operation. shape; try apply shape_scheduleLatest; try apply shape_settleDependencies.
  apply Sh_update1. intros ? ? _ _ [= <-]. by apply keeps_row.
Qed.

(** What [fail] writes: settled, or back in the queue when it was claimed and has a retry left. *)
Lemma failed_row t a wc r j : (state j = active \/ (unclaimed j = true /\ wc = true)) -> row_step j (failed_job t a wc r j).
Proof.
  intros Hj. destruct (failed_state a wc j) eqn:Hs.
  1: { exists Retries. split; [done|]. apply rs_retry; try done; unfold failed_state in Hs; destruct a; try done; destruct wc; try done;
         destruct (safeToRetry (request j)) eqn:Hsafe; cbn in Hs; try done; destruct (retryAvailable j) eqn:Hr; try done.
       - by destruct Hj as [|[_ ?]].
       - unfold retryAvailable in Hr. by to_prop. }
  all: apply settles; cbn; auto; unfold settled, is_live; cbn; rewrite Hs; try done.
  all: unfold failed_state in Hs; repeat case_match; done.
Qed.

Lemma shape_fail t c r diag o : Shape (fail t c r diag o).
Proof.
  unfold fail. shape; try apply shape_diagnose; try apply shape_after_failing.
  - apply Sh_update1. intros ? ? _ _ [= <-]. by apply keeps_row.
  - apply Sh_update1. intros j1 j2 _ _ [Ho ->]%when_some. apply failed_row. unfold owned in *.
    destruct (queuedCancellation o); to_prop; [|left; by apply is_active_state].
    by right.
Qed.

Lemma shape_claimPending t q w n b locked : Shape (claimPending t q w n b locked).
Proof. unfold claimPending. shape. Qed.
Lemma shape_claim t q w n busy locked : Shape (claim t q w n busy locked).
Proof. unfold claim. shape; apply shape_claimPending. Qed.

Lemma shape_cancel t q states about : Shape (cancel t q states about).
Proof.
  unfold cancel. shape; [|apply shape_settleDependencies]. apply Sh_update. intros ? ? ? _ _ [_ ->]%when_some. apply settles; auto.
Qed.

Lemma shape_retryRun t r : Shape (retryRun t r).
Proof.
  unfold retryRun. shape. generalize (S (size (jobs a))) as fuel. intros fuel.
  induction fuel as [|fuel IH]; cbn [retry_pages]; [apply Sh_ret|]. unfold retry_page. shape; [|done].
  apply Sh_update. intros ? ? ? Hj Hj' [_ ->]%when_some. by apply again_row.
Qed.

Lemma shape_insert_selected t intent row : Shape (insert_selected t intent row).
Proof. unfold insert_selected. shape. by apply Sh_insert. Qed.

Lemma restored_row t d i j : restore_concerns j = true -> row_step j (restored_job t d i j).
Proof.
  intros Hc. destruct (restored_state d i j) eqn:Hs.
  1: { destruct (is_active j) eqn:Ha.
       - exists Retries. split; [done|]. apply rs_retry; try done; unfold restored_state in Hs; rewrite ?Ha in Hs; [by apply is_active_state| |].
         all: destruct (discardBackup j); [done|]; destruct (cancelled_ j); [by destruct (stoppedJobAttempts d i j)|].
         all: destruct (repeatable j && retryAvailable j) eqn:E; [|done]; unfold repeatable, retryAvailable in E; to_prop; done.
       - exists Keeps. split; [done|]. apply rs_keep; cbn; auto. right. left. split; [|unfold unclaimed; cbn; by rewrite Hs].
         unfold restore_concerns in Hc. rewrite Ha in Hc. cbn in Hc. by to_prop. }
  all: try (apply settles; cbn; auto; unfold settled, is_live; cbn; by rewrite Hs).
  all: unfold restored_state in Hs; repeat case_match; done.
Qed.

Lemma rehold_row t h j j' : rehold t h j = Some j' -> row_step j j'.
Proof.
  unfold rehold. destruct (negb (unclaimed j)); [done|]. destruct (held_by _ _); intros [_ ->]%when_some; by apply keeps_row.
Qed.

(** Every transaction of the store. *)
Lemma shape_op t o : Shape (run_op t o).
Proof.
  destruct o; cbn [run_op]; unfold initialize, createRun, insert_run, insertSelectionPage, finishEnumeration, startNow, heartbeat, progress,
    wakeDeferred, deadlines, lose_workers, setConcurrency, pause, setSchedule, recordStoppedAttempt, recordStoppedWorker, setRunHolds, releaseRun,
    apply_holds, move_cursor, clear, cancelQueued, retryFailed, resetQueueAfterRestore, finishRun, cancel_waiting; shape;
    try first [apply shape_enqueue|apply shape_admitRun|apply shape_insert_selected|apply shape_fail|apply shape_claim|apply shape_complete
              |apply shape_followups|apply shape_defer|apply shape_cancel|apply shape_retryRun];
    try (apply Sh_update1; intros ? ? _ _ [_ ->]%when_some; by apply keeps_row);
    try (apply Sh_update; intros ? ? ? _ _ [_ ->]%when_some; by apply keeps_row).
  - apply Sh_update. intros i j j' _ _. destruct (includes i _); [apply rehold_row|done].
  - apply Sh_update. intros ? ? ? Hj Hj' [_ ->]%when_some. by apply again_row.
  - apply Sh_update. intros ? ? ? _ _ [Hc ->]%when_some. by apply restored_row.
Qed.

(** ** What one statement does to the database *)

Inductive db_step (d d' : Db) : Prop :=
| ds_other (same : jobs d' = jobs d) (more : (given d <= given d')%nat)
| ds_rows (same : given d' = given d) (rows : forall i, jobs d' !! i = None <-> jobs d !! i = None)
    (steps : forall i j j', jobs d !! i = Some j -> jobs d' !! i = Some j' -> j' = j \/ (token_ok j' /\ (token_ok j -> row_step j j')))
| ds_new i j (new : jobs d !! i = None) (row : jobs d' = <[i := j]> (jobs d)) (born : newborn j) (same : given d' = given d)
| ds_claim i j j' (was : jobs d !! i = Some j) (row : jobs d' = <[i := j']> (jobs d)) (claims : row_does j j' Claims)
    (tok : token (lease j') = Some (uuid (given d))) (ok : token_ok j') (more : given d' = S (given d)).

Lemma bind_Some {A B} (m : Tx A) (f : A -> Tx B) d b d2 :
  (m ≫= f) d = Some (b, d2) -> exists a d1, m d = Some (a, d1) /\ f a d1 = Some (b, d2).
Proof. unfold mbind, Tx_bind. destruct (m d) as [[a d1]|]; [|done]. eauto. Qed.

Lemma read_bind {A} (f : Db -> Tx A) d : (x ← read; f x) d = f d d.
Proof. done. Qed.

Lemma put_jobs_Some m d u d' : put_jobs m d = Some (u, d') -> constraints d m /\ d' = set_jobs m d.
Proof. unfold put_jobs. destruct (decide _); [|done]. by intros [= <- <-]. Qed.

Lemma constraints_token d m i j : constraints d m -> m !! i = Some j -> token_ok j.
Proof.
  intros Hc Hj. destruct (Hc i j Hj) as [Hr _]. unfold row_ok in Hr. to_prop.
  match goal with H : Bool.eqb _ _ = true |- _ => apply Bool.eqb_prop in H; rename H into E end.
  unfold token_ok. destruct (token (lease j)); cbn in E; [apply bool_decide_eq_true_1 in E|apply bool_decide_eq_false_1 in E].
  - split; [done|]. done.
  - split; [done|]. by intros [? ?].
Qed.

Lemma update_jobs_Some f d rows d' : update_jobs f d = Some (rows, d') ->
  d' = set_jobs (map_imap (fun i j => Some (default j (f i j))) (jobs d)) d /\ rows = updated f (jobs d) /\
  constraints d (map_imap (fun i j => Some (default j (f i j))) (jobs d)).
Proof.
  intros (d0 & d1 & [= <- <-] & (u & d2 & [Hc ->]%put_jobs_Some & [= <- <-])%bind_Some)%bind_Some. done.
Qed.

Lemma update_job_Some i f d r d' : update_job i f d = Some (r, d') ->
  (r = None /\ d' = d /\ jobs d !! i ≫= f = None) \/
  exists j j', jobs d !! i = Some j /\ f j = Some j' /\ r = Some j' /\ d' = set_jobs (<[i := j']> (jobs d)) d /\
    constraints d (<[i := j']> (jobs d)).
Proof.
  intros (d0 & d1 & [= <- <-] & Hb)%bind_Some. destruct (jobs d !! i) as [j|] eqn:Hj; cbn in Hb |- *; [|left; by injection Hb as <- <-].
  destruct (f j) as [j'|] eqn:Hf; cbn in Hb; [|left; by injection Hb as <- <-].
  right. apply bind_Some in Hb as (u & d2 & [Hc ->]%put_jobs_Some & [= <- <-]). by exists j, j'.
Qed.

Lemma Shape_steps A (m : Tx A) d a d' : Shape m -> m d = Some (a, d') -> rtc db_step d d'.
Proof.
  intros Hm. revert d a d'. induction Hm as [A m Hq| |A B m f _ IH1 _ IH2|f Hf|i f Hf|j Hj|t w i]; intros d a d'.
  - intros [Hj Hg]%Hq. apply rtc_once, ds_other; [done|lia].
  - intros [= <- <-]. apply rtc_once, ds_other; cbn; [done|lia].
  - intros (x & d1 & H1 & H2)%bind_Some. etransitivity; [by eapply IH1|by eapply IH2].
  - intros (-> & _ & Hc)%update_jobs_Some. apply rtc_once, ds_rows; cbn; [done| |].
    + intros i. rewrite map_lookup_imap. by destruct (jobs d !! i).
    + intros i j j' Hi. rewrite map_lookup_imap, Hi. cbn. intros [= <-]. destruct (f i j) as [j'|] eqn:E; [right|by left].
      assert (token_ok j') as Hok by (eapply (constraints_token _ _ i); [exact Hc|]; by rewrite map_lookup_imap, Hi; cbn; rewrite E).
      split; [done|]. intros. by eapply Hf.
  - intros [(_ & -> & _)|(j & j' & Hi & E & _ & -> & Hc)]%update_job_Some; [done|]. apply rtc_once, ds_rows; cbn; [done| |].
    + intros k. rewrite lookup_insert_None. split; [tauto|]. intros Hk. split; [done|]. intros <-. by rewrite Hi in Hk.
    + intros k j1 j2 Hk. destruct (decide (i = k)) as [<-|Hne].
      * rewrite lookup_insert_eq. intros [= <-]. rewrite Hi in Hk. injection Hk as <-. right.
        assert (token_ok j') as Hok by (eapply (constraints_token _ _ i); [exact Hc|]; by rewrite lookup_insert_eq).
        split; [done|]. intros. by eapply Hf.
      * rewrite lookup_insert_ne, Hk by done. intros [= <-]. by left.
  - intros (i & d1 & [= <- <-] & (d2 & d3 & [= <- <-] & Hb)%bind_Some)%bind_Some. cbn in Hb.
    eapply (rtc_l _ _ (set_given (S (given d)) d)); [apply ds_other; cbn; [done|lia]|].
    destruct (bool_decide (is_Some (jobs d !! uuid (given d)))) eqn:Hi; cbn in Hb.
    { injection Hb as <- <-. done. }
    destruct (existsb _ _); [by injection Hb as <- <-|]. apply bind_Some in Hb as (u & d4 & [Hc ->]%put_jobs_Some & [= <- <-]).
    apply rtc_once. eapply ds_new; cbn; [|reflexivity|done|done]. apply bool_decide_eq_false_1 in Hi. by apply eq_None_not_Some.
  - intros (tok & d1 & [= <- <-] & (r & d2 & Hb & H2)%bind_Some)%bind_Some.
    apply update_job_Some in Hb as [(-> & -> & _)|(j & j' & Hi & [Hu ->]%when_some & -> & -> & Hc)].
    { injection H2 as <- <-. apply rtc_once, ds_other; cbn; [done|lia]. }
    cbn in Hi, Hc. apply rtc_once. eapply (ds_claim d d' i j (claimed t w (uuid (given d)) j)); [done| | |done| |].
    + unfold insert_attempt in H2. apply bind_Some in H2 as (d3 & d4 & [= <- <-] & H2). destruct (_ || _); [done|]. by injection H2 as <- <-.
    + by apply rs_claim.
    + eapply (constraints_token _ _ i); [exact Hc|]. apply lookup_insert_eq.
    + unfold insert_attempt in H2. apply bind_Some in H2 as (d3 & d4 & [= <- <-] & H2). destruct (_ || _); [done|]. by injection H2 as <- <-.
Qed.

Definition reaches : relation Db := rtc (fun d d' => exists t o, d' = perform t o d).
Lemma reaches_steps d d' : reaches d d' -> rtc db_step d d'.
Proof.
  induction 1 as [|d d1 d2 (t & o & ->) _ IH]; [done|]. etransitivity; [|exact IH]. unfold perform, commit.
  destruct (run_op t o d) as [[u d1]|] eqn:E; [|done]. cbn. by eapply Shape_steps, E; apply shape_op.
Qed.

(** ** How often a job runs *)

(** The retries a row has left: none runs a third time since it was asked for. *)
Definition budget (j : Job) : Prop :=
  retryBaseAttempt j <= attempt j <= retryBaseAttempt j + 2 /\
  (state j = active -> retryBaseAttempt j < attempt j) /\ (unclaimed j = true -> attempt j < retryBaseAttempt j + 2).
Definition sound (d : Db) : Prop := map_Forall (fun _ j => token_ok j /\ budget j) (jobs d).

Lemma unclaimed_states j : unclaimed j = true <-> state j = pending \/ state j = waiting.
Proof. unfold unclaimed. rewrite includes_true, !elem_of_cons, elem_of_nil. tauto. Qed.
Lemma settled_states j : settled j = true -> unclaimed j = false /\ state j <> active.
Proof. unfold settled, is_live, unclaimed. by destruct (state j). Qed.

Lemma budget_step j j' l : row_does j j' l -> budget j -> budget j'.
Proof.
  unfold budget. intros [Ha Hb _ [Hs|[[H1 H2]|Hs]]|H1 H2 Ha Hb|H1 H2 Ha Hb _ _|H1 H2 Ha Hb _ H3 _|H1 H2 Ha Hb _] (B1 & B2 & B3).
  - rewrite Ha, Hb, Hs. unfold unclaimed in *. by rewrite Hs.
  - rewrite Ha, Hb. split; [done|]. split; [|auto]. intros E. apply unclaimed_states in H2 as [?|?]; congruence.
  - apply settled_states in Hs as [E1 E2]. rewrite Ha, Hb. split; [lia|]. split; [done|]. by rewrite E1.
  - specialize (B3 H1). split; [lia|]. split; [lia|]. intros [E|E]%unclaimed_states; congruence.
  - specialize (B2 H1). split; [lia|]. split; [congruence|lia].
  - specialize (B2 H1). split; [lia|]. split; [congruence|lia].
  - split; [lia|]. split; [congruence|lia].
Qed.

Lemma newborn_budget j : newborn j -> token_ok j /\ budget j.
Proof.
  intros (Hs & Ha & Hb & Ht). split; [unfold token_ok|unfold budget; rewrite Ha, Hb, Hs; split; [lia|]; split; [done|lia]].
  rewrite Hs, Ht. split; [done|]. by intros [? ?].
Qed.

Lemma db_step_sound d d' : db_step d d' -> sound d -> sound d'.
Proof.
  intros [Hj _|_ Hrows Hsteps|i j Hn Hr Hb _|i j j' Hj Hr Hc _ Hok _] Hs k x.
  - rewrite Hj. apply Hs.
  - intros Hx. destruct (jobs d !! k) as [y|] eqn:Hy; [|apply Hrows in Hy; congruence]. destruct (Hs k y Hy) as [T B].
    destruct (Hsteps k y x Hy Hx) as [->|[T' (l & _ & Hl)%(fun H => H T)]]; [done|]. split; [done|by eapply budget_step].
  - rewrite Hr. intros [[<- <-]|[_ Hx]]%lookup_insert_Some; [by apply newborn_budget|by eapply Hs].
  - rewrite Hr. intros [[<- <-]|[_ Hx]]%lookup_insert_Some; [|by eapply Hs]. split; [done|]. eapply budget_step, Hs; [done|exact Hj].
Qed.

Lemma steps_sound d d' : rtc db_step d d' -> sound d -> sound d'.
Proof. induction 1; [done|]. intros. by eauto using db_step_sound. Qed.

(** ** A claim that is gone *)

(** No row holds the token, and it has been given out, so it is never given again. *)
Definition gone (tok : string) (d : Db) : Prop :=
  (forall i j, jobs d !! i = Some j -> token (lease j) <> Some tok) /\ forall k, uuid k = tok -> (k < given d)%nat.

Lemma row_step_token j j' : row_step j j' -> token (lease j') = token (lease j) \/ token (lease j') = None.
Proof. intros (l & Hl & Hst). destruct Hst; auto. done. Qed.

Lemma db_step_gone tok d d' : db_step d d' -> sound d -> gone tok d -> gone tok d'.
Proof.
  intros [Hj Hm|Hg Hrows Hsteps|i j Hn Hr (_ & _ & _ & Ht) Hg|i j j' Hj Hr Hc Ht _ Hg] Hs [G1 G2]; split.
  - rewrite Hj. apply G1.
  - intros k Hk%G2. lia.
  - intros i j' Hi. destruct (jobs d !! i) as [j|] eqn:E; [|apply Hrows in E; congruence].
    destruct (Hsteps i j j' E Hi) as [->|[_ Hst%(fun H => H (proj1 (Hs i j E)))%row_step_token]]; [by eapply G1|].
    specialize (G1 i j E). destruct Hst as [->| ->]; done.
  - intros k Hk%G2. by rewrite Hg.
  - intros k x. rewrite Hr. intros [[<- <-]|[_ Hx]]%lookup_insert_Some; [by rewrite Ht|by eapply G1].
  - intros k Hk%G2. by rewrite Hg.
  - intros k x. rewrite Hr. intros [[<- <-]|[_ Hx]]%lookup_insert_Some; [|by eapply G1].
    rewrite Ht. intros [= E%G2]. lia.
  - intros k Hk%G2. lia.
Qed.
Lemma steps_gone tok d d' : rtc db_step d d' -> sound d -> gone tok d -> gone tok d'.
Proof. induction 1; [done|]. intros. eauto using db_step_sound, db_step_gone. Qed.

Lemma gone_owns tok d i j : gone tok d -> jobs d !! i = Some j -> owns (Some tok) j = false.
Proof.
  intros [G _] Hj. specialize (G i j Hj). unfold owns, sql_eq. destruct (token (lease j)) as [x|]; [|done].
  apply bool_decide_eq_false. congruence.
Qed.

Lemma update_job_none i f d : jobs d !! i ≫= f = None -> update_job i f d = Some (None, d).
Proof.
  intros E. change (update_job i f d) with ((match jobs d !! i ≫= f with
    | Some j => _ ← put_jobs (<[i := j]> (jobs d)); mret (Some j) | None => mret None end) d). by rewrite E.
Qed.

Lemma update_bind_none {A} i f (k : option Job -> Tx A) d : (forall j, jobs d !! i = Some j -> f j = None) ->
  (r ← update_job i f; k r) d = k None d.
Proof.
  intros E. unfold mbind at 1, Tx_bind. rewrite update_job_none; [done|]. destruct (jobs d !! i) as [j|] eqn:Hj; [|done]. by apply E.
Qed.

(** What a claim that is gone writes. *)
Definition writes_nothing (tok : string) (d : Db) : Prop :=
  forall t c, c_token c = Some tok ->
    (forall followups adoptions, complete t c followups adoptions d = Some (false, d)) /\
    (forall reason, defer t c reason d = Some (false, d)) /\
    (forall reason diagnostics o, queuedCancellation o = false -> fail t c reason diagnostics o d = Some (false, d)) /\
    (forall units, progress t (c_id c) tok units d = Some (tt, d)).

Lemma gone_writes_nothing tok d : gone tok d -> writes_nothing tok d.
Proof.
  intros G t c Hc. assert (forall j, jobs d !! c_id c = Some j -> owns (c_token c) j = false) as Ho
    by (intros j Hj; rewrite Hc; by eapply gone_owns).
  split; [|split; [|split]].
  - intros fs ads. unfold complete. rewrite read_bind. destruct (jobs d !! c_id c) as [j|] eqn:E; [|done].
    unfold publishes. rewrite (Ho j eq_refl). done.
  - intros r. unfold defer. rewrite (update_bind_none (c_id c)); [done|]. intros j E. unfold publishes. by rewrite (Ho j E).
  - intros r diag o Hq. unfold fail. rewrite read_bind. destruct (jobs d !! c_id c) as [j|] eqn:E; [|done].
    unfold owned. by rewrite Hq, (Ho j eq_refl).
  - intros u. unfold progress. destruct (_ || _); [done|]. rewrite (update_bind_none (c_id c)); [done|].
    intros j E. rewrite Hc in Ho. by rewrite (Ho j E).
Qed.

(** Every token is held by one row at most, and has been given out. *)
Definition claims_ok (d : Db) : Prop :=
  (forall i k j j' tok, jobs d !! i = Some j -> jobs d !! k = Some j' -> token (lease j) = Some tok -> token (lease j') = Some tok -> i = k) /\
  (forall i j tok n, jobs d !! i = Some j -> token (lease j) = Some tok -> uuid n = tok -> (n < given d)%nat).

(** A row after a step that holds a token held it before, or has just been given it. *)
Lemma db_step_token d d' i j' tok : db_step d d' -> sound d -> jobs d' !! i = Some j' -> token (lease j') = Some tok ->
  (exists j, jobs d !! i = Some j /\ token (lease j) = Some tok) \/ (tok = uuid (given d) /\ given d' = S (given d)).
Proof.
  intros [Hj _|_ Hrows Hsteps|k x Hn Hr (_ & _ & _ & Hb) _|k x y Hj Hr _ Ht _ Hg] Hs Hi Htok.
  - left. exists j'. by rewrite <- Hj.
  - left. destruct (jobs d !! i) as [j|] eqn:E; [|apply Hrows in E; congruence]. exists j. split; [done|].
    destruct (Hsteps i j j' E Hi) as [->|[_ Hst%(fun H => H (proj1 (Hs i j E)))%row_step_token]]; [done|]. destruct Hst; congruence.
  - left. rewrite Hr in Hi. apply lookup_insert_Some in Hi as [[<- <-]|[_ Hi]]; [congruence|]. by exists j'.
  - rewrite Hr in Hi. apply lookup_insert_Some in Hi as [[<- <-]|[_ Hi]]; [|left; by exists j']. right. split; [congruence|done].
Qed.

Lemma db_step_given d d' : db_step d d' -> (given d <= given d')%nat.
Proof. intros []; lia. Qed.

(** At most one row is given a fresh token in a step. *)
Lemma db_step_fresh d d' i k j j' : db_step d d' -> sound d -> claims_ok d -> jobs d' !! i = Some j -> jobs d' !! k = Some j' ->
  token (lease j) = Some (uuid (given d)) -> token (lease j') = Some (uuid (given d)) -> i = k.
Proof.
  intros Hst Hs [_ C2] Hi Hk Ti Tk.
  assert (forall x y, jobs d !! x = Some y -> token (lease y) <> Some (uuid (given d))) as Hno.
  { intros x y Hx Ht. specialize (C2 x y _ (given d) Hx Ht eq_refl). lia. }
  destruct Hst as [Hj _|_ Hrows Hsteps|a x Hn Hr (_ & _ & _ & Hb) _|a x y Hj Hr _ Ht _ Hg].
  - rewrite Hj in Hi. by destruct (Hno i j).
  - destruct (jobs d !! i) as [j0|] eqn:E; [|apply Hrows in E; congruence].
    destruct (Hsteps i j0 j E Hi) as [->|[_ Hx%(fun H => H (proj1 (Hs i j0 E)))%row_step_token]]; [by destruct (Hno i j0)|].
    destruct Hx; [destruct (Hno i j0 E)|]; congruence.
  - rewrite Hr in Hi. apply lookup_insert_Some in Hi as [[<- <-]|[_ Hi]]; [congruence|by destruct (Hno i j)].
  - rewrite Hr in Hi, Hk. apply lookup_insert_Some in Hi as [[<- <-]|[_ Hi]]; [|by destruct (Hno i j)].
    apply lookup_insert_Some in Hk as [[<- <-]|[_ Hk]]; [done|by destruct (Hno k j')].
Qed.

Lemma db_step_claims d d' : db_step d d' -> sound d -> claims_ok d -> claims_ok d'.
Proof.
  intros Hst Hs C. split.
  - intros i k j j' tok Hi Hk Ti Tk.
    destruct (db_step_token _ _ _ _ _ Hst Hs Hi Ti) as [(x & Hx & Tx)|[-> _]]; [|by eapply db_step_fresh].
    destruct (db_step_token _ _ _ _ _ Hst Hs Hk Tk) as [(y & Hy & Ty)|[-> _]]; [by eapply C|by eapply db_step_fresh].
  - intros i j tok n Hi Ti Hn. destruct (db_step_token _ _ _ _ _ Hst Hs Hi Ti) as [(x & Hx & Tx)|[-> Hg]].
    + pose proof (db_step_given _ _ Hst). pose proof (proj2 C _ _ _ _ Hx Tx Hn). lia.
    + apply uuid_inj in Hn. lia.
Qed.
Lemma steps_claims d d' : rtc db_step d d' -> sound d -> claims_ok d -> claims_ok d'.
Proof. induction 1; [done|]. intros. eauto using db_step_sound, db_step_claims. Qed.

Lemma release_gone d i j j' tok : claims_ok d -> jobs d !! i = Some j -> token (lease j) = Some tok -> token (lease j') = None ->
  gone tok (set_jobs (<[i := j']> (jobs d)) d).
Proof.
  intros [C1 C2] Hi Ht Hn. split; cbn.
  - intros k x [[<- <-]|[Hne Hk]]%lookup_insert_Some; [by rewrite Hn|]. intros Hx. destruct Hne. by eapply C1.
  - intros n Hn'. by eapply C2.
Qed.

Lemma owns_token tok j : owns (Some tok) j = true -> token (lease j) = Some tok.
Proof. unfold owns, sql_eq. destruct (token (lease j)); [|done]. intros ->%bool_decide_eq_true_1. done. Qed.
Lemma publishes_token tok c j : publishes (Some tok) c j = true -> token (lease j) = Some tok.
Proof. unfold publishes. intros. to_prop. by apply owns_token. Qed.

Lemma Shape_gone A (m : Tx A) tok d a d' : Shape m -> m d = Some (a, d') -> sound d -> gone tok d -> gone tok d'.
Proof. intros Hm E Hs G. eapply steps_gone; [|exact Hs|exact G]. by eapply Shape_steps. Qed.
Lemma Shape_sound A (m : Tx A) d a d' : Shape m -> m d = Some (a, d') -> sound d -> sound d'.
Proof. intros Hm E Hs. eapply steps_sound; [|exact Hs]. by eapply Shape_steps. Qed.
Lemma Shape_claims A (m : Tx A) d a d' : Shape m -> m d = Some (a, d') -> sound d -> claims_ok d -> claims_ok d'.
Proof. intros Hm E Hs C. eapply steps_claims; [|exact Hs|exact C]. by eapply Shape_steps. Qed.

(** The statement that lets a claim go, and what follows it in its transaction. *)
Lemma let_go_gone {B} i f (post : Job -> Tx B) (none : Tx B) (b : B) d d' tok :
  (r ← update_job i f; match r with Some j => post j | None => none end) d = Some (b, d') -> sound d -> claims_ok d ->
  Shape (update_job i f) -> (forall j, Shape (post j)) ->
  (forall j j', f j = Some j' -> token (lease j) = Some tok /\ token (lease j') = None) ->
  (forall d1, none d <> Some (b, d1)) -> gone tok d'.
Proof.
  intros (r & d2 & H2 & H3)%bind_Some Hs C Hup Hpost Hf Hnone. pose proof (Shape_sound _ _ _ _ _ Hup H2 Hs) as Hs2.
  destruct (update_job_Some _ _ _ _ _ H2) as [(-> & -> & _)|(j & j' & Hj & E & -> & -> & _)]; [by apply Hnone in H3|].
  destruct (Hf _ _ E) as [Tj Tj']. eapply Shape_gone; [apply Hpost|exact H3|exact Hs2|]. by eapply release_gone.
Qed.

Lemma complete_gone t c fs ads d d' tok : sound d -> claims_ok d -> c_token c = Some tok -> complete t c fs ads d = Some (true, d') -> gone tok d'.
Proof.
  intros Hs C Hc. unfold complete. rewrite read_bind. destruct (jobs d !! c_id c) as [job|]; [|done].
  destruct (negb _); [done|]. intros (pushed & d1 & H1 & H2)%bind_Some.
  eapply let_go_gone in H2; [exact H2| | | | | |].
  - eapply Shape_sound; [apply shape_adopt|exact H1|exact Hs].
  - eapply Shape_claims; [apply shape_adopt|exact H1|exact Hs|exact C].
  - apply Sh_update1. intros ? ? _ _ [_ ->]%when_some. apply settles; auto.
  - intros _. shape; [apply shape_followups|apply shape_scheduleLatest].
  - intros j j' [Ho ->]%when_some. to_prop. rewrite Hc in *. split; [by apply owns_token|done].
  - intros d2 [=].
Qed.

Lemma defer_gone t c r d d' tok : sound d -> claims_ok d -> c_token c = Some tok -> defer t c r d = Some (true, d') -> gone tok d'.
Proof.
  intros Hs C Hc E. unfold defer in E. eapply let_go_gone in E; [exact E|done|done| | | |].
  - apply Sh_update1. intros ? ? _ _ [Hp ->]%when_some. apply publishes_active in Hp.
    exists GivesBack. split; [done|]. apply rs_defer; done.
  - intros _. shape.
  - intros j j' [Hp ->]%when_some. rewrite Hc in Hp. split; [by eapply publishes_token|done].
  - intros d2 [=].
Qed.

Lemma fail_gone t c r diag o d d' tok : sound d -> claims_ok d -> c_token c = Some tok -> queuedCancellation o = false ->
  fail t c r diag o d = Some (true, d') -> gone tok d'.
Proof.
  intros Hs C Hc Hq. unfold fail. rewrite read_bind. destruct (jobs d !! c_id c) as [job|]; [|done].
  cbv zeta. do 3 match goal with
  | |- (if ?b then _ else _) _ = _ -> _ => destruct b; [(done || by intros (x & d1 & _ & [=])%bind_Some)|]
  end.
  intros (go & d1 & H1 & H2)%bind_Some.
  assert (Shape (match diag with Some l => if negb (not_stopped job) then mret true else diagnose t c l | None => mret true end)) as Hgo
    by (shape; apply shape_diagnose).
  destruct go; [|done]. eapply let_go_gone in H2; [exact H2| | | | | |].
  - by eapply Shape_sound.
  - by eapply Shape_claims.
  - apply Sh_update1. intros j1 j2 _ _ [Hp ->]%when_some. apply failed_row. left. unfold owned in Hp. rewrite Hq in Hp. to_prop.
    by apply is_active_state.
  - intros x. shape. apply shape_after_failing.
  - intros j j' [Hp ->]%when_some. unfold owned in Hp. rewrite Hq, Hc in Hp. to_prop. split; [by apply owns_token|done].
  - intros d2 [=].
Qed.

(** The database a claim's token was let go in. *)
Inductive lets_go (tok : string) (d d' : Db) : Prop :=
| lg_complete t c fs ads (mine : c_token c = Some tok) (done_ : complete t c fs ads d = Some (true, d'))
| lg_defer t c r (mine : c_token c = Some tok) (done_ : defer t c r d = Some (true, d'))
| lg_fail t c r diag o (mine : c_token c = Some tok) (claimed_ : queuedCancellation o = false) (done_ : fail t c r diag o d = Some (true, d')).

(** C7. A claim settles once, and a claim that was settled, given back or taken away by recovery writes nothing: whatever transactions
    follow, in any order, its publication, failure, deferral and progress change nothing and answer that it is not the owner. *)
Theorem lost_claim_is_fenced (tok : string) (d d1 d2 : Db) (start : sound d) (claims_ : claims_ok d) (let_go : lets_go tok d d1)
  (later : reaches d1 d2) : writes_nothing tok d2.
Proof.
  apply gone_writes_nothing. apply reaches_steps in later. eapply steps_gone; [exact later| |].
  - destruct let_go as [t c fs ads _ E|t c r _ E|t c r diag o _ _ E]; (eapply Shape_sound; [|exact E|exact start]).
    + apply shape_complete.
    + apply shape_defer.
    + apply shape_fail.
  - destruct let_go as [t c fs ads Hc E|t c r Hc E|t c r diag o Hc Hq E].
    + by eapply complete_gone.
    + by eapply defer_gone.
    + by eapply fail_gone.
Qed.
End shape.
Arguments Shape {_ A} m.

(** ** A queue *)

#[export] Instance sample_uuids : Uuids := {| uuid n := pretty n; uuid_inj := pretty_nat_inj |}.
#[export] Instance sample_texts : Texts :=
  {| data_digest _ := "digest"; json_text _ := "text"; selection_digest _ := "digest"; row_digest _ := "digest" |}%string.

(** Every statement of a transaction at one time. *)
Definition at_ (n : Z) : Times := mkTimes n (fun _ => n).
Definition empty_db : Db := mkDb ∅ ∅ ∅ ∅ ∅ ∅ ∅ (OperationStore.mkStore ∅ ∅) 0.
Definition run_ops (l : list (Z * Op)) (d : Db) : Db := foldl (fun d to => perform (at_ to.1) to.2 d) d l.

Lemma run_ops_reaches l d : reaches d (run_ops l d).
Proof. revert d; induction l as [|[n o] l IH]; intros d; [done|]. eapply rtc_l; [|apply IH]. by exists (at_ n), o. Qed.
Lemma empty_sound : sound empty_db /\ claims_ok empty_db.
Proof. split; [intros i j Hi|split; [intros i k j j' tok Hi|intros i j tok n Hi]]; cbn [empty_db jobs] in Hi; by rewrite lookup_empty in Hi. Qed.
Lemma reached_sound d : reaches empty_db d -> sound d /\ claims_ok d.
Proof. intros H%reaches_steps. split; [eapply steps_sound|eapply steps_claims]; try exact H; apply empty_sound. Qed.
Lemma commit_true (m : Tx bool) d : (commit m d).1 = Some true -> m d = Some (true, (commit m d).2).
Proof. unfold commit. destruct (m d) as [[b d']|]; [|done]. by intros [= ->]. Qed.
(** A fact about a row, and the row. *)
Lemma row_where d i (P : Job -> Prop) : match jobs d !! i with Some j => P j | None => False end -> exists j, jobs d !! i = Some j /\ P j.
Proof. destruct (jobs d !! i) as [j|]; [|done]. eauto. Qed.

Definition queue_ : string := "thumbnailGeneration".
Definition thumbnail : QueueIntent :=
  mkIntent queue_ "AssetGenerateThumbnails" (JObj [("id", JStr "a1")]%string) None true false 1000 None None None None.
Definition no_options : FailOptions := mkFailOptions false false false [].
Definition unlocked : string -> bool := fun _ => false.
Definition sample_claim (tok : string) : QueueClaim := mkQueueClaim "0" queue_ (Some tok) None None.
Definition sample_ops : list (Z * Op) :=
  [(1, Initialize [queue_] (Some "w1"%string)); (2, Enqueue [thumbnail] None); (3, Claim queue_ "w1" 5 false unlocked);
   (4, Fail (sample_claim "1") "Handler returned Failed" None no_options); (40000, Claim queue_ "w1" 5 false unlocked);
   (40001, Fail (sample_claim "2") "Handler returned Failed" None no_options); (80000, Claim queue_ "w1" 5 false unlocked)].

(** After the first claim, the failure of it, and everything that follows. *)
Definition claimed_db : Db := run_ops (take 3 sample_ops) empty_db.
Definition sample_fail : Tx bool := fail (at_ 4) (sample_claim "1") "Handler returned Failed" None no_options.
Lemma sample_fails : (commit sample_fail claimed_db).1 = Some true.
Proof. vm_compute. reflexivity. Qed.

Lemma lost_claim_is_fenced_witness : exists d1, sample_fail claimed_db = Some (true, d1) /\
  writes_nothing "1" (run_ops (drop 4 sample_ops) d1).
Proof.
  exists (commit sample_fail claimed_db).2. split; [exact (commit_true _ _ sample_fails)|].
  destruct (reached_sound claimed_db (run_ops_reaches _ _)) as [Hs Hc].
  apply (lost_claim_is_fenced "1" claimed_db _ _ Hs Hc
    (lg_fail "1" claimed_db _ (at_ 4) (sample_claim "1") _ None no_options eq_refl eq_refl (commit_true _ _ sample_fails))
    (run_ops_reaches _ _)).
Defined.
