(* ===== verification/QueueMoves.v ===== *)
(** * What a transaction of the job queue does to every row

    [Moves T N m]: whatever database [m] runs on, every row is still there afterwards and has moved by
    [T], and every row that is new has [N].  The lemmas go through a transaction statement by statement
    ([moves]) and leave what each update writes; [QueueAttempts] and [QueueDependency] each choose a [T]. *)

From S2P Require Import Prelude JsNumber JsString QueueRows QueueStore QueueInvariant.
From S2P Require OperationStore.
Local Open Scope Z_scope.

Class Moving (T : string -> Job -> Job -> Prop) (N : string -> Job -> Prop) := {
  move_refl i j : T i j j;
  move_trans i a b c : T i a b -> T i b c -> T i a c;
  move_new i a b : N i a -> T i a b -> N i b
}.

Section moves.
Context `{Uuids, Texts} (T : string -> Job -> Job -> Prop) (N : string -> Job -> Prop) {moving : Moving T N}.

Definition moved (d d' : Db) : Prop :=
  (forall i j, jobs d !! i = Some j -> exists j', jobs d' !! i = Some j' /\ T i j j') /\
  (forall i j', jobs d' !! i = Some j' -> is_Some (jobs d !! i) \/ N i j').
Definition Moves {A} (m : Tx A) : Prop := forall d a d', m d = Some (a, d') -> moved d d'.
(** A transaction that writes other tables. *)
Definition still {A} (m : Tx A) : Prop := forall d a d', m d = Some (a, d') -> jobs d' = jobs d.

Lemma moved_same d d' : jobs d' = jobs d -> moved d d'.
Proof. intros E. split; intros i j Hj; [exists j; rewrite E; split; [done|apply move_refl]|left; rewrite <- E; by exists j]. Qed.
Lemma moved_trans a b c : moved a b -> moved b c -> moved a c.
Proof.
  intros [A1 A2] [B1 B2]. split.
  - intros i j (x & Hx & Tx)%A1. destruct (B1 i x Hx) as (y & Hy & Ty). exists y. split; [done|]. by eapply move_trans.
  - intros i y Hy. destruct (B2 i y Hy) as [[x Hx]|]; [|by right]. destruct (A2 i x Hx) as [|Nx]; [by left|right].
    destruct (B1 i x Hx) as (z & Hz & Tz). replace y with z by congruence. by eapply move_new.
Qed.

Lemma Moves_still {A} (m : Tx A) : still m -> Moves m.
Proof. intros Hm d a d' E. by eapply moved_same, Hm. Qed.
Lemma Moves_bind {A B} (m : Tx A) (f : A -> Tx B) : Moves m -> (forall a, Moves (f a)) -> Moves (m ≫= f).
Proof. intros Hm Hf d b d' (a & d1 & H1 & H2)%bind_Some. eapply moved_trans; [by eapply Hm|by eapply Hf]. Qed.
Lemma Moves_each {A} (f : A -> Tx unit) l : (forall a, a ∈ l -> Moves (f a)) -> Moves (each f l).
Proof.
  induction l as [|a l IH]; intros Hf; [apply Moves_still; by intros ? ? ? [= _ <-]|].
  apply Moves_bind; [apply Hf; left|]. intros _. apply IH. intros b Hb. apply Hf. by right.
Qed.
Lemma Moves_sum {A} (f : A -> Tx nat) l : (forall a, a ∈ l -> Moves (f a)) -> Moves (sum_of f l).
Proof.
  induction l as [|a l IH]; intros Hf; [apply Moves_still; by intros ? ? ? [= _ <-]|].
  apply Moves_bind; [apply Hf; left|]. intros n. apply Moves_bind; [apply IH; intros b Hb; apply Hf; by right|].
  intros k. apply Moves_still. by intros ? ? ? [= _ <-].
Qed.

Lemma moved_update f d rows d' : (forall i j j', jobs d !! i = Some j -> f i j = Some j' -> T i j j') ->
  update_jobs f d = Some (rows, d') -> moved d d'.
Proof.
  intros Hf (-> & _ & _)%update_jobs_Some. split; cbn [jobs set_jobs]; intros i j; rewrite map_lookup_imap.
  - intros Hj. rewrite Hj. cbn. eexists. split; [done|]. destruct (f i j) as [j'|] eqn:E; [by apply Hf|apply move_refl].
  - destruct (jobs d !! i); [left; by eexists|done].
Qed.
Lemma Moves_update f : (forall i j j', f i j = Some j' -> T i j j') -> Moves (update_jobs f).
Proof. intros Hf d a d'. apply moved_update. eauto. Qed.
Lemma moved_insert d i j j' : jobs d !! i = Some j -> T i j j' -> moved d (set_jobs (<[i := j']> (jobs d)) d).
Proof.
  intros Hj Ht. split; cbn [jobs set_jobs]; intros k x.
  - intros Hx. destruct (decide (i = k)) as [<-|]; [|rewrite lookup_insert_ne by done; exists x; split; [done|apply move_refl]].
    rewrite lookup_insert_eq. exists j'. split; [done|]. by replace x with j by congruence.
  - intros [[<- _]|[_ Hx]]%lookup_insert_Some; left; by eexists.
Qed.
Lemma Moves_update1 i f : (forall j j', f j = Some j' -> T i j j') -> Moves (update_job i f).
Proof.
  intros Hf d a d' [(_ & -> & _)|(j & j' & Hj & E & _ & -> & _)]%update_job_Some; [by apply moved_same|].
  apply moved_insert with (j := j); [done|by apply Hf].
Qed.
Lemma Moves_insert j : (forall i, N i j) -> Moves (insert_row j).
Proof.
  intros Hn d a d' (i & d1 & [= <- <-] & (d2 & d3 & [= <- <-] & Hb)%bind_Some)%bind_Some. cbn in Hb.
  destruct (bool_decide (is_Some (jobs d !! uuid (given d)))) eqn:Hi; cbn in Hb; [injection Hb as _ <-; by apply moved_same|].
  destruct (existsb _ _); [injection Hb as _ <-; by apply moved_same|]. apply bind_Some in Hb as (u & d4 & [_ ->]%put_jobs_Some & [= _ <-]).
  apply bool_decide_eq_false_1, eq_None_not_Some in Hi. split; cbn [jobs set_jobs set_given]; intros k x Hx.
  - exists x. rewrite lookup_insert_ne by congruence. split; [done|apply move_refl].
  - apply lookup_insert_Some in Hx as [[_ <-]|[_ Hx]]; [by right|left; by exists x].
Qed.

Lemma still_ret {A} (a : A) : still (mret a : Tx A).
Proof. by intros d x d' [= _ <-]. Qed.
Lemma still_read : still read.
Proof. by intros d x d' [= _ <-]. Qed.
Lemma still_rollback {A} : still (rollback : Tx A).
Proof. by intros d x d' [=]. Qed.
Lemma still_uuid : still randomUUID.
Proof. by intros d x d' [= _ <-]. Qed.
Lemma still_write f : (forall d, jobs (f d) = jobs d) -> still (write f).
Proof. intros Hf d x d' [= _ <-]. apply Hf. Qed.
Lemma still_domain f : still (domain f).
Proof. intros d x d'. unfold domain. destruct (f _); [|done]. by intros [= _ <-]. Qed.
Lemma still_attempt i n tok w : still (insert_attempt i n tok w).
Proof. intros d x d' (d1 & d2 & [= <- <-] & E)%bind_Some. destruct (_ || _); [done|]. by injection E as _ <-. Qed.
Lemma still_bind {A B} (m : Tx A) (f : A -> Tx B) : still m -> (forall a, still (f a)) -> still (m ≫= f).
Proof. intros Hm Hf d b d' (a & d1 & H1 & H2)%bind_Some. rewrite (Hf _ _ _ _ H2). by eapply Hm. Qed.
Lemma still_each {A} (f : A -> Tx unit) l : (forall a, still (f a)) -> still (each f l).
Proof. intros Hf. induction l as [|x l IH]; [apply still_ret|]. by apply still_bind. Qed.
Lemma still_diagnose t c l : still (diagnose t c l).
Proof.
  apply still_bind; [apply still_read|]. intros d. destruct (jobs d !! c_id c); [|apply still_ret]. destruct (negb _); [apply still_ret|].
  apply still_bind; [apply still_each; intros; apply still_domain|]. intros _. destruct (publishes _ _ _); [apply still_ret|apply still_rollback].
Qed.
Lemma add_queue_jobs q d : jobs (add_queue q d) = jobs d.
Proof. apply adds_queue. Qed.
End moves.

(** Go through a transaction; what is left are the updates and the transactions it is made of. *)
Ltac moves :=
  repeat match goal with
  | |- Moving _ _ => apply _
  | |- forall _, _ => intro
  | |- Moves _ _ (mret _) => apply Moves_still, still_ret
  | |- Moves _ _ read => apply Moves_still, still_read
  | |- Moves _ _ rollback => apply Moves_still, still_rollback
  | |- Moves _ _ randomUUID => apply Moves_still, still_uuid
  | |- Moves _ _ (domain _) => apply Moves_still, still_domain
  | |- Moves _ _ (insert_attempt _ _ _ _) => apply Moves_still, still_attempt
  | |- Moves _ _ (diagnose _ _ _) => apply Moves_still, still_diagnose
  | |- Moves _ _ (write _) => apply Moves_still; [apply _|apply still_write; intros ?; (done || apply add_queue_jobs || (by repeat case_match))]
  | |- Moves _ _ (_ ≫= _) => apply Moves_bind
  | |- Moves _ _ (each _ _) => apply Moves_each
  | |- Moves _ _ (sum_of _ _) => apply Moves_sum
  | |- Moves _ _ (finish_attempts _) => unfold finish_attempts
  | |- Moves _ _ (finish_attempt _ _ _ _) => unfold finish_attempt
  | |- Moves _ _ (settle_operation _ _ _ _) => unfold settle_operation
  | |- Moves _ _ (alter_run _ _) => unfold alter_run
  | |- Moves _ _ (with_queue _ _) => unfold with_queue
  | |- Moves _ _ (match ?x with _ => _ end) => destruct x eqn:?
  end.
(** The update, or the new row, that is left. *)
Ltac moves_row := first [apply Moves_update; [apply _|] | apply Moves_update1; [apply _|] | apply Moves_insert; [apply _|]].
