(* ===== verification/QueueAttempts.v ===== *)
(** * How often a job runs ([server/src/queue/store.ts])

    Along any run of the store's transactions, in any order, this counts three things that can be read
    off the operations and the rows: the times a job began to run ([starts]), the operations that asked
    for it again ([asks]: a request for its stage or its key, or a retry of its run or queue), and the
    times its own claim gave it back because something it needs was not there ([gives_back]).
    [attempts_bounded]: it began at most twice for each time it was asked for. *)

From S2P Require Import Prelude JsNumber JsString QueueRows QueueStore QueueInvariant QueueMoves.
From S2P Require OperationStore.
Local Open Scope Z_scope.

Section attempts.
Context `{Uuids, Texts}.

(** ** Who asks for a job *)

(** A request is for a job when it names its stage (run, item and task) or its key in its queue. *)
Definition names (r : QueueIntent) (j : Job) : bool :=
  (sql_eq (runId (place j)) (i_runId r) && sql_eq (itemKey (place j)) (i_itemKey r) && bool_decide (name (request j) = i_name r)) ||
  (bool_decide (queue (place j) = i_queue r) && sql_eq (dedupKey (place j)) (intent_key r)).
Definition named (rs : list QueueIntent) (j : Job) : bool := existsb (fun r => names r j) rs.

(** The requests an operation carries: those it is given, those its callbacks push, and the one recorded
    on the row it settles. *)
Definition recorded (d : Db) (i : string) : list QueueIntent := option_list (jobs d !! i ≫= latestPending).
Definition pushed_by (ads : list Adoption) : list QueueIntent :=
  concat (map (fun a => match a with Publish _ pushed => pushed | AdmitRun _ _ _ _ _ => [] end) ads).
Definition admitted_by (ads : list Adoption) : list QueueIntent :=
  concat (map (fun a => match a with Publish _ _ => [] | AdmitRun _ _ _ _ intents => intents end) ads).
Definition requests (o : Op) (d : Db) : list QueueIntent :=
  match o with
  | Enqueue intents _ | AdmitNewRun _ _ _ _ intents => intents
  | Followups run root followups => map (inherit run root) followups
  | Complete c followups ads =>
      map (inherit (c_runId c) (c_rootItemKey c)) (followups ++ pushed_by ads) ++ admitted_by ads ++ recorded d (c_id c)
  | Fail c _ _ _ => recorded d (c_id c)
  | CancelWaiting _ i => recorded d i
  | _ => []
  end.
(** A retry, by a person, of a job that has failed. *)
Definition retries (o : Op) (i : string) (j : Job) : bool :=
  match o with
  | RetryRun run => sql_eq (runId (place j)) (Some run) && includes (state j) [failed; blocked]
  | RetryFailed q only => bool_decide (queue (place j) = q) && bool_decide (state j = failed) &&
                          match only with Some k => String.eqb i k | None => true end
  | _ => false
  end.

(** ** What is counted of an operation at a row *)

Definition row_is (i : string) (d : Db) (P : Job -> bool) : bool := match jobs d !! i with Some j => P j | None => false end.
Definition asks (i : string) (t : Times) (o : Op) (d : Db) : bool := row_is i d (fun j => named (requests o d) j || retries o i j).
Definition gives_back (i : string) (t : Times) (o : Op) (d : Db) : bool :=
  match o with
  | Defer c _ => bool_decide (c_id c = i) && row_is i d (publishes (c_token c) (clock t 0))
  | _ => false
  end.
Definition starts (i : string) (t : Times) (o : Op) (d : Db) : bool :=
  negb (row_is i d is_active) && row_is i (perform t o d) is_active.

Definition after (l : list (Times * Op)) (d : Db) : Db := foldl (fun d to => perform to.1 to.2 d) d l.
(** How many operations of the run pass a test, each tested on the database it ran on. *)
Fixpoint counted (test : Times -> Op -> Db -> bool) (l : list (Times * Op)) (d : Db) : nat :=
  match l with
  | [] => 0
  | (t, o) :: l => (if test t o d then 1 else 0) + counted test l (perform t o d)
  end%nat.

(** ** Rows under a transaction that carries requests *)

Definition who (j : Job) : string * option string * option string * option string * string :=
  (queue (place j), dedupKey (place j), runId (place j), itemKey (place j), name (request j)).
Lemma names_who r j j' : who j' = who j -> names r j' = names r j.
Proof. intros [= E1 E2 E3 E4 E5]. unfold names. by rewrite E1, E2, E3, E4, E5. Qed.
Lemma named_who rs j j' : who j' = who j -> named rs j' = named rs j.
Proof. intros E. unfold named. induction rs as [|r rs IH]; cbn; [done|]. by rewrite IH, (names_who r j j'). Qed.

(** A row that is not named keeps who it is and where its retries are counted from; none starts. *)
Definition carries (rs : list QueueIntent) (_ : string) (j j' : Job) : Prop :=
  attempt j' = attempt j /\ (state j' = active -> state j = active) /\
  ((who j' = who j /\ retryBaseAttempt j' = retryBaseAttempt j) \/ named rs j = true).
Definition unstarted (_ : string) (j : Job) : Prop := attempt j = 0 /\ state j <> active.
#[export] Instance carries_moving rs : Moving (carries rs) unstarted.
Proof.
  split; [by split; [|split; [|left]]| |].
  - intros i a b c (A1 & A2 & A3) (B1 & B2 & B3). split; [congruence|]. split; [auto|].
    destruct A3 as [[W E]|]; [|by right]. rewrite (named_who _ _ _ W) in B3. destruct B3 as [[W' E']|]; [left|by right]. split; congruence.
  - intros i a b [A1 A2] (B1 & B2 & _). split; [congruence|auto].
Qed.

Lemma carries_keep rs i j j' : attempt j' = attempt j -> (state j' = active -> state j = active) -> who j' = who j ->
  retryBaseAttempt j' = retryBaseAttempt j -> carries rs i j j'.
Proof. intros. split; [done|]. split; [done|]. by left. Qed.
Ltac keep := by intros; repeat match goal with
  | H : when _ _ = Some _ |- _ => apply when_some in H as [_ ->] | H : Some _ = Some _ |- _ => injection H as <- end; apply carries_keep.

Lemma rearm_names t rs intent : (forall j, names intent j = true -> named rs j = true) -> Moves (carries rs) unstarted (rearmRunStage t intent).
Proof.
  intros Hr. unfold rearmRunStage. moves. moves_row. intros i j j' [E ->]%when_some. split; [done|]. split; [done|]. right.
  apply Hr. unfold rearmable in E. unfold names. to_prop. apply orb_true_iff. left. rewrite !andb_true_iff, bool_decide_eq_true. auto.
Qed.

Lemma existing_names d intent i j : truthy (intent_key intent) = true -> existing_job d (i_queue intent) (default "" (intent_key intent)) = Some (i, j) ->
  jobs d !! i = Some j /\ names intent j = true.
Proof.
  intros Ht [Hin E]%List.find_some. apply list_elem_of_In, elem_of_map_to_list in Hin. split; [done|]. cbn in E.
  unfold names. apply orb_true_iff. right. destruct (intent_key intent) as [k|]; [|done]. cbn in E. to_prop. by rewrite bool_decide_eq_true_2, andb_true_iff.
Qed.

(** A request that finds no job of its key: a new row, or the stage of its run put back. *)
Lemma fresh_moves t rs intent : (forall j, names intent j = true -> named rs j = true) ->
  Moves (carries rs) unstarted (inserted ← insert_job t intent;
    if (inserted : bool) then mret 1%nat
    else if truthy (i_runId intent) && truthy (i_itemKey intent) then
      again ← rearmRunStage t intent; mret (if (again : bool) then 1%nat else 0%nat)
    else mret 0%nat).
Proof. intros Hr. unfold insert_job. moves; [by moves_row|by apply rearm_names]. Qed.

Lemma intent_moves t rs intent : (forall j, names intent j = true -> named rs j = true) -> Moves (carries rs) unstarted (insert_intent t intent).
Proof.
  intros Hr d a d'. unfold insert_intent. rewrite read_bind. destruct (truthy (intent_key intent)) eqn:Hk.
  1: destruct (existing_job _ _ _) as [[i j]|] eqn:Hx.
  - apply existing_names in Hx as [Hj Hn]; [|done]. apply Hr in Hn. assert (forall f (n : nat),
      (forall x y, f x = Some y -> attempt y = attempt x /\ state y = state x) ->
      (_ ← update_job i f; mret n) d = Some (a, d') -> moved (carries rs) unstarted d d') as Hup.
    { intros f n Hf (x & d1 & E & [= _ <-])%bind_Some. apply update_job_Some in E as [(_ & -> & _)|(x1 & y & Hx1 & E & _ & -> & _)].
      - by apply moved_same; [apply _|].
      - apply moved_insert with (j := x1); [apply _|done|]. destruct (Hf _ _ E) as [E1 E2]. split; [done|]. rewrite E2. split; [done|].
        right. by replace x1 with j by congruence. }
    unfold coalesce. destruct (keepLastIfActive _); [|intros [= _ <-]; by apply moved_same; [apply _|]].
    destruct (_ || _); [apply Hup; by intros x y [= <-]|]. destruct (negb _); [|intros [= _ <-]; by apply moved_same; [apply _|]].
    rewrite read_bind. apply Hup. by intros x y [= <-].
  - by apply fresh_moves.
  - by apply fresh_moves.
Qed.

Lemma enqueue_moves t rs intents live : (forall r j, r ∈ intents -> names r j = true -> named rs j = true) ->
  Moves (carries rs) unstarted (enqueue t intents live).
Proof.
  intros Hr. unfold enqueue, insertBatch. moves. apply intent_moves. intros j. apply Hr. eapply (elem_of_chunks QUEUE_BATCH); [unfold QUEUE_BATCH; lia|eauto].
Qed.

Lemma named_in rs r j : r ∈ rs -> names r j = true -> named rs j = true.
Proof. intros Hin Hn. apply existsb_exists. exists r. by rewrite <- list_elem_of_In. Qed.

Lemma schedule_moves t rs i latest b : (forall r j, latest = Some r -> names r j = true -> named rs j = true) ->
  Moves (carries rs) unstarted (scheduleLatest t i latest b).
Proof.
  intros Hr. unfold scheduleLatest, schedule_row. destruct latest as [r|]; moves; try moves_row.
  - intros j j' [E ->]%when_some. split; [done|]. split; [done|]. right. apply (Hr r); [done|].
    unfold latest_stage in E. unfold names. to_prop. apply orb_true_iff. left. rewrite !andb_true_iff, bool_decide_eq_true. auto.
  - apply enqueue_moves. intros x j ->%list_elem_of_singleton Hn. by apply (Hr r).
  - keep.
Qed.

Lemma admit_moves t rs id k h dirty intents : (forall r j, r ∈ intents -> names r j = true -> named rs j = true) ->
  Moves (carries rs) unstarted (admitRun t id k h dirty intents).
Proof. intros Hr. unfold admitRun, insert_run. moves; by apply enqueue_moves. Qed.

Lemma adopt_pushed t ads d pushed d' : adopt t ads d = Some (pushed, d') -> pushed = pushed_by ads.
Proof.
  revert d pushed d'. induction ads as [|a ads IH]; intros d pushed d'; cbn [adopt]; [by intros [= <- _]|].
  intros (p & d1 & H1 & (more & d2 & ->%IH & [= <- _])%bind_Some)%bind_Some. change (pushed_by (a :: ads)) with
    (match a with Publish _ pushed => pushed | AdmitRun _ _ _ _ _ => [] end ++ pushed_by ads). f_equal.
  destruct a as [effect l|]; cbn [adopt_one] in H1; by apply bind_Some in H1 as (u & d3 & _ & [= <- _]).
Qed.
Lemma adopt_moves t rs ads : (forall r j, r ∈ admitted_by ads -> names r j = true -> named rs j = true) ->
  Moves (carries rs) unstarted (adopt t ads).
Proof.
  induction ads as [|a ads IH]; intros Hr; cbn [adopt]; moves.
  - destruct a as [effect l|id k h dirty intents]; cbn [adopt_one]; moves. apply admit_moves. intros r j Hin. apply Hr.
    unfold admitted_by. cbn [map concat]. apply elem_of_app. by left.
  - apply IH. intros r j Hin. apply Hr. unfold admitted_by. cbn [map concat]. apply elem_of_app. by right.
Qed.

Lemma complete_moves t c fs ads d b d' : complete t c fs ads d = Some (b, d') ->
  moved (carries (requests (Complete c fs ads) d)) unstarted d d'.
Proof.
  set (rs := requests _ _). unfold complete. rewrite read_bind. destruct (jobs d !! c_id c) as [job|] eqn:Hj; [|intros [= _ <-]; by apply moved_same; [apply _|]].
  destruct (negb _); [intros [= _ <-]; by apply moved_same; [apply _|]|].
  intros (pushed & d1 & H1 & H2)%bind_Some. pose proof (adopt_pushed _ _ _ _ _ H1) as ->.
  assert (forall r j, r ∈ map (inherit (c_runId c) (c_rootItemKey c)) (fs ++ pushed_by ads) ++ admitted_by ads ++ recorded d (c_id c) ->
    names r j = true -> named rs j = true) as Hr by (intros r j; apply named_in).
  eapply moved_trans; [apply _| |].
  - eapply (adopt_moves t rs ads); [|exact H1]. intros r j Hin. apply Hr. rewrite !elem_of_app. auto.
  - revert H2. set (rest := update_job _ _ ≫= _). assert (Moves (carries rs) unstarted rest) as Hm; [|by apply Hm]. subst rest. moves.
    + moves_row. keep.
    + apply enqueue_moves. intros r y Hin. apply Hr. rewrite !elem_of_app. auto.
    + apply schedule_moves. intros r y Hl. apply Hr. rewrite !elem_of_app. right; right. unfold recorded. rewrite Hj. cbn. rewrite Hl. left.
Qed.
Lemma settle_moves t rs parents : Moves (carries rs) unstarted (settleDependencies t parents).
Proof. unfold settleDependencies. moves. moves_row. keep. Qed.

Lemma failed_carries t rs i a wc r j : carries rs i j (failed_job t a wc r j).
Proof. apply carries_keep; try done. cbn. unfold failed_state. repeat case_match; done. Qed.

Lemma after_failing_moves t rs c o r u a wc op row : (forall x j, latestPending row = Some x -> names x j = true -> named rs j = true) ->
  Moves (carries rs) unstarted (after_failing t c o r u a wc op row).
Proof.
  intros Hr. unfold after_failing. moves; try apply settle_moves; [by moves_row; keep|by apply schedule_moves].
Qed.

Lemma fail_moves t c r diag o d b d' : fail t c r diag o d = Some (b, d') -> moved (carries (recorded d (c_id c))) unstarted d d'.
Proof.
  set (rs := recorded _ _). unfold fail. rewrite read_bind. destruct (jobs d !! c_id c) as [job|] eqn:Hj; [|intros [= _ <-]; by apply moved_same; [apply _|]].
  cbv zeta. do 2 (destruct (_ : bool); [intros [= _ <-]; by apply moved_same; [apply _|]|]). destruct (_ : bool).
  { set (m := update_job _ _ ≫= _). assert (Moves (carries rs) unstarted m) as Hm; [|by apply Hm]. subst m. moves. moves_row. keep. }
  intros (go & d1 & H1 & H2)%bind_Some.
  assert (still (match diag with Some l => if negb (not_stopped job) then mret true else diagnose t c l | None => mret true end)) as Hq.
  { destruct diag; [|apply still_ret]. destruct (negb _); [apply still_ret|apply still_diagnose]. }
  apply Hq in H1. eapply moved_trans; [apply _|apply moved_same; [apply _|exact H1]|]. destruct go; [|injection H2 as _ <-; by apply moved_same; [apply _|]].
  apply bind_Some in H2 as (row & d2 & H2 & H3).
  destruct (update_job_Some _ _ _ _ _ H2) as [(-> & -> & _)|(x & y & Hx & [_ ->]%when_some & -> & -> & _)].
  { injection H3 as _ <-. by apply moved_same; [apply _|]. }
  eapply moved_trans; [apply _|eapply moved_insert; [apply _|exact Hx|apply failed_carries]|].
  apply bind_Some in H3 as (u & d3 & H3 & [= _ <-]). eapply after_failing_moves; [|exact H3]. cbn [failed_job latestPending]. intros r' z Hl.
  apply named_in. unfold rs, recorded. rewrite Hj. replace job with x by congruence. cbn. rewrite Hl. left.
Qed.

Lemma cancel_moves t rs q states about : Moves (carries rs) unstarted (cancel t q states about).
Proof. unfold cancel. moves; [moves_row; keep|apply settle_moves]. Qed.

Lemma restored_carries t rs d i j : carries rs i j (restored_job t d i j).
Proof. apply carries_keep; try done. cbn. unfold restored_state. repeat case_match; done. Qed.
Lemma rehold_carries t rs h i j j' : rehold t h j = Some j' -> carries rs i j j'.
Proof. unfold rehold. destruct (negb (unclaimed j)); [done|]. destruct (held_by _ _); keep. Qed.

(** Every operation but the claim, the deferral and the two retries; first those that carry no request. *)
Definition plain (o : Op) : bool :=
  match o with Claim _ _ _ _ _ | Defer _ _ | RetryRun _ | RetryFailed _ _ => false | _ => true end.
Definition bare (o : Op) : bool :=
  match o with Enqueue _ _ | AdmitNewRun _ _ _ _ _ | Complete _ _ _ | Followups _ _ _ | Fail _ _ _ _ | CancelWaiting _ _ => false | _ => plain o end.
Lemma bare_moves t o rs : bare o = true -> Moves (carries rs) unstarted (run_op t o).
Proof.
  intros Hp. destruct o; try done; cbn [run_op];
    unfold initialize, createRun, insert_run, insertSelectionPage, finishEnumeration, startNow, heartbeat, progress, wakeDeferred, deadlines,
      lose_workers, setConcurrency, pause, setSchedule, recordStoppedAttempt, recordStoppedWorker, setRunHolds, releaseRun, apply_holds,
      move_cursor, clear, cancelQueued, resetQueueAfterRestore, finishRun, insert_selected; moves;
    try apply cancel_moves; try (moves_row; keep).
  - by moves_row.
  - moves_row. intros i j j'. destruct (includes i _); [apply rehold_carries|done].
  - moves_row. intros i j j' [_ ->]%when_some. apply restored_carries.
Qed.
Lemma plain_moves t o d u d' : plain o = true -> run_op t o d = Some (u, d') -> moved (carries (requests o d)) unstarted d d'.
Proof.
  intros Hp. destruct (bare o) eqn:Hb; [by apply (bare_moves t o (requests o d))|]. destruct o; try done; cbn [run_op requests];
    intros (x & d1 & E & [= _ <-])%bind_Some.
  - eapply enqueue_moves; [|exact E]. intros r j. apply named_in.
  - eapply admit_moves; [|exact E]. intros r j. apply named_in.
  - by eapply fail_moves in E.
  - by eapply complete_moves in E.
  - eapply enqueue_moves; [|exact E]. intros r j. apply named_in.
  - by eapply fail_moves in E.
Qed.
(** ** The other operations *)

Definition claims_row (_ : string) (j j' : Job) : Prop :=
  j' = j \/ (unclaimed j = true /\ state j' = active /\ attempt j' = attempt j + 1 /\ retryBaseAttempt j' = retryBaseAttempt j).
Definition no_row (_ : string) (_ : Job) : Prop := False.
#[export] Instance claims_moving : Moving claims_row no_row.
Proof.
  split; [by left| |done]. intros i a b c [->|A] [->|B]; [by left|by right|by right|].
  destruct A as (_ & A & _), B as ([B|B]%unclaimed_states & _); congruence.
Qed.
Lemma claim_moves t q w n busy locked : Moves claims_row no_row (claim t q w n busy locked).
Proof.
  unfold claim, claimPending, claim_one. moves; moves_row; intros j j' [Hu ->]%when_some; by right.
Qed.

Definition retries_row (o : Op) (i : string) (j j' : Job) : Prop :=
  j' = j \/ (retries o i j = true /\ attempt j' = attempt j /\ state j' <> active).
#[export] Instance retries_moving o : Moving (retries_row o) no_row.
Proof.
  split; [by left| |done]. intros i a b c [->|(A1 & A2 & A3)] [->|(B1 & B2 & B3)]; [by left|by right|by right|].
  right. split; [done|]. split; [congruence|done].
Qed.
Lemma listed_row (m : gmap string Job) (p : string * Job -> bool) n i j :
  includes i (take n (map fst (List.filter p (map_to_list m)))) = true -> m !! i = Some j -> p (i, j) = true.
Proof.
  intros Hi Hj. apply includes_true in Hi. assert (i ∈ map fst (List.filter p (map_to_list m))) as Hin.
  { rewrite <- (take_drop n (map fst (List.filter p (map_to_list m)))), elem_of_app. by left. }
  apply list_elem_of_fmap in Hin as ([k x] & -> & [Hk Hx]%elem_of_filter_b). apply elem_of_map_to_list in Hk. cbn in Hj. by replace j with x by congruence.
Qed.

Lemma retryFailed_moves t q only : Moves (retries_row (RetryFailed q only)) no_row (retryFailed t q only).
Proof.
  unfold retryFailed. intros d n d'. rewrite read_bind. intros (rows & d1 & H1 & H2)%bind_Some. eapply moved_trans; [apply _| |].
  - eapply moved_update; [apply _| |exact H1]. intros i j j' Hj [Hi ->]%when_some. apply listed_row with (j := j) in Hi; [|done].
    right. split; [|done]. cbn [fst snd] in Hi. unfold retryable, retry_candidate in Hi. cbn [retries]. to_prop.
    rewrite !andb_true_iff, !bool_decide_eq_true. done.
  - revert H2. set (m := each _ _ ≫= _). assert (Moves (retries_row (RetryFailed q only)) no_row m) as Hm; [|by apply Hm]. subst m. moves.
Qed.
Definition all_eligible (m : gmap string Job) (run : string) (l : list string) : Prop :=
  forall i j, i ∈ l -> m !! i = Some j -> eligible m run i j = true.
Lemma eligible_filter m run (p : string * Job -> bool) :
  (forall i j, m !! i = Some j -> p (i, j) = true -> eligible m run i j = true) -> all_eligible m run (map fst (List.filter p (map_to_list m))).
Proof.
  intros Hp i j ([k x] & -> & [Hk Hx]%elem_of_filter_b)%list_elem_of_fmap Hj. apply elem_of_map_to_list in Hk. cbn in Hj |- *.
  replace j with x by congruence. by apply Hp.
Qed.
Lemma recoverable_eligible m run : all_eligible m run (recoverable m run).
Proof.
  unfold recoverable. assert (all_eligible m run (recoverable_first m run)) as H1.
  { apply eligible_filter. cbn. intros i j _ Hp. by to_prop. }
  revert H1. generalize (recoverable_first m run), (size m). intros l n. revert l. induction n as [|n IH]; intros l Hl; cbn [repeat_next]; [done|].
  apply IH, eligible_filter. cbn. intros i j Hj [Hi%includes_true|Hp]%orb_true_iff; [by apply Hl|by to_prop].
Qed.
Lemma retryRun_moves t run : Moves (retries_row (RetryRun run)) no_row (retryRun t run).
Proof.
  unfold retryRun. moves. generalize (S (size (jobs a))) as fuel. intros fuel. induction fuel as [|fuel IH]; cbn [retry_pages]; moves; [|apply IH].
  unfold retry_page. intros d n d'. rewrite read_bind. intros (rows & d1 & H1 & [= _ <-])%bind_Some.
  eapply moved_update; [apply _| |exact H1]. intros i j j' Hj [Hi ->]%when_some. apply includes_true in Hi.
  assert (i ∈ recoverable (jobs d) run) as Hin by (rewrite <- (take_drop RETRY_PAGE (recoverable (jobs d) run)), elem_of_app; by left).
  apply (recoverable_eligible (jobs d) run i j Hin) in Hj. right. split; [|done]. unfold eligible in Hj. cbn [retries]. to_prop. by rewrite andb_true_iff.
Qed.

(** ** What one operation does to a row *)

Definition row_effect (i : string) (t : Times) (o : Op) (d : Db) (j j' : Job) : Prop :=
  (attempt j' = attempt j /\ (state j' = active -> state j = active) /\
     (retryBaseAttempt j' = retryBaseAttempt j \/ (gives_back i t o d = true /\ retryBaseAttempt j' = retryBaseAttempt j + 1) \/ asks i t o d = true)) \/
  (state j <> active /\ state j' = active /\ attempt j' = attempt j + 1 /\ retryBaseAttempt j' = retryBaseAttempt j).
Lemma effect_same i t o d j : row_effect i t o d j j.
Proof. left. auto. Qed.

Lemma defer_effect t c r i d d' j b : defer t c r d = Some (b, d') -> jobs d !! i = Some j ->
  exists j', jobs d' !! i = Some j' /\ row_effect i t (Defer c r) d j j'.
Proof.
  intros (row & d1 & H1 & H2)%bind_Some Hj.
  assert (jobs d' = jobs d1) as -> by (destruct row; [|by injection H2 as _ <-]; by apply bind_Some in H2 as (u & d2 & [= _ <-] & [= _ <-])).
  apply update_job_Some in H1 as [(_ & -> & _)|(x & y & Hx & [Hp ->]%when_some & _ & -> & _)]; [exists j; split; [done|apply effect_same]|].
  cbn [jobs set_jobs]. destruct (decide (c_id c = i)) as [<-|]; [|exists j; rewrite lookup_insert_ne by done; split; [done|apply effect_same]].
  rewrite lookup_insert_eq. eexists. split; [done|]. replace j with x by congruence. left. split; [done|]. split; [done|]. right. left. split; [|done].
  cbn [gives_back]. unfold row_is. by rewrite bool_decide_eq_true_2, Hx.
Qed.

(** What an operation that writes rows [T]-wise does, and the rows it adds. *)
Lemma op_effect i t o d u d' : run_op t o d = Some (u, d') ->
  (forall j, jobs d !! i = Some j -> exists j', jobs d' !! i = Some j' /\ row_effect i t o d j j') /\
  (forall j', jobs d !! i = None -> jobs d' !! i = Some j' -> unstarted i j').
Proof.
  intros E. destruct (plain o) eqn:Hp.
  { destruct (plain_moves _ _ _ _ _ Hp E) as [M1 M2]. split; [|intros j' Hn [[? ?]|]%M2; [congruence|done]].
    intros j Hj. destruct (M1 i j Hj) as (j' & Hj' & A & B & C). exists j'. split; [done|]. left. split; [done|]. split; [done|].
    destruct C as [[_ C]|C]; [by left|right; right]. unfold asks, row_is. by rewrite Hj, C. }
  destruct o; try done; cbn [run_op] in E; apply bind_Some in E as (x & d1 & E & [= _ <-]).
  - destruct (claim_moves _ _ _ _ _ _ _ _ _ E) as [M1 M2]. split; [|intros j' Hn [[? ?]|[]]%M2; congruence].
    intros j Hj. destruct (M1 i j Hj) as (j' & Hj' & [->|(A & B & C)]); [exists j; split; [done|apply effect_same]|].
    exists j'. split; [done|]. right. split; [|done]. apply unclaimed_states in A as [A|A]; congruence.
  - split; [intros j; by eapply defer_effect|]. intros j' Hn Hj'. exfalso. apply bind_Some in E as (row & d2 & H1 & H2).
    assert (jobs d1 = jobs d2) as Hd by (destruct row; [|by injection H2 as _ <-]; by apply bind_Some in H2 as (u' & d3 & [= _ <-] & [= _ <-])).
    rewrite Hd in Hj'. apply update_job_Some in H1 as [(_ & -> & _)|(x1 & y & Hx & _ & _ & -> & _)]; [congruence|]. cbn [jobs set_jobs] in Hj'.
    apply lookup_insert_Some in Hj' as [[<- _]|[_ ?]]; congruence.
  - destruct (retryRun_moves _ _ _ _ _ E) as [M1 M2]. split; [|intros j' Hn [[? ?]|[]]%M2; congruence].
    intros j Hj. destruct (M1 i j Hj) as (j' & Hj' & [->|(A & B & C)]); [exists j; split; [done|apply effect_same]|].
    exists j'. split; [done|]. left. split; [done|]. split; [done|]. right. right. unfold asks, row_is. by rewrite Hj, A, orb_true_r.
  - destruct (retryFailed_moves _ _ _ _ _ _ E) as [M1 M2]. split; [|intros j' Hn [[? ?]|[]]%M2; congruence].
    intros j Hj. destruct (M1 i j Hj) as (j' & Hj' & [->|(A & B & C)]); [exists j; split; [done|apply effect_same]|].
    exists j'. split; [done|]. left. split; [done|]. split; [done|]. right. right. unfold asks, row_is. by rewrite Hj, A, orb_true_r.
Qed.
Lemma perform_effect i t o d j : jobs d !! i = Some j -> exists j', jobs (perform t o d) !! i = Some j' /\ row_effect i t o d j j'.
Proof.
  intros Hj. unfold perform, commit. destruct (run_op t o d) as [[u d']|] eqn:E; [by apply (op_effect i t o d u d' E)|].
  exists j. split; [done|apply effect_same].
Qed.
Lemma perform_keeps t o d : sound d -> sound (perform t o d).
Proof. intros Hs. eapply steps_sound; [|exact Hs]. apply reaches_steps. apply rtc_once. by exists t, o. Qed.

(** ** Along a run *)

Lemma counted_row i l : forall d j j', sound d -> jobs d !! i = Some j -> jobs (after l d) !! i = Some j' ->
  attempt j' = attempt j + Z.of_nat (counted (starts i) l d) /\
  retryBaseAttempt j' <= retryBaseAttempt j + 2 * Z.of_nat (counted (asks i) l d) + Z.of_nat (counted (gives_back i) l d).
Proof.
  induction l as [|[t o] l IH]; intros d j j' Hs Hj Hj'; [cbn in *; replace j' with j by congruence; lia|].
  destruct (perform_effect i t o d j Hj) as (x & Hx & He). pose proof (perform_keeps t o d Hs) as Hs'.
  destruct (IH _ x j' Hs' Hx Hj') as [A B]. destruct (Hs i j Hj) as [_ (B1 & _)], (Hs' i x Hx) as [_ (B2 & _)]. cbn [counted].
  assert (starts i t o d = negb (is_active j) && is_active x) as Est by (unfold starts, row_is; by rewrite Hj, Hx).
  unfold is_active in Est. destruct He as [(E1 & E2 & E3)|(E1 & E2 & E3 & E4)].
  - replace (starts i t o d) with false by (rewrite Est; repeat case_bool_decide; naive_solver). rewrite A, E1. split; [lia|].
    destruct E3 as [E3|[[-> E3]|E3]]; [| |rewrite E3]; destruct (asks i t o d), (gives_back i t o d); lia.
  - rewrite Est, (bool_decide_eq_false_2 _ E1), (bool_decide_eq_true_2 _ E2). cbn. rewrite A, E3. split; [lia|].
    destruct (asks i t o d), (gives_back i t o d); lia.
Qed.

Lemma absent_row i P t o d : jobs d !! i = None -> row_is i d P = false /\ asks i t o d = false /\ gives_back i t o d = false.
Proof. intros Hn. unfold asks, gives_back, row_is. rewrite Hn. split; [done|]. split; [done|]. destruct o; try done. by rewrite andb_false_r. Qed.
Lemma counted_new i l : forall d j', sound d -> jobs d !! i = None -> jobs (after l d) !! i = Some j' ->
  attempt j' = Z.of_nat (counted (starts i) l d) /\
  retryBaseAttempt j' <= 2 * Z.of_nat (counted (asks i) l d) + Z.of_nat (counted (gives_back i) l d).
Proof.
  induction l as [|[t o] l IH]; intros d j' Hs Hn Hj'; [cbn in Hj'; congruence|].
  pose proof (perform_keeps t o d Hs) as Hs'. cbn [counted]. destruct (absent_row i is_active t o d Hn) as (Ea & -> & ->).
  unfold starts at 1. rewrite Ea. cbn [negb andb]. destruct (jobs (perform t o d) !! i) as [x|] eqn:Hx.
  - assert (unstarted i x) as [U1 U2].
    { unfold perform, commit in Hx. destruct (run_op t o d) as [[u d']|] eqn:E; [by apply (op_effect i t o d u d' E)|cbn in Hx; congruence]. }
    destruct (counted_row i l _ x j' Hs' Hx Hj') as [A B]. destruct (Hs' i x Hx) as [_ (B1 & _)]. unfold row_is, is_active at 1. rewrite Hx.
    rewrite (bool_decide_eq_false_2 _ U2). lia.
  - unfold row_is at 1. rewrite Hx. by apply IH.
Qed.

(** C6. Each time a job is asked for it runs at most twice: along any operations of the store, in any order
    and at any times, a job begins to run at most twice for each operation that carries a request for it
    or retries it (and twice for its first request, or what was left when the run of operations began),
    besides the times its claim gave it back because something it needs was not there.  Its attempt
    number counts exactly the times it began. *)
Theorem attempts_bounded (d : Db) (l : list (Times * Op)) (i : string) (j' : Job) (start : sound d) (now_ : jobs (after l d) !! i = Some j') :
  attempt j' = match jobs d !! i with Some j => attempt j | None => 0 end + Z.of_nat (counted (starts i) l d) /\
  (counted (starts i) l d <= 2 * (counted (asks i) l d + 1) + counted (gives_back i) l d)%nat.
Proof.
  assert (budget j') as (B & _).
  { enough (sound (after l d)) as Hs by by apply (Hs i). clear now_. revert d start. induction l as [|[t o] l IH]; intros d Hs; [done|].
    by apply IH, perform_keeps. }
  destruct (jobs d !! i) as [j|] eqn:Hj.
  - destruct (counted_row i l d j j' start Hj now_) as [A C]. destruct (start i j Hj) as [_ (B' & _)]. split; [done|lia].
  - destruct (counted_new i l d j' start Hj now_) as [A C]. split; [lia|lia].
Qed.
End attempts.

(** ** The queue of [QueueInvariant] *)

Definition at_times (l : list (Z * Op)) : list (Times * Op) := map (fun to => (at_ to.1, to.2)) l.
(** The thumbnails of an item fail twice, are asked for once more by hand, and fail twice again. *)
Definition retried_ops : list (Z * Op) :=
  sample_ops ++ [(80001, RetryFailed queue_ None); (80002, Claim queue_ "w1" 5 false unlocked);
    (80003, Fail (sample_claim "3") "Handler returned Failed" None no_options); (120000, Claim queue_ "w1" 5 false unlocked);
    (120001, Fail (sample_claim "4") "Handler returned Failed" None no_options)].
Lemma retried_failed : exists j, jobs (after (at_times retried_ops) empty_db) !! "0"%string = Some j /\ state j = failed /\ attempt j = 4.
Proof. apply row_where. vm_compute. split; reflexivity. Qed.
Example retried_counts :
  (counted (starts "0") (at_times retried_ops) empty_db, counted (asks "0") (at_times retried_ops) empty_db,
   counted (gives_back "0") (at_times retried_ops) empty_db) = (4%nat, 1%nat, 0%nat).
Proof. vm_compute. reflexivity. Qed.

Lemma attempts_bounded_witness : exists j', jobs (after (at_times retried_ops) empty_db) !! "0"%string = Some j' /\ attempt j' = 4 /\
  (counted (starts "0") (at_times retried_ops) empty_db <=
   2 * (counted (asks "0") (at_times retried_ops) empty_db + 1) + counted (gives_back "0") (at_times retried_ops) empty_db)%nat.
Proof.
  destruct retried_failed as (j' & Hj & _ & Ha). exists j'. split; [exact Hj|]. split; [exact Ha|].
  exact (proj2 (attempts_bounded empty_db (at_times retried_ops) "0" j' (proj1 empty_sound) Hj)).
Defined.
