(* ===== verification/QueueDependency.v ===== *)
(** * Jobs that wait on other jobs ([server/src/queue/store.ts], [settleDependencies])

    A follow-up waits until its parent has completed.  When a job ends any other way, the jobs that wait
    on it, and those that wait on them, are blocked in the same transaction.  [waits_on] says which, and
    [blocked_by_spec] that the query finds exactly those; [nothing_waits_on_failure] is that no operation
    but the restore leaves a job waiting on one that it failed, or blocks one that does not depend on a failure. *)

From stdpp Require Import relations.
From S2P Require Import Prelude JsNumber JsString QueueRows QueueStore QueueInvariant QueueMoves.
From S2P Require OperationStore.
Local Open Scope Z_scope.

(** A waiting job under a parent of the list that has failed, or under one that is to be blocked. *)
Inductive waits_on (m : gmap string Job) (parents : list string) : string -> Prop :=
| w_first c j k p (row : m !! c = Some j) (waiting_ : unclaimed j = true) (under_ : parentId (place j) = Some k)
    (listed : k ∈ parents) (parent : m !! k = Some p) (failed_ : in_failed p = true) : waits_on m parents c
| w_next c j k (row : m !! c = Some j) (waiting_ : unclaimed j = true) (under_ : parentId (place j) = Some k)
    (above : waits_on m parents k) : waits_on m parents c.

Lemma elem_of_rows (m : gmap string Job) (p : string * Job -> bool) i :
  i ∈ map fst (List.filter p (map_to_list m)) <-> exists j, m !! i = Some j /\ p (i, j) = true.
Proof.
  rewrite list_elem_of_fmap. split.
  - intros ([k j] & -> & [Hk Hp]%elem_of_filter_b). apply elem_of_map_to_list in Hk. eauto.
  - intros (j & Hj & Hp). exists (i, j). split; [done|]. apply elem_of_filter_b. by rewrite elem_of_map_to_list.
Qed.

Lemma under_true p j : under p j = true <-> unclaimed j = true /\ exists k, parentId (place j) = Some k /\ p k = true.
Proof. unfold under. rewrite andb_true_iff. destruct (parentId _); naive_solver. Qed.

Lemma elem_blocked_first m parents c : c ∈ blocked_first m parents <->
  exists j k p, m !! c = Some j /\ unclaimed j = true /\ parentId (place j) = Some k /\ k ∈ parents /\ m !! k = Some p /\ in_failed p = true.
Proof.
  unfold blocked_first. rewrite elem_of_rows. split.
  - intros (j & Hj & [Hu (k & Hk & [Hin Hp]%andb_true_iff)]%under_true). destruct (m !! k) as [p|] eqn:E; [|done].
    apply includes_true in Hin. naive_solver.
  - intros (j & k & p & Hj & Hu & Hk & Hin & Hp & Hf). exists j. split; [done|]. apply under_true. split; [done|]. exists k. split; [done|].
    by rewrite Hp, Hf, andb_true_r, includes_true.
Qed.
Lemma elem_blocked_next m l c : c ∈ blocked_next m l <->
  exists j, m !! c = Some j /\ (c ∈ l \/ (unclaimed j = true /\ exists k, parentId (place j) = Some k /\ k ∈ l)).
Proof.
  unfold blocked_next. rewrite elem_of_rows. split; intros (j & Hj & Hc); exists j; (split; [done|]); cbn [fst snd] in *.
  - apply orb_true_iff in Hc as [?%includes_true|[Hu (k & Hk & Hin%includes_true)]%under_true]; eauto.
  - apply orb_true_iff. rewrite includes_true, under_true. destruct Hc as [?|(Hu & k & Hk & Hin)]; [by left|right].
    split; [done|]. exists k. by rewrite includes_true.
Qed.

Lemma first_known m parents y : y ∈ blocked_first m parents -> y ∈ map fst (map_to_list m).
Proof.
  intros (j & k & p & Hj & _)%elem_blocked_first. apply list_elem_of_fmap. exists (y, j). split; [done|]. by apply elem_of_map_to_list.
Qed.
Lemma known_row (m : gmap string Job) y : y ∈ map fst (map_to_list m) <-> is_Some (m !! y).
Proof.
  rewrite list_elem_of_fmap. split; [intros ([k j] & -> & Hk); apply elem_of_map_to_list in Hk; by exists j|].
  intros [j Hj]. exists (y, j). split; [done|]. by apply elem_of_map_to_list.
Qed.

(** The turns of the query reach everything they can. *)
Lemma blocked_fixed m parents x : x ∈ blocked_next m (blocked_by m parents) -> x ∈ blocked_by m parents.
Proof.
  apply (repeat_next_fixed (blocked_next m) (map fst (map_to_list m))).
  - intros l y Hl Hy. apply elem_blocked_next. destruct (proj1 (known_row m y) (Hl y Hy)) as [j Hj]. eauto.
  - intros l y _ (j & Hj & _)%elem_blocked_next. apply known_row. by exists j.
  - intros l k Hlk y. rewrite !elem_blocked_next. by setoid_rewrite Hlk.
  - apply first_known.
  - rewrite length_map. by rewrite length_map_to_list.
Qed.
Lemma blocked_keeps m parents x : x ∈ blocked_first m parents -> x ∈ blocked_by m parents.
Proof.
  apply (repeat_next_adds (blocked_next m) (map fst (map_to_list m))); [| |apply first_known].
  - intros l y Hl Hy. apply elem_blocked_next. destruct (proj1 (known_row m y) (Hl y Hy)) as [j Hj]. eauto.
  - intros l y _ (j & Hj & _)%elem_blocked_next. apply known_row. by exists j.
Qed.

(** The query finds exactly the jobs that wait on a failure. *)
Lemma blocked_by_spec m parents c : c ∈ blocked_by m parents <-> waits_on m parents c.
Proof.
  split.
  - unfold blocked_by. generalize (size m) as n. intros n.
    assert (forall l, (forall x, x ∈ l -> waits_on m parents x) -> forall x, x ∈ repeat_next (blocked_next m) n l -> waits_on m parents x) as H.
    { induction n as [|n IH]; intros l Hl x; cbn [repeat_next]; [apply Hl|]. apply IH. intros y.
      intros (j & Hj & [?|(Hu & k & Hk & Hin)])%elem_blocked_next; [by apply Hl|]. by eapply w_next; [..|apply Hl]. }
    apply H. intros x (j & k & p & Hj & Hu & Hk & Hin & Hp & Hf)%elem_blocked_first. by eapply w_first.
  - induction 1 as [c j k p|c j k Hj Hu Hk _ IH]; [|].
    + apply blocked_keeps, elem_blocked_first. by exists j, k, p.
    + apply blocked_fixed, elem_blocked_next. exists j. split; [done|]. right. split; [done|]. by exists k.
Qed.

(** ** After a failure *)

Section dependency.
Context `{Uuids, Texts}.

(** A waiting job's parent exists and has not failed, or is one of [except]. *)
Definition good_parent (except : list string) (d : Db) (k : string) : Prop :=
  exists p, jobs d !! k = Some p /\ (in_failed p = false \/ k ∈ except).

Lemma settle_rows t parents d u d' : settleDependencies t parents d = Some (u, d') -> forall i,
  jobs d' !! i = (fun j => if bool_decide (i ∈ blocked_by (jobs d) parents) then block t j else j) <$> jobs d !! i.
Proof.
  assert (blocked_by (jobs d) [] = []) as Hnil.
  { destruct (blocked_by (jobs d) []) as [|x l] eqn:E; [done|]. exfalso. assert (x ∈ blocked_by (jobs d) []) as Hx by (rewrite E; left).
    apply blocked_by_spec in Hx. clear E. induction Hx as [? ? ? ? ? ? ? Hin|]; [by apply not_elem_of_nil in Hin|done]. }
  unfold settleDependencies. destruct parents as [|p ps].
  { intros [= <- <-] i. rewrite Hnil. destruct (jobs d !! i); cbn [fmap option_fmap option_map]; [|done].
    by case_bool_decide as Hb; [apply not_elem_of_nil in Hb|]. }
  rewrite read_bind. intros (rows & d1 & (-> & _ & _)%update_jobs_Some & [= _ <-])%bind_Some i. cbn [jobs set_jobs].
  rewrite map_lookup_imap. destruct (jobs d !! i) as [j|]; cbn; [|done]. unfold when, includes. by destruct (bool_decide _).
Qed.

(** Exactly the jobs that wait on a failure are blocked; every other row stays. *)
Lemma settle_exact t parents d u d' i j : settleDependencies t parents d = Some (u, d') -> jobs d !! i = Some j ->
  (waits_on (jobs d) parents i -> jobs d' !! i = Some (block t j)) /\ (~ waits_on (jobs d) parents i -> jobs d' !! i = Some j).
Proof.
  intros Hs Hj. rewrite (settle_rows _ _ _ _ _ Hs), Hj, <- blocked_by_spec. cbn.
  split; intros; [by rewrite bool_decide_eq_true_2|by rewrite bool_decide_eq_false_2].
Qed.

(** *** Rows that fail

    Besides the rows of [X] none fails, and none is blocked. *)
Definition fails (X : list string) (i : string) (j j' : Job) : Prop :=
  (in_failed j' = true -> in_failed j = true \/ i ∈ X) /\ (state j' = blocked -> state j = blocked).
Definition unfailed (X : list string) (i : string) (j : Job) : Prop := (in_failed j = true -> i ∈ X) /\ state j <> blocked.
#[export] Instance fails_moving X : Moving (fails X) (unfailed X).
Proof.
  split; [by split; [left|]| |].
  - intros i a b c [A1 A2] [B1 B2]. split; [|auto]. intros [?|?]%B1; [auto|by right].
  - intros i a b [A1 A2] [B1 B2]. split; [|auto]. intros [?|?]%B1; auto.
Qed.
Lemma fails_more X Y d d' : (forall i, i ∈ X -> i ∈ Y) -> moved (fails X) (unfailed X) d d' -> moved (fails Y) (unfailed Y) d d'.
Proof.
  intros Hxy [M1 M2]. split.
  - intros i j (j' & Hj & A & B)%M1. exists j'. split; [done|]. split; [|done]. intros [?|?]%A; auto.
  - intros i j' [?|[A B]]%M2; [by left|right]. split; auto.
Qed.
Lemma never_fails X i j j' : in_failed j' = false -> fails X i j j'.
Proof. intros E. split; [congruence|]. intros Hb. unfold in_failed in E. by rewrite Hb in E. Qed.
Lemma same_state X i j j' : state j' = state j -> fails X i j j'.
Proof. intros E. unfold fails, in_failed. rewrite E. auto. Qed.
Ltac calm := intros; repeat match goal with
  | H : when _ _ = Some _ |- _ => apply when_some in H as [_ ->] | H : Some _ = Some _ |- _ => injection H as <- end;
  first [by apply same_state | by apply never_fails].

Lemma enqueue_calm t X intents live : Moves (fails X) (unfailed X) (enqueue t intents live).
Proof.
  unfold enqueue, insertBatch, insert_intent, coalesce, insert_job, rearmRunStage. moves; moves_row; try calm.
  intros i. split; [done|done].
Qed.
Lemma schedule_row_calm t X i latest : Moves (fails X) (unfailed X) (schedule_row t i latest).
Proof. unfold schedule_row. moves; [moves_row; calm|apply enqueue_calm]. Qed.
Lemma scheduled_calm t X i latest : Moves (fails X) (unfailed X) (scheduleLatest t i latest true).
Proof. unfold scheduleLatest. moves; [apply schedule_row_calm|done]. Qed.
Lemma admit_calm t X id k h dirty intents : Moves (fails X) (unfailed X) (admitRun t id k h dirty intents).
Proof. unfold admitRun, insert_run. moves; apply enqueue_calm. Qed.
Lemma adopt_calm t X ads : Moves (fails X) (unfailed X) (adopt t ads).
Proof. induction ads as [|[] ads IH]; cbn [adopt adopt_one]; moves; try done. apply admit_calm. Qed.
Lemma complete_calm t X c fs ads : Moves (fails X) (unfailed X) (complete t c fs ads).
Proof. unfold complete. moves; [apply adopt_calm|moves_row; calm|apply enqueue_calm|apply scheduled_calm]. Qed.
Lemma rehold_calm t X h i j j' : rehold t h j = Some j' -> fails X i j j'.
Proof. unfold rehold. destruct (negb (unclaimed j)); [done|]. destruct (held_by _ _); calm. Qed.

(** Every operation but those that fail, cancel or block, and the restore. *)
Definition calm_op (o : Op) : bool :=
  match o with Fail _ _ _ _ | CancelWaiting _ _ | Clear _ _ _ | CancelQueued _ _ | RestoreReset => false | _ => true end.
Lemma op_calm t o : calm_op o = true -> Moves (fails []) (unfailed []) (run_op t o).
Proof.
  intros Ho. destruct o; try done; cbn [run_op];
    unfold initialize, createRun, insert_run, insertSelectionPage, finishEnumeration, startNow, heartbeat, progress, wakeDeferred, defer, deadlines,
      lose_workers, setConcurrency, pause, setSchedule, recordStoppedAttempt, recordStoppedWorker, setRunHolds, releaseRun, apply_holds,
      move_cursor, finishRun, insert_selected, enqueueFollowups, retryRun, retryFailed, claim, claimPending, claim_one; moves;
    try first [apply enqueue_calm|apply admit_calm|apply complete_calm]; try (moves_row; calm).
  - moves_row. intros i. split; done.
  - moves_row. intros i j j'. destruct (includes i _); [apply rehold_calm|done].
  - generalize (S (size (jobs a))) as fuel. intros fuel. induction fuel as [|fuel IH]; cbn [retry_pages]; unfold retry_page; moves; [moves_row; calm|apply IH].
Qed.

(** *** What an operation leaves *)

Definition failed_in (d : Db) (k : string) : Prop := exists p, jobs d !! k = Some p /\ in_failed p = true.
Definition waits_under (d : Db) (i k : string) : Prop :=
  exists j, jobs d !! i = Some j /\ unclaimed j = true /\ parentId (place j) = Some k.
Definition blocked_in (d : Db) (i : string) : Prop := exists j, jobs d !! i = Some j /\ state j = blocked.
Definition depends_on (d : Db) (i k : string) : Prop := exists j, jobs d !! i = Some j /\ parentId (place j) = Some k.

(** Nothing waits under a job that failed meanwhile, and what was blocked meanwhile is under a failed job. *)
Definition settles_all (d d' : Db) : Prop :=
  (forall i k, waits_under d' i k -> failed_in d' k -> failed_in d k) /\
  (forall i, blocked_in d' i -> blocked_in d i \/ exists k, depends_on d' i k /\ failed_in d' k).

Lemma moved_failed X d d' k : moved (fails X) (unfailed X) d d' -> failed_in d' k -> failed_in d k \/ k ∈ X.
Proof.
  intros [M1 M2] (p' & Hp' & Hf). destruct (M2 k p' Hp') as [[p Hp]|[N _]]; [|right; by apply N].
  destruct (M1 k p Hp) as (x & Hx & A & _). replace x with p' in * by congruence. destruct (A Hf) as [?|?]; [left; by exists p|by right].
Qed.
Lemma moved_blocked X d d' i : moved (fails X) (unfailed X) d d' -> blocked_in d' i -> blocked_in d i.
Proof.
  intros [M1 M2] (j' & Hj' & Hb). destruct (M2 i j' Hj') as [[j Hj]|[_ N]]; [|done].
  destruct (M1 i j Hj) as (x & Hx & _ & B). replace x with j' in * by congruence. exists j. auto.
Qed.
Lemma calm_settles d d' : moved (fails []) (unfailed []) d d' -> settles_all d d'.
Proof.
  intros M. split.
  - intros i k _ Hf. by destruct (moved_failed _ _ _ _ M Hf) as [|?%not_elem_of_nil].
  - intros i Hb. left. by eapply moved_blocked.
Qed.

(** The settlement that ends a transaction blocks what waits on its failures, and nothing else. *)
Lemma settlement_settles t X d d1 u d' : moved (fails X) (unfailed X) d d1 -> settleDependencies t X d1 = Some (u, d') -> settles_all d d'.
Proof.
  intros M Hs. assert (forall i j', jobs d' !! i = Some j' -> exists j, jobs d1 !! i = Some j /\
    ((waits_on (jobs d1) X i /\ j' = block t j) \/ (~ waits_on (jobs d1) X i /\ j' = j))) as Hrow.
  { intros i j'. rewrite (settle_rows _ _ _ _ _ Hs). destruct (jobs d1 !! i) as [j|]; [|done]. intros [= <-]. exists j. split; [done|].
    case_bool_decide as E; rewrite blocked_by_spec in E; auto. }
  split.
  - intros i k (j' & Hj' & Hu & Hk) (p' & Hp' & Hf). destruct (Hrow i j' Hj') as (j & Hj & [[_ ->]|[Hi ->]]); [done|].
    destruct (Hrow k p' Hp') as (p & Hp & [[Hw _]|[_ ->]]); [by destruct Hi; eapply w_next|].
    destruct (moved_failed X d d1 k M) as [|Hin]; [by exists p|done|]. destruct Hi. by eapply w_first.
  - intros i (j' & Hj' & Hb). destruct (Hrow i j' Hj') as (j & Hj & [[Hw ->]|[_ ->]]); [right|left].
    + destruct Hw as [i x k p Hx _ Hk Hin Hp Hf|i x k Hx _ Hk Hw]; replace x with j in * by congruence; exists k; (split; [by exists (block t j)|]).
      * destruct (settle_exact t X d1 u d' k p Hs Hp) as [A B]. unfold failed_in. rewrite (settle_rows _ _ _ _ _ Hs), Hp. cbn.
        destruct (bool_decide _); eauto.
      * destruct (jobs d1 !! k) as [p|] eqn:Hp; [|by inversion Hw; congruence].
        destruct (settle_exact t X d1 u d' k p Hs Hp) as [A _]. exists (block t p). auto.
    + eapply moved_blocked; [exact M|]. by exists j.
Qed.

(** The rows an update fails are the ones it answers with. *)
Lemma update_fails X f d rows d' : (forall i j j', f i j = Some j' -> state j' <> blocked) -> update_jobs f d = Some (rows, d') ->
  moved (fails (X ++ map fst rows)) (unfailed (X ++ map fst rows)) d d'.
Proof.
  intros Hf E. eapply moved_update; [apply _| |exact E]. intros i j j' Hj Hfi. split; [|intros Hb; by destruct (Hf _ _ _ Hfi)].
  intros _. right. apply elem_of_app. right. apply update_jobs_Some in E as (_ & -> & _). apply list_elem_of_fmap. exists (i, j'). split; [done|].
  apply list_elem_of_omap. exists (i, j). rewrite elem_of_map_to_list. cbn [fst snd]. by rewrite Hfi.
Qed.

Lemma cancel_settles t q states about d u d' : cancel t q states about d = Some (u, d') -> settles_all d d'.
Proof.
  intros (rows & d1 & H1 & H2)%bind_Some. eapply settlement_settles; [|exact H2].
  eapply (update_fails []); [|exact H1]. by intros i j j' [_ ->]%when_some.
Qed.

Lemma schedule_fails t i latest d more d' : scheduleLatest t i latest false d = Some (more, d') -> moved (fails (i :: more)) (unfailed (i :: more)) d d'.
Proof.
  unfold scheduleLatest. destruct latest as [l|]; [|intros [= _ <-]; by apply moved_same; [apply _|]].
  intros (u & d1 & H1 & H2)%bind_Some. eapply moved_trans; [apply _|by eapply schedule_row_calm|].
  destruct (_ || _); [injection H2 as _ <-; by apply moved_same; [apply _|]|]. apply bind_Some in H2 as (rows & d2 & H2 & [= <- <-]).
  eapply (update_fails [i]); [|exact H2]. by intros k j j' [_ ->]%when_some.
Qed.

Lemma after_failing_settles t c o r u a wc op row d0 d x d' :
  moved (fails (if bool_decide (state row = pending) then [] else [c_id c])) (unfailed (if bool_decide (state row = pending) then [] else [c_id c])) d0 d ->
  after_failing t c o r u a wc op row d = Some (x, d') -> settles_all d0 d'.
Proof.
  intros M. unfold after_failing. intros (u1 & d1 & H1 & (u2 & d2 & H2 & (u3 & d3 & H3 & H4)%bind_Some)%bind_Some)%bind_Some.
  assert (jobs d3 = jobs d) as Hj.
  { transitivity (jobs d2); [|transitivity (jobs d1)].
    - destruct op as [op|]; [destruct (String.eqb op "")|]; injection H3 as _ <-; done.
    - eapply still_each; [|exact H2]. intros f. apply still_domain.
    - by injection H1 as _ <-. }
  destruct (bool_decide (state row = pending)) eqn:Hp.
  { injection H4 as _ <-. apply calm_settles. eapply moved_trans; [apply _|exact M|by apply moved_same; [apply _|]]. }
  apply bind_Some in H4 as (u4 & d4 & H4 & (more & d5 & H5 & H6)%bind_Some). eapply settlement_settles; [|exact H6].
  eapply moved_trans; [apply _|eapply fails_more; [|exact M]; intros i ->%list_elem_of_singleton; left|].
  eapply moved_trans; [apply _|by apply moved_same; [apply _|exact Hj]|].
  eapply moved_trans; [apply _| |].
  - eapply (Moves_update1 (fails (c_id c :: more)) (unfailed (c_id c :: more)) (c_id c)); [|exact H4]. intros j j' [= <-]. by apply same_state.
  - destruct a; [injection H5 as <- <-; by apply moved_same; [apply _|]|]. by eapply schedule_fails.
Qed.

Lemma fail_settles t c r diag o d b d' : fail t c r diag o d = Some (b, d') -> settles_all d d'.
Proof.
  assert (settles_all d d) as Hd by (apply calm_settles; by apply moved_same; [apply _|]).
  unfold fail. rewrite read_bind. destruct (jobs d !! c_id c) as [job|]; [|by intros [= _ <-]].
  cbv zeta. do 2 (destruct (_ : bool); [by intros [= _ <-]|]). destruct (_ : bool).
  { set (m := update_job _ _ ≫= _). assert (Moves (fails []) (unfailed []) m) as Hm; [|intros E; by apply calm_settles, (Hm _ _ _ E)].
    subst m. moves. moves_row. calm. }
  intros (go & d1 & H1 & H2)%bind_Some.
  assert (still (match diag with Some l => if negb (not_stopped job) then mret true else diagnose t c l | None => mret true end)) as Hq.
  { destruct diag; [|apply still_ret]. destruct (negb _); [apply still_ret|apply still_diagnose]. }
  apply Hq in H1. assert (settles_all d d1) as Hd1 by (apply calm_settles; by apply moved_same; [apply _|]). destruct go; [|by injection H2 as _ <-].
  apply bind_Some in H2 as (row & d2 & H2 & H3).
  destruct (update_job_Some _ _ _ _ _ H2) as [(-> & -> & _)|(x & y & Hx & [_ ->]%when_some & -> & -> & _)]; [by injection H3 as _ <-|].
  apply bind_Some in H3 as (u & d3 & H3 & [= _ <-]). eapply after_failing_settles; [|exact H3].
  eapply moved_trans; [apply _|by apply moved_same; [apply _|exact H1]|]. eapply moved_insert; [apply _|exact Hx|]. split.
  - intros Hf. right. case_bool_decide as E; [|left]. unfold in_failed in Hf. cbn in Hf, E. by rewrite E in Hf.
  - cbn. unfold failed_state. by repeat case_match.
Qed.

(** C9. No operation but the restore leaves a job waiting on one that it failed: whatever the rows, every waiting job whose parent has
    failed afterwards had a parent that had failed before, so an operation that fails, cancels or blocks jobs blocks with them everything
    that waits on them, through any number of steps and whatever else it puts back or asks for.  And it blocks nothing else: a job that it
    blocked has a parent that has failed.  The restore is the exception ([restore_leaves_waiting]). *)
Theorem nothing_waits_on_failure (t : Times) (d : Db) (o : Op) (not_restore : o <> RestoreReset) :
  (forall i k, waits_under (perform t o d) i k -> failed_in (perform t o d) k -> failed_in d k) /\
  (forall i, blocked_in (perform t o d) i -> blocked_in d i \/ exists k, depends_on (perform t o d) i k /\ failed_in (perform t o d) k).
Proof.
  change (settles_all d (perform t o d)). unfold perform, commit. destruct (run_op t o d) as [[u d']|] eqn:E; cbn [snd].
  2: { apply calm_settles. by apply moved_same; [apply _|]. }
  destruct (calm_op o) eqn:Hc; [apply calm_settles; by apply (op_calm t o Hc d u)|].
  destruct o; try done; cbn [run_op] in E.
  - apply bind_Some in E as (b & d1 & E & [= _ <-]). by eapply fail_settles.
  - apply bind_Some in E as (b & d1 & E & [= _ <-]). by eapply fail_settles.
  - unfold clear in E. destruct entityIds as [[|k ids]|]; [|by eapply cancel_settles..]. injection E as _ <-.
    apply calm_settles. by apply moved_same; [apply _|].
  - by eapply cancel_settles.
Qed.
End dependency.

(** ** A chain of jobs *)

(** A job that may not be repeated, one that waits on it, and one that waits on that. *)
Definition link (item : string) (safe : bool) (parent : option string) : QueueIntent :=
  mkIntent queue_ "LibraryScanRun" (JObj [("id", JStr item)]%string) None safe false 1000 None None None parent.
Definition chain_ops : list (Z * Op) :=
  [(1, Initialize [queue_] (Some "w1"%string));
   (2, Enqueue [link "a" false None; link "b" true (Some "0"%string); link "c" true (Some "1"%string)] None);
   (3, Claim queue_ "w1" 5 false unlocked)].
Definition chain_db : Db := run_ops chain_ops empty_db.
Definition chain_fails : Op := Fail (sample_claim "3") "Handler returned Failed" None no_options.

Example chain_blocked : (fun i => state <$> jobs (perform (at_ 4) chain_fails chain_db) !! i) <$> ["0"; "1"; "2"]%string =
  [Some needs_attention; Some blocked; Some blocked].
Proof. vm_compute. reflexivity. Qed.
Lemma chain_failed : failed_in (perform (at_ 4) chain_fails chain_db) "0".
Proof. apply row_where. vm_compute. reflexivity. Qed.
Lemma chain_ran : ~ failed_in chain_db "0".
Proof.
  intros (p & Hp & Hf). assert ((in_failed <$> jobs chain_db !! "0"%string) = Some false) as E by (vm_compute; reflexivity).
  rewrite Hp in E. cbn in E. congruence.
Qed.

Lemma nothing_waits_on_failure_witness : failed_in (perform (at_ 4) chain_fails chain_db) "0" /\ forall i, ~ waits_under (perform (at_ 4) chain_fails chain_db) i "0".
Proof.
  split; [exact chain_failed|]. intros i Hw.
  exact (chain_ran (proj1 (nothing_waits_on_failure (at_ 4) chain_db chain_fails ltac:(discriminate)) i "0"%string Hw chain_failed)).
Defined.

(** A restore settles the job that was running and leaves what waits on it waiting: nothing blocks it, and
    no claim takes it. *)
Lemma restore_leaves_waiting : failed_in (perform (at_ 4) RestoreReset chain_db) "0" /\ waits_under (perform (at_ 4) RestoreReset chain_db) "1" "0".
Proof. split; apply row_where; vm_compute; repeat split; reflexivity. Qed.
