(* ===== verification/QueueClaiming.v ===== *)
(** * Which jobs a claim takes ([server/src/queue/store.ts], [claim])

    A claim takes the jobs started by hand first, whatever the queue's switches, then the available ones
    in order while the queue is open and below its concurrency.  [queue_claim_exact] says what it takes and
    leaves. *)

From stdpp Require Import relations.
From S2P Require Import Prelude JsNumber JsString QueueRows QueueStore QueueInvariant QueueDependency.
From S2P Require OperationStore.
Local Open Scope Z_scope.

Lemma cmp_available_antisym a b : cmp_available b a = - cmp_available a b.
Proof. destruct a, b; cbn; lia. Qed.
#[export] Instance cmp_available_comparator : Comparator cmp_available.
Proof. split; [intros [] []|intros [] [] []]; cbn; lia. Qed.
#[export] Instance claim_order_comparator : Comparator claim_order.
Proof.
  apply or_cmp_comparator; [intros x y; apply cmp_available_antisym|apply (key_comparator (fun a : string * Job => availableAt a.2)), _|].
  apply or_cmp_comparator; [intros x y; lia|apply (difference_comparator (fun a : string * Job => createdAt (place a.2)))|].
  apply (key_comparator (fun a : string * Job => a.1)), _.
Qed.

Section claiming.
Context `{Uuids, Texts}.

(** What one statement may take from a database. *)
Definition takes (t : Times) (d : Db) (queue_ : string) (byHand : bool) (locked : string -> bool) (i : string) (j : Job) : Prop :=
  jobs d !! i = Some j /\ claimable t d queue_ byHand j = true /\ locked i = false.

Lemma elem_claim_page t d q limit byHand locked i j : (i, j) ∈ claim_page t d q limit byHand locked -> takes t d q byHand locked i j.
Proof.
  intros Hin%elem_of_take_sub. apply sort_by_elem, elem_of_filter_b in Hin as [Hin Hp]. cbn in Hp. to_prop. apply elem_of_map_to_list in Hin.
  done.
Qed.
Lemma claim_page_NoDup t d q limit byHand locked : NoDup (map fst (claim_page t d q limit byHand locked)).
Proof.
  unfold claim_page. rewrite <- firstn_map. apply NoDup_take_sub. rewrite (sort_by_perm claim_order). apply NoDup_map_filter_b, NoDup_fst_map_to_list.
Qed.
Lemma claim_page_length t d q limit byHand locked : (length (claim_page t d q limit byHand locked) <= limit)%nat.
Proof. unfold claim_page. rewrite length_take. lia. Qed.

(** No job is passed over for a later one. *)
Lemma claim_page_first t d q limit byHand locked i j k jk : takes t d q byHand locked k jk -> (i, j) ∈ claim_page t d q limit byHand locked ->
  (k, jk) ∈ claim_page t d q limit byHand locked \/ claim_order (i, j) (k, jk) <= 0.
Proof.
  intros (Hk & Hc & Hl) Hi. apply (take_sorted claim_order) with (l := sort_by claim_order _); [apply sort_by_sorted, _|exact Hi|].
  apply sort_by_elem, elem_of_filter_b. cbn. rewrite Hc, Hl. split; [by apply elem_of_map_to_list|done].
Qed.
(** A page that is not full is everything. *)
Lemma claim_page_all t d q limit byHand locked k jk : takes t d q byHand locked k jk ->
  (length (claim_page t d q limit byHand locked) < limit)%nat -> (k, jk) ∈ claim_page t d q limit byHand locked.
Proof.
  intros (Hk & Hc & Hl) Hlen. unfold claim_page in *. rewrite length_take in Hlen. rewrite take_ge by lia.
  apply sort_by_elem, elem_of_filter_b. cbn. rewrite Hc, Hl. split; [by apply elem_of_map_to_list|done].
Qed.

(** *** The rows after a page is claimed *)

Definition claims_row (t : Times) (worker : string) (j j' : Job) : Prop := exists tok, j' = claimed t worker tok j.

Lemma claim_one_rows t w i d u d' : claim_one t w i d = Some (u, d') ->
  queues d' = queues d /\ runs d' = runs d /\ forall k, match jobs d !! k with
    | Some j => exists j', jobs d' !! k = Some j' /\ (if bool_decide (k = i) && unclaimed j then claims_row t w j j' else j' = j)
    | None => jobs d' !! k = None end.
Proof.
  intros (tok & d1 & [= <- <-] & (r & d2 & Hb & H2)%bind_Some)%bind_Some.
  assert (forall d3, match r with Some j => insert_attempt i (attempt j) (uuid (given d)) w | None => mret tt end d2 = Some (u, d3) ->
    jobs d3 = jobs d2 /\ queues d3 = queues d2 /\ runs d3 = runs d2) as Hatt.
  { intros d3. destruct r; [|by intros [= <- <-]]. intros (d4 & d5 & [= <- <-] & H3)%bind_Some. destruct (_ || _); [done|]. by injection H3 as <- <-. }
  destruct (Hatt _ H2) as (Hj & Hq & Hr). rewrite Hj, Hq, Hr.
  apply update_job_Some in Hb as [(-> & -> & Hn)|(j & j' & Hi & [Hu ->]%when_some & -> & -> & _)]; cbn [jobs queues runs set_jobs set_given] in *.
  - split; [done|]. split; [done|]. intros k. destruct (jobs d !! k) as [x|] eqn:Hk; [|done]. exists x. split; [done|].
    case_bool_decide as E; [|done]. subst k. rewrite Hk in Hn. cbn in Hn. by destruct (unclaimed x).
  - split; [done|]. split; [done|]. intros k. destruct (decide (i = k)) as [<-|Hne].
    + rewrite Hi, lookup_insert_eq. eexists. split; [done|]. rewrite bool_decide_eq_true_2, Hu by done. by eexists.
    + rewrite lookup_insert_ne by done. destruct (jobs d !! k) as [x|]; [|done]. exists x. split; [done|].
      by rewrite bool_decide_eq_false_2.
Qed.

Lemma claim_rows t w page d u d' : each (claim_one t w) page d = Some (u, d') -> NoDup page ->
  queues d' = queues d /\ runs d' = runs d /\ forall k, match jobs d !! k with
    | Some j => exists j', jobs d' !! k = Some j' /\ (if bool_decide (k ∈ page) && unclaimed j then claims_row t w j j' else j' = j)
    | None => jobs d' !! k = None end.
Proof.
  revert d; induction page as [|i page IH]; intros d.
  { intros [= _ <-] _. split; [done|]. split; [done|]. intros k. destruct (jobs d !! k) as [j|]; [|done]. exists j. split; [done|].
    by rewrite bool_decide_eq_false_2 by apply not_elem_of_nil. }
  intros (u1 & d1 & H1 & H2)%bind_Some [Hi Hnd]%NoDup_cons. destruct (claim_one_rows _ _ _ _ _ _ H1) as (Hq1 & Hr1 & Hk1).
  destruct (IH d1 H2 Hnd) as (Hq2 & Hr2 & Hk2). split; [congruence|]. split; [congruence|]. intros k. specialize (Hk1 k). specialize (Hk2 k).
  destruct (jobs d !! k) as [j|]; [|by rewrite Hk1 in Hk2]. destruct Hk1 as (j1 & Hj1 & Hc1). rewrite Hj1 in Hk2.
  destruct Hk2 as (j2 & Hj2 & Hc2). exists j2. split; [done|]. destruct (decide (k = i)) as [->|Hne].
  - rewrite (bool_decide_eq_false_2 (i ∈ page)) in Hc2 by done. cbn in Hc2. subst j2. rewrite bool_decide_eq_true_2 in Hc1 by done.
    rewrite bool_decide_eq_true_2 by (by left). done.
  - rewrite (bool_decide_eq_false_2 (k = i)) in Hc1 by done. cbn in Hc1. subst j1.
    replace (bool_decide (k ∈ i :: page)) with (bool_decide (k ∈ page)); [done|]. apply bool_decide_ext. rewrite elem_of_cons. tauto.
Qed.

(** *** How many are running *)

Definition counts (q : string) (j : Job) : bool := bool_decide (queue (place j) = q) && is_active j.
Lemma claim_one_counts t w i d u d' j q : claim_one t w i d = Some (u, d') -> jobs d !! i = Some j -> unclaimed j = true -> queue (place j) = q ->
  active_count d' q = S (active_count d q).
Proof.
  intros (tok & d1 & [= <- <-] & (r & d2 & Hb & H2)%bind_Some)%bind_Some Hi Hu Hq.
  apply update_job_Some in Hb as [(-> & -> & Hn)|(x & j' & Hx & [_ ->]%when_some & -> & -> & _)]; cbn [jobs set_given] in *.
  { rewrite Hi in Hn. cbn in Hn. by rewrite Hu in Hn. }
  replace x with j in * by congruence. apply bind_Some in H2 as (d4 & d5 & [= <- <-] & H2). destruct (_ || _); [done|]. injection H2 as <- <-.
  unfold active_count. cbn [jobs set_attempts set_jobs set_given].
  pose proof (count_if_insert (counts q) (jobs d) i (claimed t w (uuid (given d)) j) j Hi) as Hc. unfold count_if, tally in Hc.
  assert (counts q j = false) as E1; [|assert (counts q (claimed t w (uuid (given d)) j) = true) as E2; [|rewrite E1, E2 in Hc; unfold counts in Hc; lia]].
  - unfold counts. apply unclaimed_states in Hu. unfold is_active. rewrite (bool_decide_eq_false_2 (state j = active)); [by rewrite andb_false_r|].
    destruct Hu; congruence.
  - unfold counts. cbn. by rewrite bool_decide_eq_true_2.
Qed.

Lemma claim_counts t w q page d u d' : each (claim_one t w) page d = Some (u, d') -> NoDup page ->
  (forall i, i ∈ page -> exists j, jobs d !! i = Some j /\ unclaimed j = true /\ queue (place j) = q) ->
  active_count d' q = (active_count d q + length page)%nat.
Proof.
  revert d; induction page as [|i page IH]; intros d; [intros [= _ <-] _ _; cbn; lia|].
  intros (u1 & d1 & H1 & H2)%bind_Some [Hi Hnd]%NoDup_cons Hall. destruct (Hall i ltac:(left)) as (j & Hj & Hu & Hq).
  rewrite (IH d1 H2 Hnd), (claim_one_counts _ _ _ _ _ _ _ _ H1 Hj Hu Hq); [cbn; lia|].
  intros k Hk. destruct (Hall k ltac:(by right)) as (jk & Hjk & Hc). destruct (claim_one_rows _ _ _ _ _ _ H1) as (_ & _ & Hrows).
  specialize (Hrows k). rewrite Hjk in Hrows. destruct Hrows as (x & Hx & Hcx). rewrite bool_decide_eq_false_2 in Hcx by congruence.
  cbn in Hcx. subst x. eauto.
Qed.

(** *** A claim *)

(** A page claimed: its jobs are taken, the others stay, and the order is kept. *)
Record page_claimed (t : Times) (q worker : string) (limit : nat) (byHand : bool) (locked : string -> bool) (d d' : Db) (ids : list string) : Prop := {
  pg_taken : forall i, i ∈ ids -> exists j j', takes t d q byHand locked i j /\ jobs d' !! i = Some j' /\ claims_row t worker j j';
  pg_rest : forall i, (i ∉ ids) -> jobs d' !! i = jobs d !! i;
  pg_NoDup : NoDup ids;
  pg_length : (length ids <= limit)%nat;
  pg_first : forall i j k jk, i ∈ ids -> jobs d !! i = Some j -> takes t d q byHand locked k jk -> k ∈ ids \/ claim_order (i, j) (k, jk) <= 0;
  pg_all : forall k jk, takes t d q byHand locked k jk -> (length ids < limit)%nat -> k ∈ ids;
  pg_count : active_count d' q = (active_count d q + length ids)%nat;
  pg_queues : queues d' = queues d
}.

Lemma claimable_parts t d q b j : claimable t d q b j = true -> queue (place j) = q /\ unclaimed j = true.
Proof. unfold claimable. intros. to_prop. done. Qed.

Lemma claimPending_page t q w limit b locked d ids d' : claimPending t q w limit b locked d = Some (ids, d') -> page_claimed t q w limit b locked d d' ids.
Proof.
  unfold claimPending. rewrite read_bind. intros (u & d1 & H1 & [= <- <-])%bind_Some.
  set (page := claim_page t d q limit b locked) in *. pose proof (claim_page_NoDup t d q limit b locked) as Hnd. fold page in Hnd.
  destruct (claim_rows _ _ _ _ _ _ H1 Hnd) as (Hq & _ & Hrows).
  assert (forall i, i ∈ map fst page -> exists j, takes t d q b locked i j) as Htakes.
  { intros i ([k j] & -> & Hin)%list_elem_of_fmap. exists j. by eapply elem_claim_page. }
  split; [| |done| | | | |done].
  - intros i Hi. destruct (Htakes i Hi) as (j & Ht). pose proof Ht as (Hj & Hc & _). destruct (claimable_parts _ _ _ _ _ Hc) as [_ Hu].
    specialize (Hrows i). rewrite Hj in Hrows. destruct Hrows as (j' & Hj' & Hr). rewrite bool_decide_eq_true_2, Hu in Hr by done.
    by exists j, j'.
  - intros i Hi. specialize (Hrows i). destruct (jobs d !! i) as [j|]; [|done]. destruct Hrows as (j' & Hj' & Hr).
    rewrite bool_decide_eq_false_2 in Hr by done. cbn in Hr. by subst j'.
  - rewrite length_map. apply claim_page_length.
  - intros i j k jk ([i' j'] & -> & Hin)%list_elem_of_fmap Hi Hk. pose proof (elem_claim_page _ _ _ _ _ _ _ _ Hin) as (Hi' & _).
    cbn in Hi. replace j with j' by congruence. destruct (claim_page_first _ _ _ _ _ _ _ _ _ _ Hk Hin) as [Hkin|]; [left|by right].
    apply list_elem_of_fmap. by exists (k, jk).
  - intros k jk Hk Hlen. rewrite length_map in Hlen. apply list_elem_of_fmap. exists (k, jk). split; [done|]. by apply claim_page_all.
  - erewrite (claim_counts _ _ q _ _ _ _ H1 Hnd); [done|]. intros i (j & Hj & Hc & _)%Htakes. destruct (claimable_parts _ _ _ _ _ Hc). eauto.
Qed.

(** Claiming takes nothing from, and adds nothing to, what else can be claimed. *)
Lemma takes_after t q w limit b b' locked d d1 ids k jk : page_claimed t q w limit b locked d d1 ids ->
  takes t d1 q b' locked k jk <-> takes t d q b' locked k jk /\ (k ∉ ids).
Proof.
  intros P. assert (forall x : Job, parent_done d1 x = parent_done d x) as Hpd.
  { intros x. unfold parent_done. destruct (parentId (place x)) as [p|]; [|done]. destruct (decide (p ∈ ids)) as [Hp|Hp]; [|by rewrite (pg_rest _ _ _ _ _ _ _ _ _ P)].
    destruct (pg_taken _ _ _ _ _ _ _ _ _ P p Hp) as (j & j' & (Hj & Hc & _) & Hj' & (tok & ->)). rewrite Hj, Hj'. cbn.
    destruct (claimable_parts _ _ _ _ _ Hc) as [_ Hu%unclaimed_states]. symmetry. apply bool_decide_eq_false. destruct Hu; congruence. }
  assert (forall x, claimable t d1 q b' x = claimable t d q b' x) as Hcl by (intros x; unfold claimable; by rewrite Hpd).
  unfold takes. rewrite Hcl. destruct (decide (k ∈ ids)) as [Hk|Hk].
  - split; [|tauto]. intros (H1 & H2 & _). destruct (pg_taken _ _ _ _ _ _ _ _ _ P k Hk) as (j & j' & _ & Hj' & (tok & ->)).
    exfalso. replace jk with (claimed t w tok j) in * by congruence. by destruct (claimable_parts _ _ _ _ _ H2) as [_ Hu].
  - rewrite (pg_rest _ _ _ _ _ _ _ _ _ P k Hk). tauto.
Qed.

(** Ready to run: not held, not asked to stop by a person, and under a parent that has completed. *)
Definition ready (d : Db) (j : Job) : Prop :=
  unclaimed j = true /\ availableAt j <> HELD /\ cancelled_ j = false /\
  forall p, parentId (place j) = Some p -> exists jp, jobs d !! p = Some jp /\ state jp = completed.
Lemma takes_ready t d q b locked i j : takes t d q b locked i j -> ready d j.
Proof.
  intros (_ & Hc & _). unfold claimable in Hc. to_prop. split; [done|]. split.
  { destruct b; to_prop; intros E; rewrite E in *; done. }
  split; [done|]. intros p Hp. unfold parent_done in *. rewrite Hp in *. destruct (jobs d !! p) as [jp|]; [|done].
  exists jp. split; [done|]. by to_prop.
Qed.

Definition open_ (t : Times) (config : Queue) : bool := negb (q_paused config || closed t config).
Definition most (maxClaims : nat) : nat := Nat.min QUEUE_BATCH maxClaims.

Lemma claim_pages t q w n locked config d ids d' : queues d !! q = Some config -> claim t q w n false locked d = Some (ids, d') ->
  exists hand d1, page_claimed t q w (most n) true locked d d1 hand /\
    ((ids = hand /\ d' = d1 /\ (open_ t config = false \/ (most n <= length hand)%nat \/ concurrency config <= Z.of_nat (active_count d1 q))) \/
     exists rest capacity, ids = hand ++ rest /\ open_ t config = true /\ page_claimed t q w capacity false locked d1 d' rest /\
       Z.of_nat capacity = Z.min (Z.of_nat (most n) - Z.of_nat (length hand)) (concurrency config - Z.of_nat (active_count d1 q))).
Proof.
  intros Hq. unfold claim. rewrite read_bind, Hq. intros (hand & d1 & H1%claimPending_page & H2)%bind_Some. exists hand, d1. split; [done|].
  unfold open_. destruct (q_paused config || closed t config) eqn:Ho; cbn [orb] in H2; [injection H2 as <- <-; by left; auto|].
  destruct (n <=? length hand)%nat eqn:Hn; [injection H2 as <- <-; left; apply Nat.leb_le in Hn; unfold most; split; [done|split; [done|right; left; lia]]|].
  rewrite read_bind in H2. cbv zeta in H2. pose proof (pg_length _ _ _ _ _ _ _ _ _ H1). apply Nat.leb_gt in Hn. unfold most in *.
  set (cap := Z.min _ _) in H2. assert (cap = Z.min (Z.of_nat (Nat.min QUEUE_BATCH n) - Z.of_nat (length hand)) (concurrency config - Z.of_nat (active_count d1 q))) as Hcap
    by (unfold cap; lia).
  destruct (cap <=? 0) eqn:Hc; to_prop.
  - injection H2 as <- <-. left. split; [done|]. split; [done|]. right. lia.
  - apply bind_Some in H2 as (rest & d2 & H2%claimPending_page & [= <- <-]). right. exists rest, (Z.to_nat cap). split; [done|]. split; [done|].
    split; [exact H2|lia].
Qed.

(** C8. What a claim takes: first the jobs started by hand, whatever the switches; then, while the queue is open, the available jobs in
    order up to its concurrency.  Every job taken was ready; none is passed over for a later one; a claim that leaves a ready job has no
    room; and the other rows stay as they are. *)
Theorem queue_claim_exact (t : Times) (q w : string) (n : nat) (locked : string -> bool) (config : Queue) (d d' : Db) (ids : list string)
  (known : queues d !! q = Some config) (ran : claim t q w n false locked d = Some (ids, d')) :
  exists hand rest, ids = hand ++ rest /\ NoDup ids /\ (length ids <= most n)%nat /\
    (forall i, i ∈ ids -> exists j j', takes t d q (bool_decide (i ∈ hand)) locked i j /\ ready d j /\ jobs d' !! i = Some j' /\ claims_row t w j j') /\
    (forall i, (i ∉ ids) -> jobs d' !! i = jobs d !! i) /\
    (forall i j k jk, i ∈ ids -> jobs d !! i = Some j -> takes t d q (bool_decide (i ∈ hand)) locked k jk -> k ∈ ids \/ claim_order (i, j) (k, jk) <= 0) /\
    (forall k jk, takes t d q true locked k jk -> k ∈ hand \/ length hand = most n) /\
    (rest <> [] -> open_ t config = true /\ Z.of_nat (active_count d' q) <= concurrency config) /\
    (open_ t config = true -> forall k jk, takes t d q false locked k jk ->
       k ∈ ids \/ length ids = most n \/ concurrency config <= Z.of_nat (active_count d' q)).
Proof.
  destruct (claim_pages _ _ _ _ _ _ _ _ _ known ran) as (hand & d1 & P1 & Hrest).
  assert (forall k jk, takes t d q true locked k jk -> k ∈ hand \/ length hand = most n) as Hhand.
  { intros k jk Hk. pose proof (pg_length _ _ _ _ _ _ _ _ _ P1). destruct (decide (length hand = most n)); [by right|left].
    eapply (pg_all _ _ _ _ _ _ _ _ _ P1); [exact Hk|lia]. }
  destruct Hrest as [(-> & -> & Hwhy)|(rest & cap & -> & Ho & P2 & Hcap)].
  - exists hand, []. rewrite app_nil_r. split; [done|]. split; [apply P1|]. split; [apply P1|]. split.
    { intros i Hi. destruct (pg_taken _ _ _ _ _ _ _ _ _ P1 i Hi) as (j & j' & Ht & Hj' & Hr). exists j, j'. rewrite bool_decide_eq_true_2 by done.
      split; [done|]. split; [by eapply takes_ready|done]. }
    split; [apply P1|]. split; [|split; [done|split; [done|]]].
    { intros i j k jk Hi. rewrite bool_decide_eq_true_2 by done. by apply P1. }
    intros Ho k jk Hk. pose proof (pg_length _ _ _ _ _ _ _ _ _ P1). destruct Hwhy as [?|[?|?]]; [congruence|right; left; lia|by right; right].
  - assert (forall i, i ∈ rest -> i ∉ hand) as Hdis.
    { intros i Hi. destruct (pg_taken _ _ _ _ _ _ _ _ _ P2 i Hi) as (j & j' & Ht & _). by apply (takes_after _ _ _ _ _ _ _ _ _ _ _ _ P1) in Ht as [_ ?]. }
    pose proof (pg_length _ _ _ _ _ _ _ _ _ P1). pose proof (pg_length _ _ _ _ _ _ _ _ _ P2). pose proof (pg_count _ _ _ _ _ _ _ _ _ P2) as Hcount.
    exists hand, rest. split; [done|]. split.
    { apply NoDup_app. split; [apply P1|]. split; [|apply P2]. intros i Hi Hi'. by apply (Hdis i). }
    split; [rewrite length_app; lia|]. split; [|split; [|split; [|split; [done|split]]]].
    + intros i [Hi|Hi]%elem_of_app.
      * destruct (pg_taken _ _ _ _ _ _ _ _ _ P1 i Hi) as (j & j' & Ht & Hj' & Hr). exists j, j'. rewrite bool_decide_eq_true_2 by done.
        split; [done|]. split; [by eapply takes_ready|]. split; [|done]. rewrite (pg_rest _ _ _ _ _ _ _ _ _ P2); [done|]. intros Hi'. by apply (Hdis i).
      * destruct (pg_taken _ _ _ _ _ _ _ _ _ P2 i Hi) as (j & j' & Ht & Hj' & Hr). exists j, j'.
        apply (takes_after _ _ _ _ _ _ _ _ _ _ _ _ P1) in Ht as [Ht Hn]. rewrite bool_decide_eq_false_2 by done.
        split; [done|]. split; [by eapply takes_ready|done].
    + intros i [Hi1 Hi2]%not_elem_of_app. rewrite (pg_rest _ _ _ _ _ _ _ _ _ P2), (pg_rest _ _ _ _ _ _ _ _ _ P1); done.
    + intros i j k jk [Hi|Hi]%elem_of_app Hj Hk.
      * rewrite bool_decide_eq_true_2 in Hk by done. destruct (pg_first _ _ _ _ _ _ _ _ _ P1 i j k jk Hi Hj Hk); [left; apply elem_of_app; by left|by right].
      * rewrite bool_decide_eq_false_2 in Hk by (by apply Hdis). destruct (decide (k ∈ hand)); [left; apply elem_of_app; by left|].
        destruct (pg_first _ _ _ _ _ _ _ _ _ P2 i j k jk Hi) as [?|?]; [|by apply (takes_after _ _ _ _ _ _ _ _ _ _ _ _ P1)|left; apply elem_of_app; by right|by right].
        by rewrite (pg_rest _ _ _ _ _ _ _ _ _ P1) by (by apply Hdis).
    + intros Hr. split; [done|]. destruct rest; [done|]. cbn [length] in *. lia.
    + intros _ k jk Hk. destruct (decide (k ∈ hand)); [left; apply elem_of_app; by left|].
      destruct (decide (length rest < cap)%nat) as [Hlt|]; [left; apply elem_of_app; right|right; rewrite length_app; lia].
      eapply (pg_all _ _ _ _ _ _ _ _ _ P2); [|exact Hlt]. by apply (takes_after _ _ _ _ _ _ _ _ _ _ _ _ P1).
Qed.
End claiming.

(** ** Four jobs and room for two *)

Definition thumb (item : string) : QueueIntent :=
  mkIntent queue_ "AssetGenerateThumbnails" (JObj [("id", JStr item)]%string) None true false 1000 None None None None.
Definition room_db : Db := run_ops
  [(1, Initialize [queue_] (Some "w1"%string)); (2, SetConcurrency queue_ 2); (3, Enqueue [thumb "a"; thumb "b"] None);
   (4, Enqueue [thumb "c"; thumb "d"] None); (5, StartNow queue_ "3")] empty_db.
Abbreviation room_claim := (claim (at_ 9) queue_ "w1"%string 5 false unlocked) (only parsing).
Lemma commit_Some {A} (m : Tx A) d a : (commit m d).1 = Some a -> m d = Some (a, (commit m d).2).
Proof. unfold commit. destruct (m d) as [[b d']|]; [|done]. by intros [= ->]. Qed.
(** The one started by hand, then the oldest. *)
Example room_taken : (commit room_claim room_db).1 = Some ["3"; "0"]%string.
Proof. vm_compute. reflexivity. Qed.
Lemma room_queue : queues room_db !! queue_ = Some (mkQueue false 2 None).
Proof. vm_compute. reflexivity. Qed.
Lemma room_ran : room_claim room_db = Some (["3"; "0"]%string, (commit room_claim room_db).2).
Proof. exact (commit_Some room_claim room_db ["3"; "0"]%string room_taken). Qed.

Lemma queue_claim_exact_witness : exists hand rest : list string, ["3"; "0"]%string = hand ++ rest /\
  (rest <> [] -> open_ (at_ 9) (mkQueue false 2 None) = true /\ Z.of_nat (active_count (commit room_claim room_db).2 queue_) <= concurrency (mkQueue false 2 None)).
Proof.
  destruct (queue_claim_exact (at_ 9) queue_ "w1" 5 unlocked (mkQueue false 2 None) room_db (commit room_claim room_db).2 ["3"; "0"]%string room_queue room_ran)
    as (hand & rest & H1 & _ & _ & _ & _ & _ & _ & H2 & _).
  exists hand, rest. exact (conj H1 H2).
Defined.
