(* ===== verification/QueueAdmission.v ===== *)
(** * Admission to execution ([server/src/queue/admission.ts])

    The slots that claimed jobs and their observers wait for before they start.  A call of [acquire] has a
    number of its own, and goes from waiting to granted when a slot is handed to it; its continuation runs
    later ([Resume]), and an abort may come in between.  [run] is a call whose holder starts an action and
    gives its slot back when the action ends, however it ends.  Every operation runs to its end before
    another starts; [perform] runs one, and an operation that the state gives no occasion for (a resume
    without a grant, a second release) does nothing. *)

From S2P Require Import Prelude QueueRows.
Local Open Scope Z_scope.

(** [Refused]: the promise was rejected.  [Released]: the slot was given back. *)
Inductive Phase := Waiting | Granted | Holding | Running | Released | Refused.
#[export] Instance Phase_eq_dec : EqDecision Phase.
Proof. solve_decision. Defined.

Record State := mkState {
  capacity : Z;
  active : Z;
  waiting : list nat;
  calls : gmap nat Phase;
  aborted : gset nat
}.

Definition set_phase (i : nat) (p : Phase) (s : State) : State :=
  mkState (capacity s) (active s) (waiting s) (<[i := p]> (calls s)) (aborted s).
Definition set_active (n : Z) (s : State) : State := mkState (capacity s) n (waiting s) (calls s) (aborted s).
Definition set_waiting (l : list nat) (s : State) : State := mkState (capacity s) (active s) l (calls s) (aborted s).
Definition set_capacity (n : Z) (s : State) : State := mkState n (active s) (waiting s) (calls s) (aborted s).

(** [waiting.delete(next); next()]. *)
Definition grant (i : nat) (s : State) : State :=
  set_phase i Granted (set_waiting (List.filter (fun j => negb (j =? i)%nat) (waiting s)) s).

Fixpoint grant_waiters (l : list nat) (s : State) : State :=
  match l with
  | [] => s
  | next :: l => if active s <? capacity s then grant_waiters l (grant next (set_active (active s + 1) s)) else s
  end.
Definition resize (n : Z) (s : State) : State := grant_waiters (waiting s) (set_capacity n s).

Definition is_aborted (i : nat) (s : State) : bool := bool_decide (i ∈ aborted s).

(** [acquire] up to its first wait, or to its end when there is a slot. *)
Definition acquire (i : nat) (s : State) : State :=
  if is_aborted i s then set_phase i Refused s
  else if capacity s <=? active s then
    if (QUEUE_BATCH <=? length (waiting s))%nat then set_phase i Refused s
    else set_phase i Waiting (set_waiting (waiting s ++ [i]) s)
  else set_phase i Holding (set_active (active s + 1) s).

(** The body of [release]: the slot goes to the first waiter, or away when the slots are over capacity. *)
Definition give_back (s : State) : State :=
  match (if active s <=? capacity s then head (waiting s) else None) with
  | Some next => grant next s
  | None => set_active (active s - 1) s
  end.

(** [const release = ...]: once. *)
Definition release (i : nat) (p : Phase) (s : State) : State := give_back (set_phase i p s).

(** The continuation of a granted call. *)
Definition resume (i : nat) (s : State) : State :=
  if is_aborted i s then release i Refused s else set_phase i Holding s.
(** In [run]: [signal.throwIfAborted()] and the action, or the [finally]. *)
Definition start (i : nat) (s : State) : State :=
  if is_aborted i s then release i Released s else set_phase i Running s.
(** The signal's listener, which a grant removes. *)
Definition abort (i : nat) (s : State) : State :=
  let s' := mkState (capacity s) (active s) (waiting s) (calls s) ({[i]} ∪ aborted s) in
  if bool_decide (calls s !! i = Some Waiting)
  then set_phase i Refused (set_waiting (List.filter (fun j => negb (j =? i)%nat) (waiting s)) s')
  else s'.

Inductive Op := Acquire (i : nat) | Resume (i : nat) | Start (i : nat) | Release (i : nat) | Finish (i : nat) | Abort (i : nat) | Resize (n : Z).
Definition perform (o : Op) (s : State) : State :=
  let on i p f := if bool_decide (calls s !! i = p) then f i s else s in
  match o with
  | Acquire i => on i None acquire
  | Resume i => on i (Some Granted) resume
  | Start i => on i (Some Holding) start
  | Release i => on i (Some Holding) (fun i => release i Released)
  | Finish i => on i (Some Running) (fun i => release i Released)
  | Abort i => abort i s
  | Resize n => resize n s
  end.
Definition play (os : list Op) (s : State) : State := foldl (fun s o => perform o s) s os.
Definition created (n : Z) : State := mkState n 0 [] ∅ ∅.

(** ** The slots in use *)

Definition holds (p : Phase) : bool := match p with Granted | Holding | Running => true | _ => false end.
Definition holders (s : State) : nat := count_if holds (calls s).

(** What holds between operations: the count is that of the holders, the waiters are those recorded as
    such and wait for a reason, and nobody waits past the bound. *)
Record sound (s : State) : Prop := {
  so_active : active s = Z.of_nat (holders s);
  so_NoDup : NoDup (waiting s);
  so_waiting : forall i, i ∈ waiting s <-> calls s !! i = Some Waiting;
  so_full : waiting s <> [] -> capacity s <= active s;
  so_bound : (length (waiting s) <= QUEUE_BATCH)%nat
}.

Lemma elem_without i l j : j ∈ List.filter (fun j => negb (j =? i)%nat) l <-> j ∈ l /\ j <> i.
Proof. rewrite elem_of_filter_b, negb_true_iff, Nat.eqb_neq. tauto. Qed.

Lemma without_head i l : NoDup (i :: l) -> List.filter (fun j => negb (j =? i)%nat) (i :: l) = l.
Proof.
  intros [Hi Hn]%NoDup_cons. cbn. rewrite Nat.eqb_refl. cbn. apply filter_b_all. intros j Hj.
  apply negb_true_iff, Nat.eqb_neq. by intros ->.
Qed.

Lemma calls_phase i p s j : calls (set_phase i p s) !! j = if bool_decide (j = i) then Some p else calls s !! j.
Proof. cbn. destruct (decide (j = i)) as [->|]; [rewrite bool_decide_eq_true_2 by done; apply lookup_insert_eq|]. rewrite bool_decide_eq_false_2 by done. by apply lookup_insert_ne. Qed.

Lemma holders_fresh i p s : calls s !! i = None -> holders (set_phase i p s) = (tally (holds p) + holders s)%nat.
Proof. apply count_if_fresh. Qed.
Lemma holders_phase i p q s : calls s !! i = Some q -> (holders (set_phase i p s) + tally (holds q) = tally (holds p) + holders s)%nat.
Proof. apply count_if_insert. Qed.

Lemma grant_calls i s j : calls (grant i s) !! j = if bool_decide (j = i) then Some Granted else calls s !! j.
Proof. apply (calls_phase i Granted (set_waiting _ s)). Qed.

(** Everything but the reason to wait, for the states inside an operation. *)
Record almost (n : Z) (s : State) : Prop := {
  al_active : active s + n = Z.of_nat (holders s);
  al_NoDup : NoDup (waiting s);
  al_waiting : forall i, i ∈ waiting s <-> calls s !! i = Some Waiting;
  al_bound : (length (waiting s) <= QUEUE_BATCH)%nat
}.

Lemma sound_almost s : sound s <-> almost 0 s /\ (waiting s <> [] -> capacity s <= active s).
Proof.
  split; [intros []|intros [[] ?]]; [split; [|done]|]; split; try done; lia.
Qed.

Lemma grant_almost i s n : almost n s -> i ∈ waiting s -> almost (n + 1) (grant i s).
Proof.
  intros [Ha Hn Hw Hb] Hi. pose proof Hi as Hc%Hw. pose proof (holders_phase i Granted Waiting s Hc) as Hh. cbn in Hh. split.
  - change (holders (grant i s)) with (holders (set_phase i Granted s)). cbn. lia.
  - by apply NoDup_filter_b.
  - intros j. rewrite grant_calls. cbn. rewrite elem_without, Hw. destruct (decide (j = i)) as [->|].
    + rewrite bool_decide_eq_true_2 by done. split; [tauto|done].
    + rewrite bool_decide_eq_false_2 by done. tauto.
  - cbn. pose proof (List.filter_length_le (fun j => negb (j =? i)%nat) (waiting s)). lia.
Qed.

Lemma head_elem (s : State) i : head (waiting s) = Some i -> i ∈ waiting s.
Proof. destruct (waiting s); [done|]. intros [= ->]. left. Qed.

Lemma give_back_sound s : almost (-1) s -> (waiting s <> [] -> capacity s <= active s) -> sound (give_back s).
Proof.
  intros H Hf. apply sound_almost. unfold give_back. destruct (active s <=? capacity s) eqn:E; to_prop.
  - destruct (head (waiting s)) as [i|] eqn:Ei.
    + pose proof (head_elem _ _ Ei) as Hi. split; [apply (grant_almost i s (-1) H Hi)|]. intros _. cbn. apply Hf. intros E'. rewrite E' in Hi. by apply not_elem_of_nil in Hi.
    + destruct H as [Ha Hn Hw Hb]. split; [split; cbn; [unfold holders in *; cbn; lia|done..]|]. cbn. intros Hne. by destruct (waiting s).
  - destruct H as [Ha Hn Hw Hb]. split; [split; cbn; [unfold holders in *; cbn; lia|done..]|]. cbn. intros _. lia.
Qed.

Lemma release_sound i p q s : sound s -> calls s !! i = Some q -> holds q = true -> holds p = false -> p <> Waiting -> sound (release i p s).
Proof.
  intros [Ha Hn Hw Hf Hb] Hi Hq Hp Hpw. pose proof (holders_phase i p q s Hi) as Hh. rewrite Hq, Hp in Hh. cbn [tally] in Hh.
  apply give_back_sound; [|done]. split; [cbn; lia|done| |done].
  intros j. rewrite calls_phase. cbn. rewrite Hw. destruct (decide (j = i)) as [->|].
  - rewrite bool_decide_eq_true_2 by done. split; [intros Hj|congruence]. rewrite Hi in Hj. injection Hj as ->. done.
  - by rewrite bool_decide_eq_false_2.
Qed.

Lemma phase_sound i p q s : sound s -> calls s !! i = Some q -> holds q = holds p -> q <> Waiting -> p <> Waiting -> sound (set_phase i p s).
Proof.
  intros [Ha Hn Hw Hf Hb] Hi Hq Hqw Hpw. pose proof (holders_phase i p q s Hi) as Hh. rewrite Hq in Hh. split; [cbn; lia|done| |done|done].
  intros j. rewrite calls_phase. cbn. rewrite Hw. destruct (decide (j = i)) as [->|].
  - rewrite bool_decide_eq_true_2 by done. split; congruence.
  - by rewrite bool_decide_eq_false_2.
Qed.

Lemma grant_waiters_sound l s : almost 0 s -> waiting s = l -> sound (grant_waiters l s).
Proof.
  revert s; induction l as [|i l IH]; intros s H Hl; cbn [grant_waiters].
  - apply sound_almost. split; [done|]. by rewrite Hl.
  - destruct (active s <? capacity s) eqn:E; to_prop; [|apply sound_almost; split; [done|lia]].
    apply IH; [|cbn; rewrite Hl; apply without_head; rewrite <- Hl; apply H].
    assert (almost (-1) (set_active (active s + 1) s)) as H' by (destruct H as [Ha Hn Hw Hb]; split; cbn; [unfold holders in *; cbn; lia|done..]).
    apply (grant_almost i _ (-1) H'). cbn. rewrite Hl. left.
Qed.

Lemma acquire_sound i s : sound s -> calls s !! i = None -> sound (acquire i s).
Proof.
  intros [Ha Hn Hw Hf Hb] Hi. assert (forall p, holds p = false -> p <> Waiting -> sound (set_phase i p s)) as Hout.
  { intros p Hp Hpw. pose proof (holders_fresh i p s Hi) as Hh. rewrite Hp in Hh. split; [cbn in *; lia|done| |done|done].
    intros j. rewrite calls_phase. cbn. rewrite Hw. destruct (decide (j = i)) as [->|].
    - rewrite bool_decide_eq_true_2, Hi by done. split; congruence.
    - by rewrite bool_decide_eq_false_2. }
  unfold acquire. destruct (is_aborted i s); [by apply Hout|]. destruct (capacity s <=? active s) eqn:E; to_prop.
  - destruct (QUEUE_BATCH <=? length (waiting s))%nat eqn:El; [by apply Hout|]. apply Nat.leb_gt in El.
    pose proof (holders_fresh i Waiting s Hi) as Hh. split; cbn [waiting set_phase set_waiting active capacity].
    + change (holders (set_phase i Waiting (set_waiting (waiting s ++ [i]) s))) with (holders (set_phase i Waiting s)). cbn in Hh. lia.
    + apply NoDup_app. split; [done|]. split; [|apply NoDup_singleton]. intros j Hj%Hw ->%list_elem_of_singleton. congruence.
    + intros j. rewrite (calls_phase i Waiting (set_waiting _ s)). cbn [calls set_waiting]. rewrite elem_of_app, list_elem_of_singleton, Hw.
      destruct (decide (j = i)) as [->|]; [rewrite bool_decide_eq_true_2 by done; tauto|]. rewrite bool_decide_eq_false_2 by done. tauto.
    + intros _. done.
    + rewrite length_app. cbn. lia.
  - pose proof (holders_fresh i Holding s Hi) as Hh. cbn [holds tally] in Hh. split; cbn [waiting set_phase set_active active capacity].
    + change (holders (set_phase i Holding (set_active (active s + 1) s))) with (holders (set_phase i Holding s)). lia.
    + done.
    + intros j. rewrite (calls_phase i Holding (set_active _ s)). cbn [calls set_active]. rewrite Hw.
      destruct (decide (j = i)) as [->|]; [rewrite bool_decide_eq_true_2, Hi by done; split; congruence|]. by rewrite bool_decide_eq_false_2.
    + intros H%Hf. lia.
    + done.
Qed.

Lemma abort_sound i s : sound s -> sound (abort i s).
Proof.
  intros [Ha Hn Hw Hf Hb]. unfold abort. destruct (decide (calls s !! i = Some Waiting)) as [Hi|Hi].
  - rewrite bool_decide_eq_true_2 by done. pose proof (holders_phase i Refused Waiting s Hi) as Hh. cbn in Hh. split; cbn [waiting set_phase set_waiting active capacity].
    + unfold holders in *. cbn in *. lia.
    + by apply NoDup_filter_b.
    + intros j. rewrite elem_without, Hw. rewrite (calls_phase i Refused (set_waiting _ _)). cbn [calls set_waiting].
      destruct (decide (j = i)) as [->|]; [rewrite bool_decide_eq_true_2 by done; split; [tauto|congruence]|]. rewrite bool_decide_eq_false_2 by done. tauto.
    + intros H. apply Hf. intros E. by rewrite E in H.
    + pose proof (List.filter_length_le (fun j => negb (j =? i)%nat) (waiting s)). lia.
  - rewrite bool_decide_eq_false_2 by done. by split.
Qed.

Lemma perform_sound o s : sound s -> sound (perform o s).
Proof.
  intros H. destruct o as [i|i|i|i|i|i|n]; cbn [perform]; try (destruct (bool_decide _) eqn:E; [|done]; apply bool_decide_eq_true in E).
  - by apply acquire_sound.
  - unfold resume. destruct (is_aborted i s); [by eapply release_sound|by eapply phase_sound].
  - unfold start. destruct (is_aborted i s); [by eapply release_sound|by eapply phase_sound].
  - by eapply release_sound.
  - by eapply release_sound.
  - by apply abort_sound.
  - unfold resize. apply sound_almost in H as [[Ha Hn Hw Hb] _]. by apply grant_waiters_sound.
Qed.
Lemma play_sound os s : sound s -> sound (play os s).
Proof. revert s; induction os as [|o os IH]; intros s H; [done|]. apply IH, perform_sound, H. Qed.
Lemma created_sound n : sound (created n).
Proof. split; [done|constructor| |done|cbn; unfold QUEUE_BATCH; lia]. intros i. cbn. rewrite lookup_empty. split; [by intros ?%not_elem_of_nil|done]. Qed.

(** ** Never more than the capacity, and nothing starts after its abort *)

Definition within (N : Z) (s : State) : Prop := capacity s <= N /\ active s <= N.

Lemma give_back_cases s :
  give_back s = set_active (active s - 1) s /\ (waiting s = [] \/ capacity s < active s) \/
  exists i, head (waiting s) = Some i /\ active s <= capacity s /\ give_back s = grant i s.
Proof.
  unfold give_back. destruct (active s <=? capacity s) eqn:E; to_prop; [|left; split; [done|by right]].
  destruct (waiting s) as [|i l] eqn:El; cbn [head]; [left; auto|right; eauto].
Qed.

Lemma give_back_within N s : within N s -> within N (give_back s).
Proof. intros [? ?]. destruct (give_back_cases s) as [[-> _]|(i & _ & _ & ->)]; split; cbn; lia. Qed.
Lemma grant_waiters_within N l s : within N s -> within N (grant_waiters l s).
Proof.
  revert s; induction l as [|i l IH]; intros s [? ?]; cbn [grant_waiters]; [by split|].
  destruct (active s <? capacity s) eqn:E; [|by split]. to_prop. apply IH. split; cbn; lia.
Qed.
Lemma perform_within N o s : (forall m, o = Resize m -> m <= N) -> within N s -> within N (perform o s).
Proof.
  intros Ho H. pose proof H as [Hc Ha]. destruct o as [i|i|i|i|i|i|n]; cbn [perform]; try (destruct (bool_decide _); [|done]).
  - unfold acquire. destruct (is_aborted i s); [done|]. destruct (capacity s <=? active s) eqn:E; [by destruct (_ <=? _)%nat|]. to_prop. split; cbn; lia.
  - unfold resume. destruct (is_aborted i s); [by apply give_back_within|done].
  - unfold start. destruct (is_aborted i s); [by apply give_back_within|done].
  - by apply give_back_within.
  - by apply give_back_within.
  - unfold abort. by destruct (bool_decide _).
  - apply grant_waiters_within. split; cbn; [by apply Ho|done].
Qed.

(** A call is put in a phase by its own operations, and otherwise only granted, from waiting. *)
Lemma give_back_calls s j : calls (give_back s) !! j = calls s !! j \/ (calls (give_back s) !! j = Some Granted /\ head (waiting s) = Some j).
Proof.
  destruct (give_back_cases s) as [[-> _]|(i & Hi & _ & ->)]; [by left|]. rewrite grant_calls.
  destruct (decide (j = i)) as [->|]; [rewrite bool_decide_eq_true_2 by done; by right|]. rewrite bool_decide_eq_false_2 by done. by left.
Qed.
Lemma grant_waiters_calls l s j : calls (grant_waiters l s) !! j = calls s !! j \/ calls (grant_waiters l s) !! j = Some Granted.
Proof.
  revert s; induction l as [|i l IH]; intros s; cbn [grant_waiters]; [by left|]. destruct (active s <? capacity s); [|by left].
  destruct (IH (grant i (set_active (active s + 1) s))) as [E|E]; [|by right]. rewrite E, grant_calls. cbn.
  destruct (bool_decide (j = i)); auto.
Qed.
Lemma release_calls i p s j : calls (release i p s) !! j = Some Granted \/ calls (release i p s) !! j = (if bool_decide (j = i) then Some p else calls s !! j).
Proof. unfold release. destruct (give_back_calls (set_phase i p s) j) as [->|[-> _]]; [right; apply calls_phase|by left]. Qed.

Lemma aborted_grows o s i : i ∈ aborted s -> i ∈ aborted (perform o s).
Proof.
  assert (forall s, aborted (give_back s) = aborted s) as Hg by (intros x; by destruct (give_back_cases x) as [[-> _]|(k & _ & _ & ->)]).
  assert (forall l s, aborted (grant_waiters l s) = aborted s) as Hw.
  { induction l as [|k l IH]; intros x; cbn [grant_waiters]; [done|]. destruct (_ <? _); [by rewrite IH|done]. }
  intros H. destruct o as [k|k|k|k|k|k|n]; cbn [perform]; try (destruct (bool_decide _); [|done]).
  - unfold acquire. destruct (is_aborted k s); [done|]. destruct (_ <=? _); [by destruct (_ <=? _)%nat|done].
  - unfold resume, release. destruct (is_aborted k s); [by rewrite Hg|done].
  - unfold start, release. destruct (is_aborted k s); [by rewrite Hg|done].
  - unfold release. by rewrite Hg.
  - unfold release. by rewrite Hg.
  - unfold abort. destruct (bool_decide _); cbn; set_solver.
  - unfold resize. by rewrite Hw.
Qed.

(** A call that an operation puts in a phase: it waits only when it has just asked, and starts only when not aborted. *)
Definition put (s : State) (i : nat) (p : Phase) : Prop := (p = Waiting -> calls s !! i = None) /\ (p = Running -> i ∉ aborted s).
Lemma perform_calls o s i : calls (perform o s) !! i = calls s !! i \/ exists p, calls (perform o s) !! i = Some p /\ put s i p.
Proof.
  set (C := fun s' : State => calls s' !! i = calls s !! i \/ exists p, calls s' !! i = Some p /\ put s i p).
  assert (forall p, p <> Waiting -> p <> Running -> put s i p) as Hput by done.
  assert (forall k p, p <> Waiting -> p <> Running -> C (release k p s)) as Hr.
  { intros k p ? ?. unfold C. destruct (release_calls k p s i) as [->| ->]; [right; exists Granted; auto|]. destruct (bool_decide (i = k)); eauto. }
  assert (forall k p s', calls s' = calls s -> (k = i -> put s i p) -> C (set_phase k p s')) as Hs.
  { intros k p s' E Hp. unfold C. rewrite calls_phase, E. destruct (bool_decide (i = k)) eqn:Ek; [|by left]. apply bool_decide_eq_true in Ek as ->. eauto. }
  change (C (perform o s)). destruct o as [k|k|k|k|k|k|n]; cbn [perform]; try (destruct (bool_decide _) eqn:E; [apply bool_decide_eq_true in E|by left]).
  - unfold acquire. destruct (is_aborted k s); [by apply Hs|]. destruct (_ <=? _); [destruct (_ <=? _)%nat; [by apply Hs|]|by apply Hs].
    apply Hs; [done|]. intros ->. by split.
  - unfold resume. destruct (is_aborted k s); [by apply Hr|by apply Hs].
  - unfold start. destruct (is_aborted k s) eqn:Ea; [by apply Hr|]. apply Hs; [done|]. intros ->. apply bool_decide_eq_false in Ea. by split.
  - by apply Hr.
  - by apply Hr.
  - unfold abort. destruct (bool_decide _); [by apply Hs|by left].
  - unfold resize, C. destruct (grant_waiters_calls (waiting s) (set_capacity n s) i) as [->| ->]; [by left|right; exists Granted; auto].
Qed.
Lemma never_starts o s i : i ∈ aborted s -> calls s !! i <> Some Running -> calls (perform o s) !! i <> Some Running.
Proof. intros Ha Hn. destruct (perform_calls o s i) as [->|(p & -> & _ & Hp)]; [done|]. intros [= ->]. by apply Hp. Qed.

(** C16. Whatever callers do and however the capacity is changed, the slots in use are counted exactly and
    never pass the largest capacity set; nobody waits while a slot is free, and no more wait than a batch;
    and a call whose signal was aborted never starts its action. *)
Theorem admission_bounded (N n : Z) (os : list Op) (nonneg : 0 <= N) (first : n <= N) (rest : forall m, Resize m ∈ os -> m <= N) :
  let s := play os (created n) in
  active s = Z.of_nat (holders s) /\ active s <= N /\ (waiting s <> [] -> capacity s <= active s) /\ (length (waiting s) <= QUEUE_BATCH)%nat /\
  forall i os', i ∈ aborted s -> calls s !! i <> Some Running -> calls (play os' s) !! i <> Some Running.
Proof.
  intros s. destruct (play_sound os (created n) (created_sound n)) as [Ha _ _ Hf Hb]. split; [done|]. split; [|split; [done|split; [done|]]].
  - assert (within N (created n)) as H by (split; cbn; lia). unfold s. clear s Ha Hf Hb. revert rest H. generalize (created n).
    induction os as [|o os IH]; intros s Hm H; [apply H|]. apply IH; [intros m Hi; apply Hm; by right|].
    apply perform_within; [|done]. intros m ->. apply Hm. left.
  - intros i os'. generalize s. induction os' as [|o os' IH]; intros x Hi Hx; [done|]. apply IH; [by apply aborted_grows|by apply never_starts].
Qed.

(** ** In turn *)

(** Who waits ahead of [i]. *)
Fixpoint ahead (i : nat) (l : list nat) : list nat :=
  match l with [] => [] | j :: l => if (j =? i)%nat then [] else j :: ahead i l end.
(** Has no slot and never had one. *)
Definition outside (j : nat) (s : State) : Prop := calls s !! j = None \/ calls s !! j = Some Waiting \/ calls s !! j = Some Refused.
(** The slots an operation gives back. *)
Definition returns (o : Op) (s : State) : Z :=
  match o with
  | Resume i => if bool_decide (calls s !! i = Some Granted) && is_aborted i s then 1 else 0
  | Start i => if bool_decide (calls s !! i = Some Holding) && is_aborted i s then 1 else 0
  | Release i => if bool_decide (calls s !! i = Some Holding) then 1 else 0
  | Finish i => if bool_decide (calls s !! i = Some Running) then 1 else 0
  | _ => 0
  end.
Fixpoint returned (os : list Op) (s : State) : Z :=
  match os with [] => 0 | o :: os => returns o s + returned os (perform o s) end.
(** The waiters ahead, and the slots in use. *)
Definition rank (i : nat) (s : State) : Z := Z.of_nat (length (ahead i (waiting s))) + active s.

Lemma elem_ahead i l j : j ∈ ahead i l -> j ∈ l /\ j <> i.
Proof.
  induction l as [|k l IH]; cbn [ahead]; [by intros ?%not_elem_of_nil|]. destruct (Nat.eqb_spec k i) as [->|Hk]; [by intros ?%not_elem_of_nil|].
  intros [->|H]%elem_of_cons; [split; [left|done]|]. destruct (IH H). split; [by right|done].
Qed.
Lemma ahead_without i k l : k <> i -> ahead i (List.filter (fun j => negb (j =? k)%nat) l) = List.filter (fun j => negb (j =? k)%nat) (ahead i l).
Proof.
  intros Hk. induction l as [|j l IH]; [done|]. cbn [ahead List.filter]. destruct (Nat.eqb_spec j k) as [->|Hj]; cbn [negb ahead].
  - apply Nat.eqb_neq in Hk. rewrite Hk. cbn. rewrite Nat.eqb_refl. cbn. exact IH.
  - destruct (Nat.eqb_spec j i); [done|]. cbn. apply Nat.eqb_neq in Hj. rewrite Hj. cbn. by rewrite IH.
Qed.
Lemma ahead_app i l k : i ∈ l -> ahead i (l ++ k) = ahead i l.
Proof.
  induction l as [|j l IH]; [by intros ?%not_elem_of_nil|]. intros H. cbn. destruct (Nat.eqb_spec j i); [done|]. f_equal. apply IH.
  by apply elem_of_cons in H as [->|].
Qed.
Lemma ahead_head (s : State) i k : NoDup (waiting s) -> head (waiting s) = Some k -> k <> i ->
  k ∈ ahead i (waiting s) /\ S (length (ahead i (waiting (grant k s)))) = length (ahead i (waiting s)).
Proof.
  intros Hn Hh Hk. cbn [grant waiting set_phase set_waiting]. destruct (waiting s) as [|j l]; [done|]. injection Hh as ->. rewrite without_head by done. cbn [ahead].
  apply Nat.eqb_neq in Hk. rewrite Hk. split; [left|done].
Qed.

(** What an operation does to a waiter that keeps waiting: it moves up by the slots given back, nobody new
    comes ahead, and only those ahead are let in. *)
Definition moves_up (i : nat) (k : Z) (s s' : State) : Prop :=
  rank i s' + k <= rank i s /\ (forall j, j ∈ ahead i (waiting s') -> j ∈ ahead i (waiting s)) /\
  (forall j, outside j s -> j ∉ ahead i (waiting s) -> outside j s').

Lemma outside_phase i p s j : outside j s -> (j = i -> outside j (set_phase i p s)) -> outside j (set_phase i p s).
Proof.
  intros H Hi. destruct (decide (j = i)) as [->|Hj]; [by apply Hi|]. unfold outside in *. by rewrite calls_phase, bool_decide_eq_false_2.
Qed.
Lemma in_without i l j : j ∈ List.filter (fun j => negb (j =? i)%nat) l -> j ∈ l.
Proof. by intros [? _]%elem_without. Qed.

Lemma grant_moves i k s : NoDup (waiting s) -> head (waiting s) = Some k -> i ∈ waiting (grant k s) ->
  length (ahead i (waiting s)) = S (length (ahead i (waiting (grant k s)))) /\ (forall j, j ∈ ahead i (waiting (grant k s)) -> j ∈ ahead i (waiting s)) /\
  (forall j, outside j s -> j ∉ ahead i (waiting s) -> outside j (grant k s)).
Proof.
  intros Hn Hh Hi. assert (k <> i) as Hk by (intros ->; by apply elem_without in Hi as [_ ?]).
  destruct (ahead_head s i k Hn Hh Hk) as [Hin Hlen]. split; [done|]. split.
  - intros j. cbn. rewrite ahead_without by done. apply in_without.
  - intros j Hj Ha. unfold grant. apply (outside_phase k Granted (set_waiting _ s)); [done|]. by intros ->.
Qed.

Lemma give_back_moves i s : NoDup (waiting s) -> i ∈ waiting (give_back s) -> moves_up i 1 s (give_back s).
Proof.
  intros Hn. destruct (give_back_cases s) as [[-> _]|(k & Hh & _ & ->)]; intros Hi.
  - split; [unfold rank; cbn; lia|]. by split.
  - destruct (grant_moves i k s Hn Hh Hi) as (Hl & Ha & Ho). split; [unfold rank; rewrite Hl; cbn [active grant set_phase set_waiting]; lia|]. by split.
Qed.
Lemma release_moves i k p s : NoDup (waiting s) -> ~ outside k s -> i ∈ waiting (release k p s) -> moves_up i 1 s (release k p s).
Proof.
  intros Hn Hk Hi. destruct (give_back_moves i (set_phase k p s) Hn Hi) as (Hr & Ha & Ho). split; [exact Hr|]. split; [exact Ha|].
  intros j Hj Hja. apply Ho; [|exact Hja]. apply outside_phase; [done|]. by intros ->.
Qed.

Lemma grant_waiters_waiting l s i : i ∈ waiting (grant_waiters l s) -> i ∈ waiting s.
Proof.
  revert s; induction l as [|k l IH]; intros s; cbn [grant_waiters]; [done|]. destruct (_ <? _); [|done].
  intros H%IH. cbn in H. by apply in_without in H.
Qed.
Lemma grant_waiters_moves i l s : NoDup (waiting s) -> waiting s = l -> i ∈ waiting (grant_waiters l s) -> moves_up i 0 s (grant_waiters l s).
Proof.
  revert s; induction l as [|k l IH]; intros s Hn Hl; cbn [grant_waiters]; [intros _; split; [lia|by split]|].
  destruct (active s <? capacity s); [|intros _; split; [lia|by split]]. intros Hi. set (s1 := set_active (active s + 1) s) in *.
  assert (head (waiting s1) = Some k) as Hh by (cbn; by rewrite Hl).
  destruct (grant_moves i k s1 Hn Hh (grant_waiters_waiting _ _ _ Hi)) as (Hlen & Ha & Ho).
  destruct (IH (grant k s1)) as (Hr' & Ha' & Ho'); [by apply NoDup_filter_b|cbn; rewrite Hl; apply without_head; by rewrite <- Hl|done|].
  split; [|split].
  - unfold rank in *. cbn [active grant set_phase set_waiting] in Hr'. replace (active s1) with (active s + 1) in Hr' by done.
    replace (waiting s) with (waiting s1) by done. rewrite Hlen. lia.
  - intros j Hj. by apply Ha, Ha'.
  - intros j Hj Hja. apply Ho'; [by apply Ho|]. intros Hja'. by apply Hja, Ha.
Qed.

Lemma stays_moves i s s' : waiting s' = waiting s -> active s' <= active s -> (forall j, outside j s -> outside j s') -> moves_up i 0 s s'.
Proof. intros Hw Ha Ho. split; [unfold rank; rewrite Hw; lia|]. rewrite Hw. split; [done|]. intros j Hj _. by apply Ho. Qed.

Lemma perform_moves o i s : sound s -> i ∈ waiting s -> i ∈ waiting (perform o s) -> moves_up i (returns o s) s (perform o s).
Proof.
  intros [Hact Hn Hw Hf Hb] Hi Hi'. assert (moves_up i 0 s s) as Hsame by (split; [lia|by split]).
  assert (forall k p, calls s !! k = Some p -> holds p = true -> ~ outside k s) as Hin.
  { intros k p Hk Hp [E|[E|E]]; rewrite Hk in E; [done|injection E as ->; done|injection E as ->; done]. }
  assert (forall k p q, calls s !! k = Some q -> holds q = true -> moves_up i 0 s (set_phase k p s)) as Hto.
  { intros k p q Hk Hq. apply stays_moves; [done..|]. intros j Hj. apply outside_phase; [done|]. intros ->. by destruct (Hin k q Hk Hq). }
  destruct o as [k|k|k|k|k|k|n]; cbn [perform returns] in *; try (destruct (bool_decide _) eqn:E; [apply bool_decide_eq_true in E|exact Hsame]); cbn [andb].
  - unfold acquire in *. destruct (is_aborted k s).
    { apply stays_moves; [done..|]. intros j Hj. apply outside_phase; [done|]. intros ->. right; right. rewrite calls_phase. by rewrite bool_decide_eq_true_2. }
    assert (waiting s <> []) as Hne by (intros E'; rewrite E' in Hi; by apply not_elem_of_nil in Hi).
    specialize (Hf Hne). destruct (capacity s <=? active s) eqn:Ec; [|to_prop; lia].
    destruct (_ <=? _)%nat.
    { apply stays_moves; [done..|]. intros j Hj. apply outside_phase; [done|]. intros ->. right; right. rewrite calls_phase. by rewrite bool_decide_eq_true_2. }
    split; [|split].
    + unfold rank. cbn [waiting active set_phase set_waiting]. rewrite ahead_app by done. lia.
    + intros j. cbn [waiting set_phase set_waiting]. by rewrite ahead_app.
    + intros j Hj _. apply (outside_phase k Waiting (set_waiting _ s)); [done|]. intros ->. right; left. rewrite (calls_phase k Waiting (set_waiting _ s)).
      by rewrite bool_decide_eq_true_2.
  - unfold resume in *. destruct (is_aborted k s); [(apply release_moves; [done|by apply (Hin k Granted)|done])|by eapply Hto].
  - unfold start in *. destruct (is_aborted k s); [(apply release_moves; [done|by apply (Hin k Holding)|done])|by eapply Hto].
  - (apply release_moves; [done|by apply (Hin k Holding)|done]).
  - (apply release_moves; [done|by apply (Hin k Running)|done]).
  - unfold abort in *. destruct (decide (calls s !! k = Some Waiting)) as [Hk|Hk]; [rewrite bool_decide_eq_true_2 in * by done|rewrite bool_decide_eq_false_2 in * by done].
    + cbn [waiting set_phase set_waiting] in Hi'. assert (k <> i) as Hki by (intros ->; by apply elem_without in Hi' as [_ ?]). split; [|split].
      * unfold rank. cbn [waiting active set_phase set_waiting]. rewrite ahead_without by done.
        pose proof (List.filter_length_le (fun j => negb (j =? k)%nat) (ahead i (waiting s))). lia.
      * intros j. cbn [waiting set_phase set_waiting]. rewrite ahead_without by done. apply in_without.
      * intros j Hj _. destruct (decide (j = k)) as [->|Hjk].
        -- right; right. cbn. by rewrite lookup_insert_eq.
        -- unfold outside in *. cbn. by rewrite lookup_insert_ne by done.
    + by apply stays_moves.
  - unfold resize in *. by apply (grant_waiters_moves i (waiting s) (set_capacity n s)).
Qed.

(** Nobody is put back to wait: who waits at the end of operations waited all along. *)
Lemma waits_now o os i s : sound s -> i ∈ waiting s -> i ∈ waiting (play (o :: os) s) -> i ∈ waiting (perform o s).
Proof.
  intros H Hi%(so_waiting _ H) He%(so_waiting _ (play_sound (o :: os) s H)). apply (so_waiting _ (perform_sound o s H)).
  destruct (perform_calls o s i) as [->|(p & E & _)]; [done|]. rewrite E. f_equal. destruct (decide (p = Waiting)) as [|Hp]; [done|]. exfalso.
  cbn [play foldl] in He. revert E. generalize dependent (perform o s). clear H Hi. revert p Hp.
  induction os as [|o' os IH]; intros p Hp x He E; cbn [foldl] in He; [congruence|].
  destruct (perform_calls o' x i) as [E'|(q & E' & Hq & _)]; [eapply IH; [exact Hp|exact He|congruence]|].
  eapply (IH q); [|exact He|exact E']. intros ->. specialize (Hq eq_refl). congruence.
Qed.

(** Slots are handed out in turn: while a caller waits, nobody who came after it has a slot that it
    had not before, and once the slots given back exceed those ahead of it and those over the
    capacity it does not wait any more, whatever else happens and in whatever order. *)
Theorem admission_in_turn (who : nat) (s : State) (os : list Op) (reached : sound s) (waits : who ∈ waiting s)
  (still : who ∈ waiting (play os s)) :
  returned os s <= Z.of_nat (length (ahead who (waiting s))) + (active s - capacity (play os s)) /\
  forall j, outside j s -> j ∉ ahead who (waiting s) -> outside j (play os s).
Proof.
  assert (returned os s + rank who (play os s) <= rank who s /\ forall j, outside j s -> j ∉ ahead who (waiting s) -> outside j (play os s)) as [Hr Ho].
  { revert s reached waits still. induction os as [|o os IH]; intros s Hs Hi He; [split; [cbn; lia|done]|].
    pose proof (waits_now o os who s Hs Hi He) as Hi'. destruct (perform_moves o who s Hs Hi Hi') as (Hr & Ha & Ho).
    destruct (IH (perform o s) (perform_sound o s Hs) Hi' He) as [Hr' Ho']. split; [cbn [returned play foldl]; unfold play in *; lia|].
    intros j Hj Hja. apply Ho'; [by apply Ho|]. intros Hja'. by apply Hja, Ha. }
  split; [|done]. pose proof (so_full _ (play_sound os s reached)) as Hf. unfold rank in *.
  assert (capacity (play os s) <= active (play os s)) by (apply Hf; intros E; rewrite E in still; by apply not_elem_of_nil in still). lia.
Qed.

(** ** One slot, three callers *)

Definition three : list Op := [Acquire 0; Acquire 1; Acquire 2; Start 0]%nat.
Lemma admission_bounded_witness : active (play three (created 1)) <= 1.
Proof.
  refine (proj1 (proj2 (admission_bounded 1 1 three _ _ _))); [lia|lia|].
  intros m H. repeat (apply elem_of_cons in H as [H|H]; [discriminate|]). by apply not_elem_of_nil in H.
Defined.
(** The third caller waits behind the second: two slots given back are enough. *)
Lemma three_sound : sound (play three (created 1)).
Proof. apply play_sound, created_sound. Qed.
Example third_waits : waiting (play [Finish 0]%nat (play three (created 1))) = [2]%nat.
Proof. vm_compute. reflexivity. Qed.
Example third_granted : calls (play [Finish 0; Resume 1; Release 1]%nat (play three (created 1))) !! 2%nat = Some Granted.
Proof. vm_compute. reflexivity. Qed.
Lemma admission_in_turn_witness : 2%nat ∈ waiting (play [Finish 0]%nat (play three (created 1))) /\
  returned [Finish 0]%nat (play three (created 1)) <= 1.
Proof.
  assert (2%nat ∈ waiting (play [Finish 0]%nat (play three (created 1)))) as H by (rewrite third_waits; left).
  split; [exact H|].
  destruct (admission_in_turn 2 (play three (created 1)) [Finish 0]%nat three_sound) as [Hr _]; [right; left|exact H|].
  exact Hr.
Defined.
(** A grant whose signal is aborted before its continuation runs passes to the next. *)
Example late_abort : calls (play [Finish 0; Abort 1; Resume 1]%nat (play three (created 1))) !! 2%nat = Some Granted.
Proof. vm_compute. reflexivity. Qed.
