(* ===== verification/AssetUpload.v ===== *)
(** * Resumable uploads ([server/src/services/asset-upload-resource.service.ts],
    [repositories/asset-upload-resource.repository.ts], [utils/asset-upload-resource.ts])

    An upload is a resource: its declared size and digest, a manifest of received parts, and a state.
    Requests write parts to files of their own, side by side, and commit them to the manifest; the last
    one assembles the file, checks its digest and publishes it as an asset; a sweep removes what is left.

    A request is a state of its own in [requests], by its token: what it read, what it wrote and what it
    has yet to remove.  [Op] has one operation for each transaction, file operation or read of a request,
    so that a run of operations is any interleaving of any requests, and a request that stops anywhere
    ([Stop]).  A transaction that throws leaves the world as it was.

    Files are named by their folder, the upload's own, and their name in it.  Sizes and offsets are safe
    integers, which the headers are checked for.  What other services decide is an argument: whether the
    actor may still upload ([admitted], of [sourceAdmission] and the owner's checks), the free disk space,
    the authority of an iCloud edit, and whether the bytes restored a lost original. *)

From S2P Require Import Prelude JsString.
From S2P Require MimeTypes.
Local Open Scope Z_scope.

(** What [randomUUID] answers: 36 characters, digits of hexadecimal and dashes, and never one twice in as
    many calls as [distinct]. *)
Definition uuid_char (c : ascii) : bool := is_hex c || Ascii.eqb c "-".
Class Uuids := {
  uuid : nat -> string;
  distinct : nat;
  uuid_chars : forall n, string_all uuid_char (uuid n) = true;
  uuid_length : forall n, String.length (uuid n) = 36%nat;
  uuid_inj : forall n m, (n < distinct)%nat -> (m < distinct)%nat -> uuid n = uuid m -> n = m
}.

Abbreviation Bytes := (list Byte.byte).
Class Digests := { sha256 : Bytes -> string; sha1 : Bytes -> string }.

(** ** Rows *)

Inductive UploadState := receiving | pair_receiving | finalizing | pair_finalizing | verified | pair_verified | published | rejected | cancelled.
#[export] Instance UploadState_eq_dec : EqDecision UploadState.
Proof. solve_decision. Defined.
Inductive Publication := single | live_photo | capture.
#[export] Instance Publication_eq_dec : EqDecision Publication.
Proof. solve_decision. Defined.
Inductive ResultStatus := CREATED | DUPLICATE.
#[export] Instance ResultStatus_eq_dec : EqDecision ResultStatus.
Proof. solve_decision. Defined.

Abbreviation Path := (string * string)%type.

(** What a client declares when it creates the upload, with the limits of that moment. *)
Record Declared := mkDeclared { publication : Publication; expectedChecksum : string; filename : string; maxSize : Z; maxAppendSize : Z }.
(** [finalPath], [verifiedChecksum] and [legacyChecksum]; [resultAssetId] and [resultStatus]; the ingestion's
    token and the end of its lease: each group is written together. *)
Record Final := mkFinal { finalPath : Path; verifiedChecksum : string; legacyChecksum : string }.
Record Outcome := mkOutcome { resultAssetId : string; resultStatus : ResultStatus }.
Record Ingestion := mkIngestion { ingestionToken : string; ingestionLeaseExpiresAt : Z }.
Record Resource := mkResource {
  ownerId : option string;
  declared : Declared;
  expectedSize : option Z;
  offset : Z;
  state : UploadState;
  final : option Final;
  result : option Outcome;
  ingested : bool;
  ingestion : option Ingestion;
  expiresAt : Z
}.
#[export] Instance Declared_eq_dec : EqDecision Declared.
Proof. solve_decision. Defined.
#[export] Instance Outcome_eq_dec : EqDecision Outcome.
Proof. solve_decision. Defined.
#[export] Instance Final_eq_dec : EqDecision Final.
Proof. solve_decision. Defined.

Definition set_received (size : option Z) (n : Z) (s : UploadState) (r : Resource) : Resource :=
  mkResource (ownerId r) (declared r) size n s (final r) (result r) (ingested r) (ingestion r) (expiresAt r).
Definition set_state (s : UploadState) (r : Resource) : Resource :=
  mkResource (ownerId r) (declared r) (expectedSize r) (offset r) s (final r) (result r) (ingested r) (ingestion r) (expiresAt r).
Definition set_final (s : UploadState) (f : Final) (r : Resource) : Resource :=
  mkResource (ownerId r) (declared r) (expectedSize r) (offset r) s (Some f) (result r) (ingested r) (ingestion r) (expiresAt r).
Definition set_result (o : Outcome) (done : bool) (r : Resource) : Resource :=
  mkResource (ownerId r) (declared r) (expectedSize r) (offset r) published (final r) (Some o) done (ingestion r) (expiresAt r).
Definition set_ingestion (done : bool) (i : option Ingestion) (r : Resource) : Resource :=
  mkResource (ownerId r) (declared r) (expectedSize r) (offset r) (state r) (final r) (result r) done i (expiresAt r).
Definition set_cancelled (till : Z) (i : option Ingestion) (r : Resource) : Resource :=
  mkResource (ownerId r) (declared r) (expectedSize r) (offset r) cancelled (final r) (result r) (ingested r) i till.
Definition set_owner (o : option string) (r : Resource) : Resource :=
  mkResource o (declared r) (expectedSize r) (offset r) (state r) (final r) (result r) (ingested r) (ingestion r) (expiresAt r).

Record Part := mkPart { p_name : string; p_size : Z }.
(** The parts of one upload, by offset, which is unique. *)
Abbreviation Manifest := (gmap Z Part).

Record User := mkUser { quotaUsage : Z; quotaSize : option Z }.
(** [owner] and [checksum] are unique together. *)
Record Asset := mkAsset { owner : string; checksum : string; originalPath : Path; fileSize : Z; livePhotoVideoId : option string; is_video : bool }.
Record Lease := mkLease { l_token : string; expires_at : Z }.

(** ** Requests *)

Inductive Kind :=
| Append (at_ : Z) (complete : bool) (length_ : option Z)
| Put (at_ length_ : Z)
| Finish.
(** [Working]: its lease is held.  [Read]: the row it read passed its checks.  [Written]: its own file is on
    disk.  [Leaving]: files left to remove, and whether the upload is to be finalized next.  [Gathered],
    [Assembled]: the row, its parts, and the file made of them.  [Sweeping]: what is unreferenced goes. *)
Inductive Phase :=
| Working
| Read (initial : Resource)
| Written (initial : Resource) (name : string) (size : Z) (interrupted : bool)
| Leaving (doomed : list string) (next : bool)
| Finishing
| Gathered (initial : Resource) (parts : list (Z * Part))
| Assembled (initial : Resource) (name : string) (bytes : Bytes)
| Refused (initial : Resource)
| Settling (row : Resource)
| Sweeping.
Record Request := mkRequest { q_upload : string; q_owner : string; q_kind : Kind; q_phase : Phase }.

Record World := mkWorld {
  resources : gmap string Resource;
  manifests : gmap string Manifest;
  files : gmap Path Bytes;
  leases : gmap string Lease;
  users : gmap string User;
  assets : gmap string Asset;
  requests : gmap string Request;
  given : nat;
  now : Z
}.
Definition set_resources (x : gmap string Resource) (w : World) : World :=
  mkWorld x (manifests w) (files w) (leases w) (users w) (assets w) (requests w) (given w) (now w).
Definition set_manifests (x : gmap string Manifest) (w : World) : World :=
  mkWorld (resources w) x (files w) (leases w) (users w) (assets w) (requests w) (given w) (now w).
Definition set_files (x : gmap Path Bytes) (w : World) : World :=
  mkWorld (resources w) (manifests w) x (leases w) (users w) (assets w) (requests w) (given w) (now w).
Definition set_leases (x : gmap string Lease) (w : World) : World :=
  mkWorld (resources w) (manifests w) (files w) x (users w) (assets w) (requests w) (given w) (now w).
Definition set_users (x : gmap string User) (w : World) : World :=
  mkWorld (resources w) (manifests w) (files w) (leases w) x (assets w) (requests w) (given w) (now w).
Definition set_assets (x : gmap string Asset) (w : World) : World :=
  mkWorld (resources w) (manifests w) (files w) (leases w) (users w) x (requests w) (given w) (now w).
Definition set_requests (x : gmap string Request) (w : World) : World :=
  mkWorld (resources w) (manifests w) (files w) (leases w) (users w) (assets w) x (given w) (now w).
Definition set_given (n : nat) (w : World) : World :=
  mkWorld (resources w) (manifests w) (files w) (leases w) (users w) (assets w) (requests w) n (now w).
Definition set_now (t : Z) (w : World) : World :=
  mkWorld (resources w) (manifests w) (files w) (leases w) (users w) (assets w) (requests w) (given w) t.

Definition is_None_b {A} (x : option A) : bool := match x with None => true | Some _ => false end.

Section upload.
Context `{Uuids, Digests}.

Definition manifest (w : World) (i : string) : Manifest := default ∅ (manifests w !! i).
Definition put_resource (i : string) (r : Resource) (w : World) : World := set_resources (<[i := r]> (resources w)) w.
Definition put_manifest (i : string) (m : Manifest) (w : World) : World := set_manifests (<[i := m]> (manifests w)) w.
Definition to_phase (tok : string) (p : Phase) (w : World) : World :=
  set_requests (alter (fun q => mkRequest (q_upload q) (q_owner q) (q_kind q) p) tok (requests w)) w.
Definition stop (tok : string) (w : World) : World := set_requests (delete tok (requests w)) w.
Definition remove_files (i : string) (names : list string) (w : World) : World :=
  set_files (foldl (fun fs n => delete (i, n) fs) (files w) names) w.

(** [ASSET_UPLOAD_LIMITS]. *)
Definition LIMIT_SIZE : Z := 9007199254740991.
Definition LIMIT_APPEND : Z := 2 ^ 30.
Definition MAX_AGE_MS : Z := 86400 * 1000.
Definition maxActive : nat := 4.
Definition maxParallelParts : nat := 6.
Definition LEASE_MS : Z := 900 * 1000.

Definition live (r : Resource) : bool := bool_decide (publication (declared r) = live_photo).
Definition receiving_state (r : Resource) : UploadState := if live r then pair_receiving else receiving.
Definition finalizing_state (r : Resource) : UploadState := if live r then pair_finalizing else finalizing.
Definition verified_state (r : Resource) : UploadState := if live r then pair_verified else verified.

(** The upload a request may work on: its owner's, not expired, not cancelled ([get], and [locked] inside its
    transaction); with [allowExpiredPublished], published ones at any time. *)
Definition available (allowExpiredPublished : bool) (i o : string) (w : World) : option Resource :=
  r ← resources w !! i;
  if bool_decide (ownerId r = Some o) && ((now w <? expiresAt r) || (allowExpiredPublished && bool_decide (state r = published))) &&
     negb (bool_decide (state r = cancelled))
  then Some r else None.
Definition locked (allowExpiredPublished : bool) (i o : string) (w : World) : option Resource :=
  if bool_decide (is_Some (users w !! o)) then available allowExpiredPublished i o w else None.
Definition get := available false.

(** ** Creating *)

Definition incomplete (w : World) (o : string) (r : Resource) : bool :=
  bool_decide (ownerId r = Some o) && (now w <? expiresAt r) && negb (ingested r) && negb (includes (state r) [cancelled; rejected]).
Definition new_resource (w : World) (o : string) (d : Declared) (size : option Z) : Resource :=
  mkResource (Some o) d size 0 (if bool_decide (publication d = live_photo) then pair_receiving else receiving) None None false None (now w + MAX_AGE_MS).
(** [create]: a capture's identifier is its client's, and asking again answers with what is there. *)
Definition create (i o : string) (d : Declared) (size : option Z) (w : World) : option World :=
  if negb (bool_decide (is_Some (users w !! o))) then None
  else if bool_decide (publication d = capture) && bool_decide (is_Some (resources w !! i)) then Some w
  else if (maxActive <=? count_if (incomplete w o) (resources w))%nat then None
  else if bool_decide (is_Some (resources w !! i)) then None
  else Some (put_manifest i ∅ (put_resource i (new_resource w o d size) w)).

(** ** Streams

    One stream of an upload, or one for each of its parts at a time. *)

Definition lease_key (i : string) (k : Kind) : string := match k with Put at_ _ => i +:+ ":" +:+ string_of_int at_ | _ => i end.
Definition free (w : World) (key : string) : bool := match leases w !! key with Some l => expires_at l <=? now w | None => true end.
Definition parts_in_flight (w : World) (i : string) : nat :=
  length (List.filter (fun kl => starts_with (i +:+ ":") kl.1 && (now w <? expires_at kl.2)) (map_to_list (leases w))).
Definition claim_stream (tok i : string) (k : Kind) (w : World) : option World :=
  let key := lease_key i k in
  if match k with Put _ _ => (maxParallelParts <=? parts_in_flight w i)%nat | _ => false end then None
  else if free w key then Some (set_leases (<[key := mkLease tok (now w + LEASE_MS)]> (leases w)) w) else None.
Definition is_current (w : World) (tok : string) (q : Request) : bool :=
  match leases w !! lease_key (q_upload q) (q_kind q) with Some l => String.eqb (l_token l) tok && (now w <? expires_at l) | None => false end.
Definition release_stream (tok : string) (q : Request) (w : World) : World :=
  let key := lease_key (q_upload q) (q_kind q) in
  match leases w !! key with Some l => if String.eqb (l_token l) tok then set_leases (delete key (leases w)) w else w | None => w end.

(** ** What a request may send *)

(** [validate] of an append, and [receiving] of a part. *)
Definition validate (row : Resource) (at_ : Z) (length_ : option Z) : bool :=
  (offset row =? at_) && bool_decide (state row = receiving_state row) &&
  match length_ with
  | Some l => (offset row <=? l) && (l <=? maxSize (declared row)) && match expectedSize row with Some e => l =? e | None => true end
  | None => true
  end.
Definition receiving_part (row : Resource) (at_ length_ : Z) : bool :=
  bool_decide (state row = receiving_state row) &&
  match expectedSize row with Some e => (length_ <=? maxAppendSize (declared row)) && (at_ + length_ <=? e) | None => false end.

Definition wellFormed (k : Kind) : bool :=
  match k with
  | Append at_ _ l => (0 <=? at_) && (at_ <=? LIMIT_SIZE) && match l with Some l => (1 <=? l) && (l <=? LIMIT_SIZE) | None => true end
  | Put at_ l => (0 <=? at_) && (at_ <=? LIMIT_SIZE) && (1 <=? l) && (l <=? LIMIT_SIZE)
  | Finish => true
  end.
(** A request ends, and gives its stream back; [stop] alone is one that dies. *)
Definition ends (tok : string) (q : Request) (w : World) : World := release_stream tok q (stop tok w).

(** A new request, with a token of its own.  A part's checks come before its stream. *)
Definition first_phase (k : Kind) (row : Resource) : option Phase :=
  match k with
  | Append _ _ _ => Some Working
  | Put at_ l => if receiving_part row at_ l then Some (Read row) else None
  | Finish => Some Finishing
  end.
Definition begin (i o : string) (k : Kind) (admitted : bool) (w : World) : World :=
  let tok := uuid (given w) in
  let w' := set_given (S (given w)) w in
  match (if admitted && wellFormed k then get i o w else None) with
  | Some row =>
      match first_phase k row, claim_stream tok i k w' with
      | Some p, Some w'' => set_requests (<[tok := mkRequest i o k p]> (requests w'')) w''
      | _, _ => w'
      end
  | None => w'
  end.

Definition settled (r : Resource) : bool := includes (state r) [finalizing; pair_finalizing; verified; pair_verified; published].
(** An append's row: a completed upload only answers again, and a full disk refuses. *)
Definition size_of (row : Resource) (length_ : option Z) : option Z := match expectedSize row with Some e => Some e | None => length_ end.
Definition read (tok : string) (disk : Z) (w : World) : World :=
  match requests w !! tok with
  | Some q =>
      match q_phase q, q_kind q with
      | Working, Append at_ complete l =>
          match get (q_upload q) (q_owner q) w with
          | None => ends tok q w
          | Some row =>
              if settled row && complete && (offset row =? at_) then
                if match l with Some l => bool_decide (expectedSize row = Some l) | None => true end
                then to_phase tok Finishing w else ends tok q w
              else if negb (validate row at_ l) then ends tok q w
              else if match size_of row l with Some e => disk <? e * 2 - at_ | None => false end then ends tok q w
              else to_phase tok (Read row) w
          end
      | _, _ => w
      end
  | None => w
  end.

(** How much a request may write. *)
Definition part_limit (row : Resource) (k : Kind) : Z :=
  match k with
  | Append at_ _ l => Z.min (Z.min (maxAppendSize (declared row)) (maxSize (declared row) - at_))
                        (match size_of row l with Some e => e - at_ | None => maxSize (declared row) end)
  | Put _ l => l
  | Finish => 0
  end.
Definition part_name (n : nat) : string := uuid n +:+ ".part".
(** [writeAssetUploadPart]: a new file, kept when its bytes are within the limit.  A part is all or nothing;
    an append keeps what came before an interruption. *)
Definition write_part (tok : string) (disk : Z) (bytes : Bytes) (interrupted : bool) (w : World) : World :=
  match requests w !! tok with
  | Some q =>
      match q_phase q with
      | Read row =>
          let name := part_name (given w) in
          let size := Z.of_nat (length bytes) in
          let whole := match q_kind q with
                       | Put _ l => negb (disk <? default 0 (expectedSize row) * 2 - offset row) && negb interrupted && (size =? l)
                       | _ => true
                       end in
          if (size <=? part_limit row (q_kind q)) && whole then
            to_phase tok (Written row name size interrupted) (set_files (<[(q_upload q, name) := bytes]> (files w)) (set_given (S (given w)) w))
          else ends tok q (set_given (S (given w)) w)
      | _ => w
      end
  | None => w
  end.

(** ** Committing a part *)

Definition by_offset (m : Manifest) : list (Z * Part) := sort_by (fun a b => a.1 - b.1) (map_to_list m).
(** The received prefix, from [at_] on. *)
Definition contiguous (at_ : Z) (l : list (Z * Part)) : Z := foldl (fun c p => if p.1 =? c then c + p_size p.2 else c) at_ l.
(** A sequential append supersedes the parallel parts at or past its offset. *)
Definition before (at_ : Z) (m : Manifest) : Manifest := filter (fun op => op.1 < at_) m.
Definition superseded (at_ : Z) (m : Manifest) : list string :=
  map (fun op => p_name op.2) (List.filter (fun op => at_ <=? op.1) (map_to_list m)).

Definition appended (row : Resource) (at_ : Z) (complete : bool) (size_hint : option Z) (size : Z) (interrupted : bool) : Resource :=
  let next := at_ + size in
  let finalize := complete && negb interrupted && (0 <? next) && match size_hint with Some e => next =? e | None => true end in
  set_received (match size_hint with Some e => Some e | None => if finalize then Some next else None end) next
    (if finalize then finalizing_state row else receiving_state row) row.
Definition append_part (i o : string) (at_ : Z) (complete : bool) (l : option Z) (initial : Resource) (name : string) (size : Z) (interrupted : bool)
    (w : World) : option (list string * World) :=
  row ← locked false i o w;
  if negb (validate row at_ l) || negb (bool_decide (expectedSize row = expectedSize initial)) then None
  else
    let m := manifest w i in
    let w := if 0 <? size then put_manifest i (<[at_ := mkPart name size]> (before at_ m)) w else w in
    Some (if 0 <? size then superseded at_ m else [], put_resource i (appended row at_ complete (size_of initial l) size interrupted) w).

Definition overlaps (at_ l : Z) (op : Z * Part) : bool := (op.1 <? at_ + l) && (at_ <? op.1 + p_size op.2).
Definition put_row (row : Resource) (m : Manifest) : Resource :=
  let c := contiguous (offset row) (by_offset m) in
  set_received (expectedSize row) c (if bool_decide (expectedSize row = Some c) then finalizing_state row else receiving_state row) row.
(** [true]: the very part was received before. *)
Definition put_part (i o : string) (at_ l : Z) (name : string) (w : World) : option (bool * World) :=
  row ← locked false i o w;
  if negb (receiving_part row at_ l) then None
  else
    let m := manifest w i in
    let overlapping := List.filter (overlaps at_ l) (map_to_list m) in
    if existsb (fun op => negb ((op.1 =? at_) && (p_size op.2 =? l))) overlapping then None
    else if bool_decide (overlapping = []) then
      let m := <[at_ := mkPart name l]> m in
      Some (false, put_resource i (put_row row m) (put_manifest i m w))
    else Some (true, w).

(** [Answered]: the outcome of the commit is known.  [Lost]: its answer is lost, whether it was applied or not;
    the file is then left for the sweep. *)
Inductive CommitAnswer := Answered | Lost (applied : bool).
Definition commit (tok : string) (admitted : bool) (answer : CommitAnswer) (w : World) : World :=
  match requests w !! tok with
  | Some q =>
      match q_phase q with
      | Written initial name size interrupted =>
          let current := admitted && is_current w tok q in
          let i := q_upload q in
          match q_kind q with
          | Append at_ complete l =>
              match (if current then append_part i (q_owner q) at_ complete l initial name size interrupted w else None) with
              | Some (gone, w') =>
                  match answer with
                  | Answered =>
                      let next := match resources w' !! i with Some r => negb interrupted && includes (state r) [finalizing; pair_finalizing] | None => false end in
                      to_phase tok (Leaving (gone ++ (if size =? 0 then [name] else [])) next) w'
                  | Lost true => ends tok q w'
                  | Lost false => ends tok q w
                  end
              | None => ends tok q w
              end
          | Put at_ l =>
              match (if current then put_part i (q_owner q) at_ l name w else None) with
              | Some (repeated, w') =>
                  match answer with
                  | Answered => to_phase tok (Leaving (if repeated : bool then [name] else []) false) w'
                  | Lost true => ends tok q w'
                  | Lost false => ends tok q w
                  end
              | None => to_phase tok (Leaving [name] false) w
              end
          | Finish => w
          end
      | _ => w
      end
  | None => w
  end.
(** The files left to remove go; the request ends, or finalizes. *)
Definition leave (tok : string) (w : World) : World :=
  match requests w !! tok with
  | Some q =>
      match q_phase q with
      | Leaving doomed next =>
          let w := remove_files (q_upload q) doomed w in
          if next : bool then to_phase tok Finishing w else ends tok q w
      | _ => w
      end
  | None => w
  end.

(** ** Assembling *)

Definition gather (tok : string) (w : World) : World :=
  match requests w !! tok with
  | Some q =>
      match q_phase q, get (q_upload q) (q_owner q) w with
      | Finishing, Some row =>
          if includes (state row) [finalizing; pair_finalizing] then to_phase tok (Gathered row (by_offset (manifest w (q_upload q)))) w
          else if bool_decide (state row = rejected) then ends tok q w
          else to_phase tok (Settling row) w
      | Finishing, None => ends tok q w
      | _, _ => w
      end
  | None => w
  end.

Definition alphanumeric (c : ascii) : bool :=
  is_digit c || ((97 <=? char_code c) && (char_code c <=? 122)) || ((65 <=? char_code c) && (char_code c <=? 90)).
(** [/^\.[a-zA-Z0-9]+$/]. *)
Definition validExtension (e : string) : bool :=
  match e with String c rest => Ascii.eqb c "." && negb (String.eqb rest "") && string_all alphanumeric rest | EmptyString => false end.
(** [/^[a-f0-9-]{36}\.part$/]. *)
Definition is_part_name (n : string) : bool :=
  (String.length n =? 41)%nat && string_all uuid_char (string_take 36 n) && String.eqb (string_drop 36 n) ".part".

(** The bytes of the parts in order: [Rejected] when the manifest or the digest is wrong, nothing when a file
    cannot be read. *)
Inductive Assembly := Assembles (bytes : Bytes) | Rejected | Unreadable.
Fixpoint assemble_parts (fs : gmap Path Bytes) (folder : string) (size : Z) (l : list (Z * Part)) (sofar : Bytes) : Assembly :=
  match l with
  | [] => Assembles sofar
  | (at_, p) :: l =>
      if negb (at_ =? Z.of_nat (length sofar)) || (p_size p =? 0) || negb (is_part_name (p_name p)) then Rejected
      else
        match fs !! (folder, p_name p) with
        | None => Unreadable
        | Some bytes =>
            if negb (Z.of_nat (length bytes) =? p_size p) then Rejected
            else
              let sofar := sofar ++ bytes in
              if size <? Z.of_nat (length sofar) then Rejected else assemble_parts fs folder size l sofar
        end
  end.
(** [assembleAssetUploadParts]. *)
Definition assembleAssetUploadParts (fs : gmap Path Bytes) (folder : string) (l : list (Z * Part)) (size : Z) (digest extension : string) : Assembly :=
  if negb (validExtension extension) then Rejected
  else
    match assemble_parts fs folder size l [] with
    | Assembles bytes => if (Z.of_nat (length bytes) =? size) && String.eqb (sha256 bytes) digest then Assembles bytes else Rejected
    | other => other
    end.
Definition extension (d : Declared) : string := MimeTypes.mimeTypes.getFilenameExtension (filename d).

(** The file of an assembly is new; the request keeps it only when it is the declared one. *)
Definition assemble (tok : string) (w : World) : World :=
  match requests w !! tok with
  | Some q =>
      match q_phase q with
      | Gathered row l =>
          let name := uuid (given w) +:+ extension (declared row) in
          match assembleAssetUploadParts (files w) (q_upload q) l (offset row) (expectedChecksum (declared row)) (extension (declared row)) with
          | Assembles bytes =>
              to_phase tok (Assembled row name bytes) (set_files (<[(q_upload q, name) := bytes]> (files w)) (set_given (S (given w)) w))
          | Rejected => to_phase tok (Refused row) (set_given (S (given w)) w)
          | Unreadable => ends tok q (set_given (S (given w)) w)
          end
      | _ => w
      end
  | None => w
  end.

(** The verdict, under the row's lock; a refusal checks its stream before its transaction ([admitted]). *)
Definition conclude (tok : string) (admitted : bool) (w : World) : World :=
  match requests w !! tok with
  | Some q =>
      let i := q_upload q in
      let current := match q_phase q with Refused _ => true | _ => is_current w tok q end in
      match q_phase q, (if admitted && current then locked false i (q_owner q) w else None) with
      | Assembled initial name bytes, Some row =>
          if negb (bool_decide (state row = state initial)) then to_phase tok (Settling row) w
          else if negb ((offset row =? offset initial) && String.eqb (expectedChecksum (declared row)) (expectedChecksum (declared initial))) then ends tok q w
          else
            let row := set_final (verified_state row) (mkFinal (i, name) (sha256 bytes) (sha1 bytes)) row in
            to_phase tok (Settling row) (put_resource i row w)
      | Refused initial, Some row =>
          if bool_decide (state row = state initial) && (offset row =? offset initial)
          then to_phase tok Sweeping (put_resource i (set_state rejected row) w)
          else ends tok q w
      | Assembled _ _ _, None | Refused _, None => ends tok q w
      | _, _ => w
      end
  | None => w
  end.

(** ** Publishing *)

Definition asset_of (w : World) (o sum : string) : option string :=
  fst <$> List.find (fun ia => String.eqb (owner ia.2) o && String.eqb (checksum ia.2) sum) (map_to_list (assets w)).
(** The upload that made the asset is still to be ingested. *)
Definition pendingCreatedOrigin (w : World) (o a sum : string) : bool :=
  existsb (fun ir => bool_decide (ownerId ir.2 = Some o) && bool_decide (result ir.2 = Some (mkOutcome a CREATED)) &&
      match final ir.2 with Some f => String.eqb (verifiedChecksum f) sum | None => false end &&
      bool_decide (state ir.2 = published) && negb (ingested ir.2)) (map_to_list (resources w)).
Definition charge (o : string) (n : Z) (w : World) : option World :=
  u ← users w !! o;
  if match quotaSize u with Some q => quotaUsage u + n <=? q | None => true end
  then Some (set_users (<[o := mkUser (quotaUsage u + n) (quotaSize u)]> (users w)) w) else None.
Definition create_asset (a : Asset) (w : World) : option (string * World) :=
  if bool_decide (is_Some (assets w !! uuid (given w))) || bool_decide (is_Some (asset_of w (owner a) (checksum a))) then None
  else Some (uuid (given w), set_assets (<[uuid (given w) := a]> (assets w)) (set_given (S (given w)) w)).

(** [edit]: the authority of an iCloud edit, with the asset it is bound to. *)
Definition publish (i : string) (prepared : Final) (video : bool) (motion : option string) (rejectDuplicate quotaCharged : bool)
    (edit : option (option string)) (w : World) : option World :=
  row ← resources w !! i;
  match result row, ownerId row, final row with
  | None, Some o, Some f =>
      if negb (bool_decide (state row = if rejectDuplicate then pair_verified else verified)) then None
      else
        let bound := edit ≫= id in
        let duplicate := match bound with Some a => Some a | None => asset_of w o (verifiedChecksum f) end in
        if negb (is_None_b edit) && negb (is_None_b duplicate) && negb (bool_decide (bound = duplicate)) then None
        else if negb (is_None_b duplicate) && rejectDuplicate then None
        else
          match duplicate with
          | Some a =>
              let pending := pendingCreatedOrigin w o a (verifiedChecksum f) in
              Some (put_resource i (set_result (mkOutcome a DUPLICATE) (negb pending) row) w)
          | None =>
              w ← (if quotaCharged then Some w else charge o (offset row) w);
              aw ← create_asset (mkAsset o (verifiedChecksum prepared) (finalPath prepared) (offset row) motion video) w;
              Some (put_resource i (set_result (mkOutcome aw.1 CREATED) false row) aw.2)
          end
  | _, _, _ => None
  end.

(** A verified upload is published by the request that finalized it; a capture and the halves of a Live
    Photo are not, they wait for their own commit.  [restored]: the asset whose lost original the bytes
    were put back under, and whether the uploader may see it. *)
Definition settle (tok : string) (admitted video : bool) (edit : option (option string)) (restored : option (string * bool)) (w : World) : World :=
  match requests w !! tok with
  | Some q =>
      match q_phase q with
      | Settling row =>
          let i := q_upload q in
          if bool_decide (state row = verified) && bool_decide (publication (declared row) = single) then
            match (if admitted && is_current w tok q then locked false i (q_owner q) w else None), final row with
            | Some now_, Some f =>
                if bool_decide (state now_ = published) then to_phase tok (Settling now_) w
                else
                  match (match restored with
                         | Some (a, visible) =>
                             Some (put_resource i (set_result (mkOutcome a (if visible : bool then CREATED else DUPLICATE)) true now_) w)
                         | None => publish i f video None false false edit w
                         end) with
                  | Some w => match resources w !! i with Some r => to_phase tok (Settling r) w | None => w end
                  | None => ends tok q w
                  end
            | _, _ => ends tok q w
            end
          else if bool_decide (state row = verified) && bool_decide (publication (declared row) = capture) then ends tok q w
          else
            match get i (q_owner q) w with
            | Some r => if bool_decide (state r = published) && ingested r && admitted && is_current w tok q then to_phase tok Sweeping w
                        else ends tok q w
            | None => ends tok q w
            end
      | _ => w
      end
  | None => w
  end.
(** [commitCapture]: a verified capture is published in its receipt's transaction. *)
Definition commit_capture (tok : string) (admitted video : bool) (w : World) : World :=
  match requests w !! tok with
  | Some q =>
      match q_phase q with
      | Settling row =>
          if bool_decide (publication (declared row) = capture) && bool_decide (state row = verified) then
            match (if admitted && is_current w tok q then locked false (q_upload q) (q_owner q) w else None), final row with
            | Some now_, Some f =>
                match (if bool_decide (state now_ = published) then Some w else publish (q_upload q) f video None false false None w) with
                | Some w => match resources w !! q_upload q with Some r => to_phase tok (Settling r) w | None => w end
                | None => ends tok q w
                end
            | _, _ => ends tok q w
            end
          else w
      | _ => w
      end
  | None => w
  end.

(** [publishLivePhoto]: both halves, their motion link and one charge for both. *)
Definition publish_live_photo (o s v : string) (prepared : bool) (w : World) : option World :=
  still ← locked false s o w;
  motion ← locked false v o w;
  if String.eqb s v || negb (live still && live motion) then None
  else
    match final still, final motion with
    | Some fs, Some fv =>
        if negb (String.eqb (verifiedChecksum fs) (expectedChecksum (declared still))) || negb (String.eqb (verifiedChecksum fv) (expectedChecksum (declared motion))) then None
        else if bool_decide (state still = published) && bool_decide (state motion = published) then
          match result still, result motion with
          | Some rs, Some rv =>
              match assets w !! resultAssetId rs, assets w !! resultAssetId rv with
              | Some a, Some b =>
                  if String.eqb (owner a) o && negb (is_video a) && bool_decide (livePhotoVideoId a = Some (resultAssetId rv)) &&
                     String.eqb (owner b) o && is_video b && bool_decide (resultStatus rs = CREATED) && bool_decide (resultStatus rv = CREATED)
                  then Some w else None
              | _, _ => None
              end
          | _, _ => None
          end
        else if negb (bool_decide (state still = pair_verified) && bool_decide (state motion = pair_verified) && prepared) then None
        else
          w ← charge o (offset still + offset motion) w;
          w ← publish v fv true None true true None w;
          match resources w !! v ≫= result with
          | Some rv => publish s fs false (Some (resultAssetId rv)) true true None w
          | None => None
          end
    | _, _ => None
    end.

(** ** Ingestion *)

Definition completeDuplicate (i o : string) (w : World) : option World :=
  row ← locked false i o w;
  match result row, final row with
  | Some out, Some f =>
      if negb (bool_decide (state row = published) && bool_decide (resultStatus out = DUPLICATE) && negb (ingested row)) then None
      else
        match assets w !! resultAssetId out with
        | Some a =>
            if String.eqb (owner a) o && String.eqb (checksum a) (verifiedChecksum f) &&
               negb (pendingCreatedOrigin w o (resultAssetId out) (verifiedChecksum f))
            then Some (put_resource i (set_ingestion true (ingestion row) row) w) else None
        | None => None
        end
  | _, _ => None
  end.
Definition leased (w : World) (r : Resource) : bool := match ingestion r with Some g => now w <? ingestionLeaseExpiresAt g | None => false end.
Definition claimIngestion (i o : string) (w : World) : option World :=
  row ← locked true i o w;
  if bool_decide (state row = published) && negb (ingested row) && negb (leased w row)
  then Some (put_resource i (set_ingestion false (Some (mkIngestion (uuid (given w)) (now w + 600 * 1000))) row) (set_given (S (given w)) w))
  else None.
Definition completeIngestion (i o token : string) (w : World) : option World :=
  row ← locked true i o w;
  match ingestion row, result row, final row with
  | Some g, Some out, Some f =>
      if negb (String.eqb (ingestionToken g) token) || negb (leased w row) then None
      else
        match assets w !! resultAssetId out with
        | Some a => if String.eqb (owner a) o && String.eqb (checksum a) (verifiedChecksum f)
                    then Some (put_resource i (set_ingestion true None row) w) else None
        | None => None
        end
  | _, _, _ => None
  end.

(** ** Cancelling and cleaning up *)

Definition cancel (i o : string) (w : World) : option World :=
  row ← locked false i o w;
  if bool_decide (state row = published) then None else Some (put_resource i (set_cancelled (now w) (ingestion row) row) w).

(** The asset an unfinished publication made is still there, with its owner. *)
Definition retained (w : World) (row : Resource) : bool :=
  match ownerId row, result row, final row with
  | Some o, Some out, Some f =>
      bool_decide (is_Some (users w !! o)) && bool_decide (state row = published) && negb (ingested row) &&
      match assets w !! resultAssetId out with Some a => String.eqb (owner a) o && String.eqb (checksum a) (verifiedChecksum f) | None => false end
  | _, _, _ => false
  end.
Definition has_owner (w : World) (row : Resource) : bool := match ownerId row with Some o => bool_decide (is_Some (users w !! o)) | None => false end.
Definition cleanup_row (i : string) (w : World) : option World :=
  row ← resources w !! i;
  if retained w row then None
  else if has_owner w row && (now w <? expiresAt row) && negb (bool_decide (state row = cancelled)) then None
  else Some (put_resource i (set_cancelled (now w + (if bool_decide (state row = cancelled) then 86400 else 600) * 1000) None row) w).
(** [cleanup]: the row's transaction, then the sweep of its folder. *)
Definition cleanup (i : string) (w : World) : World :=
  match cleanup_row i w with
  | Some w' =>
      set_given (S (given w)) (set_requests (<[uuid (given w) := mkRequest i "" Finish Sweeping]> (requests w')) w')
  | None => w
  end.

(** [deleteUnreferencedPath] of one file of the folder: an asset's original stays. *)
Definition referenced (w : World) (p : Path) : bool := existsb (fun ia => bool_decide (originalPath ia.2 = p)) (map_to_list (assets w)).
Definition sweep_file (tok name : string) (w : World) : World :=
  match requests w !! tok with
  | Some q =>
      match q_phase q with
      | Sweeping => if referenced w (q_upload q, name) then w else set_files (delete (q_upload q, name) (files w)) w
      | _ => w
      end
  | None => w
  end.
Definition end_request (tok : string) (w : World) : World :=
  match requests w !! tok with Some q => ends tok q w | None => w end.

(** ** Every operation *)

Inductive Op :=
| Create (i o : string) (d : Declared) (size : option Z)
| Begin (i o : string) (k : Kind) (admitted : bool)
| ReadRow (tok : string) (disk : Z)
| WritePart (tok : string) (disk : Z) (bytes : Bytes) (interrupted : bool)
| Commit (tok : string) (admitted : bool) (answer : CommitAnswer)
| Leave (tok : string)
| Gather (tok : string)
| Assemble (tok : string)
| Conclude (tok : string) (admitted : bool)
| Settle (tok : string) (admitted video : bool) (edit : option (option string)) (restored : option (string * bool))
| CommitCapture (tok : string) (admitted video : bool)
| PublishLivePhoto (o s v : string) (prepared : bool)
| CompleteDuplicate (i o : string)
| ClaimIngestion (i o : string)
| CompleteIngestion (i o token : string)
| Cancel (i o : string)
| Cleanup (i : string)
| SweepFile (tok name : string)
| End (tok : string)
| Stop (tok : string)
| RemoveAsset (a : string)
| RemoveUser (o : string)
| Tick (ms : nat).

Definition or_same (x : option World) (w : World) : World := default w x.
Definition perform (op : Op) (w : World) : World :=
  match op with
  | Create i o d size => or_same (create i o d size w) w
  | Begin i o k admitted => begin i o k admitted w
  | ReadRow tok disk => read tok disk w
  | WritePart tok disk bytes interrupted => write_part tok disk bytes interrupted w
  | Commit tok admitted answer => commit tok admitted answer w
  | Leave tok => leave tok w
  | Gather tok => gather tok w
  | Assemble tok => assemble tok w
  | Conclude tok admitted => conclude tok admitted w
  | Settle tok admitted video edit restored => settle tok admitted video edit restored w
  | CommitCapture tok admitted video => commit_capture tok admitted video w
  | PublishLivePhoto o s v prepared => or_same (publish_live_photo o s v prepared w) w
  | CompleteDuplicate i o => or_same (completeDuplicate i o w) w
  | ClaimIngestion i o => or_same (claimIngestion i o w) w
  | CompleteIngestion i o token => or_same (completeIngestion i o token w) w
  | Cancel i o => or_same (cancel i o w) w
  | Cleanup i => cleanup i w
  | SweepFile tok name => sweep_file tok name w
  | End tok => end_request tok w
  | Stop tok => stop tok w
  | RemoveAsset a => set_assets (delete a (assets w)) w
  | RemoveUser o => set_users (delete o (users w)) (set_resources ((fun r => if bool_decide (ownerId r = Some o) then set_owner None r else r) <$> resources w) w)
  | Tick ms => set_now (now w + Z.of_nat ms) w
  end.
Definition play (ops : list Op) (w : World) : World := foldl (fun w op => perform op w) w ops.
Definition empty_world (us : gmap string User) (t : Z) : World := mkWorld ∅ ∅ ∅ ∅ us ∅ ∅ 0 t.
End upload.
