(* ===== verification/AssetUploadManifest.v ===== *)
(** * What an upload has received

    The manifest of an upload as a set of bytes: which are covered, that parts never overlap, and that the
    offset of the upload is the length of its received prefix.  The lemmas say what an append and a part
    put beside others do to it, and that the parts of a complete upload assemble to their bytes in order. *)

From S2P Require Import Prelude JsString AssetUpload.
Local Open Scope Z_scope.

(** [b] is a byte of one of the parts. *)
Definition covered (m : Manifest) (b : Z) : Prop := exists o p, m !! o = Some p /\ o <= b < o + p_size p.
Definition sized (m : Manifest) : Prop := forall o p, m !! o = Some p -> 0 <= o /\ 0 < p_size p.
Definition disjoint (m : Manifest) : Prop :=
  forall o1 o2 p1 p2, m !! o1 = Some p1 -> m !! o2 = Some p2 -> o1 < o2 -> o1 + p_size p1 <= o2.
(** The bytes from the start that are there without a gap. *)
Definition prefix (m : Manifest) (n : Z) : Prop := 0 <= n /\ (forall b, 0 <= b < n -> covered m b) /\ ~ covered m n.
Definition within (m : Manifest) (size : option Z) (n : Z) : Prop :=
  match size with Some e => forall o p, m !! o = Some p -> o + p_size p <= e | None => forall o p, m !! o = Some p -> o < n end.

Lemma prefix_unique m a b : prefix m a -> prefix m b -> a = b.
Proof.
  intros (Ha & Hca & Hna) (Hb & Hcb & Hnb). destruct (Z.lt_trichotomy a b) as [H|[H|H]]; [|done|].
  - destruct Hna. apply Hcb. lia.
  - destruct Hnb. apply Hca. lia.
Qed.

(** Parts before the end of the prefix end within it, and the others start past it. *)
Lemma prefix_before m n o p : prefix m n -> m !! o = Some p -> o < n -> o + p_size p <= n.
Proof. intros (_ & _ & H) Ho Hlt. destruct (Z.lt_ge_cases n (o + p_size p)); [|done]. destruct H. exists o, p. split; [done|lia]. Qed.
Lemma prefix_after m n o p : sized m -> prefix m n -> m !! o = Some p -> ~ o < n -> n < o.
Proof. intros Hs (_ & _ & H) Ho Hge. destruct (decide (o = n)) as [->|]; [|lia]. destruct H. exists n, p. destruct (Hs _ _ Ho). split; [done|lia]. Qed.

(** ** A sequential append *)

Lemma before_lookup at_ m o : before at_ m !! o = if decide (o < at_) then m !! o else None.
Proof.
  unfold before. destruct (decide (o < at_)) as [H|H].
  - destruct (m !! o) as [p|] eqn:E; [by apply map_lookup_filter_Some|]. apply map_lookup_filter_None. by left.
  - apply map_lookup_filter_None. right. by intros p _.
Qed.

Section append.
Context (m : Manifest) (n size : Z) (name : string) (Hs : sized m) (Hd : disjoint m) (Hp : prefix m n) (Hsize : 0 < size).
Let m' : Manifest := <[n := mkPart name size]> (before n m).

Lemma append_lookup o p : m' !! o = Some p -> (o = n /\ p = mkPart name size) \/ (o < n /\ m !! o = Some p).
Proof.
  unfold m'. destruct (decide (o = n)) as [->|Ho]; [rewrite lookup_insert_eq; intros [= <-]; by left|].
  rewrite lookup_insert_ne, before_lookup by done. destruct (decide (o < n)); [by right|done].
Qed.
Lemma append_kept o p : o < n -> m !! o = Some p -> m' !! o = Some p.
Proof. intros Ho Hm. unfold m'. rewrite lookup_insert_ne, before_lookup by lia. by rewrite decide_True. Qed.
Lemma append_sized : sized m'.
Proof. intros o p [[-> ->]|[_ H]]%append_lookup; [cbn; destruct Hp; lia|by apply Hs]. Qed.
Lemma append_disjoint : disjoint m'.
Proof.
  intros o1 o2 p1 p2 [[-> ->]|[H1 H1']]%append_lookup [[-> ->]|[H2 H2']]%append_lookup Hlt; cbn; [lia|lia| |by eapply Hd].
  by eapply prefix_before.
Qed.
Lemma append_prefix : prefix m' (n + size).
Proof.
  destruct Hp as (H0 & Hc & Hn). split; [lia|]. split.
  - intros b Hb. destruct (decide (b < n)) as [Hbn|Hbn].
    + destruct (Hc b ltac:(lia)) as (o & p & Ho & Hr). exists o, p. split; [apply append_kept; [lia|done]|done].
    + exists n, (mkPart name size). unfold m'. rewrite lookup_insert_eq. split; [done|cbn; lia].
  - intros (o & p & [[-> ->]|[Ho Hm]]%append_lookup & Hr); cbn in Hr; [lia|]. pose proof (prefix_before _ _ _ _ Hp Hm Ho). lia.
Qed.
Lemma append_within (e : option Z) : match e with Some e => n + size <= e | None => True end -> within m' e (n + size).
Proof.
  intros He. destruct e as [e|]; intros o p [[-> ->]|[Ho Hm]]%append_lookup; cbn; [lia| |lia|lia].
  pose proof (prefix_before _ _ _ _ Hp Hm Ho). lia.
Qed.
End append.

(** ** A part beside others *)

Section put.
Context (m : Manifest) (at_ size : Z) (name : string) (Hs : sized m) (Hd : disjoint m) (H0 : 0 <= at_) (Hsize : 0 < size).
Context (Hfree : forall o p, m !! o = Some p -> overlaps at_ size (o, p) = false).
Let m' : Manifest := <[at_ := mkPart name size]> m.

Lemma free_apart o p : m !! o = Some p -> at_ + size <= o \/ o + p_size p <= at_.
Proof. intros H. specialize (Hfree _ _ H). unfold overlaps in Hfree. cbn in Hfree. apply andb_false_iff in Hfree as [?|?]; to_prop; lia. Qed.
Lemma put_fresh : m !! at_ = None.
Proof. destruct (m !! at_) as [p|] eqn:E; [|done]. destruct (free_apart _ _ E); destruct (Hs _ _ E); lia. Qed.
Lemma put_lookup o p : m' !! o = Some p -> (o = at_ /\ p = mkPart name size) \/ m !! o = Some p.
Proof. unfold m'. destruct (decide (o = at_)) as [->|]; [rewrite lookup_insert_eq; intros [= <-]; by left|]. rewrite lookup_insert_ne by done. by right. Qed.
Lemma put_sized : sized m'.
Proof. intros o p [[-> ->]|H]%put_lookup; [by cbn|by apply Hs]. Qed.
Lemma put_disjoint : disjoint m'.
Proof.
  intros o1 o2 p1 p2 [[-> ->]|H1]%put_lookup [[-> ->]|H2]%put_lookup Hlt; cbn; [lia| | |by eapply Hd].
  - destruct (free_apart _ _ H2); [lia|]. destruct (Hs _ _ H2). lia.
  - destruct (free_apart _ _ H1); [|lia]. lia.
Qed.
Lemma put_covers b : covered m' b <-> covered m b \/ at_ <= b < at_ + size.
Proof.
  split.
  - intros (o & p & [[-> ->]|H]%put_lookup & Hr); [by right|]. left. by exists o, p.
  - intros [(o & p & Ho & Hr)|Hr].
    + exists o, p. unfold m'. destruct (decide (o = at_)) as [->|]; [by rewrite put_fresh in Ho|]. by rewrite lookup_insert_ne.
    + exists at_, (mkPart name size). unfold m'. by rewrite lookup_insert_eq.
Qed.
Lemma put_within e n n' : within m (Some e) n -> at_ + size <= e -> within m' (Some e) n'.
Proof. intros H He o p [[-> ->]|Hm]%put_lookup; [done|by apply (H o p)]. Qed.
End put.

(** ** In order *)

#[export] Instance offset_order : Comparator (fun a b : Z * Part => a.1 - b.1) := difference_comparator fst.
(** A list of parts in order that do not overlap. *)
Fixpoint ordered (at_ : Z) (l : list (Z * Part)) : Prop :=
  match l with [] => True | op :: l => at_ <= op.1 /\ 0 < p_size op.2 /\ ordered (op.1 + p_size op.2) l end.

Lemma elem_by_offset m o p : (o, p) ∈ by_offset m <-> m !! o = Some p.
Proof. unfold by_offset. rewrite sort_by_elem. apply elem_of_map_to_list. Qed.
Lemma ordered_weaken a b l : a <= b -> ordered b l -> ordered a l.
Proof. destruct l as [|op l]; cbn; [done|]. intros ? (? & ? & ?). split; [lia|done]. Qed.
Lemma ordered_le a l op : ordered a l -> op ∈ l -> a <= op.1.
Proof.
  revert a; induction l as [|x l IH]; intros a; [by intros _ ?%not_elem_of_nil|]. intros (Ha & Hx & Hl) [->|Hop]%elem_of_cons; [done|].
  pose proof (IH _ Hl Hop). lia.
Qed.
Lemma by_offset_ordered m : sized m -> disjoint m -> ordered 0 (by_offset m).
Proof.
  intros Hs Hd. assert (forall op, op ∈ by_offset m -> m !! op.1 = Some op.2) as Hin by (intros [o p]; apply elem_by_offset).
  assert (NoDup (by_offset m)) as Hnd by (unfold by_offset; rewrite sort_by_perm; apply NoDup_map_to_list).
  pose proof (sort_by_sorted (fun a b : Z * Part => a.1 - b.1) (map_to_list m)) as Hsort. fold (by_offset m) in Hsort.
  revert Hin Hnd Hsort. generalize (by_offset m) as l. assert (forall l a, (forall op, op ∈ l -> m !! op.1 = Some op.2) -> NoDup l ->
    StronglySorted (cmp_le (fun a b : Z * Part => a.1 - b.1)) l -> (forall op, op ∈ l -> a <= op.1) -> ordered a l) as H.
  { induction l as [|[o p] l IH]; intros a Hin Hnd Hsort Ha; [done|]. apply StronglySorted_inv in Hsort as [Hsort Hf].
    apply NoDup_cons in Hnd as [Hni Hnd]. pose proof (Hin (o, p) ltac:(left)) as Hop. cbn in Hop. destruct (Hs _ _ Hop).
    cbn [ordered fst snd]. split; [apply (Ha (o, p)); left|]. split; [done|]. apply IH; [intros x Hx; apply Hin; by right|done|done|].
    intros [o' p'] Hx. rewrite Forall_forall in Hf. pose proof (Hf _ Hx) as Hle. unfold cmp_le in Hle. cbn in Hle |- *.
    assert (m !! o' = Some p') as Hop' by (apply (Hin (o', p')); by right). eapply Hd; [exact Hop|exact Hop'|].
    destruct (decide (o = o')) as [->|]; [|lia]. rewrite Hop in Hop'. injection Hop' as ->. done. }
  intros l Hin Hnd Hsort. apply H; [done..|]. intros op Hop. by destruct (Hs _ _ (Hin _ Hop)).
Qed.

(** The fold of a part's commit ends at the first byte that is missing. *)
Lemma contiguous_spec l a b : ordered a l -> a <= b -> (forall op, op ∈ l -> op.1 < b -> op.1 + p_size op.2 <= b) ->
  let c := contiguous b l in
  b <= c /\ (forall x, b <= x < c -> exists op, op ∈ l /\ op.1 <= x < op.1 + p_size op.2) /\ (forall op, op ∈ l -> ~ (op.1 <= c < op.1 + p_size op.2)).
Proof.
  revert a b. induction l as [|[o p] l IH]; intros a b Ho Hab Hno; cbn [contiguous foldl fst snd].
  { split; [lia|]. split; [lia|]. by intros op ?%not_elem_of_nil. }
  destruct Ho as (Ha & Hp & Ho). cbn in Ha, Hp, Ho. destruct (o =? b) eqn:E; to_prop; fold (contiguous (b + p_size p) l); fold (contiguous b l).
  - subst o. destruct (IH (b + p_size p) (b + p_size p) Ho ltac:(lia)) as (H1 & H2 & H3).
    { intros op Hop Hlt. pose proof (ordered_le _ _ _ Ho Hop). lia. }
    split; [lia|]. split.
    + intros x Hx. destruct (decide (x < b + p_size p)); [exists (b, p); split; [left|cbn; lia]|].
      destruct (H2 x ltac:(lia)) as (op & ? & ?). exists op. split; [by right|done].
    + intros op [->|Hop]%elem_of_cons; [cbn; lia|by apply H3].
  - destruct (decide (o < b)) as [Hlt|Hge].
    + pose proof (Hno (o, p) ltac:(left) Hlt) as Hle. cbn in Hle.
      destruct (IH (o + p_size p) b Ho Hle) as (H1 & H2 & H3); [intros op Hop; apply Hno; by right|]. split; [done|]. split.
      * intros x Hx. destruct (H2 x Hx) as (op & ? & ?). exists op. split; [by right|done].
      * intros op [->|Hop]%elem_of_cons; [cbn; lia|by apply H3].
    + assert (forall op, op ∈ l -> b < op.1) as Hafter by (intros op Hop; pose proof (ordered_le _ _ _ Ho Hop); lia).
      assert (contiguous b l = b) as ->.
      { clear -Hafter. induction l as [|op l IH]; [done|]. cbn [contiguous foldl]. destruct (op.1 =? b) eqn:E; to_prop.
        - pose proof (Hafter op ltac:(left)). lia.
        - apply IH. intros x Hx. apply Hafter. by right. }
      split; [lia|]. split; [lia|]. intros op [->|Hop]%elem_of_cons; [cbn; lia|]. pose proof (Hafter op Hop). lia.
Qed.

Lemma contiguous_prefix m n m' : prefix m n -> sized m' -> disjoint m' -> (forall o p, m !! o = Some p -> m' !! o = Some p) ->
  (forall o p, m' !! o = Some p -> o < n -> o + p_size p <= n) -> prefix m' (contiguous n (by_offset m')).
Proof.
  intros (H0 & Hc & _) Hs Hd Hsub Hno. destruct (contiguous_spec (by_offset m') 0 n (by_offset_ordered m' Hs Hd) H0) as (H1 & H2 & H3).
  { intros [o p] Hop%elem_by_offset. by apply Hno. }
  split; [lia|]. split.
  - intros b Hb. destruct (decide (b < n)) as [Hbn|Hbn].
    + destruct (Hc b ltac:(lia)) as (o & p & Ho & Hr). exists o, p. split; [by apply Hsub|done].
    + destruct (H2 b ltac:(lia)) as ([o p] & Hop%elem_by_offset & Hr). by exists o, p.
  - intros (o & p & Hop & Hr). by apply (H3 (o, p)); [apply elem_by_offset|].
Qed.

(** ** What an upload's row says of its manifest *)

(** All of it is there. *)
Definition complete (r : Resource) : Prop := expectedSize r = Some (offset r) /\ 0 < offset r.
Definition past_receiving (s : UploadState) : bool := includes s [finalizing; pair_finalizing; verified; pair_verified; published; rejected].
Record row_ok (r : Resource) (m : Manifest) : Prop := {
  ro_sized : sized m;
  ro_disjoint : disjoint m;
  ro_prefix : prefix m (offset r);
  ro_within : within m (expectedSize r) (offset r);
  ro_complete : past_receiving (state r) = true -> complete r
}.

Lemma new_row_ok (r : Resource) : offset r = 0 -> past_receiving (state r) = false -> row_ok r ∅.
Proof.
  intros Ho Hs. split; [by intros o p|by intros o1 o2 p1 p2| | |by rewrite Hs].
  - rewrite Ho. split; [lia|]. split; [lia|]. by intros (o & p & ? & _).
  - unfold within. destruct (expectedSize r); by intros o p.
Qed.

Lemma receiving_not_past r : state r = receiving_state r -> past_receiving (state r) = false.
Proof. unfold receiving_state. intros ->. by destruct (live r). Qed.
Lemma finalizing_past r : past_receiving (finalizing_state r) = true.
Proof. unfold finalizing_state. by destruct (live r). Qed.

Lemma appended_ok row m at_ complete_ l initial name size interrupted : row_ok row m -> validate row at_ l = true ->
  expectedSize row = expectedSize initial -> 0 <= size -> match size_of initial l with Some e => at_ + size <= e | None => True end ->
  row_ok (appended row at_ complete_ (size_of initial l) size interrupted)
    (if 0 <? size then <[at_ := mkPart name size]> (before at_ m) else m).
Proof.
  intros [Hs Hd Hp Hw Hc] Hv He H0 Hlim. unfold validate in Hv. to_prop. subst at_.
  set (next := offset row + size). assert (within (if 0 <? size then <[offset row := mkPart name size]> (before (offset row) m) else m)
    (size_of initial l) next) as Hwithin.
  { destruct (0 <? size) eqn:E; to_prop; [by apply append_within|]. replace next with (offset row) by (unfold next; lia).
    unfold size_of in *. rewrite He in Hw. destruct (expectedSize initial) as [e|]; [exact Hw|]. destruct l as [e|]; [|exact Hw].
    intros o p Ho. pose proof (Hw o p Ho). pose proof (prefix_before _ _ _ _ Hp Ho H). lia. }
  assert (prefix (if 0 <? size then <[offset row := mkPart name size]> (before (offset row) m) else m) next) as Hprefix.
  { destruct (0 <? size) eqn:E; to_prop; [by apply append_prefix|]. by replace next with (offset row) by (unfold next; lia). }
  split.
  - destruct (0 <? size) eqn:E; to_prop; [by eapply append_sized|done].
  - destruct (0 <? size) eqn:E; to_prop; [by eapply append_disjoint|done].
  - exact Hprefix.
  - cbn [appended expectedSize set_received offset]. fold next. destruct (size_of initial l) as [e|]; [exact Hwithin|].
    destruct (complete_ && negb interrupted && (0 <? next) && true); [|exact Hwithin].
    intros o p Ho. pose proof (Hwithin o p Ho) as Hlt. cbn in Hlt. by eapply prefix_before.
  - cbn [appended state set_received offset expectedSize]. fold next. unfold complete. cbn [appended set_received offset expectedSize]. fold next.
    destruct (complete_ && negb interrupted && (0 <? next) && _) eqn:E.
    + intros _. apply andb_true_iff in E as [E Hend]. apply andb_true_iff in E as [_ Hpos]. to_prop. destruct (size_of initial l) as [e|]; to_prop; [by subst e|done].
    + unfold receiving_state. by destruct (live row).
Qed.

Lemma put_row_ok row m at_ l name : row_ok row m -> receiving_part row at_ l = true -> 0 <= at_ -> 0 < l ->
  (forall o p, m !! o = Some p -> overlaps at_ l (o, p) = false) -> row_ok (put_row row (<[at_ := mkPart name l]> m)) (<[at_ := mkPart name l]> m).
Proof.
  intros [Hs Hd Hp Hw Hc] Hr H0 Hl Hfree. unfold receiving_part in Hr. apply andb_true_iff in Hr as [Hst Hr].
  destruct (expectedSize row) as [e|] eqn:He; [|done]. apply andb_true_iff in Hr as [_ Hle]. apply Z.leb_le in Hle. clear Hst.
  set (m' := <[at_ := mkPart name l]> m). assert (sized m') as Hs' by by apply put_sized. assert (disjoint m') as Hd' by by apply put_disjoint.
  assert (prefix m' (contiguous (offset row) (by_offset m'))) as Hp'.
  { apply (contiguous_prefix m); [done..| |].
    - intros o p Ho. unfold m'. destruct (decide (o = at_)) as [->|]; [|by rewrite lookup_insert_ne].
      by rewrite (put_fresh m at_ l Hs Hl Hfree) in Ho.
    - intros o p [[-> ->]|Ho]%(put_lookup m at_ l name) Hlt; [|by eapply prefix_before]. cbn.
      destruct (Z.le_gt_cases (at_ + l) (offset row)); [done|]. exfalso. destruct Hp as (Hp0 & Hcov & _).
      destruct (Hcov at_ ltac:(lia)) as (o & p & Ho & Hb). destruct (free_apart m at_ l Hfree o p Ho); lia. }
  assert (within m' (Some e) (contiguous (offset row) (by_offset m'))) as Hw' by (eapply (put_within m at_ l name); [exact Hw|done]).
  split; cbn [put_row set_received offset expectedSize state]; fold m'; rewrite ?He; try done.
  unfold complete. cbn [put_row set_received offset expectedSize]. fold m'. rewrite He. case_bool_decide as Hfin.
  - intros _. split; [done|]. injection Hfin as ->. destruct Hp' as (? & _ & Hn). destruct (decide (contiguous (offset row) (by_offset m') = 0)) as [E|]; [|lia].
    exfalso. assert (m' !! at_ = Some (mkPart name l)) as Hat by (unfold m'; apply lookup_insert_eq). pose proof (Hw' _ _ Hat). cbn in *. lia.
  - unfold receiving_state. by destruct (live row).
Qed.

(** ** The whole file *)

(** The parts of a complete upload, in order, assemble to their bytes, whatever comes after them in the folder. *)
Definition file_of (fs : gmap Path Bytes) (i : string) (op : Z * Part) : Bytes := default [] (fs !! (i, p_name op.2)).
(** The acknowledged bytes, in order. *)
Definition received (fs : gmap Path Bytes) (i : string) (m : Manifest) : Bytes := concat (map (file_of fs i) (by_offset m)).
Definition stored (fs : gmap Path Bytes) (i : string) (m : Manifest) : Prop :=
  forall o p, m !! o = Some p -> is_part_name (p_name p) = true /\ exists b, fs !! (i, p_name p) = Some b /\ Z.of_nat (length b) = p_size p.

Lemma assemble_ordered fs i size l sofar : ordered (Z.of_nat (length sofar)) l ->
  (forall op, op ∈ l -> is_part_name (p_name op.2) = true /\ exists b, fs !! (i, p_name op.2) = Some b /\ Z.of_nat (length b) = p_size op.2) ->
  (forall op, op ∈ l -> op.1 + p_size op.2 <= size) ->
  (forall b, Z.of_nat (length sofar) <= b < size -> exists op, op ∈ l /\ op.1 <= b < op.1 + p_size op.2) -> Z.of_nat (length sofar) <= size ->
  assemble_parts fs i size l sofar = Assembles (sofar ++ concat (map (file_of fs i) l)) /\
  Z.of_nat (length (sofar ++ concat (map (file_of fs i) l))) = size.
Proof.
  revert sofar. induction l as [|[o p] l IH]; intros sofar Ho Hst Hle Hcov Hsize; cbn [assemble_parts map concat].
  { rewrite app_nil_r. split; [done|]. destruct (decide (Z.of_nat (length sofar) < size)) as [Hlt|]; [|lia].
    destruct (Hcov (Z.of_nat (length sofar)) ltac:(lia)) as (op & ?%not_elem_of_nil & _). done. }
  cbn in Ho. destruct Ho as (Ha & Hp & Ho). destruct (Hst (o, p) ltac:(left)) as (Hname & b & Hb & Hlen). cbn in Hname, Hb, Hlen.
  pose proof (Hle (o, p) ltac:(left)) as Hend. cbn in Hend.
  assert (o = Z.of_nat (length sofar)) as ->.
  { destruct (Hcov (Z.of_nat (length sofar)) ltac:(lia)) as (op & [->|Hop]%elem_of_cons & Hr); cbn in *; [lia|].
    pose proof (ordered_le _ _ _ Ho Hop). lia. }
  rewrite Z.eqb_refl, Hname, Hb, Hlen, Z.eqb_refl. cbn [negb orb]. replace (p_size p =? 0) with false by (symmetry; apply Z.eqb_neq; lia). cbn [orb].
  assert (file_of fs i (Z.of_nat (length sofar), p) = b) as -> by (unfold file_of; cbn [snd]; by rewrite Hb).
  assert (Z.of_nat (length (sofar ++ b)) = Z.of_nat (length sofar) + p_size p) as Hn by (rewrite length_app; lia).
  replace (size <? Z.of_nat (length (sofar ++ b))) with false by (symmetry; apply Z.ltb_ge; lia).
  rewrite (app_assoc sofar b). apply IH; [by rewrite Hn|intros x Hx; apply Hst; by right|intros x Hx; apply Hle; by right| |lia].
  intros x Hx. destruct (Hcov x ltac:(lia)) as (op & [->|Hop]%elem_of_cons & Hr); [cbn in Hr; lia|by exists op].
Qed.

Lemma assemble_received fs i r m : row_ok r m -> past_receiving (state r) = true -> stored fs i m ->
  assemble_parts fs i (offset r) (by_offset m) [] = Assembles (received fs i m) /\ Z.of_nat (length (received fs i m)) = offset r.
Proof.
  intros [Hs Hd Hp Hw Hc] Hpast Hst. destruct (Hc Hpast) as [He Hpos]. rewrite He in Hw. cbn in Hw.
  apply (assemble_ordered fs i (offset r) (by_offset m) []).
  - by apply by_offset_ordered.
  - intros [o p] Ho%elem_by_offset. by apply Hst in Ho.
  - intros [o p] Ho%elem_by_offset. by apply Hw.
  - intros b Hb. destruct Hp as (_ & Hcov & _). destruct (Hcov b Hb) as (o & p & Ho & Hr). exists (o, p). split; [by apply elem_by_offset|done].
  - cbn. lia.
Qed.
