(* ===== verification/AssetUploadSafety.v ===== *)
(** * Every run of uploads

    The invariant of [AssetUpload]'s operations: each row agrees with its manifest; every file that counts
    is claimed by one part, request or row, so that nothing that counts is ever removed; and what requests
    read is still true enough when they come to act on it.  Then the theorems. *)

From S2P Require Import Prelude JsString AssetUpload AssetUploadManifest.
Local Open Scope Z_scope.

Section safety.
Context `{Uuids, Digests}.

(** ** The states of an upload *)

Definition is_receiving (s : UploadState) : bool := includes s [receiving; pair_receiving].
Definition is_finalizing (s : UploadState) : bool := includes s [finalizing; pair_finalizing].
(** What an upload may come to. *)
Definition later (s s' : UploadState) : bool :=
  match s with
  | receiving | pair_receiving => true
  | finalizing | pair_finalizing => negb (is_receiving s')
  | verified => includes s' [verified; published; cancelled]
  | pair_verified => includes s' [pair_verified; published; cancelled]
  | published => includes s' [published; cancelled]
  | rejected => includes s' [rejected; cancelled]
  | cancelled => bool_decide (s' = cancelled)
  end.
Lemma later_refl s : later s s = true.
Proof. by destruct s. Qed.
Lemma later_trans a b c : later a b = true -> later b c = true -> later a c = true.
Proof. by destruct a, b, c. Qed.

(** Its files may go: nobody will ask for them again. *)
Definition swept (r : Resource) : bool :=
  match state r with rejected | cancelled => true | published => ingested r | _ => false end.

(** The verified file is recorded once, and only then. *)
Definition final_ok (i : string) (r : Resource) : Prop :=
  match final r with
  | Some f => fst (finalPath f) = i /\ verifiedChecksum f = expectedChecksum (declared r) /\ includes (state r) [verified; pair_verified; published; cancelled] = true
  | None => includes (state r) [verified; pair_verified; published] = false
  end.

(** ** Claims on files *)

Inductive Claimant := CManifest (i : string) (o : Z) | CWritten (tok : string) | CDoomed (tok : string) | CAssembled (tok : string) | CFinal (i : string).
Definition doomed (c : Claimant) : bool := match c with CDoomed _ => true | _ => false end.

(** A claim on a file, with what its bytes are to be. *)
Inductive claims (tok : string) (q : Request) : Path -> Claimant -> (Bytes -> Prop) -> Prop :=
| cl_written r n s t : q_phase q = Written r n s t -> claims tok q (q_upload q, n) (CWritten tok) (fun b => Z.of_nat (length b) = s /\ is_part_name n = true)
| cl_doomed l next n : q_phase q = Leaving l next -> n ∈ l -> claims tok q (q_upload q, n) (CDoomed tok) (fun _ => True)
| cl_assembled r n b : q_phase q = Assembled r n b -> claims tok q (q_upload q, n) (CAssembled tok) (fun b' => b' = b).
Inductive held (w : World) : Path -> Claimant -> (Bytes -> Prop) -> Prop :=
| he_manifest i o p : manifest w i !! o = Some p -> held w (i, p_name p) (CManifest i o) (fun b => Z.of_nat (length b) = p_size p /\ is_part_name (p_name p) = true)
| he_request tok q p c P : requests w !! tok = Some q -> claims tok q p c P -> held w p c P
| he_final i r f : resources w !! i = Some r -> final r = Some f ->
    held w (finalPath f) (CFinal i) (fun b => sha256 b = verifiedChecksum f /\ Z.of_nat (length b) = offset r).

Definition used (n : nat) (name : string) : Prop := exists k s, (k < n)%nat /\ name = uuid k +:+ s.
Definition unswept (w : World) (i : string) : Prop := forall r, resources w !! i = Some r -> swept r = false.

(** ** Requests *)

(** The row a request read in [finalizing], and the row now: nothing is received any more. *)
Definition frozen (initial r : Resource) : Prop :=
  is_finalizing (state initial) = true /\ is_receiving (state r) = false /\ declared r = declared initial /\
  offset r = offset initial /\ expectedSize r = expectedSize initial.
Definition req_ok (w : World) (q : Request) : Prop :=
  match q_phase q with
  | Read initial => wellFormed (q_kind q) = true
  | Written initial n s _ => wellFormed (q_kind q) = true /\ 0 <= s <= part_limit initial (q_kind q) /\ match q_kind q with Put _ l => s = l | _ => True end
  | Gathered initial l => exists r, resources w !! q_upload q = Some r /\ frozen initial r /\ l = by_offset (manifest w (q_upload q))
  | Assembled initial n b => exists r, resources w !! q_upload q = Some r /\ frozen initial r /\ sha256 b = expectedChecksum (declared initial) /\ Z.of_nat (length b) = offset initial
  | Refused initial => exists r, resources w !! q_upload q = Some r /\ frozen initial r
  | Settling row => exists r, resources w !! q_upload q = Some r /\ later (state row) (state r) = true /\ (final row = None \/ final r = final row) /\ declared r = declared row
  | Sweeping => exists r, resources w !! q_upload q = Some r /\ swept r = true
  | Working => wellFormed (q_kind q) = true
  | _ => True
  end.

(** ** The invariant *)

Definition asset_ok (w : World) (x : Asset) : Prop :=
  exists i r f, resources w !! i = Some r /\ final r = Some f /\ finalPath f = originalPath x /\ checksum x = verifiedChecksum f /\ fileSize x = offset r /\
    exists b, files w !! originalPath x = Some b /\ sha256 b = checksum x /\ Z.of_nat (length b) = fileSize x.

Record Inv (w : World) : Prop := {
  inv_rows : forall i r, resources w !! i = Some r -> row_ok r (manifest w i);
  inv_home : forall i, resources w !! i = None -> manifest w i = ∅;
  inv_final : forall i r, resources w !! i = Some r -> final_ok i r;
  inv_excl : forall p c1 c2 P1 P2, held w p c1 P1 -> held w p c2 P2 -> c1 = c2;
  inv_used : forall p c P, held w p c P -> used (given w) (snd p);
  inv_kept : forall p c P, held w p c P -> doomed c = false -> unswept w (fst p) -> exists b, files w !! p = Some b /\ P b;
  inv_tokens : forall tok q, requests w !! tok = Some q -> used (given w) tok;
  inv_reqs : forall tok q, requests w !! tok = Some q -> req_ok w q;
  inv_assets : forall a x, assets w !! a = Some x -> asset_ok w x
}.

Lemma used_mono n m name : used n name -> (n <= m)%nat -> used m name.
Proof. intros (k & s & ? & ?) ?. exists k, s. split; [lia|done]. Qed.
Lemma uuid_take n s : string_take 36 (uuid n +:+ s) = uuid n.
Proof. rewrite <- (uuid_length n). apply string_take_app. Qed.
Lemma uuid_drop n s : string_drop 36 (uuid n +:+ s) = s.
Proof. rewrite <- (uuid_length n). apply string_drop_app. Qed.
Lemma uuid_app n m s t : (n < distinct)%nat -> (m < distinct)%nat -> uuid n +:+ s = uuid m +:+ t -> n = m.
Proof. intros Hn Hm E. apply uuid_inj; [done..|]. by rewrite <- (uuid_take n s), E, uuid_take. Qed.
Lemma unused n s : (n < distinct)%nat -> ~ used n (uuid n +:+ s).
Proof. intros Hn (k & t & Hk & E%uuid_app); lia. Qed.
Lemma used_next n s : used (S n) (uuid n +:+ s).
Proof. exists n, s. split; [lia|done]. Qed.

(** ** Steps that the invariant takes *)

(** What becomes of a row: nothing already said of it is taken back. *)
Record moved (r r' : Resource) : Prop := {
  mv_state : later (state r) (state r') = true;
  mv_declared : declared r' = declared r;
  mv_swept : swept r = true -> swept r' = true;
  mv_final : forall f, final r = Some f -> final r' = Some f;
  mv_size : is_receiving (state r) = false -> offset r' = offset r /\ expectedSize r' = expectedSize r
}.
Lemma moved_refl r : moved r r.
Proof. split; [apply later_refl|done..]. Qed.

Lemma later_frozen s s' : later s s' = true -> is_receiving s = false -> is_receiving s' = false.
Proof. by destruct s, s'. Qed.
Lemma frozen_moved initial r r' : frozen initial r -> moved r r' -> frozen initial r'.
Proof.
  unfold frozen. intros (? & ? & ? & ? & ?) [Hs Hd _ _ Ho]. destruct Ho as [-> ->]; [done|]. rewrite Hd. repeat split; [done| |done..]. by eapply later_frozen.
Qed.
Lemma final_not_receiving i r f : final_ok i r -> final r = Some f -> is_receiving (state r) = false.
Proof. unfold final_ok. intros Hok Hf. rewrite Hf in Hok. destruct Hok as (_ & _ & Hs). by destruct (state r). Qed.

Definition unclaimed (w : World) (p : Path) : Prop := forall c P, ~ held w p c P.
Record step (w w' : World) (c0 : Claimant) : Prop := {
  st_given : (given w <= given w')%nat;
  st_rows : forall i r, resources w' !! i = Some r -> row_ok r (manifest w' i) /\ final_ok i r;
  st_home : forall i, resources w' !! i = None -> manifest w' i = ∅;
  st_moves : forall i r, resources w !! i = Some r ->
    exists r', resources w' !! i = Some r' /\ moved r r' /\ (is_receiving (state r) = false -> manifest w' i = manifest w i);
  st_held : forall p c P, held w' p c P ->
    held w p c P \/ (c = c0 /\ unclaimed w p /\ used (given w') p.2 /\ (doomed c = false -> exists b, files w' !! p = Some b /\ P b));
  st_files : forall p b, files w !! p = Some b -> files w' !! p = Some b \/
    ((forall a x, assets w' !! a = Some x -> originalPath x <> p) /\
     (forall c P, held w' p c P -> doomed c = false -> ~ unswept w' p.1));
  st_reqs : forall tok q, requests w' !! tok = Some q -> requests w !! tok = Some q \/ (used (given w') tok /\ req_ok w' q);
  st_assets : forall a x, assets w' !! a = Some x -> assets w !! a = Some x \/ asset_ok w' x
}.

Lemma req_ok_moves w w' c q : step w w' c -> req_ok w q -> req_ok w' q.
Proof.
  intros S. unfold req_ok. destruct (q_phase q); try done.
  - intros (r & Hr & Hz & Hl). destruct (st_moves _ _ _ S _ _ Hr) as (r' & Hr' & Hm & Hman). exists r'. split; [done|].
    split; [by eapply frozen_moved|]. rewrite Hman; [done|]. by destruct Hz as (_ & ? & _).
  - intros (r & Hr & Hz & Hl). destruct (st_moves _ _ _ S _ _ Hr) as (r' & Hr' & Hm & _). exists r'. split; [done|]. split; [by eapply frozen_moved|done].
  - intros (r & Hr & Hz). destruct (st_moves _ _ _ S _ _ Hr) as (r' & Hr' & Hm & _). exists r'. split; [done|]. by eapply frozen_moved.
  - intros (r & Hr & Hs & Hf & Hd). destruct (st_moves _ _ _ S _ _ Hr) as (r' & Hr' & Hm & _). exists r'. split; [done|].
    split; [by eapply later_trans, (mv_state _ _ Hm)|]. split; [|by rewrite (mv_declared _ _ Hm)].
    destruct Hf as [?|Hf]; [by left|]. destruct (final row) as [f|]; [right|by left]. by apply (mv_final _ _ Hm).
  - intros (r & Hr & Hs). destruct (st_moves _ _ _ S _ _ Hr) as (r' & Hr' & Hm & _). exists r'. split; [done|]. by apply (mv_swept _ _ Hm).
Qed.

Lemma unswept_moves w w' c i : step w w' c -> unswept w' i -> unswept w i.
Proof.
  intros S Hu r Hr. destruct (st_moves _ _ _ S _ _ Hr) as (r' & Hr' & Hm & _). specialize (Hu _ Hr').
  destruct (swept r) eqn:E; [|done]. by rewrite (mv_swept _ _ Hm E) in Hu.
Qed.

Lemma Inv_by_step w w' c : Inv w -> step w w' c -> Inv w'.
Proof.
  intros I S. split.
  - intros i r Hr. by apply (st_rows _ _ _ S).
  - apply (st_home _ _ _ S).
  - intros i r Hr. by apply (st_rows _ _ _ S).
  - intros p c1 c2 P1 P2 [C1|(-> & N1 & _)]%(st_held _ _ _ S) [C2|(-> & N2 & _)]%(st_held _ _ _ S); [by eapply (inv_excl w I)|by destruct (N2 _ _ C1)|by destruct (N1 _ _ C2)|done].
  - intros p c1 P [Hh|(_ & _ & Hu & _)]%(st_held _ _ _ S); [|done]. eapply used_mono; [by eapply (inv_used w I)|apply (st_given _ _ _ S)].
  - intros p c1 P Hh Hd Hu. destruct (st_held _ _ _ S _ _ _ Hh) as [Hh'|(_ & _ & _ & Hk)]; [|by apply Hk].
    destruct (inv_kept w I _ _ _ Hh' Hd (unswept_moves _ _ _ _ S Hu)) as (b & Hb & HP). exists b. split; [|done].
    destruct (st_files _ _ _ S _ _ Hb) as [?|[_ Hlost]]; [done|]. by destruct (Hlost _ _ Hh Hd).
  - intros tok q [Hq|[Hu _]]%(st_reqs _ _ _ S); [|done]. eapply used_mono; [by eapply (inv_tokens w I)|apply (st_given _ _ _ S)].
  - intros tok q [Hq|[_ Hok]]%(st_reqs _ _ _ S); [|done]. eapply req_ok_moves; [exact S|]. by eapply (inv_reqs w I).
  - intros a x Hx. destruct (st_assets _ _ _ S _ _ Hx) as [Hx'|?]; [|done].
    destruct (inv_assets w I _ _ Hx') as (i & r & f & Hr & Hf & Hpath & Hsum & Hsz & b & Hb & Hb').
    destruct (st_moves _ _ _ S _ _ Hr) as (r' & Hr' & Hm & _). exists i, r', f. split; [done|]. split; [by apply (mv_final _ _ Hm)|].
    split; [done|]. split; [done|]. split.
    + destruct (mv_size _ _ Hm) as [-> _]; [|done]. eapply final_not_receiving; [by eapply (inv_final w I)|done].
    + exists b. split; [|done]. destruct (st_files _ _ _ S _ _ Hb) as [?|[Hl _]]; [done|]. by destruct (Hl _ _ Hx).
Qed.

(** ** The kinds of step *)

(** What a request claims, by its phase. *)
Definition claimant (tok : string) (ph : Phase) : Claimant :=
  match ph with Written _ _ _ _ => CWritten tok | Leaving _ _ => CDoomed tok | _ => CAssembled tok end.
Lemma claims_claimant tok q p c P : claims tok q p c P -> c = claimant tok (q_phase q).
Proof. by intros [? ? ? ? ->|? ? ? -> _|? ? ? ->]. Qed.

Definition fresh (w : World) (p : Path) (c : Claimant) (P : Bytes -> Prop) : Prop :=
  unclaimed w p /\ used (given w) p.2 /\ (doomed c = false -> exists b, files w !! p = Some b /\ P b).

(** Only rows, files and requests are claimed. *)
Lemma held_same w w' p c P : resources w' = resources w -> manifests w' = manifests w -> requests w' = requests w -> held w' p c P -> held w p c P.
Proof.
  intros Er Em Eq [i o pt Hm|tok q p' c' P' Hq Hc|i r f Hr Hf].
  - unfold manifest in Hm. rewrite Em in Hm. by constructor.
  - rewrite Eq in Hq. by econstructor.
  - rewrite Er in Hr. by econstructor.
Qed.

Lemma step_same w w' : Inv w -> resources w' = resources w -> manifests w' = manifests w -> files w' = files w -> requests w' = requests w ->
  (given w <= given w')%nat -> (forall a x, assets w' !! a = Some x -> assets w !! a = Some x \/ asset_ok w' x) -> step w w' (CFinal "").
Proof.
  intros I Er Em Ef Eq Hg Ha. assert (forall i, manifest w' i = manifest w i) as Em' by (intros i; unfold manifest; by rewrite Em).
  split; [done| | | | |rewrite Ef; by left|rewrite Eq; by left|done].
  - intros i r Hr. rewrite Er in Hr. rewrite Em'. split; [by apply (inv_rows w I)|by apply (inv_final w I)].
  - intros i Hi. rewrite Er in Hi. rewrite Em'. by apply (inv_home w I).
  - intros i r Hr. exists r. rewrite Er. split; [done|]. split; [apply moved_refl|done].
  - intros p c P Hh. left. by eapply held_same.
Qed.

(** Changes that touch neither rows, files nor requests. *)
Lemma Inv_same w w' : Inv w -> resources w' = resources w -> manifests w' = manifests w -> files w' = files w -> requests w' = requests w ->
  assets w' = assets w -> (given w <= given w')%nat -> Inv w'.
Proof. intros I ? ? ? ? Ea ?. apply (Inv_by_step w w' (CFinal "")); [done|]. apply step_same; try done. intros a x. rewrite Ea. by left. Qed.

Lemma Inv_assets w x : Inv w -> (forall a y, x !! a = Some y -> assets w !! a = Some y \/ asset_ok w y) -> Inv (set_assets x w).
Proof. intros I Hx. apply (Inv_by_step w _ (CFinal "")); [done|]. apply step_same; done. Qed.

(** A request changes, or a new one comes. *)
Lemma Inv_request w tok q : Inv w -> used (given w) tok -> req_ok w q ->
  (forall p c P, claims tok q p c P -> held w p c P \/ fresh w p c P) -> Inv (set_requests (<[tok := q]> (requests w)) w).
Proof.
  intros I Hu Hq Hc. apply (Inv_by_step w _ (claimant tok (q_phase q))); [done|]. split; cbn; [done| | | | |by left| |by left].
  - intros i r Hr. split; [by apply (inv_rows w I)|by apply (inv_final w I)].
  - apply (inv_home w I).
  - intros i r Hr. exists r. split; [done|]. split; [apply moved_refl|done].
  - intros p c P [i o pt Hm|t q' p' c' P' Hq' Hc'|i r f Hr Hf]; [by left; constructor| |by left; econstructor].
    cbn in Hq'. destruct (decide (t = tok)) as [->|Ht].
    + rewrite lookup_insert_eq in Hq'. injection Hq' as <-. destruct (Hc _ _ _ Hc') as [?|(? & ? & ?)]; [by left|]. right. by rewrite <- (claims_claimant _ _ _ _ _ Hc').
    + rewrite lookup_insert_ne in Hq' by done. left. by econstructor.
  - intros t q' Hq'. destruct (decide (t = tok)) as [->|Ht].
    + rewrite lookup_insert_eq in Hq'. injection Hq' as <-. by right.
    + rewrite lookup_insert_ne in Hq' by done. by left.
Qed.

Lemma to_phase_insert tok q ph w : requests w !! tok = Some q ->
  to_phase tok ph w = set_requests (<[tok := mkRequest (q_upload q) (q_owner q) (q_kind q) ph]> (requests w)) w.
Proof. intros Hq. unfold to_phase. f_equal. apply map_eq. intros t. destruct (decide (t = tok)) as [->|]; [by rewrite lookup_alter_eq, lookup_insert_eq, Hq|]. by rewrite lookup_alter_ne, lookup_insert_ne. Qed.

Lemma Inv_phase w tok q ph : Inv w -> requests w !! tok = Some q -> req_ok w (mkRequest (q_upload q) (q_owner q) (q_kind q) ph) ->
  (forall p c P, claims tok (mkRequest (q_upload q) (q_owner q) (q_kind q) ph) p c P -> claims tok q p c P \/ fresh w p c P) -> Inv (to_phase tok ph w).
Proof.
  intros I Hq Hok Hc. rewrite (to_phase_insert tok q) by done. apply Inv_request; [done|by eapply (inv_tokens w I)|done|].
  intros p c P [?|?]%Hc; [left; by econstructor|by right].
Qed.

(** A phase that claims nothing. *)
Lemma Inv_quiet w tok q ph : Inv w -> requests w !! tok = Some q -> req_ok w (mkRequest (q_upload q) (q_owner q) (q_kind q) ph) ->
  match ph with Written _ _ _ _ | Assembled _ _ _ => False | Leaving l _ => l = [] | _ => True end -> Inv (to_phase tok ph w).
Proof.
  intros I Hq Hok Hph. apply (Inv_phase w tok q); [done..|]. intros p c P [? ? ? ? E|l ? n E Hn|? ? ? E]; cbn in E; subst ph; [done| |done].
  subst l. by apply not_elem_of_nil in Hn.
Qed.

Lemma Inv_stop w tok : Inv w -> Inv (stop tok w).
Proof.
  intros I. apply (Inv_by_step w _ (CFinal "")); [done|]. split; cbn; [done| | | | |by left| |by left].
  - intros i r Hr. split; [by apply (inv_rows w I)|by apply (inv_final w I)].
  - apply (inv_home w I).
  - intros i r Hr. exists r. split; [done|]. split; [apply moved_refl|done].
  - intros p c P [i o pt Hm|t q' p' c' P' Hq' Hc'|i r f Hr Hf]; [by left; constructor| |by left; econstructor].
    cbn in Hq'. apply lookup_delete_Some in Hq' as [_ Hq']. left. by econstructor.
  - intros t q' Hq'. apply lookup_delete_Some in Hq' as [_ Hq']. by left.
Qed.
Lemma Inv_ends w tok q : Inv w -> Inv (ends tok q w).
Proof.
  intros I. unfold ends, release_stream. set (w1 := stop tok w). assert (Inv w1) by by apply Inv_stop.
  destruct (leases w1 !! _) as [l|]; [|done]. destruct (String.eqb _ _); [|done]. by apply (Inv_same w1).
Qed.

(** ** Files *)

Lemma held_used w p c P : Inv w -> held w p c P -> used (given w) p.2.
Proof. intros I Hh. by eapply (inv_used w I). Qed.
Lemma asset_held w a x : Inv w -> assets w !! a = Some x -> exists i P, held w (originalPath x) (CFinal i) P.
Proof. intros I Hx. destruct (inv_assets w I _ _ Hx) as (i & r & f & Hr & Hf & <- & _). exists i. eexists. by econstructor. Qed.

Definition written (p : Path) (b : Bytes) (w : World) : World := set_files (<[p := b]> (files w)) (set_given (S (given w)) w).
Lemma written_unclaimed w i s b : Inv w -> (given w < distinct)%nat -> unclaimed (written (i, uuid (given w) +:+ s) b w) (i, uuid (given w) +:+ s).
Proof. intros I Hn c P Hh. apply (unused (given w) s); [done|]. eapply (held_used w (i, _)); [done|]. by eapply held_same; [..|exact Hh]. Qed.
(** A new file, under a name of its own. *)
Lemma Inv_written w i s b : Inv w -> (given w < distinct)%nat -> Inv (written (i, uuid (given w) +:+ s) b w).
Proof.
  intros I Hn. set (p := (i, uuid (given w) +:+ s)). apply (Inv_by_step w _ (CFinal "")); [done|]. split; cbn; [lia| | | | | |by left|by left].
  - intros j r Hr. split; [by apply (inv_rows w I)|by apply (inv_final w I)].
  - apply (inv_home w I).
  - intros j r Hr. exists r. split; [done|]. split; [apply moved_refl|done].
  - intros p' c P Hh. left. by eapply held_same; [..|exact Hh].
  - intros p' b' Hb. destruct (decide (p' = p)) as [->|]; [right|left; by rewrite lookup_insert_ne]. split.
    + intros a x Hx E. destruct (asset_held w a x I Hx) as (j & P & Hh). rewrite E in Hh. apply (held_used w) in Hh; [|done]. by apply unused in Hh.
    + intros c P Hh. by destruct (written_unclaimed w i s b I Hn c P).
Qed.
Lemma written_fresh w i s b c (P : Bytes -> Prop) : Inv w -> (given w < distinct)%nat -> P b -> fresh (written (i, uuid (given w) +:+ s) b w) (i, uuid (given w) +:+ s) c P.
Proof. intros I Hn HP. split; [by apply written_unclaimed|]. split; [apply used_next|]. intros _. exists b. cbn. by rewrite lookup_insert_eq. Qed.

(** A file goes that counts no more. *)
Lemma Inv_remove w p : Inv w -> (forall a x, assets w !! a = Some x -> originalPath x <> p) ->
  (forall c P, held w p c P -> doomed c = false -> ~ unswept w p.1) -> Inv (set_files (delete p (files w)) w).
Proof.
  intros I Ha Hc. apply (Inv_by_step w _ (CFinal "")); [done|]. split; cbn; [done| | | | | |by left|by left].
  - intros j r Hr. split; [by apply (inv_rows w I)|by apply (inv_final w I)].
  - apply (inv_home w I).
  - intros j r Hr. exists r. split; [done|]. split; [apply moved_refl|done].
  - intros p' c P Hh. left. by eapply held_same; [..|exact Hh].
  - intros p' b' Hb. destruct (decide (p' = p)) as [->|]; [right|left; by rewrite lookup_delete_ne]. split; [done|].
    intros c P Hh Hd Hu. eapply (Hc c P); [|done|exact Hu]. by eapply held_same; [..|exact Hh].
Qed.
Lemma Inv_remove_doomed w tok q l next ns : Inv w -> requests w !! tok = Some q -> q_phase q = Leaving l next -> (forall n, n ∈ ns -> n ∈ l) ->
  Inv (remove_files (q_upload q) ns w).
Proof.
  intros I Hq Hph Hns. unfold remove_files. revert w I Hq. induction ns as [|n ns IH]; intros w I Hq; cbn [foldl].
  { by destruct w. }
  change (Inv (set_files (foldl (fun fs n => delete (q_upload q, n) fs) (files (set_files (delete (q_upload q, n) (files w)) w)) ns)
    (set_files (delete (q_upload q, n) (files w)) w))).
  assert (held w (q_upload q, n) (CDoomed tok) (fun _ => True)) as Hh by (econstructor; [exact Hq|econstructor; [exact Hph|apply Hns; by left]]).
  apply IH; [intros m Hm; apply Hns; by right| |done]. apply Inv_remove; [done| |].
  - intros a x Hx E. destruct (asset_held w a x I Hx) as (i & P & Hf). rewrite E in Hf. by pose proof (inv_excl w I _ _ _ _ _ Hh Hf).
  - intros c P Hh' Hd. by rewrite <- (inv_excl w I _ _ _ _ _ Hh Hh') in Hd.
Qed.

(** ** Rows *)

(** The row of an upload, with its manifest, and at most one new claim. *)
Lemma Inv_row_as w w' i r m c0 : Inv w ->
  resources w' = <[i := r]> (resources w) -> (forall j, manifest w' j = if decide (j = i) then m else manifest w j) ->
  files w' = files w -> requests w' = requests w -> assets w' = assets w -> given w' = given w ->
  row_ok r m -> final_ok i r ->
  (forall r0, resources w !! i = Some r0 -> moved r0 r /\ (is_receiving (state r0) = false -> m = manifest w i)) ->
  (forall o p, m !! o = Some p -> manifest w i !! o = Some p \/
     (c0 = CManifest i o /\ fresh w (i, p_name p) c0 (fun b => Z.of_nat (length b) = p_size p /\ is_part_name (p_name p) = true))) ->
  (forall f, final r = Some f -> (exists r0, resources w !! i = Some r0 /\ final r0 = Some f) \/
     (c0 = CFinal i /\ fresh w (finalPath f) c0 (fun b => sha256 b = verifiedChecksum f /\ Z.of_nat (length b) = offset r))) ->
  Inv w'.
Proof.
  intros I Er Em Ef Eq Ea Eg Hr Hf Hmv Hm Hfi. apply (Inv_by_step w _ c0); [done|].
  split; rewrite ?Er, ?Ef, ?Eq, ?Ea, ?Eg; [done| | | | |by left|by left|by left].
  - intros j r' Hj. rewrite Em. destruct (decide (j = i)) as [->|Hji].
    + rewrite lookup_insert_eq in Hj. by injection Hj as <-.
    + rewrite lookup_insert_ne in Hj by done. split; [by apply (inv_rows w I)|by apply (inv_final w I)].
  - intros j Hj. rewrite Em. destruct (decide (j = i)) as [->|Hji]; [by rewrite lookup_insert_eq in Hj|].
    rewrite lookup_insert_ne in Hj by done. by apply (inv_home w I).
  - intros j r' Hj. rewrite Em. destruct (decide (j = i)) as [->|Hji].
    + exists r. rewrite lookup_insert_eq. split; [done|]. by apply Hmv.
    + exists r'. rewrite lookup_insert_ne by done. split; [done|]. split; [apply moved_refl|done].
  - intros p c P [j o pt Hpt|t q p' c' P' Hq Hc|j r' f Hr' Hf'].
    + rewrite Em in Hpt. destruct (decide (j = i)) as [->|Hji]; [|left; by constructor].
      destruct (Hm _ _ Hpt) as [?|(-> & ? & ? & ?)]; [left; by constructor|by right].
    + left. rewrite Eq in Hq. by econstructor.
    + rewrite Er in Hr'. destruct (decide (j = i)) as [->|Hji].
      * rewrite lookup_insert_eq in Hr'. injection Hr' as <-. destruct (Hfi _ Hf') as [(r0 & Hr0 & Hf0)|(-> & ? & ? & ?)]; [|by right].
        left. destruct (Hmv _ Hr0) as [Hmv0 _]. destruct (mv_size _ _ Hmv0) as [-> _]; [eapply final_not_receiving; [by eapply (inv_final w I)|done]|]. by econstructor.
      * rewrite lookup_insert_ne in Hr' by done. left. by econstructor.
Qed.
Lemma manifest_put w i m j : manifest (put_manifest i m w) j = if decide (j = i) then m else manifest w j.
Proof. unfold manifest. cbn. destruct (decide (j = i)) as [->|]; [by rewrite lookup_insert_eq|by rewrite lookup_insert_ne]. Qed.

(** A row alone, which keeps its file. *)
Lemma Inv_row w i r0 r : Inv w -> resources w !! i = Some r0 -> moved r0 r -> row_ok r (manifest w i) -> final_ok i r ->
  (forall f, final r = Some f -> final r0 = Some f) -> Inv (put_resource i r w).
Proof.
  intros I Hr0 Hm Hr Hf Hfi. apply (Inv_row_as w _ i r (manifest w i) (CFinal i)); try done.
  - intros j. destruct (decide (j = i)) as [->|]; done.
  - intros r1 Hr1. rewrite Hr0 in Hr1. by injection Hr1 as <-.
  - intros o p Ho. by left.
  - intros f Hff. left. exists r0. split; [done|by apply Hfi].
Qed.

(** A row whose bytes stay as they are. *)
Lemma row_ok_same r r' m : row_ok r m -> offset r' = offset r -> expectedSize r' = expectedSize r ->
  (past_receiving (state r') = true -> past_receiving (state r) = true) -> row_ok r' m.
Proof. intros [? ? ? ? Hc] Eo Ee Hs. split; rewrite ?Eo, ?Ee; [done..|]. intros Hp. unfold complete. rewrite Eo, Ee. by apply Hc, Hs. Qed.

Lemma available_Some b i o w row : available b i o w = Some row -> resources w !! i = Some row /\ ownerId row = Some o /\ state row <> cancelled.
Proof.
  unfold available. destruct (resources w !! i) as [r|]; cbn; [|done]. destruct (_ && _ && _) eqn:E; [|done]. intros [= <-]. to_prop. done.
Qed.
Lemma locked_Some b i o w row : locked b i o w = Some row -> resources w !! i = Some row /\ ownerId row = Some o /\ state row <> cancelled.
Proof. unfold locked. case_bool_decide; [|done]. apply available_Some. Qed.

(** What a request has claimed is free once it lets go. *)
Definition quiet (ph : Phase) : Prop := match ph with Written _ _ _ _ | Assembled _ _ _ => False | Leaving l _ => l = [] | _ => True end.
Lemma quiet_claims tok q p c P : quiet (q_phase q) -> ~ claims tok q p c P.
Proof. intros Hq [? ? ? ? E|l ? n E Hn|? ? ? E]; rewrite E in Hq; [done| |done]. cbn in Hq. subst l. by apply not_elem_of_nil in Hn. Qed.
Lemma claims_token tok tok' q q' p p' c P P' : claims tok q p c P -> claims tok' q' p' c P' -> tok = tok'.
Proof. intros C C'. inversion C; subst; inversion C'; by subst. Qed.
Lemma dropped w tok q ph p c P : Inv w -> requests w !! tok = Some q -> claims tok q p c P -> quiet ph -> unclaimed (to_phase tok ph w) p.
Proof.
  intros I Hq Hc Hph c' P' Hh. assert (held w p c P) as Hh0 by by econstructor.
  rewrite (to_phase_insert tok q) in Hh by done. inversion Hh as [i o pt Hm|t q' p' c1 P1 Hq' Hc'|i r f Hr Hf]; subst.
  - assert (held w (i, p_name pt) (CManifest i o) (fun b => Z.of_nat (length b) = p_size pt /\ is_part_name (p_name pt) = true)) as Hh1 by by constructor.
    pose proof (inv_excl w I _ _ _ _ _ Hh0 Hh1). subst c. by inversion Hc.
  - cbn in Hq'. destruct (decide (t = tok)) as [->|Ht].
    + rewrite lookup_insert_eq in Hq'. injection Hq' as <-. by eapply quiet_claims, Hc'.
    + rewrite lookup_insert_ne in Hq' by done. assert (held w p c' P') as Hh1 by by econstructor.
      pose proof (inv_excl w I _ _ _ _ _ Hh0 Hh1). subst c'. apply Ht. symmetry. by eapply claims_token.
  - assert (held w (finalPath f) (CFinal i) (fun b => sha256 b = verifiedChecksum f /\ Z.of_nat (length b) = offset r)) as Hh1 by by econstructor.
    pose proof (inv_excl w I _ _ _ _ _ Hh0 Hh1). subst c. by inversion Hc.
Qed.
Lemma to_phase_row tok a b i r w : to_phase tok b (put_resource i r (to_phase tok a w)) = to_phase tok b (put_resource i r w).
Proof. unfold to_phase, put_resource, set_requests, set_resources. cbn. f_equal. apply map_eq. intros t. destruct (decide (t = tok)) as [->|]; [rewrite !lookup_alter_eq; by destruct (requests w !! tok)|by rewrite !lookup_alter_ne]. Qed.
Lemma lookup_phase tok q ph w : requests w !! tok = Some q -> requests (to_phase tok ph w) !! tok = Some (mkRequest (q_upload q) (q_owner q) (q_kind q) ph).
Proof. intros Hq. rewrite (to_phase_insert tok q) by done. apply lookup_insert_eq. Qed.

End safety.
