(* ===== verification/AssetUploadRuns.v ===== *)
(** * Every operation on uploads keeps the invariant

    One lemma for each operation of [AssetUpload.perform], by the kinds of step of [AssetUploadSafety], and
    the invariant of every run from an empty world. *)

From S2P Require Import Prelude JsString AssetUpload AssetUploadManifest AssetUploadSafety.
Local Open Scope Z_scope.

Section runs.
Context `{Uuids, Digests}.

(** What is done only when a check [b] passes. *)
Lemma passed_Some {A} (b : bool) (x : option A) y : (if b then x else None) = Some y -> x = Some y.
Proof. by destruct b. Qed.
Local Ltac when E pat :=
  match goal with |- context [match (if ?b then ?x else None) with _ => _ end] => destruct (if b then x else None) as pat eqn:E end.

(** ** Each operation *)

Lemma Inv_create i o d size w w' : Inv w -> create i o d size w = Some w' -> Inv w'.
Proof.
  intros I. unfold create. repeat case_match; try done; intros [= <-]; [done|]. to_prop.
  assert (resources w !! i = None) as Hi by by apply eq_None_not_Some.
  assert (state (new_resource w o d size) = receiving \/ state (new_resource w o d size) = pair_receiving) as Hs by (unfold new_resource; destruct (bool_decide (publication d = live_photo)); [by right|by left]).
  eapply (Inv_row_as w _ i (new_resource w o d size) ∅ (CFinal i)); try done.
  - apply (manifest_put w).
  - apply new_row_ok; [done|]. by destruct Hs as [-> | ->].
  - unfold final_ok. cbn [final new_resource]. by destruct Hs as [-> | ->].
  - intros r0 Hr0. by rewrite Hi in Hr0.
Qed.

Lemma Inv_begin i o k admitted w : Inv w -> Inv (begin i o k admitted w).
Proof.
  intros I. unfold begin. set (w' := set_given (S (given w)) w). assert (Inv w') as I' by (apply (Inv_same w); [done..|]; cbn; lia).
  destruct (if admitted && wellFormed k then get i o w else None) as [row|] eqn:E; [|done]. destruct (admitted && wellFormed k) eqn:Ek; [|done]. to_prop.
  destruct (first_phase k row) as [p|] eqn:Ep; [|done]. destruct (claim_stream _ i k w') as [w''|] eqn:Ec; [|done].
  assert (Inv w'' /\ given w'' = S (given w)) as [I'' Eg].
  { unfold claim_stream in Ec. repeat case_match; try done; injection Ec as <-; (split; [by apply (Inv_same w')|done]). }
  apply Inv_request; [done| | |].
  - rewrite Eg. rewrite <- (string_app_nil_r (uuid (given w))). apply used_next.
  - unfold req_ok. cbn. destruct k; cbn in Ep; repeat case_match; simplify_eq; done.
  - intros p' c P Hc. exfalso. revert Hc. apply quiet_claims. cbn. destruct k; cbn in Ep; repeat case_match; simplify_eq; done.
Qed.

Lemma Inv_read tok disk w : Inv w -> Inv (read tok disk w).
Proof.
  intros I. unfold read. destruct (requests w !! tok) as [q|] eqn:Hq; [|done]. destruct (q_phase q) eqn:Hp; try done.
  destruct (q_kind q) eqn:Hk; try done. destruct (get _ _ _) as [row|]; [|by apply Inv_ends]. pose proof (inv_reqs w I _ _ Hq) as Hok.
  unfold req_ok in Hok. rewrite Hp in Hok.
  repeat case_match; try (by apply Inv_ends); (eapply Inv_quiet; [done|exact Hq| |done]); done.
Qed.

Lemma part_name_ok n : is_part_name (part_name n) = true.
Proof. unfold is_part_name, part_name. by rewrite uuid_take, uuid_drop, uuid_chars, string_app_length, uuid_length. Qed.
Lemma Inv_write_part tok disk bytes interrupted w : Inv w -> (given (write_part tok disk bytes interrupted w) <= distinct)%nat -> Inv (write_part tok disk bytes interrupted w).
Proof.
  intros I. unfold write_part. destruct (requests w !! tok) as [q|] eqn:Hq; [|done]. destruct (q_phase q) as [|row| | | | | | | |] eqn:Hp; try done.
  assert (Inv (set_given (S (given w)) w)) as I' by (apply (Inv_same w); [done..|]; cbn; lia).
  destruct ((_ <=? _) && _) eqn:E; [|by intros _; apply Inv_ends]. intros Hn. cbn in Hn. apply andb_true_iff in E as [El Ew]. apply Z.leb_le in El.
  pose proof (inv_reqs w I _ _ Hq) as Hok. unfold req_ok in Hok. rewrite Hp in Hok.
  set (w1 := set_files _ _). assert (w1 = written (q_upload q, uuid (given w) +:+ ".part") bytes w) as E1 by done.
  assert (Inv w1) as I1 by (rewrite E1; by apply Inv_written).
  apply (Inv_phase w1 tok q); [done..| |].
  - unfold req_ok. cbn. split; [done|]. split; [lia|]. destruct (q_kind q); [done| |done]. to_prop. done.
  - intros p c P Hc. right. inversion Hc as [r n s t Ep|l ? n Ep|r n b Ep]; cbn in Ep; try done. injection Ep as <- <- <- <-. subst. cbn.
    apply written_fresh; [done..|]. split; [done|apply part_name_ok].
Qed.

Lemma Inv_leave tok w : Inv w -> Inv (leave tok w).
Proof.
  intros I. unfold leave. destruct (requests w !! tok) as [q|] eqn:Hq; [|done]. destruct (q_phase q) as [| | |l next| | | | | |] eqn:Hp; try done.
  assert (Inv (remove_files (q_upload q) l w)) as I1 by (by eapply Inv_remove_doomed).
  destruct next; [|by apply Inv_ends]. by apply (Inv_quiet _ tok q).
Qed.

Lemma Inv_gather tok w : Inv w -> Inv (gather tok w).
Proof.
  intros I. unfold gather. destruct (requests w !! tok) as [q|] eqn:Hq; [|done].
  destruct (q_phase q) eqn:Hp; try done. destruct (get _ _ _) as [row|] eqn:Eg; [|by apply Inv_ends].
  apply available_Some in Eg as (Hr & _). destruct (includes _ _) eqn:Ei.
  - apply (Inv_quiet w tok q); [done..| |done]. cbn. exists row. split; [done|]. split; [|done]. unfold frozen, is_finalizing. rewrite Ei. split; [done|].
    split; [|done]. by destruct (state row).
  - case_bool_decide; [by apply Inv_ends|]. apply (Inv_quiet w tok q); [done..| |done]. cbn. exists row. split; [done|]. split; [apply later_refl|]. split; [by right|done].
Qed.

(** *** Assembling and the verdict *)

Lemma assembles_exact fs folder l size digest extension bytes : assembleAssetUploadParts fs folder l size digest extension = Assembles bytes ->
  Z.of_nat (length bytes) = size /\ sha256 bytes = digest.
Proof.
  unfold assembleAssetUploadParts. destruct (negb (validExtension extension)); [done|]. destruct (assemble_parts _ _ _ _ _) as [b| |]; try done.
  destruct (_ && _) eqn:E; [|done]. intros [= <-]. to_prop. done.
Qed.

Lemma Inv_assemble tok w : Inv w -> (given (assemble tok w) <= distinct)%nat -> Inv (assemble tok w).
Proof.
  intros I. unfold assemble. destruct (requests w !! tok) as [q|] eqn:Hq; [|done].
  destruct (q_phase q) as [| | | | |row l| | | |] eqn:Hp; try done. pose proof (inv_reqs w I _ _ Hq) as Hok. unfold req_ok in Hok. rewrite Hp in Hok.
  assert (Inv (set_given (S (given w)) w)) as I' by (apply (Inv_same w); [done..|]; cbn; lia). destruct Hok as (r & Hr & Hz & _).
  destruct (assembleAssetUploadParts _ _ _ _ _ _) as [b| |] eqn:E; [|intros _|by intros _; apply Inv_ends].
  - intros Hn. cbn in Hn. apply assembles_exact in E as [Hlen Hsum]. set (w1 := set_files _ _).
    assert (w1 = written (q_upload q, uuid (given w) +:+ extension (declared row)) b w) as E1 by done.
    assert (Inv w1) as I1 by (rewrite E1; by apply Inv_written). apply (Inv_phase w1 tok q); [done..| |].
    + unfold req_ok. cbn. by exists r.
    + intros p c P Hc. right. inversion Hc as [? ? ? ? Ep|? ? ? Ep|r' n b' Ep]; cbn in Ep; try done. injection Ep as <- <- <-. subst. cbn. by apply written_fresh.
  - apply (Inv_quiet _ tok q); [done..| |done]. unfold req_ok. cbn. by exists r.
Qed.

Lemma Inv_conclude tok admitted w : Inv w -> Inv (conclude tok admitted w).
Proof.
  intros I. unfold conclude. destruct (requests w !! tok) as [q|] eqn:Hq; [|done]. pose proof (inv_reqs w I _ _ Hq) as Hok. unfold req_ok in Hok.
  destruct (q_phase q) as [| | | | | |initial name bytes|initial| |] eqn:Hp; try done;
    (when El ipattern:([row|]); [|by apply Inv_ends]); apply passed_Some, locked_Some in El as (Hr & Ho & Hc); destruct Hok as (r & Hr' & Hz & Hrest);
    rewrite Hr in Hr'; injection Hr' as <-.
  - case_bool_decide as Hs; cbn [negb].
    2:{ apply (Inv_quiet w tok q); [done..| |done]. cbn. exists row. split; [done|]. split; [apply later_refl|]. split; [by right|done]. }
    destruct (negb _); [by apply Inv_ends|]. set (f := mkFinal (q_upload q, name) (sha256 bytes) (sha1 bytes)). set (row' := set_final (verified_state row) f row).
    assert (claims tok q (q_upload q, name) (CAssembled tok) (fun b' => b' = bytes)) as Hcl by by econstructor.
    destruct Hz as (Hfin & _ & Hd & Hoff & Hsz). rewrite <- Hs in Hfin. destruct Hrest as [Hsum Hlen].
    set (w1 := to_phase tok Finishing w). assert (Inv w1) as I1 by (by apply (Inv_quiet w tok q)).
    assert (Inv (put_resource (q_upload q) row' w1)) as I2.
    { apply (Inv_row_as w1 _ (q_upload q) row' (manifest w1 (q_upload q)) (CFinal (q_upload q))); try done.
      - intros j. destruct (decide (j = q_upload q)) as [->|]; done.
      - eapply row_ok_same; [apply (inv_rows w I); exact Hr|done|done|]. intros _. by destruct (state row).
      - unfold final_ok. cbn. split; [done|]. split; [by rewrite Hd|]. unfold verified_state. by destruct (live row).
      - intros r0 Hr0. assert (r0 = row) as -> by (cbn in Hr0; rewrite Hr in Hr0; by injection Hr0). split; [|done]. split; [|done|..].
        + unfold row', verified_state. cbn. by destruct (state row), (live row).
        + unfold swept. by destruct (state row).
        + intros f' Hf'. pose proof (inv_final w I _ _ Hr) as Hfo. unfold final_ok in Hfo. rewrite Hf' in Hfo. destruct Hfo as (_ & _ & Hst). by destruct (state row).
        + done.
      - intros o p Hop. by left.
      - intros f' [= <-]. right. split; [done|]. split; [by eapply dropped|]. split; [by eapply (held_used w (q_upload q, name)); [done|]; econstructor|].
        intros _. destruct (inv_kept w I (q_upload q, name) (CAssembled tok) (fun b' => b' = bytes)) as (b & Hb & ->); [by econstructor|done| |].
        { intros r0 Hr0. assert (r0 = row) as -> by (cbn in Hr0; rewrite Hr in Hr0; by injection Hr0). unfold swept. by destruct (state row). }
        exists bytes. split; [done|]. split; [done|]. cbn. by rewrite Hoff. }
    unfold w1 in I2. rewrite <- (to_phase_row tok Finishing). eapply Inv_quiet; [exact I2|by cbn; apply lookup_phase| |done]. cbn. exists row'.
    rewrite lookup_insert_eq. split; [done|]. split; [apply later_refl|]. split; [by right|done].
  - destruct (_ && _) eqn:E; [|by apply Inv_ends]. to_prop. rename Hz into Hfin; destruct Hrest as (_ & Hd & Hoff & Hsz).
    assert (is_finalizing (state row) = true) as Hfin' by congruence.
    assert (Inv (put_resource (q_upload q) (set_state rejected row) w)) as I1.
    { pose proof (inv_final w I _ _ Hr) as Hfo. apply (Inv_row w _ row); [done..| | | |done].
      - split; try done; cbn; destruct (state row); done.
      - eapply row_ok_same; [apply (inv_rows w I); exact Hr|done|done|]. intros _. by destruct (state row).
      - unfold final_ok in *. cbn. destruct (final row); [|done]. destruct Hfo as (_ & _ & Hst). by destruct (state row). }
    eapply Inv_quiet; [done|exact Hq| |done]. cbn. exists (set_state rejected row). by rewrite lookup_insert_eq.
Qed.

(** *** Committing a part *)

(** What a commit writes: the row and the manifest, while the request lets go of its file. *)
Definition after (w w' : World) (i : string) (r : Resource) (m : Manifest) : Prop :=
  resources w' = <[i := r]> (resources w) /\ (forall j, manifest w' j = if decide (j = i) then m else manifest w j) /\
  files w' = files w /\ requests w' = requests w /\ assets w' = assets w /\ given w' = given w.
Lemma held_after w w' i r m p c P : after w w' i r m -> final r = None -> held w' p c P ->
  (exists o pt, c = CManifest i o /\ m !! o = Some pt /\ p = (i, p_name pt)) \/ (held w p c P /\ forall o, c <> CManifest i o).
Proof.
  intros (Er & Em & Ef & Eq & _) Hf [j o pt Hpt|t q p' c' P' Hq Hc|j r' f Hr' Hf'].
  - rewrite Em in Hpt. destruct (decide (j = i)) as [->|Hj]; [left; by exists o, pt|right]. split; [by constructor|]. by intros o' [= ? _].
  - right. rewrite Eq in Hq. split; [by econstructor|]. intros o E. inversion Hc; by subst.
  - right. rewrite Er in Hr'. destruct (decide (j = i)) as [->|Hj]; [rewrite lookup_insert_eq in Hr'; injection Hr' as <-; by rewrite Hf in Hf'|].
    rewrite lookup_insert_ne in Hr' by done. split; [by econstructor|done].
Qed.

(** The same world, with the request's file let go. *)
Definition let_go (tok : string) (w w' : World) : World := set_requests (requests (to_phase tok Finishing w)) w'.
Lemma let_go_phase tok ph w w' : requests w' = requests w -> to_phase tok ph (let_go tok w w') = to_phase tok ph w'.
Proof.
  intros E. unfold let_go, to_phase, set_requests. cbn. f_equal. rewrite E. apply map_eq. intros t.
  destruct (decide (t = tok)) as [->|]; [rewrite !lookup_alter_eq; by destruct (requests w !! tok)|by rewrite !lookup_alter_ne].
Qed.
Lemma let_go_ends tok q w w' : requests w' = requests w -> ends tok q (let_go tok w w') = ends tok q w'.
Proof.
  intros E. unfold ends. assert (stop tok (let_go tok w w') = stop tok w') as ->; [|done]. unfold stop, let_go, to_phase, set_requests. cbn. f_equal. rewrite E.
  apply map_eq. intros t. destruct (decide (t = tok)) as [->|]; [by rewrite !lookup_delete_eq|by rewrite !lookup_delete_ne, lookup_alter_ne].
Qed.

Section commit.
Context (w : World) (tok : string) (q : Request) (initial : Resource) (name : string) (size : Z) (interrupted : bool).
Context (I : Inv w) (Hq : requests w !! tok = Some q) (Hp : q_phase q = Written initial name size interrupted).
Let i := q_upload q.
Let w1 := to_phase tok Finishing w.

Lemma written_claim : held w (i, name) (CWritten tok) (fun b => Z.of_nat (length b) = size /\ is_part_name name = true).
Proof using Hq Hp. econstructor; [exact Hq|]. by eapply cl_written. Qed.
Lemma let_go_Inv : Inv w1.
Proof using I Hq. by apply (Inv_quiet w tok q). Qed.
Lemma let_go_fresh c : doomed c = true \/ unswept w i -> fresh w1 (i, name) c (fun b => Z.of_nat (length b) = size /\ is_part_name name = true).
Proof using I Hq Hp.
  intros Hc. split; [eapply dropped; [done|exact Hq|by eapply cl_written|done]|]. split; [by apply (held_used w _ _ _ I written_claim)|].
  intros Hd. apply (inv_kept w I _ _ _ written_claim); [done|]. cbn. destruct Hc as [Hc|]; [by rewrite Hd in Hc|done].
Qed.

Lemma receiving_unswept b o row : locked b i o w = Some row -> state row = receiving_state row -> unswept w i /\ final row = None /\ is_receiving (state row) = true.
Proof using I Hq.
  intros (Hr & _)%locked_Some Hs. pose proof (inv_final w I _ _ Hr) as Hf. unfold final_ok, receiving_state in *. split; [|split].
  - intros r Hr'. rewrite Hr in Hr'. injection Hr' as <-. unfold swept. rewrite Hs. by destruct (live row).
  - destruct (final row) as [f|]; [|done]. destruct Hf as (_ & _ & Hf). rewrite Hs in Hf. by destruct (live row).
  - rewrite Hs. by destruct (live row).
Qed.

(** The commit of a part: a row of the same upload, and one part more. *)
Lemma Inv_after w' row r at_ m : after w w' i r m -> resources w !! i = Some row -> unswept w i -> final row = None -> is_receiving (state row) = true ->
  final r = None -> declared r = declared row -> includes (state r) [receiving; pair_receiving; finalizing; pair_finalizing] = true -> row_ok r m ->
  (forall o p, m !! o = Some p -> manifest w i !! o = Some p \/ (o = at_ /\ p = mkPart name size)) -> Inv (let_go tok w w').
Proof using I Hq Hp.
  intros (Er & Em & Ef & Eq & Ea & Eg) Hr Hu Hf Hrec Hf' Hd Hs Hok Hm.
  apply (Inv_row_as w1 _ i r m (CManifest i at_)); try done; [apply let_go_Inv| | | |].
  - unfold final_ok. rewrite Hf'. by destruct (state r).
  - intros r0 Hr0. cbn in Hr0. rewrite Hr in Hr0. injection Hr0 as <-. split; [|by rewrite Hrec]. split; [| |..].
    + by destruct (state row).
    + done.
    + unfold swept. by destruct (state row).
    + intros f Hff. by rewrite Hf in Hff.
    + by rewrite Hrec.
  - intros o p [?|[-> ->]]%Hm; [by left|right]. split; [done|]. apply let_go_fresh. by right.
  - intros f Hff. by rewrite Hf' in Hff.
Qed.

(** Then the request leaves its own file, or those its append supersedes. *)
Lemma Inv_leaving w' l next : Inv (let_go tok w w') -> requests w' = requests w -> given w' = given w ->
  (forall n, n ∈ l -> unclaimed (let_go tok w w') (i, n) /\ used (given w) n) -> Inv (to_phase tok (Leaving l next) w').
Proof using Hq.
  intros I' Eq Eg Hl. rewrite <- (let_go_phase tok _ w) by done. eapply Inv_phase; [exact I'|by apply (lookup_phase tok q Finishing w)|done|].
  intros p c P Hc. right. inversion Hc as [? ? ? ? Ep|l' next' n Ep Hn|? ? ? Ep]; cbn in Ep; try done. injection Ep as <- <-. subst.
  destruct (Hl _ Hn) as [? ?]. split; [done|]. split; [cbn; by rewrite Eg|done].
Qed.
End commit.

Lemma held_quiet w tok q ph p c P : requests w !! tok = Some q -> quiet ph -> held (to_phase tok ph w) p c P -> held w p c P.
Proof.
  intros Hq Hph. rewrite (to_phase_insert tok q) by done. intros [j o pt Hpt|t q' p' c' P' Hq' Hc|j r f Hr Hf]; [by constructor| |by econstructor].
  cbn in Hq'. destruct (decide (t = tok)) as [->|]; [rewrite lookup_insert_eq in Hq'; injection Hq' as <-; by apply quiet_claims in Hc|].
  rewrite lookup_insert_ne in Hq' by done. by econstructor.
Qed.

Definition appended_manifest (w : World) (i : string) (at_ : Z) (name : string) (size : Z) : Manifest :=
  if 0 <? size then <[at_ := mkPart name size]> (before at_ (manifest w i)) else manifest w i.
Lemma append_after i o at_ complete l initial name size interrupted w gone w' :
  append_part i o at_ complete l initial name size interrupted w = Some (gone, w') ->
  exists row, locked false i o w = Some row /\ validate row at_ l = true /\ expectedSize row = expectedSize initial /\
    after w w' i (appended row at_ complete (size_of initial l) size interrupted) (appended_manifest w i at_ name size) /\
    gone = if 0 <? size then superseded at_ (manifest w i) else [].
Proof.
  unfold append_part. destruct (locked false i o w) as [row|]; cbn [mbind option_bind]; [|done]. destruct (_ || _) eqn:E; [done|]. intros [= <- <-]. to_prop. exists row.
  split; [done|]. split; [done|]. split; [done|]. split; [|done]. unfold after, appended_manifest. destruct (0 <? size); cbn; repeat split; try done.
  - intros j. apply (manifest_put w).
  - intros j. by destruct (decide (j = i)) as [->|].
Qed.
Lemma superseded_elem at_ m n : n ∈ superseded at_ m -> exists o p, m !! o = Some p /\ at_ <= o /\ n = p_name p.
Proof.
  unfold superseded. intros ([o p] & -> & Hin)%list_elem_of_fmap. apply list_elem_of_In, filter_In in Hin as [Hin Hle]. cbn in Hle. to_prop.
  apply list_elem_of_In, elem_of_map_to_list in Hin. by exists o, p.
Qed.

Lemma append_leaves w tok q initial name size interrupted at_ w' r n :
  Inv w -> requests w !! tok = Some q -> q_phase q = Written initial name size interrupted -> 
  after w w' (q_upload q) r (appended_manifest w (q_upload q) at_ name size) -> final r = None -> 0 < size ->
  n ∈ superseded at_ (manifest w (q_upload q)) -> unclaimed (let_go tok w w') (q_upload q, n) /\ used (given w) n.
Proof.
  intros I Hq Hp Ha Hf Hsize (o & p & Ho & Hle & ->)%superseded_elem. set (i := q_upload q) in *.
  assert (held w (i, p_name p) (CManifest i o) (fun b => Z.of_nat (length b) = p_size p /\ is_part_name (p_name p) = true)) as Hh by by constructor.
  split; [|by apply (held_used w _ _ _ I Hh)]. intros c P Hc. eapply (held_after (to_phase tok Finishing w) (let_go tok w w')) in Hc; [|destruct Ha as (? & ? & ? & ? & ? & ?); by repeat split|done].
  destruct Hc as [(o' & pt & -> & Hm & [= En])|[Hc Hne]].
  - unfold appended_manifest in Hm. destruct (0 <? size) eqn:E; to_prop; [|lia]. destruct (decide (o' = at_)) as [->|Ho'].
    + rewrite lookup_insert_eq in Hm. injection Hm as <-. cbn in En. pose proof (written_claim w tok q initial name size interrupted Hq Hp) as Hw.
      rewrite <- En in Hw. by pose proof (inv_excl w I _ _ _ _ _ Hh Hw).
    + rewrite lookup_insert_ne, before_lookup in Hm by done. destruct (decide (o' < at_)); [|done].
      assert (held w (i, p_name p) (CManifest i o') (fun b => Z.of_nat (length b) = p_size pt /\ is_part_name (p_name pt) = true)) as Hh' by (rewrite En; by constructor).
      pose proof (inv_excl w I _ _ _ _ _ Hh Hh') as E'. injection E' as ->. lia.
  - apply (held_quiet w tok q) in Hc; [|done..]. apply (Hne o). symmetry. by eapply (inv_excl w I).
Qed.

Lemma part_limit_size initial at_ c l size : size <= part_limit initial (Append at_ c l) -> match size_of initial l with Some e => at_ + size <= e | None => True end.
Proof. unfold part_limit. destruct (size_of initial l); [lia|done]. Qed.

Lemma Inv_append w tok q initial name size interrupted at_ complete l gone w' :
  Inv w -> requests w !! tok = Some q -> q_phase q = Written initial name size interrupted -> q_kind q = Append at_ complete l ->
  append_part (q_upload q) (q_owner q) at_ complete l initial name size interrupted w = Some (gone, w') ->
  Inv (let_go tok w w') /\ requests w' = requests w /\ given w' = given w /\
  (forall n, n ∈ gone ++ (if size =? 0 then [name] else []) -> unclaimed (let_go tok w w') (q_upload q, n) /\ used (given w) n).
Proof.
  intros I Hq Hp Hk (row & Hl & Hv & He & Ha & ->)%append_after. pose proof (inv_reqs w I _ _ Hq) as Hok. unfold req_ok in Hok. rewrite Hp, Hk in Hok.
  destruct Hok as (_ & [Hs0 Hs] & _). apply part_limit_size in Hs. assert (state row = receiving_state row) as Hst by (unfold validate in Hv; by to_prop).
  pose proof Hl as (Hr & _)%locked_Some. destruct (receiving_unswept w tok q I Hq _ _ _ Hl Hst) as (Hu & Hf & Hrec).
  set (r := appended row at_ complete (size_of initial l) size interrupted) in *.
  assert (Inv (let_go tok w w')) as I'.
  { apply (Inv_after w tok q initial name size interrupted I Hq Hp w' row r at_ (appended_manifest w (q_upload q) at_ name size)); try done.
    - unfold r, appended. cbn. unfold finalizing_state, receiving_state. by repeat case_match.
    - apply appended_ok; [by apply (inv_rows w I)|done..].
    - intros o p. unfold appended_manifest. destruct (0 <? size); [|by left]. destruct (decide (o = at_)) as [->|]; [rewrite lookup_insert_eq; intros [= <-]; by right|].
      rewrite lookup_insert_ne, before_lookup by done. destruct (decide _); [by left|done]. }
  pose proof Ha as (_ & _ & _ & Eq & _ & Eg). split; [done|]. split; [done|]. split; [done|].
  intros n [Hn|Hn]%elem_of_app.
  - destruct (0 <? size) eqn:E; [|by apply not_elem_of_nil in Hn]. to_prop. by eapply append_leaves.
  - destruct (size =? 0) eqn:E; [|by apply not_elem_of_nil in Hn]. apply list_elem_of_singleton in Hn as ->. to_prop. subst size.
    destruct (let_go_fresh w tok q initial name 0 interrupted I Hq Hp (CDoomed tok)) as (Hun & Hus & _); [by left|]. split; [|done].
    intros c P Hc. eapply (held_after (to_phase tok Finishing w) (let_go tok w w')) in Hc; [|destruct Ha as (? & ? & ? & ? & ? & ?); by repeat split|done].
    destruct Hc as [(o' & pt & -> & Hm & [= ->])|[Hc _]]; [|by apply (Hun c P)]. apply (Hun _ _ (he_manifest (to_phase tok Finishing w) (q_upload q) o' pt Hm)).
Qed.

Lemma put_after i o at_ l name w repeated w' : put_part i o at_ l name w = Some (repeated, w') ->
  exists row, locked false i o w = Some row /\ receiving_part row at_ l = true /\
  if repeated then w' = w else
    (forall o p, manifest w i !! o = Some p -> overlaps at_ l (o, p) = false) /\
    let m := <[at_ := mkPart name l]> (manifest w i) in after w w' i (put_row row m) m.
Proof.
  unfold put_part. destruct (locked false i o w) as [row|]; cbn [mbind option_bind]; [|done]. destruct (negb (receiving_part _ _ _)) eqn:E; [done|]. to_prop.
  destruct (existsb _ _); [done|]. case_bool_decide as Hno; intros [= <- <-]; exists row; split; try done; split; try done. split.
  - intros o' p' Ho'. destruct (overlaps at_ l (o', p')) eqn:Eo; [|done]. assert ((o', p') ∈ List.filter (overlaps at_ l) (map_to_list (manifest w i))) as Hin.
    { apply list_elem_of_In, filter_In. split; [|done]. by apply list_elem_of_In, elem_of_map_to_list. }
    rewrite Hno in Hin. by apply not_elem_of_nil in Hin.
  - repeat split; try done. intros j. apply (manifest_put w).
Qed.

Lemma Inv_put w tok q initial name size interrupted at_ l repeated w' :
  Inv w -> requests w !! tok = Some q -> q_phase q = Written initial name size interrupted -> q_kind q = Put at_ l ->
  put_part (q_upload q) (q_owner q) at_ l name w = Some (repeated, w') ->
  Inv (let_go tok w w') /\ requests w' = requests w /\ given w' = given w /\ (repeated = true -> w' = w).
Proof.
  intros I Hq Hp Hk (row & Hl & Hrp & Hrest)%put_after. pose proof (inv_reqs w I _ _ Hq) as Hok. unfold req_ok in Hok. rewrite Hp, Hk in Hok.
  destruct Hok as (Hw & _ & ->). assert (state row = receiving_state row) as Hst by (unfold receiving_part in Hrp; by to_prop).
  pose proof Hl as (Hr & _)%locked_Some. destruct (receiving_unswept w tok q I Hq _ _ _ Hl Hst) as (Hu & Hf & Hrec). destruct repeated.
  { subst w'. split; [by eapply let_go_Inv|done]. }
  destruct Hrest as [Hfree Ha]. split; [|destruct Ha as (_ & _ & _ & ? & _ & ?); done]. cbn in Hw. to_prop.
  eapply (Inv_after w tok q initial name l interrupted I Hq Hp w' row _ at_ _ Ha); try done.
  - cbn. unfold finalizing_state, receiving_state. by repeat case_match.
  - apply put_row_ok; try done; [by apply (inv_rows w I)|lia].
  - intros o p. destruct (decide (o = at_)) as [->|]; [rewrite lookup_insert_eq; intros [= <-]; by right|rewrite lookup_insert_ne by done; by left].
Qed.

Lemma Inv_commit tok admitted answer w : Inv w -> Inv (commit tok admitted answer w).
Proof.
  intros I. unfold commit. destruct (requests w !! tok) as [q|] eqn:Hq; [|done]. destruct (q_phase q) as [| |initial name size t| | | | | | |] eqn:Hp; try done.
  destruct (q_kind q) as [at_ complete l|at_ l|] eqn:Hk; [| |done].
  - when E ipattern:([[gone w']|]); [|by apply Inv_ends]. apply passed_Some in E.
    destruct (Inv_append w tok q initial name size t at_ complete l gone w' I Hq Hp Hk E) as (I' & Eq & Eg & Hl).
    destruct answer as [|[]]; [|rewrite <- (let_go_ends tok q w) by done; by apply Inv_ends|by apply Inv_ends].
    by eapply (Inv_leaving w tok q Hq w').
  - assert (Inv (to_phase tok (Leaving [name] false) w)) as Hgone.
    { apply (Inv_leaving w tok q Hq w); [by eapply let_go_Inv|done..|]. intros n ->%list_elem_of_singleton.
      destruct (let_go_fresh w tok q initial name size t I Hq Hp (CDoomed tok)) as (? & ? & _); [by left|done]. }
    when E ipattern:([[repeated w']|]); [|done]. apply passed_Some in E.
    destruct (Inv_put w tok q initial name size t at_ l repeated w' I Hq Hp Hk E) as (I' & Eq & Eg & Hrep).
    destruct answer as [|[]]; [|rewrite <- (let_go_ends tok q w) by done; by apply Inv_ends|by apply Inv_ends].
    destruct repeated; [by rewrite Hrep|]. eapply (Inv_leaving w tok q Hq w'); [done..|]. by intros n ?%not_elem_of_nil.
Qed.

(** *** Publishing *)

(** A row that keeps its state, or goes on to another that wants the same file. *)
Lemma Inv_onward w i row r : Inv w -> resources w !! i = Some row -> declared r = declared row -> expectedSize r = expectedSize row -> offset r = offset row ->
  final r = final row -> later (state row) (state r) = true -> (swept row = true -> swept r = true) ->
  (past_receiving (state r) = true -> past_receiving (state row) = true) ->
  (final row = None -> includes (state r) [verified; pair_verified; published] = false) ->
  (final row <> None -> includes (state r) [verified; pair_verified; published; cancelled] = true) -> Inv (put_resource i r w).
Proof.
  intros I Hr Hd He Ho Hf Hl Hsw Hp Hn Hs. pose proof (inv_final w I _ _ Hr) as Hfo. apply (Inv_row w i row); [done..| | | |].
  - split; [done|done|done|by rewrite Hf|done].
  - eapply row_ok_same; [by apply (inv_rows w I)|done..].
  - unfold final_ok in *. rewrite Hf, Hd. destruct (final row) as [f|]; [|by apply Hn]. destruct Hfo as (? & ? & _). split; [done|]. split; [done|]. by apply Hs.
  - intros f. by rewrite Hf.
Qed.

Lemma charge_Some o n w w' : charge o n w = Some w' -> exists u, users w !! o = Some u /\
  match quotaSize u with Some q => quotaUsage u + n <= q | None => True end /\ w' = set_users (<[o := mkUser (quotaUsage u + n) (quotaSize u)]> (users w)) w.
Proof.
  unfold charge. destruct (users w !! o) as [u|]; cbn; [|done]. match goal with |- (if ?b then _ else _) = _ -> _ => destruct b eqn:E; [|done] end. intros [= <-]. exists u.
  split; [done|]. split; [|done]. destruct (quotaSize u); [by apply Z.leb_le|done].
Qed.
Lemma Inv_charge o n w w' : Inv w -> charge o n w = Some w' -> Inv w'.
Proof. intros I (u & _ & _ & ->)%charge_Some. by apply (Inv_same w). Qed.

(** What publishing does: the row of a verified upload is published, as the asset that is there, or as a new
    one, charged unless its pair was. *)
Lemma publish_Some i prepared video motion rejectDuplicate quotaCharged edit w w' :
  publish i prepared video motion rejectDuplicate quotaCharged edit w = Some w' ->
  exists row o f out done_ w1, resources w !! i = Some row /\ result row = None /\ ownerId row = Some o /\ final row = Some f /\
    state row = (if rejectDuplicate then pair_verified else verified) /\ w' = put_resource i (set_result out done_ row) w1 /\
    ((resultStatus out = DUPLICATE /\ rejectDuplicate = false /\ w1 = w) \/
     (resultStatus out = CREATED /\ done_ = false /\ resultAssetId out = uuid (given w) /\ assets w !! uuid (given w) = None /\
      exists us, w1 = set_assets (<[uuid (given w) := mkAsset o (verifiedChecksum prepared) (finalPath prepared) (offset row) motion video]> (assets w))
                        (set_given (S (given w)) (set_users us w)) /\
        if quotaCharged then us = users w else
        exists u, users w !! o = Some u /\ match quotaSize u with Some q => quotaUsage u + offset row <= q | None => True end /\
                  us = <[o := mkUser (quotaUsage u + offset row) (quotaSize u)]> (users w))).
Proof.
  unfold publish. destruct (resources w !! i) as [row|]; cbn [mbind option_bind]; [|done]. destruct (result row) eqn:Er; [done|].
  destruct (ownerId row) as [o|] eqn:Eo; [|done]. destruct (final row) as [f|] eqn:Ef; [|done].
  destruct (negb _) eqn:Es; [done|]. to_prop. set (dup := match edit ≫= id with Some a => Some a | None => asset_of w o (verifiedChecksum f) end).
  destruct (_ && _ && negb _); [done|]. destruct (negb (is_None_b dup) && rejectDuplicate) eqn:Ed; [done|]. destruct dup as [a|].
  - intros [= <-]. exists row, o, f, (mkOutcome a DUPLICATE). eexists _, w. repeat (split; [done|]). left. repeat split. by destruct rejectDuplicate.
  - destruct (if quotaCharged then Some w else charge o (offset row) w) as [w1|] eqn:Ec; cbn [mbind option_bind]; [|done].
    destruct (create_asset _ w1) as [[a w2]|] eqn:Ea; cbn [mbind option_bind fst snd]; [|done]. intros [= <-].
    exists row, o, f, (mkOutcome a CREATED), false, w2. repeat (split; [done|]). right. unfold create_asset in Ea. destruct (_ || _) eqn:En; [done|]. injection Ea as <- <-. to_prop.
    assert (exists us, w1 = set_users us w /\ if quotaCharged then us = users w else
      exists u, users w !! o = Some u /\ match quotaSize u with Some q => quotaUsage u + offset row <= q | None => True end /\
                us = <[o := mkUser (quotaUsage u + offset row) (quotaSize u)]> (users w)) as (us & -> & Hus).
    { destruct quotaCharged; [injection Ec as <-; exists (users w); by destruct w|]. apply charge_Some in Ec as (u & Hu & Hq & ->). eexists. split; [done|]. by exists u. }
    cbn in *. repeat split; try done; [by apply eq_None_not_Some|]. by exists us.
Qed.

Lemma Inv_publish i prepared video motion rejectDuplicate quotaCharged edit w w' : Inv w ->
  publish i prepared video motion rejectDuplicate quotaCharged edit w = Some w' ->
  (forall row, resources w !! i = Some row -> final row = Some prepared) -> Inv w'.
Proof.
  intros I (row & o & f & out & done_ & w1 & Hr & Hres & Ho & Hf & Hs & -> & Hcase)%publish_Some Hpr.
  assert (prepared = f) as -> by (specialize (Hpr _ Hr); congruence).
  assert (state row = verified \/ state row = pair_verified) as Hs' by (destruct rejectDuplicate; auto). clear Hs.
  assert (forall w2, Inv w2 -> resources w2 !! i = Some row -> Inv (put_resource i (set_result out done_ row) w2)) as Hgo.
  { intros w2 I2 Hr2. apply (Inv_onward w2 i row); try done; cbn; [by destruct Hs' as [-> | ->]|unfold swept; by destruct Hs' as [-> | ->]|by destruct Hs' as [-> | ->]|by rewrite Hf]. }
  destruct Hcase as [(_ & _ & ->)|(_ & _ & _ & _ & us & -> & _)]; apply Hgo; try done.
  set (w1 := set_given _ _). assert (Inv w1) as I1 by (apply (Inv_same w); [done..|]; cbn; lia). apply (Inv_assets w1); [done|].
  intros a y. destruct (decide (a = uuid (given w))) as [->|]; [rewrite lookup_insert_eq; intros [= <-]|rewrite lookup_insert_ne by done; by left].
  right. exists i, row, f. repeat (split; [done|]). cbn. 
  destruct (inv_kept w I (finalPath f) (CFinal i) (fun b => sha256 b = verifiedChecksum f /\ Z.of_nat (length b) = offset row)) as (b & Hb & ?); [by econstructor|done| |by exists b].
  pose proof (inv_final w I _ _ Hr) as Hfo. unfold final_ok in Hfo. rewrite Hf in Hfo. destruct Hfo as (-> & _ & _).
  intros r Hr'. rewrite Hr in Hr'. injection Hr' as <-. unfold swept. by destruct Hs' as [-> | ->].
Qed.
Lemma publish_same i prepared video motion rejectDuplicate quotaCharged edit w w' :
  publish i prepared video motion rejectDuplicate quotaCharged edit w = Some w' ->
  requests w' = requests w /\ (forall j, j <> i -> resources w' !! j = resources w !! j) /\ is_Some (resources w' !! i).
Proof.
  intros (row & o & f & out & done_ & w1 & Hr & _ & _ & _ & _ & -> & Hcase)%publish_Some.
  assert (requests w1 = requests w /\ resources w1 = resources w) as [Eq Er] by (destruct Hcase as [(_ & _ & ->)|(_ & _ & _ & _ & us & -> & _)]; done).
  cbn. rewrite Eq, Er. split; [done|]. split; [|by rewrite lookup_insert_eq]. intros j Hj. by rewrite lookup_insert_ne.
Qed.

(** The row a settling request has read says of the file what the row of now does. *)
Lemma settling_final w tok q row f : Inv w -> requests w !! tok = Some q -> q_phase q = Settling row -> final row = Some f ->
  forall r, resources w !! q_upload q = Some r -> final r = Some f.
Proof.
  intros I Hq Hp Hf r Hr. pose proof (inv_reqs w I _ _ Hq) as Hok. unfold req_ok in Hok. rewrite Hp in Hok.
  destruct Hok as (r' & Hr' & _ & [Hn|He] & _); [by rewrite Hf in Hn|]. rewrite Hr in Hr'. injection Hr' as <-. by rewrite He.
Qed.
Lemma Inv_settling w tok q r : Inv w -> requests w !! tok = Some q -> resources w !! q_upload q = Some r -> Inv (to_phase tok (Settling r) w).
Proof.
  intros I Hq Hr. apply (Inv_quiet w tok q); [done..| |done]. cbn. exists r. split; [done|]. split; [apply later_refl|]. split; [by right|done].
Qed.

Lemma Inv_settle tok admitted video edit restored w : Inv w -> Inv (settle tok admitted video edit restored w).
Proof.
  intros I. unfold settle. destruct (requests w !! tok) as [q|] eqn:Hq; [|done]. destruct (q_phase q) as [| | | | | | | |row|] eqn:Hp; try done.
  destruct (_ && _) eqn:E.
  - to_prop. when El ipattern:([now_|]); [|by apply Inv_ends]. apply passed_Some, locked_Some in El as (Hr & Ho & Hc).
    destruct (final row) as [f|] eqn:Hf; [|by apply Inv_ends]. pose proof (settling_final w tok q row f I Hq Hp Hf) as Hfin. specialize (Hfin _ Hr) as Hfn.
    case_bool_decide as Hpub; [by apply (Inv_settling w tok q)|]. pose proof (inv_reqs w I _ _ Hq) as Hok. unfold req_ok in Hok. rewrite Hp in Hok.
    destruct Hok as (r' & Hr' & Hl & _). rewrite Hr in Hr'. injection Hr' as <-.
    assert (state now_ = verified) as Hv by (destruct (state row), (state now_); done).
    destruct restored as [[a visible]|].
    + set (r := set_result _ true now_). assert (Inv (put_resource (q_upload q) r w)) as I1.
      { apply (Inv_onward w _ now_); try done; cbn; unfold swept; rewrite ?Hv; try done. by rewrite Hfn. }
      cbn. rewrite lookup_insert_eq. apply (Inv_settling _ tok q); [done..|]. cbn. by rewrite lookup_insert_eq.
    + destruct (publish _ _ _ _ _ _ _ w) as [w'|] eqn:Epub; [|by apply Inv_ends].
      destruct (publish_same _ _ _ _ _ _ _ _ _ Epub) as (Eq & _ & [r Hr1]). assert (Inv w') as I1 by (eapply Inv_publish; [done|exact Epub|exact Hfin]).
      rewrite Hr1. apply (Inv_settling _ tok q); [done|by rewrite Eq|done].
  - match goal with |- Inv (if ?b then _ else _) => destruct b; [by apply Inv_ends|] end. destruct (get _ _ w) as [r|] eqn:Eg; [|by apply Inv_ends]. apply available_Some in Eg as (Hr & _). destruct (_ && _ && _ && _) eqn:Ec; [|by apply Inv_ends]. to_prop.
    apply (Inv_quiet w tok q); [done..| |done]. cbn. exists r. split; [done|]. unfold swept. by destruct (state r).
Qed.

Lemma Inv_commit_capture tok admitted video w : Inv w -> Inv (commit_capture tok admitted video w).
Proof.
  intros I. unfold commit_capture. destruct (requests w !! tok) as [q|] eqn:Hq; [|done]. destruct (q_phase q) as [| | | | | | | |row|] eqn:Hp; try done.
  destruct (_ && _) eqn:E; [|done]. to_prop. when El ipattern:([now_|]); [|by apply Inv_ends]. apply passed_Some, locked_Some in El as (Hr & Ho & Hc).
  destruct (final row) as [f|] eqn:Hf; [|by apply Inv_ends]. pose proof (settling_final w tok q row f I Hq Hp Hf) as Hfin.
  case_bool_decide as Hpub; [rewrite Hr; by apply (Inv_settling w tok q)|].
  destruct (publish _ _ _ _ _ _ _ w) as [w'|] eqn:Epub; [|by apply Inv_ends].
  destruct (publish_same _ _ _ _ _ _ _ _ _ Epub) as (Eq & _ & [r Hr1]). assert (Inv w') as I1 by (eapply Inv_publish; [done|exact Epub|exact Hfin]).
  rewrite Hr1. apply (Inv_settling _ tok q); [done|by rewrite Eq|done].
Qed.

Lemma Inv_publish_live_photo o s v prepared w w' : Inv w -> publish_live_photo o s v prepared w = Some w' -> Inv w'.
Proof.
  intros I. unfold publish_live_photo. destruct (locked false s o w) as [still|] eqn:Es; cbn [mbind option_bind]; [|done].
  destruct (locked false v o w) as [motion|] eqn:Ev; cbn [mbind option_bind]; [|done]. destruct (String.eqb s v || _) eqn:Esv; [done|]. to_prop.
  destruct (final still) as [fs|] eqn:Hfs; [|done]. destruct (final motion) as [fv|] eqn:Hfv; [|done]. destruct (_ || _); [done|].
  apply locked_Some in Es as (Hs & _), Ev as (Hv & _). destruct (bool_decide (state still = published) && _) eqn:Eboth.
  { destruct (result still) as [rs|]; [|done]. destruct (result motion) as [rv|]; [|done]. destruct (assets w !! _); [|done]. destruct (assets w !! _); [|done].
    destruct (_ && _ && _ && _ && _ && _ && _); [|done]. by intros [= <-]. }
  destruct (negb _); [done|]. destruct (charge o _ w) as [w1|] eqn:Ec; cbn [mbind option_bind]; [|done].
  pose proof (Inv_charge _ _ _ _ I Ec) as I1. apply charge_Some in Ec as (u & _ & _ & E1).
  destruct (publish v _ _ _ _ _ _ w1) as [w2|] eqn:Ep; cbn [mbind option_bind]; [|done].
  assert (Inv w2) as I2 by (eapply Inv_publish; [exact I1|exact Ep|]; subst w1; cbn; congruence). apply publish_same in Ep as (_ & Hother & _).
  destruct (resources w2 !! v ≫= result) as [rv|]; [|done]. intros Ep'. eapply Inv_publish; [exact I2|exact Ep'|].
  rewrite Hother by done. subst w1. cbn. congruence.
Qed.

(** *** Ingestion, cancelling and cleaning up *)

Lemma Inv_ingestion w i row done_ g : Inv w -> resources w !! i = Some row -> (ingested row = true -> done_ = true) -> Inv (put_resource i (set_ingestion done_ g row) w).
Proof.
  intros I Hr Hd. pose proof (inv_final w I _ _ Hr) as Hf. unfold final_ok in Hf. apply (Inv_onward w i row); try done; cbn; [apply later_refl| | |].
  - unfold swept. cbn. by destruct (state row).
  - by intros Hn; rewrite Hn in Hf.
  - destruct (final row); [|done]. by destruct Hf as (_ & _ & ?).
Qed.
Lemma Inv_completeDuplicate i o w w' : Inv w -> completeDuplicate i o w = Some w' -> Inv w'.
Proof.
  intros I. unfold completeDuplicate. destruct (locked false i o w) as [row|] eqn:El; cbn [mbind option_bind]; [|done]. apply locked_Some in El as (Hr & _).
  repeat case_match; try done. intros [= <-]. by apply Inv_ingestion.
Qed.
Lemma Inv_claimIngestion i o w w' : Inv w -> claimIngestion i o w = Some w' -> Inv w'.
Proof.
  intros I. unfold claimIngestion. destruct (locked true i o w) as [row|] eqn:El; cbn [mbind option_bind]; [|done]. apply locked_Some in El as (Hr & _).
  destruct (_ && _ && _) eqn:E; [|done]. intros [= <-]. to_prop. apply (Inv_ingestion (set_given (S (given w)) w)); [apply (Inv_same w); [done..|cbn; lia]|done|congruence].
Qed.
Lemma Inv_completeIngestion i o token w w' : Inv w -> completeIngestion i o token w = Some w' -> Inv w'.
Proof.
  intros I. unfold completeIngestion. destruct (locked true i o w) as [row|] eqn:El; cbn [mbind option_bind]; [|done]. apply locked_Some in El as (Hr & _).
  repeat case_match; try done. intros [= <-]. by apply Inv_ingestion.
Qed.
Lemma Inv_cancelled w i row till g : Inv w -> resources w !! i = Some row -> Inv (put_resource i (set_cancelled till g row) w).
Proof. intros I Hr. apply (Inv_onward w i row); try done; cbn. by destruct (state row). Qed.
Lemma Inv_cancel i o w w' : Inv w -> cancel i o w = Some w' -> Inv w'.
Proof.
  intros I. unfold cancel. destruct (locked false i o w) as [row|] eqn:El; cbn [mbind option_bind]; [|done]. apply locked_Some in El as (Hr & _).
  case_bool_decide; [done|]. intros [= <-]. by apply Inv_cancelled.
Qed.
Lemma Inv_cleanup i w : Inv w -> Inv (cleanup i w).
Proof.
  intros I. unfold cleanup, cleanup_row. destruct (resources w !! i) as [row|] eqn:Hr; cbn [mbind option_bind]; [|done].
  destruct (retained w row); [done|]. destruct (_ && _ && _); [done|]. set (row' := set_cancelled _ None row). set (w1 := put_resource i row' w).
  assert (Inv (set_given (S (given w)) w1)) as I1 by (apply (Inv_same w1); [by apply Inv_cancelled|done..|cbn; lia]).
  apply (Inv_request (set_given (S (given w)) w1) (uuid (given w))); [done| | |].
  - cbn. rewrite <- (string_app_nil_r (uuid (given w))). apply used_next.
  - cbn. exists row'. by rewrite lookup_insert_eq.
  - intros p c P Hc. by apply quiet_claims in Hc.
Qed.
Lemma Inv_sweep_file tok name w : Inv w -> Inv (sweep_file tok name w).
Proof.
  intros I. unfold sweep_file. destruct (requests w !! tok) as [q|] eqn:Hq; [|done]. destruct (q_phase q) eqn:Hp; try done. destruct (referenced _ _) eqn:E; [done|].
  pose proof (inv_reqs w I _ _ Hq) as Hok. unfold req_ok in Hok. rewrite Hp in Hok. destruct Hok as (r & Hr & Hs). apply Inv_remove; [done| |].
  - intros a x Hx Hpath. apply not_true_iff_false in E. apply E. unfold referenced. apply existsb_exists. exists (a, x). split; [by apply list_elem_of_In, elem_of_map_to_list|].
    by apply bool_decide_eq_true_2.
  - intros c P _ _ Hu. specialize (Hu _ Hr). by rewrite Hs in Hu.
Qed.
Lemma Inv_remove_user o w : Inv w -> Inv (perform (RemoveUser o) w).
Proof.
  intros I. set (own := fun r => if bool_decide (ownerId r = Some o) then set_owner None r else r).
  assert (forall r, offset (own r) = offset r /\ expectedSize (own r) = expectedSize r /\ state (own r) = state r /\ final (own r) = final r /\ declared (own r) = declared r /\ ingested (own r) = ingested r) as Hown.
  { intros r. unfold own. by destruct (bool_decide _). }
  apply (Inv_by_step w _ (CFinal "")); [done|]. split; cbn; [done| | | | |by left|by left|by left]; fold own.
  - intros i r Hr. rewrite lookup_fmap in Hr. destruct (resources w !! i) as [r0|] eqn:Hr0; [|done]. injection Hr as <-. destruct (Hown r0) as (Ho & He & Hs & Hf & Hd & _). split.
    + eapply row_ok_same; [by apply (inv_rows w I)|done..|]. by rewrite Hs.
    + pose proof (inv_final w I _ _ Hr0) as Hfo. unfold final_ok in *. by rewrite Hf, Hd, Hs.
  - intros i Hi. rewrite lookup_fmap in Hi. apply (inv_home w I). by destruct (resources w !! i).
  - intros i r Hr. exists (own r). rewrite lookup_fmap, Hr. destruct (Hown r) as (Ho & He & Hs & Hf & Hd & Hi). split; [done|]. split; [|done]. split; rewrite ?Hs, ?Hd, ?Hf, ?Ho, ?He; [apply later_refl|done| |done..].
    unfold swept. by rewrite Hs, Hi.
  - intros p c P [i o' pt Hpt|t q p' c' P' Hq Hc|i r f Hr Hf]; left; [by constructor|by econstructor|]. cbn in Hr. rewrite lookup_fmap in Hr.
    destruct (resources w !! i) as [r0|] eqn:Hr0; [|done]. injection Hr as <-. destruct (Hown r0) as (Ho & _ & _ & Hf' & _). fold own in Hf |- *. rewrite Ho. rewrite Hf' in Hf. by econstructor.
Qed.

Lemma Inv_perform op w : Inv w -> (given (perform op w) <= distinct)%nat -> Inv (perform op w).
Proof.
  intros I Hn. destruct op; cbn [perform]; unfold or_same;
    try match goal with |- Inv (default w ?x) => destruct x as [w'|] eqn:E; cbn; [|done] end.
  - by eapply Inv_create.
  - by apply Inv_begin.
  - by apply Inv_read.
  - by apply Inv_write_part.
  - by apply Inv_commit.
  - by apply Inv_leave.
  - by apply Inv_gather.
  - by apply Inv_assemble.
  - by apply Inv_conclude.
  - by apply Inv_settle.
  - by apply Inv_commit_capture.
  - by eapply Inv_publish_live_photo.
  - by eapply Inv_completeDuplicate.
  - by eapply Inv_claimIngestion.
  - by eapply Inv_completeIngestion.
  - by eapply Inv_cancel.
  - by apply Inv_cleanup.
  - by apply Inv_sweep_file.
  - unfold end_request. destruct (requests w !! tok); [by apply Inv_ends|done].
  - by apply Inv_stop.
  - apply Inv_assets; [done|]. intros a' y Hy. apply lookup_delete_Some in Hy as [_ Hy]. by left.
  - by apply Inv_remove_user.
  - by apply (Inv_same w).
Qed.
Lemma Inv_empty us t : Inv (empty_world us t).
Proof.
  split; try done; cbn.
  - intros p c1 c2 P1 P2 [i o pt Hm|? ? ? ? ? Hq _|? ? ? Hr _]; done.
  - intros p c P [i o pt Hm|? ? ? ? ? Hq _|? ? ? Hr _]; done.
  - intros p c P [i o pt Hm|? ? ? ? ? Hq _|? ? ? Hr _]; done.
Qed.

(** Names are given out, never taken back. *)
Lemma given_ends tok q w : given (ends tok q w) = given w.
Proof. unfold ends, release_stream. destruct (_ !! _); [|done]. by destruct (String.eqb _ _). Qed.
Lemma given_claim tok i k w w' : claim_stream tok i k w = Some w' -> given w' = given w.
Proof. unfold claim_stream. by repeat case_match; intros [= <-]. Qed.
Lemma given_publish i prepared video motion rejectDuplicate quotaCharged edit w w' :
  publish i prepared video motion rejectDuplicate quotaCharged edit w = Some w' -> (given w <= given w')%nat.
Proof. intros (row & o & f & out & d & w1 & _ & _ & _ & _ & _ & -> & [(_ & _ & ->)|(_ & _ & _ & _ & us & -> & _)])%publish_Some; cbn; lia. Qed.
Lemma given_commit tok admitted answer w : given (commit tok admitted answer w) = given w.
Proof.
  unfold commit. destruct (requests w !! tok) as [q|]; [|done]. destruct (q_phase q) as [| |? ? ? ?| | | | | | |]; try done. destruct (q_kind q) as [at_ c l|at_ l|]; [| |done].
  - when E ipattern:([[gone w']|]); [|by rewrite given_ends]. apply passed_Some, append_after in E as (? & _ & _ & _ & (_ & _ & _ & _ & _ & Eg) & _).
    by destruct answer as [|[]]; rewrite ?given_ends.
  - when E ipattern:([[repeated w']|]); [|done]. apply passed_Some, put_after in E as (? & _ & _ & Hrest).
    assert (given w' = given w) as Eg by (destruct repeated; [by subst|by destruct Hrest as (_ & _ & _ & _ & _ & _ & ?)]).
    by destruct answer as [|[]]; rewrite ?given_ends.
Qed.
Lemma given_settle tok admitted video edit restored w : (given w <= given (settle tok admitted video edit restored w))%nat.
Proof.
  unfold settle. destruct (requests w !! tok) as [q|]; [|done]. destruct (q_phase q); try done. destruct (_ && _).
  - when E ipattern:([now_|]); [|by rewrite given_ends]. destruct (final row); [|by rewrite given_ends]. destruct (bool_decide _); [done|].
    destruct restored as [[a v]|]; [by destruct (resources _ !! _)|]. destruct (publish _ _ _ _ _ _ _ w) as [w'|] eqn:Ep; [|by rewrite given_ends].
    apply given_publish in Ep. by destruct (resources _ !! _).
  - destruct (_ && _); [by rewrite given_ends|]. destruct (get _ _ _); [|by rewrite given_ends]. destruct (_ && _ && _ && _); [done|by rewrite given_ends].
Qed.
Lemma given_commit_capture tok admitted video w : (given w <= given (commit_capture tok admitted video w))%nat.
Proof.
  unfold commit_capture. destruct (requests w !! tok) as [q|]; [|done]. destruct (q_phase q); try done. destruct (_ && _); [|done].
  when E ipattern:([now_|]); [|by rewrite given_ends]. destruct (final row); [|by rewrite given_ends]. destruct (bool_decide _); [by destruct (resources _ !! _)|].
  destruct (publish _ _ _ _ _ _ _ w) as [w'|] eqn:Ep; [|by rewrite given_ends]. apply given_publish in Ep. by destruct (resources _ !! _).
Qed.
Lemma given_live_photo o s v prepared w w' : publish_live_photo o s v prepared w = Some w' -> (given w <= given w')%nat.
Proof.
  unfold publish_live_photo. destruct (locked false s o w) as [still|]; cbn [mbind option_bind]; [|done].
  destruct (locked false v o w) as [motion|]; cbn [mbind option_bind]; [|done]. destruct (String.eqb s v || _); [done|].
  destruct (final still) as [fs|]; [|done]. destruct (final motion) as [fv|]; [|done]. destruct (_ || _); [done|]. destruct (bool_decide _ && _).
  { repeat case_match; try done; by intros [= <-]. }
  destruct (negb _); [done|]. destruct (charge o _ w) as [w1|] eqn:Ec; cbn [mbind option_bind]; [|done]. apply charge_Some in Ec as (u & _ & _ & ->).
  destruct (publish v _ _ _ _ _ _ _) as [w2|] eqn:Ep; cbn [mbind option_bind]; [|done]. apply given_publish in Ep. cbn in Ep.
  destruct (resources w2 !! v ≫= result) as [rv|]; [|done]. intros Ep'. apply given_publish in Ep'. lia.
Qed.
Lemma given_perform op w : (given w <= given (perform op w))%nat.
Proof.
  destruct op; cbn [perform]; unfold or_same; try match goal with |- (_ <= given (default w ?x))%nat => destruct x as [w'|] eqn:E; cbn [default from_option id]; [|done] end.
  - unfold create in E. repeat case_match; by simplify_eq.
  - unfold begin. when E ipattern:([row|]); [|cbn; lia]. destruct (first_phase k row); [|cbn; lia]. destruct (claim_stream _ i k _) as [w'|] eqn:Ec; [|cbn; lia].
    apply given_claim in Ec. cbn in Ec |- *. lia.
  - unfold read. repeat case_match; rewrite ?given_ends; done.
  - unfold write_part. repeat case_match; rewrite ?given_ends; cbn; lia.
  - by rewrite given_commit.
  - unfold leave. repeat case_match; rewrite ?given_ends; done.
  - unfold gather. repeat case_match; rewrite ?given_ends; done.
  - unfold assemble. repeat case_match; rewrite ?given_ends; cbn; lia.
  - unfold conclude. repeat case_match; rewrite ?given_ends; done.
  - apply given_settle.
  - apply given_commit_capture.
  - by eapply given_live_photo.
  - unfold completeDuplicate in E. destruct (locked _ _ _ _); cbn in E; [|done]. repeat case_match; by simplify_eq.
  - unfold claimIngestion in E. destruct (locked _ _ _ _); cbn in E; [|done]. repeat case_match; simplify_eq; cbn; lia.
  - unfold completeIngestion in E. destruct (locked _ _ _ _); cbn in E; [|done]. repeat case_match; by simplify_eq.
  - unfold cancel in E. destruct (locked _ _ _ _); cbn in E; [|done]. repeat case_match; by simplify_eq.
  - unfold cleanup. destruct (cleanup_row i w); cbn; lia.
  - unfold sweep_file. repeat case_match; done.
  - unfold end_request. destruct (_ !! _); by rewrite ?given_ends.
  - done.
  - done.
  - done.
  - done.
Qed.
Lemma given_play ops w : (given w <= given (play ops w))%nat.
Proof. revert w. induction ops as [|op ops IH]; intros w; [done|]. cbn. pose proof (given_perform op w). pose proof (IH (perform op w)). unfold play in *. lia. Qed.

Lemma Inv_play ops us t : (given (play ops (empty_world us t)) <= distinct)%nat -> Inv (play ops (empty_world us t)).
Proof.
  generalize (Inv_empty us t). generalize (empty_world us t). induction ops as [|op ops IH]; intros w I Hn; [done|]. cbn in *. apply IH; [|done].
  apply Inv_perform; [done|]. pose proof (given_play ops (perform op w)) as Hg. unfold play in Hg, Hn. lia.
Qed.
End runs.
