(* ===== verification/AssetUploadPromises.v ===== *)
(** * What uploads promise

    The theorems of resumable uploads, on every run of [AssetUpload]'s operations: the offset a client is
    told is the prefix that was received, acknowledged bytes are kept as they are, an upload is refused only
    for its own bytes, an asset is the declared file, and a user is charged for it once. *)

From S2P Require Import Prelude JsString AssetUpload AssetUploadManifest AssetUploadSafety AssetUploadRuns.
From S2P Require MimeTypes.
Local Open Scope Z_scope.

Section promises.
Context `{Uuids, Digests}.

(** ** What an operation leaves alone *)

Lemma ends_same tok q w : files (ends tok q w) = files w /\ users (ends tok q w) = users w /\ assets (ends tok q w) = assets w /\ manifests (ends tok q w) = manifests w.
Proof. unfold ends, release_stream. destruct (_ !! _); [|done]. by destruct (String.eqb _ _). Qed.

Definition publishes (op : Op) : bool :=
  match op with Settle _ _ _ _ _ | CommitCapture _ _ _ | PublishLivePhoto _ _ _ _ => true | _ => false end.
Definition removes (op : Op) : bool := match op with RemoveAsset _ | RemoveUser _ => true | _ => false end.
Definition touches_files (op : Op) : bool := match op with WritePart _ _ _ _ | Leave _ | Assemble _ | SweepFile _ _ => true | _ => false end.
Definition receives (op : Op) : bool := match op with Create _ _ _ _ | Commit _ _ _ => true | _ => false end.
Record kept (op : Op) (w w' : World) : Prop := {
  kp_files : touches_files op = false -> files w' = files w;
  kp_users : publishes op = false -> removes op = false -> users w' = users w;
  kp_assets : publishes op = false -> removes op = false -> assets w' = assets w;
  kp_manifests : receives op = false -> manifests w' = manifests w
}.
Lemma kept_refl op w : kept op w w.
Proof. done. Qed.
Lemma kept_ends op w w' tok q : kept op w w' -> kept op w (ends tok q w').
Proof. intros [? ? ? ?]. destruct (ends_same tok q w') as (Ef & Eu & Ea & Em). split; by rewrite ?Ef, ?Eu, ?Ea, ?Em. Qed.
Lemma kept_phase op w w' tok ph : kept op w w' -> kept op w (to_phase tok ph w').
Proof. by intros [? ? ? ?]. Qed.
Local Ltac same := repeat case_match; simplify_eq; try done; try (by split); try by apply kept_ends.
(** What a check answers, whatever it is. *)
Local Ltac checked pat := match goal with |- context [match (if ?b then ?x else None) with _ => _ end] => destruct (if b then x else None) as pat eqn:E end.

Lemma kept_commit tok admitted answer w : kept (Commit tok admitted answer) w (commit tok admitted answer w).
Proof.
  unfold commit. destruct (requests w !! tok) as [q|]; [|done]. destruct (q_phase q) as [| |? ? ? ?| | | | | | |]; try done. destruct (q_kind q) as [at_ c l|at_ l|]; [| |done].
  - checked ipattern:([[gone w']|]); [|by apply kept_ends]. assert (kept (Commit tok admitted answer) w w').
    { apply passed_Some in E. unfold append_part in E. destruct (locked _ _ _ _); cbn [mbind option_bind] in E; [|done]. destruct (_ || _); [done|]. injection E as <- <-. by destruct (0 <? _). }
    destruct answer as [|[]]; [by apply kept_phase|by apply kept_ends|by apply kept_ends].
  - checked ipattern:([[repeated w']|]); [|done]. assert (kept (Commit tok admitted answer) w w').
    { apply passed_Some in E. unfold put_part in E. destruct (locked _ _ _ _); cbn [mbind option_bind] in E; [|done]. by repeat case_match; simplify_eq. }
    destruct answer as [|[]]; [by apply kept_phase|by apply kept_ends|by apply kept_ends].
Qed.

Lemma kept_publish op i prepared video motion rejectDuplicate quotaCharged edit w w1 w' : publishes op = true -> kept op w w1 ->
  publish i prepared video motion rejectDuplicate quotaCharged edit w1 = Some w' -> kept op w w'.
Proof.
  intros Hop [Kf _ _ Km] (row & o & f & out & d & w2 & _ & _ & _ & _ & _ & -> & Hcase)%publish_Some.
  destruct Hcase as [(_ & _ & ->)|(_ & _ & _ & _ & us & -> & _)]; split; try done; by rewrite Hop.
Qed.
Lemma kept_settle tok admitted video edit restored w : kept (Settle tok admitted video edit restored) w (settle tok admitted video edit restored w).
Proof.
  unfold settle. destruct (requests w !! tok) as [q|]; [|done]. destruct (q_phase q); try done. destruct (_ && _); [|same].
  checked ipattern:([now_|]); [|by apply kept_ends]. destruct (final row); [|by apply kept_ends]. destruct (bool_decide _); [by split|].
  destruct restored as [[a v]|]; [destruct (resources _ !! _); by split|]. destruct (publish _ _ _ _ _ _ _ w) as [w'|] eqn:Ep; [|by apply kept_ends].
  eapply (kept_publish (Settle tok admitted video edit None)) in Ep; [|done|apply kept_refl]. destruct (resources _ !! _); [by apply kept_phase|done].
Qed.
Lemma kept_commit_capture tok admitted video w : kept (CommitCapture tok admitted video) w (commit_capture tok admitted video w).
Proof.
  unfold commit_capture. destruct (requests w !! tok) as [q|]; [|done]. destruct (q_phase q); try done. destruct (_ && _); [|done].
  checked ipattern:([now_|]); [|by apply kept_ends]. destruct (final row); [|by apply kept_ends]. destruct (bool_decide _); [destruct (resources _ !! _); by split|].
  destruct (publish _ _ _ _ _ _ _ w) as [w'|] eqn:Ep; [|by apply kept_ends]. eapply (kept_publish (CommitCapture tok admitted video)) in Ep; [|done|apply kept_refl]. destruct (resources _ !! _); [by apply kept_phase|done].
Qed.

(** The publication of a Live Photo, when it is not a repeated one: one charge, then each half. *)
Lemma live_photo_Some o s v prepared w w' : publish_live_photo o s v prepared w = Some w' -> w' = w \/
  exists still motion fs fv w1 w2 a, s <> v /\ locked false s o w = Some still /\ locked false v o w = Some motion /\
    charge o (offset still + offset motion) w = Some w1 /\ publish v fv true None true true None w1 = Some w2 /\ publish s fs false (Some a) true true None w2 = Some w'.
Proof.
  unfold publish_live_photo. destruct (locked false s o w) as [still|] eqn:Es; cbn [mbind option_bind]; [|done].
  destruct (locked false v o w) as [motion|] eqn:Ev; cbn [mbind option_bind]; [|done]. destruct (String.eqb s v || _) eqn:Esv; [done|]. to_prop.
  destruct (final still) as [fs|]; [|done]. destruct (final motion) as [fv|]; [|done]. destruct (_ || _); [done|]. destruct (bool_decide _ && _).
  { repeat case_match; try done. intros [= <-]. by left. }
  destruct (negb _); [done|]. destruct (charge o _ w) as [w1|] eqn:Ec; cbn [mbind option_bind]; [|done].
  destruct (publish v _ _ _ _ _ _ _) as [w2|] eqn:Ep; cbn [mbind option_bind]; [|done]. destruct (resources w2 !! v ≫= result) as [rv|]; [|done].
  intros E. right. by exists still, motion, fs, fv, w1, w2, (resultAssetId rv).
Qed.
Lemma kept_live_photo o s v prepared w w' : publish_live_photo o s v prepared w = Some w' -> kept (PublishLivePhoto o s v prepared) w w'.
Proof.
  intros [->|(still & motion & fs & fv & w1 & w2 & a & _ & _ & _ & (u & _ & _ & ->)%charge_Some & E1 & E2)]%live_photo_Some; [done|].
  eapply kept_publish; [done| |exact E2]. by eapply kept_publish; [done| |exact E1].
Qed.

Lemma kept_perform op w : kept op w (perform op w).
Proof.
  destruct op; cbn [perform]; unfold or_same; try match goal with |- kept _ _ (default w ?x) => destruct x as [w'|] eqn:E; cbn [default from_option id]; [|done] end.
  - unfold create in E. same.
  - unfold begin. checked ipattern:([row|]); [|done]. destruct (first_phase k row); [|done]. destruct (claim_stream _ i k _) as [w'|] eqn:Ec; [|done].
    unfold claim_stream in Ec. by repeat case_match; simplify_eq.
  - unfold read. same.
  - unfold write_part. same.
  - apply kept_commit.
  - unfold leave. same.
  - unfold gather. same.
  - unfold assemble. same.
  - unfold conclude. same.
  - apply kept_settle.
  - apply kept_commit_capture.
  - by apply kept_live_photo.
  - unfold completeDuplicate in E. destruct (locked _ _ _ _); cbn in E; [|done]. same.
  - unfold claimIngestion in E. destruct (locked _ _ _ _); cbn in E; [|done]. same.
  - unfold completeIngestion in E. destruct (locked _ _ _ _); cbn in E; [|done]. same.
  - unfold cancel in E. destruct (locked _ _ _ _); cbn in E; [|done]. same.
  - unfold cleanup, cleanup_row. destruct (resources w !! i); cbn; [|done]. same.
  - unfold sweep_file. same.
  - unfold end_request. same.
  - by split.
  - by split.
  - by split.
  - by split.
Qed.

(** ** Files are written once *)

Lemma remove_files_sub i ns w p b : files (remove_files i ns w) !! p = Some b -> files w !! p = Some b.
Proof.
  unfold remove_files. cbn. generalize (files w). induction ns as [|n ns IH]; intros fs; cbn; [done|].
  intros Hb%IH. by apply lookup_delete_Some in Hb as [_ ?].
Qed.
Lemma files_born op w p b : files (perform op w) !! p = Some b -> (given (perform op w) <= distinct)%nat -> used (given w) p.2 -> files w !! p = Some b.
Proof.
  intros Hb Hn Hu. destruct (touches_files op) eqn:Ht; [|by rewrite <- (kp_files _ _ _ (kept_perform op w) Ht)]. revert Hb Hn.
  assert (forall i s b', (S (given w) <= distinct)%nat -> <[(i, uuid (given w) +:+ s) := b']> (files w) !! p = Some b -> files w !! p = Some b) as Hnew.
  { intros i s b' Hlt. destruct (decide (p = (i, uuid (given w) +:+ s))) as [->|]; [|by rewrite lookup_insert_ne]. cbn in Hu. apply unused in Hu; [done|lia]. }
  destruct op; try done; cbn [perform].
  - unfold write_part. repeat case_match; rewrite ?(proj1 (ends_same _ _ _)); try (by intros Hb _); intros Hb Hn; (eapply Hnew; [|exact Hb]); done.
  - unfold leave. repeat case_match; rewrite ?(proj1 (ends_same _ _ _)); intros Hb _; first [exact Hb|by apply remove_files_sub in Hb].
  - unfold assemble. repeat case_match; rewrite ?(proj1 (ends_same _ _ _)); try (by intros Hb _); intros Hb Hn; (eapply Hnew; [|exact Hb]); done.
  - unfold sweep_file. repeat case_match; try (by intros Hb _). intros Hb _. cbn in Hb. by apply lookup_delete_Some in Hb as [_ ?].
Qed.
Lemma files_born_play ops w p b : files (play ops w) !! p = Some b -> (given (play ops w) <= distinct)%nat -> used (given w) p.2 -> files w !! p = Some b.
Proof.
  revert w. induction ops as [|op ops IH]; intros w Hb Hn Hu; [done|]. cbn in Hb, Hn. pose proof (given_play ops (perform op w)) as Hg. unfold play in Hg, Hn.
  apply (files_born op); [|lia|done]. apply IH; [done..|]. eapply used_mono; [done|apply given_perform].
Qed.
Lemma Inv_more ops w : Inv w -> (given (play ops w) <= distinct)%nat -> Inv (play ops w).
Proof.
  revert w. induction ops as [|op ops IH]; intros w I Hn; [done|]. cbn in *. pose proof (given_play ops (perform op w)) as Hg. unfold play in Hg, Hn.
  apply IH; [|done]. apply Inv_perform; [done|lia].
Qed.

(** ** The received prefix stays *)

Lemma manifest_same w w' i : manifests w' = manifests w -> manifest w' i = manifest w i.
Proof. unfold manifest. by intros ->. Qed.
Lemma parts_kept op w i r o p : Inv w -> resources w !! i = Some r -> manifest w i !! o = Some p -> o < offset r -> manifest (perform op w) i !! o = Some p.
Proof.
  intros I Hr Hp Ho. destruct (receives op) eqn:Hrec; [|by rewrite (manifest_same _ _ _ (kp_manifests _ _ _ (kept_perform op w) Hrec))].
  assert (forall j tok q, manifest (ends tok q j) i = manifest j i) as Hends by (intros j tok q; apply manifest_same, ends_same).
  destruct op as [j o' d size| | | |tok admitted answer| | | | | | | | | | | | | | | | | |]; try done; cbn [perform].
  - unfold or_same, create. repeat case_match; try done. cbn [default from_option id]. to_prop. rewrite (manifest_put (put_resource j _ w)).
    destruct (decide (i = j)) as [->|]; [|done]. exfalso. eauto.
  - unfold commit. destruct (requests w !! tok) as [q|] eqn:Hq; [|done]. destruct (q_phase q) as [| |initial name size t| | | | | | |] eqn:Hph; try done.
    pose proof (inv_reqs w I _ _ Hq) as Hok. unfold req_ok in Hok. rewrite Hph in Hok. destruct (q_kind q) as [at_ c l|at_ l|] eqn:Hk; [| |done].
    + checked ipattern:([[gone w']|]); [|by rewrite Hends]. apply passed_Some, append_after in E as (row & Hl & Hv & _ & (_ & Em & _) & _). apply locked_Some in Hl as (Hrow & _).
      assert (manifest w' i !! o = Some p) as Hm.
      { rewrite Em. destruct (decide (i = q_upload q)) as [->|]; [|done]. rewrite Hr in Hrow. injection Hrow as <-. unfold validate in Hv. to_prop. subst at_.
        unfold appended_manifest. destruct (0 <? size); [|done]. by apply append_kept. }
      destruct answer as [|[]]; rewrite ?Hends; done.
    + checked ipattern:([[repeated w']|]); [|done]. apply passed_Some, put_after in E as (row & Hl & Hv & Hrest). apply locked_Some in Hl as (Hrow & _).
      assert (manifest w' i !! o = Some p) as Hm.
      { destruct repeated; [by subst w'|]. destruct Hrest as (Hfree & _ & Em & _). rewrite Em. destruct (decide (i = q_upload q)) as [->|]; [|done].
        destruct (decide (o = at_)) as [->|]; [|by rewrite lookup_insert_ne]. exfalso. destruct Hok as (Hw & _). cbn in Hw. to_prop.
        rewrite Hr in Hrow. injection Hrow as <-. pose proof (inv_rows w I _ _ Hr) as Hok'. rewrite (put_fresh (manifest w (q_upload q)) at_ l (ro_sized _ _ Hok')) in Hp; [done|lia|done]. }
      destruct answer as [|[]]; rewrite ?Hends; done.
Qed.

(** The parts of a prefix, and that it only grows. *)
Lemma prefix_kept ops w i r : Inv w -> (given (play ops w) <= distinct)%nat -> resources w !! i = Some r ->
  (forall o p, manifest w i !! o = Some p -> o < offset r -> manifest (play ops w) i !! o = Some p).
Proof.
  intros I Hn Hr. pose proof (inv_rows w I _ _ Hr) as [Hs _ Hpre _ _]. set (n := offset r) in *.
  assert (forall ops w', Inv w' -> (given (play ops w') <= distinct)%nat -> (forall o p, manifest w i !! o = Some p -> o < n -> manifest w' i !! o = Some p) ->
    forall o p, manifest w i !! o = Some p -> o < n -> manifest (play ops w') i !! o = Some p) as Hgo; [|by apply Hgo].
  clear Hn. induction ops0 as [|op ops' IH]; intros w' I' Hn Hk o p Ho Hlt; [by apply Hk|]. cbn in *.
  pose proof (given_play ops' (perform op w')) as Hg. unfold play in Hg, Hn. apply (IH (perform op w')); try done; [apply Inv_perform; [done|lia]|].
  intros o1 p1 Ho1 Hlt1. pose proof (Hk _ _ Ho1 Hlt1) as Hk1. destruct (resources w' !! i) as [r'|] eqn:Hr'; [|by rewrite (inv_home w' I' i Hr') in Hk1].
  eapply parts_kept; [done|exact Hr'|done|]. pose proof (inv_rows w' I' _ _ Hr') as [_ _ (H0' & Hc' & Hn') _ _]. destruct (Z.lt_ge_cases (offset r') n) as [Hbad|]; [|lia].
  exfalso. apply Hn'. destruct Hpre as (_ & Hcov & _). destruct (Hcov (offset r') ltac:(lia)) as (o2 & p2 & Ho2 & Hb2). exists o2, p2. split; [|done]. apply Hk; [done|]. 
  destruct (Z.lt_ge_cases o2 n); [done|lia].
Qed.

(** ** Charges *)

(** The bytes of a user's assets. *)
Definition owned (w : World) (o : string) : Z := map_fold (fun _ a n => (if String.eqb (owner a) o then fileSize a else 0) + n) 0 (assets w).
Lemma owned_insert w w' a x o : assets w !! a = None -> assets w' = <[a := x]> (assets w) ->
  owned w' o = (if String.eqb (owner x) o then fileSize x else 0) + owned w o.
Proof. intros Ha E. unfold owned. rewrite E. rewrite map_fold_insert_L; [done|intros; lia|done]. Qed.
Lemma owned_same w w' o : assets w' = assets w -> owned w' o = owned w o.
Proof. unfold owned. by intros ->. Qed.

Definition fits (u : User) : Prop := match quotaSize u with Some q => quotaUsage u <= q | None => True end.
(** What users are charged between two worlds is what their assets grew by, and a charge fits. *)
Definition fair (w w' : World) : Prop :=
  forall o u, users w !! o = Some u -> exists u', users w' !! o = Some u' /\ quotaSize u' = quotaSize u /\
    quotaUsage u' - quotaUsage u = owned w' o - owned w o /\ (fits u -> fits u').
Lemma fair_refl w : fair w w.
Proof. intros o u Hu. exists u. repeat split; [done|lia|done]. Qed.
Lemma fair_trans a b c : fair a b -> fair b c -> fair a c.
Proof.
  intros Hab Hbc o u Hu. destruct (Hab _ _ Hu) as (u1 & Hu1 & Hq1 & He1 & Hf1). destruct (Hbc _ _ Hu1) as (u2 & Hu2 & Hq2 & He2 & Hf2).
  exists u2. repeat split; [done|congruence|lia|auto].
Qed.
Lemma fair_same w w' w'' : users w'' = users w' -> assets w'' = assets w' -> fair w w' -> fair w w''.
Proof. intros Eu Ea Hf o u Hu. rewrite Eu, (owned_same w' w'') by done. by apply Hf. Qed.

Lemma fair_publish i prepared video motion rejectDuplicate edit w w' : publish i prepared video motion rejectDuplicate false edit w = Some w' -> fair w w'.
Proof.
  intros (row & o & f & out & d & w1 & Hr & _ & Ho & _ & _ & -> & [(_ & _ & ->)|(_ & _ & _ & Hnew & us & -> & u & Hu & Hq & ->)])%publish_Some.
  { by apply (fair_same w w), fair_refl. }
  intros o' u' Hu'. erewrite (owned_insert w _ _ _ o' Hnew) by reflexivity. cbn [users put_resource set_resources set_assets set_given set_users owner fileSize]. destruct (decide (o' = o)) as [->|Hne].
  - rewrite Hu in Hu'. injection Hu' as <-. rewrite lookup_insert_eq, String.eqb_refl. eexists. split; [done|]. cbn. repeat split; [lia|]. intros _. done.
  - rewrite lookup_insert_ne by done. replace (String.eqb o o') with false by (symmetry; by apply String.eqb_neq). exists u'. repeat split; [done|lia|done].
Qed.
Lemma charged_publish i prepared video motion edit w w' : publish i prepared video motion true true edit w = Some w' ->
  exists row o, resources w !! i = Some row /\ ownerId row = Some o /\ users w' = users w /\
    forall o', owned w' o' = (if String.eqb o o' then offset row else 0) + owned w o'.
Proof.
  intros (row & o & f & out & d & w1 & Hr & _ & Ho & _ & _ & -> & [(_ & ? & ->)|(_ & _ & _ & Hnew & us & -> & ->)])%publish_Some; [done|].
  exists row, o. repeat (split; [done|]). intros o'. by erewrite (owned_insert w _ _ _ o' Hnew) by reflexivity.
Qed.
Lemma fair_live_photo o s v prepared w w' : publish_live_photo o s v prepared w = Some w' -> fair w w'.
Proof.
  intros [->|(still & motion & fs & fv & w1 & w2 & a & Hsv & Hs & Hv & (u & Hu & Hq & ->)%charge_Some & Ev & Es)]%live_photo_Some; [apply fair_refl|].
  apply locked_Some in Hs as (Hs & Hso & _), Hv as (Hv & Hvo & _). pose proof (publish_same _ _ _ _ _ _ _ _ _ Ev) as (_ & Hother & _).
  apply charged_publish in Ev as (mrow & mo & Hm & Hmo & Eu2 & Ha2), Es as (srow & so & Hsr & Hsro & Eu' & Ha'). cbn in Hm, Hother.
  rewrite Hother in Hsr by done. rewrite Hs in Hsr. injection Hsr as <-. rewrite Hv in Hm. injection Hm as <-.
  assert (mo = o) as -> by congruence. assert (so = o) as -> by congruence.
  intros o' u' Hu'. rewrite Eu', Eu2, Ha', Ha2. cbn [users set_users]. rewrite (owned_same w (set_users _ w)) by done. destruct (decide (o' = o)) as [->|Hne].
  - rewrite Hu in Hu'. injection Hu' as <-. rewrite lookup_insert_eq, String.eqb_refl. eexists. split; [done|]. cbn. repeat split; [lia|]. intros _. done.
  - rewrite lookup_insert_ne by done. replace (String.eqb o o') with false by (symmetry; by apply String.eqb_neq). exists u'. repeat split; [done|lia|done].
Qed.
Lemma fair_stays w w' : users w' = users w -> assets w' = assets w -> fair w w'.
Proof. intros ? ?. apply (fair_same w w); [done..|apply fair_refl]. Qed.
Lemma fair_ends w w' tok q : fair w w' -> fair w (ends tok q w').
Proof. apply fair_same; apply ends_same. Qed.

Lemma fair_perform op w : removes op = false -> fair w (perform op w).
Proof.
  intros Hr. destruct (publishes op) eqn:Hp.
  2:{ destruct (kept_perform op w) as [_ Ku Ka _]. apply (fair_same w w); [by apply Ku|by apply Ka|apply fair_refl]. }
  destruct op; try done; cbn [perform].
  - unfold settle. destruct (requests w !! tok) as [q|]; [|apply fair_refl]. destruct (q_phase q); try apply fair_refl. destruct (_ && _).
    2:{ repeat case_match; try apply fair_ends; by apply fair_stays. }
    checked ipattern:([now_|]); [|apply fair_ends, fair_refl]. destruct (final row); [|apply fair_ends, fair_refl]. destruct (bool_decide _); [by apply fair_stays|].
    destruct restored as [[a v]|]; [destruct (resources _ !! _); by apply fair_stays|]. destruct (publish _ _ _ _ _ _ _ w) as [w'|] eqn:Ep; [|apply fair_ends, fair_refl].
    apply fair_publish in Ep. by destruct (resources _ !! _).
  - unfold commit_capture. destruct (requests w !! tok) as [q|]; [|apply fair_refl]. destruct (q_phase q); try apply fair_refl. destruct (_ && _); [|apply fair_refl].
    checked ipattern:([now_|]); [|apply fair_ends, fair_refl]. destruct (final row); [|apply fair_ends, fair_refl]. destruct (bool_decide _); [destruct (resources _ !! _); by apply fair_stays|].
    destruct (publish _ _ _ _ _ _ _ w) as [w'|] eqn:Ep; [|apply fair_ends, fair_refl]. apply fair_publish in Ep. by destruct (resources _ !! _).
  - unfold or_same. destruct (publish_live_photo _ _ _ _ w) eqn:E; [by eapply fair_live_photo|apply fair_refl].
Qed.
Lemma fair_play ops w : forallb (fun op => negb (removes op)) ops = true -> fair w (play ops w).
Proof.
  revert w. induction ops as [|op ops IH]; intros w Hops; [apply fair_refl|]. cbn in Hops |- *. to_prop. eapply fair_trans; [by apply fair_perform|by apply IH].
Qed.

(** ** The theorems *)

(** C12. The offset an upload answers with is the length of its received prefix, whatever requests did,
    crossed or broke off: every byte below it is in a part, the byte at it is in none, no byte is in two
    parts, and an upload that is past receiving has all the bytes it expects. *)
Theorem offset_is_received_prefix ops us t i r : let w := play ops (empty_world us t) in
  (given w <= distinct)%nat -> resources w !! i = Some r ->
  (forall b, 0 <= b < offset r -> covered (manifest w i) b) /\ ~ covered (manifest w i) (offset r) /\ disjoint (manifest w i) /\
  (past_receiving (state r) = true -> expectedSize r = Some (offset r) /\ 0 < offset r).
Proof.
  intros w Hn Hr. destruct (inv_rows _ (Inv_play ops us t Hn) _ _ Hr) as [_ Hd (_ & Hc & Hun) _ Hcomp]. done.
Qed.

(** C10. What was acknowledged is kept: a part of the received prefix is in the manifest of every later
    moment, under the same file, and until the upload is rejected, cancelled or ingested that file holds
    the very bytes it held, whatever other requests, failures and sweeps came between. *)
Theorem acknowledged_prefix_kept ops ops' us t i r o p : let w := play ops (empty_world us t) in let w' := play ops' w in
  (given w' <= distinct)%nat -> resources w !! i = Some r -> manifest w i !! o = Some p -> o < offset r ->
  manifest w' i !! o = Some p /\
  ((forall r', resources w' !! i = Some r' -> swept r' = false) ->
   exists b, files w !! (i, p_name p) = Some b /\ files w' !! (i, p_name p) = Some b /\ Z.of_nat (length b) = p_size p).
Proof.
  intros w w' Hn Hr Hp Ho. pose proof (given_play ops' w) as Hg. assert (Inv w) as I by (apply Inv_play; fold w; unfold w' in Hn; lia).
  assert (Inv w') as I' by by apply Inv_more. assert (manifest w' i !! o = Some p) as Hp' by (by apply (prefix_kept ops' w i r)). split; [done|]. intros Hu.
  assert (held w' (i, p_name p) (CManifest i o) (fun b => Z.of_nat (length b) = p_size p /\ is_part_name (p_name p) = true)) as Hh' by by constructor.
  assert (held w (i, p_name p) (CManifest i o) (fun b => Z.of_nat (length b) = p_size p /\ is_part_name (p_name p) = true)) as Hh by by constructor.
  destruct (inv_kept w' I' _ _ _ Hh' eq_refl Hu) as (b & Hb & Hlen & _). exists b. split; [|done].
  apply (files_born_play ops'); [exact Hb|done|]. by eapply held_used.
Qed.

(** An upload is refused for its own bytes only: the request that gathered its parts, when it comes to
    assemble them, makes of them the acknowledged bytes in order, all that are expected, and keeps them
    when they have the declared digest; only when they have not is the upload refused. *)
Theorem refused_only_for_its_bytes ops us t tok q initial l r : let w := play ops (empty_world us t) in
  (given w <= distinct)%nat -> requests w !! tok = Some q -> q_phase q = Gathered initial l ->
  resources w !! q_upload q = Some r -> swept r = false -> validExtension (extension (declared r)) = true ->
  let bytes := received (files w) (q_upload q) (manifest w (q_upload q)) in
  expectedSize r = Some (Z.of_nat (length bytes)) /\
  (q_phase <$> requests (assemble tok w) !! tok) =
    Some (if String.eqb (sha256 bytes) (expectedChecksum (declared r)) then Assembled initial (uuid (given w) +:+ extension (declared r)) bytes else Refused initial).
Proof.
  intros w Hn Hq Hp Hr Hs Hext bytes. assert (Inv w) as I by by apply Inv_play. pose proof (inv_reqs w I _ _ Hq) as Hok. unfold req_ok in Hok. rewrite Hp in Hok.
  destruct Hok as (r' & Hr' & (Hfin & Hrec & Hd & Hoff & Hsize) & ->). rewrite Hr in Hr'. injection Hr' as <-. pose proof (inv_rows w I _ _ Hr) as Hrow.
  assert (past_receiving (state r) = true) as Hpast by (unfold swept in Hs; by destruct (state r)).
  assert (stored (files w) (q_upload q) (manifest w (q_upload q))) as Hst.
  { intros o p Hop. destruct (inv_kept w I _ _ _ (he_manifest w (q_upload q) o p Hop) eq_refl) as (b & Hb & Hlen & Hname); [|split; [done|by exists b]].
    intros r0 Hr0. cbn in Hr0. rewrite Hr in Hr0. by injection Hr0 as <-. }
  destruct (assemble_received (files w) (q_upload q) r (manifest w (q_upload q)) Hrow Hpast Hst) as [Ha Hlen]. fold bytes in Ha, Hlen.
  split; [rewrite Hlen; by apply (ro_complete _ _ Hrow)|]. unfold assemble. rewrite Hq, Hp. unfold assembleAssetUploadParts. rewrite <- Hd, Hext, <- Hoff, Ha, Hlen, Z.eqb_refl.
  cbn [negb andb]. destruct (String.eqb _ _); rewrite (to_phase_insert tok q) by done; cbn; by rewrite lookup_insert_eq.
Qed.

(** C11. An asset that an upload made is the declared file: while the asset is there, the file it names
    is on disk, has the size that was received and the digest the client declared. *)
Theorem published_is_declared ops us t a x : let w := play ops (empty_world us t) in
  (given w <= distinct)%nat -> assets w !! a = Some x ->
  exists i r b, resources w !! i = Some r /\ fst (originalPath x) = i /\ files w !! originalPath x = Some b /\
    sha256 b = expectedChecksum (declared r) /\ checksum x = expectedChecksum (declared r) /\ Z.of_nat (length b) = offset r /\ fileSize x = offset r.
Proof.
  intros w Hn Hx. assert (Inv w) as I by by apply Inv_play. destruct (inv_assets w I _ _ Hx) as (i & r & f & Hr & Hf & Hpath & Hsum & Hsz & b & Hb & Hd & Hlen).
  pose proof (inv_final w I _ _ Hr) as Hfo. unfold final_ok in Hfo. rewrite Hf in Hfo. destruct Hfo as (Hfi & Hfs & _).
  exists i, r, b. rewrite <- Hpath in *. repeat split; try congruence.
Qed.

(** C13. A user is charged for a new asset once: over any run in which no user and no asset is removed, a
    user's usage grows by the bytes of the assets they come to own, Live Photos included, and never passes
    a quota it was within. *)
Theorem charged_once ops us t o u : let w := play ops (empty_world us t) in
  forallb (fun op => negb (removes op)) ops = true -> us !! o = Some u ->
  exists u', users w !! o = Some u' /\ quotaSize u' = quotaSize u /\ quotaUsage u' = quotaUsage u + owned w o /\ (fits u -> fits u').
Proof.
  intros w Hops Hu. destruct (fair_play ops (empty_world us t) Hops o u Hu) as (u' & Hu' & Hq & He & Hf). exists u'. repeat split; try done.
  unfold owned at 2 in He. cbn in He. rewrite map_fold_empty in He. unfold w. lia.
Qed.
End promises.

(** ** A run

    A file of four bytes in two parts, the second of which comes first; then the file is assembled,
    published, ingested, and its parts are swept. *)
Module sample.
Definition digit (n : nat) : ascii := ascii_of_nat (48 + n mod 10).
Definition name (n : nat) : string := "0000000000000000000000000000000000" +:+ String (digit (n / 10)) (String (digit n) "").
Definition small : nat := 30.
Lemma digit_ok n : uuid_char (digit n) = true.
Proof.
  unfold digit. pose proof (Nat.mod_upper_bound n 10 ltac:(lia)) as Hn. revert Hn. generalize (n mod 10)%nat. intros k Hk.
  do 10 (destruct k as [|k]; [done|]). lia.
Qed.
Lemma name_chars n : string_all uuid_char (name n) = true.
Proof. change (uuid_char (digit (n / 10)) && (uuid_char (digit n) && true) = true). by rewrite !digit_ok. Qed.
Lemma name_length n : String.length (name n) = 36%nat.
Proof. done. Qed.
Lemma name_inj n m : (n < small)%nat -> (m < small)%nat -> name n = name m -> n = m.
Proof.
  intros Hn Hm E. assert (forallb (fun n => forallb (fun m => implb (String.eqb (name n) (name m)) (n =? m)%nat) (seq 0 small)) (seq 0 small) = true) as Hall by by vm_compute.
  rewrite forallb_forall in Hall. specialize (Hall n ltac:(apply in_seq; lia)). rewrite forallb_forall in Hall. specialize (Hall m ltac:(apply in_seq; lia)).
  rewrite E, String.eqb_refl in Hall. by apply Nat.eqb_eq in Hall.
Qed.
#[local] Instance names : Uuids := {| uuid := name; distinct := small; uuid_chars := name_chars; uuid_length := name_length; uuid_inj := name_inj |}.
(** Any digest does; this one is the bytes themselves. *)
#[local] Instance digests : Digests := {| sha256 := String.string_of_list_byte; sha1 := String.string_of_list_byte |}.

Definition file : Bytes := [Byte.x01; Byte.x02; Byte.x03; Byte.x04].
Definition declared_file : Declared := mkDeclared single (String.string_of_list_byte file) "a.jpg" 100 100.
Definition uploader : gmap string User := {[ "u"%string := mkUser 3 (Some 10) ]}.
Definition parts : list Op :=
  [Create "r" "u" declared_file (Some 4); Begin "r" "u" (Put 2 2) true; Begin "r" "u" (Put 0 2) true;
   WritePart (name 0) 100 [Byte.x03; Byte.x04] false; WritePart (name 1) 100 [Byte.x01; Byte.x02] false;
   Commit (name 0) true Answered; Commit (name 1) true Answered].
Definition gathering : list Op := [Leave (name 0); Leave (name 1); Begin "r" "u" Finish true; Gather (name 4)].
Definition publishing : list Op :=
  [Assemble (name 4); Conclude (name 4) true; Settle (name 4) true false None None; ClaimIngestion "r" "u"; CompleteIngestion "r" "u" (name 7);
   Settle (name 4) true false None None; SweepFile (name 4) (part_name 2); SweepFile (name 4) (part_name 3); End (name 4)].
Abbreviation start := (empty_world uploader 0).
Abbreviation received_row := (mkResource (Some "u"%string) declared_file (Some 4) 4 finalizing None None false None 86400000).
Abbreviation request := (mkRequest "r" "u" Finish (Gathered received_row [(0, mkPart (part_name 3) 2); (2, mkPart (part_name 2) 2)])).

Lemma names_enough : (given (play (publishing) (play (parts ++ gathering) start)) <= distinct)%nat.
Proof. vm_compute. lia. Qed.
Lemma names_enough_parts : (given (play parts start) <= distinct)%nat.
Proof. vm_compute. lia. Qed.
Lemma names_enough_gathering : (given (play (parts ++ gathering) start) <= distinct)%nat.
Proof. vm_compute. lia. Qed.
Lemma row_received : resources (play parts start) !! "r"%string = Some received_row.
Proof. by vm_compute. Qed.
Lemma row_gathered : resources (play (parts ++ gathering) start) !! "r"%string = Some received_row.
Proof. by vm_compute. Qed.
Lemma request_gathered : requests (play (parts ++ gathering) start) !! name 4 = Some request.
Proof. by vm_compute. Qed.
Lemma part_received : manifest (play parts start) "r" !! 2 = Some (mkPart (part_name 2) 2).
Proof. by vm_compute. Qed.
Abbreviation original := (mkAsset "u" (String.string_of_list_byte file) ("r"%string, name 5 +:+ ".jpg") 4 None false).
Lemma asset_made : assets (play (parts ++ gathering ++ publishing) start) !! name 6 = Some original.
Proof. by vm_compute. Qed.
Lemma names_enough_all : (given (play (parts ++ gathering ++ publishing) start) <= distinct)%nat.
Proof. vm_compute. lia. Qed.
(** The run ends with the original alone on disk, and the user charged for it. *)
Example run_ends : let w := play (parts ++ gathering ++ publishing) start in
  map_to_list (files w) = [(("r"%string, name 5 +:+ ".jpg"), file)] /\ users w !! "u"%string = Some (mkUser 7 (Some 10)) /\ map_to_list (requests w) = [].
Proof. by vm_compute. Qed.

Lemma offset_is_received_prefix_witness :
  let w := play parts start in ~ covered (manifest w "r") 4 /\ disjoint (manifest w "r") /\ (forall b, 0 <= b < 4 -> covered (manifest w "r") b).
Proof. destruct (offset_is_received_prefix parts uploader 0 "r" received_row names_enough_parts row_received) as (Hc & Hn & Hd & _). done. Defined.
Lemma names_enough_later : (given (play gathering (play parts start)) <= distinct)%nat.
Proof. vm_compute. lia. Qed.
Lemma row_unswept : forall r, resources (play gathering (play parts start)) !! "r"%string = Some r -> swept r = false.
Proof.
  assert (resources (play gathering (play parts start)) !! "r"%string = Some received_row) as E by by vm_compute. intros r. rewrite E. by intros [= <-].
Qed.
Lemma acknowledged_prefix_kept_witness :
  manifest (play gathering (play parts start)) "r" !! 2 = Some (mkPart (part_name 2) 2) /\
  exists b, files (play gathering (play parts start)) !! ("r"%string, part_name 2) = Some b /\ Z.of_nat (length b) = 2.
Proof.
  destruct (acknowledged_prefix_kept parts gathering uploader 0 "r" received_row 2 (mkPart (part_name 2) 2) names_enough_later row_received part_received eq_refl) as [Hp Hk].
  destruct (Hk row_unswept) as (b & _ & Hb & Hlen). exact (conj Hp (ex_intro _ b (conj Hb Hlen))).
Defined.
Lemma extension_ok : validExtension (extension declared_file) = true.
Proof. by vm_compute. Qed.
Lemma refused_only_for_its_bytes_witness : let w := play (parts ++ gathering) start in
  let bytes := received (files w) (q_upload request) (manifest w (q_upload request)) in
  (q_phase <$> requests (assemble (name 4) w) !! name 4) =
    Some (if String.eqb (sha256 bytes) (expectedChecksum (declared received_row)) then Assembled received_row (uuid (given w) +:+ extension (declared received_row)) bytes
          else Refused received_row).
Proof.
  exact (proj2 (refused_only_for_its_bytes (parts ++ gathering) uploader 0 (name 4) request received_row
    [(0, mkPart (part_name 3) 2); (2, mkPart (part_name 2) 2)] received_row names_enough_gathering request_gathered eq_refl row_gathered eq_refl extension_ok)).
Defined.
Lemma published_is_declared_witness :
  exists b, files (play (parts ++ gathering ++ publishing) start) !! originalPath original = Some b /\ Z.of_nat (length b) = fileSize original.
Proof.
  destruct (published_is_declared (parts ++ gathering ++ publishing) uploader 0 (name 6) original names_enough_all asset_made) as (i & r & b & _ & _ & Hb & _ & _ & Hlen & Hsize).
  exact (ex_intro _ b (conj Hb (eq_trans Hlen (eq_sym Hsize)))).
Defined.
Lemma owned_here : 3 + owned (play (parts ++ gathering ++ publishing) start) "u" = 7.
Proof. by vm_compute. Qed.
Lemma charged_once_witness : exists u', users (play (parts ++ gathering ++ publishing) start) !! "u"%string = Some u' /\ quotaUsage u' = 7.
Proof.
  destruct (charged_once (parts ++ gathering ++ publishing) uploader 0 "u" (mkUser 3 (Some 10)) eq_refl eq_refl) as (u' & Hu & _ & Hq & _).
  exact (ex_intro _ u' (conj Hu (eq_trans Hq owned_here))).
Defined.
End sample.
