(* ===== verification/ParallelUpload.v ===== *)
(** * Sending a file in parts, side by side ([web/src/lib/utils/parallel-upload.ts])

    The browser's side of a resumable upload: the ranges it splits a file into, the ranges a listing says
    are missing, and its workers, which take a range, send it, and go by the answer: sent, busy, in
    conflict with what is there, dropped, failed.  The server's side is [AssetUpload]'s row and manifest.

    [Event] has one event for each turn of a worker, each answer it is given, and each part the server
    takes, which may come after the client gave the request up.  Sizes are safe integers; a listing is
    read at the moment its part is in conflict; the polling for the result after the last part, and the
    progress shown, are left out. *)

From Stdlib Require String.
From S2P Require Import Prelude JsString AssetUpload AssetUploadManifest.
Local Open Scope Z_scope.

Record Range := mkRange { r_offset : Z; r_size : Z }.
#[export] Instance Range_eq_dec : EqDecision Range.
Proof. solve_decision. Defined.
Definition r_end (r : Range) : Z := r_offset r + r_size r.

Definition MiB : Z := 2 ^ 20.
Definition MIN_PART : Z := 8 * MiB.
Definition MAX_ATTEMPTS : nat := 6.
Definition MAX_BUSY_RETRIES : nat := 32.

(** [partPolicy]; [metered] is a cellular connection, or one that saves data. *)
Definition partPolicy (metered : bool) : Z * nat := if metered then (16 * MiB, 2%nat) else (256 * MiB, 4%nat).
(** The size of the parts, and how many at once, given the server's limits. *)
Definition initial_part (metered : bool) (maxAppend : Z) : Z := Z.max MIN_PART (Z.min (fst (partPolicy metered)) maxAppend).
Definition initial_parallel (metered : bool) (maxParallel : nat) : nat := Nat.min (snd (partPolicy metered)) maxParallel.

(** [splitRange], which takes at most one turn for each byte. *)
Fixpoint split_from (fuel : nat) (at_ end_ partSize : Z) : list Range :=
  match fuel with
  | O => []
  | S fuel => if at_ <? end_ then mkRange at_ (Z.min partSize (end_ - at_)) :: split_from fuel (at_ + partSize) end_ partSize else []
  end.
Definition splitRange (r : Range) (partSize : Z) : list Range := split_from (Z.to_nat (r_size r)) (r_offset r) (r_end r) partSize.

(** [missingRanges]: nothing when all of it is there. *)
Fixpoint gaps_from (at_ end_ : Z) (parts : list Range) : list Range :=
  match parts with
  | [] => if at_ <? end_ then [mkRange at_ (end_ - at_)] else []
  | p :: parts =>
      if (r_end p <=? at_) || (end_ <=? r_offset p) then gaps_from at_ end_ parts
      else (if at_ <? r_offset p then [mkRange at_ (r_offset p - at_)] else []) ++ gaps_from (Z.max at_ (r_end p)) end_ parts
  end.
Record Listing := mkListing { l_offset : Z; l_size : option Z; l_parts : list Range }.
Definition missingRanges (l : Listing) (range : Range) : option (list Range) :=
  if match l_size l with Some s => s <=? l_offset l | None => false end then None
  else Some (gaps_from (r_offset range) (r_end range) (l_parts l)).

(** ** The client *)

Record Sending := mkSending { range : Range; attempt : nat; busy : nat }.
#[export] Instance Sending_eq_dec : EqDecision Sending.
Proof. solve_decision. Defined.
(** [looping] workers are about to take a range; each of [sending] is a worker in [sendPart]. *)
Record Client := mkClient { pending : list Range; looping : nat; sending : list Sending; partSize : Z; closed : bool; failed : bool }.
#[export] Instance Client_eq_dec : EqDecision Client.
Proof. solve_decision. Defined.
Definition set_pending (l : list Range) (c : Client) : Client := mkClient l (looping c) (sending c) (partSize c) (closed c) (failed c).

Definition new_client (size part : Z) (parallel : nat) : Client := mkClient (splitRange (mkRange 0 size) part) parallel [] part false false.

(** The loop of a worker. *)
Definition take_next (c : Client) : Client :=
  match looping c with
  | O => c
  | S looping =>
      match pending c with
      | [] => mkClient [] looping (sending c) (partSize c) (closed c) (failed c)
      | r :: rest =>
          if closed c then mkClient rest looping (sending c) (partSize c) (closed c) (failed c)
          else
            match (if partSize c <? r_size r then splitRange r (partSize c) else [r]) with
            | [] => mkClient rest looping (sending c) (partSize c) (closed c) (failed c)
            | first :: more => mkClient (more ++ rest) looping (mkSending first 1 0 :: sending c) (partSize c) (closed c) (failed c)
            end
      end
  end.
(** [sendPart] of the k-th returns, throws, or tries again. *)
Definition returns (k : nat) (c : Client) : Client := mkClient (pending c) (S (looping c)) (delete k (sending c)) (partSize c) (closed c) (failed c).
Definition throws (k : nat) (c : Client) : Client := mkClient (pending c) (looping c) (delete k (sending c)) (partSize c) (closed c) true.
Definition again (k : nat) (s : Sending) (c : Client) : Client := mkClient (pending c) (looping c) (<[k := s]> (sending c)) (partSize c) (closed c) (failed c).
Definition set_closed (c : Client) : Client := mkClient (pending c) (looping c) (sending c) (partSize c) true (failed c).
Definition set_part (n : Z) (c : Client) : Client := mkClient (pending c) (looping c) (sending c) n (closed c) (failed c).

(** A next attempt, or none left. *)
Definition retry (k : nat) (s : Sending) (c : Client) : Client :=
  if (MAX_ATTEMPTS <=? attempt s)%nat then throws k c else again k (mkSending (range s) (S (attempt s)) (busy s)) c.
(** A conflict that only means another request holds the part. *)
Definition on_busy (k : nat) (s : Sending) (c : Client) : Client :=
  if (MAX_BUSY_RETRIES <=? busy s)%nat then throws k c else again k (mkSending (range s) (attempt s) (S (busy s))) c.
(** Any other conflict, with the listing that was read ([None]: it could not be). *)
Definition on_conflict (k : nat) (s : Sending) (l : option Listing) (c : Client) : Client :=
  match l with
  | None => retry k s c
  | Some l =>
      match missingRanges l (range s) with
      | None => returns k (set_closed c)
      | Some gaps => if bool_decide (gaps = [range s]) then throws k c else returns k (set_pending (gaps ++ pending c) c)
      end
  end.
(** No answer: later parts are smaller. *)
Definition on_dropped (k : nat) (s : Sending) (c : Client) : Client :=
  if (MAX_ATTEMPTS <=? attempt s)%nat then throws k c
  else if MIN_PART <? r_size (range s) then
    let part := Z.max MIN_PART (r_size (range s) / 2) in
    returns k (set_pending (splitRange (range s) part ++ pending c) (set_part part c))
  else again k (mkSending (range s) (S (attempt s)) (busy s)) c.

(** ** With the server *)

(** [sent]: the ranges that were ever sent. *)
Record World := mkWorld { client : Client; sent : list Range; row : Resource; parts : Manifest; disk : gmap Path Bytes }.
Definition with_client (c : Client) (w : World) : World := mkWorld c (map range (sending c) ++ sent w) (row w) (parts w) (disk w).
Definition listing (w : World) : Listing := mkListing (offset (row w)) (expectedSize (row w)) (map (fun op => mkRange op.1 (p_size op.2)) (by_offset (parts w))).

Section send.
Context (file : Bytes) (folder : string).

(** [file.slice]. *)
Definition slice (r : Range) : Bytes := take (Z.to_nat (r_size r)) (drop (Z.to_nat (r_offset r)) file).

Inductive Event :=
| Next
| Arrive (r : Range) (name : string)
| Accepted (k : nat)
| Busy (k : nat)
| Conflict (k : nat) (listed : bool)
| Dropped (k : nat)
| Retried (k : nat)
| Gone (k : nat).

(** The server takes a part it was sent, into a file of its own, as [AssetUpload.put_part] does. *)
Definition arrive (r : Range) (name : string) (w : World) : World :=
  if existsb (fun r' => bool_decide (r' = r)) (sent w) && receiving_part (row w) (r_offset r) (r_size r) &&
     bool_decide (List.filter (overlaps (r_offset r) (r_size r)) (map_to_list (parts w)) = []) && bool_decide (disk w !! (folder, name) = None) && is_part_name name
  then
    let m := <[r_offset r := mkPart name (r_size r)]> (parts w) in
    mkWorld (client w) (sent w) (put_row (row w) m) m (<[(folder, name) := slice r]> (disk w))
  else w.
(** A part is accepted when it is in the manifest, from this request or an earlier one. *)
Definition has_part (r : Range) (w : World) : bool := match parts w !! r_offset r with Some p => p_size p =? r_size r | None => false end.
Definition answer (k : nat) (f : Sending -> Client -> Client) (w : World) : World :=
  match sending (client w) !! k with Some s => with_client (f s (client w)) w | None => w end.
Definition perform (e : Event) (w : World) : World :=
  match e with
  | Next => with_client (take_next (client w)) w
  | Arrive r name => arrive r name w
  | Accepted k => answer k (fun s c => if has_part (range s) w then returns k c else c) w
  | Busy k => answer k (on_busy k) w
  | Conflict k listed => answer k (fun s => on_conflict k s (if listed then Some (listing w) else None)) w
  | Dropped k => answer k (on_dropped k) w
  | Retried k => answer k (retry k) w
  | Gone k => answer k (fun _ => throws k) w
  end.
Definition play (es : list Event) (w : World) : World := foldl (fun w e => perform e w) w es.

(** The workers have all ended, and none threw. *)
Definition done_sending (c : Client) : Prop := looping c = 0%nat /\ sending c = [] /\ failed c = false.
Definition start (r : Resource) (part : Z) (parallel : nat) : World :=
  mkWorld (new_client (Z.of_nat (length file)) part parallel) [] r ∅ ∅.
End send.
(** ** Ranges *)

Definition inside (b : Z) (r : Range) : Prop := r_offset r <= b < r_end r.
Definition fits (lo hi : Z) (r : Range) : Prop := lo <= r_offset r /\ 1 <= r_size r /\ r_end r <= hi.
Definition total_size (l : list Range) : Z := foldr (fun r n => r_size r + n) 0 l.
Lemma total_size_app a b : total_size (a ++ b) = total_size a + total_size b.
Proof. induction a as [|r a IH]; cbn; [done|]. unfold total_size in *. cbn. lia. Qed.

Lemma split_from_spec fuel at_ end_ part : 1 <= part -> end_ - at_ <= Z.of_nat fuel ->
  (forall b, at_ <= b < end_ <-> exists r, r ∈ split_from fuel at_ end_ part /\ inside b r) /\
  (forall r, r ∈ split_from fuel at_ end_ part -> fits at_ end_ r /\ r_size r <= part) /\
  total_size (split_from fuel at_ end_ part) = Z.max 0 (end_ - at_).
Proof.
  intros Hp. revert at_. induction fuel as [|fuel IH]; intros at_ Hf; cbn [split_from].
  { split; [|split; [by intros r ?%not_elem_of_nil|cbn; lia]]. intros b. split; [lia|]. by intros (r & ?%not_elem_of_nil & _). }
  destruct (at_ <? end_) eqn:E; to_prop.
  2:{ split; [|split; [by intros r ?%not_elem_of_nil|cbn; lia]]. intros b. split; [lia|]. by intros (r & ?%not_elem_of_nil & _). }
  destruct (IH (at_ + part) ltac:(lia)) as (H1 & H2 & H3). split; [|split].
  - intros b. split.
    + intros Hb. destruct (decide (b < at_ + part)).
      * eexists. split; [by left|]. unfold inside, r_end. cbn. lia.
      * destruct (H1 b) as [(r & Hr & Hin) _]; [lia|]. exists r. split; [by right|done].
    + intros (r & [->|Hr]%elem_of_cons & Hin); [unfold inside, r_end in Hin; cbn in Hin; lia|]. assert (at_ + part <= b < end_); [|lia]. apply H1. by exists r.
  - intros r [->|Hr]%elem_of_cons; [unfold fits, r_end; cbn; lia|]. destruct (H2 _ Hr) as [(? & ? & ?) ?]. split; [|done]. split; [lia|done].
  - unfold total_size in *. cbn. rewrite H3. lia.
Qed.

Section ranges.
Context (r : Range) (part : Z) (Hpart : 1 <= part).
Lemma splitRange_covers b : inside b r <-> exists x, x ∈ splitRange r part /\ inside b x.
Proof using Hpart. apply split_from_spec; [done|unfold r_end; lia]. Qed.
Lemma splitRange_fits x : x ∈ splitRange r part -> fits (r_offset r) (r_end r) x /\ r_size x <= part.
Proof using Hpart. apply split_from_spec; [done|unfold r_end; lia]. Qed.
Lemma splitRange_total : total_size (splitRange r part) = Z.max 0 (r_size r).
Proof using Hpart.
  destruct (split_from_spec (Z.to_nat (r_size r)) (r_offset r) (r_end r) part Hpart) as (_ & _ & E); [unfold r_end; lia|]. unfold splitRange. rewrite E. unfold r_end. lia.
Qed.
Lemma splitRange_shape : 1 <= r_size r -> exists first more, splitRange r part = first :: more /\ (part < r_size r -> more <> []).
Proof using Hpart.
  intros Hs. unfold splitRange. destruct (Z.to_nat (r_size r)) as [|n] eqn:En; [lia|]. cbn [split_from]. unfold r_end.
  replace (r_offset r <? r_offset r + r_size r) with true by (symmetry; apply Z.ltb_lt; lia). eexists _, _. split; [done|]. intros Hlt.
  destruct n as [|n]; [lia|]. cbn [split_from]. by replace (r_offset r + part <? r_offset r + r_size r) with true by (symmetry; apply Z.ltb_lt; lia).
Qed.
End ranges.

(** The missing ranges are the bytes of the range that no part has, each once. *)
Definition parted (l : list Range) (b : Z) : Prop := exists p, p ∈ l /\ inside b p.
Fixpoint in_order (at_ : Z) (l : list Range) : Prop :=
  match l with [] => True | r :: l => at_ <= r_offset r /\ 1 <= r_size r /\ in_order (r_end r) l end.
Lemma gaps_fit at_ end_ l g : g ∈ gaps_from at_ end_ l -> fits at_ end_ g.
Proof.
  revert at_. induction l as [|p l IH]; intros at_; cbn [gaps_from].
  - destruct (at_ <? end_) eqn:E; to_prop; [intros ->%list_elem_of_singleton; unfold fits, r_end; cbn; lia|by intros ?%not_elem_of_nil].
  - destruct (_ || _) eqn:E; [by apply IH|]. to_prop. intros [Hg|Hg]%elem_of_app.
    + destruct (at_ <? r_offset p) eqn:E'; to_prop; [apply list_elem_of_singleton in Hg as ->; unfold fits, r_end in *; cbn; lia|by apply not_elem_of_nil in Hg].
    + destruct (IH _ Hg) as (? & ? & ?). split; [lia|done].
Qed.
Lemma gaps_cover at_ end_ l b : at_ <= b < end_ -> parted l b \/ exists g, g ∈ gaps_from at_ end_ l /\ inside b g.
Proof.
  revert at_. induction l as [|p l IH]; intros at_ Hb; cbn [gaps_from].
  - right. replace (at_ <? end_) with true by (symmetry; apply Z.ltb_lt; lia). eexists. split; [by left|]. unfold inside, r_end. cbn. lia.
  - destruct (decide (inside b p)) as [Hin|Hout]; [left; exists p; split; [by left|done]|].
    assert (forall a, a <= b -> parted (p :: l) b \/ exists g, g ∈ gaps_from a end_ l /\ inside b g) as IH'.
    { intros a Ha. destruct (IH a ltac:(lia)) as [(q & Hq & Hqb)|?]; [left; exists q; split; [by right|done]|by right]. }
    destruct (_ || _) eqn:E; [apply IH'; lia|]. to_prop. unfold inside in Hout. destruct (decide (b < r_offset p)).
    + right. replace (at_ <? r_offset p) with true by (symmetry; apply Z.ltb_lt; lia). eexists. split; [apply elem_of_app; left; by left|]. unfold inside, r_end. cbn. lia.
    + destruct (IH' (Z.max at_ (r_end p)) ltac:(lia)) as [?|(g & Hg & Hgb)]; [by left|]. right. exists g. split; [apply elem_of_app; by right|done].
Qed.
Lemma in_order_le a l r : in_order a l -> r ∈ l -> a <= r_offset r.
Proof.
  revert a. induction l as [|x l IH]; intros a; [by intros _ ?%not_elem_of_nil|]. intros (Ha & Hx & Hl) [->|Hr]%elem_of_cons; [done|].
  pose proof (IH _ Hl Hr). unfold r_end in *. lia.
Qed.
Lemma gaps_free a at_ end_ l g b : in_order a l -> g ∈ gaps_from at_ end_ l -> inside b g -> ~ parted l b.
Proof.
  intros Ho Hg Hb. assert (at_ <= b < end_) as Hin by (destruct (gaps_fit _ _ _ _ Hg) as (? & _ & ?); unfold inside in Hb; lia).
  revert a at_ Ho Hg Hin. induction l as [|p l IH]; intros a at_ Ho Hg Hin; [by intros (q & ?%not_elem_of_nil & _)|].
  destruct Ho as (_ & Hp & Ho). intros (q & [->|Hq]%elem_of_cons & Hqb); unfold inside in *; cbn [gaps_from] in Hg.
  - destruct (_ || _) eqn:E; [apply orb_true_iff in E as [E|E]; to_prop; lia|]. to_prop. apply elem_of_app in Hg as [Hg|Hg].
    + destruct (at_ <? r_offset p) eqn:E'; [apply list_elem_of_singleton in Hg as ->; unfold r_end in *; cbn in *; lia|by apply not_elem_of_nil in Hg].
    + destruct (gaps_fit _ _ _ _ Hg) as (? & _ & _). lia.
  - pose proof (in_order_le _ _ _ Ho Hq). destruct (_ || _) eqn:E; [by eapply (IH (r_end p) at_); [done..|exists q]|]. to_prop. apply elem_of_app in Hg as [Hg|Hg].
    + destruct (at_ <? r_offset p) eqn:E'; [apply list_elem_of_singleton in Hg as ->; unfold r_end in *; cbn in *; lia|by apply not_elem_of_nil in Hg].
    + destruct (gaps_fit _ _ _ _ Hg) as (? & _ & _). eapply (IH (r_end p) (Z.max at_ (r_end p))); [done|done|lia|by exists q].
Qed.
Lemma gaps_none at_ end_ l : end_ <= at_ -> gaps_from at_ end_ l = [].
Proof.
  revert at_. induction l as [|p l IH]; intros at_ Hle; cbn [gaps_from]; [by replace (at_ <? end_) with false by (symmetry; apply Z.ltb_ge; lia)|].
  destruct (_ || _) eqn:E; [by apply IH|]. to_prop. replace (at_ <? r_offset p) with false by (symmetry; apply Z.ltb_ge; lia). apply IH. lia.
Qed.

(** A range some of which is there leaves less to send. *)
Lemma gaps_total at_ end_ l : at_ < end_ -> (forall p, p ∈ l -> 1 <= r_size p) ->
  total_size (gaps_from at_ end_ l) < end_ - at_ \/ gaps_from at_ end_ l = [mkRange at_ (end_ - at_)].
Proof.
  intros Hlt Hl. revert at_ Hlt. induction l as [|p l IH]; intros at_ Hlt; cbn [gaps_from].
  - right. by replace (at_ <? end_) with true by (symmetry; apply Z.ltb_lt; lia).
  - assert (forall q, q ∈ l -> 1 <= r_size q) as Hl' by (intros q Hq; apply Hl; by right). destruct (_ || _) eqn:E; [by apply IH|]. to_prop. left. rewrite total_size_app.
    assert (total_size (gaps_from (Z.max at_ (r_end p)) end_ l) <= Z.max 0 (end_ - Z.max at_ (r_end p))) as Hrest.
    { destruct (Z.lt_ge_cases (Z.max at_ (r_end p)) end_) as [Hl2|Hl2]; [|rewrite gaps_none by done; cbn; lia].
      destruct (IH Hl' _ Hl2) as [?| ->]; [lia|]. cbn. lia. }
    pose proof (Hl p ltac:(by left)). unfold r_end in *. destruct (at_ <? r_offset p) eqn:E'; to_prop; cbn; lia.
Qed.

(** ** What every run keeps *)

Section kept.
Context (file : Bytes) (folder : string).
Let total : Z := Z.of_nat (length file).

(** Of the client: its ranges are of the file, and a byte that is not there is still to be sent, by somebody. *)
Record client_ok (have : Z -> Prop) (c : Client) : Prop := {
  co_part : 1 <= partSize c;
  co_pending : forall r, r ∈ pending c -> fits 0 total r;
  co_sending : forall s, s ∈ sending c -> fits 0 total (range s);
  co_all : failed c = false -> closed c = false -> forall b, 0 <= b < total -> have b \/ parted (pending c) b \/ parted (map range (sending c)) b;
  co_some : failed c = false -> closed c = false -> pending c <> [] -> (0 < looping c + length (sending c))%nat
}.
Record world_ok (w : World) : Prop := {
  wo_row : row_ok (row w) (parts w);
  wo_size : expectedSize (row w) = Some total;
  wo_state : (state (row w) = receiving_state (row w) /\ offset (row w) < total) \/ state (row w) = finalizing_state (row w);
  wo_sent : forall r, r ∈ sent w -> fits 0 total r;
  wo_disk : forall o p, parts w !! o = Some p ->
    is_part_name (p_name p) = true /\ disk w !! (folder, p_name p) = Some (slice file (mkRange o (p_size p)));
  wo_client : client_ok (covered (parts w)) (client w);
  wo_closed : closed (client w) = true -> offset (row w) = total
}.

Lemma world_client c w : world_ok w -> client_ok (covered (parts w)) c -> (closed c = true -> offset (row w) = total) -> world_ok (with_client c w).
Proof.
  intros [? ? ? Hs ? ? ?] Hc Hcl. split; try done. intros r [Hr|Hr]%elem_of_app; [|by apply Hs]. apply list_elem_of_fmap in Hr as (x & -> & Hx). by apply (co_sending _ _ Hc).
Qed.

Lemma parted_app a b x : parted (a ++ b) x <-> parted a x \/ parted b x.
Proof.
  split; [intros (p & [?|?]%elem_of_app & ?); [left|right]; by exists p|]. intros [(p & ? & ?)|(p & ? & ?)]; exists p; (split; [apply elem_of_app; auto|done]).
Qed.
Lemma parted_cons r l x : parted (r :: l) x <-> inside x r \/ parted l x.
Proof.
  split; [intros (p & [->|?]%elem_of_cons & ?); [by left|right; by exists p]|]. intros [?|(p & ? & ?)]; [exists r; split; [by left|done]|exists p; split; [by right|done]].
Qed.
Lemma parted_split r part x : 1 <= part -> parted (splitRange r part) x <-> inside x r.
Proof. intros Hp. rewrite (splitRange_covers r part Hp). done. Qed.
Lemma fits_split r part x : 1 <= part -> fits 0 total r -> x ∈ splitRange r part -> fits 0 total x.
Proof. intros Hp (? & ? & ?) Hx. destruct (splitRange_fits r part Hp x Hx) as [(? & ? & ?) _]. split; [lia|]. split; [done|lia]. Qed.

Lemma sending_delete (l : list Sending) k s : l !! k = Some s -> forall x, parted (map range l) x <-> inside x (range s) \/ parted (map range (delete k l)) x.
Proof.
  intros Hk x. rewrite <- parted_cons. unfold parted. split; intros (p & Hp & Hx); exists p; (split; [|done]); revert Hp.
  - rewrite (delete_Permutation l k s Hk) at 1. done.
  - rewrite (delete_Permutation l k s Hk) at 2. done.
Qed.
Lemma elem_delete {A} (l : list A) k x : x ∈ delete k l -> x ∈ l.
Proof. intros Hx. eapply elem_of_submseteq; [exact Hx|apply submseteq_delete]. Qed.

Lemma client_next have c : client_ok have c -> client_ok have (take_next c).
Proof.
  intros Hc. unfold take_next. destruct (looping c) as [|n] eqn:El; [done|]. destruct Hc as [Hp Hpend Hsend Hall Hsome]. destruct (pending c) as [|r rest] eqn:Ep.
  { by split. }
  assert (forall x, x ∈ rest -> fits 0 total x) as Hrest by (intros x Hx; apply Hpend; by right). destruct (closed c) eqn:Ec.
  { by split. }
  pose proof (Hpend r ltac:(by left)) as Hr.
  set (l := if partSize c <? r_size r then splitRange r (partSize c) else [r]).
  assert ((forall x, x ∈ l -> fits 0 total x) /\ (forall b, parted l b <-> inside b r)) as [Hl Hlb].
  { unfold l. destruct (_ <? _); [split; [intros x; by apply fits_split|intros b; by apply parted_split]|].
    split; [by intros x ->%list_elem_of_singleton|]. intros b. rewrite parted_cons. split; [intros [?|(? & ?%not_elem_of_nil & _)]; done|by left]. }
  destruct l as [|first more] eqn:E.
  { exfalso. destruct Hr as (_ & ? & _). destruct (Hlb (r_offset r)) as [_ Hb]. destruct Hb as (? & ?%not_elem_of_nil & _); [|done]. unfold inside, r_end. lia. }
  split; cbn.
  - done.
  - intros x [?|?]%elem_of_app; [apply Hl; by right|by apply Hrest].
  - intros s [->|Hs]%elem_of_cons; [apply Hl; by left|by apply Hsend].
  - intros Hf _ b Hb. rewrite parted_app, parted_cons. destruct (Hall Hf eq_refl b Hb) as [?|[[Hin|?]%parted_cons|?]]; [by left| |tauto|tauto].
    apply Hlb, parted_cons in Hin. tauto.
  - intros _ _ _. lia.
Qed.

Lemma client_again have c k s s' : client_ok have c -> sending c !! k = Some s -> range s' = range s -> client_ok have (again k s' c).
Proof.
  intros [Hp Hpend Hsend Hall Hsome] Hk Hs. assert (map range (<[k := s']> (sending c)) = map range (sending c)) as E.
  { change (map range) with (fmap (M := list) range). rewrite list_fmap_insert, Hs. apply list_insert_id. by rewrite list_lookup_fmap, Hk. }
  split; cbn; rewrite ?E, ?length_insert; try done. intros x Hx. assert (range x ∈ map range (sending c)) as Hin by (rewrite <- E; by apply list_elem_of_fmap_2).
  apply list_elem_of_fmap in Hin as (y & -> & Hy). by apply Hsend.
Qed.
Lemma client_throws have c k : client_ok have c -> client_ok have (throws k c).
Proof. intros [Hp Hpend Hsend Hall Hsome]. split; cbn; try done. intros s Hs%elem_delete. by apply Hsend. Qed.
(** A range is done with when its bytes are there, or pending again. *)
Lemma client_returns have c k s l part shut : client_ok have c -> sending c !! k = Some s -> 1 <= part -> (forall r, r ∈ l -> fits 0 total r) ->
  (shut = false -> forall b, 0 <= b < total -> inside b (range s) -> have b \/ parted l b) ->
  client_ok have (returns k (mkClient (l ++ pending c) (looping c) (sending c) part (closed c || shut) (failed c))).
Proof.
  intros [Hp Hpend Hsend Hall Hsome] Hk Hpart Hl Hb. split; cbn.
  - done.
  - intros r [?|?]%elem_of_app; [by apply Hl|by apply Hpend].
  - intros x Hx%elem_delete. by apply Hsend.
  - intros Hf Hc b Hbt. to_prop. rewrite parted_app. destruct (Hall Hf ltac:(done) b Hbt) as [?|[?|Hin]]; [by left|tauto|].
    rewrite (sending_delete _ _ _ Hk) in Hin. destruct Hin as [Hin|?]; [|tauto]. destruct (Hb ltac:(done) b Hbt Hin); tauto.
  - intros _ _ _. lia.
Qed.
Lemma client_retry have c k s : client_ok have c -> sending c !! k = Some s -> client_ok have (retry k s c).
Proof. intros Hc Hk. unfold retry. destruct (_ <=? _)%nat; [by apply client_throws|by eapply client_again]. Qed.
Lemma client_busy have c k s : client_ok have c -> sending c !! k = Some s -> client_ok have (on_busy k s c).
Proof. intros Hc Hk. unfold on_busy. destruct (_ <=? _)%nat; [by apply client_throws|by eapply client_again]. Qed.
Lemma client_dropped have c k s : client_ok have c -> sending c !! k = Some s -> client_ok have (on_dropped k s c).
Proof.
  intros Hc Hk. unfold on_dropped. destruct (_ <=? _)%nat; [by apply client_throws|]. destruct (_ <? _); [|by eapply client_again].
  set (part := Z.max MIN_PART _). assert (1 <= part) as Hpart by (unfold part, MIN_PART, MiB; lia).
  pose proof (co_sending _ _ Hc s ltac:(by eapply list_elem_of_lookup_2)) as Hs.
  pose proof (client_returns have c k s (splitRange (range s) part) part false Hc Hk Hpart) as Hgo. rewrite orb_false_r in Hgo. apply Hgo.
  - intros r. by apply fits_split.
  - intros _ b _ Hb. right. by apply parted_split.
Qed.

(** ** The server *)

Lemma parted_listing m b : parted (map (fun op => mkRange op.1 (p_size op.2)) (by_offset m)) b <-> covered m b.
Proof.
  split.
  - intros (p & ([o x] & -> & Hin)%list_elem_of_fmap & Hb). apply elem_by_offset in Hin. exists o, x. done.
  - intros (o & x & Hx & Hb). exists (mkRange o (p_size x)). split; [|done]. apply list_elem_of_fmap. exists (o, x). split; [done|by apply elem_by_offset].
Qed.
(** Its offset is the size only when it has everything, and then it has. *)
Lemma row_total w : world_ok w -> total <= offset (row w) -> offset (row w) = total.
Proof.
  intros Hw Hle. pose proof (wo_row w Hw) as [Hs Hd Hp Hwi Hc]. rewrite (wo_size w Hw) in Hwi. cbn in Hwi.
  destruct (Z.lt_ge_cases total (offset (row w))) as [Hlt|]; [|lia]. destruct Hp as (_ & Hcov & _). destruct (Hcov total ltac:(lia)) as (o & p & Ho & Hb).
  pose proof (Hwi _ _ Ho). lia.
Qed.
Lemma all_covered w : world_ok w -> (forall b, 0 <= b < total -> covered (parts w) b) -> offset (row w) = total.
Proof.
  intros Hw Hall. apply row_total; [done|]. pose proof (wo_row w Hw) as [_ _ (H0 & _ & Hn) _ _].
  destruct (Z.lt_ge_cases (offset (row w)) total); [|done]. destruct Hn. apply Hall. lia.
Qed.
Lemma client_more have have' c : (forall b, have b -> have' b) -> client_ok have c -> client_ok have' c.
Proof. intros Hh [? ? ? Hall ?]. split; try done. intros Hf Hc b Hb. destruct (Hall Hf Hc b Hb) as [?|?]; [left; auto|by right]. Qed.

Lemma world_arrive r name w : world_ok w -> world_ok (arrive file folder r name w).
Proof.
  intros Hw. unfold arrive. destruct (_ && _ && _ && _ && _) eqn:E; [|done]. to_prop. destruct Hw as [Hrow Hsize Hstate Hsent Hdisk Hclient Hclosed].
  assert (r ∈ sent w) as Hin.
  { match goal with Hx : existsb _ _ = true |- _ => apply existsb_exists in Hx as (r' & Hr' & Hx) end. to_prop. subst r'. by apply list_elem_of_In. }
  destruct (Hsent _ Hin) as (Hr0 & Hr1 & _). set (m := <[r_offset r := mkPart name (r_size r)]> (parts w)).
  assert (forall o p, parts w !! o = Some p -> overlaps (r_offset r) (r_size r) (o, p) = false) as Hfree.
  { intros o p Ho. destruct (overlaps _ _ (o, p)) eqn:Eo; [|done]. assert ((o, p) ∈ List.filter (overlaps (r_offset r) (r_size r)) (map_to_list (parts w))) as Hx.
    { apply list_elem_of_In, filter_In. split; [by apply list_elem_of_In, elem_of_map_to_list|done]. }
    match goal with Hn : List.filter _ _ = [] |- _ => rewrite Hn in Hx end. by apply not_elem_of_nil in Hx. }
  assert (row_ok (put_row (row w) m) m) as Hrow' by (apply put_row_ok; [done..|lia|done]).
  assert (forall b, covered (parts w) b -> covered m b) as Hmono.
  { intros b Hb. apply (put_covers (parts w) (r_offset r) (r_size r) name (ro_sized _ _ Hrow)); [lia|done|by left]. }
  assert (world_ok (mkWorld (client w) (sent w) (row w) (parts w) (disk w))) as Hw0 by by split.
  split; cbn [row parts sent disk client].
  - done.
  - done.
  - unfold put_row. cbn. rewrite Hsize. destruct (decide (Some total = Some (contiguous (offset (row w)) (by_offset m)))) as [Heq|Hne].
    + right. rewrite bool_decide_eq_true_2 by done. done.
    + left. rewrite bool_decide_eq_false_2 by done. split; [done|]. destruct Hrow' as [_ _ (_ & Hcov & _) Hwi _]. cbn in Hcov, Hwi. rewrite Hsize in Hwi.
      set (c := contiguous (offset (row w)) (by_offset m)) in *. destruct (Z.lt_trichotomy c total) as [?|[?|Hgt]]; [done|by subst c; congruence|].
      destruct (Hcov total) as (o & p & Ho & Hb); [unfold total in *; lia|]. pose proof (Hwi _ _ Ho). lia.
  - done.
  - intros o p Ho. destruct (decide (o = r_offset r)) as [->|Hor].
    + unfold m in Ho. rewrite lookup_insert_eq in Ho. injection Ho as <-. cbn. split; [done|]. rewrite lookup_insert_eq. by destruct r.
    + unfold m in Ho. rewrite lookup_insert_ne in Ho by done. destruct (Hdisk _ _ Ho) as [Hname Hb]. split; [done|]. rewrite lookup_insert_ne; [done|]. intros [= E']. subst name. by rewrite Hb in *.
  - by eapply client_more.
  - intros Hc. exfalso. specialize (Hclosed Hc). destruct Hrow as [Hs Hd Hp Hwi Hcomp]. destruct Hp as (_ & Hcov & _).
    match goal with Hr : receiving_part _ _ _ = true |- _ => unfold receiving_part in Hr; rewrite Hsize in Hr end. to_prop.
    destruct (Hcov (r_offset r)) as (o & p & Ho & Hb); [lia|]. pose proof (Hfree _ _ Ho) as Hov. unfold overlaps in Hov. cbn in Hov.
    apply andb_false_iff in Hov as [Hov|Hov]; to_prop; lia.
Qed.

(** ** Every event *)

Lemma returns_same c k part shut l : returns k (mkClient (l ++ pending c) (looping c) (sending c) part (closed c || shut) (failed c)) =
  mkClient (l ++ pending c) (S (looping c)) (delete k (sending c)) part (closed c || shut) (failed c).
Proof. done. Qed.
Lemma has_part_covers w s b : has_part (range s) w = true -> inside b (range s) -> covered (parts w) b.
Proof. unfold has_part. destruct (parts w !! _) as [p|] eqn:E; [|done]. intros Hs Hb. to_prop. exists (r_offset (range s)), p. unfold inside, r_end in Hb. split; [done|lia]. Qed.

Lemma world_conflict w k s (listed : bool) : world_ok w -> sending (client w) !! k = Some s ->
  let c := on_conflict k s (if listed then Some (listing w) else None) (client w) in
  client_ok (covered (parts w)) c /\ (closed c = true -> offset (row w) = total).
Proof.
  intros Hw Hk. pose proof (wo_client w Hw) as Hc. pose proof (co_part _ _ Hc) as Hpart. unfold on_conflict. destruct listed.
  2:{ split; [by apply client_retry|]. unfold retry. destruct (_ <=? _)%nat; apply (wo_closed w Hw). }
  unfold missingRanges, listing. cbn [l_size l_offset l_parts]. rewrite (wo_size w Hw). destruct (total <=? offset (row w)) eqn:E; to_prop.
  - pose proof (client_returns _ _ k s [] (partSize (client w)) true Hc Hk Hpart) as Hgo. rewrite orb_true_r in Hgo. cbn in Hgo. split.
    + apply Hgo; [by intros r ?%not_elem_of_nil|done].
    + intros _. by apply row_total.
  - case_bool_decide; [split; [by apply client_throws|apply (wo_closed w Hw)]|]. split; [|apply (wo_closed w Hw)].
    set (gaps := gaps_from _ _ _). pose proof (client_returns _ _ k s gaps (partSize (client w)) false Hc Hk Hpart) as Hgo. rewrite orb_false_r in Hgo. apply Hgo.
    + intros r Hr%gaps_fit. pose proof (co_sending _ _ Hc s ltac:(by eapply list_elem_of_lookup_2)) as (? & ? & ?). destruct Hr as (? & ? & ?). split; [lia|]. split; [done|lia].
    + intros _ b _ Hb. destruct (gaps_cover (r_offset (range s)) (r_end (range s)) (map (fun op => mkRange op.1 (p_size op.2)) (by_offset (parts w))) b Hb) as [Hin|?]; [|by right].
      left. by apply parted_listing.
Qed.

Lemma world_perform e w : world_ok w -> world_ok (perform file folder e w).
Proof.
  intros Hw. pose proof (wo_client w Hw) as Hc. pose proof (wo_closed w Hw) as Hcl. pose proof (co_part _ _ Hc) as Hpart.
  destruct e as [|r name|k|k|k listed|k|k|k]; cbn [perform]; unfold answer; try (destruct (sending (client w) !! k) as [s|] eqn:Hk; [|done]).
  - apply world_client; [done|by apply client_next|]. unfold take_next. repeat case_match; try done; cbn; congruence.
  - by apply world_arrive.
  - destruct (has_part (range s) w) eqn:E; [|by apply world_client]. apply world_client; [done| |done].
    pose proof (client_returns _ _ k s [] (partSize (client w)) false Hc Hk Hpart) as Hgo. rewrite orb_false_r in Hgo. apply Hgo; [by intros r ?%not_elem_of_nil|].
    intros _ b _ Hb. left. by eapply has_part_covers.
  - apply world_client; [done|by apply client_busy|]. unfold on_busy. by destruct (_ <=? _)%nat.
  - destruct (world_conflict w k s listed Hw Hk). by apply world_client.
  - apply world_client; [done|by apply client_dropped|]. unfold on_dropped. by repeat case_match.
  - apply world_client; [done|by apply client_retry|]. unfold retry. by destruct (_ <=? _)%nat.
  - apply world_client; [done|by apply client_throws|done].
Qed.

Lemma world_play es w : world_ok w -> world_ok (play file folder es w).
Proof. unfold play. revert w. induction es as [|e es IH]; intros w Hw; [done|]. cbn. apply IH. by apply world_perform. Qed.

Lemma world_start r part parallel : state r = receiving_state r -> offset r = 0 -> expectedSize r = Some total -> 0 < total -> 1 <= part -> (0 < parallel)%nat ->
  world_ok (start file r part parallel).
Proof.
  intros Hs Ho He Ht Hp Hn. split; cbn.
  - apply new_row_ok; [done|]. by apply receiving_not_past.
  - done.
  - left. rewrite Ho. done.
  - by intros x ?%not_elem_of_nil.
  - by intros o p.
  - split; cbn; try done.
    + intros x Hx. apply (splitRange_fits (mkRange 0 total) part Hp) in Hx as [? _]. done.
    + by intros x ?%not_elem_of_nil.
    + intros _ _ b Hb. right. left. by apply parted_split.
    + intros _ _ _. lia.
  - done.
Qed.

(** ** All of the file *)

Lemma slice_next at_ p : 0 <= at_ -> 0 < p_size p -> slice file (mkRange at_ (p_size p)) ++ drop (Z.to_nat (at_ + p_size p)) file = drop (Z.to_nat at_) file.
Proof.
  intros Ha Hp. unfold slice. cbn. replace (Z.to_nat (at_ + p_size p)) with (Z.to_nat at_ + Z.to_nat (p_size p))%nat by lia. rewrite <- drop_drop. apply take_drop.
Qed.
Lemma slices_join fs at_ l : 0 <= at_ <= total -> ordered at_ l -> (forall op, op ∈ l -> file_of fs folder op = slice file (mkRange op.1 (p_size op.2))) ->
  (forall op, op ∈ l -> op.1 + p_size op.2 <= total) -> (forall b, at_ <= b < total -> exists op, op ∈ l /\ op.1 <= b < op.1 + p_size op.2) ->
  concat (map (file_of fs folder) l) = drop (Z.to_nat at_) file.
Proof.
  revert at_. induction l as [|[o p] l IH]; intros at_ Ha Hord Hf Hle Hcov; cbn [map concat].
  { destruct (Z.lt_ge_cases at_ total) as [Hlt|]; [destruct (Hcov at_ ltac:(lia)) as (op & ?%not_elem_of_nil & _); done|]. symmetry. apply drop_ge. unfold total in *. lia. }
  destruct Hord as (Hat & Hp & Hord). cbn in Hat, Hp, Hord. pose proof (Hle (o, p) ltac:(by left)) as Hend. cbn in Hend. assert (o = at_) as ->.
  { destruct (Hcov at_ ltac:(lia)) as (op & [->|Hop]%elem_of_cons & Hb); cbn in *; [lia|]. pose proof (ordered_le _ _ _ Hord Hop). lia. }
  rewrite (Hf (at_, p)) by (by left). cbn [fst snd]. rewrite (IH (at_ + p_size p)); [apply slice_next; [lia|done]|lia|done| | |].
  - intros op Hop. apply Hf. by right.
  - intros op Hop. apply Hle. by right.
  - intros b Hb. destruct (Hcov b ltac:(lia)) as (op & [->|Hop]%elem_of_cons & Hin); [cbn in Hin; lia|by exists op].
Qed.

Lemma whole w : world_ok w -> offset (row w) = total -> state (row w) = finalizing_state (row w) /\ stored (disk w) folder (parts w) /\ received (disk w) folder (parts w) = file.
Proof.
  intros Hw Ho. destruct (wo_row w Hw) as [Hs Hd (_ & Hcov & _) Hwi _]. rewrite (wo_size w Hw) in Hwi. cbn in Hwi. rewrite Ho in Hcov. pose proof (wo_disk w Hw) as Hdisk.
  split; [destruct (wo_state w Hw) as [[_ ?]|?]; [lia|done]|]. split.
  - intros o p Hop. destruct (Hdisk _ _ Hop) as [Hn Hb]. split; [done|]. eexists. split; [exact Hb|]. destruct (Hs _ _ Hop). pose proof (Hwi _ _ Hop).
    unfold slice. cbn. rewrite length_take, length_drop. unfold total in *. lia.
  - unfold received. transitivity (drop (Z.to_nat 0) file); [|done]. apply slices_join.
    + unfold total. lia.
    + by apply by_offset_ordered.
    + intros [o p] Hop%elem_by_offset. unfold file_of. cbn. by rewrite (proj2 (Hdisk _ _ Hop)).
    + intros [o p] Hop%elem_by_offset. by apply Hwi.
    + intros b Hb. destruct (Hcov b Hb) as (o & p & Hop & Hin). exists (o, p). split; [by apply elem_by_offset|done].
Qed.
Lemma done_whole w : world_ok w -> done_sending (client w) -> offset (row w) = total.
Proof.
  intros Hw (Hl & Hs & Hf). destruct (closed (client w)) eqn:Ec; [by apply (wo_closed w Hw)|]. apply all_covered; [done|].
  pose proof (wo_client w Hw) as Hc. assert (pending (client w) = []) as Hp.
  { destruct (pending (client w)) as [|r l] eqn:Ep; [done|]. pose proof (co_some _ _ Hc Hf Ec) as Hn. rewrite Ep, Hl, Hs in Hn. cbn in Hn. specialize (Hn ltac:(done)). lia. }
  intros b Hb. destruct (co_all _ _ Hc Hf Ec b Hb) as [?|[Hin|Hin]]; [done| |]; [rewrite Hp in Hin|rewrite Hs in Hin]; by destruct Hin as (? & ?%not_elem_of_nil & _).
Qed.
End kept.

(** ** What is missing *)

Lemma in_order_weaken a b l : a <= b -> in_order b l -> in_order a l.
Proof. destruct l; cbn; [done|]. intros ? (? & ? & ?). split; [lia|done]. Qed.
Lemma gaps_in_order at_ end_ l : (forall p, p ∈ l -> 1 <= r_size p) -> in_order at_ (gaps_from at_ end_ l).
Proof.
  revert at_. induction l as [|p l IH]; intros at_ Hl; cbn [gaps_from].
  - destruct (at_ <? end_) eqn:E; to_prop; cbn; [lia|done].
  - assert (forall q, q ∈ l -> 1 <= r_size q) as Hl' by (intros q Hq; apply Hl; by right). destruct (_ || _) eqn:E; [by apply IH|]. to_prop.
    pose proof (Hl p ltac:(by left)). specialize (IH (Z.max at_ (r_end p)) Hl'). destruct (at_ <? r_offset p) eqn:E'; to_prop; cbn [app].
    + split; [cbn; lia|]. split; [cbn; lia|]. eapply in_order_weaken; [|exact IH]. unfold r_end. cbn. lia.
    + eapply in_order_weaken; [|exact IH]. lia.
Qed.
Lemma listing_in_order m : sized m -> disjoint m -> in_order 0 (map (fun op => mkRange op.1 (p_size op.2)) (by_offset m)).
Proof.
  intros Hs Hd. pose proof (by_offset_ordered m Hs Hd) as Ho. revert Ho. generalize 0 as a. induction (by_offset m) as [|[o p] l IH]; intros a; [done|].
  intros (? & ? & Hl). cbn in *. split; [done|]. split; [lia|]. unfold r_end. cbn. by apply IH.
Qed.

(** The ranges a client sends again after a conflict are exactly the bytes of its range that the
    server's parts do not hold, as ranges in order that do not overlap. *)
Theorem missing_ranges_exact m off size r : sized m -> disjoint m -> match size with Some s => off < s | None => True end ->
  exists gaps, missingRanges (mkListing off size (map (fun op => mkRange op.1 (p_size op.2)) (by_offset m))) r = Some gaps /\
    (forall b, parted gaps b <-> inside b r /\ ~ covered m b) /\ in_order (r_offset r) gaps.
Proof.
  intros Hs Hd Hoff. unfold missingRanges. cbn [l_size l_offset l_parts]. replace (match size with Some s => s <=? off | None => false end) with false.
  2:{ symmetry. destruct size as [s|]; [by apply Z.leb_gt|done]. }
  eexists. split; [done|]. split.
  - intros b. split.
    + intros (g & Hg & Hb). split.
      * destruct (gaps_fit _ _ _ _ Hg) as (? & _ & ?). unfold inside in *. lia.
      * rewrite <- parted_listing. by eapply gaps_free; [apply listing_in_order| |].
    + intros [Hb Hn]. destruct (gaps_cover (r_offset r) (r_end r) (map (fun op => mkRange op.1 (p_size op.2)) (by_offset m)) b Hb) as [Hin|?]; [|done].
      by rewrite parted_listing in Hin.
  - apply gaps_in_order. intros p ([o q] & -> & Hin)%list_elem_of_fmap. apply elem_by_offset in Hin. destruct (Hs _ _ Hin). cbn. lia.
Qed.

(** ** The work that is left *)

Definition tries_left (s : Sending) : Z := Z.of_nat (MAX_ATTEMPTS - attempt s) + Z.of_nat (MAX_BUSY_RETRIES - busy s).
Definition pending_work (l : list Range) : Z := foldr (fun r n => 40 * (4 * r_size r - 2) + n) 0 l.
Definition sending_work (l : list Sending) : Z := foldr (fun s n => 40 * (4 * r_size (range s) - 3) + tries_left s + n) 0 l.
Definition work (c : Client) : Z := pending_work (pending c) + sending_work (sending c) + Z.of_nat (looping c).

Lemma pending_work_app a b : pending_work (a ++ b) = pending_work a + pending_work b.
Proof. induction a as [|r a IH]; cbn; [done|]. unfold pending_work in *. lia. Qed.
Lemma pending_work_total l : pending_work l = 160 * total_size l - 80 * Z.of_nat (length l).
Proof. induction l as [|r l IH]; cbn; [done|]. unfold pending_work, total_size in *. lia. Qed.
Lemma sending_work_cons s l : sending_work (s :: l) = 40 * (4 * r_size (range s) - 3) + tries_left s + sending_work l.
Proof. done. Qed.
Lemma sending_work_delete l k s : l !! k = Some s -> sending_work l = 40 * (4 * r_size (range s) - 3) + tries_left s + sending_work (delete k l).
Proof.
  revert k. induction l as [|x l IH]; intros [|k] Hk; [done|done|injection Hk as ->; cbn; unfold sending_work; lia|].
  change (delete (S k) (x :: l)) with (x :: delete k l). specialize (IH k Hk). unfold sending_work in *. cbn [foldr]. lia.
Qed.
Lemma sending_work_insert l k s s' : l !! k = Some s -> range s' = range s -> sending_work (<[k := s']> l) + tries_left s = sending_work l + tries_left s'.
Proof.
  revert k. induction l as [|x l IH]; intros [|k] Hk Hr; [done|done|injection Hk as ->; cbn; rewrite Hr; unfold sending_work; lia|].
  change (<[S k := s']> (x :: l)) with (x :: <[k := s']> l). specialize (IH k Hk Hr). unfold sending_work in *. cbn [foldr]. lia.
Qed.
Lemma work_again k s s' c : sending c !! k = Some s -> range s' = range s -> tries_left s' < tries_left s -> work (again k s' c) < work c.
Proof. intros Hk Hr Ht. pose proof (sending_work_insert _ _ _ s' Hk Hr). unfold work. cbn [again throws pending sending looping]. lia. Qed.
Lemma tries_nonneg s : 0 <= tries_left s.
Proof. unfold tries_left. lia. Qed.
Lemma work_throws k s c : sending c !! k = Some s -> 1 <= r_size (range s) -> work (throws k c) < work c.
Proof. intros Hk Hs. pose proof (sending_work_delete _ _ _ Hk). pose proof (tries_nonneg s). unfold work. cbn [again throws pending sending looping]. lia. Qed.
(** A worker that returns leaves less than it took. *)
Lemma work_returns k s c l part shut : sending c !! k = Some s -> pending_work l + 1 < 40 * (4 * r_size (range s) - 3) ->
  work (returns k (mkClient (l ++ pending c) (looping c) (sending c) part shut (failed c))) < work c.
Proof. intros Hk Hl. pose proof (sending_work_delete _ _ _ Hk). pose proof (tries_nonneg s). unfold work. cbn [returns pending sending looping]. rewrite pending_work_app. lia. Qed.

Section work.
Context (file : Bytes) (folder : string).
Let total : Z := Z.of_nat (length file).

Lemma work_retry k s c : sending c !! k = Some s -> 1 <= r_size (range s) -> work (retry k s c) < work c.
Proof.
  intros Hk Hs. unfold retry. destruct (_ <=? _)%nat eqn:E; [by eapply work_throws|]. eapply work_again; [exact Hk|done|]. apply Nat.leb_gt in E. unfold tries_left. cbn [attempt busy]. lia.
Qed.
Lemma work_next c : (forall r, r ∈ pending c -> 1 <= r_size r) -> 1 <= partSize c -> take_next c = c \/ work (take_next c) < work c.
Proof.
  intros Hp Hpart. unfold take_next. destruct (looping c) as [|n] eqn:El; [by left|right]. destruct (pending c) as [|r rest] eqn:Ep; [unfold work; cbn [pending sending looping]; rewrite Ep, El; lia|].
  pose proof (Hp r ltac:(by left)) as Hr. assert (work c = 40 * (4 * r_size r - 2) + pending_work rest + sending_work (sending c) + Z.of_nat (S n)) as Ew.
  { unfold work. rewrite Ep, El. change (pending_work (r :: rest)) with (40 * (4 * r_size r - 2) + pending_work rest). lia. }
  destruct (closed c); [rewrite Ew; unfold work; cbn [pending sending looping]; lia|]. destruct (partSize c <? r_size r) eqn:E; to_prop.
  - destruct (splitRange_shape r (partSize c) Hpart Hr) as (first & more & Es & Hmore). rewrite Es. specialize (Hmore ltac:(done)).
    pose proof (splitRange_total r (partSize c) Hpart) as Ht. rewrite Es in Ht. rewrite Ew. unfold work. cbn [pending sending looping]. rewrite pending_work_app, (pending_work_total more).
    rewrite sending_work_cons. change (total_size (first :: more)) with (r_size first + total_size more) in Ht. destruct more as [|m more]; [done|]. cbn [length range].
    unfold tries_left, MAX_ATTEMPTS, MAX_BUSY_RETRIES. cbn [attempt busy]. lia.
  - rewrite Ew. unfold work. cbn [pending sending looping app]. rewrite sending_work_cons. unfold tries_left, MAX_ATTEMPTS, MAX_BUSY_RETRIES. cbn [attempt busy range]. lia.
Qed.

Lemma work_perform e w : world_ok file folder w -> client (perform file folder e w) = client w \/ work (client (perform file folder e w)) < work (client w).
Proof.
  intros Hw. pose proof (wo_client _ _ w Hw) as Hc. pose proof (co_part _ _ _ Hc) as Hpart.
  assert (forall k s, sending (client w) !! k = Some s -> 1 <= r_size (range s)) as Hsize.
  { intros k s Hk. by destruct (co_sending _ _ _ Hc s ltac:(by eapply list_elem_of_lookup_2)) as (_ & ? & _). }
  destruct e as [|r name|k|k|k listed|k|k|k]; cbn [perform]; unfold answer; try (destruct (sending (client w) !! k) as [s|] eqn:Hk; [|by left]; pose proof (Hsize _ _ Hk) as Hs; cbn [client with_client]).
  - apply work_next; [|done]. intros r Hr. by destruct (co_pending _ _ _ Hc r Hr) as (_ & ? & _).
  - left. unfold arrive. by destruct (_ && _ && _ && _ && _).
  - destruct (has_part (range s) w); [right|by left]. change (returns k (client w)) with (returns k (mkClient ([] ++ pending (client w)) (looping (client w)) (sending (client w)) (partSize (client w)) (closed (client w)) (failed (client w)))).
    eapply work_returns; [exact Hk|cbn; lia].
  - right. unfold on_busy. destruct (_ <=? _)%nat eqn:E; [by eapply work_throws|]. eapply work_again; [exact Hk|done|]. apply Nat.leb_gt in E. unfold tries_left. cbn [attempt busy]. lia.
  - right. unfold on_conflict. destruct listed; [|by apply work_retry]. unfold missingRanges. destruct (match l_size (listing w) with Some _ => _ | None => _ end).
    + change (set_closed (client w)) with (mkClient ([] ++ pending (client w)) (looping (client w)) (sending (client w)) (partSize (client w)) true (failed (client w))).
      eapply work_returns; [exact Hk|cbn; lia].
    + case_bool_decide as Hg; [by eapply work_throws|]. set (gaps := gaps_from _ _ _) in *.
      change (set_pending (gaps ++ pending (client w)) (client w)) with (mkClient (gaps ++ pending (client w)) (looping (client w)) (sending (client w)) (partSize (client w)) (closed (client w)) (failed (client w))).
      eapply work_returns; [exact Hk|]. rewrite pending_work_total. destruct (gaps_total (r_offset (range s)) (r_end (range s)) (l_parts (listing w))) as [Hlt|Heq].
      * unfold r_end. lia.
      * intros p ([o q] & -> & Hin)%list_elem_of_fmap. apply elem_by_offset in Hin. destruct (ro_sized _ _ (wo_row _ _ w Hw) _ _ Hin). cbn. lia.
      * fold gaps in Hlt. unfold r_end in Hlt. lia.
      * destruct Hg. unfold gaps. rewrite Heq. unfold r_end. destruct (range s) as [o z]. cbn. do 2 f_equal. lia.
  - right. unfold on_dropped. destruct (_ <=? _)%nat eqn:E; [by eapply work_throws|]. destruct (_ <? _) eqn:E'.
    + to_prop. set (part := Z.max MIN_PART _). assert (1 <= part < r_size (range s)) as [Hp1 Hp2].
      { unfold part, MIN_PART, MiB in *. split; [lia|]. apply Z.max_lub_lt; [lia|]. apply Z.div_lt; lia. }
      change (set_pending (splitRange (range s) part ++ pending (client w)) (set_part part (client w))) with
        (mkClient (splitRange (range s) part ++ pending (client w)) (looping (client w)) (sending (client w)) part (closed (client w)) (failed (client w))).
      eapply work_returns; [exact Hk|]. rewrite pending_work_total, splitRange_total by done. destruct (splitRange_shape (range s) part Hp1 Hs) as (first & more & Es & Hm).
      rewrite Es. destruct more as [|m more]; [by destruct (Hm Hp2)|]. cbn [length]. lia.
    + eapply work_again; [exact Hk|done|]. apply Nat.leb_gt in E. unfold tries_left. cbn [attempt busy]. lia.
  - right. by apply work_retry.
  - right. by eapply work_throws.
Qed.

(** The turns of a run that change the client. *)
Fixpoint turns (es : list Event) (w : World) : nat :=
  match es with
  | [] => 0
  | e :: es => (if bool_decide (client (perform file folder e w) = client w) then 0 else 1) + turns es (perform file folder e w)
  end%nat.
Lemma work_nonneg w : world_ok file folder w -> 0 <= work (client w).
Proof.
  intros Hw. pose proof (wo_client _ _ w Hw) as Hc. assert (0 <= pending_work (pending (client w))) as Hp.
  { pose proof (co_pending _ _ _ Hc) as Hf. revert Hf. induction (pending (client w)) as [|r l IH]; intros Hf; [done|]. destruct (Hf r ltac:(by left)) as (_ & ? & _).
    cbn. fold (pending_work l). assert (0 <= pending_work l); [|lia]. apply IH. intros x Hx. apply Hf. by right. }
  assert (0 <= sending_work (sending (client w))) as Hs.
  { pose proof (co_sending _ _ _ Hc) as Hf. revert Hf. induction (sending (client w)) as [|s l IH]; intros Hf; [done|]. destruct (Hf s ltac:(by left)) as (_ & ? & _).
    cbn. fold (sending_work l). pose proof (tries_nonneg s). assert (0 <= sending_work l); [|lia]. apply IH. intros x Hx. apply Hf. by right. }
  unfold work. lia.
Qed.
Lemma turns_bounded es w : world_ok file folder w -> Z.of_nat (turns es w) <= work (client w).
Proof.
  revert w. induction es as [|e es IH]; intros w Hw; [by apply work_nonneg|]. cbn [turns]. pose proof (world_perform file folder e w Hw) as Hw'. specialize (IH _ Hw').
  case_bool_decide as E; [rewrite E in IH; lia|]. destruct (work_perform e w Hw) as [?|?]; [done|lia].
Qed.
End work.

(** ** The theorems *)

Lemma length_pos (file : Bytes) : file <> [] -> 0 < Z.of_nat (length file).
Proof. destruct file; [done|]. cbn. lia. Qed.

(** C14. When a client's workers have all ended and none gave up, the server holds the whole file: whatever
    order parts arrived in, answers were lost, parts came twice or were split, its row has all the bytes
    it expects and is finalizing, and the assembly of its parts is the file, under its own digest. *)
Theorem parallel_upload_whole `{Digests} file folder r part parallel es extension : let w := play file folder es (start file r part parallel) in
  state r = receiving_state r -> offset r = 0 -> expectedSize r = Some (Z.of_nat (length file)) -> file <> [] -> 1 <= part -> (0 < parallel)%nat ->
  validExtension extension = true -> done_sending (client w) ->
  offset (row w) = Z.of_nat (length file) /\ state (row w) = finalizing_state (row w) /\
  assembleAssetUploadParts (disk w) folder (by_offset (parts w)) (offset (row w)) (sha256 file) extension = Assembles file.
Proof.
  intros w Hs Ho He Hne Hp Hn Hext Hdone. assert (world_ok file folder w) as Hw.
  { apply world_play, world_start; try done. by apply length_pos. }
  pose proof (done_whole file folder w Hw Hdone) as Hoff. destruct (whole file folder w Hw Hoff) as (Hst & Hstored & Hfile). split; [done|]. split; [done|].
  assert (past_receiving (state (row w)) = true) as Hpast by (rewrite Hst; apply finalizing_past).
  destruct (assemble_received (disk w) folder (row w) (parts w) (wo_row _ _ w Hw) Hpast Hstored) as [Ha Hlen]. rewrite Hfile in Ha, Hlen.
  unfold assembleAssetUploadParts. by rewrite Hext, Ha, Hlen, Z.eqb_refl, String.eqb_refl.
Qed.

(** C15. Sending ends: however requests are answered, dropped and repeated, a client takes no more turns
    than 160 for each byte of the file and one for each worker. *)
Theorem sending_terminates file folder r part parallel es :
  state r = receiving_state r -> offset r = 0 -> expectedSize r = Some (Z.of_nat (length file)) -> file <> [] -> 1 <= part -> (0 < parallel)%nat ->
  Z.of_nat (turns file folder es (start file r part parallel)) <= 160 * Z.of_nat (length file) + Z.of_nat parallel.
Proof.
  intros Hs Ho He Hne Hp Hn. assert (world_ok file folder (start file r part parallel)) as Hw by (apply world_start; try done; by apply length_pos).
  pose proof (turns_bounded file folder es _ Hw) as Hb. assert (work (client (start file r part parallel)) <= 160 * Z.of_nat (length file) + Z.of_nat parallel); [|lia].
  unfold work. cbn [client pending sending looping new_client start]. rewrite pending_work_total, (splitRange_total _ _ Hp). change (sending_work []) with 0. cbn [r_size]. lia.
Qed.

(** A file of five bytes in parts of two, by two workers; the middle part is taken but its answer is lost,
    and it is sent again. *)
Module sample.
#[local] Instance digests : Digests := {| sha256 := String.string_of_list_byte; sha1 := String.string_of_list_byte |}.
Definition file : Bytes := [Byte.x01; Byte.x02; Byte.x03; Byte.x04; Byte.x05].
Definition name (c : ascii) : string := String c "00000000-0000-4000-8000-00000000000.part".
Definition empty_row : Resource := mkResource (Some "u"%string) (mkDeclared single "" "a.mp4" 100 100) (Some 5) 0 receiving None None false None 0.
Abbreviation begin := (start file empty_row 2 2).
Definition events : list Event :=
  [Next; Next; Arrive (mkRange 2 2) (name "0"); Retried 0; Arrive (mkRange 0 2) (name "1"); Accepted 1; Next; Arrive (mkRange 4 1) (name "2"); Accepted 0; Conflict 0 true; Next; Next].
Lemma events_end : done_sending (client (play file "r" events begin)).
Proof. by vm_compute. Qed.
Lemma parallel_upload_whole_witness : let w := play file "r" events begin in
  offset (row w) = Z.of_nat (length file) /\ state (row w) = finalizing_state (row w) /\
  assembleAssetUploadParts (disk w) "r" (by_offset (parts w)) (offset (row w)) (sha256 file) ".mp4" = Assembles file.
Proof.
  refine (parallel_upload_whole file "r" empty_row 2 2 events ".mp4" eq_refl eq_refl eq_refl _ _ _ eq_refl events_end); [done|lia|lia].
Defined.
Lemma sending_terminates_witness : Z.of_nat (turns file "r" events begin) <= 802.
Proof. refine (sending_terminates file "r" empty_row 2 2 events eq_refl eq_refl eq_refl _ _ _); [done|lia|lia]. Defined.

Definition one_part : Manifest := {[ 2 := mkPart "a" 2 ]}.
Lemma one_lookup o p : one_part !! o = Some p -> o = 2 /\ p = mkPart "a" 2.
Proof. unfold one_part. by intros [<- <-]%lookup_singleton_Some. Qed.
Lemma one_sized : sized one_part.
Proof. intros o p [-> ->]%one_lookup. cbn. lia. Qed.
Lemma one_disjoint : disjoint one_part.
Proof. intros o1 o2 p1 p2 [-> ->]%one_lookup [-> ->]%one_lookup. lia. Qed.
Lemma missing_ranges_exact_witness : exists gaps,
  missingRanges (mkListing 0 (Some 9) (map (fun op => mkRange op.1 (p_size op.2)) (by_offset one_part))) (mkRange 1 5) = Some gaps /\
  in_order 1 gaps /\ parted gaps 1 /\ ~ parted gaps 2.
Proof.
  destruct (missing_ranges_exact one_part 0 (Some 9) (mkRange 1 5) one_sized one_disjoint eq_refl) as (gaps & Hg & Hb & Ho). exists gaps.
  split; [exact Hg|]. split; [exact Ho|]. split.
  - apply Hb. split; [unfold inside, r_end; cbn; lia|]. intros (o & p & [-> ->]%one_lookup & Hin). cbn in Hin. lia.
  - intros Hp. apply Hb in Hp as [_ Hn]. apply Hn. exists 2, (mkPart "a" 2). split; [unfold one_part; apply lookup_singleton_eq|cbn; lia].
Defined.
End sample.
