(* ===== verification/EnrichmentPlan.v ===== *)
(** * Enrichment plans: the rules ([server/src/utils/enrichment-plan.ts])

    The stages a plan runs, its immutable request and its accumulated result as they are stored, folding
    an asset's outcome in, what a retry of an asset, the automatic retry pass and a manual retry cover,
    the state of every asset as the workbench shows it, when a generated result is out of date, and where
    the frames of a video are cut and which of them stands for it.  Of the provenance only the
    comparison is here: the digests themselves are SHA-256. *)

From Stdlib Require Import QArith Qminmax.
From S2P Require Import Prelude JsNumber JsString Enums.
From S2P Require DuplicateReview.
Import Stage Item.
Local Open Scope Z_scope.

Abbreviation MediaOperationStatus := Status.MediaOperationStatus.

Definition ENRICHMENT_PLAN_MAX_ASSETS : Z := 1000.
Definition VIDEO_MOMENT_FRAME_COUNT : Z := 6.

(** ** Stages *)

Definition ENRICHMENT_STAGE_ORDER : list EnrichmentStage :=
  [Frames; LockedCheck; Description; MomentIndex; MomentCaptions].

Definition ENRICHMENT_STAGE_REQUIRES (stage : EnrichmentStage) : list EnrichmentStage :=
  match stage with
  | Frames | LockedCheck | Description => []
  | MomentIndex | MomentCaptions => [Frames]
  end.

Definition VIDEO_ONLY_STAGES : list EnrichmentStage := [Frames; MomentIndex; MomentCaptions].
Definition IMAGE_ONLY_STAGES : list EnrichmentStage := [LockedCheck].
Definition DEFAULT_ENRICHMENT_STAGES : list EnrichmentStage := [LockedCheck; Description].

Record ResolvedEnrichmentStages := mkResolved { resolved_stages : list EnrichmentStage; added : list EnrichmentStage }.

Definition resolveEnrichmentStages (requested : list EnrichmentStage) : ResolvedEnrichmentStages :=
  let chosen := uniq (List.filter (fun stage => includes stage ENRICHMENT_STAGE_ORDER) requested) in
  let all := uniq (chosen ++ flat_map ENRICHMENT_STAGE_REQUIRES chosen) in
  let stages := List.filter (fun stage => includes stage all) ENRICHMENT_STAGE_ORDER in
  mkResolved stages (List.filter (fun stage => negb (includes stage chosen)) stages).

Definition stageAppliesTo (stage : EnrichmentStage) (isVideo : bool) : bool :=
  if isVideo then negb (includes stage IMAGE_ONLY_STAGES) else negb (includes stage VIDEO_ONLY_STAGES).

(** ** The plan's record *)

Record Destinations := mkDestinations { enrichment : option string; search : option string }.

(** The pinned configuration is the stored object itself: the code casts it and reads its fields. *)
Record EnrichmentPlanSnapshot := mkSnapshot {
  assetIds : list string;
  requestedStages : list EnrichmentStage;
  stages : list EnrichmentStage;
  destinations : Destinations;
  config : list (string * json);
  configHash : string;
  requestKey : option string;
  elevated : bool
}.

(** A missing [reasonKey] or [message] is read like [null], and so is [None]. *)
Record EnrichmentStageOutcome := mkOutcome {
  state : EnrichmentItemState;
  reasonKey : option string;
  message : option string;
  at_ : option string
}.
#[export] Instance EnrichmentStageOutcome_eq_dec : EqDecision EnrichmentStageOutcome.
Proof. solve_decision. Defined.

Abbreviation StageOutcomes := (gmap EnrichmentStage EnrichmentStageOutcome).

Record EnrichmentPlanItem := mkItem { itemId : string; itemStages : StageOutcomes }.
#[export] Instance EnrichmentPlanItem_eq_dec : EqDecision EnrichmentPlanItem.
Proof. solve_decision. Defined.

Record RetryPass := mkRetry { ids : list string; retryProcessed : jsnum }.
#[export] Instance RetryPass_eq_dec : EqDecision RetryPass.
Proof. solve_decision. Defined.

Record EnrichmentPlanResult := mkResult {
  items : list EnrichmentPlanItem;
  inFlight : option string;
  retry : option RetryPass
}.
#[export] Instance EnrichmentPlanResult_eq_dec : EqDecision EnrichmentPlanResult.
Proof. solve_decision. Defined.

Definition emptyEnrichmentPlanResult : EnrichmentPlanResult := mkResult [] None None.

Definition set_inFlight (f : option string) (r : EnrichmentPlanResult) : EnrichmentPlanResult :=
  mkResult (items r) f (retry r).
Definition set_retry (p : option RetryPass) (r : EnrichmentPlanResult) : EnrichmentPlanResult :=
  mkResult (items r) (inFlight r) p.

(** *** Reading *)

Definition asStages (value : option json) : list EnrichmentStage :=
  match value with
  | Some (JArr l) => omap (fun v => as_string (Some v) ≫= Stage.of_value) l
  | _ => []
  end.

Definition asIdList : option json -> list string := DuplicateReview.strings.

Inductive PlanError := SnapshotVersion | SnapshotEmpty | SnapshotUnpinned.

Definition parseEnrichmentPlanSnapshot (value : option json) : res PlanError EnrichmentPlanSnapshot :=
  match is_record value with
  | None => Throw SnapshotVersion
  | Some fs =>
      if negb (bool_decide (as_num (obj_get fs "version") = Some (JInt 1))) then Throw SnapshotVersion
      else
        let assetIds := asIdList (obj_get fs "assetIds") in
        let stages := asStages (obj_get fs "stages") in
        if (length assetIds =? 0)%nat || (length stages =? 0)%nat then Throw SnapshotEmpty
        else
          let destinations := default [] (is_record (obj_get fs "destinations")) in
          match is_record (obj_get fs "config") with
          | None => Throw SnapshotUnpinned
          | Some config =>
              match is_record (obj_get config "description"), is_record (obj_get config "lockedCheck"),
                    is_record (obj_get config "search") with
              | Some _, Some _, Some _ =>
                  Ok (mkSnapshot assetIds (asStages (obj_get fs "requestedStages"))
                        (List.filter (fun stage => includes stage stages) ENRICHMENT_STAGE_ORDER)
                        (mkDestinations (as_string (obj_get destinations "enrichment"))
                           (as_string (obj_get destinations "search")))
                        config (default ""%string (as_string (obj_get fs "configHash")))
                        (as_string (obj_get fs "requestKey")) (is_true_lit (obj_get fs "elevated")))
              | _, _, _ => Throw SnapshotUnpinned
              end
          end
  end.

Definition parseOutcome (value : option json) : option EnrichmentStageOutcome :=
  fs ← is_record value;
  st ← as_string (obj_get fs "state") ≫= Item.of_value;
  Some (mkOutcome st (as_string (obj_get fs "reasonKey")) (as_string (obj_get fs "message")) (as_string (obj_get fs "at"))).

Definition parse_stages (fs : list (string * json)) : StageOutcomes :=
  foldl (fun stages '(stage, outcome) =>
    match Stage.of_value stage, parseOutcome (Some outcome) with
    | Some stage, Some parsed => <[stage := parsed]> stages
    | _, _ => stages
    end) ∅ fs.

Definition parse_item (raw : json) : option EnrichmentPlanItem :=
  fs ← is_record (Some raw);
  id ← as_string (obj_get fs "id");
  Some (mkItem id match is_record (obj_get fs "stages") with Some outcomes => parse_stages outcomes | None => ∅ end).

(** [Math.max(0, Math.trunc(Number(value) || 0))]. *)
Definition whole_number (value : option json) : jsnum :=
  match number_from value with
  | JInt z => JInt (Z.max 0 z)
  | JDec q => JInt (Z.max 0 (num_index (JDec q)))
  | JNaN => JInt 0
  | JInf true => JInt 0
  | JInf false => JInf false
  end.

Definition parse_retry (value : option json) : option RetryPass :=
  fs ← is_record value;
  Some (mkRetry (asIdList (obj_get fs "ids")) (whole_number (obj_get fs "processed"))).

Definition parseEnrichmentPlanResult (value : option json) : EnrichmentPlanResult :=
  match is_record value with
  | None => emptyEnrichmentPlanResult
  | Some fs =>
      mkResult (omap parse_item (default [] (as_arr (obj_get fs "items")))) (as_string (obj_get fs "inFlight"))
        (parse_retry (obj_get fs "retry"))
  end.

(** *** Folding outcomes in *)

Definition find_item (id : string) (l : list EnrichmentPlanItem) : option EnrichmentPlanItem :=
  List.find (fun item => String.eqb (itemId item) id) l.

Fixpoint replace_first (item : EnrichmentPlanItem) (l : list EnrichmentPlanItem) : list EnrichmentPlanItem :=
  match l with
  | [] => []
  | x :: l' => if String.eqb (itemId x) (itemId item)
               then mkItem (itemId item) (itemStages item ∪ itemStages x) :: l'
               else x :: replace_first item l'
  end.

Definition mergeEnrichmentItem (result : EnrichmentPlanResult) (item : EnrichmentPlanItem) : EnrichmentPlanResult :=
  mkResult (match find_item (itemId item) (items result) with
            | None => items result ++ [item]
            | Some _ => replace_first item (items result)
            end) (inFlight result) (retry result).

Definition stage_states (outcomes : StageOutcomes) : list EnrichmentItemState :=
  map (fun so => state so.2) (map_to_list outcomes).

Definition enrichmentItemOutcome (item : EnrichmentPlanItem) : EnrichmentItemState :=
  let states := stage_states (itemStages item) in
  if includes Item.Failed states then Item.Failed
  else if (0 <? length states)%nat && forallb (fun s => bool_decide (s = Item.Skipped)) states then Item.Skipped
  else Item.Completed.

(** A recorded outcome that a retry leaves alone. *)
Definition retryable (outcome : EnrichmentStageOutcome) : bool :=
  bool_decide (state outcome = Item.Failed) ||
  (bool_decide (state outcome = Item.Skipped) && bool_decide (reasonKey outcome = Some "dependency-failed"%string)).

Definition stagesToRetry (item : option EnrichmentPlanItem) (stages : list EnrichmentStage) : list EnrichmentStage :=
  match item with
  | None => stages
  | Some item => List.filter (fun stage => match itemStages item !! stage with
                                           | None => true
                                           | Some outcome => retryable outcome
                                           end) stages
  end.

(** *** Retries *)

Definition failed_ids (result : EnrichmentPlanResult) : list string :=
  map itemId (List.filter (fun item => bool_decide (enrichmentItemOutcome item = Item.Failed)) (items result)).

Definition planEnrichmentRetryPass (assetIds : list string) (result : EnrichmentPlanResult)
  : option EnrichmentPlanResult :=
  match retry result with
  | Some _ => None
  | None =>
      if (length (uniq (failed_ids result)) =? 0)%nat then None
      else Some (set_retry (Some (mkRetry (List.filter (fun id => includes id (failed_ids result)) assetIds) (JInt 0))) result)
  end.

(** [ids.slice(processed)]. *)
Definition slice_past {A} (position : jsnum) (l : list A) : list A :=
  match position with
  | JInf false => []
  | _ => drop (Z.to_nat (num_index position)) l
  end.

Definition enrichmentRetryPending (result : EnrichmentPlanResult) : list string :=
  match retry result with Some pass => slice_past (retryProcessed pass) (ids pass) | None => [] end.

Definition enrichmentResumeIds (assetIds : list string) (result : EnrichmentPlanResult) (processed : Z) : list string :=
  let cursor := Z.max 0 (Z.min processed (Z.of_nat (length assetIds))) in
  let unreached := drop (Z.to_nat cursor) assetIds ++ enrichmentRetryPending result in
  List.filter (fun id => includes id (failed_ids result) || includes id unreached) assetIds.

Definition enrichmentRetryRecord (snapshot : EnrichmentPlanSnapshot) (result : EnrichmentPlanResult)
    (remaining : list string) : EnrichmentPlanSnapshot * EnrichmentPlanResult :=
  (mkSnapshot remaining (requestedStages snapshot) (stages snapshot) (destinations snapshot) (config snapshot)
     (configHash snapshot) None (elevated snapshot),
   mkResult (List.filter (fun item => includes (itemId item) remaining) (items result)) None None).

(** *** What the workbench shows *)

Definition RUNNING_STATUSES : list MediaOperationStatus :=
  [Status.Preparing; Status.Rendering; Status.Validating; Status.Cancelling].
Definition STOPPED_STATUSES : list MediaOperationStatus := [Status.Cancelled; Status.Failed].

Record EnrichmentItemView := mkView {
  viewId : string;
  viewState : EnrichmentItemState;
  viewStages : StageOutcomes;
  retryPending : bool
}.

(** [new Map(items.map((item) => [item.id, item])).get(id)]: the last one. *)
Definition recorded_item (id : string) (l : list EnrichmentPlanItem) : option EnrichmentPlanItem := find_item id (rev l).

(** [index < cursor] for a cursor read from the row; no cursor is the whole plan. *)
Definition before_cursor (assetIds : list string) (processedUnits : option json) (index : nat) : bool :=
  match processedUnits with
  | None | Some JNull => (index <? length assetIds)%nat
  | Some v => match to_number v with
              | JInf negative => negb negative
              | JNaN => false
              | n => negb (Qle_bool (num_q n) (inject_Z (Z.of_nat index)))
              end
  end.

Definition item_view (assetIds : list string) (result : EnrichmentPlanResult) (status : MediaOperationStatus)
    (processedUnits : option json) (index : nat) (id : string) : EnrichmentItemView :=
  let item := recorded_item id (items result) in
  let pending := includes id (enrichmentRetryPending result) in
  let running := includes status RUNNING_STATUSES in
  let stopped := includes status STOPPED_STATUSES in
  let stages := match item with Some i => itemStages i | None => ∅ end in
  if running && bool_decide (inFlight result = Some id) then mkView id Item.Running stages pending
  else if pending then mkView id (if stopped then Item.Failed else Item.Queued) stages (negb stopped)
  else match item with
       | Some i => if before_cursor assetIds processedUnits index then mkView id (enrichmentItemOutcome i) stages false
                   else mkView id (if stopped then Item.Cancelled else Item.Queued) stages false
       | None => mkView id (if stopped then Item.Cancelled else Item.Queued) stages false
       end.

Definition enrichmentItemStates (assetIds : list string) (result : EnrichmentPlanResult) (status : MediaOperationStatus)
    (processedUnits : option json) : list EnrichmentItemView :=
  imap (item_view assetIds result status processedUnits) assetIds.

Record EnrichmentPlanCounts := mkCounts {
  total : nat; queued : nat; running : nat; skipped : nat; failed : nat; completed : nat; cancelled : nat
}.

(** [counts[item.state]++]. *)
Definition count_item (c : EnrichmentPlanCounts) (s : EnrichmentItemState) : EnrichmentPlanCounts :=
  let 'mkCounts t q r s_ f d x := c in
  match s with
  | Item.Queued => mkCounts t (S q) r s_ f d x
  | Item.Running => mkCounts t q (S r) s_ f d x
  | Item.Skipped => mkCounts t q r (S s_) f d x
  | Item.Failed => mkCounts t q r s_ (S f) d x
  | Item.Completed => mkCounts t q r s_ f (S d) x
  | Item.Cancelled => mkCounts t q r s_ f d (S x)
  end.
Definition countEnrichmentItems (l : list EnrichmentItemState) : EnrichmentPlanCounts :=
  foldl count_item (mkCounts (length l) 0 0 0 0 0 0) l.

Definition enrichmentPlanProgress (processed total : Z) : Q :=
  if total <=? 0 then 100%Q
  else Qmax 0 (Qmin (inject_Z 100)
         (fl (math_round (fl (fl (inject_Z processed / inject_Z total) * inject_Z 1000)) # 10))).

Definition enrichmentPlanLabel (count : Z) : string :=
  ("Enrichment (" +:+ string_of_int count +:+ " " +:+ (if (count =? 1)%Z then "item" else "items") +:+ ")")%string.

(** ** Provenance *)

Record EnrichmentProvenance := mkProvenance {
  sourceFingerprint : option string;
  identityHash : option string;
  provenanceConfigHash : option string
}.

(** Recorded on both sides (neither missing nor empty), and different. *)
Definition changed (pinned current : option string) : bool :=
  str_truthy pinned && str_truthy current && negb (bool_decide (pinned = current)).

Definition enrichmentStaleReason (pinned : option EnrichmentProvenance) (current : EnrichmentProvenance)
  : option Stale.EnrichmentStaleReason :=
  match pinned with
  | None => None
  | Some p =>
      if changed (sourceFingerprint p) (sourceFingerprint current) then Some Stale.SourceChanged
      else if changed (identityHash p) (identityHash current) then Some Stale.IdentityChanged
      else if changed (provenanceConfigHash p) (provenanceConfigHash current) then Some Stale.ConfigChanged
      else None
  end.

(** ** Frames *)

Definition FRAME_START_PADDING_MS : Q := 100.
Definition FRAME_END_PADDING_MS : Q := 500.
Definition FRAME_END_PADDING_FRACTION : Q := fl (2 # 100).

Definition videoMomentFrameTimestamps (durationMs : jsnum) (count : Z) : list Z :=
  match num_value durationMs with
  | None => []
  | Some d =>
      if Qle_bool d FRAME_START_PADDING_MS || (count <? 1) then []
      else
        let latest := fl (d - Qmax FRAME_END_PADDING_MS (fl (d * FRAME_END_PADDING_FRACTION))) in
        if Qle_bool latest FRAME_START_PADDING_MS then [math_round (fl (d / 2))]
        else
          let time index :=
            math_round (Qmin (Qmax (fl (fl (d * inject_Z (index + 1)) / inject_Z (count + 1))) FRAME_START_PADDING_MS)
                             latest) in
          List.filter (fun t => 0 <? t) (uniq (map (fun i => time (Z.of_nat i)) (seq 0 (Z.to_nat count))))
  end.

Record RankedFrame := mkFrame { frameIndex : Z; score : Q }.

Definition better_frame (a b : RankedFrame) : Z :=
  or_cmp (match Qcompare (score b) (score a) with Lt => -1 | Eq => 0 | Gt => 1 end) (frameIndex a - frameIndex b).

(** [frameIndex -> rank], from 1; a repeated index keeps its last rank. *)
Definition rankVideoFrames (frames : list RankedFrame) : list (Z * Z) :=
  foldl (fun ranks '(index, frame) => assoc_set (frameIndex frame) (Z.of_nat index + 1) ranks) []
    (imap (fun i f => (i, f)) (sort_by better_frame frames)).

Record CoverFrame := mkCover { timestampMs : Z; rank : Z }.

Definition nearer_frame (cover : Z) (a b : CoverFrame) : Z :=
  or_cmp (Z.abs (timestampMs a - cover) - Z.abs (timestampMs b - cover)) (rank a - rank b).

Definition coverFrameFor (frames : list CoverFrame) (coverTimestampMs : option Z) : option CoverFrame :=
  match frames with
  | [] => None
  | _ => match coverTimestampMs with
         | None => head (sort_by (fun a b => rank a - rank b) frames)
         | Some cover => head (sort_by (nearer_frame cover) frames)
         end
  end.

(** ** What is stored *)

Definition nullable (x : option string) : json := match x with Some s => JStr s | None => JNull end.

Definition outcome_json (o : EnrichmentStageOutcome) : json :=
  JObj ([("state", JStr (Item.value (state o))); ("reasonKey", nullable (reasonKey o));
         ("message", nullable (message o))]%string ++
        match at_ o with Some t => [("at"%string, JStr t)] | None => [] end).
Definition stages_json (m : StageOutcomes) : list (string * json) :=
  map (fun so => (Stage.value so.1, outcome_json so.2)) (map_to_list m).
Definition item_json (i : EnrichmentPlanItem) : json :=
  JObj [("id", JStr (itemId i)); ("stages", JObj (stages_json (itemStages i)))]%string.
Definition retry_json (p : option RetryPass) : json :=
  match p with
  | Some p => JObj [("ids", JArr (map JStr (ids p))); ("processed", JNum (retryProcessed p))]%string
  | None => JNull
  end.
Definition result_json (r : EnrichmentPlanResult) : json :=
  JObj [("version", JNum (JInt 1)); ("items", JArr (map item_json (items r))); ("inFlight", nullable (inFlight r));
        ("retry", retry_json (retry r))]%string.

Definition snapshot_json (s : EnrichmentPlanSnapshot) : json :=
  JObj [("version", JNum (JInt 1)); ("assetIds", JArr (map JStr (assetIds s)));
        ("requestedStages", JArr (map (fun x => JStr (Stage.value x)) (requestedStages s)));
        ("stages", JArr (map (fun x => JStr (Stage.value x)) (stages s)));
        ("destinations", JObj [("enrichment", nullable (enrichment (destinations s)));
                               ("search", nullable (search (destinations s)))]);
        ("config", JObj (config s)); ("configHash", JStr (configHash s)); ("requestKey", nullable (requestKey s));
        ("elevated", JBool (elevated s))]%string.

(** ** Lemmas *)

(** *** The stored result is read back *)

Lemma as_string_nullable x : as_string (Some (nullable x)) = x.
Proof. by destruct x. Qed.

Lemma parse_outcome_json o : parseOutcome (Some (outcome_json o)) = Some o.
Proof.
  destruct o as [st rk m t]. unfold parseOutcome, outcome_json. cbn [is_record state reasonKey message at_].
  destruct st, rk, m, t; reflexivity.
Qed.

Lemma parse_stages_json (m : StageOutcomes) : parse_stages (stages_json m) = m.
Proof.
  assert (H : forall (l : list (EnrichmentStage * EnrichmentStageOutcome)) (acc : StageOutcomes), NoDup l.*1 ->
    foldl (fun stages '(stage, outcome) =>
      match Stage.of_value stage, parseOutcome (Some outcome) with
      | Some stage, Some parsed => <[stage := parsed]> stages
      | _, _ => stages
      end) acc (map (fun so => (Stage.value so.1, outcome_json so.2)) l) = list_to_map l ∪ acc).
  { induction l as [|[k v] l IH]; intros acc Hn; cbn [map foldl fst snd].
    - cbn. by rewrite (left_id_L ∅ (∪)).
    - apply NoDup_cons in Hn as [Hk Hn].
      rewrite Stage.Stage_of_value_value, parse_outcome_json, IH by done. cbn [list_to_map foldr].
      rewrite <- insert_union_l, insert_union_r; [done|]. by apply not_elem_of_list_to_map_1. }
  unfold parse_stages, stages_json. rewrite H by apply NoDup_fst_map_to_list.
  by rewrite list_to_map_to_list, (right_id_L ∅ (∪)).
Qed.

Lemma parse_plan_item i : parse_item (item_json i) = Some i.
Proof.
  destruct i as [id m]. unfold parse_item, item_json. cbn [is_record mbind option_bind itemId itemStages].
  cbn [obj_get String.eqb Ascii.eqb Bool.eqb as_string is_record mbind option_bind]. by rewrite parse_stages_json.
Qed.

Lemma ids_read_back l : (forall x, x ∈ l -> x <> ""%string) -> asIdList (Some (JArr (map JStr l))) = l.
Proof.
  intros Hl. unfold asIdList, DuplicateReview.strings. induction l as [|x l IH]; [done|].
  cbn [map]. rewrite omap_cons. destruct (String.eqb_spec x "") as [->|].
  { destruct (Hl ""%string); [apply elem_of_cons; by left|done]. }
  rewrite IH; [done|]. intros y Hy. apply Hl, elem_of_cons. by right.
Qed.

(** A result whose retry pass is over named assets, with a count for a cursor. *)
Definition storable (r : EnrichmentPlanResult) : Prop :=
  forall p, retry r = Some p -> (forall x, x ∈ ids p -> x <> ""%string) /\ exists q, retryProcessed p = JInt (Z.of_nat q).

Lemma parse_plan_retry (p : option RetryPass) :
  (forall x, p = Some x -> (forall y, y ∈ ids x -> y <> ""%string) /\ exists q, retryProcessed x = JInt (Z.of_nat q)) ->
  parse_retry (Some (retry_json p)) = p.
Proof.
  destruct p as [[l pr]|]; [|done]. intros H. destruct (H _ eq_refl) as [Hl [q Hq]]. cbn in Hl, Hq. subst pr.
  unfold parse_retry, retry_json. cbn [is_record mbind option_bind obj_get String.eqb Ascii.eqb Bool.eqb ids retryProcessed].
  rewrite ids_read_back by done. unfold whole_number, number_from, to_number. do 3 f_equal. lia.
Qed.

Lemma parse_plan_result r : storable r -> parseEnrichmentPlanResult (Some (result_json r)) = r.
Proof.
  intros Hs. unfold parseEnrichmentPlanResult, result_json. cbn [is_record].
  cbn [obj_get String.eqb Ascii.eqb Bool.eqb as_arr default]. rewrite as_string_nullable, parse_plan_retry by exact Hs.
  destruct r as [l f p]. cbn [items inFlight retry]. f_equal.
  clear Hs. cbn [from_option]. induction l as [|i l IH]; [done|]. cbn [map id]. rewrite omap_cons, parse_plan_item. by f_equal.
Qed.
