(* ===== verification/EnrichmentRun.v ===== *)
(** * Enrichment plans: the worker ([server/src/services/enrichment-plan.service.ts])

    One turn of the worker's loop: claim a plan, run it from what its row says (the first pass over the
    frozen set, the planning of the automatic retry, the retry pass, completion), answer for every stage
    of an asset in hand, and heed a cancel, a pause or a lost claim after every write.  The methods are
    programs ([io]) whose effects are the statements of [OperationStore] and the questions the worker
    asks of other services, any of which may throw; a statement of the database does not.  Logging is
    left out. *)

From Stdlib Require Import QArith_base.
From S2P Require Import Prelude JsNumber JsString Enums OperationStore EnrichmentPlan.
From S2P Require MediaOperation.
Local Open Scope Z_scope.

Definition ENRICHMENT_PLAN_LEASE_MS : Z := 10 * 60000.

(** ** Programs *)

(** What [detectLockedContent] and [describeAsset] answer, and what the moment stages do. *)
Record EnrichmentStageResult := mkStageResult {
  result_status : Job.JobStatus;
  result_reasonKey : option string;
  result_message : option string
}.
Record MomentStageOutcome := mkMoment {
  moment_state : Item.EnrichmentItemState;
  moment_reasonKey : option string;
  moment_message : option string
}.

(** What a plan pins for the requests of its stages. *)
Record EnrichmentRunOptions := mkOptions {
  enrichmentDestinationId : option string;
  searchDestinationId : option string;
  imageDescription : option json;
  nsfwDetection : option json;
  clipModelName : option json;
  option_configHash : string;
  option_jobId : string;
  planRun : bool
}.

(** The questions, with the type of their answers. *)
Inductive AskE : Type -> Type :=
| IsPaused : AskE bool
| UserExists (ownerId : string) : AskE bool
| AssetIsVideo (assetId : string) : AskE (option bool)
| MayUpdate (ownerId assetId : string) : AskE bool
| DetectLocked (assetId : string) (options : EnrichmentRunOptions) : AskE EnrichmentStageResult
| Describe (assetId : string) (options : EnrichmentRunOptions) : AskE EnrichmentStageResult
| RunFrames (assetId : string) : AskE MomentStageOutcome
| RunIndex (assetId : string) (destinationId : option string) (modelName : option json) (jobId : string)
    : AskE MomentStageOutcome
| CurrentDescription : AskE (list (string * json))
| RunCaptions (assetId : string) (destinationId : option string) (imageDescription : list (string * json))
    (configHash jobId : string) : AskE MomentStageOutcome.

Inductive io (A : Type) : Type :=
| Done (a : A)
| Raise (error : string)
| Db {B : Type} (o : OpE B) (k : B -> io A)
| Ask {B : Type} (q : AskE B) (k : B + string -> io A)
| Stopping (k : bool -> io A)
| Now (k : string -> io A).
Arguments Done {A} a.
Arguments Raise {A} error.
Arguments Db {A B} o k.
Arguments Ask {A B} q k.
Arguments Stopping {A} k.
Arguments Now {A} k.

(** [await m], where [f] continues on a value or an exception. *)
Fixpoint attempt_ {A B} (m : io A) (f : A + string -> io B) : io B :=
  match m with
  | Done a => f (inl a)
  | Raise e => f (inr e)
  | Db o k => Db o (fun x => attempt_ (k x) f)
  | Ask q k => Ask q (fun x => attempt_ (k x) f)
  | Stopping k => Stopping (fun b => attempt_ (k b) f)
  | Now k => Now (fun t => attempt_ (k t) f)
  end.
Definition bind {A B} (m : io A) (f : A -> io B) : io B :=
  attempt_ m (fun x => match x with inl a => f a | inr e => Raise e end).
#[export] Instance io_ret : MRet io := @Done.
#[export] Instance io_bind : MBind io := fun A B f m => bind m f.

Definition db {A} (o : OpE A) : io A := Db o Done.
Definition ask {A} (q : AskE A) : io A :=
  Ask q (fun x => match x with inl a => Done a | inr e => Raise e end).

(** ** The stages of an asset *)

Definition toState (status : Job.JobStatus) : Item.EnrichmentItemState :=
  match status with
  | Job.Success => Item.Completed
  | Job.Failed => Item.Failed
  | _ => Item.Skipped
  end.

Definition fromResult (result : EnrichmentStageResult) : MomentStageOutcome :=
  mkMoment (toState (result_status result)) (result_reasonKey result) (result_message result).

(** One claimed run. *)
Record PlanRun := mkRun {
  run_id : string;
  run_token : string;
  run_ownerId : string;
  run_snapshot : EnrichmentPlanSnapshot
}.

Definition run_options (job : PlanRun) : EnrichmentRunOptions :=
  let s := run_snapshot job in
  mkOptions (enrichment (destinations s)) (search (destinations s)) (obj_get (config s) "description")
    (obj_get (config s) "lockedCheck") (obj_get (config s) "search" ≫= fun v => json_get v "modelName")
    (configHash s) (run_id job) true.

(** [{ ...a, ...b }]. *)
Definition spread (a b : list (string * json)) : list (string * json) :=
  foldl (fun fs kv => obj_set fs kv.1 kv.2) a b.

Definition runStage (job : PlanRun) (stage : Stage.EnrichmentStage) (assetId : string) : io MomentStageOutcome :=
  let options := run_options job in
  match stage with
  | Stage.Frames => ask (RunFrames assetId)
  | Stage.LockedCheck => x ← ask (DetectLocked assetId options); Done (fromResult x)
  | Stage.Description => x ← ask (Describe assetId options); Done (fromResult x)
  | Stage.MomentIndex =>
      ask (RunIndex assetId (searchDestinationId options) (clipModelName options) (run_id job))
  | Stage.MomentCaptions =>
      current ← ask CurrentDescription;
      ask (RunCaptions assetId (enrichmentDestinationId options)
             (spread current (default [] (is_record (imageDescription options)))) (option_configHash options) (run_id job))
  end.

Definition heartbeat (job : PlanRun) : io bool :=
  db (Heartbeat (run_id job) (run_token job) ENRICHMENT_PLAN_LEASE_MS false).

Fixpoint skip_all (reasonKey : string) (stages : list Stage.EnrichmentStage) (done_ : StageOutcomes) : io StageOutcomes :=
  match stages with
  | [] => Done done_
  | stage :: rest =>
      Now (fun at_ => skip_all reasonKey rest (<[stage := EnrichmentPlan.mkOutcome Item.Skipped (Some reasonKey) None (Some at_)]> done_))
  end.

Definition stage_error (x : MomentStageOutcome + string) : MomentStageOutcome :=
  match x with
  | inl outcome => outcome
  | inr e => mkMoment Item.Failed (Some "stage-error"%string) (Some e)
  end.

(** The loop over the stages of an asset; [failed] are those that failed in this run of it. *)
Fixpoint run_stages (job : PlanRun) (assetId : string) (isVideo : bool) (stages failed : list Stage.EnrichmentStage)
    (done_ : StageOutcomes) : io StageOutcomes :=
  match stages with
  | [] => Done done_
  | stage :: rest =>
      if negb (stageAppliesTo stage isVideo) then
        Now (fun at_ => run_stages job assetId isVideo rest failed
               (<[stage := EnrichmentPlan.mkOutcome Item.Skipped
                             (Some (if isVideo then "not-an-image" else "not-a-video")%string) None (Some at_)]> done_))
      else if existsb (fun required => includes required failed) (ENRICHMENT_STAGE_REQUIRES stage) then
        Now (fun at_ => run_stages job assetId isVideo rest failed
               (<[stage := EnrichmentPlan.mkOutcome Item.Skipped (Some "dependency-failed"%string) None (Some at_)]> done_))
      else
        attempt_ (runStage job stage assetId) (fun x =>
          let outcome := stage_error x in
          Now (fun at_ =>
            let done_ := <[stage := EnrichmentPlan.mkOutcome (moment_state outcome) (moment_reasonKey outcome)
                                      (moment_message outcome) (Some at_)]> done_ in
            let failed := if bool_decide (moment_state outcome = Item.Failed) then stage :: failed else failed in
            held ← heartbeat job;
            if (held : bool) then run_stages job assetId isVideo rest failed done_ else Done done_))
  end.

Definition runAsset (job : PlanRun) (assetId : string) (stages : list Stage.EnrichmentStage) : io EnrichmentPlanItem :=
  kind ← ask (AssetIsVideo assetId);
  match kind with
  | None => outcomes ← skip_all "not-found" stages ∅; Done (mkItem assetId outcomes)
  | Some isVideo =>
      allowed ← ask (MayUpdate (run_ownerId job) assetId);
      outcomes ← (if (allowed : bool) then run_stages job assetId isVideo stages [] ∅
                  else skip_all "no-access" stages ∅);
      Done (mkItem assetId outcomes)
  end.

(** ** The run *)

Definition plan_patch (result : EnrichmentPlanResult) (processed total : nat) : BulkPatch :=
  mkBulkPatch (result_json result) (Z.of_nat processed) (Z.of_nat total)
    (number_of (enrichmentPlanProgress (Z.of_nat processed) (Z.of_nat total))) ENRICHMENT_PLAN_LEASE_MS.

(** The columns a write returns: status, cancel and pause. *)
Abbreviation MediaOperationWriteState := (MediaOperationStatus * option Z * option Z)%type.

Definition write (id token : string) (result : EnrichmentPlanResult) (processed total : nat)
  : io (option MediaOperationWriteState) :=
  db (SetBulkResult id token (plan_patch result processed total) false).

Definition acknowledge (id token : string) : io unit :=
  _ ← db (AcknowledgeCancel id token false false); Done tt.

(** Whether the worker may carry on after a write. *)
Definition proceed (id token : string) (written : option MediaOperationWriteState) : io bool :=
  match written with
  | None => Done false
  | Some (status, cancelled, paused) =>
      if bool_decide (status = Status.Cancelling) || negb (is_null cancelled) then
        _ ← acknowledge id token; Done false
      else if negb (is_null paused) then
        settled ← db (SettlePause id token);
        if (settled : bool) then Done false
        else
          alive ← db (Heartbeat id token ENRICHMENT_PLAN_LEASE_MS true);
          if (alive : bool) then Done true else (_ ← acknowledge id token; Done false)
      else Done true
  end.

Definition queuePaused : io bool := ask IsPaused.

Definition holdForPausedQueue (id token : string) : io unit :=
  held ← db (Requeue id token 0 true false);
  if (held : bool) then Done tt else acknowledge id token.

(** Write the record, and whether to carry on. *)
Definition saved (id token : string) (result : EnrichmentPlanResult) (processed total : nat) : io bool :=
  written ← write id token result processed total; proceed id token written.

(** Whether to work on the next asset: not when the worker stops or the queue is paused. *)
Definition may_work (id token : string) : io bool :=
  Stopping (fun stopping =>
    if stopping then Done false
    else
      paused ← queuePaused;
      if (paused : bool) then (_ ← holdForPausedQueue id token; Done false) else Done true).

Definition plan_total (snapshot : EnrichmentPlanSnapshot) : nat := length (assetIds snapshot).

(** The asset in hand: what of it runs, and the record with its answer. *)
Definition run_in_hand (job : PlanRun) (result : EnrichmentPlanResult) (assetId : string) : io EnrichmentPlanResult :=
  item ← runAsset job assetId (stagesToRetry (find_item assetId (items result)) (stages (run_snapshot job)));
  Done (mergeEnrichmentItem result item).

(** The first pass over the assets from the cursor on; [None] when the run ended in it. *)
Fixpoint first_pass (job : PlanRun) (rest : list string) (result : EnrichmentPlanResult) (processed : nat)
  : io (option EnrichmentPlanResult) :=
  match rest with
  | [] => Done (Some result)
  | assetId :: rest' =>
      let id := run_id job in let token := run_token job in let total := plan_total (run_snapshot job) in
      work ← may_work id token;
      if negb work then Done None
      else
        marked ← saved id token (set_inFlight (Some assetId) result) processed total;
        if negb marked then Done None
        else
          result' ← run_in_hand job result assetId;
          let result' := set_inFlight None result' in
          recorded ← saved id token result' (S processed) total;
          if negb recorded then Done None else first_pass job rest' result' (S processed)
  end.

(** The retry pass over the assets from its own cursor on. *)
Fixpoint retry_pass (job : PlanRun) (pass : RetryPass) (rest : list string) (result : EnrichmentPlanResult)
  : io (option EnrichmentPlanResult) :=
  match rest with
  | [] => Done (Some result)
  | assetId :: rest' =>
      let id := run_id job in let token := run_token job in let total := plan_total (run_snapshot job) in
      work ← may_work id token;
      if negb work then Done None
      else
        marked ← saved id token (set_inFlight (Some assetId) result) total total;
        if negb marked then Done None
        else
          result' ← run_in_hand job result assetId;
          let pass' := mkRetry (ids pass) (num_add (retryProcessed pass) (JInt 1)) in
          let result' := set_retry (Some pass') (set_inFlight None result') in
          recorded ← saved id token result' total total;
          if negb recorded then Done None else retry_pass job pass' rest' result'
  end.

Definition MEDIA_OPERATION_AUTO_RETRY_DELAY_MS : Z := MediaOperation.MEDIA_OPERATION_AUTO_RETRY_DELAY_MS.

Definition finish (id token : string) : io unit :=
  validating ← db (BeginValidation id token false);
  completed ← (if (validating : bool) then db (CompleteRow id token (mkComplete None None None) false) else Done false);
  if (completed : bool) then Done tt else acknowledge id token.

(** [fail] with its default options. *)
Definition fail_plan (id token error code : string) : io unit :=
  retried ← db (FailRetry id token (mkFailure error code) false false);
  if (retried : bool) then Done tt else (_ ← db (FailFinal id token (mkFailure error code) false); Done tt).

Definition error_text (e : PlanError) : string :=
  match e with
  | SnapshotVersion => "Enrichment plan snapshot is missing or has an unknown version"
  | SnapshotEmpty => "Enrichment plan snapshot has no assets or no stages"
  | SnapshotUnpinned => "Enrichment plan snapshot has no pinned configuration"
  end.

(** After the first pass: plan the retry pass and give the plan back, or walk the pass, then finish. *)
Definition after_first (job : PlanRun) (result : EnrichmentPlanResult) : io unit :=
  let id := run_id job in let token := run_token job in let total := plan_total (run_snapshot job) in
  match planEnrichmentRetryPass (assetIds (run_snapshot job)) result with
  | Some planned =>
      ok ← saved id token planned total total;
      if negb ok then Done tt
      else
        requeued ← db (Requeue id token MEDIA_OPERATION_AUTO_RETRY_DELAY_MS true false);
        if (requeued : bool) then Done tt else acknowledge id token
  | None =>
      finished ← match retry result with
                 | Some pass => retry_pass job pass (enrichmentRetryPending result) result
                 | None => Done (Some result)
                 end;
      match finished with Some _ => finish id token | None => Done tt end
  end.

Definition claimed_result (operation : Row) : EnrichmentPlanResult :=
  set_inFlight None (parseEnrichmentPlanResult (OperationStore.result (work operation))).
Definition claimed_processed (snapshot : EnrichmentPlanSnapshot) (operation : Row) : nat :=
  Z.to_nat (Z.min (Z.max 0 (processedUnits (work operation))) (Z.of_nat (plan_total snapshot))).

Definition run (id token : string) (operation : Row) : io unit :=
  match parseEnrichmentPlanSnapshot (Some (OperationStore.snapshot (request operation))) with
  | Throw e => fail_plan id token (error_text e) "enrichment_plan_snapshot_invalid"
  | Ok snapshot =>
      let total := plan_total snapshot in
      let result := claimed_result operation in
      let processed := claimed_processed snapshot operation in
      ok ← saved id token result processed total;
      if negb ok then Done tt
      else
        running ← db (ReportProgress id token
                        (mkPatch Status.Rendering (Z.of_nat processed) (Some (Z.of_nat total))
                           (number_of (enrichmentPlanProgress (Z.of_nat processed) (Z.of_nat total))) None));
        if negb (running : bool) then acknowledge id token
        else
          exists_ ← ask (UserExists (ownerId (request operation)));
          if negb (exists_ : bool) then
            fail_plan id token "The account that queued this plan no longer exists" "enrichment_plan_owner_unavailable"
          else
            let job := mkRun id token (ownerId (request operation)) snapshot in
            first ← first_pass job (drop processed (assetIds snapshot)) result processed;
            match first with Some result => after_first job result | None => Done tt end
  end.

(** ** The worker's loop *)

Definition plan_claim (workerId : string) : ClaimOptions :=
  mkClaimOptions [Kind.EnrichmentPlan] workerId ENRICHMENT_PLAN_LEASE_MS None None None.

(** One turn of [drain]; whether it goes round again.  The row the claim takes and the token it brings are
    the database's choice. *)
Definition drain_turn (workerId id token : string) (locked : string -> bool) : io bool :=
  Stopping (fun stopping =>
    if stopping then Done false
    else
      paused ← queuePaused;
      if (paused : bool) then Done false
      else
        claim ← db (ClaimNext id (plan_claim workerId) token locked);
        match claim with
        | None => Done false
        | Some operation =>
            attempt_ (run id token operation) (fun x =>
              match x with
              | inl _ => Done true
              | inr e => _ ← fail_plan id token e "enrichment_plan_failed"; Done true
              end)
        end).
