(* ===== verification/EnrichmentRecord.v ===== *)
(** * Enrichment plans: what a plan's record goes through

    The worker of [EnrichmentRun] writes the record of a plan in four ways: it clears a mark it found,
    marks the asset whose turn it is, records that asset's answer, and plans the retry pass
    ([write_step]).  Here: the invariant these writes keep, that a settled outcome is never overwritten,
    and how many turns an asset can have. *)

From S2P Require Import Prelude JsNumber JsString Enums EnrichmentPlan.
Local Open Scope Z_scope.

(** ** Items *)

Lemma find_item_id a l i : find_item a l = Some i -> itemId i = a.
Proof. intros H. apply List.find_some in H as [_ H]. by apply String.eqb_eq in H. Qed.
Lemma find_item_in a l i : find_item a l = Some i -> i ∈ l.
Proof. intros H. apply List.find_some in H as [H _]. by apply list_elem_of_In. Qed.
Lemma find_item_None a l : find_item a l = None <-> a ∉ map itemId l.
Proof.
  induction l as [|x l IH]; cbn; [split; [intros _; apply not_elem_of_nil|done]|].
  rewrite not_elem_of_cons. destruct (String.eqb_spec (itemId x) a) as [->|Hne]; [split; [done|tauto]|].
  unfold find_item in IH. rewrite IH. split; [intros H; split; [congruence|done]|tauto].
Qed.
Lemma find_item_elem l i : NoDup (map itemId l) -> i ∈ l -> find_item (itemId i) l = Some i.
Proof.
  induction l as [|x l IH]; cbn; [by intros _ ?%not_elem_of_nil|]. rewrite NoDup_cons, elem_of_cons. intros [Hx Hn] [->|Hi].
  - by rewrite String.eqb_refl.
  - destruct (String.eqb_spec (itemId x) (itemId i)) as [E|_]; [|by apply IH].
    destruct Hx. rewrite E. by apply list_elem_of_fmap_2.
Qed.
Lemma find_item_app a l m : find_item a (l ++ m) = match find_item a l with Some i => Some i | None => find_item a m end.
Proof. induction l as [|x l IH]; cbn; [done|]. by destruct (String.eqb (itemId x) a). Qed.

Definition find_in (a : string) (r : EnrichmentPlanResult) : option EnrichmentPlanItem := find_item a (items r).
(** What is recorded of a stage of an asset. *)
Definition outcome_of (r : EnrichmentPlanResult) (a : string) (s : Stage.EnrichmentStage) : option EnrichmentStageOutcome :=
  find_in a r ≫= fun i => itemStages i !! s.

Lemma replace_find a item l : find_item a (replace_first item l) =
  if decide (a = itemId item)
  then (fun x => mkItem (itemId item) (itemStages item ∪ itemStages x)) <$> find_item a l
  else find_item a l.
Proof.
  induction l as [|x l IH]; cbn; [by case_decide|].
  destruct (String.eqb_spec (itemId x) (itemId item)) as [E|Hne]; cbn.
  - case_decide as Ha; [subst a; by rewrite E, String.eqb_refl|].
    destruct (String.eqb_spec (itemId item) a); [congruence|]. by rewrite E, (proj2 (String.eqb_neq _ _)).
  - destruct (String.eqb_spec (itemId x) a) as [<-|]; [by rewrite decide_False|]. unfold find_item in IH. by rewrite IH.
Qed.
Lemma replace_ids item l : map itemId (replace_first item l) = map itemId l.
Proof.
  induction l as [|x l IH]; cbn; [done|]. destruct (String.eqb_spec (itemId x) (itemId item)) as [E|_]; cbn; congruence.
Qed.

(** Folding an item in: what it says of its stages stands, the rest of its asset stays, and every other asset. *)
Lemma merge_outcome r item a s : outcome_of (mergeEnrichmentItem r item) a s =
  if decide (a = itemId item) then match itemStages item !! s with Some o => Some o | None => outcome_of r a s end
  else outcome_of r a s.
Proof.
  unfold outcome_of, find_in, mergeEnrichmentItem. cbn [items]. destruct (find_item (itemId item) (items r)) as [x|] eqn:E.
  - rewrite replace_find. case_decide as Ha; [subst a|done]. rewrite E. cbn.
    rewrite lookup_union. destruct (itemStages item !! s), (itemStages x !! s); done.
  - rewrite find_item_app. case_decide as Ha.
    + subst a. rewrite E. cbn. rewrite String.eqb_refl. cbn. by destruct (itemStages item !! s).
    + destruct (find_item a (items r)); [done|]. cbn. by rewrite (proj2 (String.eqb_neq _ _)).
Qed.
Lemma merge_ids_NoDup r item : NoDup (map itemId (items r)) -> NoDup (map itemId (items (mergeEnrichmentItem r item))).
Proof.
  intros H. unfold mergeEnrichmentItem. cbn [items]. destruct (find_item _ _) eqn:E; [by rewrite replace_ids|].
  rewrite map_app, NoDup_app. split; [done|]. split; [|by apply NoDup_singleton].
  intros x Hx Hi. apply list_elem_of_singleton in Hi as ->. by apply find_item_None in E.
Qed.
Lemma merge_retry r item : retry (mergeEnrichmentItem r item) = retry r.
Proof. done. Qed.

(** A retry leaves an outcome alone exactly when it is settled. *)
Definition settled (r : EnrichmentPlanResult) (a : string) (s : Stage.EnrichmentStage) (o : EnrichmentStageOutcome) : Prop :=
  outcome_of r a s = Some o /\ retryable o = false.

Lemma stagesToRetry_elem r a stages s :
  s ∈ stagesToRetry (find_in a r) stages <-> s ∈ stages /\ forall o, ~ settled r a s o.
Proof.
  unfold settled, outcome_of. destruct (find_in a r) as [i|]; cbn.
  - rewrite elem_of_filter_b. destruct (itemStages i !! s) as [o|]; cbn.
    + split; [intros [H1 H2]; split; [done|]; intros o' [[= <-] H]; congruence|].
      intros [H1 H2]. split; [done|]. destruct (retryable o) eqn:E; [done|]. by destruct (H2 o).
    + split; [intros [H _]; split; [done|]; by intros o [? _]|by intros [? _]].
  - split; [intros H; split; [done|]; by intros o [? _]|by intros [? _]].
Qed.
Lemma stagesToRetry_NoDup i stages : NoDup stages -> NoDup (stagesToRetry i stages).
Proof. destruct i; [apply NoDup_filter_b|done]. Qed.

Definition item_failed (i : EnrichmentPlanItem) : bool := bool_decide (enrichmentItemOutcome i = Item.Failed).
Lemma item_failed_spec i : item_failed i = true <-> exists s o, itemStages i !! s = Some o /\ state o = Item.Failed.
Proof.
  unfold item_failed, enrichmentItemOutcome. rewrite bool_decide_eq_true.
  assert (includes Item.Failed (stage_states (itemStages i)) = true <->
          exists s o, itemStages i !! s = Some o /\ state o = Item.Failed) as H.
  { rewrite includes_true. unfold stage_states. rewrite list_elem_of_fmap. split.
    - intros ((s & o) & E & Hin). apply elem_of_map_to_list in Hin. by exists s, o.
    - intros (s & o & Hs & E). exists (s, o). split; [done|]. by apply elem_of_map_to_list. }
  destruct (includes _ _) eqn:E; [by rewrite <- H|]. split; [|by intros ?%H].
  by destruct (_ && _).
Qed.
Lemma failed_ids_elem r a : NoDup (map itemId (items r)) ->
  a ∈ failed_ids r <-> exists s o, outcome_of r a s = Some o /\ state o = Item.Failed.
Proof.
  intros Hn. unfold failed_ids. rewrite list_elem_of_fmap. unfold outcome_of, find_in. split.
  - intros (i & -> & [Hi Hf]%elem_of_filter_b). rewrite (find_item_elem _ _ Hn Hi). cbn. by apply item_failed_spec.
  - intros (s & o & Ho & Hs). destruct (find_item a (items r)) as [i|] eqn:E; [|done]. exists i.
    split; [symmetry; by eapply find_item_id|]. apply elem_of_filter_b. split; [by eapply find_item_in|].
    apply item_failed_spec. by exists s, o.
Qed.

(** ** The record and its writes *)

Record Rec := mkRec { rec_result : EnrichmentPlanResult; rec_processed : nat }.

Definition cursor (pass : RetryPass) : nat := Z.to_nat (num_index (retryProcessed pass)).
Definition with_result (f : EnrichmentPlanResult -> EnrichmentPlanResult) (c : Rec) : Rec :=
  mkRec (f (rec_result c)) (rec_processed c).

Section plan.
Context (S : EnrichmentPlanSnapshot).
Abbreviation total := (length (assetIds S)).

(** Whose turn it is: by the first pass's cursor, then by the retry pass's. *)
Definition in_turn (c : Rec) : option string :=
  match assetIds S !! rec_processed c with
  | Some a => Some a
  | None => retry (rec_result c) ≫= fun pass => ids pass !! cursor pass
  end.
Definition advance (c : Rec) : Rec :=
  if (rec_processed c <? total)%nat then mkRec (rec_result c) (rec_processed c + 1)
  else with_result (fun r => set_retry ((fun pass => mkRetry (ids pass) (num_add (retryProcessed pass) (JInt 1))) <$> retry r) r) c.

Definition clear (c : Rec) : Rec := with_result (set_inFlight None) c.
Definition mark (a : string) (c : Rec) : Rec := with_result (set_inFlight (Some a)) c.
Definition answer (item : EnrichmentPlanItem) (c : Rec) : Rec :=
  advance (with_result (fun r => mergeEnrichmentItem (set_inFlight None r) item) c).

(** An item that answers for every stage it was asked for, and for no other. *)
Definition answers (r : EnrichmentPlanResult) (a : string) (item : EnrichmentPlanItem) : Prop :=
  itemId item = a /\ forall s, is_Some (itemStages item !! s) <-> s ∈ stagesToRetry (find_in a r) (stages S).

Inductive write_step (c : Rec) : Rec -> Prop :=
| write_clear : write_step c (clear c)
| write_mark a : inFlight (rec_result c) = None -> in_turn c = Some a -> write_step c (mark a c)
| write_answer a item : inFlight (rec_result c) = Some a -> in_turn c = Some a ->
    answers (rec_result c) a item -> write_step c (answer item c)
| write_plan r : inFlight (rec_result c) = None -> rec_processed c = total ->
    planEnrichmentRetryPass (assetIds S) (rec_result c) = Some r -> write_step c (mkRec r (rec_processed c)).

(** ** The invariant *)

Definition answered (r : EnrichmentPlanResult) (a : string) : Prop :=
  forall s, s ∈ stages S -> is_Some (outcome_of r a s).

Record pass_ok (c : Rec) (pass : RetryPass) : Prop := mkPassOk {
  po_done : rec_processed c = total;
  po_nodup : NoDup (ids pass);
  po_ids : forall a, a ∈ ids pass -> a ∈ assetIds S;
  po_cursor : retryProcessed pass = JInt (Z.of_nat (cursor pass)) /\ (cursor pass <= length (ids pass))%nat;
  po_failed : forall a, a ∈ assetIds S -> a ∈ failed_ids (rec_result c) -> a ∈ ids pass
}.

Record rec_ok (c : Rec) : Prop := mkRecOk {
  ro_processed : (rec_processed c <= total)%nat;
  ro_items : NoDup (map itemId (items (rec_result c)));
  ro_answered : forall a, a ∈ take (rec_processed c) (assetIds S) -> answered (rec_result c) a;
  ro_pass : forall pass, retry (rec_result c) = Some pass -> pass_ok c pass
}.

(** A record as a plan is submitted, or as a manual retry hands it over. *)
Definition fresh (c : Rec) : Prop :=
  rec_processed c = 0%nat /\ inFlight (rec_result c) = None /\ retry (rec_result c) = None /\
  NoDup (map itemId (items (rec_result c))).

Hypothesis Hids : NoDup (assetIds S).
Hypothesis Hnames : forall a, a ∈ assetIds S -> a <> ""%string.
Hypothesis Hmax : Z.of_nat total <= ENRICHMENT_PLAN_MAX_ASSETS.

Lemma fresh_ok c : fresh c -> rec_ok c.
Proof.
  intros (Hp & _ & Hr & Hn). split; [lia|done| |by rewrite Hr].
  rewrite Hp. intros a Ha. by apply not_elem_of_nil in Ha.
Qed.

Lemma rec_storable c : rec_ok c -> storable (rec_result c).
Proof.
  intros [_ _ _ Hp] pass Hr. destruct (Hp pass Hr) as [_ _ Hs [Hc _] _]. split; [intros x Hx; by apply Hnames, Hs|by eexists].
Qed.

Lemma outcome_clear r f a s : outcome_of (set_inFlight f r) a s = outcome_of r a s.
Proof. done. Qed.
Lemma outcome_retry r p a s : outcome_of (set_retry p r) a s = outcome_of r a s.
Proof. done. Qed.
Lemma advance_first c : (rec_processed c < total)%nat -> advance c = mkRec (rec_result c) (rec_processed c + 1).
Proof. intros H. unfold advance. by rewrite (proj2 (Nat.ltb_lt _ _) H). Qed.
Lemma advance_second c : (total <= rec_processed c)%nat -> advance c =
  with_result (fun r => set_retry ((fun pass => mkRetry (ids pass) (num_add (retryProcessed pass) (JInt 1))) <$> retry r) r) c.
Proof. intros H. unfold advance. by rewrite (proj2 (Nat.ltb_ge _ _) H). Qed.
Lemma advance_items c : items (rec_result (advance c)) = items (rec_result c).
Proof. unfold advance. by destruct (_ <? _)%nat. Qed.
Lemma advance_outcome c a s : outcome_of (rec_result (advance c)) a s = outcome_of (rec_result c) a s.
Proof. unfold outcome_of, find_in. by rewrite advance_items. Qed.
Lemma advance_inFlight c : inFlight (rec_result (advance c)) = inFlight (rec_result c).
Proof. unfold advance. by destruct (_ <? _)%nat. Qed.

Lemma answer_outcome item c a s : outcome_of (rec_result (answer item c)) a s =
  if decide (a = itemId item) then match itemStages item !! s with Some o => Some o | None => outcome_of (rec_result c) a s end
  else outcome_of (rec_result c) a s.
Proof. unfold answer. rewrite advance_outcome. exact (merge_outcome (set_inFlight None (rec_result c)) item a s). Qed.

Lemma planned_is r r' : planEnrichmentRetryPass (assetIds S) r = Some r' ->
  retry r = None /\ r' = set_retry (Some (mkRetry (List.filter (fun a => includes a (failed_ids r)) (assetIds S)) (JInt 0))) r.
Proof. unfold planEnrichmentRetryPass. destruct (retry r); [done|]. destruct (_ =? _)%nat; [done|]. by intros [= <-]. Qed.

Lemma plan_outcome r r' a s : planEnrichmentRetryPass (assetIds S) r = Some r' -> outcome_of r' a s = outcome_of r a s.
Proof. intros H. apply planned_is in H as [_ ->]. done. Qed.

(** *** Settled outcomes stand *)

Lemma settled_stands c c' a s o : write_step c c' -> settled (rec_result c) a s o -> settled (rec_result c') a s o.
Proof.
  intros H [Ho Hr]. split; [|done]. destruct H as [|b _ _|b item Hf Ht [<- Hi]|r _ _ Hp]; [done|done| |].
  - rewrite answer_outcome. case_decide as Ha; [subst a|done].
    destruct (itemStages item !! s) as [o'|] eqn:E; [|done]. exfalso.
    assert (s ∈ stagesToRetry (find_in (itemId item) (rec_result c)) (stages S)) as Hs by (apply Hi; by eexists).
    apply stagesToRetry_elem in Hs as [_ Hs]. by apply (Hs o).
  - cbn. by rewrite (plan_outcome _ _ _ _ Hp).
Qed.

(** *** The invariant is kept *)

Lemma answer_answered c a item : answers (rec_result c) a item -> answered (rec_result (answer item c)) a.
Proof.
  intros [<- Hi] s Hs. rewrite answer_outcome, decide_True by done.
  destruct (itemStages item !! s) as [o|] eqn:E; [by eexists|].
  destruct (outcome_of (rec_result c) (itemId item) s) as [o|] eqn:Eo; [by eexists|]. exfalso.
  assert (is_Some (itemStages item !! s)) as [? ?]; [|congruence].
  apply Hi, stagesToRetry_elem. split; [done|]. intros o [? _]. congruence.
Qed.
Lemma answer_answered_other c a b item : answers (rec_result c) a item -> answered (rec_result c) b ->
  answered (rec_result (answer item c)) b.
Proof.
  intros Hi Hb. destruct (decide (b = a)) as [->|Hne]; [by eapply answer_answered|].
  intros s Hs. rewrite answer_outcome. destruct Hi as [<- _]. rewrite decide_False by done. by apply Hb.
Qed.

Lemma in_turn_first c a : rec_ok c -> in_turn c = Some a ->
  (assetIds S !! rec_processed c = Some a /\ (rec_processed c < total)%nat) \/
  (rec_processed c = total /\ exists pass, retry (rec_result c) = Some pass /\ ids pass !! cursor pass = Some a).
Proof.
  intros [Hp _ _ _] H. unfold in_turn in H. destruct (assetIds S !! rec_processed c) as [b|] eqn:E.
  - injection H as ->. left. split; [done|]. by apply lookup_lt_Some in E.
  - right. apply lookup_ge_None in E. split; [lia|]. destruct (retry _) as [pass|]; [by exists pass|done].
Qed.

Lemma cursor_int l q : cursor (mkRetry l (JInt (Z.of_nat q))) = q.
Proof. unfold cursor, num_index, num_q. cbn. rewrite Z.quot_1_r. lia. Qed.
Lemma pass_length c pass : pass_ok c pass -> (length (ids pass) <= total)%nat.
Proof.
  intros [_ P2 P3 _ _]. apply NoDup_incl_length; [by apply NoDup_ListNoDup|]. intros x Hx. by apply list_elem_of_In, P3, list_elem_of_In.
Qed.
(** The cursor of the retry pass moved on by one. *)
Lemma pass_next c pass a : pass_ok c pass -> ids pass !! cursor pass = Some a ->
  num_add (retryProcessed pass) (JInt 1) = JInt (Z.of_nat (cursor pass + 1)).
Proof.
  intros Hp Ha. pose proof (pass_length c pass Hp). apply lookup_lt_Some in Ha. destruct Hp as [_ _ _ [-> _] _].
  unfold ENRICHMENT_PLAN_MAX_ASSETS in Hmax. unfold num_add. rewrite fl_int_exact by lia. f_equal. lia.
Qed.

Lemma pass_keep c c' pass : rec_processed c' = rec_processed c ->
  (forall a, a ∈ assetIds S -> a ∈ failed_ids (rec_result c') -> a ∈ failed_ids (rec_result c) \/ a ∈ ids pass) ->
  pass_ok c pass -> pass_ok c' pass.
Proof.
  intros Hp Hf [H1 H2 H3 H4 H5]. split; [congruence|done..|]. intros a Ha Hx. destruct (Hf a Ha Hx); [by apply H5|done].
Qed.

Lemma step_ok c c' : rec_ok c -> write_step c c' -> rec_ok c'.
Proof.
  intros Hok H. pose proof Hok as [Hp Hn Ha Hr]. destruct H as [|b Hf Ht|b item Hf Ht Hi|r Hf He Hpl].
  - split; [done..|]. intros pass Hq. apply (pass_keep c); [done|by left|by apply Hr].
  - split; [done..|]. intros pass Hq. apply (pass_keep c); [done|by left|by apply Hr].
  - assert (NoDup (map itemId (items (rec_result (answer item c))))) as Hn'.
    { unfold answer. rewrite advance_items. by apply merge_ids_NoDup. }
    pose proof (in_turn_first c b Hok Ht) as [[Hb Hlt]|(He & pass & Eq & Hb)].
    + assert (retry (rec_result c) = None) as Enone.
      { destruct (retry (rec_result c)) as [pass|] eqn:E; [|done]. destruct (Hr pass eq_refl). lia. }
      assert (rec_processed (answer item c) = rec_processed c + 1)%nat as Ep.
      { unfold answer. by rewrite advance_first. }
      split; [lia|done| |].
      * rewrite Ep, Nat.add_1_r, (take_S_r _ _ b) by done. intros a [Hx|Hx%list_elem_of_singleton]%elem_of_app.
        -- eapply answer_answered_other; [done|by apply Ha].
        -- subst. by eapply answer_answered.
      * assert (retry (rec_result (answer item c)) = None) as ->; [|done]. unfold answer. by rewrite advance_first.
    + destruct (Hr pass Eq) as [P1 P2 P3 [P4 P5] P6].
      assert (rec_processed (answer item c) = rec_processed c) as Ep.
      { unfold answer. by rewrite advance_second by (cbn; lia). }
      split; [lia|done| |].
      * rewrite Ep. intros a Hx. eapply answer_answered_other; [done|by apply Ha].
      * assert (retry (rec_result (answer item c)) = Some (mkRetry (ids pass) (num_add (retryProcessed pass) (JInt 1)))) as ->.
        { unfold answer. rewrite advance_second by (cbn; lia). cbn. by rewrite Eq. }
        intros pass' [= <-]. pose proof (lookup_lt_Some _ _ _ Hb) as Hlt.
        pose proof (pass_next c pass b (Hr pass Eq) Hb) as En.
        assert (cursor (mkRetry (ids pass) (num_add (retryProcessed pass) (JInt 1))) = cursor pass + 1)%nat as Ec.
        { by rewrite En, cursor_int. }
        split; cbn [ids retryProcessed]; [congruence|done|done|rewrite Ec, En; split; [done|lia]|].
        intros a Hx Hfl. apply failed_ids_elem in Hfl as (s & o & Ho & Hs); [|done].
        rewrite answer_outcome in Ho. case_decide as Ea.
        -- subst a. destruct Hi as [<- _]. by apply list_elem_of_lookup_2 in Hb.
        -- apply P6; [done|]. apply failed_ids_elem; [done|]. by exists s, o.
  - apply planned_is in Hpl as [Enone ->]. cbn. split; cbn; [done..|]. intros pass [= <-]. split; cbn.
    + done.
    + by apply NoDup_filter_b.
    + intros a Hx. by apply elem_of_filter_b in Hx as [Hx _].
    + split; [done|]. apply Nat.le_0_l.
    + intros a Hx Hfl. apply elem_of_filter_b. split; [done|]. by apply includes_true.
Qed.

(** *** Turns *)

Definition count_of (a : string) (l : list string) : nat := length (List.filter (fun x => bool_decide (x = a)) l).
Lemma count_of_app a l m : count_of a (l ++ m) = (count_of a l + count_of a m)%nat.
Proof. unfold count_of. by rewrite List.filter_app, length_app. Qed.
Lemma count_of_NoDup a l : NoDup l -> (count_of a l <= 1)%nat.
Proof.
  induction l as [|x l IH]; intros H; [cbn; lia|]. apply NoDup_cons in H as [Hx Hn]. unfold count_of in *. cbn.
  case_bool_decide as E; [|by apply IH]. subst. cbn. rewrite filter_b_none; [done|].
  intros y Hy. apply bool_decide_eq_false. by intros ->.
Qed.
Lemma count_of_take_S a l n b : l !! n = Some b ->
  count_of a (take (n + 1) l) = (count_of a (take n l) + if decide (b = a) then 1 else 0)%nat.
Proof.
  intros H. rewrite Nat.add_1_r, (take_S_r _ _ b) by done. rewrite count_of_app. unfold count_of at 2. cbn.
  case_bool_decide; case_decide; try done; cbn; lia.
Qed.

(** The turns an asset has had. *)
Definition turns (a : string) (c : Rec) : nat :=
  (count_of a (take (rec_processed c) (assetIds S)) +
   match retry (rec_result c) with Some pass => count_of a (take (cursor pass) (ids pass)) | None => 0 end)%nat.

Lemma turns_two a c : rec_ok c -> (turns a c <= 2)%nat.
Proof.
  intros [_ _ _ Hr]. unfold turns. pose proof (count_of_NoDup a (take (rec_processed c) (assetIds S)) (NoDup_take_sub _ _ Hids)).
  destruct (retry (rec_result c)) as [pass|]; [|lia]. destruct (Hr pass eq_refl) as [_ Hn _ _ _].
  pose proof (count_of_NoDup a (take (cursor pass) (ids pass)) (NoDup_take_sub _ _ Hn)). lia.
Qed.

Lemma turns_answer a b item c : rec_ok c -> in_turn c = Some b ->
  turns a (answer item c) = (turns a c + if decide (b = a) then 1 else 0)%nat.
Proof.
  intros Hok Ht. pose proof Hok as [Hp _ _ Hr]. unfold turns, answer.
  destruct (in_turn_first c b Hok Ht) as [[Hb Hlt]|(He & pass & Eq & Hb)].
  - rewrite advance_first by done. cbn [rec_processed rec_result with_result].
    rewrite (count_of_take_S _ _ _ b) by done. cbn [retry mergeEnrichmentItem set_inFlight]. lia.
  - rewrite advance_second by (cbn; lia). cbn [rec_processed rec_result with_result retry set_retry mergeEnrichmentItem set_inFlight].
    rewrite Eq. cbn [fmap option_fmap option_map]. destruct (Hr pass Eq) as [P1 P2 P3 [P4 P5] P6].
    rewrite (pass_next c pass b (Hr pass Eq) Hb), cursor_int.
    cbn [ids]. rewrite (count_of_take_S _ _ _ b) by done. lia.
Qed.

Lemma turns_plan a c r : planEnrichmentRetryPass (assetIds S) (rec_result c) = Some r ->
  turns a (mkRec r (rec_processed c)) = turns a c.
Proof.
  intros Hp. apply planned_is in Hp as [E ->]. unfold turns. cbn [rec_result rec_processed retry set_retry]. rewrite E.
  assert (forall l, cursor (mkRetry l (JInt 0)) = 0%nat) as -> by done. done.
Qed.
End plan.
