(* ===== verification/EnrichmentSafety.v ===== *)
(** * Enrichment plans: any number of workers, interrupted anywhere

    Workers start turns of [EnrichmentRun.drain_turn] on one plan whenever they like; each runs one effect
    at a time with everybody else's statements in between, and may vanish at any point ([step]).  What a
    run knows of its claim ([Know]) follows from the answers it got; [wp] says that every write of a
    program is one of [EnrichmentRecord.write_step] and every request one the plan allows, and holds of
    the worker's turn.  From it the invariant of all reachable worlds. *)

From stdpp Require Import relations.
From S2P Require Import Prelude JsNumber JsString Enums OperationStore OperationLease.
From S2P Require Import EnrichmentPlan EnrichmentRun EnrichmentRecord.
From S2P Require MediaOperation EditOperation RenderAdmission StudioRenderProgress.
Local Open Scope Z_scope.

(** ** The row of a plan *)

Definition rec_of_row (r : Row) : Rec :=
  mkRec (parseEnrichmentPlanResult (result (work r))) (Z.to_nat (processedUnits (work r))).
Definition rec_of_patch (patch : BulkPatch) : Rec :=
  mkRec (parseEnrichmentPlanResult (Some (bulk_result patch))) (Z.to_nat (bulk_processedUnits patch)).

(** What a write by somebody else leaves of a row: its request and record, and its claim unless it ends it. *)
Record left_alone (r r' : Row) : Prop := mkLeftAlone {
  la_request : request r' = request r;
  la_work : work r' = work r;
  la_claim : (claimToken (claim r') = claimToken (claim r) /\ claimExpiresAt (claim r') = claimExpiresAt (claim r)) \/
             claimToken (claim r') = None;
  la_done : status r' = Status.Completed -> status r = Status.Completed
}.
Lemma left_alone_refl r : left_alone r r.
Proof. split; auto. Qed.

Definition leaves (f : Row -> option Row) : Prop := forall r r', f r = Some r' -> left_alone r r'.

Ltac leaves_op := intros r r' H; apply when_Some in H as [H ->]; split_guard H; split; cbn;
  first [reflexivity | discriminate | solve [auto] | idtac].

Lemma leaves_requestCancel o tk q t : leaves (requestCancel o tk q t).
Proof. leaves_op; destruct (status_in UNCLAIMED_STATUSES r); cbn; auto; discriminate. Qed.
Lemma leaves_requestPause o ks t : leaves (requestPause o ks t).
Proof. leaves_op. destruct (bool_decide (status r = _)); [discriminate|auto]. Qed.
Lemma leaves_resume o t : leaves (resume o t).
Proof. leaves_op. destruct (bool_decide (status r = _)); [discriminate|auto]. Qed.
Lemma leaves_dismiss o t : leaves (dismiss o t).
Proof. by leaves_op. Qed.
Lemma leaves_recordRemoteJobId j : leaves (recordRemoteJobId j).
Proof. by leaves_op. Qed.
Lemma leaves_markRemoteReleased t : leaves (markRemoteReleased t).
Proof. intros r r' [= <-]. split; cbn; auto. Qed.
Lemma leaves_recover_paused j t k : leaves (recover_paused j t k).
Proof. by leaves_op. Qed.
Lemma leaves_recover_retried f j t k : leaves (recover_retried f j t k).
Proof. leaves_op. unfold pausedIfRequested. destruct (is_null (pauseRequestedAt _)); discriminate. Qed.
Lemma leaves_recover_failed f j t k : leaves (recover_failed f j t k).
Proof. by leaves_op. Qed.
Lemma leaves_recover_cancelled j t k : leaves (recover_cancelled j t k).
Proof. by leaves_op. Qed.
Lemma leaves_releaseDispatch : leaves releaseJobQueueDispatch.
Proof. by leaves_op. Qed.
Lemma leaves_dispatch (ids : list string) (k : string) : leaves
  (fun r => when (includes k ids) (set_claimedBy (Some EditOperation.JOB_QUEUE_CLAIMANT) r)).
Proof. by leaves_op. Qed.

Lemma leaves_beginValidation v t : leaves (beginValidation v false t).
Proof. by leaves_op. Qed.
Lemma leaves_acknowledgeCancel fence v rel a t : leaves (acknowledgeCancel fence v rel a t).
Proof. by leaves_op. Qed.
Lemma leaves_settlePause v t : leaves (settlePause v t).
Proof. by leaves_op. Qed.
Lemma leaves_requeue v d back a t : leaves (requeue v d back a t).
Proof. leaves_op. unfold pausedIfRequested. destruct (is_null (pauseRequestedAt _)); discriminate. Qed.
Lemma leaves_fail_retry v f res a t : leaves (fail_retry v f res a t).
Proof. leaves_op. unfold pausedIfRequested. destruct (is_null (pauseRequestedAt _)); discriminate. Qed.
Lemma leaves_fail_final v f a t : leaves (fail_final v f a t).
Proof. by leaves_op. Qed.

Create HintDb leaves.
#[export] Hint Resolve leaves_beginValidation leaves_acknowledgeCancel leaves_settlePause leaves_requeue
  leaves_fail_retry leaves_fail_final leaves_requestCancel leaves_requestPause leaves_resume leaves_dismiss leaves_recordRemoteJobId
  leaves_markRemoteReleased leaves_recover_paused leaves_recover_retried leaves_recover_failed leaves_recover_cancelled
  leaves_releaseDispatch leaves_dispatch : leaves.

Section row.
Context (publishable : string -> string -> bool) (preview_fence : Row -> Z -> bool) (preview_frames : Row -> bool).
Abbreviation handle := (handle publishable preview_fence preview_frames).
Context (id : string).

(** Statements that are not addressed to a plan: only its workers claim it, the job queue edits the
    operations it claimed itself, and no one writes a record into a finished one. *)
Definition not_for_plans {A} (o : OpE A) : Prop :=
  match o with
  | ClaimNext k _ _ _ | BeginJobQueueRun k _ _ | SetFinishedResult k _ | StopUnconfirmed k _ | ExpireClaim k => k <> id
  | _ => True
  end.

Lemma left_update_row t k f s r : rows s !! id = Some r -> (k = id -> leaves f) ->
  exists r', rows (update_row t k f s).2 !! id = Some r' /\ left_alone r r'.
Proof.
  intros E Hf. unfold update_row. destruct (decide (k = id)) as [->|Hne].
  - rewrite E. cbn. destruct (f r) as [r'|] eqn:Ef; cbn.
    + exists (touch t r'). rewrite lookup_insert_eq. split; [done|]. by destruct (Hf eq_refl r r' Ef).
    + exists r. split; [done|apply left_alone_refl].
  - exists r. split; [|apply left_alone_refl]. destruct (rows s !! k ≫= f); [|done]. cbn. by rewrite lookup_insert_ne.
Qed.
Lemma left_update_rows t f s r : rows s !! id = Some r -> leaves (f id) ->
  exists r', rows (update_rows t f s).2 !! id = Some r' /\ left_alone r r'.
Proof.
  intros E Hf. rewrite lookup_update_rows, E. cbn. eexists. split; [done|].
  destruct (f id r) as [r'|] eqn:Ef; [by destruct (Hf r r' Ef)|apply left_alone_refl].
Qed.
Lemma left_rows s s' r : rows s !! id = Some r -> rows s' = rows s -> exists r', rows s' !! id = Some r' /\ left_alone r r'.
Proof. intros E ->. exists r. split; [done|apply left_alone_refl]. Qed.
Lemma left_insert k c t s s' r : rows s !! id = Some r -> insert_row k c t s = Some s' ->
  exists r', rows s' !! id = Some r' /\ left_alone r r'.
Proof.
  intros E [En ->]%insert_row_spec. exists r. cbn. rewrite lookup_insert_ne by congruence. split; [done|apply left_alone_refl].
Qed.

(** A statement of nobody's who has the plan's claim. *)
Lemma other_row {A} (o : OpE A) t s r : store_ok s -> rows s !! id = Some r -> kind (request r) = Kind.EnrichmentPlan -> not_for_plans o ->
  (forall v, claimToken (claim r) = Some v -> ~ carries o id v) ->
  exists r', rows (handle t o s).2 !! id = Some r' /\ left_alone r r'.
Proof.
  intros Hs E Hkind Hn Hc.
  assert (forall v, carries o id v -> exists r', rows (handle t o s).2 !! id = Some r' /\ left_alone r r') as Hcarry.
  { intros v Hv. destruct (fenced publishable preview_fence preview_frames o t id v s Hs Hv) as [-> _].
    - intros (r0 & E0 & Hr). rewrite E in E0. injection E0 as <-. by apply (Hc v).
    - exists r. split; [done|apply left_alone_refl]. }
  destruct o; cbn [not_for_plans carries] in Hn, Hcarry;
    try (rewrite ?claimNext_update, ?publish_row); cbn [OperationStore.handle updated snd].
  all: try match goal with |- context [update_row _ ?k _ _] =>
         destruct (decide (k = id)) as [->|Hne]; [try (exact (Hcarry _ (conj eq_refl eq_refl)))|apply left_update_row; [done|by intros ->]] end.
  all: try (apply left_update_row; [done|intros _; solve [auto with leaves]]).
  all: try (apply left_update_rows; [done|solve [auto with leaves]]).
  all: try (eapply left_rows; [eassumption|]; by rewrite ?checkpoint_step_rows, ?completeCheckpoint_rows, ?invalidate_rows).
  all: try done.
  - destruct (insert_row id0 c t s) eqn:Ei; [by eapply left_insert|by apply (left_rows s _ r E)].
  - unfold create_unless. destruct (existsb _ _); [by apply (left_rows s _ r E)|].
    destruct (insert_row id0 c t s) eqn:Ei; [by eapply left_insert|by apply (left_rows s _ r E)].
  - unfold create_unless. destruct (existsb _ _); [by apply (left_rows s _ r E)|].
    destruct (insert_row id0 c t s) eqn:Ei; [by eapply left_insert|by apply (left_rows s _ r E)].
  - destruct (existsb _ _); [by apply (left_rows s _ r E)|]. destruct (insert_row id0 c t s) eqn:Ei; [by eapply left_insert|].
    apply (left_rows s _ r E). by repeat case_match.
  - destruct (oldest _ _ _); [|by apply (left_rows s _ r E)]. apply left_update_row; [done|by intros ->].
  - destruct (decide (id0 = id)) as [->|Hne]; [specialize (Hcarry _ (conj eq_refl eq_refl)); by rewrite publish_row in Hcarry|].
    destruct accepts; [apply left_update_row; [done|by intros ->]|by apply (left_rows s _ r E)].
  - unfold update_row. rewrite E. cbn. unfold mergeStreamSignal. rewrite Hkind. cbn. exists r. split; [done|apply left_alone_refl].
  - destruct (dispatch_choice _ _ _ _); [|by apply (left_rows s _ r E)]. cbn [snd]. apply left_update_rows; [done|auto with leaves].
  - apply left_update_rows; [done|]. destruct (includes id ids); [auto with leaves|done].
Qed.
End row.

(** ** What a run knows, and what it may do *)

(** The asset a claim has in hand, with the stages it has sent off in this turn of it. *)
Inductive Hold := NotInHand | InHand (a : string) (sent_off : list Stage.EnrichmentStage).

(** While the row is the claim's, its record is [rec]; without [live] the lease was found lapsed. *)
Record Know := mkKnow { live : bool; hold : Hold; rec : Rec }.
Inductive Known := Unclaimed | Claimed (k : Know).

Definition hold_of (c : Rec) : Hold :=
  match inFlight (rec_result c) with Some a => InHand a [] | None => NotInHand end.

(** What a request for model work or frames passes. *)
Inductive Sent :=
| SentNothing
| SentOptions (o : EnrichmentRunOptions)
| SentIndex (destinationId : option string) (modelName : option json) (jobId : string)
| SentCaptions (destinationId : option string) (imageDescription : list (string * json)) (configHash jobId : string).
Record Request := mkRequest {
  req_asset : string;
  req_stage : Stage.EnrichmentStage;
  req_sent : Sent
}.
Definition request_of {B} (q : AskE B) : option Request :=
  match q with
  | DetectLocked a o => Some (mkRequest a Stage.LockedCheck (SentOptions o))
  | Describe a o => Some (mkRequest a Stage.Description (SentOptions o))
  | RunFrames a => Some (mkRequest a Stage.Frames SentNothing)
  | RunIndex a d m j => Some (mkRequest a Stage.MomentIndex (SentIndex d m j))
  | RunCaptions a d fs h j => Some (mkRequest a Stage.MomentCaptions (SentCaptions d fs h j))
  | _ => None
  end.

(** [{ ...a, ...b }]: the fields of [b] win. *)
Lemma spread_other k (b : list (string * json)) : (forall v, (k, v) ∉ b) -> forall a, obj_get (spread a b) k = obj_get a k.
Proof.
  unfold spread. induction b as [|[x v] b IH]; intros Hb a; [done|]. cbn [foldl fst snd].
  rewrite IH by (intros w Hw; apply (Hb w), elem_of_cons; by right).
  apply obj_get_set_ne. intros ->. apply (Hb v), elem_of_cons. by left.
Qed.
Lemma spread_wins k v (b : list (string * json)) : NoDup (map fst b) -> obj_get b k = Some v -> forall a, obj_get (spread a b) k = Some v.
Proof.
  induction b as [|[x w] b IH]; cbn [map fst obj_get]; [done|]. intros [Hx Hn]%NoDup_cons Hk a. unfold spread. cbn [foldl fst snd].
  fold (spread (obj_set a x w) b). destruct (String.eqb_spec k x) as [->|]; [|by apply IH]. injection Hk as ->.
  rewrite spread_other; [apply obj_get_set_eq|]. intros u Hu. apply Hx, list_elem_of_fmap. by exists (x, u).
Qed.

Section plan.
Context (S : EnrichmentPlanSnapshot) (id : string).
Abbreviation total := (length (assetIds S)).

(** The configuration the plan keeps: the settings of descriptions and of the locked check, the search model. *)
Definition pinned_description : list (string * json) := default [] (is_record (obj_get (config S) "description")).
Definition pinned_model : option json :=
  match obj_get (config S) "search" with Some v => json_get v "modelName" | None => None end.
(** The request as the plan pinned it: its destinations, its models and settings, and the plan it is for. *)
Definition pinned (r : Request) : Prop :=
  match req_stage r, req_sent r with
  | Stage.Frames, SentNothing => True
  | Stage.LockedCheck, SentOptions o | Stage.Description, SentOptions o =>
      enrichmentDestinationId o = enrichment (destinations S) /\ searchDestinationId o = search (destinations S) /\
      imageDescription o = obj_get (config S) "description" /\ nsfwDetection o = obj_get (config S) "lockedCheck" /\
      clipModelName o = pinned_model /\ option_configHash o = configHash S /\ option_jobId o = id /\ planRun o = true
  | Stage.MomentIndex, SentIndex d m j => d = search (destinations S) /\ m = pinned_model /\ j = id
  | Stage.MomentCaptions, SentCaptions d fs h j =>
      d = enrichment (destinations S) /\ h = configHash S /\ j = id /\
      forall k v, NoDup (map fst pinned_description) -> obj_get pinned_description k = Some v -> obj_get fs k = Some v
  | _, _ => False
  end.

(** The writes of a claim, by what it has in hand. *)
Inductive move : Hold -> Rec -> Rec -> Prop :=
| move_clear c : move NotInHand c (clear c)
| move_mark c a : inFlight (rec_result c) = None -> in_turn S c = Some a -> move NotInHand c (mark a c)
| move_answer c a l item : inFlight (rec_result c) = Some a -> in_turn S c = Some a ->
    answers S (rec_result c) a item -> move (InHand a l) c (answer S item c)
| move_plan c r : inFlight (rec_result c) = None -> rec_processed c = total ->
    planEnrichmentRetryPass (assetIds S) (rec_result c) = Some r -> move NotInHand c (mkRec r (rec_processed c)).

Lemma move_step h c c' : move h c c' -> write_step S c c'.
Proof. destruct 1; [apply write_clear|by apply write_mark|by apply (write_answer S c a)|by apply write_plan]. Qed.

(** Nothing left to do. *)
Record finished (c : Rec) : Prop := mkFinished {
  fin_processed : rec_processed c = total;
  fin_plan : planEnrichmentRetryPass (assetIds S) (rec_result c) = None;
  fin_turn : in_turn S c = None;
  fin_hand : inFlight (rec_result c) = None
}.

Record plan_row (r : Row) : Prop := mkPlanRow {
  pr_kind : kind (request r) = Kind.EnrichmentPlan;
  pr_snapshot : parseEnrichmentPlanSnapshot (Some (snapshot (request r))) = Ok S;
  pr_processed : 0 <= processedUnits (work r);
  pr_rec : rec_ok S (rec_of_row r)
}.

(** The statements a claim may make, on what it knows. *)
Definition legal (token : string) {B} (o : OpE B) (k : Known) : Prop :=
  match o, k with
  | ClaimNext i _ v _, Unclaimed => i = id /\ v = token
  | SetBulkResult i v patch false, Claimed k =>
      i = id /\ v = token /\ 0 <= bulk_processedUnits patch /\
      (live k = true -> move (hold k) (rec k) (rec_of_patch patch))
  | ReportProgress i v patch, Claimed k =>
      i = id /\ v = token /\ studioRender patch = None /\ patch_status patch = Status.Rendering /\
      patch_processedUnits patch = Z.of_nat (rec_processed (rec k))
  | CompleteRow i v c false, Claimed k =>
      i = id /\ v = token /\ c = mkComplete None None None /\ live k = true /\ hold k = NotInHand /\ finished (rec k)
  | Heartbeat i v _ _, Claimed _ | BeginValidation i v false, Claimed _ | AcknowledgeCancel i v _ _, Claimed _
  | SettlePause i v, Claimed _ | Requeue i v _ _ _, Claimed _ | FailRetry i v _ _ _, Claimed _
  | FailFinal i v _ _, Claimed _ => i = id /\ v = token
  | _, _ => False
  end.

(** The answers the row may give. *)
Definition plausible {B} (o : OpE B) (k : Known) : B -> Prop :=
  match o in OpE B return B -> Prop with
  | ClaimNext _ _ _ _ => fun x => match x with Some r => plan_row r | None => True end
  | SetBulkResult _ _ _ _ => fun x => match k with Claimed k => live k = false -> x = None | Unclaimed => True end
  | _ => fun _ => True
  end.

(** What is known after an answer. *)
Definition after {B} (o : OpE B) (k : Known) : B -> Known :=
  match o in OpE B return B -> Known with
  | ClaimNext _ _ _ _ => fun x =>
      match x with Some r => Claimed (mkKnow true NotInHand (rec_of_row r)) | None => k end
  | SetBulkResult _ _ patch _ => fun x =>
      match x, k with
      | Some _, Claimed k => Claimed (mkKnow (live k) (hold_of (rec_of_patch patch)) (rec_of_patch patch))
      | _, _ => k
      end
  | Heartbeat _ _ _ false => fun ok : bool =>
      match k with Claimed k => Claimed (mkKnow (live k && ok) (hold k) (rec k)) | Unclaimed => k end
  | _ => fun _ => k
  end.

Definition legal_ask {B} (q : AskE B) (k : Known) : Prop :=
  match request_of q with
  | None => True
  | Some r => exists know l, k = Claimed know /\ hold know = InHand (req_asset r) l /\ (req_stage r ∉ l) /\
      req_stage r ∈ stagesToRetry (find_in (req_asset r) (rec_result (rec know))) (stages S) /\ pinned r
  end.
Definition after_ask {B} (q : AskE B) (k : Known) : Known :=
  match request_of q, k with
  | Some r, Claimed know =>
      match hold know with
      | InHand a l => Claimed (mkKnow (live know) (InHand a (req_stage r :: l)) (rec know))
      | NotInHand => k
      end
  | _, _ => k
  end.

(** ** Programs that only do what they may *)

Fixpoint wp (token : string) {A} (m : io A) (Q : A + string -> Known -> Prop) (k : Known) : Prop :=
  match m with
  | Done a => Q (inl a) k
  | Raise e => Q (inr e) k
  | Db o f => legal token o k /\ forall x, plausible o k x -> wp token (f x) Q (after o k x)
  | Ask q f => legal_ask q k /\ forall x, wp token (f x) Q (after_ask q k)
  | Stopping f => forall b, wp token (f b) Q k
  | Now f => forall t, wp token (f t) Q k
  end.

Section program.
Context (token : string).
Abbreviation wp := (wp token).

Lemma wp_mono {A} (m : io A) (Q Q' : A + string -> Known -> Prop) k :
  (forall x k, Q x k -> Q' x k) -> wp m Q k -> wp m Q' k.
Proof.
  intros HQ. revert k. induction m as [a|e|B o f IH|B q f IH|f IH|f IH]; intros k; cbn; try apply HQ.
  - intros [Hl H]. split; [done|]. intros x Hx. by apply IH, H.
  - intros [Hl H]. split; [done|]. intros x. by apply IH.
  - intros H b. by apply IH.
  - intros H t. by apply IH.
Qed.
Lemma wp_attempt {A B} (m : io A) (f : A + string -> io B) Q k :
  wp m (fun x k => wp (f x) Q k) k -> wp (attempt_ m f) Q k.
Proof.
  revert k. induction m as [a|e|C o g IH|C q g IH|g IH|g IH]; intros k; cbn; try done.
  - intros [Hl H]. split; [done|]. intros x Hx. by apply IH, H.
  - intros [Hl H]. split; [done|]. intros x. by apply IH.
  - intros H b. by apply IH.
  - intros H t. by apply IH.
Qed.
Lemma wp_bind {A B} (m : io A) (f : A -> io B) Q k :
  wp m (fun x k => match x with inl a => wp (f a) Q k | inr e => Q (inr e) k end) k -> wp (m ≫= f) Q k.
Proof. intros H. apply wp_attempt. eapply wp_mono; [|exact H]. by intros [a|e]. Qed.
Lemma wp_done {A} (a : A) (Q : A + string -> Known -> Prop) k : Q (inl a) k -> wp (Done a) Q k.
Proof. done. Qed.
Lemma wp_db {A} (o : OpE A) (Q : A + string -> Known -> Prop) k :
  legal token o k -> (forall x, plausible o k x -> Q (inl x) (after o k x)) -> wp (db o) Q k.
Proof. by split. Qed.
(** A question that is not a request. *)
Lemma wp_ask {A} (q : AskE A) (Q : A + string -> Known -> Prop) k : request_of q = None ->
  (forall x, Q x k) -> wp (ask q) Q k.
Proof.
  intros Hq HQ. unfold ask. cbn. unfold legal_ask, after_ask. rewrite Hq. split; [done|]. intros [a|e]; apply HQ.
Qed.

(** A claim stays one. *)
Lemma wp_claimed {A} (m : io A) (Q : A + string -> Known -> Prop) know :
  wp m Q (Claimed know) -> wp m (fun x k => Q x k /\ exists know', k = Claimed know') (Claimed know).
Proof.
  revert know. induction m as [a|e|B o f IH|B q f IH|f IH|f IH]; intros know; cbn; try (intros H; split; [done|by eexists]).
  - intros [Hl H]. split; [done|]. intros x Hx. specialize (H x Hx).
    assert (exists know', after o (Claimed know) x = Claimed know') as [know' E].
    { destruct o; cbn in *; try (by exists know); try done; [destruct requireActiveClaim|destruct x]; eexists; reflexivity. }
    rewrite E in *. by apply IH.
  - intros [Hl H]. split; [done|]. intros x. specialize (H x).
    assert (exists know', after_ask q (Claimed know) = Claimed know') as [know' E].
    { unfold after_ask. destruct (request_of q); [destruct (hold know)|]; eexists; reflexivity. }
    rewrite E in *. by apply IH.
  - intros H b. by apply IH.
  - intros H t. by apply IH.
Qed.

(** *** Parts of the run *)

Context (Hids : NoDup (assetIds S)) (Hnames : forall a, a ∈ assetIds S -> a <> ""%string)
  (Hmax : Z.of_nat total <= ENRICHMENT_PLAN_MAX_ASSETS) (Hstages : NoDup (stages S)).
Abbreviation holding h c := (Claimed (mkKnow true h c)).

Lemma patch_rec r p n : storable r -> rec_of_patch (plan_patch r p n) = mkRec r p.
Proof. intros H. unfold rec_of_patch, plan_patch. cbn [bulk_result bulk_processedUnits]. by rewrite parse_plan_result, Nat2Z.id. Qed.

Lemma wp_acknowledge know (Q : unit + string -> Known -> Prop) : Q (inl tt) (Claimed know) -> wp (acknowledge id token) Q (Claimed know).
Proof. intros H. split; [done|]. by intros x _. Qed.

Lemma wp_proceed know w (Q : bool + string -> Known -> Prop) :
  (is_Some w -> Q (inl true) (Claimed know)) -> Q (inl false) (Claimed know) -> wp (proceed id token w) Q (Claimed know).
Proof.
  intros Ht Hf. destruct w as [[[st can] pau]|]; [|done]. assert (Q (inl true) (Claimed know)) as Hq by (apply Ht; by eexists).
  unfold proceed. destruct (_ || _).
  { apply wp_bind. by apply wp_acknowledge. }
  destruct (negb (is_null pau)); [|done].
  apply wp_bind. apply wp_db; [done|]. intros settled _. destruct settled; [done|].
  apply wp_bind. apply wp_db; [done|]. intros alive _. destruct alive; [done|]. apply wp_bind. by apply wp_acknowledge.
Qed.

Lemma wp_saved h c r p n (Q : bool + string -> Known -> Prop) : storable r -> move h c (mkRec r p) ->
  Q (inl true) (holding (hold_of (mkRec r p)) (mkRec r p)) -> (forall k, Q (inl false) k) ->
  wp (saved id token r p n) Q (holding h c).
Proof.
  intros Hs Hm Ht Hf. unfold saved, write. apply wp_bind. apply wp_db.
  { cbn. split; [done|]. split; [done|]. split; [lia|]. intros _. by rewrite patch_rec. }
  intros [w|] _; cbn [after]; rewrite ?patch_rec by done; apply wp_proceed; auto. by intros [? ?].
Qed.

Lemma wp_saved_lapsed h c r p n (Q : bool + string -> Known -> Prop) :
  (forall k, Q (inl false) k) -> wp (saved id token r p n) Q (Claimed (mkKnow false h c)).
Proof.
  intros Hf. unfold saved, write. apply wp_bind. apply wp_db.
  { cbn. split; [done|]. split; [done|]. split; [lia|done]. }
  intros x Hx. rewrite (Hx eq_refl). apply wp_proceed; [by intros [? ?]|done].
Qed.

Lemma wp_may_work know (Q : bool + string -> Known -> Prop) :
  (forall b, Q (inl b) (Claimed know)) -> (forall e, Q (inr e) (Claimed know)) -> wp (may_work id token) Q (Claimed know).
Proof.
  intros Hb He stopping. destruct stopping; [apply Hb|]. apply wp_bind. apply wp_ask; [done|]. intros [[]|e]; [|apply Hb|apply He].
  apply wp_bind. unfold holdForPausedQueue. apply wp_bind. apply wp_db; [done|]. intros [] _; [apply Hb|]. apply wp_acknowledge, Hb.
Qed.

Lemma wp_skip_all reason todo done_ (Q : StageOutcomes + string -> Known -> Prop) k :
  (forall outcomes, (forall s, is_Some (outcomes !! s) <-> s ∈ todo \/ is_Some (done_ !! s)) -> Q (inl outcomes) k) ->
  wp (skip_all reason todo done_) Q k.
Proof.
  revert done_. induction todo as [|x todo IH]; intros done_ HQ; cbn.
  - apply HQ. intros s. split; [by right|]. intros [H|H]; [by apply not_elem_of_nil in H|done].
  - intros t. apply IH. intros outcomes Ho. apply HQ. intros s. rewrite Ho, elem_of_cons, lookup_insert_is_Some. 
    destruct (decide (x = s)) as [->|]; naive_solver.
Qed.

Definition job_of (owner : string) : PlanRun := mkRun id token owner S.

(** The stages of an asset in hand: each is sent off at most once, and all are answered unless the lease lapsed. *)
Lemma wp_run_stages owner a video todo failed done_ l c (Q : StageOutcomes + string -> Known -> Prop) :
  NoDup todo -> (forall s, s ∈ todo -> (s ∉ l) /\ s ∈ stagesToRetry (find_in a (rec_result c)) (stages S)) ->
  (forall outcomes lv l', (lv = true -> forall s, is_Some (outcomes !! s) <-> s ∈ todo \/ is_Some (done_ !! s)) ->
     Q (inl outcomes) (Claimed (mkKnow lv (InHand a l') c))) ->
  wp (run_stages (job_of owner) a video todo failed done_) Q (holding (InHand a l) c).
Proof.
  revert failed done_ l. induction todo as [|x todo IH]; intros failed done_ l Hn Hl HQ.
  { apply HQ. intros _ s. split; [by right|]. intros [H|H]; [by apply not_elem_of_nil in H|done]. }
  apply NoDup_cons in Hn as [Hx Hn].
  assert (forall o l' f, (forall s, s ∈ todo -> s ∉ l') ->
            wp (run_stages (job_of owner) a video todo f (<[x := o]> done_)) Q (holding (InHand a l') c)) as Hnext.
  { intros o l' f Hl'. apply IH; [done| |].
    - intros s Hs. split; [by apply Hl'|]. apply Hl. apply elem_of_cons. by right.
    - intros outcomes lv l'' Ho. apply HQ. intros E s. rewrite (Ho E), elem_of_cons, lookup_insert_is_Some.
      destruct (decide (x = s)) as [->|]; naive_solver. }
  assert (forall s, s ∈ todo -> s ∉ l) as Hrest by (intros s Hs; apply Hl, elem_of_cons; by right).
  cbn [run_stages]. destruct (negb (stageAppliesTo x video)); [intros t; by apply Hnext|].
  destruct (existsb _ _); [intros t; by apply Hnext|].
  apply wp_attempt.
  assert (forall (y : MomentStageOutcome + string) (l' : list Stage.EnrichmentStage), (forall s, s ∈ todo -> s ∉ l') ->
    wp (Now (fun at_ =>
            let done_ := <[x := EnrichmentPlan.mkOutcome (moment_state (stage_error y)) (moment_reasonKey (stage_error y))
                                      (moment_message (stage_error y)) (Some at_)]> done_ in
            let failed := if bool_decide (moment_state (stage_error y) = Item.Failed) then x :: failed else failed in
            held ← heartbeat (job_of owner);
            if (held : bool) then run_stages (job_of owner) a video todo failed done_ else Done done_)) Q
      (holding (InHand a l') c)) as Hafter.
  { intros y l' Hl' t. apply wp_bind. apply wp_db; [done|]. intros [] _; cbn; [by apply Hnext|]. apply HQ. by intros. }
  destruct (Hl x) as [Hxl Hxs]; [apply elem_of_cons; by left|].
  assert (forall s, s ∈ todo -> s ∉ x :: l) as Hsent.
  { intros s Hs [->|H]%elem_of_cons; [done|by eapply Hrest]. }
  unfold runStage, job_of. destruct x; cbn [run_options run_snapshot];
    try (apply wp_bind; apply wp_ask; [done|]; intros [current|e]; [|by apply Hafter]).
  all: cbn [wp ask]; split; [eexists; exists l; do 4 (split; [done|]); try done|]; try (intros [y|e]; by apply Hafter).
  split; [done|]. split; [done|]. split; [done|]. intros k v Hk Hv. by apply spread_wins.
Qed.

Lemma wp_runAsset owner a c (Q : EnrichmentPlanItem + string -> Known -> Prop) :
  (forall item lv l, itemId item = a -> (lv = true -> answers S (rec_result c) a item) ->
     Q (inl item) (Claimed (mkKnow lv (InHand a l) c))) ->
  (forall e k, Q (inr e) k) ->
  wp (runAsset (job_of owner) a (stagesToRetry (find_in a (rec_result c)) (stages S))) Q (holding (InHand a []) c).
Proof.
  intros HQ He. unfold runAsset.
  assert (forall outcomes lv l, (lv = true -> forall s, is_Some (outcomes !! s) <->
      s ∈ stagesToRetry (find_in a (rec_result c)) (stages S) \/ is_Some ((∅ : StageOutcomes) !! s)) ->
    Q (inl (mkItem a outcomes)) (Claimed (mkKnow lv (InHand a l) c))) as Hitem.
  { intros outcomes lv l Ho. apply HQ; [done|]. intros E. split; [done|]. intros s. cbn. rewrite (Ho E), lookup_empty.
    split; [by intros [?|[? ?]]|by left]. }
  apply wp_bind. apply wp_ask; [done|]. intros [[video|]|e]; [| |apply He].
  - apply wp_bind. apply wp_ask; [done|]. intros [allowed|e]; [|apply He]. apply wp_bind. destruct allowed.
    + apply wp_run_stages; [by apply stagesToRetry_NoDup| |].
      * intros s Hs. split; [apply not_elem_of_nil|done].
      * intros outcomes lv l Ho. by apply Hitem.
    + apply wp_skip_all. intros outcomes Ho. by apply Hitem.
  - apply wp_bind. apply wp_skip_all. intros outcomes Ho. by apply Hitem.
Qed.

(** An asset's turn: marked, run, recorded; [c] is the record between turns. *)
Lemma wp_turn {A} owner a r p q n1 n2 (next : EnrichmentPlanResult -> EnrichmentPlanResult) (k : EnrichmentPlanResult -> io (option A))
    (Q : option A + string -> Known -> Prop) :
  rec_ok S (mkRec r p) -> inFlight r = None -> in_turn S (mkRec r p) = Some a ->
  (forall item, mkRec (next (mergeEnrichmentItem r item)) q = answer S item (mark a (mkRec r p))) ->
  (forall item, answers S r a item -> rec_ok S (mkRec (next (mergeEnrichmentItem r item)) q) ->
     wp (k (next (mergeEnrichmentItem r item))) Q (holding NotInHand (mkRec (next (mergeEnrichmentItem r item)) q))) ->
  (forall x k, (forall v, x <> inl (Some v)) -> Q x k) ->
  wp (work ← may_work id token;
      if negb work then Done None
      else
        marked ← saved id token (set_inFlight (Some a) r) p n1;
        if negb marked then Done None
        else
          result' ← run_in_hand (job_of owner) r a;
          recorded ← saved id token (next result') q n2;
          if negb recorded then Done None else k (next result')) Q (holding NotInHand (mkRec r p)).
Proof.
  intros Hok Hf Ht Hnext Hk HQ.
  assert (write_step S (mkRec r p) (mark a (mkRec r p))) as Hmark by (by apply write_mark).
  pose proof (step_ok S Hids Hmax _ _ Hok Hmark) as Hok1.
  apply wp_bind. apply wp_may_work; [|intros e; by apply HQ]. intros []; [|by apply HQ]. cbn [negb].
  apply wp_bind. apply wp_saved.
  { exact (rec_storable S Hnames _ Hok1). }
  { by apply (move_mark (mkRec r p) a). }
  2:{ intros k0. by apply HQ. }
  cbn [negb]. unfold hold_of. cbn [rec_result inFlight set_inFlight].
  apply wp_bind. unfold run_in_hand. apply wp_bind.
  apply (wp_runAsset owner a (mark a (mkRec r p))); [|intros e k0; by apply HQ].
  intros item lv l Hi Ha. apply wp_done. apply wp_bind.
  destruct lv; [|apply wp_saved_lapsed; intros k0; by apply HQ]. specialize (Ha eq_refl).
  assert (write_step S (mark a (mkRec r p)) (mkRec (next (mergeEnrichmentItem r item)) q)) as Hw.
  { rewrite Hnext. by apply (write_answer S _ a). }
  pose proof (step_ok S Hids Hmax _ _ Hok1 Hw) as Hok2.
  assert (hold_of (mkRec (next (mergeEnrichmentItem r item)) q) = NotInHand) as Hh.
  { rewrite Hnext. unfold hold_of, answer. rewrite advance_inFlight. done. }
  apply wp_saved.
  - exact (rec_storable S Hnames _ Hok2).
  - rewrite Hnext. by apply (move_answer _ a).
  - rewrite Hh. cbn [negb]. by apply Hk.
  - intros k0. by apply HQ.
Qed.

Lemma drop_lookup_cons {A} n (l l' : list A) x : x :: l' = drop n l -> l !! n = Some x /\ l' = drop (n + 1) l.
Proof.
  intros H. split; [by rewrite <- (Nat.add_0_r n), <- lookup_drop, <- H|].
  change l' with (drop 1 (x :: l')). by rewrite H, drop_drop.
Qed.
Lemma drop_nil_length {A} n (l : list A) : [] = drop n l -> (length l <= n)%nat.
Proof. intros H. apply (f_equal length) in H. rewrite length_drop in H. cbn in H. lia. Qed.

Lemma wp_first_pass owner rest r p (Q : option EnrichmentPlanResult + string -> Known -> Prop) :
  rec_ok S (mkRec r p) -> inFlight r = None -> rest = drop p (assetIds S) ->
  (forall r', rec_ok S (mkRec r' total) -> inFlight r' = None -> Q (inl (Some r')) (holding NotInHand (mkRec r' total))) ->
  (forall x k, (forall v, x <> inl (Some v)) -> Q x k) ->
  wp (first_pass (job_of owner) rest r p) Q (holding NotInHand (mkRec r p)).
Proof.
  revert r p. induction rest as [|a rest IH]; intros r p Hok Hf Hrest HQ HN.
  - assert (p = total) as -> by (apply drop_nil_length in Hrest; destruct Hok as [Hp _ _ _]; cbn in Hp; lia). by apply HQ.
  - apply drop_lookup_cons in Hrest as [Ha Hrest]. pose proof (lookup_lt_Some _ _ _ Ha) as Hlt.
    refine (wp_turn owner a r p (Datatypes.S p) total total (set_inFlight None)
              (fun r' => first_pass (job_of owner) rest r' (Datatypes.S p)) Q Hok Hf _ _ _ HN).
    + unfold in_turn. cbn. by rewrite Ha.
    + intros item. unfold answer. rewrite advance_first by done. cbn. f_equal. lia.
    + intros item _ Hok'. apply IH; [done|done| |done|done]. by rewrite Hrest, Nat.add_1_r.
Qed.

Lemma finished_pass r pass : retry r = Some pass -> inFlight r = None -> (length (ids pass) <= cursor pass)%nat ->
  finished (mkRec r total).
Proof.
  intros Hr Hf Hc. split; cbn; [done| | |done].
  - unfold planEnrichmentRetryPass. by rewrite Hr.
  - unfold in_turn. cbn. rewrite lookup_ge_None_2 by lia. rewrite Hr. cbn. by apply lookup_ge_None_2.
Qed.

Lemma wp_retry_pass owner rest pass r (Q : option EnrichmentPlanResult + string -> Known -> Prop) :
  rec_ok S (mkRec r total) -> inFlight r = None -> retry r = Some pass -> rest = drop (cursor pass) (ids pass) ->
  (forall r', finished (mkRec r' total) -> Q (inl (Some r')) (holding NotInHand (mkRec r' total))) ->
  (forall x k, (forall v, x <> inl (Some v)) -> Q x k) ->
  wp (retry_pass (job_of owner) pass rest r) Q (holding NotInHand (mkRec r total)).
Proof.
  revert r pass. induction rest as [|a rest IH]; intros r pass Hok Hf Hr Hrest HQ HN.
  - apply HQ. apply (finished_pass r pass); [done|done|by apply drop_nil_length].
  - apply drop_lookup_cons in Hrest as [Ha Hrest]. pose proof Hok as [_ _ _ Hp]. specialize (Hp pass Hr).
    set (pass' := mkRetry (ids pass) (num_add (retryProcessed pass) (JInt 1))).
    refine (wp_turn owner a r total total total total (fun r' => set_retry (Some pass') (set_inFlight None r'))
              (fun r' => retry_pass (job_of owner) pass' rest r') Q Hok Hf _ _ _ HN).
    + unfold in_turn. cbn. rewrite lookup_ge_None_2 by lia. by rewrite Hr.
    + intros item. unfold answer. rewrite advance_second by done. unfold with_result. cbn. unfold mergeEnrichmentItem, set_retry. cbn. by rewrite Hr.
    + intros item _ Hok'. apply IH; [done|done|done| |done|done]. unfold pass'.
      pose proof (pass_next S Hmax _ _ _ Hp Ha) as En. by rewrite En, cursor_int.
Qed.

Lemma wp_fail_plan know e c (Q : unit + string -> Known -> Prop) : (forall x k, Q x k) -> wp (fail_plan id token e c) Q (Claimed know).
Proof.
  intros HQ. unfold fail_plan. apply wp_bind. apply wp_db; [done|]. intros [] _; [apply HQ|].
  apply wp_bind. apply wp_db; [done|]. intros x _. apply HQ.
Qed.

Lemma wp_finish r (Q : unit + string -> Known -> Prop) : finished (mkRec r total) -> (forall x k, Q x k) ->
  wp (finish id token) Q (holding NotInHand (mkRec r total)).
Proof.
  intros Hfin HQ. unfold finish. apply wp_bind. apply wp_db; [done|]. intros v _. apply wp_bind. destruct v.
  - apply wp_db; [by cbn|]. intros [] _; [apply HQ|]. by apply wp_acknowledge.
  - apply wp_done. by apply wp_acknowledge.
Qed.

Lemma wp_after_first owner r (Q : unit + string -> Known -> Prop) :
  rec_ok S (mkRec r total) -> inFlight r = None -> (forall x k, Q x k) ->
  wp (after_first (job_of owner) r) Q (holding NotInHand (mkRec r total)).
Proof.
  intros Hok Hf HQ. unfold after_first. cbn [run_id run_token run_snapshot job_of].
  destruct (planEnrichmentRetryPass (assetIds S) r) as [planned|] eqn:Ep.
  - assert (write_step S (mkRec r total) (mkRec planned total)) as Hw by (by apply write_plan).
    pose proof (step_ok S Hids Hmax _ _ Hok Hw) as Hok'.
    assert (inFlight planned = None) as Hf' by (apply planned_is in Ep as [_ ->]; done).
    apply wp_bind. apply wp_saved.
    + exact (rec_storable S Hnames _ Hok').
    + by apply (move_plan (mkRec r total)).
    + cbn [negb]. apply wp_bind. apply wp_db; [done|]. intros [] _; [apply HQ|]. unfold hold_of. cbn. rewrite Hf'.
      by apply wp_acknowledge.
    + intros k. apply HQ.
  - apply wp_bind. destruct (retry r) as [pass|] eqn:Er.
    + apply wp_retry_pass; [done|done|done| | |].
      * unfold enrichmentRetryPending. rewrite Er. unfold slice_past, cursor. destruct Hok as [_ _ _ Hp].
        destruct (Hp pass Er) as [_ _ _ [-> _] _]. done.
      * intros r' Hfin. by apply wp_finish.
      * intros [[v|]|e] k Hx; [by destruct (Hx v)|apply HQ|apply HQ].
    + apply wp_done. apply wp_finish; [|done]. split; cbn; [done|done| |done].
      unfold in_turn. cbn. rewrite lookup_ge_None_2 by lia. by rewrite Er.
Qed.

Lemma wp_run r (Q : unit + string -> Known -> Prop) : plan_row r -> (forall x k, Q x k) ->
  wp (run id token r) Q (holding NotInHand (rec_of_row r)).
Proof.
  intros [_ Hs Hp Hok] HQ. unfold run. rewrite Hs.
  assert (claimed_processed S r = rec_processed (rec_of_row r)) as Ep.
  { unfold claimed_processed, plan_total. destruct Hok as [Hle _ _ _]. cbn in *. lia. }
  rewrite Ep. set (c := rec_of_row r) in *.
  assert (mkRec (claimed_result r) (rec_processed c) = clear c) as Ec by done.
  pose proof (step_ok S Hids Hmax _ _ Hok (write_clear S c)) as Hok'.
  apply wp_bind. apply wp_saved.
  - exact (rec_storable S Hnames _ Hok').
  - rewrite Ec. apply move_clear.
  - cbn [negb]. rewrite Ec. unfold hold_of. cbn [inFlight set_inFlight rec_result clear with_result].
    apply wp_bind. apply wp_db; [done|]. intros [] _; cbn [negb].
    + apply wp_bind. apply wp_ask; [done|]. intros [ex|e]; [|apply HQ]. destruct ex; cbn [negb]; [|by apply wp_fail_plan].
      apply wp_bind. apply (wp_first_pass _ _ (claimed_result r)); [done|done|done| |].
      * intros r' Hok2 Hf2. by apply wp_after_first.
      * intros [[v|]|e] k Hx; [by destruct (Hx v)|apply HQ|apply HQ].
    + by apply wp_acknowledge.
  - intros k. apply HQ.
Qed.

(** A turn of the worker only does what it may. *)
Lemma wp_drain_turn worker locked : wp (drain_turn worker id token locked) (fun _ _ => True) Unclaimed.
Proof.
  intros stopping. destruct stopping; [done|]. apply wp_bind. apply wp_ask; [done|]. intros [[]|e]; [done| |done].
  apply wp_bind. apply wp_db; [done|]. intros [r|] Hr; [|done].
  apply wp_attempt. eapply wp_mono; [|apply wp_claimed, (wp_run r (fun _ _ => True) Hr); done].
  intros [u|e] k [_ [know ->]]; [done|]. apply wp_bind. by apply wp_fail_plan; intros [].
Qed.
End program.
End plan.
