(* ===== verification/EnrichmentWorld.v ===== *)
(** * Enrichment plans: every interleaving

    The reachable worlds of one plan: its row in the store, the turns of the workers under way, and what
    has been sent off.  The invariant [Inv] carries through every step, from which: how often a stage can
    be sent off, that a settled outcome stands, that a completed plan is answered, and that a plan whose
    worker is gone is never put back in the queue by recovery. *)

From stdpp Require Import relations.
From S2P Require Import Prelude JsNumber JsString Enums OperationStore OperationLease.
From S2P Require Import EnrichmentPlan EnrichmentRun EnrichmentRecord EnrichmentSafety.
From S2P Require MediaOperation EditOperation RenderAdmission StudioRenderProgress.
Local Open Scope Z_scope.

Section world.
Context (publishable : string -> string -> bool) (preview_fence : Row -> Z -> bool) (preview_frames : Row -> bool).
Abbreviation handle := (handle publishable preview_fence preview_frames).
Context (S : EnrichmentPlanSnapshot) (id : string).

(** ** Worlds *)

(** The store, the database's clock, the turns under way with what each knows, every token ever given to
    one, and, read by nobody: the requests sent, the assets marked, and those a claim found in hand. *)
Record World := mkWorld {
  store : Store;
  time : Z;
  runs : gmap string (io bool * Known);
  given : gset string;
  sent : list Request;
  marks : list string;
  found : list string
}.

Definition marks_of {B} (o : OpE B) : B -> list string :=
  match o in OpE B return B -> list string with
  | SetBulkResult _ _ patch _ => fun x =>
      match x, inFlight (rec_result (rec_of_patch patch)) with Some _, Some a => [a] | _, _ => [] end
  | _ => fun _ => []
  end.
Definition found_of {B} (o : OpE B) : B -> list string :=
  match o in OpE B return B -> list string with
  | ClaimNext _ _ _ _ => fun x =>
      match x ≫= fun r => inFlight (rec_result (rec_of_row r)) with Some a => [a] | None => [] end
  | _ => fun _ => []
  end.

Definition with_run (token : string) (m : io bool) (k : Known) (w : World) : World :=
  mkWorld (store w) (time w) (<[token := (m, k)]> (runs w)) (given w) (sent w) (marks w) (found w).

Definition time_ok (w : World) (t : Times) : Prop := time w <= clock t /\ now t <= clock t.

Inductive step : World -> World -> Prop :=
| step_turn token worker locked w :
    token ∉ given w ->
    step w (mkWorld (store w) (time w) (<[token := (drain_turn worker id token locked, Unclaimed)]> (runs w))
              ({[token]} ∪ given w) (sent w) (marks w) (found w))
| step_db {B} token (o : OpE B) (f : B -> io bool) k t w :
    runs w !! token = Some (Db o f, k) -> time_ok w t ->
    let x := handle t o (store w) in
    step w (mkWorld x.2 (clock t) (<[token := (f x.1, after o k x.1)]> (runs w)) (given w) (sent w)
              (marks_of o x.1 ++ marks w) (found_of o x.1 ++ found w))
| step_ask {B} token (q : AskE B) (f : B + string -> io bool) k x w :
    runs w !! token = Some (Ask q f, k) ->
    step w (mkWorld (store w) (time w) (<[token := (f x, after_ask q k)]> (runs w)) (given w)
              (match request_of q with Some r => r :: sent w | None => sent w end) (marks w) (found w))
(** A stage extends the lease between its frames. *)
| step_beat {B} token (q : AskE B) (f : B + string -> io bool) k t w :
    runs w !! token = Some (Ask q f, k) -> (exists know, k = Claimed know) -> time_ok w t ->
    step w (mkWorld (handle t (Heartbeat id token ENRICHMENT_PLAN_LEASE_MS false) (store w)).2 (clock t) (runs w)
              (given w) (sent w) (marks w) (found w))
| step_stopping token f k b w : runs w !! token = Some (Stopping f, k) -> step w (with_run token (f b) k w)
| step_now token f k text w : runs w !! token = Some (Now f, k) -> step w (with_run token (f text) k w)
| step_vanish token w :
    step w (mkWorld (store w) (time w) (delete token (runs w)) (given w) (sent w) (marks w) (found w))
(** Anybody else: owners, recovery, other jobs and their workers. *)
| step_other {B} (o : OpE B) t w :
    time_ok w t -> not_for_plans id o -> (forall v, v ∈ given w -> ~ carries o id v) ->
    step w (mkWorld (handle t o (store w)).2 (clock t) (runs w) (given w) (sent w) (marks w) (found w)).

(** ** The invariant *)

Definition agrees (c : Z) (r : Row) (token : string) (k : Known) : Prop :=
  match k with
  | Unclaimed => claimToken (claim r) <> Some token
  | Claimed know => claimToken (claim r) = Some token ->
      rec_of_row r = rec know /\ (live know = false -> later (claimExpiresAt (claim r)) c = false)
  end.

Definition is_idle (k : Known) : bool :=
  match k with Claimed know => match hold know with NotInHand => true | _ => false end | Unclaimed => false end.
(** The row's claim is a run's that has nothing in hand. *)
Definition idle (m : gmap string (io bool * Known)) (r : Row) : bool :=
  match claimToken (claim r) ≫= fun v => m !! v with Some mk => is_idle mk.2 | None => false end.
Definition in_hand (a : string) (m : gmap string (io bool * Known)) (r : Row) : nat :=
  if negb (idle m r) && bool_decide (inFlight (rec_result (rec_of_row r)) = Some a) then 1 else 0.

(** A run that has an asset in hand and has not sent a stage of it off. *)
Definition owes (a : string) (s : Stage.EnrichmentStage) (mk : io bool * Known) : bool :=
  match mk.2 with
  | Claimed know => match hold know with
                    | InHand b l => bool_decide (b = a) && negb (includes s l)
                    | NotInHand => false
                    end
  | Unclaimed => false
  end.
Definition same_request (a : string) (s : Stage.EnrichmentStage) (q : Request) : bool :=
  bool_decide (req_asset q = a) && bool_decide (req_stage q = s).
Definition times_sent (a : string) (s : Stage.EnrichmentStage) (w : World) : nat :=
  length (List.filter (same_request a s) (sent w)).

Record Inv (w : World) (r : Row) : Prop := mkInv {
  iv_store : store_ok (store w);
  iv_row : rows (store w) !! id = Some r;
  iv_plan : plan_row S r;
  iv_done : status r = Status.Completed -> finished S (rec_of_row r);
  iv_token : forall v, claimToken (claim r) = Some v -> v ∈ given w;
  iv_runs : forall token m k, runs w !! token = Some (m, k) ->
    token ∈ given w /\ wp S id token m (fun _ _ => True) k /\ agrees (time w) r token k;
  iv_marks : forall a, (count_of a (marks w) <= turns S a (rec_of_row r) + count_of a (found w) + in_hand a (runs w) r)%nat;
  iv_sent : forall a s, (times_sent a s w + count_if (owes a s) (runs w) <= count_of a (marks w))%nat;
  iv_pinned : forall q, q ∈ sent w -> req_stage q ∈ stages S /\ pinned S id q
}.

(** A plan as it is submitted, in any store. *)
Definition submitted (w : World) : Prop :=
  exists r, store_ok (store w) /\ rows (store w) !! id = Some r /\ plan_row S r /\ fresh (rec_of_row r) /\
    status r = Status.Queued /\ runs w = ∅ /\ given w = ∅ /\ sent w = [] /\ marks w = [] /\ found w = [].

Lemma plan_begins w : submitted w -> exists r, Inv w r.
Proof.
  intros (r & Hs & Hr & Hp & Hf & Hq & E1 & E2 & E3 & E4 & E5). exists r.
  assert (claimToken (claim r) = None) as Ht.
  { destruct (Hs id r Hr) as [H _ _ _ _ _ _ _ _ _]. rewrite Hq in H. by destruct (claimToken (claim r)). }
  split; [done..| | | | | |].
  - by rewrite Hq.
  - intros v Hv. congruence.
  - rewrite E1. intros token m k H. by rewrite lookup_empty in H.
  - intros a. rewrite E4. cbn. lia.
  - intros a s. unfold times_sent. by rewrite E3, E1, E4.
  - rewrite E3. intros q Hx. by apply not_elem_of_nil in Hx.
Qed.

(** *** Steps that leave the record alone *)

Lemma in_hand_le a m m' r r' : rec_of_row r' = rec_of_row r -> (idle m r = false -> idle m' r' = false) ->
  (in_hand a m r <= in_hand a m' r')%nat.
Proof.
  intros E Hi. unfold in_hand. rewrite E. destruct (idle m r); cbn; [lia|]. rewrite Hi by done. cbn. lia.
Qed.

(** Nothing known of [r] is lost in [r']. *)
Record quiet (token : option string) (c c' : Z) (r r' : Row) : Prop := mkQuiet {
  qu_time : c <= c';
  qu_request : request r' = request r;
  qu_processed : 0 <= processedUnits (work r');
  qu_rec : rec_of_row r' = rec_of_row r;
  qu_done : status r' = Status.Completed -> status r = Status.Completed \/ finished S (rec_of_row r);
  qu_token : claimToken (claim r') = claimToken (claim r) \/ claimToken (claim r') = None;
  qu_lease : forall v, claimToken (claim r') = Some v -> token <> Some v -> claimExpiresAt (claim r') = claimExpiresAt (claim r)
}.

Lemma later_mono x c c' : c <= c' -> later x c = false -> later x c' = false.
Proof. destruct x; cbn; [|done]. intros Hc H. apply Z.ltb_ge in H. apply Z.ltb_ge. lia. Qed.

Lemma quiet_agrees token c c' r r' v k : quiet token c c' r r' -> token <> Some v -> agrees c r v k -> agrees c' r' v k.
Proof.
  intros [Ht _ _ Hr _ Hv Hl] Hne H. unfold agrees in *. destruct k as [|know].
  - destruct Hv as [->| ->]; [done|discriminate].
  - intros E. assert (claimToken (claim r) = Some v) as E' by (destruct Hv; congruence). destruct (H E') as [H1 H2].
    rewrite Hr, (Hl v E Hne). split; [done|]. intros Hd. apply (later_mono _ c); auto.
Qed.

Lemma left_quiet c c' r r' : c <= c' -> plan_row S r -> left_alone r r' -> quiet None c c' r r'.
Proof.
  intros Hc [_ _ Hp _] [H1 H2 H3 H4]. split; [done|done| | | | |].
  - by rewrite H2.
  - unfold rec_of_row. by rewrite H2.
  - intros H. left. by apply H4.
  - destruct H3 as [[? _]|?]; auto.
  - intros v Hv _. destruct H3 as [[_ ?]|?]; [done|congruence].
Qed.

Lemma quiet_plan token c c' r r' : quiet token c c' r r' -> plan_row S r -> plan_row S r'.
Proof. intros [_ H1 H2 H3 _ _ _] [P0 P1 P2 P3]. split; [by rewrite H1|by rewrite H1|done|by rewrite H3]. Qed.

Lemma count_if_delete_le `{Countable K} {A} (p : A -> bool) (m : gmap K A) i : (count_if p (delete i m) <= count_if p m)%nat.
Proof.
  destruct (m !! i) as [x|] eqn:E; [|by rewrite delete_id].
  rewrite <- (insert_delete_id m i x E) at 2.
  rewrite count_if_fresh by apply lookup_delete_eq. lia.
Qed.

(** *** Keeping the invariant *)

(** A run goes on, what it has in hand unchanged. *)
Definition in_hands (k : Known) : option (Hold * Rec) :=
  match k with Claimed know => Some (hold know, rec know) | Unclaimed => None end.

Lemma owes_same a s m m' k k' : in_hands k' = in_hands k -> owes a s (m', k') = owes a s (m, k).
Proof. unfold owes. destruct k as [|[]], k' as [|[]]; cbn; intros H; by simplify_eq. Qed.
Lemma is_idle_same k k' : in_hands k' = in_hands k -> is_idle k' = is_idle k.
Proof. destruct k as [|[]], k' as [|[]]; cbn; intros H; by simplify_eq. Qed.

Lemma idle_insert (m : gmap string (io bool * Known)) token x y r : m !! token = Some x -> is_idle y.2 = is_idle x.2 ->
  idle (<[token := y]> m) r = idle m r.
Proof.
  intros Hm Hi. unfold idle. destruct (claimToken (claim r)) as [v|]; [|done]. cbn.
  destruct (decide (token = v)) as [->|Hne]; [by rewrite lookup_insert_eq, Hm|by rewrite lookup_insert_ne].
Qed.
Lemma idle_gone m r r' : claimToken (claim r') = claimToken (claim r) \/ claimToken (claim r') = None ->
  idle m r = false -> idle m r' = false.
Proof. unfold idle. intros [->| ->]; done. Qed.

Lemma runs_insert w r token m k m' k' : Inv w r -> runs w !! token = Some (m, k) -> in_hands k' = in_hands k ->
  forall a s, count_if (owes a s) (<[token := (m', k')]> (runs w)) = count_if (owes a s) (runs w).
Proof.
  intros Hi Hm Hk a s. pose proof (count_if_insert (owes a s) (runs w) token (m', k') _ Hm) as H.
  rewrite (owes_same a s m m' k k' Hk) in H. lia.
Qed.

(** The run [token] moves from [m] to [m'] while the row moves quietly from [r] to [r']. *)
Lemma inv_quiet w r token m k m' k' s' c r' :
  Inv w r -> runs w !! token = Some (m, k) -> wp S id token m' (fun _ _ => True) k' -> in_hands k' = in_hands k ->
  store_ok s' -> rows s' !! id = Some r' -> quiet (Some token) (time w) c r r' -> agrees c r' token k' ->
  Inv (mkWorld s' c (<[token := (m', k')]> (runs w)) (given w) (sent w) (marks w) (found w)) r'.
Proof.
  intros Hi Hm Hw Hk Hs Hr Hq Ha. pose proof Hi as [I1 I2 I3 I4 I5 I6 I7 I8 I9]. pose proof Hq as [Q1 Q2 Q3 Q4 Q5 Q6 Q7].
  assert (forall a, (in_hand a (runs w) r <= in_hand a (<[token := (m', k')]> (runs w)) r')%nat) as Hh.
  { intros a. apply in_hand_le; [done|]. intros H. rewrite (idle_insert _ _ (m, k)); [|done|by apply is_idle_same].
    by apply (idle_gone _ r). }
  split; cbn [store time runs given sent marks found].
  - done.
  - done.
  - by eapply quiet_plan.
  - intros H. rewrite Q4. destruct (Q5 H); [by apply I4|done].
  - intros v Hv. apply I5. destruct Q6; congruence.
  - intros v n k0 H. destruct (decide (token = v)) as [<-|Hne].
    + rewrite lookup_insert_eq in H. injection H as <- <-. destruct (I6 _ _ _ Hm) as [? _]. done.
    + rewrite lookup_insert_ne in H by done. destruct (I6 _ _ _ H) as (? & ? & ?). do 2 (split; [done|]).
      eapply quiet_agrees; [done|congruence|done].
  - intros a. rewrite Q4. pose proof (I7 a). pose proof (Hh a). lia.
  - intros a s. rewrite (runs_insert w r token m k m' k') by done. apply I8.
  - done.
Qed.

(** Anybody else's step. *)
Lemma inv_left w r s' c r' : Inv w r -> store_ok s' -> rows s' !! id = Some r' -> left_alone r r' -> time w <= c ->
  Inv (mkWorld s' c (runs w) (given w) (sent w) (marks w) (found w)) r'.
Proof.
  intros Hi Hs Hr Hl Hc. pose proof Hi as [I1 I2 I3 I4 I5 I6 I7 I8 I9].
  pose proof (left_quiet (time w) c r r' Hc I3 Hl) as Hq. pose proof Hq as [Q1 Q2 Q3 Q4 Q5 Q6 Q7].
  split; cbn [store time runs given sent marks found].
  - done.
  - done.
  - by eapply quiet_plan.
  - intros H. rewrite Q4. destruct (Q5 H); [by apply I4|done].
  - intros v Hv. apply I5. destruct Q6; congruence.
  - intros v n k0 H. destruct (I6 _ _ _ H) as (? & ? & ?). do 2 (split; [done|]). eapply quiet_agrees; [done|congruence|done].
  - intros a. rewrite Q4. pose proof (I7 a).
    pose proof (in_hand_le a (runs w) (runs w) r r' Q4 (idle_gone (runs w) r r' Q6)). lia.
  - done.
  - done.
Qed.

Lemma quiet_refl token w r : Inv w r -> quiet token (time w) (time w) r r.
Proof. intros [_ _ [_ _ ? _] _ _ _ _ _ _]. split; auto; lia. Qed.

(** *** The statements of a run *)

Lemma update_cases t f s r : rows s !! id = Some r ->
  (exists r1, f r = Some r1 /\ update_row t id f s = (Some (touch t r1), set_rows (<[id := touch t r1]> (rows s)) s)) \/
  (f r = None /\ update_row t id f s = (None, s)).
Proof. intros E. unfold update_row. rewrite E. cbn. destruct (f r) as [r1|]; [left; by exists r1|by right]. Qed.

Lemma quiet_weaken token c c' r r' : quiet None c c' r r' -> quiet token c c' r r'.
Proof. intros [? ? ? ? ? ? H]. split; try done. intros v Hv _. by apply (H v). Qed.

(** A statement of the run that leaves the row alone. *)
Lemma left_own w r token k s' r' c : Inv w r -> time w <= c -> rows s' !! id = Some r' -> left_alone r r' ->
  agrees (time w) r token k -> quiet (Some token) (time w) c r r' /\ agrees c r' token k.
Proof.
  intros Hi Hc Hr Hl Ha. pose proof (left_quiet (time w) c r r' Hc (iv_plan _ _ Hi) Hl) as Hq.
  split; [by apply quiet_weaken|]. by eapply quiet_agrees.
Qed.

Lemma held_claimed r v : row_ok r -> claimToken (claim r) = Some v -> status_in CLAIMED_MEDIA_OPERATION_STATUSES r = true.
Proof.
  intros [H _ _ _ _ _ _ _ _ _] E. rewrite E in H. cbn in H. unfold is_claimed in H. unfold status_in.
  by destruct (includes (status r) CLAIMED_MEDIA_OPERATION_STATUSES).
Qed.
Lemma later_false_trans x c c' : c <= c' -> later x c = false -> later x c' = true -> False.
Proof. intros Hc H1 H2. rewrite (later_mono _ _ _ Hc H1) in H2. discriminate. Qed.

Lemma heartbeat_own w r token know lease a t :
  Inv w r -> time_ok w t -> agrees (time w) r token (Claimed know) ->
  let x := handle t (Heartbeat id token lease a) (store w) in
  exists r', rows x.2 !! id = Some r' /\ quiet (Some token) (time w) (clock t) r r' /\
    agrees (clock t) r' token (after (Heartbeat id token lease a) (Claimed know) x.1) /\
    agrees (clock t) r' token (Claimed know).
Proof.
  intros Hi [Hc Hn] Ha x. pose proof Hi as [I1 I2 I3 _ _ _ _ _ _]. unfold x. cbn [OperationStore.handle updated fst snd].
  destruct (update_cases t (OperationStore.heartbeat token lease a t) (store w) r I2) as [(r1 & Hf & ->)|[Hf ->]]; cbn [fst snd].
  - apply when_Some in Hf as [H ->]. split_guard H. apply bool_decide_eq_true in H.
    exists (touch t (extended t lease r)). split; [apply lookup_insert_eq|]. cbn [is_null negb].
    assert (agrees (clock t) (touch t (extended t lease r)) token (Claimed know)) as Hk.
    { cbn. intros E. destruct (Ha E) as [H1 H2]. split; [done|]. intros Hd.
      exfalso. eapply later_false_trans; [exact Hc|by apply H2|done]. }
    split; [|split; [|done]].
    + split; cbn; auto; [apply (pr_processed _ _ I3)|]. intros v Hv Hne. congruence.
    + destruct a; [done|]. cbn. rewrite andb_true_r. exact Hk.
  - exists r. split; [done|]. cbn [is_null negb].
    assert (quiet None (time w) (clock t) r r) as Hq by (apply left_quiet; [done|done|apply left_alone_refl]).
    assert (agrees (clock t) r token (Claimed know)) as Hk by (by eapply quiet_agrees).
    split; [by apply quiet_weaken|]. split; [|done].
    destruct a; [done|]. cbn. intros E. destruct (Hk E) as [H1 _]. split; [done|]. intros _.
    unfold OperationStore.heartbeat, when, holds in Hf. rewrite E, bool_decide_true in Hf by done.
    rewrite (held_claimed r token (I1 id r I2) E) in Hf. cbn in Hf. rewrite andb_true_r in Hf.
    by destruct (later _ _).
Qed.

Lemma complete_own w r token know t :
  Inv w r -> time_ok w t -> agrees (time w) r token (Claimed know) -> finished S (rec know) ->
  let x := handle t (CompleteRow id token (mkComplete None None None) false) (store w) in
  exists r', rows x.2 !! id = Some r' /\ quiet (Some token) (time w) (clock t) r r' /\ agrees (clock t) r' token (Claimed know).
Proof.
  intros Hi [Hc Hn] Ha Hfin x. pose proof Hi as [I1 I2 I3 _ _ _ _ _ _]. unfold x. cbn [OperationStore.handle updated snd].
  destruct (update_cases t (complete publishable token (mkComplete None None None) false t) (store w) r I2)
    as [(r1 & Hf & ->)|[Hf ->]]; cbn [snd].
  - apply when_Some in Hf as [H ->]. split_guard H. apply bool_decide_eq_true in H.
    eexists. split; [apply lookup_insert_eq|]. split; [|cbn; discriminate].
    split; cbn; auto; [apply (pr_processed _ _ I3)| |discriminate].
    intros _. right. destruct (Ha H) as [-> _]. exact Hfin.
  - exists r. split; [done|]. apply (left_own w r token _ (store w)); [done|done|done|apply left_alone_refl|done].
Qed.

Lemma report_own w r token know patch t :
  Inv w r -> time_ok w t -> agrees (time w) r token (Claimed know) -> studioRender patch = None ->
  patch_status patch = Status.Rendering -> patch_processedUnits patch = Z.of_nat (rec_processed (rec know)) ->
  let x := handle t (ReportProgress id token patch) (store w) in
  exists r', rows x.2 !! id = Some r' /\ quiet (Some token) (time w) (clock t) r r' /\ agrees (clock t) r' token (Claimed know).
Proof.
  intros Hi [Hc Hn] Ha Hp1 Hp2 Hp3 x. pose proof Hi as [I1 I2 I3 _ _ _ _ _ _]. unfold x. cbn [OperationStore.handle updated snd].
  destruct (update_cases t (reportProgress token patch t) (store w) r I2) as [(r1 & Hf & ->)|[Hf ->]]; cbn [snd].
  - unfold reportProgress, render_result in Hf. rewrite Hp1, Hp2 in Hf. cbn [PROGRESS_FROM] in Hf.
    apply when_Some in Hf as [H ->]. split_guard H. apply bool_decide_eq_true in H. destruct (Ha H) as [H1 H2].
    eexists. split; [apply lookup_insert_eq|].
    assert (rec_of_row r = mkRec (parseEnrichmentPlanResult (OperationStore.result (work r))) (Z.to_nat (patch_processedUnits patch))) as E.
    { rewrite Hp3, Nat2Z.id, <- H1. done. }
    split; [|cbn; intros _; split; [by rewrite <- H1, E|intros Hd; by apply (later_mono _ (time w)), H2]].
    split; cbn; auto; [lia|discriminate].
  - exists r. split; [done|]. apply (left_own w r token _ (store w)); [done|done|done|apply left_alone_refl|done].
Qed.

(** Every statement of a claim but the writing of its record. *)
Definition writes_record {B} (o : OpE B) : bool := match o with SetBulkResult _ _ _ _ => true | _ => false end.

Lemma own_quiet {B} (o : OpE B) w r token know t :
  Inv w r -> time_ok w t -> agrees (time w) r token (Claimed know) -> legal S id token o (Claimed know) ->
  writes_record o = false ->
  let x := handle t o (store w) in
  exists r', rows x.2 !! id = Some r' /\ quiet (Some token) (time w) (clock t) r r' /\
    agrees (clock t) r' token (after o (Claimed know) x.1) /\
    in_hands (after o (Claimed know) x.1) = in_hands (Claimed know) /\ marks_of o x.1 = [] /\ found_of o x.1 = [].
Proof.
  intros Hi Ht Ha Hl Hw x. pose proof Hi as [I1 I2 I3 _ _ _ _ _ _].
  assert (forall f, leaves f -> exists r', rows (update_row t id f (store w)).2 !! id = Some r' /\
            quiet (Some token) (time w) (clock t) r r' /\ agrees (clock t) r' token (Claimed know)) as Hleave.
  { intros f Hf. destruct (left_update_row id t id f (store w) r I2) as (r' & Hr' & Hla); [by intros _|].
    exists r'. split; [done|]. by apply (left_own w r token _ (update_row t id f (store w)).2); [done|apply Ht|..]. }
  destruct o; cbn [legal] in Hl; try done.
  - destruct Hl as [-> ->]. destruct (heartbeat_own w r token know lease requireActiveClaim t Hi Ht Ha) as (r' & ? & ? & ? & _).
    exists r'. do 3 (split; [done|]). split; [|done]. by destruct requireActiveClaim.
  - destruct Hl as (-> & -> & H1 & H2 & H3). destruct (report_own w r token know patch t) as (r' & ? & ? & ?); try done. by exists r'.
  - destruct requireActiveClaim; [done|]. destruct Hl as [-> ->].
    destruct (Hleave (beginValidation token false t)) as (r' & ? & ? & ?); [auto with leaves|]. by exists r'.
  - destruct requireActiveClaim; [done|]. destruct Hl as (-> & -> & -> & H1 & H2 & H3).
    destruct (complete_own w r token know t) as (r' & ? & ? & ?); try done. by exists r'.
  - destruct Hl as [-> ->]. destruct (Hleave (fail_retry token failure resumable requireActiveClaim t)) as (r' & ? & ? & ?);
      [auto with leaves|]. by exists r'.
  - destruct Hl as [-> ->]. destruct (Hleave (fail_final token failure requireActiveClaim t)) as (r' & ? & ? & ?);
      [auto with leaves|]. by exists r'.
  - destruct Hl as [-> ->]. destruct (Hleave (requeue token delayMs returnAttempt requireActiveClaim t)) as (r' & ? & ? & ?);
      [auto with leaves|]. by exists r'.
  - destruct Hl as [-> ->]. destruct (Hleave (acknowledgeCancel preview_fence token released_ requireActiveClaim t)) as (r' & ? & ? & ?);
      [auto with leaves|]. by exists r'.
  - destruct Hl as [-> ->]. destruct (Hleave (settlePause token t)) as (r' & ? & ? & ?); [auto with leaves|]. by exists r'.
Qed.

Context (Hids : NoDup (assetIds S)) (Hmax : Z.of_nat (length (assetIds S)) <= ENRICHMENT_PLAN_MAX_ASSETS).

(** *** A record is written *)

Definition next_rec (r r' : Row) : Prop :=
  rec_of_row r' = rec_of_row r \/ write_step S (rec_of_row r) (rec_of_row r').

Lemma turns_clear a c : turns S a (clear c) = turns S a c.
Proof. done. Qed.
Lemma turns_mark a b c : turns S a (mark b c) = turns S a c.
Proof. done. Qed.

Lemma count_of_cons a b l : count_of a (b :: l) = (tally (bool_decide (b = a)) + count_of a l)%nat.
Proof. unfold count_of. cbn. by destruct (bool_decide (b = a)). Qed.

(** The marks are accounted for by the record after the write, given that they were before it. *)
Lemma move_marks a h c c' (fnd : nat) (mks : list string) :
  rec_ok S c -> move S h c c' ->
  (forall b l, h = InHand b l -> inFlight (rec_result c) = Some b) ->
  (count_of a mks <= turns S a c + fnd + (if match h with NotInHand => false | _ => bool_decide (inFlight (rec_result c) = Some a) end then 1 else 0))%nat ->
  (count_of a (match inFlight (rec_result c') with Some b => [b] | None => [] end ++ mks) <=
   turns S a c' + fnd + (if match hold_of c' with NotInHand => false | _ => bool_decide (inFlight (rec_result c') = Some a) end then 1 else 0))%nat.
Proof.
  intros Hok Hm Hh. destruct Hm as [c|c b Hf Ht|c b l item Hf Ht Hi|c r Hf Hp Hpl].
  - unfold hold_of. cbn [clear with_result rec_result inFlight set_inFlight app]. rewrite turns_clear. lia.
  - intros H. unfold hold_of. cbn [mark with_result rec_result inFlight set_inFlight]. cbn [app].
    rewrite count_of_cons, turns_mark. unfold tally. case_bool_decide as E; case_bool_decide as E'; try lia. congruence.
  - rewrite (turns_answer S Hmax a b item c Hok Ht). unfold hold_of, answer. rewrite advance_inFlight. cbn [app with_result rec_result mergeEnrichmentItem set_inFlight inFlight].
    rewrite Hf. case_bool_decide as E; case_decide as E'; try lia. congruence.
  - rewrite (turns_plan S a c r Hpl).
    unfold hold_of. cbn [rec_result]. assert (inFlight r = None) as -> by (apply planned_is in Hpl as [_ ->]; done). cbn [app]. lia.
Qed.

Lemma in_hand_held a m r token n k : claimToken (claim r) = Some token -> m !! token = Some (n, k) ->
  in_hand a m r = if negb (is_idle k) && bool_decide (inFlight (rec_result (rec_of_row r)) = Some a) then 1%nat else 0%nat.
Proof. intros Ht Hm. unfold in_hand, idle. rewrite Ht. cbn. by rewrite Hm. Qed.

(** A hold is of the asset its record marks. *)
Definition hold_true (k : Known) : Prop :=
  match k with
  | Claimed know => forall b l, live know = true -> hold know = InHand b l -> inFlight (rec_result (rec know)) = Some b
  | Unclaimed => True
  end.

Lemma move_hold h c c' b l : move S h c c' -> h = InHand b l -> inFlight (rec_result c) = Some b.
Proof. destruct 1; try discriminate. intros [= -> ->]. done. Qed.
Lemma is_idle_hold b c h : is_idle (Claimed (mkKnow b h c)) = match h with NotInHand => true | _ => false end.
Proof. done. Qed.

Lemma owes_fresh a s m lv b c : owes a s (m, Claimed (mkKnow lv (InHand b []) c)) = bool_decide (b = a).
Proof. unfold owes. cbn. rewrite andb_true_r. done. Qed.
Lemma owes_none a s m lv c : owes a s (m, Claimed (mkKnow lv NotInHand c)) = false.
Proof. done. Qed.

Lemma inv_write w r token know patch (f : option MediaOperationWriteState -> io bool) t :
  Inv w r -> runs w !! token = Some (Db (SetBulkResult id token patch false) f, Claimed know) -> time_ok w t ->
  let x := handle t (SetBulkResult id token patch false) (store w) in
  exists r', next_rec r r' /\ Inv (mkWorld x.2 (clock t)
     (<[token := (f x.1, after (SetBulkResult id token patch false) (Claimed know) x.1)]> (runs w)) (given w) (sent w)
     (marks_of (SetBulkResult id token patch false) x.1 ++ marks w) (found w)) r'.
Proof.
  intros Hi Hm [Hc Hn] x. pose proof Hi as [I1 I2 I3 I4 I5 I6 I7 I8 I9].
  destruct (I6 _ _ _ Hm) as (Hg & [Hl Hw] & Ha). cbn [legal] in Hl. destruct Hl as (_ & _ & Hp & Hmove).
  destruct (handle_moves publishable preview_fence preview_frames t (SetBulkResult id token patch false) (store w) I1) as [Hs' _].
  unfold x. cbn [OperationStore.handle] in *.
  destruct (update_cases t (setBulkResult token patch false t) (store w) r I2) as [(r1 & Hf & E)|[Hf E]]; rewrite E in *; cbn [fst snd fmap option_fmap option_map] in *.
  - apply when_Some in Hf as [H ->]. split_guard H. apply bool_decide_eq_true in H. destruct (Ha H) as [Hrec Hlapsed].
    assert (live know = true) as Hlive.
    { destruct (live know); [done|]. exfalso. eapply later_false_trans; [exact Hc|by apply Hlapsed|done]. }
    specialize (Hmove Hlive). set (r' := touch t _). exists r'.
    assert (rec_of_row r' = rec_of_patch patch) as Hr' by done.
    pose proof (move_step S _ _ _ Hmove) as Hstep.
    assert (rec_ok S (rec know)) as Hok by (rewrite <- Hrec; apply (pr_rec _ _ I3)).
    assert (rec_ok S (rec_of_patch patch)) as Hok' by (by eapply step_ok).
    split; [right; by rewrite Hr', Hrec|].
    split; cbn [store time runs given sent marks found].
    + done.
    + apply lookup_insert_eq.
    + destruct I3 as [P0 P1 P2 P3]. split; [done|done|done|]. by rewrite Hr'.
    + intros Hst. exfalso. change (status r' = Status.Completed) with (status r = Status.Completed) in Hst.
      unfold status_in in *. by rewrite Hst in *.
    + intros v Hv. by apply I5.
    + intros v m k Hv. destruct (decide (token = v)) as [<-|Hne].
      * rewrite lookup_insert_eq in Hv. injection Hv as <- <-. split; [done|]. split.
        -- apply (Hw (Some _)). cbn. congruence.
        -- intros _. split; [done|]. cbn. congruence.
      * rewrite lookup_insert_ne in Hv by done. destruct (I6 _ _ _ Hv) as (? & ? & Hag). do 2 (split; [done|]).
        destruct k as [|know']; cbn in *; [congruence|]. intros Hv'. congruence.
    + intros a. rewrite Hr'. rewrite (in_hand_held a _ r' token (f (Some (status r', cancelRequestedAt (stop r'), pauseRequestedAt (stop r'))))
         (Claimed (mkKnow (live know) (hold_of (rec_of_patch patch)) (rec_of_patch patch)))); [|done|apply lookup_insert_eq].
      rewrite Hr', is_idle_hold. specialize (I7 a). rewrite (in_hand_held a _ r token _ _ H Hm), Hrec in I7.
      pose proof (move_marks a _ _ _ (count_of a (found w)) (marks w) Hok Hmove
        (fun b l => move_hold _ _ _ b l Hmove)) as Hcount.
      cbn [marks_of]. destruct know as [lv h c]. cbn [hold rec is_idle] in *.
      destruct (hold_of (rec_of_patch patch)), h; cbn [negb andb] in *; by apply Hcount.
    + intros a s0. unfold times_sent. cbn [sent marks]. specialize (I8 a s0). unfold times_sent in I8.
      pose proof (count_if_insert (owes a s0) (runs w) token
        (f (Some (status r', cancelRequestedAt (stop r'), pauseRequestedAt (stop r'))),
         Claimed (mkKnow (live know) (hold_of (rec_of_patch patch)) (rec_of_patch patch))) _ Hm) as Hcount.
      match type of Hcount with (?n + _ = _)%nat => match goal with |- (_ + ?n' <= _)%nat => change n' with n end end.
      cbn [marks_of]. unfold hold_of in *. destruct (inFlight (rec_result (rec_of_patch patch))) as [b|]; cbn [app].
      * rewrite count_of_cons. rewrite owes_fresh in Hcount.
        lia.
      * rewrite owes_none in Hcount. cbn [tally] in Hcount. lia.
    + done.
  - exists r. split; [by left|]. eapply inv_quiet; try done.
    + apply (Hw None). done.
    + apply quiet_weaken, left_quiet; [done|done|apply left_alone_refl].
    + eapply (quiet_agrees None); [|done|exact Ha]. apply left_quiet; [done|done|apply left_alone_refl].
Qed.

(** *** A plan is claimed *)

Lemma inv_claim w r token o locked (f : option Row -> io bool) t :
  Inv w r -> runs w !! token = Some (Db (ClaimNext id o token locked) f, Unclaimed) -> time_ok w t ->
  let x := handle t (ClaimNext id o token locked) (store w) in
  exists r', next_rec r r' /\ Inv (mkWorld x.2 (clock t)
     (<[token := (f x.1, after (ClaimNext id o token locked) Unclaimed x.1)]> (runs w)) (given w) (sent w)
     (marks w) (found_of (ClaimNext id o token locked) x.1 ++ found w)) r'.
Proof.
  intros Hi Hm [Hc Hn] x. pose proof Hi as [I1 I2 I3 I4 I5 I6 I7 I8 I9].
  destruct (I6 _ _ _ Hm) as (Hg & [Hl Hw] & Ha).
  destruct (handle_moves publishable preview_fence preview_frames t (ClaimNext id o token locked) (store w) I1) as [Hs' _].
  unfold x. rewrite claimNext_update in *.
  assert (rows (store w) !! id = Some r -> exists r', next_rec r r' /\ Inv (mkWorld (store w) (clock t) (<[token := (f None, Unclaimed)]> (runs w))
     (given w) (sent w) (marks w) (found w)) r') as Hnone.
  { intros _. exists r. split; [by left|]. apply (inv_quiet w r token _ Unclaimed _ Unclaimed (store w) (clock t) r Hi Hm); try done.
    - by apply (Hw None).
    - apply quiet_weaken, left_quiet; [done|done|apply left_alone_refl]. }
  destruct (oldest _ _ _); [|by apply Hnone].
  destruct (update_cases t (fun r => when (claimable o t r && negb (locked id)) (taken (workerId o) token (leaseMs o) t r)) (store w) r I2)
    as [(r1 & Hf & E)|[Hf E]]; rewrite E in *; cbn [fst snd] in *; [|by apply Hnone].
  apply when_Some in Hf as [H ->]. split_guard H. unfold claimable in H. split_guard H. apply bool_decide_eq_true in H.
  assert (claimToken (claim r) = None) as Ht.
  { destruct (I1 id r I2) as [Hx _ _ _ _ _ _ _ _ _]. rewrite H in Hx. by destruct (claimToken (claim r)). }
  set (r' := touch t _). exists r'.
  assert (rec_of_row r' = rec_of_row r) as Hr' by done.
  assert (plan_row S r') as Hp' by (destruct I3 as [P0 P1 P2 P3]; by split).
  split; [by left|].
  split; cbn [store time runs given sent marks found].
  - done.
  - apply lookup_insert_eq.
  - done.
  - discriminate.
  - intros v [= <-]. done.
  - intros v m k Hv. destruct (decide (token = v)) as [<-|Hne].
    + rewrite lookup_insert_eq in Hv. injection Hv as <- <-. split; [done|]. split; [by apply (Hw (Some r'))|].
      intros _. split; [done|discriminate].
    + rewrite lookup_insert_ne in Hv by done. destruct (I6 _ _ _ Hv) as (? & ? & Hag). do 2 (split; [done|]).
      destruct k as [|know']; cbn; [congruence|]. intros Hv'. congruence.
  - intros a. rewrite Hr'. specialize (I7 a).
    rewrite (in_hand_held a _ r' token (f (Some r')) (Claimed (mkKnow true NotInHand (rec_of_row r')))); [|done|apply lookup_insert_eq].
    rewrite is_idle_hold. cbn [negb andb found_of mbind option_bind]. rewrite Hr'.
    unfold in_hand, idle in I7. rewrite Ht in I7. cbn [mbind option_bind negb andb] in I7.
    destruct (inFlight (rec_result (rec_of_row r))) as [b|].
    + cbn [app]. rewrite count_of_cons. unfold tally.
      destruct (decide (b = a)) as [->|Hne]; [rewrite !bool_decide_true in * by done|rewrite !bool_decide_false in * by congruence]; lia.
    + cbn [app]. rewrite bool_decide_false in I7 by done. lia.
  - intros a s0. specialize (I8 a s0). unfold times_sent in *. cbn [sent].
    pose proof (count_if_insert (owes a s0) (runs w) token
        (f (Some r'), Claimed (mkKnow true NotInHand (rec_of_row r'))) _ Hm) as Hcount.
    match type of Hcount with (?n + _ = _)%nat => match goal with |- (_ + ?n' <= _)%nat => change n' with n end end.
    cbn in Hcount. lia.
  - done.
Qed.

(** *** A request is sent *)

Lemma inv_ask {B} w r token (q : AskE B) (f : B + string -> io bool) k x :
  Inv w r -> runs w !! token = Some (Ask q f, k) ->
  Inv (mkWorld (store w) (time w) (<[token := (f x, after_ask q k)]> (runs w)) (given w)
              (match request_of q with Some r => r :: sent w | None => sent w end) (marks w) (found w)) r.
Proof.
  intros Hi Hm. pose proof Hi as [I1 I2 I3 I4 I5 I6 I7 I8 I9]. destruct (I6 _ _ _ Hm) as (Hg & [Hl Hw] & Ha).
  assert (in_hands (after_ask q k) = in_hands k \/ exists req, request_of q = Some req) as [Hsame|[req Hreq]].
  { unfold after_ask. destruct (request_of q); [right; by eexists|by left]. }
  - destruct (request_of q) as [req|] eqn:Eq.
    { exfalso. unfold legal_ask in Hl. rewrite Eq in Hl. destruct Hl as (know & l & -> & Hh & _).
      unfold after_ask in Hsame. rewrite Eq, Hh in Hsame. cbn in Hsame. rewrite Hh in Hsame. injection Hsame as E.
      apply (f_equal length) in E. cbn in E. lia. }
    eapply inv_quiet; [done|done|apply Hw|done|done|done|by apply quiet_refl|].
    unfold after_ask in *. by rewrite Eq in *.
  - rewrite Hreq. unfold legal_ask in Hl. rewrite Hreq in Hl.
    destruct Hl as (know & l & -> & Hh & Hnew & Hto & Hpin). unfold after_ask in *. rewrite Hreq, Hh in *.
    split; cbn [store time runs given sent marks found]; try done.
    + intros v m k Hv. destruct (decide (token = v)) as [<-|Hne].
      * rewrite lookup_insert_eq in Hv. injection Hv as <- <-. split; [done|]. split; [apply Hw|exact Ha].
      * rewrite lookup_insert_ne in Hv by done. by apply I6.
    + intros a. pose proof (I7 a) as H. unfold in_hand in *. rewrite (idle_insert _ _ _ _ _ Hm); [exact H|].
      cbn. by rewrite Hh.
    + intros a s0. specialize (I8 a s0). unfold times_sent in *. cbn [sent List.filter].
      pose proof (count_if_insert (owes a s0) (runs w) token
        (f x, Claimed (mkKnow (live know) (InHand (req_asset req) (req_stage req :: l)) (rec know))) _ Hm) as Hcount.
      assert (owes a s0 (Ask q f, Claimed know) = bool_decide (req_asset req = a) && negb (includes s0 l)) as E1
        by (unfold owes; cbn; by rewrite Hh).
      assert (owes a s0 (f x, Claimed (mkKnow (live know) (InHand (req_asset req) (req_stage req :: l)) (rec know))) =
              bool_decide (req_asset req = a) && negb (includes s0 (req_stage req :: l))) as E2 by done.
      rewrite E1, E2 in Hcount. unfold same_request at 1.
      assert (includes s0 (req_stage req :: l) = bool_decide (req_stage req = s0) || includes s0 l) as Einc.
      { apply eq_true_iff_eq. rewrite orb_true_iff, !includes_true, elem_of_cons, bool_decide_eq_true.
        split; (intros [?|?]; [left; congruence|by right]). }
      rewrite Einc in Hcount. destruct (bool_decide (req_asset req = a)); cbn [andb] in *; [|cbn [tally] in Hcount; lia].
      destruct (bool_decide_reflect (req_stage req = s0)) as [Es|Es]; cbn [orb negb andb tally length] in *; [|destruct (includes s0 l); cbn [tally negb] in *; lia].
      assert (includes s0 l = false) as Hin by (apply includes_false; congruence).
      rewrite Hin in Hcount. cbn [tally negb] in Hcount. lia.
    + intros q0 [->|Hq]%elem_of_cons; [|by apply I9]. split; [|done]. by apply stagesToRetry_elem in Hto as [? _].
Qed.

(** ** The invariant is carried through every step *)

Context (Hnames : forall a, a ∈ assetIds S -> a <> ""%string) (Hstages : NoDup (stages S)).

Lemma inv_turn w r token worker locked : Inv w r -> token ∉ given w ->
  Inv (mkWorld (store w) (time w) (<[token := (drain_turn worker id token locked, Unclaimed)]> (runs w))
         ({[token]} ∪ given w) (sent w) (marks w) (found w)) r.
Proof.
  intros Hi Hnew. pose proof Hi as [I1 I2 I3 I4 I5 I6 I7 I8 I9].
  assert (runs w !! token = None) as Hm.
  { destruct (runs w !! token) as [[m k]|] eqn:E; [|done]. destruct (I6 _ _ _ E) as [? _]. done. }
  split; cbn [store time runs given sent marks found]; try done.
  - intros v Hv. apply elem_of_union_r. by apply I5.
  - intros v m k Hv. destruct (decide (token = v)) as [<-|Hne].
    + rewrite lookup_insert_eq in Hv. injection Hv as <- <-. split; [by apply elem_of_union_l, elem_of_singleton|].
      split; [by apply wp_drain_turn|]. intros E. by apply Hnew, I5.
    + rewrite lookup_insert_ne in Hv by done. destruct (I6 _ _ _ Hv) as (? & ? & ?). split; [by apply elem_of_union_r|done].
  - intros a. pose proof (I7 a) as H. unfold in_hand in *.
    assert (idle (<[token := (drain_turn worker id token locked, Unclaimed)]> (runs w)) r = idle (runs w) r) as ->; [|done].
    unfold idle. destruct (claimToken (claim r)) as [v|] eqn:Ev; [|done]. cbn. rewrite lookup_insert_ne; [done|].
    intros ->. by apply Hnew, I5.
  - intros a s. unfold times_sent in *. cbn [sent]. rewrite count_if_fresh by done. apply I8.
Qed.

Lemma inv_vanish w r token : Inv w r ->
  Inv (mkWorld (store w) (time w) (delete token (runs w)) (given w) (sent w) (marks w) (found w)) r.
Proof.
  intros Hi. pose proof Hi as [I1 I2 I3 I4 I5 I6 I7 I8 I9]. split; cbn [store time runs given sent marks found]; try done.
  - intros v m k Hv. apply lookup_delete_Some in Hv as [_ Hv]. by apply I6.
  - intros a. pose proof (I7 a) as H.
    assert (in_hand a (runs w) r <= in_hand a (delete token (runs w)) r)%nat; [|lia].
    apply in_hand_le; [done|]. unfold idle. destruct (claimToken (claim r)) as [v|]; [|done]. cbn.
    destruct (decide (token = v)) as [->|Hne]; [by rewrite lookup_delete_eq|by rewrite lookup_delete_ne].
  - intros a s. pose proof (I8 a s). pose proof (count_if_delete_le (owes a s) (runs w) token).
    unfold times_sent in *. cbn [sent]. lia.
Qed.

Lemma inv_db {B} w r token (o : OpE B) (f : B -> io bool) k t :
  Inv w r -> runs w !! token = Some (Db o f, k) -> time_ok w t ->
  let x := handle t o (store w) in
  exists r', next_rec r r' /\ Inv (mkWorld x.2 (clock t) (<[token := (f x.1, after o k x.1)]> (runs w)) (given w) (sent w)
              (marks_of o x.1 ++ marks w) (found_of o x.1 ++ found w)) r'.
Proof.
  intros Hi Hm Ht x. pose proof Hi as [I1 I2 I3 I4 I5 I6 I7 I8 I9]. destruct (I6 _ _ _ Hm) as (Hg & [Hl Hw] & Ha).
  destruct k as [|know].
  { destruct o; try done; try by destruct requireActiveClaim. destruct Hl as [-> ->]. exact (inv_claim w r token o locked f t Hi Hm Ht). }
  destruct (writes_record o) eqn:Ew.
  { destruct o; try done. destruct requireActiveClaim; [done|]. destruct Hl as (-> & -> & _). exact (inv_write w r token know patch f t Hi Hm Ht). }
  destruct (own_quiet o w r token know t Hi Ht Ha Hl Ew) as (r' & H1 & H2 & H3 & H4 & H5 & H6).
  destruct (handle_moves publishable preview_fence preview_frames t o (store w) I1) as [Hs' _].
  exists r'. split; [left; by destruct H2|]. unfold x. rewrite H5, H6. cbn [app]. eapply inv_quiet; [done|done| |done|done|done|done|done].
  apply Hw. by destruct o.
Qed.

Lemma inv_step w w' r : Inv w r -> step w w' -> exists r', next_rec r r' /\ Inv w' r'.
Proof.
  intros Hi H. pose proof Hi as [I1 I2 I3 I4 I5 I6 I7 I8 I9].
  destruct H as [token worker locked w Hnew|B token o f k t w Hm Ht x|B token q f k x w Hm|B token q f k t w Hm [know ->] Ht
    |token f k b w Hm|token f k text w Hm|token w|B o t w [Ht _] Hn Hc].
  - exists r. split; [by left|]. by apply inv_turn.
  - exact (inv_db w r token o f k t Hi Hm Ht).
  - exists r. split; [by left|]. by apply inv_ask.
  - destruct (I6 _ _ _ Hm) as (Hg & Hw & Ha).
    destruct (heartbeat_own w r token know ENRICHMENT_PLAN_LEASE_MS false t Hi Ht Ha) as (r' & H1 & H2 & _ & H3).
    destruct (handle_moves publishable preview_fence preview_frames t (Heartbeat id token ENRICHMENT_PLAN_LEASE_MS false) (store w) I1) as [Hs' _].
    pose proof (inv_quiet w r token _ _ _ _ _ _ r' Hi Hm Hw eq_refl Hs' H1 H2 H3) as Hnew.
    rewrite insert_id in Hnew by done. exists r'. split; [left; by destruct H2|done].
  - exists r. split; [by left|]. destruct (I6 _ _ _ Hm) as (Hg & Hw & Ha).
    apply (inv_quiet w r token _ _ _ _ (store w) (time w) r Hi Hm (Hw b)); try done. by apply quiet_refl.
  - exists r. split; [by left|]. destruct (I6 _ _ _ Hm) as (Hg & Hw & Ha).
    apply (inv_quiet w r token _ _ _ _ (store w) (time w) r Hi Hm (Hw text)); try done. by apply quiet_refl.
  - exists r. split; [by left|]. by apply inv_vanish.
  - destruct (other_row publishable preview_fence preview_frames id o t (store w) r I1 I2 (pr_kind _ _ I3) Hn) as (r' & H1 & H2).
    { intros v Hv. by apply Hc, I5. }
    destruct (handle_moves publishable preview_fence preview_frames t o (store w) I1) as [Hs' _].
    exists r'. split; [left; destruct H2 as [_ H2 _ _]; unfold rec_of_row; by rewrite H2|]. by apply (inv_left w r).
Qed.

Definition reachable (w : World) : Prop := exists w0, submitted w0 /\ rtc step w0 w.
Lemma inv_steps w w' r : Inv w r -> rtc step w w' ->
  exists r', Inv w' r' /\ forall a s o, settled (rec_result (rec_of_row r)) a s o -> settled (rec_result (rec_of_row r')) a s o.
Proof.
  intros Hi H. revert r Hi. induction H as [w|w w1 w' Hs _ IH]; intros r Hi; [by exists r|].
  destruct (inv_step _ _ _ Hi Hs) as (r1 & Hn & H1). destruct (IH r1 H1) as (r' & H2 & H3). exists r'. split; [done|].
  intros a s o Ho. apply H3. destruct Hn as [->|Hn]; [done|by eapply settled_stands].
Qed.
End world.
