(* ===== verification/EnrichmentAlone.v ===== *)
(** * Enrichment plans: a plan left alone completes

    One worker runs a turn with nobody in between ([play], a path of [EnrichmentWorld.step]); whatever the
    stages answer or throw, a claimable plan is completed by it, or put back in the queue once for its
    failures and completed by the next turn. *)

From stdpp Require Import relations.
From S2P Require Import Prelude JsNumber JsString Enums OperationStore OperationLease.
From S2P Require Import EnrichmentPlan EnrichmentRun EnrichmentRecord EnrichmentSafety EnrichmentWorld.
From S2P Require MediaOperation EditOperation RenderAdmission StudioRenderProgress.
Local Open Scope Z_scope.

Section play.
Context (publishable : string -> string -> bool) (preview_fence : Row -> Z -> bool) (preview_frames : Row -> bool).
Abbreviation handle := (handle publishable preview_fence preview_frames).
Context (id : string) (t : Times) (oracle : forall B, AskE B -> B + string) (text : string).

(** A program run at one time, the questions answered by [oracle]: what it ends with, and the store. *)
Fixpoint outcome {A} (m : io A) (s : Store) : (A + string) * Store :=
  match m with
  | Done a => (inl a, s)
  | Raise e => (inr e, s)
  | Db o f => let x := handle t o s in outcome (f x.1) x.2
  | Ask q f => outcome (f (oracle _ q)) s
  | Stopping f => outcome (f false) s
  | Now f => outcome (f text) s
  end.

(** The same as steps of the world. *)
Fixpoint play (token : string) (m : io bool) (k : Known) (w : World) : World :=
  match m with
  | Done _ | Raise _ => w
  | Db o f =>
      let x := handle t o (store w) in
      play token (f x.1) (after o k x.1)
        (mkWorld x.2 (clock t) (<[token := (f x.1, after o k x.1)]> (runs w)) (given w) (sent w)
           (marks_of o x.1 ++ marks w) (found_of o x.1 ++ found w))
  | Ask q f =>
      play token (f (oracle _ q)) (after_ask q k)
        (mkWorld (store w) (time w) (<[token := (f (oracle _ q), after_ask q k)]> (runs w)) (given w)
           (match request_of q with Some r => r :: sent w | None => sent w end) (marks w) (found w))
  | Stopping f => play token (f false) k (with_run token (f false) k w)
  | Now f => play token (f text) k (with_run token (f text) k w)
  end.

Definition turn (worker token : string) (w : World) : World :=
  let m := drain_turn worker id token (fun _ => false) in
  play token m Unclaimed (mkWorld (store w) (time w) (<[token := (m, Unclaimed)]> (runs w)) ({[token]} ∪ given w)
                            (sent w) (marks w) (found w)).

Abbreviation step := (step publishable preview_fence preview_frames id).

Lemma play_path token m k w : runs w !! token = Some (m, k) -> time_ok w t -> rtc step w (play token m k w).
Proof.
  revert k w. induction m as [a|e|B o f IH|B q f IH|f IH|f IH]; intros k w Hm [Ht Hn]; cbn [play].
  - apply rtc_refl.
  - apply rtc_refl.
  - eapply rtc_l; [by apply (step_db publishable preview_fence preview_frames id token o f k t w Hm)|].
    apply IH; [apply lookup_insert_eq|]. split; cbn; [lia|done].
  - eapply rtc_l; [by apply (step_ask publishable preview_fence preview_frames id token q f k (oracle B q) w Hm)|].
    apply IH; [apply lookup_insert_eq|done].
  - eapply rtc_l; [by apply (step_stopping publishable preview_fence preview_frames id token f k false w Hm)|].
    apply IH; [apply lookup_insert_eq|done].
  - eapply rtc_l; [by apply (step_now publishable preview_fence preview_frames id token f k text w Hm)|].
    apply IH; [apply lookup_insert_eq|done].
Qed.

Lemma turn_steps worker token w : token ∉ given w -> time_ok w t -> rtc step w (turn worker token w).
Proof.
  intros Hnew Ht. eapply rtc_l; [by apply (step_turn publishable preview_fence preview_frames id token worker (fun _ => false))|].
  apply play_path; [apply lookup_insert_eq|exact Ht].
Qed.

Lemma play_store token m k w : store (play token m k w) = (outcome m (store w)).2.
Proof. revert k w. induction m as [a|e|B o f IH|B q f IH|f IH|f IH]; intros k w; cbn; by rewrite ?IH. Qed.

Lemma turn_store worker token w :
  store (turn worker token w) = (outcome (drain_turn worker id token (fun _ => false)) (store w)).2.
Proof. unfold turn. by rewrite play_store. Qed.

Lemma outcome_attempt {A B} (m : io A) (f : A + string -> io B) s :
  outcome (attempt_ m f) s = outcome (f (outcome m s).1) (outcome m s).2.
Proof. revert s. induction m as [a|e|C o g IH|C q g IH|g IH|g IH]; intros s; cbn; [done|done|apply IH..]. Qed.
Lemma outcome_bind {A B} (m : io A) (f : A -> io B) s a s' :
  outcome m s = (inl a, s') -> outcome (m ≫= f) s = outcome (f a) s'.
Proof. intros H. unfold mbind, io_bind, bind. by rewrite outcome_attempt, H. Qed.
Lemma outcome_ask {A} (q : AskE A) s a : oracle A q = inl a -> outcome (ask q) s = (inl a, s).
Proof. intros H. unfold ask. cbn. by rewrite H. Qed.

(** ** Everything granted *)

Hypothesis Hlease : clock t < now t + ENRICHMENT_PLAN_LEASE_MS.
(** Nobody pauses the queue, the owner is there, and an asset can be looked up; the stages may do anything. *)
Hypothesis Hpaused : oracle _ IsPaused = inl false.
Hypothesis Howner : forall o, oracle _ (UserExists o) = inl true.
Hypothesis Hlookup : forall a, exists b, oracle _ (AssetIsVideo a) = inl b.
Hypothesis Haccess : forall o a, exists b, oracle _ (MayUpdate o a) = inl b.

Context (token : string).

(** The claim holds the row [r], with nothing asked of it. *)
Record held (base : Store) (rq : OperationStore.Request) (tr : Tries) (res : option json) (s : Store) (r : Row) : Prop := mkHeld {
  h_row : rows s !! id = Some r;
  h_others : forall k, k <> id -> rows s !! k = rows base !! k;
  h_token : claimToken (claim r) = Some token;
  h_lease : later (claimExpiresAt (claim r)) (clock t) = true;
  h_status : includes (status r) [Status.Preparing; Status.Rendering] = true;
  h_cancel : cancelRequestedAt (stop r) = None;
  h_pause : pauseRequestedAt (stop r) = None;
  h_request : request r = rq;
  h_tries : tries r = tr;
  h_result : result (work r) = res
}.
Definition Held base rq tr res s : Prop := exists r, held base rq tr res s r.

Lemma claimed_status x : includes x [Status.Preparing; Status.Rendering] = true ->
  includes x CLAIMED_MEDIA_OPERATION_STATUSES = true /\ includes x WORKING_STATUSES = true /\ x <> Status.Cancelling.
Proof. by destruct x. Qed.

Lemma update_some f s r r' : rows s !! id = Some r -> f r = Some r' ->
  update_row t id f s = (Some (touch t r'), set_rows (<[id := touch t r']> (rows s)) s).
Proof. intros E H. unfold update_row. rewrite E. cbn. by rewrite H. Qed.

Lemma later_now : (clock t <? nowPlus t ENRICHMENT_PLAN_LEASE_MS) = true.
Proof. apply Z.ltb_lt. exact Hlease. Qed.

(** A granted update of the row, and that the claim still holds it. *)
Lemma held_update base rq tr res res' s r f r' : held base rq tr res s r -> f r = Some r' ->
  claimToken (claim r') = Some token -> later (claimExpiresAt (claim r')) (clock t) = true ->
  includes (status r') [Status.Preparing; Status.Rendering] = true -> stop r' = stop r -> request r' = request r ->
  tries r' = tries r -> result (work r') = res' ->
  update_row t id f s = (Some (touch t r'), set_rows (<[id := touch t r']> (rows s)) s) /\
  held base rq tr res' (set_rows (<[id := touch t r']> (rows s)) s) (touch t r').
Proof.
  intros [H1 H2 H3 H4 H5 H6 H7 H8 H9 H10] Hf E1 E2 E3 E4 E5 E6 E7. split; [by eapply update_some|].
  split; cbn; try done; try congruence.
  - apply lookup_insert_eq.
  - intros k Hk. rewrite lookup_insert_ne by done. by apply H2.
Qed.

Lemma held_holds base rq tr res s r : held base rq tr res s r -> holds token r = true.
Proof. intros H. apply bool_decide_eq_true. apply H. Qed.

Lemma outcome_heartbeat base rq tr res s a : Held base rq tr res s ->
  exists s', outcome (db (Heartbeat id token ENRICHMENT_PLAN_LEASE_MS a)) s = (inl true, s') /\ Held base rq tr res s'.
Proof.
  intros [r H]. pose proof H as [H1 H2 H3 H4 H5 H6 H7 H8 H9 H10].
  destruct (claimed_status _ H5) as (Hc & _ & _).
  assert (OperationStore.heartbeat token ENRICHMENT_PLAN_LEASE_MS a t r = Some (extended t ENRICHMENT_PLAN_LEASE_MS r)) as Hf.
  { unfold OperationStore.heartbeat, when, status_in. rewrite (held_holds _ _ _ _ _ _ H), H4, H6, H7, Hc. by destruct a. }
  destruct (held_update base rq tr res res s r _ _ H Hf) as [E Hh]; try done; [apply later_now|].
  eexists. cbn. rewrite E. cbn. split; [done|]. by eexists.
Qed.

Lemma outcome_saved base rq tr res s res' p n : Held base rq tr res s ->
  exists s', outcome (saved id token res' p n) s = (inl true, s') /\ Held base rq tr (Some (result_json res')) s'.
Proof.
  intros [r H]. pose proof H as [H1 H2 H3 H4 H5 H6 H7 H8 H9 H10].
  destruct (claimed_status _ H5) as (Hc & _ & Hnc).
  assert (exists r', setBulkResult token (plan_patch res' p n) false t r = Some r' /\ status r' = status r /\ stop r' = stop r /\
    claimToken (claim r') = Some token /\ later (claimExpiresAt (claim r')) (clock t) = true /\ request r' = request r /\
    tries r' = tries r /\ result (work r') = Some (result_json res')) as (r' & Hf & E1 & E2 & E3 & E4 & E5 & E6 & E7).
  { unfold setBulkResult, when, status_in. rewrite (held_holds _ _ _ _ _ _ H), H4, Hc. eexists. split; [done|].
    do 3 (split; [done|]). split; [apply later_now|done]. }
  destruct (held_update base rq tr res (Some (result_json res')) s r _ _ H Hf) as [E Hh]; try done; [by rewrite E1|].
  exists (set_rows (<[id := touch t r']> (rows s)) s). split; [|by eexists].
  unfold saved, write. erewrite outcome_bind; [|cbn; by rewrite E].
  unfold proceed. cbn [fmap option_fmap option_map touch status stop fst snd]. rewrite E1, E2, H6, H7, bool_decide_false by done. done.
Qed.

Lemma outcome_may_work s : outcome (may_work id token) s = (inl true, s).
Proof. unfold may_work. cbn [outcome]. by rewrite (outcome_bind _ _ _ false s) by (by apply outcome_ask). Qed.

Lemma outcome_skip_all reason todo done_ s : exists outcomes, outcome (skip_all reason todo done_) s = (inl outcomes, s).
Proof. revert done_. induction todo as [|x todo IH]; intros done_; cbn; [by eexists|apply IH]. Qed.

Lemma outcome_run_stages base rq tr res job a video todo failed done_ s :
  run_id job = id -> run_token job = token -> Held base rq tr res s ->
  exists outcomes s', outcome (run_stages job a video todo failed done_) s = (inl outcomes, s') /\ Held base rq tr res s'.
Proof.
  intros Hi Ht. revert failed done_ s. induction todo as [|x todo IH]; intros failed done_ s H; cbn [run_stages].
  { eexists _, s. done. }
  destruct (negb _); [exact (IH _ _ _ H)|]. destruct (existsb _ _); [exact (IH _ _ _ H)|].
  assert (exists y, outcome (runStage job x a) s = (y, s)) as [y Hy].
  { unfold runStage. destruct x; cbn; repeat (match goal with |- context[oracle ?B ?q] => destruct (oracle B q) end; cbn); by eexists. }
  rewrite outcome_attempt, Hy. cbn [fst snd outcome]. unfold heartbeat. rewrite Hi, Ht.
  destruct (outcome_heartbeat base rq tr res s false H) as (s' & E & H'). rewrite (outcome_bind _ _ _ _ _ E). by apply IH.
Qed.

Lemma outcome_in_hand base rq tr res job r a s : run_id job = id -> run_token job = token -> Held base rq tr res s ->
  exists r' s', outcome (run_in_hand job r a) s = (inl r', s') /\ Held base rq tr res s' /\ retry r' = retry r.
Proof.
  intros Hi Ht H. unfold run_in_hand, runAsset. set (todo := stagesToRetry _ _). destruct (Hlookup a) as [b Hb].
  assert (exists item s', outcome
    (kind ← ask (AssetIsVideo a);
     match kind with
     | None => outcomes ← skip_all "not-found" todo ∅; Done (mkItem a outcomes)
     | Some isVideo =>
         allowed ← ask (MayUpdate (run_ownerId job) a);
         outcomes ← (if (allowed : bool) then run_stages job a isVideo todo [] ∅ else skip_all "no-access" todo ∅);
         Done (mkItem a outcomes)
     end) s = (inl item, s') /\ Held base rq tr res s') as (item & s' & E & H').
  { rewrite (outcome_bind _ _ _ b s) by (by apply outcome_ask). destruct b as [video|].
    - destruct (Haccess (run_ownerId job) a) as [al Hal]. rewrite (outcome_bind _ _ _ al s) by (by apply outcome_ask). destruct al.
      + destruct (outcome_run_stages base rq tr res job a video todo [] ∅ s Hi Ht H) as (o & s' & E & H').
        rewrite (outcome_bind _ _ _ _ _ E). by eexists _, s'.
      + destruct (outcome_skip_all "no-access" todo ∅ s) as [o E]. rewrite (outcome_bind _ _ _ _ _ E). by eexists _, s.
    - destruct (outcome_skip_all "not-found" todo ∅ s) as [o E]. rewrite (outcome_bind _ _ _ _ _ E). by eexists _, s. }
  rewrite (outcome_bind _ _ _ _ _ E). by eexists _, s'.
Qed.

Lemma outcome_first_pass base rq tr res job rest r p s : run_id job = id -> run_token job = token -> Held base rq tr res s ->
  exists r' s' res', outcome (first_pass job rest r p) s = (inl (Some r'), s') /\ Held base rq tr res' s' /\ retry r' = retry r.
Proof.
  intros Hi Ht. revert r p s res. induction rest as [|a rest IH]; intros r p s res H; cbn [first_pass]; [by eexists r, s, res|].
  rewrite Hi, Ht. rewrite (outcome_bind _ _ _ _ _ (outcome_may_work s)). cbn [negb].
  destruct (outcome_saved _ _ _ _ _ (set_inFlight (Some a) r) p (plan_total (run_snapshot job)) H) as (s1 & E1 & H1).
  rewrite (outcome_bind _ _ _ _ _ E1). cbn [negb].
  destruct (outcome_in_hand _ _ _ _ job r a s1 Hi Ht H1) as (r2 & s2 & E2 & H2 & Er). rewrite (outcome_bind _ _ _ _ _ E2).
  destruct (outcome_saved _ _ _ _ _ (set_inFlight None r2) (Datatypes.S p) (plan_total (run_snapshot job)) H2) as (s3 & E3 & H3).
  rewrite (outcome_bind _ _ _ _ _ E3). cbn [negb].
  destruct (IH (set_inFlight None r2) (Datatypes.S p) s3 _ H3) as (r' & s' & res' & E & H' & Er'). exists r', s', res'.
  split; [done|]. split; [done|]. by rewrite Er'.
Qed.

Lemma outcome_retry_pass base rq tr res job pass rest r s : run_id job = id -> run_token job = token -> Held base rq tr res s ->
  exists r' s' res', outcome (retry_pass job pass rest r) s = (inl (Some r'), s') /\ Held base rq tr res' s'.
Proof.
  intros Hi Ht. revert pass r s res. induction rest as [|a rest IH]; intros pass r s res H; cbn [retry_pass]; [by eexists r, s, res|].
  rewrite Hi, Ht. rewrite (outcome_bind _ _ _ _ _ (outcome_may_work s)). cbn [negb].
  set (n := plan_total (run_snapshot job)).
  destruct (outcome_saved _ _ _ _ _ (set_inFlight (Some a) r) n n H) as (s1 & E1 & H1).
  rewrite (outcome_bind _ _ _ _ _ E1). cbn [negb].
  destruct (outcome_in_hand _ _ _ _ job r a s1 Hi Ht H1) as (r2 & s2 & E2 & H2 & Er). rewrite (outcome_bind _ _ _ _ _ E2).
  set (pass' := mkRetry (ids pass) (num_add (retryProcessed pass) (JInt 1))).
  destruct (outcome_saved _ _ _ _ _ (set_retry (Some pass') (set_inFlight None r2)) n n H2) as (s3 & E3 & H3).
  rewrite (outcome_bind _ _ _ _ _ E3). cbn [negb]. by apply (IH pass' _ s3 _ H3).
Qed.

(** The row [id] as the turn leaves it. *)
Record left (base : Store) (rq : OperationStore.Request) (s : Store) (r : Row) : Prop := mkLeft {
  l_row : rows s !! id = Some r;
  l_others : forall k, k <> id -> rows s !! k = rows base !! k;
  l_request : request r = rq
}.

Lemma outcome_finish base rq tr res s : Held base rq tr res s ->
  exists s' r', outcome (finish id token) s = (inl tt, s') /\ left base rq s' r' /\ status r' = Status.Completed.
Proof.
  intros [r H]. pose proof H as [H1 H2 H3 H4 H5 H6 H7 H8 H9 H10]. unfold finish.
  assert (beginValidation token false t r = Some (set_status Status.Validating (seen t r))) as Hf.
  { unfold beginValidation, when, status_in. by rewrite (held_holds _ _ _ _ _ _ H), H5. }
  pose proof (update_some _ s r _ H1 Hf) as E1. set (r1 := touch t (set_status Status.Validating (seen t r))) in *.
  set (s1 := set_rows (<[id := r1]> (rows s)) s) in *.
  rewrite (outcome_bind _ _ _ true s1) by (cbn; by rewrite E1).
  assert (rows s1 !! id = Some r1) as Hr1 by apply lookup_insert_eq.
  assert (exists r2, complete publishable token (mkComplete None None None) false t r1 = Some r2 /\ status r2 = Status.Completed /\
            request r2 = request r) as (r2 & Hc & Hst & Hrq).
  { unfold complete, when, holds. cbn. rewrite H3, bool_decide_true by done. by eexists. }
  pose proof (update_some _ s1 r1 _ Hr1 Hc) as E2.
  rewrite (outcome_bind _ _ _ true (set_rows (<[id := touch t r2]> (rows s1)) s1)) by (cbn; by rewrite E2).
  eexists _, (touch t r2). split; [done|]. split; [|done]. split; cbn.
  - apply lookup_insert_eq.
  - intros k Hk. rewrite lookup_insert_ne by done. cbn. rewrite lookup_insert_ne by done. by apply H2.
  - congruence.
Qed.

(** Put back for the retry pass: queued, the pass recorded, due after the delay. *)
Definition waiting_retry (r : Row) : Prop :=
  status r = Status.Queued /\ cancelRequestedAt (stop r) = None /\ pauseRequestedAt (stop r) = None /\
  claimToken (claim r) = None /\
  retryAt (tries r) = Some (now t + EnrichmentRun.MEDIA_OPERATION_AUTO_RETRY_DELAY_MS) /\
  is_Some (retry (rec_result (rec_of_row r))).

Lemma outcome_after_first base rq tr res job r s : run_id job = id -> run_token job = token -> Held base rq tr res s ->
  exists s' r', outcome (after_first job r) s = (inl tt, s') /\ left base rq s' r' /\
    (status r' = Status.Completed \/ (retry r = None /\ waiting_retry r')).
Proof.
  intros Hi Ht H. unfold after_first. rewrite Hi, Ht. set (n := plan_total (run_snapshot job)).
  destruct (planEnrichmentRetryPass _ r) as [planned|] eqn:Ep.
  - apply planned_is in Ep as [Er Epl].
    destruct (outcome_saved _ _ _ _ _ planned n n H) as (s1 & E1 & r1 & H1). rewrite (outcome_bind _ _ _ _ _ E1). cbn [negb].
    pose proof H1 as [A1 A2 A3 A4 A5 A6 A7 A8 A9 A10]. destruct (claimed_status _ A5) as (_ & Hw & _).
    assert (exists r2, OperationStore.requeue token EnrichmentRun.MEDIA_OPERATION_AUTO_RETRY_DELAY_MS true false t r1 = Some r2 /\
      request r2 = request r1 /\ waiting_retry r2) as (r2 & Hf & Hrq & Hwait).
    { unfold OperationStore.requeue, when, status_in. rewrite (held_holds _ _ _ _ _ _ H1), Hw, A6. eexists. split; [done|]. split; [done|].
      unfold waiting_retry. cbn. unfold pausedIfRequested. rewrite A7. do 5 (split; [done|]). rewrite A10, Epl. by eexists. }
    pose proof (update_some _ s1 r1 _ A1 Hf) as E2.
    rewrite (outcome_bind _ _ _ true (set_rows (<[id := touch t r2]> (rows s1)) s1)) by (cbn; by rewrite E2).
    eexists _, (touch t r2). split; [done|]. split; [|by right]. split; cbn.
    + apply lookup_insert_eq.
    + intros k Hk. rewrite lookup_insert_ne by done. by apply A2.
    + congruence.
  - destruct (retry r) as [pass|] eqn:Er.
    + destruct (outcome_retry_pass _ _ _ _ job pass (enrichmentRetryPending r) r s Hi Ht H) as (r' & s' & res' & E & H').
      rewrite (outcome_bind _ _ _ _ _ E). destruct (outcome_finish _ _ _ _ _ H') as (s2 & r2 & E2 & H2 & H3).
      exists s2, r2. split; [done|]. split; [done|]. by left.
    + rewrite (outcome_bind (Done (Some r)) _ s (Some r) s eq_refl). destruct (outcome_finish _ _ _ _ _ H) as (s2 & r2 & E2 & H2 & H3).
      exists s2, r2. split; [done|]. split; [done|]. by left.
Qed.

Lemma outcome_report base rq tr res s p n q : Held base rq tr res s -> exists s',
  outcome (db (ReportProgress id token (mkPatch Status.Rendering p n q None))) s = (inl true, s') /\ Held base rq tr res s'.
Proof.
  intros [r H]. pose proof H as [H1 H2 H3 H4 H5 H6 H7 H8 H9 H10].
  assert (exists r', OperationStore.reportProgress token (mkPatch Status.Rendering p n q None) t r = Some r' /\
    status r' = Status.Rendering /\ stop r' = stop r /\ claimToken (claim r') = Some token /\
    later (claimExpiresAt (claim r')) (clock t) = true /\ request r' = request r /\ tries r' = tries r /\
    result (work r') = res) as (r' & Hf & E1 & E2 & E3 & E4 & E5 & E6 & E7).
  { unfold OperationStore.reportProgress, when, status_in. cbn [PROGRESS_FROM patch_status render_result studioRender].
    rewrite (held_holds _ _ _ _ _ _ H), H5. by eexists. }
  destruct (held_update base rq tr res res s r _ _ H Hf) as [E Hh]; try done; [by rewrite E1|].
  eexists. cbn. rewrite E. cbn. split; [done|]. by eexists.
Qed.

Lemma outcome_run base rq tr res operation snap s : Held base rq tr res s ->
  parseEnrichmentPlanSnapshot (Some (OperationStore.snapshot (request operation))) = Ok snap ->
  exists s' r', outcome (run id token operation) s = (inl tt, s') /\ left base rq s' r' /\
    (status r' = Status.Completed \/ (retry (claimed_result operation) = None /\ waiting_retry r')).
Proof.
  intros H Hs. unfold run. rewrite Hs. set (n := plan_total snap). set (p := claimed_processed snap operation).
  destruct (outcome_saved _ _ _ _ _ (claimed_result operation) p n H) as (s1 & E1 & H1).
  rewrite (outcome_bind _ _ _ _ _ E1). cbn [negb].
  destruct (outcome_report _ _ _ _ _ (Z.of_nat p) (Some (Z.of_nat n)) (number_of (enrichmentPlanProgress (Z.of_nat p) (Z.of_nat n))) H1)
    as (s2 & E2 & H2).
  rewrite (outcome_bind _ _ _ _ _ E2). cbn [negb].
  rewrite (outcome_bind _ _ _ true s2) by (by apply outcome_ask). cbn [negb].
  set (job := mkRun id token (ownerId (request operation)) snap).
  destruct (outcome_first_pass _ _ _ _ job (drop p (assetIds snap)) (claimed_result operation) p s2 eq_refl eq_refl H2)
    as (r3 & s3 & res3 & E3 & H3 & Er).
  rewrite (outcome_bind _ _ _ _ _ E3).
  destruct (outcome_after_first _ _ _ _ job r3 s3 eq_refl eq_refl H3) as (s' & r' & E & Hl & Hd).
  exists s', r'. split; [done|]. split; [done|]. by rewrite <- Er.
Qed.

(** A plan the worker may claim at [t], and the only one there is. *)
Record ready (s : Store) (r : Row) : Prop := mkReady {
  rd_row : rows s !! id = Some r;
  rd_status : status r = Status.Queued;
  rd_kind : kind (request r) = Kind.EnrichmentPlan;
  rd_cancel : cancelRequestedAt (stop r) = None;
  rd_pause : pauseRequestedAt (stop r) = None;
  rd_worker : notJobQueueExecuted r = true;
  rd_due : due t r = true;
  rd_alone : forall k x, rows s !! k = Some x -> kind (request x) = Kind.EnrichmentPlan -> k = id
}.

Lemma ready_claimable s r worker : ready s r -> claimable (plan_claim worker) t r = true.
Proof.
  intros []. unfold claimable, held_back, named_in, plan_claim. cbn [kinds holdBack snapshotKinds snapshotWorkloads].
  by rewrite rd_status0, rd_kind0, rd_cancel0, rd_worker0, rd_due0.
Qed.

Lemma ready_oldest s r worker : ready s r ->
  oldest (fun k x => claimable (plan_claim worker) t x && negb false) (rows s) id = true.
Proof.
  intros H. pose proof H as []. unfold oldest. rewrite rd_row0, (ready_claimable _ _ worker H). apply forallb_forall.
  intros [k x] Hx%list_elem_of_In%elem_of_map_to_list. cbn. destruct (decide (kind (request x) = Kind.EnrichmentPlan)) as [E|E].
  - rewrite (rd_alone0 k x Hx E) in Hx. rewrite rd_row0 in Hx. injection Hx as <-. by rewrite Z.leb_refl, orb_true_r.
  - unfold claimable. cbn [kinds plan_claim]. unfold includes. rewrite (bool_decide_false (_ ∈ _)) by (by rewrite list_elem_of_singleton).
    by rewrite andb_false_r.
Qed.

Lemma outcome_turn base r worker snap : ready base r ->
  parseEnrichmentPlanSnapshot (Some (OperationStore.snapshot (request r))) = Ok snap ->
  exists s' r', outcome (drain_turn worker id token (fun _ => false)) base = (inl true, s') /\ left base (request r) s' r' /\
    (status r' = Status.Completed \/ (retry (rec_result (rec_of_row r)) = None /\ waiting_retry r')).
Proof.
  intros H Hs. pose proof H as [R1 R2 R3 R4 R5 R6 R7 R8]. unfold drain_turn. cbn [outcome].
  unfold queuePaused. rewrite (outcome_bind _ _ _ false base) by (by apply outcome_ask). cbn [negb].
  set (r1 := touch t (taken worker token ENRICHMENT_PLAN_LEASE_MS t r)).
  set (s1 := set_rows (<[id := r1]> (rows base)) base).
  assert (outcome (db (ClaimNext id (plan_claim worker) token (fun _ => false))) base = (inl (Some r1), s1)) as E1.
  { unfold db. cbn [outcome]. rewrite claimNext_update. rewrite (ready_oldest _ _ worker H).
    rewrite (update_some _ base r (taken worker token ENRICHMENT_PLAN_LEASE_MS t r)); [done|done|].
    by rewrite (ready_claimable _ _ worker H). }
  rewrite (outcome_bind _ _ _ _ _ E1), outcome_attempt.
  assert (Held base (request r) (tries r1) (result (work r)) s1) as Hh.
  { exists r1. split; try done.
    - apply lookup_insert_eq.
    - intros k Hk. cbn. by rewrite lookup_insert_ne.
    - apply later_now. }
  destruct (outcome_run _ _ _ _ r1 snap s1 Hh Hs) as (s' & r' & E & Hl & Hd). rewrite E. exists s', r'.
  split; [done|]. split; [done|]. done.
Qed.
End play.

(** Nothing stands in a plan's way: nobody pauses the queue, the owner is there, and every asset can be looked
    up; its stages may answer and throw as they like. *)
Record calm (oracle : forall B, AskE B -> B + string) : Prop := mkCalm {
  calm_queue : oracle _ IsPaused = inl false;
  calm_owner : forall o, oracle _ (UserExists o) = inl true;
  calm_lookup : forall a, exists b, oracle _ (AssetIsVideo a) = inl b;
  calm_access : forall o a, exists b, oracle _ (MayUpdate o a) = inl b
}.
