(* ===== verification/EnrichmentPromises.v ===== *)
(** * Enrichment plans: what a plan promises

    Over every reachable world of [EnrichmentWorld]: how often a stage of an asset is sent off and to
    whom, that a settled outcome stands, what a completed plan holds; what recovery does to a plan whose
    worker is gone, what a manual retry covers, and that a plan left alone completes.  Then a sample plan
    the theorems are applied to. *)

From Stdlib Require Import QArith_base.
From stdpp Require Import relations.
From S2P Require Import Prelude JsNumber JsString Enums OperationStore OperationLease OperationRecovery.
From S2P Require Import EnrichmentPlan EnrichmentRun EnrichmentRecord EnrichmentSafety EnrichmentWorld EnrichmentAlone.
From S2P Require MediaOperation EditOperation RenderAdmission.
Local Open Scope Z_scope.

(** ** Lemmas *)

Lemma NoDup_order : NoDup ENRICHMENT_STAGE_ORDER.
Proof. apply (bool_decide_eq_true_1 _). vm_compute. reflexivity. Qed.

(** A snapshot that parses names its assets, and its stages once each. *)
Lemma parsed_snapshot v S : parseEnrichmentPlanSnapshot v = Ok S ->
  (forall a, a ∈ assetIds S -> a <> ""%string) /\ NoDup (stages S) /\ stages S <> [].
Proof.
  unfold parseEnrichmentPlanSnapshot. destruct (is_record v) as [fs|]; [|done].
  destruct (negb _); [done|]. set (l := asStages (obj_get fs "stages")).
  destruct ((_ =? 0)%nat || (length l =? 0)%nat) eqn:E; [done|]. apply orb_false_iff in E as [_ El].
  destruct (is_record (obj_get fs "config")) as [cf|]; [|done].
  destruct (is_record (obj_get cf "description")), (is_record (obj_get cf "lockedCheck")),
    (is_record (obj_get cf "search")); try done.
  set (st := List.filter _ ENRICHMENT_STAGE_ORDER). intros [= <-]. cbn [assetIds stages]. subst st. split; [|split].
  - intros a Ha ->. unfold asIdList, DuplicateReview.strings in Ha. destruct (obj_get fs "assetIds") as [[]|]; try by apply not_elem_of_nil in Ha.
    apply list_elem_of_omap in Ha as (x & _ & Hx). by destruct x as [| | |[|]| |].
  - apply NoDup_filter_b, NoDup_order.
  - destruct l as [|s l'] eqn:Es; [by apply Nat.eqb_neq in El|]. intros Hn.
    assert (s ∈ List.filter (fun stage => includes stage (s :: l')) ENRICHMENT_STAGE_ORDER) as Hs; [|rewrite Hn in Hs; by apply not_elem_of_nil in Hs].
    apply elem_of_filter_b. split; [destruct s; apply (bool_decide_eq_true_1 _); reflexivity|]. apply includes_true, elem_of_cons. by left.
Qed.

Lemma asStages_values l : asStages (Some (JArr (map (fun x => JStr (Stage.value x)) l))) = l.
Proof.
  cbn [asStages]. induction l as [|x l IH]; [done|]. destruct x; exact (f_equal (cons _) IH).
Qed.

Lemma filter_order l : List.filter (fun stage => includes stage (List.filter (fun x => includes x l) ENRICHMENT_STAGE_ORDER))
  ENRICHMENT_STAGE_ORDER = List.filter (fun x => includes x l) ENRICHMENT_STAGE_ORDER.
Proof.
  apply List.filter_ext_in. intros x Hx%list_elem_of_In. apply eq_true_iff_eq. rewrite !includes_true, elem_of_filter_b, includes_true.
  tauto.
Qed.

(** A parsed snapshot over other assets is stored as a plan that parses. *)
Lemma retry_parsed v S l : parseEnrichmentPlanSnapshot v = Ok S -> l <> [] -> (forall a, a ∈ l -> a <> ""%string) ->
  let S' := mkSnapshot l (requestedStages S) (stages S) (destinations S) (config S) (configHash S) None (elevated S) in
  parseEnrichmentPlanSnapshot (Some (snapshot_json S')) = Ok S'.
Proof.
  intros Hp Hl Hn. pose proof (parsed_snapshot _ _ Hp) as (_ & _ & Hs). cbv zeta.
  assert (exists d c s, is_record (obj_get (config S) "description") = Some d /\
    is_record (obj_get (config S) "lockedCheck") = Some c /\ is_record (obj_get (config S) "search") = Some s /\
    List.filter (fun stage => includes stage (stages S)) ENRICHMENT_STAGE_ORDER = stages S) as (d & c & s & Ed & Ec & Es & Ef).
  { revert Hp. unfold parseEnrichmentPlanSnapshot. destruct (is_record v) as [fs|]; [|done]. destruct (negb _); [done|].
    destruct (_ || _); [done|]. destruct (is_record (obj_get fs "config")) as [cf|]; [|done].
    destruct (is_record (obj_get cf "description")) eqn:E1, (is_record (obj_get cf "lockedCheck")) eqn:E2,
      (is_record (obj_get cf "search")) eqn:E3; try done.
    pose proof (filter_order (asStages (obj_get fs "stages"))) as Eo. revert Eo.
    set (st := List.filter _ ENRICHMENT_STAGE_ORDER) at 2 3. intros Eo [= <-]. cbn [config stages]. rewrite E1, E2, E3.
    eexists _, _, _. do 3 (split; [reflexivity|]). exact Eo. }
  unfold parseEnrichmentPlanSnapshot, snapshot_json. cbn [is_record assetIds stages requestedStages destinations config configHash requestKey elevated].
  cbn [obj_get String.eqb Ascii.eqb Bool.eqb]. rewrite !asStages_values, ids_read_back by done.
  rewrite bool_decide_true by reflexivity. cbn [negb].
  rewrite (proj2 (Nat.eqb_neq _ _)) by (by intros ?%length_zero_iff_nil). cbn [orb].
  rewrite (proj2 (Nat.eqb_neq _ _)) by (by intros ?%length_zero_iff_nil). cbn [is_record default from_option id].
  rewrite Ed, Ec, Es, Ef. cbn [obj_get String.eqb Ascii.eqb Bool.eqb]. rewrite !as_string_nullable. by destruct (destinations S), (elevated S).
Qed.

Section promises.
Context (publishable : string -> string -> bool) (preview_fence : Row -> Z -> bool) (preview_frames : Row -> bool).
Context (S : EnrichmentPlanSnapshot) (id : string).
Abbreviation handle := (handle publishable preview_fence preview_frames).
Abbreviation step := (step publishable preview_fence preview_frames id).
Abbreviation reachable := (reachable publishable preview_fence preview_frames S id).
Hypothesis Hids : NoDup (assetIds S).
Hypothesis Hmax : Z.of_nat (length (assetIds S)) <= ENRICHMENT_PLAN_MAX_ASSETS.

(** The asset in hand is the one whose turn it is. *)
Definition hand_ok (c : Rec) : Prop := forall a, inFlight (rec_result c) = Some a -> in_turn S c = Some a.
Lemma hand_step c c' : write_step S c c' -> hand_ok c'.
Proof.
  intros H a. destruct H as [|b _ Ht|b item _ _ _|r Hf _ Hp].
  - by cbn.
  - cbn. intros [= <-]. exact Ht.
  - unfold answer. by rewrite advance_inFlight.
  - apply planned_is in Hp as [_ ->]. cbn. congruence.
Qed.

Lemma reachable_inv w : reachable w -> exists r, Inv S id w r /\ hand_ok (rec_of_row r).
Proof.
  intros (w0 & Hs & Hw). destruct (plan_begins S id w0 Hs) as [r0 H0].
  assert (hand_ok (rec_of_row r0)) as Hh.
  { destruct Hs as (r & _ & Er & _ & (_ & Hf & _) & _). destruct H0 as [_ E0 _ _ _ _ _ _ _].
    rewrite Er in E0. injection E0 as <-. intros a Ha. congruence. }
  pose proof (parsed_snapshot _ _ (pr_snapshot S r0 (iv_plan S id w0 r0 H0))) as (Hn & Hst & _). clear Hs.
  revert r0 H0 Hh. induction Hw as [w|w w1 w' Hs _ IH]; intros r H Hh; [by exists r|].
  destruct (inv_step publishable preview_fence preview_frames S id Hids Hmax Hn Hst _ _ _ H Hs) as (r1 & Hr & H1).
  apply (IH r1 H1). destruct Hr as [E|Hr]; [by rewrite E|by eapply hand_step].
Qed.

(** The turns an asset had, and the one it is in. *)
Lemma turns_in_hand a c : rec_ok S c -> hand_ok c -> inFlight (rec_result c) = Some a -> (turns S a c <= 1)%nat.
Proof.
  intros Hok Hh Hf. pose proof Hok as [Hp _ _ Hr]. unfold turns.
  assert (forall l n, NoDup l -> l !! n = Some a -> count_of a (take n l) = 0%nat) as Hzero.
  { intros l n Hn Ha. assert (NoDup (take (n + 1) l)) as Hn' by by apply NoDup_take_sub.
    pose proof (count_of_NoDup S a _ Hn') as Hc. rewrite (count_of_take_S _ _ _ a Ha), decide_True in Hc by done. lia. }
  destruct (in_turn_first S c a Hok (Hh a Hf)) as [[Ha Hlt]|(He & pass & Eq & Ha)].
  - rewrite (Hzero _ _ Hids Ha). destruct (retry (rec_result c)) as [pass|]; [|lia]. destruct (Hr pass eq_refl). lia.
  - rewrite Eq. destruct (Hr pass Eq) as [_ Hn _ _ _]. rewrite (Hzero _ _ Hn Ha).
    pose proof (count_of_NoDup S a _ (NoDup_take_sub (rec_processed c) _ Hids)). lia.
Qed.

(** C21. However many workers take turns at a plan, crash, lose their claims or run at once, a stage of an
    asset is sent to its model (or its frames cut) at most twice, plus once for every time a claim
    found that asset in the hands of a worker that was gone; and every such request is for a stage of the
    plan and passes what the plan pinned: its destinations, the settings of descriptions and of the locked
    check and the name of the search model as the snapshot keeps them, its configuration's digest and the plan's
    own identifier.  Captions are sent with the server's current description settings, in which every setting
    the plan pinned has the plan's value. *)
Theorem stage_runs_bounded (w : World) (Hw : reachable w) :
  (forall a s, (times_sent a s w <= 2 + count_of a (found w))%nat) /\
  (forall q, q ∈ sent w -> req_stage q ∈ stages S /\ pinned S id q).
Proof.
  destruct (reachable_inv w Hw) as (r & [_ _ Hp _ _ _ Hm Hs Hq] & Hh). split; [|done].
  intros a s. pose proof (pr_rec S r Hp) as Hok. specialize (Hs a s). specialize (Hm a).
  pose proof (turns_two S Hids a _ Hok). unfold in_hand in Hm.
  destruct (negb (idle (runs w) r)); [|cbn [andb] in Hm; lia].
  case_bool_decide as E; [|cbn [andb] in Hm; lia].
  pose proof (turns_in_hand a _ Hok Hh E). cbn [andb] in Hm. lia.
Qed.

(** C22. A settled outcome stands.  Once a stage of an asset completed, or was skipped for a reason of its
    own, whatever happens afterwards the row keeps that outcome, and no worker whose claim the row carries is
    about to send that stage of that asset off again. *)
Theorem settled_outcome_stands (w w' : World) (r : Row) (a : string) (s : Stage.EnrichmentStage) (o : EnrichmentStageOutcome)
    (Hw : reachable w) (Hr : rows (store w) !! id = Some r) (Ho : settled (rec_result (rec_of_row r)) a s o)
    (Hrun : rtc step w w') :
  exists r', rows (store w') !! id = Some r' /\ settled (rec_result (rec_of_row r')) a s o /\
    forall token B (q : AskE B) f k, runs w' !! token = Some (Ask q f, k) -> claimToken (claim r') = Some token ->
      forall x, request_of q = Some x -> ~ (req_asset x = a /\ req_stage x = s).
Proof.
  destruct (reachable_inv w Hw) as (r0 & Hi & _). pose proof (iv_row S id w r0 Hi) as E. rewrite Hr in E. injection E as <-.
  pose proof (parsed_snapshot _ _ (pr_snapshot S r (iv_plan S id w r Hi))) as (Hn & Hst & _).
  destruct (inv_steps publishable preview_fence preview_frames S id Hids Hmax Hn Hst w w' r Hi Hrun) as (r' & Hi' & Hs).
  exists r'. split; [apply Hi'|]. specialize (Hs a s o Ho). split; [exact Hs|].
  intros token B q f k Hq Ht x Hx [<- <-]. destruct (iv_runs S id w' r' Hi' token _ _ Hq) as (_ & Hwp & Hag).
  destruct Hwp as [Hl _]. unfold legal_ask in Hl. rewrite Hx in Hl. destruct Hl as (know & l & -> & _ & _ & Hin & _).
  destruct (Hag Ht) as [Erec _]. rewrite <- Erec in Hin. apply stagesToRetry_elem in Hin as [_ Hin]. by apply (Hin o).
Qed.

(** What the workbench shows of the plan ([enrichmentItemStates] as [present] calls it). *)
Definition workbench (r : Row) : list EnrichmentItemView :=
  enrichmentItemStates (assetIds S) (parseEnrichmentPlanResult (result (work r))) (status r)
    (Some (JNum (JInt (processedUnits (work r))))).

Lemma recorded_is_found i l : NoDup (map itemId l) -> recorded_item i l = find_item i l.
Proof.
  intros Hn. unfold recorded_item. destruct (find_item i l) as [x|] eqn:E.
  - pose proof (find_item_id _ _ _ E) as <-. apply find_item_elem; [by rewrite map_rev; apply NoDup_ListNoDup, List.NoDup_rev, NoDup_ListNoDup|].
    apply list_elem_of_In, in_rev. rewrite rev_involutive. apply list_elem_of_In. by eapply find_item_in.
  - apply find_item_None. apply find_item_None in E. rewrite map_rev. by intros ?%list_elem_of_In%in_rev%list_elem_of_In.
Qed.

Lemma item_outcome_ends i : enrichmentItemOutcome i ∈ [Item.Skipped; Item.Failed; Item.Completed].
Proof. apply (bool_decide_eq_true_1 _). unfold enrichmentItemOutcome. repeat case_match; reflexivity. Qed.

Lemma nothing_pending c : rec_ok S c -> finished S c -> enrichmentRetryPending (rec_result c) = [].
Proof.
  intros [_ _ _ Hr] [Hp _ Ht _]. unfold enrichmentRetryPending. destruct (retry (rec_result c)) as [pass|] eqn:E; [|done].
  unfold in_turn in Ht. rewrite Hp, E, lookup_ge_None_2 in Ht by lia. cbn in Ht. apply lookup_ge_None in Ht.
  destruct (Hr pass eq_refl) as [_ _ _ [Eq _] _]. rewrite Eq. unfold slice_past. rewrite <- Eq. by apply drop_ge.
Qed.

(** C24. A completed plan is answered for.  When the row says completed, every asset of the plan has an
    outcome for every stage; no retry is pending; an asset that failed failed in the retry pass, too; and
    the workbench shows every asset skipped, failed or completed, with the outcomes recorded. *)
Theorem completed_plan_is_answered (w : World) (r : Row) (Hw : reachable w) (Hr : rows (store w) !! id = Some r)
    (Hdone : status r = Status.Completed) :
  let result := rec_result (rec_of_row r) in
  (forall a s, a ∈ assetIds S -> s ∈ stages S -> is_Some (outcome_of result a s)) /\
  (forall a, a ∈ assetIds S -> a ∈ failed_ids result -> exists pass, retry result = Some pass /\ a ∈ ids pass) /\
  enrichmentRetryPending result = [] /\
  map viewId (workbench r) = assetIds S /\
  (forall v, v ∈ workbench r -> viewState v ∈ [Item.Skipped; Item.Failed; Item.Completed] /\ retryPending v = false /\
     forall s, viewStages v !! s = outcome_of result (viewId v) s).
Proof.
  cbv zeta. destruct (reachable_inv w Hw) as (r0 & Hi & _). pose proof (iv_row S id w r0 Hi) as E. rewrite Hr in E. injection E as <-.
  pose proof (iv_plan S id w r Hi) as Hp. pose proof (iv_done S id w r Hi Hdone) as Hf. pose proof (pr_rec S r Hp) as Hok.
  pose proof (parsed_snapshot _ _ (pr_snapshot S r Hp)) as (_ & _ & Hst). pose proof (nothing_pending _ Hok Hf) as Hpend.
  assert (forall a, a ∈ assetIds S -> answered S (rec_result (rec_of_row r)) a) as Hans.
  { intros a Ha. apply (ro_answered S _ Hok). rewrite (fin_processed S _ Hf). by rewrite take_ge. }
  split; [intros a s Ha Hs; by apply Hans|]. split; [|split; [done|split]].
  - intros a Ha Hfl. destruct (retry (rec_result (rec_of_row r))) as [pass|] eqn:Er.
    { exists pass. split; [done|]. by apply (ro_pass S _ Hok pass Er). }
    pose proof (fin_plan S _ Hf) as Hn. unfold planEnrichmentRetryPass in Hn. rewrite Er in Hn.
    destruct (length (uniq (failed_ids (rec_result (rec_of_row r)))) =? 0)%nat eqn:El; [|done].
    apply Nat.eqb_eq, length_zero_iff_nil in El. apply elem_of_uniq in Hfl. rewrite El in Hfl. by apply not_elem_of_nil in Hfl.
  - unfold workbench, enrichmentItemStates. apply list_eq. intros i. rewrite list_lookup_fmap, list_lookup_imap.
    destruct (assetIds S !! i) as [a|]; [|done]. cbn. f_equal. unfold item_view. by repeat case_match.
  - intros v (i & Hv)%list_elem_of_lookup_1. unfold workbench, enrichmentItemStates in Hv. rewrite list_lookup_imap in Hv.
    destruct (assetIds S !! i) as [a|] eqn:Ei; [|done]. cbn in Hv. injection Hv as <-.
    assert (a ∈ assetIds S) as Ha by by eapply list_elem_of_lookup_2. pose proof (lookup_lt_Some _ _ _ Ei) as Hlt.
    unfold item_view. rewrite Hdone. rewrite (recorded_is_found a) by apply Hok.
    change (parseEnrichmentPlanResult (result (work r))) with (rec_result (rec_of_row r)). rewrite Hpend.
    change (includes Status.Completed RUNNING_STATUSES) with false. change (includes a []) with false. cbn [andb].
    destruct (stages S) as [|s l] eqn:Es; [done|]. destruct (Hans a Ha s) as [o Ho]; [rewrite Es; apply elem_of_cons; by left|].
    unfold outcome_of, find_in in *. destruct (find_item a (items (rec_result (rec_of_row r)))) as [x|] eqn:Ex; [|done].
    assert (before_cursor (assetIds S) (Some (JNum (JInt (processedUnits (work r))))) i = true) as Hb.
    { unfold before_cursor, to_number. rewrite negb_true_iff. apply not_true_iff_false. rewrite Qle_bool_iff.
      pose proof (fin_processed S _ Hf) as Hpu. cbn in Hpu. pose proof (pr_processed S r Hp). cbn. rewrite <- Zle_Qle. lia. }
    rewrite Hb. cbn. split; [apply item_outcome_ends|]. split; [done|]. intros s'. cbn in Ex |- *. by rewrite Ex.
Qed.

(** *** Manual retries *)

(** The submission of a manual retry, over the assets it covers. *)
Definition manual_retry (r : Row) : EnrichmentPlanSnapshot * EnrichmentPlanResult :=
  let result := parseEnrichmentPlanResult (result (work r)) in
  enrichmentRetryRecord S result (enrichmentResumeIds (assetIds S) result (processedUnits (work r))).

Lemma filter_find (p : string -> bool) a l : p a = true -> find_item a (List.filter (fun i => p (itemId i)) l) = find_item a l.
Proof.
  intros Hp. induction l as [|x l IH]; [done|]. cbn [List.filter]. destruct (p (itemId x)) eqn:E; cbn.
  - destruct (String.eqb (itemId x) a); [done|exact IH].
  - destruct (String.eqb_spec (itemId x) a) as [E'|]; [congruence|exact IH].
Qed.

Lemma resume_ids_elem c a : rec_ok S c -> a ∈ assetIds S ->
  a ∉ enrichmentResumeIds (assetIds S) (rec_result c) (Z.of_nat (rec_processed c)) ->
  (a ∉ failed_ids (rec_result c)) /\ a ∈ take (rec_processed c) (assetIds S).
Proof.
  intros [Hp _ _ _] Ha Hn. unfold enrichmentResumeIds in Hn. rewrite elem_of_filter_b in Hn.
  assert (Z.to_nat (Z.max 0 (Z.min (Z.of_nat (rec_processed c)) (Z.of_nat (length (assetIds S))))) = rec_processed c) as En by lia.
  rewrite En in Hn. split.
  - intros Hf. apply Hn. split; [done|]. by rewrite (proj2 (includes_true _ _) Hf).
  - rewrite <- (take_drop (rec_processed c) (assetIds S)) in Ha. apply elem_of_app in Ha as [Ha|Ha]; [done|].
    destruct Hn. split; [rewrite <- (take_drop (rec_processed c) (assetIds S)); apply elem_of_app; by right|].
    apply orb_true_iff. right. apply includes_true, elem_of_app. by left.
Qed.

(** A manual retry covers exactly what is left.  An asset it leaves out has an outcome for every stage,
    none of them failed; an asset it covers keeps what is recorded of it, so that its settled stages
    are not run again; and the retry is again a plan as it is submitted, over those assets once each,
    with the stages, destinations and configuration of the first. *)
Theorem manual_retry_exact (w : World) (r : Row) (Hw : reachable w) (Hr : rows (store w) !! id = Some r) :
  let '(S', result') := manual_retry r in
  (forall a, a ∈ assetIds S -> a ∉ assetIds S' -> forall s, s ∈ stages S ->
     exists o, outcome_of (rec_result (rec_of_row r)) a s = Some o /\ state o <> Item.Failed) /\
  (forall a, a ∈ assetIds S' -> a ∈ assetIds S /\ forall s, outcome_of result' a s = outcome_of (rec_result (rec_of_row r)) a s) /\
  NoDup (assetIds S') /\ (stages S', destinations S', config S', configHash S') = (stages S, destinations S, config S, configHash S) /\
  fresh (mkRec result' 0) /\
  (assetIds S' <> [] -> parseEnrichmentPlanSnapshot (Some (snapshot_json S')) = Ok S').
Proof.
  destruct (reachable_inv w Hw) as (r0 & Hi & _). pose proof (iv_row S id w r0 Hi) as E. rewrite Hr in E. injection E as <-.
  pose proof (iv_plan S id w r Hi) as [_ Hsnap Hpos Hok]. unfold manual_retry, enrichmentRetryRecord. cbn [assetIds stages destinations config configHash].
  change (parseEnrichmentPlanResult (result (work r))) with (rec_result (rec_of_row r)).
  assert (processedUnits (work r) = Z.of_nat (rec_processed (rec_of_row r))) as -> by (cbn; lia).
  split; [|split; [|split; [|split; [done|split]]]].
  - intros a Ha Hn s Hs. destruct (resume_ids_elem _ a Hok Ha Hn) as [Hf Ht].
    destruct (ro_answered S _ Hok a Ht s Hs) as [o Ho]. exists o. split; [done|]. intros Hst. apply Hf.
    apply failed_ids_elem; [apply Hok|]. by exists s, o.
  - intros a Ha. split; [by apply elem_of_filter_b in Ha as [Ha _]|]. intros s. unfold outcome_of, find_in. cbn [items].
    rewrite (filter_find (fun i => includes i _)); [done|]. by apply includes_true.
  - by apply NoDup_filter_b.
  - split; [done|]. split; [done|]. split; [done|]. apply NoDup_map_filter_b, Hok.
  - intros Hne. apply (retry_parsed _ S _ Hsnap Hne). intros a Ha. apply elem_of_filter_b in Ha as [Ha _].
    by apply (parsed_snapshot _ _ Hsnap).
Qed.
End promises.

(** ** Recovery, and a plan left alone *)

Section alone.
Context (publishable : string -> string -> bool) (preview_fence : Row -> Z -> bool) (preview_frames : Row -> bool).
Context (id : string).
Abbreviation handle := (handle publishable preview_fence preview_frames).
Abbreviation recovery := (OperationStore.run publishable preview_fence preview_frames).
Abbreviation turn := (turn publishable preview_fence preview_frames id).
Abbreviation step := (step publishable preview_fence preview_frames id).

(** C25. Recovery never puts a plan back in the queue.  A plan whose claim lapsed (its worker crashed, or was
    shut down with the plan in hand) is cancelled by the sweep when its cancel was asked for, held when its
    pause was, and failed otherwise; its record stays for a manual retry, and no worker can claim it. *)
Theorem lapsed_plan_is_not_requeued (s : Store) (f : Failure) (j : string -> bool) (t : Times) (r : Row)
    (Hs : store_ok s) (Hr : rows s !! id = Some r) (Hkind : kind (request r) = Kind.EnrichmentPlan)
    (Hlost : lost_claim j t id r = true) :
  let s' := (recovery t (recoverExpiredClaims f j) s).2 in
  (exists r', rows s' !! id = Some r' /\ work r' = work r /\
     status r' = (if is_null (cancelRequestedAt (stop r))
                  then if is_null (pauseRequestedAt (stop r)) then Status.Failed else Status.Paused
                  else Status.Cancelled)) /\
  (forall t' worker token locked, (handle t' (ClaimNext id (plan_claim worker) token locked) s').1 = None).
Proof.
  cbv zeta. set (s' := (recovery t (recoverExpiredClaims f j) s).2).
  assert (rows s' !! id = Some (recovered f t r)) as E.
  { destruct (sweep_rows publishable preview_fence preview_frames s f j t Hs) as (_ & _ & _ & L).
    etransitivity; [exact (L id)|]. rewrite Hr. unfold sweep_row. cbn. by rewrite Hlost. }
  assert (safeAutomaticReplay r = false) as Hsafe by (unfold safeAutomaticReplay; by rewrite Hkind).
  assert (status (recovered f t r) = (if is_null (cancelRequestedAt (stop r))
            then if is_null (pauseRequestedAt (stop r)) then Status.Failed else Status.Paused else Status.Cancelled)
          /\ work (recovered f t r) = work r) as [Est Ew].
  { unfold recovered, recovery_outcome. rewrite Hsafe.
    by destruct (is_null (cancelRequestedAt (stop r))), (is_null (pauseRequestedAt (stop r))). }
  split; [by exists (recovered f t r)|]. intros t' worker token locked. clearbody s'.
  rewrite claimNext_update. unfold oldest. rewrite E.
  assert (claimable (plan_claim worker) t' (recovered f t r) = false) as ->; [|done].
  unfold claimable. rewrite Est. by destruct (is_null (cancelRequestedAt (stop r))), (is_null (pauseRequestedAt (stop r))).
Qed.

(** When a turn can start: the clock has not gone back, the lease outlasts the turn, and the token is new. *)
Record may_start (t : Times) (token : string) (w : World) : Prop := mkStart {
  ms_time : time_ok w t;
  ms_lease : clock t < now t + ENRICHMENT_PLAN_LEASE_MS;
  ms_new : token ∉ given w
}.

Lemma turn_given t oracle text worker token w : given (turn t oracle text worker token w) = {[token]} ∪ given w.
Proof.
  unfold EnrichmentAlone.turn.
  assert (forall m k w0, given (play publishable preview_fence preview_frames t oracle text token m k w0) = given w0) as Hp.
  { intros m. induction m as [a|e|B o g IH|B q g IH|g IH|g IH]; intros k w0; cbn; [done|done|by rewrite IH..]. }
  by rewrite Hp.
Qed.

(** C23. A plan left alone completes.  Whatever its stages answer or throw, a plan that may be claimed is
    completed by one turn of a worker, or that turn records the assets that failed and puts it back, due
    after the delay; and then the next turn after the delay completes it, whatever its stages do.  There
    is no third turn. *)
Theorem plan_completes (w : World) (S : EnrichmentPlanSnapshot) (r : Row) (worker token : string) (t : Times)
    (oracle : forall B, AskE B -> B + string) (text : string)
    (Hready : ready id t (store w) r) (Hparsed : parseEnrichmentPlanSnapshot (Some (snapshot (request r))) = Ok S)
    (Hcalm : calm oracle) (Hstart : may_start t token w) :
  let w1 := turn t oracle text worker token w in
  rtc step w w1 /\ exists r1, rows (store w1) !! id = Some r1 /\
  (status r1 = Status.Completed \/
   waiting_retry t r1 /\
   forall worker' token' t' oracle' text', calm oracle' -> may_start t' token' w1 ->
     now t + EnrichmentRun.MEDIA_OPERATION_AUTO_RETRY_DELAY_MS <= now t' ->
     let w2 := turn t' oracle' text' worker' token' w1 in
     rtc step w1 w2 /\ exists r2, rows (store w2) !! id = Some r2 /\ status r2 = Status.Completed).
Proof.
  destruct Hcalm as [C1 C2 C3 C4], Hstart as [S1 S2 S3]. cbv zeta. split; [by apply turn_steps|].
  destruct (outcome_turn publishable preview_fence preview_frames id t oracle text S2 C1 C2 C3 C4 token (store w) r worker S Hready Hparsed)
    as (s1 & r1 & E1 & [L1 L2 L3] & Hd).
  assert (store (turn t oracle text worker token w) = s1) as Es1 by (by rewrite turn_store, E1).
  exists r1. rewrite Es1. split; [done|]. destruct Hd as [Hd|[_ Hwait]]; [by left|right]. split; [done|].
  intros worker' token' t' oracle' text' [D1 D2 D3 D4] [T1 T2 T3] Hdue. split; [by apply turn_steps|].
  pose proof Hwait as (W1 & W2 & W3 & W4 & W5 & W6). pose proof Hready as [R1 R2 R3 R4 R5 R6 R7 R8].
  assert (ready id t' s1 r1) as Hready'.
  { split; [done..|by rewrite L3|done|done| | |].
    - revert R6. unfold notJobQueueExecuted, snapshot_text. by rewrite L3.
    - unfold due. rewrite W5. by apply Z.leb_le.
    - intros k x Hx Hk. destruct (decide (k = id)) as [->|Hne]; [done|]. rewrite L2 in Hx by done. by apply (R8 k x). }
  rewrite <- L3 in Hparsed. rewrite <- Es1 in Hready'.
  destruct (outcome_turn publishable preview_fence preview_frames id t' oracle' text' T2 D1 D2 D3 D4 token' _ r1 worker' S Hready' Hparsed)
    as (s2 & r2 & E2 & [M1 _ _] & Hd2).
  exists r2. rewrite turn_store, E2. split; [done|]. destruct Hd2 as [Hd2|[Hn _]]; [done|]. destruct W6 as [? W6]. congruence.
Qed.
End alone.

(** ** A sample plan: two photographs, one of which cannot be described at first *)

Definition sample_plan : EnrichmentPlanSnapshot :=
  mkSnapshot ["a"; "b"] [Stage.LockedCheck; Stage.Description] [Stage.LockedCheck; Stage.Description]
    (mkDestinations (Some "gpu") None)
    [("description", JObj []); ("lockedCheck", JObj []); ("search", JObj [("modelName", JStr "clip")])] "hash" None false.
Definition sample_plan_row : Row :=
  inserted (mkCreate (OperationStore.mkRequest "ana" Kind.EnrichmentPlan RenderAdmission.DestLocal None None None
                        (snapshot_json sample_plan) 0) None (Some (result_json emptyEnrichmentPlanResult)) (Some 2)) (at_time 0).
Definition sample_world : World := mkWorld (mkStore {[ "plan" := sample_plan_row ]} ∅) 0 ∅ ∅ [] [] [].

(** The stages' answers: the photograph ["b"] is refused a description unless [good]. *)
Definition sample_oracle (good : bool) (B : Type) (q : AskE B) : B + string :=
  match q in AskE B return B + string with
  | IsPaused => inl false
  | UserExists _ => inl true
  | AssetIsVideo _ => inl (Some false)
  | MayUpdate _ _ => inl true
  | DetectLocked _ _ => inl (mkStageResult Job.Success None None)
  | Describe a _ => if String.eqb a "b" && negb good then inr "the model timed out"
                    else inl (mkStageResult Job.Success None None)
  | RunFrames _ => inr "unused"
  | RunIndex _ _ _ _ => inr "unused"
  | CurrentDescription => inr "unused"
  | RunCaptions _ _ _ _ _ => inr "unused"
  end%string.
Lemma sample_calm good : calm (sample_oracle good).
Proof. split; [done|done|by eexists|by eexists]. Qed.

Abbreviation sample_turn := (turn sample_pub sample_fence sample_frames "plan").
Definition sample_first : World := sample_turn (at_time 1) (sample_oracle false) "t1" "w1" "k1" sample_world.
Definition sample_second : World := sample_turn (at_time 100000) (sample_oracle true) "t2" "w2" "k2" sample_first.
Definition row_in (w : World) : Row := default sample_plan_row (rows (store w) !! "plan"%string).

Lemma sample_row_first : rows (store sample_first) !! "plan"%string = Some (row_in sample_first).
Proof. vm_compute. reflexivity. Qed.
Lemma sample_row_second : rows (store sample_second) !! "plan"%string = Some (row_in sample_second).
Proof. vm_compute. reflexivity. Qed.

Lemma sample_ids : NoDup (assetIds sample_plan).
Proof. apply (bool_decide_eq_true_1 _). vm_compute. reflexivity. Qed.
Lemma sample_max : Z.of_nat (length (assetIds sample_plan)) <= ENRICHMENT_PLAN_MAX_ASSETS.
Proof. vm_compute. discriminate. Qed.

Lemma sample_plan_begins : submitted sample_plan "plan" sample_world.
Proof.
  assert (fresh (rec_of_row sample_plan_row)) as Hf.
  { split; [reflexivity|]. split; [reflexivity|]. split; [reflexivity|]. apply NoDup_nil_2. }
  exists sample_plan_row. split; [|split; [reflexivity|]]; [|split; [split; [reflexivity|vm_compute; reflexivity|vm_compute; discriminate|by apply fresh_ok]|]].
  - intros k r Hk. cbn in Hk. apply lookup_singleton_Some in Hk as [<- <-]. split; vm_compute; intuition congruence.
  - split; [exact Hf|]. by repeat split.
Qed.
Lemma sample_step_first : rtc (step sample_pub sample_fence sample_frames "plan") sample_world sample_first.
Proof. apply turn_steps; [apply not_elem_of_empty|]. split; vm_compute; discriminate. Qed.
Lemma sample_start : may_start (at_time 100000) "k2" sample_first.
Proof.
  split; [split; vm_compute; discriminate|vm_compute; reflexivity|]. unfold sample_first. rewrite turn_given.
  intros [E%elem_of_singleton|E]%elem_of_union; [discriminate E|by apply not_elem_of_empty in E].
Qed.
Lemma sample_step_second : rtc (step sample_pub sample_fence sample_frames "plan") sample_first sample_second.
Proof. apply turn_steps; apply sample_start. Qed.
Lemma sample_reach_first : reachable sample_pub sample_fence sample_frames sample_plan "plan" sample_first.
Proof. exists sample_world. split; [apply sample_plan_begins|apply sample_step_first]. Qed.
Lemma sample_reach_second : reachable sample_pub sample_fence sample_frames sample_plan "plan" sample_second.
Proof. exists sample_world. split; [apply sample_plan_begins|]. etransitivity; [apply sample_step_first|apply sample_step_second]. Qed.

(** ["b"]'s description was sent off once by each of the two turns. *)
Lemma stage_runs_bounded_witness :
  times_sent "b" Stage.Description sample_second = 2%nat /\
  (times_sent "b" Stage.Description sample_second <= 2 + count_of "b" (found sample_second))%nat.
Proof.
  split; [vm_compute; reflexivity|].
  exact (proj1 (stage_runs_bounded sample_pub sample_fence sample_frames sample_plan "plan" sample_ids sample_max
                  sample_second sample_reach_second) "b"%string Stage.Description).
Defined.

Definition sample_outcome : EnrichmentStageOutcome := EnrichmentPlan.mkOutcome Item.Completed None None (Some "t1"%string).
Lemma sample_settled : settled (rec_result (rec_of_row (row_in sample_first))) "a" Stage.Description sample_outcome.
Proof. split; vm_compute; reflexivity. Qed.

Lemma settled_outcome_stands_witness :
  exists r', rows (store sample_second) !! "plan"%string = Some r' /\
    settled (rec_result (rec_of_row r')) "a" Stage.Description sample_outcome.
Proof.
  destruct (settled_outcome_stands sample_pub sample_fence sample_frames sample_plan "plan" sample_ids sample_max
              sample_first sample_second (row_in sample_first) "a" Stage.Description sample_outcome
              sample_reach_first sample_row_first sample_settled sample_step_second) as (r' & H1 & H2 & _).
  exact (ex_intro _ r' (conj H1 H2)).
Defined.

Lemma sample_done : status (row_in sample_second) = Status.Completed.
Proof. vm_compute. reflexivity. Qed.

Lemma completed_plan_is_answered_witness :
  enrichmentRetryPending (rec_result (rec_of_row (row_in sample_second))) = [] /\
  map viewId (workbench sample_plan (row_in sample_second)) = assetIds sample_plan.
Proof.
  destruct (completed_plan_is_answered sample_pub sample_fence sample_frames sample_plan "plan" sample_ids sample_max
              sample_second (row_in sample_second) sample_reach_second sample_row_second sample_done) as (_ & _ & H3 & H4 & _).
  exact (conj H3 H4).
Defined.

Lemma manual_retry_exact_witness :
  (manual_retry sample_plan (row_in sample_first)).1.(assetIds) = ["b"%string] /\
  NoDup (assetIds (manual_retry sample_plan (row_in sample_first)).1).
Proof.
  split; [vm_compute; reflexivity|].
  exact (proj1 (proj2 (proj2 (manual_retry_exact sample_pub sample_fence sample_frames sample_plan "plan" sample_ids sample_max
                  sample_first (row_in sample_first) sample_reach_first sample_row_first)))).
Defined.

(** The sample plan in hand of a worker that is gone. *)
Definition sample_lapsed : Store :=
  (sample_handle (at_time 1) (ClaimNext "plan" (plan_claim "w1") "k1" (fun _ => false)) (store sample_world)).2.
Definition sample_gone : Row := default sample_plan_row (rows sample_lapsed !! "plan"%string).
Lemma sample_lapsed_ok : store_ok sample_lapsed.
Proof.
  destruct (handle_moves sample_pub sample_fence sample_frames (at_time 1)
              (ClaimNext "plan" (plan_claim "w1") "k1" (fun _ => false)) (store sample_world)) as [H _]; [|exact H].
  destruct sample_plan_begins as (r & Hs & _). exact Hs.
Qed.
Lemma sample_lapsed_row : rows sample_lapsed !! "plan"%string = Some sample_gone.
Proof. vm_compute. reflexivity. Qed.

Lemma lapsed_plan_is_not_requeued_witness :
  exists r', rows (sample_run (at_time 700000) (recoverExpiredClaims sample_lost (fun _ => false)) sample_lapsed).2 !! "plan"%string
               = Some r' /\ work r' = work sample_gone /\ status r' = Status.Failed.
Proof.
  exact (proj1 (lapsed_plan_is_not_requeued sample_pub sample_fence sample_frames "plan" sample_lapsed sample_lost
                  (fun _ => false) (at_time 700000) sample_gone sample_lapsed_ok sample_lapsed_row eq_refl eq_refl)).
Defined.

Lemma sample_ready : ready "plan" (at_time 1) (store sample_world) sample_plan_row.
Proof.
  split; [reflexivity..|]. intros k x Hx _. cbn in Hx. by apply lookup_singleton_Some in Hx as [<- _].
Qed.
Lemma sample_may_start : may_start (at_time 1) "k1" sample_world.
Proof. split; [split; vm_compute; discriminate|vm_compute; reflexivity|apply not_elem_of_empty]. Qed.
Lemma sample_not_done : status (row_in sample_first) <> Status.Completed.
Proof. vm_compute. discriminate. Qed.
Lemma sample_open r1 : rows (store sample_first) !! "plan"%string = Some r1 -> status r1 <> Status.Completed.
Proof. rewrite sample_row_first. intros E%(inj Some). rewrite <- E. exact sample_not_done. Qed.
Lemma sample_due : now (at_time 1) + EnrichmentRun.MEDIA_OPERATION_AUTO_RETRY_DELAY_MS <= now (at_time 100000).
Proof. vm_compute. discriminate. Qed.

(** The first turn leaves the plan waiting for its retry; the second completes it. *)
Lemma plan_completes_witness :
  (exists r1, rows (store sample_first) !! "plan"%string = Some r1 /\ status r1 <> Status.Completed) /\
  exists r2, rows (store sample_second) !! "plan"%string = Some r2 /\ status r2 = Status.Completed.
Proof.
  split; [exists (row_in sample_first); exact (conj sample_row_first sample_not_done)|].
  destruct (plan_completes sample_pub sample_fence sample_frames "plan" sample_world sample_plan sample_plan_row "w1" "k1"
              (at_time 1) (sample_oracle false) "t1" sample_ready eq_refl (sample_calm false) sample_may_start)
    as (_ & r1 & E1 & [Hd|[_ Hnext]]).
  - destruct (sample_open r1 E1 Hd).
  - exact (proj2 (Hnext "w2"%string "k2"%string (at_time 100000) (sample_oracle true) "t2"%string (sample_calm true) sample_start sample_due)).
Defined.
