(* ===== verification/MlDestination.v ===== *)
(** * Where machine learning runs: destinations and admission
    ([server/src/utils/ml-destination.ts], [frameleaf-cloud.ts])

    The row of a destination, what its checks learned, the roles of a worker, the model a Frameleaf Cloud
    job names, and the admission rule: which single reason refuses a destination for a kind of work.
    The sentence that goes with a refusal is left out. *)

From Stdlib Require Import QArith_base.
From S2P Require Import Prelude JsNumber JsString.
Local Open Scope Z_scope.

(** ** Enumerations *)

Inductive MlDestinationKind := LocalKind | Lan | FrameleafCloud.
#[export] Instance MlDestinationKind_eq_dec : EqDecision MlDestinationKind.
Proof. solve_decision. Defined.

Module Work.
Inductive MlWorkload :=
  Face | Clip | Ocr | Enrichment | RestorationFaithful | RestorationCreative | StudioAi | Upscale | Interpolation
| StudioRender | PetRecognition.
Definition value (w : MlWorkload) : string :=
  match w with
  | Face => "face"
  | Clip => "clip"
  | Ocr => "ocr"
  | Enrichment => "enrichment"
  | RestorationFaithful => "restoration-faithful"
  | RestorationCreative => "restoration-creative"
  | StudioAi => "studio-ai"
  | Upscale => "upscale"
  | Interpolation => "interpolation"
  | StudioRender => "studio-render"
  | PetRecognition => "pet-recognition"
  end.
Definition all : list MlWorkload :=
  [Face; Clip; Ocr; Enrichment; RestorationFaithful; RestorationCreative; StudioAi; Upscale; Interpolation;
   StudioRender; PetRecognition].
Definition of_value (s : string) : option MlWorkload := List.find (fun w => String.eqb (value w) s) all.
Lemma Work_of_value_value w : of_value (value w) = Some w.
Proof. by destruct w. Qed.
#[export] Instance MlWorkload_eq_dec : EqDecision MlWorkload.
Proof. solve_decision. Defined.
End Work.
#[export] Existing Instance Work.MlWorkload_eq_dec.
Import Work.

Inductive MlDestinationHealth := Healthy | Unhealthy | UnknownHealth.
#[export] Instance MlDestinationHealth_eq_dec : EqDecision MlDestinationHealth.
Proof. solve_decision. Defined.

Inductive MlAdmissionRefusal :=
  DestinationMissing | DestinationDisabled | WorkloadNotRouted | WorkloadNotAllowed | WorkloadNotServed
| ConsentMissing | DisclosurePending | BudgetExceeded | EndpointUnresolved | DestinationUnhealthy | RoleConflict
| CloudUnavailable | EntitlementMissing | ConsentVersionOutdated | WalletInsufficient | QuotaExceeded
| ModelMismatch | InsufficientMemory | RequestInvalid.
#[export] Instance MlAdmissionRefusal_eq_dec : EqDecision MlAdmissionRefusal.
Proof. solve_decision. Defined.

Inductive MlWorkerRole := LibraryAnalysis | Restoration | Studio | Mixed | Unassigned.
#[export] Instance MlWorkerRole_eq_dec : EqDecision MlWorkerRole.
Proof. solve_decision. Defined.
Inductive MlWorkerReadiness := UnknownReadiness | Disabled | Unreachable | NotServing | CpuReady | ModelReady.
Inductive MlWorkerAcceleration := UnknownAcceleration | Cpu | Gpu.
#[export] Instance MlWorkerAcceleration_eq_dec : EqDecision MlWorkerAcceleration.
Proof. solve_decision. Defined.

Definition LIBRARY_ML_WORKLOADS : list MlWorkload := [Face; Clip; Ocr; Enrichment; PetRecognition].
Definition FRAMELEAF_CLOUD_ML_WORKLOADS : list MlWorkload :=
  [Enrichment; Upscale; RestorationFaithful; RestorationCreative; StudioAi; Interpolation].
Definition FRAMELEAF_CLOUD_CATALOG_WORKLOADS : list MlWorkload := [Clip; Face].
Definition FRAMELEAF_CLOUD_ELIGIBLE_WORKLOADS : list MlWorkload :=
  FRAMELEAF_CLOUD_ML_WORKLOADS ++ FRAMELEAF_CLOUD_CATALOG_WORKLOADS.
Definition RESTORATION_ML_WORKLOADS : list MlWorkload := [RestorationFaithful; RestorationCreative; Interpolation].
Definition CLOUD_ML_DESTINATION_KINDS : list MlDestinationKind := [FrameleafCloud].

(** ** What a check learned *)

Record CloudConsentFeatures := mkFeatures { smartSearch : bool; faceRecognition : bool }.

Record CloudProbeFacts := mkFacts {
  consentRequiredVersion : option string;
  features : CloudConsentFeatures;
  entitled : bool;
  balanceUsd : Q;
  heldUsd : Q;
  dailyCapUsd : option Q;
  spentTodayUsd : Q;
  modelIds : list string;
  defaultModels : option (list (string * string));
  modelGroups : option (list (string * string));
  localModels : option (list (string * string));
  facts_refusal : option MlAdmissionRefusal
}.

Record MlProbeHardware := mkHardware {
  preferredAcceleration : option string;
  providers : list string;
  cudaDeviceCount : Z;
  (** The memory of each GPU. *)
  gpus : list Z
}.

Record MlEndpointProbe := mkProbe {
  reachable : bool;
  probe_workloads : list MlWorkload;
  probedAt : Z;
  probe_error : option string;
  cloud : option CloudProbeFacts
}.

Record MlDestinationRow := mkDestination {
  id : string;
  kind : MlDestinationKind;
  name : string;
  url : option string;
  authToken : option string;
  enabled : bool;
  workloads : list MlWorkload;
  consentAcknowledgedAt : option Z;
  budgetLimitUsd : option Q;
  lastProbeAt : option Z;
  lastProbeHealth : MlDestinationHealth;
  lastProbeSummary : option string;
  lastProbeWorkloads : option (list MlWorkload);
  lastProbeHardware : option MlProbeHardware;
  consentVersion : option string;
  lastProbeCloud : option CloudProbeFacts
}.

(** ** Destinations *)

Definition isCloudDestination (k : MlDestinationKind) : bool := includes k CLOUD_ML_DESTINATION_KINDS.
Definition hasRequiredConsent (d : MlDestinationRow) : bool :=
  negb (isCloudDestination (kind d)) || bool_decide (is_Some (consentAcknowledgedAt d)).

Record MlEndpoint := mkEndpoint { endpoint_url : string; endpoint_token : option string }.
Definition FRAMELEAF_CLOUD_ENDPOINT : MlEndpoint := mkEndpoint "frameleaf-cloud:gateway" None.

Definition resolveEndpoint (d : MlDestinationRow) : option MlEndpoint :=
  if bool_decide (kind d = FrameleafCloud) then Some FRAMELEAF_CLOUD_ENDPOINT
  else match url d with
       | None | Some EmptyString => None
       | Some u => Some (mkEndpoint u match authToken d with Some EmptyString => None | x => x end)
       end.

(** [routing] as the administrator set it for each kind of work: [true] where it says ["local"]. *)
Record CloudMl := mkCloudMl { cloud_enabled : bool; kept_local : string -> bool }.

Definition ROUTED_KIND (w : MlWorkload) : option string :=
  match w with
  | Enrichment => Some "descriptions"
  | Upscale => Some "upscale"
  | RestorationFaithful | RestorationCreative => Some "restoration"
  | StudioAi => Some "studio"
  | Interpolation => Some "interpolation"
  | _ => None
  end%string.
Definition cloudRouteAllows (settings : CloudMl) (w : MlWorkload) : bool :=
  includes w FRAMELEAF_CLOUD_CATALOG_WORKLOADS ||
  match ROUTED_KIND w with Some k => negb (kept_local settings k) | None => false end.

(** ** Roles *)

Definition mayMixRoles (k : MlDestinationKind) : bool := bool_decide (k = FrameleafCloud).
Definition isLibraryWorkload (w : MlWorkload) : bool := includes w LIBRARY_ML_WORKLOADS.
Definition isRestorationWorkload (w : MlWorkload) : bool := includes w RESTORATION_ML_WORKLOADS.

Definition mlWorkerRoleOf (l : list MlWorkload) : MlWorkerRole :=
  let library := existsb isLibraryWorkload l in
  let restoration := existsb isRestorationWorkload l in
  if library && restoration then Mixed
  else if library then LibraryAnalysis
  else if restoration then Restoration
  else if (0 <? length l)%nat then Studio else Unassigned.

(** Whether a destination may not be allowed these workloads. *)
Definition workloadPolicyProblem (k : MlDestinationKind) (l : list MlWorkload) : bool :=
  if bool_decide (k = FrameleafCloud) then existsb (fun w => negb (includes w FRAMELEAF_CLOUD_ELIGIBLE_WORKLOADS)) l
  else bool_decide (mlWorkerRoleOf l = Mixed).

(** ** Hardware and readiness *)

Definition CPU_PROVIDERS : list string := ["CPUExecutionProvider"; "AzureExecutionProvider"]%string.
Definition accelerationOf (hardware : option MlProbeHardware) : MlWorkerAcceleration :=
  match hardware with
  | None => UnknownAcceleration
  | Some h =>
      if (0 <? length (gpus h))%nat || (0 <? cudaDeviceCount h) ||
         match preferredAcceleration h with Some a => negb (String.eqb a "auto") | None => false end ||
         existsb (fun p => negb (includes p CPU_PROVIDERS)) (providers h)
      then Gpu else Cpu
  end.

Definition readinessOf (d : MlDestinationRow) : MlWorkerReadiness :=
  if negb (enabled d) then Disabled
  else match lastProbeHealth d, lastProbeWorkloads d with
       | UnknownHealth, _ => UnknownReadiness
       | Unhealthy, _ | _, None => Unreachable
       | Healthy, Some served =>
           if (length (List.filter (fun w => includes w (workloads d)) served) =? 0)%nat then NotServing
           else if bool_decide (accelerationOf (lastProbeHardware d) = Cpu) then CpuReady else ModelReady
       end.

Definition ML_WORKLOAD_MIN_GPU_MEMORY_BYTES (w : MlWorkload) : option Z :=
  match w with PetRecognition => Some (1024 ^ 3) | _ => None end.
Definition insufficientMemory (d : MlDestinationRow) (w : MlWorkload) : bool :=
  match ML_WORKLOAD_MIN_GPU_MEMORY_BYTES w, match lastProbeHardware d with Some h => gpus h | None => [] end with
  | Some required, (g :: rest) => foldl Z.max g rest <? required
  | _, _ => false
  end.

Definition healthFromProbe (p : MlEndpointProbe) : MlDestinationHealth :=
  if reachable p && bool_decide (probe_error p = None) then Healthy else Unhealthy.

(** ** The model a Frameleaf Cloud job names *)

Definition hasPendingCloudDisclosure (w : MlWorkload) : bool :=
  negb (includes w [Enrichment; RestorationFaithful; RestorationCreative; Upscale; Interpolation; StudioAi; Clip; Face]).

Inductive StudioAiCloudFeature := SpeechToText | Captions | Speech.

Definition studioAiCloudWorkloadId (f : StudioAiCloudFeature) : string :=
  match f with Speech => "tts" | _ => "transcription" end%string.

Definition cloudWorkloadIdFor (w : MlWorkload) : option string :=
  match w with
  | Enrichment => Some "descriptions"
  | Upscale => Some "upscale"
  | RestorationFaithful | RestorationCreative => Some "restoration"
  | Interpolation => Some "interpolation"
  | Clip => Some "clip"
  | Face => Some "face"
  | _ => None
  end%string.

Definition catalogGroupKey (workload : string) (mode : option string) : string :=
  match mode with Some (String _ _ as m) => (workload +:+ "-" +:+ m)%string | _ => workload end.

Definition CLOUD_MODEL_GROUPS : list string :=
  ["descriptions"; "upscale"; "restoration-faithful"; "restoration-creative"; "interpolation"; "transcription"; "tts"]%string.
Definition isCloudModelGroup (g : string) : bool := includes g CLOUD_MODEL_GROUPS.

Definition is_pinned_work (w : MlWorkload) : bool := bool_decide (w = Clip) || bool_decide (w = Face).

Definition cloudDefaultGroupFor (w : MlWorkload) : option string :=
  match cloudWorkloadIdFor w with
  | None => None
  | Some c =>
      if is_pinned_work w then None
      else Some match w with
                | RestorationFaithful => catalogGroupKey c (Some "faithful"%string)
                | RestorationCreative => catalogGroupKey c (Some "creative"%string)
                | _ => catalogGroupKey c None
                end
  end.

Definition lookup_in (m : option (list (string * string))) (k : string) : option string := m ≫= fun m => assoc_get k m.

Definition cloudModelFor (w : MlWorkload) (chosen : option string) (facts : option CloudProbeFacts) : option string :=
  if is_pinned_work w then facts ≫= fun f => lookup_in (localModels f) (Work.value w)
  else match chosen with
       | Some (String _ _ as m) => Some m
       | _ => g ← cloudDefaultGroupFor w; f ← facts; lookup_in (defaultModels f) g
       end.

Definition cloudModelGroupFor (w : MlWorkload) (feature : option StudioAiCloudFeature) : option string :=
  if is_pinned_work w then Some (Work.value w)
  else if bool_decide (w = StudioAi) then
    f ← feature; Some (if String.eqb (studioAiCloudWorkloadId f) "tts" then "tts" else "transcription")%string
  else g ← cloudDefaultGroupFor w; if isCloudModelGroup g then Some g else None.

(** A group key stored with a colon before the keys were hyphenated. *)
Definition hyphenatedGroup (g : string) : string :=
  (if String.eqb g "restoration:faithful" then "restoration-faithful"
   else if String.eqb g "restoration:creative" then "restoration-creative" else g)%string.

(** [Object.fromEntries(Object.entries(m).map(...))]: of two keys that become one, the later stands. *)
Definition from_entries (l : list (string * string)) : list (string * string) :=
  foldl (fun acc '(k, v) => assoc_set k v acc) [] l.
Definition normalizeCloudProbeFacts (facts : CloudProbeFacts) : CloudProbeFacts :=
  mkFacts (consentRequiredVersion facts) (features facts) (entitled facts) (balanceUsd facts) (heldUsd facts)
    (dailyCapUsd facts) (spentTodayUsd facts) (modelIds facts) ((fun m => from_entries (map (fun e => (hyphenatedGroup e.1, e.2)) m)) <$> defaultModels facts)
    ((fun m => from_entries (map (fun e => (e.1, hyphenatedGroup e.2)) m)) <$> modelGroups facts) (localModels facts) (facts_refusal facts).

(** The persisted check as an admission input. *)
Definition storedProbe (d : MlDestinationRow) : option MlEndpointProbe :=
  at_ ← lastProbeAt d;
  let healthy := bool_decide (lastProbeHealth d = Healthy) in
  Some (mkProbe healthy (default [] (lastProbeWorkloads d)) at_
          (if healthy then None else Some (default "not probed"%string (lastProbeSummary d)))
          (normalizeCloudProbeFacts <$> lastProbeCloud d)).

(** ** Admission *)

(** [{ admitted: true }], or a refusal; [consentUnconfirmed] when the cloud refused its own status check. *)
Inductive MlAdmissionVerdict := Admitted_ | Refused (refusal : MlAdmissionRefusal) (consentUnconfirmed : bool).
#[export] Instance MlAdmissionVerdict_eq_dec : EqDecision MlAdmissionVerdict.
Proof. solve_decision. Defined.
Abbreviation refuse r := (Some (Refused r false)).

Record MlAdmissionInput := mkInput {
  in_workload : MlWorkload;
  in_spentUsd : Q;
  in_modelId : option string;
  in_holdUsd : option Q;
  in_studioFeature : option StudioAiCloudFeature;
  in_fromStoredCheck : bool;
  in_createdCloudJob : bool
}.

Definition at_least (a b : Q) : bool := Qle_bool b a.

Definition over_budget (d : MlDestinationRow) (spent : Q) : bool :=
  match budgetLimitUsd d with Some limit => at_least spent limit | None => false end.

(** The wallet, the daily cap and the offer, once the model is settled. *)
Definition cloud_funds (i : MlAdmissionInput) (facts : CloudProbeFacts) : option MlAdmissionVerdict :=
  let available := fl (balanceUsd facts - heldUsd facts) in
  if Qle_bool (balanceUsd facts) 0 || Qle_bool available 0 then refuse WalletInsufficient
  else if match in_holdUsd i with Some hold => negb (Qle_bool hold available) | None => false end
  then refuse WalletInsufficient
  else if match dailyCapUsd facts with Some cap => at_least (spentTodayUsd facts) cap | None => false end
  then refuse BudgetExceeded
  else None.

(** The Frameleaf Cloud rules, from the gateway's report. *)
Definition evaluateCloudAdmission (d : MlDestinationRow) (probe : MlEndpointProbe) (i : MlAdmissionInput)
  : option MlAdmissionVerdict :=
  match cloud probe with
  | None => refuse CloudUnavailable
  | Some facts =>
      match facts_refusal facts with
      | Some r => Some (Refused r true)
      | None =>
          if negb (reachable probe) then refuse CloudUnavailable
          else if negb (entitled facts) then refuse EntitlementMissing
          else if match consentRequiredVersion facts with
                  | Some v => negb (bool_decide (consentVersion d = Some v))
                  | None => false
                  end then refuse ConsentVersionOutdated
          else
            let w := in_workload i in
            let modelsKnown := negb (in_fromStoredCheck i) || bool_decide (is_Some (modelGroups facts)) in
            let model := match cloudModelFor w (in_modelId i) (Some facts) with
                         | Some (String _ _ as m) => Some m
                         | _ => None
                         end in
            let group := cloudModelGroupFor w (in_studioFeature i) in
            if modelsKnown && match model with Some m => negb (includes m (modelIds facts)) | None => false end
            then refuse ModelMismatch
            else if modelsKnown &&
                    match model with
                    | Some m => match group with
                                | Some g => negb (bool_decide (lookup_in (modelGroups facts) m = Some g))
                                | None => true
                                end
                    | None => false
                    end
            then refuse ModelMismatch
            else match cloud_funds i facts with
                 | Some v => Some v
                 | None =>
                     if negb (includes w (probe_workloads probe)) then refuse WorkloadNotServed
                     else if negb modelsKnown then refuse DestinationUnhealthy
                     else match model with Some _ => None | None => refuse ModelMismatch end
                 end
      end
  end.

(** Smart search and faces each need their own consent, from the report. *)
Definition cloudFeatureConsentProblem (w : MlWorkload) (probe : MlEndpointProbe) : option MlAdmissionVerdict :=
  if negb (includes w FRAMELEAF_CLOUD_CATALOG_WORKLOADS) then None
  else match cloud probe with
       | None => None
       | Some facts =>
           match facts_refusal facts with
           | Some _ => None
           | None => if if bool_decide (w = Clip) then smartSearch (features facts) else faceRecognition (features facts)
                     then None else refuse ConsentMissing
           end
       end.

Definition frameleafCloudEligibility (d : MlDestinationRow) (probe : option MlEndpointProbe) (i : MlAdmissionInput)
  : option MlAdmissionVerdict :=
  let w := in_workload i in
  if negb (includes w FRAMELEAF_CLOUD_ELIGIBLE_WORKLOADS) then refuse WorkloadNotAllowed
  else if negb (hasRequiredConsent d) then refuse ConsentMissing
  else if hasPendingCloudDisclosure w then refuse DisclosurePending
  else if negb (in_createdCloudJob i) && over_budget d (in_spentUsd i) then refuse BudgetExceeded
  else match probe with
       | None => refuse DestinationUnhealthy
       | Some probe =>
           match cloudFeatureConsentProblem w probe with
           | Some v => Some v
           | None => evaluateCloudAdmission d probe i
           end
       end.

Definition evaluateAdmission (destination : option MlDestinationRow) (endpoint : option MlEndpoint)
    (probe : option MlEndpointProbe) (i : MlAdmissionInput) : MlAdmissionVerdict :=
  match destination with
  | None => Refused DestinationMissing false
  | Some d =>
      let w := in_workload i in
      if negb (enabled d) then Refused DestinationDisabled false
      else if negb (includes w (workloads d)) then Refused WorkloadNotAllowed false
      else if bool_decide (kind d = FrameleafCloud) then default Admitted_ (frameleafCloudEligibility d probe i)
      else if isRestorationWorkload w && negb (mayMixRoles (kind d)) && bool_decide (mlWorkerRoleOf (workloads d) = Mixed)
      then Refused RoleConflict false
      else if negb (hasRequiredConsent d) then Refused ConsentMissing false
      else if over_budget d (in_spentUsd i) then Refused BudgetExceeded false
      else match endpoint, probe with
           | None, _ => Refused EndpointUnresolved false
           | Some _, None => Refused DestinationUnhealthy false
           | Some _, Some p =>
               if negb (reachable p) then Refused DestinationUnhealthy false
               else if negb (includes w (probe_workloads p)) then Refused WorkloadNotServed false
               else if insufficientMemory d w then Refused InsufficientMemory false
               else Admitted_
           end
  end.

(** The verdict a read-only view shows, from the stored check and the models an administrator chose. *)
Definition stored_verdict (d : MlDestinationRow) (w : MlWorkload) (spent : Q) (choices : list (string * string))
    (feature : option StudioAiCloudFeature) : MlAdmissionVerdict :=
  let group := if bool_decide (kind d = FrameleafCloud) then cloudModelGroupFor w feature else None in
  let model := g ← group; if isCloudModelGroup g then assoc_get g choices else None in
  evaluateAdmission (Some d) (resolveEndpoint d) (storedProbe d) (mkInput w spent model None feature true false).
Definition storedAdmission (d : MlDestinationRow) (w : MlWorkload) (spent : Q) (choices : list (string * string))
    (feature : option StudioAiCloudFeature) : MlAdmissionVerdict :=
  if negb (bool_decide (kind d = FrameleafCloud)) || negb (bool_decide (w = StudioAi)) ||
     match feature with Some _ => true | None => false end
  then stored_verdict d w spent choices feature
  else match stored_verdict d w spent choices (Some SpeechToText) with
       | Admitted_ => stored_verdict d w spent choices (Some Speech)
       | v => v
       end.
