(* ===== verification/MlRoute.v ===== *)
(** * Where machine learning runs: the processing order ([server/src/utils/ml-processing-order.ts])

    Every workload follows an ordered list of places; from it, the stored rows and the recorded route come
    the candidates a job tries in order, and what the settings page says of each place. *)

From Stdlib Require Import QArith_base.
From S2P Require Import Prelude JsNumber JsString MlDestination.
Import Work.

Inductive MlProcessingSource := LocalPlace | Desktops | CloudPlace.
#[export] Instance MlProcessingSource_eq_dec : EqDecision MlProcessingSource.
Proof. solve_decision. Defined.
Definition source_of_value (s : string) : option MlProcessingSource :=
  (if String.eqb s "local" then Some LocalPlace else if String.eqb s "desktops" then Some Desktops
   else if String.eqb s "cloud" then Some CloudPlace else None)%string.

Definition DEFAULT_ML_PROCESSING_ORDER : list MlProcessingSource := [LocalPlace; Desktops; CloudPlace].
Definition ML_PROCESSING_ORDER_DEFAULT_SCOPE : string := "default".
Definition DESKTOP_POOL_WORKLOADS : list MlWorkload := [Clip; Ocr; Face].
Definition KIND_SOURCE (k : MlDestinationKind) : MlProcessingSource :=
  match k with LocalKind => LocalPlace | Lan => Desktops | FrameleafCloud => CloudPlace end.

Record MlProcessingOrder := mkOrder {
  order : list MlProcessingSource;
  overrides : list (MlWorkload * list MlProcessingSource)
}.

Record MlRouteCandidate := mkCandidate {
  source : MlProcessingSource;
  destinationId : string;
  desktopPool : bool;
  available : bool
}.
#[export] Instance MlRouteCandidate_eq_dec : EqDecision MlRouteCandidate.
Proof. solve_decision. Defined.

Inductive RouteOrigin := DefaultOrigin | Pinned | Legacy.
#[export] Instance RouteOrigin_eq_dec : EqDecision RouteOrigin.
Proof. solve_decision. Defined.
Record StoredRouteState := mkStored { stored_destinationId : option string; origin : option RouteOrigin }.

Record MlRoutePlanInput := mkPlanInput {
  plan_workload : MlWorkload;
  plan_order : MlProcessingOrder;
  destinations : list MlDestinationRow;
  storedRoute : option StoredRouteState;
  cloudMl : option CloudMl;
  desktopsReady : bool;
  spentUsd : option (string -> option Q)
}.

(** A list of places, each named at most once. *)
Definition isProcessingOrder (sources : option json) : option (list MlProcessingSource) :=
  match sources with
  | Some (JArr l) =>
      let read := omap (fun v => as_string (Some v) ≫= source_of_value) l in
      if (length read =? length l)%nat && (length (uniq read) =? length read)%nat then Some read else None
  | _ => None
  end.

Definition find_destination (i : string) (l : list MlDestinationRow) : option MlDestinationRow :=
  List.find (fun d => String.eqb (id d) i) l.

Definition sourcesFor (o : MlProcessingOrder) (w : MlWorkload)
    (pinned : option (option StoredRouteState * list MlDestinationRow)) : list MlProcessingSource :=
  match assoc_get w (overrides o) with
  | Some own => own
  | None =>
      match pinned with
      | Some (Some stored, l) =>
          if bool_decide (origin stored = Some Pinned) then
            match stored_destinationId stored ≫= fun i => find_destination i l with
            | Some anchor => [KIND_SOURCE (kind anchor)]
            | None => []
            end
          else order o
      | _ => order o
      end
  end.

Definition followsMainOrder (o : MlProcessingOrder) (w : MlWorkload) (stored : option StoredRouteState) : bool :=
  bool_decide (assoc_get w (overrides o) = None) &&
  negb (match stored with Some s => bool_decide (origin s = Some Pinned) | None => false end).

Definition processingOrderOf (rows : list (string * option json)) : MlProcessingOrder :=
  let main := List.find (fun r => String.eqb r.1 ML_PROCESSING_ORDER_DEFAULT_SCOPE) rows ≫= fun r => r.2 in
  mkOrder (default DEFAULT_ML_PROCESSING_ORDER (isProcessingOrder main))
    (foldl (fun acc r => match Work.of_value r.1, isProcessingOrder r.2 with
                         | Some w, Some sources => assoc_set w sources acc
                         | _, _ => acc
                         end) [] rows).

(** Turned on and allowed to run the workload. *)
Definition configured (d : MlDestinationRow) (w : MlWorkload) : bool := enabled d && includes w (workloads d).
Definition withinBudget (d : MlDestinationRow) (spent : option (string -> option Q)) : bool :=
  match budgetLimitUsd d with
  | None => true
  | Some limit => negb (at_least (default 0%Q (spent ≫= fun f => f (id d))) limit)
  end.

Definition storedAvailable (d : MlDestinationRow) (w : MlWorkload) (settings : option CloudMl)
    (spent : option (string -> option Q)) : bool :=
  if negb (configured d w) || negb (hasRequiredConsent d) then false
  else if bool_decide (lastProbeHealth d = Unhealthy) || negb (withinBudget d spent) then false
  else match bool_decide (kind d = FrameleafCloud), settings with
       | true, Some s => cloud_enabled s && cloudRouteAllows s w
       | _, _ => true
       end.

Section plan.
Context (i : MlRoutePlanInput).
Let w := plan_workload i.

Definition anchor : option MlDestinationRow :=
  match storedRoute i ≫= stored_destinationId with
  | Some (String _ _ as d) => find_destination d (destinations i)
  | _ => None
  end.
Definition is_anchor (d : MlDestinationRow) : bool :=
  match anchor with Some a => String.eqb (id d) (id a) | None => false end.

(** Those of a kind, the recorded one first. *)
Definition ofKind (k : MlDestinationKind) : list MlDestinationRow :=
  sort_by (fun a b => (if is_anchor b then 1 else 0) - (if is_anchor a then 1 else 0))%Z
    (List.filter (fun d => bool_decide (kind d = k) && configured d w) (destinations i)).
Definition candidate (d : MlDestinationRow) : MlRouteCandidate :=
  mkCandidate (KIND_SOURCE (kind d)) (id d) false (storedAvailable d w (cloudMl i) (spentUsd i)).

(** The desktop pool, offered only through the route this server recorded on its own. *)
Definition pool_candidate : list MlRouteCandidate :=
  match anchor with
  | Some a =>
      if includes w DESKTOP_POOL_WORKLOADS &&
         match storedRoute i with Some s => bool_decide (origin s = Some DefaultOrigin) | None => false end &&
         negb (bool_decide (kind a = FrameleafCloud)) && configured a w
      then [mkCandidate Desktops (id a) true (desktopsReady i)] else []
  | None => []
  end.

Definition candidates_at (s : MlProcessingSource) : list MlRouteCandidate :=
  match s with
  | LocalPlace => map candidate (ofKind LocalKind)
  | Desktops => map candidate (ofKind Lan) ++ pool_candidate
  | CloudPlace => map candidate (ofKind FrameleafCloud)
  end.
Definition sources : list MlProcessingSource := sourcesFor (plan_order i) w (Some (storedRoute i, destinations i)).
Definition planMlRoute : list MlRouteCandidate := flat_map candidates_at sources.
End plan.

Definition firstCandidate (l : list MlRouteCandidate) : option MlRouteCandidate :=
  match List.find available l with Some c => Some c | None => head l end.

(** ** What the settings page says *)

Inductive MlProcessingSourceState := Ready | NotAnswering | TurnedOff | NeedsPermission | NotSetUp.
#[export] Instance MlProcessingSourceState_eq_dec : EqDecision MlProcessingSourceState.
Proof. solve_decision. Defined.
Record MlProcessingSourceStatus := mkStatus {
  status_source : MlProcessingSource;
  status_state : MlProcessingSourceState;
  status_ready : Z;
  status_total : Z
}.
Record DesktopCounts := mkDesktops { approved : Z; ready : Z }.

Definition destinationReady (d : MlDestinationRow) : bool :=
  enabled d && negb (bool_decide (lastProbeHealth d = Unhealthy)).
Definition count_of (p : MlDestinationRow -> bool) (l : list MlDestinationRow) : Z := Z.of_nat (length (List.filter p l)).

Definition homeState (rows : list MlDestinationRow) (extra : DesktopCounts) : MlProcessingSourceState :=
  if (Z.of_nat (length rows) + approved extra =? 0)%Z then NotSetUp
  else if existsb destinationReady rows || (0 <? ready extra)%Z then Ready
  else if (approved extra =? 0)%Z && forallb (fun d => negb (enabled d)) rows then TurnedOff else NotAnswering.

Definition cloudState (rows : list MlDestinationRow) (cloudProcessingOn : bool) : MlProcessingSourceState :=
  if (length rows =? 0)%nat then NotSetUp
  else if negb cloudProcessingOn || forallb (fun d => negb (enabled d)) rows then TurnedOff
  else
    let on := List.filter enabled rows in
    if forallb (fun d => negb (hasRequiredConsent d)) on then NeedsPermission
    else if existsb (fun d => hasRequiredConsent d && destinationReady d) on then Ready else NotAnswering.

Definition processingSourceStatuses (l : list MlDestinationRow) (desktops : DesktopCounts) (cloudProcessingOn : bool)
  : list MlProcessingSourceStatus :=
  let of_kind k := List.filter (fun d => bool_decide (kind d = k)) l in
  let local := of_kind LocalKind in
  let lan := of_kind Lan in
  let cloud := of_kind FrameleafCloud in
  let now := cloudState cloud cloudProcessingOn in
  [mkStatus LocalPlace (homeState local (mkDesktops 0 0)) (count_of destinationReady local) (Z.of_nat (length local));
   mkStatus Desktops (homeState lan desktops) (count_of destinationReady lan + ready desktops)
     (Z.of_nat (length lan) + approved desktops);
   mkStatus CloudPlace now (if bool_decide (now = Ready) then 1 else 0) (if (0 <? length cloud)%nat then 1 else 0)].
