(* ===== verification/MlSelect.v ===== *)
(** * Where machine learning runs: one request admitted
    ([selectMlDestination] of [server/src/utils/ml-destination.ts], [selectRoutedMlDestination] of
    [server/src/services/base.service.ts])

    Programs whose questions to the database, the gateway and the workers may have any answer and may
    throw, so that what is stored can change between any two of them.  [runs] gives their possible
    histories; the note of why a running job must wait is their state.  The accounting hook and the
    sentences of refusals are left out; telling the administrators that a computer is away is one
    question, whose failure is swallowed. *)

From Stdlib Require Import QArith_base.
From S2P Require Import Prelude JsNumber JsString MlDestination MlRoute.
Import Work.

(** ** Errors and notes *)

Inductive MlError :=
| NotFound (w : MlWorkload) (destination : string)
| RefusedError (refusal : MlAdmissionRefusal) (w : MlWorkload) (destination : option string) (unconfirmed : bool)
| DependencyUnavailable
| Failure (message : string).

Definition isPlaceUnavailable (e : MlError) : bool := match e with Failure _ => false | _ => true end.

Inductive DependencyReason := NeedsConsent | NeedsBudget | NotAvailable | NeedsConfiguration.
Definition dependency_of (r : MlAdmissionRefusal) : DependencyReason :=
  if includes r [ConsentMissing; ConsentVersionOutdated; DisclosurePending] then NeedsConsent
  else if includes r [BudgetExceeded; WalletInsufficient; QuotaExceeded] then NeedsBudget
  else if includes r [DestinationUnhealthy; CloudUnavailable; InsufficientMemory] then NotAvailable
  else NeedsConfiguration.

(** ** Programs *)

Inductive AskM : Type -> Type :=
| GetById (destination : string) : AskM (option MlDestinationRow)
| AssertAuthority (d : MlDestinationRow) : AskM unit
| CloudMlSettings : AskM CloudMl
| GetSpend (destination : string) : AskM Q
| SelectPool (d : MlDestinationRow) (w : MlWorkload) (requireReady : bool) : AskM bool
| Probe (d : MlDestinationRow) (endpoint : option MlEndpoint) : AskM MlEndpointProbe
| RecordProbe (d : MlDestinationRow) (p : MlEndpointProbe) : AskM unit
| GetCloudModelChoice (group : string) : AskM (option string)
| PinnedDestination (w : MlWorkload) : AskM (option string)
| PinDestination (w : MlWorkload) (destination : string) : AskM string
| ResolveRoute (w : MlWorkload) : AskM (list MlRouteCandidate)
| GetRoute (w : MlWorkload) : AskM (option string)
| GetAll : AskM (list MlDestinationRow)
| StopWhenAway : AskM bool
| TellAdmins (destination : string) : AskM unit.

Inductive prog (A : Type) : Type :=
| Done (a : A)
| Raise (e : MlError)
| Ask {B : Type} (q : AskM B) (k : B + MlError -> prog A)
| Get (k : option DependencyReason -> prog A)
| Put (r : option DependencyReason) (k : prog A).
Arguments Done {A} a.
Arguments Raise {A} e.
Arguments Ask {A B} q k.
Arguments Get {A} k.
Arguments Put {A} r k.

Fixpoint attempt_ {A B} (m : prog A) (f : A + MlError -> prog B) : prog B :=
  match m with
  | Done a => f (inl a)
  | Raise e => f (inr e)
  | Ask q k => Ask q (fun x => attempt_ (k x) f)
  | Get k => Get (fun r => attempt_ (k r) f)
  | Put r k => Put r (attempt_ k f)
  end.
Definition bind {A B} (m : prog A) (f : A -> prog B) : prog B :=
  attempt_ m (fun x => match x with inl a => f a | inr e => Raise e end).
#[export] Instance prog_ret : MRet prog := @Done.
#[export] Instance prog_bind : MBind prog := fun A B f m => bind m f.
Definition ask {B} (q : AskM B) : prog B := Ask q (fun x => match x with inl a => Done a | inr e => Raise e end).

(** ** One named destination *)

Inductive PoolChoice := SkipPool | OnlyPool.
#[export] Instance PoolChoice_eq_dec : EqDecision PoolChoice.
Proof. solve_decision. Defined.

Record MlSelectionRequest := mkRequest {
  workload : MlWorkload;
  request_destination : string;
  createdCloudJob : bool;
  holdUsd : option Q;
  studioFeature : option StudioAiCloudFeature;
  homeOnly : bool;
  request_pool : option PoolChoice
}.
Definition with_destination (d : string) (r : MlSelectionRequest) : MlSelectionRequest :=
  mkRequest (workload r) d (createdCloudJob r) (holdUsd r) (studioFeature r) (homeOnly r) (request_pool r).
Definition with_pool (p : PoolChoice) (r : MlSelectionRequest) : MlSelectionRequest :=
  mkRequest (workload r) (request_destination r) (createdCloudJob r) (holdUsd r) (studioFeature r) (homeOnly r) (Some p).

(** What the caller gives: the optional settings and pool, and whether a job runs that can note a wait. *)
Record MlSelectionDeps := mkDeps {
  has_settings : bool;
  has_pool : bool;
  in_context : bool;
  notes : bool
}.

Record MlSelection := mkSelection {
  selected_id : string;
  selected_kind : MlDestinationKind;
  selected_workload : MlWorkload;
  selected_endpoint : option MlEndpoint;
  cloudModelId : option string;
  on_desktop : bool
}.

Section select.
Context (deps : MlSelectionDeps).

Definition noteAdmissionDependency {A} (r : MlAdmissionRefusal) (k : prog A) : prog A :=
  if negb (in_context deps && notes deps) || bool_decide (r = RequestInvalid) then k
  else Get (fun reason => Put (Some (default (dependency_of r) reason)) k).
Definition refused {A} (r : MlAdmissionRefusal) (w : MlWorkload) (d : option string) (unconfirmed : bool) : prog A :=
  noteAdmissionDependency r (Raise (RefusedError r w d unconfirmed)).

Definition assertAuthority (w : MlWorkload) (d : MlDestinationRow) : prog unit :=
  attempt_ (ask (AssertAuthority d)) (fun x =>
    match x with inl _ => Done tt | inr _ => refused DestinationDisabled w (Some (id d)) false end).

Definition check_settings (w : MlWorkload) (d : MlDestinationRow) : prog unit :=
  if bool_decide (kind d = FrameleafCloud) && has_settings deps then
    settings ← ask CloudMlSettings;
    if negb (cloud_enabled settings) then refused CloudUnavailable w (Some (id d)) false
    else if negb (cloudRouteAllows settings w) then refused WorkloadNotAllowed w (Some (id d)) false
    else Done tt
  else Done tt.

Definition created_job (r : MlSelectionRequest) (d : MlDestinationRow) : bool :=
  bool_decide (kind d = FrameleafCloud) && createdCloudJob r.
Definition spent_on (r : MlSelectionRequest) (d : MlDestinationRow) : prog Q :=
  if bool_decide (budgetLimitUsd d = None) || created_job r d then Done 0%Q else ask (GetSpend (id d)).

Definition admission_input (r : MlSelectionRequest) (d : MlDestinationRow) (spent : Q) (model : option string)
  : MlAdmissionInput :=
  mkInput (workload r) spent model (holdUsd r) (studioFeature r) false (created_job r d).
Definition preflight (r : MlSelectionRequest) (d : MlDestinationRow) (spent : Q) : prog unit :=
  match evaluateAdmission (Some d) (resolveEndpoint d) None (admission_input r d spent None) with
  | Refused x _ => if bool_decide (x = DestinationUnhealthy) then Done tt else refused x (workload r) (Some (id d)) false
  | Admitted_ => Done tt
  end.

(** The desktop pool, when it may take this request; whether it did. *)
Definition try_pool (r : MlSelectionRequest) (d : MlDestinationRow) : prog bool :=
  if has_pool deps && includes (workload r) [Clip; Ocr; Face] && includes (kind d) [LocalKind; Lan] &&
     negb (bool_decide (request_pool r = Some SkipPool))
  then
    took ← ask (SelectPool d (workload r) (bool_decide (request_pool r = Some OnlyPool)));
    if (took : bool) then _ ← assertAuthority (workload r) d; Done true else Done false
  else Done false.

Definition record_probe (d : MlDestinationRow) (p : MlEndpointProbe) : prog unit :=
  if bool_decide (kind d = FrameleafCloud) ||
     match lastProbeAt d with None => true | Some t => (t <? probedAt p)%Z end
  then ask (RecordProbe d p) else Done tt.

Definition chosen_model (r : MlSelectionRequest) (d : MlDestinationRow) : prog (option string) :=
  match (if bool_decide (kind d = FrameleafCloud) then cloudModelGroupFor (workload r) (studioFeature r) else None) with
  | Some g => if isCloudModelGroup g then ask (GetCloudModelChoice g) else Done None
  | None => Done None
  end.

(** The live check of an admitted destination. *)
Definition check_live (r : MlSelectionRequest) (d : MlDestinationRow) (spent : Q) : prog MlSelection :=
  p ← ask (Probe d (resolveEndpoint d));
  _ ← record_probe d p;
  model ← chosen_model r d;
  match evaluateAdmission (Some d) (resolveEndpoint d) (Some p) (admission_input r d spent model) with
  | Refused x unconfirmed => refused x (workload r) (Some (id d)) unconfirmed
  | Admitted_ =>
      _ ← assertAuthority (workload r) d;
      Done (mkSelection (id d) (kind d) (workload r) (resolveEndpoint d)
              (if bool_decide (kind d = FrameleafCloud) then cloudModelFor (workload r) model (cloud p) else None) false)
  end.

Definition selectMlDestination (r : MlSelectionRequest) : prog MlSelection :=
  found ← ask (GetById (request_destination r));
  match found with
  | None => noteAdmissionDependency DestinationMissing (Raise (NotFound (workload r) (request_destination r)))
  | Some d =>
      _ ← assertAuthority (workload r) d;
      if homeOnly r && isCloudDestination (kind d) then refused WorkloadNotAllowed (workload r) (Some (id d)) false
      else
        _ ← check_settings (workload r) d;
        spent ← spent_on r d;
        _ ← preflight r d spent;
        took ← try_pool r d;
        if (took : bool) then
          Done (mkSelection (id d) (kind d) (workload r) (resolveEndpoint d) None true)
        else if bool_decide (request_pool r = Some OnlyPool)
        then refused DestinationUnhealthy (workload r) (Some (id d)) false
        else check_live r d spent
  end.

(** ** The places of a workload's order *)

Definition routedMlDestinationId (w : MlWorkload) : prog string :=
  route ← ask (GetRoute w);
  match route with Some d => Done d | None => refused WorkloadNotRouted w None false end.

(** [selectMlDestination] of the service: the request's destination, or the one its job is pinned to. *)
Definition select_pinned (r : MlSelectionRequest) : prog MlSelection :=
  d ← ask (PinDestination (workload r) (request_destination r));
  selectMlDestination (with_destination d r).

Definition set_reason {A} (r : option DependencyReason) (k : prog A) : prog A := if in_context deps then Put r k else k.

(** The error a job ends on when the first place tried is a computer at home. *)
Definition computerAway (e : MlError) (place : option MlProcessingSource) : prog MlError :=
  match place, e with
  | Some Desktops, RefusedError _ _ (Some d) _ =>
      stop ← ask StopWhenAway;
      _ ← ask (GetById d);
      attempt_ (ask (TellAdmins d)) (fun _ =>
        if (stop : bool) then
          set_reason None (Done (Failure "a computer at home is not answering"))
        else Done e)
  | _, _ => Done e
  end.

(** The request at one place of the order. *)
Definition place_request (r : MlSelectionRequest) (c : MlRouteCandidate) : MlSelectionRequest :=
  with_pool (if desktopPool c then OnlyPool else SkipPool) (with_destination (destinationId c) r).
Definition try_place (r : MlSelectionRequest) (before : option DependencyReason) (c : MlRouteCandidate) : prog MlSelection :=
  selection ← selectMlDestination (place_request r c);
  set_reason before (_ ← ask (PinDestination (workload r) (selected_id selection)); Done selection).

(** The available places in order; [first] is the first refusal, with the wait it implied. *)
Fixpoint try_places (r : MlSelectionRequest) (before : option DependencyReason) (l : list MlRouteCandidate)
    (first : option (MlError * option DependencyReason)) : prog (MlSelection + (MlError * option DependencyReason)) :=
  match l with
  | [] => match first with
          | Some f => Done (inr f)
          | None => Raise (Failure "unreachable")
          end
  | c :: rest =>
      attempt_ (try_place r before c) (fun x =>
        match x with
        | inl selection => Done (inl selection)
        | inr e =>
            if negb (isPlaceUnavailable e) then Raise e
            else Get (fun noted => set_reason before
                   (try_places r before rest (match first with Some f => Some f | None => Some (e, noted) end)))
        end)
  end.

(** No place is available: the job waits on the first one of its order. *)
Definition waiting_place (r : MlSelectionRequest) (candidates : list MlRouteCandidate) : prog string :=
  match head candidates with
  | Some c => Done (destinationId c)
  | None => routedMlDestinationId (workload r)
  end.
Definition select_waiting (r : MlSelectionRequest) (candidates : list MlRouteCandidate) : prog MlSelection :=
  d ← waiting_place r candidates;
  attempt_ (select_pinned (with_destination d r)) (fun x =>
    match x with
    | inl selection => Done selection
    | inr e => e' ← computerAway e (source <$> head candidates); Raise e'
    end).

Definition select_available (r : MlSelectionRequest) (free : list MlRouteCandidate) : prog MlSelection :=
  Get (fun before =>
    tried ← try_places r before free None;
    match tried with
    | inl selection => Done selection
    | inr (e, noted) => set_reason noted (e' ← computerAway e (source <$> head free); Raise e')
    end).

Definition selectRoutedMlDestination (r : MlSelectionRequest) : prog MlSelection :=
  pinned ← ask (PinnedDestination (workload r));
  match pinned with
  | Some (String _ _ as d) => select_pinned (with_destination d r)
  | _ =>
      candidates ← ask (ResolveRoute (workload r));
      match List.filter available candidates with
      | [] => select_waiting r candidates
      | free => select_available r free
      end
  end.
(** The destination at home for the work: the one it goes to, unless that is Frameleaf Cloud, then this
    server's own machine learning. *)
Definition homeMlDestinationId (w : MlWorkload) : prog string :=
  routed ← routedMlDestinationId w;
  found ← ask (GetById routed);
  match found with
  | None => Done routed
  | Some d =>
      if negb (isCloudDestination (kind d)) then Done routed
      else
        rows ← ask GetAll;
        match List.find (fun row => bool_decide (kind row = LocalKind) && enabled row) rows with
        | Some local => Done (id local)
        | None => refused WorkloadNotRouted w None false
        end
  end.
Definition clipTextDestinationId : prog string := homeMlDestinationId Clip.

Definition text_request (r : MlSelectionRequest) (d : string) : MlSelectionRequest :=
  mkRequest Clip d (createdCloudJob r) (holdUsd r) (studioFeature r) true (request_pool r).
Definition selectClipTextDestination (r : MlSelectionRequest) : prog MlSelection :=
  d ← clipTextDestinationId;
  select_pinned (text_request r d).
End select.

(** ** Histories *)

Inductive Event :=
| Asked {B : Type} (q : AskM B) (x : B + MlError).

(** The runs of a program: from the note [n] to the note [n'], through the questions of [tr], ending in [y]. *)
Fixpoint runs {A} (m : prog A) (n : option DependencyReason) (tr : list Event) (y : A + MlError)
    (n' : option DependencyReason) : Prop :=
  match m with
  | Done a => tr = [] /\ y = inl a /\ n' = n
  | Raise e => tr = [] /\ y = inr e /\ n' = n
  | Ask q k => exists x tr', tr = Asked q x :: tr' /\ runs (k x) n tr' y n'
  | Get k => runs (k n) n tr y n'
  | Put r k => runs k r tr y n'
  end.

(** ** Lemmas *)

Lemma runs_attempt {A B} (m : prog A) (f : A + MlError -> prog B) n tr y n' : runs (attempt_ m f) n tr y n' ->
  exists tr1 x n1 tr2, tr = tr1 ++ tr2 /\ runs m n tr1 x n1 /\ runs (f x) n1 tr2 y n'.
Proof.
  revert n tr. induction m as [a|e|C q k IH|k IH|r k IH]; intros n tr H; cbn in H.
  - by exists [], (inl a), n, tr.
  - by exists [], (inr e), n, tr.
  - destruct H as (x & tr' & -> & H). destruct (IH x n tr' H) as (tr1 & z & n1 & tr2 & -> & H1 & H2).
    exists (Asked q x :: tr1), z, n1, tr2. split; [done|]. split; [by exists x, tr1|done].
  - by apply IH.
  - by apply IH.
Qed.
Lemma runs_bind {A B} (m : prog A) (f : A -> prog B) n tr y n' : runs (m ≫= f) n tr y n' ->
  (exists tr1 a n1 tr2, tr = tr1 ++ tr2 /\ runs m n tr1 (inl a) n1 /\ runs (f a) n1 tr2 y n') \/
  (exists e, y = inr e /\ runs m n tr (inr e) n').
Proof.
  intros (tr1 & [a|e] & n1 & tr2 & -> & H1 & H2)%runs_attempt; [left; by exists tr1, a, n1, tr2|right].
  destruct H2 as (-> & -> & ->). exists e. by rewrite app_nil_r.
Qed.
Lemma runs_ask {B} (q : AskM B) n tr y n' : runs (ask q) n tr y n' <-> tr = [Asked q y] /\ n' = n.
Proof.
  split.
  - intros ([a|e] & tr' & -> & -> & -> & ->); done.
  - intros [-> ->]. exists y, []. split; [done|]. by destruct y.
Qed.
