(* ===== verification/MlSafety.v ===== *)
(** * Where machine learning runs: what may be contacted, and what is admitted

    [wp] says of a program that each question it asks is allowed by the history so far, and what holds when
    it ends; it is sound for every run.  With it: nothing reaches a destination that was not cleared for
    it, and a selection is the destination named, admitted by the check made in that same request. *)

From Stdlib Require Import QArith_base.
From S2P Require Import Prelude JsNumber JsString MlDestination MlRoute MlSelect.
Import Work.

(** ** Programs and their runs *)

Section wp.
Context (legal : list Event -> forall B, AskM B -> Prop).

Fixpoint wp {A} (m : prog A) (n : option DependencyReason) (h : list Event)
    (Q : A + MlError -> option DependencyReason -> list Event -> Prop) : Prop :=
  match m with
  | Done a => Q (inl a) n h
  | Raise e => Q (inr e) n h
  | Ask q k => legal h _ q /\ forall x, wp (k x) n (h ++ [Asked q x]) Q
  | Get k => wp (k n) n h Q
  | Put r k => wp k r h Q
  end.

Lemma ml_wp_mono {A} (m : prog A) n h Q Q' : (forall y n h, Q y n h -> Q' y n h) -> wp m n h Q -> wp m n h Q'.
Proof.
  intros HQ. revert n h. induction m as [a|e|B q k IH|k IH|r k IH]; intros n h; cbn; [apply HQ|apply HQ| |apply IH|apply IH].
  intros [Hl Hw]. split; [done|]. intros x. by apply IH.
Qed.
Lemma ml_wp_attempt {A B} (m : prog A) (f : A + MlError -> prog B) n h Q :
  wp m n h (fun y n h => wp (f y) n h Q) -> wp (attempt_ m f) n h Q.
Proof.
  revert n h. induction m as [a|e|C q k IH|k IH|r k IH]; intros n h; cbn; [done|done| |apply IH|apply IH].
  intros [Hl Hw]. split; [done|]. intros x. by apply IH.
Qed.
Lemma ml_wp_bind {A B} (m : prog A) (f : A -> prog B) n h Q :
  wp m n h (fun y n h => match y with inl a => wp (f a) n h Q | inr e => Q (inr e) n h end) -> wp (m ≫= f) n h Q.
Proof. intros H. apply ml_wp_attempt. eapply ml_wp_mono; [|exact H]. by intros [a|e]. Qed.
Lemma ml_wp_ask {B} (q : AskM B) n h Q : legal h B q -> (forall x, Q x n (h ++ [Asked q x])) -> wp (ask q) n h Q.
Proof. intros Hl Hq. split; [done|]. intros [a|e]; apply Hq. Qed.

Definition allowed (h : list Event) (e : Event) : Prop := match e with Asked q _ => legal h _ q end.

(** Every run ends as [wp] says, and each of its questions was allowed when it was asked. *)
Lemma wp_runs {A} (m : prog A) n h Q tr y n' : wp m n h Q -> runs m n tr y n' ->
  Q y n' (h ++ tr) /\ forall tr1 e tr2, tr = tr1 ++ e :: tr2 -> allowed (h ++ tr1) e.
Proof.
  revert n h tr. induction m as [a|e|B q k IH|k IH|r k IH]; intros n h tr Hw Hr; cbn in Hw, Hr.
  - destruct Hr as (-> & -> & ->). rewrite app_nil_r. split; [done|]. by intros [|].
  - destruct Hr as (-> & -> & ->). rewrite app_nil_r. split; [done|]. by intros [|].
  - destruct Hw as [Hl Hw]. destruct Hr as (x & tr' & -> & Hr). destruct (IH x n _ tr' (Hw x) Hr) as [Hq Ha].
    rewrite <- app_assoc in Hq. split; [done|]. intros [|ev tr1] e tr2 E; cbn in E; apply (inj2 cons) in E as [<- E].
    + by rewrite app_nil_r.
    + specialize (Ha tr1 e tr2 E). by rewrite <- app_assoc in Ha.
  - exact (IH _ _ _ _ Hw Hr).
  - exact (IH _ _ _ Hw Hr).
Qed.
End wp.

(** ** The admission rule *)

Definition within_budget (created : bool) (d : MlDestinationRow) (spent : Q) : Prop :=
  created = true \/ over_budget d spent = false.

(** What clears a destination for a kind of work before anything is sent to it. *)
Record cleared (r : MlSelectionRequest) (spent : Q) (d : MlDestinationRow) : Prop := mkCleared {
  cl_enabled : enabled d = true;
  cl_allowed : workload r ∈ workloads d;
  cl_budget : within_budget (created_job r d) d spent;
  cl_endpoint : is_Some (resolveEndpoint d);
  cl_role : kind d <> FrameleafCloud -> workload r ∈ RESTORATION_ML_WORKLOADS -> mlWorkerRoleOf (workloads d) <> Mixed;
  cl_cloud : kind d = FrameleafCloud ->
    workload r ∈ FRAMELEAF_CLOUD_ELIGIBLE_WORKLOADS /\ is_Some (consentAcknowledgedAt d) /\
    hasPendingCloudDisclosure (workload r) = false
}.

(** What a check must report for the work to go there. *)
Definition home_report (r : MlSelectionRequest) (d : MlDestinationRow) (p : MlEndpointProbe) : Prop :=
  reachable p = true /\ workload r ∈ probe_workloads p /\ insufficientMemory d (workload r) = false.

(** The Frameleaf Cloud report that lets the work go there under the model [m]. *)
Record cloud_report (r : MlSelectionRequest) (d : MlDestinationRow) (chosen : option string) (p : MlEndpointProbe)
    (facts : CloudProbeFacts) (m : string) : Prop := mkReport {
  cr_facts : cloud p = Some facts;
  cr_answered : reachable p = true /\ facts_refusal facts = None;
  cr_entitled : entitled facts = true;
  cr_consent : forall v, consentRequiredVersion facts = Some v -> consentVersion d = Some v;
  cr_search : workload r = Clip -> smartSearch (features facts) = true;
  cr_faces : workload r = Face -> faceRecognition (features facts) = true;
  cr_wallet : (0 < balanceUsd facts)%Q /\ (0 < fl (balanceUsd facts - heldUsd facts))%Q;
  cr_hold : forall hold, holdUsd r = Some hold -> (hold <= fl (balanceUsd facts - heldUsd facts))%Q;
  cr_cap : forall cap, dailyCapUsd facts = Some cap -> (spentTodayUsd facts < cap)%Q;
  cr_offered : workload r ∈ probe_workloads p;
  cr_model : cloudModelFor (workload r) chosen (Some facts) = Some m /\ m <> ""%string /\ m ∈ modelIds facts;
  cr_group : exists g, cloudModelGroupFor (workload r) (studioFeature r) = Some g /\ lookup_in (modelGroups facts) m = Some g
}.

Lemma Qle_bool_false a b : Qle_bool a b = false -> (b < a)%Q.
Proof. intros H. apply Qnot_le_lt. intros Hle%Qle_bool_iff. congruence. Qed.

Ltac decide_guard :=
  repeat match goal with
  | H : negb _ = false |- _ => apply negb_false_iff in H
  | H : negb _ = true |- _ => apply negb_true_iff in H
  | H : _ && _ = true |- _ => apply andb_true_iff in H as [? ?]
  | H : _ || _ = false |- _ => apply orb_false_iff in H as [? ?]
  | H : includes _ _ = true |- _ => apply includes_true in H
  | H : bool_decide _ = true |- _ => apply bool_decide_eq_true in H
  | H : bool_decide _ = false |- _ => apply bool_decide_eq_false in H
  end.

Lemma cloud_eligible d probe i : frameleafCloudEligibility d probe i = None \/
    (exists u, frameleafCloudEligibility d probe i = Some (Refused DestinationUnhealthy u)) ->
  in_workload i ∈ FRAMELEAF_CLOUD_ELIGIBLE_WORKLOADS /\ hasRequiredConsent d = true /\
  hasPendingCloudDisclosure (in_workload i) = false /\ within_budget (in_createdCloudJob i) d (in_spentUsd i).
Proof.
  unfold frameleafCloudEligibility, within_budget. intros H.
  destruct (negb (includes (in_workload i) FRAMELEAF_CLOUD_ELIGIBLE_WORKLOADS)) eqn:E1; [destruct H as [?|[? ?]]; discriminate|].
  destruct (negb (hasRequiredConsent d)) eqn:E2; [destruct H as [?|[? ?]]; discriminate|].
  destruct (hasPendingCloudDisclosure (in_workload i)) eqn:E3; [destruct H as [?|[? ?]]; discriminate|].
  destruct (negb (in_createdCloudJob i) && over_budget d (in_spentUsd i)) eqn:E4; [destruct H as [?|[? ?]]; discriminate|].
  decide_guard. split; [done|]. split; [done|]. split; [done|].
  destruct (in_createdCloudJob i); [by left|right]. by destruct (over_budget d (in_spentUsd i)).
Qed.

Lemma consent_given d : kind d = FrameleafCloud -> hasRequiredConsent d = true -> is_Some (consentAcknowledgedAt d).
Proof. unfold hasRequiredConsent. intros ->. cbn. intros H. by apply bool_decide_eq_true in H. Qed.

(** The preflight refuses for nothing but a missing check: the destination is cleared. *)
Lemma preflight_cleared r d spent v : v = Admitted_ \/ (exists u, v = Refused DestinationUnhealthy u) ->
  evaluateAdmission (Some d) (resolveEndpoint d) None (admission_input r d spent None) = v -> cleared r spent d.
Proof.
  intros Hv E. cbn [evaluateAdmission in_workload admission_input in_spentUsd] in E.
  destruct (negb (enabled d)) eqn:E1; [subst v; destruct Hv as [?|[? ?]]; discriminate|].
  destruct (negb (includes (workload r) (workloads d))) eqn:E2; [subst v; destruct Hv as [?|[? ?]]; discriminate|].
  decide_guard. destruct (bool_decide (kind d = FrameleafCloud)) eqn:Ek.
  - apply bool_decide_eq_true in Ek.
    destruct (cloud_eligible d None (admission_input r d spent None)) as (H1 & H2 & H3 & H4).
    { destruct (frameleafCloudEligibility d None (admission_input r d spent None)) as [x|] eqn:Ee; [right|by left].
      cbn in E. subst x. destruct Hv as [->|[u ->]]; [|by exists u].
      exfalso. revert Ee. unfold frameleafCloudEligibility. repeat case_match; congruence. }
    split; [done..|exact H4| |done|].
    + unfold resolveEndpoint. rewrite Ek. by eexists.
    + intros _. split; [exact H1|]. split; [by apply consent_given|exact H3].
  - pose proof Ek as Ek'. apply bool_decide_eq_false in Ek'.
    destruct (isRestorationWorkload (workload r) && negb (mayMixRoles (kind d)) && bool_decide (mlWorkerRoleOf (workloads d) = Mixed)) eqn:E3;
      [subst v; destruct Hv as [?|[? ?]]; discriminate|].
    destruct (negb (hasRequiredConsent d)) eqn:E4; [subst v; destruct Hv as [?|[? ?]]; discriminate|].
    destruct (over_budget d spent) eqn:E5; [subst v; destruct Hv as [?|[? ?]]; discriminate|].
    destruct (resolveEndpoint d) as [e|] eqn:E6; [|subst v; destruct Hv as [?|[? ?]]; discriminate].
    split; [done..|by right|by eexists| |done].
    intros _ Hr Hm. unfold isRestorationWorkload, mayMixRoles in E3. rewrite (proj2 (includes_true _ _) Hr), Ek, Hm in E3. done.
Qed.

Lemma admitted_home r d e p spent model : kind d <> FrameleafCloud ->
  evaluateAdmission (Some d) e (Some p) (admission_input r d spent model) = Admitted_ -> home_report r d p.
Proof.
  intros Hk E. cbn [evaluateAdmission in_workload admission_input in_spentUsd] in E. rewrite (bool_decide_false _ Hk) in E.
  destruct (negb (enabled d)); [done|]. destruct (negb (includes _ (workloads d))); [done|].
  destruct (isRestorationWorkload _ && _ && _); [done|]. destruct (negb (hasRequiredConsent d)); [done|].
  destruct (over_budget d spent); [done|]. destruct e; [|done].
  destruct (negb (reachable p)) eqn:E1; [done|]. destruct (negb (includes _ (probe_workloads p))) eqn:E2; [done|].
  destruct (insufficientMemory d _) eqn:E3; [done|]. decide_guard. done.
Qed.

Lemma funds_settled i facts : cloud_funds i facts = None ->
  ((0 < balanceUsd facts)%Q /\ (0 < fl (balanceUsd facts - heldUsd facts))%Q) /\
  (forall hold, in_holdUsd i = Some hold -> (hold <= fl (balanceUsd facts - heldUsd facts))%Q) /\
  (forall cap, dailyCapUsd facts = Some cap -> (spentTodayUsd facts < cap)%Q).
Proof.
  unfold cloud_funds. destruct (Qle_bool (balanceUsd facts) 0 || _) eqn:E1; [done|].
  destruct (match in_holdUsd i with Some hold => _ | None => _ end) eqn:E2; [done|].
  destruct (match dailyCapUsd facts with Some cap => _ | None => _ end) eqn:E3; [done|]. intros _. decide_guard.
  split; [split; by apply Qle_bool_false|]. split.
  - intros hold Eh. rewrite Eh in E2. apply negb_false_iff in E2. by apply Qle_bool_iff.
  - intros cap Ec. rewrite Ec in E3. by apply Qle_bool_false.
Qed.

Lemma admitted_cloud r d e p spent model : kind d = FrameleafCloud ->
  evaluateAdmission (Some d) e (Some p) (admission_input r d spent model) = Admitted_ ->
  exists facts m, cloud_report r d model p facts m.
Proof.
  intros Hk E. cbn [evaluateAdmission in_workload admission_input] in E. rewrite bool_decide_true in E by done.
  destruct (negb (enabled d)); [done|]. destruct (negb (includes _ (workloads d))); [done|].
  destruct (frameleafCloudEligibility d (Some p) _) as [v|] eqn:Ef; cbn in E.
  { subst v. exfalso. revert Ef. unfold frameleafCloudEligibility, cloudFeatureConsentProblem, evaluateCloudAdmission, cloud_funds.
    repeat case_match; try discriminate; congruence. }
  clear E. unfold frameleafCloudEligibility in Ef. cbn [in_workload admission_input] in Ef.
  destruct (negb (includes _ FRAMELEAF_CLOUD_ELIGIBLE_WORKLOADS)); [done|]. destruct (negb (hasRequiredConsent d)); [done|].
  destruct (hasPendingCloudDisclosure _); [done|]. destruct (negb _ && over_budget _ _); [done|].
  destruct (cloudFeatureConsentProblem (workload r) p) eqn:E1; [done|].
  unfold evaluateCloudAdmission in Ef. destruct (cloud p) as [facts|] eqn:Ec; [|done].
  destruct (facts_refusal facts) eqn:E2; [done|]. destruct (negb (reachable p)) eqn:E3; [done|].
  destruct (negb (entitled facts)) eqn:E4; [done|].
  destruct (match consentRequiredVersion facts with Some v => _ | None => _ end) eqn:E5; [done|].
  cbn [in_workload admission_input in_fromStoredCheck in_modelId in_studioFeature negb orb andb] in Ef.
  destruct (match cloudModelFor (workload r) model (Some facts) with Some _ => _ | None => _ end) as [m|] eqn:E6;
    [|cbn in Ef; destruct (cloud_funds _ _); [done|]; by destruct (negb (includes _ (probe_workloads p)))].
  destruct (negb (includes m (modelIds facts))) eqn:E7; [done|].
  destruct (cloudModelGroupFor (workload r) (studioFeature r)) as [g|] eqn:E8; [|done].
  destruct (negb (bool_decide (lookup_in (modelGroups facts) m = Some g))) eqn:E9; [done|].
  destruct (cloud_funds _ facts) eqn:E10; [done|]. destruct (negb (includes _ (probe_workloads p))) eqn:E11; [done|].
  destruct (funds_settled _ _ E10) as (F1 & F2 & F3). decide_guard.
  destruct (cloudModelFor (workload r) model (Some facts)) as [[|c m']|] eqn:Em; try done. injection E6 as <-.
  exists facts, (String c m'). split; [done|done|done| | | |exact F1|exact F2|exact F3|done|done|by exists g].
  - intros v Ev. rewrite Ev in E5. by decide_guard.
  - intros Ew. unfold cloudFeatureConsentProblem in E1. rewrite Ew, Ec, E2 in E1. cbn in E1. by destruct (smartSearch (features facts)).
  - intros Ew. unfold cloudFeatureConsentProblem in E1. rewrite Ew, Ec, E2 in E1. cbn in E1. by destruct (faceRecognition (features facts)).
Qed.

(** ** One request *)

Section request.
Context (deps : MlSelectionDeps) (r : MlSelectionRequest).

(** The row read for the request; what the settings said; what was spent. *)
Definition known (h : list Event) (d : MlDestinationRow) : Prop := Asked (GetById (request_destination r)) (inl (Some d)) ∈ h.
Definition gate (h : list Event) (d : MlDestinationRow) : Prop := kind d = FrameleafCloud ->
  homeOnly r = false /\
  (has_settings deps = true -> exists s, Asked CloudMlSettings (inl s) ∈ h /\ cloud_enabled s = true /\ cloudRouteAllows s (workload r) = true).
Definition spend_known (h : list Event) (d : MlDestinationRow) (spent : Q) : Prop :=
  budgetLimitUsd d = None \/ created_job r d = true \/ Asked (GetSpend (id d)) (inl spent) ∈ h.
Definition contactable (h : list Event) (d : MlDestinationRow) : Prop :=
  known h d /\ gate h d /\ exists spent, spend_known h d spent /\ cleared r spent d.

(** Nothing is asked of a worker, a pool or the gateway unless the destination was cleared. *)
Definition legal (h : list Event) (B : Type) (q : AskM B) : Prop :=
  match q with
  | Probe d e => e = resolveEndpoint d /\ contactable h d /\ request_pool r <> Some OnlyPool
  | SelectPool d w _ => w = workload r /\ contactable h d /\ kind d <> FrameleafCloud /\ request_pool r <> Some SkipPool
  | _ => True
  end.

(** A selection: the destination named, cleared, and checked in this request (or taken by the desktop pool). *)
Record chosen (h : list Event) (x : MlSelection) (d : MlDestinationRow) : Prop := mkChosen {
  ch_clear : contactable h d;
  ch_id : selected_id x = id d;
  ch_kind : selected_kind x = kind d;
  ch_workload : selected_workload x = workload r;
  ch_endpoint : selected_endpoint x = resolveEndpoint d;
  ch_authority : Asked (AssertAuthority d) (inl tt) ∈ h;
  ch_pool : on_desktop x = true -> kind d <> FrameleafCloud /\ request_pool r <> Some SkipPool /\
    workload r ∈ [Clip; Ocr; Face] /\ exists b, Asked (SelectPool d (workload r) b) (inl true) ∈ h;
  ch_live : on_desktop x = false -> request_pool r <> Some OnlyPool /\
    exists p, Asked (Probe d (resolveEndpoint d)) (inl p) ∈ h /\
      (kind d <> FrameleafCloud -> home_report r d p /\ cloudModelId x = None) /\
      (kind d = FrameleafCloud -> exists choice facts m, cloud_report r d choice p facts m /\ cloudModelId x = Some m /\
         (choice = None \/ exists g, cloudModelGroupFor (workload r) (studioFeature r) = Some g /\
            Asked (GetCloudModelChoice g) (inl choice) ∈ h))
}.
Definition ends (y : MlSelection + MlError) (n : option DependencyReason) (h : list Event) : Prop :=
  match y with inl x => exists d, chosen h x d | inr _ => True end.

Abbreviation wp := (wp legal).

Lemma wp_note {A} x (k : prog A) n h Q : (forall n, wp k n h Q) -> wp (noteAdmissionDependency deps x k) n h Q.
Proof. intros H. unfold noteAdmissionDependency. destruct (_ || _); [apply H|cbn; apply H]. Qed.
Lemma wp_refused {A} x w d u n h (Q : A + MlError -> option DependencyReason -> list Event -> Prop) :
  (forall e n, Q (inr e) n h) -> wp (refused deps x w d u) n h Q.
Proof. intros H. apply wp_note. intros n'. cbn. apply H. Qed.
Lemma wp_authority w d n h Q : (forall n h', h' = h ++ [Asked (AssertAuthority d) (inl tt)] -> Q (inl tt) n h') ->
  (forall e n h, Q (inr e) n h) -> wp (assertAuthority deps w d) n h Q.
Proof.
  intros H1 H2. apply ml_wp_attempt, ml_wp_ask; [exact I|]. intros [[]|e]; [cbn; by apply H1|]. apply wp_refused. intros; apply H2.
Qed.

Lemma known_more h e d : known h d -> known (h ++ e) d.
Proof. intros H. apply elem_of_app. by left. Qed.
Lemma gate_more h e d : gate h d -> gate (h ++ e) d.
Proof. intros H Hk. destruct (H Hk) as [H1 H2]. split; [done|]. intros Hd. destruct (H2 Hd) as (s & Hs & ?). exists s. rewrite elem_of_app. tauto. Qed.
Lemma contactable_more h e d : contactable h d -> contactable (h ++ e) d.
Proof.
  intros (H1 & H2 & spent & H3 & H4). split; [by apply known_more|]. split; [by apply gate_more|]. exists spent. split; [|done].
  destruct H3 as [H3|[H3|H3]]; [by left|by right; left|right; right]. apply elem_of_app. by left.
Qed.

Lemma wp_settings d n h Q : (forall e n h, Q (inr e) n h) -> homeOnly r && isCloudDestination (kind d) = false ->
  (forall n h', (forall x, known h x -> known h' x) -> gate h' d -> Q (inl tt) n h') -> wp (check_settings deps (workload r) d) n h Q.
Proof.
  intros He Hh Hk. unfold check_settings.
  assert (kind d = FrameleafCloud -> homeOnly r = false) as Hhome by (intros E; rewrite E, andb_true_r in Hh; done).
  destruct (bool_decide (kind d = FrameleafCloud) && has_settings deps) eqn:E.
  - apply ml_wp_bind, ml_wp_ask; [exact I|]. intros [s|e]; [|apply He].
    destruct (negb (cloud_enabled s)) eqn:E1; [apply wp_refused; intros; apply He|].
    destruct (negb (cloudRouteAllows s (workload r))) eqn:E2; [apply wp_refused; intros; apply He|].
    cbn. apply Hk; [intros x; apply known_more|]. intros Hc. split; [by apply Hhome|]. intros _. exists s.
    decide_guard. split; [|done]. apply elem_of_app. right. by apply list_elem_of_singleton.
  - cbn. apply Hk; [done|]. intros Hc. split; [by apply Hhome|]. intros Hd. rewrite Hd, Hc in E. done.
Qed.

Lemma wp_spent d n h Q : (forall e n h, Q (inr e) n h) ->
  (forall spent n e, spend_known (h ++ e) d spent -> Q (inl spent) n (h ++ e)) -> wp (spent_on r d) n h Q.
Proof.
  intros He Hk. unfold spent_on. destruct (bool_decide (budgetLimitUsd d = None) || created_job r d) eqn:E.
  - cbn. rewrite <- (app_nil_r h). apply Hk. apply orb_true_iff in E as [E%bool_decide_eq_true|E]; [by left|by right; left].
  - apply ml_wp_ask; [exact I|]. intros [spent|e]; [|apply He]. apply Hk. right. right. apply elem_of_app. right.
    by apply list_elem_of_singleton.
Qed.

Lemma wp_preflight d spent n h Q : (forall e n, Q (inr e) n h) -> (cleared r spent d -> Q (inl tt) n h) ->
  wp (preflight deps r d spent) n h Q.
Proof.
  intros He Hk. unfold preflight. destruct (evaluateAdmission _ _ None _) as [|x u] eqn:E.
  - cbn. apply Hk. eapply preflight_cleared; [|exact E]. by left.
  - destruct (bool_decide (x = DestinationUnhealthy)) eqn:Ex; [|by apply wp_refused]. apply bool_decide_eq_true in Ex as ->.
    cbn. apply Hk. eapply preflight_cleared; [|exact E]. right. by exists u.
Qed.

Lemma wp_pool d n h Q : contactable h d -> (forall e n h, Q (inr e) n h) ->
  (forall b n e, Asked (SelectPool d (workload r) b) (inl true) ∈ e -> Asked (AssertAuthority d) (inl tt) ∈ e ->
     kind d <> FrameleafCloud -> request_pool r <> Some SkipPool -> workload r ∈ [Clip; Ocr; Face] -> Q (inl true) n (h ++ e)) ->
  (forall n e, Q (inl false) n (h ++ e)) -> wp (try_pool deps r d) n h Q.
Proof.
  intros Hc He Ht Hf. unfold try_pool.
  destruct (has_pool deps && _ && _ && _) eqn:E; [|cbn; rewrite <- (app_nil_r h); apply Hf]. decide_guard.
  assert (kind d <> FrameleafCloud) as Hk by (intros Ek; match goal with H : kind d ∈ _ |- _ => rewrite Ek in H; by repeat (apply elem_of_cons in H as [?|H]) || apply not_elem_of_nil in H end).
  apply ml_wp_bind, ml_wp_ask; [done|]. intros [[]|e]; [|apply Hf|apply He].
  apply ml_wp_bind, wp_authority; [|intros; apply He]. intros n' h' ->. cbn. rewrite <- app_assoc.
  eapply Ht; [apply elem_of_app; left; by apply list_elem_of_singleton|apply elem_of_app; right; by apply list_elem_of_singleton|done..].
Qed.

Lemma wp_record d p n h Q : (forall e n h, Q (inr e) n h) -> (forall n e, Q (inl tt) n (h ++ e)) -> wp (record_probe d p) n h Q.
Proof.
  intros He Hk. unfold record_probe. destruct (_ || _); [|cbn; rewrite <- (app_nil_r h); apply Hk].
  apply ml_wp_ask; [exact I|]. intros [[]|e]; [apply Hk|apply He].
Qed.

Lemma wp_chosen_model d n h Q : (forall e n h, Q (inr e) n h) ->
  (forall choice n e, (choice = None \/ exists g, cloudModelGroupFor (workload r) (studioFeature r) = Some g /\
     Asked (GetCloudModelChoice g) (inl choice) ∈ h ++ e) -> Q (inl choice) n (h ++ e)) -> wp (chosen_model r d) n h Q.
Proof.
  intros He Hk. unfold chosen_model. destruct (bool_decide (kind d = FrameleafCloud)).
  2:{ cbn. rewrite <- (app_nil_r h). apply Hk. by left. }
  destruct (cloudModelGroupFor _ _) as [g|] eqn:Eg; [|cbn; rewrite <- (app_nil_r h); apply Hk; by left].
  destruct (isCloudModelGroup g); [|cbn; rewrite <- (app_nil_r h); apply Hk; by left].
  apply ml_wp_ask; [exact I|]. intros [c|e]; [|apply He]. apply Hk. right. exists g. split; [done|]. apply elem_of_app. right.
  by apply list_elem_of_singleton.
Qed.

Lemma wp_live d spent n h : contactable h d -> request_pool r <> Some OnlyPool -> wp (check_live deps r d spent) n h ends.
Proof.
  intros Hc Hp. unfold check_live. apply ml_wp_bind, ml_wp_ask; [done|]. intros [p|e]; [|exact I].
  apply ml_wp_bind, wp_record; [done|]. intros n1 e1. apply ml_wp_bind, wp_chosen_model; [done|]. intros choice n2 e2 Hch.
  destruct (evaluateAdmission _ _ _ _) as [|x u] eqn:E; [|by apply wp_refused].
  apply ml_wp_bind, wp_authority; [|done]. intros n3 h3 ->. cbn. exists d. set (hp := (h ++ [Asked (Probe d (resolveEndpoint d)) (inl p)]) ++ e1) in *.
  assert (contactable (hp ++ e2) d) as Hc' by (unfold hp; by do 3 apply contactable_more).
  assert (Asked (Probe d (resolveEndpoint d)) (inl p) ∈ hp) as Hprobe.
  { unfold hp. apply elem_of_app. left. apply elem_of_app. right. by apply list_elem_of_singleton. }
  split; try done; [by apply contactable_more|apply elem_of_app; right; by apply list_elem_of_singleton|]. intros _.
  split; [done|]. exists p. split; [do 2 (apply elem_of_app; left); done|]. split; intros Hk; cbn.
  - rewrite bool_decide_false by done. split; [by eapply admitted_home|done].
  - rewrite bool_decide_true by done. destruct (admitted_cloud _ _ _ _ _ _ Hk E) as (facts & m & Hr).
    exists choice, facts, m. split; [done|]. split; [by rewrite (cr_facts _ _ _ _ _ _ Hr); apply Hr|].
    destruct Hch as [Hch|(g & Eg & Hg)]; [by left|right]. exists g. split; [done|]. apply elem_of_app. by left.
Qed.

Lemma wp_select n : wp (selectMlDestination deps r) n [] ends.
Proof.
  unfold selectMlDestination. apply ml_wp_bind, ml_wp_ask; [exact I|]. intros [[d|]|e]; [|by apply wp_note|exact I].
  apply ml_wp_bind, wp_authority; [|done]. intros n1 h1 ->. set (h1 := _ ++ _).
  assert (known h1 d) as Hd by (apply elem_of_app; left; by apply list_elem_of_singleton). clearbody h1.
  destruct (homeOnly r && isCloudDestination (kind d)) eqn:Eh; [by apply wp_refused|].
  apply ml_wp_bind, wp_settings; [done|done|]. intros n2 h2 Hm Hg. specialize (Hm d Hd). clear Hd. rename Hm into Hd.
  apply ml_wp_bind, wp_spent; [done|]. intros spent n3 e3 Hs. apply ml_wp_bind, wp_preflight; [done|]. intros Hcl.
  assert (contactable (h2 ++ e3) d) as Hc.
  { split; [by apply known_more|]. split; [by apply gate_more|]. by exists spent. }
  apply ml_wp_bind, wp_pool; [done|done| |].
  - intros b n4 e4 Hpool Hauth Hk Hskip Hw. cbn. exists d. split; try done; [by apply contactable_more|apply elem_of_app; by right|].
    intros _. split; [done|]. split; [done|]. split; [done|]. exists b. apply elem_of_app. by right.
  - intros n4 e4. destruct (bool_decide (request_pool r = Some OnlyPool)) eqn:Eo; [by apply wp_refused|].
    apply bool_decide_eq_false in Eo. apply wp_live; [by apply contactable_more|done].
Qed.
End request.
