(* ===== verification/MlPromises.v ===== *)
(** * Where machine learning runs: what is promised

    Nothing is sent to a place that was not cleared for the work; the candidates of a workload are those of
    its own order; routed work runs on the first available place that admits it, and on no other. *)

From Stdlib Require Import QArith_base.
From S2P Require Import Prelude JsNumber JsString MlDestination MlRoute MlSelect MlSafety.
Import Work.

(** ** The candidates *)

Lemma sort_flagged {A} (p : A -> bool) (l : list A) :
  sort_by (fun a b => (if p b then 1 else 0) - (if p a then 1 else 0))%Z l = List.filter p l ++ List.filter (fun x => negb (p x)) l.
Proof.
  set (cmp := fun a b => _). assert (forall x l, insert_by cmp x (List.filter p l ++ List.filter (fun x => negb (p x)) l) =
    List.filter p (x :: l) ++ List.filter (fun x => negb (p x)) (x :: l)) as Hi.
  { intros x k. cbn [List.filter]. destruct (p x) eqn:Ex; cbn [negb app].
    - destruct (List.filter p k ++ _) as [|y m]; [done|]. cbn. unfold cmp. rewrite Ex. by destruct (p y).
    - assert (forall a, Forall (fun y => p y = true) a -> forall b, Forall (fun y => p y = false) b ->
        insert_by cmp x (a ++ b) = a ++ x :: b) as H.
      { intros a Ha. induction Ha as [|y a Hy _ IH]; intros b Hb; cbn.
        - destruct Hb as [|z b Hz _]; [done|]. cbn. unfold cmp. by rewrite Ex, Hz.
        - unfold cmp at 1. rewrite Ex, Hy. cbn. by rewrite IH. }
      apply H; apply Forall_forall; intros y Hy; apply elem_of_filter_b in Hy as [_ Hy]; [done|by apply negb_true_iff]. }
  induction l as [|x l IH]; [done|]. cbn [sort_by]. by rewrite IH, Hi.
Qed.

Lemma candidates_source i s c : c ∈ candidates_at i s -> source c = s.
Proof.
  assert (forall k, c ∈ map (candidate i) (ofKind i k) -> source c = KIND_SOURCE k) as Hk.
  { intros k (d & -> & Hd)%list_elem_of_fmap. cbn. unfold ofKind in Hd. rewrite sort_by_perm in Hd.
    apply elem_of_filter_b in Hd as [_ Hd]. apply andb_true_iff in Hd as [Hd%bool_decide_eq_true _]. by rewrite Hd. }
  destruct s; cbn; [apply (Hk LocalKind)| |apply (Hk FrameleafCloud)].
  intros [H|H]%elem_of_app; [by apply (Hk Lan)|]. unfold pool_candidate in H. destruct (anchor i); [|by apply not_elem_of_nil in H].
  case_match; [|by apply not_elem_of_nil in H]. by apply list_elem_of_singleton in H as ->.
Qed.

Lemma direct_elem i k c : c ∈ map (candidate i) (ofKind i k) <->
  exists d, d ∈ destinations i /\ kind d = k /\ configured d (plan_workload i) = true /\ c = candidate i d.
Proof.
  rewrite list_elem_of_fmap. unfold ofKind. split.
  - intros (d & -> & Hd). rewrite sort_by_perm in Hd. apply elem_of_filter_b in Hd as [Hd Hp].
    apply andb_true_iff in Hp as [Hk%bool_decide_eq_true Hc]. by exists d.
  - intros (d & Hd & Hk & Hc & ->). exists d. split; [done|]. rewrite sort_by_perm. apply elem_of_filter_b. split; [done|].
    by rewrite bool_decide_true, Hc.
Qed.

Lemma pool_elem i c : c ∈ pool_candidate i -> exists a, anchor i = Some a /\ destinationId c = id a /\ desktopPool c = true /\
  available c = desktopsReady i /\ plan_workload i ∈ DESKTOP_POOL_WORKLOADS /\ kind a <> FrameleafCloud /\
  configured a (plan_workload i) = true /\ (origin <$> storedRoute i) = Some (Some DefaultOrigin).
Proof.
  unfold pool_candidate. destruct (anchor i) as [a|]; [|by intros ?%not_elem_of_nil].
  destruct (includes _ _ && _ && _ && _) eqn:E; [|by intros ?%not_elem_of_nil]. intros ->%list_elem_of_singleton.
  decide_guard. exists a. destruct (storedRoute i) as [s|]; [|done]. decide_guard. cbn. split; [done|].
  do 6 (split; [done|]). congruence.
Qed.

(** ** The route, written out

    What a reader of the settings page would say of a workload's route, without a word of how the plan is
    computed: whose list it follows, who stands at a place, and what lets one of them take the work now. *)

Section route.
Context (i : MlRoutePlanInput).

Definition place (k : MlDestinationKind) : MlProcessingSource :=
  match k with LocalKind => LocalPlace | Lan => Desktops | FrameleafCloud => CloudPlace end.

(** The list it follows: its own, else the one place it was pinned to, else the main one. *)
Inductive follows : list MlProcessingSource -> Prop :=
| FollowsOwn l : assoc_get (plan_workload i) (overrides (plan_order i)) = Some l -> follows l
| FollowsPin pre d post : assoc_get (plan_workload i) (overrides (plan_order i)) = None ->
    storedRoute i = Some (mkStored (Some (id d)) (Some Pinned)) -> destinations i = pre ++ d :: post ->
    (forall x, x ∈ pre -> id x <> id d) -> follows [place (kind d)]
| FollowsLostPin p : assoc_get (plan_workload i) (overrides (plan_order i)) = None ->
    storedRoute i = Some (mkStored p (Some Pinned)) -> (forall d, d ∈ destinations i -> p <> Some (id d)) -> follows []
| FollowsMain : assoc_get (plan_workload i) (overrides (plan_order i)) = None ->
    (storedRoute i ≫= origin) <> Some Pinned -> follows (order (plan_order i)).

Definition recorded (d : MlDestinationRow) : Prop := (storedRoute i ≫= stored_destinationId) = Some (id d) /\ id d <> ""%string.
Definition on_for (d : MlDestinationRow) : Prop := enabled d = true /\ plan_workload i ∈ workloads d.
Definition stands_at (s : MlProcessingSource) (d : MlDestinationRow) : Prop := place (kind d) = s /\ on_for d.
Definition opens_pool (a : MlDestinationRow) : Prop :=
  plan_workload i ∈ [Clip; Ocr; Face] /\ (storedRoute i ≫= origin) = Some DefaultOrigin /\ kind a <> FrameleafCloud /\ on_for a.
#[export] Instance recorded_dec d : Decision (recorded d).
Proof. apply _. Defined.
#[export] Instance stands_at_dec s d : Decision (stands_at s d).
Proof. apply _. Defined.
#[export] Instance opens_pool_dec a : Decision (opens_pool a).
Proof. apply _. Defined.

(** Who is asked at a place: the recorded destination, then the others as stored, and on the desktops the
    pool last, which is known by the recorded destination. *)
Inductive Asked_at := Direct (d : MlDestinationRow) | Pool (a : MlDestinationRow).
Definition asked_at (s : MlProcessingSource) : list Asked_at :=
  (Direct <$> filter (fun d => stands_at s d /\ recorded d) (destinations i)) ++
  (Direct <$> filter (fun d => stands_at s d /\ ~ recorded d) (destinations i)) ++
  match s, filter recorded (destinations i) with Desktops, a :: _ => if decide (opens_pool a) then [Pool a] else [] | _, _ => [] end.

(** The saved settings let the workload leave the network. *)
Definition leaves_home (s : CloudMl) : Prop :=
  match plan_workload i with
  | Clip | Face => True
  | Enrichment => kept_local s "descriptions" = false
  | Upscale => kept_local s "upscale" = false
  | RestorationFaithful | RestorationCreative => kept_local s "restoration" = false
  | StudioAi => kept_local s "studio" = false
  | Interpolation => kept_local s "interpolation" = false
  | _ => False
  end.
Record can_take (d : MlDestinationRow) : Prop := mkCanTake {
  ct_on : on_for d;
  ct_consent : kind d = FrameleafCloud -> is_Some (consentAcknowledgedAt d);
  ct_up : lastProbeHealth d <> Unhealthy;
  ct_budget : forall limit, budgetLimitUsd d = Some limit -> (default 0 (f ← spentUsd i; f (id d)) < limit)%Q;
  ct_settings : forall s, kind d = FrameleafCloud -> cloudMl i = Some s -> cloud_enabled s = true /\ leaves_home s
}.
Definition listed_as (c : MlRouteCandidate) (e : Asked_at) : Prop :=
  match e with
  | Direct d => source c = place (kind d) /\ destinationId c = id d /\ desktopPool c = false /\ (available c = true <-> can_take d)
  | Pool a => source c = Desktops /\ destinationId c = id a /\ desktopPool c = true /\ available c = desktopsReady i
  end.

Lemma on_for_configured d : configured d (plan_workload i) = true <-> on_for d.
Proof. unfold configured, on_for. by rewrite andb_true_iff, includes_true. Qed.

Lemma cloud_route_leaves s : cloudRouteAllows s (plan_workload i) = true <-> leaves_home s.
Proof. unfold leaves_home, cloudRouteAllows. destruct (plan_workload i); cbn; rewrite ?orb_true_iff, ?negb_true_iff; intuition (try done). Qed.

Lemma within_budget_limit d : withinBudget d (spentUsd i) = true <->
  forall limit, budgetLimitUsd d = Some limit -> (default 0 (f ← spentUsd i; f (id d)) < limit)%Q.
Proof.
  unfold withinBudget. destruct (budgetLimitUsd d) as [l|]; [|by split]. rewrite negb_true_iff. split.
  - intros H limit [= <-]. by apply Qle_bool_false.
  - intros H. apply not_true_iff_false. intros Hle%Qle_bool_iff. apply (Qle_not_lt _ _ Hle). by apply H.
Qed.

Lemma available_can_take d : storedAvailable d (plan_workload i) (cloudMl i) (spentUsd i) = true <-> can_take d.
Proof.
  unfold storedAvailable. split.
  - intros Ha. destruct (negb (configured d _) || negb (hasRequiredConsent d)) eqn:E1; [done|].
    destruct (bool_decide (lastProbeHealth d = Unhealthy) || negb (withinBudget d (spentUsd i))) eqn:E2; [done|]. decide_guard.
    split; [by apply on_for_configured|intros Hk; by apply consent_given|done|by apply within_budget_limit|].
    intros s Hk Hs. rewrite Hk, Hs in Ha. cbn in Ha. apply andb_true_iff in Ha as [Hon Hl]. split; [done|]. by apply cloud_route_leaves.
  - intros [H1 H2 H3 H4 H5]. rewrite (proj2 (on_for_configured d) H1), (proj2 (within_budget_limit d) H4), (bool_decide_false _ H3). cbn.
    assert (hasRequiredConsent d = true) as ->.
    { unfold hasRequiredConsent. destruct (kind d) eqn:Ek; [done|done|]. cbn. by apply bool_decide_true, H2. }
    cbn. destruct (decide (kind d = FrameleafCloud)) as [Hk|Hk]; [rewrite bool_decide_true by done|by rewrite bool_decide_false].
    destruct (cloudMl i) as [s|] eqn:Es; [|done]. destruct (H5 s Hk eq_refl) as [-> H6]. by apply cloud_route_leaves.
Qed.

Lemma sources_followed : follows (sources i).
Proof.
  unfold sources, sourcesFor. destruct (assoc_get _ _) as [own|] eqn:Eo; [by constructor|].
  destruct (storedRoute i) as [[p o]|] eqn:Es; cbn; [|apply FollowsMain; [done|by rewrite Es]].
  destruct (decide (o = Some Pinned)) as [->|Hn]; [rewrite bool_decide_true by done|rewrite bool_decide_false by done; apply FollowsMain; [done|by rewrite Es]].
  destruct (p ≫= _) as [a|] eqn:Ea.
  - destruct p as [p|]; [|done]. cbn in Ea. unfold find_destination in Ea.
    destruct (find_split _ _ _ Ea) as (pre & post & El & Ha%String.eqb_eq & Hpre). subst p.
    apply (FollowsPin pre a post); [done|done|done|]. intros x Hx. specialize (Hpre x Hx). by apply String.eqb_neq in Hpre.
  - apply (FollowsLostPin p); [done|done|]. intros d Hd ->. cbn in Ea. unfold find_destination in Ea.
    apply find_none_in with (x := d) in Ea; [|done]. by rewrite String.eqb_refl in Ea.
Qed.

(** The rows the code filters are the ones described. *)
Lemma filter_described {A} (p : A -> bool) (P : A -> Prop) `{!forall x, Decision (P x)} (l : list A) :
  (forall x, x ∈ l -> p x = true <-> P x) -> List.filter p l = filter P l.
Proof.
  induction l as [|x l IH]; intros Hp; [done|]. cbn [List.filter]. rewrite filter_cons, IH by (intros y Hy; by apply Hp, elem_of_cons; right).
  specialize (Hp x (list_elem_of_here _ _)). destruct (p x), (decide (P x)); [done| | |done]; exfalso; naive_solver.
Qed.
Lemma filter_twice {A} (p q : A -> bool) (l : list A) : List.filter p (List.filter q l) = List.filter (fun x => q x && p x) l.
Proof. induction l as [|x l IH]; [done|]. cbn. destruct (q x); cbn; [|done]. by rewrite IH. Qed.

Lemma anchor_recorded : anchor i = head (filter recorded (destinations i)).
Proof.
  unfold anchor. induction (destinations i) as [|d l IH]; [by destruct (storedRoute i ≫= _) as [[]|]|].
  rewrite filter_cons. case_decide as H.
  - destruct H as [-> H]. destruct (id d) as [|ch t] eqn:E; [done|]. cbn. by rewrite E, String.eqb_refl.
  - rewrite <- IH. unfold recorded in H. destruct (storedRoute i ≫= _) as [[|ch t]|]; [done| |done].
    cbn. destruct (String.eqb_spec (id d) (String ch t)) as [E|]; [|done]. destruct H. by rewrite E.
Qed.

Lemma is_anchor_recorded d : d ∈ destinations i -> is_anchor i d = true <-> recorded d.
Proof.
  intros Hd. unfold is_anchor. rewrite anchor_recorded.
  destruct (filter recorded (destinations i)) as [|a l] eqn:E; cbn.
  - split; [done|]. intros Hr. exfalso. eapply (not_elem_of_nil d). rewrite <- E. by apply list_elem_of_filter.
  - assert (a ∈ filter recorded (destinations i)) as Ha by (rewrite E; by left). apply list_elem_of_filter in Ha as [[Ha Hn] _].
    rewrite String.eqb_eq. unfold recorded. rewrite Ha. split; [intros ->; done|]. by intros [[=] _].
Qed.

Lemma ofKind_asked k : ofKind i k =
  filter (fun d => stands_at (place k) d /\ recorded d) (destinations i) ++ filter (fun d => stands_at (place k) d /\ ~ recorded d) (destinations i).
Proof.
  unfold ofKind. rewrite sort_flagged, !filter_twice.
  f_equal; apply filter_described; intros d Hd; rewrite !andb_true_iff, ?negb_true_iff, bool_decide_eq_true, on_for_configured;
    pose proof (is_anchor_recorded d Hd) as Ha; unfold stands_at;
    assert (kind d = k <-> place (kind d) = place k) as Hk by (split; [by intros ->|by destruct (kind d), k]).
  - tauto.
  - rewrite <- not_true_iff_false. tauto.
Qed.

Lemma candidate_listed d : listed_as (candidate i d) (Direct d).
Proof. cbn. split; [by destruct (kind d)|]. split; [done|]. split; [done|]. apply available_can_take. Qed.

Lemma pool_listed : Forall2 listed_as (pool_candidate i)
  (match filter recorded (destinations i) with a :: _ => if decide (opens_pool a) then [Pool a] else [] | [] => [] end).
Proof.
  unfold pool_candidate. rewrite anchor_recorded. destruct (filter recorded (destinations i)) as [|a l]; cbn [head]; [by constructor|].
  assert (includes (plan_workload i) DESKTOP_POOL_WORKLOADS &&
    match storedRoute i with Some s => bool_decide (origin s = Some DefaultOrigin) | None => false end &&
    negb (bool_decide (kind a = FrameleafCloud)) && configured a (plan_workload i) = true <-> opens_pool a) as H.
  { unfold opens_pool. rewrite !andb_true_iff, includes_true, negb_true_iff, bool_decide_eq_false, on_for_configured.
    assert (match storedRoute i with Some s => bool_decide (origin s = Some DefaultOrigin) | None => false end = true <->
      (storedRoute i ≫= origin) = Some DefaultOrigin) as -> by (destruct (storedRoute i); cbn; [apply bool_decide_eq_true|done]).
    unfold DESKTOP_POOL_WORKLOADS. tauto. }
  destruct (decide (opens_pool a)) as [Hd|Hd].
  - rewrite (proj2 H Hd). constructor; [done|constructor].
  - rewrite (not_true_is_false _ (fun E => Hd (proj1 H E))). constructor.
Qed.

Lemma at_listed s : Forall2 listed_as (candidates_at i s) (asked_at s).
Proof.
  assert (forall k, Forall2 listed_as (map (candidate i) (ofKind i k))
    ((Direct <$> filter (fun d => stands_at (place k) d /\ recorded d) (destinations i)) ++
     (Direct <$> filter (fun d => stands_at (place k) d /\ ~ recorded d) (destinations i)))) as Hk.
  { intros k. rewrite <- fmap_app, <- ofKind_asked. change (map (candidate i)) with (fmap (M:=list) (candidate i)).
    rewrite Forall2_fmap. apply Forall_Forall2_diag, Forall_forall. intros d _. apply candidate_listed. }
  unfold asked_at. destruct s; cbn [candidates_at].
  - rewrite app_nil_r. apply (Hk LocalKind).
  - rewrite app_assoc. apply Forall2_app; [apply (Hk Lan)|]. exact pool_listed.
  - rewrite app_nil_r. apply (Hk FrameleafCloud).
Qed.
End route.

(** C28. The candidates of a workload are exactly its route: it follows its own list, or else the one place it
    was pinned to (none, when that destination is gone), or else the main list; place after place, as
    that list has them, the destinations there which are turned on and allowed to do the work are
    listed, the recorded one first and the others as they are stored; and after the desktops their pool, for
    the three kinds of work it does, when this server recorded the route on its own and the recorded
    destination is turned on, allowed and not Frameleaf Cloud.  A destination is marked available exactly
    when it is not known to be down, is inside its budget and, for Frameleaf Cloud, has its consent and
    is let through by the saved settings (when the caller gives them); the pool exactly when a desktop is ready. *)
Theorem route_exact (i : MlRoutePlanInput) :
  exists places, follows i places /\ Forall2 (listed_as i) (planMlRoute i) (places ≫= asked_at i).
Proof.
  exists (sources i). split; [apply sources_followed|]. unfold planMlRoute. induction (sources i) as [|s l IH]; [constructor|].
  cbn [flat_map]. change (mbind ?f (s :: l)) with (f s ++ mbind f l). apply Forall2_app; [apply at_listed|exact IH].
Qed.

(** ** Routed work *)

Section routed.
Context (deps : MlSelectionDeps) (r : MlSelectionRequest).

(** In the course of [tr] the place [c] was tried, and refused the work; or admitted it, and the job was pinned there. *)
Definition refused_at (tr : list Event) (c : MlRouteCandidate) : Prop :=
  exists before tr1 tr2 tr3 e n1 n2, tr = tr1 ++ tr2 ++ tr3 /\ isPlaceUnavailable e = true /\
    runs (try_place deps r before c) n1 tr2 (inr e) n2.
Definition admitted_at (tr : list Event) (q : MlSelectionRequest) (x : MlSelection) : Prop :=
  exists tr1 tr2 tr3 n1 n2, tr = tr1 ++ tr2 ++ tr3 /\ runs (selectMlDestination deps q) n1 tr2 (inl x) n2.

Lemma refused_more tr e c : refused_at tr c -> refused_at (e ++ tr) c.
Proof. intros (b & tr1 & tr2 & tr3 & x & n1 & n2 & -> & H). exists b, (e ++ tr1), tr2, tr3, x, n1, n2. by rewrite app_assoc. Qed.
Lemma admitted_more tr e f q x : admitted_at tr q x -> admitted_at (e ++ tr ++ f) q x.
Proof.
  intros (tr1 & tr2 & tr3 & n1 & n2 & -> & H). exists (e ++ tr1), tr2, (tr3 ++ f), n1, n2. split; [|done]. by rewrite <- !app_assoc.
Qed.

Lemma runs_reason {A} x (k : prog A) n tr y n' : runs (set_reason deps x k) n tr y n' -> exists n1, runs k n1 tr y n'.
Proof. unfold set_reason. destruct (in_context deps); intros H; by eexists. Qed.

Lemma try_place_selected before c n tr x n' : runs (try_place deps r before c) n tr (inl x) n' ->
  admitted_at tr (place_request r c) x /\ exists d, Asked (PinDestination (workload r) (selected_id x)) (inl d) ∈ tr.
Proof.
  intros [(tr1 & a & n1 & tr2 & -> & H1 & H2)|(e & ? & _)]%runs_bind; [|done].
  apply runs_reason in H2 as (n2 & H2). apply runs_bind in H2 as [(tr3 & d & n3 & tr4 & -> & H3 & H4)|(e & ? & _)]; [|done].
  apply runs_ask in H3 as [-> ->]. destruct H4 as (-> & [= ->] & ->). split.
  - exists [], tr1, ([Asked (PinDestination (workload r) (selected_id a)) (inl d)] ++ []), n, n1. done.
  - exists d. apply elem_of_app. right. apply elem_of_app. left. by apply list_elem_of_singleton.
Qed.

(** What trying the places in order comes to. *)
Lemma try_places_runs before l first n tr y n' : runs (try_places deps r before l first) n tr y n' ->
  match y with
  | inl (inl x) => exists pre c post, l = pre ++ c :: post /\ (forall p, p ∈ pre -> refused_at tr p) /\
      admitted_at tr (place_request r c) x /\ exists d, Asked (PinDestination (workload r) (selected_id x)) (inl d) ∈ tr
  | inl (inr (e, _)) => (forall p, p ∈ l -> refused_at tr p) /\
      (isPlaceUnavailable <$> (fst <$> first) = Some true -> isPlaceUnavailable e = true) /\ (first = None -> isPlaceUnavailable e = true)
  | inr e => True
  end.
Proof.
  revert first n tr. induction l as [|c l IH]; intros first n tr H; cbn [try_places] in H.
  - destruct first as [[e nn]|]; destruct H as (-> & -> & ->); [|done].
    split; [by intros p ?%not_elem_of_nil|]. split; [by intros [= ->]|done].
  - apply runs_attempt in H as (tr1 & [x|e] & n1 & tr2 & -> & H1 & H2).
    + destruct H2 as (-> & -> & ->). exists [], c, l. rewrite app_nil_r. split; [done|]. split; [by intros p ?%not_elem_of_nil|].
      by eapply try_place_selected.
    + destruct (negb (isPlaceUnavailable e)) eqn:Ee; [by destruct H2 as (_ & -> & _)|]. apply negb_false_iff in Ee.
      cbn in H2. apply runs_reason in H2 as (n2 & H2). specialize (IH _ _ _ H2).
      assert (refused_at (tr1 ++ tr2) c) as Hc by (by exists before, [], tr1, tr2, e, n, n1).
      destruct y as [[x|[e' nn]]|e']; [| |done].
      * destruct IH as (pre & c' & post & -> & Hp & Ha & d & Hd). exists (c :: pre), c', post. split; [done|]. split.
        { intros p [->|Hp']%elem_of_cons; [done|]. by apply refused_more, Hp. }
        split; [rewrite <- (app_nil_r (tr1 ++ tr2)), <- app_assoc; by apply admitted_more|]. exists d. apply elem_of_app. by right.
      * destruct IH as (Hp & Hf & Hn). split; [intros p [->|Hp']%elem_of_cons; [done|]; by apply refused_more, Hp|].
        split; [|intros ->; by apply Hf; cbn; rewrite Ee].
        destruct first as [[]|]; [done|]. intros _. apply Hf. cbn. by rewrite Ee.
Qed.

Lemma select_pinned_runs n tr x n' : runs (select_pinned deps r) n tr (inl x) n' ->
  exists d, Asked (PinDestination (workload r) (request_destination r)) (inl d) ∈ tr /\ admitted_at tr (with_destination d r) x.
Proof.
  intros [(tr1 & d & n1 & tr2 & -> & H1 & H2)|(e & ? & _)]%runs_bind; [|done]. apply runs_ask in H1 as [-> ->].
  exists d. split; [apply elem_of_app; left; by apply list_elem_of_singleton|].
  exists [Asked (PinDestination (workload r) (request_destination r)) (inl d)], tr2, [], n, n'. by rewrite app_nil_r.
Qed.
End routed.

Lemma in_more (e : Event) tr a b : e ∈ tr -> e ∈ a ++ tr ++ b.
Proof. intros H. apply elem_of_app. right. apply elem_of_app. by left. Qed.
Lemma in_tail (e : Event) tr a : e ∈ tr -> e ∈ a ++ tr.
Proof. intros H. apply elem_of_app. by right. Qed.
Lemma refused_wider deps r tr a b c : refused_at deps r tr c -> refused_at deps r (a ++ tr ++ b) c.
Proof.
  intros (x & tr1 & tr2 & tr3 & e & n1 & n2 & -> & H). exists x, (a ++ tr1), tr2, (tr3 ++ b), e, n1, n2.
  split; [by rewrite <- !app_assoc|done].
Qed.
Lemma admitted_tail deps tr a q x : admitted_at deps tr q x -> admitted_at deps (a ++ tr) q x.
Proof. intros H. rewrite <- (app_nil_r tr). by apply admitted_more. Qed.

(** Routed work that is admitted was pinned to the place it ran on before; or no place was available, and it
    was admitted where it waits; or it was admitted by the first available place that would have it. *)
Definition routed_to (deps : MlSelectionDeps) (r : MlSelectionRequest) (tr : list Event) (x : MlSelection) : Prop :=
  let w := workload r in
  (exists p d, Asked (PinnedDestination w) (inl (Some p)) ∈ tr /\ Asked (PinDestination w p) (inl d) ∈ tr /\
     admitted_at deps tr (with_destination d r) x) \/
  exists l, Asked (ResolveRoute w) (inl l) ∈ tr /\
    ((List.filter available l = [] /\ exists p d, Asked (PinDestination w p) (inl d) ∈ tr /\
        admitted_at deps tr (with_destination d r) x /\
        ((exists c rest, l = c :: rest /\ p = destinationId c) \/ (l = [] /\ Asked (GetRoute w) (inl (Some p)) ∈ tr))) \/
     exists pre c post, List.filter available l = pre ++ c :: post /\ (forall p, p ∈ pre -> refused_at deps r tr p) /\
        admitted_at deps tr (place_request r c) x /\ exists d, Asked (PinDestination w (selected_id x)) (inl d) ∈ tr).

Lemma never_selected deps (e : MlError) place n tr (x : MlSelection) n' :
  runs (e' ← computerAway deps e place; Raise e') n tr (inl x) n' -> False.
Proof. intros [(? & ? & ? & ? & _ & _ & _ & Hy & _)|(? & ? & _)]%runs_bind; discriminate. Qed.

Lemma runs_waiting deps r l n tr x n' : runs (select_waiting deps r l) n tr (inl x) n' ->
  exists p d, Asked (PinDestination (workload r) p) (inl d) ∈ tr /\ admitted_at deps tr (with_destination d r) x /\
    ((exists c rest, l = c :: rest /\ p = destinationId c) \/ (l = [] /\ Asked (GetRoute (workload r)) (inl (Some p)) ∈ tr)).
Proof.
  intros [(tr1 & p & n1 & tr2 & -> & H1 & H2)|(e & ? & _)]%runs_bind; [|done].
  apply runs_attempt in H2 as (tr3 & [y|e] & n2 & tr4 & -> & H2 & H3); [|by apply never_selected in H3].
  destruct H3 as (-> & [= ->] & ->). apply select_pinned_runs in H2 as (d & Hd & Ha). rewrite app_nil_r. exists p, d.
  split; [by apply in_tail|]. split; [by apply admitted_tail|]. unfold waiting_place in H1. destruct l as [|c rest]; cbn [head] in H1.
  - right. split; [done|]. unfold routedMlDestinationId in H1. apply runs_bind in H1 as [(tr5 & g & n3 & tr6 & -> & H4 & H5)|(e & ? & _)]; [|done].
    apply runs_ask in H4 as [-> ->]. destruct g as [g|].
    + destruct H5 as (-> & [= ->] & ->). apply elem_of_app. left. apply elem_of_app. left. by apply list_elem_of_singleton.
    + exfalso. revert H5. unfold refused, noteAdmissionDependency. destruct (_ || _); cbn; by intros (_ & ? & _).
  - left. destruct H1 as (_ & [= ->] & _). by exists c, rest.
Qed.

Lemma runs_available deps r l n tr x n' : runs (select_available deps r l) n tr (inl x) n' ->
  exists pre c post, l = pre ++ c :: post /\ (forall p, p ∈ pre -> refused_at deps r tr p) /\
    admitted_at deps tr (place_request r c) x /\ exists d, Asked (PinDestination (workload r) (selected_id x)) (inl d) ∈ tr.
Proof.
  intros [(tr1 & [y|[e noted]] & n1 & tr2 & -> & H1 & H2)|(e & ? & _)]%runs_bind; [| |done].
  - destruct H2 as (-> & [= ->] & ->). rewrite app_nil_r. by apply try_places_runs in H1.
  - apply runs_reason in H2 as (n2 & H2). by apply never_selected in H2.
Qed.

Lemma routed_tail deps r tr a x : routed_to deps r tr x -> routed_to deps r (a ++ tr) x.
Proof.
  intros [(p & d & H1 & H2 & H3)|(l & H1 & [(E & p & d & H2 & H3 & H4)|(pre & c & post & E & H2 & H3 & d & H4)])].
  - left. exists p, d. split; [by apply in_tail|]. split; [by apply in_tail|by apply admitted_tail].
  - right. exists l. split; [by apply in_tail|]. left. split; [done|]. exists p, d. split; [by apply in_tail|].
    split; [by apply admitted_tail|]. destruct H4 as [H4|[? H4]]; [by left|right]. split; [done|by apply in_tail].
  - right. exists l. split; [by apply in_tail|]. right. exists pre, c, post. split; [done|]. split.
    { intros q Hq. rewrite <- (app_nil_r tr). by apply refused_wider, H2. }
    split; [by apply admitted_tail|]. exists d. by apply in_tail.
Qed.

Lemma runs_routed deps r n tr x n' : runs (selectRoutedMlDestination deps r) n tr (inl x) n' -> routed_to deps r tr x.
Proof.
  intros [(tr1 & p & n1 & tr2 & -> & H1 & H2)|(e & ? & _)]%runs_bind; [|done]. apply runs_ask in H1 as [-> ->].
  assert (forall n tr, runs (candidates ← ask (ResolveRoute (workload r));
            match List.filter available candidates with [] => select_waiting deps r candidates | free => select_available deps r free end)
            n tr (inl x) n' -> routed_to deps r tr x) as Hroute.
  { clear. intros n tr [(tr1 & l & n1 & tr2 & -> & H1 & H2)|(e & ? & _)]%runs_bind; [|done]. apply runs_ask in H1 as [-> ->].
    right. exists l. split; [apply elem_of_app; left; by apply list_elem_of_singleton|].
    destruct (List.filter available l) as [|c0 cs]; [left; split; [done|]|right].
    - apply runs_waiting in H2 as (p & d & H3 & H4 & H5). exists p, d. split; [by apply in_tail|]. split; [by apply admitted_tail|].
      destruct H5 as [H5|[? H5]]; [by left|right]. split; [done|by apply in_tail].
    - apply runs_available in H2 as (pre & c & post & E & H3 & H4 & d & H5). exists pre, c, post. split; [done|]. split.
      { intros q Hq. rewrite <- (app_nil_r tr2). by apply refused_wider, H3. }
      split; [by apply admitted_tail|]. exists d. by apply in_tail. }
  destruct p as [[|ch s]|]; [by apply routed_tail, (Hroute n)| |by apply routed_tail, (Hroute n)].
  apply select_pinned_runs in H2 as (d & H3 & H4). left. exists (String ch s), d.
  split; [apply elem_of_app; left; by apply list_elem_of_singleton|]. split; [by apply in_tail|by apply admitted_tail].
Qed.

Lemma admitted_chosen deps tr q x : admitted_at deps tr q x -> exists tr' d, (forall e, e ∈ tr' -> e ∈ tr) /\ chosen deps q tr' x d.
Proof.
  intros (tr1 & tr2 & tr3 & n1 & n2 & -> & H). destruct (wp_runs _ _ n1 [] _ tr2 _ _ (wp_select deps q n1) H) as [(d & Hd) _].
  exists tr2, d. split; [intros e He; by apply in_more|done].
Qed.


(** C27. Routed work never leaves its order.  For a job that has no place yet, whose route is planned from the
    order and the rows of that moment, whatever else changes while the places are tried: the work is admitted
    by the first available place that does not refuse it (or, when none is available, by the first place
    it waits on), and that place is one its order lists; it runs on Frameleaf Cloud only when the order
    lists Frameleaf Cloud. *)
Theorem routed_stays_in_order (deps : MlSelectionDeps) (r : MlSelectionRequest) (n : option DependencyReason)
    (tr : list Event) (x : MlSelection) (n' : option DependencyReason) (i : MlRoutePlanInput)
    (Hrun : runs (selectRoutedMlDestination deps r) n tr (inl x) n')
    (Hnew : forall p, ~ Asked (PinnedDestination (workload r)) (inl (Some p)) ∈ tr)
    (Hroute : forall l, Asked (ResolveRoute (workload r)) (inl l) ∈ tr -> l = planMlRoute i)
    (Hget : forall p, Asked (GetRoute (workload r)) (inl (Some p)) ∈ tr -> destinationId <$> firstCandidate (planMlRoute i) = Some p)
    (Hpin : forall p d, Asked (PinDestination (workload r) p) (inl d) ∈ tr -> d = p)
    (Hread : forall p d, Asked (GetById p) (inl (Some d)) ∈ tr -> id d = p /\
       forall d0, d0 ∈ destinations i -> id d0 = p -> kind d0 = kind d) :
  routed_to deps r tr x /\
  exists c, c ∈ planMlRoute i /\ source c ∈ sources i /\ selected_id x = destinationId c /\
    (selected_kind x = FrameleafCloud -> source c = CloudPlace /\ CloudPlace ∈ sources i).
Proof.
  pose proof (runs_routed _ _ _ _ _ _ Hrun) as Hto. split; [exact Hto|].
  assert (forall c q, c ∈ planMlRoute i -> request_destination q = destinationId c -> admitted_at deps tr q x ->
    exists c, c ∈ planMlRoute i /\ source c ∈ sources i /\ selected_id x = destinationId c /\
    (selected_kind x = FrameleafCloud -> source c = CloudPlace /\ CloudPlace ∈ sources i)) as Hc.
  { intros c q Hin Hq Ha. destruct (admitted_chosen _ _ _ _ Ha) as (tr' & d & Hsub & [[Hk _] Hid Hkind _ _ _ _ _]).
    destruct (Hread _ _ (Hsub _ Hk)) as [Ed Hsame]. rewrite Hq in Ed, Hsame. exists c. split; [done|].
    unfold planMlRoute in Hin. apply elem_of_flat_map in Hin as (s & Hs & Hc). pose proof (candidates_source i s c Hc) as Es.
    split; [by rewrite Es|]. split; [congruence|]. intros Hcl. rewrite Es.
    enough (s = CloudPlace) as -> by done. rewrite Hkind in Hcl.
    assert (forall k, c ∈ map (candidate i) (ofKind i k) -> k = FrameleafCloud) as Hdirect.
    { intros k (d0 & H1 & <- & _ & ->)%direct_elem. rewrite (Hsame d0 H1 eq_refl). exact Hcl. }
    destruct s; cbn in Hc; [by specialize (Hdirect _ Hc)| |done].
    apply elem_of_app in Hc as [Hc|Hc]; [by specialize (Hdirect _ Hc)|].
    destruct (pool_elem i c Hc) as (a & Ea & Eid & _ & _ & _ & Hka & _). exfalso. apply Hka.
    rewrite (Hsame a); [exact Hcl| |by rewrite Eid]. unfold anchor in Ea. destruct (storedRoute i ≫= _) as [[|ch t]|]; [done| |done].
    apply List.find_some in Ea as [Ea _]. by apply list_elem_of_In. }
  destruct Hto as [(p & d & H1 & _)|(l & H1 & [(_ & p & d & H2 & H3 & H4)|(pre & c & post & E & _ & H3 & _)])].
  - by destruct (Hnew p).
  - specialize (Hroute l H1) as ->. specialize (Hpin p d H2) as ->. destruct H4 as [(c & rest & E & ->)|[E H4]].
    + apply (Hc c (with_destination (destinationId c) r)); [rewrite E; apply elem_of_cons; by left|done|done].
    + specialize (Hget p H4). rewrite E in Hget. done.
  - specialize (Hroute l H1) as ->. apply (Hc c (place_request r c)); [|done|done].
    assert (c ∈ List.filter available (planMlRoute i)) as Hin by (rewrite E; apply elem_of_app; right; apply elem_of_cons; by left).
    by apply elem_of_filter_b in Hin as [Hin _].
Qed.

(** ** A sample: work that this server cannot take goes to Frameleaf Cloud, which its order lists *)

Section simulate.
Context (oracle : forall B, AskM B -> B + MlError).
Fixpoint simulate {A} (m : prog A) (n : option DependencyReason) : list Event * (A + MlError) * option DependencyReason :=
  match m with
  | Done a => ([], inl a, n)
  | Raise e => ([], inr e, n)
  | Ask q k => let '(tr, y, n') := simulate (k (oracle _ q)) n in (Asked q (oracle _ q) :: tr, y, n')
  | Get k => simulate (k n) n
  | Put r k => simulate k r
  end.
Lemma simulate_runs {A} (m : prog A) n : runs m n (simulate m n).1.1 (simulate m n).1.2 (simulate m n).2.
Proof.
  revert n. induction m as [a|e|B q k IH|k IH|r k IH]; intros n; cbn; [done|done| |apply IH|apply IH].
  specialize (IH (oracle B q) n). destruct (simulate (k (oracle B q)) n) as [[tr y] n']. by exists (oracle B q), tr.
Qed.
End simulate.

Local Open Scope string_scope.
Definition sample_home : MlDestinationRow :=
  mkDestination "home" LocalKind "This server" (Some "http://ml:3003") None true [Enrichment] None None (Some 1%Z) Healthy None
    (Some [Enrichment]) None None None.
Definition sample_cloud : MlDestinationRow :=
  mkDestination "cloud" FrameleafCloud "Frameleaf Cloud" None None true [Enrichment] (Some 1%Z) (Some 5%Q) None UnknownHealth None None None
    (Some "2026-09-26.1") None.
Definition sample_facts : CloudProbeFacts :=
  mkFacts (Some "2026-09-26.1") (mkFeatures false false) true 10 2 None 0 ["ms_1"] (Some [("descriptions", "ms_1")])
    (Some [("ms_1", "descriptions")]) None None.
Definition sample_settings : CloudMl := mkCloudMl true (fun _ => false).
Definition sample_plan_input : MlRoutePlanInput :=
  mkPlanInput Enrichment (mkOrder [LocalPlace; CloudPlace] []) [sample_home; sample_cloud] None (Some sample_settings) false
    (Some (fun d => if String.eqb d "cloud" then Some 1%Q else None)).

Definition sample_answers (B : Type) (q : AskM B) : B + MlError :=
  match q in AskM B return B + MlError with
  | GetById d => inl (if String.eqb d "home" then Some sample_home else if String.eqb d "cloud" then Some sample_cloud else None)
  | AssertAuthority _ => inl tt
  | CloudMlSettings => inl sample_settings
  | GetSpend _ => inl 1%Q
  | SelectPool _ _ _ => inl false
  | Probe d _ => inl (if String.eqb (id d) "home" then mkProbe false [] 2 (Some "timed out") None
                      else mkProbe true [Enrichment] 2 None (Some sample_facts))
  | RecordProbe _ _ => inl tt
  | GetCloudModelChoice _ => inl None
  | PinnedDestination _ => inl None
  | PinDestination _ d => inl d
  | ResolveRoute _ => inl (planMlRoute sample_plan_input)
  | GetRoute _ => inl None
  | GetAll => inl [sample_home; sample_cloud]
  | StopWhenAway => inl false
  | TellAdmins _ => inl tt
  end.
Definition sample_deps : MlSelectionDeps := mkDeps true true true true.
Definition sample_work : MlSelectionRequest := mkRequest Enrichment "cloud" false None None false None.
Definition sample_routed := simulate sample_answers (selectRoutedMlDestination sample_deps sample_work) None.
Definition sample_selection : MlSelection :=
  mkSelection "cloud" FrameleafCloud Enrichment (Some FRAMELEAF_CLOUD_ENDPOINT) (Some "ms_1") false.

Lemma sample_routed_admitted : sample_routed.1.2 = inl sample_selection.
Proof. vm_compute. reflexivity. Qed.


(** What an event says of the questions the theorem's hypotheses speak of. *)
Inductive Fact :=
| FPinned (p : option string) | FRoute (l : list MlRouteCandidate) | FGet (p : option string) | FPin (p d : string)
| FRead (p : string) (d : option MlDestinationRow) | FOther.
Definition fact_of (e : Event) : Fact :=
  match e with
  | Asked q x =>
      match q in AskM B return B + MlError -> Fact with
      | PinnedDestination _ => fun x => match x with inl p => FPinned p | _ => FOther end
      | ResolveRoute _ => fun x => match x with inl l => FRoute l | _ => FOther end
      | GetRoute _ => fun x => match x with inl p => FGet p | _ => FOther end
      | PinDestination _ p => fun x => match x with inl d => FPin p d | _ => FOther end
      | GetById p => fun x => match x with inl d => FRead p d | _ => FOther end
      | _ => fun _ => FOther
      end x
  end.
Lemma sample_facts_of : map fact_of sample_routed.1.1 =
  [FPinned None; FRoute (planMlRoute sample_plan_input); FRead "home" (Some sample_home); FOther; FOther; FOther;
   FRead "cloud" (Some sample_cloud); FOther; FOther; FOther; FOther; FOther; FOther; FOther; FPin "cloud" "cloud"].
Proof. vm_compute. reflexivity. Qed.
Lemma sample_fact e : e ∈ sample_routed.1.1 -> fact_of e ∈
  [FPinned None; FRoute (planMlRoute sample_plan_input); FRead "home" (Some sample_home); FOther; FOther; FOther;
   FRead "cloud" (Some sample_cloud); FOther; FOther; FOther; FOther; FOther; FOther; FOther; FPin "cloud" "cloud"].
Proof. intros H. rewrite <- sample_facts_of. apply list_elem_of_fmap. by exists e. Qed.
Ltac from_sample H := apply sample_fact in H; cbn [fact_of] in H;
  repeat (apply elem_of_cons in H as [H|H]; [try discriminate H|]); [..|by apply not_elem_of_nil in H].

Lemma sample_new p : ~ Asked (PinnedDestination Enrichment) (inl (Some p)) ∈ sample_routed.1.1.
Proof. intros H. from_sample H. Qed.
Lemma sample_route l : Asked (ResolveRoute Enrichment) (inl l) ∈ sample_routed.1.1 -> l = planMlRoute sample_plan_input.
Proof. intros H. from_sample H. by injection H. Qed.
Lemma sample_get p : Asked (GetRoute Enrichment) (inl (Some p)) ∈ sample_routed.1.1 ->
  destinationId <$> firstCandidate (planMlRoute sample_plan_input) = Some p.
Proof. intros H. from_sample H. Qed.
Lemma sample_pin p d : Asked (PinDestination Enrichment p) (inl d) ∈ sample_routed.1.1 -> d = p.
Proof. intros H. from_sample H. by injection H as -> ->. Qed.
Lemma sample_read p d : Asked (GetById p) (inl (Some d)) ∈ sample_routed.1.1 -> id d = p /\
  forall d0, d0 ∈ destinations sample_plan_input -> id d0 = p -> kind d0 = kind d.
Proof.
  intros H. from_sample H; injection H as -> ->; (split; [done|]); intros d0 Hd; cbn in Hd.
  all: by apply elem_of_cons in Hd as [->|[->|[]%not_elem_of_nil]%elem_of_cons].
Qed.

Lemma routed_stays_in_order_witness :
  exists c, c ∈ planMlRoute sample_plan_input /\ source c ∈ sources sample_plan_input /\
    selected_id sample_selection = destinationId c /\
    (selected_kind sample_selection = FrameleafCloud -> source c = CloudPlace /\ CloudPlace ∈ sources sample_plan_input).
Proof.
  assert (runs (selectRoutedMlDestination sample_deps sample_work) None sample_routed.1.1 (inl sample_selection) sample_routed.2) as Hrun.
  { rewrite <- sample_routed_admitted. exact (simulate_runs sample_answers (selectRoutedMlDestination sample_deps sample_work) None). }
  exact (proj2 (routed_stays_in_order sample_deps sample_work None sample_routed.1.1 sample_selection sample_routed.2
                  sample_plan_input Hrun sample_new sample_route sample_get sample_pin sample_read)).
Defined.
