(* ===== verification/BackupSequence.v ===== *)
(** * The backup sequence ([server/src/utils/backup-sequence.ts],
    [server/src/services/backup-sequence.service.ts])

    One schedule, one run at a time: the library data copy, then Buddy Backup, then Cloud Backup, each
    started when the one before it has ended.  The handlers are programs ([io]) whose questions to the
    database, the queue and the two backup services may have any answer or throw; the state is one row of
    system metadata.  [runs] gives their histories over that row, interrupted anywhere; [serves] those
    of a server, whose handlers take turns under one lock.  The cron timer, the schedule's next time and
    the log are left out. *)

From S2P Require Import Prelude JsNumber JsString.
Local Open Scope Z_scope.

(** ** Data *)

Inductive BackupSequencePlace := LocalCopy | BuddyBackup | CloudBackup.
#[export] Instance BackupSequencePlace_eq_dec : EqDecision BackupSequencePlace.
Proof. solve_decision. Defined.
Definition BACKUP_SEQUENCE : list BackupSequencePlace := [LocalCopy; BuddyBackup; CloudBackup].

Inductive PlaceResult := ResultDone | ResultOff | ResultFailed.
#[export] Instance PlaceResult_eq_dec : EqDecision PlaceResult.
Proof. solve_decision. Defined.

Record BackupSequenceRun := mkRun {
  startedAt : Z;
  place : BackupSequencePlace;
  begun : bool;
  jobId : option string;
  results : list (BackupSequencePlace * PlaceResult)
}.
#[export] Instance BackupSequenceRun_eq_dec : EqDecision BackupSequenceRun.
Proof. solve_decision. Defined.
Record BackupSequenceState := mkState {
  run : option BackupSequenceRun;
  dueAt : option Z;
  finishedAt : option Z
}.
#[export] Instance BackupSequenceState_eq_dec : EqDecision BackupSequenceState.
Proof. solve_decision. Defined.

Record StoredBackupSchedules := mkSchedules {
  database_enabled : bool;
  database_cron : string;
  buddy_schedule : option string;
  cloud_schedule : option string
}.

(** [a || b] on strings, where the empty one and no one are false. *)
Definition or_else (a : option string) (b : string) : string := match a with Some (String _ _ as s) => s | _ => b end.
Definition deriveBackupSchedule (stored : StoredBackupSchedules) : string :=
  or_else (if database_enabled stored then Some (database_cron stored) else None)
    (or_else (buddy_schedule stored) (or_else (cloud_schedule stored) (database_cron stored))).
Definition effectiveBackupSchedule (chosen : option string) (stored : StoredBackupSchedules) : string :=
  or_else (trim <$> chosen) (deriveBackupSchedule stored).

Definition place_index (p : BackupSequencePlace) : nat := match p with LocalCopy => 0 | BuddyBackup => 1 | CloudBackup => 2 end.
Definition nextBackupPlace (p : BackupSequencePlace) : option BackupSequencePlace := BACKUP_SEQUENCE !! S (place_index p).

(** ** Programs *)

Inductive QueueJobStatus := Active | FailedJob | Complete | Delayed | Waiting | Paused.
#[export] Instance QueueJobStatus_eq_dec : EqDecision QueueJobStatus.
Proof. solve_decision. Defined.
Record QueueJob := mkJob { job_id : string; job_name : string; job_status : QueueJobStatus }.
Record SequenceStatus := mkStatus { on : bool; busy : bool }.

Inductive AskS : Type -> Type :=
| LoadState : AskS (option BackupSequenceState)
| SaveState (s : BackupSequenceState) : AskS unit
| CopyEnabled : AskS bool
| Status (p : BackupSequencePlace) : AskS SequenceStatus
| StartBackup (p : BackupSequencePlace) : AskS unit
| SearchJobs (statuses : list QueueJobStatus) : AskS (list QueueJob)
| QueueSequence : AskS unit.

(** What is thrown: an error of a question, or the fuel of [advance] used up. *)
Inductive SequenceError := Thrown (error : string) | OutOfTurns.

Inductive io (A : Type) : Type :=
| Done (a : A)
| Raise (e : SequenceError)
| Ask {B : Type} (q : AskS B) (k : B + string -> io A)
| Now (k : Z -> io A).
Arguments Done {A} a.
Arguments Raise {A} e.
Arguments Ask {A B} q k.
Arguments Now {A} k.

Fixpoint attempt_ {A B} (m : io A) (f : A + SequenceError -> io B) : io B :=
  match m with
  | Done a => f (inl a)
  | Raise e => f (inr e)
  | Ask q k => Ask q (fun x => attempt_ (k x) f)
  | Now k => Now (fun t => attempt_ (k t) f)
  end.
Definition bind {A B} (m : io A) (f : A -> io B) : io B :=
  attempt_ m (fun x => match x with inl a => f a | inr e => Raise e end).
#[export] Instance io_ret : MRet io := @Done.
#[export] Instance io_bind : MBind io := fun A B f m => bind m f.
Definition ask {B} (q : AskS B) : io B := Ask q (fun x => match x with inl a => Done a | inr e => Raise (Thrown e) end).

(** ** The places *)

Definition isOn (p : BackupSequencePlace) : io bool :=
  match p with
  | LocalCopy => ask CopyEnabled
  | _ => s ← ask (Status p); Done (on s)
  end.

(** Starting is the whole of it: the run then waits ([begin] always answers ["started"]). *)
Definition begin (p : BackupSequencePlace) : io unit := ask (StartBackup p).

Definition placeOutcome (p : BackupSequencePlace) : io (option PlaceResult) :=
  s ← ask (Status p); Done (if busy s then None else Some ResultDone).

Definition snapshotJobId : io (option string) :=
  jobs ← ask (SearchJobs [Active; Waiting; Delayed; Paused]);
  Done (job_id <$> List.find (fun j => String.eqb (job_name j) "DatabaseBackup") jobs).

(** [None] while the snapshot is being made or waits for its retry. *)
Definition job_outcome (jobs : list QueueJob) (i : string) : option PlaceResult :=
  match job_status <$> List.find (fun j => String.eqb (job_id j) i) jobs with
  | Some Active | Some Waiting | Some Delayed => None
  | Some FailedJob | Some Paused => Some ResultFailed
  | _ => Some ResultDone
  end.
Definition snapshotOutcome (i : option string) : io (option PlaceResult) :=
  match i with
  | Some (String _ _ as i) => jobs ← ask (SearchJobs [Active; FailedJob; Complete; Delayed; Waiting; Paused]); Done (job_outcome jobs i)
  | _ => Done (Some ResultDone)
  end.
Definition outcome (r : BackupSequenceRun) : io (option PlaceResult) :=
  match place r with LocalCopy => snapshotOutcome (jobId r) | p => placeOutcome p end.

(** ** A run *)

Definition load : io BackupSequenceState := s ← ask LoadState; Done (default (mkState None None None) s).
Definition save (s : BackupSequenceState) : io unit := ask (SaveState s).

(** The run past its place, with [x] as what the place did. *)
Definition left (r : BackupSequenceRun) (x : PlaceResult) : option BackupSequenceRun :=
  (fun p => mkRun (startedAt r) p false (jobId r) (assoc_set (place r) x (results r))) <$> nextBackupPlace (place r).
Definition leave (s : BackupSequenceState) (r : BackupSequenceRun) (x : PlaceResult) : io BackupSequenceState :=
  match left r x with
  | Some r' => Done (mkState (Some r') (dueAt s) (finishedAt s))
  | None => Now (fun t => Done (mkState None (dueAt s) (Some t)))
  end.

(** The run at its place, begun; the snapshot job it waits for, when one is listed. *)
Definition begun_at (r : BackupSequenceRun) (i : option string) : BackupSequenceRun :=
  mkRun (startedAt r) (place r) true (match i with Some (String _ _) => i | _ => jobId r end) (results r).
(** Whether the place was started, and for the copy the job it made. *)
Definition try_begin (r : BackupSequenceRun) : io (option (option string)) :=
  is_on ← isOn (place r);
  if (is_on : bool) then
    _ ← begin (place r);
    i ← match place r with LocalCopy => snapshotJobId | _ => Done None end;
    Done (Some i)
  else Done None.

(** The loop of [advance]; [None] when it stops at a place whose backup is being made. *)
Fixpoint visit (turns : nat) (s : BackupSequenceState) : io (option BackupSequenceState) :=
  match run s with
  | None => Done (Some s)
  | Some r =>
      match turns with
      | O => Raise OutOfTurns
      | S turns =>
          let on_to s r x := s' ← leave s r x; _ ← save s'; visit turns s' in
          if begun r then
            o ← outcome r;
            match o with None => Done None | Some x => on_to s r x end
          else
            attempt_ (try_begin r) (fun x =>
              match x with
              | inl (Some i) =>
                  let r' := begun_at r i in
                  let s' := mkState (Some r') (dueAt s) (finishedAt s) in
                  attempt_ (save s') (fun y => match y with inl _ => visit turns s' | inr _ => on_to s' r' ResultFailed end)
              | inl None => on_to s r ResultOff
              | inr _ => on_to s r ResultFailed
              end)
      end
  end.

Definition advance : io unit :=
  s ← load;
  ended ← visit (2 * length BACKUP_SEQUENCE) s;
  match ended with
  | Some s' =>
      if bool_decide (dueAt s' = None) then Done tt
      else _ ← save (mkState (run s') None (finishedAt s')); ask QueueSequence
  | None => Done tt
  end.

Definition new_run (t : Z) : BackupSequenceRun := mkRun t LocalCopy false None [].

(** The schedule's tick; whether it started a run ([JobStatus.Success], else [Skipped]). *)
Definition handleStart : io bool :=
  s ← load;
  match run s with
  | Some r => Now (fun t => _ ← save (mkState (run s) (Some t) (finishedAt s)); Done false)
  | None => Now (fun t => _ ← save (mkState (Some (new_run t)) None (finishedAt s)); _ ← advance; Done true)
  end.

(** The watch's turn. *)
Definition move : io unit := advance.
