(* ===== verification/BackupTurns.v ===== *)
(** * The backup sequence: its histories, and that the places go in turn

    [runs] gives the runs of a handler over the stored state, with crashes, and writes whose answer is
    lost; [serves] the histories of a server.  [wp] carries an invariant of the stored state through
    them: every place a run has left behind was seen over, off, or failed, since it was last started. *)

From S2P Require Import Prelude JsNumber JsString BackupSequence.
Local Open Scope nat_scope.

(** ** Histories *)

Inductive Event :=
| Asked {B : Type} (q : AskS B) (x : B + string).
Inductive Outcome (A : Type) := Ended (y : A + SequenceError) | Crashed.
Arguments Ended {A} y.
Arguments Crashed {A}.

(** The stored row; a write that throws may still have been made. *)
Abbreviation stored := (option BackupSequenceState).
Definition effect {B} (q : AskS B) : B + string -> stored -> stored -> Prop :=
  match q in AskS B return B + string -> stored -> stored -> Prop with
  | LoadState => fun x w w1 => w1 = w /\ match x with inl s => s = w | inr _ => True end
  | SaveState s => fun x w w1 => match x with inl _ => w1 = Some s | inr _ => w1 = w \/ w1 = Some s end
  | _ => fun _ w w1 => w1 = w
  end.

Fixpoint runs {A} (m : io A) (w : stored) (tr : list Event) (y : Outcome A) (w' : stored) : Prop :=
  match m with
  | Done a => tr = [] /\ y = Ended (inl a) /\ w' = w
  | Raise e => tr = [] /\ y = Ended (inr e) /\ w' = w
  | Ask q k => (tr = [] /\ y = Crashed /\ w' = w) \/
      exists x w1 tr', tr = Asked q x :: tr' /\ effect q x w w1 /\ runs (k x) w1 tr' y w'
  | Now k => exists t, runs (k t) w tr y w'
  end.

(** The handlers of a server take turns; each ends or is cut off. *)
Inductive serves (w : stored) : list Event -> stored -> Prop :=
| serves_none : serves w [] w
| serves_tick tr y w1 tr' w2 : serves w tr w1 -> runs handleStart w1 tr' y w2 -> serves w (tr ++ tr') w2
| serves_watch tr y w1 tr' w2 : serves w tr w1 -> runs move w1 tr' y w2 -> serves w (tr ++ tr') w2.

(** ** What a history shows of a place *)

Definition lookup_job (jobs : list QueueJob) : option string :=
  job_id <$> List.find (fun j => String.eqb (job_name j) "DatabaseBackup") jobs.

(** The copy's job, as it was listed after the copy was last started. *)
Definition watched (h : list Event) (i : string) : Prop :=
  exists a l jobs b, h = a ++ Asked (SearchJobs l) (inl jobs) :: b /\ lookup_job jobs = Some i /\
    forall x, ~ Asked (StartBackup LocalCopy) x ∈ b.

(** What a listing of every job says of the job [i]: it holds the run while it is being made or waits for its
    retry; it failed, or sits in a paused queue, and is recorded as not finished; it is complete, or the
    queue no longer lists it. *)
Inductive job_seen (jobs : list QueueJob) (i : string) : option PlaceResult -> Prop :=
| SeenMaking pre j post : jobs = pre ++ j :: post -> (forall x, x ∈ pre -> job_id x <> i) -> job_id j = i ->
    job_status j ∈ [Active; Waiting; Delayed] -> job_seen jobs i None
| SeenNotFinished pre j post : jobs = pre ++ j :: post -> (forall x, x ∈ pre -> job_id x <> i) -> job_id j = i ->
    job_status j ∈ [FailedJob; Paused] -> job_seen jobs i (Some ResultFailed)
| SeenComplete pre j post : jobs = pre ++ j :: post -> (forall x, x ∈ pre -> job_id x <> i) -> job_id j = i ->
    job_status j = Complete -> job_seen jobs i (Some ResultDone)
| SeenGone : (forall x, x ∈ jobs -> job_id x <> i) -> job_seen jobs i (Some ResultDone).
Definition every_job (e : Event) (jobs : list QueueJob) : Prop :=
  exists l, e = Asked (SearchJobs l) (inl jobs) /\ forall st, st ∈ l.

Lemma job_outcome_seen jobs i : job_seen jobs i (job_outcome jobs i).
Proof.
  unfold job_outcome. destruct (List.find _ jobs) as [j|] eqn:E; cbn.
  - apply find_split in E as (pre & post & -> & Hj%String.eqb_eq & Hp).
    assert (forall x, x ∈ pre -> job_id x <> i) as Hpre by (intros x Hx; by apply String.eqb_neq, Hp).
    destruct (job_status j) eqn:Es.
    all: first [by eapply SeenComplete|eapply SeenMaking; [done..|rewrite Es; set_solver]|eapply SeenNotFinished; [done..|rewrite Es; set_solver]].
  - apply SeenGone. intros x Hx. by apply String.eqb_neq, (find_none_in _ _ E).
Qed.

(** A question about [p]: whether it is on, starting it, its snapshot job, recording its start. *)
Definition about {B} (p : BackupSequencePlace) (q : AskS B) : Prop :=
  match q with
  | CopyEnabled | SearchJobs _ => p = LocalCopy
  | Status p' | StartBackup p' => p' = p
  | SaveState s => exists r, run s = Some r /\ begun r = true /\ place r = p
  | LoadState | QueueSequence => False
  end.

(** The event after which [p] is left behind with [x]. *)
Definition shows (h : list Event) (p : BackupSequencePlace) (x : PlaceResult) (e : Event) : Prop :=
  match x with
  | ResultOff =>
      (p = LocalCopy /\ e = Asked CopyEnabled (inl false)) \/
      exists st, e = Asked (Status p) (inl st) /\ on st = false
  | ResultDone =>
      match p with
      | LocalCopy =>
          (exists jobs i, every_job e jobs /\ watched h i /\ job_seen jobs i (Some ResultDone)) \/
          (exists l jobs, e = Asked (SearchJobs l) (inl jobs) /\ default ""%string (lookup_job jobs) = ""%string)
      | _ => exists st, e = Asked (Status p) (inl st) /\ busy st = false
      end
  | ResultFailed =>
      (exists B (q : AskS B) err, e = Asked q (inr err) /\ about p q) \/
      (p = LocalCopy /\ exists jobs i, every_job e jobs /\ watched h i /\ job_seen jobs i (Some ResultFailed))
  end.

(** A run begins. *)
Definition fresh (e : Event) : Prop := exists s t x, e = Asked (SaveState s) x /\ run s = Some (new_run t).
Definition restarts (p : BackupSequencePlace) (e : Event) : Prop := fresh e \/ exists x, e = Asked (StartBackup p) x.

(** [p] was left behind with [x], in the run that goes on, and was not started since. *)
Definition settled (h : list Event) (p : BackupSequencePlace) (x : PlaceResult) : Prop :=
  exists a e b, h = a ++ e :: b /\ shows a p x e /\ forall e', e' ∈ b -> ~ restarts p e'.

(** How far a run is. *)
Definition pos (r : BackupSequenceRun) : nat := 2 * place_index (place r) + (if begun r then 1 else 0).
(** No place past [n] was recorded as begun in the run that goes on. *)
Definition ahead (h : list Event) (n : nat) : Prop :=
  forall a s r b, h = a ++ Asked (SaveState s) (inl tt) :: b -> run s = Some r -> begun r = true -> n < pos r ->
    exists e, e ∈ b /\ fresh e.

Record run_ok (h : list Event) (r : BackupSequenceRun) : Prop := mkRunOk {
  ok_left : map fst (results r) = take (place_index (place r)) BACKUP_SEQUENCE;
  ok_settled : forall p x, (p, x) ∈ results r -> settled h p x;
  ok_job : place r = LocalCopy ->
    if begun r then match default ""%string (jobId r) with
                    | ""%string => exists a l jobs b, h = a ++ Asked (SearchJobs l) (inl jobs) :: b /\
                        default ""%string (lookup_job jobs) = ""%string /\ forall e, e ∈ b -> ~ restarts LocalCopy e
                    | i => watched h i
                    end
    else jobId r = None;
  ok_ahead : ahead h (pos r)
}.
Definition state_ok (h : list Event) (s : BackupSequenceState) : Prop := forall r, run s = Some r -> run_ok h r.
Definition stored_ok (h : list Event) (w : stored) : Prop := forall s, w = Some s -> state_ok h s.

(** What may be asked: a place is started when those before it are settled and it was not begun. *)
Definition in_turn (h : list Event) (q : BackupSequencePlace) : Prop :=
  (forall p, place_index p < place_index q -> exists x, settled h p x) /\
  (forall a s r b, h = a ++ Asked (SaveState s) (inl tt) :: b -> run s = Some r -> begun r = true -> place r = q ->
     exists e, e ∈ b /\ fresh e).
Definition legal (h : list Event) {B} (q : AskS B) : Prop := match q with StartBackup p => in_turn h p | _ => True end.
Definition allowed (h : list Event) (e : Event) : Prop := match e with Asked q _ => legal h q end.

Fixpoint wp {A} (m : io A) (w : stored) (h : list Event) (Q : A + SequenceError -> stored -> list Event -> Prop) : Prop :=
  match m with
  | Done a => Q (inl a) w h
  | Raise e => Q (inr e) w h
  | Ask q k => stored_ok h w /\ legal h q /\ forall x w1, effect q x w w1 -> wp (k x) w1 (h ++ [Asked q x]) Q
  | Now k => forall t, wp (k t) w h Q
  end.

Lemma seq_wp_mono {A} (m : io A) w h Q Q' : (forall y w h, Q y w h -> Q' y w h) -> wp m w h Q -> wp m w h Q'.
Proof.
  intros HQ. revert w h. induction m as [a|e|B q k IH|k IH]; intros w h; cbn; [apply HQ|apply HQ| |].
  - intros (Hs & Hl & Hw). split; [done|]. split; [done|]. intros x w1 He. apply IH, (Hw x w1 He).
  - intros Hw t. apply IH, Hw.
Qed.
Lemma seq_wp_attempt {A B} (m : io A) (f : A + SequenceError -> io B) w h Q :
  wp m w h (fun y w h => wp (f y) w h Q) -> wp (attempt_ m f) w h Q.
Proof.
  revert w h. induction m as [a|e|C q k IH|k IH]; intros w h; cbn; [done|done| |].
  - intros (Hs & Hl & Hw). split; [done|]. split; [done|]. intros x w1 He. apply IH, (Hw x w1 He).
  - intros Hw t. apply IH, Hw.
Qed.
Lemma seq_wp_bind {A B} (m : io A) (f : A -> io B) w h Q :
  wp m w h (fun y w h => match y with inl a => wp (f a) w h Q | inr e => Q (inr e) w h end) -> wp (m ≫= f) w h Q.
Proof. intros H. apply seq_wp_attempt. eapply seq_wp_mono; [|exact H]. by intros [a|e]. Qed.
Lemma seq_wp_ask {B} (q : AskS B) w h Q : stored_ok h w -> legal h q ->
  (forall a w1, effect q (inl a) w w1 -> Q (inl a) w1 (h ++ [Asked q (inl a)])) ->
  (forall e w1, effect q (inr e) w w1 -> Q (inr (Thrown e)) w1 (h ++ [Asked q (inr e)])) -> wp (ask q) w h Q.
Proof. intros Hs Hl Ha He. split; [done|]. split; [done|]. intros [a|e] w1 H; [by apply Ha|by apply He]. Qed.

(** Every run keeps the invariant wherever it stops, and asks only what it may. *)
Lemma seq_wp_runs {A} (m : io A) w h Q tr y w' : wp m w h Q -> (forall y w h, Q y w h -> stored_ok h w) -> runs m w tr y w' ->
  stored_ok (h ++ tr) w' /\ (forall z, y = Ended z -> Q z w' (h ++ tr)) /\
  forall tr1 e tr2, tr = tr1 ++ e :: tr2 -> allowed (h ++ tr1) e.
Proof.
  intros Hw HQ. revert w h tr Hw. induction m as [a|e|B q k IH|k IH]; intros w h tr Hw Hr; cbn in Hw, Hr.
  - destruct Hr as (-> & -> & ->). rewrite app_nil_r. split; [by eapply HQ|]. split; [by intros z [= <-]|]. by intros [|].
  - destruct Hr as (-> & -> & ->). rewrite app_nil_r. split; [by eapply HQ|]. split; [by intros z [= <-]|]. by intros [|].
  - destruct Hw as (Hs & Hl & Hw). destruct Hr as [(-> & -> & ->)|(x & w1 & tr' & -> & He & Hr)].
    { rewrite app_nil_r. split; [done|]. split; [done|]. by intros [|]. }
    destruct (IH x w1 _ tr' (Hw x w1 He) Hr) as (H1 & H2 & H3). rewrite <- app_assoc in H1, H2. split; [done|]. split; [done|].
    intros [|ev tr1] e tr2 E; cbn in E; apply (inj2 cons) in E as [<- E]; [by rewrite app_nil_r|].
    specialize (H3 tr1 e tr2 E). by rewrite <- app_assoc in H3.
  - destruct Hr as [t Hr]. exact (IH t w h tr (Hw t) Hr).
Qed.

(** ** Histories that grow *)

Lemma snoc_split {A} (h : list A) e a x b : h ++ [e] = a ++ x :: b ->
  (a = h /\ x = e /\ b = []) \/ exists b', b = b' ++ [e] /\ h = a ++ x :: b'.
Proof.
  intros H. destruct b as [|y b _] using rev_ind.
  - apply app_inj_tail in H as [-> ->]. by left.
  - right. exists b. split; [|].
    + change (x :: b ++ [y]) with ((x :: b) ++ [y]) in H. rewrite app_assoc in H. by apply app_inj_tail in H as [_ ->].
    + change (x :: b ++ [y]) with ((x :: b) ++ [y]) in H. rewrite app_assoc in H. by apply app_inj_tail in H as [-> _].
Qed.

Lemma settled_snoc h p x e : settled h p x -> ~ restarts p e -> settled (h ++ [e]) p x.
Proof.
  intros (a & ev & b & -> & Hs & Hb) He. exists a, ev, (b ++ [e]). rewrite <- app_assoc. split; [done|]. split; [done|].
  intros e' [Hin| ->%list_elem_of_singleton]%elem_of_app; [by apply Hb|done].
Qed.
Lemma watched_snoc h i e : watched h i -> (forall x, e <> Asked (StartBackup LocalCopy) x) -> watched (h ++ [e]) i.
Proof.
  intros (a & l & jobs & b & -> & Hl & Hb) He. exists a, l, jobs, (b ++ [e]). rewrite <- app_assoc. split; [done|]. split; [done|].
  intros x [Hin|Hin%list_elem_of_singleton]%elem_of_app; [by apply (Hb x)|by apply (He x)].
Qed.
Lemma settled_now h p x e : shows h p x e -> settled (h ++ [e]) p x.
Proof. intros Hs. exists h, e, []. split; [done|]. split; [done|]. by intros e' Hin%elem_of_nil. Qed.
Lemma ahead_snoc h n e : ahead h n ->
  (forall s r, e = Asked (SaveState s) (inl tt) -> run s = Some r -> begun r = true -> pos r <= n) -> ahead (h ++ [e]) n.
Proof.
  intros Ha He a s r b E Hr Hb Hn. apply snoc_split in E as [(-> & Ee & ->)|(b' & -> & ->)].
  - specialize (He s r (eq_sym Ee) Hr Hb). lia.
  - destruct (Ha a s r b' eq_refl Hr Hb Hn) as (ev & Hin & Hf). exists ev. split; [apply elem_of_app; by left|done].
Qed.
Lemma ahead_mono h n m : n <= m -> ahead h n -> ahead h m.
Proof. intros Hnm Ha a s r b E Hr Hb Hm. apply (Ha a s r b E Hr Hb). lia. Qed.

Definition run_of (w : stored) : option BackupSequenceRun := w ≫= run.

(** An event that leaves what is known of a run's places as it is. *)
Definition quiet (r : BackupSequenceRun) (e : Event) : Prop :=
  ~ fresh e /\
  (forall q x, e = Asked (StartBackup q) x -> place_index (place r) <= place_index q /\ (begun r = true -> place r <> q)) /\
  (forall s r', e = Asked (SaveState s) (inl tt) -> run s = Some r' -> begun r' = true -> pos r' <= pos r).

Lemma before_place p q : p ∈ take (place_index q) BACKUP_SEQUENCE <-> place_index p < place_index q.
Proof. destruct q, p; cbn; set_solver by lia. Qed.
Lemma result_before h r p x : run_ok h r -> (p, x) ∈ results r -> place_index p < place_index (place r).
Proof. intros Hr Hin. apply before_place. rewrite <- (ok_left _ _ Hr). apply list_elem_of_fmap. by exists (p, x). Qed.

Lemma run_ok_snoc h r e : run_ok h r -> quiet r e -> run_ok (h ++ [e]) r.
Proof.
  intros Hr (Hf & Hs & Ha). split; [apply (ok_left _ _ Hr)| | |].
  - intros p x Hin. apply settled_snoc; [by apply (ok_settled _ _ Hr)|]. intros [?|[y ->]]; [done|].
    destruct (Hs _ _ eq_refl) as [Hle _]. pose proof (result_before _ _ _ _ Hr Hin). lia.
  - intros Hp. pose proof (ok_job _ _ Hr Hp) as Hj. destruct (begun r) eqn:Eb; [|done].
    assert (forall x, e <> Asked (StartBackup LocalCopy) x) as Hn by (intros x ->; by destruct (Hs _ _ eq_refl) as [_ []]).
    destruct (default "" (jobId r)) as [|c i]; [|by apply watched_snoc].
    destruct Hj as (a & l & jobs & b & -> & Hl & Hb). exists a, l, jobs, (b ++ [e]). rewrite <- app_assoc. split; [done|]. split; [done|].
    intros e' [Hin| ->%list_elem_of_singleton]%elem_of_app; [by apply Hb|]. intros [?|[x Hx]]; [done|by apply (Hn x)].
  - apply ahead_snoc; [apply (ok_ahead _ _ Hr)|exact Ha].
Qed.

(** What holds while [s] is in hand: the stored run is not past it. *)
Record holds (h : list Event) (w : stored) (s : BackupSequenceState) : Prop := mkHolds {
  in_store : stored_ok h w;
  in_hand : state_ok h s;
  behind : forall rw rs, run_of w = Some rw -> run s = Some rs -> pos rw <= pos rs
}.

Lemma stored_run h w r : stored_ok h w -> run_of w = Some r -> run_ok h r.
Proof. destruct w as [s|]; [|done]. intros H E. by apply (H s). Qed.
Lemma stored_ok_intro h w : (forall r, run_of w = Some r -> run_ok h r) -> stored_ok h w.
Proof. intros H s -> r E. apply H. by cbn. Qed.

Lemma holds_snoc h w s e : holds h w s -> (forall r, run_of w = Some r -> quiet r e) -> (forall r, run s = Some r -> quiet r e) ->
  holds (h ++ [e]) w s.
Proof.
  intros [Hw Hs Hb] Qw Qs. split; [|intros r E; apply run_ok_snoc; [by apply Hs|by apply Qs]|done].
  apply stored_ok_intro. intros r E. apply run_ok_snoc; [by eapply stored_run|by apply Qw].
Qed.

Definition plain (e : Event) : Prop :=
  match e with Asked q _ => match q with StartBackup _ | SaveState _ => False | _ => True end end.
Lemma plain_quiet r e : plain e -> quiet r e.
Proof.
  intros Hp. split; [|split].
  - by intros (s & t & y & -> & _).
  - by intros p y ->.
  - by intros s r' ->.
Qed.
Lemma holds_plain h w s e : holds h w s -> plain e -> holds (h ++ [e]) w s.
Proof. intros H Hp. apply holds_snoc; [done| |]; intros r _; by apply plain_quiet. Qed.

(** Asking something that changes nothing here. *)
Lemma wp_plain {B} (q : AskS B) w h s Q : holds h w s ->
  match q with LoadState | StartBackup _ | SaveState _ => False | _ => True end ->
  (forall a, holds (h ++ [Asked q (inl a)]) w s -> Q (inl a) w (h ++ [Asked q (inl a)])) ->
  (forall e, holds (h ++ [Asked q (inr e)]) w s -> Q (inr (Thrown e)) w (h ++ [Asked q (inr e)])) -> wp (ask q) w h Q.
Proof.
  intros H Hq Ha He. assert (forall x, plain (Asked q x)) as Hp by (intros x; by destruct q).
  assert (forall x w1, effect q x w w1 -> w1 = w) as Hw by (intros x w1 Hw; destruct q; first [exact Hw|destruct Hq]).
  apply seq_wp_ask; [apply H|by destruct q| |]; intros z w1 ->%Hw; [apply Ha|apply He]; by apply holds_plain.
Qed.

(** ** The steps of a run *)

Lemma left_pos r x r' : left r x = Some r' -> pos r < pos r' /\ begun r' = false /\ place_index (place r') = S (place_index (place r)).
Proof. unfold left, pos, nextBackupPlace. destruct (place r), (begun r); cbn; intros [= <-]; cbn; repeat split; lia. Qed.

Lemma results_snoc (r : BackupSequenceRun) h x : run_ok h r -> assoc_set (place r) x (results r) = results r ++ [(place r, x)].
Proof.
  intros Hr. assert (forall l, place r ∉ map fst l -> assoc_set (place r) x l = l ++ [(place r, x)]) as H.
  { induction l as [|[p y] l IH]; intros Hn; [done|]. cbn in Hn. apply not_elem_of_cons in Hn as [Hne Hn]. cbn.
    rewrite decide_False by congruence. by rewrite IH. }
  apply H. rewrite (ok_left _ _ Hr), before_place. lia.
Qed.

(** Leaving a place that is settled. *)
Lemma left_ok h r x r' : run_ok h r -> settled h (place r) x -> left r x = Some r' -> run_ok h r'.
Proof.
  intros Hr Hx E. pose proof (left_pos _ _ _ E) as (Hp & Hb & Hi). unfold left in E.
  destruct (nextBackupPlace (place r)) as [p|] eqn:En; [|done]. cbn in E. injection E as <-. cbn in *.
  split; cbn.
  - rewrite (results_snoc _ _ _ Hr), map_app, (ok_left _ _ Hr), Hi. by destruct (place r).
  - intros q y. rewrite (results_snoc _ _ _ Hr). intros [Hin|[= -> ->]%list_elem_of_singleton]%elem_of_app; [|done].
    by apply (ok_settled _ _ Hr).
  - intros ->. cbn in Hi. lia.
  - eapply ahead_mono; [|apply (ok_ahead _ _ Hr)]. unfold pos. lia.
Qed.

Lemma run_in_hand h w s r : holds h w s -> run s = Some r -> run_ok h r.
Proof. intros H. apply (in_hand _ _ _ H). Qed.

Lemma holds_to h w s s' : holds h w s -> state_ok h s' ->
  (forall r r', run s = Some r -> run s' = Some r' -> pos r <= pos r') -> is_Some (run s) -> holds h w s'.
Proof.
  intros [Hw Hs Hb] Hs' Hp [r Er]. split; [done|done|]. intros rw rs Ew Es. specialize (Hb _ _ Ew Er). specialize (Hp _ _ Er Es). lia.
Qed.

(** A write of the state in hand, made or not. *)
Lemma wp_save h w s s' (Q : unit + SequenceError -> stored -> list Event -> Prop) :
  holds h w s' -> (forall t, run s' <> Some (new_run t)) ->
  (forall h' w', holds h' w' s' -> Q (inl tt) w' h') ->
  (forall e h' w', holds h' w' s' -> h' = h ++ [Asked (SaveState s') (inr e)] -> Q (inr (Thrown e)) w' h') ->
  s = s' -> wp (save s) w h Q.
Proof.
  intros H Hf Ha He ->. assert (forall x, ~ fresh (Asked (SaveState s') x)) as Hnf.
  { intros x (s0 & t & y & E & Er). inversion E. subst. by apply (Hf t). }
  assert (forall r x, run s' = Some r -> quiet r (Asked (SaveState s') x)) as Hq.
  { intros r x Er. split; [apply Hnf|]. split; [by intros|]. intros s0 r' E Er' _. inversion E. subst. by simplify_eq. }
  assert (forall r e, quiet r (Asked (SaveState s') (inr e))) as Hqe by (intros r e; split; [apply Hnf|by split; intros]).
  assert (forall x, state_ok (h ++ [Asked (SaveState s') x]) s') as Hs'.
  { intros x r Er. apply run_ok_snoc; [by eapply run_in_hand|by apply Hq]. }
  assert (forall x, holds (h ++ [Asked (SaveState s') x]) (Some s') s') as Hmade.
  { intros x. split; [by intros ? [= <-]|apply Hs'|]. cbn. intros rw rs E1 E2. by simplify_eq. }
  apply seq_wp_ask; [apply H|done| |].
  - intros [] w1 Hw. cbn in Hw. subst w1. apply Ha, Hmade.
  - intros e w1 [->| ->]; (apply He; [|done]); [|apply Hmade]. apply holds_snoc; [done| |]; intros r _; apply Hqe.
Qed.

Lemma left_fresh r x t : left r x <> Some (new_run t).
Proof. intros H. apply left_pos in H as (_ & _ & Hi). cbn in Hi. lia. Qed.

(** Going on to the next place, once this one is settled. *)
Lemma wp_on_to h w s r x (k : BackupSequenceState -> io (option BackupSequenceState)) Q :
  holds h w s -> run s = Some r -> settled h (place r) x ->
  (forall h' w' s', holds h' w' s' -> wp (k s') w' h' Q) ->
  (forall e h' w', stored_ok h' w' -> Q (inr e) w' h') ->
  wp (s' ← leave s r x; _ ← save s'; k s') w h Q.
Proof.
  intros H Er Hx Hk He. pose proof (run_in_hand _ _ _ _ H Er) as Hr. apply seq_wp_bind. unfold leave.
  assert (forall t, holds h w (mkState (left r x) (dueAt s) t)) as Hs'.
  { intros t. eapply holds_to; [exact H| | |by eexists].
    - intros r' E. cbn in E. by eapply left_ok.
    - intros r0 r' E0 E. cbn in E. assert (r0 = r) as -> by congruence. apply left_pos in E as [Hp _]. lia. }
  assert (forall t, wp (_ ← save (mkState (left r x) (dueAt s) t); k (mkState (left r x) (dueAt s) t)) w h Q) as Hsave.
  { intros t. apply seq_wp_bind. eapply wp_save; [apply (Hs' t)|by apply left_fresh|by intros; apply Hk| |done].
    intros e h' w' H' _. apply He, H'. }
  destruct (left r x) as [r'|] eqn:El; cbn; [apply Hsave|intros t; apply Hsave].
Qed.

(** What [isOn] answers. *)
Lemma wp_isOn h w s p Q : holds h w s ->
  (forall b h', holds h' w s -> (b = false -> settled h' p ResultOff) -> Q (inl b) w h') ->
  (forall e h', holds h' w s -> settled h' p ResultFailed -> Q (inr e) w h') -> wp (isOn p) w h Q.
Proof.
  intros H Hb He.
  assert (forall B (q : AskS B) e h0, about p q -> settled (h0 ++ [Asked q (inr e)]) p ResultFailed) as Hfail.
  { intros B q e h0 Hq. apply settled_now. left. by exists B, q, e. }
  destruct p; cbn [isOn]; [|apply seq_wp_bind|apply seq_wp_bind]; (eapply wp_plain; [exact H|done| |]);
    try (intros e He'; apply He; [done|by apply Hfail]).
  - intros b H'. apply Hb; [done|]. intros ->. apply settled_now. left. done.
  - intros st H'. apply Hb; [done|]. intros E. apply settled_now. right. by eexists.
  - intros st H'. apply Hb; [done|]. intros E. apply settled_now. right. by eexists.
Qed.

Lemma start_quiet r p x : place_index (place r) <= place_index p -> (begun r = true -> place r <> p) -> quiet r (Asked (StartBackup p) x).
Proof.
  intros H1 H2. split; [by intros (s & t & y & E & _)|]. split; [|by intros s r' E].
  intros q y E. assert (p = q) as <-; [|done].
  apply (f_equal (fun e => match e with Asked q0 _ => match q0 with StartBackup p0 => Some p0 | _ => None end end)) in E. by injection E.
Qed.

Lemma may_start h r : run_ok h r -> begun r = false -> in_turn h (place r).
Proof.
  intros Hr Hb. split.
  - intros p Hp%before_place. rewrite <- (ok_left _ _ Hr) in Hp. apply list_elem_of_fmap in Hp as ((q & x) & -> & Hin).
    exists x. by apply (ok_settled _ _ Hr).
  - intros a s r' b E Es Hb' Hp. apply (ok_ahead _ _ Hr a s r' b E Es Hb'). unfold pos. rewrite Hb, Hb', Hp. lia.
Qed.

Lemma begun_ok h r i : run_ok h r -> begun r = false ->
  (place r = LocalCopy -> exists a l jobs, h = a ++ [Asked (SearchJobs l) (inl jobs)] /\ lookup_job jobs = i) ->
  run_ok h (begun_at r i).
Proof.
  intros Hr Hb Hi. split; [apply (ok_left _ _ Hr)|apply (ok_settled _ _ Hr)| |].
  - intros Hp. pose proof (ok_job _ _ Hr Hp) as Hj. rewrite Hb in Hj. destruct (Hi Hp) as (a & l & jobs & -> & Hl).
    cbn. rewrite Hj. destruct i as [[|c i]|]; cbn;
      [|exists a, l, jobs, []; split; [done|]; split; [done|]; by intros x Hx%elem_of_nil|];
      exists a, l, jobs, []; rewrite Hl; (split; [done|]); (split; [done|]); by intros e Hx%elem_of_nil.
  - eapply ahead_mono; [|apply (ok_ahead _ _ Hr)]. unfold pos. rewrite Hb. cbn. lia.
Qed.

Lemma wp_try_begin h w s r Q : holds h w s -> run s = Some r -> begun r = false ->
  (forall i h', holds h' w s -> run_ok h' (begun_at r i) -> Q (inl (Some i)) w h') ->
  (forall h', holds h' w s -> settled h' (place r) ResultOff -> Q (inl None) w h') ->
  (forall e h', holds h' w s -> settled h' (place r) ResultFailed -> Q (inr e) w h') -> wp (try_begin r) w h Q.
Proof.
  intros H Er Hb Hsome Hnone He. unfold try_begin. apply seq_wp_bind. eapply wp_isOn; [exact H| |done].
  intros [] h1 H1 Hoff; [|by apply Hnone, Hoff].
  assert (forall x, holds (h1 ++ [Asked (StartBackup (place r)) x]) w s) as H2.
  { intros x. apply holds_snoc; [done| |]; intros r0 E0; apply start_quiet.
    - pose proof (behind _ _ _ H1 _ _ E0 Er) as Hp. unfold pos in Hp. rewrite Hb in Hp. destruct (begun r0); lia.
    - intros E Hpl. pose proof (behind _ _ _ H1 _ _ E0 Er) as Hp. unfold pos in Hp. rewrite Hb, E, Hpl in Hp. lia.
    - simplify_eq. lia.
    - simplify_eq. congruence. }
  apply seq_wp_bind. apply seq_wp_ask; [apply H1|eapply may_start; [by eapply run_in_hand|done]| |]; intros z w1 ->.
  2: { apply He; [done|]. apply settled_now. left. by eexists _, _, _. }
  assert (forall i h', holds h' w s -> (place r = LocalCopy -> exists a l jobs, h' = a ++ [Asked (SearchJobs l) (inl jobs)] /\ lookup_job jobs = i) ->
    Q (inl (Some i)) w h') as Hi.
  { intros i h' H' Hl. apply Hsome; [done|]. apply begun_ok; [by eapply run_in_hand|done|done]. }
  apply seq_wp_bind. destruct (place r) eqn:Ep; [|by apply Hi|by apply Hi].
  apply seq_wp_bind. eapply wp_plain; [apply H2|done| |].
  - intros jobs H3. cbn. apply Hi; [done|]. intros _. by eexists _, _, _.
  - intros e H3. apply He; [done|]. apply settled_now. left. by eexists _, _, _.
Qed.

Lemma wp_outcome h w s r Q : holds h w s -> run s = Some r -> begun r = true ->
  (forall o h', holds h' w s -> (forall x, o = Some x -> settled h' (place r) x) -> Q (inl o) w h') ->
  (forall e h', holds h' w s -> Q (inr e) w h') -> wp (outcome r) w h Q.
Proof.
  intros H Er Hb Ho He. pose proof (run_in_hand _ _ _ _ H Er) as Hr. unfold outcome, placeOutcome, snapshotOutcome.
  destruct (place r) eqn:Ep.
  - pose proof (ok_job _ _ Hr Ep) as Hj. rewrite Hb in Hj.
    assert (default ""%string (jobId r) = ""%string -> Q (inl (Some ResultDone)) w h) as Hnone.
    { intros E. rewrite E in Hj. destruct Hj as (a & l & jobs & b & -> & Hl & Hq). apply Ho; [done|]. intros x [= <-].
      exists a, (Asked (SearchJobs l) (inl jobs)), b. split; [done|]. split; [|done]. right. by exists l, jobs. }
    destruct (jobId r) as [[|c i]|]; [by apply Hnone| |by apply Hnone]. cbn in Hj.
    apply seq_wp_bind. eapply wp_plain; [exact H|done| |by intros; apply He].
    intros jobs H'. apply Ho; [done|]. intros x Hx. apply settled_now. unfold shows.
    pose proof (job_outcome_seen jobs (String c i)) as Hseen. rewrite Hx in Hseen.
    destruct x; [left|by inversion Hseen|right; split; [done|]];
      (exists jobs, (String c i); split; [eexists; split; [done|]; intros []; set_solver|done]).
  - apply seq_wp_bind. eapply wp_plain; [exact H|done| |by intros; apply He]. intros st H'. cbn. apply Ho; [done|].
    intros x Hx. destruct (busy st) eqn:E; [done|]. injection Hx as <-. apply settled_now. by exists st.
  - apply seq_wp_bind. eapply wp_plain; [exact H|done| |by intros; apply He]. intros st H'. cbn. apply Ho; [done|].
    intros x Hx. destruct (busy st) eqn:E; [done|]. injection Hx as <-. apply settled_now. by exists st.
Qed.

Lemma wp_visit turns h w s : holds h w s ->
  wp (visit turns s) w h (fun y w h => stored_ok h w /\ forall s', y = inl (Some s') -> run s' = None).
Proof.
  revert h w s. induction turns as [|turns IH]; intros h w s H; cbn [visit];
    (destruct (run s) as [r|] eqn:Er; [|split; [apply H|by intros s' [= <-]]]); [by split; [apply H|]|].
  destruct (begun r) eqn:Eb.
  - apply seq_wp_bind. eapply wp_outcome; [done|done|done| |].
    + intros [x|] h' H' Hx; [|by split; [apply H'|]]. eapply wp_on_to; [done|done|by apply Hx|apply IH|]. by intros.
    + intros e h' H'. by split; [apply H'|].
  - apply seq_wp_attempt. eapply wp_try_begin; [done|done|done| | |].
    + intros i h' H' Hi. apply seq_wp_attempt. set (s1 := mkState _ _ _).
      assert (holds h' w s1) as H1.
      { eapply holds_to; [exact H'| | |by eexists].
        - intros r0 E. cbn in E. by injection E as <-.
        - intros r0 r1 E0 E1. cbn in E1. injection E1 as <-. assert (r0 = r) as -> by congruence. unfold pos. rewrite Eb. cbn. lia. }
      eapply wp_save; [exact H1|by intros t [=]| | |done].
      * intros h2 w2 H2. by apply IH.
      * intros e h2 w2 H2 ->. eapply wp_on_to; [done|done| |apply IH|by intros].
        apply settled_now. left. eexists _, _, _. split; [done|]. by exists (begun_at r i).
    + intros h' H' Hx. eapply wp_on_to; [done|done|done|apply IH|]. by intros.
    + intros e h' H' Hx. eapply wp_on_to; [done|done|done|apply IH|]. by intros.
Qed.

(** ** The handlers *)

Lemma fresh_run_ok h s t x : run s = Some (new_run t) -> run_ok (h ++ [Asked (SaveState s) x]) (new_run t).
Proof.
  intros Es. split; [done|by intros p y Hin%elem_of_nil|done|].
  intros a s' r b E Er Hb Hp. apply snoc_split in E as [(-> & E & ->)|(b' & -> & ->)].
  - inversion E. subst. simplify_eq.
  - eexists. split; [apply elem_of_app; right; by apply list_elem_of_singleton|]. by eexists s, t, x.
Qed.

Lemma wp_load w h Q : stored_ok h w ->
  (forall h', holds h' w (default (mkState None None None) w) -> Q (inl (default (mkState None None None) w)) w h') ->
  (forall e h', stored_ok h' w -> Q (inr e) w h') -> wp load w h Q.
Proof.
  intros Hw Hs He. assert (holds h w (default (mkState None None None) w)) as H.
  { split; [done|by destruct w as [s|]; [apply Hw|intros r]|]. destruct w as [s|]; [|done]. cbn. intros. by simplify_eq. }
  unfold load. apply seq_wp_bind, seq_wp_ask; [done|done| |].
  - intros s w1 [-> ->]. apply Hs. by apply holds_plain.
  - intros e w1 [-> _]. apply He. by apply (holds_plain _ _ _ _ H).
Qed.

Lemma wp_advance w h : stored_ok h w -> wp advance w h (fun _ w h => stored_ok h w).
Proof.
  intros Hw. unfold advance. apply seq_wp_bind, wp_load; [done| |done]. intros h1 H1.
  apply seq_wp_bind. eapply seq_wp_mono; [|by apply wp_visit].
  intros [[s|]|e] w2 h2 [H2 Hn]; [|done|done]. specialize (Hn s eq_refl). case_bool_decide; [done|].
  apply seq_wp_bind. set (s' := mkState _ _ _).
  assert (holds h2 w2 s') as H3 by (split; [done|by intros r E; cbn in E; simplify_eq|intros rw rs _ E; cbn in E; simplify_eq]).
  eapply wp_save; [exact H3|cbn; by rewrite Hn| |by intros e h3 w3 []|done].
  intros h3 w3 H4. eapply wp_plain; [done|done| |]; by intros ? [].
Qed.

(** The tick's own write: a run begins, or the one that goes on is kept. *)
Lemma wp_tick_save w h s s' (Q : unit + SequenceError -> stored -> list Event -> Prop) : holds h w s ->
  (run s' = run s /\ run_of w = run s \/ exists t, run s' = Some (new_run t) /\ run_of w = None) ->
  (forall h' w', stored_ok h' w' -> Q (inl tt) w' h') -> (forall e h' w', stored_ok h' w' -> Q (inr e) w' h') ->
  wp (save s') w h Q.
Proof.
  intros H Hs' Ha He.
  assert ((forall t, run s' <> Some (new_run t)) \/ exists t, run s' = Some (new_run t)) as [Hn|[t Ht]].
  { destruct (run s') as [r|]; [|by left]. destruct (decide (r = new_run (startedAt r))) as [->|Hne]; [right; by eexists|].
    left. intros t [= ->]. by apply Hne. }
  - destruct Hs' as [[E Ew]|(t & E & _)]; [|by destruct (Hn t)].
    eapply (wp_save _ _ s'); [| exact Hn|by intros ? ? []; auto|by intros ? ? ? []; auto|done].
    destruct H as [H1 H2 H3]. split; [exact H1|intros r Er; rewrite E in Er; by apply H2|rewrite E; exact H3].
  - assert (forall x, stored_ok (h ++ [Asked (SaveState s') x]) (Some s')) as Hnew.
    { intros x. apply stored_ok_intro. intros r E. cbn in E. assert (r = new_run t) as -> by congruence. by apply fresh_run_ok. }
    assert (forall x, stored_ok (h ++ [Asked (SaveState s') x]) w) as Hold.
    { intros x. apply stored_ok_intro. intros r E. destruct Hs' as [[E1 E2]|(t' & E1 & E2)]; [|congruence].
      assert (r = new_run t) as -> by congruence. by apply fresh_run_ok. }
    apply seq_wp_ask; [apply H|done| |].
    + intros [] w1 ->. apply Ha, Hnew.
    + intros e w1 [->| ->]; apply He; [apply Hold|apply Hnew].
Qed.

Lemma wp_handleStart w h : stored_ok h w -> wp handleStart w h (fun _ w h => stored_ok h w).
Proof.
  intros Hw. unfold handleStart. apply seq_wp_bind, wp_load; [done| |done]. intros h1 H1.
  set (s := default _ w) in *. assert (run_of w = run s) as Es by by destruct w.
  destruct (run s) as [r|] eqn:Er; intros t; apply seq_wp_bind.
  - eapply wp_tick_save; [exact H1|left; rewrite Er; by rewrite <- Es| |]; by intros.
  - eapply wp_tick_save; [exact H1|right; exists t; split; [done|congruence]| |by intros].
    intros h2 w2 H2. apply seq_wp_bind. eapply seq_wp_mono; [|by apply wp_advance]. by intros [a|e].
Qed.

Definition all_allowed (h tr : list Event) : Prop := forall tr1 e tr2, tr = tr1 ++ e :: tr2 -> allowed (h ++ tr1) e.
Lemma all_allowed_app tr tr' : all_allowed [] tr -> all_allowed tr tr' -> all_allowed [] (tr ++ tr').
Proof.
  intros H1 H2 tr1 e tr2 E. apply app_eq_app in E as (l & [[-> E]|[-> E]]); [|by eapply H2].
  destruct l as [|e' l]; cbn in E.
  - specialize (H2 [] e tr2 (eq_sym E)). by rewrite !app_nil_r in H2.
  - injection E as -> ->. by eapply H1.
Qed.

Lemma serves_ok w tr w' : serves w tr w' -> run_of w = None -> stored_ok tr w' /\ all_allowed [] tr.
Proof.
  intros Hs H0. induction Hs as [|tr y w1 tr' w2 Hs [IH1 IH2] Hr|tr y w1 tr' w2 Hs [IH1 IH2] Hr].
  - split; [|by intros [|]]. apply stored_ok_intro. intros r E. congruence.
  - destruct (seq_wp_runs _ _ _ _ _ _ _ (wp_handleStart _ _ IH1) (fun _ _ _ H => H) Hr) as (? & _ & ?).
    split; [done|by apply all_allowed_app].
  - destruct (seq_wp_runs _ _ _ _ _ _ _ (wp_advance _ _ IH1) (fun _ _ _ H => H) Hr) as (? & _ & ?).
    split; [done|by apply all_allowed_app].
Qed.
