(* ===== verification/BackupPromises.v ===== *)
(** * The backup sequence: what its runs keep

    That the places go in turn, from [BackupTurns], and that a run comes to its end: a turn of the watch
    carries it past every place that is off, cannot start or is over, and at its end starts the run that
    fell due meanwhile. *)

From S2P Require Import Prelude JsNumber JsString BackupSequence BackupTurns.
Local Open Scope nat_scope.

(** ** Runs that end *)

Lemma seq_runs_attempt {A B} (m : io A) (f : A + SequenceError -> io B) w tr z w' : runs (attempt_ m f) w tr (Ended z) w' ->
  exists tr1 x w1 tr2, tr = tr1 ++ tr2 /\ runs m w tr1 (Ended x) w1 /\ runs (f x) w1 tr2 (Ended z) w'.
Proof.
  revert w tr. induction m as [a|e|C q k IH|k IH]; intros w tr H; cbn in H.
  - by exists [], (inl a), w, tr.
  - by exists [], (inr e), w, tr.
  - destruct H as [(_ & [=] & _)|(x & w1 & tr' & -> & He & H)]. destruct (IH x w1 tr' H) as (tr1 & y & w2 & tr2 & -> & H1 & H2).
    exists (Asked q x :: tr1), y, w2, tr2. split; [done|]. split; [|done]. cbn. right. by exists x, w1, tr1.
  - destruct H as [t H]. destruct (IH t w tr H) as (tr1 & y & w2 & tr2 & -> & H1 & H2).
    exists tr1, y, w2, tr2. split; [done|]. split; [by exists t|done].
Qed.
Lemma seq_runs_bind {A B} (m : io A) (f : A -> io B) w tr z w' : runs (m ≫= f) w tr (Ended z) w' ->
  (exists tr1 a w1 tr2, tr = tr1 ++ tr2 /\ runs m w tr1 (Ended (inl a)) w1 /\ runs (f a) w1 tr2 (Ended z) w') \/
  (exists e, z = inr e /\ runs m w tr (Ended (inr e)) w').
Proof.
  intros (tr1 & [a|e] & w1 & tr2 & -> & H1 & H2)%seq_runs_attempt; [left; by exists tr1, a, w1, tr2|right].
  destruct H2 as (-> & [= ->] & ->). exists e. by rewrite app_nil_r.
Qed.
Lemma seq_runs_ask {B} (q : AskS B) w tr z w' : runs (ask q) w tr (Ended z) w' ->
  (exists a, z = inl a /\ tr = [Asked q (inl a)] /\ effect q (inl a) w w') \/
  (exists e, z = inr (Thrown e) /\ tr = [Asked q (inr e)] /\ effect q (inr e) w w').
Proof.
  intros [(_ & [=] & _)|([a|e] & w1 & tr' & -> & He & -> & [= ->] & ->)]; [left|right]; eauto.
Qed.

(** The row and the queue answer. *)
Definition store_answers (e : Event) : Prop :=
  match e with
  | Asked q x => match q with
                 | LoadState | SaveState _ | QueueSequence => match x with inl _ => True | inr _ => False end
                 | _ => True
                 end
  end.

(** The event that holds a run up at its place: the backup is still being made, or it cannot be seen. *)
Definition holds_up (r : BackupSequenceRun) (e : Event) : Prop :=
  (exists st, e = Asked (Status (place r)) (inl st) /\ busy st = true) \/
  (exists jobs i, place r = LocalCopy /\ every_job e jobs /\ jobId r = Some i /\ job_seen jobs i None) \/
  (exists err, e = Asked (Status (place r)) (inr err)) \/
  (exists l err, place r = LocalCopy /\ e = Asked (SearchJobs l) (inr err)).

Lemma runs_outcome r w tr z w' : runs (outcome r) w tr (Ended z) w' -> w' = w /\ z <> inr OutOfTurns /\
  ((exists x, z = inl (Some x)) \/ exists e, tr = [e] /\ holds_up r e).
Proof.
  unfold outcome, placeOutcome, snapshotOutcome. intros H.
  assert (forall p, place r = p -> p <> LocalCopy -> runs (s ← ask (Status p); Done (if busy s then None else Some ResultDone)) w tr (Ended z) w' ->
    w' = w /\ z <> inr OutOfTurns /\ ((exists x, z = inl (Some x)) \/ exists e, tr = [e] /\ holds_up r e)) as Hplace.
  { intros p Hp _ [(tr1 & st & w1 & tr2 & -> & H1 & -> & [= ->] & ->)|(e & -> & H1)]%seq_runs_bind;
      apply seq_runs_ask in H1 as [(a & Hz & -> & ->)|(e' & Hz & -> & ->)]; simplify_eq; (split; [done|]); (split; [done|]).
    - destruct (busy a) eqn:Eb; [right|left; by eexists]. eexists. split; [done|]. left. by exists a.
    - right. eexists. split; [done|]. right. right. left. by eexists. }
  destruct (place r) eqn:Ep; [|by apply (Hplace BuddyBackup)|by apply (Hplace CloudBackup)].
  destruct (jobId r) as [[|c i]|] eqn:Ej; [destruct H as (-> & [= ->] & ->); split; [done|]; split; [done|]; left; by eexists| |
    destruct H as (-> & [= ->] & ->); split; [done|]; split; [done|]; left; by eexists].
  apply seq_runs_bind in H as [(tr1 & jobs & w1 & tr2 & -> & H1 & -> & [= ->] & ->)|(e & -> & H1)];
    apply seq_runs_ask in H1 as [(a & Hz & -> & ->)|(e' & Hz & -> & ->)]; simplify_eq; (split; [done|]); (split; [done|]).
  - destruct (job_outcome a (String c i)) as [x|] eqn:Eo; [left; by exists x|right]. eexists. split; [done|]. right. left. exists a, (String c i).
    split; [done|]. split; [eexists; split; [done|]; intros []; set_solver|]. split; [done|]. rewrite <- Eo. apply job_outcome_seen.
  - right. eexists. split; [done|]. do 3 right. by eexists _, _.
Qed.

Ltac unchanged := first [done | split; [done|]; intros [= ->]; congruence].

Lemma runs_begin r w tr z w' : runs (try_begin r) w tr (Ended z) w' -> w' = w /\ z <> inr OutOfTurns.
Proof.
  assert (forall B (q : AskS B) w1 tr1 y w2, match q with LoadState | SaveState _ => False | _ => True end ->
    runs (ask q) w1 tr1 (Ended y) w2 -> w2 = w1 /\ y <> inr OutOfTurns) as Hask.
  { intros B q w1 tr1 y w2 Hq [(a & -> & _ & He)|(e & -> & _ & He)]%seq_runs_ask; (split; [|done]); destruct q; first [exact He|destruct Hq]. }
  assert (forall w1 tr1 y w2, runs (isOn (place r)) w1 tr1 (Ended y) w2 -> w2 = w1 /\ y <> inr OutOfTurns) as Hon.
  { intros w1 tr1 y w2. destruct (place r); cbn [isOn]; [by apply Hask| |];
      (intros [(tr2 & st & w3 & tr3 & -> & H1 & -> & [= ->] & ->)|(e & -> & H1)]%seq_runs_bind; (apply Hask in H1 as [-> Hn]; [unchanged|done])). }
  unfold try_begin, begin, snapshotJobId. intros H. apply seq_runs_bind in H as [(tr1 & b & w1 & tr2 & -> & H1 & H)|(e & -> & H1)];
    apply Hon in H1 as [-> Hn]; [|unchanged].
  destruct b; [|by destruct H as (-> & [= ->] & ->)].
  apply seq_runs_bind in H as [(tr3 & u & w2 & tr4 & -> & H1 & H)|(e & -> & H1)]; (apply Hask in H1 as [-> Hn2]; [|done]); [|unchanged].
  apply seq_runs_bind in H as [(tr5 & i & w3 & tr6 & -> & H & -> & [= ->] & ->)|(e & -> & H)];
    (destruct (place r); [|by destruct H as (_ & [= ->] & ->)|by destruct H as (_ & [= ->] & ->)]);
    apply seq_runs_bind in H as [(tr7 & jobs & w4 & tr8 & -> & H1 & -> & [= ->] & ->)|(e' & Hz & H1)];
    try (apply Hask in H1 as [-> Hn3]; [|done]); simplify_eq; unchanged.
Qed.

(** ** The loop *)

Lemma runs_save {B} s (k : unit -> io B) w tr z w' : runs (u ← save s; k u) w tr (Ended z) w' ->
  (exists e, z = inr (Thrown e) /\ tr = [Asked (SaveState s) (inr e)]) \/
  exists tr', tr = Asked (SaveState s) (inl tt) :: tr' /\ runs (k tt) (Some s) tr' (Ended z) w'.
Proof.
  intros [(tr1 & [] & w1 & tr2 & -> & H1 & H)|(e & -> & H1)]%seq_runs_bind;
    apply seq_runs_ask in H1 as [([] & Hz & -> & He)|(e' & Hz & -> & He)]; simplify_eq; [|left; by exists e'].
  cbn in He. subst w1. right. by exists tr2.
Qed.
Lemma runs_on_to {B} s r x (k : BackupSequenceState -> io B) w tr z w' :
  runs (s' ← leave s r x; _ ← save s'; k s') w tr (Ended z) w' ->
  exists t, let s' := mkState (left r x) (dueAt s) t in
    (exists e, z = inr (Thrown e) /\ tr = [Asked (SaveState s') (inr e)]) \/
    exists tr', tr = Asked (SaveState s') (inl tt) :: tr' /\ runs (k s') (Some s') tr' (Ended z) w'.
Proof.
  intros H. assert (exists t, runs (_ ← save (mkState (left r x) (dueAt s) t); k (mkState (left r x) (dueAt s) t)) w tr (Ended z) w') as [t Ht].
  { unfold leave in H. destruct (left r x) as [r'|]; [by exists (finishedAt s)|].
    cbn in H. destruct H as [t H]. by exists (Some t). }
  exists t. cbv zeta. by apply runs_save in Ht.
Qed.

(** Enough turns for what is left of a run. *)
Definition enough (turns : nat) (s : BackupSequenceState) : Prop := forall r, run s = Some r -> 6 <= turns + pos r.

Lemma enough_left turns s r x t : enough (S turns) s -> run s = Some r -> enough turns (mkState (left r x) (dueAt s) t).
Proof. intros He Er r' El. cbn in El. apply left_pos in El as (Hp & _). specialize (He r Er). lia. Qed.

(** The turns of [advance] are enough for every run. *)
Lemma turns_suffice turns s w tr z w' : enough turns s -> runs (visit turns s) w tr (Ended z) w' -> z <> inr OutOfTurns.
Proof.
  revert s w tr. induction turns as [|turns IH]; intros s w tr He H; cbn [visit] in H;
    (destruct (run s) as [r|] eqn:Er; [|by destruct H as (_ & [= ->] & _)]).
  { exfalso. specialize (He r Er). unfold pos in He. destruct (place r), (begun r); cbn in He; lia. }
  assert (forall s0 r0 x w0 tr0, run s0 = Some r0 -> pos r <= pos r0 ->
    runs (s' ← leave s0 r0 x; _ ← save s'; visit turns s') w0 tr0 (Ended z) w' -> z <> inr OutOfTurns) as Hon.
  { intros s0 r0 x w0 tr0 E0 Hp [t [(e & -> & _)|(tr' & _ & H0)]]%runs_on_to; [done|]. eapply IH, H0.
    eapply enough_left; [|exact E0]. intros r1 E1. specialize (He r Er). simplify_eq. lia. }
  destruct (begun r) eqn:Eb.
  - apply seq_runs_bind in H as [(tr1 & [x|] & w1 & tr2 & -> & H1 & H)|(e & -> & H1)].
    + by eapply Hon.
    + by destruct H as (_ & [= ->] & _).
    + apply runs_outcome in H1 as (_ & Hn & _). intros [= ->]. by apply Hn.
  - apply seq_runs_attempt in H as (tr1 & [[i|]|e] & w1 & tr2 & -> & H1 & H); [|by eapply Hon|by eapply Hon].
    apply seq_runs_attempt in H as (tr3 & [u|e] & w2 & tr4 & -> & H2 & H).
    + eapply IH, H. intros r' E. cbn in E. injection E as <-. specialize (He r Er). unfold pos in *. rewrite Eb in He. cbn. lia.
    + eapply Hon, H; [done|]. unfold pos. rewrite Eb. cbn. lia.
Qed.

(** Where a run is left, when the row and the queue answer. *)
Definition stops_at (s : BackupSequenceState) (tr : list Event) (w' : stored) : Prop :=
  exists r', run_of w' = Some r' /\ begun r' = true /\ (exists tr0 e, tr = tr0 ++ [e] /\ holds_up r' e) /\
    forall r, run s = Some r -> startedAt r' = startedAt r /\ pos r <= pos r'.

Lemma stops_later s s' r tr0 tr w' : stops_at s' tr w' -> run s = Some r -> run s' <> None ->
  (forall r1, run s' = Some r1 -> startedAt r1 = startedAt r /\ pos r <= pos r1) -> stops_at s (tr0 ++ tr) w'.
Proof.
  intros (r' & Ew & Eb & (tr1 & e & -> & Hu) & Hp) Er Hn Hr. exists r'. split; [done|]. split; [done|].
  split; [exists (tr0 ++ tr1), e; by rewrite app_assoc|]. intros r0 E0. simplify_eq.
  destruct (run s') as [r1|]; [|done]. destruct (Hp r1 eq_refl), (Hr r1 eq_refl). split; [congruence|lia].
Qed.

Lemma runs_visit turns s w tr z w' : enough turns s -> s = default (mkState None None None) w ->
  runs (visit turns s) w tr (Ended z) w' -> Forall store_answers tr ->
  match z with
  | inl (Some s') => run s' = None /\ s' = default (mkState None None None) w' /\ dueAt s' = dueAt s
  | _ => stops_at s tr w'
  end.
Proof.
  revert s w tr. induction turns as [|turns IH]; intros s w tr He Es H Hst; cbn [visit] in H;
    (destruct (run s) as [r|] eqn:Er; [|by destruct H as (-> & [= ->] & ->)]).
  { exfalso. specialize (He r Er). unfold pos in He. destruct (place r), (begun r); cbn in He; lia. }
  assert (forall x tr0 tr1, tr = tr0 ++ tr1 -> runs (s' ← leave s r x; _ ← save s'; visit turns s') w tr1 (Ended z) w' ->
    match z with
    | inl (Some s') => run s' = None /\ s' = default (mkState None None None) w' /\ dueAt s' = dueAt s
    | _ => stops_at s tr w'
    end) as Hon.
  { intros x tr0 tr1 -> [t [(e & -> & ->)|(tr' & -> & H0)]]%runs_on_to; apply Forall_app in Hst as [_ Hst].
    { by apply Forall_cons in Hst as [[] _]. }
    apply Forall_cons in Hst as [_ Hst]. pose proof (IH _ (Some _) _ (enough_left _ _ _ _ _ He Er) eq_refl H0 Hst) as Hz.
    assert (stops_at (mkState (left r x) (dueAt s) t) tr' w' -> stops_at s (tr0 ++ Asked (SaveState (mkState (left r x) (dueAt s) t)) (inl ()) :: tr') w') as Hlater.
    { intros Hs. rewrite (cons_middle _ tr0), app_assoc.
      destruct (left r x) as [r1|] eqn:El.
      - eapply stops_later; [exact Hs|done|done|]. intros r2 [= <-]. pose proof (left_pos _ _ _ El) as (Hp & _).
        unfold left in El. destruct (nextBackupPlace (place r)); [|done]. injection El as <-. split; [done|]. lia.
      - exfalso. destruct Hs as (r2 & Ew & _). clear -H0 Ew. destruct turns; cbn in H0; destruct H0 as (_ & _ & ->); by cbn in Ew. }
    destruct z as [[s'|]|e]; [by cbn in Hz|by apply Hlater..]. }
  destruct (begun r) eqn:Eb.
  - apply seq_runs_bind in H as [(tr1 & [x|] & w1 & tr2 & -> & H1 & H)|(e & -> & H1)]; apply runs_outcome in H1 as (-> & _ & Ho).
    + by eapply Hon.
    + destruct H as (-> & [= ->] & ->). rewrite app_nil_r in *. destruct Ho as [[x [=]]|(e & -> & Hu)].
      exists r. split; [subst s; by destruct w|]. split; [done|]. split; [by exists [], e|]. intros r0 E0. by simplify_eq.
    + destruct Ho as [[x [=]]|(e' & -> & Hu)].
      exists r. split; [subst s; by destruct w|]. split; [done|]. split; [by exists [], e'|]. intros r0 E0. by simplify_eq.
  - apply seq_runs_attempt in H as (tr1 & [[i|]|e] & w1 & tr2 & -> & H1 & H); apply runs_begin in H1 as [-> _]; [|by eapply Hon|by eapply Hon].
    apply seq_runs_attempt in H as (tr3 & u & w2 & tr4 & -> & H2 & H).
    apply Forall_app in Hst as [Hst1 Hst]. apply Forall_app in Hst as [Hst3 Hst4].
    apply seq_runs_ask in H2 as [([] & -> & -> & E)|(e & -> & -> & E)]; [|by apply Forall_cons in Hst3 as [[] _]].
    cbn in E. subst w2. assert (enough turns (mkState (Some (begun_at r i)) (dueAt s) (finishedAt s))) as He'.
    { intros r' E. cbn in E. injection E as <-. specialize (He r Er). unfold pos in *. rewrite Eb in He. cbn. lia. }
    pose proof (IH _ (Some _) _ He' eq_refl H Hst4) as Hz.
    assert (stops_at (mkState (Some (begun_at r i)) (dueAt s) (finishedAt s)) tr4 w' -> stops_at s
      (tr1 ++ [Asked (SaveState (mkState (Some (begun_at r i)) (dueAt s) (finishedAt s))) (inl ())] ++ tr4) w') as Hlater.
    { intros Hs. rewrite app_assoc. eapply stops_later; [exact Hs|done|done|]. intros r1 [= <-]. split; [done|]. unfold pos. rewrite Eb. cbn. lia. }
    destruct z as [[s'|]|e]; [by cbn in Hz|by apply Hlater..].
Qed.

(** ** The promises *)

(** Concrete histories: the row is kept, and the rest is answered by [answer]. *)
Section simulate.
Context (answer : forall B, AskS B -> B + string) (clock : Z).
Fixpoint simulate {A} (m : io A) (w : stored) : list Event * (A + SequenceError) * stored :=
  match m with
  | Done a => ([], inl a, w)
  | Raise e => ([], inr e, w)
  | @Ask _ B q k =>
      let '(x, w1) := match q in AskS B return (B + string) * stored with
                      | LoadState => (inl w, w)
                      | SaveState s => (inl tt, Some s)
                      | q => (answer _ q, w)
                      end in
      let '(tr, y, w') := simulate (k x) w1 in (Asked q x :: tr, y, w')
  | Now k => simulate (k clock) w
  end.
Lemma seq_simulate_runs {A} (m : io A) w : let '(tr, y, w') := simulate m w in runs m w tr (Ended y) w'.
Proof.
  revert w. induction m as [a|e|B q k IH|k IH]; intros w; [done..| |exact (ltac:(cbn; specialize (IH clock w); destruct (simulate (k clock) w) as [[tr y] w']; by exists clock))].
  destruct q; cbn; match goal with |- context [simulate (k ?x) ?w1] => specialize (IH x w1); destruct (simulate (k x) w1) as [[tr y] w'];
    right; by exists x, w1, tr end.
Qed.
End simulate.

(** A night: the copy is made, there is no buddy, and Cloud Backup is on and busy. *)
Definition night_job (s : QueueJobStatus) : QueueJob := mkJob "j1" "DatabaseBackup" s.
Definition night (job : QueueJobStatus) (B : Type) (q : AskS B) : B + string :=
  match q in AskS B return B + string with
  | CopyEnabled => inl true
  | Status BuddyBackup => inl (mkStatus false false)
  | Status _ => inl (mkStatus true true)
  | SearchJobs l => inl (if includes job l then [night_job job] else [])
  | StartBackup _ => inl tt
  | LoadState => inl None
  | SaveState _ => inl tt
  | QueueSequence => inl tt
  end.
Definition evening := simulate (night Active) 100 handleStart None.
Definition morning := simulate (night Complete) 200 move evening.2.

Lemma night_serves : serves None (evening.1.1 ++ morning.1.1) morning.2.
Proof.
  eapply serves_watch; [apply (serves_tick None [] (Ended evening.1.2) None evening.1.1 evening.2); [apply serves_none|]|].
  - exact (seq_simulate_runs (night Active) 100 handleStart None).
  - exact (seq_simulate_runs (night Complete) 200 move evening.2).
Qed.
Lemma night_split : evening.1.1 ++ morning.1.1 =
  take 14 (evening.1.1 ++ morning.1.1) ++ Asked (StartBackup CloudBackup) (inl tt) :: drop 15 (evening.1.1 ++ morning.1.1).
Proof. vm_compute. reflexivity. Qed.

(** C35. The backups of a server go in turn.  Whatever the row, the queue and the two services answer or throw,
    wherever a handler is cut off and however ticks and the watch's turns follow one another: a place is
    started only when each place before it was settled in that very run, after its own last start
    (its backup was seen over, it said it was off, its job failed, or something about it was thrown), and a
    start that was recorded is not repeated in its run.  What a run records of the places it left is what
    was seen of them. *)
Theorem backups_in_turn (w w' : option BackupSequenceState) (tr : list Event)
    (Hserves : serves w tr w') (Hidle : w ≫= run = None) :
  (forall tr1 q x tr2, tr = tr1 ++ Asked (StartBackup q) x :: tr2 ->
     (forall p, place_index p < place_index q -> exists y, settled tr1 p y) /\
     (forall a s r b, tr1 = a ++ Asked (SaveState s) (inl tt) :: b -> run s = Some r -> begun r = true -> place r = q ->
        exists e, e ∈ b /\ fresh e)) /\
  (forall r, w' ≫= run = Some r ->
     map fst (results r) = take (place_index (place r)) BACKUP_SEQUENCE /\ forall p y, (p, y) ∈ results r -> settled tr p y).
Proof.
  destruct (serves_ok _ _ _ Hserves Hidle) as [Hw Ha]. split.
  - intros tr1 q x tr2 E. exact (Ha tr1 _ tr2 E).
  - intros r E. pose proof (stored_run _ _ _ Hw E) as Hr. split; [apply (ok_left _ _ Hr)|apply (ok_settled _ _ Hr)].
Qed.

Lemma backups_in_turn_witness :
  exists y, settled (take 14 (evening.1.1 ++ morning.1.1)) LocalCopy y.
Proof.
  exact (proj1 (proj1 (backups_in_turn None morning.2 (evening.1.1 ++ morning.1.1) night_serves eq_refl)
    _ CloudBackup _ _ night_split) LocalCopy (Nat.lt_0_succ 1)).
Defined.

(** C36. Nothing holds a run up but a backup that is being made.  A turn of the watch that ends has used no more
    than the turns of its loop, and when the row and the queue answer, it either leaves no run, the run that
    fell due meanwhile queued and no longer marked, or it stops at a place whose backup was begun, because
    the last thing it saw was that this backup is going on, or that it cannot be seen: Buddy or Cloud
    Backup said it is busy, or the copy's job is active, waiting or put off - a job that failed, sits in
    a paused queue, is complete or is no longer listed holds nothing up.  So a turn in
    which no answer tells of a backup or a job that is going on ends the run, whatever place it was at; and
    a run never goes back. *)
Theorem backup_run_ends (w w' : option BackupSequenceState) (tr : list Event) (z : unit + SequenceError)
    (Hrun : runs move w tr (Ended z) w') :
  z <> inr OutOfTurns /\
  (Forall store_answers tr ->
   match w' ≫= run with
   | Some r =>
       begun r = true /\ (exists tr0 e, tr = tr0 ++ [e] /\ holds_up r e) /\
       forall r0, w ≫= run = Some r0 -> startedAt r = startedAt r0 /\ pos r0 <= pos r
   | None => z = inl tt /\ w' ≫= dueAt = None /\ (w ≫= dueAt <> None -> Asked QueueSequence (inl tt) ∈ tr)
   end /\
   ((forall r e, e ∈ tr -> ~ holds_up r e) -> w' ≫= run = None)).
Proof.
  assert (forall P (o : option BackupSequenceRun), match o with
      | Some r => begun r = true /\ (exists tr0 e, tr = tr0 ++ [e] /\ holds_up r e) /\
          forall r0, w ≫= run = Some r0 -> startedAt r = startedAt r0 /\ pos r0 <= pos r
      | None => P end -> (forall r e, e ∈ tr -> ~ holds_up r e) -> o = None) as Hfree.
  { intros P [r|] Ho Hn; [|done]. destruct Ho as (_ & (tr0 & e & -> & Hu) & _). exfalso. apply (Hn r e); [|done].
    apply elem_of_app. right. by apply list_elem_of_singleton. }
  enough (z <> inr OutOfTurns /\ (Forall store_answers tr -> match w' ≫= run with
      | Some r => begun r = true /\ (exists tr0 e, tr = tr0 ++ [e] /\ holds_up r e) /\
          forall r0, w ≫= run = Some r0 -> startedAt r = startedAt r0 /\ pos r0 <= pos r
      | None => z = inl tt /\ w' ≫= dueAt = None /\ (w ≫= dueAt <> None -> Asked QueueSequence (inl tt) ∈ tr) end)) as [Hz H].
  { split; [done|]. intros Hst. split; [by apply H|]. eapply Hfree, H, Hst. }
  clear Hfree.
  unfold move, advance in Hrun. apply seq_runs_bind in Hrun as [(tr1 & s & w1 & tr2 & -> & Hl & H)|(e & -> & Hl)];
    apply seq_runs_bind in Hl as [(tr3 & s0 & w2 & tr4 & -> & Hl & -> & [= Hs] & ->)|(e' & Hz & Hl)]; try done;
    apply seq_runs_ask in Hl as [(a & Ea & -> & Hw)|(e2 & Ea & -> & Hw)]; simplify_eq; cbn in Hw.
  2: { split; [done|]. intros Hst. by apply Forall_cons in Hst as [[] _]. }
  destruct Hw as [-> ->]. set (s := default _ w) in *.
  assert (w ≫= run = run s /\ w ≫= dueAt = dueAt s) as [Erun Edue] by by destruct w.
  assert (enough (2 * length BACKUP_SEQUENCE) s) as Hen by (intros r _; cbn; lia).
  apply seq_runs_bind in H as [(tr5 & o & w3 & tr6 & -> & Hv & H)|(e & -> & Hv)].
  - pose proof (runs_visit _ _ _ _ _ _ Hen eq_refl Hv) as Hvis. destruct o as [s'|].
    + assert (Forall store_answers tr5 -> run s' = None /\ s' = default (mkState None None None) w3 /\ dueAt s' = dueAt s) as Hend by exact Hvis.
      case_bool_decide as Ed.
      * destruct H as (-> & [= ->] & ->). split; [done|]. intros Hst. rewrite !Forall_app in Hst. destruct Hst as (_ & Hst & _).
        destruct (Hend Hst) as (En & -> & Ed'). destruct w3 as [s3|]; cbn in *; [rewrite En|]; (split; [done|]); (split; [done|]); congruence.
      * apply runs_save in H as [(e & -> & ->)|(tr' & -> & H)].
        { split; [done|]. intros Hst. rewrite !Forall_app in Hst. destruct Hst as (_ & _ & Hst). by apply Forall_cons in Hst as [[] _]. }
        apply seq_runs_ask in H as [([] & -> & -> & Hq)|(e & -> & -> & Hq)]; cbn in Hq; subst w'.
        -- split; [done|]. intros Hst. rewrite !Forall_app in Hst. destruct Hst as (_ & Hst & _). destruct (Hend Hst) as (En & _).
           cbn. rewrite En. split; [done|]. split; [done|]. intros _. apply list_elem_of_further, elem_of_app. right. apply list_elem_of_further, list_elem_of_here.
        -- split; [done|]. intros Hst. rewrite !Forall_app in Hst. destruct Hst as (_ & _ & Hst).
           apply Forall_cons in Hst as [_ Hst]. by apply Forall_cons in Hst as [[] _].
    + destruct H as (-> & [= ->] & ->). split; [done|]. intros Hst. rewrite !Forall_app in Hst. destruct Hst as (_ & Hst & _).
      destruct (Hvis Hst) as (r & Er & Hb & (tr0 & e & -> & Hu) & Hp). unfold run_of in Er. rewrite Er. split; [done|].
      split; [|intros r0; rewrite Erun; apply Hp]. exists (Asked LoadState (inl w) :: tr0), e. by rewrite !app_nil_r.
  - split; [intros [= ->]; by eapply turns_suffice|]. intros Hst. rewrite !Forall_app in Hst. destruct Hst as (_ & Hst).
    destruct (runs_visit _ _ _ _ _ _ Hen eq_refl Hv Hst) as (r & Er & Hb & (tr0 & e' & -> & Hu) & Hp). unfold run_of in Er. rewrite Er. split; [done|].
    split; [|intros r0; rewrite Erun; apply Hp]. by exists (Asked LoadState (inl w) :: tr0), e'.
Qed.

Lemma morning_runs : runs move evening.2 morning.1.1 (Ended morning.1.2) morning.2.
Proof. exact (seq_simulate_runs (night Complete) 200 move evening.2). Qed.
Lemma morning_answers : Forall store_answers morning.1.1.
Proof. unfold morning. vm_compute. repeat constructor. Qed.
Lemma backup_run_ends_witness :
  morning.1.2 <> inr OutOfTurns /\
  match morning.2 ≫= run with
  | Some r =>
      begun r = true /\ (exists tr0 e, morning.1.1 = tr0 ++ [e] /\ holds_up r e) /\
      forall r0, evening.2 ≫= run = Some r0 -> startedAt r = startedAt r0 /\ pos r0 <= pos r
  | None => morning.1.2 = inl tt /\ morning.2 ≫= dueAt = None /\
      (evening.2 ≫= dueAt <> None -> Asked QueueSequence (inl tt) ∈ morning.1.1)
  end.
Proof.
  exact (conj (proj1 (backup_run_ends evening.2 morning.2 morning.1.1 morning.1.2 morning_runs))
    (proj1 (proj2 (backup_run_ends evening.2 morning.2 morning.1.1 morning.1.2 morning_runs) morning_answers))).
Defined.
