(* ===== verification/AccessRows.v ===== *)
(** * Access: the rows, and what they hide ([server/src/utils/database.ts], [server/src/utils/locked.ts])

    The tables the access checks read, and the predicates over them that every read applies: the lock
    records of Locked media, the hidden-content filter of a session, and the Locked rules of an item's
    owner.  A row that a left join does not find is [None]; a predicate on it is false, as [exists] is. *)

From stdpp Require Import gmap.
From S2P Require Import Prelude JsNumber JsString Enums.

(** ** Tables *)

Module Role.
Inductive AlbumUserRole := Editor | Owner | Viewer.
#[export] Instance AlbumUserRole_eq_dec : EqDecision AlbumUserRole.
Proof. solve_decision. Defined.
End Role.
#[export] Existing Instance Role.AlbumUserRole_eq_dec.

Inductive AssetLockReason := Marked | Detected | FrameleafLockedFolder.

Record AssetRow := mkAsset {
  asset_id : string;
  asset_ownerId : string;
  visibility : Visibility.AssetVisibility;
  livePhotoVideoId : option string;
  asset_deleted : bool;
  is_nsfw : bool;
  duplicateId : option string;
  stackId : option string
}.
Record AlbumRow := mkAlbum { album_id : string; album_deleted : bool; isActivityEnabled : bool }.
Record AlbumUserRow := mkAlbumUser { au_albumId : string; au_userId : string; au_role : Role.AlbumUserRole }.
Record UserRow := mkUser { user_id : string; user_deleted : bool; clusterGroupId : string }.
Record ItemShareRow := mkItemShare { share_assetId : string; share_ownerId : string; sharedWithId : string }.
Record FaceRow := mkFace {
  face_id : string;
  face_assetId : string;
  personGroupId : option string;
  face_deleted : bool;
  face_isVisible : bool
}.
Record PetObservationRow := mkObservation { po_assetId : string; po_petId : string; confirmed : bool }.
Record SuppressionPreferences := mkSuppression { tagIds : list string; personIds : list string; petIds : list string }.
Record ActivityRow := mkActivity {
  activity_id : string;
  activity_userId : string;
  activity_albumId : string;
  activity_assetId : option string
}.
Record ClusterGroupRequestRow := mkClusterRequest { cgr_id : string; cgr_userId : string; cgr_groupId : string }.

(** Tables of pairs: [album_asset] (album, asset), [shared_link] (link, album), [shared_link_asset] (link,
    asset), [asset_file] (file, asset), [tag_asset] (tag, asset), [tag_closure] (ancestor, descendant),
    [bookmark_tag] (bookmark, tag), [pet] (pet, owner), [preferences] (owner, Locked rules),
    [export_version] (version, result) of the published ones, [version_source] (version, source),
    [stack] (stack, owner, primary asset), and of things one person owns (thing, owner). *)
Record Library := mkLibrary {
  asset : list AssetRow;
  asset_lock : list (string * AssetLockReason);
  album : list AlbumRow;
  album_user : list AlbumUserRow;
  album_asset : list (string * string);
  user : list UserRow;
  asset_user_share : list ItemShareRow;
  shared_link : list (string * option string);
  shared_link_asset : list (string * string);
  asset_file : list (string * string);
  asset_face : list FaceRow;
  person : list (string * string);
  tag : list (string * string);
  tag_asset : list (string * string);
  tag_closure : list (string * string);
  bookmark : list (string * string * bool);
  bookmark_tag : list (string * string);
  pet : list (string * string);
  pet_observation : list PetObservationRow;
  preferences : list (string * SuppressionPreferences);
  export_version : list (string * string);
  version_source : list (string * string);
  stack : list (string * string * string);
  memory : list (string * string * bool);
  memory_asset : list (string * string);
  activity : list ActivityRow;
  session : list (string * string);
  notification : list (string * string);
  workflow : list (string * string);
  partner : list (string * string);
  cluster_group_request : list ClusterGroupRequestRow
}.

Section rows.
Context (db : Library).

Definition find_asset (i : string) : option AssetRow := List.find (fun a => String.eqb (asset_id a) i) (asset db).
Definition is_id (i : string) (a : AssetRow) : bool := String.eqb (asset_id a) i.
Definition opt_is (o : option string) (i : string) : bool := bool_decide (o = Some i).

(** ** Locked media *)

Definition isLocked (i : string) : bool := existsb (fun l => String.eqb l.1 i) (asset_lock db).
Definition lockedForReason (i : string) : bool := isLocked i.
Definition revealedLockScope (revealOwnerId : option string) (a : AssetRow) : bool :=
  match revealOwnerId with
  | None => negb (isLocked (asset_id a))
  | Some o => negb (isLocked (asset_id a)) || (String.eqb (asset_ownerId a) o && lockedForReason (asset_id a))
  end.
(** The hidden video part of a live photo whose still is locked. *)
Definition isMotionOfLockedStill (a : AssetRow) : bool :=
  bool_decide (visibility a = Visibility.Hidden) &&
  existsb (fun still => opt_is (livePhotoVideoId still) (asset_id a) && isLocked (asset_id still)) (asset db).
Definition isDefaultVisible (a : AssetRow) : bool :=
  includes (visibility a) [Visibility.Archive; Visibility.Timeline] && revealedLockScope None a.
Definition isTimelineVisible (revealOwnerId : option string) (a : AssetRow) : bool :=
  bool_decide (visibility a = Visibility.Timeline) && revealedLockScope revealOwnerId a.

(** ** The hidden-content filter of a session *)

Inductive SuppressionScope := Owned | Visible.
Record HiddenContentFilter := mkFilter {
  suppressed : SuppressionPreferences;
  scope : SuppressionScope;
  filter_userId : string;
  includeNsfw : bool
}.
Definition nsfwOnlyFilter : HiddenContentFilter := mkFilter (mkSuppression [] [] []) Visible "" true.

(** [boolean | HiddenContentFilter | undefined], as a session carries it. *)
Inductive AccessPrivacy := NoPrivacy | NsfwOnly | Filtered (f : HiddenContentFilter).
Definition getHiddenContentFilter (p : AccessPrivacy) : option HiddenContentFilter :=
  match p with NoPrivacy => None | NsfwOnly => Some nsfwOnlyFilter | Filtered f => Some f end.

Definition tagged (i : string) (ancestors : list string) : bool :=
  existsb (fun t => String.eqb t.2 i && existsb (fun c => String.eqb c.2 t.1 && includes c.1 ancestors) (tag_closure db)) (tag_asset db).
Definition shows_person (i : string) (people : list string) : bool :=
  existsb (fun f => String.eqb (face_assetId f) i && match personGroupId f with Some p => includes p people | None => false end &&
                    negb (face_deleted f) && face_isVisible f) (asset_face db).
(** Only the owner's own confirmed observations of their own pets. *)
Definition shows_pet (i : string) (pets : list string) (owner : string) : bool :=
  existsb (fun o => String.eqb (po_assetId o) i && includes (po_petId o) pets && confirmed o &&
                    existsb (fun p => String.eqb p.1 (po_petId o) && String.eqb p.2 owner) (pet db)) (pet_observation db).
Definition nsfwAssetExists (i : string) : bool := existsb (fun a => is_id i a && is_nsfw a) (asset db).
Definition scopedToOwner (f : HiddenContentFilter) (a : AssetRow) : bool :=
  match scope f with Owned => String.eqb (asset_ownerId a) (filter_userId f) | Visible => true end.
Definition hiddenContentAssetExists (f : HiddenContentFilter) (a : AssetRow) : bool :=
  (includeNsfw f && nsfwAssetExists (asset_id a)) ||
  (scopedToOwner f a &&
   (tagged (asset_id a) (tagIds (suppressed f)) || shows_person (asset_id a) (personIds (suppressed f)) ||
    shows_pet (asset_id a) (petIds (suppressed f)) (filter_userId f))).
Definition hiddenContentAssetIdExists (i : string) (f : HiddenContentFilter) : bool :=
  existsb (fun a => is_id i a && hiddenContentAssetExists f a) (asset db).
(** [withHiddenContentFilter]: whether a row stays. *)
Definition withHiddenContentFilter (p : AccessPrivacy) (a : AssetRow) : bool :=
  match getHiddenContentFilter p with Some f => negb (hiddenContentAssetExists f a) | None => true end.

(** ** The Locked rules of an item's owner *)

Definition matchesOwnerRules (i owner : string) : bool :=
  existsb (fun o => String.eqb o.1 owner &&
    (tagged i (tagIds o.2) || shows_person i (personIds o.2) || shows_pet i (petIds o.2) owner)) (preferences db).
(** The sources of the published exports that are one of [l]. *)
Definition sources_of (l : list string) : list string :=
  v ← export_version db; if includes v.2 l then s ← version_source db; if String.eqb s.1 v.1 then [s.2] else [] else [].
(** The recursive lineage, one turn for every source there is. *)
Definition owner_rules_lineage (i : string) : list string :=
  repeat_next (fun l => l ++ sources_of l) (length (version_source db)) (sources_of [i]).
Definition exportOfOwnerRulesMatch (i : string) : bool :=
  existsb (fun a => includes (asset_id a) (owner_rules_lineage i) && matchesOwnerRules (asset_id a) (asset_ownerId a)) (asset db).
Definition hiddenByOwnerRules (a : AssetRow) : bool :=
  matchesOwnerRules (asset_id a) (asset_ownerId a) || exportOfOwnerRulesMatch (asset_id a).
Definition hiddenFromOthers (viewerId : string) (a : AssetRow) : bool :=
  negb (String.eqb (asset_ownerId a) viewerId) && hiddenByOwnerRules a.
Definition getOwnerHiddenShareIds (ids : list string) : list string :=
  asset_id <$> List.filter (fun a => includes (asset_id a) ids && hiddenByOwnerRules a) (asset db).

(** ** What a session hides of memories and tags *)

Definition hiddenFromSession (p : AccessPrivacy) (revealOwnerId : option string) (a : AssetRow) : bool :=
  negb (revealedLockScope revealOwnerId a) ||
  match getHiddenContentFilter p with Some f => hiddenContentAssetExists f a | None => false end.
Definition memoryHasNoHiddenItem (m : string) (p : AccessPrivacy) (revealOwnerId : option string) : bool :=
  negb (existsb (fun ma => String.eqb ma.1 m && existsb (fun a => is_id ma.2 a && hiddenFromSession p revealOwnerId a) (asset db)) (memory_asset db)).

Definition under (t : string) (p : string -> bool) (l : list (string * string)) : bool :=
  existsb (fun c => String.eqb c.1 t && existsb (fun x => String.eqb x.1 c.2 && p x.2) l) (tag_closure db).
Definition tagged_bookmarks : list (string * string) := (fun b => (b.2, b.1)) <$> bookmark_tag db.
Definition hiddenContentBookmarkIdExists (b : string) (f : HiddenContentFilter) : bool :=
  existsb (fun r => String.eqb r.1.1 b && match scope f with Owned => String.eqb r.1.2 (filter_userId f) | Visible => true end &&
    existsb (fun bt => String.eqb bt.1 b && existsb (fun c => String.eqb c.2 bt.2 && includes c.1 (tagIds (suppressed f))) (tag_closure db))
      (bookmark_tag db)) (bookmark db).
Definition tagHasVisibleAssetOrNoAssets (t : string) (f : option HiddenContentFilter) (hideLocked : bool) : bool :=
  match f, hideLocked with
  | None, false => true
  | _, _ =>
      negb (under t (fun _ => true) (tag_asset db) || under t (fun _ => true) tagged_bookmarks) ||
      under t (fun i => match f with Some f => negb (hiddenContentAssetIdExists i f) | None => true end &&
                        (negb hideLocked || negb (isLocked i))) (tag_asset db) ||
      under t (fun b => existsb (fun r => String.eqb r.1.1 b) (bookmark db) &&
                        match f with Some f => negb (hiddenContentBookmarkIdExists b f) | None => true end &&
                        (negb hideLocked || existsb (fun r => String.eqb r.1.1 b && negb r.2) (bookmark db))) tagged_bookmarks
  end.
Definition tagIsSuppressed (t : string) (l : list string) : bool :=
  existsb (fun c => String.eqb c.2 t && includes c.1 l) (tag_closure db).
End rows.
