(* ===== verification/AccessQueries.v ===== *)
(** * Access: the checks of the repository ([server/src/repositories/access.repository.ts])

    Every check answers, of a set of ids, those its user or shared link may reach, as one statement over the
    rows.  A join is the list of the joined rows.  The decorator that splits a long set in chunks and merges
    the answers is left out: every check answers for each id on its own. *)

From stdpp Require Import gmap.
From S2P Require Import Prelude JsNumber JsString Enums AccessRows.

Section queries.
Context (db : Library).

(** An empty set is answered without asking. *)
Definition answer (ids : gset string) (rows : list string) : gset string := if decide (ids = ∅) then ∅ else list_to_set rows.
Definition among (ids : gset string) (i : string) : bool := bool_decide (i ∈ ids).
Definition left_join {A} (l : list A) : list (option A) := match l with [] => [None] | _ => Some <$> l end.
Definition where_ {A} (b : bool) (l : list A) : list A := if b then l else [].
(** A filter over a row that a left join may not have found. *)
Definition keeps (p : AccessPrivacy) (a : option AssetRow) : bool :=
  match a with Some a => withHiddenContentFilter db p a | None => true end.
Definition live (p : AssetRow -> bool) : list AssetRow := List.filter (fun a => negb (asset_deleted a) && p a) (asset db).
(** The things of a table that [userId] owns, among [ids]. *)
Definition owned_by (userId : string) (ids : gset string) (rows : list (string * string)) : list string :=
  fst <$> List.filter (fun r => among ids r.1 && String.eqb r.2 userId) rows.

(** [ActivityAccess]. *)
Definition activity_target (a : ActivityRow) : list (option AssetRow) :=
  left_join (live (fun x => opt_is (activity_assetId a) (asset_id x))).
Definition activity_checkOwnerAccess (userId : string) (ids : gset string) (p : AccessPrivacy) : gset string :=
  answer ids (a ← activity db; x ← activity_target a;
    where_ (among ids (activity_id a) && String.eqb (activity_userId a) userId && keeps p x) [activity_id a]).
Definition activity_checkAlbumOwnerAccess (userId : string) (ids : gset string) (p : AccessPrivacy) : gset string :=
  answer ids (a ← activity db; x ← activity_target a; b ← album db; u ← album_user db;
    where_ (String.eqb (album_id b) (activity_albumId a) && negb (album_deleted b) && String.eqb (au_albumId u) (album_id b) &&
            bool_decide (au_role u = Role.Owner) && String.eqb (au_userId u) userId && among ids (activity_id a) && keeps p x)
      [activity_id a]).
Definition activity_checkCreateAccess (userId : string) (ids : gset string) : gset string :=
  answer ids (b ← album db; au ← album_user db; u ← user db;
    where_ (String.eqb (au_albumId au) (album_id b) && String.eqb (user_id u) (au_userId au) && negb (user_deleted u) &&
            among ids (album_id b) && isActivityEnabled b && String.eqb (user_id u) userId && negb (album_deleted b)) [album_id b]).

(** [AlbumAccess]. *)
Definition album_checkOwnerAccess (userId : string) (ids : gset string) : gset string :=
  answer ids (b ← album db; u ← album_user db;
    where_ (among ids (album_id b) && String.eqb (au_albumId u) (album_id b) && bool_decide (au_role u = Role.Owner) &&
            String.eqb (au_userId u) userId && negb (album_deleted b)) [album_id b]).
Definition album_checkSharedAlbumAccess (userId : string) (ids : gset string) (access : Role.AlbumUserRole) : gset string :=
  let accessRole := if bool_decide (access = Role.Editor) then [Role.Editor] else [Role.Editor; Role.Viewer] in
  answer ids (b ← album db; au ← album_user db; u ← user db;
    where_ (String.eqb (au_albumId au) (album_id b) && String.eqb (user_id u) (au_userId au) && negb (user_deleted u) &&
            among ids (album_id b) && negb (album_deleted b) && String.eqb (user_id u) userId && includes (au_role au) accessRole)
      [album_id b]).
Definition album_checkSharedLinkAccess (sharedLinkId : string) (ids : gset string) : gset string :=
  answer ids (l ← shared_link db;
    match l.2 with Some b => where_ (String.eqb l.1 sharedLinkId && among ids b) [b] | None => [] end).

(** [AssetAccess]. *)
(** What a row of an item and its motion part grants of [ids]. *)
Definition motion_hidden (p : AccessPrivacy) (motion : string) : bool :=
  match getHiddenContentFilter p with Some f => hiddenContentAssetIdExists db motion f | None => false end.
Definition grants (p : AccessPrivacy) (ids : gset string) (i : string) (motion : option string) : list string :=
  where_ (among ids i) [i] ++
  match motion with Some m => where_ (among ids m && negb (motion_hidden p m)) [m] | None => [] end.

Definition asset_checkAlbumAccess (userId : string) (ids : gset string) (p : AccessPrivacy) : gset string :=
  answer ids (b ← album db; aa ← album_asset db; a ← asset db; au ← album_user db; u ← user db;
    where_ (String.eqb aa.1 (album_id b) && is_id aa.2 a && negb (asset_deleted a) && String.eqb (au_albumId au) (album_id b) &&
            String.eqb (user_id u) (au_userId au) && negb (user_deleted u) && String.eqb (user_id u) userId && negb (album_deleted b) &&
            negb (isLocked db (asset_id a)) && negb (hiddenFromOthers db userId a) && withHiddenContentFilter db p a)
      (grants p ids (asset_id a) (livePhotoVideoId a))).

Definition asset_checkOwnerAccess (userId : string) (ids : gset string) (hasElevatedPermission : bool) (p : AccessPrivacy) : gset string :=
  answer ids (asset_id <$> List.filter (fun a =>
    among ids (asset_id a) && String.eqb (asset_ownerId a) userId &&
    (hasElevatedPermission || (negb (isLocked db (asset_id a)) && negb (isMotionOfLockedStill db a))) &&
    withHiddenContentFilter db p a) (asset db)).

(** The motion part of a shared still: its owner's, live and unlocked. *)
Definition shared_motion (a : AssetRow) : list (option string) :=
  left_join (asset_id <$> live (fun m => opt_is (livePhotoVideoId a) (asset_id m) && String.eqb (asset_ownerId m) (asset_ownerId a) &&
                                         negb (isLocked db (asset_id m)))).
Definition shared_rows (userId : string) (p : AccessPrivacy) : list (AssetRow * option string) :=
  s ← asset_user_share db; a ← asset db; o ← user db; m ← shared_motion a;
    where_ (is_id (share_assetId s) a && negb (asset_deleted a) && String.eqb (user_id o) (asset_ownerId a) &&
            String.eqb (user_id o) (share_ownerId s) && negb (user_deleted o) && String.eqb (sharedWithId s) userId &&
            negb (bool_decide (visibility a = Visibility.Hidden)) && negb (isLocked db (asset_id a)) && withHiddenContentFilter db p a)
      [(a, m)].
(** The owners' rules are read afterwards, over the rows of that moment. *)
Definition asset_checkItemShareAccess (later : Library) (userId : string) (ids : gset string) (p : AccessPrivacy) : gset string :=
  let rows := List.filter (fun r => among ids (asset_id r.1) || match livePhotoVideoId r.1 with Some m => among ids m | None => false end)
                (shared_rows userId p) in
  let hidden := getOwnerHiddenShareIds later (flat_map (fun r => asset_id r.1 :: option_list r.2) rows) in
  answer ids (r ← rows;
    where_ (negb (includes (asset_id r.1) hidden))
      (where_ (among ids (asset_id r.1)) [asset_id r.1] ++
       match r.2 with
       | Some m => where_ (among ids m && negb (motion_hidden p m) && negb (includes m hidden)) [m]
       | None => []
       end)).

(** An item of a shared link: live, not locked, and matching no Locked rule of its owner. *)
Definition link_item (i : string) : list AssetRow :=
  live (fun a => is_id i a && negb (isLocked db (asset_id a)) && negb (hiddenByOwnerRules db a)).
Definition link_grants (p : AccessPrivacy) (ids : gset string) (a : option AssetRow) : list string :=
  match a with Some a => grants p ids (asset_id a) (livePhotoVideoId a) | None => [] end.
Definition asset_checkSharedLinkAccess (sharedLinkId : string) (ids : gset string) (p : AccessPrivacy) : gset string :=
  answer ids (
    l ← List.filter (fun l => String.eqb l.1 sharedLinkId) (shared_link db);
    b ← left_join (List.filter (fun b => opt_is l.2 (album_id b) && negb (album_deleted b)) (album db));
    la ← left_join (List.filter (fun la => String.eqb la.1 l.1) (shared_link_asset db));
    a ← left_join (match la with Some la => link_item la.2 | None => [] end);
    ba ← left_join (match b with Some b => List.filter (fun ba => String.eqb ba.1 (album_id b)) (album_asset db) | None => [] end);
    c ← left_join (match ba with Some ba => link_item ba.2 | None => [] end);
    where_ (keeps p a && keeps p c) (link_grants p ids a ++ link_grants p ids c)).

(** [AssetFileAccess]. *)
Definition assetFile_checkOwnerAccess (userId : string) (ids : gset string) (hasElevatedPermission : bool) (p : AccessPrivacy) : gset string :=
  answer ids (f ← asset_file db; a ← asset db;
    where_ (is_id f.2 a && (hasElevatedPermission || (negb (isLocked db (asset_id a)) && negb (isMotionOfLockedStill db a))) &&
            String.eqb (asset_ownerId a) userId && among ids f.1 && withHiddenContentFilter db p a) [f.1]).

(** [DuplicateAccess]. *)
Definition duplicate_rows (userId : string) (ids : gset string) (p : AccessPrivacy) : list string :=
  omap duplicateId (live (fun a =>
    match duplicateId a with Some d => among ids d | None => false end && String.eqb (asset_ownerId a) userId &&
    match getHiddenContentFilter p with Some _ => isDefaultVisible db a && bool_decide (stackId a = None) | None => true end &&
    withHiddenContentFilter db p a)).
Definition duplicate_checkOwnerAccess (userId : string) (ids : gset string) (p : AccessPrivacy) : gset string :=
  let l := duplicate_rows userId ids p in
  answer ids (match getHiddenContentFilter p with
              | Some _ => List.filter (fun d => (1 <? length (List.filter (String.eqb d) l))%nat) l
              | None => l
              end).

(** [StackAccess]. *)
Definition stack_checkOwnerAccess (userId : string) (ids : gset string) (p : AccessPrivacy) : gset string :=
  answer ids (s ← stack db;
    where_ (among ids s.1.1 && String.eqb s.1.2 userId &&
            match getHiddenContentFilter p with
            | Some _ => existsb (withHiddenContentFilter db p) (live (is_id s.2))
            | None => true
            end) [s.1.1]).

(** [MemoryAccess]. *)
Definition memory_items (m : string) : list AssetRow := ma ← memory_asset db; where_ (String.eqb ma.1 m) (List.filter (is_id ma.2) (asset db)).
Definition memory_checkOwnerAccess (userId : string) (ids : gset string) (p : AccessPrivacy) (revealLockedOwnerId : option string) : gset string :=
  answer ids (m ← memory db;
    where_ (among ids m.1.1 && String.eqb m.1.2 userId && negb m.2 && memoryHasNoHiddenItem db m.1.1 p revealLockedOwnerId &&
            match getHiddenContentFilter p with
            | Some _ => negb (existsb (fun ma => String.eqb ma.1 m.1.1) (memory_asset db)) ||
                        existsb (fun a => isTimelineVisible db revealLockedOwnerId a && negb (asset_deleted a) && withHiddenContentFilter db p a)
                          (memory_items m.1.1)
            | None => true
            end) [m.1.1]).

(** [PersonAccess]. *)
Definition person_shown (g : string) : list AssetRow :=
  f ← asset_face db;
  where_ (opt_is (personGroupId f) g && negb (face_deleted f) && face_isVisible f)
    (live (fun a => is_id (face_assetId f) a && isTimelineVisible db None a)).
Definition suppressedPeople (p : AccessPrivacy) : list string := match p with Filtered f => personIds (suppressed f) | _ => [] end.
Definition person_checkOwnerAccess (userId : string) (ids : gset string) (p : AccessPrivacy) : gset string :=
  answer ids (g ← person db;
    where_ (among ids g.1 && String.eqb g.2 userId && negb (includes g.1 (suppressedPeople p)) &&
            match getHiddenContentFilter p with
            | Some _ => (length (person_shown g.1) =? 0)%nat || existsb (withHiddenContentFilter db p) (person_shown g.1)
            | None => true
            end) [g.1]).
Definition person_checkFaceOwnerAccess (userId : string) (ids : gset string) (p : AccessPrivacy) (hasElevatedPermission : bool) : gset string :=
  answer ids (f ← asset_face db; a ← live (is_id (face_assetId f));
    where_ (among ids (face_id f) && String.eqb (asset_ownerId a) userId && (hasElevatedPermission || negb (isLocked db (asset_id a))) &&
            withHiddenContentFilter db p a) [face_id f]).

(** [TagAccess]. *)
Definition suppressedTags (p : AccessPrivacy) : list string := match p with Filtered f => tagIds (suppressed f) | _ => [] end.
Definition tag_checkOwnerAccess (userId : string) (ids : gset string) (p : AccessPrivacy) (hideLocked : bool) : gset string :=
  answer ids (t ← tag db;
    where_ (among ids t.1 && String.eqb t.2 userId && negb (tagIsSuppressed db t.1 (suppressedTags p)) &&
            tagHasVisibleAssetOrNoAssets db t.1 (getHiddenContentFilter p) hideLocked) [t.1]).

(** [ClusterGroupAccess]. *)
Definition clusterGroup_checkInviteAccess (userId : string) (ids : gset string) : gset string :=
  answer ids (r ← cluster_group_request db; where_ (among ids (cgr_groupId r) && String.eqb (cgr_userId r) userId) [cgr_groupId r]).
Definition clusterGroup_checkOwnerAccess (userId : string) (ids : gset string) : gset string :=
  answer ids (u ← user db; where_ (among ids (clusterGroupId u) && String.eqb (user_id u) userId) [clusterGroupId u]).

(** [ClusterGroupRequestAccess]. *)
Definition clusterGroupRequest_checkOwnerAccess (userId : string) (ids : gset string) : gset string :=
  answer ids (r ← cluster_group_request db; where_ (among ids (cgr_id r) && String.eqb (cgr_userId r) userId) [cgr_id r]).
Definition clusterGroupRequest_checkGroupAccess (userId : string) (ids : gset string) : gset string :=
  answer ids (r ← cluster_group_request db;
    where_ (among ids (cgr_id r) && existsb (fun u => String.eqb (user_id u) userId && String.eqb (clusterGroupId u) (cgr_groupId r)) (user db))
      [cgr_id r]).

(** Sessions, which are also the devices, notifications, workflows and partners are plainly someone's. *)
Definition authDevice_checkOwnerAccess (userId : string) (ids : gset string) : gset string := answer ids (owned_by userId ids (session db)).
Definition notification_checkOwnerAccess (userId : string) (ids : gset string) : gset string := answer ids (owned_by userId ids (notification db)).
Definition session_checkOwnerAccess (userId : string) (ids : gset string) : gset string := answer ids (owned_by userId ids (session db)).
Definition workflow_checkOwnerAccess (userId : string) (ids : gset string) : gset string := answer ids (owned_by userId ids (workflow db)).
(** Of pairs of who shares and who is shared with. *)
Definition partner_checkUpdateAccess (userId : string) (ids : gset string) : gset string := answer ids (owned_by userId ids (partner db)).
End queries.
