(* ===== verification/Access.v ===== *)
(** * Access: who may reach what ([server/src/utils/access.ts])

    A request names a permission and ids; the answer is the ids it may reach.  Each of the checks of one
    request reads the rows of its own moment: [db n] are those the [n]-th statement sees. *)

From stdpp Require Import gmap.
From S2P Require Import Prelude JsNumber JsString Enums AccessRows AccessQueries.
Import Perm.

(** ** API keys *)

Definition isGranted (requested current : list Permission) : bool :=
  if includes All current then true else forallb (fun p => includes p current) requested.

(** ** Who asks *)

Record AuthSharedLink := mkLink { link_id : string; allowUpload : bool; allowDownload : bool }.
Record AuthDto := mkAuth {
  auth_userId : string;
  uploadsPaused : bool;
  sharedLink : option AuthSharedLink;
  (** [session?.hasElevatedPermission]. *)
  hasElevatedPermission : bool;
  hideNsfwAssets : bool;
  hiddenContent : option HiddenContentFilter
}.
Record AccessRequest := mkRequest {
  auth : AuthDto;
  permission : Permission;
  request_ids : list string;
  ignorePrivacy : bool
}.

Definition accessPrivacy (a : AuthDto) : AccessPrivacy :=
  match hiddenContent a with Some f => Filtered f | None => if hideNsfwAssets a then NsfwOnly else NoPrivacy end.
(** The one viewer whose own locked media a read may include. *)
Definition getLockedOwnerId (a : AuthDto) : option string :=
  match sharedLink a with
  | Some _ => None
  | None => if hasElevatedPermission a then Some (auth_userId a) else None
  end.

(** ** Uploads *)

Inductive AccessError := Unauthorized | Forbidden | BadRequest (p : Permission) | NotFound (entity : string).

Definition requireUploadAccess (a : option AuthDto) : AuthDto + AccessError :=
  match a with
  | Some a => match sharedLink a with
              | Some l => if allowUpload l then inl a else inr Unauthorized
              | None => inl a
              end
  | None => inr Unauthorized
  end.
Definition requireUploadsNotPaused (a : AuthDto) : unit + AccessError := if uploadsPaused a then inr Forbidden else inl tt.
Definition requireElevatedPermission (a : AuthDto) : unit + AccessError :=
  if hasElevatedPermission a then inl tt else inr Unauthorized.

(** ** The checks *)

Section checks.
Context (db : nat -> Library).

Definition checkSharedLinkAccess (l : AuthSharedLink) (p : AccessPrivacy) (perm : Permission) (ids : gset string) : gset string :=
  match perm with
  | AssetRead | AssetView => asset_checkSharedLinkAccess (db 0) (link_id l) ids p
  | AssetDownload => if allowDownload l then asset_checkSharedLinkAccess (db 0) (link_id l) ids p else ∅
  | AssetUpload => if allowUpload l then ids else ∅
  | AlbumRead => album_checkSharedLinkAccess (db 0) (link_id l) ids
  | AlbumDownload => if allowDownload l then album_checkSharedLinkAccess (db 0) (link_id l) ids else ∅
  | AlbumAssetCreate => if allowUpload l then album_checkSharedLinkAccess (db 0) (link_id l) ids else ∅
  | _ => ∅
  end.

(** The user's own id, when it is asked for. *)
Definition itself (a : AuthDto) (ids : gset string) : gset string := if decide (auth_userId a ∈ ids) then {[auth_userId a]} else ∅.

(** An item of their own, in an album they are in, or shared with them. *)
Definition check_reachable (a : AuthDto) (ids : gset string) : gset string :=
  let isOwner := asset_checkOwnerAccess (db 0) (auth_userId a) ids (hasElevatedPermission a) (accessPrivacy a) in
  let isAlbum := asset_checkAlbumAccess (db 1) (auth_userId a) (ids ∖ isOwner) (accessPrivacy a) in
  let isShared := asset_checkItemShareAccess (db 2) (db 3) (auth_userId a) (ids ∖ isOwner ∖ isAlbum) (accessPrivacy a) in
  isOwner ∪ isAlbum ∪ isShared.
Definition check_album (a : AuthDto) (ids : gset string) (role : Role.AlbumUserRole) : gset string :=
  let isOwner := album_checkOwnerAccess (db 0) (auth_userId a) ids in
  let isShared := album_checkSharedAlbumAccess (db 1) (auth_userId a) (ids ∖ isOwner) role in
  isOwner ∪ isShared.

Definition checkOtherAccess (a : AuthDto) (perm : Permission) (ids : gset string) : gset string :=
  let u := auth_userId a in
  let p := accessPrivacy a in
  match perm with
  | ActivityCreate => activity_checkCreateAccess (db 0) u ids
  | ActivityDelete =>
      let isOwner := activity_checkOwnerAccess (db 0) u ids p in
      isOwner ∪ activity_checkAlbumOwnerAccess (db 1) u (ids ∖ isOwner) p
  | AssetRead | AssetView | AssetDownload => check_reachable a ids
  | AssetShare | AssetUpdate | AssetDelete | AssetCopy | AssetEditGet | AssetEditCreate | AssetEditDelete =>
      asset_checkOwnerAccess (db 0) u ids (hasElevatedPermission a) p
  | AssetFileDownload | AssetFileRead | AssetFileDelete => assetFile_checkOwnerAccess (db 0) u ids (hasElevatedPermission a) p
  | AlbumRead | AlbumDownload => check_album a ids Role.Viewer
  | AlbumAssetCreate | AlbumUpdate | AlbumShare | AlbumAssetDelete => check_album a ids Role.Editor
  | AlbumDelete => album_checkOwnerAccess (db 0) u ids
  | AssetUpload | ArchiveRead | TimelineRead | TimelineDownload => itself a ids
  | DuplicateRead | DuplicateDelete => duplicate_checkOwnerAccess (db 0) u ids p
  | AuthDeviceDelete => authDevice_checkOwnerAccess (db 0) u ids
  | FaceUpdate | FaceDelete | PersonCreate | PersonReassign => person_checkFaceOwnerAccess (db 0) u ids p (hasElevatedPermission a)
  | NotificationRead | NotificationUpdate | NotificationDelete => notification_checkOwnerAccess (db 0) u ids
  | TagAsset => tag_checkOwnerAccess (db 0) u ids NoPrivacy false
  | TagRead | TagUpdate | TagDelete => tag_checkOwnerAccess (db 0) u ids p (bool_decide (getLockedOwnerId a = None))
  | MemoryRead | MemoryUpdate | MemoryDelete => memory_checkOwnerAccess (db 0) u ids p (getLockedOwnerId a)
  | PersonRead | PersonUpdate | PersonDelete | PersonMerge => person_checkOwnerAccess (db 0) u ids p
  | ClusterGroupRead =>
      let isMember := clusterGroup_checkOwnerAccess (db 0) u ids in
      isMember ∪ clusterGroup_checkInviteAccess (db 1) u (ids ∖ isMember)
  | ClusterGroupLeave | ClusterGroupRequestCreate => clusterGroup_checkOwnerAccess (db 0) u ids
  | ClusterGroupRequestDelete =>
      clusterGroupRequest_checkOwnerAccess (db 0) u ids ∪ clusterGroupRequest_checkGroupAccess (db 1) u ids
  | ClusterGroupRequestRead => clusterGroupRequest_checkOwnerAccess (db 0) u ids
  | PartnerUpdate => partner_checkUpdateAccess (db 0) u ids
  | SessionRead | SessionUpdate | SessionDelete | SessionLock => session_checkOwnerAccess (db 0) u ids
  | StackRead | StackUpdate | StackDelete => stack_checkOwnerAccess (db 0) u ids p
  | WorkflowRead | WorkflowUpdate | WorkflowDelete | WorkflowLogs => workflow_checkOwnerAccess (db 0) u ids
  | _ => ∅
  end.

Definition effectiveAuth (r : AccessRequest) : AuthDto :=
  let a := auth r in
  if ignorePrivacy r then mkAuth (auth_userId a) (uploadsPaused a) (sharedLink a) (hasElevatedPermission a) false None else a.
Definition checkAccess (r : AccessRequest) : gset string :=
  let ids := list_to_set (request_ids r) in
  if decide (ids = ∅) then ∅
  else match sharedLink (effectiveAuth r) with
       | Some l => checkSharedLinkAccess l (accessPrivacy (effectiveAuth r)) (permission r) ids
       | None => checkOtherAccess (effectiveAuth r) (permission r) ids
       end.

(** Every requested id, and no other, is allowed. *)
Definition all_allowed (r : AccessRequest) : bool :=
  let allowedIds := checkAccess r in
  let requestedIds : gset string := list_to_set (request_ids r) in
  negb (negb (size requestedIds =? size allowedIds)%nat || negb (bool_decide (allowedIds ⊆ requestedIds))).
Definition requireAccess (r : AccessRequest) : unit + AccessError :=
  if all_allowed r then inl tt else inr (BadRequest (permission r)).
Definition requireEntityAccess (r : AccessRequest) (entity : string) : unit + AccessError :=
  if all_allowed r then inl tt else inr (NotFound entity).
End checks.
