(* ===== verification/AccessPolicy.v ===== *)
(** * Access: the policy

    What the checks promise, said of the rows and without their order: whose an item is, the albums it is in,
    with whom it was shared, what a link reaches; and that each check answers exactly that. *)

From stdpp Require Import gmap.
From S2P Require Import Prelude JsNumber JsString Enums AccessRows AccessQueries Access.
Import Perm.

(** ** The grounds *)

(** An item, or its motion part when that is not hidden from the session. *)
Definition carries (db : Library) (p : AccessPrivacy) (a : AssetRow) (x : string) : Prop :=
  x = asset_id a \/ (livePhotoVideoId a = Some x /\ motion_hidden db p x = false).

(** One of [u]'s own; from an ordinary session, neither locked nor the motion part of a locked still. *)
Record own (db : Library) (u : string) (elevated : bool) (p : AccessPrivacy) (x : string) (a : AssetRow) : Prop := mkOwn {
  own_row : a ∈ asset db;
  own_id : asset_id a = x;
  own_owner : asset_ownerId a = u;
  own_unlocked : elevated = false -> isLocked db x = false /\ isMotionOfLockedStill db a = false;
  own_shown : withHiddenContentFilter db p a = true
}.

(** In a live album [u] is a member of. *)
Record in_album (db : Library) (u : string) (p : AccessPrivacy) (x : string) (a : AssetRow) : Prop := mkInAlbum {
  ia_row : a ∈ asset db;
  ia_album : exists b au w, b ∈ album db /\ album_deleted b = false /\ (album_id b, asset_id a) ∈ album_asset db /\
    au ∈ album_user db /\ au_albumId au = album_id b /\ au_userId au = u /\ w ∈ user db /\ user_id w = u /\ user_deleted w = false;
  ia_live : asset_deleted a = false;
  ia_unlocked : isLocked db (asset_id a) = false;
  ia_rules : asset_ownerId a = u \/ hiddenByOwnerRules db a = false;
  ia_shown : withHiddenContentFilter db p a = true;
  ia_carries : carries db p a x
}.

(** What the owner's Locked rules hide, as they are read afterwards. *)
Definition rules_hide (later : Library) (x : string) : Prop :=
  exists a, a ∈ asset later /\ asset_id a = x /\ hiddenByOwnerRules later a = true.

(** Shared with [u] by its owner, one by one. *)
Record shared_item (db later : Library) (u : string) (p : AccessPrivacy) (x : string) (a : AssetRow) : Prop := mkSharedItem {
  si_row : a ∈ asset db;
  si_share : mkItemShare (asset_id a) (asset_ownerId a) u ∈ asset_user_share db;
  si_owner : exists o, o ∈ user db /\ user_id o = asset_ownerId a /\ user_deleted o = false;
  si_live : asset_deleted a = false;
  si_visible : visibility a <> Visibility.Hidden;
  si_unlocked : isLocked db (asset_id a) = false;
  si_shown : withHiddenContentFilter db p a = true;
  si_rules : ~ rules_hide later (asset_id a);
  si_carries : x = asset_id a \/
    (livePhotoVideoId a = Some x /\ motion_hidden db p x = false /\ ~ rules_hide later x /\ isLocked db x = false /\
     exists m, m ∈ asset db /\ asset_id m = x /\ asset_deleted m = false /\ asset_ownerId m = asset_ownerId a)
}.

(** ** Lemmas on rows *)

Lemma elem_of_where {A} (b : bool) (l : list A) x : x ∈ where_ b l <-> b = true /\ x ∈ l.
Proof. destruct b; cbn; [tauto|]. split; [by intros ?%elem_of_nil|by intros [? _]]. Qed.
Lemma elem_of_answer ids rows x : (forall y, y ∈ rows -> y ∈ ids) -> x ∈ answer ids rows <-> x ∈ rows.
Proof.
  intros Hin. unfold answer. destruct (decide (ids = ∅)) as [->|_]; [|apply elem_of_list_to_set].
  split; [by intros ?%elem_of_empty|by intros ?%Hin%elem_of_empty].
Qed.
Lemma among_true ids x : among ids x = true <-> x ∈ ids.
Proof. apply bool_decide_eq_true. Qed.
Lemma eqb_true a b : String.eqb a b = true <-> a = b.
Proof. apply String.eqb_eq. Qed.
Lemma opt_is_true o x : opt_is o x = true <-> o = Some x.
Proof. apply bool_decide_eq_true. Qed.
Lemma elem_of_live db p a : a ∈ live db p <-> a ∈ asset db /\ asset_deleted a = false /\ p a = true.
Proof. unfold live. rewrite elem_of_filter_b, andb_true_iff, negb_true_iff. tauto. Qed.
Lemma elem_of_left_join {A} (l : list A) (o : option A) : o ∈ left_join l <-> match o with Some x => x ∈ l | None => l = [] end.
Proof.
  unfold left_join. destruct l as [|y l].
  - rewrite list_elem_of_singleton. destruct o as [x|]; split; [done| |done|done]. by intros ?%elem_of_nil.
  - rewrite list_elem_of_fmap. destruct o as [x|]; split.
    + by intros (z & [= ->] & Hz).
    + intros Hx. by exists x.
    + by intros (z & [=] & _).
    + done.
Qed.
Lemma elem_of_from {A B} (l : list A) (f : A -> list B) x : x ∈ (a ← l; f a) <-> exists a, a ∈ l /\ x ∈ f a.
Proof. rewrite list_elem_of_bind. firstorder. Qed.

Create Rewrite HintDb access.
#[export] Hint Rewrite @elem_of_where @elem_of_from among_true eqb_true opt_is_true elem_of_live @elem_of_left_join andb_true_iff
  orb_true_iff negb_true_iff @elem_of_app @list_elem_of_singleton @elem_of_filter_b bool_decide_eq_true bool_decide_eq_false String.eqb_neq : access.
Ltac rows := autorewrite with access in *.

Lemma elem_of_grants db p ids i motion x :
  x ∈ grants db p ids i motion <-> x ∈ ids /\ (x = i \/ (motion = Some x /\ motion_hidden db p x = false)).
Proof.
  unfold grants. rows. split.
  - intros [[? ->]|H]; [auto|]. destruct motion as [m|]; [|by apply elem_of_nil in H]. rows. destruct H as [[? ?] ->]. auto.
  - intros [? [->|[-> ?]]]; [by left|right]. rows. auto.
Qed.

(** ** The checks of items *)

Lemma owner_exact db u ids e p x : x ∈ asset_checkOwnerAccess db u ids e p <-> x ∈ ids /\ exists a, own db u e p x a.
Proof.
  unfold asset_checkOwnerAccess. rewrite elem_of_answer.
  2: { intros y (a & -> & H)%list_elem_of_fmap. rows. tauto. }
  rewrite list_elem_of_fmap. split.
  - intros (a & -> & H). rows. destruct H as [Ha (((Hi & Ho) & Hl) & Hf)]. split; [done|]. exists a. split; [done|done|done| |done].
    intros ->. destruct Hl as [[=]|[? ?]]. done.
  - intros (Hi & a & [Ha <- <- Hl Hf]). exists a. split; [done|]. rows. repeat split; try done.
    destruct e; [by left|right]. by apply Hl.
Qed.

Lemma album_exact db u ids p x : x ∈ asset_checkAlbumAccess db u ids p <-> x ∈ ids /\ exists a, in_album db u p x a.
Proof.
  unfold asset_checkAlbumAccess. rewrite elem_of_answer.
  2: { intros y H. rows. destruct H as (b & _ & H). rows. destruct H as (aa & _ & H). rows. destruct H as (a & _ & H). rows.
       destruct H as (au & _ & H). rows. destruct H as (w & _ & H). rows. destruct H as [_ H]. by apply elem_of_grants in H as [? _]. }
  split.
  - intros H. rows. destruct H as (b & Hb & H). rows. destruct H as ([baid aaid] & Haa & H). rows. destruct H as (a & Ha & H). rows.
    destruct H as (au & Hau & H). rows. destruct H as (w & Hw & H). rows. destruct H as [Hc Hg]. apply elem_of_grants in Hg as [Hi Hg].
    unfold is_id, hiddenFromOthers in Hc. rows. cbn in Hc. split; [done|]. exists a.
    destruct Hc as [[[[[[[[[[E1 E2] Hd] E3] E4] Hud] E5] Hbd] Hl] Hr] Hf]. subst baid aaid.
    split; [done| |done|done| |done|done].
    + exists b, au, w. repeat split; try done; congruence.
    + apply andb_false_iff in Hr as [Hr|Hr]; [left|by right]. apply negb_false_iff in Hr. by apply String.eqb_eq.
  - intros (Hi & a & [Ha (b & au & w & Hb & Hbd & Haa & Hau & E1 & E2 & Hw & E3 & Hwd) Hd Hl Hr Hf Hc]). rows.
    exists b. split; [done|]. rows. exists (album_id b, asset_id a). split; [done|]. rows. exists a. split; [done|]. rows.
    exists au. split; [done|]. rows. exists w. split; [done|]. rows. split; [|by apply elem_of_grants].
    unfold is_id, hiddenFromOthers. rows. cbn. repeat split; try done; try congruence.
    destruct Hr as [->| ->]; [by rewrite String.eqb_refl|apply andb_false_r].
Qed.

Lemma rules_hide_exact later ids x : x ∈ ids -> includes x (getOwnerHiddenShareIds later ids) = true <-> rules_hide later x.
Proof.
  intros Hx. rewrite includes_true. unfold getOwnerHiddenShareIds, rules_hide. rewrite list_elem_of_fmap. split.
  - intros (a & -> & H). rows. exists a. tauto.
  - intros (a & Ha & <- & Hh). exists a. split; [done|]. rows. rewrite includes_true. auto.
Qed.
Lemma rules_hide_not later ids x : x ∈ ids -> includes x (getOwnerHiddenShareIds later ids) = false <-> ~ rules_hide later x.
Proof. intros Hx. rewrite <- (rules_hide_exact later ids x Hx). by rewrite not_true_iff_false. Qed.

Lemma shared_motion_exact db a o : o ∈ shared_motion db a ->
  match o with
  | Some m => livePhotoVideoId a = Some m /\ isLocked db m = false /\
      exists r, r ∈ asset db /\ asset_id r = m /\ asset_deleted r = false /\ asset_ownerId r = asset_ownerId a
  | None => True
  end.
Proof.
  unfold shared_motion. rewrite elem_of_left_join. destruct o as [m|]; [|done].
  intros (r & -> & H)%list_elem_of_fmap. rows. destruct H as (Hr & Hd & ((Hm & Ho) & Hl)). repeat split; try done. by exists r.
Qed.
Lemma shared_motion_some db a m : livePhotoVideoId a = Some m -> isLocked db m = false ->
  (exists r, r ∈ asset db /\ asset_id r = m /\ asset_deleted r = false /\ asset_ownerId r = asset_ownerId a) -> Some m ∈ shared_motion db a.
Proof.
  intros Hm Hl (r & Hr & <- & Hd & Ho). unfold shared_motion. rewrite elem_of_left_join, list_elem_of_fmap. exists r. split; [done|]. by rows.
Qed.
Lemma shared_motion_any db a : exists o, o ∈ shared_motion db a.
Proof. unfold shared_motion, left_join. destruct (asset_id <$> _) as [|m l]; [exists None|exists (Some m)]; cbn; set_solver. Qed.

(** A row of the shares of [u]. *)
Lemma shared_rows_exact db u p a m : (a, m) ∈ shared_rows db u p <->
  a ∈ asset db /\ m ∈ shared_motion db a /\ mkItemShare (asset_id a) (asset_ownerId a) u ∈ asset_user_share db /\
  (exists o, o ∈ user db /\ user_id o = asset_ownerId a /\ user_deleted o = false) /\ asset_deleted a = false /\
  visibility a <> Visibility.Hidden /\ isLocked db (asset_id a) = false /\ withHiddenContentFilter db p a = true.
Proof.
  unfold shared_rows. split.
  - intros H. rows. destruct H as ([sa so sw] & Hs & H). rows. destruct H as (a' & Ha & H). rows. destruct H as (o & Ho & H). rows.
    destruct H as (m' & Hm & H). rows. destruct H as [Hc [= -> ->]]. unfold is_id in Hc. rows. cbn in Hc.
    destruct Hc as [[[[[[[[E1 Hd] E2] E3] Hud] E4] Hv] Hl] Hf]. subst sa sw. assert (so = asset_ownerId a') as -> by congruence.
    split; [done|]. split; [done|]. split; [done|]. split; [by exists o|]. done.
  - intros (Ha & Hm & Hs & (o & Ho & E & Hd) & Hd2 & Hv & Hl & Hf). rows. eexists. split; [exact Hs|]. rows. exists a. split; [done|]. rows.
    exists o. split; [done|]. rows. exists m. split; [done|]. unfold is_id. rows. cbn. repeat split; try done; congruence.
Qed.

Lemma share_exact db later u ids p x :
  x ∈ asset_checkItemShareAccess db later u ids p <-> x ∈ ids /\ exists a, shared_item db later u p x a.
Proof.
  unfold asset_checkItemShareAccess. set (l := List.filter _ (shared_rows db u p)). set (named := flat_map _ l).
  assert (forall a m, (a, m) ∈ l <-> (a, m) ∈ shared_rows db u p /\ (asset_id a ∈ ids \/ exists m', livePhotoVideoId a = Some m' /\ m' ∈ ids)) as Hl.
  { intros a m. unfold l. rewrite elem_of_filter_b, orb_true_iff, among_true. cbn. destruct (livePhotoVideoId a) as [m'|].
    - rewrite among_true. split; intros [? [?|H]]; (split; [done|]); [by left|right; by exists m'|by left|right].
      destruct H as (? & [= <-] & ?). done.
    - split; intros [? [?|H]]; (split; [done|]); [by left|done|by left|by destruct H as (? & [=] & _)]. }
  assert (forall a m, (a, m) ∈ l -> asset_id a ∈ named /\ forall m', m = Some m' -> m' ∈ named) as Hn.
  { intros a m Hin. unfold named. rewrite elem_of_flat_map. split; [exists (a, m); split; [done|left]|].
    intros m' ->. rewrite elem_of_flat_map. exists (a, Some m'). split; [done|]. right. left. }
  rewrite elem_of_answer.
  2: { intros y H. rows. destruct H as ([a m] & _ & H). rows. destruct H as [_ [[? ->]|H]]; [done|]. destruct m as [m|]; cbn [snd] in H; [|by apply elem_of_nil in H].
       rows. by destruct H as [[[? _] _] ->]. }
  split.
  - intros H. rows. destruct H as ([a m] & Hin & H). rows. cbn [fst snd] in H. destruct H as [Hh H]. destruct (Hn _ _ Hin) as [Hna Hnm].
    apply rules_hide_not in Hh; [|done]. apply Hl in Hin as [Hin _]. apply shared_rows_exact in Hin as (Ha & Hm & Hs & Ho & Hd & Hv & Hlk & Hf).
    destruct H as [[Hi ->]|H]; [split; [done|]; exists a; split; try done; by left|].
    destruct m as [m|]; [|by apply elem_of_nil in H]. rows. destruct H as [[[Hi Hmh] Hr] ->]. apply rules_hide_not in Hr; [|by apply Hnm].
    split; [done|]. exists a. apply shared_motion_exact in Hm as (Hm & Hml & Hrow). split; try done. right. auto.
  - intros (Hi & a & [Ha Hs Ho Hd Hv Hlk Hf Hr Hc]). rows.
    assert (exists m, m ∈ shared_motion db a /\ (x = asset_id a \/ m = Some x /\ livePhotoVideoId a = Some x /\ motion_hidden db p x = false /\ ~ rules_hide later x)) as (m & Hm & Hx).
    { destruct Hc as [->|(Hm & Hmh & Hmr & Hml & Hrow)].
      - destruct (shared_motion_any db a) as [o Hin]. exists o. auto.
      - exists (Some x). split; [by apply shared_motion_some|]. auto. }
    assert ((a, m) ∈ l) as Hin.
    { apply Hl. split; [apply shared_rows_exact; tauto|]. destruct Hx as [->|(_ & Hx & _)]; [by left|right; by exists x]. }
    destruct (Hn _ _ Hin) as [Hna Hnm]. exists (a, m). split; [done|]. rows. cbn. split; [by apply rules_hide_not|].
    destruct Hx as [->|(-> & _ & Hmh & Hmr)]; [left; by rows|right]. rows. split; [|done]. split; [done|]. apply rules_hide_not; [by apply Hnm|done].
Qed.

(** What a shared link reaches: an item it names, or one of its album, live, unlocked and under no Locked rule. *)
Record link_item_of (db : Library) (lid : string) (p : AccessPrivacy) (x : string) (a : AssetRow) : Prop := mkLinkItem {
  li_row : a ∈ asset db;
  li_named : exists l, l ∈ shared_link db /\ l.1 = lid /\
    ((lid, asset_id a) ∈ shared_link_asset db \/
     exists b, b ∈ album db /\ l.2 = Some (album_id b) /\ album_deleted b = false /\ (album_id b, asset_id a) ∈ album_asset db);
  li_live : asset_deleted a = false;
  li_unlocked : isLocked db (asset_id a) = false;
  li_rules : hiddenByOwnerRules db a = false;
  li_shown : withHiddenContentFilter db p a = true;
  li_carries : carries db p a x
}.

Lemma link_item_exact db i a : a ∈ link_item db i <->
  a ∈ asset db /\ asset_id a = i /\ asset_deleted a = false /\ isLocked db i = false /\ hiddenByOwnerRules db a = false.
Proof.
  unfold link_item, is_id. rewrite elem_of_live, !andb_true_iff, !negb_true_iff, eqb_true. split.
  - by intros (? & ? & [[<- ?] ?]).
  - by intros (? & <- & ? & ? & ?).
Qed.

Lemma link_sound db lid ids p x : x ∈ asset_checkSharedLinkAccess db lid ids p -> x ∈ ids /\ exists a, link_item_of db lid p x a.
Proof.
  assert (forall o, x ∈ link_grants db p ids o -> exists a, o = Some a /\ x ∈ ids /\ carries db p a x) as Hg.
  { intros [a|] H; [|by apply elem_of_nil in H]. apply elem_of_grants in H as [? ?]. by exists a. }
  unfold asset_checkSharedLinkAccess, answer. destruct (decide (ids = ∅)); [by intros ?%elem_of_empty|]. rewrite elem_of_list_to_set.
  intros H. rows. destruct H as (l & Hl & H). rows. destruct H as (b & Hb & H). rows. destruct H as (la & Hla & H). rows.
  destruct H as (a & Ha & H). rows. destruct H as (ba & Hba & H). rows. destruct H as (c & Hc & H). rows.
  destruct Hl as [Hl El]. destruct H as [[Ka Kc] H]. apply String.eqb_eq in El.
  destruct H as [H|H]; apply Hg in H as (r & -> & Hi & Hcar); (split; [done|]); exists r.
  - destruct la as [la|]; [|by apply elem_of_nil in Ha]. apply link_item_exact in Ha as (Hr & E & Hd & Hlk & Hru).
    rows. destruct Hla as [Hla Ela]. rewrite <- E in Hlk. split; try done. exists l. split; [done|]. split; [done|]. left. destruct la. cbn in *. congruence.
  - destruct ba as [ba|]; [|by apply elem_of_nil in Hc]. apply link_item_exact in Hc as (Hr & E & Hd & Hlk & Hru).
    destruct b as [b|]; [|by apply elem_of_nil in Hba]. rows. destruct Hb as [Hb [Elb Hbd]]. destruct Hba as [Hba Eba].
    rewrite <- E in Hlk. split; try done. exists l. split; [done|]. split; [done|]. right. exists b. split; [done|]. split; [done|]. split; [done|].
    destruct ba. cbn in *. congruence.
Qed.

(** ** What someone has an item for *)

Inductive ground (db : nat -> Library) (a : AuthDto) (x : string) : Prop :=
| ByOwner (row : AssetRow) (H : own (db 0%nat) (auth_userId a) (hasElevatedPermission a) (accessPrivacy a) x row)
| ByAlbum (row : AssetRow) (H : in_album (db 1%nat) (auth_userId a) (accessPrivacy a) x row)
| ByShare (row : AssetRow) (H : shared_item (db 2%nat) (db 3%nat) (auth_userId a) (accessPrivacy a) x row).

Lemma reachable_exact db a ids x : x ∈ check_reachable db a ids <-> x ∈ ids /\ ground db a x.
Proof.
  unfold check_reachable. rewrite !elem_of_union, !owner_exact, !album_exact, share_exact. split.
  - intros [[[Hi [r H]]|[Hi [r H]]]|[Hi [r H]]].
    + split; [done|]. exact (ByOwner _ _ _ r H).
    + split; [set_solver|]. exact (ByAlbum _ _ _ r H).
    + split; [set_solver|]. exact (ByShare _ _ _ r H).
  - intros [Hi Hg].
    destruct (decide (x ∈ asset_checkOwnerAccess (db 0) (auth_userId a) ids (hasElevatedPermission a) (accessPrivacy a))) as [Ho|Ho].
    { left; left. by apply owner_exact in Ho. }
    destruct (decide (x ∈ asset_checkAlbumAccess (db 1) (auth_userId a) (ids ∖ asset_checkOwnerAccess (db 0) (auth_userId a) ids
      (hasElevatedPermission a) (accessPrivacy a)) (accessPrivacy a))) as [Hal|Hal].
    { left; right. by apply album_exact in Hal. }
    destruct Hg as [r H|r H|r H].
    + exfalso. apply Ho, owner_exact. split; [done|]. by exists r.
    + exfalso. apply Hal, album_exact. split; [set_solver|]. by exists r.
    + right. split; [set_solver|]. by exists r.
Qed.
