(* ===== verification/AccessPromises.v ===== *)
(** * Access: what the checks keep

    Locked media reaches nobody but its owner's unlocked session, and what an owner's Locked rules hide
    reaches nobody else; and a request passes exactly when there is a ground for each of its ids. *)

From stdpp Require Import gmap.
From S2P Require Import Prelude JsNumber JsString Enums AccessRows AccessQueries Access AccessPolicy.
Import Perm.

(** ** What a permission is about *)

Definition read_permissions : list Permission := [AssetRead; AssetView; AssetDownload].
Definition item_permissions : list Permission :=
  read_permissions ++ [AssetShare; AssetUpdate; AssetDelete; AssetCopy; AssetEditGet; AssetEditCreate; AssetEditDelete].
Definition file_permissions : list Permission := [AssetFileDownload; AssetFileRead; AssetFileDelete].
Definition face_permissions : list Permission := [FaceUpdate; FaceDelete; PersonCreate; PersonReassign].

(** The item an id of a request is of: the item itself, the one a derivative file is of, or the one a face is on. *)
Definition concerns (perm : Permission) (db : Library) (x i : string) : Prop :=
  (perm ∈ item_permissions /\ i = x) \/ (perm ∈ file_permissions /\ (x, i) ∈ asset_file db) \/
  (perm ∈ face_permissions /\ exists f, f ∈ asset_face db /\ face_id f = x /\ face_assetId f = i).

Definition owned (db : Library) (i u : string) : Prop := exists a, a ∈ asset db /\ asset_id a = i /\ asset_ownerId a = u.

(** Rows have ids of their own, and a live photo is one thing: its motion part has the owner of its still, and
    what locks or hides the part does so to the still. *)
Record whole_live_photos (db : Library) : Prop := mkWhole {
  whole_ids : NoDup (asset_id <$> asset db);
  whole_owner : forall s m, s ∈ asset db -> m ∈ asset db -> livePhotoVideoId s = Some (asset_id m) -> asset_ownerId m = asset_ownerId s;
  whole_lock : forall s m, s ∈ asset db -> livePhotoVideoId s = Some m -> isLocked db m = true -> isLocked db (asset_id s) = true;
  whole_rules : forall s m, s ∈ asset db -> m ∈ asset db -> livePhotoVideoId s = Some (asset_id m) ->
    hiddenByOwnerRules db m = true -> hiddenByOwnerRules db s = true
}.

(** The item [i] is kept from others as it should, at the moment of [db]. *)
Definition lock_kept (db : Library) (r : AccessRequest) (i : string) : Prop :=
  isLocked db i = true -> sharedLink (auth r) = None /\ hasElevatedPermission (auth r) = true /\ owned db i (auth_userId (auth r)).
Definition rules_kept (db : Library) (r : AccessRequest) (i : string) : Prop :=
  rules_hide db i -> sharedLink (auth r) = None /\ owned db i (auth_userId (auth r)).
Definition private (db : Library) (r : AccessRequest) (i : string) : Prop := lock_kept db r i /\ rules_kept db r i.

Lemma effective_user r : auth_userId (effectiveAuth r) = auth_userId (auth r).
Proof. unfold effectiveAuth. by destruct (ignorePrivacy r). Qed.
Lemma effective_link r : sharedLink (effectiveAuth r) = sharedLink (auth r).
Proof. unfold effectiveAuth. by destruct (ignorePrivacy r). Qed.
Lemma effective_elevated r : hasElevatedPermission (effectiveAuth r) = hasElevatedPermission (auth r).
Proof. unfold effectiveAuth. by destruct (ignorePrivacy r). Qed.

Lemma rules_of_row db a : NoDup (asset_id <$> asset db) -> a ∈ asset db -> rules_hide db (asset_id a) -> hiddenByOwnerRules db a = true.
Proof.
  intros Hn Ha (b & Hb & E & Hh). enough (b = a) as -> by done.
  clear Hh. induction (asset db) as [|c l IH]; [by apply elem_of_nil in Ha|]. cbn in Hn. apply NoDup_cons in Hn as [Hc Hn].
  apply elem_of_cons in Ha as [->|Ha]; apply elem_of_cons in Hb as [->|Hb]; [done| | |by apply IH].
  - exfalso. apply Hc, list_elem_of_fmap. by exists b.
  - exfalso. apply Hc, list_elem_of_fmap. by exists a.
Qed.

(** An unlocked, unhidden item and its motion part are nobody's secret. *)
Lemma carried_private db r p a x : whole_live_photos db -> a ∈ asset db -> isLocked db (asset_id a) = false ->
  hiddenByOwnerRules db a = false \/ (sharedLink (auth r) = None /\ asset_ownerId a = auth_userId (auth r)) ->
  carries db p a x -> private db r x.
Proof.
  intros Hw Ha Hl Hr Hc. split.
  - intros Hx. exfalso. destruct Hc as [->|[Hm _]]; [congruence|]. pose proof (whole_lock _ Hw a x Ha Hm Hx). congruence.
  - intros (m & Hm & <- & Hh). assert (sharedLink (auth r) = None /\ asset_ownerId a = auth_userId (auth r)) as [Hn Ho].
    { destruct Hr as [Hr|Hr]; [exfalso|done]. destruct Hc as [E|[Hp _]].
      - assert (rules_hide db (asset_id a)) as H by (exists m; auto). apply (rules_of_row db a (whole_ids _ Hw) Ha) in H. congruence.
      - pose proof (whole_rules _ Hw a m Ha Hm Hp Hh). congruence. }
    split; [done|]. destruct Hc as [E|[Hp _]]; [by exists a|]. exists m. split; [done|]. split; [done|]. by rewrite (whole_owner _ Hw a m Ha Hm Hp).
Qed.

(** One's own, from a session that may see it. *)
Lemma owned_private db r i a : a ∈ asset db -> asset_id a = i -> asset_ownerId a = auth_userId (auth r) -> sharedLink (auth r) = None ->
  (hasElevatedPermission (auth r) = false -> isLocked db i = false) -> private db r i.
Proof.
  intros Ha Hi Ho Hn Hl. split; intros H; (split; [done|]); [split|]; try (by exists a).
  destruct (hasElevatedPermission (auth r)); [done|]. rewrite Hl in H; done.
Qed.
Lemma own_private db r p x a : own db (auth_userId (auth r)) (hasElevatedPermission (auth r)) p x a -> sharedLink (auth r) = None -> private db r x.
Proof. intros [Ha Hi Ho Hl _] Hn. eapply owned_private; [done..|]. intros E. by destruct (Hl E). Qed.

Lemma file_sound db u ids e p x : x ∈ assetFile_checkOwnerAccess db u ids e p ->
  exists a, a ∈ asset db /\ (x, asset_id a) ∈ asset_file db /\ asset_ownerId a = u /\ (e = false -> isLocked db (asset_id a) = false).
Proof.
  unfold assetFile_checkOwnerAccess, answer. destruct (decide (ids = ∅)); [by intros ?%elem_of_empty|]. rewrite elem_of_list_to_set.
  intros H. rows. destruct H as ([f i] & Hf & H). rows. destruct H as (a & Ha & H). unfold is_id in H. rows. cbn in H.
  destruct H as [[[[[E Hl] Ho] Hi] Hp] ->]. exists a. split; [done|]. split; [by subst i|]. split; [done|].
  intros ->. destruct Hl as [[=]|[? _]]. done.
Qed.
Lemma face_sound db u ids p e x : x ∈ person_checkFaceOwnerAccess db u ids p e ->
  exists a f, a ∈ asset db /\ f ∈ asset_face db /\ face_id f = x /\ face_assetId f = asset_id a /\ asset_ownerId a = u /\
    (e = false -> isLocked db (asset_id a) = false).
Proof.
  unfold person_checkFaceOwnerAccess, answer. destruct (decide (ids = ∅)); [by intros ?%elem_of_empty|]. rewrite elem_of_list_to_set.
  intros H. rows. destruct H as (f & Hf & H). rows. destruct H as (a & Ha & H). unfold is_id in Ha. rows.
  destruct Ha as (Ha & Hd & E). destruct H as [[[[Hi Ho] Hl] Hp] ->]. exists a, f. repeat split; try done.
  intros ->. by destruct Hl as [[=]|?].
Qed.

(** ** The promises *)

(** What was granted, item by item: each at the moment of the check that granted it. *)
Definition kept (db : nat -> Library) (r : AccessRequest) (x : string) : Prop :=
  exists n n' i, concerns (permission r) (db n) x i /\ lock_kept (db n) r i /\ rules_kept (db n') r i.
Lemma kept_at db r x n i : concerns (permission r) (db n) x i -> private (db n) r i -> kept db r x.
Proof. intros Hc [Hl Hr]. by exists n, n, i. Qed.

Ltac each := repeat first [apply Forall_nil_2|apply Forall_cons_2].
Ltac listed := apply includes_true; vm_compute; reflexivity.
Lemma link_kept db r l x : (forall n, whole_live_photos (db n)) -> permission r ∈ item_permissions ++ file_permissions ++ face_permissions ->
  x ∈ checkSharedLinkAccess db l (accessPrivacy (effectiveAuth r)) (permission r) (list_to_set (request_ids r)) -> kept db r x.
Proof.
  intros Hw Hp Hx. assert (permission r ∈ read_permissions /\
    x ∈ asset_checkSharedLinkAccess (db 0%nat) (link_id l) (list_to_set (request_ids r)) (accessPrivacy (effectiveAuth r))) as [Hrd Hin].
  { revert Hx. revert Hp. generalize (permission r). refine (proj1 (Forall_forall _ _) _).
    each; intros Hx; cbn in Hx; first [by apply elem_of_empty in Hx|split; [listed|]; try exact Hx].
    destruct (allowDownload l); [done|by apply elem_of_empty in Hx]. }
  apply link_sound in Hin as (_ & a & [Ha _ _ Hl Hr _ Hc]). apply (kept_at db r x 0 x).
  - left. split; [|done]. apply elem_of_app. by left.
  - eapply carried_private; [apply Hw|exact Ha|exact Hl|by left|exact Hc].
Qed.
Lemma reachable_kept db r x : (forall n, whole_live_photos (db n)) -> permission r ∈ read_permissions -> sharedLink (auth r) = None ->
  ground db (effectiveAuth r) x -> kept db r x.
Proof.
  intros Hw Hp Hn Hg. assert (forall n, concerns (permission r) (db n) x x) as Hc by (intros n; left; split; [apply elem_of_app; by left|done]).
  destruct Hg as [a H|a H|a H].
  - eapply kept_at; [apply (Hc 0%nat)|]. rewrite effective_user, effective_elevated in H. by eapply own_private.
  - eapply kept_at; [apply (Hc 1%nat)|]. destruct H as [Ha _ _ Hl Hr _ Hcar]. rewrite effective_user in Hr.
    eapply carried_private; [apply Hw|exact Ha|exact Hl| |exact Hcar]. destruct Hr; [right|left]; done.
  - destruct H as [Ha _ _ _ _ Hl _ Hr Hcar]. exists 2%nat, 3%nat, x. split; [apply Hc|].
    destruct Hcar as [->|(_ & _ & Hmr & Hml & _)]; (split; intros H; [congruence|done]).
Qed.
Lemma others_kept db r x : (forall n, whole_live_photos (db n)) -> permission r ∈ item_permissions ++ file_permissions ++ face_permissions ->
  sharedLink (auth r) = None -> x ∈ checkOtherAccess db (effectiveAuth r) (permission r) (list_to_set (request_ids r)) -> kept db r x.
Proof.
  intros Hw Hp Hn Hx.
  assert (x ∈ check_reachable db (effectiveAuth r) (list_to_set (request_ids r)) -> permission r ∈ read_permissions -> kept db r x) as Hread.
  { intros (_ & Hg)%reachable_exact Hi. by apply reachable_kept. }
  assert (x ∈ asset_checkOwnerAccess (db 0%nat) (auth_userId (effectiveAuth r)) (list_to_set (request_ids r))
    (hasElevatedPermission (effectiveAuth r)) (accessPrivacy (effectiveAuth r)) -> permission r ∈ item_permissions -> kept db r x) as Hown.
  { intros (_ & a & H)%owner_exact Hi. eapply (kept_at db r x 0 x); [by left|]. rewrite effective_user, effective_elevated in H. by eapply own_private. }
  assert (x ∈ assetFile_checkOwnerAccess (db 0%nat) (auth_userId (effectiveAuth r)) (list_to_set (request_ids r))
    (hasElevatedPermission (effectiveAuth r)) (accessPrivacy (effectiveAuth r)) -> permission r ∈ file_permissions -> kept db r x) as Hfile.
  { intros (a & Ha & Hf & Ho & Hl)%file_sound Hi. rewrite effective_user in Ho. rewrite effective_elevated in Hl.
    apply (kept_at db r x 0 (asset_id a)); [right; left; done|]. by eapply owned_private. }
  assert (x ∈ person_checkFaceOwnerAccess (db 0%nat) (auth_userId (effectiveAuth r)) (list_to_set (request_ids r))
    (accessPrivacy (effectiveAuth r)) (hasElevatedPermission (effectiveAuth r)) -> permission r ∈ face_permissions -> kept db r x) as Hface.
  { intros (a & f & Ha & Hf & E1 & E2 & Ho & Hl)%face_sound Hi. rewrite effective_user in Ho. rewrite effective_elevated in Hl.
    apply (kept_at db r x 0 (asset_id a)); [right; right; split; [done|by exists f]|]. by eapply owned_private. }
  revert Hx Hread Hown Hfile Hface. generalize (kept db r x). revert Hp. generalize (permission r). refine (proj1 (Forall_forall _ _) _).
  each; intros P Hx Hread Hown Hfile Hface; first [apply (Hread Hx)|apply (Hown Hx)|apply (Hfile Hx)|apply (Hface Hx)]; listed.
Qed.

(** A request passes exactly when what is allowed is what was asked for. *)
Lemma all_allowed_exact db r : all_allowed db r = true <-> checkAccess db r = list_to_set (request_ids r).
Proof.
  unfold all_allowed. rewrite negb_true_iff, orb_false_iff, !negb_false_iff, Nat.eqb_eq, bool_decide_eq_true. split.
  - intros [Hsize Hsub]. apply leibniz_equiv. apply set_subseteq_size_equiv; [done|lia].
  - intros ->. split; [done|]. set_solver.
Qed.
Lemma requireAccess_exact db r : requireAccess db r = inl tt <-> checkAccess db r = list_to_set (request_ids r).
Proof. rewrite <- all_allowed_exact. unfold requireAccess. by destruct (all_allowed db r). Qed.

(** A library: [owner] has a live photo that is locked and a photo in an album that [friend] sees; the photo
    tagged [secret] matches the owner's Locked rules and is in the same album. *)
Definition photo (i owner : string) (motion : option string) : AssetRow :=
  mkAsset i owner Visibility.Timeline motion false false None None.
Definition sample : Library :=
  mkLibrary [photo "still" "owner" (Some "motion"); mkAsset "motion" "owner" Visibility.Hidden None false false None None;
             photo "plain" "owner" None; photo "tagged" "owner" None]
    [("still", Marked); ("motion", Marked)] [mkAlbum "album" false true]
    [mkAlbumUser "album" "owner" Role.Owner; mkAlbumUser "album" "friend" Role.Viewer]
    [("album", "still"); ("album", "plain"); ("album", "tagged")] [mkUser "owner" false "g1"; mkUser "friend" false "g2"]
    [] [("link", Some "album")] [] [("file", "still")] [] [] [("secret", "owner")] [("secret", "tagged")] [("secret", "secret")] [] [] [] []
    [("owner", mkSuppression ["secret"] [] [])] [] [] [] [] [] [] [] [] [] [] []%string.
Definition asks (u : string) (elevated : bool) (link : option AuthSharedLink) (perm : Permission) (ids : list string) : AccessRequest :=
  mkRequest (mkAuth u false link elevated false None) perm ids false.

Lemma sample_cases (P : AssetRow -> Prop) : Forall P (asset sample) -> forall a, a ∈ asset sample -> P a.
Proof. intros H. exact (proj1 (Forall_forall _ _) H). Qed.
Lemma sample_whole : whole_live_photos sample.
Proof.
  assert (forall s, s ∈ asset sample -> forall m, m ∈ asset sample -> livePhotoVideoId s = Some (asset_id m) ->
    asset_ownerId m = asset_ownerId s /\ (hiddenByOwnerRules sample m = true -> hiddenByOwnerRules sample s = true)) as H.
  { refine (sample_cases _ _). each; refine (sample_cases _ _); each; intros E; try discriminate E; (split; [reflexivity|]); vm_compute; intros ?; discriminate. }
  split.
  - vm_compute. repeat (constructor; [set_solver|]). constructor.
  - intros s m Hs Hm E. by apply H.
  - refine (fun s m Hs => sample_cases (fun s => livePhotoVideoId s = Some m -> isLocked sample m = true -> isLocked sample (asset_id s) = true) _ s Hs).
    each; intros E; try discriminate E. reflexivity.
  - intros s m Hs Hm E. by apply H.
Qed.
Example friend_sees : checkAccess (fun _ => sample) (asks "friend" true None AssetView ["still"; "motion"; "plain"; "tagged"]) = {["plain"]}.
Proof. vm_compute. reflexivity. Qed.
Example link_sees : checkAccess (fun _ => sample) (asks "owner" false (Some (mkLink "link" false false)) AssetView ["still"; "motion"; "plain"; "tagged"])
  = {["plain"]}.
Proof. vm_compute. reflexivity. Qed.
Example owner_sees : checkAccess (fun _ => sample) (asks "owner" false None AssetView ["still"; "motion"; "plain"]) = {["plain"]}.
Proof. vm_compute. reflexivity. Qed.
Lemma owner_unlocked : "still"%string ∈ checkAccess (fun _ => sample) (asks "owner" true None AssetDelete ["still"]).
Proof. apply (bool_decide_unpack _). vm_compute. exact I. Qed.

Lemma deleting_items : AssetDelete ∈ item_permissions ++ file_permissions ++ face_permissions.
Proof. listed. Qed.
Lemma viewing_reads : AssetView ∈ read_permissions.
Proof. listed. Qed.

(** C1. Locked media is its owner's alone.  Whatever a request asks for with a permission on items, on their
    derivative files or on the faces of them, and whoever asks (a session, a shared link, with or without the
    privacy filter): an id it gets is of an item that, at the moment of the check that granted it, is
    locked only if the session is its owner's, unlocked, and no link; and that its owner's Locked rules
    hide only if the session is its owner's.  A live photo is taken to be locked and hidden as a whole. *)
Theorem private_items_stay_private (db : nat -> Library) (r : AccessRequest) (x : string)
    (Hwhole : forall n, whole_live_photos (db n))
    (Hperm : permission r ∈ item_permissions ++ file_permissions ++ face_permissions)
    (Hgranted : x ∈ checkAccess db r) :
  exists n n' i, concerns (permission r) (db n) x i /\
    (isLocked (db n) i = true ->
       sharedLink (auth r) = None /\ hasElevatedPermission (auth r) = true /\ owned (db n) i (auth_userId (auth r))) /\
    (rules_hide (db n') i -> sharedLink (auth r) = None /\ owned (db n') i (auth_userId (auth r))).
Proof.
  change (kept db r x). unfold checkAccess in Hgranted. destruct (decide (_ = ∅)); [by apply elem_of_empty in Hgranted|].
  rewrite effective_link in Hgranted. destruct (sharedLink (auth r)) as [l|] eqn:El.
  - exact (link_kept db r l x Hwhole Hperm Hgranted).
  - exact (others_kept db r x Hwhole Hperm El Hgranted).
Qed.
Lemma private_items_stay_private_witness :
  exists n n' i, concerns AssetDelete ((fun _ : nat => sample) n) "still" i /\
    (isLocked sample i = true -> @None AuthSharedLink = None /\ true = true /\ owned sample i "owner") /\
    (rules_hide ((fun _ : nat => sample) n') i -> @None AuthSharedLink = None /\ owned sample i "owner").
Proof.
  exact (private_items_stay_private (fun _ => sample) (asks "owner" true None AssetDelete ["still"%string]) "still" (fun _ => sample_whole)
    deleting_items owner_unlocked).
Defined.

(** C2. Reading is granted on a ground, and on every ground.  For a session that reads, views or downloads, an id is
    allowed exactly when it was asked for and is the session's own, in an album it is in, or was shared with
    it, as each check sees the rows; though a check is only asked for what those before it left, and two
    of them answer for motion parts too.  The request passes exactly when that holds of every id. *)
Theorem read_access_exact (db : nat -> Library) (r : AccessRequest)
    (Hsession : sharedLink (auth r) = None) (Hperm : permission r ∈ read_permissions) :
  (forall x, x ∈ checkAccess db r <-> x ∈ request_ids r /\ ground db (effectiveAuth r) x) /\
  (requireAccess db r = inl tt <-> forall x, x ∈ request_ids r -> ground db (effectiveAuth r) x).
Proof.
  assert (forall x, x ∈ checkAccess db r <-> x ∈ request_ids r /\ ground db (effectiveAuth r) x) as Hx.
  { intros x. unfold checkAccess. rewrite effective_link, Hsession. destruct (decide (_ = ∅)) as [E|_].
    - split; [by intros ?%elem_of_empty|]. intros [Hi _]. exfalso.
      assert (x ∈ (list_to_set (request_ids r) : gset string)) as H by (by apply elem_of_list_to_set). rewrite E in H. by apply elem_of_empty in H.
    - rewrite <- (elem_of_list_to_set (C := gset string)), <- reachable_exact. revert Hperm. generalize (permission r).
      refine (proj1 (Forall_forall _ _) _). each; done. }
  split; [done|]. rewrite requireAccess_exact. split.
  - intros E x Hi. apply Hx. rewrite E. by apply elem_of_list_to_set.
  - intros H. apply set_eq. intros x. rewrite Hx, elem_of_list_to_set. split; [tauto|]. intros Hi. auto.
Qed.
Lemma read_access_exact_witness :
  requireAccess (fun _ => sample) (asks "friend" false None AssetView ["plain"%string]) = inl tt <->
  forall x, x ∈ ["plain"%string] -> ground (fun _ => sample) (effectiveAuth (asks "friend" false None AssetView ["plain"%string])) x.
Proof.
  exact (proj2 (read_access_exact (fun _ => sample) (asks "friend" false None AssetView ["plain"%string]) eq_refl
    viewing_reads)).
Defined.
