(* ===== verification/LockedFile.v ===== *)
(** * Locked files ([packages/locked-crypto/src/format.ts])

    A locked file is a prefix, a list of recipients who can each unwrap the file's key, the sealed
    information about the item, and the sealed segments of its bytes.  It is written once, read from any
    place, and given to other recipients without its segments being sealed again.

    The primitives are node:crypto's, the interface [Crypto] with the laws [CryptoLaws].  A file may change
    while it is read: [file n] is what the [n]-th read of a call sees; one call of [read] may return less
    than it was asked for ([grain]).  A write may fail or be short ([Write]), and the file system is a map of
    resolved paths.  Random keys are arguments; keys are not wiped. *)

From stdpp Require Import gmap strings list.
From S2P Require Import Prelude JsNumber JsString JsBuffer.
Open Scope Z_scope.

(** The files, by their paths. *)
Abbreviation Files := (gmap string Buffer).

(** ** node:crypto *)

(** The item a file is of. *)
Record LockedFileInfo := mkInfo { assetId : string; kind : string; originalFileName : string; mime : string }.
#[export] Instance LockedFileInfo_eq_dec : EqDecision LockedFileInfo.
Proof. solve_decision. Defined.

Class Crypto := {
  (** AES-256-GCM: key, nonce, plaintext, additional data; the ciphertext and its tag. *)
  gcm_encrypt : Buffer -> Buffer -> Buffer -> Buffer -> Buffer * Buffer;
  (** Key, nonce, ciphertext, tag, additional data; nothing when the tag does not verify. *)
  gcm_decrypt : Buffer -> Buffer -> Buffer -> Buffer -> Buffer -> option Buffer;
  hkdfSync : Buffer -> Buffer -> string -> Buffer;
  sha256 : Buffer -> Buffer;
  (** X25519: private key, public key; and the public key of a private one. *)
  diffieHellman : Buffer -> Buffer -> Buffer;
  public_of : Buffer -> Buffer;
  (** [JSON.stringify] of an item's information, and [JSON.parse] of texts that are one. *)
  stringify : LockedFileInfo -> Buffer;
  json_parse : Buffer -> option LockedFileInfo
}.

(** ** Constants *)

Definition SEGMENT_SIZE : Z := 65536.
Definition VERSION : Z := 1.
Definition TAG : Z := 16.
Definition SEALED_SEGMENT : Z := SEGMENT_SIZE + TAG.
Definition PREFIX_LENGTH : Z := 18.
Definition KEY_ID_LENGTH : Z := 8.
Definition RECIPIENT_LENGTH : Z := KEY_ID_LENGTH + 32 + 32 + TAG.
Definition MAX_INFO_LENGTH : Z := 64 * 1024.
Definition ZERO_NONCE : Buffer := repeat Byte.x00 12.
Definition MAGIC : Buffer := [Byte.x46; Byte.x4c; Byte.x4c; Byte.x4b].
Definition COPY_CHUNK : Z := 16 * SEALED_SEGMENT.

(** ** Errors *)

(** [LockedFileCorruptError], by its message. *)
Inductive Corruption :=
| NotLocked | UnsupportedVersion (v : Z) | UnknownFlags | LengthOutOfRange | UnsupportedSegmentSize | NoRecipients
| HeaderTruncated | InfoOutOfRange | FileLength | KeyUnauthentic | InfoUnauthentic | SegmentTruncated (index : Z)
| SegmentUnauthentic (index : Z) | PrefixChanged | InfoMismatch | NotItsSource.
Inductive LockedError :=
| WrongSecret | Corrupt (c : Corruption) | RangeOutside | NotRawKey | InvalidPublicKey | RecipientCount | InfoTooLong
| SourceChanged | SamePath | FileExists | WriteFailed.

(** ** Sealing *)

Section crypto.
Context {C : Crypto}.

Definition hkdf (key salt : Buffer) (purpose : string) : Buffer := hkdfSync key salt ("frameleaf-locked/1/" +:+ purpose).
Definition seal (key nonce plaintext aad : Buffer) : Buffer :=
  let '(ciphertext, tag) := gcm_encrypt key nonce plaintext aad in ciphertext ++ tag.
Definition unseal (key nonce sealed aad : Buffer) : option Buffer :=
  let n := size_of sealed in
  if n <? TAG then None else gcm_decrypt key nonce (subarray sealed 0 (n - TAG)) (subarray sealed (n - TAG) n) aad.

Definition segmentNonce (index : Z) : Buffer := repeat Byte.x00 4 ++ write_be 8 index.
Definition segmentAad (index : Z) (isLast : bool) : Buffer := write_be 8 index ++ [if isLast then Byte.x01 else Byte.x00].
Definition segmentCount (plaintextLength : Z) : Z := Z.max 1 ((plaintextLength + SEGMENT_SIZE - 1) / SEGMENT_SIZE).
Definition segmentPlainLength (plaintextLength index : Z) : Z := Z.min SEGMENT_SIZE (plaintextLength - index * SEGMENT_SIZE).

(** ** Keys *)

Definition is_raw (key : Buffer) : bool := size_of key =? 32.
Definition publicKeyFromPrivate (privateKey : Buffer) : res LockedError Buffer :=
  _ ← ensure (is_raw privateKey) NotRawKey; Ok (public_of privateKey).
Definition sharedSecret (privateKey publicKey : Buffer) : res LockedError Buffer :=
  _ ← ensure (is_raw publicKey) NotRawKey;
  let secret := diffieHellman privateKey publicKey in
  _ ← ensure (negb (forallb (fun b => bool_decide (b = Byte.x00)) secret)) InvalidPublicKey;
  Ok secret.
Definition key_id (publicKey : Buffer) : Buffer := subarray (sha256 publicKey) 0 KEY_ID_LENGTH.
Definition keyId (publicKey : Buffer) : res LockedError Buffer := _ ← ensure (is_raw publicKey) NotRawKey; Ok (key_id publicKey).

(** ** The header *)

Record ParsedRecipient := mkRecipient { r_keyId : Buffer; ephemeral : Buffer; wrapped : Buffer }.
Record ParsedHeader := mkHeader {
  plaintextLength : Z;
  headerLength : Z;
  prefix : Buffer;
  recipients : list ParsedRecipient;
  infoRecord : Buffer;
  infoCiphertext : Buffer
}.
(** [LockedHeader]: what [readHeader] tells, besides the version. *)
Record LockedHeader := mkLockedHeader { h_plaintextLength : Z; keyIds : list Buffer; h_headerLength : Z }.

Definition buildPrefix (plaintextLength : Z) : Buffer :=
  MAGIC ++ [byte_of VERSION; Byte.x00] ++ write_be 8 plaintextLength ++ write_be 4 SEGMENT_SIZE.
Definition wrapAad (keyId ephemeral : Buffer) : Buffer := keyId ++ ephemeral.
(** An entry, under a fresh ephemeral key. *)
Definition build_recipient (prefix fileKey : Buffer) (fresh publicKey : Buffer) : res LockedError Buffer :=
  id ← keyId publicKey;
  let ephemeralPublic := public_of fresh in
  secret ← sharedSecret fresh publicKey;
  Ok (id ++ ephemeralPublic ++ seal (hkdf secret prefix "wrap") ZERO_NONCE fileKey (wrapAad id ephemeralPublic)).
(** [fresh n] is the ephemeral key of the [n]-th recipient. *)
Definition buildRecipients (fresh : nat -> Buffer) (prefix fileKey : Buffer) (publicKeys : list Buffer) : res LockedError Buffer :=
  let count := Z.of_nat (length publicKeys) in
  _ ← ensure (negb ((count =? 0) || (255 <? count))) RecipientCount;
  entries ← traverse (fun r => build_recipient prefix fileKey (fresh r.1) r.2) (imap pair publicKeys);
  Ok (byte_of count :: concat entries).

(** One call of [read] returns what there is, up to [grain i] bytes, and something unless the file ends.  The
    file may change from one [readFully] to the next, but not between the calls of one. *)
Context (grain : nat -> Z).
Fixpoint read_loop (fuel i : nat) (file : Buffer) (length position : Z) (buffer : Buffer) : Buffer :=
  match fuel with
  | O => buffer
  | S fuel =>
      if size_of buffer <? length then
        let at_ := position + size_of buffer in
        let got := subarray file at_ (Z.min (position + length) (at_ + Z.max 1 (grain i))) in
        if size_of got =? 0 then buffer else read_loop fuel (S i) file length position (buffer ++ got)
      else buffer
  end.
Definition readFully (file : Buffer) (length position : Z) : Buffer := read_loop (S (Z.to_nat length)) 0 file length position [].

Definition byte_at (b : Buffer) (i : Z) : Z := read_be (subarray b i (i + 1)).
Definition parse_recipient (entry : Buffer) : ParsedRecipient :=
  mkRecipient (subarray entry 0 8) (subarray entry 8 40) (subarray entry 40 (size_of entry)).

Definition parseHeader (file : nat -> Buffer) : res LockedError ParsedHeader :=
  let fixed := readFully (file 0%nat) (PREFIX_LENGTH + 1) 0 in
  _ ← ensure (negb (size_of fixed <? PREFIX_LENGTH + 1) && bool_decide (subarray fixed 0 4 = MAGIC)) (Corrupt NotLocked);
  _ ← ensure (byte_at fixed 4 =? VERSION) (Corrupt (UnsupportedVersion (byte_at fixed 4)));
  _ ← ensure (byte_at fixed 5 =? 0) (Corrupt UnknownFlags);
  let length := read_be (subarray fixed 6 14) in
  _ ← ensure (length <=? MAX_SAFE_INTEGER) (Corrupt LengthOutOfRange);
  _ ← ensure (read_be (subarray fixed 14 18) =? SEGMENT_SIZE) (Corrupt UnsupportedSegmentSize);
  let count := byte_at fixed PREFIX_LENGTH in
  _ ← ensure (negb (count =? 0)) (Corrupt NoRecipients);
  let listLength := count * RECIPIENT_LENGTH in
  let rest := readFully (file 1%nat) (listLength + 4) (PREFIX_LENGTH + 1) in
  _ ← ensure (listLength + 4 <=? size_of rest) (Corrupt HeaderTruncated);
  let entry index := subarray rest (index * RECIPIENT_LENGTH) ((index + 1) * RECIPIENT_LENGTH) in
  let recipients := map (fun i => parse_recipient (entry (Z.of_nat i))) (seq 0 (Z.to_nat count)) in
  let infoLength := read_be (subarray rest listLength (listLength + 4)) in
  _ ← ensure (negb ((infoLength <? TAG) || (MAX_INFO_LENGTH <? infoLength))) (Corrupt InfoOutOfRange);
  let infoStart := PREFIX_LENGTH + 1 + listLength in
  let infoCiphertext := readFully (file 2%nat) infoLength (infoStart + 4) in
  _ ← ensure (infoLength <=? size_of infoCiphertext) (Corrupt HeaderTruncated);
  Ok (mkHeader length (infoStart + 4 + infoLength) (subarray fixed 0 PREFIX_LENGTH) recipients
        (subarray rest listLength (size_of rest) ++ infoCiphertext) infoCiphertext).

Definition expectedFileLength (h : ParsedHeader) : Z :=
  headerLength h + plaintextLength h + segmentCount (plaintextLength h) * TAG.
Definition assertFileLength (file : Buffer) (h : ParsedHeader) : res LockedError unit :=
  ensure (size_of file =? expectedFileLength h) (Corrupt FileLength).

(** ** Opening *)

(** What a [catch] turns every error of [r] into. *)
Definition catch_as {E A} (e : E) (r : res E A) : res E A := match r with Ok x => Ok x | Throw _ => Throw e end.
Definition or_throw {E A} (e : E) (o : option A) : res E A := match o with Some x => Ok x | None => Throw e end.

Definition unwrapFileKey (h : ParsedHeader) (privateKey : Buffer) : res LockedError Buffer :=
  public ← publicKeyFromPrivate privateKey;
  id ← keyId public;
  recipient ← or_throw WrongSecret (List.find (fun r => bool_decide (r_keyId r = id)) (recipients h));
  catch_as (Corrupt KeyUnauthentic)
    (secret ← sharedSecret privateKey (ephemeral recipient);
     or_throw (Corrupt KeyUnauthentic)
       (unseal (hkdf secret (prefix h) "wrap") ZERO_NONCE (wrapped recipient) (wrapAad (r_keyId recipient) (ephemeral recipient)))).
Definition openInfo (h : ParsedHeader) (fileKey : Buffer) : res LockedError LockedFileInfo :=
  or_throw (Corrupt InfoUnauthentic)
    (match unseal (hkdf fileKey (prefix h) "info") ZERO_NONCE (infoCiphertext h) [] with
     | Some text => json_parse text
     | None => None
     end).

(** [isLockedFile] and [readHeader]. *)
Definition isLockedFile (file : Buffer) : bool := bool_decide (readFully file 4 0 = MAGIC).
Definition readHeader (file : nat -> Buffer) : res LockedError LockedHeader :=
  h ← parseHeader file; Ok (mkLockedHeader (plaintextLength h) (r_keyId <$> recipients h) (headerLength h)).

(** A segment, read and opened. *)
Definition open_segment (file : Buffer) (h : ParsedHeader) (segmentKey : Buffer) (index : Z) : res LockedError Buffer :=
  let sealedLength := segmentPlainLength (plaintextLength h) index + TAG in
  let sealed := readFully file sealedLength (headerLength h + index * SEALED_SEGMENT) in
  _ ← ensure (size_of sealed =? sealedLength) (Corrupt (SegmentTruncated index));
  or_throw (Corrupt (SegmentUnauthentic index))
    (unseal segmentKey (segmentNonce index) sealed (segmentAad index (index =? segmentCount (plaintextLength h) - 1))).

(** What a stream gives before it ends, and the error it ends with. *)
Record Stream := mkStream { chunks_ : list Buffer; stopped : option LockedError }.
Definition emit (chunk : Buffer) (s : Stream) : Stream := mkStream (chunk :: chunks_ s) (stopped s).
Record Opened := mkOpened { stream : Stream; o_plaintextLength : Z; o_info : LockedFileInfo }.

(** The loop of [segments], for the indices [index .. index + n - 1]. *)
Fixpoint segments (file : nat -> Buffer) (h : ParsedHeader) (segmentKey : Buffer) (start end_ first last : Z) (n : nat) (index : Z) : Stream :=
  match n with
  | O => mkStream [] None
  | S n =>
      match open_segment (file (4 + Z.to_nat (index - first))%nat) h segmentKey index with
      | Throw e => mkStream [] (Some e)
      | Ok plain =>
          let from := if index =? first then start - index * SEGMENT_SIZE else 0 in
          let to := if index =? last then end_ - index * SEGMENT_SIZE + 1 else size_of plain in
          let rest := segments file h segmentKey start end_ first last n (index + 1) in
          if from <? to then emit (subarray plain from to) rest else rest
      end
  end.
Definition in_range (start end_ plaintextLength : Z) : bool :=
  negb (negb (is_safe_integer start) || negb (is_safe_integer end_) || (start <? 0) || (end_ <? start) || (plaintextLength <=? end_)).
Definition openDecrypt (file : nat -> Buffer) (privateKey : Buffer) (range : option (Z * Z)) : res LockedError Opened :=
  h ← parseHeader file;
  let length := plaintextLength h in
  let start := match range with Some r => r.1 | None => 0 end in
  let end_ := match range with Some r => r.2 | None => length - 1 end in
  _ ← ensure (match range with Some _ => in_range start end_ length | None => true end) RangeOutside;
  fileKey ← unwrapFileKey h privateKey;
  info ← openInfo h fileKey;
  let segmentKey := hkdf fileKey (prefix h) "segment" in
  let first := if length =? 0 then 0 else start / SEGMENT_SIZE in
  let last := if length =? 0 then 0 else end_ / SEGMENT_SIZE in
  let s := match assertFileLength (file 3%nat) h with
           | Throw e => mkStream [] (Some e)
           | Ok _ => segments file h segmentKey start end_ first last (Z.to_nat (last - first + 1)) first
           end in
  Ok (mkOpened s length info).

(** ** Writing *)

(** What one call of [write] does: it fails, or puts all of its bytes in place, or the first [n]. *)
Inductive Write := Fails | Whole | Short (n : Z).
Definition written (w : Write) (bytes : Buffer) : Buffer := match w with Short n => subarray bytes 0 n | _ => bytes end.
(** The bytes at the end of a file; a gap before them reads as zeros. *)
Definition put (file : Buffer) (position : Z) (bytes : Buffer) : Buffer :=
  match bytes with [] => file | _ => file ++ repeat Byte.x00 (Z.to_nat (position - size_of file)) ++ bytes end.
(** Chunk after chunk, each at the position the ones before it were meant to fill; then [sync] and [close]. *)
Fixpoint write_all (io : nat -> Write) (n : nat) (chunks : list (res LockedError Buffer)) (file : Buffer) (position : Z) : Buffer * res LockedError unit :=
  match chunks with
  | [] => match io n with Fails => (file, Throw WriteFailed) | _ => (file, Ok tt) end
  | Throw e :: _ => (file, Throw e)
  | Ok bytes :: chunks =>
      match io n with
      | Fails => (file, Throw WriteFailed)
      | w => write_all io (S n) chunks (put file position (written w bytes)) (position + size_of bytes)
      end
  end.
Definition writeOutput (io : nat -> Write) (fs : Files) (src dst : string) (chunks : list (res LockedError Buffer)) : Files * res LockedError unit :=
  if bool_decide (src = dst) then (fs, Throw SamePath)
  else match fs !! dst with
       | Some _ => (fs, Throw FileExists)
       | None => match write_all io 0 chunks [] 0 with
                 | (file, Ok _) => (<[dst := file]> fs, Ok tt)
                 | (_, Throw e) => (fs, Throw e)
                 end
       end.

(** ** Encrypting *)

Definition info_length (infoCiphertext : Buffer) : Buffer := write_be 4 (size_of infoCiphertext).
(** The bytes of the source one segment holds, as the read of that segment sees them. *)
Definition plain_segment (src : nat -> Buffer) (plaintextLength : Z) (i : nat) : Buffer :=
  readFully (src (1 + i)%nat) (segmentPlainLength plaintextLength (Z.of_nat i)) (Z.of_nat i * SEGMENT_SIZE).
Definition seal_segment (segmentKey : Buffer) (count : Z) (index : Z) (plain : Buffer) : Buffer :=
  seal segmentKey (segmentNonce index) plain (segmentAad index (index =? count - 1)).
Definition segment_chunk (src : nat -> Buffer) (segmentKey : Buffer) (plaintextLength : Z) (i : nat) : res LockedError Buffer :=
  let plain := plain_segment src plaintextLength i in
  _ ← ensure (size_of plain =? segmentPlainLength plaintextLength (Z.of_nat i)) SourceChanged;
  Ok (seal_segment segmentKey (segmentCount plaintextLength) (Z.of_nat i) plain).
Definition source_ends (src : Buffer) (plaintextLength : Z) : res LockedError Buffer :=
  _ ← ensure (negb (0 <? size_of (readFully src 1 plaintextLength))) SourceChanged; Ok [].
Definition encrypted_chunks (src : nat -> Buffer) (header segmentKey : Buffer) (plaintextLength : Z) : list (res LockedError Buffer) :=
  let count := Z.to_nat (segmentCount plaintextLength) in
  Ok header :: map (segment_chunk src segmentKey plaintextLength) (seq 0 count) ++ [source_ends (src (1 + count)%nat) plaintextLength].

(** [verifyWithFileKey]: the digest of what a file just written decrypts to. *)
Fixpoint open_all (file : Buffer) (h : ParsedHeader) (segmentKey : Buffer) (n : nat) (index : Z) : res LockedError Buffer :=
  match n with
  | O => Ok []
  | S n => plain ← open_segment file h segmentKey index; rest ← open_all file h segmentKey n (index + 1); Ok (plain ++ rest)
  end.
Definition verifyWithFileKey (file fileKey prefix_ : Buffer) (info : LockedFileInfo) : res LockedError Buffer :=
  h ← parseHeader (fun _ => file);
  _ ← ensure (bool_decide (prefix h = prefix_)) (Corrupt PrefixChanged);
  _ ← assertFileLength file h;
  opened ← openInfo h fileKey;
  _ ← ensure (bool_decide (stringify opened = stringify info)) (Corrupt InfoMismatch);
  plain ← open_all file h (hkdf fileKey (prefix h) "segment") (Z.to_nat (segmentCount (plaintextLength h))) 0;
  Ok (sha256 plain).

Record Encrypted := mkEncrypted { e_plaintextLength : Z; e_sha256 : option Buffer }.
Definition source_bytes (src : nat -> Buffer) (plaintextLength : Z) : Buffer :=
  concat (map (plain_segment src plaintextLength) (seq 0 (Z.to_nat (segmentCount plaintextLength)))).
(** [fileKey] and [fresh] are the random keys. *)
Definition encrypt_header (fileKey : Buffer) (fresh : nat -> Buffer) (publicKeys : list Buffer) (info : LockedFileInfo) (plaintextLength : Z) :
    res LockedError Buffer :=
  let prefix := buildPrefix plaintextLength in
  recipientList ← buildRecipients fresh prefix fileKey publicKeys;
  let infoCiphertext := seal (hkdf fileKey prefix "info") ZERO_NONCE (stringify info) [] in
  _ ← ensure (negb (MAX_INFO_LENGTH <? size_of infoCiphertext)) InfoTooLong;
  Ok (prefix ++ recipientList ++ info_length infoCiphertext ++ infoCiphertext).
Definition encryptFile (io : nat -> Write) (fs : Files) (fileKey : Buffer) (fresh : nat -> Buffer) (src : nat -> Buffer) (srcPath dst : string)
    (publicKeys : list Buffer) (info : LockedFileInfo) (verify : bool) : Files * res LockedError Encrypted :=
  let plaintextLength := size_of (src 0%nat) in
  let prefix := buildPrefix plaintextLength in
  match encrypt_header fileKey fresh publicKeys info plaintextLength with
  | Throw e => (fs, Throw e)
  | Ok header =>
      match writeOutput io fs srcPath dst (encrypted_chunks src header (hkdf fileKey prefix "segment") plaintextLength) with
      | (fs', Throw e) => (fs', Throw e)
      | (fs', Ok _) =>
          if verify then
            match verifyWithFileKey (default [] (fs' !! dst)) fileKey prefix info with
            | Throw e => (delete dst fs', Throw e)
            | Ok digest => if bool_decide (digest = sha256 (source_bytes src plaintextLength)) then (fs', Ok (mkEncrypted plaintextLength (Some digest)))
                           else (delete dst fs', Throw (Corrupt NotItsSource))
            end
          else (fs', Ok (mkEncrypted plaintextLength None))
      end
  end.

(** ** Decrypting and rewrapping whole files *)

Definition as_chunks (s : Stream) : list (res LockedError Buffer) := map Ok (chunks_ s) ++ match stopped s with Some e => [Throw e] | None => [] end.
Definition decryptFile (io : nat -> Write) (fs : Files) (src : nat -> Buffer) (srcPath dst : string) (privateKey : Buffer) :
    Files * res LockedError LockedFileInfo :=
  match openDecrypt src privateKey None with
  | Throw e => (fs, Throw e)
  | Ok o => match writeOutput io fs srcPath dst (as_chunks (stream o)) with
            | (fs', Ok _) => (fs', Ok (o_info o))
            | (fs', Throw e) => (fs', Throw e)
            end
  end.
Definition verifyFile (file : nat -> Buffer) (privateKey : Buffer) : res LockedError unit :=
  o ← openDecrypt file privateKey None; match stopped (stream o) with Some e => Throw e | None => Ok tt end.

(** The copied pieces of the segments, read from the fourth read on. *)
Definition copied (file : nat -> Buffer) (h : ParsedHeader) : list Buffer :=
  let total := expectedFileLength h - headerLength h in
  map (fun i => let offset := Z.of_nat i * COPY_CHUNK in
                readFully (file (4 + i)%nat) (Z.min COPY_CHUNK (total - offset)) (headerLength h + offset))
    (seq 0 (Z.to_nat ((total + COPY_CHUNK - 1) / COPY_CHUNK))).
Definition rewrapFile (io : nat -> Write) (fs : Files) (fresh : nat -> Buffer) (src : nat -> Buffer) (srcPath dst : string)
    (privateKey : Buffer) (publicKeys : list Buffer) : Files * res LockedError unit :=
  match
    h ← parseHeader src;
    _ ← assertFileLength (src 3%nat) h;
    fileKey ← unwrapFileKey h privateKey;
    _ ← openInfo h fileKey;
    recipientList ← buildRecipients fresh (prefix h) fileKey publicKeys;
    Ok (h, prefix h ++ recipientList ++ infoRecord h)
  with
  | Throw e => (fs, Throw e)
  | Ok (h, newHeader) => writeOutput io fs srcPath dst (map Ok (newHeader :: copied src h))
  end.
End crypto.
