(* ===== verification/LockedFormat.v ===== *)
(** * Locked files: the format

    The laws of the primitives; that reading returns the bytes asked for however the calls split them;
    that a header read back is the one written, and that every header accepted is one that could have been
    written; and where the segments are. *)

From stdpp Require Import gmap strings list.
From S2P Require Import Prelude JsNumber JsString JsBuffer LockedFile.
Open Scope Z_scope.

(** What is used of node:crypto and of [JSON]. *)
Class CryptoLaws `{!Crypto} := {
  (** A tag verifies exactly for what encryption makes. *)
  gcm_exact k n c t a p : gcm_decrypt k n c t a = Some p <-> gcm_encrypt k n p a = (c, t);
  gcm_size k n p a : size_of (gcm_encrypt k n p a).1 = size_of p;
  gcm_tag k n p a : size_of (gcm_encrypt k n p a).2 = TAG;
  diffieHellman_sym a b : is_raw a = true -> is_raw b = true -> diffieHellman a (public_of b) = diffieHellman b (public_of a);
  public_raw a : is_raw a = true -> is_raw (public_of a) = true;
  sha256_size b : size_of (sha256 b) = 32;
  json_round i : json_parse (stringify i) = Some i
}.

(** A guard that holds. *)
Lemma ensure_bind {E A} (b : bool) (e : E) (f : unit -> res E A) : b = true -> (ensure b e ≫= f) = f tt.
Proof. by intros ->. Qed.

(** ** Reading *)

Lemma read_loop_exact grain fuel i file length position b : 0 <= length -> 0 <= position ->
  b = subarray file position (position + size_of b) -> size_of b <= length -> length - size_of b <= Z.of_nat fuel ->
  read_loop grain fuel i file length position b = subarray file position (position + length).
Proof.
  intros Hl Hp. revert i b. induction fuel as [|fuel IH]; intros i b Hb Hs Hf; cbn [read_loop].
  { assert (size_of b = length) as <- by lia. exact Hb. }
  destruct (Z.ltb_spec (size_of b) length) as [Hlt|]; [|assert (size_of b = length) as <- by lia; exact Hb].
  set (at_ := position + size_of b). set (to := Z.min (position + length) (at_ + Z.max 1 (grain i))).
  pose proof (size_nonneg b) as Hn.
  assert (b ++ subarray file at_ to = subarray file position to) as E.
  { rewrite Hb at 1. apply subarray_split; unfold at_, to; lia. }
  destruct (Z.eqb_spec (size_of (subarray file at_ to)) 0) as [H0|H0].
  - apply size_nil in H0. unfold subarray in H0.
    assert (size_of file <= at_) as Hend.
    { unfold size_of. apply (f_equal List.length) in H0. rewrite length_take, length_drop in H0. cbn in H0. unfold at_, to in *. lia. }
    rewrite Hb. unfold subarray, size_of in *.
    rewrite !take_ge by (rewrite length_drop; unfold at_ in *; lia). done.
  - pose proof (size_nonneg (subarray file at_ to)). pose proof (size_subarray_le file at_ to ltac:(unfold to; lia)).
    apply IH; rewrite ?size_app; [|unfold at_, to in *; lia..].
    rewrite <- size_app, E. apply subarray_trim.
Qed.
Lemma readFully_exact grain file length position : 0 <= length -> 0 <= position ->
  readFully grain file length position = subarray file position (position + length).
Proof.
  intros. assert (size_of [] = 0) as E by done. apply read_loop_exact; rewrite ?E; [done|done| |lia|lia].
  symmetry. apply subarray_nil. lia.
Qed.

Section laws.
Context {C : Crypto} {CL : CryptoLaws}.

(** ** Sealing *)

Lemma size_seal k n p a : size_of (seal k n p a) = size_of p + TAG.
Proof. unfold seal. pose proof (gcm_size k n p a). pose proof (gcm_tag k n p a). destruct (gcm_encrypt k n p a). rewrite size_app. cbn in *. lia. Qed.
Lemma unseal_exact k n s a p : unseal k n s a = Some p <-> s = seal k n p a.
Proof.
  unfold unseal, seal. pose proof (gcm_tag k n p a) as Ht. destruct (gcm_encrypt k n p a) as [c t] eqn:E. cbn in Ht.
  pose proof (size_nonneg s). assert (TAG = 16) as HT by done. split.
  - destruct (Z.ltb_spec (size_of s) TAG); [done|]. rewrite gcm_exact, E. intros [= -> ->].
    rewrite subarray_split by lia. symmetry. apply subarray_all. lia.
  - intros ->. rewrite size_app, Ht. pose proof (size_nonneg c). destruct (Z.ltb_spec (size_of c + TAG) TAG); [lia|].
    rewrite gcm_exact. replace (size_of c + TAG - TAG) with (size_of c) by lia.
    rewrite subarray_app_l by lia. rewrite subarray_all by lia. rewrite subarray_app_r by lia.
    rewrite Z.sub_diag. rewrite subarray_all by lia. done.
Qed.
Lemma unseal_seal k n p a : unseal k n (seal k n p a) a = Some p.
Proof. by apply unseal_exact. Qed.

Lemma size_key_id k : size_of (key_id k) = 8.
Proof. unfold key_id. rewrite size_subarray; rewrite ?sha256_size; unfold KEY_ID_LENGTH; lia. Qed.

(** ** The header *)

Definition entry_bytes (r : ParsedRecipient) : Buffer := r_keyId r ++ ephemeral r ++ wrapped r.
Definition entry_ok (r : ParsedRecipient) : Prop := size_of (r_keyId r) = 8 /\ size_of (ephemeral r) = 32 /\ size_of (wrapped r) = 48.
Definition layout (n : Z) (rs : list ParsedRecipient) (ct : Buffer) : Buffer :=
  buildPrefix n ++ (byte_of (Z.of_nat (length rs)) :: concat (entry_bytes <$> rs)) ++ info_length ct ++ ct.
(** What a header holds. *)
Record header_ok (n : Z) (rs : list ParsedRecipient) (ct : Buffer) : Prop := {
  ok_length : 0 <= n <= MAX_SAFE_INTEGER;
  ok_count : 0 < Z.of_nat (length rs) <= 255;
  ok_entries : Forall entry_ok rs;
  ok_info : TAG <= size_of ct <= MAX_INFO_LENGTH
}.

Lemma size_prefix n : size_of (buildPrefix n) = 18.
Proof. unfold buildPrefix. rewrite !size_app, !size_write_be. done. Qed.
Lemma size_entry r : entry_ok r -> size_of (entry_bytes r) = RECIPIENT_LENGTH.
Proof. intros (H1 & H2 & H3). unfold entry_bytes. rewrite !size_app, H1, H2, H3. done. Qed.
Lemma size_entries rs : Forall entry_ok rs -> size_of (concat (entry_bytes <$> rs)) = Z.of_nat (length rs) * RECIPIENT_LENGTH.
Proof.
  induction 1 as [|r rs Hr _ IH]; [done|]. rewrite fmap_cons. cbn [concat length]. rewrite size_app, (size_entry r Hr), IH. lia.
Qed.
Lemma size_cons x (b : Buffer) : size_of (x :: b) = 1 + size_of b.
Proof. unfold size_of. cbn [length]. lia. Qed.
Lemma size_layout n rs ct : Forall entry_ok rs ->
  size_of (layout n rs ct) = PREFIX_LENGTH + 1 + Z.of_nat (length rs) * RECIPIENT_LENGTH + 4 + size_of ct.
Proof.
  intros H. unfold layout, info_length. rewrite !size_app, size_prefix, size_cons, (size_entries rs H), size_write_be. unfold PREFIX_LENGTH. lia.
Qed.
Lemma parse_entry r : entry_ok r -> parse_recipient (entry_bytes r) = r.
Proof.
  intros H. pose proof (size_entry r H) as Hs. destruct H as (H1 & H2 & H3). unfold parse_recipient. rewrite Hs. unfold entry_bytes.
  destruct r as [a b c]; cbn in *. f_equal.
  - rewrite subarray_app_l by lia. apply subarray_all. lia.
  - apply subarray_piece; lia.
  - rewrite app_assoc. rewrite subarray_app_r by (rewrite size_app; lia). rewrite size_app.
    replace (40 - (size_of a + size_of b)) with 0 by lia. apply subarray_all. unfold RECIPIENT_LENGTH, KEY_ID_LENGTH, TAG. lia.
Qed.

Lemma byte_at_piece a x b i : i = size_of a -> byte_at (a ++ [x] ++ b) i = byte_val x.
Proof. intros ->. unfold byte_at. rewrite subarray_piece; [|done|done]. cbn. lia. Qed.
Lemma segments_of_entries rs : Forall entry_ok rs -> forall tail,
  map (fun i => parse_recipient (subarray (concat (entry_bytes <$> rs) ++ tail) (Z.of_nat i * RECIPIENT_LENGTH) ((Z.of_nat i + 1) * RECIPIENT_LENGTH)))
    (seq 0 (length rs)) = rs.
Proof.
  assert (RECIPIENT_LENGTH = 88) as HR by done. induction 1 as [|r rs Hr Hrs IH]; intros tail; [done|]. pose proof (size_entry r Hr) as Hs. rewrite HR in *.
  rewrite fmap_cons. cbn [concat length]. rewrite <- cons_seq. cbn [map]. f_equal.
  - rewrite <- app_assoc. rewrite subarray_app_l by lia. rewrite subarray_all by lia. by apply parse_entry.
  - rewrite <- seq_shift, map_map. rewrite <- (IH tail) at 2. apply map_ext. intros i. rewrite <- app_assoc.
    rewrite subarray_app_r by lia. f_equal. f_equal; lia.
Qed.

Lemma parse_layout grain n rs ct tail : header_ok n rs ct ->
  parseHeader grain (fun _ => layout n rs ct ++ tail) =
    Ok (mkHeader n (size_of (layout n rs ct)) (buildPrefix n) rs (info_length ct ++ ct) ct).
Proof.
  intros [Hn Hc He Hi]. unfold parseHeader. set (F := layout n rs ct ++ tail). set (count := Z.of_nat (length rs)) in *.
  assert (MAX_SAFE_INTEGER < 256 ^ 8) as Hmax by done. assert (MAX_INFO_LENGTH < 256 ^ 4) as Hmi by done.
  pose proof (size_entries rs He) as Hes. pose proof (size_prefix n) as Hp. assert (RECIPIENT_LENGTH = 88) as HR by done.
  set (fixed := buildPrefix n ++ [byte_of count]).
  assert (F = buildPrefix n ++ [byte_of count] ++ concat (entry_bytes <$> rs) ++ info_length ct ++ ct ++ tail) as EF.
  { unfold F, layout. rewrite <- !app_assoc. reflexivity. }
  assert (size_of fixed = 19) as Hf by (unfold fixed; rewrite size_app, Hp; done).
  assert (readFully grain F (PREFIX_LENGTH + 1) 0 = fixed) as E1.
  { rewrite readFully_exact by (unfold PREFIX_LENGTH; lia). rewrite EF, app_assoc. fold fixed.
    rewrite subarray_app_l by (rewrite ?Hf; unfold PREFIX_LENGTH; lia). apply subarray_all. rewrite Hf. done. }
  assert (byte_at fixed PREFIX_LENGTH = count) as Ecount.
  { unfold fixed. rewrite <- (app_nil_r [byte_of count]). rewrite byte_at_piece by done. rewrite byte_val_of. apply Z.mod_small. lia. }
  assert (byte_at fixed 4 = VERSION /\ byte_at fixed 5 = 0 /\ subarray fixed 0 4 = MAGIC) as (E4 & E5 & E0) by done.
  assert (read_be (subarray fixed 6 14) = n) as E6.
  { unfold fixed, buildPrefix. rewrite <- !app_assoc. rewrite (app_assoc MAGIC). rewrite subarray_piece by done.
    apply read_write_be_id. change (256 ^ Z.of_nat 8) with (256 ^ 8). lia. }
  assert (read_be (subarray fixed 14 18) = SEGMENT_SIZE) as E14.
  { unfold fixed, buildPrefix. rewrite <- !app_assoc. rewrite (app_assoc MAGIC), (app_assoc (MAGIC ++ _)).
    rewrite subarray_piece; [done|by rewrite size_app, size_write_be|done]. }
  rewrite E1, Hf, E0, E4, E5, E6, E14, Ecount.
  rewrite (ensure_bind (negb (19 <? PREFIX_LENGTH + 1) && bool_decide (MAGIC = MAGIC))) by reflexivity.
  rewrite (ensure_bind (VERSION =? VERSION)), (ensure_bind (0 =? 0)), (ensure_bind (n <=? MAX_SAFE_INTEGER)), (ensure_bind (SEGMENT_SIZE =? SEGMENT_SIZE)),
    (ensure_bind (negb (count =? 0))) by lia.
  set (rest := concat (entry_bytes <$> rs) ++ info_length ct).
  assert (size_of rest = count * RECIPIENT_LENGTH + 4) as Hrs by (unfold rest, info_length; rewrite size_app, Hes, size_write_be; lia).
  assert (readFully grain F (count * RECIPIENT_LENGTH + 4) (PREFIX_LENGTH + 1) = rest) as ->.
  { rewrite readFully_exact by (unfold PREFIX_LENGTH; lia). rewrite EF, app_assoc. fold fixed. rewrite (app_assoc (concat _)). fold rest.
    apply subarray_piece; rewrite ?Hf, ?Hrs; done. }
  rewrite Hrs. rewrite (ensure_bind (_ <=? _)) by lia.
  assert (read_be (subarray rest (count * RECIPIENT_LENGTH) (count * RECIPIENT_LENGTH + 4)) = size_of ct) as ->.
  { unfold rest. rewrite subarray_app_r by lia. rewrite Hes, Z.sub_diag. rewrite subarray_all by (unfold info_length; rewrite size_write_be; lia).
    unfold info_length. apply read_write_be_id. change (256 ^ Z.of_nat 4) with (256 ^ 4). pose proof (size_nonneg ct). lia. }
  rewrite (ensure_bind (negb _)) by lia.
  assert (readFully grain F (size_of ct) (PREFIX_LENGTH + 1 + count * RECIPIENT_LENGTH + 4) = ct) as ->.
  { pose proof (size_nonneg ct). rewrite readFully_exact by (unfold PREFIX_LENGTH; lia). rewrite EF, app_assoc. fold fixed. rewrite (app_assoc (concat _)).
    fold rest. rewrite (app_assoc fixed). apply subarray_piece; rewrite ?size_app, ?Hf, ?Hrs; unfold PREFIX_LENGTH; lia. }
  rewrite (ensure_bind (_ <=? _)) by lia. do 2 f_equal.
  - rewrite size_layout by done. fold count. lia.
  - unfold count. rewrite Nat2Z.id. unfold rest. by apply segments_of_entries.
  - f_equal. unfold rest. rewrite subarray_app_r by lia. rewrite Hes, Z.sub_diag. apply subarray_all. unfold info_length. rewrite size_write_be. lia.
Qed.

(** *** Every header that is accepted could have been written *)

Lemma fixed_sound b : size_of b = 19 -> subarray b 0 4 = MAGIC -> byte_at b 4 = VERSION -> byte_at b 5 = 0 ->
  read_be (subarray b 14 18) = SEGMENT_SIZE ->
  b = buildPrefix (read_be (subarray b 6 14)) ++ [byte_of (byte_at b PREFIX_LENGTH)].
Proof.
  intros Hs H0 H4 H5 H14. unfold buildPrefix. rewrite <- H0, <- H14, <- H4.
  change [byte_of (byte_at b 4); Byte.x00] with ([byte_of (byte_at b 4)] ++ [Byte.x00]).
  assert ([Byte.x00] = write_be 1 (byte_at b 5)) as -> by (rewrite H5; done). rewrite <- !write_be_1.
  unfold byte_at. rewrite <- !subarray_be by (rewrite ?Hs; unfold PREFIX_LENGTH; lia).
  rewrite <- !app_assoc, !subarray_split by (unfold PREFIX_LENGTH; lia). symmetry. apply subarray_all. rewrite Hs. done.
Qed.
Lemma guard_inv {E A} (b : bool) (e : E) (f : unit -> res E A) x : (ensure b e ≫= f) = Ok x -> b = true /\ f tt = Ok x.
Proof. by destruct b. Qed.

Lemma entry_parse e : size_of e = RECIPIENT_LENGTH -> entry_bytes (parse_recipient e) = e /\ entry_ok (parse_recipient e).
Proof.
  assert (RECIPIENT_LENGTH = 88) as -> by done. intros H. unfold entry_bytes, parse_recipient, entry_ok. cbn. rewrite H. split.
  - rewrite !subarray_split by lia. apply subarray_all. lia.
  - rewrite !size_subarray by lia. done.
Qed.

Lemma parse_prefix grain file h : parseHeader grain file = Ok h ->
  prefix h = buildPrefix (plaintextLength h) /\ 0 <= plaintextLength h <= MAX_SAFE_INTEGER.
Proof.
  unfold parseHeader. set (b := readFully _ _ _ _). intros Hh.
  apply guard_inv in Hh as [H1 Hh]. apply guard_inv in Hh as [H2 Hh]. apply guard_inv in Hh as [H3 Hh]. apply guard_inv in Hh as [H4 Hh].
  apply guard_inv in Hh as [H5 Hh]. apply guard_inv in Hh as [H6 Hh]. apply guard_inv in Hh as [H7 Hh]. apply guard_inv in Hh as [H8 Hh].
  apply guard_inv in Hh as [H9 Hh]. injection Hh as <-. cbn [prefix plaintextLength].
  apply andb_true_iff in H1 as [H1 Hm]. apply bool_decide_eq_true in Hm.
  assert (size_of b = 19) as Hs.
  { apply negb_true_iff, Z.ltb_ge in H1. unfold b in *. rewrite readFully_exact in * by (unfold PREFIX_LENGTH; lia).
    pose proof (size_subarray_le (file 0%nat) 0 (0 + (PREFIX_LENGTH + 1)) ltac:(unfold PREFIX_LENGTH; lia)). unfold PREFIX_LENGTH in *. lia. }
  split; [|split; [apply read_be_range|lia]].
  rewrite (fixed_sound b) at 1 by (done || lia). rewrite subarray_app_l by (rewrite ?size_prefix; done). rewrite subarray_all; [done|by rewrite size_prefix].
Qed.

Lemma parse_sound grain f h : parseHeader grain (fun _ => f) = Ok h ->
  exists n rs ct tail, header_ok n rs ct /\ f = layout n rs ct ++ tail /\
    h = mkHeader n (size_of (layout n rs ct)) (buildPrefix n) rs (info_length ct ++ ct) ct.
Proof.
  unfold parseHeader. set (b := readFully _ f (PREFIX_LENGTH + 1) 0). set (count := byte_at b PREFIX_LENGTH).
  set (rest := readFully _ f (count * RECIPIENT_LENGTH + 4) _). set (il := read_be (subarray rest (count * _) _)).
  set (ct := readFully _ f il _). set (rs := map _ (seq 0 (Z.to_nat count))). intros Hh.
  apply guard_inv in Hh as [H1 Hh]. apply guard_inv in Hh as [H2 Hh]. apply guard_inv in Hh as [H3 Hh]. apply guard_inv in Hh as [H4 Hh].
  apply guard_inv in Hh as [H5 Hh]. apply guard_inv in Hh as [H6 Hh]. apply guard_inv in Hh as [H7 Hh]. apply guard_inv in Hh as [H8 Hh].
  apply guard_inv in Hh as [H9 Hh]. apply andb_true_iff in H1 as [H1 Hm]. apply bool_decide_eq_true in Hm.
  assert (RECIPIENT_LENGTH = 88) as HR by done. assert (PREFIX_LENGTH = 18) as HP by done.
  assert (0 <= count < 256) as Hc by (unfold count, byte_at; pose proof (read_be_range (subarray b PREFIX_LENGTH (PREFIX_LENGTH + 1))) as Hrg;
    revert Hrg; generalize (size_subarray_le b PREFIX_LENGTH (PREFIX_LENGTH + 1) ltac:(lia)); unfold size_of; intros Hl Hrg; split; [lia|];
    eapply Z.lt_le_trans; [apply Hrg|]; apply (Z.pow_le_mono_r 256 _ 1); lia).
  assert (0 <= il) as Hil by apply read_be_range.
  set (fe := PREFIX_LENGTH + 1) in *. set (re := fe + (count * RECIPIENT_LENGTH + 4)). 
  assert (b = subarray f 0 fe) as Eb by (apply readFully_exact; lia).
  assert (rest = subarray f fe re) as Er by (apply readFully_exact; lia).
  assert (ct = subarray f re (re + il)) as Ec by (unfold ct; rewrite readFully_exact by lia; f_equal; lia).
  pose proof (size_subarray_le f 0 fe ltac:(lia)) as Lb. pose proof (size_subarray_le f fe re ltac:(lia)) as Lr.
  pose proof (size_subarray_le f re (re + il) ltac:(lia)) as Lc. rewrite <- Eb in Lb. rewrite <- Er in Lr. rewrite <- Ec in Lc.
  assert (size_of b = 19 /\ size_of rest = count * 88 + 4 /\ size_of ct = il) as (Sb & Sr & Sc) by lia.
  set (e := fun i : nat => subarray rest (Z.of_nat i * RECIPIENT_LENGTH) ((Z.of_nat i + 1) * RECIPIENT_LENGTH)) in *.
  assert (forall i, (i < Z.to_nat count)%nat -> size_of (e i) = RECIPIENT_LENGTH) as Se by (intros i Hi; unfold e; rewrite size_subarray; lia).
  assert (Forall entry_ok rs /\ concat (entry_bytes <$> rs) = subarray rest 0 (count * RECIPIENT_LENGTH)) as [Hok Hes].
  { split.
    - apply Forall_forall. intros r Hr. unfold rs in Hr. apply list_elem_of_In, in_map_iff in Hr as (i & <- & Hi). apply in_seq in Hi.
      apply entry_parse, Se. lia.
    - unfold rs, fmap. change (list_fmap _ _ entry_bytes) with (map entry_bytes). rewrite map_map.
      rewrite (map_ext_in _ e); [|intros i Hi; apply in_seq in Hi; apply entry_parse, Se; lia].
      unfold e. rewrite concat_pieces by lia. by rewrite Z2Nat.id by lia. }
  assert (length rs = Z.to_nat count) as Hlen by (unfold rs; by rewrite length_map, length_seq).
  exists (read_be (subarray b 6 14)), rs, ct, (subarray f (re + il) (size_of f)).
  assert (header_ok (read_be (subarray b 6 14)) rs ct) as Hheader.
  { split; [split; [apply read_be_range|lia]|rewrite Hlen; lia|done|rewrite Sc; lia]. }
  assert (subarray rest (count * RECIPIENT_LENGTH) (size_of rest) = info_length ct) as Ei.
  { unfold info_length. rewrite Sc. unfold il. rewrite Sr, HR. apply subarray_be; lia. }
  assert (b = buildPrefix (read_be (subarray b 6 14)) ++ [byte_of count]) as Efix by (apply fixed_sound; [done|done|lia|lia|lia]).
  split; [done|]. split.
  - unfold layout. rewrite Hlen, Z2Nat.id, Hes, <- Ei by lia.
    change (byte_of count :: ?x) with ([byte_of count] ++ x). rewrite <- !app_assoc, (app_assoc (buildPrefix _)), <- Efix.
    rewrite (app_assoc (subarray rest _ _)), subarray_split by lia. rewrite (subarray_all rest) by lia.
    rewrite Eb, Er, Ec. rewrite (app_assoc (subarray f 0 _)), subarray_split by lia.
    rewrite (app_assoc (subarray f 0 _)), subarray_split by lia. apply split_at. lia.
  - injection Hh as <-. f_equal.
    + rewrite (size_layout _ _ _ Hok), Hlen, Sc. lia.
    + rewrite Efix at 1. rewrite subarray_app_l by (rewrite ?size_prefix; lia). rewrite subarray_all; [done|rewrite size_prefix; lia].
    + by rewrite Ei.
Qed.
End laws.
