(* ===== verification/LockedSegments.v ===== *)
(** * Locked files: the segments

    Where each sealed segment is in a file and what it opens to; what a stream gives of a range when every
    segment that opens is the right one; and what writing leaves on disk. *)

From stdpp Require Import gmap strings list.
From S2P Require Import Prelude JsNumber JsString JsBuffer LockedFile LockedFormat.
Open Scope Z_scope.

(** ** Counting *)

Lemma segment_size : SEGMENT_SIZE = 65536.
Proof. done. Qed.
Lemma tag_size : TAG = 16.
Proof. done. Qed.
Lemma segmentCount_pos n : 1 <= segmentCount n.
Proof. unfold segmentCount. lia. Qed.
(** The last segment is the first that reaches the end. *)
Lemma count_covers n : 0 <= n -> n <= segmentCount n * SEGMENT_SIZE.
Proof.
  intros. unfold segmentCount. rewrite segment_size. pose proof (Z.div_mod (n + 65536 - 1) 65536 ltac:(lia)).
  pose proof (Z.mod_pos_bound (n + 65536 - 1) 65536 ltac:(lia)). lia.
Qed.
Lemma count_before n i : 0 <= i -> i < segmentCount n - 1 -> (i + 1) * SEGMENT_SIZE <= n.
Proof.
  intros ? Hi. unfold segmentCount in Hi. rewrite segment_size in *. pose proof (Z.div_mod (n + 65536 - 1) 65536 ltac:(lia)).
  pose proof (Z.mod_pos_bound (n + 65536 - 1) 65536 ltac:(lia)). lia.
Qed.
Lemma count_start n i : 0 <= n -> 0 <= i -> i < segmentCount n -> i * SEGMENT_SIZE <= n.
Proof. intros. destruct (Z.eq_dec i 0) as [->|]; [lia|]. pose proof (count_before n (i - 1)). lia. Qed.
Lemma plain_length_nonneg n i : 0 <= n -> 0 <= i -> i < segmentCount n -> 0 <= segmentPlainLength n i.
Proof. intros. pose proof (count_start n i). unfold segmentPlainLength. rewrite segment_size in *. lia. Qed.
Lemma plain_length_full n i : 0 <= i -> i < segmentCount n - 1 -> segmentPlainLength n i = SEGMENT_SIZE.
Proof. intros. pose proof (count_before n i). unfold segmentPlainLength. rewrite segment_size in *. lia. Qed.
(** An offset is in the segment its quotient names. *)
Lemma offset_segment n x : 0 <= x -> x < n -> 0 <= x / SEGMENT_SIZE < segmentCount n /\ x / SEGMENT_SIZE * SEGMENT_SIZE <= x < (x / SEGMENT_SIZE + 1) * SEGMENT_SIZE.
Proof.
  intros. pose proof (count_covers n ltac:(lia)). rewrite segment_size in *. pose proof (Z.div_mod x 65536 ltac:(lia)).
  pose proof (Z.mod_pos_bound x 65536 ltac:(lia)). pose proof (Z.div_pos x 65536). nia.
Qed.

(** ** Pieces *)

Definition plain_piece (p : Buffer) (i : Z) : Buffer := subarray p (i * SEGMENT_SIZE) ((i + 1) * SEGMENT_SIZE).
Lemma size_plain_piece p i : 0 <= i -> i < segmentCount (size_of p) -> size_of (plain_piece p i) = segmentPlainLength (size_of p) i.
Proof.
  intros H0 Hi. pose proof (size_nonneg p). pose proof (count_start (size_of p) i). unfold plain_piece, segmentPlainLength. rewrite segment_size in *.
  destruct (Z.le_gt_cases ((i + 1) * 65536) (size_of p)).
  - rewrite size_subarray by lia. lia.
  - unfold size_of, subarray in *. rewrite length_take, length_drop. lia.
Qed.
Lemma concat_plain p : concat (map (fun i => plain_piece p (Z.of_nat i)) (seq 0 (Z.to_nat (segmentCount (size_of p))))) = p.
Proof.
  unfold plain_piece. rewrite concat_pieces by done. apply subarray_all. pose proof (size_nonneg p). pose proof (segmentCount_pos (size_of p)).
  rewrite Z2Nat.id by lia. by apply count_covers.
Qed.

Lemma concat_same_size (l : nat -> Buffer) k n : (forall j, (j < n)%nat -> size_of (l j) = k) -> size_of (concat (map l (seq 0 n))) = Z.of_nat n * k.
Proof.
  induction n as [|n IH]; intros H; [done|]. rewrite seq_S, map_app, concat_app, size_app, IH by (intros; apply H; lia).
  cbn [map concat]. rewrite app_nil_r, Nat.add_0_l, H by lia. lia.
Qed.
(** A piece, when all before it have one size. *)
Lemma pieces_at (l : nat -> Buffer) k n i : (i < n)%nat -> (forall j, (j < i)%nat -> size_of (l j) = k) ->
  subarray (concat (map l (seq 0 n))) (Z.of_nat i * k) (Z.of_nat i * k + size_of (l i)) = l i.
Proof.
  intros Hi Hk. replace n with (i + (1 + (n - i - 1)))%nat by lia. rewrite seq_app, map_app, concat_app. cbn [seq Nat.add map concat].
  apply subarray_piece; [|done]. by rewrite (concat_same_size l k i).
Qed.

Section segments.
Context {C : Crypto} {CL : CryptoLaws}.
Context (grain : nat -> Z).

(** The sealed segments of [p]. *)
Definition sealed_piece (key p : Buffer) (i : nat) : Buffer := seal_segment key (segmentCount (size_of p)) (Z.of_nat i) (plain_piece p (Z.of_nat i)).
Definition body (key p : Buffer) : Buffer := concat (map (sealed_piece key p) (seq 0 (Z.to_nat (segmentCount (size_of p))))).

Lemma size_sealed_piece key p i : (i < Z.to_nat (segmentCount (size_of p)))%nat ->
  size_of (sealed_piece key p i) = segmentPlainLength (size_of p) (Z.of_nat i) + TAG.
Proof. intros. unfold sealed_piece, seal_segment. rewrite size_seal, size_plain_piece by lia. done. Qed.
Lemma size_sealed_concat key p l : size_of (concat (map (sealed_piece key p) l)) =
  size_of (concat (map (fun i => plain_piece p (Z.of_nat i)) l)) + Z.of_nat (length l) * TAG.
Proof.
  induction l as [|i l IH]; [done|]. cbn [map concat length]. rewrite !size_app, IH. unfold sealed_piece, seal_segment. rewrite size_seal. lia.
Qed.
Lemma size_body key p : size_of (body key p) = size_of p + segmentCount (size_of p) * TAG.
Proof.
  unfold body. rewrite size_sealed_concat, concat_plain, length_seq. pose proof (segmentCount_pos (size_of p)). rewrite Z2Nat.id by lia. done.
Qed.

(** What a segment of a file opens to is settled by the bytes where it is. *)
Definition segment_bytes (file : Buffer) (h : ParsedHeader) (i : Z) : Buffer :=
  let at_ := headerLength h + i * SEALED_SEGMENT in subarray file at_ (at_ + (segmentPlainLength (plaintextLength h) i + TAG)).
Lemma open_segment_bytes file h key i : 0 <= headerLength h -> 0 <= plaintextLength h -> 0 <= i -> i < segmentCount (plaintextLength h) ->
  open_segment grain file h key i =
    (_ ← ensure (size_of (segment_bytes file h i) =? segmentPlainLength (plaintextLength h) i + TAG) (Corrupt (SegmentTruncated i));
     or_throw (Corrupt (SegmentUnauthentic i))
       (unseal key (segmentNonce i) (segment_bytes file h i) (segmentAad i (i =? segmentCount (plaintextLength h) - 1)))).
Proof.
  intros. pose proof (plain_length_nonneg (plaintextLength h) i). unfold open_segment.
  rewrite readFully_exact by (rewrite ?tag_size; unfold SEALED_SEGMENT; rewrite ?segment_size, ?tag_size; lia). done.
Qed.
Lemma open_good h header key p i : plaintextLength h = size_of p -> headerLength h = size_of header -> 0 <= i -> i < segmentCount (size_of p) ->
  open_segment grain (header ++ body key p) h key i = Ok (plain_piece p i).
Proof.
  intros Hp Hh H0 Hi. pose proof (size_nonneg p). pose proof (size_nonneg header). rewrite open_segment_bytes by (rewrite ?Hp; lia).
  assert (segment_bytes (header ++ body key p) h i = sealed_piece key p (Z.to_nat i)) as E.
  { unfold segment_bytes. rewrite Hh, Hp. rewrite subarray_app_r by (unfold SEALED_SEGMENT; rewrite segment_size, tag_size; lia).
    rewrite <- (pieces_at (sealed_piece key p) SEALED_SEGMENT (Z.to_nat (segmentCount (size_of p))) (Z.to_nat i)) at 1; [|lia|].
    - rewrite size_sealed_piece by lia. rewrite Z2Nat.id by lia. unfold body. f_equal; lia.
    - intros j Hj. rewrite size_sealed_piece by lia. rewrite plain_length_full by lia. done. }
  rewrite E, Hp, size_sealed_piece, Z2Nat.id by lia. rewrite ensure_bind by lia.
  unfold sealed_piece, seal_segment. rewrite Z2Nat.id by lia. by rewrite unseal_seal.
Qed.

(** ** Streams *)

(** When every segment that opens is the right piece, a stream gives the range it was asked for from its
    first segment on, or a beginning of it and an error. *)
Lemma segments_spec file h key p start end_ first last n index : size_of p = plaintextLength h ->
  0 <= start -> start <= end_ -> end_ < size_of p -> first = start / SEGMENT_SIZE -> last = end_ / SEGMENT_SIZE ->
  first <= index -> last = index + Z.of_nat n - 1 ->
  (forall i q, index <= i <= last -> open_segment grain (file (4 + Z.to_nat (i - first))%nat) h key i = Ok q -> q = plain_piece p i) ->
  let s := segments grain file h key start end_ first last n index in
  let wanted := subarray p (Z.max start (index * SEGMENT_SIZE)) (end_ + 1) in
  concat (chunks_ s) `prefix_of` wanted /\ (stopped s = None -> concat (chunks_ s) = wanted).
Proof.
  intros Hp Hs0 Hse Hend Hf Hl. pose proof (offset_segment (size_of p) start ltac:(lia) ltac:(lia)) as [Hf1 Hf2].
  pose proof (offset_segment (size_of p) end_ ltac:(lia) ltac:(lia)) as [Hl1 Hl2]. rewrite <- Hf in *. rewrite <- Hl in *.
  revert index. induction n as [|n IH]; intros index Hi Hn Hopen; cbn [segments].
  { cbn [chunks_ stopped concat]. rewrite subarray_nil by (rewrite segment_size in *; lia). done. }
  destruct (open_segment _ _ _ _ _) as [q|e] eqn:E; [|cbn; split; [apply prefix_nil|done]].
  apply Hopen in E as ->; [|lia]. destruct (IH (index + 1) ltac:(lia) ltac:(lia)) as [Hpre Hall].
  { intros i q Hiq. apply Hopen. lia. }
  set (s := segments _ _ _ _ _ _ _ _ n _) in *. set (from := if index =? first then _ else _). set (to := if index =? last then _ else _).
  assert (size_of (plain_piece p index) = segmentPlainLength (size_of p) index) as Hsz by (apply size_plain_piece; lia).
  assert (index < last -> (index + 1) * SEGMENT_SIZE <= end_) as Hbefore by (rewrite segment_size in *; lia).
  assert (index * SEGMENT_SIZE + from = Z.max start (index * SEGMENT_SIZE) /\ 0 <= from) as [Hfrom Hfrom0].
  { unfold from. destruct (Z.eqb_spec index first) as [->|]; rewrite segment_size in *; lia. }
  assert (index * SEGMENT_SIZE + to = Z.min (end_ + 1) ((index + 1) * SEGMENT_SIZE)) as Hto.
  { unfold to. destruct (Z.eqb_spec index last) as [->|]; [lia|]. rewrite Hsz. unfold segmentPlainLength. rewrite segment_size in *. lia. }
  assert (from < to) as Hlt.
  { assert (start < (index + 1) * SEGMENT_SIZE) by (rewrite segment_size in *; lia).
    assert (index * SEGMENT_SIZE <= end_) by (rewrite segment_size in *; lia). rewrite segment_size in *. lia. }
  rewrite (proj2 (Z.ltb_lt from to) Hlt). cbn [emit chunks_ stopped concat].
  assert (subarray p (Z.max start (index * SEGMENT_SIZE)) (end_ + 1) =
    subarray (plain_piece p index) from to ++ subarray p (Z.max start ((index + 1) * SEGMENT_SIZE)) (end_ + 1)) as ->.
  { unfold plain_piece. rewrite subarray_subarray by (rewrite segment_size in *; lia). rewrite Hfrom, Hto.
    destruct (Z.eq_dec index last) as [->|].
    - rewrite (subarray_nil p (Z.max start ((last + 1) * SEGMENT_SIZE))) by (rewrite segment_size in *; lia). rewrite app_nil_r. f_equal. rewrite segment_size in *. lia.
    - replace (Z.max start ((index + 1) * SEGMENT_SIZE)) with (Z.min (end_ + 1) ((index + 1) * SEGMENT_SIZE)) by (rewrite segment_size in *; lia).
      symmetry. apply subarray_split; rewrite segment_size in *; lia. }
  split; [by apply prefix_app|]. intros Hn'. f_equal. by apply Hall.
Qed.
Lemma segments_end file h key start end_ first last n index :
  (forall i, index <= i < index + Z.of_nat n -> exists q, open_segment grain (file (4 + Z.to_nat (i - first))%nat) h key i = Ok q) ->
  stopped (segments grain file h key start end_ first last n index) = None.
Proof.
  revert index. induction n as [|n IH]; intros index H; cbn [segments]; [done|].
  destruct (H index ltac:(lia)) as (q & ->). pose proof (IH (index + 1)) as Hi. destruct (_ <? _); cbn [emit stopped]; apply Hi; intros; apply H; lia.
Qed.
(** An empty file gives nothing. *)
Lemma segments_empty file h key p : size_of p = 0 ->
  (forall q, open_segment grain (file 4%nat) h key 0 = Ok q -> q = plain_piece p 0) ->
  concat (chunks_ (segments grain file h key 0 (-1) 0 0 1 0)) = [].
Proof.
  intros Hp H. apply size_nil in Hp as ->. cbn [segments]. change (4 + Z.to_nat (0 - 0))%nat with 4%nat.
  destruct (open_segment _ _ _ _ _) as [q|e]; [|done]. rewrite (H q eq_refl). done.
Qed.

(** ** Writing *)

Lemma put_end file bytes : put file (size_of file) bytes = file ++ bytes.
Proof. unfold put. destruct bytes; [by rewrite app_nil_r|]. by rewrite Z.sub_diag. Qed.
(** Without short writes, what was written is what was meant. *)
Lemma write_all_whole io chunks n file f : (forall i k, io i <> Short k) ->
  write_all io n chunks file (size_of file) = (f, Ok tt) -> exists bs, chunks = map Ok bs /\ f = file ++ concat bs.
Proof.
  intros Hio. revert n file. induction chunks as [|c chunks IH]; intros n file; cbn [write_all].
  - exists []. rewrite app_nil_r. destruct (io n); injection H as <-; done.
  - destruct c as [b|e]; [|done]. destruct (io n) eqn:E; [done| |by apply Hio in E].
    cbn [written]. rewrite put_end, <- size_app. intros (bs & -> & ->)%IH. exists (b :: bs). cbn. by rewrite app_assoc.
Qed.
Lemma written_whole io fs src dst chunks fs' : (forall i k, io i <> Short k) -> writeOutput io fs src dst chunks = (fs', Ok tt) ->
  fs !! dst = None /\ src <> dst /\ exists bs, chunks = map Ok bs /\ fs' = <[dst := concat bs]> fs.
Proof.
  intros Hio. unfold writeOutput. case_bool_decide; [done|]. destruct (fs !! dst) eqn:E; [done|].
  destruct (write_all io 0 chunks [] 0) as [f [u|e]] eqn:Ew; [|done]. intros [= <-]. destruct u.
  apply (write_all_whole _ _ _ []) in Ew as (bs & -> & ->); [|done]. eauto.
Qed.
End segments.
