(* ===== verification/LockedPromises.v ===== *)
(** * Locked files: what they promise

    What was encrypted is read back, from any place, by every recipient and nobody else; a file that was
    tampered with never shows anything but its original; and giving a file to other recipients keeps what it
    holds. *)

From stdpp Require Import gmap strings list.
From S2P Require Import Prelude JsNumber JsString JsBuffer LockedFile LockedFormat LockedSegments.
Open Scope Z_scope.

Section promises.
Context {C : Crypto} {CL : CryptoLaws}.
Context (grain : nat -> Z).

(** ** Recipients *)

Definition recipient_of (prefix fileKey fresh publicKey : Buffer) : ParsedRecipient :=
  let id := key_id publicKey in
  mkRecipient id (public_of fresh) (seal (hkdf (diffieHellman fresh publicKey) prefix "wrap") ZERO_NONCE fileKey (wrapAad id (public_of fresh))).
Definition recipients_of (prefix fileKey : Buffer) (fresh : nat -> Buffer) (publicKeys : list Buffer) : list ParsedRecipient :=
  (fun r => recipient_of prefix fileKey (fresh r.1) r.2) <$> imap pair publicKeys.
(** The secret two keys share is one. *)
Definition shares (fresh publicKey : Buffer) : Prop := sharedSecret fresh publicKey = Ok (diffieHellman fresh publicKey).

Lemma sharedSecret_Ok a b s : sharedSecret a b = Ok s -> s = diffieHellman a b /\ is_raw b = true.
Proof. unfold sharedSecret. intros [H1 [_ H2]%guard_inv]%guard_inv. by injection H2 as <-. Qed.
Lemma shares_sym fresh privateKey : is_raw fresh = true -> is_raw privateKey = true -> shares fresh (public_of privateKey) ->
  sharedSecret privateKey (public_of fresh) = Ok (diffieHellman fresh (public_of privateKey)).
Proof.
  intros Hf Hp Hs. unfold shares, sharedSecret in *. rewrite (ensure_bind _ _ _ (public_raw fresh Hf)).
  rewrite (ensure_bind _ _ _ (public_raw privateKey Hp)) in Hs. by rewrite (diffieHellman_sym privateKey fresh Hp Hf).
Qed.

Lemma elem_of_imap_pair {A} (l : list A) n x : (n, x) ∈ imap pair l <-> l !! n = Some x.
Proof.
  rewrite list_elem_of_lookup. split.
  - intros (i & H). rewrite list_lookup_imap in H. destruct (l !! i) as [y|] eqn:E; [|done]. by injection H as <- <-.
  - intros H. exists n. rewrite list_lookup_imap, H. done.
Qed.
Lemma built_recipient prefix fileKey fresh publicKey e : build_recipient prefix fileKey fresh publicKey = Ok e ->
  e = entry_bytes (recipient_of prefix fileKey fresh publicKey) /\ shares fresh publicKey.
Proof.
  unfold build_recipient, keyId. destruct (is_raw publicKey) eqn:E; [|done]. cbn [ensure mbind res_bind].
  destruct (sharedSecret fresh publicKey) as [s|] eqn:Es; [|done]. intros [= <-]. unfold shares.
  apply sharedSecret_Ok in Es as H. destruct H as [-> _]. by rewrite Es.
Qed.
Lemma built_recipients fresh prefix fileKey publicKeys l : buildRecipients fresh prefix fileKey publicKeys = Ok l ->
  l = byte_of (Z.of_nat (length publicKeys)) :: concat (entry_bytes <$> recipients_of prefix fileKey fresh publicKeys) /\
  0 < Z.of_nat (length publicKeys) <= 255 /\ forall n pk, publicKeys !! n = Some pk -> shares (fresh n) pk.
Proof.
  unfold buildRecipients. intros [Hc Hl]%guard_inv. destruct (traverse _ _) as [es|] eqn:Et; [|done]. injection Hl as <-.
  apply traverse_Ok in Et. split; [|split; [lia|]].
  - f_equal. f_equal. unfold recipients_of. rewrite <- list_fmap_compose. induction Et as [|r e rs es Hr _ IH]; [done|].
    cbn. apply built_recipient in Hr as [-> _]. by rewrite IH.
  - intros n pk Hn. apply elem_of_imap_pair in Hn. apply list_elem_of_lookup in Hn as (i & Hi).
    destruct (Forall2_lookup_l _ _ _ _ _ Et Hi) as (e & _ & He). apply (built_recipient prefix fileKey (fresh n) pk) in He. apply He.
Qed.
Lemma recipients_ok prefix fileKey fresh publicKeys : is_raw fileKey = true -> (forall n, is_raw (fresh n) = true) ->
  Forall entry_ok (recipients_of prefix fileKey fresh publicKeys) /\ length (recipients_of prefix fileKey fresh publicKeys) = length publicKeys.
Proof.
  intros Hk Hf. unfold recipients_of. rewrite length_fmap, length_imap. split; [|done]. apply Forall_fmap, Forall_forall. intros [n pk] _.
  unfold entry_ok; cbn. rewrite size_key_id, size_seal. unfold is_raw in *. pose proof (public_raw (fresh n) (Hf n)) as Hp. unfold is_raw in Hp.
  rewrite tag_size. lia.
Qed.

(** Whose key opens it. *)
Definition recipient (privateKey : Buffer) (publicKeys : list Buffer) : Prop :=
  is_raw privateKey = true /\ public_of privateKey ∈ publicKeys /\
  forall pk, pk ∈ publicKeys -> key_id pk = key_id (public_of privateKey) -> pk = public_of privateKey.
Definition stranger (privateKey : Buffer) (publicKeys : list Buffer) : Prop :=
  is_raw privateKey = true /\ forall pk, pk ∈ publicKeys -> key_id pk <> key_id (public_of privateKey).

Lemma find_recipient (rs : list ParsedRecipient) id r : List.find (fun r => bool_decide (r_keyId r = id)) rs = Some r -> r ∈ rs /\ r_keyId r = id.
Proof. intros H. apply List.find_some in H as [Hr Hi]. apply bool_decide_eq_true in Hi. split; [|done]. by apply list_elem_of_In. Qed.
Lemma own_id privateKey : is_raw privateKey = true ->
  (public ← publicKeyFromPrivate privateKey; keyId public) = Ok (key_id (public_of privateKey)).
Proof. intros H. unfold publicKeyFromPrivate, keyId. rewrite (ensure_bind _ _ _ H). cbn [mbind res_bind]. by rewrite (ensure_bind _ _ _ (public_raw _ H)). Qed.
Lemma unwrap_own h privateKey : is_raw privateKey = true -> unwrapFileKey h privateKey =
  (recipient ← or_throw WrongSecret (List.find (fun r => bool_decide (r_keyId r = key_id (public_of privateKey))) (recipients h));
   catch_as (Corrupt KeyUnauthentic)
     (secret ← sharedSecret privateKey (ephemeral recipient);
      or_throw (Corrupt KeyUnauthentic)
        (unseal (hkdf secret (prefix h) "wrap") ZERO_NONCE (wrapped recipient) (wrapAad (r_keyId recipient) (ephemeral recipient))))).
Proof.
  intros H. unfold unwrapFileKey, publicKeyFromPrivate, keyId. rewrite (ensure_bind _ _ _ H). cbn [mbind res_bind].
  by rewrite (ensure_bind _ _ _ (public_raw _ H)).
Qed.
Lemma unwrap_recipient h prefix_ fileKey fresh publicKeys privateKey : prefix h = prefix_ ->
  recipients h = recipients_of prefix_ fileKey fresh publicKeys -> (forall n, is_raw (fresh n) = true) ->
  (forall n pk, publicKeys !! n = Some pk -> shares (fresh n) pk) -> recipient privateKey publicKeys -> unwrapFileKey h privateKey = Ok fileKey.
Proof.
  intros Hp Hr Hf Hs (Hk & Hin & Hone). rewrite unwrap_own by done. rewrite Hr, Hp.
  destruct (List.find _ _) as [r|] eqn:Ef.
  - apply find_recipient in Ef as [Hel Hid]. apply list_elem_of_fmap in Hel as ([n pk] & -> & Hn). apply elem_of_imap_pair in Hn.
    cbn [recipient_of r_keyId ephemeral wrapped fst snd or_throw mbind res_bind] in *.
    apply Hone in Hid as ->; [|by eapply list_elem_of_lookup_2]. rewrite (shares_sym _ _ (Hf n) Hk (Hs _ _ Hn)). cbn [mbind res_bind].
    by rewrite unseal_seal.
  - exfalso. apply list_elem_of_lookup in Hin as (n & Hn).
    pose proof (List.find_none _ _ Ef (recipient_of prefix_ fileKey (fresh n) (public_of privateKey))) as H.
    enough (bool_decide (key_id (public_of privateKey) = key_id (public_of privateKey)) = false) as Hb by (by apply bool_decide_eq_false in Hb).
    apply H, list_elem_of_In, list_elem_of_fmap. exists (n, public_of privateKey). split; [done|]. by apply elem_of_imap_pair.
Qed.
Lemma unwrap_stranger h prefix_ fileKey fresh publicKeys privateKey : recipients h = recipients_of prefix_ fileKey fresh publicKeys ->
  stranger privateKey publicKeys -> unwrapFileKey h privateKey = Throw WrongSecret.
Proof.
  intros Hr (Hk & Hno). rewrite unwrap_own by done. rewrite Hr. destruct (List.find _ _) as [r|] eqn:Ef; [|done].
  exfalso. apply find_recipient in Ef as [Hel Hid]. apply list_elem_of_fmap in Hel as ([n pk] & -> & Hn). apply elem_of_imap_pair in Hn.
  apply (Hno pk); [by eapply list_elem_of_lookup_2|done].
Qed.

(** ** Opening *)

(** A range that may be asked for, and what it asks for. *)
Definition may_ask (range : option (Z * Z)) (n : Z) : Prop := match range with Some r => 0 <= r.1 /\ r.1 <= r.2 /\ r.2 < n | None => True end.
#[export] Instance may_ask_dec range n : Decision (may_ask range n).
Proof. destruct range; cbn; apply _. Defined.
Definition wanted (p : Buffer) (range : option (Z * Z)) : Buffer := match range with Some r => subarray p r.1 (r.2 + 1) | None => p end.

Lemma in_range_spec s e n : n <= MAX_SAFE_INTEGER -> in_range s e n = true <-> 0 <= s /\ s <= e /\ e < n.
Proof. unfold in_range, is_safe_integer, MAX_SAFE_INTEGER. intros. lia. Qed.

(** What [openDecrypt] does once the key and the information are open. *)
Definition stream_of (file : nat -> Buffer) (h : ParsedHeader) (segmentKey : Buffer) (range : option (Z * Z)) : Stream :=
  let n := plaintextLength h in
  let start := match range with Some r => r.1 | None => 0 end in
  let end_ := match range with Some r => r.2 | None => n - 1 end in
  let first := if n =? 0 then 0 else start / SEGMENT_SIZE in
  let last := if n =? 0 then 0 else end_ / SEGMENT_SIZE in
  match assertFileLength (file 3%nat) h with
  | Throw e => mkStream [] (Some e)
  | Ok _ => segments grain file h segmentKey start end_ first last (Z.to_nat (last - first + 1)) first
  end.
Lemma open_unfold file privateKey range h : parseHeader grain file = Ok h ->
  (may_ask range (plaintextLength h) -> openDecrypt grain file privateKey range =
    (fileKey ← unwrapFileKey h privateKey; info ← openInfo h fileKey;
     Ok (mkOpened (stream_of file h (hkdf fileKey (prefix h) "segment") range) (plaintextLength h) info))) /\
  (~ may_ask range (plaintextLength h) -> openDecrypt grain file privateKey range = Throw RangeOutside).
Proof.
  intros Hh. apply parse_prefix in Hh as Hp. destruct Hp as [_ Hn]. unfold openDecrypt. rewrite Hh. cbn [mbind res_bind]. destruct range as [[s e]|]; cbn [may_ask fst snd].
  - pose proof (in_range_spec s e (plaintextLength h) ltac:(lia)) as Hr. destruct (in_range s e _); cbn [ensure mbind res_bind].
    + split; [done|]. intros H. exfalso. apply H. by apply Hr.
    + split; [|done]. intros H. apply Hr in H. done.
  - split; [done|]. intros H. by exfalso.
Qed.

(** A stream shows what the right pieces are, as far as segments open. *)
Lemma stream_spec file h key p range : size_of p = plaintextLength h -> may_ask range (plaintextLength h) ->
  (forall t i q, 0 <= i < segmentCount (plaintextLength h) -> open_segment grain (file t) h key i = Ok q -> q = plain_piece p i) ->
  concat (chunks_ (stream_of file h key range)) `prefix_of` wanted p range /\
  (stopped (stream_of file h key range) = None -> concat (chunks_ (stream_of file h key range)) = wanted p range).
Proof.
  intros Hp Hr Hopen. unfold stream_of. destruct (assertFileLength _ _); [|cbn; split; [apply prefix_nil|done]].
  pose proof (segmentCount_pos (plaintextLength h)). destruct (Z.eqb_spec (plaintextLength h) 0) as [E|E].
  - destruct range as [[s e]|]; [cbn in Hr; lia|]. cbn [wanted]. rewrite E. change (Z.to_nat (0 - 0 + 1)) with 1%nat. change (0 - 1) with (-1).
    rewrite (segments_empty grain file h key p) by (lia || (intros q; apply Hopen; lia)). rewrite (size_nil p) by lia. done.
  - set (start := match range with Some r => r.1 | None => 0 end). set (end_ := match range with Some r => r.2 | None => plaintextLength h - 1 end).
    assert (0 <= start /\ start <= end_ /\ end_ < size_of p) as (H1 & H2 & H3).
    { unfold start, end_. pose proof (size_nonneg p). destruct range; [cbn in Hr|]; lia. }
    assert (wanted p range = subarray p start (end_ + 1)) as ->.
    { unfold start, end_. destruct range; [done|]. cbn. symmetry. apply subarray_all. lia. }
    pose proof (offset_segment (size_of p) start ltac:(lia) ltac:(lia)) as [Hf1 Hf2].
    pose proof (offset_segment (size_of p) end_ ltac:(lia) ltac:(lia)) as [Hl1 Hl2]. rewrite Hp in *.
    assert (start / SEGMENT_SIZE <= end_ / SEGMENT_SIZE) by (apply Z.div_le_mono; lia).
    pose proof (segments_spec grain file h key p start end_ (start / SEGMENT_SIZE) (end_ / SEGMENT_SIZE)
      (Z.to_nat (end_ / SEGMENT_SIZE - start / SEGMENT_SIZE + 1)) (start / SEGMENT_SIZE) Hp H1 H2 ltac:(lia) eq_refl eq_refl ltac:(lia) ltac:(lia)) as Hs.
    rewrite Z.max_l in Hs by lia. apply Hs. intros i q Hi. apply Hopen. lia.
Qed.
(** The segments a range reads are there. *)
Definition first_of (range : option (Z * Z)) (n : Z) : Z := if n =? 0 then 0 else (match range with Some r => r.1 | None => 0 end) / SEGMENT_SIZE.
Definition last_of (range : option (Z * Z)) (n : Z) : Z := if n =? 0 then 0 else (match range with Some r => r.2 | None => n - 1 end) / SEGMENT_SIZE.
Lemma asked_segments range n i : 0 <= n -> may_ask range n ->
  first_of range n <= i < first_of range n + Z.of_nat (Z.to_nat (last_of range n - first_of range n + 1)) -> 0 <= i < segmentCount n.
Proof.
  unfold first_of, last_of. intros Hn Hr Hi. pose proof (segmentCount_pos n). destruct (Z.eqb_spec n 0) as [E|E]; [lia|].
  destruct range as [[s e]|]; cbn in Hr, Hi.
  - pose proof (offset_segment n s ltac:(lia) ltac:(lia)). pose proof (offset_segment n e ltac:(lia) ltac:(lia)).
    assert (s / SEGMENT_SIZE <= e / SEGMENT_SIZE) by (apply Z.div_le_mono; lia). lia.
  - pose proof (offset_segment n (n - 1) ltac:(lia) ltac:(lia)). rewrite Z.div_0_l in Hi by done.
    assert (0 <= (n - 1) / SEGMENT_SIZE) by lia. lia.
Qed.
Lemma stream_ends file h key range : (forall t, size_of (file t) = expectedFileLength h) -> 0 <= plaintextLength h -> may_ask range (plaintextLength h) ->
  (forall t i, 0 <= i < segmentCount (plaintextLength h) -> exists q, open_segment grain (file t) h key i = Ok q) ->
  stopped (stream_of file h key range) = None.
Proof.
  intros Hl Hn Hr Hopen. unfold stream_of, assertFileLength. rewrite Hl, Z.eqb_refl. cbn [ensure]. apply segments_end. intros i Hi. apply Hopen.
  by eapply asked_segments.
Qed.
Lemma segments_same file file' h h' key start end_ first last n index :
  (forall i t, index <= i < index + Z.of_nat n -> open_segment grain (file t) h key i = open_segment grain (file' t) h' key i) ->
  segments grain file h key start end_ first last n index = segments grain file' h' key start end_ first last n index.
Proof.
  revert index. induction n as [|n IH]; intros index H; cbn [segments]; [done|]. rewrite (H index) by lia.
  rewrite (IH (index + 1)); [done|]. intros i t Hi. apply H. lia.
Qed.

(** ** Encrypting *)

Lemma source_pieces (seg : nat -> Buffer) n : 0 <= n ->
  (forall i, (i < Z.to_nat (segmentCount n))%nat -> size_of (seg i) = segmentPlainLength n (Z.of_nat i)) ->
  let p := concat (map seg (seq 0 (Z.to_nat (segmentCount n)))) in
  size_of p = n /\ forall i, (i < Z.to_nat (segmentCount n))%nat -> plain_piece p (Z.of_nat i) = seg i.
Proof.
  intros Hn Hs p. pose proof (segmentCount_pos n) as Hc. set (c := Z.to_nat (segmentCount n)) in *.
  assert (forall j, (j < c - 1)%nat -> size_of (seg j) = SEGMENT_SIZE) as Hfull.
  { intros j Hj. rewrite Hs by lia. apply plain_length_full; lia. }
  assert (size_of p = n) as Hp.
  { unfold p. replace c with (S (c - 1)) by lia. rewrite seq_S, map_app, concat_app, size_app, (concat_same_size seg SEGMENT_SIZE) by done.
    cbn [map concat]. rewrite app_nil_r, Nat.add_0_l, Hs by lia. unfold segmentPlainLength. pose proof (count_covers n Hn) as H. rewrite segment_size in *. lia. }
  split; [done|]. intros i Hi. pose proof (pieces_at seg SEGMENT_SIZE c i Hi ltac:(intros j Hj; apply Hfull; lia)) as Hat. fold p in Hat.
  unfold plain_piece. rewrite <- Hat. rewrite (Hs i Hi). unfold segmentPlainLength. rewrite segment_size in *.
  destruct (Z.le_gt_cases ((Z.of_nat i + 1) * 65536) n); [f_equal; lia|].
  pose proof (count_start n (Z.of_nat i)). rewrite segment_size in *. unfold subarray.
  rewrite !take_ge by (rewrite length_drop; unfold size_of in Hp; lia). done.
Qed.
Lemma chunks_whole {A} (f : A -> res LockedError Buffer) l bs x : Ok x :: map f l = map Ok bs -> exists ys, bs = x :: ys /\ map f l = map Ok ys.
Proof. destruct bs as [|b bs]; [done|]. intros [= -> H]. eauto. Qed.
Lemma encrypted_whole src header key n bs : 0 <= n -> encrypted_chunks grain src header key n = map Ok bs ->
  size_of (source_bytes grain src n) = n /\ concat bs = header ++ body key (source_bytes grain src n).
Proof.
  intros Hn. unfold encrypted_chunks. set (c := Z.to_nat (segmentCount n)). destruct bs as [|b bs]; [done|]. intros [= -> H].
  symmetry in H. apply map_eq_app in H as (ys & zs & -> & Hys & Hzs). symmetry in Hys. cbn [concat]. rewrite concat_app.
  assert (concat zs = []) as ->.
  { unfold source_ends in Hzs. destruct zs as [|z zs]; [done|]. injection Hzs as Hz Hzs. destruct zs; [|done]. apply eq_sym, guard_inv in Hz as [_ Hz].
    by injection Hz as <-. }
  rewrite app_nil_r. set (seg := plain_segment grain src n).
  assert (forall i, (i < c)%nat -> size_of (seg i) = segmentPlainLength n (Z.of_nat i) /\
    ys !! i = Some (seal_segment key (segmentCount n) (Z.of_nat i) (seg i))) as Hseg.
  { intros i Hi. assert (map (@Ok LockedError Buffer) ys !! i = (Ok <$> (ys !! i))) as E by apply list_lookup_fmap. rewrite <- Hys in E.
    assert (map (segment_chunk grain src key n) (seq 0 c) !! i = segment_chunk grain src key n <$> (seq 0 c !! i)) as E2 by apply list_lookup_fmap.
    rewrite E2, lookup_seq_lt in E by done. cbn in E. destruct (ys !! i) as [y|]; [|done]. cbn in E. injection E as E.
    unfold segment_chunk in E. apply guard_inv in E as [H1 H2]. injection H2 as <-. split; [|done]. by apply Z.eqb_eq. }
  pose proof (source_pieces seg n Hn (fun i Hi => proj1 (Hseg i Hi))) as [Hsize Hpiece]. fold c in Hsize, Hpiece.
  change (concat (map seg (seq 0 c))) with (source_bytes grain src n) in *. split; [done|]. f_equal. unfold body. rewrite Hsize. fold c. f_equal.
  apply list_eq. intros i. assert (length ys = c) as Hlen.
  { apply (f_equal (@length _)) in Hys. rewrite !length_map, length_seq in Hys. done. }
  destruct (decide (i < c)%nat) as [Hi|Hi].
  - rewrite (proj2 (Hseg i Hi)). assert (map (sealed_piece key (source_bytes grain src n)) (seq 0 c) !! i = sealed_piece key (source_bytes grain src n) <$> (seq 0 c !! i)) as -> by apply list_lookup_fmap.
    rewrite lookup_seq_lt by done. cbn. unfold sealed_piece. by rewrite Hsize, Hpiece.
  - rewrite !lookup_ge_None_2; [done|rewrite length_map, length_seq; lia|lia].
Qed.

(** What a file holds: its key, its information, its bytes, and for whom. *)
Definition sealed_info (fileKey prefix : Buffer) (info : LockedFileInfo) : Buffer := seal (hkdf fileKey prefix "info") ZERO_NONCE (stringify info) [].
Record holds (f fileKey p : Buffer) (info : LockedFileInfo) (fresh : nat -> Buffer) (publicKeys : list Buffer) : Prop := mkHolds {
  hd_ok : let prefix := buildPrefix (size_of p) in header_ok (size_of p) (recipients_of prefix fileKey fresh publicKeys) (sealed_info fileKey prefix info);
  hd_shares : forall n pk, publicKeys !! n = Some pk -> shares (fresh n) pk;
  hd_bytes : let prefix := buildPrefix (size_of p) in
    f = layout (size_of p) (recipients_of prefix fileKey fresh publicKeys) (sealed_info fileKey prefix info) ++ body (hkdf fileKey prefix "segment") p
}.

Lemma header_made fileKey fresh publicKeys info n header : is_raw fileKey = true -> (forall n, is_raw (fresh n) = true) -> 0 <= n <= MAX_SAFE_INTEGER ->
  encrypt_header fileKey fresh publicKeys info n = Ok header ->
  let rs := recipients_of (buildPrefix n) fileKey fresh publicKeys in
  let ct := sealed_info fileKey (buildPrefix n) info in
  header = layout n rs ct /\ header_ok n rs ct /\ forall n pk, publicKeys !! n = Some pk -> shares (fresh n) pk.
Proof.
  intros Hk Hf Hn. unfold encrypt_header. destruct (buildRecipients _ _ _ _) as [l|] eqn:El; [|done]. cbn [mbind res_bind].
  intros [Hi Hh]%guard_inv. injection Hh as <-. apply built_recipients in El as (-> & Hc & Hs).
  destruct (recipients_ok (buildPrefix n) fileKey fresh publicKeys Hk Hf) as [Ho Hl]. cbn zeta. split; [|split; [|done]].
  - unfold layout. by rewrite Hl.
  - split; [done|by rewrite Hl|done|]. unfold sealed_info. rewrite size_seal in *. pose proof (size_nonneg (stringify info)). rewrite tag_size in *. lia.
Qed.
Lemma encrypt_holds io fs fileKey fresh src srcPath dst publicKeys info verify fs' r : (forall n k, io n <> Short k) -> is_raw fileKey = true ->
  (forall n, is_raw (fresh n) = true) -> size_of (src 0%nat) <= MAX_SAFE_INTEGER ->
  encryptFile grain io fs fileKey fresh src srcPath dst publicKeys info verify = (fs', Ok r) ->
  let p := source_bytes grain src (size_of (src 0%nat)) in
  fs !! dst = None /\ e_plaintextLength r = size_of p /\ e_sha256 r = (if verify then Some (sha256 p) else None) /\
  exists f, fs' = <[dst := f]> fs /\ holds f fileKey p info fresh publicKeys.
Proof.
  intros Hio Hk Hf Hn. unfold encryptFile. pose proof (size_nonneg (src 0%nat)) as H0. set (n := size_of (src 0%nat)) in *.
  destruct (encrypt_header _ _ _ _ _) as [header|] eqn:Eh; [|done]. apply header_made in Eh as (-> & Hok & Hs); [|done|done|lia].
  destruct (writeOutput _ _ _ _ _) as [fs1 [[]|]] eqn:Ew; [|done]. apply written_whole in Ew as (Hno & _ & bs & Ebs & ->); [|done].
  apply encrypted_whole in Ebs as [Hp Hbs]; [|done]. cbn zeta. intros Hr.
  assert (fs' = <[dst:=concat bs]> fs /\ e_plaintextLength r = n /\ e_sha256 r = (if verify then Some (sha256 (source_bytes grain src n)) else None)) as (-> & -> & ->).
  { destruct verify; [|by injection Hr as <- <-]. destruct (verifyWithFileKey _ _ _ _ _) as [d|]; [|done].
    case_bool_decide as Hd; [|done]. injection Hr as <- <-. by rewrite Hd. }
  split; [done|]. split; [done|]. split; [done|]. exists (concat bs). split; [done|]. split; cbn zeta; rewrite ?Hp; done.
Qed.
Lemma encrypt_fails io fs fileKey fresh src srcPath dst publicKeys info verify fs' e :
  encryptFile grain io fs fileKey fresh src srcPath dst publicKeys info verify = (fs', Throw e) -> fs' = fs.
Proof.
  unfold encryptFile, writeOutput. destruct (encrypt_header _ _ _ _ _); [|by intros [= <- _]]. case_bool_decide; [by intros [= <- _]|].
  destruct (fs !! dst) eqn:E; [by intros [= <- _]|]. destruct (write_all _ _ _ _ _) as [f [u|]]; [|by intros [= <- _]].
  destruct verify; [|done]. assert (delete dst (<[dst:=f]> fs) = fs) as Hd by (by apply delete_insert_id).
  destruct (verifyWithFileKey _ _ _ _ _); [|by intros [= <- _]]. case_bool_decide; [done|]. by intros [= <- _].
Qed.

(** Opening what holds something. *)
Lemma open_holds f fileKey p info fresh publicKeys privateKey : holds f fileKey p info fresh publicKeys -> (forall n, is_raw (fresh n) = true) ->
  exists h, parseHeader grain (fun _ => f) = Ok h /\ plaintextLength h = size_of p /\ expectedFileLength h = size_of f /\
    (forall i, 0 <= i < segmentCount (size_of p) -> open_segment grain f h (hkdf fileKey (prefix h) "segment") i = Ok (plain_piece p i)) /\
    openInfo h fileKey = Ok info /\ (recipient privateKey publicKeys -> unwrapFileKey h privateKey = Ok fileKey) /\
    (stranger privateKey publicKeys -> unwrapFileKey h privateKey = Throw WrongSecret).
Proof.
  intros [Hok Hs Hb] Hf. cbn zeta in *. set (pre := buildPrefix (size_of p)) in *. set (rs := recipients_of pre fileKey fresh publicKeys) in *.
  set (ct := sealed_info fileKey pre info) in *. pose proof (parse_layout grain _ _ _ (body (hkdf fileKey pre "segment") p) Hok) as Hh. rewrite <- Hb in Hh.
  eexists. split; [exact Hh|]. cbn [plaintextLength prefix headerLength]. fold pre. split; [done|]. split; [|split; [|split; [|split]]].
  - unfold expectedFileLength. cbn [plaintextLength headerLength]. rewrite Hb, size_app, size_body. lia.
  - intros i Hi. rewrite Hb. apply open_good; cbn; done || lia.
  - unfold openInfo. cbn. fold pre. unfold ct, sealed_info. by rewrite unseal_seal, json_round.
  - intros Hr. eapply unwrap_recipient; [reflexivity|cbn; reflexivity|done|done|done].
  - intros Hst. eapply unwrap_stranger; [cbn; reflexivity|done].
Qed.

(** ** Tampering *)

(** Everything that encrypting a file seals under keys of its file key. *)
Definition made (fileKey p : Buffer) (info : LockedFileInfo) : list (Buffer * Buffer * Buffer * Buffer) :=
  let prefix := buildPrefix (size_of p) in
  (hkdf fileKey prefix "info", ZERO_NONCE, stringify info, []) ::
  map (fun i => (hkdf fileKey prefix "segment", segmentNonce (Z.of_nat i), plain_piece p (Z.of_nat i),
                 segmentAad (Z.of_nat i) (Z.of_nat i =? segmentCount (size_of p) - 1)))
    (seq 0 (Z.to_nat (segmentCount (size_of p)))).
Definition purposes : list string := ["info"; "segment"].
(** No two salts or purposes derive one key. *)
Definition keys_apart (fileKey : Buffer) : Prop := forall s s' u u', size_of s = PREFIX_LENGTH -> size_of s' = PREFIX_LENGTH ->
  u ∈ purposes -> u' ∈ purposes -> hkdf fileKey s u = hkdf fileKey s' u' -> s = s' /\ u = u'.
(** Whatever piece of a file opens under a key of the file key is one that was sealed. *)
Definition unforged (file : nat -> Buffer) (fileKey p : Buffer) (info : LockedFileInfo) : Prop := forall t a b s u nonce aad q,
  u ∈ purposes -> unseal (hkdf fileKey s u) nonce (subarray (file t) a b) aad = Some q -> (hkdf fileKey s u, nonce, q, aad) ∈ made fileKey p info.

Lemma parse_pieces file h : parseHeader grain file = Ok h ->
  0 <= headerLength h /\ exists a b, infoCiphertext h = subarray (file 2%nat) a b.
Proof.
  unfold parseHeader. set (c := byte_at _ PREFIX_LENGTH). set (il := read_be (subarray (readFully grain (file 1%nat) _ _) _ _)).
  intros [_ [_ [_ [_ [_ [_ [_ [_ [_ H]%guard_inv]%guard_inv]%guard_inv]%guard_inv]%guard_inv]%guard_inv]%guard_inv]%guard_inv]%guard_inv.
  injection H as <-. cbn [headerLength infoCiphertext].
  assert (0 <= c) by apply read_be_range. assert (0 <= il) by apply read_be_range. assert (RECIPIENT_LENGTH = 88) as -> by done.
  assert (PREFIX_LENGTH = 18) as -> by done. split; [lia|]. rewrite readFully_exact by lia. eauto.
Qed.
Lemma made_info fileKey p info s nonce q aad : keys_apart fileKey -> size_of s = PREFIX_LENGTH ->
  (hkdf fileKey s "info", nonce, q, aad) ∈ made fileKey p info -> s = buildPrefix (size_of p) /\ q = stringify info.
Proof.
  intros Hk Hs [E|Hm]%elem_of_cons.
  - injection E as E _ -> _. apply Hk in E as [-> _]; [done|done|apply size_prefix|by left|by left].
  - exfalso. apply list_elem_of_In, in_map_iff in Hm as (i & E & _). injection E as E _ _ _.
    apply Hk in E as [_ E]; [done|apply size_prefix|done|right; left|by left].
Qed.
Lemma made_segment fileKey p info i q aad : keys_apart fileKey -> size_of p <= MAX_SAFE_INTEGER -> 0 <= i < segmentCount (size_of p) ->
  (hkdf fileKey (buildPrefix (size_of p)) "segment", segmentNonce i, q, aad) ∈ made fileKey p info -> q = plain_piece p i.
Proof.
  intros Hk Hn Hi [E|Hm]%elem_of_cons.
  - exfalso. injection E as E _ _ _. apply Hk in E as [_ E]; [done|apply size_prefix|apply size_prefix|right; left|by left].
  - apply list_elem_of_In, in_map_iff in Hm as (j & E & Hj). apply in_seq in Hj.
    pose proof (f_equal (fun x => x.1.2) E) as Eq. apply (f_equal (fun x => x.1.1.2)) in E. cbn [fst snd] in Eq, E. subst q.
    unfold segmentNonce in E. apply app_inv_head in E. assert (segmentCount (size_of p) <= 2 ^ 53) as Hc.
    { destruct (Z.eq_dec (segmentCount (size_of p)) 1) as [->|]; [done|]. pose proof (count_before (size_of p) (segmentCount (size_of p) - 2)).
      pose proof (segmentCount_pos (size_of p)). unfold MAX_SAFE_INTEGER in *. rewrite segment_size in *. lia. }
    apply write_be_inj in E; [by rewrite E|lia|lia].
Qed.
Lemma buildPrefix_inj n m : 0 <= n <= MAX_SAFE_INTEGER -> 0 <= m <= MAX_SAFE_INTEGER -> buildPrefix n = buildPrefix m -> n = m.
Proof.
  intros Hn Hm H. unfold buildPrefix in H. rewrite !(app_assoc MAGIC) in H. apply app_inv_head in H.
  apply app_size_inj in H as [H _]; [|by rewrite !size_write_be]. unfold MAX_SAFE_INTEGER in *. apply write_be_inj in H; lia.
Qed.
(** ** Other recipients *)

Lemma copied_tail f header tail h : f = header ++ tail -> headerLength h = size_of header -> size_of f = expectedFileLength h ->
  concat (copied grain (fun _ => f) h) = tail.
Proof.
  intros Hf Hh Hs. unfold copied. set (total := expectedFileLength h - headerLength h). assert (COPY_CHUNK = 1048832) as HC by done. rewrite HC.
  assert (total = size_of tail) as Ht by (unfold total; rewrite <- Hs, Hf, size_app; lia). pose proof (size_nonneg tail). pose proof (size_nonneg header).
  set (k := Z.to_nat _). pose proof (Z.div_mod (total + 1048832 - 1) 1048832 ltac:(lia)). pose proof (Z.mod_pos_bound (total + 1048832 - 1) 1048832 ltac:(lia)).
  pose proof (Z.div_pos (total + 1048832 - 1) 1048832 ltac:(lia) ltac:(lia)).
  rewrite (map_ext_in _ (fun i => subarray tail (Z.of_nat i * 1048832) ((Z.of_nat i + 1) * 1048832))).
  - rewrite concat_pieces by lia. apply subarray_all. unfold k. rewrite Z2Nat.id by lia. lia.
  - intros i Hi. apply in_seq in Hi. assert (Z.of_nat i * 1048832 < total) by (unfold k in Hi; lia).
    rewrite readFully_exact by lia. rewrite Hf, subarray_app_r by lia. rewrite Hh.
    destruct (Z.le_gt_cases ((Z.of_nat i + 1) * 1048832) total); [f_equal; lia|].
    unfold subarray. rewrite !take_ge by (rewrite length_drop; unfold size_of in Ht; lia). f_equal. lia.
Qed.
Lemma open_segment_moved f f' header header' tail h h' key i : f = header ++ tail -> f' = header' ++ tail -> headerLength h = size_of header ->
  headerLength h' = size_of header' -> plaintextLength h = plaintextLength h' -> 0 <= plaintextLength h -> 0 <= i < segmentCount (plaintextLength h) ->
  open_segment grain f h key i = open_segment grain f' h' key i.
Proof.
  intros -> -> Hh Hh' Hp Hn Hi. pose proof (size_nonneg header). pose proof (size_nonneg header').
  rewrite !open_segment_bytes by (rewrite <- ?Hp; lia). assert (segment_bytes (header ++ tail) h i = segment_bytes (header' ++ tail) h' i) as ->.
  { unfold segment_bytes. rewrite Hh, Hh', <- Hp. assert (0 <= i * SEALED_SEGMENT) by (unfold SEALED_SEGMENT; rewrite segment_size, tag_size; lia).
    rewrite !subarray_app_r by lia. f_equal; lia. }
  by rewrite Hp.
Qed.
Lemma unwrapped_raw h privateKey fileKey : Forall entry_ok (recipients h) -> unwrapFileKey h privateKey = Ok fileKey -> is_raw fileKey = true.
Proof.
  intros Ho H. unfold unwrapFileKey in H. destruct (publicKeyFromPrivate _) as [pub|]; [|done]. cbn [mbind res_bind] in H.
  destruct (keyId pub) as [id|]; [|done]. cbn [mbind res_bind] in H. destruct (List.find _ _) as [r|] eqn:Ef; [|done]. cbn [or_throw mbind res_bind] in H.
  apply find_recipient in Ef as [Hr _]. rewrite Forall_forall in Ho. apply Ho in Hr as (_ & _ & Hw).
  destruct (sharedSecret _ _); [|done]. cbn [mbind res_bind] in H. destruct (unseal _ _ _ _) as [q|] eqn:Eu; [|done]. injection H as ->.
  apply unseal_exact in Eu. rewrite Eu, size_seal, tag_size in Hw. unfold is_raw. lia.
Qed.
End promises.
