(* ===== verification/LockedGuarantees.v ===== *)
(** * Locked files: the guarantees

    The theorems on whole calls of [encryptFile], [openDecrypt] and [rewrapFile], and a small instance of the
    primitives that satisfies their laws, on which each is used. *)

From stdpp Require Import gmap strings list countable.
From S2P Require Import Prelude JsNumber JsString JsBuffer LockedFile LockedFormat LockedSegments LockedPromises.
Open Scope Z_scope.

(** ** Instances *)

(** Primitives for examples: they hide nothing, and a tag says whether what it seals is one of [known]. *)
Fixpoint bits_of (p : positive) : Buffer :=
  match p with xH => [] | xO p => Byte.x00 :: bits_of p | xI p => Byte.x01 :: bits_of p end.
Fixpoint of_bits (b : Buffer) : positive :=
  match b with [] => xH | Byte.x00 :: b => xO (of_bits b) | _ :: b => xI (of_bits b) end.
Lemma of_bits_of p : of_bits (bits_of p) = p.
Proof. induction p as [p IH|p IH|]; cbn; by rewrite ?IH. Qed.
Definition info_tuple (i : LockedFileInfo) : string * string * string * string := (assetId i, kind i, originalFileName i, mime i).
Definition tuple_info (t : string * string * string * string) : LockedFileInfo := mkInfo t.1.1.1 t.1.1.2 t.1.2 t.2.
Definition toy_tag (known : list (Buffer * Buffer * Buffer * Buffer)) (k n p a : Buffer) : Buffer :=
  repeat (if bool_decide ((k, n, p, a) ∈ known) then Byte.x01 else Byte.xff) 16.
Definition toy (known : list (Buffer * Buffer * Buffer * Buffer)) : Crypto := {|
  gcm_encrypt k n p a := (p, toy_tag known k n p a);
  gcm_decrypt k n c t a := if bool_decide (t = toy_tag known k n c a) then Some c else None;
  hkdfSync key salt purpose := key ++ salt ++ String.list_byte_of_string purpose;
  sha256 b := take 32 (b ++ repeat Byte.x00 32);
  diffieHellman _ _ := [Byte.x01];
  public_of k := k;
  stringify i := bits_of (encode (info_tuple i));
  json_parse b := tuple_info <$> decode (of_bits b)
|}.
Lemma toy_laws known : @CryptoLaws (toy known).
Proof.
  split; cbn.
  - intros k n c t a p. case_bool_decide as H; split.
    + intros [= ->]. by rewrite H.
    + intros [= -> _]. done.
    + done.
    + intros [= -> <-]. done.
  - done.
  - intros. unfold toy_tag. by destruct (bool_decide _).
  - done.
  - done.
  - intros b. unfold size_of. rewrite length_take, length_app. cbn [length]. lia.
  - intros i. rewrite of_bits_of, decode_encode. by destruct i.
Qed.
Lemma toy_keys_apart known fileKey : @keys_apart (toy known) fileKey.
Proof.
  intros s s' u u' Hs Hs' Hu Hu'. unfold hkdf. cbn [hkdfSync toy]. intros H. apply app_inv_head in H.
  apply app_size_inj in H as [-> H]; [|lia]. split; [done|].
  unfold purposes in *. repeat (apply elem_of_cons in Hu as [->|Hu]; [|try by apply elem_of_nil in Hu]);
    repeat (apply elem_of_cons in Hu' as [->|Hu']; [|try by apply elem_of_nil in Hu']); done.
Qed.

Section guarantees.
Context (C : Crypto) (CL : CryptoLaws) (grain : nat -> Z).

(** C4. A locked file gives back what was locked, to its recipients alone.  Encrypting, however the source
    changes while it is read and whichever write fails, leaves the files as they were or adds one file;
    from that file every recipient's key opens the information and, of any range that is within the file,
    exactly those bytes of what was read of the source; a range that is not is refused; and a key that is
    none of its recipients' is refused.  Writes that succeed are taken to be whole, and no two of the
    keys to share a key id. *)
Theorem locked_file_roundtrip (io : nat -> Write) (fs : Files) (fileKey : Buffer) (fresh : nat -> Buffer) (src : nat -> Buffer)
    (srcPath dst : string) (publicKeys : list Buffer) (info : LockedFileInfo) (verify : bool)
    (Hio : forall n k, io n <> Short k) (Hkey : is_raw fileKey = true) (Hfresh : forall n, is_raw (fresh n) = true)
    (fs' : Files) (result : res LockedError Encrypted) (Hsize : size_of (src 0%nat) <= MAX_SAFE_INTEGER)
    (Hdone : encryptFile grain io fs fileKey fresh src srcPath dst publicKeys info verify = (fs', result)) :
  match result with
  | Throw _ => fs' = fs
  | Ok r =>
      let p := source_bytes grain src (size_of (src 0%nat)) in
      fs !! dst = None /\ e_plaintextLength r = size_of p /\ e_sha256 r = (if verify then Some (sha256 p) else None) /\
      exists f, fs' = <[dst := f]> fs /\ forall privateKey range,
        (recipient privateKey publicKeys ->
           match openDecrypt grain (fun _ => f) privateKey range with
           | Ok o => may_ask range (size_of p) /\ o_info o = info /\ o_plaintextLength o = size_of p /\
                     stopped (stream o) = None /\ concat (chunks_ (stream o)) = wanted p range
           | Throw e => e = RangeOutside /\ ~ may_ask range (size_of p)
           end) /\
        (stranger privateKey publicKeys -> may_ask range (size_of p) -> openDecrypt grain (fun _ => f) privateKey range = Throw WrongSecret)
  end.
Proof.
  destruct result as [r|e]; [|by eapply encrypt_fails]. apply encrypt_holds in Hdone as (Hno & Hr & Hd & f & -> & Hf); [|done..]. cbn zeta. set (p := source_bytes _ _ _) in *.
  split; [done|]. split; [done|]. split; [done|]. exists f. split; [done|]. intros privateKey range.
  destruct (open_holds grain f fileKey p info fresh publicKeys privateKey Hf Hfresh) as (h & Hh & Hp & Hl & Hopen & Hinfo & Hrec & Hstr).
  destruct (open_unfold grain _ privateKey range h Hh) as [Hin Hout]. rewrite Hp in *. split.
  - intros Hk. destruct (decide (may_ask range (size_of p))) as [Hm|Hm]; [|by rewrite (Hout Hm)].
    rewrite (Hin Hm), (Hrec Hk). cbn [mbind res_bind]. rewrite Hinfo. cbn [mbind res_bind o_info o_plaintextLength stream].
    assert (stopped (stream_of grain (fun _ => f) h (hkdf fileKey (prefix h) "segment") range) = None) as Hs.
    { apply stream_ends; rewrite ?Hp; [done|apply size_nonneg|done|]. intros _ i Hi. eexists. by apply Hopen. }
    split; [done|]. split; [done|]. split; [done|]. split; [done|].
    apply (stream_spec grain _ _ _ p range); rewrite ?Hp; [done|done| |done]. intros _ i q Hi. rewrite Hopen by done. by intros [= <-].
  - intros Hst Hm. by rewrite (Hin Hm), (Hstr Hst).
Qed.

(** C3. A tampered file shows nothing but its original.  Whatever became of a locked file (damaged, truncated,
    extended, its segments moved, or changed while it is read), when it opens under its file key then its
    information and length are those that were locked, and what a stream of it gives, of any range, is
    those bytes or a beginning of them followed by an error.  Taken of AES-256-GCM: no piece of the file opens
    under the file's keys but what was sealed; and of HKDF: different salts and purposes, different keys. *)
Theorem tampering_never_shows (file : nat -> Buffer) (fileKey p : Buffer) (info : LockedFileInfo) (privateKey : Buffer)
    (range : option (Z * Z)) (h : ParsedHeader) (o : Opened)
    (Hapart : keys_apart fileKey) (Hunforged : unforged file fileKey p info) (Hsize : size_of p <= MAX_SAFE_INTEGER)
    (Hparse : parseHeader grain file = Ok h) (Hunwrap : unwrapFileKey h privateKey = Ok fileKey)
    (Hopen : openDecrypt grain file privateKey range = Ok o) :
  o_info o = info /\ o_plaintextLength o = size_of p /\ may_ask range (size_of p) /\
  concat (chunks_ (stream o)) `prefix_of` wanted p range /\ (stopped (stream o) = None -> concat (chunks_ (stream o)) = wanted p range).
Proof.
  destruct (parse_prefix grain file h Hparse) as [Hpre Hn]. destruct (parse_pieces grain file h Hparse) as [Hh0 (a & b & Hct)].
  destruct (open_unfold grain file privateKey range h Hparse) as [Hin Hout].
  assert (may_ask range (plaintextLength h)) as Hm by (destruct (decide (may_ask range (plaintextLength h))) as [|Hno]; [done|by rewrite (Hout Hno) in Hopen]).
  rewrite (Hin Hm), Hunwrap in Hopen. cbn [mbind res_bind] in Hopen. destruct (openInfo h fileKey) as [i|] eqn:Ei; [|done]. injection Hopen as <-.
  cbn [o_info o_plaintextLength stream]. unfold openInfo in Ei.
  destruct (unseal _ _ _ _) as [text|] eqn:Eu; [|done]. rewrite Hct in Eu. apply Hunforged in Eu; [|by left].
  apply made_info in Eu as [Es ->]; [|done|rewrite Hpre; apply size_prefix]. rewrite json_round in Ei. injection Ei as <-.
  assert (plaintextLength h = size_of p) as Hlen by (apply buildPrefix_inj; [done| |by rewrite <- Hpre]; pose proof (size_nonneg p); lia).
  split; [done|]. split; [done|]. rewrite <- Hlen. split; [done|]. apply stream_spec; [done|done|].
  intros t j q Hj Hq. rewrite open_segment_bytes in Hq by lia. apply guard_inv in Hq as [_ Hq].
  destruct (unseal _ _ _ _) as [q'|] eqn:Eq; [|done]. injection Hq as ->. apply Hunforged in Eq; [|right; by left].
  rewrite Es in Eq. rewrite Hlen in Hj. exact (made_segment fileKey p info j q _ Hapart Hsize Hj Eq).
Qed.

(** C5. Giving a locked file to other recipients keeps what it holds.  Of any file that [rewrapFile] accepts,
    genuine or damaged in its segments, it adds one file and touches no other; opening that file with the
    key of a new recipient gives, for every range, exactly what opening the old one gave: the
    information, the same bytes and, where it stops, the same error; and a key that is none of the new
    recipients' is refused. *)
Theorem rewrap_exact (io : nat -> Write) (fs fs' : Files) (fresh : nat -> Buffer) (f : Buffer) (srcPath dst : string) (privateKey : Buffer)
    (publicKeys : list Buffer) (Hio : forall n k, io n <> Short k) (Hfresh : forall n, is_raw (fresh n) = true)
    (Hdone : rewrapFile grain io fs fresh (fun _ => f) srcPath dst privateKey publicKeys = (fs', Ok tt)) :
  fs !! dst = None /\ exists f', fs' = <[dst := f']> fs /\ forall key range,
    (recipient key publicKeys -> openDecrypt grain (fun _ => f') key range = openDecrypt grain (fun _ => f) privateKey range) /\
    (stranger key publicKeys -> openDecrypt grain (fun _ => f') key range = Throw WrongSecret \/
                                openDecrypt grain (fun _ => f') key range = Throw RangeOutside).
Proof.
  unfold rewrapFile in Hdone. destruct (parseHeader grain (fun _ => f)) as [h|] eqn:Hh; [|done]. cbn [mbind res_bind] in Hdone.
  destruct (parse_sound grain f h Hh) as (n & rs & ct & tail & Hok & Hf & Eh).
  destruct (assertFileLength f h) as [[]|] eqn:Hl; [|done]. cbn [mbind res_bind] in Hdone.
  destruct (unwrapFileKey h privateKey) as [fileKey|] eqn:Hk; [|done]. cbn [mbind res_bind] in Hdone.
  destruct (openInfo h fileKey) as [info|] eqn:Hi; [|done]. cbn [mbind res_bind] in Hdone.
  destruct (buildRecipients fresh (prefix h) fileKey publicKeys) as [l|] eqn:El; [|done]. cbn [mbind res_bind] in Hdone.
  apply written_whole in Hdone as (Hno & _ & bs & Ebs & ->); [|done]. apply built_recipients in El as (-> & Hc & Hs).
  assert (is_raw fileKey = true) as Hraw by (eapply unwrapped_raw; [|exact Hk]; rewrite Eh; apply Hok).
  assert (prefix h = buildPrefix n /\ plaintextLength h = n /\ infoRecord h = info_length ct ++ ct /\ headerLength h = size_of (layout n rs ct)) as (Epre & En & Er & Ehl)
    by (by rewrite Eh).
  rewrite Epre in *. set (rs' := recipients_of (buildPrefix n) fileKey fresh publicKeys) in *.
  destruct (recipients_ok (buildPrefix n) fileKey fresh publicKeys Hraw Hfresh) as [Ho Hlen]. fold rs' in Ho, Hlen.
  assert (header_ok n rs' ct) as Hok' by (destruct Hok; split; [done|by rewrite Hlen|done|done]).
  assert (size_of f = expectedFileLength h) as Hsize by (unfold assertFileLength in Hl; destruct (Z.eqb_spec (size_of f) (expectedFileLength h)); done).
  assert (concat bs = layout n rs' ct ++ tail) as Eb.
  { destruct bs as [|b0 bs]; [done|]. cbn [map] in Ebs. injection Ebs as <- Ebs. apply list_fmap_eq_inj in Ebs as <-; [|by intros ? ? [= ->]].
    cbn [concat]. rewrite (copied_tail grain f _ tail h Hf Ehl Hsize). f_equal. unfold layout. by rewrite Er, Hlen. }
  split; [done|]. exists (concat bs). split; [done|]. intros key range. rewrite Eb.
  pose proof (parse_layout grain n rs' ct tail Hok') as Hh'. set (h' := mkHeader _ _ _ _ _ _) in Hh'.
  destruct (open_unfold grain _ key range h' Hh') as [Hin' Hout']. destruct (open_unfold grain _ privateKey range h Hh) as [Hin Hout].
  rewrite En in *. change (plaintextLength h') with n in *. split.
  - intros Hr. destruct (decide (may_ask range n)) as [Hm|Hm]; [|by rewrite (Hout Hm), (Hout' Hm)]. rewrite (Hin Hm), (Hin' Hm), Hk.
    rewrite (unwrap_recipient h' (buildPrefix n) fileKey fresh publicKeys key) by done. cbn [mbind res_bind].
    assert (openInfo h' fileKey = openInfo h fileKey) as -> by (by rewrite Eh). rewrite Hi, Epre. cbn [mbind res_bind]. do 2 f_equal.
    change (prefix h') with (buildPrefix n). unfold stream_of. rewrite En. change (plaintextLength h') with n.
    assert (assertFileLength (layout n rs' ct ++ tail) h' = Ok tt) as ->.
    { unfold assertFileLength. assert (size_of (layout n rs' ct ++ tail) = expectedFileLength h') as ->; [|by rewrite Z.eqb_refl].
      unfold expectedFileLength in *. rewrite Hf, size_app, Ehl, En in Hsize. rewrite size_app. change (headerLength h') with (size_of (layout n rs' ct)).
      change (plaintextLength h') with n. lia. }
    rewrite Hl. apply segments_same. intros i t Hi'. symmetry. destruct Hok.
    eapply open_segment_moved; [exact Hf|reflexivity|done|done|by rewrite En|lia|]. rewrite En. eapply asked_segments; [lia|exact Hm|exact Hi'].
  - intros Hst. destruct (decide (may_ask range n)) as [Hm|Hm]; [left; rewrite (Hin' Hm)|right; by apply Hout'].
    by rewrite (unwrap_stranger h' (buildPrefix n) fileKey fresh publicKeys key).
Qed.
End guarantees.

(** ** Examples *)

Definition whole_reads (_ : nat) : Z := 1000000.
Definition all_written (_ : nat) : Write := Whole.
Definition sample_plain : Buffer := [Byte.x03; Byte.x01; Byte.x04].
Definition sample_key : Buffer := repeat Byte.x05 32.
Definition fresh_key (n : nat) : Buffer := repeat Byte.x06 32.
Definition owner_key : Buffer := repeat Byte.x07 32.
Definition partner_key : Buffer := repeat Byte.x08 32.
Definition sample_info : LockedFileInfo := mkInfo "a" "original" "b" "c".
Definition sample_encrypt (C : Crypto) : Files * res LockedError Encrypted :=
  encryptFile whole_reads all_written ∅ sample_key fresh_key (fun _ => sample_plain) "plain" "locked" [owner_key] sample_info true.
Definition sample_file (C : Crypto) : Buffer := default [] ((sample_encrypt C).1 !! "locked"%string).

Lemma sample_fits : size_of sample_plain <= MAX_SAFE_INTEGER.
Proof. by vm_compute. Qed.
Lemma all_whole : forall n k, all_written n <> Short k.
Proof. done. Qed.
Lemma fresh_raw (n : nat) : is_raw (fresh_key n) = true.
Proof. done. Qed.
(** A short write goes unnoticed unless the file is verified. *)
Definition one_short (n : nat) : Write := match n with 1%nat => Short 5 | _ => Whole end.
Example short_write_unnoticed :
  let run verify := encryptFile (C := toy []) whole_reads one_short ∅ sample_key fresh_key (fun _ => sample_plain) "plain" "locked" [owner_key] sample_info verify in
  (run false).2 = Ok (mkEncrypted 3 None) /\
  (o ← openDecrypt (C := toy []) whole_reads (fun _ => default [] ((run false).1 !! "locked"%string)) owner_key None; Ok (stopped (stream o))) = Ok (Some (Corrupt FileLength)) /\
  run true = (∅, Throw (Corrupt FileLength)).
Proof. vm_compute. done. Qed.

Lemma sample_encrypted : sample_encrypt (toy []) = ((sample_encrypt (toy [])).1, Ok (mkEncrypted 3 (Some (sha256 (Crypto := toy []) sample_plain)))).
Proof. vm_compute. done. Qed.
Lemma locked_file_roundtrip_witness :
  let p := source_bytes whole_reads (fun _ => sample_plain) (size_of sample_plain) in
  (∅ : Files) !! "locked"%string = None /\ 3 = size_of p /\ Some (sha256 (Crypto := toy []) sample_plain) = Some (sha256 (Crypto := toy []) p) /\
  exists f, (sample_encrypt (toy [])).1 = <["locked"%string := f]> ∅ /\ forall privateKey range,
    (recipient (C := toy []) privateKey [owner_key] ->
       match openDecrypt (C := toy []) whole_reads (fun _ => f) privateKey range with
       | Ok o => may_ask range (size_of p) /\ o_info o = sample_info /\ o_plaintextLength o = size_of p /\
                 stopped (stream o) = None /\ concat (chunks_ (stream o)) = wanted p range
       | Throw e => e = RangeOutside /\ ~ may_ask range (size_of p)
       end) /\
    (stranger (C := toy []) privateKey [owner_key] -> may_ask range (size_of p) ->
       openDecrypt (C := toy []) whole_reads (fun _ => f) privateKey range = Throw WrongSecret).
Proof.
  exact (locked_file_roundtrip (toy []) (toy_laws []) whole_reads all_written ∅ sample_key fresh_key (fun _ => sample_plain) "plain" "locked" [owner_key]
    sample_info true all_whole eq_refl fresh_raw (sample_encrypt (toy [])).1 (Ok (mkEncrypted 3 (Some (sha256 (Crypto := toy []) sample_plain)))) sample_fits sample_encrypted).
Defined.
Example sample_reads_back : (o ← openDecrypt (C := toy []) whole_reads (fun _ => sample_file (toy [])) owner_key (Some (1, 2)); Ok (chunks_ (stream o), o_info o)) =
  Ok ([[Byte.x01; Byte.x04]], sample_info).
Proof. vm_compute. done. Qed.

(** The sample, with the last byte of its segment changed. *)
Definition sealed_here : list (Buffer * Buffer * Buffer * Buffer) :=
  made (C := toy []) sample_key sample_plain sample_info ++
  [(hkdf (C := toy []) [Byte.x01] (buildPrefix 3) "wrap", ZERO_NONCE, sample_key, wrapAad (key_id (C := toy []) owner_key) (fresh_key 0))].
Definition last_changed (f : Buffer) : Buffer := take (length f - 1) f ++ [Byte.x02].
Definition tampered : Buffer := last_changed (sample_file (toy sealed_here)).
Lemma sample_apart : keys_apart (C := toy sealed_here) sample_key.
Proof. apply toy_keys_apart. Qed.

(** A tag of something else ends in a byte the file does not have. *)
Lemma opens_known known k n s a q : unseal (C := toy known) k n s a = Some q -> Byte.xff ∉ s -> (k, n, q, a) ∈ known.
Proof.
  intros H Hs. apply (unseal_exact (CL := toy_laws known)) in H. unfold seal in H. cbn [gcm_encrypt toy] in H. unfold toy_tag in H.
  case_bool_decide as Hk; [done|]. exfalso. apply Hs. rewrite H. apply elem_of_app. right. by left.
Qed.
Lemma elem_of_subarray (f : Buffer) a b x : x ∈ subarray f a b -> x ∈ f.
Proof. unfold subarray. intros H. eapply elem_of_drop_sub, elem_of_take_sub, H. Qed.
Lemma sample_unforged : unforged (C := toy sealed_here) (fun _ => tampered) sample_key sample_plain sample_info.
Proof.
  intros t a b s u nonce aad q Hu H. apply opens_known in H.
  - apply elem_of_app in H as [H|H]; [exact H|]. apply list_elem_of_singleton in H. exfalso.
    apply (f_equal (fun x => last x.1.1.1)) in H. cbn [fst] in H. unfold hkdf in H. cbn [hkdfSync toy] in H.
    unfold purposes in Hu. apply elem_of_cons in Hu as [->|Hu]; [|apply list_elem_of_singleton in Hu as ->];
      rewrite (app_assoc sample_key), last_app in H; vm_compute in H; discriminate.
  - intros Hx. apply elem_of_subarray in Hx. revert Hx. apply (bool_decide_unpack (Byte.xff ∉ tampered)). vm_compute. exact I.
Qed.
Definition tampered_header : ParsedHeader :=
  match parseHeader whole_reads (fun _ => tampered) with Ok h => h | Throw _ => mkHeader 0 0 [] [] [] [] end.
Definition tampered_opened : Opened :=
  match openDecrypt (C := toy sealed_here) whole_reads (fun _ => tampered) owner_key None with Ok o => o | Throw _ => mkOpened (mkStream [] None) 0 sample_info end.
Lemma tampered_parses : parseHeader whole_reads (fun _ => tampered) = Ok tampered_header.
Proof. vm_compute. done. Qed.
Lemma tampered_unwraps : unwrapFileKey (C := toy sealed_here) tampered_header owner_key = Ok sample_key.
Proof. vm_compute. done. Qed.
Lemma tampered_opens : openDecrypt (C := toy sealed_here) whole_reads (fun _ => tampered) owner_key None = Ok tampered_opened.
Proof. vm_compute. done. Qed.
Example tampering_noticed : stopped (stream tampered_opened) = Some (Corrupt (SegmentUnauthentic 0)).
Proof. vm_compute. done. Qed.
Lemma tampering_never_shows_witness :
  o_info tampered_opened = sample_info /\ o_plaintextLength tampered_opened = 3 /\ may_ask None 3 /\
  concat (chunks_ (stream tampered_opened)) `prefix_of` sample_plain /\
  (stopped (stream tampered_opened) = None -> concat (chunks_ (stream tampered_opened)) = sample_plain).
Proof.
  exact (tampering_never_shows (toy sealed_here) (toy_laws sealed_here) whole_reads (fun _ => tampered) sample_key sample_plain sample_info owner_key None
    tampered_header tampered_opened sample_apart sample_unforged sample_fits tampered_parses tampered_unwraps tampered_opens).
Defined.

(** The sample, given to a partner. *)
Definition sample_rewrap : Files * res LockedError unit :=
  rewrapFile (C := toy []) whole_reads all_written ∅ fresh_key (fun _ => sample_file (toy [])) "locked" "shared" owner_key [partner_key].
Lemma sample_rewrapped :
  rewrapFile (C := toy []) whole_reads all_written ∅ fresh_key (fun _ => sample_file (toy [])) "locked" "shared" owner_key [partner_key] = (sample_rewrap.1, Ok tt).
Proof. vm_compute. done. Qed.
Lemma rewrap_exact_witness :
  (∅ : Files) !! "shared"%string = None /\ exists f', sample_rewrap.1 = <["shared"%string := f']> ∅ /\ forall key range,
    (recipient (C := toy []) key [partner_key] ->
       openDecrypt (C := toy []) whole_reads (fun _ => f') key range = openDecrypt (C := toy []) whole_reads (fun _ => sample_file (toy [])) owner_key range) /\
    (stranger (C := toy []) key [partner_key] -> openDecrypt (C := toy []) whole_reads (fun _ => f') key range = Throw WrongSecret \/
       openDecrypt (C := toy []) whole_reads (fun _ => f') key range = Throw RangeOutside).
Proof.
  exact (rewrap_exact (toy []) (toy_laws []) whole_reads all_written ∅ sample_rewrap.1 fresh_key (sample_file (toy [])) "locked" "shared" owner_key [partner_key]
    all_whole fresh_raw sample_rewrapped).
Defined.
