(* ===== verification/GpuWorkingBudget.v ===== *)
(** * GPU working budgets ([server/src/utils/gpu-working-budget.ts])

    Whether a receipt of a measured GPU working budget is valid for a worker and session, and the
    budget it qualifies: the measured amount, lowered to the administrator's ceiling and to what the
    session was admitted with, until the earliest of three expiries.

    The receipt is any JSON value; a [Date] of the context is its time, [None] when invalid. *)

From S2P Require Import Prelude JsNumber JsString JsDate.
Local Open Scope Z_scope.

Inductive Phase : Type := Admission | InSession (admittedBudgetBytes : option string) | OtherPhase.
#[export] Instance Phase_eq_dec : EqDecision Phase.
Proof. solve_decision. Defined.

Record GpuWorkingBudgetContext := mkContext {
  workerId : string; engineDigest : string; buildDigest : string; browserIdentity : string; deviceLifetimeId : string;
  approvedProfileDigest : option string; reportedBytes : option string; administratorCeiling : option string;
  phase : option Phase; now : option Z; conformanceExpiresAt : option Z; credentialExpiresAt : option Z }.

Inductive BudgetRefusal : Type :=
| EvidenceInvalid | IdentityMismatch | ProfileUnapproved | Expired | CeilingInvalid | SessionUnqualified.
Inductive GpuWorkingBudgetDecision : Type :=
| Valid (measuredBytes qualifiedBytes expiresAt : string)
| Invalid (reason : BudgetRefusal).

Definition EVIDENCE_FIELDS : list string :=
  ["metric"; "profileDigest"; "measurementId"; "receiptDigest"; "workerId"; "engineDigest"; "buildDigest"; "browserIdentity";
   "deviceLifetimeId"; "bindingMethod"; "topology"; "topologyEvidenceDigest"; "hardwareBackend"; "encoderEvidenceDigest";
   "pressureEnvelopeDigest"; "outputReceiptDigest"; "measuredBytes"; "headroomBytes"; "completedAt"; "validUntil"; "status"]%string.

(** ** The patterns *)

Definition DIGEST (s : string) : bool := Nat.eqb (String.length s) 64 && string_all is_hex s.
Definition UUID (s : string) : bool := shape "xxxxxxxx-xxxx-vxxx-nxxx-xxxxxxxxxxxx" s.
Definition DECIMAL (s : string) : bool :=
  String.eqb s "0" ||
  (string_all is_digit s && Nat.leb 1 (String.length s) && Nat.leb (String.length s) 19 && negb (starts_with "0" s)).
Definition TIMESTAMP (s : string) : bool := shape "dddd-dd-ddTdd:dd:dd.dddZ" s.

(** [BigInt(s)] of a [DECIMAL]. *)
Definition BigInt (s : string) : Z := digits_value 0 s.
Definition MAX_BIGINT : Z := 9223372036854775807.
Definition MEASURED : Z := 2147483648.

(** [new Date(s)] whose [toISOString] is [s] again. *)
Definition exact_date (s : string) : option Z :=
  if TIMESTAMP s && String.eqb (to_iso (scan_iso s)) s then Some (scan_iso s) else None.

(** ** The checks, in order *)

Section checks.
Context (fs : list (string * json)) (context : GpuWorkingBudgetContext).

Definition text (key : string) : option string := as_string (obj_get fs key).
Definition is_value (key v : string) : bool := bool_decide (text key = Some v).
Definition text_matches (p : string -> bool) (key : string) : bool := match text key with Some s => p s | None => false end.

Definition fields_ok : bool :=
  Nat.eqb (length fs) (length EVIDENCE_FIELDS) && forallb (fun key => obj_has fs key) EVIDENCE_FIELDS.
Definition constants_ok : bool :=
  is_value "metric" "measured-usable-gpu-working-budget-v1" && is_value "bindingMethod" "same-export-device" &&
  is_value "hardwareBackend" "hardware" && is_value "status" "passed".
Definition digests_ok : bool :=
  forallb (text_matches DIGEST)
    ["profileDigest"; "receiptDigest"; "buildDigest"; "encoderEvidenceDigest"; "pressureEnvelopeDigest"; "outputReceiptDigest"]%string.
Definition uuids_ok : bool := forallb (text_matches UUID) ["measurementId"; "workerId"; "deviceLifetimeId"]%string.
Definition name_ok (s : string) : bool := negb (String.eqb s "") && Nat.leb (String.length s) 200 && String.eqb (trim s) s.
Definition names_ok : bool := forallb (text_matches name_ok) ["engineDigest"; "browserIdentity"]%string.
Definition topology_ok : bool :=
  if is_value "topology" "unknown" then match obj_get fs "topologyEvidenceDigest" with Some JNull => true | _ => false end
  else (is_value "topology" "unified" || is_value "topology" "dedicated") && text_matches DIGEST "topologyEvidenceDigest".
Definition profile_ok : bool :=
  match approvedProfileDigest context with Some p => negb (String.eqb p "") && is_value "profileDigest" p | None => false end.
Definition identity_ok : bool :=
  is_value "workerId" (workerId context) && is_value "engineDigest" (engineDigest context) &&
  is_value "buildDigest" (buildDigest context) && is_value "browserIdentity" (browserIdentity context) &&
  is_value "deviceLifetimeId" (deviceLifetimeId context).
Definition phase_ok : bool := match phase context with None | Some OtherPhase => false | Some _ => true end.
Definition bounded (limit : Z) (quantity : option string) : bool :=
  match quantity with Some q => DECIMAL q && (BigInt q <=? limit) | None => false end.
Definition quantities_ok : bool :=
  bounded MAX_BIGINT (text "measuredBytes") && bounded MAX_BIGINT (text "headroomBytes") && bounded MAX_BIGINT (reportedBytes context) &&
  is_value "measuredBytes" "2147483648" && is_value "headroomBytes" "536870912" && bool_decide (reportedBytes context = text "measuredBytes").

Definition ceiling_ok : bool := match administratorCeiling context with None => true | c => bounded MAX_BIGINT c end.
Definition under_ceiling (q : Z) : Z := match administratorCeiling context with Some c => Z.min (BigInt c) q | None => q end.
Definition session_ok : bool := match phase context with Some (InSession admitted) => bounded MEASURED admitted | _ => true end.
Definition under_admitted (q : Z) : Z :=
  match phase context with Some (InSession (Some a)) => Z.min (BigInt a) q | _ => q end.
Definition time_of (key : string) : option Z := text key ≫= exact_date.
End checks.

Definition evaluateGpuWorkingBudget (evidence : option json) (context : GpuWorkingBudgetContext) : GpuWorkingBudgetDecision :=
  match is_record evidence with
  | None => Invalid EvidenceInvalid
  | Some fs =>
      if negb (fields_ok fs) then Invalid EvidenceInvalid
      else if negb (constants_ok fs) then Invalid EvidenceInvalid
      else if negb (digests_ok fs) then Invalid EvidenceInvalid
      else if negb (uuids_ok fs) then Invalid EvidenceInvalid
      else if negb (names_ok fs) then Invalid EvidenceInvalid
      else if negb (topology_ok fs) then Invalid EvidenceInvalid
      else if negb (profile_ok fs context) then Invalid ProfileUnapproved
      else if negb (identity_ok fs context) then Invalid IdentityMismatch
      else if negb (phase_ok context) then Invalid SessionUnqualified
      else if negb (quantities_ok fs context) then Invalid EvidenceInvalid
      else if negb (ceiling_ok context) then Invalid CeilingInvalid
      else if negb (session_ok context) then Invalid SessionUnqualified
      else
        let qualified := under_admitted context (under_ceiling context MEASURED) in
        match time_of fs "completedAt", time_of fs "validUntil" with
        | Some completedAt, Some validUntil =>
            if (validUntil <=? completedAt) || (60000 <? validUntil - completedAt) then Invalid EvidenceInvalid else
            match now context, conformanceExpiresAt context, credentialExpiresAt context with
            | Some n, Some conformance, Some credential =>
                let expiresAt := Z.min validUntil (Z.min conformance credential) in
                if (n <? completedAt) || (expiresAt <=? n) then Invalid Expired
                else Valid "2147483648" (string_of_int qualified) (to_iso expiresAt)
            | _, _, _ => Invalid Expired
            end
        | _, _ => Invalid EvidenceInvalid
        end
  end.

(** ** Decimal spellings *)

Lemma dec_digits_length fuel k n acc : 0 <= n < 10 ^ Z.of_nat (S k) -> (String.length (dec_digits fuel n acc) <= S k + String.length acc)%nat.
Proof.
  revert fuel n acc; induction k as [|k IH]; intros [|fuel] n acc Hn; cbn [dec_digits]; try lia.
  - rewrite (proj2 (Z.ltb_lt n 10)) by (cbn in Hn; lia). cbn. lia.
  - destruct (Z.ltb_spec n 10); [cbn [String.length]; lia|].
    assert (0 <= n / 10 < 10 ^ Z.of_nat (S k)) as Hd.
    { split; [apply Z.div_pos; lia|]. apply Z.div_lt_upper_bound; [lia|]. rewrite <- Z.pow_succ_r by lia.
      replace (Z.succ (Z.of_nat (S k))) with (Z.of_nat (S (S k))) by lia. lia. }
    specialize (IH fuel (n / 10) (String (digit_char (n mod 10)) acc) Hd). cbn [String.length] in IH. lia.
Qed.
Lemma dec_digits_lead fuel n acc : 0 < n < 10 ^ Z.of_nat fuel -> starts_with "0" (dec_digits fuel n acc) = false.
Proof.
  revert n acc; induction fuel as [|fuel IH]; intros n acc Hn; cbn [dec_digits]; [cbn in Hn; lia|].
  destruct (Z.ltb_spec n 10) as [H|H].
  - assert (n = 1 \/ n = 2 \/ n = 3 \/ n = 4 \/ n = 5 \/ n = 6 \/ n = 7 \/ n = 8 \/ n = 9) as Hc by lia.
    by repeat destruct Hc as [->|Hc]; subst.
  - apply IH. split; [apply Z.div_str_pos; lia|]. apply Z.div_lt_upper_bound; [lia|]. rewrite <- Z.pow_succ_r by lia.
    replace (Z.succ (Z.of_nat fuel)) with (Z.of_nat (S fuel)) by lia. lia.
Qed.

(** The decimal spelling of a budget is one a receipt or a session row may hold, and reads back. *)
Lemma DECIMAL_of_int n : 0 <= n < 10 ^ 19 -> DECIMAL (string_of_int n) = true /\ BigInt (string_of_int n) = n.
Proof.
  intros Hn. assert (string_of_int n = string_of_nonneg n) as ->.
  { unfold string_of_int. by rewrite (proj2 (Z.ltb_ge n 0)) by lia. }
  split; [|apply string_of_nonneg_value; lia]. destruct (decide (n = 0)) as [->|Hne]; [done|].
  unfold DECIMAL. apply orb_true_iff. right. rewrite string_of_nonneg_digits by lia.
  assert (starts_with "0" (string_of_nonneg n) = false) as ->.
  { unfold string_of_nonneg. apply dec_digits_lead. split; [lia|].
    pose proof (Z.log2_spec n ltac:(lia)) as [_ Hl]. pose proof (Z.log2_nonneg n).
    replace (Z.of_nat (S (Z.to_nat (Z.log2 n)))) with (Z.succ (Z.log2 n)) by lia.
    eapply Z.lt_le_trans; [exact Hl|]. apply Z.pow_le_mono_l. lia. }
  assert (String.length (string_of_nonneg n) <= 19)%nat as Hlen.
  { pose proof (dec_digits_length (S (Z.to_nat (Z.log2 n))) 18 n "") as H. cbn [String.length] in H.
    unfold string_of_nonneg. rewrite Nat.add_0_r in H. apply H. change (Z.of_nat 19) with 19. lia. }
  assert (1 <= String.length (string_of_nonneg n))%nat as Hlen1.
  { pose proof (string_of_nonneg_nonempty n). destruct (string_of_nonneg n); [done|cbn; lia]. }
  rewrite (proj2 (Nat.leb_le _ _) Hlen), (proj2 (Nat.leb_le _ _) Hlen1). done.
Qed.

Lemma digits_value_nonneg acc s : 0 <= acc -> string_all is_digit s = true -> 0 <= digits_value acc s.
Proof.
  revert acc; induction s as [|c s IH]; intros acc Ha; [done|]. cbn [string_all digits_value]. intros [Hc Hs]%andb_true_iff.
  apply IH; [|done]. unfold is_digit, digit_value in *. to_prop. lia.
Qed.
Lemma BigInt_nonneg s : DECIMAL s = true -> 0 <= BigInt s.
Proof.
  intros [H|H]%orb_true_iff; [by apply String.eqb_eq in H as ->|]. to_prop. by apply digits_value_nonneg.
Qed.

(** ** What a valid decision says *)

Definition checks_ok (fs : list (string * json)) (context : GpuWorkingBudgetContext) : bool :=
  fields_ok fs && constants_ok fs && digests_ok fs && uuids_ok fs && names_ok fs && topology_ok fs && profile_ok fs context &&
  identity_ok fs context && phase_ok context && quantities_ok fs context && ceiling_ok context && session_ok context.

Definition qualified_of (context : GpuWorkingBudgetContext) : Z := under_admitted context (under_ceiling context MEASURED).

(** The decision once every check but the times has passed. *)
Definition in_time (fs : list (string * json)) (context : GpuWorkingBudgetContext) : GpuWorkingBudgetDecision :=
  match time_of fs "completedAt", time_of fs "validUntil" with
  | Some completedAt, Some validUntil =>
      if (validUntil <=? completedAt) || (60000 <? validUntil - completedAt) then Invalid EvidenceInvalid else
      match now context, conformanceExpiresAt context, credentialExpiresAt context with
      | Some n, Some conformance, Some credential =>
          let expiresAt := Z.min validUntil (Z.min conformance credential) in
          if (n <? completedAt) || (expiresAt <=? n) then Invalid Expired
          else Valid "2147483648" (string_of_int (qualified_of context)) (to_iso expiresAt)
      | _, _, _ => Invalid Expired
      end
  | _, _ => Invalid EvidenceInvalid
  end.

Lemma evaluate_checked fs context : checks_ok fs context = true ->
  evaluateGpuWorkingBudget (Some (JObj fs)) context = in_time fs context.
Proof.
  unfold checks_ok. rewrite !andb_true_iff. intros (((((((((((H1&H2)&H3)&H4)&H5)&H6)&H7)&H8)&H9)&H10)&H11)&H12).
  unfold evaluateGpuWorkingBudget. cbn [is_record]. by rewrite H1, H2, H3, H4, H5, H6, H7, H8, H9, H10, H11, H12.
Qed.
Lemma evaluate_Valid evidence context m q e : evaluateGpuWorkingBudget evidence context = Valid m q e ->
  exists fs, evidence = Some (JObj fs) /\ checks_ok fs context = true.
Proof.
  unfold evaluateGpuWorkingBudget. destruct evidence as [[]|]; try done. cbn [is_record]. intros H. eexists. split; [done|].
  unfold checks_ok.
  repeat match type of H with (if negb ?b then _ else _) = _ => destruct b; [|discriminate H]; cbn [negb] in H end. done.
Qed.

Definition at_time (c : GpuWorkingBudgetContext) (n : Z) : GpuWorkingBudgetContext :=
  mkContext (workerId c) (engineDigest c) (buildDigest c) (browserIdentity c) (deviceLifetimeId c) (approvedProfileDigest c)
    (reportedBytes c) (administratorCeiling c) (phase c) (Some n) (conformanceExpiresAt c) (credentialExpiresAt c).
Definition in_session (c : GpuWorkingBudgetContext) (admitted : string) : GpuWorkingBudgetContext :=
  mkContext (workerId c) (engineDigest c) (buildDigest c) (browserIdentity c) (deviceLifetimeId c) (approvedProfileDigest c)
    (reportedBytes c) (administratorCeiling c) (Some (InSession (Some admitted))) (now c) (conformanceExpiresAt c) (credentialExpiresAt c).

Lemma bounded_spec limit s : bounded limit (Some s) = true <-> DECIMAL s = true /\ BigInt s <= limit.
Proof. unfold bounded. by rewrite andb_true_iff, Z.leb_le. Qed.

Lemma under_ceiling_bounds context : ceiling_ok context = true ->
  0 <= under_ceiling context MEASURED <= MEASURED /\
  (forall c, administratorCeiling context = Some c -> under_ceiling context MEASURED <= BigInt c).
Proof.
  unfold ceiling_ok, under_ceiling. destruct (administratorCeiling context) as [c|]; [|by unfold MEASURED].
  intros [Hd _]%bounded_spec. apply BigInt_nonneg in Hd. unfold MEASURED in *. split; [lia|]. intros ? E. injection E as <-. lia.
Qed.
Lemma qualified_bounds context : ceiling_ok context = true -> session_ok context = true ->
  0 <= qualified_of context <= under_ceiling context MEASURED /\
  (forall a, phase context = Some (InSession (Some a)) -> qualified_of context <= BigInt a).
Proof.
  intros Hc Hs. destruct (under_ceiling_bounds context Hc) as [Hb _]. unfold qualified_of, under_admitted, session_ok in *.
  destruct (phase context) as [[|[a|]|]|]; (split; [try lia|]); try (by intros ? [= <-]); try done.
  - apply bounded_spec in Hs as [Hd _]. apply BigInt_nonneg in Hd. lia.
  - intros ? [= <-]. lia.
Qed.

Lemma is_value_text fs key v : is_value fs key v = true <-> text fs key = Some v.
Proof. apply bool_decide_eq_true. Qed.

(** A valid decision binds the receipt to its context and never grants more than was measured:
    the receipt names this worker, engine, build, browser and device and the approved profile; the
    budget is at most the measurement, the administrator's ceiling and what the session was admitted
    with; and it holds, with the same budget, from the measurement until exactly the stated expiry,
    which is no later than the conformance check's or the credential's, and at no other time.
    Admitting a session with the qualified amount qualifies the same amount again. *)
Theorem gpu_budget_bound (evidence : option json) (context : GpuWorkingBudgetContext) (m q e : string)
  (H : evaluateGpuWorkingBudget evidence context = Valid m q e) :
  exists fs budget completed expires,
    evidence = Some (JObj fs) /\ q = string_of_int budget /\ e = to_iso expires /\
    text fs "workerId" = Some (workerId context) /\ text fs "engineDigest" = Some (engineDigest context) /\
    text fs "buildDigest" = Some (buildDigest context) /\ text fs "browserIdentity" = Some (browserIdentity context) /\
    text fs "deviceLifetimeId" = Some (deviceLifetimeId context) /\ text fs "profileDigest" = approvedProfileDigest context /\
    text fs "measuredBytes" = Some m /\ 0 <= budget <= BigInt m /\
    (forall c, administratorCeiling context = Some c -> budget <= BigInt c) /\
    (forall a, phase context = Some (InSession (Some a)) -> budget <= BigInt a) /\
    (forall t, conformanceExpiresAt context = Some t \/ credentialExpiresAt context = Some t -> expires <= t) /\
    expires - completed <= 60000 /\
    (forall n, evaluateGpuWorkingBudget evidence (at_time context n) =
       if (completed <=? n) && (n <? expires) then Valid m q e else Invalid Expired) /\
    evaluateGpuWorkingBudget evidence (in_session context q) = Valid m q e.
Proof.
  destruct (evaluate_Valid _ _ _ _ _ H) as (fs & -> & Hok). rewrite evaluate_checked in H by done.
  assert (forall n, checks_ok fs (at_time context n) = true) as Hok' by done.
  pose proof Hok as Hall. unfold checks_ok in Hall. rewrite !andb_true_iff in Hall.
  destruct Hall as (((((((((((H1&H2)&H3)&H4)&H5)&H6)&H7)&H8)&H9)&H10)&H11)&H12).
  destruct (under_ceiling_bounds context H11) as [Hb Hceil]. destruct (qualified_bounds context H11 H12) as [Hq Hadm].
  assert (DECIMAL (string_of_int (qualified_of context)) = true /\ BigInt (string_of_int (qualified_of context)) = qualified_of context)
    as [Hdec Hval] by (apply DECIMAL_of_int; unfold MEASURED in *; lia).
  unfold in_time in H. destruct (time_of fs "completedAt") as [completed|] eqn:Ec; [|done].
  destruct (time_of fs "validUntil") as [until|] eqn:Eu; [|done].
  destruct ((until <=? completed) || (60000 <? until - completed)) eqn:Ew; [done|].
  destruct (now context) as [n0|] eqn:En; [|done]. destruct (conformanceExpiresAt context) as [conf|] eqn:Econf; [|done].
  destruct (credentialExpiresAt context) as [cred|] eqn:Ecred; [|done].
  set (expires := Z.min until (Z.min conf cred)) in *.
  destruct ((n0 <? completed) || (expires <=? n0)) eqn:Et; [done|]. injection H as <- <- <-.
  exists fs, (qualified_of context), completed, expires.
  unfold identity_ok in H8. rewrite !andb_true_iff, !is_value_text in H8. destruct H8 as ((((W1&W2)&W3)&W4)&W5).
  unfold quantities_ok in H10. rewrite !andb_true_iff, !is_value_text in H10. destruct H10 as (((_&Qm)&_)&_).
  repeat split; try done; try lia.
  - unfold profile_ok in H7. destruct (approvedProfileDigest context) as [p|]; [|done].
    apply andb_true_iff in H7 as [_ H7]. by apply is_value_text in H7.
  - change (BigInt "2147483648") with MEASURED. lia.
  - intros c Hc. specialize (Hceil c Hc). lia.
  - intros t [Et'|Et']; injection Et' as Et'; subst t; unfold expires; lia.
  - intros n. rewrite evaluate_checked by apply Hok'. unfold in_time. rewrite Ec, Eu, Ew. cbn [now at_time conformanceExpiresAt credentialExpiresAt].
    rewrite Econf, Ecred. fold expires. change (qualified_of (at_time context n)) with (qualified_of context).
    destruct (Z.ltb_spec n completed), (Z.leb_spec expires n), (Z.leb_spec completed n), (Z.ltb_spec n expires); cbn; try done; lia.
  - assert (checks_ok fs (in_session context (string_of_int (qualified_of context))) = true) as Hok2.
    { revert Hok. unfold checks_ok. rewrite !andb_true_iff. intros (((((((((((?&?)&?)&?)&?)&?)&?)&?)&?)&?)&?)&?). cbn [in_session].
      split; [repeat split; first [assumption|reflexivity]|]. unfold session_ok. cbn [phase in_session]. apply bounded_spec. split; [done|]. rewrite Hval. lia. }
    rewrite evaluate_checked by done. unfold in_time. rewrite Ec, Eu, Ew. cbn [now in_session conformanceExpiresAt credentialExpiresAt].
    rewrite En, Econf, Ecred. fold expires. rewrite Et. do 2 f_equal.
    unfold qualified_of at 1, under_admitted. cbn [phase in_session]. rewrite Hval.
    change (under_ceiling (in_session context _) MEASURED) with (under_ceiling context MEASURED). lia.
Qed.

Definition hex64 : string := "0123456789abcdef0123456789abcdef0123456789abcdef0123456789abcdef".
Definition uuid1 : string := "01234567-89ab-4cde-8f01-23456789abcd".
Definition sample_receipt : json :=
  JObj [("metric", JStr "measured-usable-gpu-working-budget-v1"); ("profileDigest", JStr hex64); ("measurementId", JStr uuid1);
        ("receiptDigest", JStr hex64); ("workerId", JStr uuid1); ("engineDigest", JStr "engine-1"); ("buildDigest", JStr hex64);
        ("browserIdentity", JStr "chromium/140"); ("deviceLifetimeId", JStr uuid1); ("bindingMethod", JStr "same-export-device");
        ("topology", JStr "unknown"); ("topologyEvidenceDigest", JNull); ("hardwareBackend", JStr "hardware");
        ("encoderEvidenceDigest", JStr hex64); ("pressureEnvelopeDigest", JStr hex64); ("outputReceiptDigest", JStr hex64);
        ("measuredBytes", JStr "2147483648"); ("headroomBytes", JStr "536870912");
        ("completedAt", JStr "2025-09-26T00:00:00.000Z"); ("validUntil", JStr "2025-09-26T00:01:00.000Z"); ("status", JStr "passed")]%string.
Definition sample_context : GpuWorkingBudgetContext :=
  mkContext uuid1 "engine-1" hex64 "chromium/140" uuid1 (Some hex64) (Some "2147483648"%string) (Some "1000000000"%string)
    (Some Admission) (Some 1758844810000) (Some 1758844850000) (Some 1758844900000).

Lemma gpu_budget_bound_witness :
  evaluateGpuWorkingBudget (Some sample_receipt) sample_context =
    Valid "2147483648" "1000000000" "2025-09-26T00:00:50.000Z" /\
  exists fs, Some sample_receipt = Some (JObj fs) /\ text fs "workerId" = Some uuid1.
Proof.
  assert (evaluateGpuWorkingBudget (Some sample_receipt) sample_context =
    Valid "2147483648" "1000000000" "2025-09-26T00:00:50.000Z") as H by (vm_compute; reflexivity).
  split; [exact H|].
  destruct (gpu_budget_bound (Some sample_receipt) sample_context _ _ _ H) as (fs & budget & completed & expires & E & _ & _ & W & _).
  exists fs. split; [exact E|exact W].
Defined.
